(* ===== verification/_CoqProject ===== *)
-Q . S2P
Prelude.v
Procs.v
TransLog.v
Varsup.v
Snapshot.v
Tqual.v
Heapam.v
Xact.v
Bufpage.v
Lock.v
Hashfunc.v
Bitmapset.v
Dynahash.v
DynahashMap.v
Freelist.v
FreelistInv.v
FreelistSafe.v
Buflock.v
Varlena.v
Lzcompress.v
Heaptuple.v
Indextuple.v
Numeric.v
NumericDiv.v
NumericIO.v
Nbtcompare.v
Nbtree.v
NbtTree.v
NbtQual.v
NbtScan.v
NbtDelete.v
NbtSort.v
Checksum.v
