(* ===== verification/Prelude.v ===== *)
(** * WeaverDB: the transaction and storage core

    WeaverDB is a multi-threaded rework of PostgreSQL.  This library models
    the part of its backend ([src/mtpgsql/src/backend]) that decides what a
    transaction sees, what survives a crash and who may touch what, and proves
    it correct where it is, and what goes wrong where it is not.

    ** The program and the files

    - [Procs.v] - the thread table ([storage/ipc/sinval.c],
      [storage/lmgr/multithread.c]): one slot per thread with its published
      transaction id, xmin and state.
    - [TransLog.v] - the transaction log ([access/transam/transsup.c],
      [transam.c]): two status bits per transaction id in blocks of 8 kB, the
      status tests with their one-item cache, the loop of crash recovery.
    - [Varsup.v] - ids and start-up ([varsup.c], [transam.c]): the variable
      relation, prefetching of transaction and object ids, checkpoints and low
      water marks, compaction of the log, [InitializeTransactionLog].
    - [Snapshot.v] - [GetSnapshotData] over the thread table, and the snapshot
      holder of a session with its pointers ([utils/time/tqual.c]).
    - [Tqual.v] - tuple visibility ([tqual.c]): the six [HeapTupleSatisfies*]
      routines with the hint bits they set.
    - [Heapam.v] - the header stamps of insert, delete, update, mark for
      update ([access/heap/heapam.c]) and of the vacuum mover
      ([env/vacuumlazy.c]).
    - [Xact.v] - the transaction manager ([access/transam/xact.c]) with the
      commit path of the database writer ([env/dbwriter.c]) and the
      transaction lock ([env/env.c]).
    - [Bufpage.v] - slotted pages ([storage/page/bufpage.c]).
    - [Lock.v] - the lock manager ([storage/lmgr/lock.c], [lmgr.c],
      [multithread.c]).
    - [Hashfunc.v] - hash functions ([access/hash/hashfunc.c],
      [utils/hash/hashfn.c]).
    - [Bitmapset.v] - bitmap sets ([env/bitmapset.c]).
    - [Dynahash.v] - dynamic hash tables ([utils/hash/dynahash.c]) with their
      pointers; [DynahashMap.v] - their refinement to finite maps.
    - [Freelist.v] - the buffer pool ([storage/buffer/freelist.c],
      [buf_table.c], [buf_init.c]): the lazy free list, pins, the buffer table,
      one definition per critical section; [FreelistInv.v] - the threads that
      interleave them and the invariant; [FreelistSafe.v] - its proof and the
      claims.
    - [Buflock.v] - the content locks of a buffer ([storage/buffer/bufmgr.c])
      with their condition variable.
    - [Varlena.v] - the length word of variable-length values ([postgres.h]).
    - [Lzcompress.v] - the compressor and the type lztext
      ([utils/adt/pg_lzcompress.c], [lztext.c]).
    - [Heaptuple.v] - the layout of heap tuples ([access/common/heaptuple.c],
      [tupmacs.h]): forming, reading through cached attribute offsets,
      modifying; [Indextuple.v] - forming and reading index tuples
      ([indextuple.c], [itup.h]).
    - [Numeric.v] - exact decimal numbers ([utils/adt/numeric.c]): the variable
      and the packed format, comparison, addition, subtraction,
      multiplication; [NumericDiv.v] - division and modulo; [NumericIO.v] -
      rounding, precision and scale of columns, text.
    - [Nbtcompare.v] - the comparison functions of B-tree indexes
      ([access/nbtree/nbtcompare.c]); [Nbtree.v] - one page: search keys, binary
      search, adding items, the choice of a split point, splits
      ([nbtsearch.c], [nbtinsert.c], [nbtpage.c], [nbtutils.c]); [NbtTree.v] -
      the tree: descent, moving right, insertion with splits up to a new root;
      [NbtQual.v] - the keys of a scan ([nbtutils.c], [nbtstrat.c]);
      [NbtScan.v] - scans ([nbtsearch.c], [nbtree.c]); [NbtDelete.v] - bulk
      deletion ([nbtree.c]) and an index in use; [NbtSort.v] - bulk loading
      ([nbtsort.c]).
    - [Checksum.v] - page checksums ([env/pg_crc.c], [env/pg_crc.h],
      [storage/page/bufpage.c]).

    A session ([Xact]) draws ids ([Varsup]), publishes them ([Procs]), takes
    snapshots ([Snapshot]), stamps and reads tuples ([Heapam], [Tqual]) and
    records its outcome in the log ([TransLog]).  The visibility routines see
    the rest of the system through the class [Tqual.XactView] (is this id the
    current one, running, committed, hard-committed, crashed) with the laws
    [Tqual.XactViewOk]; [Tqual.log_view] implements it over the log and the
    thread table and [Tqual.log_view_ok] proves the laws, so that the theorems
    of [Tqual] and [Heapam] hold for the real log.  Pages and locks are
    independent of the rest; bitmap sets hash with [Hashfunc].  The buffer table
    is a hash table ([Dynahash]), used through its refinement to a map; the
    content locks share the descriptor flags with the pool.  Heap tuples carry
    the header of [Tqual] and variable-length values ([Varlena]), as compressed
    texts do; index tuples are filled by the same routines.  Numerics stand alone.
    An index compares the [Datum]s of heap tuples.  Its pages are lists of items,
    and [bt_page_layout] and [layout_delete] prove that adding and deleting on the
    list is what [Bufpage] does to the bytes.  The comparison functions promise the
    tree the class [Nbtcompare.OrderProc], which every function of [Nbtcompare] but
    one instantiates; the operators promise the scans the class
    [NbtQual.StrategyOps], which [int4_ops] instantiates.

    ** How the code is modelled

    A C integer is a [Z] with the conversion written out where the code
    converts.  A struct is a record, a C array a list or a function of the
    index, shared memory a field of the state.  [elog(ERROR)] and
    [elog(FATAL)] end an operation with [Err] ([result] below); [Xact] threads
    the state through a state and error monad.  Loops are structural: over the
    list they walk, or over a count the C loop has ([TransRecover_loop] runs
    [ctid - lowwater] times, the loops of [Bufpage] run over the number of line
    pointers), or over a fuel that is proved enough (the chains of [Dynahash] are
    no longer than the heap is large), so no fuel is ever exhausted.  Where threads interleave - id
    generation ([Varsup.gen_step]), locking ([Lock.lstep]), the buffer pool
    ([FreelistInv.step]) and content locks ([Buflock.lock_step]) - the model has
    one step per critical section.  The chain that [AddBuffersToTail] walks gets
    [MaxBuffers + 1] turns, which is proved enough.

    Buffers and files are the blocks they hold; reading a block that does not
    exist fails.  The storage manager's replay is an argument of
    [InitializeTransactionLog], the list of databases and the configured
    prefetch sizes are arguments of the operations that read them.

    The B-tree runs one thread at a time; a page in a locked buffer is the page of
    the file.  Which block a new page gets ([alloc]), how the random choice of
    [_bt_insertonpg] falls ([tired]) and the functions behind the operators of a
    scan ([fmgr], [strategy_map]) are parameters.  A walk along a level or down the
    tree has one turn per page of the file and one more, a scan one per item the
    leaves can hold ([scan_fuel]: a page has fewer than 1000 items), adding to a
    level under construction one per level and one more, completing the levels
    two more than the file has pages; the theorems
    say that the operations return, so these are enough.

    ** What the theorems show

    - Log: status fields are independent and read back what was written
      ([xid_status_roundtrip]); the cache is transparent
      ([log_cache_transparent]).
    - Ids: never issued twice in any interleaving with crashes ([xids_unique]),
      which [GetNewTransactionId] refines ([GetNewTransactionId_refines]);
      recovery aborts exactly the soft commits ([TransRecover_spec]).
    - Snapshots: in a sound thread table every other transaction in progress is
      active in a snapshot ([GetSnapshotData_running]; the table is read at one
      moment); no use of freed snapshots ([snapshot_holder_safe]).
    - Visibility: every routine computes a specification that speaks of
      transaction outcomes only and sets sound hints
      ([HeapTupleSatisfiesVisibility_refines], which leaves out dirty reads of a
      tuple the reader itself marked for update,
      [HeapTupleSatisfiesUpdate_refines]); vacuum removes only what nobody can
      see, then or later in the same server run ([vacuum_dead_invisible]);
      snapshots are repeatable
      ([snapshot_repeatable]); hints survive a crash
      ([hints_survive_restart]); stamps take effect command by command
      ([heap_stamps_visibility]).
    - Transactions: the session invariant, with locks and snapshots, for sessions
      that run their own transaction ([session_invariant]), the outcome of a
      transaction that changed something ([transaction_outcome]), aborted blocks
      ([aborted_block_only_aborts]).
    - Pages: a well-formed page is a list of items, which adding, deleting and
      compacting change as they should ([PageAddItem_refines],
      [PageIndexTupleDelete_refines], [page_maintenance_refines]).
    - Checksums: the table-driven CRC is division by its polynomial
      ([crc64_table_driven]), and damage to a sampled part of a page is found
      ([page_checksum_detects]).
    - Locks: mutual exclusion and lifetime of the entry
      ([lock_mutual_exclusion]), what a request and a release do
      ([LockAcquire_spec], [LockRelease_wakes]), in runs in which no sleep is
      cancelled after its lock was granted.  [Lock.lstep] has that step too, under a
      flag, and [late_cancel_breaks_locking] shows what it does.
    - Buffers: in every interleaving of fewer than 2^32 sections outside of two
      named windows, in a pool whose lists do not start with one buffer, the free
      lists are sound, a count is the pins and what failed calls of [PutFreeBuffer]
      left behind, and no other buffer is lost ([pool_invariant]), a page is in one
      buffer ([one_buffer_per_page]), a buffer being replaced has one user
      ([replaced_buffer_exclusive]); content locks exclude each other
      ([content_lock_exclusion]).
    - Hash tables: a table is a finite map, through expansions and allocation
      failures ([hash_search_refines]), empty when created
      ([hash_create_empty]), and scans visit every element once
      ([hash_seq_complete]).
    - Libraries: bitmap sets are sets of integers ([bms_operations_refine],
      [bms_tests_refine], [bms_first_member_enumerates]); the optimised paths of
      the hash functions agree with plain loops ([hash_any_alignment],
      [unrolled_hashes]) and [mix] loses nothing ([mix_reversible]).
    - Tuples and values: what [heap_formtuple] stores [HeapGetAttr] reads back,
      with any sound offset cache ([heap_tuple_roundtrip],
      [heap_modifytuple_spec]), and so for index tuples
      ([index_tuple_roundtrip]), which have a size they can hold, up to a hole in
      the check ([index_formtuple_size]); what is compressed
      decompresses to the source ([pglz_roundtrip], [lztext_roundtrip]) and
      decompression stays within its buffer ([pglz_decompress_safe]).
    - Numerics are rationals: addition, subtraction and multiplication are exact
      ([numeric_arith_exact]), division ([numeric_div_rounds], but for quotients
      that start one place below the result scale), rounding
      ([numeric_rounding]) and columns ([numeric_typmod]) round half away from
      zero, comparison is the order ([numeric_cmp_order]), and text is read back,
      rounded at the display scale where that is smaller ([numeric_text_roundtrip]).
    - B-trees: an index is a bag of items, which insertions and bulk deletions
      change and scans enumerate in order, from nothing ([bt_session_correct]) or
      from a bulk load ([bt_load_session]), which builds the tree of any sorted
      input ([bt_load_correct]) and refuses oversized items
      ([bt_load_oversize]); insertion puts
      an item in its place whatever splits it takes ([bt_doinsert_correct],
      [bt_build_sorted]), a search finds the leaf ([bt_search_correct]), a scan
      returns exactly what its keys accept, forward and backward, or the error for
      a key list that leaves out an attribute or has an unknown operator
      ([bt_scan_correct]; keys carry no flag but the one of a null constant), bulk
      deletion removes exactly what it is told, whatever the sizes of the items
      ([bt_bulkdelete_correct]; sessions that insert have items of one width); a split loses nothing ([bt_split_correct]), the
      binary search finds the place ([bt_binsrch_correct]), text is compared
      as in a dictionary ([bttextcmp_dictionary]).
    - Defects: each of [LockReleaseAll_lost_wakeup], [late_cancel_breaks_locking],
      [now_comment_inverted], [numeric_div_cuts_small_quotient],
      [PageAddItem_failed_shuffle], [VacuumTransactionLog_keeps_one_block],
      [VacuumTransactionLog_unmarked_database], [GetNewObjectId_int_overflow],
      [mark4update_hides_moved_tuple], [dirty_read_misses_own_mark],
      [AbortTransactionBlock_orphans], [unpublished_xid_not_active],
      [hash_destroy_leaks], [PutFreeBuffer_leaks], [PutFreeBuffer_window],
      [single_buffer_stale_tail], [AddMoreBuffers_none], [unlock_lost_wakeup],
      [pglz_decompress_overread], [numeric_mod_scale], [numeric_cmp_nan],
      [make_result_weight_wraps], [numeric_out_negative_zero],
      [bt_split_hikey_overflow], [btint24cmp_overflows], [page_checksum_blind],
      [unlucky_page_unchecked], [crc_setting_inverted] and
      [crc32_table_reflected] proves that the code,
      as written, does something it should not, or not what its comment says.

    ** What is not modelled

    Parser, planner and executor, the catalogs, the client layer: they are most of
    the code and use the parts modelled here through interfaces of their own.
    Buffer I/O with its shadow pages, the write groups of the database writer
    and file access: they move pages, whose content is what is modelled.  The
    transcendental functions of numeric and the other data types, the list and
    string libraries.  Of sessions: the steps of sub-connections, which share the
    transaction of their parent (their operations are defined).  Of B-trees: the sort
    that precedes a bulk load, the uniqueness check of [_bt_doinsert], which waits for
    other transactions, the pages that [_bt_split] writes while it works, with the
    lock released, scan keys with [SK_COMMUTE] or [SK_NEGATE], which the source says are
    not handled properly, the error of [btbulkdelete] during a shutdown, the repair
    of broken levels, the removal of empty pages, marked positions, and threads that
    work on one index at the same time.  Of locks: the second removal from the wait
    queue in a late cancel, which writes through links that are no longer set.

    This file holds the notations, the integer and bit lemmas, the error type
    and the automation that the other files share. *)

From stdpp Require Export base tactics numbers list gmap strings.
From Stdlib Require Export ZArith Lia Bool.

Declare Scope weaver_scope.
Delimit Scope weaver_scope with W.
Open Scope Z_scope.
Open Scope weaver_scope.

(** ** C integers

    A machine integer is a [Z]; the conversion to a width is written out where
    the C code converts (assignment to a narrower type, unsigned arithmetic). *)

Definition u8 (z : Z) : Z := z mod 2 ^ 8.
Definition u16 (z : Z) : Z := z mod 2 ^ 16.
Definition u32 (z : Z) : Z := z mod 2 ^ 32.
Definition u64 (z : Z) : Z := z mod 2 ^ 64.

(** Signed conversion: two's complement reading of the low [w] bits. *)
Definition swrap (w z : Z) : Z :=
  let m := z mod 2 ^ w in if (m <? 2 ^ (w - 1))%Z then m else (m - 2 ^ w)%Z.
Definition i32 (z : Z) : Z := swrap 32 z.
Definition i64 (z : Z) : Z := swrap 64 z.

(** [MAXALIGN]: rounding up to 8. *)
Definition MAXALIGN (len : Z) : Z := Z.land (u64 (len + 7)) (Z.lnot 7).

(** ** Errors

    [elog(ERROR, ...)] and [elog(FATAL, ...)] do not return to the caller: an
    operation that can raise one returns a [result]. *)

Inductive result (A : Type) : Type :=
| Ok (a : A)
| Err (msg : string).
Arguments Ok {A} _.
Arguments Err {A} _.

#[export] Instance result_ret : MRet result := fun A a => Ok a.
#[export] Instance result_bind : MBind result := fun A B f m =>
  match m with Ok a => f a | Err e => Err e end.
#[export] Instance result_fmap : FMap result := fun A B f m =>
  match m with Ok a => Ok (f a) | Err e => Err e end.

Lemma result_bind_Ok {A B} (f : A -> result B) m b :
  m ≫= f = Ok b <-> exists a, m = Ok a /\ f a = Ok b.
Proof. destruct m; simpl; naive_solver. Qed.

(** [elog(ERROR)] after a failed test. *)
Definition ereport_unless (b : bool) (msg : string) : result unit :=
  if b then Ok () else Err msg.

(** ** Bits *)

(** A flag test [x & m] used as a C condition. *)
Definition flag (x m : Z) : bool := negb (Z.land x m =? 0).

Notation "x '.&' m" := (flag x m) (at level 40, no associativity) : weaver_scope.

Create HintDb wbits discriminated.

Lemma testbit_mod_pow2 a n i : 0 <= n ->
  Z.testbit (a mod 2 ^ n) i = (i <? n) && Z.testbit a i.
Proof.
  intros Hn. destruct (Z.ltb_spec i n).
  - by rewrite Z.mod_pow2_bits_low.
  - by rewrite Z.mod_pow2_bits_high by lia.
Qed.

Lemma testbit_above a n i : 0 <= a < 2 ^ n -> n <= i -> Z.testbit a i = false.
Proof.
  intros Ha Hi. destruct (decide (0 <= n)) as [Hn|Hn].
  - rewrite <- (Z.mod_small a (2 ^ n)) by done.
    rewrite testbit_mod_pow2 by done. by destruct (Z.ltb_spec i n); [lia|].
  - rewrite Z.pow_neg_r in Ha by lia. lia.
Qed.

Lemma testbit_1 i : Z.testbit 1 i = (i =? 0).
Proof.
  destruct (Z.eqb_spec i 0) as [->|]; [done|].
  destruct (decide (i < 0)); [by apply Z.testbit_neg_r|].
  apply (testbit_above 1 1); lia.
Qed.

Lemma bounded_bits a n : 0 <= n ->
  0 <= a -> (forall i, n <= i -> Z.testbit a i = false) -> a < 2 ^ n.
Proof.
  intros Hn Ha Hbits. destruct (decide (a = 0)) as [->|]; [apply Z.pow_pos_nonneg; lia|].
  apply Z.log2_lt_pow2; [lia|].
  destruct (Z.lt_ge_cases (Z.log2 a) n) as [|Hge]; [done|].
  pose proof (Z.bit_log2 a) as Hb. rewrite Hbits in Hb by lia. discriminate Hb. lia.
Qed.

(** Bounds on the bit operations at a width. *)
Lemma land_bound a b n : 0 <= n -> 0 <= a < 2 ^ n -> 0 <= Z.land a b < 2 ^ n.
Proof.
  intros Hn Ha. split; [apply Z.land_nonneg; lia|].
  apply bounded_bits; [done|apply Z.land_nonneg; lia|]. intros i Hi.
  by rewrite Z.land_spec, (testbit_above a n).
Qed.

Lemma lor_bound a b n : 0 <= n ->
  0 <= a < 2 ^ n -> 0 <= b < 2 ^ n -> 0 <= Z.lor a b < 2 ^ n.
Proof.
  intros Hn Ha Hb. split; [apply Z.lor_nonneg; lia|].
  apply bounded_bits; [done|apply Z.lor_nonneg; lia|]. intros i Hi.
  by rewrite Z.lor_spec, (testbit_above a n), (testbit_above b n).
Qed.

Lemma u64_range z : 0 <= u64 z < 2 ^ 64.
Proof. by apply Z.mod_pos_bound. Qed.
Lemma u32_range z : 0 <= u32 z < 2 ^ 32.
Proof. by apply Z.mod_pos_bound. Qed.
Lemma u16_range z : 0 <= u16 z < 2 ^ 16.
Proof. by apply Z.mod_pos_bound. Qed.
Lemma u64_id z : 0 <= z < 2 ^ 64 -> u64 z = z.
Proof. apply Z.mod_small. Qed.
Lemma u32_id z : 0 <= z < 2 ^ 32 -> u32 z = z.
Proof. apply Z.mod_small. Qed.
Lemma u16_id z : 0 <= z < 2 ^ 16 -> u16 z = z.
Proof. apply Z.mod_small. Qed.
Lemma u8_id z : 0 <= z < 2 ^ 8 -> u8 z = z.
Proof. apply Z.mod_small. Qed.
Lemma i32_id z : - 2 ^ 31 <= z < 2 ^ 31 -> i32 z = z.
Proof.
  intros Hz. unfold i32, swrap. change (32 - 1) with 31.
  destruct (Z.lt_ge_cases z 0).
  - rewrite <- (Z_mod_plus_full z 1), Z.mod_small by lia.
    destruct (Z.ltb_spec (z + 1 * 2 ^ 32) (2 ^ 31)); lia.
  - rewrite Z.mod_small by lia. destruct (Z.ltb_spec z (2 ^ 31)); lia.
Qed.
Lemma testbit_u64 z i : Z.testbit (u64 z) i = (i <? 64) && Z.testbit z i.
Proof. by apply testbit_mod_pow2. Qed.

#[export] Hint Resolve u64_range u32_range u16_range land_bound lor_bound : wbits.
#[export] Hint Rewrite Z.lor_spec Z.land_spec Z.ldiff_spec Z.lxor_spec testbit_u64 Z.bits_0
  testbit_1 : wbits.
#[export] Hint Rewrite Z.shiftl_spec Z.shiftr_spec Z.lnot_spec using lia : wbits.

(** [zbits i Hi] reduces an equation of integers to one of bit [i]. *)
Ltac zbits i Hi := apply Z.bits_inj'; intros i Hi; autorewrite with wbits.

(** A power-of-two flag is a single bit. *)
Lemma flag_pow2 x k : 0 <= k -> flag x (2 ^ k) = Z.testbit x k.
Proof.
  intros Hk. unfold flag.
  assert (Z.land x (2 ^ k) = if Z.testbit x k then 2 ^ k else 0) as ->.
  { apply Z.bits_inj'. intros i Hi. rewrite Z.land_spec, Z.pow2_bits_eqb by done.
    destruct (Z.eqb_spec k i) as [->|Hne].
    - destruct (Z.testbit x i) eqn:E; [|by rewrite Z.bits_0].
      by rewrite Z.pow2_bits_true.
    - rewrite andb_false_r. destruct (Z.testbit x k); [|by rewrite Z.bits_0].
      by rewrite Z.pow2_bits_false. }
  destruct (Z.testbit x k).
  - pose proof (Z.pow_pos_nonneg 2 k). destruct (Z.eqb_spec (2 ^ k) 0); [lia|done].
  - done.
Qed.

(** Two masks share a flag exactly when they share a bit. *)
Lemma flag_true a b : flag a b = true <-> exists i, 0 <= i /\ Z.testbit a i = true /\ Z.testbit b i = true.
Proof.
  unfold flag. rewrite negb_true_iff, Z.eqb_neq. split.
  - intros H. destruct (decide (Z.land a b = 0)) as [|Hne]; [done|].
    assert (~ forall i, 0 <= i -> Z.testbit (Z.land a b) i = false) as Hex.
    { intros Hall. apply Hne, Z.bits_inj'. intros i Hi. rewrite Hall, Z.bits_0; done. }
    destruct (Z.lt_ge_cases (Z.land a b) 0) as [Hneg|Hpos].
    + assert (a < 0 /\ b < 0) as [Ha Hb] by (rewrite Z.land_neg in Hneg; lia).
      set (n := Z.max (Z.log2 (Z.pred (- a))) (Z.log2 (Z.pred (- b))) + 1).
      exists n. pose proof (Z.log2_nonneg (Z.pred (- a))). pose proof (Z.log2_nonneg (Z.pred (- b))).
      split; [lia|]. split; apply Z.bits_above_log2_neg; lia.
    + pose proof (Z.bit_log2 (Z.land a b) ltac:(lia)) as Hb. rewrite Z.land_spec in Hb.
      apply andb_true_iff in Hb as [H1 H2]. exists (Z.log2 (Z.land a b)).
      split; [apply Z.log2_nonneg|done].
  - intros (i & Hi & Ha & Hb) H0. assert (Z.testbit (Z.land a b) i = true) as Hl
      by (rewrite Z.land_spec, Ha, Hb; done). by rewrite H0, Z.bits_0 in Hl.
Qed.

Lemma flag_false a b i : flag a b = false -> 0 <= i -> Z.testbit a i = true -> Z.testbit b i = false.
Proof.
  intros Hf Hi Ha. destruct (Z.testbit b i) eqn:Hb; [|done].
  assert (flag a b = true) by (apply flag_true; eauto). congruence.
Qed.

(** Setting and clearing flags: [x | m] and [x & ~m]. *)
Lemma flag_lor x m n : flag (Z.lor x m) n = flag x n || flag m n.
Proof.
  apply eq_true_iff_eq. rewrite orb_true_iff, !flag_true. setoid_rewrite Z.lor_spec.
  setoid_rewrite orb_true_iff. naive_solver.
Qed.

Lemma flag_clear x m n : n = 2 ^ Z.log2 n ->
  flag (Z.land x (Z.lnot m)) n = flag x n && negb (flag m n).
Proof.
  intros ->. pose proof (Z.log2_nonneg n). rewrite !flag_pow2 by done.
  by rewrite Z.land_spec, Z.lnot_spec.
Qed.

(** ** Arrays

    A C array is a list; an index is a [Z].  Reading or writing outside of the
    array is undefined in C, so the operations that could do so carry the
    bounds in their hypotheses; the total versions below return a default and
    leave the array alone. *)

Definition aget {A} (d : A) (l : list A) (i : Z) : A :=
  if (i <? 0)%Z then d else default d (l !! Z.to_nat i).
Definition aset {A} (l : list A) (i : Z) (x : A) : list A :=
  if (i <? 0)%Z then l else <[Z.to_nat i := x]> l.

Notation Zlen l := (Z.of_nat (length l)).

Lemma aset_length {A} (l : list A) i x : length (aset l i x) = length l.
Proof. unfold aset. case_match; [done|]. by rewrite length_insert. Qed.

Lemma aget_aset {A} (d : A) l i j x : 0 <= i < Zlen l ->
  aget d (aset l i x) j = if j =? i then x else aget d l j.
Proof.
  intros Hi. unfold aget, aset.
  destruct (Z.ltb_spec i 0); [lia|]. destruct (Z.ltb_spec j 0).
  { by destruct (Z.eqb_spec j i); [lia|]. }
  destruct (Z.eqb_spec j i) as [->|Hne].
  - rewrite list_lookup_insert_eq by lia. done.
  - rewrite list_lookup_insert_ne; [done|]. lia.
Qed.

Lemma aget_aset_eq {A} (d : A) l i x : 0 <= i < Zlen l -> aget d (aset l i x) i = x.
Proof. intros. rewrite aget_aset, Z.eqb_refl; done. Qed.

Lemma aget_aset_ne {A} (d : A) l i j x : j <> i -> aget d (aset l i x) j = aget d l j.
Proof.
  intros Hne. unfold aget, aset. case_match; [done|].
  destruct (Z.ltb_spec i 0); [done|]. rewrite list_lookup_insert_ne; [done|lia].
Qed.

Lemma aget_Forall {A} (P : A -> Prop) d l i : P d -> Forall P l -> P (aget d l i).
Proof.
  intros Hd Hl. unfold aget. case_match; [done|].
  destruct (l !! Z.to_nat i) eqn:E; [|done]. simpl. by eapply Forall_lookup_1.
Qed.

Lemma aset_Forall {A} (P : A -> Prop) l i x : P x -> Forall P l -> Forall P (aset l i x).
Proof. intros. unfold aset. case_match; [done|]. by apply Forall_insert. Qed.

(** Little-endian storage of an integer in [n] bytes. *)
Fixpoint le_bytes (n : nat) (z : Z) : list Z :=
  match n with O => [] | S n => z mod 256 :: le_bytes n (z / 256) end.
Fixpoint le_val (l : list Z) : Z :=
  match l with [] => 0 | b :: l => b + 256 * le_val l end.

Lemma le_bytes_length n z : length (le_bytes n z) = n.
Proof. revert z. induction n as [|n IH]; intros z; simpl; auto. Qed.

Lemma le_val_bytes n z : le_val (le_bytes n z) = z mod 256 ^ Z.of_nat n.
Proof.
  revert z. induction n as [|n IH]; intros z; [by rewrite Z.mod_1_r|]. cbn [le_bytes le_val].
  rewrite IH, Nat2Z.inj_succ, Z.pow_succ_r by lia.
  assert (0 < 256 ^ Z.of_nat n) by (apply Z.pow_pos_nonneg; lia).
  rewrite (Z.rem_mul_r z 256 (256 ^ Z.of_nat n)) by lia. lia.
Qed.

Lemma le_bytes_byte n z : Forall (fun b => 0 <= b < 256) (le_bytes n z).
Proof.
  revert z. induction n as [|n IH]; intros z; simpl; constructor; auto. by apply Z.mod_pos_bound.
Qed.

Lemma aget_app {A} (d : A) l1 l2 i : 0 <= i ->
  aget d (l1 ++ l2) i = if i <? Zlen l1 then aget d l1 i else aget d l2 (i - Zlen l1).
Proof.
  intros Hi. unfold aget. destruct (Z.ltb_spec i 0); [lia|]. destruct (Z.ltb_spec i (Zlen l1)).
  - by rewrite lookup_app_l by lia.
  - destruct (Z.ltb_spec (i - Zlen l1) 0); [lia|]. rewrite lookup_app_r by lia. do 2 f_equal. lia.
Qed.

Lemma aget_take {A} (d : A) l n i : aget d (take n l) i = if i <? Z.of_nat n then aget d l i else d.
Proof.
  unfold aget. destruct (Z.ltb_spec i 0); [by case_match|]. destruct (Z.ltb_spec i (Z.of_nat n)).
  - by rewrite lookup_take_lt by lia.
  - by rewrite lookup_take_ge by lia.
Qed.

(** [a[i] = x] on an array given as a function of its index. *)
Definition upd {A} (f : Z -> A) (i : Z) (x : A) : Z -> A := fun j => if j =? i then x else f j.

Lemma upd_eq {A} (f : Z -> A) i x : upd f i x i = x.
Proof. unfold upd. by rewrite Z.eqb_refl. Qed.
Lemma upd_ne {A} (f : Z -> A) i j x : j <> i -> upd f i x j = f j.
Proof. unfold upd. intros H. by destruct (Z.eqb_spec j i). Qed.

#[export] Hint Resolve aset_Forall : wbits.
#[export] Hint Rewrite @aset_length : wbits.

(** ** Proof automation *)

(** Split every boolean connective of a hypothesis or of the goal's tests. *)
Ltac bool_cases :=
  repeat match goal with
  | H : (_ && _) = true |- _ => apply andb_true_iff in H as [? ?]
  | H : (_ || _) = false |- _ => apply orb_false_iff in H as [? ?]
  | H : (_ =? _) = true |- _ => apply Z.eqb_eq in H
  | H : (_ =? _) = false |- _ => apply Z.eqb_neq in H
  | H : (_ <? _) = true |- _ => apply Z.ltb_lt in H
  | H : (_ <? _) = false |- _ => apply Z.ltb_ge in H
  | H : (_ <=? _) = true |- _ => apply Z.leb_le in H
  | H : (_ <=? _) = false |- _ => apply Z.leb_gt in H
  | H : negb _ = true |- _ => apply negb_true_iff in H
  | H : negb _ = false |- _ => apply negb_false_iff in H
  end.
