(* ===== verification/Procs.v ===== *)
(** * The table of running threads: storage/ipc/sinval.c, lmgr/multithread.c

    Every backend thread publishes the transaction it runs in its [THREAD]
    structure; the shared-invalidation segment holds one slot per backend with
    a pointer to that structure.  This file models the fields the transaction
    code reads and the routines that scan the slots or publish a transaction. *)

From S2P Require Import Prelude.

(** Transaction states of access/xact.h. *)
Definition TRANS_DEFAULT : Z := 0.
Definition TRANS_START : Z := 1.
Definition TRANS_INPROGRESS : Z := 2.
Definition TRANS_COMMIT : Z := 3.
Definition TRANS_ABORT : Z := 4.

(** [ThreadType] of storage/lock.h. *)
Inductive ThreadType : Type :=
| NORMAL_THREAD | POOLSWEEP_THREAD | DBWRITER_THREAD | DAEMON_THREAD | DOL_THREAD.

#[export] Instance ThreadType_eq_dec : EqDecision ThreadType.
Proof. solve_decision. Defined.

(** The transaction part of [THREAD]; [tid] stands for the structure's address. *)
Record THREAD := mkTHREAD {
  tid : Z; xid : Z; xmin : Z; state : Z; ttype : ThreadType; databaseId : Z }.

#[export] Instance THREAD_eq_dec : EqDecision THREAD.
Proof. solve_decision. Defined.

(** [segP->procState]: a slot whose [procStruct] is [INVALID_OFFSET] is [None]. *)
Definition ProcArray : Type := list (option THREAD).

(** The running threads, in slot order. *)
Fixpoint live_threads (ps : ProcArray) : list THREAD :=
  match ps with
  | [] => []
  | None :: ps => live_threads ps
  | Some t :: ps => t :: live_threads ps
  end.

(** The [for] loop with its [break] at the first matching slot. *)
Fixpoint DatabaseHasActiveBackends (ps : ProcArray) (dbid : Z) : bool :=
  match ps with
  | [] => false
  | None :: ps => DatabaseHasActiveBackends ps dbid
  | Some proc :: ps =>
      if databaseId proc =? dbid then true else DatabaseHasActiveBackends ps dbid
  end.

Fixpoint TransactionIdIsInProgress (ps : ProcArray) (x : Z) : bool :=
  match ps with
  | [] => false
  | None :: ps => TransactionIdIsInProgress ps x
  | Some proc :: ps =>
      if xid proc =? x then true else TransactionIdIsInProgress ps x
  end.

(** ** Publishing a transaction (multithread.c) *)

Definition ThreadTransactionStart (t : THREAD) (x : Z) : THREAD :=
  mkTHREAD (tid t) x x TRANS_START (ttype t) (databaseId t).

Definition ThreadTransactionEnd (t : THREAD) : THREAD :=
  mkTHREAD (tid t) (xid t) (xmin t) TRANS_COMMIT (ttype t) (databaseId t).

Definition ThreadTransactionReset (t : THREAD) : THREAD :=
  mkTHREAD (tid t) 0 0 TRANS_DEFAULT (ttype t) (databaseId t).

(** Replace the structure of the thread [tid t] in its slot. *)
Definition update_thread (ps : ProcArray) (t : THREAD) : ProcArray :=
  map (fun s => match s with
                | Some t' => if tid t' =? tid t then Some t else Some t'
                | None => None end) ps.

(** ** Lemmas *)

Lemma live_threads_elem ps t : t ∈ live_threads ps <-> Some t ∈ ps.
Proof.
  induction ps as [|[t'|] ps IH]; simpl.
  - split; intros H; by apply not_elem_of_nil in H.
  - rewrite !elem_of_cons, IH. naive_solver.
  - rewrite elem_of_cons, IH. naive_solver.
Qed.

Lemma in_progress_spec ps x :
  TransactionIdIsInProgress ps x = true <-> exists t, t ∈ live_threads ps /\ xid t = x.
Proof.
  induction ps as [|[t|] ps IH]; simpl.
  - split; [done|]. intros (t & Ht & _). by apply not_elem_of_nil in Ht.
  - destruct (Z.eqb_spec (xid t) x) as [Hx|Hx].
    + split; [|done]. intros _. exists t. split; [by left|done].
    + rewrite IH. setoid_rewrite elem_of_cons. naive_solver.
  - done.
Qed.

Lemma has_backends_spec ps db :
  DatabaseHasActiveBackends ps db = true <->
  exists t, t ∈ live_threads ps /\ databaseId t = db.
Proof.
  induction ps as [|[t|] ps IH]; simpl.
  - split; [done|]. intros (t & Ht & _). by apply not_elem_of_nil in Ht.
  - destruct (Z.eqb_spec (databaseId t) db) as [Hx|Hx].
    + split; [|done]. intros _. exists t. split; [by left|done].
    + rewrite IH. setoid_rewrite elem_of_cons. naive_solver.
  - done.
Qed.

Lemma update_thread_elem ps t u :
  Some u ∈ update_thread ps t ->
  u = t \/ (Some u ∈ ps /\ tid u <> tid t).
Proof.
  unfold update_thread. rewrite list_elem_of_fmap. intros ([t'|] & Hu & Hin); [|done].
  destruct (Z.eqb_spec (tid t') (tid t)); naive_solver.
Qed.

#[export] Hint Resolve live_threads_elem : wbits.
