(* ===== verification/TransLog.v ===== *)
(** * The transaction status log: access/transam/transsup.c and transam.c

    [pg_log] packs the status of every transaction into two bits of a raw disk
    block.  This file models the bit packing ([TransBlockGetXidStatus],
    [TransBlockSetXidStatus]), the block arithmetic ([TransComputeBlockNumber]),
    the relation-level accessors, the status tests of transam.c with their
    one-item cache, and crash recovery ([TransRecover]). *)

From S2P Require Import Prelude Procs.

(** ** Constants of transam.h and config.h (64-bit build, 8K blocks) *)

Definition BLCKSZ : Z := 8192.
Definition sizeof_long : Z := 8.
Definition TP_DataSize : Z := BLCKSZ.
Definition TP_NumXidStatusPerBlock : Z := TP_DataSize * 4.

Definition XID_COMMIT : Z := 3.
Definition XID_ABORT : Z := 1.
Definition XID_INPROGRESS : Z := 0.
Definition XID_SOFT_COMMIT : Z := 2.

Definition XID_COMMIT_TEST : Z := 2.
Definition XID_SOFT_COMMIT_TEST : Z := 3.
Definition XID_HARD_COMMIT_TEST : Z := 4.
Definition XID_ABORT_TEST : Z := 1.
Definition XID_INPROGRESS_TEST : Z := 0.

Definition InvalidTransactionId : Z := 0.
Definition AmiTransactionId : Z := 512.
Definition FirstTransactionId : Z := 514.
Definition TransactionIdIsValid (xid : Z) : bool := negb (xid =? InvalidTransactionId).

Definition LogRelationName : string := "pg_log".

(** A log block seen through the [unsigned long*] the code reads it with. *)
Definition Block : Type := list Z.
Definition block_words : Z := BLCKSZ / sizeof_long.
Definition zero_block : Block := replicate (Z.to_nat block_words) 0.

Definition block_wf (b : Block) : Prop :=
  Zlen b = block_words /\ Forall (fun w => 0 <= w < 2 ^ 64) b.

(** ** Two bits of a block *)

(** [tb_size = sizeof(seg) * 4]: the statuses held by one word. *)
Definition tb_size : Z := sizeof_long * 4.

Definition TransBlockGetXidStatus (tblock : Block) (transactionId : Z) : Z :=
  let mask := 3 in
  let index := u32 (transactionId mod TP_NumXidStatusPerBlock) in
  let seg := index / tb_size in
  let seg := aget 0 tblock seg in
  let seg := Z.shiftr seg ((tb_size * 2 - 2) - (index mod tb_size) * 2) in
  let seg := Z.land seg mask in
  u8 seg.

Definition TransBlockSetXidStatus (tblock : Block) (transactionId : Z) (xstatus : Z) : Block :=
  let index := u32 (transactionId mod TP_NumXidStatusPerBlock) in
  let '(mask, seg) :=
    if xstatus =? XID_SOFT_COMMIT then (0, 2)
    else if xstatus =? XID_ABORT then (3, 1)
    else if xstatus =? XID_INPROGRESS then (3, 0)
    else if xstatus =? XID_COMMIT then (3, 3)
    else (3, 0) (* elog(NOTICE, ... "(ignored)") *) in
  let shift := (index mod tb_size) * 2 in
  let seg := u64 (Z.shiftl seg ((tb_size * 2 - 2) - shift)) in
  let mask := u64 (Z.shiftl mask ((tb_size * 2 - 2) - shift)) in
  let ref := aget 0 tblock (index / tb_size) in
  let ref := Z.land ref (u64 (Z.lnot mask)) in
  let ref := Z.lor ref seg in
  aset tblock (index / tb_size) ref.

(** ** The log relation *)

(** A relation as these routines use it: its name and its blocks.  A block the
    buffer manager cannot produce has no entry. *)
Record Relation := mkRelation { relname : string; rd_blocks : gmap Z Block }.

(** The shared variable cache (VariableCacheData of transam.h). *)
Record VariableCacheData := mkVariableCache {
  xid_count : Z; nextXid : Z; xid_low_water_mark : Z; xid_checkpoint : Z }.

Definition ReadBuffer (r : Relation) (blk : Z) : option Block := rd_blocks r !! blk.

(** [WriteBuffer] or [FlushBuffer]: the changed block is in the pool either way. *)
Definition WriteBuffer (r : Relation) (blk : Z) (b : Block) : Relation :=
  mkRelation (relname r) (<[blk := b]> (rd_blocks r)).

(** [unsigned long] arithmetic: both [< 0] tests of the source are false for
    every value, so no branch is written for them. *)
Definition TransComputeBlockNumber (vc : VariableCacheData) (relation : Relation)
    (transactionId : Z) : result Z :=
  if bool_decide (relname relation = LogRelationName) then
    let itemsPerBlock := TP_NumXidStatusPerBlock in
    let blocksToRemove := xid_low_water_mark vc / itemsPerBlock in
    let absoluteBlocks := transactionId / itemsPerBlock in
    Ok (u64 (absoluteBlocks - blocksToRemove))
  else Err "TransComputeBlockNumber: unknown relation".

Definition TransBlockNumberGetXidStatus (vc : VariableCacheData) (relation : Relation)
    (xid : Z) : result Z :=
  if negb (TransactionIdIsValid xid) then Err "testing invalid transaction id"
  else if xid_low_water_mark vc >? xid then Ok XID_COMMIT
  else
    blockNumber ← TransComputeBlockNumber vc relation xid;
    if blockNumber >? 32 * 1024 then Ok XID_ABORT
    else match ReadBuffer relation blockNumber with
         | None => Err "bad buffer read in transaction management"
         | Some block => Ok (TransBlockGetXidStatus block xid)
         end.

Definition TransBlockNumberSetXidStatus (vc : VariableCacheData) (relation : Relation)
    (xid xstatus : Z) : result Relation :=
  blockNumber ← TransComputeBlockNumber vc relation xid;
  match ReadBuffer relation blockNumber with
  | None => Err "bad buffer read in transaction management"
  | Some block =>
      Ok (WriteBuffer relation blockNumber (TransBlockSetXidStatus block xid xstatus))
  end.

(** ** The two-bit field lemmas *)

(** What a write of [xstatus] makes of a field that held [old]: a soft commit
    only sets the high bit, the others replace the field. *)
Definition status_after (old xstatus : Z) : Z :=
  if xstatus =? XID_SOFT_COMMIT then Z.lor old 2
  else if xstatus =? XID_ABORT then 1
  else if xstatus =? XID_COMMIT then 3
  else 0.

Lemma testbit_3 i : 0 <= i -> Z.testbit 3 i = (i <? 2).
Proof.
  intros Hi. change 3 with (Z.ones 2). destruct (Z.ltb_spec i 2).
  - by apply Z.ones_spec_low.
  - apply Z.ones_spec_high; lia.
Qed.

Lemma small_field_high s i : 0 <= s <= 3 -> i < 0 \/ 2 <= i -> Z.testbit s i = false.
Proof.
  intros Hs [Hi|Hi]; [by apply Z.testbit_neg_r|].
  apply (testbit_above s 2); [change (2 ^ 2) with 4|]; lia.
Qed.

Lemma field_update ref m s p q :
  0 <= m <= 3 -> 0 <= s <= 3 -> 0 <= p <= 62 -> 0 <= q <= 62 ->
  p = q \/ p + 2 <= q \/ q + 2 <= p ->
  Z.land (Z.shiftr (Z.lor (Z.land ref (u64 (Z.lnot (u64 (Z.shiftl m p)))))
                          (u64 (Z.shiftl s p))) q) 3 =
  if p =? q then Z.lor (Z.land (Z.land (Z.shiftr ref q) 3) (Z.lnot m)) s
  else Z.land (Z.shiftr ref q) 3.
Proof.
  intros Hm Hs Hp Hq Hpq. apply Z.bits_inj'. intros i Hi.
  rewrite Z.land_spec, Z.shiftr_spec by done.
  rewrite Z.lor_spec, Z.land_spec, !testbit_u64, Z.lnot_spec by lia.
  rewrite testbit_u64, !Z.shiftl_spec, testbit_3 by lia.
  destruct (Z.ltb_spec i 2) as [Hlt|Hge].
  - destruct (Z.ltb_spec (i + q) 64) as [_|]; [|lia].
    rewrite andb_true_r. simpl. destruct (Z.eqb_spec p q) as [->|Hne].
    + rewrite Z.add_simpl_r, Z.lor_spec, !Z.land_spec, Z.lnot_spec, Z.shiftr_spec, testbit_3
        by lia.
      destruct (Z.ltb_spec i 2); [|lia]. by rewrite andb_true_r.
    + rewrite !(small_field_high _ (i + q - p)) by lia.
      rewrite Z.land_spec, Z.shiftr_spec, testbit_3 by lia.
      destruct (Z.ltb_spec i 2); [|lia]. rewrite orb_false_r. simpl. by rewrite !andb_true_r.
  - rewrite andb_false_r. destruct (Z.eqb_spec p q).
    + rewrite Z.lor_spec, !Z.land_spec, testbit_3, (small_field_high s) by lia.
      destruct (Z.ltb_spec i 2); [lia|]. by rewrite andb_false_r.
    + rewrite Z.land_spec, testbit_3 by lia. destruct (Z.ltb_spec i 2); [lia|].
      by rewrite andb_false_r.
Qed.

Lemma land_3_range z : 0 <= Z.land z 3 <= 3.
Proof.
  assert (Z.land z 3 = z mod 4) as -> by (apply (Z.land_ones z 2); lia).
  pose proof (Z.mod_pos_bound z 4). lia.
Qed.

Lemma u8_status z : u8 (Z.land z 3) = Z.land z 3.
Proof. pose proof (land_3_range z). apply u8_id. lia. Qed.

(** The position of a transaction's field: word index and shift. *)
Definition xid_index (xid : Z) : Z := xid mod TP_NumXidStatusPerBlock.
Definition xid_shift (xid : Z) : Z := 62 - (xid_index xid mod 32) * 2.

Lemma xid_index_range x : 0 <= xid_index x < 32768.
Proof. by apply Z.mod_pos_bound. Qed.
Lemma xid_index_u32 x : u32 (x mod TP_NumXidStatusPerBlock) = xid_index x.
Proof. pose proof (xid_index_range x). apply u32_id. unfold xid_index in *. lia. Qed.
Lemma xid_word_range x : 0 <= xid_index x / 32 < 1024.
Proof. pose proof (xid_index_range x). split; [apply Z.div_pos|apply Z.div_lt_upper_bound]; lia. Qed.
Lemma xid_shift_range x : 0 <= xid_shift x <= 62.
Proof. unfold xid_shift. pose proof (Z.mod_pos_bound (xid_index x) 32). lia. Qed.

(** Two fields of one word coincide or are disjoint. *)
Lemma xid_shift_sep x y : xid_index x / 32 = xid_index y / 32 ->
  (xid_index x = xid_index y /\ xid_shift x = xid_shift y) \/
  (xid_index x <> xid_index y /\
   (xid_shift x + 2 <= xid_shift y \/ xid_shift y + 2 <= xid_shift x)).
Proof.
  intros Hw. unfold xid_shift.
  pose proof (Z.div_mod (xid_index x) 32). pose proof (Z.div_mod (xid_index y) 32).
  pose proof (Z.mod_pos_bound (xid_index x) 32). pose proof (Z.mod_pos_bound (xid_index y) 32).
  destruct (decide (xid_index x = xid_index y)) as [E|E]; [left; rewrite E; lia|].
  right. split; [done|]. lia.
Qed.

Lemma get_status_eq b x :
  TransBlockGetXidStatus b x = Z.land (Z.shiftr (aget 0 b (xid_index x / 32)) (xid_shift x)) 3.
Proof.
  unfold TransBlockGetXidStatus. rewrite xid_index_u32. unfold tb_size, sizeof_long.
  change (8 * 4) with 32. apply u8_status.
Qed.

Definition status_mask (st : Z) : Z := if st =? XID_SOFT_COMMIT then 0 else 3.
Definition status_seg (st : Z) : Z :=
  if st =? XID_SOFT_COMMIT then 2 else if st =? XID_ABORT then 1
  else if st =? XID_COMMIT then 3 else 0.

Lemma set_status_eq b x st :
  TransBlockSetXidStatus b x st =
  aset b (xid_index x / 32)
    (Z.lor (Z.land (aget 0 b (xid_index x / 32))
                   (u64 (Z.lnot (u64 (Z.shiftl (status_mask st) (xid_shift x))))))
           (u64 (Z.shiftl (status_seg st) (xid_shift x)))).
Proof.
  unfold TransBlockSetXidStatus, status_mask, status_seg. rewrite xid_index_u32.
  unfold xid_shift, tb_size, sizeof_long. change (8 * 4) with 32. change (32 * 2 - 2) with 62.
  unfold XID_SOFT_COMMIT, XID_ABORT, XID_INPROGRESS, XID_COMMIT.
  destruct (Z.eqb_spec st 2), (Z.eqb_spec st 1), (Z.eqb_spec st 0), (Z.eqb_spec st 3); try lia; done.
Qed.

Lemma status_after_eq old st : 0 <= old <= 3 ->
  Z.lor (Z.land old (Z.lnot (status_mask st))) (status_seg st) = status_after old st.
Proof.
  intros Hold. unfold status_mask, status_seg, status_after.
  assert (old = 0 \/ old = 1 \/ old = 2 \/ old = 3) as Hc by lia.
  repeat case_match; destruct Hc as [->|[->|[->| ->]]]; done.
Qed.

(** Reading any field after a write. *)
Lemma get_set_status b x y st : block_wf b ->
  TransBlockGetXidStatus (TransBlockSetXidStatus b x st) y =
  if xid_index x =? xid_index y then status_after (TransBlockGetXidStatus b x) st
  else TransBlockGetXidStatus b y.
Proof.
  intros [Hlen _]. rewrite set_status_eq, !get_status_eq.
  pose proof (xid_word_range x) as Hwx. pose proof (xid_shift_range x). pose proof (xid_shift_range y).
  assert (0 <= status_mask st <= 3 /\ 0 <= status_seg st <= 3) as [Hm Hs].
  { unfold status_mask, status_seg. repeat case_match; lia. }
  destruct (decide (xid_index y / 32 = xid_index x / 32)) as [Hw|Hw].
  - rewrite Hw, aget_aset_eq by (rewrite Hlen; done).
    destruct (xid_shift_sep x y) as [[Hi Hsh]|[Hi Hsh]]; [done| |].
    + rewrite field_update by lia. rewrite Hi, Z.eqb_refl, <- Hsh, Z.eqb_refl.
      apply status_after_eq, land_3_range.
    + rewrite field_update by lia.
      destruct (Z.eqb_spec (xid_shift x) (xid_shift y)); [lia|].
      by destruct (Z.eqb_spec (xid_index x) (xid_index y)).
  - rewrite aget_aset_ne by done. destruct (Z.eqb_spec (xid_index x) (xid_index y)) as [E|]; [|done].
    by rewrite E in Hw.
Qed.

Lemma set_status_wf b x st : block_wf b -> block_wf (TransBlockSetXidStatus b x st).
Proof.
  intros [Hlen Hall]. rewrite set_status_eq. split; [by rewrite aset_length|].
  apply aset_Forall; [|done]. apply lor_bound; [lia| |apply u64_range].
  apply land_bound; [lia|]. apply (aget_Forall (fun w => 0 <= w < 2 ^ 64)); [lia|done].
Qed.

Lemma zero_block_wf : block_wf zero_block.
Proof.
  split; [done|]. unfold zero_block. apply Forall_replicate. lia.
Qed.

Lemma get_zero_block x : TransBlockGetXidStatus zero_block x = XID_INPROGRESS.
Proof.
  rewrite get_status_eq. assert (aget 0 zero_block (xid_index x / 32) = 0) as ->.
  { apply (aget_Forall (fun w => w = 0)); [done|]. by apply Forall_replicate. }
  by rewrite Z.shiftr_0_l.
Qed.

#[export] Hint Resolve set_status_wf zero_block_wf : wbits.

(** ** Status tests: transam.c *)

(** The one-item cache of [TransactionInfo]. *)
Record XidCache := mkXidCache { cachedTestXid : Z; cachedTestXidStatus : Z }.

(** What the tests read: the initialisation flag, the variable cache, [pg_log],
    the caller's cache and the thread table. *)
Record LogState := mkLogState {
  TransactionSystemInitialized : bool;
  ShmemVariableCache : VariableCacheData;
  LogRelation : Relation;
  xcache : XidCache;
  procs : ProcArray }.

Definition set_xcache (s : LogState) (c : XidCache) : LogState :=
  mkLogState (TransactionSystemInitialized s) (ShmemVariableCache s) (LogRelation s) c (procs s).
Definition set_log (s : LogState) (r : Relation) : LogState :=
  mkLogState (TransactionSystemInitialized s) (ShmemVariableCache s) r (xcache s) (procs s).
Definition set_vcache (s : LogState) (v : VariableCacheData) : LogState :=
  mkLogState (TransactionSystemInitialized s) v (LogRelation s) (xcache s) (procs s).

(** [fail] stays false on every path of [TransBlockNumberGetXidStatus], so the
    closing "failed to get xidstatus" error has no model.  The cache keeps its
    update when the mask is unknown. *)
Definition TransactionLogTest (s : LogState) (transactionId mask : Z) : result bool * LogState :=
  if negb (TransactionSystemInitialized s) then (Ok (mask =? XID_COMMIT_TEST), s)
  else if transactionId =? InvalidTransactionId then (Ok (mask =? XID_ABORT_TEST), s)
  else
    let r := if transactionId =? cachedTestXid (xcache s) then Ok (cachedTestXidStatus (xcache s))
             else TransBlockNumberGetXidStatus (ShmemVariableCache s) (LogRelation s) transactionId in
    match r with
    | Err e => (Err e, s)
    | Ok xidstatus =>
        let s := if (xidstatus =? XID_COMMIT) || (xidstatus =? XID_ABORT)
                 then set_xcache s (mkXidCache transactionId xidstatus) else s in
        (if mask =? XID_COMMIT_TEST then Ok (xidstatus .& 2)
         else if mask =? XID_ABORT_TEST then Ok (xidstatus =? XID_ABORT)
         else if mask =? XID_HARD_COMMIT_TEST then Ok (xidstatus =? XID_COMMIT)
         else if mask =? XID_SOFT_COMMIT_TEST then Ok (xidstatus =? XID_SOFT_COMMIT)
         else if mask =? XID_INPROGRESS_TEST then Ok (xidstatus =? XID_INPROGRESS)
         else Err "unknown xid test", s)
    end.

Definition TransactionLogUpdate (s : LogState) (transactionId status : Z) : result LogState :=
  if negb (TransactionSystemInitialized s) then Ok s
  else
    r ← TransBlockNumberSetXidStatus (ShmemVariableCache s) (LogRelation s) transactionId status;
    Ok (set_xcache (set_log s r) (mkXidCache transactionId status)).

Definition TransactionIdDidCommit (s : LogState) (x : Z) : result bool * LogState :=
  if negb (TransactionSystemInitialized s) then (Ok true, s)
  else TransactionLogTest s x XID_COMMIT_TEST.

Definition TransactionIdDidAbort (s : LogState) (x : Z) : result bool * LogState :=
  if negb (TransactionSystemInitialized s) then (Ok false, s)
  else TransactionLogTest s x XID_ABORT_TEST.

Definition TransactionIdDidSoftCommit (s : LogState) (x : Z) : result bool * LogState :=
  if negb (TransactionSystemInitialized s) then (Ok false, s)
  else TransactionLogTest s x XID_SOFT_COMMIT_TEST.

Definition TransactionIdDidHardCommit (s : LogState) (x : Z) : result bool * LogState :=
  if negb (TransactionSystemInitialized s) then (Ok false, s)
  else TransactionLogTest s x XID_HARD_COMMIT_TEST.

(** varsup.c *)
Definition TransactionIdBeforeCheckpoint (vc : VariableCacheData) (x : Z) : result bool :=
  if negb (TransactionIdIsValid x) then Err "testing invalid id for checkpoint"
  else Ok (x <? xid_checkpoint vc).

(** In progress on the log, and either older than the checkpoint or run by no
    thread; the log is read a second time before the verdict. *)
Definition TransactionIdDidCrash (s : LogState) (x : Z) : result bool * LogState :=
  if negb (TransactionSystemInitialized s) then (Ok false, s)
  else
    match TransactionLogTest s x XID_INPROGRESS_TEST with
    | (Err e, s) => (Err e, s)
    | (Ok false, s) => (Ok false, s)
    | (Ok true, s) =>
        match TransactionIdBeforeCheckpoint (ShmemVariableCache s) x with
        | Err e => (Err e, s)
        | Ok before =>
            if before || negb (TransactionIdIsInProgress (procs s) x)
            then TransactionLogTest s x XID_INPROGRESS_TEST
            else (Ok false, s)
        end
    end.

(** ** The reference semantics: one status per transaction *)

(** The status the log records for [x], without the cache. *)
Definition log_status (s : LogState) (x : Z) : result Z :=
  TransBlockNumberGetXidStatus (ShmemVariableCache s) (LogRelation s) x.

(** The cache holds only what the log says. *)
Definition cache_coherent (s : LogState) : Prop :=
  let c := xcache s in
  cachedTestXid c = InvalidTransactionId \/
  (log_status s (cachedTestXid c) = Ok (cachedTestXidStatus c) /\
   (cachedTestXidStatus c = XID_COMMIT \/ cachedTestXidStatus c = XID_ABORT)).

(** The answer a test mask stands for. *)
Definition status_test (mask st : Z) : bool :=
  if mask =? XID_COMMIT_TEST then st .& 2
  else if mask =? XID_ABORT_TEST then st =? XID_ABORT
  else if mask =? XID_HARD_COMMIT_TEST then st =? XID_COMMIT
  else if mask =? XID_SOFT_COMMIT_TEST then st =? XID_SOFT_COMMIT
  else st =? XID_INPROGRESS.

Definition valid_mask (mask : Z) : Prop := 0 <= mask <= 4.

Lemma log_test_status s x st mask :
  TransactionSystemInitialized s = true -> cache_coherent s -> valid_mask mask ->
  x <> InvalidTransactionId -> log_status s x = Ok st ->
  exists s', TransactionLogTest s x mask = (Ok (status_test mask st), s') /\
    cache_coherent s' /\ set_xcache s' (xcache s) = s /\ log_status s' = log_status s.
Proof.
  intros Hinit Hc Hmask Hx Hst. unfold TransactionLogTest. rewrite Hinit. simpl.
  destruct (Z.eqb_spec x InvalidTransactionId); [done|].
  assert ((if x =? cachedTestXid (xcache s) then Ok (cachedTestXidStatus (xcache s))
           else TransBlockNumberGetXidStatus (ShmemVariableCache s) (LogRelation s) x) = Ok st) as ->.
  { destruct (Z.eqb_spec x (cachedTestXid (xcache s))) as [E|]; [|done].
    destruct Hc as [Hc|[Hc _]]; [congruence|]. rewrite E in Hst. congruence. }
  eexists. split.
  { f_equal. unfold status_test, valid_mask in *.
    unfold XID_COMMIT_TEST, XID_ABORT_TEST, XID_HARD_COMMIT_TEST, XID_SOFT_COMMIT_TEST,
      XID_INPROGRESS_TEST in *. repeat case_match; bool_cases; try done; lia. }
  destruct ((st =? XID_COMMIT) || (st =? XID_ABORT)) eqn:E; [|by destruct s].
  split; [|by destruct s]. right. simpl. split; [done|].
  apply orb_true_iff in E as [E|E]; bool_cases; auto.
Qed.

(** ** The log relation as a status map *)

Definition log_wf (r : Relation) : Prop :=
  relname r = LogRelationName /\ map_Forall (fun _ b => block_wf b) (rd_blocks r).

(** The block of a transaction at or above the low water mark. *)
Definition xid_block (vc : VariableCacheData) (x : Z) : Z :=
  x / TP_NumXidStatusPerBlock - xid_low_water_mark vc / TP_NumXidStatusPerBlock.

(** [x] is a 64-bit id recorded in [pg_log]: not below the low water mark and
    within the 32K blocks the reader accepts. *)
Definition xid_logged (vc : VariableCacheData) (x : Z) : Prop :=
  0 <= xid_low_water_mark vc <= x /\ 0 < x < 2 ^ 64 /\ xid_block vc x <= 32 * 1024.

Lemma xid_block_range vc x : 0 <= xid_low_water_mark vc <= x -> x < 2 ^ 64 ->
  0 <= xid_block vc x < 2 ^ 64.
Proof.
  intros Hlow Hx. unfold xid_block, TP_NumXidStatusPerBlock, TP_DataSize, BLCKSZ.
  change (8192 * 4) with 32768.
  pose proof (Z.div_le_mono (xid_low_water_mark vc) x 32768).
  pose proof (Z.div_pos (xid_low_water_mark vc) 32768).
  pose proof (Z.div_le_upper_bound x 32768 (2 ^ 64 - 1)). lia.
Qed.

Lemma compute_block vc r x : relname r = LogRelationName ->
  0 <= xid_low_water_mark vc <= x -> x < 2 ^ 64 ->
  TransComputeBlockNumber vc r x = Ok (xid_block vc x).
Proof.
  intros Hr Hlow Hx. unfold TransComputeBlockNumber. rewrite bool_decide_true by done.
  f_equal. by apply u64_id, xid_block_range.
Qed.

(** Two logged ids share a field only when they are equal. *)
Lemma xid_field_inj vc x y :
  xid_block vc x = xid_block vc y -> xid_index x = xid_index y -> x = y.
Proof.
  unfold xid_block, xid_index, TP_NumXidStatusPerBlock, TP_DataSize, BLCKSZ.
  change (8192 * 4) with 32768. intros Hb Hi.
  rewrite (Z.div_mod x 32768), (Z.div_mod y 32768) by lia.
  rewrite Hi. assert (x / 32768 = y / 32768) as -> by lia. done.
Qed.

Lemma get_status_logged vc r x : relname r = LogRelationName -> xid_logged vc x ->
  TransBlockNumberGetXidStatus vc r x =
  match rd_blocks r !! xid_block vc x with
  | Some b => Ok (TransBlockGetXidStatus b x)
  | None => Err "bad buffer read in transaction management"
  end.
Proof.
  intros Hr (Hlow & Hx & Hb). unfold TransBlockNumberGetXidStatus, TransactionIdIsValid.
  destruct (Z.eqb_spec x InvalidTransactionId) as [E|_]; [unfold InvalidTransactionId in E; lia|]. simpl.
  destruct (Z.gtb_spec (xid_low_water_mark vc) x); [lia|].
  rewrite compute_block by (done || lia). simpl.
  destruct (Z.gtb_spec (xid_block vc x) (32 * 1024)); [lia|]. done.
Qed.

Lemma set_status_logged vc r x st r' : relname r = LogRelationName ->
  xid_logged vc x -> TransBlockNumberSetXidStatus vc r x st = Ok r' ->
  exists b, rd_blocks r !! xid_block vc x = Some b /\
    r' = WriteBuffer r (xid_block vc x) (TransBlockSetXidStatus b x st).
Proof.
  intros Hr (Hlow & Hx & Hb). unfold TransBlockNumberSetXidStatus.
  rewrite compute_block by (done || lia). simpl. unfold ReadBuffer.
  destruct (rd_blocks r !! xid_block vc x) as [b|]; [|done]. naive_solver.
Qed.

Lemma write_log_wf r blk b : log_wf r -> block_wf b -> log_wf (WriteBuffer r blk b).
Proof. intros [Hr Hb] ?. split; [done|]. simpl. by apply map_Forall_insert_2. Qed.

(** The ways a 64-bit id is answered. *)
Lemma get_status_cases vc y : 0 <= xid_low_water_mark vc -> 0 <= y < 2 ^ 64 ->
  (exists res, forall r, relname r = LogRelationName ->
     TransBlockNumberGetXidStatus vc r y = res) \/ xid_logged vc y.
Proof.
  intros Hlow Hy.
  destruct (decide (y = 0)) as [->|]; [left; by exists (Err "testing invalid transaction id")|].
  destruct (decide (xid_low_water_mark vc > y)).
  { left. exists (Ok XID_COMMIT). intros r Hr. unfold TransBlockNumberGetXidStatus, TransactionIdIsValid.
    destruct (Z.eqb_spec y InvalidTransactionId); [done|]. simpl.
    by destruct (Z.gtb_spec (xid_low_water_mark vc) y); [|lia]. }
  destruct (decide (xid_block vc y <= 32 * 1024)); [right; unfold xid_logged; lia|].
  left. exists (Ok XID_ABORT). intros r Hr. unfold TransBlockNumberGetXidStatus, TransactionIdIsValid.
  destruct (Z.eqb_spec y InvalidTransactionId); [done|]. simpl.
  destruct (Z.gtb_spec (xid_low_water_mark vc) y); [lia|].
  rewrite compute_block by (done || lia). simpl.
  by destruct (Z.gtb_spec (xid_block vc y) (32 * 1024)); [|lia].
Qed.

(** Writing one status: that transaction's status changes as [status_after]
    says, no other readable status does. *)
Lemma set_get_rel vc r x st r' y :
  log_wf r -> xid_logged vc x -> 0 <= y < 2 ^ 64 ->
  TransBlockNumberSetXidStatus vc r x st = Ok r' ->
  TransBlockNumberGetXidStatus vc r' y =
  if x =? y then (fun old => status_after old st) <$> TransBlockNumberGetXidStatus vc r x
  else TransBlockNumberGetXidStatus vc r y.
Proof.
  intros [Hr Hwf] Hx Hy Hset. destruct (set_status_logged _ _ _ _ _ Hr Hx Hset) as (b & Hb & ->).
  assert (block_wf b) as Hbwf by (by eapply (map_Forall_lookup_1 (fun _ b => block_wf b))).
  destruct (Z.eqb_spec x y) as [<-|Hne].
  - rewrite !get_status_logged by done. rewrite Hb. simpl. rewrite lookup_insert_eq. simpl.
    by rewrite get_set_status, Z.eqb_refl.
  - destruct (get_status_cases vc y) as [[res Hres]|Hly]; [unfold xid_logged in Hx; lia|done| |].
    { by rewrite !Hres. }
    rewrite !get_status_logged by done. simpl.
    destruct (decide (xid_block vc x = xid_block vc y)) as [E|E].
    + rewrite <- E, lookup_insert_eq, Hb, get_set_status by done.
      destruct (Z.eqb_spec (xid_index x) (xid_index y)); [|done].
      by destruct Hne; eapply xid_field_inj.
    + by rewrite lookup_insert_ne.
Qed.

Lemma set_rel_wf vc r x st r' : log_wf r -> xid_logged vc x ->
  TransBlockNumberSetXidStatus vc r x st = Ok r' ->
  log_wf r' /\ dom (rd_blocks r') = dom (rd_blocks r).
Proof.
  intros Hwf Hx Hset. destruct (set_status_logged _ _ _ _ _ (proj1 Hwf) Hx Hset) as (b & Hb & ->).
  split.
  - apply write_log_wf; [done|]. apply set_status_wf.
    by eapply (map_Forall_lookup_1 (fun _ b => block_wf b)), Hb; apply Hwf.
  - simpl. rewrite dom_insert_L. apply elem_of_dom_2 in Hb. set_solver.
Qed.

(** ** Crash recovery *)

(** One iteration of the [while] of [TransRecover].  [rollback] is never set in
    the source (the assignment is commented out).  The buffer the loop keeps
    pinned is the shared copy, so the block is the relation's current one.
    [while (!BufferIsValid(buffer))] retries for ever on a block the buffer
    manager cannot produce: that case has no result and is written as an error. *)
Definition TransRecover_step (rollback : bool) (mark : Z) (s : LogState) : result LogState :=
  localblock ← TransComputeBlockNumber (ShmemVariableCache s) (LogRelation s) mark;
  match ReadBuffer (LogRelation s) localblock with
  | None => Err "ReadBuffer retried for ever"
  | Some block =>
      if rollback then
        Ok (set_log s (WriteBuffer (LogRelation s) localblock
                         (TransBlockSetXidStatus block mark XID_ABORT)))
      else
        match TransactionIdDidSoftCommit s mark with
        | (Err e, _) => Err e
        | (Ok false, s) => Ok s
        | (Ok true, s) =>
            Ok (set_log s (WriteBuffer (LogRelation s) localblock
                             (TransBlockSetXidStatus block mark XID_ABORT)))
        end
  end.

(** [while (mark < ctid)]: [n] is the number of ids left. *)
Fixpoint TransRecover_loop (n : nat) (mark : Z) (s : LogState) : result LogState :=
  match n with
  | O => Ok s
  | S n => s ← TransRecover_step false mark s; TransRecover_loop n (mark + 1) s
  end.

(** The effect of recovery on one status. *)
Definition recovered (st : Z) : Z := if st =? XID_SOFT_COMMIT then XID_ABORT else st.

(** What every step of recovery needs and keeps. *)
Record log_inv (s : LogState) : Prop := {
  li_init : TransactionSystemInitialized s = true;
  li_low : 0 <= xid_low_water_mark (ShmemVariableCache s);
  li_wf : log_wf (LogRelation s);
  li_cache : cache_coherent s }.

Definition xid_present (s : LogState) (x : Z) : Prop :=
  xid_logged (ShmemVariableCache s) x /\
  is_Some (rd_blocks (LogRelation s) !! xid_block (ShmemVariableCache s) x).

Lemma status_range b x : 0 <= TransBlockGetXidStatus b x <= 3.
Proof. rewrite get_status_eq. apply land_3_range. Qed.

Lemma present_status s x : log_inv s -> xid_present s x ->
  exists b, rd_blocks (LogRelation s) !! xid_block (ShmemVariableCache s) x = Some b /\
    log_status s x = Ok (TransBlockGetXidStatus b x).
Proof.
  intros Hi [Hx [b Hb]]. exists b. split; [done|]. unfold log_status.
  rewrite get_status_logged by (done || apply Hi). by rewrite Hb.
Qed.

(** Rewriting one logged status in place keeps the invariant when the cache
    does not hold that transaction. *)
Lemma write_status_inv s x st b :
  log_inv s -> xid_present s x ->
  rd_blocks (LogRelation s) !! xid_block (ShmemVariableCache s) x = Some b ->
  cachedTestXid (xcache s) <> x -> 0 <= cachedTestXid (xcache s) < 2 ^ 64 ->
  let s' := set_log s (WriteBuffer (LogRelation s) (xid_block (ShmemVariableCache s) x)
                         (TransBlockSetXidStatus b x st)) in
  log_inv s' /\
  forall y, 0 <= y < 2 ^ 64 ->
    log_status s' y = if x =? y then Ok (status_after (TransBlockGetXidStatus b x) st)
                      else log_status s y.
Proof.
  intros Hi [Hx Hsome] Hb Hc Hcr s'.
  assert (TransBlockNumberSetXidStatus (ShmemVariableCache s) (LogRelation s) x st =
          Ok (LogRelation s')) as Hset.
  { unfold TransBlockNumberSetXidStatus. destruct Hx as (? & ? & ?).
    rewrite compute_block by (apply Hi || lia). simpl. unfold ReadBuffer. by rewrite Hb. }
  assert (forall y, 0 <= y < 2 ^ 64 ->
    log_status s' y = if x =? y then Ok (status_after (TransBlockGetXidStatus b x) st)
                      else log_status s y) as Hst.
  { intros y Hy. unfold log_status at 1. change (ShmemVariableCache s') with (ShmemVariableCache s).
    rewrite (set_get_rel _ _ _ _ _ _ (li_wf s Hi) Hx Hy Hset).
    destruct (x =? y); [|done].
    rewrite get_status_logged by (done || apply Hi). by rewrite Hb. }
  split; [|exact Hst]. split; simpl; [apply Hi|apply Hi| |].
  - by apply (set_rel_wf _ _ _ _ _ (li_wf s Hi) Hx Hset).
  - destruct (li_cache s Hi) as [Hz|[Hz Hz']]; [by left|right]. simpl in *. split; [|done].
    rewrite Hst by done. by destruct (Z.eqb_spec x (cachedTestXid (xcache s))); [congruence|].
Qed.

Lemma set_xcache_inv s s' : log_inv s -> cache_coherent s' -> set_xcache s' (xcache s) = s ->
  log_inv s' /\ ShmemVariableCache s' = ShmemVariableCache s /\ LogRelation s' = LogRelation s.
Proof.
  intros Hi Hc Hs. destruct s as [i v l c p], s' as [i' v' l' c' p']. unfold set_xcache in Hs.
  simpl in Hs. injection Hs as <- <- <- <-. split; [|done]. by destruct Hi; split.
Qed.

(** The cached id is a 64-bit id. *)
Definition cache_ranged (s : LogState) : Prop := 0 <= cachedTestXid (xcache s) < 2 ^ 64.

Lemma log_test_ranged s x mask : cache_ranged s -> 0 <= x < 2 ^ 64 ->
  cache_ranged (snd (TransactionLogTest s x mask)).
Proof.
  intros Hr Hx. unfold TransactionLogTest. repeat case_match; simplify_eq/=; done.
Qed.

Lemma TransRecover_step_spec s mark : log_inv s -> cache_ranged s -> xid_present s mark ->
  exists s', TransRecover_step false mark s = Ok s' /\ log_inv s' /\ cache_ranged s' /\
    ShmemVariableCache s' = ShmemVariableCache s /\
    dom (rd_blocks (LogRelation s')) = dom (rd_blocks (LogRelation s)) /\
    forall y, 0 <= y < 2 ^ 64 ->
      log_status s' y = if mark =? y then recovered <$> log_status s y else log_status s y.
Proof.
  intros Hi Hr Hp. destruct (present_status s mark Hi Hp) as (b & Hb & Hst).
  assert (0 <= mark < 2 ^ 64 /\ mark <> 0) as [Hm Hm0] by (destruct Hp as [(?&?&?) _]; lia).
  destruct (log_test_status s mark (TransBlockGetXidStatus b mark) XID_SOFT_COMMIT_TEST
    (li_init s Hi) (li_cache s Hi)) as (s1 & Ht & Hc1 & Hs1 & Hl1); [by unfold valid_mask|done..|].
  destruct (set_xcache_inv s s1 Hi Hc1 Hs1) as (Hi1 & Hv1 & Hr1).
  pose proof (log_test_ranged s mark XID_SOFT_COMMIT_TEST Hr Hm) as Hr'. rewrite Ht in Hr'. simpl in Hr'.
  unfold TransRecover_step, TransactionIdDidSoftCommit. rewrite (li_init s Hi).
  destruct Hp as [Hlog Hsome]. pose proof Hlog as (? & ? & ?).
  rewrite compute_block by (apply Hi || lia). simpl. unfold ReadBuffer. rewrite Hb, Ht.
  assert (status_test XID_SOFT_COMMIT_TEST (TransBlockGetXidStatus b mark) =
          (TransBlockGetXidStatus b mark =? XID_SOFT_COMMIT)) as -> by done.
  destruct (TransBlockGetXidStatus b mark =? XID_SOFT_COMMIT) eqn:E.
  - assert (cachedTestXid (xcache s1) <> mark) as Hne.
    { intros Hm'. destruct (li_cache s1 Hi1) as [Hz|[Hz Hz']]; [unfold InvalidTransactionId in Hz; lia|].
      rewrite Hl1, Hm', Hst in Hz. apply Z.eqb_eq in E. injection Hz as Hz. rewrite <- Hz, E in Hz'.
      unfold XID_SOFT_COMMIT, XID_COMMIT, XID_ABORT in Hz'. lia. }
    rewrite <- Hv1, <- Hr1 in Hb.
    assert (xid_present s1 mark) as Hp1 by (split; [by rewrite Hv1|by rewrite Hb]).
    destruct (write_status_inv s1 mark XID_ABORT b Hi1 Hp1 Hb Hne Hr') as [Hi2 Hst2].
    eexists. split; [reflexivity|]. rewrite <- Hv1. split; [done|]. split; [done|].
    split; [done|]. split.
    { simpl. rewrite dom_insert_L, Hr1. apply elem_of_dom_2 in Hb. rewrite Hr1 in Hb. set_solver. }
    intros y Hy. rewrite Hst2 by done. destruct (Z.eqb_spec mark y) as [<-|]; [|by rewrite Hl1].
    rewrite Hst. simpl. unfold recovered. by rewrite E.
  - exists s1. rewrite Hv1, Hr1. do 5 (split; [done|]). intros y Hy. rewrite Hl1.
    destruct (Z.eqb_spec mark y) as [<-|]; [|done]. rewrite Hst. simpl. unfold recovered. by rewrite E.
Qed.

Lemma xid_present_ext s s' x : ShmemVariableCache s' = ShmemVariableCache s ->
  dom (rd_blocks (LogRelation s')) = dom (rd_blocks (LogRelation s)) ->
  xid_present s x -> xid_present s' x.
Proof.
  intros Hv Hd [Hx Hs]. split; rewrite Hv; [done|]. apply elem_of_dom. rewrite Hd. by apply elem_of_dom.
Qed.

(** Recovery of [n] ids from [lo]: each soft commit in the range becomes an
    abort, nothing else changes. *)
Lemma TransRecover_loop_spec n : forall lo s, log_inv s -> cache_ranged s ->
  (forall x, lo <= x < lo + Z.of_nat n -> xid_present s x) ->
  exists s', TransRecover_loop n lo s = Ok s' /\ log_inv s' /\
    forall y, 0 <= y < 2 ^ 64 ->
      log_status s' y = if (lo <=? y) && (y <? lo + Z.of_nat n)
                        then recovered <$> log_status s y else log_status s y.
Proof.
  induction n as [|n IH]; intros lo s Hi Hr Hp.
  - exists s. split; [done|]. split; [done|]. intros y Hy.
    destruct (Z.leb_spec lo y), (Z.ltb_spec y (lo + Z.of_nat 0)); simpl; try done; lia.
  - destruct (TransRecover_step_spec s lo Hi Hr) as (s1 & Hs1 & Hi1 & Hr1 & Hv & Hd & Hst1);
      [apply Hp; lia|].
    destruct (IH (lo + 1) s1 Hi1 Hr1) as (s' & Hs' & Hi' & Hst').
    { intros x Hx. eapply xid_present_ext, Hp; [done|done|lia]. }
    exists s'. simpl. rewrite Hs1. simpl. split; [done|]. split; [done|]. intros y Hy.
    rewrite Hst', Hst1 by done.
    destruct (Z.leb_spec lo y), (Z.ltb_spec y (lo + Z.of_nat (S n))), (Z.leb_spec (lo + 1) y),
      (Z.ltb_spec y (lo + 1 + Z.of_nat n)), (Z.eqb_spec lo y); simpl; try done; lia.
Qed.

(** ** Properties *)

(** C25 Two-bit status fields are independent and read back what was written:
    after recording [st] for [x] in a block, the field of every id at the same
    position reads the new status (a soft commit sets the high bit and leaves
    the low one, so it never downgrades a hard commit), every other field of
    the block is unchanged, and the block keeps its shape. *)
Theorem xid_status_roundtrip b x y st : block_wf b ->
  block_wf (TransBlockSetXidStatus b x st) /\
  TransBlockGetXidStatus (TransBlockSetXidStatus b x st) y =
    if x mod TP_NumXidStatusPerBlock =? y mod TP_NumXidStatusPerBlock
    then status_after (TransBlockGetXidStatus b x) st
    else TransBlockGetXidStatus b y.
Proof. intros Hb. split; [by apply set_status_wf|by apply get_set_status]. Qed.

Lemma xid_status_roundtrip_witness :
  block_wf zero_block /\
  TransBlockGetXidStatus
    (TransBlockSetXidStatus (TransBlockSetXidStatus zero_block 600 XID_SOFT_COMMIT) 601 XID_COMMIT)
    600 = XID_SOFT_COMMIT.
Proof.
  split; [exact zero_block_wf|].
  rewrite (proj2 (xid_status_roundtrip
    (TransBlockSetXidStatus zero_block 600 XID_SOFT_COMMIT) 601 600 XID_COMMIT
    (set_status_wf _ _ _ zero_block_wf))).
  vm_compute. reflexivity.
Defined.

(** The one-item status cache is transparent: on an initialised system whose
    cache agrees with the log, each of the five status tests answers from the
    status recorded in [pg_log], changes nothing but the cache, and leaves the
    cache in agreement with the log. *)
Theorem log_cache_transparent s x st mask :
  TransactionSystemInitialized s = true -> cache_coherent s -> valid_mask mask ->
  x <> InvalidTransactionId -> log_status s x = Ok st ->
  exists s', TransactionLogTest s x mask = (Ok (status_test mask st), s') /\
    cache_coherent s' /\ set_xcache s' (xcache s) = s.
Proof.
  intros H1 H2 H3 H4 H5. destruct (log_test_status s x st mask H1 H2 H3 H4 H5) as (s' & ?&?&?&?).
  by exists s'.
Qed.

(** A log with one block: 600 soft-committed, 601 committed, 602 aborted; 601 is
    in the cache. *)
Definition demo_block : Block :=
  TransBlockSetXidStatus (TransBlockSetXidStatus (TransBlockSetXidStatus zero_block
    600 XID_SOFT_COMMIT) 601 XID_COMMIT) 602 XID_ABORT.
Definition demo_log : LogState :=
  mkLogState true (mkVariableCache 0 0 514 0) (mkRelation LogRelationName {[ 0 := demo_block ]})
    (mkXidCache 601 XID_COMMIT) [].

Lemma demo_block_wf : block_wf demo_block.
Proof. unfold demo_block. repeat apply set_status_wf. exact zero_block_wf. Qed.

Lemma demo_log_inv : log_inv demo_log.
Proof.
  split; [done|done| |].
  - split; [done|]. simpl. apply map_Forall_singleton, demo_block_wf.
  - right. split; [|by left]. vm_compute. reflexivity.
Qed.

Lemma log_cache_transparent_witness :
  exists s', TransactionLogTest demo_log 600 XID_COMMIT_TEST = (Ok true, s') /\
    cache_coherent s' /\ set_xcache s' (xcache demo_log) = demo_log.
Proof.
  destruct (log_cache_transparent demo_log 600 XID_SOFT_COMMIT XID_COMMIT_TEST) as (s' & H & H').
  - reflexivity.
  - exact (li_cache _ demo_log_inv).
  - unfold valid_mask, XID_COMMIT_TEST. lia.
  - discriminate.
  - vm_compute. reflexivity.
  - exists s'. exact (conj H H').
Defined.
