(* ===== verification/Varsup.v ===== *)
(** * Variable relation, id generation and log maintenance: varsup.c, transam.c

    [pg_variable] persists the next transaction id and object id (page 0) and,
    per database, the low water mark below which every transaction counts as
    committed (page 1).  Ids are handed out from a prefetched range.  This file
    models those pages, the two generators, the low water marks, the log
    compaction [VacuumTransactionLog], crash recovery [TransRecover] and the
    start-up sequence [InitializeTransactionLog]. *)

From S2P Require Import Prelude Procs TransLog.

(** ** Data *)

(** An entry of the per-database array of page 1 (struct [logbase]). *)
Record LogBase := mkLogBase { lb_init : bool; lb_database : Z; lb_lowwater : Z }.

(** Page 1 (struct [header]).  [databases] is the array up to the end of the
    page: entry [k] starts at byte [16 + 24 k], and the bound test of the code
    admits the entries that start within the page, 341 of them. *)
Record Header := mkHeader { baseline : Z; hcheckpoint : Z; databases : list LogBase }.

(** Page 0 ([VariableRelationContentsData]) and page 1. *)
Record VarRel := mkVarRel { nextXidData : Z; nextOid : Z; var_header : Header }.

(** The state of varsup.c and transam.c together.  [nextoid] is a C [int]. *)
Record VarSys := mkVarSys {
  vs_log : LogState;
  vs_var : VarRel;
  xid_prefetch : Z;
  oid_prefetch : Z;
  nextoid : Z;
  oid_queue_count : Z;
  bootstrap : bool;
  multiuser : bool;
  my_database : Z }.

Definition VAR_OID_PREFETCH : Z := 8.
Definition VAR_XID_PREFETCH : Z := 8.
Definition BootstrapObjectIdData : Z := 16384.
Definition InvalidOid : Z := 0.

Definition vcache (s : VarSys) : VariableCacheData := ShmemVariableCache (vs_log s).

Definition with_log (s : VarSys) (l : LogState) : VarSys :=
  mkVarSys l (vs_var s) (xid_prefetch s) (oid_prefetch s) (nextoid s) (oid_queue_count s)
    (bootstrap s) (multiuser s) (my_database s).
Definition with_var (s : VarSys) (v : VarRel) : VarSys :=
  mkVarSys (vs_log s) v (xid_prefetch s) (oid_prefetch s) (nextoid s) (oid_queue_count s)
    (bootstrap s) (multiuser s) (my_database s).
Definition with_header (s : VarSys) (h : Header) : VarSys :=
  with_var s (mkVarRel (nextXidData (vs_var s)) (nextOid (vs_var s)) h).
Definition with_vcache (s : VarSys) (v : VariableCacheData) : VarSys :=
  with_log s (set_vcache (vs_log s) v).
Definition with_oid (s : VarSys) (next count : Z) : VarSys :=
  mkVarSys (vs_log s) (vs_var s) (xid_prefetch s) (oid_prefetch s) next count
    (bootstrap s) (multiuser s) (my_database s).
Definition with_prefetch (s : VarSys) (xp op : Z) : VarSys :=
  mkVarSys (vs_log s) (vs_var s) xp op (nextoid s) (oid_queue_count s)
    (bootstrap s) (multiuser s) (my_database s).

(** ** Page 0: the persistent counters *)

(** Returns the recorded id and advances it by the prefetch, flushed at once. *)
Definition VariableRelationGetNextXid (prefetch : Z) (v : VarRel) : Z * VarRel :=
  (nextXidData v, mkVarRel (u64 (nextXidData v + prefetch)) (nextOid v) (var_header v)).

Definition VariableRelationPutNextXid (v : VarRel) (xid : Z) : VarRel :=
  mkVarRel xid (nextOid v) (var_header v).

Definition VariableRelationGetNextOid (prefetch : Z) (v : VarRel) : Z * VarRel :=
  if negb (nextOid v =? InvalidOid) then
    (nextOid v, mkVarRel (nextXidData v) (u64 (nextOid v + prefetch)) (var_header v))
  else
    (BootstrapObjectIdData,
     mkVarRel (nextXidData v) (u64 (BootstrapObjectIdData + prefetch)) (var_header v)).

(** ** Generators

    Run by one thread without interference, [while (xid_count <= 0)] refills
    once; the interleaved version is the step relation below. *)

Definition refill_xid (s : VarSys) : VarSys :=
  let '(got, v) := VariableRelationGetNextXid (xid_prefetch s) (vs_var s) in
  let vc := vcache s in
  with_vcache (with_var s v)
    (mkVariableCache (xid_prefetch s) (u64 (got + 1)) (xid_low_water_mark vc) (xid_checkpoint vc)).

Definition GetNewTransactionId (s : VarSys) : Z * VarSys :=
  if bootstrap s then (AmiTransactionId, s)
  else
    let s := if xid_count (vcache s) =? 0 then refill_xid s else s in
    let vc := vcache s in
    (nextXid vc,
     with_vcache s (mkVariableCache (xid_count vc - 1) (u64 (nextXid vc + 1))
                      (xid_low_water_mark vc) (xid_checkpoint vc))).

Definition ReadNewTransactionId (s : VarSys) : result Z :=
  if bootstrap s then Ok AmiTransactionId
  else if nextXid (vcache s) <=? 0
       then Err "ReadNewTransactionId: ShmemVariableCache->nextXid is not initialized"
       else Ok (nextXid (vcache s)).

(** [nextoid] is an [int]: the assignment truncates the [Oid]; the returned
    [Oid] is its sign-extended value. *)
Definition GetNewObjectId (s : VarSys) : Z * VarSys :=
  let s := if oid_queue_count s =? 0 then
             let '(got, v) := VariableRelationGetNextOid (oid_prefetch s) (vs_var s) in
             with_oid (with_var s v) (i32 (got + 1)) (oid_prefetch s)
           else s in
  (u64 (nextoid s), with_oid s (i32 (nextoid s + 1)) (oid_queue_count s - 1)).

Definition GetGenId : Z := u64 (-1).

(** ** Low water marks and checkpoints (page 1) *)

(** [transaction_prefetch] and [objectid_prefetch]: the properties after [atoi]. *)
Definition InitTransactionLowWaterMark (transaction_prefetch objectid_prefetch : option Z)
    (s : VarSys) : VarSys :=
  let s := if multiuser s then
             let xp := match transaction_prefetch with
                       | Some p => p | None => i32 (xid_prefetch s * 1024) end in
             let xp := if xp <=? 0 then VAR_XID_PREFETCH * 1024 else xp in
             let op := match objectid_prefetch with
                       | Some p => p | None => i32 (oid_prefetch s * VAR_OID_PREFETCH) end in
             let op := if op <=? 0 then VAR_OID_PREFETCH else op in
             with_prefetch s xp op
           else s in
  let vc := vcache s in
  with_vcache s (mkVariableCache (xid_count vc) (nextXid vc) (baseline (var_header (vs_var s)))
                   (nextXidData (vs_var s))).

Definition GetCheckpointId (s : VarSys) : Z := xid_checkpoint (vcache s).
Definition SetCheckpointId (s : VarSys) (x : Z) : VarSys :=
  let vc := vcache s in
  with_vcache s (mkVariableCache (xid_count vc) (nextXid vc) (xid_low_water_mark vc) x).

Definition GetTransactionRecoveryCheckpoint (s : VarSys) : Z :=
  let h := var_header (vs_var s) in
  if hcheckpoint h >? baseline h then hcheckpoint h else baseline h.

Definition SetTransactionRecoveryCheckpoint (s : VarSys) (recover : Z) : VarSys :=
  let h := var_header (vs_var s) in
  with_header s (mkHeader (baseline h) recover (databases h)).

(** The [for] of [SetTransactionLowWaterMark]: the first entry of this database
    or the first unused one; [None] at the end of the page. *)
Fixpoint set_area (areas : list LogBase) (dbid lowwater : Z) : option (list LogBase) :=
  match areas with
  | [] => None
  | area :: rest =>
      if lb_database area =? dbid then
        Some (mkLogBase (lb_init area) (lb_database area) lowwater :: rest)
      else if negb (lb_init area) then Some (mkLogBase true dbid lowwater :: rest)
      else cons area <$> set_area rest dbid lowwater
  end.

Definition SetTransactionLowWaterMark (s : VarSys) (lowwater : Z) : result VarSys :=
  let h := var_header (vs_var s) in
  match set_area (databases h) (my_database s) lowwater with
  | None => Err "Log cannot hold database info"
  | Some areas => Ok (with_header s (mkHeader (baseline h) (hcheckpoint h) areas))
  end.

Definition GetTransactionLowWaterMark (s : VarSys) : Z := xid_low_water_mark (vcache s).

(** ** Log compaction *)

(** [for (area = ...; area->init == true; area++)]: the mark of the last used
    entry of [did], 0 when there is none. *)
Fixpoint area_lowwater (areas : list LogBase) (did dbmin : Z) : Z :=
  match areas with
  | [] => dbmin
  | area :: rest =>
      if lb_init area then
        area_lowwater rest did (if lb_database area =? did then lb_lowwater area else dbmin)
      else dbmin
  end.

(** The scan of [pg_database]: the least mark over the database ids. *)
Fixpoint scan_low (areas : list LogBase) (dids : list Z) (low : Z) : Z :=
  match dids with
  | [] => low
  | did :: rest =>
      let dbmin := area_lowwater areas did 0 in
      scan_low areas rest (if low >? dbmin then dbmin else low)
  end.

(** [smgrtruncate(rel, n)]: only the blocks below [n] remain. *)
Definition smgrtruncate (r : Relation) (n : Z) : Relation :=
  mkRelation (relname r) (filter (fun kb => fst kb < n) (rd_blocks r)).

(** [dids]: the oids the scan of [pg_database] returns, [None] when the
    relation does not open. *)
Definition VacuumTransactionLog (dids : option (list Z)) (s : VarSys) : result VarSys :=
  match dids with
  | None => Ok s
  | Some dids =>
      let h := var_header (vs_var s) in
      let low := scan_low (databases h) dids (u64 (-1)) in
      let vc := vcache s in
      base ← TransComputeBlockNumber vc (LogRelation (vs_log s)) low;
      let s := if low >? xid_low_water_mark vc then
                 with_header
                   (with_vcache s (mkVariableCache (xid_count vc) (nextXid vc) low (xid_checkpoint vc)))
                   (mkHeader low (hcheckpoint h) (databases h))
               else s in
      if negb (base =? 0) then
        let rel := LogRelation (vs_log s) in
        match ReadBuffer rel 0, ReadBuffer rel base with
        | Some zb, Some bb =>
            Ok (with_log s (set_log (vs_log s) (smgrtruncate (WriteBuffer rel 0 bb) 1)))
        | _, _ => Err "bad buffer read in variable logging"
        end
      else Ok s
  end.

(** ** Recovery and start-up (transam.c) *)

Definition TransRecover (s : VarSys) : result VarSys :=
  let '(ctid, s) := GetNewTransactionId s in
  let lowwater := GetTransactionRecoveryCheckpoint s in
  l ← TransRecover_loop (Z.to_nat (ctid - lowwater)) lowwater (vs_log s);
  Ok (SetTransactionRecoveryCheckpoint (with_log s l) ctid).

Definition set_initialized (l : LogState) : LogState :=
  mkLogState true (ShmemVariableCache l) (LogRelation l) (xcache l) (procs l).

(** [smgrreplaylogs] is the storage manager's replay of its page log; it enters
    as an argument.  The result is what [InitializeTransactionLog] returns. *)
Definition InitializeTransactionLog (smgrreplaylogs : LogState -> LogState)
    (recovery_checking : bool) (tp op : option Z) (dids : option (list Z)) (s : VarSys)
    : result (bool * VarSys) :=
  if bootstrap s then Ok (false, s)
  else
    let s := with_log s (set_initialized (vs_log s)) in
    let '(r, l) := TransactionIdDidCommit (vs_log s) AmiTransactionId in
    let s := with_log s l in
    committed ← r;
    s ← (if negb committed then
           if multiuser s then Err "this should not be happening"
           else
             l ← TransactionLogUpdate (vs_log s) AmiTransactionId XID_COMMIT;
             let l := set_xcache l (mkXidCache AmiTransactionId XID_COMMIT) in
             s ← SetTransactionLowWaterMark (with_log s l) FirstTransactionId;
             Ok (with_var s (VariableRelationPutNextXid (vs_var s) FirstTransactionId))
         else if recovery_checking then TransRecover (with_log s (smgrreplaylogs (vs_log s)))
         else
           let '(x, s) := GetNewTransactionId s in
           Ok (SetTransactionRecoveryCheckpoint s x));
    s ← VacuumTransactionLog dids (InitTransactionLowWaterMark tp op s);
    Ok (true, s).

(** ** Interleaved id generation

    A thread in [GetNewTransactionId] holds [OidGenLockId] except while it
    refills: it marks the refill with [xid_count = -1], releases the lock, reads
    and advances page 0 under the relation lock, takes the lock again and
    publishes the range.  A thread that finds [-1] releases and retakes the
    lock, which changes nothing. *)

Inductive gen_pc : Type :=
| PcOut                      (* outside, or waiting for the lock *)
| PcFetch                    (* count set to -1, about to read page 0 *)
| PcPublish (nextid : Z).    (* page 0 advanced, about to publish *)

Record gen_state := mkGen {
  g_count : Z;               (* ShmemVariableCache->xid_count *)
  g_next : Z;                (* ShmemVariableCache->nextXid *)
  g_var : Z;                 (* nextXidData on disk *)
  g_pc : Z -> gen_pc;        (* per thread *)
  g_issued : list Z }.       (* ids returned so far, latest first *)

Definition set_pc (pc : Z -> gen_pc) (t : Z) (p : gen_pc) : Z -> gen_pc :=
  fun t' => if t' =? t then p else pc t'.

Inductive gen_step (prefetch : Z) : gen_state -> gen_state -> Prop :=
| gen_take g t :
    g_pc g t = PcOut -> 0 < g_count g ->
    gen_step prefetch g
      (mkGen (g_count g - 1) (u64 (g_next g + 1)) (g_var g) (g_pc g) (g_next g :: g_issued g))
| gen_begin_refill g t :
    g_pc g t = PcOut -> g_count g = 0 ->
    gen_step prefetch g
      (mkGen (-1) (g_next g) (g_var g) (set_pc (g_pc g) t PcFetch) (g_issued g))
| gen_fetch g t :
    g_pc g t = PcFetch ->
    gen_step prefetch g
      (mkGen (g_count g) (g_next g) (u64 (g_var g + prefetch))
         (set_pc (g_pc g) t (PcPublish (u64 (g_var g + 1)))) (g_issued g))
| gen_publish g t nextid :
    g_pc g t = PcPublish nextid ->
    gen_step prefetch g
      (mkGen prefetch nextid (g_var g) (set_pc (g_pc g) t PcOut) (g_issued g))
| gen_crash g :
    gen_step prefetch g (mkGen 0 0 (g_var g) (fun _ => PcOut) (g_issued g)).

(** States reachable in [n] steps from a start-up with [v0] on disk. *)
Inductive gen_reach (prefetch v0 : Z) : nat -> gen_state -> Prop :=
| gen_init : gen_reach prefetch v0 0 (mkGen 0 0 v0 (fun _ => PcOut) [])
| gen_more n g g' : gen_reach prefetch v0 n g -> gen_step prefetch g g' ->
    gen_reach prefetch v0 (S n) g'.

(** ** Uniqueness of the generated ids *)

Section IdGeneration.
Context (prefetch v0 : Z) (Hprefetch : 0 < prefetch) (Hv0 : 0 <= v0).

(** Every id above the issued ones up to [hi], a suffix of what the disk
    counter has reserved, is free. *)
Definition free_range (g : gen_state) (lo len : Z) : Prop :=
  v0 < lo /\ lo + len - 1 <= g_var g /\ Forall (fun x => x < lo) (g_issued g).

(** What is known in the phases of the protocol. *)
Inductive gen_phase (g : gen_state) : Prop :=
| phase_ready : 0 <= g_count g -> (forall t, g_pc g t = PcOut) ->
    (0 < g_count g -> free_range g (g_next g) (g_count g)) -> gen_phase g
| phase_fetch t : g_count g = -1 -> g_pc g t = PcFetch ->
    (forall t', t' <> t -> g_pc g t' = PcOut) -> gen_phase g
| phase_publish t nextid : g_count g = -1 -> g_pc g t = PcPublish nextid ->
    (forall t', t' <> t -> g_pc g t' = PcOut) -> free_range g nextid prefetch -> gen_phase g.

Record gen_inv (n : nat) (g : gen_state) : Prop := {
  gi_var : v0 <= g_var g <= v0 + Z.of_nat n * prefetch;
  gi_issued : Forall (fun x => v0 < x <= g_var g) (g_issued g);
  gi_nodup : NoDup (g_issued g);
  gi_phase : gen_phase g }.

Lemma set_pc_eq pc t p : set_pc pc t p t = p.
Proof. unfold set_pc. by rewrite Z.eqb_refl. Qed.
Lemma set_pc_ne pc t p t' : t' <> t -> set_pc pc t p t' = pc t'.
Proof. intros. unfold set_pc. by destruct (Z.eqb_spec t' t). Qed.

(** Only one thread can be inside the refill. *)
Lemma gen_phase_refiller g t : gen_phase g -> g_pc g t <> PcOut ->
  g_count g = -1 /\ (forall t', t' <> t -> g_pc g t' = PcOut) /\
  (forall nextid, g_pc g t = PcPublish nextid -> free_range g nextid prefetch).
Proof.
  intros Hph Ht. destruct Hph as [_ Hout _|t0 Hc Hf Ho|t0 nx Hc Hp Ho Hfr].
  - by destruct (Ht (Hout t)).
  - destruct (decide (t = t0)) as [->|Hne]; [|by destruct (Ht (Ho t Hne))].
    split; [done|]. split; [done|]. intros nx Hnx. congruence.
  - destruct (decide (t = t0)) as [->|Hne]; [|by destruct (Ht (Ho t Hne))].
    split; [done|]. split; [done|]. intros nx' Hnx. congruence.
Qed.

Lemma gen_phase_idle g t : gen_phase g -> g_pc g t = PcOut -> 0 <= g_count g ->
  (forall t', g_pc g t' = PcOut) /\ (0 < g_count g -> free_range g (g_next g) (g_count g)).
Proof. intros [? ? ?|? Hc ? ?|? ? Hc ? ? ?] _ ?; [done|lia|lia]. Qed.

Lemma gen_step_inv n g g' : v0 + Z.of_nat (S n) * prefetch < 2 ^ 64 - 1 ->
  gen_inv n g -> gen_step prefetch g g' -> gen_inv (S n) g'.
Proof.
  intros Hbound [Hvar Hiss Hnd Hph] Hstep.
  assert (v0 <= g_var g <= v0 + Z.of_nat (S n) * prefetch) as Hvar' by nia.
  assert (Forall (fun x => x <= g_var g) (g_issued g)) as Hle
    by (eapply Forall_impl; [apply Hiss|simpl; lia]).
  destruct Hstep as [g t Ht Hc|g t Ht Hc|g t Ht|g t nx Ht|g]; split; simpl; try done.
  - destruct (gen_phase_idle g t Hph Ht) as [_ Hfr]; [lia|].
    destruct (Hfr Hc) as (? & ? & ?). constructor; [lia|done].
  - destruct (gen_phase_idle g t Hph Ht) as [_ Hfr]; [lia|]. destruct (Hfr Hc) as (? & ? & Hlt).
    constructor; [|done]. intros Hin. rewrite Forall_forall in Hlt. specialize (Hlt _ Hin). lia.
  - destruct (gen_phase_idle g t Hph Ht) as [Hout Hfr]; [lia|]. destruct (Hfr Hc) as (? & ? & Hlt).
    apply phase_ready; simpl; [lia|done|]. intros _. unfold free_range. simpl.
    rewrite u64_id by lia. split; [lia|]. split; [lia|]. constructor; [lia|].
    eapply Forall_impl; [apply Hlt|simpl; lia].
  - apply (phase_fetch _ t); simpl; [done|by rewrite set_pc_eq|].
    intros t' Hne. rewrite set_pc_ne by done. by apply (gen_phase_idle g t Hph Ht); lia.
  - rewrite u64_id by lia. lia.
  - eapply Forall_impl; [apply Hiss|]. simpl. intros x Hx. rewrite u64_id by lia. lia.
  - destruct (gen_phase_refiller g t Hph) as (Hc & Ho & _); [congruence|].
    apply (phase_publish _ t (u64 (g_var g + 1))); simpl; [done|by rewrite set_pc_eq| |].
    + intros t' Hne. by rewrite set_pc_ne; auto.
    + unfold free_range. simpl. rewrite !u64_id by lia. split; [lia|]. split; [lia|].
      eapply Forall_impl; [apply Hle|simpl; lia].
  - destruct (gen_phase_refiller g t Hph) as (Hc & Ho & Hfr); [congruence|].
    apply phase_ready; simpl; [lia| |intros _; by apply Hfr].
    intros t'. destruct (decide (t' = t)) as [->|Hne]; [by rewrite set_pc_eq|].
    by rewrite set_pc_ne; auto.
  - by apply phase_ready; simpl; [lia|done|lia].
Qed.

Lemma gen_reach_inv n g : v0 + Z.of_nat n * prefetch < 2 ^ 64 - 1 ->
  gen_reach prefetch v0 n g -> gen_inv n g.
Proof.
  intros Hb Hr. induction Hr as [|n g g' Hr IH Hs].
  - split; simpl; [lia|constructor|constructor|]. by apply phase_ready; simpl; [lia|done|lia].
  - eapply gen_step_inv; [done| |done]. apply IH. nia.
Qed.

End IdGeneration.

(** ** The sequential generator runs the protocol *)

Inductive gen_steps (prefetch : Z) : gen_state -> gen_state -> Prop :=
| gen_steps_refl g : gen_steps prefetch g g
| gen_steps_cons g g' g'' : gen_step prefetch g g' -> gen_steps prefetch g' g'' ->
    gen_steps prefetch g g''.

(** The protocol state a quiescent system stands for. *)
Definition gen_of (s : VarSys) (issued : list Z) : gen_state :=
  mkGen (xid_count (vcache s)) (nextXid (vcache s)) (nextXidData (vs_var s)) (fun _ => PcOut) issued.

(** Protocol states are compared up to the extension of the program counters. *)
Definition gen_equiv (g g' : gen_state) : Prop :=
  g_count g = g_count g' /\ g_next g = g_next g' /\ g_var g = g_var g' /\
  g_issued g = g_issued g' /\ forall t, g_pc g t = g_pc g' t.

Lemma refill_steps s issued : xid_count (vcache s) = 0 ->
  exists g, gen_steps (xid_prefetch s) (gen_of s issued) g /\ gen_equiv g (gen_of (refill_xid s) issued).
Proof.
  intros Hc. eexists. split.
  - eapply gen_steps_cons; [apply (gen_begin_refill _ _ 0); done|].
    eapply gen_steps_cons; [apply (gen_fetch _ _ 0); done|].
    eapply gen_steps_cons; [eapply (gen_publish _ _ 0); reflexivity|].
    apply gen_steps_refl.
  - split_and!; try done. intros t. simpl. unfold set_pc. by destruct (t =? 0).
Qed.

Lemma gen_steps_snoc p g g' g'' : gen_steps p g g' -> gen_step p g' g'' -> gen_steps p g g''.
Proof. induction 1; intros; [eapply gen_steps_cons; [done|apply gen_steps_refl]|eauto using gen_steps]. Qed.

(** ** Lemmas on compaction *)

Lemma area_lowwater_absent areas did m :
  Forall (fun a => lb_init a = true -> lb_database a <> did) areas ->
  area_lowwater areas did m = m.
Proof.
  induction 1 as [|a areas Ha _ IH]; simpl; [done|].
  destruct (lb_init a) eqn:E; [|done].
  destruct (Z.eqb_spec (lb_database a) did); [by destruct Ha|done].
Qed.

Lemma scan_low_le areas dids : forall low, scan_low areas dids low <= low.
Proof.
  induction dids as [|d dids IH]; intros low; simpl; [lia|].
  etrans; [apply IH|]. destruct (Z.gtb_spec low (area_lowwater areas d 0)); lia.
Qed.

Lemma scan_low_elem areas dids d : forall low, d ∈ dids ->
  scan_low areas dids low <= area_lowwater areas d 0.
Proof.
  induction dids as [|d' dids IH]; intros low Hd; [by apply not_elem_of_nil in Hd|]. simpl.
  apply elem_of_cons in Hd as [->|Hd]; [|by apply IH].
  etrans; [apply scan_low_le|]. destruct (Z.gtb_spec low (area_lowwater areas d' 0)); lia.
Qed.

Lemma area_lowwater_nonneg areas did m : 0 <= m ->
  Forall (fun a => 0 <= lb_lowwater a) areas -> 0 <= area_lowwater areas did m.
Proof.
  intros Hm Ha. revert m Hm. induction Ha as [|a areas Ha _ IH]; intros m Hm; simpl; [done|].
  destruct (lb_init a); [|done]. apply IH. by case_match.
Qed.

Lemma scan_low_nonneg areas dids : forall low, 0 <= low ->
  Forall (fun a => 0 <= lb_lowwater a) areas -> 0 <= scan_low areas dids low.
Proof.
  induction dids as [|d dids IH]; intros low Hl Ha; simpl; [done|]. apply IH; [|done].
  pose proof (area_lowwater_nonneg areas d 0). case_match; [|done]. auto with lia.
Qed.

(** ** Properties *)

(** C26 Transaction ids are never issued twice: however the threads interleave
    in the prefetching generator, and however often the process crashes and
    restarts from the persistent counter, the ids handed out are pairwise
    distinct, above the initial counter and not above the counter on disk
    (as long as the 64-bit counter is not exhausted). *)
Theorem xids_unique prefetch v0 n g :
  0 < prefetch -> 0 <= v0 -> v0 + Z.of_nat n * prefetch < 2 ^ 64 - 1 ->
  gen_reach prefetch v0 n g ->
  NoDup (g_issued g) /\ Forall (fun x => v0 < x <= g_var g) (g_issued g).
Proof. intros Hp Hv Hb Hr. by destruct (gen_reach_inv prefetch v0 Hp Hv n g Hb Hr). Qed.

(** Thread 1 refills and takes an id, then the process crashes, and thread 2
    refills and takes one. *)
Definition demo_pc0 : Z -> gen_pc := fun _ => PcOut.
Definition demo_pc1 : Z -> gen_pc := set_pc demo_pc0 1 PcFetch.
Definition demo_pc2 : Z -> gen_pc := set_pc demo_pc1 1 (PcPublish 515).
Definition demo_pc3 : Z -> gen_pc := set_pc demo_pc2 1 PcOut.
Definition demo_pc4 : Z -> gen_pc := set_pc demo_pc0 2 PcFetch.
Definition demo_pc5 : Z -> gen_pc := set_pc demo_pc4 2 (PcPublish 523).
Definition demo_pc6 : Z -> gen_pc := set_pc demo_pc5 2 PcOut.

Lemma demo_run : gen_reach 8 514 9 (mkGen 7 524 530 demo_pc6 [523; 515]).
Proof.
  apply (gen_more 8 514 8 (mkGen 8 523 530 demo_pc6 [515])); [|exact (gen_take 8 (mkGen 8 523 530 demo_pc6 [515]) 2 eq_refl eq_refl)].
  apply (gen_more 8 514 7 (mkGen (-1) 0 530 demo_pc5 [515])); [|exact (gen_publish 8 (mkGen (-1) 0 530 demo_pc5 [515]) 2 523 eq_refl)].
  apply (gen_more 8 514 6 (mkGen (-1) 0 522 demo_pc4 [515])); [|exact (gen_fetch 8 (mkGen (-1) 0 522 demo_pc4 [515]) 2 eq_refl)].
  apply (gen_more 8 514 5 (mkGen 0 0 522 demo_pc0 [515])); [|exact (gen_begin_refill 8 (mkGen 0 0 522 demo_pc0 [515]) 2 eq_refl eq_refl)].
  apply (gen_more 8 514 4 (mkGen 7 516 522 demo_pc3 [515])); [|exact (gen_crash 8 (mkGen 7 516 522 demo_pc3 [515]))].
  apply (gen_more 8 514 3 (mkGen 8 515 522 demo_pc3 [])); [|exact (gen_take 8 (mkGen 8 515 522 demo_pc3 []) 1 eq_refl eq_refl)].
  apply (gen_more 8 514 2 (mkGen (-1) 0 522 demo_pc2 [])); [|exact (gen_publish 8 (mkGen (-1) 0 522 demo_pc2 []) 1 515 eq_refl)].
  apply (gen_more 8 514 1 (mkGen (-1) 0 514 demo_pc1 [])); [|exact (gen_fetch 8 (mkGen (-1) 0 514 demo_pc1 []) 1 eq_refl)].
  apply (gen_more 8 514 0 (mkGen 0 0 514 demo_pc0 [])); [|exact (gen_begin_refill 8 (mkGen 0 0 514 demo_pc0 []) 1 eq_refl eq_refl)].
  apply gen_init.
Qed.

Lemma xids_unique_witness :
  gen_reach 8 514 9 (mkGen 7 524 530 demo_pc6 [523; 515]) /\ NoDup [523; 515].
Proof.
  split; [exact demo_run|].
  apply (xids_unique 8 514 9 (mkGen 7 524 530 demo_pc6 [523; 515])); [lia|lia|lia|exact demo_run].
Defined.

(** [GetNewTransactionId] run without interference is a run of the
    interleaved protocol: from the state it stands for, protocol steps lead to
    the state it leaves, and the id it returns is the one the protocol issues. *)
Theorem GetNewTransactionId_refines s issued :
  bootstrap s = false -> 0 <= xid_count (vcache s) -> 0 < xid_prefetch s ->
  exists g, gen_steps (xid_prefetch s) (gen_of s issued) g /\
    gen_equiv g (gen_of (snd (GetNewTransactionId s)) (fst (GetNewTransactionId s) :: issued)).
Proof.
  intros Hb Hc Hp. unfold GetNewTransactionId. rewrite Hb.
  destruct (Z.eqb_spec (xid_count (vcache s)) 0) as [E|E].
  - destruct (refill_steps s issued E) as (g & Hg & H1 & H2 & H3 & H4 & H5).
    eexists. split; [eapply gen_steps_snoc; [exact Hg|apply (gen_take _ _ 0)]|].
    + by rewrite H5.
    + rewrite H1. simpl. lia.
    + split_and!; simpl; try done; rewrite ?H1, ?H2, ?H4; done.
  - eexists. split; [eapply gen_steps_cons; [apply (gen_take _ _ 0)|apply gen_steps_refl]|].
    + done.
    + simpl. lia.
    + by split_and!.
Qed.

Definition demo_sys : VarSys :=
  mkVarSys demo_log (mkVarRel 603 0 (mkHeader 514 514 [mkLogBase true 1 514])) 8 8 0 0 false false 1.

Lemma GetNewTransactionId_refines_witness :
  fst (GetNewTransactionId demo_sys) = 604 /\
  exists g, gen_steps 8 (gen_of demo_sys []) g /\ g_issued g = [604].
Proof.
  split; [vm_compute; reflexivity|].
  destruct (GetNewTransactionId_refines demo_sys []) as (g & Hg & _ & _ & _ & Hi & _).
  - reflexivity.
  - vm_compute. discriminate.
  - reflexivity.
  - exists g. split; [exact Hg|]. rewrite Hi. vm_compute. reflexivity.
Defined.

(** Crash recovery turns exactly the soft commits it scans into aborts: from
    the recovery checkpoint up to a freshly drawn id, a transaction recorded as
    soft-committed is aborted afterwards, every other recorded status is
    unchanged, and the fresh id becomes the next recovery checkpoint. *)
Theorem TransRecover_spec s :
  let ctid := fst (GetNewTransactionId s) in
  let s1 := snd (GetNewTransactionId s) in
  let lo := GetTransactionRecoveryCheckpoint s1 in
  log_inv (vs_log s1) -> cache_ranged (vs_log s1) ->
  (forall x, lo <= x < ctid -> xid_present (vs_log s1) x) ->
  exists s', TransRecover s = Ok s' /\
    hcheckpoint (var_header (vs_var s')) = ctid /\
    forall y, 0 <= y < 2 ^ 64 ->
      log_status (vs_log s') y =
        if (lo <=? y) && (y <? ctid) then recovered <$> log_status (vs_log s1) y
        else log_status (vs_log s1) y.
Proof.
  intros ctid s1 lo Hi Hr Hp. unfold TransRecover.
  rewrite (surjective_pairing (GetNewTransactionId s)). fold ctid s1 lo.
  destruct (TransRecover_loop_spec (Z.to_nat (ctid - lo)) lo (vs_log s1) Hi Hr) as (l & Hl & _ & Hst).
  { intros x Hx. apply Hp. lia. }
  rewrite Hl. eexists. split; [reflexivity|]. split; [done|]. intros y Hy. simpl. rewrite Hst by done.
  destruct (decide (lo <= ctid)).
  - by rewrite Z2Nat.id, Zplus_minus by lia.
  - replace (Z.to_nat (ctid - lo)) with 0%nat by lia.
    destruct (Z.leb_spec lo y), (Z.ltb_spec y ctid), (Z.ltb_spec y (lo + Z.of_nat 0)); simpl; done || lia.
Qed.

(** On the demonstration log, recovery aborts 600 and keeps 601 and 602. *)
Lemma TransRecover_spec_witness : exists s', TransRecover demo_sys = Ok s' /\
  log_status (vs_log s') 600 = Ok XID_ABORT /\ log_status (vs_log s') 601 = Ok XID_COMMIT.
Proof.
  destruct (TransRecover_spec demo_sys) as (s' & H & _ & Hst).
  - split; [reflexivity|discriminate|exact (li_wf _ demo_log_inv)|].
    exact (li_cache _ demo_log_inv).
  - split; [discriminate|reflexivity].
  - intros x Hx. change (514 <= x < 604) in Hx.
    assert (x / TP_NumXidStatusPerBlock = 0) as E
      by (unfold TP_NumXidStatusPerBlock, TP_DataSize, BLCKSZ; apply Z.div_small; lia).
    assert (xid_block (vcache (snd (GetNewTransactionId demo_sys))) x = 0) as Hb
      by (unfold xid_block; rewrite E; reflexivity).
    split.
    + split; [|split; [lia|]].
      * change (0 <= 514 <= x). lia.
      * fold (vcache (snd (GetNewTransactionId demo_sys))). rewrite Hb. lia.
    + fold (vcache (snd (GetNewTransactionId demo_sys))). rewrite Hb.
      exists demo_block. reflexivity.
  - exists s'. split; [exact H|]. rewrite !Hst by lia. split; vm_compute; reflexivity.
Defined.

(** Log compaction keeps one block only: when [VacuumTransactionLog] moves the
    low water mark to a later block, the statuses of the transactions that share
    the mark's block survive, and the status of every transaction in a later
    block is gone (its block no longer exists), although those transactions are
    above the mark. *)
Theorem VacuumTransactionLog_keeps_one_block dids s s' low y :
  low = scan_low (databases (var_header (vs_var s))) dids (u64 (-1)) ->
  log_wf (LogRelation (vs_log s)) ->
  0 <= xid_low_water_mark (vcache s) <= low -> low < 2 ^ 64 ->
  xid_block (vcache s) low <> 0 ->
  VacuumTransactionLog (Some dids) s = Ok s' ->
  xid_logged (vcache s') y -> xid_logged (vcache s) y ->
  xid_low_water_mark (vcache s') = low /\
  log_status (vs_log s') y =
    if y / TP_NumXidStatusPerBlock =? low / TP_NumXidStatusPerBlock
    then log_status (vs_log s) y
    else Err "bad buffer read in transaction management".
Proof.
  intros Hlow [Hname Hwf] Hm Hm' Hb Hv Hy Hy0. unfold VacuumTransactionLog in Hv. rewrite <- Hlow in Hv.
  rewrite compute_block in Hv by (done || lia). simpl in Hv.
  destruct (Z.eqb_spec (xid_block (vcache s) low) 0); [done|]. simpl in Hv.
  assert (low > xid_low_water_mark (vcache s)) as Hgt.
  { destruct (decide (low = xid_low_water_mark (vcache s))) as [E|]; [|lia].
    destruct Hb. unfold xid_block. rewrite E. lia. }
  destruct (Z.gtb_spec low (xid_low_water_mark (vcache s))); [|lia]. unfold ReadBuffer in Hv. simpl in Hv.
  destruct (rd_blocks (LogRelation (vs_log s)) !! 0) as [zb|]; [|done].
  destruct (rd_blocks (LogRelation (vs_log s)) !! xid_block (vcache s) low) as [bb|] eqn:Hbb; [|done].
  injection Hv as <-. split; [done|]. unfold log_status.
  rewrite !get_status_logged by done. simpl.
  assert (xid_block (vcache s) y = xid_block (vcache s) low +
    (y / TP_NumXidStatusPerBlock - low / TP_NumXidStatusPerBlock)) as Hby by (unfold xid_block; lia).
  fold (vcache s) in Hby |- *. unfold xid_block at 1. simpl. rewrite Hby.
  destruct (Z.eqb_spec (y / TP_NumXidStatusPerBlock) (low / TP_NumXidStatusPerBlock)) as [E|E].
  - rewrite E, Z.sub_diag, Z.add_0_r, Hbb.
    rewrite (map_lookup_filter_Some_2 _ _ _ bb); [done|by rewrite lookup_insert_eq|simpl; lia].
  - rewrite map_lookup_filter_None_2; [done|]. right. intros b _. simpl.
    assert (low / TP_NumXidStatusPerBlock <= y / TP_NumXidStatusPerBlock); [|lia].
    apply Z.div_le_mono; [done|]. unfold xid_logged in Hy. simpl in Hy. lia.
Qed.

(** Two log blocks; transaction 70000 (block 2) is committed, the only database
    was vacuumed up to 40000 (block 1). *)
Definition demo_long_log : LogState :=
  mkLogState true (mkVariableCache 0 0 514 0)
    (mkRelation LogRelationName {[ 0 := zero_block; 1 := zero_block;
                                   2 := TransBlockSetXidStatus zero_block 70000 XID_COMMIT ]})
    (mkXidCache 0 0) [].
Definition demo_long_sys : VarSys :=
  mkVarSys demo_long_log (mkVarRel 70000 0 (mkHeader 514 514 [mkLogBase true 1 40000])) 8 8 0 0
    false false 1.

Lemma demo_long_wf : log_wf (LogRelation demo_long_log).
Proof.
  split; [done|]. simpl. apply map_Forall_insert_2; [exact zero_block_wf|].
  apply map_Forall_insert_2; [exact zero_block_wf|]. apply map_Forall_singleton, set_status_wf, zero_block_wf.
Qed.

Lemma VacuumTransactionLog_keeps_one_block_witness : exists s',
  VacuumTransactionLog (Some [1]) demo_long_sys = Ok s' /\
  log_status (vs_log demo_long_sys) 70000 = Ok XID_COMMIT /\
  log_status (vs_log s') 70000 = Err "bad buffer read in transaction management".
Proof.
  eexists. split; [reflexivity|]. split; [vm_compute; reflexivity|].
  refine (proj2 (VacuumTransactionLog_keeps_one_block [1] demo_long_sys _ 40000 70000
    eq_refl demo_long_wf _ _ _ eq_refl _ _)).
  - split; [discriminate|discriminate].
  - reflexivity.
  - discriminate.
  - split; [split; discriminate|split; [split; reflexivity|discriminate]].
  - split; [split; discriminate|split; [split; reflexivity|discriminate]].
Defined.

(** A database without a low water mark stops the next start-up once the log
    was compacted: its mark counts as 0, the block number of 0 relative to the
    low water mark wraps around, and [VacuumTransactionLog] fails on a block that
    does not exist. *)
Theorem VacuumTransactionLog_unmarked_database dids did s :
  did ∈ dids ->
  Forall (fun a => lb_init a = true -> lb_database a <> did) (databases (var_header (vs_var s))) ->
  Forall (fun a => 0 <= lb_lowwater a) (databases (var_header (vs_var s))) ->
  relname (LogRelation (vs_log s)) = LogRelationName ->
  (forall blk b, rd_blocks (LogRelation (vs_log s)) !! blk = Some b -> blk < 2 ^ 32) ->
  TP_NumXidStatusPerBlock <= xid_low_water_mark (vcache s) < 2 ^ 47 ->
  VacuumTransactionLog (Some dids) s = Err "bad buffer read in variable logging".
Proof.
  intros Hin Habs Hnn Hname Hblk Hmark. unfold VacuumTransactionLog.
  assert (scan_low (databases (var_header (vs_var s))) dids (u64 (-1)) = 0) as ->.
  { pose proof (scan_low_elem (databases (var_header (vs_var s))) dids did (u64 (-1)) Hin) as Hle.
    rewrite area_lowwater_absent in Hle by done.
    assert (0 <= scan_low (databases (var_header (vs_var s))) dids (u64 (-1))); [|lia].
    apply scan_low_nonneg; [apply u64_range|done]. }
  unfold TransComputeBlockNumber. rewrite bool_decide_true by done. simpl.
  destruct (Z.gtb_spec 0 (xid_low_water_mark (vcache s))); [unfold TP_NumXidStatusPerBlock, TP_DataSize, BLCKSZ in *; lia|].
  set (k := xid_low_water_mark (vcache s) / TP_NumXidStatusPerBlock).
  assert (1 <= k < 2 ^ 32) as Hk.
  { unfold k, TP_NumXidStatusPerBlock, TP_DataSize, BLCKSZ in *. change (8192 * 4) with 32768 in *.
    split; [apply Z.div_le_lower_bound; lia|apply Z.div_lt_upper_bound; lia]. }
  assert (u64 (0 - k) = 2 ^ 64 - k) as Hu.
  { unfold u64. rewrite <- (Z_mod_plus_full _ 1), Z.mod_small by lia. lia. }
  change (0 / TP_NumXidStatusPerBlock) with 0. rewrite Hu.
  destruct (Z.eqb_spec (2 ^ 64 - k) 0); [lia|]. simpl. unfold ReadBuffer.
  destruct (rd_blocks (LogRelation (vs_log s)) !! (2 ^ 64 - k)) as [b|] eqn:E.
  - apply Hblk in E. lia.
  - by destruct (rd_blocks (LogRelation (vs_log s)) !! 0).
Qed.

(** A compacted log (mark 40000) and a new database 7. *)
Definition demo_newdb_sys : VarSys :=
  mkVarSys (mkLogState true (mkVariableCache 0 0 40000 0)
              (mkRelation LogRelationName {[ 0 := zero_block ]}) (mkXidCache 0 0) [])
    (mkVarRel 70000 0 (mkHeader 40000 40000 [mkLogBase true 1 40000])) 8 8 0 0 false false 1.

Lemma VacuumTransactionLog_unmarked_database_witness :
  VacuumTransactionLog (Some [1; 7]) demo_newdb_sys = Err "bad buffer read in variable logging".
Proof.
  apply (VacuumTransactionLog_unmarked_database [1; 7] 7).
  - right. left.
  - constructor; [discriminate|constructor].
  - constructor; [discriminate|constructor].
  - reflexivity.
  - intros blk b Hb. simpl in Hb. apply lookup_singleton_Some in Hb as [<- _]. reflexivity.
  - split; [discriminate|reflexivity].
Defined.

(** Object ids pass through a C [int]: once the persistent counter reaches
    [2^31 - 1], the id [GetNewObjectId] returns after a refill is not the
    reserved one but its sign-extended 32-bit truncation. *)
Theorem GetNewObjectId_int_overflow s :
  oid_queue_count s = 0 -> 2 ^ 31 - 1 <= nextOid (vs_var s) < 2 ^ 32 - 1 ->
  fst (GetNewObjectId s) = nextOid (vs_var s) + 1 + (2 ^ 64 - 2 ^ 32).
Proof.
  intros Hq Hn. unfold GetNewObjectId, VariableRelationGetNextOid. rewrite Hq. simpl.
  destruct (Z.eqb_spec (nextOid (vs_var s)) InvalidOid) as [E|E]; [unfold InvalidOid in E; lia|]. simpl.
  unfold i32, swrap. rewrite Z.mod_small by lia. change (32 - 1) with 31.
  destruct (Z.ltb_spec (nextOid (vs_var s) + 1) (2 ^ 31)); [lia|].
  unfold u64. rewrite <- (Z_mod_plus_full _ 1), Z.mod_small; lia.
Qed.

Lemma GetNewObjectId_int_overflow_witness :
  fst (GetNewObjectId (with_var demo_sys (mkVarRel 603 (2 ^ 31 - 1) (mkHeader 0 0 [])))) =
  2 ^ 31 + (2 ^ 64 - 2 ^ 32).
Proof.
  rewrite (GetNewObjectId_int_overflow (with_var demo_sys (mkVarRel 603 (2 ^ 31 - 1) (mkHeader 0 0 [])))).
  - reflexivity.
  - reflexivity.
  - split; [discriminate|reflexivity].
Defined.
