(* ===== verification/Snapshot.v ===== *)
(** * Snapshots: GetSnapshotData of storage/ipc/sinval.c, the holder of tqual.c

    A snapshot records which transactions were running when it was taken.  This
    file models the scan that builds one, the test of a transaction against it,
    and the per-thread holder with its query, serializable and user snapshots
    (pointers into a store, so that sharing and freeing are visible). *)

From S2P Require Import Prelude Procs TransLog Varsup.

(** [SnapshotData] of utils/tqual.h; [xip] has [xcnt] entries. *)
Record SnapshotData := mkSnapshot {
  snap_xmin : Z; snap_xmax : Z; isUser : bool; xip : list Z; snap_tid : option (Z * Z) }.

Definition xcnt (s : SnapshotData) : Z := Zlen (xip s).

(** [for (i = 0; i < snapshot->xcnt; i++) if (id == snapshot->xip[i]) return true;] *)
Fixpoint xip_scan (l : list Z) (id : Z) : bool :=
  match l with
  | [] => false
  | x :: l => if id =? x then true else xip_scan l id
  end.

Definition TransactionIdActiveDuringSnapshot (snapshot : SnapshotData) (id : Z) : bool :=
  if id >=? snap_xmax snapshot then true
  else if id >=? snap_xmin snapshot then xip_scan (xip snapshot) id
  else false.

(** ** Building a snapshot *)

(** The accumulators of the scan: [snapshot->xmin], [checkpoint], [xip] so far. *)
Record scan_acc := mkAcc { acc_xmin : Z; acc_checkpoint : Z; acc_xip : list Z }.

(** The [continue] test: threads whose transaction is not recorded. *)
Definition scan_skips (me : Z) (proc : THREAD) : bool :=
  (state proc =? TRANS_DEFAULT)
  || bool_decide (ttype proc = DBWRITER_THREAD)
  || bool_decide (ttype proc = DOL_THREAD)
  || bool_decide (ttype proc = DAEMON_THREAD)
  || (tid proc =? me).

(** One slot of the [for] loop. *)
Definition scan_proc (me : Z) (proc : THREAD) (a : scan_acc) : result scan_acc :=
  let a := if TransactionIdIsValid (xmin proc) && (xmin proc <? acc_checkpoint a)
           then mkAcc (acc_xmin a) (xmin proc) (acc_xip a) else a in
  let x := xid proc in
  if scan_skips me proc then Ok a
  else
    let a := if x <? acc_xmin a then mkAcc x (acc_checkpoint a) (acc_xip a) else a in
    let a := mkAcc (acc_xmin a) (acc_checkpoint a) (acc_xip a ++ [x]) in
    if (state proc =? TRANS_COMMIT) || (state proc =? TRANS_START) then Ok a
    else if state proc =? TRANS_DEFAULT then Err "transaction in default state"
    else Err "unknown commit state".

Fixpoint scan_procs (me : Z) (ps : ProcArray) (a : scan_acc) : result scan_acc :=
  match ps with
  | [] => Ok a
  | None :: ps => scan_procs me ps a
  | Some proc :: ps => a ← scan_proc me proc a; scan_procs me ps a
  end.

(** [GetMyThread()->xmin = x] *)
Definition set_thread_xmin (ps : ProcArray) (me x : Z) : ProcArray :=
  map (fun s => match s with
                | Some t => if tid t =? me
                            then Some (mkTHREAD (tid t) (xid t) x (state t) (ttype t) (databaseId t))
                            else Some t
                | None => None end) ps.

Definition set_procs (l : LogState) (ps : ProcArray) : LogState :=
  mkLogState (TransactionSystemInitialized l) (ShmemVariableCache l) (LogRelation l) (xcache l) ps.

(** The structure of the calling thread. *)
Definition GetMyThread (ps : ProcArray) (me : Z) : option THREAD :=
  List.find (fun t => tid t =? me) (live_threads ps).

(** [me] is the calling thread, [cur] its [GetCurrentTransactionId()].  The scan
    holds [SInvalLock] and the gate of one thread at a time; here all slots are
    read at one moment. *)
Definition GetSnapshotData (s : VarSys) (me cur : Z) (serializable : bool)
    : result (SnapshotData * VarSys) :=
  xmax ← ReadNewTransactionId s;
  a ← scan_procs me (procs (vs_log s)) (mkAcc cur cur []);
  let '(s, checkpoint) :=
    if serializable then
      (with_log s (set_procs (vs_log s) (set_thread_xmin (procs (vs_log s)) me (acc_xmin a))),
       if acc_xmin a <? acc_checkpoint a then acc_xmin a else acc_checkpoint a)
    else (s, acc_checkpoint a) in
  match GetMyThread (procs (vs_log s)) me with
  | Some t =>
      if TransactionIdIsValid (xmin t) then
        let s := SetCheckpointId s checkpoint in
        Ok (mkSnapshot (acc_xmin a) xmax false (acc_xip a) None, s)
      else Err "Assert(GetMyThread()->xmin != InvalidTransactionId)"
  | None => Err "no thread"
  end.

(** ** Lemmas on the scan *)

Lemma xip_scan_spec l id : xip_scan l id = true <-> id ∈ l.
Proof.
  induction l as [|x l IH]; simpl.
  - split; [done|]. intros H. by apply not_elem_of_nil in H.
  - rewrite elem_of_cons. destruct (Z.eqb_spec id x); [naive_solver|]. rewrite IH. naive_solver.
Qed.

(** The snapshot's bounds against its members. *)
Definition acc_wf (a : scan_acc) : Prop := Forall (fun x => acc_xmin a <= x) (acc_xip a).

Lemma scan_proc_spec me proc a a' : acc_wf a -> scan_proc me proc a = Ok a' ->
  acc_wf a' /\ acc_xmin a' <= acc_xmin a /\ acc_checkpoint a' <= acc_checkpoint a /\
  acc_xip a' = acc_xip a ++ (if scan_skips me proc then [] else [xid proc]) /\
  (acc_xmin a' = acc_xmin a \/ acc_xmin a' ∈ acc_xip a') /\
  (TransactionIdIsValid (xmin proc) = true -> acc_checkpoint a' <= xmin proc).
Proof.
  intros Hwf. unfold scan_proc.
  set (a1 := if _ && _ then _ else _). 
  assert (acc_xmin a1 = acc_xmin a /\ acc_xip a1 = acc_xip a /\ acc_checkpoint a1 <= acc_checkpoint a /\
    (TransactionIdIsValid (xmin proc) = true -> acc_checkpoint a1 <= xmin proc)) as (H1 & H2 & H3 & H4).
  { subst a1. destruct (TransactionIdIsValid (xmin proc)); simpl; [|done].
    destruct (Z.ltb_spec (xmin proc) (acc_checkpoint a)); simpl; split_and!; done || lia. }
  clearbody a1. destruct (scan_skips me proc) eqn:Hsk.
  { intros [= <-]. unfold acc_wf. rewrite H1, H2, app_nil_r. split_and!; solve [auto | lia]. }
  set (a2 := if xid proc <? acc_xmin a1 then _ else _).
  intros Hr. assert (a' = mkAcc (acc_xmin a2) (acc_checkpoint a2) (acc_xip a2 ++ [xid proc])) as ->.
  { clearbody a2. destruct (_ || _); [congruence|]. destruct (_ =? _); congruence. }
  assert (acc_xip a2 = acc_xip a /\ acc_checkpoint a2 = acc_checkpoint a1 /\
    acc_xmin a2 <= acc_xmin a /\ acc_xmin a2 <= xid proc /\
    (acc_xmin a2 = acc_xmin a \/ acc_xmin a2 = xid proc)) as (G1 & G2 & G3 & G4 & G5).
  { subst a2. destruct (Z.ltb_spec (xid proc) (acc_xmin a1)); simpl; rewrite ?H1, ?H2 in *;
      split_and!; solve [done | lia | auto]. }
  simpl. rewrite G1, G2. split_and!; auto.
  - unfold acc_wf. simpl. apply Forall_app. split; [|by constructor].
    eapply Forall_impl; [apply Hwf|]. simpl. lia.
  - destruct G5 as [G5|G5]; [by left|right]. rewrite G5. set_solver.
Qed.

(** The recorded ids are those of the eligible threads, in slot order. *)
Lemma scan_procs_spec me ps : forall a a', acc_wf a -> scan_procs me ps a = Ok a' ->
  acc_wf a' /\ acc_xmin a' <= acc_xmin a /\ acc_checkpoint a' <= acc_checkpoint a /\
  acc_xip a' = acc_xip a ++ map xid (filter (fun t => scan_skips me t = false) (live_threads ps)) /\
  (acc_xmin a' = acc_xmin a \/ acc_xmin a' ∈ acc_xip a') /\
  Forall (fun t => TransactionIdIsValid (xmin t) = true -> acc_checkpoint a' <= xmin t) (live_threads ps).
Proof.
  induction ps as [|[t|] ps IH]; intros a a' Hwf; simpl.
  - intros [= <-]. rewrite app_nil_r. split_and!; solve [auto | lia].
  - intros (a1 & H1 & H2)%result_bind_Ok.
    destruct (scan_proc_spec me t a a1 Hwf H1) as (W1 & X1 & C1 & I1 & M1 & K1).
    destruct (IH a1 a' W1 H2) as (W2 & X2 & C2 & I2 & M2 & K2).
    split_and!; try solve [auto | lia].
    + rewrite I2, I1, <- app_assoc. f_equal. rewrite filter_cons.
      by destruct (scan_skips me t).
    + destruct M2 as [M2|M2]; [|by right]. destruct M1 as [M1|M1]; [left; congruence|right].
      rewrite M2, I2. set_solver.
    + constructor; [|done]. intros Hv. specialize (K1 Hv). lia.
  - apply IH. done.
Qed.

(** *** The table of threads a scan meets *)

(** Threads that take transaction ids of their own; the writer, the daemons and
    the helpers work for the transaction of one of these or for none. *)
Definition takes_xids (t : THREAD) : Prop := ttype t = NORMAL_THREAD \/ ttype t = POOLSWEEP_THREAD.

(** The table as the threads keep it: an idle thread has no id
    ([ThreadTransactionReset]), a running or committing one has one
    ([ThreadTransactionStart], [ThreadTransactionEnd]), and a thread that takes no
    ids shows none or the one of a thread that does. *)
Record procs_ok (ps : ProcArray) : Prop := {
  po_state : forall t, t ∈ live_threads ps ->
    (state t = TRANS_DEFAULT /\ xid t = InvalidTransactionId) \/
    ((state t = TRANS_START \/ state t = TRANS_COMMIT) /\ 0 < xid t);
  po_helper : forall t, t ∈ live_threads ps -> TransactionIdIsValid (xid t) = true ->
    exists t', t' ∈ live_threads ps /\ takes_xids t' /\ xid t' = xid t }.

Lemma scan_keeps me t : takes_xids t -> tid t <> me -> state t <> TRANS_DEFAULT ->
  scan_skips me t = false.
Proof.
  intros Hk Hm Hs. unfold scan_skips.
  destruct (Z.eqb_spec (state t) TRANS_DEFAULT), (Z.eqb_spec (tid t) me); try done.
  by destruct Hk as [-> | ->].
Qed.

Lemma scan_procs_total me ps a :
  (forall t, t ∈ live_threads ps -> state t = TRANS_DEFAULT \/ state t = TRANS_START \/ state t = TRANS_COMMIT) ->
  exists a', scan_procs me ps a = Ok a'.
Proof.
  revert a. induction ps as [|[t|] ps IH]; intros a Hst; simpl in *; [eauto| |by apply IH].
  assert (exists a1, scan_proc me t a = Ok a1) as [a1 E].
  { unfold scan_proc. destruct (scan_skips me t) eqn:Hsk; [eauto|].
    destruct (Hst t (list_elem_of_here _ _)) as [E|[E|E]]; rewrite E; simpl; eauto.
    unfold scan_skips in Hsk. by rewrite E in Hsk. }
  rewrite E. apply IH. intros u Hu. apply Hst. by right.
Qed.

Lemma set_thread_xmin_live ps me x :
  live_threads (set_thread_xmin ps me x) =
  map (fun t => if tid t =? me then mkTHREAD (tid t) (xid t) x (state t) (ttype t) (databaseId t) else t)
    (live_threads ps).
Proof.
  induction ps as [|[t|] ps IH]; simpl; [done| |done]. rewrite <- IH. by destruct (tid t =? me).
Qed.

Lemma my_thread_set ps me x t : GetMyThread ps me = Some t ->
  exists t', GetMyThread (set_thread_xmin ps me x) me = Some t' /\ xmin t' = x.
Proof.
  unfold GetMyThread. rewrite set_thread_xmin_live. induction (live_threads ps) as [|u l IH]; [done|].
  simpl. destruct (Z.eqb_spec (tid u) me) as [E|E].
  - intros _. simpl. destruct (Z.eqb_spec (tid u) me); [|done]. by eexists.
  - destruct (Z.eqb_spec (tid u) me); [done|]. apply IH.
Qed.

(** A scan whose assertion holds comes to an end. *)
Lemma GetSnapshotData_total s me cur serializable xmax my : procs_ok (procs (vs_log s)) ->
  ReadNewTransactionId s = Ok xmax -> GetMyThread (procs (vs_log s)) me = Some my -> 0 < cur ->
  serializable = true \/ TransactionIdIsValid (xmin my) = true ->
  exists r, GetSnapshotData s me cur serializable = Ok r.
Proof.
  intros [Hst _] Hx Hmy Hcur Hmin. unfold GetSnapshotData. rewrite Hx. simpl.
  destruct (scan_procs_total me (procs (vs_log s)) (mkAcc cur cur [])) as [a Ha].
  { intros t Ht. destruct (Hst t Ht) as [[? _]|[[?|?] _]]; auto. }
  rewrite Ha. simpl.
  destruct (scan_procs_spec me _ (mkAcc cur cur []) a (List.Forall_nil _) Ha) as (_ & _ & _ & Hxip & Hm & _).
  assert (0 < acc_xmin a) as Hpos.
  { destruct Hm as [-> |Hin]; [done|]. rewrite Hxip in Hin. simpl in Hin.
    apply list_elem_of_fmap in Hin as (t & -> & Ht). apply list_elem_of_filter in Ht as [Hsk Ht].
    destruct (Hst t Ht) as [[E _]|[_ ?]]; [|done]. unfold scan_skips in Hsk. by rewrite E in Hsk. }
  destruct serializable.
  - simpl. destruct (my_thread_set _ me (acc_xmin a) my Hmy) as (t' & -> & ->).
    unfold TransactionIdIsValid, InvalidTransactionId. destruct (Z.eqb_spec (acc_xmin a) 0); [lia|]. by eexists.
  - rewrite Hmy. destruct Hmin as [|Hmin]; [done|]. rewrite Hmin. by eexists.
Qed.

(** What a snapshot that was taken consists of. *)
Lemma GetSnapshotData_inv s me cur serializable snap s' :
  GetSnapshotData s me cur serializable = Ok (snap, s') ->
  exists xmax a, ReadNewTransactionId s = Ok xmax /\
    scan_procs me (procs (vs_log s)) (mkAcc cur cur []) = Ok a /\
    snap = mkSnapshot (acc_xmin a) xmax false (acc_xip a) None /\
    GetCheckpointId s' <= acc_checkpoint a.
Proof.
  unfold GetSnapshotData. intros (xmax & Hx & (a & Ha & Hr)%result_bind_Ok)%result_bind_Ok.
  exists xmax, a. split; [done|]. split; [done|].
  destruct serializable; simpl in Hr; destruct (GetMyThread _ me) as [t|]; try done;
    destruct (TransactionIdIsValid (xmin t)); try done; injection Hr as <- <-; (split; [done|]);
    unfold GetCheckpointId; simpl; [|lia].
  destruct (Z.ltb_spec (acc_xmin a) (acc_checkpoint a)); simpl; lia.
Qed.

(** ** The snapshot holder (tqual.c)

    Snapshots are heap objects; the holder keeps pointers to them.  [SnapshotNow]
    (NULL), [SnapshotSelf] and [SnapshotAny] are the small constants of tqual.h. *)

Definition SnapshotNow : Z := 0.
Definition SnapshotSelf : Z := 1.
Definition SnapshotAny : Z := 2.

Definition XACT_DIRTY_READ : Z := 0.
Definition XACT_READ_COMMITTED : Z := 1.
Definition XACT_REPEATABLE_READ : Z := 2.
Definition XACT_SERIALIZABLE : Z := 3.
Definition XACT_ALL : Z := 4.
Definition XACT_USER : Z := 5.

(** The holder with the store of live snapshots and the allocator's next address. *)
Record SnapshotHolder := mkHolder {
  UserSnapshot : Z;
  QuerySnapshot : Z;
  SerializableSnapshot : Z;
  ReferentialIntegritySnapshotOverride : bool;
  snap_store : gmap Z SnapshotData;
  snap_next : Z }.

Definition NULL : Z := 0.

(** [palloc] of a snapshot. *)
Definition alloc_snapshot (h : SnapshotHolder) (d : SnapshotData) : Z * SnapshotHolder :=
  (snap_next h,
   mkHolder (UserSnapshot h) (QuerySnapshot h) (SerializableSnapshot h)
     (ReferentialIntegritySnapshotOverride h) (<[snap_next h := d]> (snap_store h)) (snap_next h + 1)).

(** [pfree(p->xip); pfree(p);]: [None] when [p] is not a live snapshot. *)
Definition free_snapshot (h : SnapshotHolder) (p : Z) : option SnapshotHolder :=
  match snap_store h !! p with
  | None => None
  | Some _ =>
      Some (mkHolder (UserSnapshot h) (QuerySnapshot h) (SerializableSnapshot h)
              (ReferentialIntegritySnapshotOverride h) (delete p (snap_store h)) (snap_next h))
  end.

Definition set_user (h : SnapshotHolder) (p : Z) : SnapshotHolder :=
  mkHolder p (QuerySnapshot h) (SerializableSnapshot h) (ReferentialIntegritySnapshotOverride h)
    (snap_store h) (snap_next h).
Definition set_query (h : SnapshotHolder) (p : Z) : SnapshotHolder :=
  mkHolder (UserSnapshot h) p (SerializableSnapshot h) (ReferentialIntegritySnapshotOverride h)
    (snap_store h) (snap_next h).
Definition set_serializable (h : SnapshotHolder) (p : Z) : SnapshotHolder :=
  mkHolder (UserSnapshot h) (QuerySnapshot h) p (ReferentialIntegritySnapshotOverride h)
    (snap_store h) (snap_next h).
Definition set_ri_override (h : SnapshotHolder) (b : bool) : SnapshotHolder :=
  mkHolder (UserSnapshot h) (QuerySnapshot h) (SerializableSnapshot h) b (snap_store h) (snap_next h).

(** The outcome of an operation that frees: [Some (Ok h)] done, [Some (Err e)]
    an [elog(ERROR)], [None] a free of memory that is not live. *)
Definition hresult := option (result SnapshotHolder).

(** [taken]: what [GetSnapshotData(false)] returned. *)
Definition TakeUserSnapshot (h : SnapshotHolder) (taken : SnapshotData) : hresult :=
  if negb (UserSnapshot h =? NULL) then Some (Err "already holding a user snapshot")
  else
    let '(p, h) := alloc_snapshot h (mkSnapshot (snap_xmin taken) (snap_xmax taken) true (xip taken)
                                       (snap_tid taken)) in
    let h := set_user h p in
    h ← (if negb (QuerySnapshot h =? NULL)
             && negb (QuerySnapshot h =? SerializableSnapshot h)
             && negb (QuerySnapshot h =? SnapshotAny)
         then free_snapshot h (QuerySnapshot h) else Some h);
    Some (Ok (set_query h (UserSnapshot h))).

Definition DropUserSnapshot (h : SnapshotHolder) : SnapshotHolder := set_user h NULL.

(** [taken]: what the call of [GetSnapshotData] on the taken branch returns. *)
Definition SetQuerySnapshot (h : SnapshotHolder) (XactIsoLevel : Z) (taken : SnapshotData)
    : option SnapshotHolder :=
  let h := set_ri_override h false in
  if SerializableSnapshot h =? NULL then
    let '(p, h) := alloc_snapshot h taken in
    let h := set_serializable h p in
    let h := set_query h (SerializableSnapshot h) in
    Some (set_user h NULL)
  else
    h ← (if negb (QuerySnapshot h =? SerializableSnapshot h)
             && negb (QuerySnapshot h =? UserSnapshot h)
             && negb (QuerySnapshot h =? SnapshotAny)
         then (fun h => set_query h NULL) <$> free_snapshot h (QuerySnapshot h)
         else Some h);
    let read_committed h := let '(p, h) := alloc_snapshot h taken in set_query h p in
    Some (if XactIsoLevel =? XACT_SERIALIZABLE then set_query h (SerializableSnapshot h)
          else if XactIsoLevel =? XACT_ALL then set_query h SnapshotAny
          else if XactIsoLevel =? XACT_USER then
            if negb (UserSnapshot h =? NULL) then set_query h (UserSnapshot h)
            else read_committed h
          else if XactIsoLevel =? XACT_READ_COMMITTED then read_committed h
          else h).

Definition FreeXactSnapshot (h : SnapshotHolder) : SnapshotHolder :=
  set_user (set_serializable (set_query h NULL) NULL) NULL.

(** The copy shares nothing: [xip] is copied into [dest]'s memory; [nowait] is
    not copied. *)
Definition CopySnapshot (source : SnapshotData) : SnapshotData :=
  mkSnapshot (snap_xmin source) (snap_xmax source) (isUser source) (xip source) (snap_tid source).

(** ** The holder's pointers are live *)

Definition live_ptr (h : SnapshotHolder) (p : Z) : Prop := is_Some (snap_store h !! p).

(** Every snapshot in the store has an address of the allocator; the user and
    serializable pointers are NULL or live. *)
Record store_ok (h : SnapshotHolder) : Prop := {
  so_next : 2 < snap_next h;
  so_store : map_Forall (fun p _ => 2 < p < snap_next h) (snap_store h);
  so_user : UserSnapshot h = NULL \/ live_ptr h (UserSnapshot h);
  so_ser : SerializableSnapshot h = NULL \/ live_ptr h (SerializableSnapshot h) }.

(** The query pointer is live or [SnapshotAny]; it is NULL only before the first
    snapshot of a transaction. *)
Definition query_ok (h : SnapshotHolder) : Prop :=
  (QuerySnapshot h = NULL /\ SerializableSnapshot h = NULL) \/
  QuerySnapshot h = SnapshotAny \/ live_ptr h (QuerySnapshot h).

Definition holder_inv (h : SnapshotHolder) : Prop := store_ok h /\ query_ok h.

Lemma live_range h p : store_ok h -> live_ptr h p -> 2 < p < snap_next h.
Proof. intros Hi [d Hd]. by apply (map_Forall_lookup_1 _ _ _ _ (so_store h Hi) Hd). Qed.

(** Allocation: a fresh address, old snapshots stay live. *)
Lemma alloc_live h d : store_ok h ->
  let h' := snd (alloc_snapshot h d) in
  store_ok h' /\ live_ptr h' (snap_next h) /\ ~ live_ptr h (snap_next h) /\
  (forall q, live_ptr h q -> live_ptr h' q).
Proof.
  intros Hi h'. pose proof (so_next h Hi).
  assert (~ live_ptr h (snap_next h)) as Hfresh.
  { intros Hl. apply (live_range h _ Hi) in Hl. lia. }
  assert (forall q, live_ptr h q -> live_ptr h' q) as Hmono.
  { intros q Hq. unfold live_ptr. simpl. apply lookup_insert_is_Some.
    destruct (decide (snap_next h = q)); auto. }
  split; [|split; [by unfold live_ptr; simpl; rewrite lookup_insert_eq|done]].
  destruct Hi as [? Hs Hu Hser]. split; simpl; [lia| | |].
  - apply map_Forall_insert_2; [lia|]. eapply map_Forall_impl; [exact Hs|]. simpl. lia.
  - destruct Hu; [by left|right; by apply Hmono].
  - destruct Hser; [by left|right; by apply Hmono].
Qed.

(** Freeing a live snapshot that neither other pointer holds. *)
Lemma free_live h p : store_ok h -> live_ptr h p ->
  p <> SerializableSnapshot h -> p <> UserSnapshot h ->
  exists h', free_snapshot h p = Some h' /\ store_ok h' /\
    UserSnapshot h' = UserSnapshot h /\ SerializableSnapshot h' = SerializableSnapshot h /\
    QuerySnapshot h' = QuerySnapshot h /\
    (forall q, q <> p -> live_ptr h q -> live_ptr h' q).
Proof.
  intros [? Hs Hu Hser] [d Hd] H1 H2. unfold free_snapshot. rewrite Hd. eexists. split; [reflexivity|].
  assert (forall q, q <> p -> live_ptr h q -> is_Some (delete p (snap_store h) !! q)) as Hmono.
  { intros q Hq Hl. rewrite lookup_delete_ne; done. }
  split; [split; simpl; [done| | |]|by split_and!].
  - by apply map_Forall_delete.
  - destruct Hu; [by left|right]. apply Hmono; [congruence|done].
  - destruct Hser; [by left|right]. apply Hmono; [congruence|done].
Qed.

(** The pointer updates touch nothing else. *)
Lemma set_query_store h q : store_ok h -> store_ok (set_query h q).
Proof. by intros []. Qed.
Lemma set_user_store h q : (q = NULL \/ live_ptr h q) -> store_ok h -> store_ok (set_user h q).
Proof. by intros ? []. Qed.
Lemma set_ser_store h q : (q = NULL \/ live_ptr h q) -> store_ok h -> store_ok (set_serializable h q).
Proof. by intros ? []. Qed.

(** Isolation levels [SetQuerySnapshot] has a case for. *)
Definition iso_supported (l : Z) : Prop :=
  l = XACT_READ_COMMITTED \/ l = XACT_SERIALIZABLE \/ l = XACT_ALL \/ l = XACT_USER.

Lemma query_after_alloc h taken : store_ok h ->
  holder_inv (set_query (snd (alloc_snapshot h taken)) (snap_next h)).
Proof.
  intros Hs. destruct (alloc_live h taken Hs) as (Hs' & Hl & _). split; [by apply set_query_store|].
  by right; right.
Qed.

(** The choice of the query snapshot by isolation level. *)
Lemma SetQuerySnapshot_level_inv h l taken : store_ok h -> SerializableSnapshot h <> NULL ->
  iso_supported l ->
  holder_inv (if l =? XACT_SERIALIZABLE then set_query h (SerializableSnapshot h)
          else if l =? XACT_ALL then set_query h SnapshotAny
          else if l =? XACT_USER then
            if negb (UserSnapshot h =? NULL) then set_query h (UserSnapshot h)
            else let '(p, h) := alloc_snapshot h taken in set_query h p
          else if l =? XACT_READ_COMMITTED then let '(p, h) := alloc_snapshot h taken in set_query h p
          else h).
Proof.
  intros Hs Hser Hl. pose proof (query_after_alloc h taken Hs) as Ha.
  destruct (Z.eqb_spec l XACT_SERIALIZABLE).
  { split; [by apply set_query_store|]. destruct (so_ser h Hs); [done|by right; right]. }
  destruct (Z.eqb_spec l XACT_ALL).
  { split; [by apply set_query_store|by right; left]. }
  destruct (Z.eqb_spec l XACT_USER).
  { destruct (Z.eqb_spec (UserSnapshot h) NULL); simpl; [done|].
    split; [by apply set_query_store|]. destruct (so_user h Hs); [done|by right; right]. }
  destruct (Z.eqb_spec l XACT_READ_COMMITTED); [done|]. by destruct Hl as [?|[?|[?|?]]].
Qed.

Lemma SetQuerySnapshot_inv h l taken : holder_inv h -> iso_supported l ->
  exists h', SetQuerySnapshot h l taken = Some h' /\ holder_inv h'.
Proof.
  intros [Hs Hq] Hl. unfold SetQuerySnapshot. simpl.
  assert (store_ok (set_ri_override h false)) as Hs0 by (by destruct Hs).
  destruct (Z.eqb_spec (SerializableSnapshot h) NULL) as [E|E].
  { destruct (alloc_live _ taken Hs0) as (Hs' & Hlv & _). eexists. split; [reflexivity|].
    split; [|by right; right].
    apply set_user_store; [by left|]. apply set_query_store, set_ser_store; [by right|done]. }
  destruct (negb (QuerySnapshot h =? SerializableSnapshot h) && negb (QuerySnapshot h =? UserSnapshot h)
            && negb (QuerySnapshot h =? SnapshotAny)) eqn:Ec.
  - bool_cases. destruct Hq as [[_ ?]|[?|Hlv]]; [done|done|].
    destruct (free_live (set_ri_override h false) (QuerySnapshot h) Hs0) as (h1 & -> & Hs1 & _ & Hser & _ & _);
      try done.
    simpl. eexists. split; [reflexivity|].
    apply (SetQuerySnapshot_level_inv (set_query h1 NULL)); [by apply set_query_store| |done].
    simpl. rewrite Hser. done.
  - simpl. eexists. split; [reflexivity|].
    by apply (SetQuerySnapshot_level_inv (set_ri_override h false)).
Qed.

Lemma TakeUserSnapshot_inv h taken : holder_inv h ->
  exists r, TakeUserSnapshot h taken = Some r /\
    match r with Ok h' => holder_inv h' | Err _ => UserSnapshot h <> NULL end.
Proof.
  intros [Hs Hq]. unfold TakeUserSnapshot.
  destruct (Z.eqb_spec (UserSnapshot h) NULL) as [E|E]; simpl; [|by eexists].
  set (d := mkSnapshot _ _ _ _ _). destruct (alloc_live h d Hs) as (Hs1 & Hl1 & Hf1 & Hm1).
  set (h1 := set_user (snd (alloc_snapshot h d)) (snap_next h)).
  assert (store_ok h1) as Hs2 by (apply set_user_store; [by right|done]).
  change (set_user (mkHolder _ _ _ _ _ _) (snap_next h)) with h1.
  destruct (negb (QuerySnapshot h =? NULL) && negb (QuerySnapshot h =? SerializableSnapshot h)
            && negb (QuerySnapshot h =? SnapshotAny)) eqn:Ec.
  - bool_cases. destruct Hq as [[? _]|[?|Hlv]]; [done|done|].
    assert (snap_next h <> QuerySnapshot h) as Hne by congruence.
    destruct (free_live h1 (QuerySnapshot h) Hs2) as (h2 & -> & Hs3 & Hu & _ & _ & Hm); try done.
    { by apply Hm1. }
    simpl. eexists. split; [reflexivity|]. split; [by apply set_query_store|]. right; right.
    simpl. rewrite Hu. by apply Hm.
  - simpl. eexists. split; [reflexivity|]. split; [by apply set_query_store|]. by right; right.
Qed.

(** ** Properties *)

(** C28 A snapshot sees every other running transaction as active.  In a table
    of threads where idle threads have no id, running ones have one and the
    writer, daemons and helpers work for the transaction of a backend or a sweeper,
    [GetSnapshotData] returns a snapshot that treats as active every transaction
    in progress ([TransactionIdIsInProgress]) other than the caller's, and every
    id not yet handed out; ids in [xip] are never below the snapshot's [xmin], and
    the checkpoint recorded is at most the [xmin] any thread has published. *)
Theorem GetSnapshotData_running s me cur serializable xmax my : procs_ok (procs (vs_log s)) ->
  ReadNewTransactionId s = Ok xmax -> GetMyThread (procs (vs_log s)) me = Some my -> 0 < cur ->
  serializable = true \/ TransactionIdIsValid (xmin my) = true ->
  exists snap s', GetSnapshotData s me cur serializable = Ok (snap, s') /\ snap_xmax snap = xmax /\
  (forall x, TransactionIdIsValid x = true -> TransactionIdIsInProgress (procs (vs_log s)) x = true ->
     (forall t, t ∈ live_threads (procs (vs_log s)) -> tid t = me -> xid t <> x) ->
     TransactionIdActiveDuringSnapshot snap x = true) /\
  (forall x, xmax <= x -> TransactionIdActiveDuringSnapshot snap x = true) /\
  Forall (fun x => snap_xmin snap <= x) (xip snap) /\ snap_xmin snap <= cur /\
  (forall t, t ∈ live_threads (procs (vs_log s)) -> TransactionIdIsValid (xmin t) = true ->
     GetCheckpointId s' <= xmin t).
Proof.
  intros Hps Hx Hmy Hcur Hmin.
  destruct (GetSnapshotData_total s me cur serializable xmax my) as [[snap s'] E]; try done.
  exists snap, s'. split; [done|].
  destruct (GetSnapshotData_inv s me cur serializable snap s' E) as (xm & a & Hx' & Ha & -> & Hcp).
  rewrite Hx in Hx'. injection Hx' as <-.
  destruct (scan_procs_spec me _ (mkAcc cur cur []) a (List.Forall_nil _) Ha) as (Hwf & Hxm & Hc & Hxip & _ & Hk).
  unfold TransactionIdActiveDuringSnapshot. simpl. split_and!; [done| | |exact Hwf|exact Hxm|].
  - intros x Hval (t & Ht & <-)%in_progress_spec Hnot. destruct (Z.geb_spec (xid t) xmax); [done|].
    destruct (po_helper _ Hps t Ht Hval) as (t' & Ht' & Hkind & Ex). rewrite <- Ex in *.
    assert (xid t' ∈ acc_xip a) as Hin.
    { rewrite Hxip. simpl. apply list_elem_of_fmap. exists t'. split; [done|].
      apply list_elem_of_filter. split; [|done]. apply scan_keeps; [done| |].
      - intros Hm. by apply (Hnot t' Ht' Hm).
      - intros Hd. destruct (po_state _ Hps t' Ht') as [[_ E0]|[[Hs|Hs] _]].
        + by rewrite E0 in Hval.
        + by rewrite Hs in Hd.
        + by rewrite Hs in Hd. }
    assert (acc_xmin a <= xid t') as Hge by (by apply (proj1 (Forall_forall _ _) Hwf)).
    destruct (Z.geb_spec (xid t') (acc_xmin a)); [|lia]. by apply xip_scan_spec.
  - intros x Hxx. by destruct (Z.geb_spec x xmax); [|lia].
  - intros t Ht Hv. pose proof (proj1 (Forall_forall _ _) Hk t Ht Hv). lia.
Qed.

(** Two running transactions, 602 (committing) and 603, and an idle thread. *)
Definition demo_threads : ProcArray :=
  [ Some (mkTHREAD 1 604 604 TRANS_START NORMAL_THREAD 1); None;
    Some (mkTHREAD 2 603 601 TRANS_START NORMAL_THREAD 1);
    Some (mkTHREAD 3 602 602 TRANS_COMMIT POOLSWEEP_THREAD 1);
    Some (mkTHREAD 4 0 0 TRANS_DEFAULT NORMAL_THREAD 1) ].
Definition demo_running : VarSys :=
  mkVarSys (mkLogState true (mkVariableCache 3 605 514 0) (mkRelation LogRelationName ∅)
              (mkXidCache 0 0) demo_threads)
    (mkVarRel 608 0 (mkHeader 514 514 [])) 8 8 0 0 false false 1.

Definition demo_running_after : VarSys :=
  SetCheckpointId (with_log demo_running (set_procs (vs_log demo_running)
    (set_thread_xmin demo_threads 1 602))) 601.

Lemma demo_snapshot_taken : GetSnapshotData demo_running 1 604 true =
  Ok (mkSnapshot 602 605 false [603; 602] None, demo_running_after).
Proof. vm_compute. reflexivity. Qed.

Lemma demo_threads_ok : procs_ok demo_threads.
Proof.
  assert (Forall (fun t => ((state t = TRANS_DEFAULT /\ xid t = InvalidTransactionId) \/
    ((state t = TRANS_START \/ state t = TRANS_COMMIT) /\ 0 < xid t)) /\ takes_xids t) (live_threads demo_threads)) as H.
  { repeat constructor; vm_compute; tauto. }
  rewrite Forall_forall in H. split; intros t Ht; [by apply H|]. exists t. split_and!; [done| |done]. by apply H.
Qed.

(** The sweeper's transaction 602 is seen as running. *)
Lemma GetSnapshotData_running_witness : exists snap s',
  GetSnapshotData demo_running 1 604 true = Ok (snap, s') /\
  TransactionIdActiveDuringSnapshot snap 602 = true.
Proof.
  destruct (GetSnapshotData_running demo_running 1 604 true 605 (mkTHREAD 1 604 604 TRANS_START NORMAL_THREAD 1)
    demo_threads_ok eq_refl eq_refl eq_refl (or_introl eq_refl)) as (snap & s' & E & _ & H & _).
  exists snap, s'. split; [exact E|]. apply H; [reflexivity|reflexivity|].
  intros t Ht Hm Hx. change (t ∈ live_threads demo_threads) in Ht.
  repeat (apply elem_of_cons in Ht as [->|Ht]; [discriminate|]). by apply not_elem_of_nil in Ht.
Defined.

(** The snapshot holder never frees memory that is not live and never keeps
    a pointer to freed memory: from a state whose pointers are NULL, live or
    [SnapshotAny], taking or dropping a user snapshot, setting the query snapshot
    at any supported isolation level, and the end-of-transaction reset all run to
    completion in such a state ([TakeUserSnapshot] fails exactly on its own
    "already holding" test). *)
Theorem snapshot_holder_safe h : holder_inv h ->
  (forall l taken, iso_supported l ->
     exists h', SetQuerySnapshot h l taken = Some h' /\ holder_inv h') /\
  (forall taken, exists r, TakeUserSnapshot h taken = Some r /\
     match r with Ok h' => holder_inv h' | Err _ => UserSnapshot h <> NULL end) /\
  holder_inv (DropUserSnapshot h) /\ holder_inv (FreeXactSnapshot h).
Proof.
  intros Hi. split; [by intros; apply SetQuerySnapshot_inv|].
  split; [by intros; apply TakeUserSnapshot_inv|]. destruct Hi as [Hs Hq]. split.
  - split; [apply set_user_store; [by left|done]|done].
  - split; [|by left]. apply set_user_store; [by left|].
    apply set_ser_store; [by left|]. by apply set_query_store.
Qed.

Definition demo_snap : SnapshotData := mkSnapshot 602 605 false [603; 602] None.
Definition demo_holder : SnapshotHolder := mkHolder 0 4 3 false {[ 3 := demo_snap; 4 := demo_snap ]} 5.

Lemma snapshot_holder_safe_witness : exists h',
  SetQuerySnapshot demo_holder XACT_SERIALIZABLE demo_snap = Some h' /\
  QuerySnapshot h' = 3 /\ holder_inv h'.
Proof.
  destruct (proj1 (snapshot_holder_safe demo_holder ltac:(split; [split; [reflexivity| |left; reflexivity|
      right; exists demo_snap; reflexivity]|right; right; exists demo_snap; reflexivity];
      apply map_Forall_insert_2; [split; reflexivity|apply map_Forall_singleton; split; reflexivity]))
    XACT_SERIALIZABLE demo_snap (or_intror (or_introl eq_refl))) as (h' & H & Hi).
  exists h'. split; [exact H|]. split; [|exact Hi]. vm_compute in H. injection H as <-. reflexivity.
Defined.

Lemma GetNewTransactionId_procs v : procs (vs_log (GetNewTransactionId v).2) = procs (vs_log v).
Proof. unfold GetNewTransactionId. destruct (bootstrap v); [done|]. by destruct (_ =? 0). Qed.

(** A transaction id is visible before it is published: [StartTransaction] draws
    its id in one step and publishes it in its slot in a later one.  A snapshot
    taken in between, while no slot carries the new id [x], treats [x] as a
    finished transaction (its [xmax] is already above [x] and [x] is not in its
    list), so that what [x] commits later appears in a snapshot taken earlier. *)
Theorem unpublished_xid_not_active v me cur serializable snap v' :
  let x := (GetNewTransactionId v).1 in
  bootstrap v = false -> 0 <= nextXid (vcache v) < 2 ^ 64 - 1 -> 0 <= nextXidData (vs_var v) < 2 ^ 64 - 2 ->
  (forall t, t ∈ live_threads (procs (vs_log v)) -> xid t <> x) ->
  GetSnapshotData (GetNewTransactionId v).2 me cur serializable = Ok (snap, v') ->
  TransactionIdActiveDuringSnapshot snap x = false.
Proof.
  intros x Hboot Hn Hv Hx Hs.
  assert (snap_xmax snap = x + 1 /\ xip snap = map xid (filter (fun t => scan_skips me t = false)
    (live_threads (procs (vs_log v))))) as [Hmax Hxip].
  { destruct (GetSnapshotData_inv _ _ _ _ _ _ Hs) as (xmax & a & Hr & Ha & -> & _).
    destruct (scan_procs_spec me _ (mkAcc cur cur []) a (List.Forall_nil _) Ha) as (_ & _ & _ & Hl & _).
    rewrite GetNewTransactionId_procs in Hl.
    split; [|exact Hl]. simpl. revert Hr. subst x. unfold ReadNewTransactionId, GetNewTransactionId.
    rewrite Hboot. destruct (xid_count (vcache v) =? 0); unfold vcache; simpl; rewrite ?Hboot.
    - assert (u64 (u64 (nextXidData (vs_var v) + 1) + 1) = u64 (nextXidData (vs_var v) + 1) + 1) as ->
        by (rewrite !u64_id; rewrite ?u64_id; lia).
      destruct (_ <=? 0); [done|]. by intros [= <-].
    - unfold vcache in Hn. rewrite u64_id by lia. destruct (_ <=? 0); [done|]. by intros [= <-]. }
  unfold TransactionIdActiveDuringSnapshot. rewrite Hmax, Hxip.
  destruct (Z.geb_spec x (x + 1)); [lia|]. destruct (_ >=? _); [|done].
  apply not_true_is_false. rewrite xip_scan_spec, list_elem_of_fmap.
  intros (t & Ht & Hin). apply list_elem_of_filter in Hin as [_ Hin]. by apply (Hx t Hin).
Qed.

Definition demo_drawn : VarSys := with_log demo_sys (set_procs demo_log
  [Some (mkTHREAD 1 603 603 TRANS_START NORMAL_THREAD 7)]).

Lemma unpublished_xid_not_active_witness : exists snap v',
  GetSnapshotData (GetNewTransactionId demo_drawn).2 1 603 true = Ok (snap, v') /\
  TransactionIdActiveDuringSnapshot snap (GetNewTransactionId demo_drawn).1 = false.
Proof.
  destruct (GetSnapshotData (GetNewTransactionId demo_drawn).2 1 603 true) as [[snap v']|e] eqn:E.
  - exists snap, v'. split; [reflexivity|].
    apply (unpublished_xid_not_active demo_drawn 1 603 true snap v').
    + reflexivity.
    + simpl. lia.
    + simpl. lia.
    + intros t Ht. simpl in Ht. apply list_elem_of_singleton in Ht. subst t. vm_compute. discriminate.
    + exact E.
  - vm_compute in E. discriminate.
Defined.
