(* ===== verification/Tqual.v ===== *)
(** * Tuple visibility: utils/time/tqual.c

    The [HeapTupleSatisfies*] routines decide from a tuple header, the
    transaction log and the current transaction whether a tuple is visible, and
    cache what they learn in the header's hint bits.  The routines see the rest
    of the transaction system through the interface [XactView]; this file gives
    the routines, an abstract description of visibility that does not mention
    hint bits, and the theorems that relate them. *)

From S2P Require Import Prelude Procs TransLog Varsup Snapshot.

(** ** Tuple headers (access/htup.h) *)

Definition HEAP_MOVED_IN : Z := 2 ^ 4.           (* 0x0010 *)
Definition HEAP_MOVED_OUT : Z := 2 ^ 5.          (* 0x0020 *)
Definition HEAP_XMIN_COMMITTED : Z := 2 ^ 8.     (* 0x0100 *)
Definition HEAP_XMIN_INVALID : Z := 2 ^ 9.       (* 0x0200 *)
Definition HEAP_XMAX_COMMITTED : Z := 2 ^ 10.    (* 0x0400 *)
Definition HEAP_XMAX_INVALID : Z := 2 ^ 11.      (* 0x0800 *)
Definition HEAP_MARKED_FOR_UPDATE : Z := 2 ^ 12. (* 0x1000 *)

(** [progress] is the 8-byte union of [t_vtran] with the pair [t_cmin], [t_cmax]
    (in that order in memory, little endian). *)
Record HeapTupleHeader := mkTuple {
  progress : Z; t_xmin : Z; t_xmax : Z; t_ctid : Z * Z; t_infomask : Z }.

Definition t_vtran (t : HeapTupleHeader) : Z := progress t.
Definition t_cmin (t : HeapTupleHeader) : Z := progress t mod 2 ^ 32.
Definition t_cmax (t : HeapTupleHeader) : Z := progress t / 2 ^ 32.

(** [tuple->t_infomask |= m] *)
Definition set_hint (t : HeapTupleHeader) (m : Z) : HeapTupleHeader :=
  mkTuple (progress t) (t_xmin t) (t_xmax t) (t_ctid t) (Z.lor (t_infomask t) m).

Definition has (t : HeapTupleHeader) (m : Z) : bool := t_infomask t .& m.

(** ** What the visibility code asks of the transaction system *)

Class XactView := {
  DidCommit : Z -> bool;       (* TransactionIdDidCommit *)
  DidHardCommit : Z -> bool;   (* TransactionIdDidHardCommit *)
  DidAbort : Z -> bool;        (* TransactionIdDidAbort *)
  DidCrash : Z -> bool;        (* TransactionIdDidCrash *)
  IsCurrent : Z -> bool;       (* TransactionIdIsCurrentTransactionId *)
  GEScan : Z -> bool;          (* CommandIdGEScanCommandId *)
  Bootstrap : bool             (* IsBootstrapProcessingMode *)
}.

(** The promises of the transaction system: the outcomes exclude each other, the
    current transaction has none yet, and the invalid id counts as aborted. *)
Class XactViewOk (V : XactView) : Prop := {
  hard_commit : forall x, DidHardCommit x = true -> DidCommit x = true;
  commit_not_abort : forall x, DidCommit x = true -> DidAbort x = false;
  commit_not_crash : forall x, DidCommit x = true -> DidCrash x = false;
  invalid_aborted : DidAbort InvalidTransactionId = true;
  current_undecided : forall x, IsCurrent x = true ->
    DidCommit x = false /\ DidAbort x = false /\ DidCrash x = false
}.

(** [TransactionIdIsValid] of xact.h is [TransLog.TransactionIdIsValid]. *)

(** ** The routines *)

Section Satisfies.
Context {V : XactView}.

(** The tail shared by both ways through the insertion test: from "the tuple
    was inserted validly" on. *)
Definition Itself_xmax (t : HeapTupleHeader) : bool * HeapTupleHeader :=
  if has t HEAP_XMAX_INVALID then (true, t)
  else if negb (TransactionIdIsValid (t_xmax t)) then (true, set_hint t HEAP_XMAX_INVALID)
  else if has t HEAP_XMAX_COMMITTED then
    if has t HEAP_MARKED_FOR_UPDATE then (true, t) else (false, t)
  else if IsCurrent (t_xmax t) then
    if has t HEAP_MARKED_FOR_UPDATE then (true, t) else (false, t)
  else if negb (DidCommit (t_xmax t)) then
    (true, if DidAbort (t_xmax t) then set_hint t HEAP_XMAX_INVALID
           else if DidCrash (t_xmax t) then set_hint t HEAP_XMAX_INVALID else t)
  else
    let t := if DidHardCommit (t_xmax t) then set_hint t HEAP_XMAX_COMMITTED else t in
    if has t HEAP_MARKED_FOR_UPDATE then (true, t) else (false, t).

Definition HeapTupleSatisfiesItself (t : HeapTupleHeader) : bool * HeapTupleHeader :=
  if negb (has t HEAP_XMIN_COMMITTED) then
    if has t HEAP_XMIN_INVALID then (false, t)
    else if IsCurrent (t_xmin t) then
      if has t HEAP_XMAX_INVALID then (true, t)
      else if has t HEAP_MARKED_FOR_UPDATE then (true, t)
      else (false, t)
    else if negb (DidCommit (t_xmin t)) then
      (false, if DidAbort (t_xmin t) then set_hint t HEAP_XMIN_INVALID
              else if DidCrash (t_xmin t) then set_hint t HEAP_XMIN_INVALID else t)
    else Itself_xmax (if DidHardCommit (t_xmin t) then set_hint t HEAP_XMIN_COMMITTED else t)
  else Itself_xmax t.

(** From "by here, the inserting transaction has committed" on. *)
Definition Now_xmax (t : HeapTupleHeader) : bool * HeapTupleHeader :=
  if has t HEAP_XMAX_INVALID then (true, t)
  else if negb (TransactionIdIsValid (t_xmax t)) then (true, set_hint t HEAP_XMAX_INVALID)
  else if has t HEAP_XMAX_COMMITTED then
    if has t HEAP_MARKED_FOR_UPDATE then (true, t) else (false, t)
  else if IsCurrent (t_xmax t) then
    if has t HEAP_MARKED_FOR_UPDATE then (true, t)
    else if GEScan (t_cmax t) then (true, t) else (false, t)
  else if negb (DidCommit (t_xmax t)) then
    (true, if DidAbort (t_xmax t) then set_hint t HEAP_XMAX_INVALID
           else if DidCrash (t_xmax t) then set_hint t HEAP_XMAX_INVALID else t)
  else
    let t := if DidHardCommit (t_xmax t) then set_hint t HEAP_XMAX_COMMITTED else t in
    if has t HEAP_MARKED_FOR_UPDATE then (true, t) else (false, t).

Definition HeapTupleSatisfiesNow (t : HeapTupleHeader) : bool * HeapTupleHeader :=
  if Bootstrap then (true, t)
  else if negb (has t HEAP_XMIN_COMMITTED) then
    if has t HEAP_XMIN_INVALID then (false, t)
    else if IsCurrent (t_xmin t) then
      if GEScan (t_cmin t) then (false, t)
      else if has t HEAP_XMAX_INVALID then (true, t)
      else if has t HEAP_MARKED_FOR_UPDATE then (true, t)
      else if GEScan (t_cmax t) then (true, t) else (false, t)
    else if negb (DidCommit (t_xmin t)) then
      (false, if DidAbort (t_xmin t) then set_hint t HEAP_XMIN_INVALID
              else if DidCrash (t_xmin t) then set_hint t HEAP_XMIN_INVALID else t)
    else Now_xmax (if DidHardCommit (t_xmin t) then set_hint t HEAP_XMIN_COMMITTED else t)
  else Now_xmax t.

(** The result codes of tqual.h. *)
Definition HeapTupleMayBeUpdated : Z := 0.
Definition HeapTupleInvisible : Z := 1.
Definition HeapTupleSelfUpdated : Z := 2.
Definition HeapTupleUpdated : Z := 3.
Definition HeapTupleBeingUpdated : Z := 4.

Definition Update_xmax (t : HeapTupleHeader) : Z * HeapTupleHeader :=
  if has t HEAP_XMAX_INVALID then (HeapTupleMayBeUpdated, t)
  else if negb (TransactionIdIsValid (t_xmax t)) then
    (HeapTupleMayBeUpdated, set_hint t HEAP_XMAX_INVALID)
  else if has t HEAP_XMAX_COMMITTED then
    if has t HEAP_MARKED_FOR_UPDATE then (HeapTupleMayBeUpdated, t) else (HeapTupleUpdated, t)
  else if IsCurrent (t_xmax t) then
    if has t HEAP_MARKED_FOR_UPDATE then (HeapTupleMayBeUpdated, t)
    else if GEScan (t_cmax t) then (HeapTupleSelfUpdated, t) else (HeapTupleInvisible, t)
  else if negb (DidCommit (t_xmax t)) then
    if DidAbort (t_xmax t) then (HeapTupleMayBeUpdated, set_hint t HEAP_XMAX_INVALID)
    else if DidCrash (t_xmax t) then (HeapTupleMayBeUpdated, set_hint t HEAP_XMAX_INVALID)
    else (HeapTupleBeingUpdated, t)
  else
    let t := if DidHardCommit (t_xmax t) then set_hint t HEAP_XMAX_COMMITTED else t in
    if has t HEAP_MARKED_FOR_UPDATE then (HeapTupleMayBeUpdated, t) else (HeapTupleUpdated, t).

Definition HeapTupleSatisfiesUpdate (t : HeapTupleHeader) : Z * HeapTupleHeader :=
  if Bootstrap then (HeapTupleMayBeUpdated, t)
  else if negb (has t HEAP_XMIN_COMMITTED) then
    if has t HEAP_XMIN_INVALID then (HeapTupleInvisible, t)
    else if IsCurrent (t_xmin t) then
      if GEScan (t_cmin t) then (HeapTupleInvisible, t)
      else if has t HEAP_XMAX_INVALID then (HeapTupleMayBeUpdated, t)
      else if has t HEAP_MARKED_FOR_UPDATE then (HeapTupleMayBeUpdated, t)
      else if GEScan (t_cmax t) then (HeapTupleSelfUpdated, t) else (HeapTupleInvisible, t)
    else if negb (DidCommit (t_xmin t)) then
      (HeapTupleInvisible,
       if DidAbort (t_xmin t) then set_hint t HEAP_XMIN_INVALID
       else if DidCrash (t_xmin t) then set_hint t HEAP_XMIN_INVALID else t)
    else Update_xmax (if DidHardCommit (t_xmin t) then set_hint t HEAP_XMIN_COMMITTED else t)
  else Update_xmax t.

(** What [HeapTupleSatisfiesDirty] reports in [SnapshotDirty] (the snapshot
    passed in is that object): the id of an inserter or deleter in progress and
    the tuple's successor. *)
Record DirtyInfo := mkDirty { dirty_xmin : Z; dirty_xmax : Z; dirty_tid : option (Z * Z) }.
Definition dirty_none : DirtyInfo := mkDirty InvalidTransactionId InvalidTransactionId None.

Definition Dirty_xmax (t : HeapTupleHeader) : bool * DirtyInfo * HeapTupleHeader :=
  if has t HEAP_XMAX_INVALID then (true, dirty_none, t)
  else if negb (TransactionIdIsValid (t_xmax t)) then (true, dirty_none, set_hint t HEAP_XMAX_INVALID)
  else if has t HEAP_XMAX_COMMITTED then
    if has t HEAP_MARKED_FOR_UPDATE then (true, dirty_none, t)
    else (false, mkDirty InvalidTransactionId InvalidTransactionId (Some (t_ctid t)), t)
  else if IsCurrent (t_xmax t) then (false, dirty_none, t)
  else if negb (DidCommit (t_xmax t)) then
    if DidAbort (t_xmax t) then (true, dirty_none, set_hint t HEAP_XMAX_INVALID)
    else if DidCrash (t_xmax t) then (true, dirty_none, set_hint t HEAP_XMAX_INVALID)
    else (true, mkDirty InvalidTransactionId (t_xmax t) None, t)
  else
    let t := if DidHardCommit (t_xmax t) then set_hint t HEAP_XMAX_COMMITTED else t in
    if has t HEAP_MARKED_FOR_UPDATE then (true, dirty_none, t)
    else (false, mkDirty InvalidTransactionId InvalidTransactionId (Some (t_ctid t)), t).

Definition HeapTupleSatisfiesDirty (t : HeapTupleHeader) : bool * DirtyInfo * HeapTupleHeader :=
  if Bootstrap then (true, dirty_none, t)
  else if negb (has t HEAP_XMIN_COMMITTED) then
    if has t HEAP_XMIN_INVALID then (false, dirty_none, t)
    else if IsCurrent (t_xmin t) then
      if has t HEAP_XMAX_INVALID then (true, dirty_none, t)
      else if has t HEAP_MARKED_FOR_UPDATE then (true, dirty_none, t)
      else (false, dirty_none, t)
    else if negb (DidCommit (t_xmin t)) then
      if DidAbort (t_xmin t) then (false, dirty_none, set_hint t HEAP_XMIN_INVALID)
      else if DidCrash (t_xmin t) then (false, dirty_none, set_hint t HEAP_XMIN_INVALID)
      else (true, mkDirty (t_xmin t) InvalidTransactionId None, t)
    else Dirty_xmax (if DidHardCommit (t_xmin t) then set_hint t HEAP_XMIN_COMMITTED else t)
  else Dirty_xmax t.

(** From "have to check when..." on. *)
Definition Snapshot_xmax (snapshot : SnapshotData) (t : HeapTupleHeader) : bool * HeapTupleHeader :=
  if TransactionIdActiveDuringSnapshot snapshot
       (if has t HEAP_MOVED_IN then t_vtran t else t_xmin t) then (false, t)
  else if has t HEAP_XMAX_INVALID then (true, t)
  else if negb (TransactionIdIsValid (t_xmax t)) then (true, set_hint t HEAP_XMAX_INVALID)
  else if has t HEAP_MARKED_FOR_UPDATE then (true, t)
  else
    let finish t :=
      if has t HEAP_MOVED_OUT then (false, t)
      else (TransactionIdActiveDuringSnapshot snapshot (t_xmax t), t) in
    if negb (has t HEAP_XMAX_COMMITTED) then
      if IsCurrent (t_xmax t) then
        if GEScan (t_cmax t) then (true, t) else (false, t)
      else if negb (DidCommit (t_xmax t)) then
        (true, if DidAbort (t_xmax t) then set_hint t HEAP_XMAX_INVALID
               else if DidCrash (t_xmax t) then set_hint t HEAP_XMAX_INVALID else t)
      else finish (if DidHardCommit (t_xmax t) then set_hint t HEAP_XMAX_COMMITTED else t)
    else finish t.

(** [ri_override]: [env && env->ReferentialIntegritySnapshotOverride]. *)
Definition HeapTupleSatisfiesSnapshot (ri_override : bool) (snapshot : SnapshotData)
    (t : HeapTupleHeader) : bool * HeapTupleHeader :=
  if Bootstrap then (true, t)
  else if ri_override then HeapTupleSatisfiesNow t
  else if negb (has t HEAP_XMIN_COMMITTED) then
    if has t HEAP_XMIN_INVALID then (false, t)
    else if IsCurrent (t_xmin t) then
      if GEScan (t_cmin t) then (false, t)
      else if has t HEAP_XMAX_INVALID then (true, t)
      else if has t HEAP_MARKED_FOR_UPDATE then (true, t)
      else if GEScan (t_cmax t) then (true, t) else (false, t)
    else if negb (DidCommit (t_xmin t)) then
      (false, if DidAbort (t_xmin t) then set_hint t HEAP_XMIN_INVALID
              else if DidCrash (t_xmin t) then set_hint t HEAP_XMIN_INVALID else t)
    else Snapshot_xmax snapshot
           (if DidHardCommit (t_xmin t) then set_hint t HEAP_XMIN_COMMITTED else t)
  else Snapshot_xmax snapshot t.

End Satisfies.

Inductive HTSV_Result : Type :=
| HEAPTUPLE_DEAD | HEAPTUPLE_LIVE | HEAPTUPLE_HARDENED | HEAPTUPLE_RECENTLY_DEAD
| HEAPTUPLE_STILLBORN | HEAPTUPLE_INSERT_IN_PROGRESS | HEAPTUPLE_DELETE_IN_PROGRESS.

#[export] Instance HTSV_eq_dec : EqDecision HTSV_Result.
Proof. solve_decision. Defined.

Section SatisfiesVacuum.
Context {V : XactView}.

(** "Deleter committed, but check special cases." *)
Definition Vacuum_deleted (OldestXmin : Z) (t : HeapTupleHeader) : HTSV_Result * HeapTupleHeader :=
  if has t HEAP_MARKED_FOR_UPDATE then (HEAPTUPLE_LIVE, t)
  else if t_xmax t >=? OldestXmin then (HEAPTUPLE_RECENTLY_DEAD, t)
  else (HEAPTUPLE_DEAD, t).

(** "Okay, the inserter committed, so it was good at some point." *)
Definition Vacuum_xmax (OldestXmin : Z) (t : HeapTupleHeader) : HTSV_Result * HeapTupleHeader :=
  if has t HEAP_XMAX_INVALID then (HEAPTUPLE_LIVE, t)
  else if negb (TransactionIdIsValid (t_xmax t)) then (HEAPTUPLE_LIVE, set_hint t HEAP_XMAX_INVALID)
  else if negb (has t HEAP_XMAX_COMMITTED) then
    if DidCommit (t_xmax t) then
      Vacuum_deleted OldestXmin
        (if DidHardCommit (t_xmax t) then set_hint t HEAP_XMAX_COMMITTED else t)
    else if DidAbort (t_xmax t) then (HEAPTUPLE_LIVE, set_hint t HEAP_XMAX_INVALID)
    else if DidCrash (t_xmax t) then (HEAPTUPLE_LIVE, set_hint t HEAP_XMAX_INVALID)
    else (HEAPTUPLE_DELETE_IN_PROGRESS, t)
  else Vacuum_deleted OldestXmin t.

Definition HeapTupleSatisfiesVacuum (OldestXmin : Z) (t : HeapTupleHeader)
    : HTSV_Result * HeapTupleHeader :=
  if negb (has t HEAP_XMIN_COMMITTED) then
    if has t HEAP_XMIN_INVALID then (HEAPTUPLE_STILLBORN, t)
    else if DidCommit (t_xmin t) then
      Vacuum_xmax OldestXmin
        (if DidHardCommit (t_xmin t) then set_hint t HEAP_XMIN_COMMITTED else t)
    else if DidAbort (t_xmin t) then (HEAPTUPLE_STILLBORN, set_hint t HEAP_XMIN_INVALID)
    else if DidCrash (t_xmin t) then (HEAPTUPLE_STILLBORN, set_hint t HEAP_XMIN_INVALID)
    else (HEAPTUPLE_INSERT_IN_PROGRESS, t)
  else Vacuum_xmax OldestXmin t.

End SatisfiesVacuum.

(** The dispatch macro of tqual.h; [dirty] is [env->SnapshotDirty], [snapshot]
    the snapshot pointer and [store] what it points to.  [None]: the pointer is
    not a live snapshot. *)
Definition HeapTupleSatisfiesVisibility {V : XactView} (ri_override : bool) (dirty snapshot : Z)
    (store : gmap Z SnapshotData) (t : HeapTupleHeader) : option (bool * HeapTupleHeader) :=
  if t_xmax t =? AmiTransactionId then Some (false, t)
  else if snapshot =? SnapshotAny then Some (true, t)
  else if snapshot =? SnapshotSelf then Some (HeapTupleSatisfiesItself t)
  else if snapshot =? dirty then
    let '(b, _, t') := HeapTupleSatisfiesDirty t in Some (b, t')
  else if snapshot =? SnapshotNow then Some (HeapTupleSatisfiesNow t)
  else (fun d => HeapTupleSatisfiesSnapshot ri_override d t) <$> store !! snapshot.

(** ** Visibility without hint bits *)

Section Spec.
Context {V : XactView}.

(** What a transaction is to the caller. *)
Inductive xact_state : Type := XCurrent | XCommitted | XDead | XRunning.

Definition state_of (x : Z) : xact_state :=
  if IsCurrent x then XCurrent else if DidCommit x then XCommitted
  else if DidAbort x || DidCrash x then XDead else XRunning.

(** Whether the tuple is marked for update only: then [t_xmax] deletes nothing. *)
Definition marked (t : HeapTupleHeader) : bool := has t HEAP_MARKED_FOR_UPDATE.

(** "Itself": valid including the effects of the current command. *)
Definition visible_itself (t : HeapTupleHeader) : bool :=
  match state_of (t_xmin t) with
  | XDead | XRunning => false
  | XCurrent | XCommitted =>
      marked t || match state_of (t_xmax t) with XCurrent | XCommitted => false | _ => true end
  end.

(** "Now": the effects of earlier commands of the current transaction and of
    every committed transaction. *)
Definition gone_now (t : HeapTupleHeader) : bool :=
  negb (marked t) && match state_of (t_xmax t) with
                     | XCurrent => negb (GEScan (t_cmax t))
                     | XCommitted => true
                     | _ => false end.

Definition visible_now (t : HeapTupleHeader) : bool :=
  match state_of (t_xmin t) with
  | XCurrent => negb (GEScan (t_cmin t)) && negb (gone_now t)
  | XCommitted => negb (gone_now t)
  | _ => false
  end.

(** Snapshot visibility: a committed transaction's effects count only when it
    was not active during the snapshot; a tuple that vacuum moved counts by the
    mover. *)
Definition gone_snapshot (snap : SnapshotData) (t : HeapTupleHeader) : bool :=
  negb (marked t) && match state_of (t_xmax t) with
                     | XCurrent => negb (GEScan (t_cmax t))
                     | XCommitted => has t HEAP_MOVED_OUT
                         || negb (TransactionIdActiveDuringSnapshot snap (t_xmax t))
                     | _ => false end.

Definition visible_snapshot (snap : SnapshotData) (t : HeapTupleHeader) : bool :=
  match state_of (t_xmin t) with
  | XCurrent => negb (GEScan (t_cmin t)) && negb (gone_snapshot snap t)
  | XCommitted =>
      negb (TransactionIdActiveDuringSnapshot snap
              (if has t HEAP_MOVED_IN then t_vtran t else t_xmin t))
      && negb (gone_snapshot snap t)
  | _ => false
  end.

(** The verdict on an update, by the fate of inserter and deleter. *)
Definition update_verdict (t : HeapTupleHeader) : Z :=
  let by_deleter :=
    if marked t then
      match state_of (t_xmax t) with XRunning => HeapTupleBeingUpdated | _ => HeapTupleMayBeUpdated end
    else
      match state_of (t_xmax t) with
      | XCurrent => if GEScan (t_cmax t) then HeapTupleSelfUpdated else HeapTupleInvisible
      | XCommitted => HeapTupleUpdated
      | XDead => HeapTupleMayBeUpdated
      | XRunning => HeapTupleBeingUpdated
      end in
  match state_of (t_xmin t) with
  | XCurrent => if GEScan (t_cmin t) then HeapTupleInvisible else by_deleter
  | XCommitted => by_deleter
  | _ => HeapTupleInvisible
  end.

(** Vacuum's classification.  The vacuuming transaction's own tuples count as
    running. *)
Definition vacuum_verdict (OldestXmin : Z) (t : HeapTupleHeader) : HTSV_Result :=
  match state_of (t_xmin t) with
  | XDead => HEAPTUPLE_STILLBORN
  | XCurrent | XRunning => HEAPTUPLE_INSERT_IN_PROGRESS
  | XCommitted =>
      match state_of (t_xmax t) with
      | XDead => HEAPTUPLE_LIVE
      | XCurrent | XRunning => HEAPTUPLE_DELETE_IN_PROGRESS
      | XCommitted => if marked t then HEAPTUPLE_LIVE
                      else if t_xmax t >=? OldestXmin then HEAPTUPLE_RECENTLY_DEAD
                      else HEAPTUPLE_DEAD
      end
  end.

(** ** Hint bits *)

(** What each hint bit claims. *)
Record hints_sound (t : HeapTupleHeader) : Prop := {
  hs_xmin_committed : has t HEAP_XMIN_COMMITTED = true -> DidHardCommit (t_xmin t) = true;
  hs_xmin_invalid : has t HEAP_XMIN_INVALID = true -> state_of (t_xmin t) = XDead;
  hs_xmax_committed : has t HEAP_XMAX_COMMITTED = true -> DidHardCommit (t_xmax t) = true;
  hs_xmax_invalid : has t HEAP_XMAX_INVALID = true -> state_of (t_xmax t) = XDead }.

(** The routines' assertion: only its own transaction deletes a tuple whose
    insertion has not committed. *)
Definition own_deleter (t : HeapTupleHeader) : Prop :=
  state_of (t_xmin t) = XCurrent ->
  has t HEAP_XMAX_INVALID = true \/ state_of (t_xmax t) = XCurrent.

(** One hint, set for a reason. *)
Inductive learns : HeapTupleHeader -> HeapTupleHeader -> Prop :=
| learn_xmin_committed t : DidHardCommit (t_xmin t) = true ->
    learns t (set_hint t HEAP_XMIN_COMMITTED)
| learn_xmin_invalid t : state_of (t_xmin t) = XDead -> learns t (set_hint t HEAP_XMIN_INVALID)
| learn_xmax_committed t : DidHardCommit (t_xmax t) = true ->
    learns t (set_hint t HEAP_XMAX_COMMITTED)
| learn_xmax_invalid t : state_of (t_xmax t) = XDead -> learns t (set_hint t HEAP_XMAX_INVALID).

End Spec.

(** ** Lemmas *)

(** Hint bits are single bits of [t_infomask]. *)
Definition single_bit (m : Z) : Prop := exists i, 0 <= i /\ m = 2 ^ i.

Lemma has_set_hint t m k : single_bit m -> single_bit k ->
  has (set_hint t m) k = has t k || (m =? k).
Proof.
  intros (i & Hi & ->) (j & Hj & ->). unfold has, set_hint. simpl.
  rewrite !flag_pow2, Z.lor_spec, Z.pow2_bits_eqb by done. f_equal.
  destruct (Z.eqb_spec i j) as [->|Hne]; [by rewrite Z.eqb_refl|].
  destruct (Z.eqb_spec (2 ^ i) (2 ^ j)) as [E|]; [|done]. apply Z.pow_inj_r in E; lia.
Qed.

Ltac hints :=
  repeat match goal with
  | |- context [t_xmax (set_hint ?t ?m)] => change (t_xmax (set_hint t m)) with (t_xmax t)
  | |- context [has (set_hint ?t ?m) ?k] =>
      let b := eval vm_compute in (m =? k) in
      replace (has (set_hint t m) k) with (has t k || b)
        by (symmetry; apply (has_set_hint t m k); (eexists; split; [|reflexivity]; done));
      rewrite ?orb_false_r, ?orb_true_r
  | H : context [has (set_hint ?t ?m) ?k] |- _ =>
      let b := eval vm_compute in (m =? k) in
      replace (has (set_hint t m) k) with (has t k || b) in H
        by (symmetry; apply (has_set_hint t m k); (eexists; split; [|reflexivity]; done));
      rewrite ?orb_false_r, ?orb_true_r in H
  end.

Section Lemmas.
Context {V : XactView} {VOk : XactViewOk V}.

Lemma state_committed x : state_of x = XCommitted -> IsCurrent x = false /\ DidCommit x = true.
Proof. unfold state_of. repeat case_match; naive_solver. Qed.

Lemma state_hard x : DidHardCommit x = true -> state_of x = XCommitted.
Proof.
  intros H. pose proof (hard_commit x H) as Hc. unfold state_of.
  destruct (IsCurrent x) eqn:E; [|by rewrite Hc].
  destruct (current_undecided x E). congruence.
Qed.

Lemma state_dead x : state_of x = XDead ->
  IsCurrent x = false /\ DidCommit x = false /\ (DidAbort x || DidCrash x) = true.
Proof. unfold state_of. repeat case_match; naive_solver. Qed.

Lemma state_current x : state_of x = XCurrent -> IsCurrent x = true.
Proof. unfold state_of. repeat case_match; naive_solver. Qed.

Lemma state_invalid x : TransactionIdIsValid x = false -> state_of x = XDead.
Proof.
  unfold TransactionIdIsValid. intros H. bool_cases. subst x. unfold state_of.
  pose proof invalid_aborted as Ha.
  destruct (IsCurrent InvalidTransactionId) eqn:E.
  { destruct (current_undecided _ E) as (_ & ? & _). congruence. }
  destruct (DidCommit InvalidTransactionId) eqn:E'.
  { pose proof (commit_not_abort _ E'). congruence. }
  by rewrite Ha.
Qed.

(** Learning keeps the hints sound and every answer of the specification. *)
Lemma learns_sound t t' : hints_sound t -> learns t t' -> hints_sound t'.
Proof.
  intros [H1 H2 H3 H4] Hl. destruct Hl; split; hints; simpl; auto.
Qed.

Lemma learns_same t t' : learns t t' ->
  progress t' = progress t /\ t_xmin t' = t_xmin t /\ t_xmax t' = t_xmax t /\
  t_ctid t' = t_ctid t /\ marked t' = marked t /\
  has t' HEAP_MOVED_IN = has t HEAP_MOVED_IN /\ has t' HEAP_MOVED_OUT = has t HEAP_MOVED_OUT.
Proof. unfold marked. destruct 1; hints; done. Qed.

Lemma learns_own t t' : own_deleter t -> learns t t' -> own_deleter t'.
Proof. unfold own_deleter. intros Ho Hl. destruct Hl; hints; simpl; auto. Qed.

(** The facts a case of a routine has about a transaction. *)
Lemma state_running x : IsCurrent x = false -> DidCommit x = false -> DidAbort x = false ->
  DidCrash x = false -> state_of x = XRunning.
Proof. unfold state_of. by intros -> -> -> ->. Qed.

Lemma state_aborted x : IsCurrent x = false -> DidCommit x = false -> DidAbort x = true ->
  state_of x = XDead.
Proof. unfold state_of. by intros -> -> ->. Qed.

Lemma state_crashed x : IsCurrent x = false -> DidCommit x = false -> DidCrash x = true ->
  state_of x = XDead.
Proof. unfold state_of. intros -> -> ->. by rewrite orb_true_r. Qed.

Lemma state_is_current x : IsCurrent x = true -> state_of x = XCurrent.
Proof. unfold state_of. by intros ->. Qed.

Lemma state_is_committed x : IsCurrent x = false -> DidCommit x = true -> state_of x = XCommitted.
Proof. unfold state_of. by intros -> ->. Qed.

End Lemmas.

(** Replace [state_of x] by what the tests on [x] in the context say. *)
Ltac know_state x :=
  first
  [ rewrite (state_is_current x) by assumption
  | rewrite (state_is_committed x) by assumption
  | rewrite (state_aborted x) by assumption
  | rewrite (state_crashed x) by assumption
  | rewrite (state_running x) by assumption
  | rewrite (state_invalid x) by assumption
  | rewrite (state_hard x) by assumption
  | match goal with H : state_of x = _ |- _ => rewrite H end ].

#[export] Hint Constructors learns : tqual.
#[export] Hint Resolve state_aborted state_crashed state_invalid rtc_once rtc_refl : tqual.

(** Split one atomic test of the goal. *)
Ltac split_test :=
  match goal with
  | |- context [if ?b then _ else _] =>
      lazymatch b with context [if _ then _ else _] => fail | _ => idtac end;
      lazymatch b with
      | negb ?c => destruct c eqn:?
      | _ => destruct b eqn:?
      end
  end; simpl negb; cbn match beta.

(** Use the hints that are set. *)
Ltac use_hints :=
  repeat match goal with
  | H : true = true -> _ |- _ => specialize (H eq_refl)
  | H : false = true -> _ |- _ => clear H
  | H : ?b = true -> _, E : ?b = true |- _ => specialize (H E)
  | H : ?b = true -> _, E : ?b = false |- _ => clear H
  end.

(** Run a routine to one of its exits and compare with the specification. *)
Ltac run_routine :=
  repeat (split_test; hints; try congruence); use_hints;
  repeat match goal with |- context [state_of ?x] => know_state x end;
  cbn match beta; rewrite ?andb_false_r, ?orb_true_r, ?andb_true_r, ?orb_false_r, ?negb_involutive;
  simpl andb; simpl orb; simpl negb;
  try (eexists; split; [reflexivity|]; eauto with tqual).

Section Refinement.
Context {V : XactView} {VOk : XactViewOk V}.

Lemma Now_xmax_spec t : hints_sound t ->
  exists t', Now_xmax t = (negb (gone_now t), t') /\ rtc learns t t'.
Proof.
  intros [_ _ Hc Hi]. unfold Now_xmax, gone_now, marked.
  run_routine.
Qed.

Lemma Itself_xmax_spec t : hints_sound t ->
  exists t', Itself_xmax t =
    (marked t || match state_of (t_xmax t) with XCurrent | XCommitted => false | _ => true end, t') /\
    rtc learns t t'.
Proof. intros [_ _ Hc Hi]. unfold Itself_xmax, marked. run_routine. Qed.

Lemma Snapshot_xmax_spec snap t : hints_sound t ->
  exists t', Snapshot_xmax snap t =
    (negb (TransactionIdActiveDuringSnapshot snap (if has t HEAP_MOVED_IN then t_vtran t else t_xmin t))
       && negb (gone_snapshot snap t), t') /\ rtc learns t t'.
Proof. intros [_ _ Hc Hi]. unfold Snapshot_xmax, gone_snapshot, marked. run_routine. Qed.

(** The verdict the deleter alone determines. *)
Definition update_deleter (t : HeapTupleHeader) : Z :=
  if marked t then
    match state_of (t_xmax t) with XRunning => HeapTupleBeingUpdated | _ => HeapTupleMayBeUpdated end
  else
    match state_of (t_xmax t) with
    | XCurrent => if GEScan (t_cmax t) then HeapTupleSelfUpdated else HeapTupleInvisible
    | XCommitted => HeapTupleUpdated
    | XDead => HeapTupleMayBeUpdated
    | XRunning => HeapTupleBeingUpdated
    end.

Lemma Update_xmax_spec t : hints_sound t ->
  exists t', Update_xmax t = (update_deleter t, t') /\ rtc learns t t'.
Proof. intros [_ _ Hc Hi]. unfold Update_xmax, update_deleter, marked. run_routine. Qed.

Definition vacuum_deleter (OldestXmin : Z) (t : HeapTupleHeader) : HTSV_Result :=
  match state_of (t_xmax t) with
  | XDead => HEAPTUPLE_LIVE
  | XCurrent | XRunning => HEAPTUPLE_DELETE_IN_PROGRESS
  | XCommitted => if marked t then HEAPTUPLE_LIVE
                  else if t_xmax t >=? OldestXmin then HEAPTUPLE_RECENTLY_DEAD
                  else HEAPTUPLE_DEAD
  end.

(** Vacuum does not ask whether an id is the current one; the answers of the
    log decide. *)
Lemma not_current_committed x : DidCommit x = true -> IsCurrent x = false.
Proof.
  intros H. destruct (IsCurrent x) eqn:E; [|done]. destruct (current_undecided x E). congruence.
Qed.

Lemma not_current_dead x : DidAbort x || DidCrash x = true -> IsCurrent x = false.
Proof.
  intros H. destruct (IsCurrent x) eqn:E; [|done].
  destruct (current_undecided x E) as (_ & Ha & Hc). by rewrite Ha, Hc in H.
Qed.

Lemma Vacuum_xmax_spec old t : hints_sound t ->
  exists t', Vacuum_xmax old t = (vacuum_deleter old t, t') /\ rtc learns t t'.
Proof.
  intros [_ _ Hc Hi]. unfold Vacuum_xmax, Vacuum_deleted, vacuum_deleter, marked.
  destruct (IsCurrent (t_xmax t)) eqn:Ecur.
  - destruct (current_undecided _ Ecur) as (E1 & E2 & E3). rewrite E1, E2, E3.
    pose proof (state_is_current _ Ecur) as Hcur. pose proof (state_hard (t_xmax t)) as Hh.
    rewrite Hcur in *.
    destruct (has t HEAP_XMAX_INVALID); [by specialize (Hi eq_refl)|].
    destruct (TransactionIdIsValid (t_xmax t)) eqn:Ev; [|by rewrite state_invalid in Hcur].
    destruct (has t HEAP_XMAX_COMMITTED); [by specialize (Hh (Hc eq_refl))|]. by exists t.
  - run_routine.
Qed.

(** Learning changes no answer. *)
Lemma learns_answers t t' : learns t t' ->
  (gone_now t' = gone_now t /\ visible_itself t' = visible_itself t /\
   update_deleter t' = update_deleter t) /\
  (forall snap, gone_snapshot snap t' = gone_snapshot snap t) /\
  (forall old, vacuum_deleter old t' = vacuum_deleter old t).
Proof.
  intros (H1 & H2 & H3 & H4 & H5 & H6 & H7)%learns_same.
  unfold gone_now, visible_itself, update_deleter, gone_snapshot, vacuum_deleter, t_cmax.
  rewrite H1, H2, H3, H5, H7. done.
Qed.

(** The insertion stage of a routine: record a hard commit, go on with the
    deletion stage. *)
Lemma after_xmin {A} (tail : HeapTupleHeader -> A * HeapTupleHeader) (spec : HeapTupleHeader -> A) t :
  (forall t, hints_sound t -> exists t', tail t = (spec t, t') /\ rtc learns t t') ->
  (forall t t', learns t t' -> spec t' = spec t) ->
  hints_sound t ->
  exists t', tail (if DidHardCommit (t_xmin t) then set_hint t HEAP_XMIN_COMMITTED else t) =
    (spec t, t') /\ rtc learns t t'.
Proof.
  intros Htail Hspec Ht. destruct (DidHardCommit (t_xmin t)) eqn:E; [|by apply Htail].
  assert (learns t (set_hint t HEAP_XMIN_COMMITTED)) as Hl by by constructor.
  destruct (Htail _ (learns_sound _ _ Ht Hl)) as (t' & -> & Hl').
  exists t'. rewrite (Hspec _ _ Hl). split; [done|]. by eapply rtc_l.
Qed.

(** The insertion stage shared by the routines that serve a transaction. *)
Lemma xmin_stage {A} (bad : A) (own : A) (tail : HeapTupleHeader -> A * HeapTupleHeader)
    (spec : HeapTupleHeader -> A) t :
  hints_sound t ->
  (forall t, hints_sound t -> exists t', tail t = (spec t, t') /\ rtc learns t t') ->
  (forall t t', learns t t' -> spec t' = spec t) ->
  exists t',
    (if negb (has t HEAP_XMIN_COMMITTED) then
       if has t HEAP_XMIN_INVALID then (bad, t)
       else if IsCurrent (t_xmin t) then (own, t)
       else if negb (DidCommit (t_xmin t)) then
         (bad, if DidAbort (t_xmin t) then set_hint t HEAP_XMIN_INVALID
               else if DidCrash (t_xmin t) then set_hint t HEAP_XMIN_INVALID else t)
       else tail (if DidHardCommit (t_xmin t) then set_hint t HEAP_XMIN_COMMITTED else t)
     else tail t) =
    (match state_of (t_xmin t) with
     | XCurrent => own | XCommitted => spec t | _ => bad end, t') /\ rtc learns t t'.
Proof.
  intros Ht Htail Hspec. pose proof (after_xmin tail spec t Htail Hspec Ht) as Hafter.
  specialize (Htail t Ht). destruct Ht as [Hc Hi _ _].
  destruct (has t HEAP_XMIN_COMMITTED) eqn:E1; simpl negb; cbn match.
  { by rewrite (state_hard (t_xmin t)) by auto. }
  destruct (has t HEAP_XMIN_INVALID) eqn:E2; [rewrite Hi by done; by exists t|].
  destruct (IsCurrent (t_xmin t)) eqn:E3; [rewrite state_is_current by done; by exists t|].
  destruct (DidCommit (t_xmin t)) eqn:E4; simpl negb; cbn match;
    [by rewrite state_is_committed by done|].
  run_routine.
Qed.

Definition header_ok (t : HeapTupleHeader) : Prop := hints_sound t /\ own_deleter t.

Lemma learns_header_ok t t' : header_ok t -> rtc learns t t' -> header_ok t'.
Proof.
  intros Ht Hl. induction Hl as [|t u t' Hl _ IH]; [done|]. apply IH. destruct Ht.
  split; [by eapply learns_sound|by eapply learns_own].
Qed.

(** The answer of a routine and the header it leaves. *)
Definition answers {A} (r : A * HeapTupleHeader) (a : A) (t : HeapTupleHeader) : Prop :=
  exists t', r = (a, t') /\ rtc learns t t' /\ header_ok t'.

Lemma answers_intro {A} (r : A * HeapTupleHeader) a b t : header_ok t ->
  (exists t', r = (b, t') /\ rtc learns t t') -> b = a -> answers r a t.
Proof. intros Ht (t' & -> & Hl) ->. exists t'. split_and!; eauto using learns_header_ok. Qed.

(** The tail of the own-insertion branch of [Now] and [Snapshot]. *)
Lemma own_gone t : header_ok t -> state_of (t_xmin t) = XCurrent ->
  (if has t HEAP_XMAX_INVALID then true else if has t HEAP_MARKED_FOR_UPDATE then true
   else if GEScan (t_cmax t) then true else false) = negb (gone_now t) /\
  forall snap, gone_snapshot snap t = gone_now t.
Proof.
  intros [[_ _ _ Hi] Ho] Hs. specialize (Ho Hs). unfold gone_now, gone_snapshot, marked.
  destruct (has t HEAP_XMAX_INVALID).
  { rewrite Hi by done. by rewrite !andb_false_r. }
  destruct Ho as [|Ho]; [done|]. rewrite Ho.
  by destruct (has t HEAP_MARKED_FOR_UPDATE), (GEScan (t_cmax t)).
Qed.

Lemma Now_answers t : Bootstrap = false -> header_ok t ->
  answers (HeapTupleSatisfiesNow t) (visible_now t) t.
Proof.
  intros Hb Ht.
  set (own := if GEScan (t_cmin t) then false else
    if has t HEAP_XMAX_INVALID then true else if has t HEAP_MARKED_FOR_UPDATE then true
    else if GEScan (t_cmax t) then true else false).
  pose proof (xmin_stage false own Now_xmax (fun t => negb (gone_now t)) t (proj1 Ht)
    Now_xmax_spec) as (t' & Heq & Hl).
  { intros u u' Hu. by rewrite (proj1 (proj1 (learns_answers _ _ Hu))). }
  eapply (answers_intro _ _ _ _ Ht).
  { exists t'. split; [|exact Hl]. rewrite <- Heq. unfold HeapTupleSatisfiesNow, own. rewrite Hb.
    repeat case_match; congruence. }
  unfold visible_now. destruct (state_of (t_xmin t)) eqn:Es; try done.
  destruct (own_gone t Ht Es) as [E _]. unfold own. rewrite E. by destruct (GEScan (t_cmin t)).
Qed.

Lemma Itself_answers t : header_ok t ->
  answers (HeapTupleSatisfiesItself t) (visible_itself t) t.
Proof.
  intros Ht.
  set (own := if has t HEAP_XMAX_INVALID then true else if has t HEAP_MARKED_FOR_UPDATE then true else false).
  pose proof (xmin_stage false own Itself_xmax (fun t => marked t ||
    match state_of (t_xmax t) with XCurrent | XCommitted => false | _ => true end) t (proj1 Ht)
    Itself_xmax_spec) as (t' & Heq & Hl).
  { intros u u' (_ & _ & -> & _ & -> & _)%learns_same. done. }
  eapply (answers_intro _ _ _ _ Ht).
  { exists t'. split; [|exact Hl]. rewrite <- Heq. unfold HeapTupleSatisfiesItself, own.
    repeat case_match; congruence. }
  unfold visible_itself. destruct (state_of (t_xmin t)) eqn:Es; try done.
  destruct Ht as [[_ _ _ Hi] Ho]. specialize (Ho Es). unfold own, marked.
  destruct (has t HEAP_XMAX_INVALID); [by rewrite Hi, orb_true_r by done|].
  destruct Ho as [|Ho]; [done|]. rewrite Ho. by destruct (has t HEAP_MARKED_FOR_UPDATE).
Qed.

Lemma Snapshot_answers snap t : Bootstrap = false -> header_ok t ->
  answers (HeapTupleSatisfiesSnapshot false snap t) (visible_snapshot snap t) t.
Proof.
  intros Hb Ht.
  set (own := if GEScan (t_cmin t) then false else
    if has t HEAP_XMAX_INVALID then true else if has t HEAP_MARKED_FOR_UPDATE then true
    else if GEScan (t_cmax t) then true else false).
  pose proof (xmin_stage false own (Snapshot_xmax snap) (fun t =>
    negb (TransactionIdActiveDuringSnapshot snap (if has t HEAP_MOVED_IN then t_vtran t else t_xmin t))
    && negb (gone_snapshot snap t)) t (proj1 Ht) (Snapshot_xmax_spec snap)) as (t' & Heq & Hl).
  { intros u u' Hu. rewrite (proj1 (proj2 (learns_answers _ _ Hu))).
    apply learns_same in Hu as (Hp & -> & _ & _ & _ & -> & _). unfold t_vtran. by rewrite Hp. }
  eapply (answers_intro _ _ _ _ Ht).
  { exists t'. split; [|exact Hl]. rewrite <- Heq. unfold HeapTupleSatisfiesSnapshot, own. rewrite Hb.
    repeat case_match; congruence. }
  unfold visible_snapshot. destruct (state_of (t_xmin t)) eqn:Es; try done.
  destruct (own_gone t Ht Es) as [E Es']. rewrite Es'. unfold own. rewrite E.
  by destruct (GEScan (t_cmin t)).
Qed.

Lemma Update_answers t : Bootstrap = false -> header_ok t ->
  answers (HeapTupleSatisfiesUpdate t) (update_verdict t) t.
Proof.
  intros Hb Ht.
  set (own := if GEScan (t_cmin t) then HeapTupleInvisible else
    if has t HEAP_XMAX_INVALID then HeapTupleMayBeUpdated
    else if has t HEAP_MARKED_FOR_UPDATE then HeapTupleMayBeUpdated
    else if GEScan (t_cmax t) then HeapTupleSelfUpdated else HeapTupleInvisible).
  pose proof (xmin_stage HeapTupleInvisible own Update_xmax update_deleter t (proj1 Ht)
    Update_xmax_spec) as (t' & Heq & Hl).
  { intros u u' Hu. apply (proj1 (learns_answers _ _ Hu)). }
  eapply (answers_intro _ _ _ _ Ht).
  { exists t'. split; [|exact Hl]. rewrite <- Heq. unfold HeapTupleSatisfiesUpdate, own. rewrite Hb.
    repeat case_match; congruence. }
  unfold update_verdict. destruct (state_of (t_xmin t)) eqn:Es; try done.
  destruct Ht as [[_ _ _ Hi] Ho]. specialize (Ho Es). unfold own, marked.
  destruct (GEScan (t_cmin t)); [done|].
  destruct (has t HEAP_XMAX_INVALID); [rewrite Hi by done; by destruct (has t HEAP_MARKED_FOR_UPDATE)|].
  destruct Ho as [|Ho]; [done|]. rewrite Ho. by destruct (has t HEAP_MARKED_FOR_UPDATE).
Qed.

Lemma Vacuum_answers old t : header_ok t ->
  answers (HeapTupleSatisfiesVacuum old t) (vacuum_verdict old t) t.
Proof.
  intros Ht. eapply (answers_intro _ _ _ _ Ht); [|reflexivity].
  assert (vacuum_verdict old t = match state_of (t_xmin t) with
    | XDead => HEAPTUPLE_STILLBORN | XCommitted => vacuum_deleter old t
    | _ => HEAPTUPLE_INSERT_IN_PROGRESS end) as -> by done.
  pose proof (after_xmin (Vacuum_xmax old) (vacuum_deleter old) t (Vacuum_xmax_spec old)) as Hafter.
  pose proof (Vacuum_xmax_spec old t) as Htail. destruct Ht as [Ht _].
  specialize (Htail Ht). pose proof Ht as [Hc Hi _ _].
  unfold HeapTupleSatisfiesVacuum.
  destruct (has t HEAP_XMIN_COMMITTED); simpl negb; cbn match.
  { by rewrite (state_hard (t_xmin t)) by auto. }
  destruct (has t HEAP_XMIN_INVALID); [rewrite Hi by done; by exists t|].
  destruct (DidCommit (t_xmin t)) eqn:E4.
  { rewrite state_is_committed by auto using not_current_committed.
    apply Hafter; [|done]. intros u u' Hu. apply (proj2 (proj2 (learns_answers _ _ Hu))). }
  destruct (DidAbort (t_xmin t) || DidCrash (t_xmin t)) eqn:E5.
  - pose proof (not_current_dead _ E5). assert (state_of (t_xmin t) = XDead) as Hd.
    { unfold state_of. by rewrite H, E4, E5. }
    rewrite Hd. destruct (DidAbort (t_xmin t)), (DidCrash (t_xmin t)); try done;
      (eexists; split; [reflexivity|]; eauto with tqual).
  - apply orb_false_iff in E5 as [E5 E6]. rewrite E5, E6. exists t. split; [|done].
    unfold state_of. rewrite E4, E5, E6. by destruct (IsCurrent (t_xmin t)).
Qed.

(** ** Dirty reads *)

(** What a dirty read ought to see and report: the effects of running
    transactions too; the id of a running inserter or deleter, the successor of a
    tuple replaced by a committed transaction.  A mark for update deletes nothing,
    whoever set it. *)
Definition dirty_deleter (t : HeapTupleHeader) : bool * DirtyInfo :=
  match state_of (t_xmax t) with
  | XDead => (true, dirty_none)
  | XRunning => (true, mkDirty InvalidTransactionId (t_xmax t) None)
  | XCurrent => (marked t, dirty_none)
  | XCommitted =>
      if marked t then (true, dirty_none)
      else (false, mkDirty InvalidTransactionId InvalidTransactionId (Some (t_ctid t)))
  end.

Definition dirty_verdict (t : HeapTupleHeader) : bool * DirtyInfo :=
  match state_of (t_xmin t) with
  | XDead => (false, dirty_none)
  | XRunning => (true, mkDirty (t_xmin t) InvalidTransactionId None)
  | XCurrent => (marked t || match state_of (t_xmax t) with XCurrent => false | _ => true end, dirty_none)
  | XCommitted => dirty_deleter t
  end.

(** The reader itself has marked a committed tuple for update: here the routine
    departs from the verdict, it takes the mark for a deletion. *)
Definition own_mark (t : HeapTupleHeader) : bool :=
  match state_of (t_xmin t), state_of (t_xmax t) with XCommitted, XCurrent => marked t | _, _ => false end.

(** The answer with that exception, for the stage after the inserter. *)
Definition dirty_answer (t : HeapTupleHeader) : bool * DirtyInfo :=
  match state_of (t_xmax t) with XCurrent => (false, dirty_none) | _ => dirty_deleter t end.

Lemma Dirty_xmax_spec t : hints_sound t ->
  exists t', Dirty_xmax t = (dirty_answer t, t') /\ rtc learns t t'.
Proof. intros [_ _ Hc Hi]. unfold Dirty_xmax, dirty_answer, dirty_deleter, marked. run_routine. Qed.

Lemma dirty_answer_eq t : state_of (t_xmin t) = XCommitted ->
  dirty_answer t = if own_mark t then (false, dirty_none) else dirty_verdict t.
Proof.
  intros E. unfold dirty_answer, dirty_verdict, own_mark, dirty_deleter. rewrite E.
  destruct (state_of (t_xmax t)); try done. by destruct (marked t).
Qed.

Lemma Dirty_answers t : Bootstrap = false -> header_ok t ->
  answers (HeapTupleSatisfiesDirty t) (if own_mark t then (false, dirty_none) else dirty_verdict t) t.
Proof.
  intros Hb Ht. eapply (answers_intro _ _ _ _ Ht); [|reflexivity].
  assert (forall u u', learns u u' -> dirty_answer u' = dirty_answer u) as Hlearn.
  { intros u u' (_ & _ & H3 & H4 & H5 & _)%learns_same. unfold dirty_answer, dirty_deleter. by rewrite H3, H4, H5. }
  pose proof (after_xmin Dirty_xmax dirty_answer t Dirty_xmax_spec Hlearn (proj1 Ht)) as Hafter.
  pose proof (Dirty_xmax_spec t (proj1 Ht)) as Htail.
  assert ((if own_mark t then (false, dirty_none) else dirty_verdict t) =
    match state_of (t_xmin t) with XCommitted => dirty_answer t | _ => dirty_verdict t end) as Hv.
  { destruct (state_of (t_xmin t)) eqn:E; try (unfold own_mark; by rewrite E). by rewrite dirty_answer_eq. }
  rewrite Hv. clear Hv. destruct Ht as [[Hc Hi _ Hxi] Ho]. unfold HeapTupleSatisfiesDirty. rewrite Hb.
  destruct (has t HEAP_XMIN_COMMITTED); simpl negb; cbn match.
  { rewrite (state_hard (t_xmin t)) by auto. done. }
  unfold dirty_verdict in *. unfold own_deleter in Ho.
  destruct (has t HEAP_XMIN_INVALID); [rewrite Hi by done; by exists t|].
  destruct (IsCurrent (t_xmin t)) eqn:E3.
  { rewrite state_is_current in * by done. specialize (Ho eq_refl). unfold marked.
    destruct (has t HEAP_XMAX_INVALID).
    { rewrite Hxi, orb_true_r by done. by exists t. }
    destruct Ho as [|Ho]; [done|]. rewrite Ho. destruct (has t HEAP_MARKED_FOR_UPDATE); by exists t. }
  clear Ho Hxi Hi Hc Htail.
  destruct (DidCommit (t_xmin t)) eqn:E4; simpl negb; cbn match.
  { rewrite state_is_committed in * by done. by apply Hafter. }
  clear Hafter. run_routine.
Qed.

(** The comment above [HeapTupleSatisfiesNow] counts a row of the own transaction
    as valid when an earlier command deleted it ([Cmax != my-command]), and not
    when this command does; the routine answers the other way round. *)
Theorem now_comment_inverted t : Bootstrap = false -> header_ok t ->
  state_of (t_xmin t) = XCurrent -> GEScan (t_cmin t) = false ->
  state_of (t_xmax t) = XCurrent -> marked t = false ->
  (HeapTupleSatisfiesNow t).1 = GEScan (t_cmax t).
Proof.
  intros Hb Ht E1 E2 E3 E4. destruct (Now_answers t Hb Ht) as (t' & -> & _). simpl.
  unfold visible_now, gone_now. rewrite E1, E2, E3, E4. simpl. by destruct (GEScan (t_cmax t)).
Qed.

End Refinement.

(** ** Two views of one log *)

(** [V'] is a later view by the same transaction at the same command: outcomes
    are final, running transactions may have got one. *)
Record later_view (V V' : XactView) : Prop := {
  lv_current : forall x, @IsCurrent V' x = @IsCurrent V x;
  lv_scan : forall c, @GEScan V' c = @GEScan V c;
  lv_hard : forall x, @DidHardCommit V x = true -> @DidHardCommit V' x = true;
  lv_committed : forall x, @state_of V x = XCommitted -> @state_of V' x = XCommitted;
  lv_dead : forall x, @state_of V x = XDead -> @state_of V' x = XDead }.

(** The snapshot knows every transaction that finished since: whatever committed
    between the views was active during the snapshot. *)
Definition snapshot_covers (V V' : XactView) (snap : SnapshotData) : Prop :=
  forall x, @state_of V x = XRunning -> @state_of V' x = XCommitted ->
    TransactionIdActiveDuringSnapshot snap x = true.

Lemma later_state V V' x : later_view V V' ->
  @state_of V' x = @state_of V x \/
  (@state_of V x = XRunning /\ (@state_of V' x = XCommitted \/ @state_of V' x = XDead)).
Proof.
  intros [Hc _ _ Hm Hd]. destruct (@state_of V x) eqn:E.
  - left. apply state_is_current. rewrite Hc. by apply state_current.
  - left. by apply Hm.
  - left. by apply Hd.
  - assert (@IsCurrent V' x = false) as Hn.
    { rewrite Hc. destruct (@IsCurrent V x) eqn:E'; [|done]. by rewrite state_is_current in E. }
    unfold state_of. rewrite Hn. repeat case_match; auto.
Qed.

(** A later state of the log, seen by any transaction of the same server run:
    outcomes are final, running transactions may have got one. *)
Record later_log (V V' : XactView) : Prop := {
  ll_hard : forall x, @DidHardCommit V x = true -> @DidHardCommit V' x = true;
  ll_committed : forall x, @state_of V x = XCommitted -> @state_of V' x = XCommitted;
  ll_dead : forall x, @state_of V x = XDead -> @state_of V' x = XDead }.

Lemma later_log_hints V V' t : later_log V V' -> @hints_sound V t -> @hints_sound V' t.
Proof. intros [Hh _ Hd] [H1 H2 H3 H4]. split; auto. Qed.

(** ** The transaction log as a view *)

Definition ok_true (r : result bool) : bool := match r with Ok b => b | Err _ => false end.

(** The answers transam.c gives from the log state [s] to the transaction [cur]
    whose scan runs at command [scan] (xact.c's [TransactionIdIsCurrentTransactionId]
    and [CommandIdGEScanCommandId]). *)
Definition log_view (s : LogState) (cur scan : Z) : XactView := {|
  DidCommit x := ok_true (TransactionIdDidCommit s x).1;
  DidHardCommit x := ok_true (TransactionIdDidHardCommit s x).1;
  DidAbort x := ok_true (TransactionIdDidAbort s x).1;
  DidCrash x := ok_true (TransactionIdDidCrash s x).1;
  IsCurrent x := cur =? x;
  GEScan c := c >=? scan;
  Bootstrap := false |}.

(** What the log reader finds for a valid id, cache first. *)
Definition log_read (s : LogState) (x : Z) : result Z :=
  if x =? cachedTestXid (xcache s) then Ok (cachedTestXidStatus (xcache s)) else log_status s x.

Lemma log_test_read s x mask : TransactionSystemInitialized s = true -> x <> InvalidTransactionId ->
  valid_mask mask ->
  ok_true (TransactionLogTest s x mask).1 =
    match log_read s x with Ok st => status_test mask st | Err _ => false end.
Proof.
  intros Hinit Hx Hm. unfold TransactionLogTest. rewrite Hinit. simpl.
  destruct (Z.eqb_spec x InvalidTransactionId); [done|].
  change (if x =? cachedTestXid (xcache s) then _ else _) with (log_read s x).
  destruct (log_read s x) as [st|]; [|done]. unfold status_test, valid_mask in *. simpl.
  unfold XID_COMMIT_TEST, XID_ABORT_TEST, XID_HARD_COMMIT_TEST, XID_SOFT_COMMIT_TEST,
    XID_INPROGRESS_TEST in *. repeat case_match; bool_cases; try done; lia.
Qed.

Section LogView.
Context (s : LogState) (cur scan : Z).
Hypothesis Hinit : TransactionSystemInitialized s = true.

Lemma view_commit x : x <> InvalidTransactionId ->
  @DidCommit (log_view s cur scan) x = match log_read s x with Ok st => st .& 2 | Err _ => false end.
Proof.
  intros Hx. simpl. unfold TransactionIdDidCommit. rewrite Hinit. simpl.
  by rewrite log_test_read by (done || (unfold valid_mask, XID_COMMIT_TEST; lia)).
Qed.

Lemma view_hard x : x <> InvalidTransactionId ->
  @DidHardCommit (log_view s cur scan) x =
    match log_read s x with Ok st => st =? XID_COMMIT | Err _ => false end.
Proof.
  intros Hx. simpl. unfold TransactionIdDidHardCommit. rewrite Hinit. simpl.
  by rewrite log_test_read by (done || (unfold valid_mask, XID_HARD_COMMIT_TEST; lia)).
Qed.

Lemma view_abort x : x <> InvalidTransactionId ->
  @DidAbort (log_view s cur scan) x =
    match log_read s x with Ok st => st =? XID_ABORT | Err _ => false end.
Proof.
  intros Hx. simpl. unfold TransactionIdDidAbort. rewrite Hinit. simpl.
  by rewrite log_test_read by (done || (unfold valid_mask, XID_ABORT_TEST; lia)).
Qed.

Lemma view_crash x : x <> InvalidTransactionId ->
  @DidCrash (log_view s cur scan) x =
    match log_read s x with
    | Ok st => (st =? XID_INPROGRESS) &&
        ((x <? xid_checkpoint (ShmemVariableCache s)) || negb (TransactionIdIsInProgress (procs s) x))
    | Err _ => false end.
Proof.
  intros Hx. simpl. unfold TransactionIdDidCrash. rewrite Hinit. simpl.
  pose proof (log_test_read s x XID_INPROGRESS_TEST Hinit Hx) as Ht.
  specialize (Ht ltac:(unfold valid_mask, XID_INPROGRESS_TEST; lia)).
  assert (forall s1, TransactionLogTest s x XID_INPROGRESS_TEST = (Ok true, s1) -> s1 = s) as Hsame.
  { intros s1. unfold TransactionLogTest. rewrite Hinit. simpl.
    destruct (Z.eqb_spec x InvalidTransactionId); [done|].
    change (if x =? cachedTestXid (xcache s) then _ else _) with (log_read s x).
    destruct (log_read s x) as [st|]; [|done]. simpl. intros [= Hst Hs1]. apply Z.eqb_eq in Hst.
    by rewrite Hst in Hs1. }
  destruct (TransactionLogTest s x XID_INPROGRESS_TEST) as [[[]|e] s1] eqn:Et; simpl in Ht |- *.
  - rewrite (Hsame s1 eq_refl) in *. unfold TransactionIdBeforeCheckpoint, TransactionIdIsValid.
    destruct (Z.eqb_spec x InvalidTransactionId); [done|]. simpl.
    destruct (log_read s x) as [st|]; [|done].
    change (true = (st =? XID_INPROGRESS)) in Ht. rewrite <- Ht. simpl.
    destruct (_ || _); [by rewrite Et|done].
  - destruct (log_read s x) as [st|]; [|done].
    change (false = (st =? XID_INPROGRESS)) in Ht. by rewrite <- Ht.
  - destruct (log_read s x) as [st|]; [|done].
    change (false = (st =? XID_INPROGRESS)) in Ht. by rewrite <- Ht.
Qed.

(** The state of a transaction read off its log status. *)
Lemma view_state x : x <> InvalidTransactionId -> x <> cur ->
  @state_of (log_view s cur scan) x =
    match log_read s x with
    | Ok st => if st .& 2 then XCommitted
               else if (st =? XID_ABORT) || (st =? XID_INPROGRESS) &&
                 ((x <? xid_checkpoint (ShmemVariableCache s))
                  || negb (TransactionIdIsInProgress (procs s) x))
               then XDead else XRunning
    | Err _ => XRunning end.
Proof.
  intros Hx Hc. unfold state_of. rewrite view_commit, view_abort, view_crash by done. simpl.
  destruct (Z.eqb_spec cur x); [congruence|]. by destruct (log_read s x) as [st|].
Qed.

(** The transaction asking is published, past the checkpoint, and has no outcome. *)
Hypothesis Hcur : cur <> InvalidTransactionId.
Hypothesis Hread : log_read s cur = Ok XID_INPROGRESS.
Hypothesis Hcheck : xid_checkpoint (ShmemVariableCache s) <= cur.
Hypothesis Hprocs : TransactionIdIsInProgress (procs s) cur = true.

(** The log keeps the promises of the interface. *)
Lemma log_view_ok : XactViewOk (log_view s cur scan).
Proof.
  assert (forall x, x = InvalidTransactionId ->
    @DidCommit (log_view s cur scan) x = false /\ @DidHardCommit (log_view s cur scan) x = false /\
    @DidAbort (log_view s cur scan) x = true) as Hinv.
  { intros x ->. simpl. unfold TransactionIdDidCommit, TransactionIdDidHardCommit,
      TransactionIdDidAbort, TransactionLogTest. rewrite Hinit. done. }
  split.
  - intros x. destruct (decide (x = InvalidTransactionId)) as [->|Hx].
    { destruct (Hinv _ eq_refl) as (_ & -> & _). done. }
    rewrite view_hard, view_commit by done. destruct (log_read s x) as [st|]; [|done].
    intros ?%Z.eqb_eq. by subst st.
  - intros x. destruct (decide (x = InvalidTransactionId)) as [->|Hx].
    { destruct (Hinv _ eq_refl) as (-> & _). done. }
    rewrite view_commit, view_abort by done. destruct (log_read s x) as [st|]; [|done].
    destruct (Z.eqb_spec st XID_ABORT) as [->|]; done.
  - intros x. destruct (decide (x = InvalidTransactionId)) as [->|Hx].
    { destruct (Hinv _ eq_refl) as (-> & _). done. }
    rewrite view_commit, view_crash by done. destruct (log_read s x) as [st|]; [|done].
    destruct (Z.eqb_spec st XID_INPROGRESS) as [->|]; done.
  - by destruct (Hinv _ eq_refl) as (_ & _ & ->).
  - intros x Hx. simpl IsCurrent in Hx. apply Z.eqb_eq in Hx. subst x.
    rewrite view_commit, view_abort, view_crash, Hread by done. split_and!; [done|done|].
    rewrite Hprocs. destruct (Z.ltb_spec cur (xid_checkpoint (ShmemVariableCache s))); [lia|done].
Qed.

End LogView.

Lemma later_header_ok V V' t : XactViewOk V' -> later_view V V' ->
  @header_ok V t -> @header_ok V' t.
Proof.
  intros Hok' Hl [[H1 H2 H3 H4] Ho]. split; [split; intros; by apply Hl; auto|].
  intros Hc. assert (forall x, @state_of V' x = XCurrent <-> @state_of V x = XCurrent) as Hcur.
  { intros x. split; intros Hx%state_current; apply state_is_current;
      [rewrite <- (lv_current _ _ Hl)|rewrite (lv_current _ _ Hl)]; done. }
  destruct (Ho (proj1 (Hcur _) Hc)); [by left|right; by apply Hcur].
Qed.

Lemma later_visible V V' snap t : later_view V V' -> snapshot_covers V V' snap ->
  has t HEAP_MOVED_IN = false -> has t HEAP_MOVED_OUT = false ->
  @visible_snapshot V' snap t = @visible_snapshot V snap t.
Proof.
  intros Hl Hcov Hin Hout.
  assert (@gone_snapshot V' snap t = @gone_snapshot V snap t) as Hg.
  { unfold gone_snapshot. rewrite Hout. pose proof (Hcov (t_xmax t)) as Hx.
    destruct (later_state V V' (t_xmax t) Hl) as [->|[E [E'|E']]]; rewrite ?(lv_scan _ _ Hl); [done| |].
    - rewrite E, E', Hx by done. done.
    - by rewrite E, E'. }
  unfold visible_snapshot. rewrite Hg, Hin, (lv_scan _ _ Hl). pose proof (Hcov (t_xmin t)) as Hx.
  destruct (later_state V V' (t_xmin t) Hl) as [->|[E [E'|E']]]; [done| |].
  - rewrite E, E', Hx by done. done.
  - by rewrite E, E'.
Qed.

(** The restart: what reached the disk is the status in memory or, unless that
    was a hard commit, the in-progress status before it. *)
Definition on_disk (s d : LogState) : Prop := forall x st, log_status s x = Ok st ->
  log_status d x = Ok st \/ (st <> XID_COMMIT /\ log_status d x = Ok XID_INPROGRESS).

Lemma log_read_status s x : cache_coherent s -> x <> InvalidTransactionId ->
  log_read s x = log_status s x.
Proof.
  intros Hc Hx. unfold log_read. destruct (Z.eqb_spec x (cachedTestXid (xcache s))) as [E|]; [|done].
  destruct Hc as [Hc|[Hc _]]; [congruence|]. by rewrite <- E in Hc.
Qed.

Lemma restart_status s d n lo s' x st : log_inv s -> log_inv d -> cache_ranged d ->
  on_disk s d -> (forall y, lo <= y < lo + Z.of_nat n -> xid_present d y) ->
  TransRecover_loop n lo d = Ok s' -> 0 < x < 2 ^ 64 -> log_read s x = Ok st ->
  log_inv s' /\ exists st', log_read s' x = Ok st' /\
    (st = XID_COMMIT -> st' = XID_COMMIT) /\
    (st = XID_ABORT -> st' = XID_ABORT \/ st' = XID_INPROGRESS) /\
    (st = XID_INPROGRESS -> st' = XID_INPROGRESS).
Proof.
  intros Hi Hd Hr Hdisk Hp Hrec Hx Hst.
  destruct (TransRecover_loop_spec n lo d Hd Hr Hp) as (s2 & E & Hi' & Hs').
  rewrite Hrec in E. injection E as <-. split; [done|].
  assert (x <> InvalidTransactionId) by (unfold InvalidTransactionId; lia).
  rewrite log_read_status in Hst by (done || apply Hi). rewrite log_read_status by (done || apply Hi').
  rewrite Hs' by lia. clear Hs'. unfold XID_COMMIT, XID_ABORT, XID_INPROGRESS in *.
  destruct (Hdisk x st Hst) as [->|[Hne ->]]; destruct (_ && _); simpl.
  all: eexists; split; [reflexivity|]; unfold recovered, XID_SOFT_COMMIT, XID_ABORT in *.
  all: split_and!; intros; subst; simpl; auto; by destruct Hne.
Qed.

(** What the dispatch promises for each kind of snapshot pointer. *)
Definition visible {V : XactView} (ri_override : bool) (dirty snapshot : Z)
    (store : gmap Z SnapshotData) (t : HeapTupleHeader) : option bool :=
  if t_xmax t =? AmiTransactionId then Some false
  else if snapshot =? SnapshotAny then Some true
  else if snapshot =? SnapshotSelf then Some (visible_itself t)
  else if snapshot =? dirty then Some (dirty_verdict t).1
  else if snapshot =? SnapshotNow then Some (visible_now t)
  else (fun d => if ri_override then visible_now t else visible_snapshot d t) <$> store !! snapshot.

Lemma answers_same {V : XactView} {A} (a : A) t : header_ok t -> answers (a, t) a t.
Proof. intros Ht. exists t. by split_and!. Qed.

(** ** Properties *)

(** C1 Visibility is what the transaction outcomes say, whatever the hint bits:
    for a header whose hints are sound, [HeapTupleSatisfiesVisibility] with any
    kind of snapshot gives the answer of the hint-free specification; it changes
    nothing but hint bits, sets each only for a final outcome (a committed hint
    only for a hard commit), and leaves a header whose hints are sound.  The one
    case left out is a dirty read of a committed tuple that the reader itself has
    marked for update, where the code is wrong. *)
Theorem HeapTupleSatisfiesVisibility_refines (V : XactView) (VOk : XactViewOk V)
    ri_override dirty snapshot store t :
  Bootstrap = false -> header_ok t -> (snapshot = dirty -> own_mark t = false) ->
  match HeapTupleSatisfiesVisibility ri_override dirty snapshot store t with
  | Some r => exists b, visible ri_override dirty snapshot store t = Some b /\ answers r b t
  | None => visible ri_override dirty snapshot store t = None
  end.
Proof.
  intros Hb Ht Hown. unfold HeapTupleSatisfiesVisibility, visible.
  destruct (t_xmax t =? AmiTransactionId); [eauto using answers_same|].
  destruct (snapshot =? SnapshotAny); [eauto using answers_same|].
  destruct (snapshot =? SnapshotSelf); [eauto using Itself_answers|].
  destruct (Z.eqb_spec snapshot dirty) as [Hd|_].
  { pose proof (Dirty_answers t Hb Ht) as Ha. rewrite Hown in Ha by done.
    destruct Ha as (t' & -> & Hl & Hok).
    destruct (dirty_verdict t) as [b i]. simpl. exists b. split; [done|]. by exists t'. }
  destruct (snapshot =? SnapshotNow); [eauto using Now_answers|].
  destruct (store !! snapshot) as [d|]; [|done]. simpl. destruct ri_override.
  - unfold HeapTupleSatisfiesSnapshot. rewrite Hb. eauto using Now_answers.
  - eauto using Snapshot_answers.
Qed.

(** C29 The verdict on an update is the one the fates of inserter and deleter
    determine: may be updated, invisible, updated by this transaction, updated
    by a committed one, or being updated by a running one; the header keeps
    sound hints. *)
Theorem HeapTupleSatisfiesUpdate_refines (V : XactView) (VOk : XactViewOk V) t :
  Bootstrap = false -> header_ok t ->
  answers (HeapTupleSatisfiesUpdate t) (update_verdict t) t.
Proof. intros Hb Ht. by apply Update_answers. Qed.

(** C9 Vacuum removes only what no snapshot can see: a tuple that
    [HeapTupleSatisfiesVacuum] calls dead or stillborn for the cutoff
    [OldestXmin] is invisible to every transaction whose snapshot starts at or
    above the cutoff, then and at any later moment of the same server run,
    whatever transactions have ended in between. *)
Theorem vacuum_dead_invisible (V V' : XactView) (VOk : XactViewOk V) (VOk' : XactViewOk V')
    OldestXmin snap t :
  later_log V V' -> @Bootstrap V' = false -> @header_ok V t ->
  OldestXmin <= snap_xmin snap -> snap_xmin snap <= snap_xmax snap ->
  ((@HeapTupleSatisfiesVacuum V OldestXmin t).1 = HEAPTUPLE_DEAD \/
   (@HeapTupleSatisfiesVacuum V OldestXmin t).1 = HEAPTUPLE_STILLBORN) ->
  (@HeapTupleSatisfiesSnapshot V' false snap t).1 = false.
Proof.
  intros Hlog Hb Ht Hold Hsnap Hvac.
  destruct (@Vacuum_answers V VOk OldestXmin t Ht) as (t1 & E1 & _). rewrite E1 in Hvac. simpl in Hvac.
  unfold vacuum_verdict in Hvac.
  assert (@state_of V (t_xmin t) = XCommitted \/ @state_of V (t_xmin t) = XDead) as Hfate.
  { destruct (@state_of V (t_xmin t)); auto; by destruct Hvac. }
  assert (@header_ok V' t) as Ht'.
  { split; [exact (later_log_hints V V' t Hlog (proj1 Ht))|]. intros Hc.
    destruct Hfate as [H%(ll_committed _ _ Hlog)|H%(ll_dead _ _ Hlog)]; congruence. }
  destruct (@Snapshot_answers V' VOk' snap t Hb Ht') as (t2 & -> & _). simpl.
  unfold visible_snapshot, gone_snapshot.
  destruct Hfate as [Hc|Hd]; [|by rewrite (ll_dead _ _ Hlog) by done].
  rewrite Hc in Hvac. rewrite (ll_committed _ _ Hlog) by done.
  destruct (@state_of V (t_xmax t)) eqn:Ex; try (by destruct Hvac).
  rewrite (ll_committed _ _ Hlog (t_xmax t)) by done.
  destruct (marked t); [by destruct Hvac|].
  destruct (Z.geb_spec (t_xmax t) OldestXmin); [by destruct Hvac|].
  unfold TransactionIdActiveDuringSnapshot at 2.
  destruct (Z.geb_spec (t_xmax t) (snap_xmax snap)); [lia|].
  destruct (Z.geb_spec (t_xmax t) (snap_xmin snap)); [lia|]. simpl. by rewrite orb_true_r, andb_false_r.
Qed.

(** C10 A snapshot reads the same later: while other transactions go on to commit
    or abort, a tuple (not moved by vacuum) keeps its visibility under a snapshot
    as long as every transaction that committed in between was active during it. *)
Theorem snapshot_repeatable (V V' : XactView) (VOk : XactViewOk V) (VOk' : XactViewOk V') snap t :
  later_view V V' -> snapshot_covers V V' snap ->
  @Bootstrap V = false -> @Bootstrap V' = false -> @header_ok V t ->
  has t HEAP_MOVED_IN = false -> has t HEAP_MOVED_OUT = false ->
  (@HeapTupleSatisfiesSnapshot V' false snap t).1 = (@HeapTupleSatisfiesSnapshot V false snap t).1.
Proof.
  intros Hl Hcov Hb Hb' Ht Hin Hout.
  destruct (@Snapshot_answers V VOk snap t Hb Ht) as (t1 & -> & _).
  destruct (@Snapshot_answers V' VOk' snap t Hb' (later_header_ok V V' t VOk' Hl Ht)) as (t2 & -> & _).
  simpl. by apply later_visible.
Qed.

(** C27 Hint bits survive a crash: hints that were sound for the log in memory are
    sound after a restart, when the disk holds every hard commit (and possibly
    lost any other status), recovery has turned the soft commits it scans into
    aborts, and the tuple's transactions are no longer running. *)
Theorem hints_survive_restart s d n lo s' cur scan cur' scan' t :
  log_inv s -> log_inv d -> cache_ranged d -> on_disk s d ->
  (forall y, lo <= y < lo + Z.of_nat n -> xid_present d y) ->
  TransRecover_loop n lo d = Ok s' ->
  0 < t_xmin t < 2 ^ 64 -> 0 <= t_xmax t < 2 ^ 64 -> 0 < cur' ->
  (forall x, x = t_xmin t \/ x = t_xmax t ->
     x <> cur' /\ TransactionIdIsInProgress (procs s') x = false) ->
  @hints_sound (log_view s cur scan) t -> @hints_sound (log_view s' cur' scan') t.
Proof.
  intros Hi Hd Hr Hdisk Hp Hrec Hmin Hmax Hcur' Hgone [H1 H2 H3 H4].
  assert (log_inv s') as Hi'.
  { destruct (TransRecover_loop_spec n lo d Hd Hr Hp) as (s2 & E & Hi' & _). congruence. }
  assert (forall x, (x = t_xmin t \/ x = t_xmax t) ->
    (@DidHardCommit (log_view s cur scan) x = true -> @DidHardCommit (log_view s' cur' scan') x = true) /\
    (@state_of (log_view s cur scan) x = XDead -> @state_of (log_view s' cur' scan') x = XDead)) as Hx.
  { intros x Hxt. destruct (Hgone x Hxt) as [Hnc Hnp].
    destruct (decide (x = InvalidTransactionId)) as [->|Hx0].
    { split.
      - simpl. unfold TransactionIdDidHardCommit, TransactionLogTest. by rewrite (li_init s Hi).
      - intros _. unfold state_of. simpl. destruct (Z.eqb_spec cur' InvalidTransactionId); [congruence|].
        unfold TransactionIdDidCommit, TransactionIdDidAbort, TransactionLogTest.
        by rewrite (li_init s' Hi'). }
    assert (0 < x < 2 ^ 64) as Hxr by (unfold InvalidTransactionId in Hx0; destruct Hxt; subst; lia).
    pose proof (restart_status s d n lo s' x) as Hst.
    rewrite (view_hard s) by (done || apply Hi). rewrite (view_hard s') by (done || apply Hi').
    rewrite (view_state s') by (done || apply Hi').
    split.
    - destruct (log_read s x) as [st|]; [|done]. intros ->%Z.eqb_eq.
      destruct (Hst XID_COMMIT) as (_ & st' & -> & Hc & _); try done. by rewrite Hc.
    - intros Hdead. destruct (state_dead _ Hdead) as (_ & Hnc' & Hac).
      rewrite (view_abort s), (view_crash s) in Hac by (done || apply Hi).
      destruct (log_read s x) as [st|]; [|done].
      destruct (Hst st) as (_ & st' & -> & _ & Ha & Hip); try done.
      rewrite Hnp. rewrite orb_true_r, andb_true_r.
      apply orb_true_iff in Hac as [Hac%Z.eqb_eq|Hac].
      + destruct (Ha Hac) as [-> | ->]; done.
      + apply andb_true_iff in Hac as [Hac%Z.eqb_eq _]. by rewrite Hip. }
  split; intros Hh; apply Hx; auto.
Qed.

(** ** Witnesses *)

(** Transaction 603 asks at command 5; 600 is soft-committed, 601 committed, 602
    aborted (the log of [TransLog.demo_log]). *)
Definition demo_running : LogState :=
  set_procs demo_log [Some (mkTHREAD 1 603 603 TRANS_START NORMAL_THREAD 7)].
Definition demo_view : XactView := log_view demo_running 603 5.

Lemma demo_view_ok : XactViewOk demo_view.
Proof.
  apply log_view_ok; [reflexivity|discriminate|vm_compute; reflexivity|discriminate|reflexivity].
Qed.

(** Inserted by 601, deleted by 600, no hints. *)
Definition demo_tuple : HeapTupleHeader := mkTuple 0 601 600 (0, 1) 0.

Lemma demo_tuple_ok (V : XactView) : @state_of V 601 <> XCurrent -> @header_ok V demo_tuple.
Proof. intros H. split; [split; discriminate|]. intros Hc. destruct (H Hc). Qed.

Lemma HeapTupleSatisfiesVisibility_refines_witness :
  @visible demo_view false 9 SnapshotNow ∅ demo_tuple = Some false /\
  match @HeapTupleSatisfiesVisibility demo_view false 9 SnapshotNow ∅ demo_tuple with
  | Some r => exists b, @visible demo_view false 9 SnapshotNow ∅ demo_tuple = Some b /\
                        @answers demo_view _ r b demo_tuple
  | None => @visible demo_view false 9 SnapshotNow ∅ demo_tuple = None
  end.
Proof.
  split; [vm_compute; reflexivity|].
  apply (HeapTupleSatisfiesVisibility_refines demo_view demo_view_ok).
  - reflexivity.
  - apply demo_tuple_ok. vm_compute. discriminate.
  - discriminate.
Defined.

Lemma HeapTupleSatisfiesUpdate_refines_witness :
  @update_verdict demo_view demo_tuple = HeapTupleUpdated /\
  @answers demo_view _ (@HeapTupleSatisfiesUpdate demo_view demo_tuple)
    (@update_verdict demo_view demo_tuple) demo_tuple.
Proof.
  split; [vm_compute; reflexivity|].
  apply (HeapTupleSatisfiesUpdate_refines demo_view demo_view_ok).
  - reflexivity.
  - apply demo_tuple_ok. vm_compute. discriminate.
Defined.

(** Views given by lists of outcomes. *)
Definition table_view (committed aborted : list Z) (cur scan : Z) : XactView := {|
  DidCommit x := xip_scan committed x;
  DidHardCommit x := xip_scan committed x;
  DidAbort x := negb (xip_scan committed x) && xip_scan (InvalidTransactionId :: aborted) x;
  DidCrash x := false;
  IsCurrent x := negb (xip_scan committed x) && negb (xip_scan (InvalidTransactionId :: aborted) x)
                 && (x =? cur);
  GEScan c := c >=? scan;
  Bootstrap := false |}.

Lemma table_view_ok committed aborted cur scan : xip_scan committed InvalidTransactionId = false ->
  XactViewOk (table_view committed aborted cur scan).
Proof.
  intros H0. split; simpl.
  - done.
  - intros x ->. done.
  - done.
  - by rewrite H0.
  - intros x. destruct (xip_scan committed x); [done|].
    destruct (if x =? InvalidTransactionId then _ else _); done.
Qed.

(** 601 has committed and 600 runs, then 600 commits; the snapshot was taken while
    it ran. *)
Definition demo_before : XactView := table_view [601] [602] 603 5.
Definition demo_after : XactView := table_view [601; 600] [602] 603 5.
Definition demo_snap600 : SnapshotData := mkSnapshot 600 605 false [600] None.

Lemma demo_later : later_view demo_before demo_after /\ snapshot_covers demo_before demo_after demo_snap600.
Proof.
  assert (forall x, x <> 600 -> @state_of demo_after x = @state_of demo_before x) as Hsame.
  { intros x Hx. unfold state_of. simpl. destruct (Z.eqb_spec x 600); [done|].
    by destruct (x =? 601). }
  split; [split|].
  - intros x. simpl. destruct (Z.eqb_spec x 600) as [->|]; [done|]. by destruct (x =? 601).
  - done.
  - intros x. simpl. destruct (x =? 601); done.
  - intros x Hx. destruct (decide (x = 600)) as [->|]; [done|]. by rewrite Hsame.
  - intros x Hx. destruct (decide (x = 600)) as [->|]; [done|]. by rewrite Hsame.
  - intros x Hr Hc. destruct (decide (x = 600)) as [->|]; [done|]. rewrite Hsame in Hc by done. congruence.
Qed.

(** Transaction 600 deleted the tuple and committed; vacuum looks before 604, which
    was running, commits. *)
Definition demo_vacuum : XactView := table_view [601; 600] [602] 603 5.
Definition demo_vacuum_later : XactView := table_view [601; 600; 604] [602] 605 0.

Lemma demo_vacuum_log : later_log demo_vacuum demo_vacuum_later.
Proof.
  split; intros x; unfold state_of; simpl;
    destruct (Z.eqb_spec x 601), (Z.eqb_spec x 600), (Z.eqb_spec x 604), (Z.eqb_spec x 602); subst; simpl;
    try done; destruct (Z.eqb_spec x InvalidTransactionId); simpl; try done;
    destruct (Z.eqb_spec x 603); done.
Qed.

Lemma vacuum_dead_invisible_witness :
  @state_of demo_vacuum 604 = XRunning /\ @state_of demo_vacuum_later 604 = XCommitted /\
  (@HeapTupleSatisfiesVacuum demo_vacuum 602 demo_tuple).1 = HEAPTUPLE_DEAD /\
  (@HeapTupleSatisfiesSnapshot demo_vacuum_later false demo_snap demo_tuple).1 = false.
Proof.
  assert ((@HeapTupleSatisfiesVacuum demo_vacuum 602 demo_tuple).1 = HEAPTUPLE_DEAD) as H
    by (vm_compute; reflexivity).
  split; [reflexivity|]. split; [reflexivity|]. split; [exact H|].
  apply (vacuum_dead_invisible demo_vacuum demo_vacuum_later (table_view_ok [601; 600] [602] 603 5 eq_refl)
    (table_view_ok [601; 600; 604] [602] 605 0 eq_refl) 602 demo_snap demo_tuple demo_vacuum_log).
  - reflexivity.
  - apply demo_tuple_ok. vm_compute. discriminate.
  - discriminate.
  - discriminate.
  - left. exact H.
Defined.

Lemma snapshot_repeatable_witness :
  (@HeapTupleSatisfiesSnapshot demo_before false demo_snap600 demo_tuple).1 = true /\
  (@HeapTupleSatisfiesSnapshot demo_after false demo_snap600 demo_tuple).1 =
  (@HeapTupleSatisfiesSnapshot demo_before false demo_snap600 demo_tuple).1.
Proof.
  split; [reflexivity|].
  apply (snapshot_repeatable demo_before demo_after (table_view_ok [601] [602] 603 5 eq_refl)
           (table_view_ok [601; 600] [602] 603 5 eq_refl) demo_snap600 demo_tuple (proj1 demo_later) (proj2 demo_later)).
  - reflexivity.
  - reflexivity.
  - apply demo_tuple_ok. discriminate.
  - reflexivity.
  - reflexivity.
Defined.

(** Recovery from [TransLog.demo_log]: the soft commit of 600 becomes an abort. *)
Definition demo_recovered : LogState :=
  match TransRecover_loop 1 600 demo_log with Ok s => s | Err _ => demo_log end.
(** Inserted by 601 with the committed hint. *)
Definition demo_hinted : HeapTupleHeader := mkTuple 0 601 0 (0, 1) HEAP_XMIN_COMMITTED.

Lemma hints_survive_restart_witness :
  @hints_sound demo_view demo_hinted /\ @hints_sound (log_view demo_recovered 700 0) demo_hinted.
Proof.
  assert (@hints_sound (log_view demo_log 603 5) demo_hinted) as H.
  { split; intros Hh; vm_compute in Hh; try discriminate. vm_compute. reflexivity. }
  split.
  { split; intros Hh; vm_compute in Hh; try discriminate. vm_compute. reflexivity. }
  apply (hints_survive_restart demo_log demo_log 1 600 demo_recovered 603 5 700 0 demo_hinted
           demo_log_inv demo_log_inv).
  - split; [discriminate|reflexivity].
  - intros x st Hst. left. exact Hst.
  - intros y Hy. assert (y = 600) as -> by lia. split; [|vm_compute; eexists; reflexivity].
    split; [split; discriminate|]. split; [split; reflexivity|]. vm_compute. discriminate.
  - vm_compute. reflexivity.
  - split; reflexivity.
  - split; [discriminate|reflexivity].
  - reflexivity.
  - intros x [-> | ->]; (split; [discriminate|vm_compute; reflexivity]).
  - exact H.
Defined.
