(* ===== verification/Heapam.v ===== *)
(** * Header stamps of the heap access method: access/heap/heapam.c

    What [heap_insert], [heap_delete], [heap_update], [heap_mark4update] and the
    lazy vacuum's tuple mover write into tuple headers once
    [LockHeapTupleForUpdate] has said the tuple may be updated.  Placing tuples
    on pages, blobs and cache invalidation are outside of this file. *)

From S2P Require Import Prelude Procs TransLog Varsup Snapshot Tqual.

Definition FirstCommandId : Z := 0.
Definition HEAP_UPDATED : Z := 2 ^ 13.      (* 0x2000 *)
Definition HEAP_XACT_MASK : Z := 65280.     (* 0xFF00 *)

(** [progress.cmd.t_cmin = c], [progress.cmd.t_cmax = c]: the halves of the union. *)
Definition with_cmin (p c : Z) : Z := (p / 2 ^ 32) * 2 ^ 32 + c.
Definition with_cmax (p c : Z) : Z := p mod 2 ^ 32 + c * 2 ^ 32.

(** [infomask &= ~m] *)
Definition clear_bits (infomask m : Z) : Z := Z.land infomask (Z.lnot m).

(** [heap_insert]: [cur] is [GetCurrentTransactionId()], [cid] [GetCurrentCommandId()]. *)
Definition heap_insert_stamp (cur cid : Z) (t : HeapTupleHeader) : HeapTupleHeader :=
  mkTuple (with_cmax (with_cmin (progress t) cid) FirstCommandId) cur InvalidTransactionId (t_ctid t)
    (Z.lor (clear_bits (t_infomask t) HEAP_XACT_MASK) HEAP_XMAX_INVALID).

(** The new version in [heap_update]. *)
Definition heap_update_new_stamp (cur cid : Z) (t : HeapTupleHeader) : HeapTupleHeader :=
  mkTuple (with_cmax (with_cmin (progress t) cid) FirstCommandId) cur InvalidTransactionId (t_ctid t)
    (Z.lor (clear_bits (t_infomask t) HEAP_XACT_MASK) (Z.lor HEAP_XMAX_INVALID HEAP_UPDATED)).

(** A tuple moved in by vacuum gets its original inserter back. *)
Definition restore_moved_in (t : HeapTupleHeader) : HeapTupleHeader :=
  if has t HEAP_MOVED_IN
  then mkTuple (with_cmin (progress t) FirstCommandId) (t_vtran t) (t_xmax t) (t_ctid t) (t_infomask t)
  else t.

(** [heap_delete]: [ctid] is what the caller's pointer holds, if any; [self] is the
    tuple's own place. *)
Definition heap_delete_stamp (cur cid : Z) (ctid : option (Z * Z)) (self : Z * Z)
    (t : HeapTupleHeader) : HeapTupleHeader :=
  let t := restore_moved_in t in
  mkTuple (with_cmax (progress t) cid) (t_xmin t) cur
    (match ctid with Some c => c | None => self end)
    (clear_bits (t_infomask t)
       (Z.lor (Z.lor (Z.lor HEAP_XMAX_COMMITTED HEAP_XMAX_INVALID) HEAP_MARKED_FOR_UPDATE) HEAP_MOVED_IN)).

(** The old version in [heap_update]; [self'] is where the new one was placed. *)
Definition heap_update_old_stamp (cur cid : Z) (self' : Z * Z) (t : HeapTupleHeader) : HeapTupleHeader :=
  let t := restore_moved_in t in
  mkTuple (with_cmax (progress t) cid) (t_xmin t) cur self'
    (clear_bits (t_infomask t)
       (Z.lor (Z.lor (Z.lor HEAP_XMAX_COMMITTED HEAP_XMAX_INVALID) HEAP_MARKED_FOR_UPDATE) HEAP_MOVED_IN)).

Definition heap_mark4update_stamp (cur cid : Z) (t : HeapTupleHeader) : HeapTupleHeader :=
  mkTuple (with_cmax (progress t) cid) (t_xmin t) cur (t_ctid t)
    (Z.lor (clear_bits (t_infomask t) (Z.lor HEAP_XMAX_COMMITTED HEAP_XMAX_INVALID))
       HEAP_MARKED_FOR_UPDATE).

(** The mover of vacuumlazy.c: the copy and the original. *)
Definition vacuum_move_in_stamp (cur : Z) (t : HeapTupleHeader) : HeapTupleHeader :=
  mkTuple (if negb (has t HEAP_MOVED_IN) then t_xmin t else progress t) cur InvalidTransactionId (t_ctid t)
    (Z.lor (clear_bits (t_infomask t) HEAP_XACT_MASK) (Z.lor HEAP_MOVED_IN HEAP_XMAX_INVALID)).

Definition vacuum_move_out_stamp (cur : Z) (t : HeapTupleHeader) : HeapTupleHeader :=
  mkTuple (progress t) (t_xmin t) cur (t_ctid t)
    (Z.lor (clear_bits (t_infomask t)
              (Z.lor (Z.lor HEAP_XMAX_COMMITTED HEAP_XMAX_INVALID) HEAP_MARKED_FOR_UPDATE))
       HEAP_MOVED_OUT).

(** ** Lemmas *)

Lemma has_testbit t k : 0 <= k -> has t (2 ^ k) = Z.testbit (t_infomask t) k.
Proof. apply flag_pow2. Qed.

Lemma clear_bits_testbit x m k : 0 <= k ->
  Z.testbit (clear_bits x m) k = Z.testbit x k && negb (Z.testbit m k).
Proof. intros Hk. unfold clear_bits. by rewrite Z.land_spec, Z.lnot_spec. Qed.

(** Reduce every flag test of a stamped header to the bits of the old mask. *)
Ltac stamp_bits :=
  unfold HEAP_MOVED_IN, HEAP_MOVED_OUT, HEAP_XMIN_COMMITTED, HEAP_XMIN_INVALID, HEAP_XMAX_COMMITTED,
    HEAP_XMAX_INVALID, HEAP_MARKED_FOR_UPDATE, HEAP_UPDATED, HEAP_XACT_MASK in *;
  rewrite ?has_testbit in * by lia; simpl t_infomask in *;
  rewrite ?Z.lor_spec, ?clear_bits_testbit in * by lia.

Lemma cmin_with p c c' : 0 <= c < 2 ^ 32 -> (with_cmax (with_cmin p c) c') mod 2 ^ 32 = c.
Proof.
  intros Hc. unfold with_cmax, with_cmin.
  rewrite Z_mod_plus_full, Z.mod_mod by lia.
  rewrite Z.add_comm, Z_mod_plus_full. by apply Z.mod_small.
Qed.

Lemma cmax_with p c : 0 <= c < 2 ^ 32 -> with_cmax p c / 2 ^ 32 = c.
Proof.
  intros Hc. unfold with_cmax. rewrite Z.div_add by lia.
  rewrite Z.div_small by (apply Z.mod_pos_bound; lia). lia.
Qed.

Lemma cmin_with_cmax p c : with_cmax p c mod 2 ^ 32 = p mod 2 ^ 32.
Proof. unfold with_cmax. by rewrite Z_mod_plus_full, Z.mod_mod by lia. Qed.

Section Stamps.
Context {V : XactView} {VOk : XactViewOk V}.
Variables (cur cid : Z).
Hypothesis Hcid : 0 <= cid < 2 ^ 32.

Lemma insert_header_ok t : header_ok (heap_insert_stamp cur cid t).
Proof.
  split; [split|].
  - stamp_bits. simpl. rewrite andb_false_r. done.
  - stamp_bits. simpl. rewrite andb_false_r. done.
  - stamp_bits. simpl. rewrite andb_false_r. done.
  - intros _. apply state_invalid. reflexivity.
  - intros _. left. stamp_bits. simpl. by rewrite orb_true_r.
Qed.

Lemma insert_visible t : IsCurrent cur = true ->
  visible_now (heap_insert_stamp cur cid t) = negb (GEScan cid).
Proof.
  intros Hc. unfold visible_now, gone_now, heap_insert_stamp, t_cmin. simpl.
  rewrite (state_is_current cur), (state_invalid InvalidTransactionId) by done.
  rewrite cmin_with by done. by rewrite andb_false_r, andb_true_r.
Qed.

(** The stamps of a deletion, on a tuple vacuum has not moved in. *)
Lemma delete_fields ctid self t : has t HEAP_MOVED_IN = false ->
  let t' := heap_delete_stamp cur cid ctid self t in
  t_xmin t' = t_xmin t /\ t_xmax t' = cur /\ t_cmin t' = t_cmin t /\ t_cmax t' = cid /\
  has t' HEAP_XMIN_COMMITTED = has t HEAP_XMIN_COMMITTED /\
  has t' HEAP_XMIN_INVALID = has t HEAP_XMIN_INVALID /\
  has t' HEAP_XMAX_COMMITTED = false /\ has t' HEAP_XMAX_INVALID = false /\
  has t' HEAP_MARKED_FOR_UPDATE = false.
Proof.
  intros Hm. unfold heap_delete_stamp, restore_moved_in. rewrite Hm. unfold t_cmin, t_cmax. simpl.
  rewrite cmin_with_cmax, cmax_with by done. do 4 (split; [done|]). stamp_bits.
  rewrite !Z.lor_spec. simpl. by rewrite !andb_true_r, !andb_false_r.
Qed.

Lemma delete_header_ok ctid self t : header_ok t -> has t HEAP_MOVED_IN = false ->
  IsCurrent cur = true -> header_ok (heap_delete_stamp cur cid ctid self t).
Proof.
  intros [[H1 H2 H3 H4] _] Hm Hc.
  destruct (delete_fields ctid self t Hm) as (F1 & F2 & _ & _ & F5 & F6 & F7 & F8 & _).
  split; [split|]; rewrite ?F1, ?F2, ?F5, ?F6, ?F7, ?F8; try done.
  intros _. right. rewrite F2. by apply state_is_current.
Qed.

Lemma may_be_updated_xmin t : update_verdict t = HeapTupleMayBeUpdated ->
  state_of (t_xmin t) = XCommitted \/
  (state_of (t_xmin t) = XCurrent /\ GEScan (t_cmin t) = false).
Proof.
  unfold update_verdict. destruct (state_of (t_xmin t)); try done; [|by left].
  destruct (GEScan (t_cmin t)); [done|]. by right.
Qed.

Lemma delete_visible ctid self t : update_verdict t = HeapTupleMayBeUpdated ->
  has t HEAP_MOVED_IN = false -> IsCurrent cur = true ->
  visible_now (heap_delete_stamp cur cid ctid self t) = GEScan cid.
Proof.
  intros Hu Hm Hc.
  destruct (delete_fields ctid self t Hm) as (F1 & F2 & F3 & F4 & _ & _ & _ & _ & F9).
  unfold visible_now, gone_now, marked. rewrite F1, F2, F3, F4, F9, (state_is_current cur) by done.
  destruct (may_be_updated_xmin t Hu) as [-> |[-> ->]]; simpl; by destruct (GEScan cid).
Qed.

End Stamps.

(** Another transaction that looks at the log then or later, while the deleter is
    still running. *)
Lemma delete_visible_other V V' cur cid ctid self t :
  later_log V V' -> 0 <= cid < 2 ^ 32 -> @update_verdict V t = HeapTupleMayBeUpdated ->
  has t HEAP_MOVED_IN = false -> @state_of V' cur = XRunning ->
  (forall x, @IsCurrent V x = true -> @state_of V' x = XRunning) ->
  let deleted := heap_delete_stamp cur cid ctid self t in
  match @state_of V (t_xmin t) with
  | XCommitted => @visible_now V' deleted = true /\ @update_verdict V' deleted = HeapTupleBeingUpdated
  | _ => @visible_now V' deleted = false /\ @update_verdict V' deleted = HeapTupleInvisible
  end.
Proof.
  intros Hl Hcid Hu Hm Hr Hall deleted.
  destruct (delete_fields cur cid Hcid ctid self t Hm) as (F1 & F2 & F3 & F4 & _ & _ & _ & _ & F9).
  unfold deleted, visible_now, gone_now, update_verdict, marked. rewrite F1, F2, F9, Hr.
  destruct (may_be_updated_xmin t Hu) as [E|[E _]]; rewrite E.
  - by rewrite (ll_committed _ _ Hl) by done.
  - by rewrite (Hall (t_xmin t)) by by apply state_current.
Qed.

Lemma other_header_ok V V' t : later_log V V' -> @header_ok V t ->
  @state_of V' (t_xmin t) <> XCurrent -> @header_ok V' t.
Proof. intros Hl [Hs _] Hc. split; [exact (later_log_hints V V' t Hl Hs)|]. intros Hc'. by destruct Hc. Qed.

(** ** Properties *)

(** C30 Inserting and deleting take effect at the next command, and for other
    transactions only at commit.  A tuple stamped by [heap_insert] is invisible
    to the command that inserted it and to other transactions, and visible to the
    next command.  A tuple for which [HeapTupleSatisfiesUpdate] says that it may
    be updated (and that vacuum has not moved) stays visible to the command that
    stamps it with [heap_delete] and is invisible to the next one; to other
    transactions, while the deleter runs, it is still visible and "being updated"
    when its inserter had committed, and invisible when the deleter itself had
    inserted it.  Both stamps leave sound headers. *)
Theorem heap_stamps_visibility (V V' : XactView) (VOk : XactViewOk V) (VOk' : XactViewOk V')
    cur cid ctid self t new :
  later_log V V' -> @Bootstrap V = false -> @Bootstrap V' = false -> 0 <= cid < 2 ^ 32 ->
  @IsCurrent V cur = true -> (forall x, @IsCurrent V x = true -> @state_of V' x = XRunning) ->
  @header_ok V t -> has t HEAP_MOVED_IN = false ->
  (@HeapTupleSatisfiesUpdate V t).1 = HeapTupleMayBeUpdated ->
  let deleted := heap_delete_stamp cur cid ctid self t in
  let inserted := heap_insert_stamp cur cid new in
  @header_ok V inserted /\ @header_ok V deleted /\
  (@HeapTupleSatisfiesNow V inserted).1 = negb (@GEScan V cid) /\
  (@HeapTupleSatisfiesNow V' inserted).1 = false /\
  (@HeapTupleSatisfiesNow V deleted).1 = @GEScan V cid /\
  match @state_of V (t_xmin t) with
  | XCommitted => (@HeapTupleSatisfiesNow V' deleted).1 = true /\
      (@HeapTupleSatisfiesUpdate V' deleted).1 = HeapTupleBeingUpdated
  | _ => (@HeapTupleSatisfiesNow V' deleted).1 = false /\
      (@HeapTupleSatisfiesUpdate V' deleted).1 = HeapTupleInvisible
  end.
Proof.
  intros Hl Hb Hb' Hcid Hcur Hall Ht Hm Hup deleted inserted.
  destruct (@Update_answers V VOk t Hb Ht) as (t0 & E0 & _). rewrite E0 in Hup. simpl in Hup.
  assert (@header_ok V inserted) as Hi by exact (insert_header_ok cur cid new).
  assert (@header_ok V' inserted) as Hi' by exact (insert_header_ok cur cid new).
  assert (@header_ok V deleted) as Hd by by apply delete_header_ok.
  assert (@header_ok V' deleted) as Hd'.
  { apply (other_header_ok V V' deleted Hl Hd). unfold deleted.
    rewrite (proj1 (delete_fields cur cid Hcid ctid self t Hm)).
    destruct (may_be_updated_xmin t Hup) as [E|[E _]]; [by rewrite (ll_committed _ _ Hl)|].
    by rewrite Hall by by apply state_current. }
  destruct (@Now_answers V VOk inserted Hb Hi) as (? & -> & _).
  destruct (@Now_answers V' VOk' inserted Hb' Hi') as (? & -> & _).
  destruct (@Now_answers V VOk deleted Hb Hd) as (? & -> & _).
  destruct (@Now_answers V' VOk' deleted Hb' Hd') as (? & -> & _).
  destruct (@Update_answers V' VOk' deleted Hb' Hd') as (? & -> & _). simpl.
  split_and!; [done|done| | | |].
  - by apply insert_visible.
  - unfold visible_now, inserted. simpl. by rewrite Hall.
  - by apply delete_visible.
  - by apply (delete_visible_other V V' cur cid ctid self t Hl Hcid Hup Hm (Hall cur Hcur) Hall).
Qed.

(** Marking a moved tuple for update hides it from every snapshot: the tuple
    mover keeps the original inserter in [t_vtran], and [heap_mark4update]
    stores the command id into the upper half of that field without clearing
    [HEAP_MOVED_IN].  Unless the command id is zero, the inserter read back is
    at least [2^32], so any snapshot below that reports the tuple as inserted
    by an active transaction. *)
Theorem mark4update_hides_moved_tuple (V : XactView) (VOk : XactViewOk V) cur cid snap t :
  @Bootstrap V = false -> 0 < cid < 2 ^ 32 -> snap_xmax snap <= 2 ^ 32 ->
  has t HEAP_MOVED_IN = true -> @hints_sound V t ->
  @state_of V (t_xmin t) = XCommitted -> @IsCurrent V cur = true ->
  (@HeapTupleSatisfiesSnapshot V false snap (heap_mark4update_stamp cur cid t)).1 = false.
Proof.
  intros Hb Hcid Hs Hm [H1 H2 H3 H4] Hx Hcur. set (t' := heap_mark4update_stamp cur cid t).
  assert (has t' HEAP_MOVED_IN = true /\ has t' HEAP_XMIN_COMMITTED = has t HEAP_XMIN_COMMITTED /\
    has t' HEAP_XMIN_INVALID = has t HEAP_XMIN_INVALID /\
    has t' HEAP_XMAX_COMMITTED = false /\ has t' HEAP_XMAX_INVALID = false) as (B1 & B2 & B3 & B4 & B5).
  { unfold t', heap_mark4update_stamp. stamp_bits. rewrite !Z.lor_spec. rewrite Hm. simpl.
    by rewrite !andb_true_r, !andb_false_r, !orb_false_r. }
  assert (@header_ok V t') as Ht'.
  { split; [split; rewrite ?B2, ?B3, ?B4, ?B5; done|]. intros _. right. by apply state_is_current. }
  destruct (@Snapshot_answers V VOk snap t' Hb Ht') as (? & -> & _). simpl.
  unfold visible_snapshot. change (t_xmin t') with (t_xmin t). rewrite Hx, B1.
  assert (snap_xmax snap <= t_vtran t') as Hv.
  { unfold t_vtran, t', heap_mark4update_stamp, with_cmax. simpl progress.
    pose proof (Z.mod_pos_bound (progress t) (2 ^ 32)). lia. }
  unfold TransactionIdActiveDuringSnapshot at 1.
  by destruct (Z.geb_spec (t_vtran t') (snap_xmax snap)); [|lia].
Qed.

(** A dirty read does not see a row its own transaction has locked: a
    committed tuple marked for update by the reader is visible to [SnapshotNow]
    and to [SnapshotSelf], and invisible to the dirty snapshot (which the unique
    index check uses to look for duplicates). *)
Theorem dirty_read_misses_own_mark (V : XactView) (VOk : XactViewOk V) cur cid t :
  @Bootstrap V = false -> 0 <= cid < 2 ^ 32 -> @header_ok V t -> has t HEAP_MOVED_IN = false ->
  @state_of V (t_xmin t) = XCommitted -> @IsCurrent V cur = true ->
  let locked := heap_mark4update_stamp cur cid t in
  (@HeapTupleSatisfiesNow V locked).1 = true /\ (@HeapTupleSatisfiesItself V locked).1 = true /\
  (@HeapTupleSatisfiesDirty V locked).1 = (false, dirty_none).
Proof.
  intros Hb Hcid [[H1 H2 H3 H4] _] Hm Hx Hcur locked.
  assert (has locked HEAP_XMIN_COMMITTED = has t HEAP_XMIN_COMMITTED /\
    has locked HEAP_XMIN_INVALID = has t HEAP_XMIN_INVALID /\ marked locked = true /\
    has locked HEAP_XMAX_COMMITTED = false /\ has locked HEAP_XMAX_INVALID = false) as (B2 & B3 & B & B4 & B5).
  { unfold marked, locked, heap_mark4update_stamp. stamp_bits. rewrite !Z.lor_spec. simpl.
    by rewrite !andb_true_r, !andb_false_r, !orb_false_r, orb_true_r. }
  assert (@header_ok V locked) as Ht'.
  { split; [split; rewrite ?B2, ?B3, ?B4, ?B5; done|]. intros _. right. by apply state_is_current. }
  destruct (@Now_answers V VOk locked Hb Ht') as (? & -> & _).
  destruct (@Itself_answers V VOk locked Ht') as (? & -> & _).
  destruct (@Dirty_answers V VOk locked Hb Ht') as (? & -> & _). simpl.
  unfold visible_now, visible_itself, own_mark, gone_now. rewrite B.
  change (t_xmin locked) with (t_xmin t). change (t_xmax locked) with cur.
  by rewrite Hx, (state_is_current cur).
Qed.

(** ** Witnesses *)

(** Transaction 603 at command 5, and transaction 604 of the same log; 601 has
    committed. *)
Definition demo_other : XactView := table_view [601; 600] [602] 604 5.
Definition demo_row : HeapTupleHeader := mkTuple 0 601 0 (0, 1) HEAP_XMAX_INVALID.

Lemma demo_later_log : later_log demo_after demo_other.
Proof.
  split; intros x; unfold state_of; simpl;
    destruct (Z.eqb_spec x 601), (Z.eqb_spec x 600), (Z.eqb_spec x 602); subst; simpl;
    try done; destruct (Z.eqb_spec x InvalidTransactionId); simpl; try done;
    destruct (Z.eqb_spec x 603); done.
Qed.

Lemma demo_row_ok (V : XactView) (VOk : XactViewOk V) : @state_of V 601 <> XCurrent -> @header_ok V demo_row.
Proof.
  intros H. split; [|intros Hc; destruct (H Hc)].
  split; intros Hh; try discriminate Hh. apply state_invalid. reflexivity.
Qed.

Lemma heap_stamps_visibility_witness :
  (@HeapTupleSatisfiesNow demo_after (heap_delete_stamp 603 5 None (0, 1) demo_row)).1 = true /\
  (@HeapTupleSatisfiesNow demo_other (heap_delete_stamp 603 5 None (0, 1) demo_row)).1 = true /\
  (@HeapTupleSatisfiesUpdate demo_other (heap_delete_stamp 603 5 None (0, 1) demo_row)).1 =
    HeapTupleBeingUpdated.
Proof.
  pose proof (table_view_ok [601; 600] [602] 603 5 eq_refl) as VOk.
  destruct (heap_stamps_visibility demo_after demo_other VOk
    (table_view_ok [601; 600] [602] 604 5 eq_refl) 603 5 None (0, 1) demo_row demo_row demo_later_log)
    as (_ & _ & _ & _ & H1 & H2 & H3).
  - reflexivity.
  - reflexivity.
  - split; [discriminate|reflexivity].
  - reflexivity.
  - intros x Hx. assert (x = 603) as ->; [|reflexivity]. simpl in Hx.
    apply Z.eqb_eq. by apply andb_prop in Hx as [_ Hx].
  - apply demo_row_ok; [exact VOk|discriminate].
  - reflexivity.
  - reflexivity.
  - split; [rewrite H1; reflexivity|]. split; [exact H2|exact H3].
Defined.

(** A row of transaction 600 that vacuum (601) has moved. *)
Definition demo_moved : HeapTupleHeader := vacuum_move_in_stamp 601 (mkTuple 0 600 0 (0, 1) HEAP_XMAX_INVALID).

Lemma mark4update_hides_moved_tuple_witness :
  (@HeapTupleSatisfiesSnapshot demo_after false (mkSnapshot 603 605 false [] None) demo_moved).1 = true /\
  (@HeapTupleSatisfiesSnapshot demo_after false (mkSnapshot 603 605 false [] None)
     (heap_mark4update_stamp 603 5 demo_moved)).1 = false.
Proof.
  pose proof (table_view_ok [601; 600] [602] 603 5 eq_refl) as VOk.
  split; [reflexivity|].
  apply (mark4update_hides_moved_tuple demo_after VOk).
  - reflexivity.
  - split; reflexivity.
  - discriminate.
  - reflexivity.
  - split; intros Hh; try discriminate Hh. reflexivity.
  - reflexivity.
  - reflexivity.
Defined.

Lemma dirty_read_misses_own_mark_witness :
  (@HeapTupleSatisfiesNow demo_after (heap_mark4update_stamp 603 4 demo_row)).1 = true /\
  (@HeapTupleSatisfiesDirty demo_after (heap_mark4update_stamp 603 4 demo_row)).1 = (false, dirty_none).
Proof.
  pose proof (table_view_ok [601; 600] [602] 603 5 eq_refl) as VOk.
  destruct (dirty_read_misses_own_mark demo_after VOk 603 4 demo_row) as (H1 & _ & H2).
  - reflexivity.
  - split; [discriminate|reflexivity].
  - apply demo_row_ok; [exact VOk|discriminate].
  - reflexivity.
  - reflexivity.
  - reflexivity.
  - split; [exact H1|exact H2].
Defined.
