(* ===== verification/Xact.v ===== *)
(** * The transaction state machine: access/transam/xact.c

    [StartTransactionCommand] and [CommitTransactionCommand] bracket every command
    of a session; BEGIN, COMMIT, ROLLBACK and errors move the block state in
    between.  The model keeps the fields of [TransactionState], the thread's
    slot in the process array, the transaction log and counters, the snapshot
    holder, the transaction lock of env.c, the thread's entries in the
    transaction lock table and the writer's group (env/dbwriter.c).  Of the
    memory contexts the snapshots allocated for a transaction are kept; caches,
    triggers, notifications, local buffers and the wall-clock start time are not
    part of the state. *)

From S2P Require Import Prelude Procs TransLog Varsup Snapshot Tqual Heapam.

(** Block states of access/xact.h. *)
Definition TBLOCK_DEFAULT : Z := 0.
Definition TBLOCK_AUTO : Z := 6.
Definition TBLOCK_MANUAL : Z := 7.
Definition TBLOCK_ABORT : Z := 8.
Definition TBLOCK_COMMIT : Z := 9.
Definition TBLOCK_ABORTONLY : Z := 10.

Record TransactionStateData := mkTS {
  transactionIdData : Z; commandId : Z; scanCommandId : Z; tstate : Z; blockState : Z }.

(** One session with the shared state it works on. *)
Record XactSys := mkXact {
  xs_var : VarSys;                      (* log, counters, process array *)
  CurrentTransactionState : TransactionStateData;
  TransactionSystemDisabled : bool;
  SharedBufferChanged : bool;
  CommandIdCounterOverflowFlag : bool;
  backupState : Z;
  my_tid : Z;                           (* GetMyThread() *)
  snapshot_holder : SnapshotHolder;
  transaction_lock : bool;              (* env->masterlock & TRANSACTIONLOCK_MASK *)
  xact_locks : list Z;                  (* ids locked by XactLockTableInsert *)
  shutting_down : bool;                 (* IsShutdownProcessingMode() *)
  careful : bool;                       (* IsTransactionCareful() *)
  write_group : list (Z * Z) }.         (* cart->transactions with transactionState *)

(** ** A state and error monad *)

(** An [elog(ERROR)] leaves the state as it is at that point. *)
Definition XM (A : Type) : Type := XactSys -> result A * XactSys.

#[export] Instance XM_ret : MRet XM := fun A a s => (Ok a, s).
#[export] Instance XM_bind : MBind XM := fun A B f m s =>
  match m s with (Ok a, s) => f a s | (Err e, s) => (Err e, s) end.

Definition xget : XM XactSys := fun s => (Ok s, s).
Definition xput (s : XactSys) : XM unit := fun _ => (Ok (), s).
Definition xmodify (f : XactSys -> XactSys) : XM unit := fun s => (Ok (), f s).
Definition xerror {A} (msg : string) : XM A := fun s => (Err msg, s).
Definition xlift {A} (r : result A) : XM A := fun s => (r, s).

(** Field updates. *)
Definition set_var (v : VarSys) (s : XactSys) : XactSys :=
  mkXact v (CurrentTransactionState s) (TransactionSystemDisabled s) (SharedBufferChanged s)
    (CommandIdCounterOverflowFlag s) (backupState s) (my_tid s) (snapshot_holder s) (transaction_lock s)
    (xact_locks s) (shutting_down s) (careful s) (write_group s).
Definition set_ts (t : TransactionStateData) (s : XactSys) : XactSys :=
  mkXact (xs_var s) t (TransactionSystemDisabled s) (SharedBufferChanged s)
    (CommandIdCounterOverflowFlag s) (backupState s) (my_tid s) (snapshot_holder s) (transaction_lock s)
    (xact_locks s) (shutting_down s) (careful s) (write_group s).
Definition set_changed (b : bool) (s : XactSys) : XactSys :=
  mkXact (xs_var s) (CurrentTransactionState s) (TransactionSystemDisabled s) b
    (CommandIdCounterOverflowFlag s) (backupState s) (my_tid s) (snapshot_holder s) (transaction_lock s)
    (xact_locks s) (shutting_down s) (careful s) (write_group s).
Definition set_overflow (b : bool) (s : XactSys) : XactSys :=
  mkXact (xs_var s) (CurrentTransactionState s) (TransactionSystemDisabled s) (SharedBufferChanged s)
    b (backupState s) (my_tid s) (snapshot_holder s) (transaction_lock s)
    (xact_locks s) (shutting_down s) (careful s) (write_group s).
Definition set_backup (b : Z) (s : XactSys) : XactSys :=
  mkXact (xs_var s) (CurrentTransactionState s) (TransactionSystemDisabled s) (SharedBufferChanged s)
    (CommandIdCounterOverflowFlag s) b (my_tid s) (snapshot_holder s) (transaction_lock s)
    (xact_locks s) (shutting_down s) (careful s) (write_group s).
Definition set_holder (h : SnapshotHolder) (s : XactSys) : XactSys :=
  mkXact (xs_var s) (CurrentTransactionState s) (TransactionSystemDisabled s) (SharedBufferChanged s)
    (CommandIdCounterOverflowFlag s) (backupState s) (my_tid s) h (transaction_lock s)
    (xact_locks s) (shutting_down s) (careful s) (write_group s).
Definition set_lock (b : bool) (s : XactSys) : XactSys :=
  mkXact (xs_var s) (CurrentTransactionState s) (TransactionSystemDisabled s) (SharedBufferChanged s)
    (CommandIdCounterOverflowFlag s) (backupState s) (my_tid s) (snapshot_holder s) b
    (xact_locks s) (shutting_down s) (careful s) (write_group s).
Definition set_xact_locks (l : list Z) (s : XactSys) : XactSys :=
  mkXact (xs_var s) (CurrentTransactionState s) (TransactionSystemDisabled s) (SharedBufferChanged s)
    (CommandIdCounterOverflowFlag s) (backupState s) (my_tid s) (snapshot_holder s) (transaction_lock s)
    l (shutting_down s) (careful s) (write_group s).
Definition set_group (g : list (Z * Z)) (s : XactSys) : XactSys :=
  mkXact (xs_var s) (CurrentTransactionState s) (TransactionSystemDisabled s) (SharedBufferChanged s)
    (CommandIdCounterOverflowFlag s) (backupState s) (my_tid s) (snapshot_holder s) (transaction_lock s)
    (xact_locks s) (shutting_down s) (careful s) g.

Definition set_state (x : Z) (s : XactSys) : XactSys :=
  let t := CurrentTransactionState s in
  set_ts (mkTS (transactionIdData t) (commandId t) (scanCommandId t) x (blockState t)) s.
Definition set_block (x : Z) (s : XactSys) : XactSys :=
  let t := CurrentTransactionState s in
  set_ts (mkTS (transactionIdData t) (commandId t) (scanCommandId t) (tstate t) x) s.
Definition set_xid (x : Z) (s : XactSys) : XactSys :=
  let t := CurrentTransactionState s in
  set_ts (mkTS x (commandId t) (scanCommandId t) (tstate t) (blockState t)) s.
Definition set_commands (c sc : Z) (s : XactSys) : XactSys :=
  let t := CurrentTransactionState s in
  set_ts (mkTS (transactionIdData t) c sc (tstate t) (blockState t)) s.

Definition block_state (s : XactSys) : Z := blockState (CurrentTransactionState s).

(** Apply an update to the session's own thread structure. *)
Definition on_my_thread (f : THREAD -> THREAD) (s : XactSys) : XactSys :=
  set_var (with_log (xs_var s) (set_procs (vs_log (xs_var s))
    (map (fun o => match o with
                   | Some t => Some (if tid t =? my_tid s then f t else t)
                   | None => None end) (procs (vs_log (xs_var s)))))) s.

(** ** Accessors *)

Definition DisabledCommandId : Z := u32 (-1).

Definition IsAbortedTransactionBlockState (s : XactSys) : bool :=
  (block_state s =? TBLOCK_ABORT) || (block_state s =? TBLOCK_ABORTONLY).
Definition GetCurrentTransactionId (s : XactSys) : Z :=
  if TransactionSystemDisabled s then AmiTransactionId
  else transactionIdData (CurrentTransactionState s).
Definition GetCurrentCommandId (s : XactSys) : Z :=
  if TransactionSystemDisabled s then DisabledCommandId else commandId (CurrentTransactionState s).
Definition GetScanCommandId (s : XactSys) : Z :=
  if TransactionSystemDisabled s then DisabledCommandId else scanCommandId (CurrentTransactionState s).
Definition TransactionIdIsCurrentTransactionId (s : XactSys) (x : Z) : bool :=
  if TransactionSystemDisabled s then false
  else transactionIdData (CurrentTransactionState s) =? x.
Definition CommandIdIsCurrentCommandId (s : XactSys) (c : Z) : bool :=
  if TransactionSystemDisabled s then false else c =? commandId (CurrentTransactionState s).
Definition CommandIdGEScanCommandId (s : XactSys) (c : Z) : bool :=
  if TransactionSystemDisabled s then false else c >=? scanCommandId (CurrentTransactionState s).
Definition CurrentXactInProgress (s : XactSys) : bool :=
  tstate (CurrentTransactionState s) =? TRANS_INPROGRESS.
Definition IsTransactionBlock (s : XactSys) : bool := block_state s =? TBLOCK_MANUAL.
Definition SetScanCommandId (savedId : Z) (s : XactSys) : XactSys :=
  set_commands (commandId (CurrentTransactionState s)) savedId s.

(** [commandId] is a [uint32]. *)
Definition CommandCounterIncrement : XM unit :=
  s ← xget;
  if TransactionSystemDisabled s then mret ()
  else if negb (tstate (CurrentTransactionState s) =? TRANS_INPROGRESS) then xerror "Transaction not started"
  else
    let c := u32 (commandId (CurrentTransactionState s) + 1) in
    xmodify (set_commands c (scanCommandId (CurrentTransactionState s)));;
    if c =? FirstCommandId then
      xmodify (set_overflow true);; xerror "You may only have 2^32-1 commands per transaction"
    else xmodify (set_commands c c).

(** ** The writer's group (env/dbwriter.c) *)

(** The log as the writer fills it: one status per member of the group. *)
Fixpoint log_group (vc : VariableCacheData) (r : Relation) (g : list (Z * Z)) : result Relation :=
  match g with
  | [] => Ok r
  | (x, st) :: g =>
      if x =? 0 then Err "zero transaction id"
      else
        localblock ← TransComputeBlockNumber vc r x;
        match ReadBuffer r localblock with
        | None => Err "[DBWriter]bad buffer read in transaction logging"
        | Some block => log_group vc (WriteBuffer r localblock (TransBlockSetXidStatus block x st)) g
        end
  end.

Definition LogTransactions (boot : bool) (vc : VariableCacheData) (r : Relation) (g : list (Z * Z))
    : result Relation :=
  if boot then Ok r else log_group vc r g.

Definition set_log_relation (r : Relation) (s : XactSys) : XactSys :=
  set_var (with_log (xs_var s) (set_log (vs_log (xs_var s)) r)) s.
Definition log_relation (s : XactSys) : Relation := LogRelation (vs_log (xs_var s)).

Definition ResetThreadState : XactSys -> XactSys := on_my_thread ThreadTransactionReset.

(** Committing waits, when the transaction is careful, until the writer has
    logged the group and reset the waiting thread; otherwise the status is set
    here, a commit as a soft commit. *)
Definition CommitDBBufferWrites (x setstate : Z) : XM unit :=
  s ← xget;
  let commit := setstate =? XID_COMMIT in
  (if commit then xmodify (set_group (write_group s ++ [(x, setstate)])) else mret ());;
  s ← xget;
  if commit && (TransactionSystemDisabled s || careful s) then
    r ← xlift (LogTransactions (bootstrap (xs_var s)) (vcache (xs_var s)) (log_relation s) (write_group s));
    xmodify (set_log_relation r);; xmodify (set_group []);; xmodify ResetThreadState
  else
    r ← xlift (TransBlockNumberSetXidStatus (vcache (xs_var s)) (log_relation s) x
                 (if commit then XID_SOFT_COMMIT else setstate));
    xmodify (set_log_relation r);; xmodify ResetThreadState.

Definition RecordTransactionCommit : XM unit :=
  s ← xget;
  if SharedBufferChanged s then CommitDBBufferWrites (GetCurrentTransactionId s) XID_COMMIT
  else xmodify (on_my_thread ThreadTransactionReset).

Definition RecordTransactionAbort : XM unit :=
  s ← xget;
  if SharedBufferChanged s then CommitDBBufferWrites (GetCurrentTransactionId s) XID_ABORT
  else xmodify (on_my_thread ThreadTransactionReset).

(** env.c; waiting for the master write lock is not modelled. *)
Definition TransactionLock : XM unit :=
  s ← xget;
  if shutting_down s then xerror "System is shutting down" else xmodify (set_lock true).
Definition TransactionUnlock : XactSys -> XactSys := set_lock false.

(** [ThreadReleaseLocks]: the session's locks, the transaction's own among them. *)
Definition ThreadReleaseLocks : XactSys -> XactSys := set_xact_locks [].

(** [AtStart_Memory], [AtCommit_Memory] and [AtAbort_Memory] delete the
    transaction's memory context and with it the snapshots allocated there; the
    pointers of the holder are left as they are. *)
Definition free_context (h : SnapshotHolder) : SnapshotHolder :=
  mkHolder (UserSnapshot h) (QuerySnapshot h) (SerializableSnapshot h)
    (ReferentialIntegritySnapshotOverride h) ∅ (snap_next h).
Definition AtStart_Memory (s : XactSys) : XactSys := set_holder (free_context (snapshot_holder s)) s.
Definition AtCommit_Memory (s : XactSys) : XactSys := set_holder (free_context (snapshot_holder s)) s.
Definition AtAbort_Memory (s : XactSys) : XactSys := set_holder (free_context (snapshot_holder s)) s.

(** ** The interface routines *)

Definition StartTransaction : XM unit :=
  s ← xget;
  xmodify (set_holder (FreeXactSnapshot (snapshot_holder s)));;
  if TransactionSystemDisabled s then mret ()
  else
    xmodify (set_state TRANS_START);; xmodify (set_backup TRANS_START);;
    s ← xget;
    let '(x, v) := GetNewTransactionId (xs_var s) in
    xmodify (set_var v);; xmodify (set_xid x);;
    xmodify (on_my_thread (fun t => ThreadTransactionStart t x));;
    s ← xget;
    xmodify (set_xact_locks (x :: xact_locks s));;
    xmodify (set_commands FirstCommandId FirstCommandId);;
    TransactionLock;; xmodify AtStart_Memory;;
    xmodify (set_state TRANS_INPROGRESS);; xmodify (set_backup TRANS_INPROGRESS).

Definition CommitTransaction : XM unit :=
  s ← xget;
  if TransactionSystemDisabled s then mret ()
  else
    xmodify (set_state TRANS_COMMIT);; xmodify (set_backup TRANS_COMMIT);;
    xmodify (on_my_thread ThreadTransactionEnd);;
    RecordTransactionCommit;;
    xmodify ThreadReleaseLocks;; xmodify TransactionUnlock;;
    xmodify AtCommit_Memory;;
    xmodify (set_state TRANS_DEFAULT);; xmodify (set_changed false).

Definition AbortTransaction : XM unit :=
  s ← xget;
  if TransactionSystemDisabled s then mret ()
  else
    xmodify (set_state TRANS_ABORT);; xmodify (set_backup TRANS_ABORT);;
    RecordTransactionAbort;;
    xmodify ThreadReleaseLocks;; xmodify TransactionUnlock;;
    xmodify AtAbort_Memory;;
    xmodify (set_state TRANS_DEFAULT);; xmodify (set_changed false).

(** The other block states only print a notice. *)
Definition StartTransactionCommand : XM unit :=
  s ← xget;
  if block_state s =? TBLOCK_DEFAULT then
    StartTransaction;; xmodify (set_block TBLOCK_AUTO)
  else mret ().

Definition CommitTransactionCommand : XM unit :=
  s ← xget;
  let b := block_state s in
  if b =? TBLOCK_AUTO then CommitTransaction;; xmodify (set_block TBLOCK_DEFAULT)
  else if b =? TBLOCK_MANUAL then CommandCounterIncrement
  else if b =? TBLOCK_ABORTONLY then AbortTransaction;; xmodify (set_block TBLOCK_DEFAULT)
  else if b =? TBLOCK_COMMIT then CommitTransaction;; xmodify (set_block TBLOCK_DEFAULT)
  else if b =? TBLOCK_ABORT then AbortTransaction;; xmodify (set_block TBLOCK_DEFAULT)
  else mret ().

Definition CommitTransactionCommandIfNeeded : XM bool :=
  s ← xget;
  if (block_state s =? TBLOCK_MANUAL) || negb (block_state s =? TBLOCK_DEFAULT)
  then CommitTransactionCommand;; mret true else mret false.

Definition BeginTransactionBlock (s : XactSys) : XactSys :=
  if TransactionSystemDisabled s then s else set_block TBLOCK_MANUAL s.

Definition AbortTransactionBlock (s : XactSys) : XactSys :=
  if TransactionSystemDisabled s then s
  else if (block_state s =? TBLOCK_MANUAL) || (block_state s =? TBLOCK_ABORTONLY)
  then set_block TBLOCK_ABORT s
  else set_block TBLOCK_DEFAULT s.

Definition CommitTransactionBlock : XM unit :=
  s ← xget;
  if TransactionSystemDisabled s then mret ()
  else if block_state s =? TBLOCK_MANUAL then xmodify (set_block TBLOCK_COMMIT)
  else if block_state s =? TBLOCK_ABORTONLY then xmodify (set_block TBLOCK_ABORT)
  else xerror "COMMIT: no transaction in progress".

Definition SetAbortOnly (s : XactSys) : XactSys :=
  TransactionUnlock
    (if block_state s =? TBLOCK_AUTO then set_block TBLOCK_ABORT s
     else if negb (block_state s =? TBLOCK_DEFAULT) then set_block TBLOCK_ABORTONLY s else s).

Definition AbandonTransactionBlock (s : XactSys) : bool * XactSys :=
  ((block_state s =? TBLOCK_MANUAL) || (block_state s =? TBLOCK_ABORTONLY), set_block TBLOCK_DEFAULT s).

(** The end of a sub-connection's use of its parent's transaction. *)
Definition CloseSubTransaction (s : XactSys) : XactSys :=
  if TransactionSystemDisabled s then s
  else set_changed false (set_state TRANS_DEFAULT (set_state TRANS_COMMIT s)).

(** A sub-connection takes over its parent's transaction and snapshots. *)
Definition CloneParentTransaction (parent : option XactSys) : XM unit :=
  match parent with
  | None => xerror "not a sub-connection"
  | Some p =>
      xmodify (set_ts (CurrentTransactionState p));;
      xmodify (set_holder (snapshot_holder p))
  end.

(** ** The state the command loop keeps *)

Definition threads (s : XactSys) : ProcArray := procs (vs_log (xs_var s)).

(** The session has a slot, and every slot of the session's thread is as [P] says. *)
Definition mine (P : THREAD -> Prop) (s : XactSys) : Prop :=
  (exists t, Some t ∈ threads s /\ tid t = my_tid s) /\
  forall t, Some t ∈ threads s -> tid t = my_tid s -> P t.

Definition idle (t : THREAD) : Prop := xid t = 0 /\ xmin t = 0 /\ state t = TRANS_DEFAULT.
Definition running (x : Z) (t : THREAD) : Prop := xid t = x /\ state t = TRANS_START.

Definition in_block (b : Z) : Prop :=
  b = TBLOCK_AUTO \/ b = TBLOCK_MANUAL \/ b = TBLOCK_COMMIT \/ b = TBLOCK_ABORT \/ b = TBLOCK_ABORTONLY.

(** Outside of a block there is no transaction; inside one the session's
    transaction is in progress, published in its slot and locked. *)
Definition xact_inv (s : XactSys) : Prop :=
  TransactionSystemDisabled s = false /\
  ((block_state s = TBLOCK_DEFAULT /\ tstate (CurrentTransactionState s) = TRANS_DEFAULT /\
    mine idle s /\ xact_locks s = [] /\ transaction_lock s = false /\ SharedBufferChanged s = false) \/
   (in_block (block_state s) /\ tstate (CurrentTransactionState s) = TRANS_INPROGRESS /\
    mine (running (transactionIdData (CurrentTransactionState s))) s /\
    xact_locks s = [transactionIdData (CurrentTransactionState s)])).

Lemma mine_on_my_thread (P Q : THREAD -> Prop) f s :
  mine P s -> (forall t, tid (f t) = tid t) -> (forall t, P t -> Q (f t)) ->
  mine Q (on_my_thread f s).
Proof.
  intros [(t & Ht & Hid) Hall] Hf HPQ. unfold mine, threads, on_my_thread in *. simpl.
  split.
  - exists (f t). split; [|by rewrite Hf].
    apply list_elem_of_fmap. exists (Some t). split; [|done]. by rewrite Hid, Z.eqb_refl.
  - intros u ([t'|] & Hu & Hin)%list_elem_of_fmap Hu'; [|done].
    destruct (Z.eqb_spec (tid t') (my_tid s)) as [E|E]; [|congruence].
    injection Hu as ->. by apply HPQ, Hall.
Qed.

(** Starting a transaction from outside of a block. *)
Lemma StartTransaction_inv s s' : xact_inv s -> block_state s = TBLOCK_DEFAULT ->
  StartTransaction s = (Ok (), s') ->
  TransactionSystemDisabled s' = false /\ tstate (CurrentTransactionState s') = TRANS_INPROGRESS /\
  mine (running (transactionIdData (CurrentTransactionState s'))) s' /\
  xact_locks s' = [transactionIdData (CurrentTransactionState s')] /\
  transactionIdData (CurrentTransactionState s') = (GetNewTransactionId (xs_var s)).1.
Proof.
  intros [Hd [(Hb & Hst & Hm & Hl & _)|[[Hb|[Hb|[Hb|[Hb|Hb]]]] _]]] Hb'; try by rewrite Hb in Hb'.
  unfold StartTransaction, xget, xmodify, TransactionLock, mbind, XM_bind, mret, XM_ret. simpl.
  rewrite Hd. simpl. pose proof (GetNewTransactionId_procs (xs_var s)) as Hp.
  destruct (GetNewTransactionId (xs_var s)) as [x v]. simpl in *.
  destruct (shutting_down s); [done|]. intros [= <-]. simpl. split_and!; try done.
  - assert (mine idle (set_var v s)) as Hm'.
    { destruct Hm as [H1 H2]. unfold mine, threads in *. simpl. by rewrite Hp. }
    exact (mine_on_my_thread idle (running x) (fun t => ThreadTransactionStart t x) _ Hm'
             (fun _ => eq_refl) (fun _ _ => conj eq_refl eq_refl)).
  - by rewrite Hl.
Qed.

(** The states ending a transaction passes through. *)
Lemma CommitDBBufferWrites_effect x st s s' : CommitDBBufferWrites x st s = (Ok (), s') ->
  exists r g, s' = ResetThreadState (set_group g (set_log_relation r s)).
Proof.
  unfold CommitDBBufferWrites, xget, xmodify, xlift, mbind, XM_bind, mret, XM_ret.
  destruct (st =? XID_COMMIT); simpl.
  - destruct (TransactionSystemDisabled s || careful s).
    + destruct (LogTransactions _ _ _ _) as [r|]; [|done]. intros [= <-]. by exists r, [].
    + destruct (TransBlockNumberSetXidStatus _ _ _ _) as [r|]; [|done]. intros [= <-].
      by exists r, (write_group s ++ [(x, st)]).
  - destruct (TransBlockNumberSetXidStatus _ _ _ _) as [r|]; [|done]. intros [= <-].
    exists r, (write_group s). by destruct s.
Qed.

(** Both ends leave the session with no transaction. *)
Lemma record_effect x st s s' :
  (if SharedBufferChanged s then CommitDBBufferWrites x st s
   else (Ok (), on_my_thread ThreadTransactionReset s)) = (Ok (), s') ->
  exists r g, s' = ResetThreadState (set_group g (set_log_relation r s)).
Proof.
  destruct (SharedBufferChanged s); [apply CommitDBBufferWrites_effect|].
  intros [= <-]. exists (log_relation s), (write_group s). destruct s as [v]. by destruct v as [[]].
Qed.

Definition ended (s : XactSys) : XactSys :=
  set_changed false (set_state TRANS_DEFAULT (AtCommit_Memory (TransactionUnlock (ThreadReleaseLocks s)))).

Lemma CommitTransaction_effect s s' : TransactionSystemDisabled s = false ->
  CommitTransaction s = (Ok (), s') ->
  exists s1, (if SharedBufferChanged s
              then CommitDBBufferWrites (transactionIdData (CurrentTransactionState s)) XID_COMMIT
              else (fun s => (Ok (), on_my_thread ThreadTransactionReset s)))
       (on_my_thread ThreadTransactionEnd (set_backup TRANS_COMMIT (set_state TRANS_COMMIT s))) = (Ok (), s1) /\
    s' = ended s1.
Proof.
  intros Hd. unfold CommitTransaction, RecordTransactionCommit, xget, xmodify, mbind, XM_bind, mret, XM_ret.
  simpl. rewrite Hd. unfold GetCurrentTransactionId. simpl. rewrite Hd.
  destruct (SharedBufferChanged s).
  - destruct (CommitDBBufferWrites _ _ _) as [[[]|] s1]; [|done]. intros [= <-]. by exists s1.
  - intros [= <-]. eexists. split; [reflexivity|]. done.
Qed.

Lemma AbortTransaction_effect s s' : TransactionSystemDisabled s = false ->
  AbortTransaction s = (Ok (), s') ->
  exists s1, (if SharedBufferChanged s
              then CommitDBBufferWrites (transactionIdData (CurrentTransactionState s)) XID_ABORT
              else (fun s => (Ok (), on_my_thread ThreadTransactionReset s)))
       (set_backup TRANS_ABORT (set_state TRANS_ABORT s)) = (Ok (), s1) /\ s' = ended s1.
Proof.
  intros Hd. unfold AbortTransaction, RecordTransactionAbort, xget, xmodify, mbind, XM_bind, mret, XM_ret.
  simpl. rewrite Hd. unfold GetCurrentTransactionId. simpl. rewrite Hd.
  destruct (SharedBufferChanged s).
  - destruct (CommitDBBufferWrites _ _ _) as [[[]|] s1]; [|done]. intros [= <-]. by exists s1.
  - intros [= <-]. eexists. split; [reflexivity|]. done.
Qed.

Lemma mine_reset (P : THREAD -> Prop) s r g : mine P s ->
  mine idle (ResetThreadState (set_group g (set_log_relation r s))).
Proof.
  intros [H1 H2]. apply (mine_on_my_thread P idle ThreadTransactionReset); [by split|done|done].
Qed.

(** [set_block TBLOCK_DEFAULT] after either end restores the invariant. *)
Lemma end_inv (P : THREAD -> Prop) s r g : TransactionSystemDisabled s = false -> mine P s ->
  xact_inv (set_block TBLOCK_DEFAULT (ended (ResetThreadState (set_group g (set_log_relation r s))))).
Proof.
  intros Hd Hm. split; [done|]. left. split_and!; try done. exact (mine_reset P s r g Hm).
Qed.

(** ** Sessions as step sequences *)

(** What the command loop and the executor do to a session with a transaction of
    its own (a sub-connection, which borrows the one of its parent, has no steps
    here).  [taken] is what [GetSnapshotData] returned.  ROLLBACK appears in its
    block case only; [AbortTransactionBlock_orphans] below treats the other. *)
Inductive xstep : XactSys -> XactSys -> Prop :=
| step_start s s' : StartTransactionCommand s = (Ok (), s') -> xstep s s'
| step_commit s s' : CommitTransactionCommand s = (Ok (), s') -> xstep s s'
| step_begin s : in_block (block_state s) -> IsAbortedTransactionBlockState s = false ->
    xstep s (BeginTransactionBlock s)
| step_commit_block s s' : CommitTransactionBlock s = (Ok (), s') -> xstep s s'
| step_abort_block s : block_state s = TBLOCK_MANUAL \/ block_state s = TBLOCK_ABORTONLY ->
    xstep s (AbortTransactionBlock s)
| step_error s : xstep s (SetAbortOnly s)
| step_increment s s' : CommandCounterIncrement s = (Ok (), s') -> xstep s s'
| step_write s : CurrentXactInProgress s = true -> xstep s (set_changed true s)
| step_query_snapshot s level taken h : CurrentXactInProgress s = true -> iso_supported level ->
    SetQuerySnapshot (snapshot_holder s) level taken = Some h -> xstep s (set_holder h s)
| step_user_snapshot s taken h : CurrentXactInProgress s = true ->
    TakeUserSnapshot (snapshot_holder s) taken = Some (Ok h) -> xstep s (set_holder h s)
| step_drop_snapshot s : xstep s (set_holder (DropUserSnapshot (snapshot_holder s)) s).

Lemma StartTransactionCommand_inv s s' : xact_inv s -> StartTransactionCommand s = (Ok (), s') -> xact_inv s'.
Proof.
  intros Hi. unfold StartTransactionCommand, xget, mbind, XM_bind, mret, XM_ret. simpl.
  destruct (Z.eqb_spec (block_state s) TBLOCK_DEFAULT) as [Hb|]; [|congruence].
  destruct (StartTransaction s) as [[[]|] s1] eqn:Es; [|done]. unfold xmodify. intros [= <-].
  destruct (StartTransaction_inv s s1 Hi Hb Es) as (Hd & Hst & Hm & Hl & _).
  split; [done|]. right. split_and!; [by left|done|exact Hm|done].
Qed.

Lemma CommandCounterIncrement_inv s s' : xact_inv s -> CommandCounterIncrement s = (Ok (), s') ->
  xact_inv s' /\ block_state s' = block_state s.
Proof.
  intros Hi. unfold CommandCounterIncrement, xget, xmodify, xerror, mbind, XM_bind, mret, XM_ret. simpl.
  destruct (TransactionSystemDisabled s); [intros [= <-]; done|].
  destruct (negb _); [done|]. destruct (_ =? FirstCommandId); [done|]. intros [= <-].
  by destruct s as [v [] ? ? ? ? ? ? ? ? ? ? ?].
Qed.

(** Ending a transaction at the command's end. *)
Lemma ending_inv s s' : xact_inv s -> in_block (block_state s) ->
  ((CommitTransaction;; xmodify (set_block TBLOCK_DEFAULT)) s = (Ok (), s') \/
   (AbortTransaction;; xmodify (set_block TBLOCK_DEFAULT)) s = (Ok (), s')) ->
  xact_inv s'.
Proof.
  intros [Hd Hi] Hb Hrun.
  assert (mine (running (transactionIdData (CurrentTransactionState s))) s) as Hm.
  { destruct Hi as [(E & _)|(_ & _ & Hm & _)]; [|done].
    rewrite E in Hb. by destruct Hb as [|[|[|[|]]]]. }
  unfold mbind, XM_bind, xmodify in Hrun. destruct Hrun as [Hrun|Hrun].
  - destruct (CommitTransaction s) as [[[]|] s1] eqn:E; [|done]. injection Hrun as <-.
    destruct (CommitTransaction_effect s s1 Hd E) as (s2 & E2 & ->).
    set (u := on_my_thread _ _) in E2.
    destruct (record_effect (transactionIdData (CurrentTransactionState s)) XID_COMMIT u s2) as (r & g & ->).
    { change (SharedBufferChanged u) with (SharedBufferChanged s). by destruct (SharedBufferChanged s). }
    apply (end_inv (fun _ => True)); [done|].
    destruct Hm as [H1 H2]. by apply (mine_on_my_thread (fun _ => True) (fun _ => True) ThreadTransactionEnd).
  - destruct (AbortTransaction s) as [[[]|] s1] eqn:E; [|done]. injection Hrun as <-.
    destruct (AbortTransaction_effect s s1 Hd E) as (s2 & E2 & ->).
    set (u := set_backup _ _) in E2.
    destruct (record_effect (transactionIdData (CurrentTransactionState s)) XID_ABORT u s2) as (r & g & ->).
    { change (SharedBufferChanged u) with (SharedBufferChanged s). by destruct (SharedBufferChanged s). }
    by eapply end_inv.
Qed.

Lemma CommitTransactionCommand_inv s s' : xact_inv s -> CommitTransactionCommand s = (Ok (), s') -> xact_inv s'.
Proof.
  intros Hi. unfold CommitTransactionCommand, xget, mbind, XM_bind, mret, XM_ret. simpl. intros Hrun.
  unfold TBLOCK_AUTO, TBLOCK_MANUAL, TBLOCK_ABORTONLY, TBLOCK_COMMIT, TBLOCK_ABORT in *.
  repeat match type of Hrun with context [if ?b =? ?c then _ else _] =>
    destruct (Z.eqb_spec b c) as [Hb|_] end; [..|congruence].
  2: by apply (CommandCounterIncrement_inv s s').
  all: apply (ending_inv s s' Hi); [rewrite Hb; unfold in_block, TBLOCK_AUTO, TBLOCK_MANUAL, TBLOCK_ABORTONLY, TBLOCK_COMMIT, TBLOCK_ABORT; lia|auto].
Qed.

(** Moving between block states inside of a transaction. *)
Lemma set_block_inv s b : xact_inv s -> in_block (block_state s) -> in_block b -> xact_inv (set_block b s).
Proof.
  intros [Hd Hi] Hs Hb. split; [done|]. right.
  destruct Hi as [(E & _)|(_ & Hst & Hm & Hl)]; [|by split_and!].
  rewrite E in Hs. by destruct Hs as [|[|[|[|]]]].
Qed.

Lemma xact_inv_block s : xact_inv s -> block_state s <> TBLOCK_DEFAULT -> in_block (block_state s).
Proof. intros [_ [(E & _)|(Hb & _)]] Hne; [congruence|done]. Qed.

Lemma unlock_inv s : xact_inv s -> xact_inv (TransactionUnlock s).
Proof.
  intros [Hd [(E & Hst & Hm & Hl & _ & Hc)|(Hb & Hst & Hm & Hl)]]; (split; [done|]).
  - left. by split_and!.
  - right. by split_and!.
Qed.

Lemma SetAbortOnly_inv s : xact_inv s -> xact_inv (SetAbortOnly s).
Proof.
  intros Hi. unfold SetAbortOnly. apply unlock_inv.
  destruct (Z.eqb_spec (block_state s) TBLOCK_AUTO) as [E|].
  { apply set_block_inv; [done|rewrite E; by left|]. unfold in_block. auto. }
  destruct (Z.eqb_spec (block_state s) TBLOCK_DEFAULT); [done|].
  apply set_block_inv; [done|by apply xact_inv_block|]. unfold in_block. auto 6.
Qed.

Lemma xstep_inv s s' : xact_inv s -> xstep s s' -> xact_inv s'.
Proof.
  intros Hi Hstep. destruct Hstep as [s s' H|s s' H|s Hb Hn|s s' H|s Hb|s|s s' H|s H|s level taken h|s taken h|s].
  - by eapply StartTransactionCommand_inv.
  - by eapply CommitTransactionCommand_inv.
  - unfold BeginTransactionBlock. rewrite (proj1 Hi). apply set_block_inv; [done|done|].
    unfold in_block. auto.
  - revert H. unfold CommitTransactionBlock, xget, xmodify, xerror, mbind, XM_bind, mret, XM_ret.
    rewrite (proj1 Hi). destruct (Z.eqb_spec (block_state s) TBLOCK_MANUAL) as [E|].
    { intros [= <-]. apply set_block_inv; [done|rewrite E|]; unfold in_block; auto. }
    destruct (Z.eqb_spec (block_state s) TBLOCK_ABORTONLY) as [E|]; [|done].
    intros [= <-]. apply set_block_inv; [done|rewrite E|]; unfold in_block; auto 6.
  - unfold AbortTransactionBlock. rewrite (proj1 Hi).
    destruct Hb as [Hb|Hb]; rewrite Hb; simpl; (apply set_block_inv; [done|rewrite Hb|]; unfold in_block; auto 6).
  - by apply SetAbortOnly_inv.
  - by eapply CommandCounterIncrement_inv.
  - destruct Hi as [Hd [(_ & Hst & _)|(Hb & Hst & Hm & Hl)]].
    + unfold CurrentXactInProgress in H. by rewrite Hst in H.
    + split; [done|]. right. by split_and!.
  - exact Hi.
  - exact Hi.
  - exact Hi.
Qed.

(** *** The snapshots of a session *)

(** During a transaction the pointers of the holder are NULL, [SnapshotAny] or
    live; outside of one no snapshot is allocated. *)
Definition snapshots_ok (s : XactSys) : Prop :=
  2 < snap_next (snapshot_holder s) /\
  if CurrentXactInProgress s then holder_inv (snapshot_holder s) else snap_store (snapshot_holder s) = ∅.

Definition session_ok (s : XactSys) : Prop := xact_inv s /\ snapshots_ok s.

Lemma free_context_inv h : 2 < snap_next h -> holder_inv (free_context (FreeXactSnapshot h)).
Proof. intros Hn. split; [|by left]. split; simpl; [done|apply map_Forall_empty|by left|by left]. Qed.

Lemma StartTransaction_holder s s' : TransactionSystemDisabled s = false -> StartTransaction s = (Ok (), s') ->
  snapshot_holder s' = free_context (FreeXactSnapshot (snapshot_holder s)).
Proof.
  intros Hd. unfold StartTransaction, xget, xmodify, TransactionLock, mbind, XM_bind, mret, XM_ret. simpl.
  rewrite Hd. simpl. destruct (GetNewTransactionId (xs_var s)) as [x v]. simpl.
  destruct (shutting_down s); [done|]. by intros [= <-].
Qed.

Lemma record_holder x st s s' : CommitDBBufferWrites x st s = (Ok (), s') -> snapshot_holder s' = snapshot_holder s.
Proof. by intros (r & g & ->)%CommitDBBufferWrites_effect. Qed.

(** Either end frees the snapshots and leaves the state default. *)
Lemma ending_snapshots s s1 : TransactionSystemDisabled s = false ->
  CommitTransaction s = (Ok (), s1) \/ AbortTransaction s = (Ok (), s1) ->
  CurrentXactInProgress s1 = false /\ snapshot_holder s1 = free_context (snapshot_holder s).
Proof.
  intros Hd [E|E]; [apply CommitTransaction_effect in E|apply AbortTransaction_effect in E]; try done;
    destruct E as (s2 & E & ->); (split; [done|]); simpl; f_equal;
    (destruct (SharedBufferChanged s); [by rewrite (record_holder _ _ _ _ E)|by injection E as <-]).
Qed.

Lemma CommitTransactionCommand_snapshots s s' : session_ok s -> CommitTransactionCommand s = (Ok (), s') ->
  snapshots_ok s'.
Proof.
  intros [Hi Hs]. unfold CommitTransactionCommand, xget, mbind, XM_bind, mret, XM_ret. simpl. intros Hrun.
  assert (forall s1, CommitTransaction s = (Ok (), s1) \/ AbortTransaction s = (Ok (), s1) ->
    snapshots_ok (set_block TBLOCK_DEFAULT s1)) as Hend.
  { intros s1 E. destruct (ending_snapshots s s1 (proj1 Hi) E) as [H1 H2]. unfold snapshots_ok.
    change (CurrentXactInProgress (set_block TBLOCK_DEFAULT s1)) with (CurrentXactInProgress s1).
    simpl snapshot_holder. rewrite H1, H2. split; [apply Hs|done]. }
  unfold xmodify in Hrun.
  repeat match type of Hrun with (if ?b =? ?c then _ else _) _ = _ => destruct (b =? c) end;
    try (by injection Hrun as <-);
    try (destruct (CommitTransaction s) as [[[]|] s1]; [|done]; injection Hrun as <-; by auto);
    try (destruct (AbortTransaction s) as [[[]|] s1]; [|done]; injection Hrun as <-; by auto).
  revert Hrun. unfold CommandCounterIncrement, xget, xmodify, xerror, mbind, XM_bind, mret, XM_ret.
  destruct (TransactionSystemDisabled s); [by intros [= <-]|].
  destruct (negb _); [done|]. destruct (_ =? FirstCommandId); [done|]. by intros [= <-].
Qed.

Lemma xstep_session s s' : session_ok s -> xstep s s' -> session_ok s'.
Proof.
  intros Hok Hstep. pose proof Hok as [Hi Hs]. split; [by eapply xstep_inv|].
  destruct Hstep as [s s' H|s s' H|s Hb Hn|s s' H|s Hb|s|s s' H|s H|s level taken h Hp Hl H|s taken h Hp H|s].
  - revert H. unfold StartTransactionCommand, xget, mbind, XM_bind, mret, XM_ret. simpl.
    destruct (Z.eqb_spec (block_state s) TBLOCK_DEFAULT) as [Hb|]; [|congruence].
    destruct (StartTransaction s) as [[[]|] s1] eqn:Es; [|done]. unfold xmodify. intros [= <-].
    destruct (StartTransaction_inv s s1 Hi Hb Es) as (_ & Hst & _). unfold snapshots_ok, CurrentXactInProgress.
    simpl. rewrite Hst, (StartTransaction_holder s s1 (proj1 Hi) Es). simpl.
    split; [apply Hs|apply free_context_inv, Hs].
  - by eapply CommitTransactionCommand_snapshots.
  - unfold BeginTransactionBlock. by destruct (TransactionSystemDisabled s).
  - revert H. unfold CommitTransactionBlock, xget, xmodify, xerror, mbind, XM_bind, mret, XM_ret.
    repeat case_match; by intros [= <-].
  - unfold AbortTransactionBlock. by repeat case_match.
  - unfold SetAbortOnly. by repeat case_match.
  - revert H. unfold CommandCounterIncrement, xget, xmodify, xerror, mbind, XM_bind, mret, XM_ret.
    repeat case_match; by intros [= <-].
  - exact Hs.
  - destruct Hs as [Hn Hs]. unfold snapshots_ok. change (CurrentXactInProgress (set_holder h s)) with (CurrentXactInProgress s).
    rewrite Hp in *. destruct (SetQuerySnapshot_inv (snapshot_holder s) level taken Hs Hl) as (h' & E & Hh).
    rewrite H in E. injection E as <-. split; [apply Hh|exact Hh].
  - destruct Hs as [Hn Hs]. unfold snapshots_ok. change (CurrentXactInProgress (set_holder h s)) with (CurrentXactInProgress s).
    rewrite Hp in *. destruct (TakeUserSnapshot_inv (snapshot_holder s) taken Hs) as (r & E & Hh).
    rewrite H in E. injection E as <-. split; [apply Hh|exact Hh].
  - destruct Hs as [Hn Hs]. split; [done|].
    change (CurrentXactInProgress (set_holder (DropUserSnapshot (snapshot_holder s)) s)) with (CurrentXactInProgress s).
    destruct (CurrentXactInProgress s); [|done]. destruct Hs as [Hs Hq].
    split; [apply set_user_store; [by left|done]|done].
Qed.

(** ** What ending a transaction records *)

Definition xlog (s : XactSys) : LogState := vs_log (xs_var s).

(** One member of the group is one status write. *)
Lemma log_group_cons vc r x st g r' : x <> 0 ->
  TransBlockNumberSetXidStatus vc r x st = Ok r' -> log_group vc r ((x, st) :: g) = log_group vc r' g.
Proof.
  intros Hx. unfold TransBlockNumberSetXidStatus. simpl.
  destruct (Z.eqb_spec x 0); [done|].
  destruct (TransComputeBlockNumber vc r x) as [b|]; [|done]. simpl.
  destruct (ReadBuffer r b); [|done]. by intros [= <-].
Qed.

(** A write to a logged id whose block exists succeeds. *)
Lemma set_status_ok vc r x st : log_wf r -> xid_logged vc x -> is_Some (rd_blocks r !! xid_block vc x) ->
  exists r', TransBlockNumberSetXidStatus vc r x st = Ok r' /\ log_wf r' /\
    dom (rd_blocks r') = dom (rd_blocks r) /\
    forall y, 0 <= y < 2 ^ 64 ->
      TransBlockNumberGetXidStatus vc r' y =
        if x =? y then (fun old => status_after old st) <$> TransBlockNumberGetXidStatus vc r x
        else TransBlockNumberGetXidStatus vc r y.
Proof.
  intros Hwf Hx [b Hb].
  assert (exists r', TransBlockNumberSetXidStatus vc r x st = Ok r') as [r' Hr'].
  { unfold TransBlockNumberSetXidStatus. destruct Hx as (? & ? & ?).
    rewrite compute_block by (apply Hwf || lia). simpl. unfold ReadBuffer. rewrite Hb. eauto. }
  exists r'. split; [done|]. destruct (set_rel_wf vc r x st r' Hwf Hx Hr') as [Hwf' Hd].
  split; [done|]. split; [done|]. intros y Hy. by apply set_get_rel.
Qed.

(** The group's ids are logged; [x] is not one of them. *)
Definition group_ok (vc : VariableCacheData) (r : Relation) (x : Z) (g : list (Z * Z)) : Prop :=
  Forall (fun p => xid_logged vc p.1 /\ is_Some (rd_blocks r !! xid_block vc p.1) /\ p.1 <> x) g.

Lemma log_group_spec vc x g : forall r, log_wf r -> xid_logged vc x ->
  is_Some (rd_blocks r !! xid_block vc x) -> group_ok vc r x g ->
  exists r', log_group vc r (g ++ [(x, XID_COMMIT)]) = Ok r' /\
    TransBlockNumberGetXidStatus vc r' x =
      (fun old => status_after old XID_COMMIT) <$> TransBlockNumberGetXidStatus vc r x /\
    forall y, 0 <= y < 2 ^ 64 -> y <> x -> y ∉ map fst g ->
      TransBlockNumberGetXidStatus vc r' y = TransBlockNumberGetXidStatus vc r y.
Proof.
  induction g as [|[z st] g IH]; intros r Hwf Hx Hb Hg.
  - destruct (set_status_ok vc r x XID_COMMIT Hwf Hx Hb) as (r' & Hr & _ & _ & Hst).
    exists r'. destruct Hx as (Hx1 & Hx2 & Hx3). simpl app.
    rewrite (log_group_cons vc r x XID_COMMIT [] r') by (lia || done). split; [done|]. split.
    + rewrite Hst by lia. by rewrite Z.eqb_refl.
    + intros y Hy Hne _. rewrite Hst by done. by destruct (Z.eqb_spec x y); [congruence|].
  - apply Forall_cons in Hg as [(Hz & Hzb & Hzx) Hg]. simpl in Hz, Hzb, Hzx.
    destruct (set_status_ok vc r z st Hwf Hz Hzb) as (r1 & Hr & Hwf1 & Hd & Hst).
    destruct (IH r1) as (r' & Hr' & Hxs & Hys); [done|done| | |].
    + apply elem_of_dom. rewrite Hd. by apply elem_of_dom.
    + eapply Forall_impl; [exact Hg|]. simpl. intros p (H1 & H2 & H3). split; [done|]. split; [|done].
      apply elem_of_dom. rewrite Hd. by apply elem_of_dom.
    + exists r'. destruct Hz as (? & ? & ?). destruct Hx as (? & ? & ?).
      simpl app. rewrite (log_group_cons vc r z st _ r1) by (lia || done). split; [done|].
      rewrite Hxs, Hst by lia. destruct (Z.eqb_spec z x); [done|]. split; [done|].
      intros y Hy Hyx Hyg. simpl in Hyg. rewrite not_elem_of_cons in Hyg. destruct Hyg. rewrite Hys by done.
      rewrite Hst by done. by destruct (Z.eqb_spec z y); [congruence|].
Qed.

(** The status an ending transaction gets. *)
Definition final_status (s : XactSys) (setstate : Z) : Z :=
  if setstate =? XID_COMMIT then if careful s then XID_COMMIT else XID_SOFT_COMMIT else setstate.

Lemma CommitDBBufferWrites_log s x setstate : TransactionSystemDisabled s = false ->
  bootstrap (xs_var s) = false ->
  log_wf (log_relation s) -> xid_logged (vcache (xs_var s)) x ->
  is_Some (rd_blocks (log_relation s) !! xid_block (vcache (xs_var s)) x) ->
  group_ok (vcache (xs_var s)) (log_relation s) x (write_group s) ->
  setstate = XID_COMMIT \/ setstate = XID_ABORT ->
  log_status (xlog s) x = Ok XID_INPROGRESS ->
  exists s', CommitDBBufferWrites x setstate s = (Ok (), s') /\
    log_status (xlog s') x = Ok (final_status s setstate) /\
    forall y, 0 <= y < 2 ^ 64 -> y <> x -> y ∉ map fst (write_group s) ->
      log_status (xlog s') y = log_status (xlog s) y.
Proof.
  intros Hd Hboot Hwf Hx Hb Hg Hset Hst.
  unfold CommitDBBufferWrites, final_status, xget, xmodify, xlift, mbind, XM_bind, mret, XM_ret.
  destruct (decide (setstate = XID_COMMIT /\ careful s = true)) as [[-> Hcare]|Hsoft].
  - simpl. rewrite Hcare, orb_true_r. unfold LogTransactions. simpl. rewrite Hboot.
    destruct (log_group_spec (vcache (xs_var s)) x (write_group s) (log_relation s) Hwf Hx Hb Hg)
      as (r & Hr & Hxs & Hys).
    match goal with |- context [log_group ?a ?b ?c] =>
      replace (log_group a b c) with (Ok r) by (symmetry; exact Hr) end.
    eexists. split; [reflexivity|]. split; [|exact Hys].
    unfold log_status, xlog in *. simpl. etransitivity; [exact Hxs|].
    change (LogRelation (vs_log (xs_var s))) with (log_relation s) in Hst.
    change (ShmemVariableCache (vs_log (xs_var s))) with (vcache (xs_var s)) in Hst. by rewrite Hst.
  - set (st := if setstate =? XID_COMMIT then XID_SOFT_COMMIT else setstate).
    destruct (set_status_ok (vcache (xs_var s)) (log_relation s) x st Hwf Hx Hb) as (r & Hr & _ & _ & Hys).
    assert (forall s1, xs_var s1 = xs_var s ->
      log_status (xlog (ResetThreadState (set_log_relation r s1))) x =
        Ok (if setstate =? XID_COMMIT then if careful s then XID_COMMIT else XID_SOFT_COMMIT else setstate) /\
      (forall y, 0 <= y < 2 ^ 64 -> y <> x ->
        log_status (xlog (ResetThreadState (set_log_relation r s1))) y = log_status (xlog s) y)) as Hdone.
    { intros s1 Hs1. unfold log_status, xlog in *. simpl. rewrite Hs1.
      change (ShmemVariableCache (vs_log (xs_var s))) with (vcache (xs_var s)) in *.
      change (LogRelation (vs_log (xs_var s))) with (log_relation s) in *. split.
      - destruct Hx as (? & ? & ?). rewrite Hys by lia. rewrite Z.eqb_refl, Hst. simpl. subst st.
        destruct Hset as [-> | ->]; [|done]. destruct (careful s); [|done]. by destruct Hsoft.
      - intros y Hy Hne. rewrite Hys by done. by destruct (Z.eqb_spec x y); [congruence|]. }
    destruct (setstate =? XID_COMMIT) eqn:Eset; simpl.
    + rewrite Hd. destruct (careful s) eqn:Ec.
      { apply Z.eqb_eq in Eset. by destruct Hsoft. }
      simpl. change (log_relation (set_group _ s)) with (log_relation s). subst st.
      rewrite Hr. eexists. split; [reflexivity|].
      destruct (Hdone (set_group (write_group s ++ [(x, setstate)]) s) eq_refl) as [H1 H2]. split; auto.
    + subst st. rewrite Hr. eexists. split; [reflexivity|]. destruct (Hdone s eq_refl) as [H1 H2]. split; auto.
Qed.

(** Both ends of a transaction that changed shared buffers, with what they record. *)
Definition end_status (b : Z) : Z :=
  if (b =? TBLOCK_AUTO) || (b =? TBLOCK_COMMIT) then XID_COMMIT else XID_ABORT.

Lemma ending_log (s : XactSys) (commit : bool) : xact_inv s -> in_block (block_state s) ->
  SharedBufferChanged s = true -> bootstrap (xs_var s) = false -> log_wf (log_relation s) ->
  let x := transactionIdData (CurrentTransactionState s) in
  xid_logged (vcache (xs_var s)) x ->
  is_Some (rd_blocks (log_relation s) !! xid_block (vcache (xs_var s)) x) ->
  group_ok (vcache (xs_var s)) (log_relation s) x (write_group s) ->
  log_status (xlog s) x = Ok XID_INPROGRESS ->
  exists s1, (if commit then CommitTransaction else AbortTransaction) s = (Ok (), s1) /\
    log_status (xlog s1) x = Ok (final_status s (if commit then XID_COMMIT else XID_ABORT)) /\
    forall y, 0 <= y < 2 ^ 64 -> y <> x -> y ∉ map fst (write_group s) ->
      log_status (xlog s1) y = log_status (xlog s) y.
Proof.
  intros [Hd _] Hb Hch Hboot Hwf x Hx Hblk Hg Hst.
  set (u := if commit then on_my_thread ThreadTransactionEnd (set_backup TRANS_COMMIT (set_state TRANS_COMMIT s))
            else set_backup TRANS_ABORT (set_state TRANS_ABORT s)).
  destruct (CommitDBBufferWrites_log u x (if commit then XID_COMMIT else XID_ABORT)) as (s2 & E & H1 & H2).
  1-6: by destruct commit.
  1: destruct commit; auto.
  1: by destruct commit.
  exists (ended s2). split.
  - destruct commit.
    + unfold CommitTransaction, RecordTransactionCommit, GetCurrentTransactionId, xget, xmodify, mbind, XM_bind.
      simpl. rewrite Hd. simpl. rewrite Hch, Hd. fold x. change (on_my_thread _ _) with u.
      by rewrite E.
    + unfold AbortTransaction, RecordTransactionAbort, GetCurrentTransactionId, xget, xmodify, mbind, XM_bind.
      simpl. rewrite Hd. simpl. rewrite Hch, Hd. fold x. change (set_backup _ _) with u. by rewrite E.
  - assert (final_status u = final_status s) as Hf by (by destruct commit).
    rewrite Hf in H1. split; [exact H1|]. intros y Hy Hne Hin.
    transitivity (log_status (xlog u) y); [|by destruct commit].
    apply H2; [done|done|]. by destruct commit.
Qed.

(** ** Properties *)


(** C11 The end of a transaction records its outcome and nothing else: when the
    command loop ends a transaction that changed shared buffers,
    [CommitTransactionCommand] succeeds; the id's status becomes a hard commit
    (careful mode, after the writer logged the group), a soft commit (otherwise)
    or an abort, as the block state demands; other statuses outside of the
    writer's group keep their value, the locks and the snapshots are released and
    the session is idle again. *)
Theorem transaction_outcome s : session_ok s -> in_block (block_state s) -> block_state s <> TBLOCK_MANUAL ->
  SharedBufferChanged s = true -> bootstrap (xs_var s) = false -> log_wf (log_relation s) ->
  let x := transactionIdData (CurrentTransactionState s) in
  xid_logged (vcache (xs_var s)) x ->
  is_Some (rd_blocks (log_relation s) !! xid_block (vcache (xs_var s)) x) ->
  group_ok (vcache (xs_var s)) (log_relation s) x (write_group s) ->
  log_status (xlog s) x = Ok XID_INPROGRESS ->
  exists s', CommitTransactionCommand s = (Ok (), s') /\
    log_status (xlog s') x = Ok (final_status s (end_status (block_state s))) /\
    (forall y, 0 <= y < 2 ^ 64 -> y <> x -> y ∉ map fst (write_group s) ->
       log_status (xlog s') y = log_status (xlog s) y) /\
    block_state s' = TBLOCK_DEFAULT /\ xact_locks s' = [] /\ transaction_lock s' = false /\
    snap_store (snapshot_holder s') = ∅ /\ mine idle s' /\ session_ok s'.
Proof.
  intros [Hi Hsn] Hb Hnm Hch Hboot Hwf x Hx Hblk Hg Hst.
  set (c := (block_state s =? TBLOCK_AUTO) || (block_state s =? TBLOCK_COMMIT)).
  destruct (ending_log s c Hi Hb Hch Hboot Hwf Hx Hblk Hg Hst) as (s1 & E & H1 & H2).
  assert (CommitTransactionCommand s = (Ok (), set_block TBLOCK_DEFAULT s1)) as Hrun.
  { unfold CommitTransactionCommand, xget, xmodify, mbind, XM_bind. subst c. clear -Hb Hnm E.
    destruct Hb as [Hb|[Hb|[Hb|[Hb|Hb]]]]; [|done|..]; rewrite Hb in *; simpl in *; by rewrite E. }
  exists (set_block TBLOCK_DEFAULT s1). split; [done|]. split.
  { etransitivity; [exact H1|]. unfold end_status. fold c. by destruct c. }
  assert (session_ok (set_block TBLOCK_DEFAULT s1)) as Hok.
  { by split; [eapply CommitTransactionCommand_inv|eapply CommitTransactionCommand_snapshots]. }
  split; [exact H2|]. split; [done|].
  pose proof Hok as [[_ [(_ & Ets & Hm & Hl & Htl & _)|(Hb' & _)]] [_ Hst']]; [|by destruct Hb' as [|[|[|[|]]]]].
  unfold CurrentXactInProgress in Hst'. rewrite Ets in Hst'. by split_and!.
Qed.

(** An aborted block cannot commit: once an error has marked a transaction
    (abort or abort-only), every step of the session leaves it so marked with
    the same id, except the one that ends it by [AbortTransaction]. *)
Theorem aborted_block_only_aborts s s' : xact_inv s -> IsAbortedTransactionBlockState s = true ->
  xstep s s' ->
  (IsAbortedTransactionBlockState s' = true /\
   transactionIdData (CurrentTransactionState s') = transactionIdData (CurrentTransactionState s)) \/
  exists s1, AbortTransaction s = (Ok (), s1) /\ s' = set_block TBLOCK_DEFAULT s1.
Proof.
  intros Hi Ha Hstep. unfold IsAbortedTransactionBlockState in Ha.
  assert (block_state s = TBLOCK_ABORT \/ block_state s = TBLOCK_ABORTONLY) as Hb.
  { apply orb_true_iff in Ha as [Ha|Ha]; bool_cases; auto. }
  destruct Hstep as [s s' H|s s' H|s Hb' Hn|s s' H|s Hb'|s|s s' H|s H|s level taken h|s taken h|s].
  - revert H. unfold StartTransactionCommand, xget, mbind, XM_bind, mret, XM_ret. simpl.
    destruct Hb as [Hb|Hb]; rewrite Hb; simpl; intros [= <-]; left; (split; [exact Ha|done]).
  - right. revert H. unfold CommitTransactionCommand, xget, xmodify, mbind, XM_bind. simpl.
    destruct Hb as [Hb|Hb]; rewrite Hb; simpl;
      (destruct (AbortTransaction s) as [[[]|] s1]; [|done]); intros [= <-]; by exists s1.
  - unfold IsAbortedTransactionBlockState in Hn. congruence.
  - left. revert H. unfold CommitTransactionBlock, xget, xmodify, xerror, mbind, XM_bind.
    rewrite (proj1 Hi). destruct Hb as [Hb|Hb]; rewrite Hb; simpl; [done|]. by intros [= <-].
  - left. unfold AbortTransactionBlock. rewrite (proj1 Hi). by destruct Hb' as [E|E]; rewrite E.
  - left. unfold SetAbortOnly. by destruct Hb as [Hb|Hb]; rewrite Hb.
  - left. destruct (CommandCounterIncrement_inv s s' Hi H) as [_ Hbs].
    unfold IsAbortedTransactionBlockState. rewrite Hbs. split; [done|].
    revert H. unfold CommandCounterIncrement, xget, xmodify, xerror, mbind, XM_bind, mret, XM_ret. simpl.
    destruct (TransactionSystemDisabled s); [by intros [= <-]|].
    destruct (negb _); [done|]. destruct (_ =? FirstCommandId); [done|]. by intros [= <-].
  - by left.
  - by left.
  - by left.
  - by left.
Qed.

(** ROLLBACK outside of a block leaves its transaction running: the command
    loop has started a transaction for the command, [AbortTransactionBlock] sets
    the block state to default without ending it, and [CommitTransactionCommand]
    then does nothing; the id stays published and locked although the session
    is outside of any block. *)
Theorem AbortTransactionBlock_orphans s : xact_inv s -> block_state s = TBLOCK_AUTO ->
  let s' := AbortTransactionBlock s in
  CommitTransactionCommand s' = (Ok (), s') /\ block_state s' = TBLOCK_DEFAULT /\
  CurrentXactInProgress s' = true /\
  mine (running (transactionIdData (CurrentTransactionState s))) s' /\
  xact_locks s' = [transactionIdData (CurrentTransactionState s)] /\ ~ xact_inv s'.
Proof.
  intros Hi Hb. unfold AbortTransactionBlock. rewrite (proj1 Hi), Hb. simpl.
  destruct Hi as [Hd [(E & _)|(_ & Hst & Hm & Hl)]]; [by rewrite Hb in E|].
  split; [done|]. split; [done|]. split; [unfold CurrentXactInProgress; simpl; by rewrite Hst|].
  split; [exact Hm|]. split; [done|].
  intros [_ [(_ & Hst' & _)|(Hb' & _)]]; [simpl in Hst'; by rewrite Hst in Hst'|].
  by destruct Hb' as [|[|[|[|]]]].
Qed.

(** ** Witnesses *)

(** A session of thread 1 over the log of [TransLog.demo_log]; 600 waits in the
    writer's group. *)
Definition demo_session (t : THREAD) (ts : TransactionStateData) (changed : bool) (locks : list Z)
    (h : SnapshotHolder) : XactSys :=
  mkXact (with_log demo_sys (set_procs demo_log [Some t])) ts false changed false TRANS_DEFAULT 1
    h false locks false true [(600, XID_COMMIT)].
Definition demo_idle : XactSys :=
  demo_session (mkTHREAD 1 0 0 TRANS_DEFAULT NORMAL_THREAD 7) (mkTS 0 0 0 TRANS_DEFAULT TBLOCK_DEFAULT) false []
    (free_context demo_holder).
Definition demo_busy (b : Z) : XactSys :=
  demo_session (mkTHREAD 1 603 603 TRANS_START NORMAL_THREAD 7) (mkTS 603 2 2 TRANS_INPROGRESS b) true [603]
    demo_holder.

Lemma demo_idle_inv : xact_inv demo_idle.
Proof.
  split; [reflexivity|]. left. do 2 (split; [reflexivity|]). split; [|by split_and!]. split.
  - eexists. split; [left|reflexivity].
  - intros t Ht _. apply list_elem_of_singleton in Ht. injection Ht as ->. by split_and!.
Qed.

Lemma demo_busy_inv b : in_block b -> xact_inv (demo_busy b).
Proof.
  intros Hb. split; [reflexivity|]. right. split; [exact Hb|]. split; [reflexivity|]. split; [|done]. split.
  - eexists. split; [left|reflexivity].
  - intros t Ht _. apply list_elem_of_singleton in Ht. injection Ht as ->. by split_and!.
Qed.

Lemma demo_idle_ok : session_ok demo_idle.
Proof. split; [exact demo_idle_inv|]. by split. Qed.

Lemma demo_busy_ok b : in_block b -> session_ok (demo_busy b).
Proof.
  intros Hb. split; [by apply demo_busy_inv|]. split; [done|]. split; [split; [done| |by left|right; by eexists]|].
  - apply map_Forall_insert_2; [done|]. by apply map_Forall_singleton.
  - right; right. by eexists.
Qed.

(** A command that takes a snapshot and fails. *)
Definition demo_started : XactSys := (StartTransactionCommand demo_idle).2.
Definition demo_with_snapshot : XactSys :=
  set_holder (default demo_holder (SetQuerySnapshot (snapshot_holder demo_started) XACT_SERIALIZABLE demo_snap)) demo_started.


Lemma transaction_outcome_witness : exists s',
  CommitTransactionCommand (demo_busy TBLOCK_COMMIT) = (Ok (), s') /\
  log_status (xlog s') 603 = Ok XID_COMMIT /\ block_state s' = TBLOCK_DEFAULT.
Proof.
  assert (forall x, 514 <= x <= 603 -> xid_logged (vcache (xs_var (demo_busy TBLOCK_COMMIT))) x /\
    xid_block (vcache (xs_var (demo_busy TBLOCK_COMMIT))) x = 0) as Hlog.
  { intros x Hx. assert (xid_block (vcache (xs_var (demo_busy TBLOCK_COMMIT))) x = 0) as Hb.
    { unfold xid_block, TP_NumXidStatusPerBlock, TP_DataSize, BLCKSZ. simpl.
      rewrite !Z.div_small by lia. reflexivity. }
    split; [|exact Hb]. unfold xid_logged. rewrite Hb. simpl. lia. }
  destruct (transaction_outcome (demo_busy TBLOCK_COMMIT)) as (s' & H1 & H2 & _ & H3 & _).
  - apply demo_busy_ok. unfold in_block. auto.
  - unfold in_block. auto.
  - discriminate.
  - reflexivity.
  - reflexivity.
  - exact (li_wf _ demo_log_inv).
  - apply Hlog. simpl. lia.
  - vm_compute. eexists. reflexivity.
  - apply Forall_singleton. destruct (Hlog 600 ltac:(lia)) as [G1 G2].
    split; [exact G1|]. split; [|discriminate]. vm_compute. eexists. reflexivity.
  - vm_compute. reflexivity.
  - exists s'. split; [exact H1|]. split; [exact H2|exact H3].
Defined.

Lemma aborted_block_only_aborts_witness :
  let s := demo_busy TBLOCK_ABORTONLY in
  (IsAbortedTransactionBlockState (AbortTransactionBlock s) = true /\
   transactionIdData (CurrentTransactionState (AbortTransactionBlock s)) = 603) \/
  exists s1, AbortTransaction s = (Ok (), s1) /\ AbortTransactionBlock s = set_block TBLOCK_DEFAULT s1.
Proof.
  apply (aborted_block_only_aborts (demo_busy TBLOCK_ABORTONLY)).
  - apply demo_busy_inv. unfold in_block. auto 6.
  - reflexivity.
  - apply step_abort_block. right. reflexivity.
Defined.

Lemma AbortTransactionBlock_orphans_witness :
  CurrentXactInProgress (AbortTransactionBlock (demo_busy TBLOCK_AUTO)) = true /\
  block_state (AbortTransactionBlock (demo_busy TBLOCK_AUTO)) = TBLOCK_DEFAULT.
Proof.
  destruct (AbortTransactionBlock_orphans (demo_busy TBLOCK_AUTO)) as (_ & H1 & H2 & _).
  - apply demo_busy_inv. unfold in_block. auto.
  - reflexivity.
  - split; [exact H2|exact H1].
Defined.
