(* ===== verification/Bufpage.v ===== *)
(** * Disk pages: storage/page/bufpage.c, storage/bufpage.h, itemid.h, off.h

    A page has a header, an array of line pointers growing up from the header,
    tuple data growing down from the special space, and free space in between.
    The operations are modelled on the header fields, the line pointer array and
    the bytes of the page; the abstract page is the list of its items. *)

From S2P Require Import Prelude.
From Stdlib Require Import Sorting.Sorted.

Definition BLCKSZ : Z := 8192.
Definition sizeof_ItemIdData : Z := 8.
(** Offset of [pd_linp] in [PageHeaderData]: checksum 8, three [LocationIndex] and
    [od_pagesize] 4 each. *)
Definition linp_offset : Z := 24.

Definition InvalidOffsetNumber : Z := 0.
Definition MaxOffsetNumber : Z := BLCKSZ / sizeof_ItemIdData.
Definition OffsetNumberIsValid (o : Z) : bool :=
  negb (o =? InvalidOffsetNumber) && (o <=? MaxOffsetNumber).
Definition OffsetNumberNext (o : Z) : Z := u16 (1 + o).

Definition LP_USED : Z := 1.
Definition InvalidCRC64 : Z := 0.
Definition InitCRC64 : Z := 1.


Record ItemIdData := mkItemId { lp_off : Z; lp_pad : Z; lp_len : Z; lp_flags : Z; lp_overflow : Z }.
Definition no_item : ItemIdData := mkItemId 0 0 0 0 0.

(** The line pointer array and the bytes are kept apart: in C they share memory,
    but the array ends at [pd_lower] and the data starts at [pd_upper]. *)
Record Page := mkPage {
  checksum : Z; pd_lower : Z; pd_upper : Z; pd_special : Z; od_pagesize : Z;
  pd_linp : Z -> ItemIdData; bytes : Z -> Z }.

Definition set_linp (p : Page) (l : Z -> ItemIdData) : Page :=
  mkPage (checksum p) (pd_lower p) (pd_upper p) (pd_special p) (od_pagesize p) l (bytes p).
Definition set_bytes (p : Page) (b : Z -> Z) : Page :=
  mkPage (checksum p) (pd_lower p) (pd_upper p) (pd_special p) (od_pagesize p) (pd_linp p) b.
Definition set_bounds (p : Page) (lower upper : Z) : Page :=
  mkPage (checksum p) lower upper (pd_special p) (od_pagesize p) (pd_linp p) (bytes p).
Definition set_checksum (p : Page) (c : Z) : Page :=
  mkPage c (pd_lower p) (pd_upper p) (pd_special p) (od_pagesize p) (pd_linp p) (bytes p).

(** [memmove(page + dst, src, n)]: [src] is read before anything is written. *)
Definition memmove (mem : Z -> Z) (dst : Z) (src : Z -> Z) (n : Z) : Z -> Z :=
  fun i => if (dst <=? i) && (i <? dst + n) then src (i - dst) else mem i.

(** ** Operations *)

Definition PageInit (pageSize specialSize : Z) (p : Page) : Page :=
  let specialSize := MAXALIGN specialSize in
  mkPage InitCRC64 linp_offset (u32 (pageSize - specialSize)) (u32 (pageSize - specialSize)) (u32 pageSize)
    (pd_linp p) (bytes p).

Definition PageGetMaxOffsetNumber (p : Page) : Z :=
  if pd_lower p <=? linp_offset then 0
  else u16 ((pd_lower p - linp_offset) / MAXALIGN sizeof_ItemIdData).

Definition PageSetLinePointerCount (p : Page) (loc : Z) : Page :=
  set_bounds p (u32 (loc * MAXALIGN sizeof_ItemIdData + linp_offset)) (pd_upper p).

Definition PageIsEmpty (p : Page) : bool := linp_offset >=? pd_lower p.

(** [for (i = limit - 1; i >= offsetNumber; i--) pd_linp[i] = pd_linp[i - 1]]:
    [n] iterations are left. *)
Fixpoint shuffle_loop (n : nat) (i : Z) (l : Z -> ItemIdData) : Z -> ItemIdData :=
  match n with
  | O => l
  | S n => shuffle_loop n (i - 1) (upd l i (l (i - 1)))
  end.

(** "Recyclable": unused and deallocated. *)
Definition recyclable (it : ItemIdData) : bool := negb (lp_flags it .& LP_USED) && (lp_len it =? 0).

(** [for (offsetNumber = 1; offsetNumber < limit; offsetNumber++)] with its
    [break]; [n] candidates are left. *)
Fixpoint find_slot (n : nat) (o : Z) (l : Z -> ItemIdData) : Z :=
  match n with
  | O => o
  | S n => if recyclable (l (o - 1)) then o else find_slot n (o + 1) l
  end.

(** [shuffle] is [PageManagerShuffle], [flags] a byte.  The page is returned on
    failure too: shuffled line pointers stay shuffled. *)
Definition PageAddItem (shuffle : bool) (p : Page) (item : Z -> Z) (size offsetNumber flags : Z)
    : result (Z * Page) :=
  let limit := OffsetNumberNext (PageGetMaxOffsetNumber p) in
  r ← (if OffsetNumberIsValid offsetNumber then
         if shuffle then
           Ok (offsetNumber, true,
               set_linp p (shuffle_loop (Z.to_nat (limit - offsetNumber)) (limit - 1) (pd_linp p)))
         else
           let it := pd_linp p (offsetNumber - 1) in
           if (lp_flags it .& LP_USED) || negb (lp_len it =? 0)
           then Err "PageAddItem: tried overwrite of used ItemId"
           else Ok (offsetNumber, false, p)
       else Ok (find_slot (Z.to_nat (limit - 1)) 1 (pd_linp p), false, p));
  let '(offsetNumber, shuffled, p) := r in
  let lower := if offsetNumber >? limit then linp_offset + sizeof_ItemIdData * offsetNumber
               else if (offsetNumber =? limit) || shuffled then i32 (pd_lower p + sizeof_ItemIdData)
               else i32 (pd_lower p) in
  let upper := i32 (pd_upper p - MAXALIGN size) in
  if lower >? upper then Ok (InvalidOffsetNumber, p)
  else
    let it := pd_linp p (offsetNumber - 1) in
    let p := set_linp p (upd (pd_linp p) (offsetNumber - 1)
               (mkItemId (u16 upper) (lp_pad it) (u16 size) flags (lp_overflow it))) in
    let p := set_bytes p (memmove (bytes p) upper item size) in
    Ok (offsetNumber, set_bounds p (u32 lower) (u32 upper)).

(** A copy with the items cleared. *)
Definition PageGetTempPage (p : Page) (specialSize : Z) : Page :=
  let pageSize := od_pagesize p in
  let size := pageSize - linp_offset - MAXALIGN specialSize in
  mkPage (checksum p) linp_offset (u32 (pageSize - MAXALIGN specialSize)) (pd_special p) pageSize
    (fun i => if linp_offset + sizeof_ItemIdData * (i + 1) <=? linp_offset + size then no_item else pd_linp p i)
    (fun i => if (linp_offset <=? i) && (i <? linp_offset + size) then 0 else bytes p i).

(** The copy back of the whole page. *)
Definition PageRestoreTempPage (tempPage oldPage : Page) : Page := tempPage.

(** [for (i = nline; i > 0; i--)]: the last line pointer in use or holding space. *)
Fixpoint last_kept (n : nat) (l : Z -> ItemIdData) : Z :=
  match n with
  | O => 0
  | S m => let it := l (Z.of_nat m) in
           if (lp_flags it .& LP_USED) || (lp_len it >? 0) then Z.of_nat n else last_kept m l
  end.

Definition PageCompactPage (p : Page) : Z * Page :=
  let nline := PageGetMaxOffsetNumber p in
  if nline =? 0 then (0, p)
  else
    let i := last_kept (Z.to_nat nline) (pd_linp p) in
    (i, if negb (i =? nline) then PageSetLinePointerCount p i else p).

(** The indices of the used line pointers below [n], in order. *)
Fixpoint used_indices (n : nat) (l : Z -> ItemIdData) : list Z :=
  match n with
  | O => []
  | S m => used_indices m l ++ (if lp_flags (l (Z.of_nat m)) .& LP_USED then [Z.of_nat m] else [])
  end.

(** [qsort] by descending [lp_off] ([itemidcompare]). *)
Fixpoint insert_desc (l : Z -> ItemIdData) (i : Z) (s : list Z) : list Z :=
  match s with
  | [] => [i]
  | j :: s => if lp_off (l i) >=? lp_off (l j) then i :: j :: s else j :: insert_desc l i s
  end.
Fixpoint sort_desc (l : Z -> ItemIdData) (s : list Z) : list Z :=
  match s with [] => [] | i :: s => insert_desc l i (sort_desc l s) end.

(** [lp->lp_len = 0] for the unused line pointers below [n]. *)
Definition clear_unused (n : Z) (l : Z -> ItemIdData) : Z -> ItemIdData :=
  fun i => let it := l i in
    if (0 <=? i) && (i <? n) && negb (lp_flags it .& LP_USED)
    then mkItemId (lp_off it) (lp_pad it) 0 (lp_flags it) (lp_overflow it) else it.

Definition set_off (it : ItemIdData) (off : Z) : ItemIdData :=
  mkItemId (u16 off) (lp_pad it) (lp_len it) (lp_flags it) (lp_overflow it).

(** One round of the compaction loop. *)
Definition compact_one (p : Page) (i : Z) : Page :=
  let it := pd_linp p i in
  let upper := i32 (pd_upper p - MAXALIGN (lp_len it)) in
  let p := set_bytes p (memmove (bytes p) upper (fun k => bytes p (lp_off it + k)) (lp_len it)) in
  set_bounds (set_linp p (upd (pd_linp p) i (set_off it upper))) (pd_lower p) (u32 upper).

(** Returns the number of line pointers not in use. *)
Definition PageRepairFragmentation (p : Page) : Z * Page :=
  let nline := PageGetMaxOffsetNumber p in
  let used := used_indices (Z.to_nat nline) (pd_linp p) in
  let free := nline - Zlen used in
  let p := set_linp p (clear_unused nline (pd_linp p)) in
  let p := set_bounds p (pd_lower p) (pd_special p) in
  (free, match used with
         | [] => p
         | _ => fold_left compact_one (sort_desc (pd_linp p) used) p
         end).

Definition PageGetFreeSpace (p : Page) : Z :=
  if pd_upper p <? pd_lower p then 0
  else
    let space := pd_upper p - pd_lower p in
    if space <? sizeof_ItemIdData then 0 else space - sizeof_ItemIdData.

Inductive PageManagerMode : Type := ShufflePageManagerMode | OverwritePageManagerMode.
Definition PageManagerModeSet (mode : PageManagerMode) : bool :=
  match mode with ShufflePageManagerMode => true | OverwritePageManagerMode => false end.

(** [for (i = max - 1; i >= 0; i--)]; [offset] and [lp_off] are unsigned. *)
Fixpoint adjust_loop (n : nat) (offset size : Z) (l : Z -> ItemIdData) : Z -> ItemIdData :=
  match n with
  | O => l
  | S m => let i := Z.of_nat m in
           adjust_loop m offset size
             (if lp_off (l i) <=? offset then upd l i (set_off (l i) (lp_off (l i) + size)) else l)
  end.

Definition PageIndexTupleDeleteAdjustLinePointers (p : Page) (offset size : Z) : Page :=
  set_linp p (adjust_loop (Z.to_nat (PageGetMaxOffsetNumber p)) offset size (pd_linp p)).

(** [nbytes] is a whole number of line pointers: the slots above [offidx] up to
    [pd_lower] move down by one. *)
Definition PageIndexTupleDelete (p : Page) (offnum : Z) : Page :=
  let offidx := offnum - 1 in
  let tup := pd_linp p offidx in
  let size := MAXALIGN (lp_len tup) in
  let locn := lp_off tup in
  let moved := (pd_lower p - (linp_offset + sizeof_ItemIdData * (offidx + 1))) / sizeof_ItemIdData in
  let p := set_linp p (fun i => if (offidx <=? i) && (i <? offidx + moved)
                                then pd_linp p (i + 1) else pd_linp p i) in
  let addr := pd_upper p in
  let p := if negb (locn =? addr)
           then set_bytes p (memmove (bytes p) (addr + size) (fun k => bytes p (addr + k)) (locn - addr))
           else p in
  let p := set_bounds p (u32 (pd_lower p - sizeof_ItemIdData)) (u32 (pd_upper p + size)) in
  if negb (PageIsEmpty p) then PageIndexTupleDeleteAdjustLinePointers p locn size else p.

(** ** The abstract page: the list of its items *)

Definition used (it : ItemIdData) : bool := lp_flags it .& LP_USED.

Definition item_bytes (p : Page) (it : ItemIdData) : list Z :=
  map (fun k => bytes p (lp_off it + k)) (seqZ 0 (lp_len it)).

(** A slot holds an item when its line pointer is used. *)
Definition slot (p : Page) (i : Z) : option (list Z) :=
  let it := pd_linp p i in if used it then Some (item_bytes p it) else None.

(** The number of line pointers. *)
Definition nlines (p : Page) : Z := (pd_lower p - linp_offset) / sizeof_ItemIdData.

Definition items (p : Page) : list (option (list Z)) := map (slot p) (seqZ 0 (nlines p)).

(** The extent of an item, alignment included. *)
Definition item_end (it : ItemIdData) : Z := lp_off it + MAXALIGN (lp_len it).

Definition disjoint (a b : ItemIdData) : Prop := item_end a <= lp_off b \/ item_end b <= lp_off a.

(** The used line pointers among [D] have aligned, pairwise disjoint extents
    within [lo, hi). *)
Record lines_ok (lo hi : Z) (D : Z -> Prop) (l : Z -> ItemIdData) : Prop := {
  lo_in : forall i, D i -> used (l i) = true ->
    (8 | lp_off (l i)) /\ lo <= lp_off (l i) /\ 0 <= lp_len (l i) /\ item_end (l i) <= hi;
  lo_disjoint : forall i j, D i -> D j -> i <> j -> used (l i) = true -> used (l j) = true ->
    disjoint (l i) (l j) }.

Definition below (n i : Z) : Prop := 0 <= i < n.

(** A well-formed page. *)
Record page_wf (p : Page) : Prop := {
  pw_count : 0 <= nlines p;
  pw_lower : pd_lower p = linp_offset + sizeof_ItemIdData * nlines p;
  pw_free : pd_lower p <= pd_upper p;
  pw_upper : (8 | pd_upper p);
  pw_special : pd_upper p <= pd_special p <= BLCKSZ;
  pw_special8 : (8 | pd_special p);
  pw_lines : lines_ok (pd_upper p) (pd_special p) (below (nlines p)) (pd_linp p) }.

(** ** Lemmas *)

Lemma MAXALIGN_spec len : 0 <= len < 2 ^ 63 ->
  (8 | MAXALIGN len) /\ len <= MAXALIGN len < len + 8.
Proof.
  intros Hl. assert (MAXALIGN len = (len + 7) / 8 * 8) as ->.
  { unfold MAXALIGN. rewrite u64_id by lia. change (Z.lnot 7) with (Z.lnot (Z.ones 3)).
    rewrite <- Z.ldiff_land, Z.ldiff_ones_r by lia.
    by rewrite Z.shiftl_mul_pow2, Z.shiftr_div_pow2 by lia. }
  split; [by exists ((len + 7) / 8)|].
  pose proof (Z.div_mod (len + 7) 8). pose proof (Z.mod_pos_bound (len + 7) 8). lia.
Qed.

Lemma MAXALIGN_aligned len : 0 <= len < 2 ^ 63 -> (8 | len) -> MAXALIGN len = len.
Proof.
  intros Hl [k Hk]. destruct (MAXALIGN_spec len Hl) as [[m Hm] H]. lia.
Qed.

Lemma max_offset_nlines p : page_wf p -> PageGetMaxOffsetNumber p = nlines p /\ nlines p <= 1021.
Proof.
  intros [H1 H2 H3 H4 H5 H6 H7]. unfold linp_offset, sizeof_ItemIdData, BLCKSZ in *.
  assert (nlines p <= 1021) as Hn by lia. split; [|done].
  unfold PageGetMaxOffsetNumber. change (MAXALIGN sizeof_ItemIdData) with 8. unfold linp_offset.
  destruct (Z.leb_spec (pd_lower p) 24); [lia|].
  fold (nlines p). rewrite u16_id; [done|]. change (2 ^ 16) with 65536.
  unfold nlines, linp_offset, sizeof_ItemIdData in *. lia.
Qed.

(** Only some slots, renamed. *)
Lemma lines_ok_reindex lo hi (D D' : Z -> Prop) l l' (f : Z -> Z) :
  lines_ok lo hi D l -> (forall i, D' i -> D (f i) /\ l' i = l (f i)) ->
  (forall i j, D' i -> D' j -> f i = f j -> i = j) -> lines_ok lo hi D' l'.
Proof.
  intros [H1 H2] Hf Hinj. split.
  - intros i Hi. destruct (Hf i Hi) as [Hd ->]. by apply H1.
  - intros i j Hi Hj Hne. destruct (Hf i Hi) as [Hdi Ei], (Hf j Hj) as [Hdj Ej]. rewrite Ei, Ej.
    apply H2; [done|done|]. intros E. by apply Hne, Hinj.
Qed.

Lemma lines_ok_sub lo lo' hi (D D' : Z -> Prop) l : lo' <= lo -> (forall i, D' i -> D i) ->
  lines_ok lo hi D l -> lines_ok lo' hi D' l.
Proof.
  intros Hlo HD [H1 H2]. split; [|naive_solver].
  intros i Hi Hu. destruct (H1 i (HD i Hi) Hu) as (? & ? & ?). split_and!; try done; lia.
Qed.

(** One more item below everything else. *)
Lemma lines_ok_add lo lo' hi (D : Z -> Prop) l k it :
  lines_ok lo hi (fun i => D i /\ i <> k) l -> item_end it <= lo -> lo' = lp_off it -> lo <= hi ->
  (8 | lp_off it) -> 0 <= lp_len it < 2 ^ 63 ->
  lines_ok lo' hi D (upd l k it).
Proof.
  intros [H1 H2] Hend -> Hhi H8 Hlen. pose proof (MAXALIGN_spec (lp_len it) Hlen) as [_ Ha].
  unfold item_end in Hend. split.
  - intros i Hi. unfold upd. destruct (Z.eqb_spec i k) as [->|Hne]; intros Hu.
    + unfold item_end. split_and!; try done; lia.
    + destruct (H1 i (conj Hi Hne) Hu) as (? & ? & ? & ?). split_and!; try done; lia.
  - intros i j Hi Hj Hne. unfold upd.
    destruct (Z.eqb_spec i k) as [->|Hik], (Z.eqb_spec j k) as [->|Hjk]; intros Hu Hu'; [done| | |].
    + left. unfold item_end. destruct (H1 j (conj Hj Hjk) Hu') as (_ & ? & _). lia.
    + right. unfold item_end. destruct (H1 i (conj Hi Hik) Hu) as (_ & ? & _). lia.
    + by apply H2.
Qed.

(** Bytes outside of a move's target keep their value. *)
Lemma memmove_out mem dst src n i : i < dst \/ dst + n <= i -> memmove mem dst src n i = mem i.
Proof.
  intros H. unfold memmove. destruct (Z.leb_spec dst i), (Z.ltb_spec i (dst + n)); simpl; done || lia.
Qed.
Lemma memmove_in mem dst src n i : dst <= i < dst + n -> memmove mem dst src n i = src (i - dst).
Proof.
  intros H. unfold memmove. destruct (Z.leb_spec dst i), (Z.ltb_spec i (dst + n)); simpl; done || lia.
Qed.

(** Items read the same from two pages that agree on their extents. *)
Lemma item_bytes_ext p q it it' :
  lp_len it' = lp_len it ->
  (forall k, 0 <= k < lp_len it -> bytes q (lp_off it' + k) = bytes p (lp_off it + k)) ->
  item_bytes q it' = item_bytes p it.
Proof.
  intros Hl H. unfold item_bytes. rewrite Hl. apply list_fmap_ext. intros i k Hk.
  apply lookup_seqZ in Hk as [-> Hk]. apply H. lia.
Qed.

(** The page after an item was placed at slot [k] of the lines [l]. *)
Definition place (p : Page) (l : Z -> ItemIdData) (n k upper size flags pad ov : Z) (item : Z -> Z) : Page :=
  mkPage (checksum p) (linp_offset + sizeof_ItemIdData * n) upper (pd_special p) (od_pagesize p)
    (upd l k (mkItemId upper pad size flags ov)) (memmove (bytes p) upper item size).

Lemma nlines_place p l n k upper size flags pad ov item :
  nlines (place p l n k upper size flags pad ov item) = n.
Proof.
  unfold nlines, place, sizeof_ItemIdData. simpl.
  replace (linp_offset + 8 * n - linp_offset) with (n * 8) by lia. by apply Z.div_mul.
Qed.

Lemma place_spec p l n k upper size flags pad ov item :
  page_wf p -> lines_ok (pd_upper p) (pd_special p) (fun i => below n i /\ i <> k) l ->
  below n k -> upper = pd_upper p - MAXALIGN size -> linp_offset + sizeof_ItemIdData * n <= upper ->
  0 <= size < 2 ^ 16 -> flags .& LP_USED = true ->
  let p' := place p l n k upper size flags pad ov item in
  page_wf p' /\ slot p' k = Some (map item (seqZ 0 size)) /\
  forall i, below n i -> i <> k -> slot p' i = slot (set_linp p l) i.
Proof.
  intros Hwf Hl Hk Hup Hroom Hsize Hfl p'. pose proof (MAXALIGN_spec size ltac:(lia)) as [Ha8 Ha].
  assert ((8 | upper)) as Hu8 by (rewrite Hup; apply Z.divide_sub_r; [apply Hwf|done]).
  pose proof (pw_special p Hwf).
  split; [|split].
  - split.
    + unfold p'. rewrite nlines_place. unfold below in Hk. lia.
    + unfold p'. by rewrite nlines_place.
    + done.
    + done.
    + simpl. lia.
    + apply Hwf.
    + unfold p' at 3. rewrite nlines_place. simpl.
      apply (lines_ok_add (pd_upper p)); unfold item_end; simpl; try done; lia.
  - unfold slot, p'. simpl. unfold upd. rewrite Z.eqb_refl. unfold used. simpl. rewrite Hfl. f_equal.
    unfold item_bytes. simpl. apply list_fmap_ext. intros i b Hb. apply lookup_seqZ in Hb as [-> Hb].
    rewrite memmove_in by lia. f_equal. lia.
  - intros i Hi Hne. unfold slot, p'. simpl. unfold upd. destruct (Z.eqb_spec i k); [done|].
    destruct (used (l i)) eqn:Hu; [|done]. f_equal. apply item_bytes_ext; [done|].
    intros j Hj. simpl. apply memmove_out. right.
    destruct (lo_in _ _ _ _ Hl i (conj Hi Hne) Hu) as (_ & ? & _). lia.
Qed.

Lemma shuffle_loop_spec n : forall i l j,
  shuffle_loop n i l j = if (i - Z.of_nat n <? j) && (j <=? i) then l (j - 1) else l j.
Proof.
  induction n as [|n IH]; intros i l j; simpl shuffle_loop.
  - destruct (Z.ltb_spec (i - Z.of_nat 0) j), (Z.leb_spec j i); simpl; done || lia.
  - rewrite IH. unfold upd.
    destruct (Z.ltb_spec (i - 1 - Z.of_nat n) j), (Z.leb_spec j (i - 1)), (Z.ltb_spec (i - Z.of_nat (S n)) j),
      (Z.leb_spec j i), (Z.eqb_spec (j - 1) i), (Z.eqb_spec j i); simpl; try done; try lia.
    by subst j.
Qed.

Lemma find_slot_spec n : forall o l,
  o <= find_slot n o l <= o + Z.of_nat n /\
  (find_slot n o l < o + Z.of_nat n -> recyclable (l (find_slot n o l - 1)) = true) /\
  (forall k, o <= k < find_slot n o l -> recyclable (l (k - 1)) = false).
Proof.
  induction n as [|n IH]; intros o l; simpl find_slot; [split_and!; lia|].
  destruct (recyclable (l (o - 1))) eqn:E.
  - split_and!; [lia|lia|done|lia].
  - destruct (IH (o + 1) l) as (H1 & H2 & H3). split_and!; [lia|lia| |].
    + intros H. apply H2. lia.
    + intros k Hk. destruct (decide (k = o)) as [->|]; [done|]. apply H3. lia.
Qed.

(** Lists of slots. *)
Lemma items_lookup p i : items p !! i = (if decide (Z.of_nat i < nlines p) then Some (slot p (Z.of_nat i)) else None).
Proof.
  unfold items. rewrite list_lookup_fmap. destruct (decide (Z.of_nat i < nlines p)) as [H|H].
  - rewrite lookup_seqZ_lt by lia. simpl. by rewrite Z.add_0_l.
  - rewrite lookup_seqZ_ge by lia. done.
Qed.

Lemma items_length p : 0 <= nlines p -> Zlen (items p) = nlines p.
Proof. intros H. unfold items. rewrite length_map, length_seqZ. lia. Qed.

(** A list is the items of a page when it has its length and its slots. *)
Lemma items_eq p (xs : list (option (list Z))) : 0 <= nlines p -> Zlen xs = nlines p ->
  (forall i, below (nlines p) i -> xs !! Z.to_nat i = Some (slot p i)) -> items p = xs.
Proof.
  intros Hn Hlen Hs. apply list_eq. intros i. rewrite items_lookup.
  destruct (decide (Z.of_nat i < nlines p)) as [H|H].
  - rewrite <- Hs by (unfold below; lia). by rewrite Nat2Z.id.
  - symmetry. apply lookup_ge_None. lia.
Qed.

Lemma items_slot p i : below (nlines p) i -> items p !! Z.to_nat i = Some (slot p i).
Proof.
  intros [H1 H2]. rewrite items_lookup. rewrite Z2Nat.id by done. by destruct (decide (i < nlines p)).
Qed.

(** What adding an item at [o] makes of the list: a recycled or appended slot, or
    an insertion. *)
Definition add_at (xs : list (option (list Z))) (o : Z) (x : list Z) : list (option (list Z)) :=
  if o <=? Zlen xs then <[Z.to_nat (o - 1) := Some x]> xs else xs ++ [Some x].
Definition insert_at (xs : list (option (list Z))) (o : Z) (x : list Z) : list (option (list Z)) :=
  take (Z.to_nat (o - 1)) xs ++ Some x :: drop (Z.to_nat (o - 1)) xs.

Lemma insert_at_lookup xs o x i : 1 <= o <= Zlen xs + 1 -> 0 <= i ->
  insert_at xs o x !! Z.to_nat i =
    if i <? o - 1 then xs !! Z.to_nat i else if i =? o - 1 then Some (Some x) else xs !! Z.to_nat (i - 1).
Proof.
  intros Ho Hi. unfold insert_at.
  assert (length (take (Z.to_nat (o - 1)) xs) = Z.to_nat (o - 1)) as Hlen
    by (rewrite length_take; lia).
  destruct (Z.ltb_spec i (o - 1)) as [H|H].
  - rewrite lookup_app_l by lia. by rewrite lookup_take_lt by lia.
  - rewrite lookup_app_r by lia. rewrite Hlen. destruct (Z.eqb_spec i (o - 1)) as [->|Hne].
    + by rewrite Nat.sub_diag.
    + replace (Z.to_nat i - Z.to_nat (o - 1))%nat with (S (Z.to_nat (i - o)))%nat by lia. simpl.
      rewrite lookup_drop. f_equal. lia.
Qed.

(** The closing part of [PageAddItem], once slot and lines are chosen. *)
Lemma add_tail p l n o lower item size flags : page_wf p -> 0 <= n <= 1022 ->
  0 <= size < 2 ^ 16 -> lower = linp_offset + sizeof_ItemIdData * n ->
  (if lower >? i32 (pd_upper p - MAXALIGN size) then Ok (InvalidOffsetNumber, set_linp p l)
   else
     let it := pd_linp (set_linp p l) (o - 1) in
     let q := set_linp (set_linp p l) (upd (pd_linp (set_linp p l)) (o - 1)
                (mkItemId (u16 (i32 (pd_upper p - MAXALIGN size))) (lp_pad it) (u16 size) flags (lp_overflow it))) in
     let q := set_bytes q (memmove (bytes q) (i32 (pd_upper p - MAXALIGN size)) item size) in
     Ok (o, set_bounds q (u32 lower) (u32 (i32 (pd_upper p - MAXALIGN size))))) =
  if linp_offset + sizeof_ItemIdData * n <=? pd_upper p - MAXALIGN size then
    Ok (o, place p l n (o - 1) (pd_upper p - MAXALIGN size) size flags (lp_pad (l (o - 1)))
             (lp_overflow (l (o - 1))) item)
  else Ok (InvalidOffsetNumber, set_linp p l).
Proof.
  intros Hwf Hn Hsize ->. pose proof (MAXALIGN_spec size ltac:(lia)) as [_ Ha].
  pose proof (pw_special p Hwf). pose proof (pw_free p Hwf). pose proof (pw_lower p Hwf).
  pose proof (pw_count p Hwf). unfold linp_offset, sizeof_ItemIdData, BLCKSZ in *.
  rewrite i32_id by lia. destruct (Z.leb_spec (24 + 8 * n) (pd_upper p - MAXALIGN size)) as [Hr|Hr].
  - destruct (Z.gtb_spec (24 + 8 * n) (pd_upper p - MAXALIGN size)); [lia|].
    rewrite (u16_id size), (u16_id (pd_upper p - MAXALIGN size)), !u32_id by lia. done.
  - by destruct (Z.gtb_spec (24 + 8 * n) (pd_upper p - MAXALIGN size)); [|lia].
Qed.

Section AddItem.
Context (p : Page) (item : Z -> Z) (size flags : Z).
Hypothesis Hwf : page_wf p.
Hypothesis Hsize : 0 <= size < 2 ^ 16.
Hypothesis Hflags : flags .& LP_USED = true.

Let n := nlines p.

Lemma limit_eq : OffsetNumberNext (PageGetMaxOffsetNumber p) = n + 1.
Proof.
  destruct (max_offset_nlines p Hwf) as [-> Hn]. unfold OffsetNumberNext.
  pose proof (pw_count p Hwf). rewrite u16_id; unfold n; lia.
Qed.

(** The slot a call without an offset number takes. *)
Definition free_slot : Z := find_slot (Z.to_nat n) 1 (pd_linp p).

Lemma free_slot_range : 1 <= free_slot <= n + 1.
Proof. pose proof (find_slot_spec (Z.to_nat n) 1 (pd_linp p)). pose proof (pw_count p Hwf). unfold free_slot, n in *. lia. Qed.

Lemma recyclable_unused it : recyclable it = true -> used it = false.
Proof. unfold recyclable, used. intros [?%negb_true_iff _]%andb_true_iff. done. Qed.

(** The line pointers in use stay clear of the slot chosen. *)
Lemma lines_except k : ~ below n k \/ used (pd_linp p k) = false ->
  lines_ok (pd_upper p) (pd_special p) (fun i => below (if k <? n then n else n + 1) i /\ i <> k) (pd_linp p)
  \/ n < k.
Proof.
  intros Hk. destruct (decide (n < k)) as [|Hle]; [by right|]. left.
  destruct (Z.ltb_spec k n).
  - apply (lines_ok_sub (pd_upper p) _ _ (below n)); [lia|naive_solver|apply Hwf].
  - apply (lines_ok_sub (pd_upper p) _ _ (below n)); [lia| |apply Hwf]. unfold below. intros i. lia.
Qed.

(** Adding at a slot [o] that is free or the next one. *)
Lemma add_slot o : 1 <= o <= n + 1 -> (o <= n -> used (pd_linp p (o - 1)) = false) ->
  let m := if o <=? n then n else n + 1 in
  let upper := pd_upper p - MAXALIGN size in
  linp_offset + sizeof_ItemIdData * m <= upper ->
  let p' := place p (pd_linp p) m (o - 1) upper size flags
              (lp_pad (pd_linp p (o - 1))) (lp_overflow (pd_linp p (o - 1))) item in
  page_wf p' /\ items p' = add_at (items p) o (map item (seqZ 0 size)).
Proof.
  intros Ho Hfree m upper Hroom p'.
  destruct (lines_except (o - 1)) as [Hl|Hl]; [|..|unfold n in *; lia].
  { destruct (decide (o <= n)); [right; auto|left; unfold below; lia]. }
  replace (if o - 1 <? n then n else n + 1) with m in Hl
    by (unfold m; destruct (Z.leb_spec o n), (Z.ltb_spec (o - 1) n); lia).
  assert (below m (o - 1)) as Hk by (unfold below, m; destruct (Z.leb_spec o n); lia).
  destruct (place_spec p (pd_linp p) m (o - 1) upper size flags (lp_pad (pd_linp p (o - 1)))
    (lp_overflow (pd_linp p (o - 1))) item Hwf Hl Hk eq_refl Hroom Hsize Hflags) as (Hwf' & Hs & Ho').
  split; [exact Hwf'|]. pose proof (pw_count p Hwf) as Hn. fold n in Hn.
  assert (nlines p' = m) as Hm by apply nlines_place.
  assert (forall i, below n i -> slot (set_linp p (pd_linp p)) i = slot p i) as Hsame by done.
  apply items_eq; [rewrite Hm; unfold m; destruct (o <=? n); lia| |]; unfold add_at; rewrite items_length by done;
    fold n; rewrite Hm; unfold m in *; destruct (Z.leb_spec o n) as [Hle|Hgt].
  - rewrite length_insert. by apply items_length.
  - rewrite length_app. simpl. pose proof (items_length p Hn). unfold n in *. lia.
  - intros i Hi. destruct (decide (i = o - 1)) as [->|Hne].
    + rewrite list_lookup_insert_eq by (pose proof (items_length p Hn); unfold below, n in *; lia).
      f_equal. symmetry. exact Hs.
    + rewrite list_lookup_insert_ne by (unfold below in Hi; lia). rewrite items_slot by done.
      f_equal. symmetry. by apply Ho'.
  - intros i Hi. pose proof (items_length p Hn) as Hlen. fold n in Hlen.
    destruct (decide (i = o - 1)) as [->|Hne].
    + rewrite lookup_app_r by lia. replace (Z.to_nat (o - 1) - length (items p))%nat with 0%nat by lia.
      simpl. f_equal. symmetry. exact Hs.
    + rewrite lookup_app_l by (unfold below in Hi; lia).
      rewrite items_slot by (unfold below, n in *; lia). f_equal. symmetry. apply Ho'; [done|lia].
Qed.

(** Inserting before slot [o] with the shuffle. *)
Lemma add_shuffled o l : 1 <= o <= n + 1 ->
  (forall j, 0 <= j <= n -> j <> o - 1 -> l j = if o - 1 <? j then pd_linp p (j - 1) else pd_linp p j) ->
  let upper := pd_upper p - MAXALIGN size in
  linp_offset + sizeof_ItemIdData * (n + 1) <= upper ->
  let p' := place p l (n + 1) (o - 1) upper size flags (lp_pad (l (o - 1))) (lp_overflow (l (o - 1))) item in
  page_wf p' /\ items p' = insert_at (items p) o (map item (seqZ 0 size)).
Proof.
  intros Ho Hl upper Hroom p'. set (f := fun j => if o - 1 <? j then j - 1 else j).
  assert (forall j, below (n + 1) j -> j <> o - 1 -> below n (f j) /\ l j = pd_linp p (f j)) as Hf.
  { unfold below. intros j Hj Hne. rewrite Hl by lia. unfold f. destruct (Z.ltb_spec (o - 1) j); split; done || lia. }
  assert (lines_ok (pd_upper p) (pd_special p) (fun i => below (n + 1) i /\ i <> o - 1) l) as Hlok.
  { apply (lines_ok_reindex _ _ (below n) _ (pd_linp p) _ f); [apply Hwf|intros i []; by apply Hf|].
    unfold f. intros i j [_ Hi] [_ Hj]. destruct (Z.ltb_spec (o - 1) i), (Z.ltb_spec (o - 1) j); lia. }
  assert (below (n + 1) (o - 1)) as Hk by (unfold below; lia).
  destruct (place_spec p l (n + 1) (o - 1) upper size flags (lp_pad (l (o - 1))) (lp_overflow (l (o - 1)))
    item Hwf Hlok Hk eq_refl Hroom Hsize Hflags) as (Hwf' & Hs & Ho').
  split; [exact Hwf'|]. pose proof (pw_count p Hwf) as Hn. fold n in Hn.
  pose proof (items_length p Hn) as Hlen. fold n in Hlen.
  assert (nlines p' = n + 1) as Hm by apply nlines_place.
  apply items_eq; rewrite Hm; [lia| |].
  - unfold insert_at. rewrite length_app, length_take. simpl. rewrite length_drop. lia.
  - intros i Hi. rewrite insert_at_lookup by (unfold below in *; lia).
    destruct (decide (i = o - 1)) as [->|Hne].
    { rewrite Z.ltb_irrefl, Z.eqb_refl. f_equal. symmetry. exact Hs. }
    fold p' in Ho'. rewrite (Ho' i Hi Hne). destruct (Hf i Hi Hne) as [Hb El].
    unfold slot at 1. simpl. rewrite El. unfold f in *.
    destruct (Z.ltb_spec (o - 1) i), (Z.ltb_spec i (o - 1)), (Z.eqb_spec i (o - 1)); try lia;
      rewrite items_slot by done; unfold slot; simpl; done.
Qed.
End AddItem.

(** The line count after a successful call, and whether the item fits. *)
Definition lines_after (p : Page) (o : Z) : Z :=
  if o =? InvalidOffsetNumber then if free_slot p <=? nlines p then nlines p else nlines p + 1
  else nlines p + 1.
Definition item_fits (p : Page) (o size : Z) : bool :=
  linp_offset + sizeof_ItemIdData * lines_after p o <=? pd_upper p - MAXALIGN size.

Lemma set_linp_id p : set_linp p (pd_linp p) = p.
Proof. by destruct p. Qed.

(** Without an offset number. *)
Lemma PageAddItem_free shuffle p item size flags : page_wf p -> 0 <= size < 2 ^ 16 ->
  PageAddItem shuffle p item size InvalidOffsetNumber flags =
  if item_fits p InvalidOffsetNumber size then
    Ok (free_slot p, place p (pd_linp p) (lines_after p InvalidOffsetNumber) (free_slot p - 1)
          (pd_upper p - MAXALIGN size) size flags (lp_pad (pd_linp p (free_slot p - 1)))
          (lp_overflow (pd_linp p (free_slot p - 1))) item)
  else Ok (InvalidOffsetNumber, p).
Proof.
  intros Hwf Hsize. unfold PageAddItem. rewrite (limit_eq p Hwf). simpl.
  replace (nlines p + 1 - 1) with (nlines p) by lia. fold (free_slot p).
  destruct (max_offset_nlines p Hwf) as [_ Hn]. pose proof (pw_count p Hwf). pose proof (free_slot_range p Hwf).
  unfold item_fits. set (lower := if free_slot p >? _ then _ else _).
  pose proof (add_tail p (pd_linp p) (lines_after p InvalidOffsetNumber) (free_slot p) lower item size flags Hwf) as H1.
  rewrite set_linp_id in H1. apply H1; [|done|].
  - unfold lines_after. simpl. destruct (free_slot p <=? nlines p); lia.
  - unfold lower, lines_after. simpl. pose proof (pw_lower p Hwf).
    unfold linp_offset, sizeof_ItemIdData in *.
    destruct (Z.gtb_spec (free_slot p) (nlines p + 1)); [lia|]. rewrite orb_false_r.
    destruct (Z.eqb_spec (free_slot p) (nlines p + 1)), (Z.leb_spec (free_slot p) (nlines p));
      try lia; rewrite i32_id; lia.
Qed.

(** The shuffled line pointers. *)
Definition shuffled_linp (p : Page) (o : Z) : Z -> ItemIdData :=
  shuffle_loop (Z.to_nat (nlines p + 1 - o)) (nlines p) (pd_linp p).

Lemma PageAddItem_shuffle p item size o flags : page_wf p -> 0 <= size < 2 ^ 16 -> 1 <= o <= nlines p + 1 ->
  PageAddItem true p item size o flags =
  if item_fits p o size then
    Ok (o, place p (shuffled_linp p o) (nlines p + 1) (o - 1) (pd_upper p - MAXALIGN size) size flags
          (lp_pad (shuffled_linp p o (o - 1))) (lp_overflow (shuffled_linp p o (o - 1))) item)
  else Ok (InvalidOffsetNumber, set_linp p (shuffled_linp p o)).
Proof.
  intros Hwf Hsize Ho. unfold PageAddItem. rewrite (limit_eq p Hwf).
  destruct (max_offset_nlines p Hwf) as [_ Hn]. pose proof (pw_count p Hwf).
  assert (OffsetNumberIsValid o = true) as ->.
  { unfold OffsetNumberIsValid, MaxOffsetNumber, BLCKSZ, sizeof_ItemIdData, InvalidOffsetNumber.
    change (8192 / 8) with 1024. destruct (Z.eqb_spec o 0), (Z.leb_spec o 1024); simpl; done || lia. }
  simpl. replace (nlines p + 1 - 1) with (nlines p) by lia. fold (shuffled_linp p o).
  assert (lines_after p o = nlines p + 1) as Hla.
  { unfold lines_after, InvalidOffsetNumber. by destruct (Z.eqb_spec o 0); [lia|]. }
  unfold item_fits. rewrite Hla.
  apply (add_tail p (shuffled_linp p o) (nlines p + 1) o _ item size flags Hwf); [lia|done|].
  pose proof (pw_lower p Hwf). unfold linp_offset, sizeof_ItemIdData in *.
  destruct (Z.gtb_spec o (nlines p + 1)); [lia|]. rewrite orb_true_r, i32_id; lia.
Qed.

Lemma shuffled_linp_spec p o j : 1 <= o <= nlines p + 1 -> 0 <= j <= nlines p -> j <> o - 1 ->
  shuffled_linp p o j = if o - 1 <? j then pd_linp p (j - 1) else pd_linp p j.
Proof.
  intros Ho Hj Hne. unfold shuffled_linp. rewrite shuffle_loop_spec. rewrite Z2Nat.id by lia.
  destruct (Z.ltb_spec (nlines p - (nlines p + 1 - o)) j), (Z.leb_spec j (nlines p)), (Z.ltb_spec (o - 1) j);
    simpl; done || lia.
Qed.

(** ** Deleting an index tuple *)

Lemma adjust_loop_spec n : forall offset size l j,
  adjust_loop n offset size l j =
    if (0 <=? j) && (j <? Z.of_nat n) && (lp_off (l j) <=? offset)
    then set_off (l j) (lp_off (l j) + size) else l j.
Proof.
  induction n as [|n IH]; intros offset size l j; simpl adjust_loop.
  - destruct (Z.leb_spec 0 j), (Z.ltb_spec j (Z.of_nat 0)); simpl; done || lia.
  - rewrite IH. destruct (Z.leb_spec 0 j) as [H0|H0]; simpl.
    + destruct (decide (j = Z.of_nat n)) as [->|Hne].
      * destruct (Z.ltb_spec (Z.of_nat n) (Z.of_nat n)); [lia|]. simpl.
        destruct (Z.ltb_spec (Z.of_nat n) (Z.of_nat (S n))); [|lia]. simpl.
        destruct (lp_off (l (Z.of_nat n)) <=? offset); [|done]. unfold upd. by rewrite Z.eqb_refl.
      * assert ((if lp_off (l (Z.of_nat n)) <=? offset
                 then upd l (Z.of_nat n) (set_off (l (Z.of_nat n)) (lp_off (l (Z.of_nat n)) + size))
                 else l) j = l j) as ->.
        { destruct (_ <=? offset); [|done]. unfold upd. by destruct (Z.eqb_spec j (Z.of_nat n)). }
        destruct (Z.ltb_spec j (Z.of_nat n)), (Z.ltb_spec j (Z.of_nat (S n))); simpl; done || lia.
    + destruct (_ <=? offset); [|done]. unfold upd. by destruct (Z.eqb_spec j (Z.of_nat n)); [lia|].
Qed.

(** The slot a remaining item comes from. *)
Definition del_src (o i : Z) : Z := if i <? o - 1 then i else i + 1.

(** The line pointer a remaining item gets. *)
Definition del_line (p : Page) (o i : Z) : ItemIdData :=
  let it := pd_linp p (del_src o i) in
  let tup := pd_linp p (o - 1) in
  if lp_off it <=? lp_off tup then set_off it (lp_off it + MAXALIGN (lp_len tup)) else it.

Section Delete.
Context (p : Page) (o : Z).
Hypothesis Hwf : page_wf p.
Hypothesis Ho : 1 <= o <= nlines p.
Hypothesis Hused : forall i, below (nlines p) i -> used (pd_linp p i) = true.
Hypothesis Hlens : forall i, below (nlines p) i -> lp_len (pd_linp p i) < 2 ^ 16.

Let tup := pd_linp p (o - 1).
Let A := MAXALIGN (lp_len tup).

Lemma del_line_facts i : below (nlines p) i ->
  pd_upper p <= lp_off (pd_linp p i) <= item_end (pd_linp p i) /\
  lp_off (pd_linp p i) + lp_len (pd_linp p i) <= item_end (pd_linp p i) /\
  item_end (pd_linp p i) <= pd_special p /\ 0 <= lp_len (pd_linp p i) /\ (8 | lp_off (pd_linp p i)).
Proof.
  intros Hi. destruct (lo_in _ _ _ _ (pw_lines p Hwf) i Hi (Hused i Hi)) as (H8 & H1 & H2 & H3).
  pose proof (MAXALIGN_spec (lp_len (pd_linp p i))) as [_ Ha]; [specialize (Hlens i Hi); lia|].
  unfold item_end in *. split_and!; done || lia.
Qed.

Lemma del_tup_facts : pd_upper p <= lp_off tup /\ 0 <= A /\ lp_off tup + A <= pd_special p /\ (8 | A).
Proof.
  assert (below (nlines p) (o - 1)) as Hb by (unfold below; lia).
  destruct (del_line_facts _ Hb) as (H1 & H2 & H3 & H4 & _). fold tup in H1, H2, H3, H4. unfold item_end in H1, H2, H3. fold A in H1, H2, H3.
  pose proof (Hlens _ Hb) as Hl. fold tup in Hl.
  pose proof (MAXALIGN_spec (lp_len tup)) as [Ha _]; [lia|].
  split_and!; done || lia.
Qed.

Lemma del_disjoint i : below (nlines p) i -> i <> o - 1 ->
  item_end (pd_linp p i) <= lp_off tup \/ lp_off tup + A <= lp_off (pd_linp p i).
Proof.
  intros Hi Hne. assert (below (nlines p) (o - 1)) as Hb by (unfold below; lia).
  exact (lo_disjoint _ _ _ _ (pw_lines p Hwf) i (o - 1) Hi Hb Hne (Hused i Hi) (Hused _ Hb)).
Qed.

(** The page the routine leaves, field by field. *)
Lemma PageIndexTupleDelete_eq :
  let p' := PageIndexTupleDelete p o in
  pd_lower p' = linp_offset + sizeof_ItemIdData * (nlines p - 1) /\
  pd_upper p' = pd_upper p + A /\ pd_special p' = pd_special p /\
  (forall i, below (nlines p - 1) i -> pd_linp p' i = del_line p o i) /\
  (forall j, bytes p' j = if (pd_upper p + A <=? j) && (j <? lp_off tup + A)
                          then bytes p (j - A) else bytes p j).
Proof.
  destruct del_tup_facts as (T1 & T2 & T3 & _).
  destruct (max_offset_nlines p Hwf) as [_ Hn]. pose proof (pw_lower p Hwf) as Hlow.
  pose proof (pw_special p Hwf). pose proof (pw_free p Hwf).
  unfold PageIndexTupleDelete. fold tup. fold A.
  set (moved := (pd_lower p - _) / sizeof_ItemIdData).
  assert (moved = nlines p - o) as Hmoved.
  { unfold moved. rewrite Hlow. unfold sizeof_ItemIdData, linp_offset.
    replace (24 + 8 * nlines p - (24 + 8 * (o - 1 + 1))) with ((nlines p - o) * 8) by lia.
    by rewrite Z.div_mul. }
  set (q := if negb (lp_off tup =? _) then _ else _).
  assert (pd_lower q = pd_lower p /\ pd_upper q = pd_upper p /\ pd_special q = pd_special p /\
    (forall i, below (nlines p - 1) i -> pd_linp q i = pd_linp p (del_src o i)) /\
    (forall j, bytes q j = if (pd_upper p + A <=? j) && (j <? lp_off tup + A)
                           then bytes p (j - A) else bytes p j)) as (Q1 & Q2 & Q3 & Q4 & Q5).
  { assert (forall i, below (nlines p - 1) i ->
      (if (o - 1 <=? i) && (i <? o - 1 + moved) then pd_linp p (i + 1) else pd_linp p i) =
      pd_linp p (del_src o i)) as Hlin.
    { intros i Hi. unfold del_src, below in *. rewrite Hmoved.
      destruct (Z.leb_spec (o - 1) i), (Z.ltb_spec i (o - 1 + (nlines p - o))), (Z.ltb_spec i (o - 1));
        simpl; done || lia. }
    unfold q. simpl. destruct (Z.eqb_spec (lp_off tup) (pd_upper p)) as [E|E]; simpl.
    - split_and!; try done. intros j.
      destruct (Z.leb_spec (pd_upper p + A) j), (Z.ltb_spec j (lp_off tup + A)); simpl; done || lia.
    - split_and!; try done. intros j.
      destruct (Z.leb_spec (pd_upper p + A) j), (Z.ltb_spec j (lp_off tup + A)); simpl.
      + rewrite memmove_in by lia. f_equal. lia.
      + apply memmove_out. lia.
      + apply memmove_out. lia.
      + apply memmove_out. lia. }
  clearbody q. unfold linp_offset, sizeof_ItemIdData, BLCKSZ in *.
  set (r := set_bounds q _ _).
  assert (pd_lower r = 24 + 8 * (nlines p - 1)) as R1.
  { unfold r. simpl. rewrite Q1, u32_id; lia. }
  assert (pd_upper r = pd_upper p + A) as R2 by (unfold r; simpl; rewrite Q2, u32_id; lia).
  destruct (PageIsEmpty r) eqn:Eempty; simpl negb; cbn match.
  - split_and!; try done; try exact Q5. unfold PageIsEmpty, linp_offset in Eempty. rewrite R1 in Eempty.
    intros i Hi. unfold below in Hi. destruct (Z.geb_spec 24 (24 + 8 * (nlines p - 1))); [lia|done].
  - assert (PageGetMaxOffsetNumber r = nlines p - 1) as Hmax.
    { unfold PageGetMaxOffsetNumber, linp_offset. rewrite R1.
      change (MAXALIGN sizeof_ItemIdData) with 8. unfold PageIsEmpty, linp_offset in Eempty. rewrite R1 in Eempty.
      destruct (Z.geb_spec 24 (24 + 8 * (nlines p - 1))); [done|].
      destruct (Z.leb_spec (24 + 8 * (nlines p - 1)) 24); [lia|].
      replace (24 + 8 * (nlines p - 1) - 24) with ((nlines p - 1) * 8) by lia.
      rewrite Z.div_mul by done. apply u16_id. lia. }
    unfold PageIndexTupleDeleteAdjustLinePointers. rewrite Hmax.
    split_and!; try done; try exact Q5.
    intros i Hi. simpl. rewrite adjust_loop_spec. rewrite Q4 by done. rewrite Z2Nat.id by lia.
    unfold below in Hi. unfold del_line. fold tup. fold A.
    destruct (Z.leb_spec 0 i), (Z.ltb_spec i (nlines p - 1)); simpl; done || lia.
Qed.

Lemma del_src_range i : below (nlines p - 1) i -> below (nlines p) (del_src o i) /\ del_src o i <> o - 1.
Proof. unfold below, del_src. intros Hi. destruct (Z.ltb_spec i (o - 1)); lia. Qed.

(** A remaining line pointer: moved up by [A] when it lay below the deleted
    item, unmoved otherwise. *)
Lemma del_line_off i : below (nlines p - 1) i ->
  let it := pd_linp p (del_src o i) in let it' := del_line p o i in
  lp_len it' = lp_len it /\ used it' = true /\
  ((item_end it <= lp_off tup /\ lp_off it' = lp_off it + A) \/
   (lp_off tup + A <= lp_off it /\ lp_off it' = lp_off it)).
Proof.
  intros Hi it it'. destruct (del_src_range i Hi) as [Hs Hne].
  destruct (del_line_facts _ Hs) as (H1 & H2 & H3 & H4 & _). destruct del_tup_facts as (T1 & T2 & T3 & _).
  pose proof (del_disjoint _ Hs Hne) as Hd. pose proof (Hused _ Hs) as Hu. fold it in H1, H2, H3, H4, Hd, Hu.
  pose proof (pw_special p Hwf) as Hsp. pose proof (pw_free p Hwf). pose proof (pw_lower p Hwf).
  pose proof (pw_count p Hwf).
  unfold it', del_line. fold it. fold tup. fold A. unfold linp_offset, sizeof_ItemIdData, BLCKSZ in *.
  destruct (Z.leb_spec (lp_off it) (lp_off tup)) as [Hle|Hgt]; simpl.
  - split; [done|]. split; [done|]. rewrite u16_id; destruct Hd; lia.
  - split; [done|]. split; [done|]. right. destruct Hd; split; done || lia.
Qed.

Lemma delete_wf : page_wf (PageIndexTupleDelete p o) /\ nlines (PageIndexTupleDelete p o) = nlines p - 1.
Proof.
  destruct PageIndexTupleDelete_eq as (E1 & E2 & E3 & E4 & E5). set (p' := PageIndexTupleDelete p o) in *.
  destruct del_tup_facts as (T1 & T2 & T3 & T8).
  assert (nlines p' = nlines p - 1) as Hn.
  { unfold nlines at 1. rewrite E1. unfold linp_offset, sizeof_ItemIdData.
    replace (24 + 8 * (nlines p - 1) - 24) with ((nlines p - 1) * 8) by lia. by rewrite Z.div_mul. }
  split; [|done]. pose proof (pw_lower p Hwf). pose proof (pw_free p Hwf). pose proof (pw_special p Hwf).
  split; rewrite ?Hn, ?E1, ?E2, ?E3; try done.
  - lia.
  - unfold linp_offset, sizeof_ItemIdData in *. lia.
  - apply Z.divide_add_r; [apply Hwf|done].
  - lia.
  - apply Hwf.
  - split.
    + intros i Hi _. rewrite E4 by done. destruct (del_line_off i Hi) as (L1 & L2 & L3).
      destruct (del_src_range i Hi) as [Hs _]. destruct (del_line_facts _ Hs) as (F1 & F2 & F3 & F4 & F8).
      unfold item_end in *. rewrite L1. destruct L3 as [[L3 ->]|[L3 ->]]; split_and!; try done; try lia.
      by apply Z.divide_add_r.
    + intros i j Hi Hj Hne _ _. rewrite !E4 by done.
      destruct (del_line_off i Hi) as (L1 & _ & L3). destruct (del_line_off j Hj) as (M1 & _ & M3).
      destruct (del_src_range i Hi) as [Hsi _]. destruct (del_src_range j Hj) as [Hsj _].
      destruct (del_line_facts _ Hsi) as (F1 & _). destruct (del_line_facts _ Hsj) as (G1 & _).
      assert (del_src o i <> del_src o j) as Hij.
      { unfold del_src. destruct (Z.ltb_spec i (o - 1)), (Z.ltb_spec j (o - 1)); lia. }
      pose proof (lo_disjoint _ _ _ _ (pw_lines p Hwf) _ _ Hsi Hsj Hij (Hused _ Hsi) (Hused _ Hsj)) as Hd.
      unfold disjoint, item_end in *. rewrite L1, M1. lia.
Qed.

Lemma delete_items : items (PageIndexTupleDelete p o) = delete (Z.to_nat (o - 1)) (items p).
Proof.
  destruct delete_wf as [Hwf' Hn]. destruct PageIndexTupleDelete_eq as (_ & E2 & _ & E4 & E5).
  set (p' := PageIndexTupleDelete p o) in *. pose proof (pw_count p Hwf) as Hc.
  pose proof (items_length p Hc) as Hlen.
  apply items_eq; rewrite Hn; [lia| |].
  - rewrite length_delete; [lia|]. apply lookup_lt_is_Some. lia.
  - intros i Hi. transitivity (items p !! Z.to_nat (del_src o i)).
    { unfold del_src, below in *. destruct (Z.ltb_spec i (o - 1)).
      - apply list_lookup_delete_lt. lia.
      - rewrite list_lookup_delete_ge by lia. f_equal. lia. }
    destruct (del_src_range i Hi) as [Hs _]. rewrite items_slot by done. f_equal.
    destruct (del_line_off i Hi) as (L1 & L2 & L3). destruct (del_line_facts _ Hs) as (F1 & F2 & F3 & F4 & _).
    destruct del_tup_facts as (T1 & T2 & T3 & _).
    unfold slot. rewrite E4 by done. rewrite L2, (Hused _ Hs). f_equal. symmetry. apply item_bytes_ext; [done|].
    intros k Hk. rewrite E5. destruct L3 as [[L3 ->]|[L3 ->]].
    + destruct (Z.leb_spec (pd_upper p + A) (lp_off (pd_linp p (del_src o i)) + A + k)),
        (Z.ltb_spec (lp_off (pd_linp p (del_src o i)) + A + k) (lp_off tup + A)); simpl; try lia.
      f_equal. lia.
    + destruct (Z.ltb_spec (lp_off (pd_linp p (del_src o i)) + k) (lp_off tup + A)); [lia|].
      by rewrite andb_false_r.
Qed.
End Delete.

(** ** Repairing fragmentation *)

Lemma insert_desc_perm l i s : insert_desc l i s ≡ₚ i :: s.
Proof.
  induction s as [|j s IH]; simpl; [done|]. destruct (_ >=? _); [done|].
  rewrite IH. apply Permutation_swap.
Qed.
Lemma sort_desc_perm l s : sort_desc l s ≡ₚ s.
Proof. induction s as [|i s IH]; simpl; [done|]. by rewrite insert_desc_perm, IH. Qed.

Definition desc (l : Z -> ItemIdData) (i j : Z) : Prop := lp_off (l j) <= lp_off (l i).

Lemma insert_desc_sorted l i s : StronglySorted (desc l) s -> StronglySorted (desc l) (insert_desc l i s).
Proof.
  induction s as [|j s IH]; intros Hs; simpl; [repeat constructor|].
  apply StronglySorted_inv in Hs as [Hs Hj]. destruct (Z.geb_spec (lp_off (l i)) (lp_off (l j))) as [Hge|Hlt].
  - constructor; [by constructor|]. constructor; [exact Hge|].
    eapply Forall_impl; [exact Hj|]. unfold desc. simpl. lia.
  - constructor; [by apply IH|]. rewrite insert_desc_perm. constructor; [|done]. unfold desc. lia.
Qed.
Lemma sort_desc_sorted l s : StronglySorted (desc l) (sort_desc l s).
Proof. induction s as [|i s IH]; simpl; [constructor|]. by apply insert_desc_sorted. Qed.

Lemma used_indices_spec n l i : i ∈ used_indices n l <-> below (Z.of_nat n) i /\ used (l i) = true.
Proof.
  induction n as [|n IH]; simpl used_indices.
  - unfold below. split; [intros H; by apply not_elem_of_nil in H|lia].
  - rewrite elem_of_app, IH. fold (used (l (Z.of_nat n))). unfold below.
    destruct (used (l (Z.of_nat n))) eqn:E.
    + rewrite list_elem_of_singleton. destruct (decide (i = Z.of_nat n)) as [->|]; [naive_solver lia|].
      split; [intros [[? ?]| ?]; [split; [lia|done]|done]|]. intros [? ?]. left. split; [lia|done].
    + split; [intros [[? ?]|H]; [split; [lia|done]|by apply not_elem_of_nil in H]|].
      intros [? Hu]. left. split; [|done]. destruct (decide (i = Z.of_nat n)) as [->|]; [congruence|lia].
Qed.

Lemma used_indices_NoDup n l : NoDup (used_indices n l).
Proof.
  induction n as [|n IH]; simpl; [constructor|]. apply NoDup_app. split; [done|]. split.
  - intros i Hi. apply used_indices_spec in Hi as [[_ Hi] _]. destruct (_ .& _); [|by apply not_elem_of_nil].
    rewrite list_elem_of_singleton. lia.
  - destruct (_ .& _); [apply NoDup_singleton|constructor].
Qed.

(** The space the used items of a list of slots need. *)
Definition space (l : Z -> ItemIdData) (R : list Z) : Z :=
  foldr (fun i s => MAXALIGN (lp_len (l i)) + s) 0 R.

Section Repair.
Context (p0 : Page) (lo n : Z).
Let l0 := pd_linp p0.
Let hi := pd_special p0.
Hypothesis Hlines : lines_ok lo hi (below n) l0.
Hypothesis Hlens : forall i, below n i -> lp_len (l0 i) < 2 ^ 16.
Hypothesis Hlo : 24 <= lo.
Hypothesis Hhi : hi <= BLCKSZ.

(** The page while the items of [R] still wait to be moved. *)
Record repairing (p : Page) (R : list Z) : Prop := {
  rp_fixed : pd_lower p = pd_lower p0 /\ pd_special p = hi;
  rp_upper : lo <= pd_upper p <= hi /\ (8 | pd_upper p);
  rp_same : forall i, lp_len (pd_linp p i) = lp_len (l0 i) /\ lp_flags (pd_linp p i) = lp_flags (l0 i);
  rp_wait : forall i, i ∈ R -> pd_linp p i = l0 i /\ item_end (l0 i) <= pd_upper p /\
    forall k, 0 <= k < lp_len (l0 i) -> bytes p (lp_off (l0 i) + k) = bytes p0 (lp_off (l0 i) + k);
  rp_lines : lines_ok (pd_upper p) hi (fun i => below n i /\ i ∉ R) (pd_linp p);
  rp_items : forall i, below n i -> i ∉ R -> used (l0 i) = true ->
    item_bytes p (pd_linp p i) = item_bytes p0 (l0 i) }.

Lemma compact_step p i R : repairing p (i :: R) -> NoDup (i :: R) ->
  (forall j, j ∈ i :: R -> below n j /\ used (l0 j) = true) ->
  Forall (desc l0 i) R ->
  repairing (compact_one p i) R /\
  pd_upper (compact_one p i) = pd_upper p - MAXALIGN (lp_len (l0 i)).
Proof.
  intros [Hf [Hu Hu8] Hs Hw Hl Hi] Hnd Hin Hdesc.
  destruct (Hin i) as [Hb Hused]; [by left|]. destruct (Hw i) as (Ei & Eend & Ebytes); [by left|].
  destruct (lo_in _ _ _ _ Hlines i Hb Hused) as (Io8 & Io & Il & Ie).
  pose proof (Hlens i Hb) as Hlen. pose proof (MAXALIGN_spec (lp_len (l0 i)) ltac:(lia)) as [Ha8 Ha].
  apply NoDup_cons in Hnd as [Hnotin Hnd]. unfold item_end in Eend, Ie.
  set (A := MAXALIGN (lp_len (l0 i))) in *. set (upper := pd_upper p - A).
  unfold BLCKSZ in Hhi. unfold compact_one. rewrite Ei. fold A. fold upper.
  assert (i32 upper = upper) as -> by (apply i32_id; unfold upper; lia).
  assert (u32 upper = upper) as -> by (apply u32_id; unfold upper; lia).
  assert (set_off (l0 i) upper = mkItemId upper (lp_pad (l0 i)) (lp_len (l0 i)) (lp_flags (l0 i)) (lp_overflow (l0 i)))
    as Eoff by (unfold set_off; rewrite u16_id by (unfold upper; lia); done).
  rewrite Eoff. set (it := mkItemId upper _ _ _ _). split; [|done]. split; simpl.
  - done.
  - split; [unfold upper; lia|]. by apply Z.divide_sub_r.
  - intros j. unfold upd. destruct (Z.eqb_spec j i) as [->|]; [done|apply Hs].
  - intros j Hj. assert (j <> i) as Hne by (by intros ->). destruct (Hin j) as [Hbj Huj]; [by right|].
    destruct (Hw j) as (Ej & Ejend & Ejb); [by right|].
    destruct (lo_in _ _ _ _ Hlines j Hbj Huj) as (_ & Jo & Jl & _).
    pose proof (MAXALIGN_spec (lp_len (l0 j))) as [_ HaJ]; [specialize (Hlens j Hbj); lia|].
    assert (desc l0 i j) as Hd by (by eapply Forall_forall in Hdesc). unfold desc in Hd.
    pose proof (lo_disjoint _ _ _ _ Hlines i j Hb Hbj (not_eq_sym Hne) Hused Huj) as Hdis.
    unfold disjoint, item_end in *. fold A in Hdis.
    assert (lp_off (l0 j) + MAXALIGN (lp_len (l0 j)) <= upper) as Hlow by (unfold upper; lia).
    split; [unfold upd; by destruct (Z.eqb_spec j i)|]. split; [done|].
    intros k Hk. rewrite memmove_out by lia. by apply Ejb.
  - assert ((8 | upper)) as Hup8 by by apply Z.divide_sub_r.
    assert (0 <= lp_len (l0 i) < 2 ^ 63) as Hlen63 by lia.
    refine (lines_ok_add (pd_upper p) upper hi _ _ i it _ _ eq_refl _ Hup8 Hlen63);
      [|unfold item_end; simpl; fold A; unfold upper; lia|lia].
    apply (lines_ok_sub (pd_upper p) _ _ (fun j => below n j /\ j ∉ i :: R)); [lia| |exact Hl].
    intros j [[Hj HjR] Hne]. split; [done|]. by apply not_elem_of_cons.
  - intros j Hj HjR Huj. unfold upd. destruct (Z.eqb_spec j i) as [->|Hne].
    + apply item_bytes_ext; [done|]. simpl. intros k Hk. rewrite memmove_in by lia.
      replace (upper + k - upper) with k by lia. by apply Ebytes.
    + assert (j ∉ i :: R) as HjR' by (by apply not_elem_of_cons).
      rewrite <- (Hi j Hj HjR' Huj). apply item_bytes_ext; [done|]. simpl. intros k Hk.
      apply memmove_out. right. destruct (Hs j) as [Slen Sfl].
      assert (used (pd_linp p j) = true) as Hup by (unfold used; rewrite Sfl; exact Huj).
      destruct (lo_in _ _ _ _ Hl j (conj Hj HjR') Hup) as (_ & Hoff & _). unfold upper. lia.
Qed.

Lemma compact_all R : forall p, repairing p R -> NoDup R ->
  (forall j, j ∈ R -> below n j /\ used (l0 j) = true) -> StronglySorted (desc l0) R ->
  repairing (fold_left compact_one R p) [] /\
  pd_upper (fold_left compact_one R p) = pd_upper p - space l0 R.
Proof.
  induction R as [|i R IH]; intros p Hp Hnd Hin Hs; simpl; [split; [done|lia]|].
  apply StronglySorted_inv in Hs as [Hs Hd].
  destruct (compact_step p i R Hp Hnd Hin Hd) as [Hp' Hup].
  destruct (IH (compact_one p i) Hp') as [H1 H2]; [by apply NoDup_cons in Hnd as [_ ?]| |done|].
  - intros j Hj. apply Hin. by right.
  - split; [done|]. rewrite H2, Hup. lia.
Qed.
End Repair.

Lemma space_perm l R R' : R ≡ₚ R' -> space l R = space l R'.
Proof. induction 1; simpl; lia. Qed.

Lemma space_ext l l' R : (forall i, i ∈ R -> lp_len (l' i) = lp_len (l i)) -> space l' R = space l R.
Proof.
  induction R as [|i R IH]; intros H; simpl; [done|].
  rewrite (H i) by (by left). rewrite IH; [done|]. intros j Hj. apply H. by right.
Qed.

(** Lengths are 16-bit fields. *)
Definition lens16 (p : Page) : Prop := forall i, 0 <= lp_len (pd_linp p i) < 2 ^ 16.

Lemma clear_unused_used n l i : used (l i) = true -> clear_unused n l i = l i.
Proof. unfold clear_unused, used. intros ->. by rewrite andb_false_r. Qed.
Lemma clear_unused_flags n l i : lp_flags (clear_unused n l i) = lp_flags (l i).
Proof. unfold clear_unused. by destruct (_ && _). Qed.

Lemma repair_spec p : page_wf p -> lens16 p ->
  let p' := (PageRepairFragmentation p).2 in
  page_wf p' /\ items p' = items p /\ pd_lower p' = pd_lower p /\ pd_upper p <= pd_upper p' /\
  pd_upper p' = pd_special p - space (pd_linp p) (used_indices (Z.to_nat (nlines p)) (pd_linp p)).
Proof.
  intros Hwf Hlen. destruct (max_offset_nlines p Hwf) as [Hmax Hn]. pose proof (pw_count p Hwf) as Hc.
  unfold PageRepairFragmentation. rewrite Hmax. simpl.
  set (us := used_indices (Z.to_nat (nlines p)) (pd_linp p)).
  set (p1 := set_bounds (set_linp p (clear_unused (nlines p) (pd_linp p))) (pd_lower p) (pd_special p)).
  assert (match us with [] => p1 | _ => fold_left compact_one (sort_desc (clear_unused (nlines p) (pd_linp p)) us) p1 end
          = fold_left compact_one (sort_desc (pd_linp p1) us) p1) as -> by (by destruct us).
  set (R := sort_desc (pd_linp p1) us).
  assert (forall i, i ∈ R <-> below (nlines p) i /\ used (pd_linp p i) = true) as HR.
  { intros i. unfold R. rewrite sort_desc_perm. unfold us. rewrite used_indices_spec, Z2Nat.id by done. done. }
  assert (forall i, used (pd_linp p1 i) = used (pd_linp p i)) as Hfl.
  { intros i. unfold used. simpl. by rewrite clear_unused_flags. }
  assert (forall i, used (pd_linp p i) = true -> pd_linp p1 i = pd_linp p i) as Hsame
    by (intros i Hi; by apply clear_unused_used).
  pose proof (pw_lower p Hwf) as Hl. pose proof (pw_free p Hwf). pose proof (pw_special p Hwf) as Hsp.
  assert (lines_ok (pd_upper p) (pd_special p) (below (nlines p)) (pd_linp p1)) as Hlines.
  { destruct (pw_lines p Hwf) as [L1 L2]. split.
    - intros i Hi Hu. rewrite Hfl in Hu. rewrite Hsame by done. by apply L1.
    - intros i j Hi Hj Hne Hu Hu'. rewrite Hfl in Hu, Hu'. rewrite !Hsame by done. by apply L2. }
  assert (forall i, i ∉ R -> below (nlines p) i -> used (pd_linp p1 i) = false) as Hvac.
  { intros i Hi Hb. rewrite Hfl. destruct (used (pd_linp p i)) eqn:E; [|done]. destruct Hi. by apply HR. }
  assert (repairing p1 (pd_upper p) (nlines p) p1 R) as Hrep.
  { split; simpl; try done.
    - split; [lia|apply Hwf].
    - intros i Hi. apply HR in Hi as [Hb Hu]. rewrite <- Hfl in Hu.
      by destruct (lo_in _ _ _ _ Hlines i Hb Hu) as (_ & _ & _ & He).
    - split; intros i; [intros [Hb Hi] Hu|intros j [Hb Hi] _ _ Hu]; specialize (Hvac i Hi Hb); simpl in *; congruence. }
  destruct (compact_all p1 (pd_upper p) (nlines p) Hlines) with (R := R) (p := p1) as [[Hf [Hu Hu8] Hs _ Hlo Hit] Hup].
  - intros i Hi. simpl. unfold clear_unused. destruct (_ && _); simpl; [lia|apply Hlen].
  - unfold linp_offset, sizeof_ItemIdData in *. lia.
  - apply Hsp.
  - exact Hrep.
  - unfold R. rewrite sort_desc_perm. apply used_indices_NoDup.
  - intros j Hj. apply HR in Hj as [? ?]. by rewrite Hfl.
  - apply sort_desc_sorted.
  - set (p' := fold_left compact_one R p1) in *. destruct Hf as [Hlow Hspec]. simpl in Hlow, Hspec.
    assert (nlines p' = nlines p) as Hnl by (unfold nlines; by rewrite Hlow).
    assert (forall i, below (nlines p) i -> slot p' i = slot p i) as Hslot.
    { intros i Hi. unfold slot. assert (used (pd_linp p' i) = used (pd_linp p i)) as ->.
      { rewrite <- Hfl. unfold used. f_equal. apply Hs. }
      destruct (used (pd_linp p i)) eqn:E; [|done]. f_equal.
      rewrite Hit; [|done|by apply not_elem_of_nil|by rewrite Hfl]. by rewrite Hsame. }
    split; [|split; [|split; [exact Hlow|split]]].
    + change (pd_special p1) with (pd_special p) in *.
      split; rewrite ?Hnl, ?Hlow, ?Hspec; try done; try lia; try apply Hwf.
      apply (lines_ok_sub (pd_upper p') _ _ (fun i => below (nlines p) i /\ i ∉ [])); [lia| |exact Hlo].
      intros i Hi. split; [done|apply not_elem_of_nil].
    + apply items_eq; rewrite Hnl; [done|by apply items_length|]. intros i Hi.
      rewrite items_slot by done. f_equal. symmetry. by apply Hslot.
    + lia.
    + rewrite Hup. change (pd_upper p1) with (pd_special p). f_equal.
      rewrite (space_perm _ R us) by apply sort_desc_perm. apply space_ext.
      intros i Hi. unfold us in Hi. apply used_indices_spec in Hi as [_ Hi]. by rewrite Hsame.
Qed.

(** ** Compacting the line pointer array *)

Lemma last_kept_spec n l :
  0 <= last_kept n l <= Z.of_nat n /\
  (forall i, last_kept n l <= i < Z.of_nat n -> used (l i) = false).
Proof.
  induction n as [|n [IH1 IH2]]; simpl last_kept; [split; [lia|lia]|].
  destruct ((lp_flags (l (Z.of_nat n)) .& LP_USED) || (lp_len (l (Z.of_nat n)) >? 0)) eqn:E.
  - split; [lia|lia].
  - split; [lia|]. intros i Hi. apply orb_false_iff in E as [E _].
    destruct (decide (i = Z.of_nat n)) as [->|]; [exact E|]. apply IH2. lia.
Qed.

Lemma compact_page_spec p : page_wf p ->
  let '(i, p') := PageCompactPage p in
  page_wf p' /\ 0 <= i <= nlines p /\ items p' = take (Z.to_nat i) (items p) /\
  Forall (fun x => x = None) (drop (Z.to_nat i) (items p)).
Proof.
  intros Hwf. unfold PageCompactPage. destruct (max_offset_nlines p Hwf) as [-> Hn].
  pose proof (pw_count p Hwf) as Hc. pose proof (items_length p Hc) as Hlen.
  destruct (Z.eqb_spec (nlines p) 0) as [E|E].
  { assert (items p = []) as -> by (apply length_zero_iff_nil; lia). split_and!; done || lia. }
  destruct (last_kept_spec (Z.to_nat (nlines p)) (pd_linp p)) as [Hk1 Hk2]. rewrite Z2Nat.id in Hk1, Hk2 by done.
  set (i := last_kept (Z.to_nat (nlines p)) (pd_linp p)) in *.
  assert (Forall (fun x => x = None) (drop (Z.to_nat i) (items p))) as Hdrop.
  { apply Forall_lookup. intros k x. rewrite lookup_drop, items_lookup. case_decide as Hd; [|done].
    intros [= <-]. unfold slot. rewrite Hk2; [done|lia]. }
  destruct (Z.eqb_spec i (nlines p)) as [Ei|Ei]; simpl.
  { split_and!; [done|lia|lia| |done]. rewrite take_ge by lia. done. }
  pose proof (pw_lower p Hwf). pose proof (pw_free p Hwf). pose proof (pw_special p Hwf).
  set (p' := PageSetLinePointerCount p i).
  assert (pd_lower p' = linp_offset + sizeof_ItemIdData * i) as Hlow.
  { unfold p', PageSetLinePointerCount. simpl. change (MAXALIGN sizeof_ItemIdData) with 8.
    unfold linp_offset, sizeof_ItemIdData in *. rewrite u32_id; lia. }
  assert (nlines p' = i) as Hnl.
  { unfold nlines. rewrite Hlow. unfold linp_offset, sizeof_ItemIdData.
    replace (24 + 8 * i - 24) with (i * 8) by lia. by rewrite Z.div_mul. }
  split_and!; [|lia|lia| |done].
  - split; rewrite ?Hnl, ?Hlow; try done; try apply Hwf; [lia| |].
    + unfold linp_offset, sizeof_ItemIdData in *. change (pd_upper p') with (pd_upper p). lia.
    + apply (lines_ok_sub (pd_upper p) _ _ (below (nlines p))); [simpl; lia|unfold below; lia|apply Hwf].
  - apply items_eq; rewrite Hnl; [lia|rewrite length_take; lia|]. intros k Hk. unfold below in Hk.
    rewrite lookup_take_lt by lia. transitivity (Some (slot p k)); [|done].
    apply items_slot. unfold below. lia.
Qed.

(** ** Properties *)

(** C15 Adding an item to a page is insertion into the list of its items.  On a
    well-formed page, a call without an offset number stores the item in the
    first recyclable slot or in a new one; a call with an offset number in
    shuffle mode inserts it before that slot and keeps the order of the others.
    Every other item keeps its bytes and the page stays well-formed.  The call
    fails exactly when the aligned item and its line pointer do not fit, and
    never when [PageGetFreeSpace] reports enough room. *)
Theorem PageAddItem_refines shuffle p item size o flags :
  page_wf p -> 0 <= size < 2 ^ 16 -> flags .& LP_USED = true ->
  o = InvalidOffsetNumber \/ (shuffle = true /\ 1 <= o <= nlines p + 1) ->
  exists o' p', PageAddItem shuffle p item size o flags = Ok (o', p') /\
  (if item_fits p o size then
     page_wf p' /\
     if o =? InvalidOffsetNumber
     then o' = free_slot p /\ items p' = add_at (items p) o' (map item (seqZ 0 size))
     else o' = o /\ items p' = insert_at (items p) o (map item (seqZ 0 size))
   else o' = InvalidOffsetNumber) /\
  (MAXALIGN size <= PageGetFreeSpace p -> 0 < size -> item_fits p o size = true).
Proof.
  intros Hwf Hsize Hfl Ho.
  assert (MAXALIGN size <= PageGetFreeSpace p -> 0 < size -> item_fits p o size = true) as Hfree.
  { pose proof (MAXALIGN_spec size ltac:(lia)) as [_ Ha]. pose proof (pw_lower p Hwf).
    unfold PageGetFreeSpace, item_fits, sizeof_ItemIdData in *. intros Hf Hs. apply Z.leb_le.
    assert (lines_after p o <= nlines p + 1) by (unfold lines_after; repeat case_match; lia).
    destruct (Z.ltb_spec (pd_upper p) (pd_lower p)); [lia|].
    destruct (Z.ltb_spec (pd_upper p - pd_lower p) 8); lia. }
  destruct Ho as [->|[-> Ho]].
  - rewrite PageAddItem_free by done. pose proof (free_slot_range p Hwf) as Hr.
    destruct (item_fits p InvalidOffsetNumber size) eqn:E; [|by eexists _, _].
    eexists _, _. split; [reflexivity|]. split; [|done]. simpl.
    unfold item_fits, lines_after in E. simpl in E. apply Z.leb_le in E.
    destruct (add_slot p item size flags Hwf Hsize Hfl (free_slot p) Hr) as [H1 H2]; [|done|].
    { intros Hle. apply recyclable_unused.
      destruct (find_slot_spec (Z.to_nat (nlines p)) 1 (pd_linp p)) as (_ & H & _). apply H.
      pose proof (pw_count p Hwf). change (find_slot (Z.to_nat (nlines p)) 1 (pd_linp p)) with (free_slot p). lia. }
    split; [exact H1|]. by split.
  - rewrite PageAddItem_shuffle by done.
    assert (lines_after p o = nlines p + 1) as Hla.
    { unfold lines_after, InvalidOffsetNumber. by destruct (Z.eqb_spec o 0); [lia|]. }
    destruct (item_fits p o size) eqn:E; [|by eexists _, _].
    eexists _, _. split; [reflexivity|]. split; [|done].
    unfold InvalidOffsetNumber. destruct (Z.eqb_spec o 0); [lia|].
    unfold item_fits in E. rewrite Hla in E. apply Z.leb_le in E.
    destruct (add_shuffled p item size flags Hwf Hsize Hfl o (shuffled_linp p o) Ho) as [H1 H2]; [|done|].
    { intros j Hj Hne. by apply shuffled_linp_spec. }
    split; [exact H1|]. by split.
Qed.

(** C16 Deleting an index tuple removes exactly that item: on a well-formed page
    whose line pointers are all in use, [PageIndexTupleDelete] closes the gap in
    the line pointer array and in the data, the other items keep their order and
    their bytes, and the page stays well-formed. *)
Theorem PageIndexTupleDelete_refines p o :
  page_wf p -> 1 <= o <= nlines p -> (forall i, below (nlines p) i -> used (pd_linp p i) = true) ->
  (forall i, below (nlines p) i -> lp_len (pd_linp p i) < 2 ^ 16) ->
  page_wf (PageIndexTupleDelete p o) /\
  items (PageIndexTupleDelete p o) = delete (Z.to_nat (o - 1)) (items p).
Proof. intros Hwf Ho Hu Hl. split; [by apply delete_wf|by apply delete_items]. Qed.

(** Page maintenance loses nothing: repairing fragmentation keeps the list of
    items and leaves the data packed against the special space, so that the free
    space does not shrink; compacting drops only a tail of unused slots.  Both
    keep the page well-formed. *)
Theorem page_maintenance_refines p : page_wf p -> lens16 p ->
  let p' := (PageRepairFragmentation p).2 in
  let '(i, q) := PageCompactPage p in
  (page_wf p' /\ items p' = items p /\
   pd_upper p' = pd_special p - space (pd_linp p) (used_indices (Z.to_nat (nlines p)) (pd_linp p)) /\
   PageGetFreeSpace p <= PageGetFreeSpace p') /\
  (page_wf q /\ items q = take (Z.to_nat i) (items p) /\
   Forall (fun x => x = None) (drop (Z.to_nat i) (items p))).
Proof.
  intros Hwf Hl. destruct (repair_spec p Hwf Hl) as (H1 & H2 & H3 & H4 & H5).
  pose proof (compact_page_spec p Hwf) as Hc. destruct (PageCompactPage p) as [i q].
  destruct Hc as (C1 & _ & C2 & C3). split; [|done]. split_and!; [done|done|done|].
  unfold PageGetFreeSpace, sizeof_ItemIdData. rewrite H3.
  set (u := pd_upper (PageRepairFragmentation p).2) in *.
  destruct (Z.ltb_spec (pd_upper p) (pd_lower p)), (Z.ltb_spec (pd_upper p - pd_lower p) 8),
    (Z.ltb_spec u (pd_lower p)), (Z.ltb_spec (u - pd_lower p) 8); lia.
Qed.

(** A failed insertion in shuffle mode damages the page: the line pointers have
    already been moved when the routine finds that the item does not fit, and
    [pd_lower] is not advanced.  Afterwards the slot given and the next one name
    the same item and the last item of the page is no longer reachable.  (There
    is room for the moved line pointers, as the routine's comment requires.) *)
Theorem PageAddItem_failed_shuffle p item size o flags :
  page_wf p -> 0 <= size < 2 ^ 16 -> 1 <= o <= nlines p ->
  pd_lower p + sizeof_ItemIdData <= pd_upper p -> item_fits p o size = false ->
  exists p', PageAddItem true p item size o flags = Ok (InvalidOffsetNumber, p') /\
    nlines p' = nlines p /\
    forall i, below (nlines p) i -> slot p' i = if o - 1 <? i then slot p (i - 1) else slot p i.
Proof.
  intros Hwf Hsize Ho Hroom Hfit. rewrite PageAddItem_shuffle by (done || lia). rewrite Hfit.
  eexists. split; [reflexivity|]. split; [done|]. intros i Hi. unfold below in Hi.
  assert (forall l j k, l j = pd_linp p k -> slot (set_linp p l) j = slot p k) as Hslot.
  { intros l j k E. unfold slot. simpl. by rewrite E. }
  destruct (Z.ltb_spec (o - 1) i) as [H|H]; apply Hslot.
  - rewrite shuffled_linp_spec by lia. by destruct (Z.ltb_spec (o - 1) i); [|lia].
  - unfold shuffled_linp. rewrite shuffle_loop_spec, Z2Nat.id by lia.
    destruct (Z.ltb_spec (nlines p - (nlines p + 1 - o)) i); simpl; [lia|done].
Qed.

(** ** Witnesses *)

Definition demo_item (b : Z) : Z -> Z := fun _ => b.
Definition demo_page : Page := PageInit BLCKSZ 16 (mkPage 0 0 0 0 0 (fun _ => no_item) (fun _ => 0)).

Lemma demo_page_wf : page_wf demo_page.
Proof.
  split; try done; try (by exists 1022); try (unfold nlines; simpl; lia).
Qed.

(** Three items of 5, 9 and 3 bytes. *)
Definition demo_add (p : Page) (b size o : Z) : Page :=
  match PageAddItem true p (demo_item b) size o LP_USED with Ok (_, p) => p | Err _ => p end.
Definition demo_page3 : Page := demo_add (demo_add (demo_add demo_page 65 5 0) 66 9 0) 67 3 1.

Lemma demo_add_wf p b size o : page_wf p -> 0 <= size < 2 ^ 16 ->
  o = InvalidOffsetNumber \/ (true = true /\ 1 <= o <= nlines p + 1) -> item_fits p o size = true ->
  page_wf (demo_add p b size o).
Proof.
  intros Hwf Hs Ho Hf. unfold demo_add. destruct Ho as [->|[_ Ho]].
  - rewrite PageAddItem_free by done. rewrite Hf. unfold item_fits, lines_after in Hf. apply Z.leb_le in Hf.
    apply (add_slot p (demo_item b) size LP_USED Hwf Hs eq_refl (free_slot p) (free_slot_range p Hwf)); [|done].
    intros Hle. apply recyclable_unused.
    destruct (find_slot_spec (Z.to_nat (nlines p)) 1 (pd_linp p)) as (_ & H & _). apply H.
    pose proof (pw_count p Hwf). change (find_slot (Z.to_nat (nlines p)) 1 (pd_linp p)) with (free_slot p). lia.
  - rewrite PageAddItem_shuffle by done. rewrite Hf. unfold item_fits, lines_after in Hf. apply Z.leb_le in Hf.
    unfold InvalidOffsetNumber in Hf. destruct (Z.eqb_spec o 0); [lia|].
    apply (add_shuffled p (demo_item b) size LP_USED Hwf Hs eq_refl o (shuffled_linp p o) Ho); [|done].
    intros j Hj Hne. by apply shuffled_linp_spec.
Qed.

Lemma demo_page3_wf : page_wf demo_page3.
Proof.
  unfold demo_page3.
  assert (page_wf (demo_add demo_page 65 5 0)) as H1
    by (apply demo_add_wf; [exact demo_page_wf|lia|by left|reflexivity]).
  assert (page_wf (demo_add (demo_add demo_page 65 5 0) 66 9 0)) as H2
    by (apply demo_add_wf; [exact H1|lia|by left|reflexivity]).
  apply demo_add_wf; [exact H2|lia| |reflexivity]. right. split; [reflexivity|]. vm_compute. split; discriminate.
Qed.

Lemma PageAddItem_refines_witness :
  items demo_page3 = [Some [67; 67; 67]; Some [65; 65; 65; 65; 65]; Some [66; 66; 66; 66; 66; 66; 66; 66; 66]] /\
  exists o' p', PageAddItem true demo_page3 (demo_item 68) 2 2 LP_USED = Ok (o', p') /\ o' = 2 /\
    items p' = [Some [67; 67; 67]; Some [68; 68]; Some [65; 65; 65; 65; 65]; Some [66; 66; 66; 66; 66; 66; 66; 66; 66]].
Proof.
  split; [vm_compute; reflexivity|].
  destruct (PageAddItem_refines true demo_page3 (demo_item 68) 2 2 LP_USED demo_page3_wf) as (o' & p' & H1 & H2 & _).
  - lia.
  - reflexivity.
  - right. split; [reflexivity|]. vm_compute. split; discriminate.
  - assert (item_fits demo_page3 2 2 = true) as E by (vm_compute; reflexivity). rewrite E in H2.
    destruct H2 as (_ & H2 & H3). exists o', p'. split; [exact H1|]. split; [exact H2|].
    rewrite H3. vm_compute. reflexivity.
Defined.

Lemma demo_page3_used i : below (nlines demo_page3) i ->
  used (pd_linp demo_page3 i) = true /\ lp_len (pd_linp demo_page3 i) < 2 ^ 16.
Proof.
  change (nlines demo_page3) with 3. unfold below. intros Hi.
  assert (i = 0 \/ i = 1 \/ i = 2) as [->|[->| ->]] by lia; split; reflexivity.
Qed.

Lemma PageIndexTupleDelete_refines_witness :
  items (PageIndexTupleDelete demo_page3 2) = [Some [67; 67; 67]; Some [66; 66; 66; 66; 66; 66; 66; 66; 66]].
Proof.
  rewrite (proj2 (PageIndexTupleDelete_refines demo_page3 2 demo_page3_wf
    ltac:(vm_compute; split; discriminate) (fun i Hi => proj1 (demo_page3_used i Hi))
    (fun i Hi => proj2 (demo_page3_used i Hi)))).
  vm_compute. reflexivity.
Defined.

Lemma demo_add_lens p b size o : page_wf p -> lens16 p -> 0 <= size < 2 ^ 16 ->
  o = InvalidOffsetNumber \/ (true = true /\ 1 <= o <= nlines p + 1) -> lens16 (demo_add p b size o).
Proof.
  intros Hwf Hl Hs Ho i. unfold demo_add. destruct Ho as [->|[_ Ho]].
  - rewrite PageAddItem_free by done. destruct (item_fits _ _ _); [|apply Hl].
    simpl. unfold upd. destruct (_ =? _); [done|apply Hl].
  - rewrite PageAddItem_shuffle by done. unfold shuffled_linp.
    destruct (item_fits _ _ _); simpl; unfold upd; [destruct (_ =? _); [done|]|];
      rewrite shuffle_loop_spec; destruct (_ && _); apply Hl.
Qed.

Lemma demo_page3_lens : lens16 demo_page3.
Proof.
  assert (page_wf (demo_add demo_page 65 5 0)) as H1
    by (apply demo_add_wf; [exact demo_page_wf|lia|by left|reflexivity]).
  assert (page_wf (demo_add (demo_add demo_page 65 5 0) 66 9 0)) as H2
    by (apply demo_add_wf; [exact H1|lia|by left|reflexivity]).
  unfold demo_page3. apply demo_add_lens; [exact H2| |lia|].
  - apply demo_add_lens; [exact H1| |lia|by left]. apply demo_add_lens; [exact demo_page_wf|done|lia|by left].
  - right. split; [reflexivity|]. vm_compute. split; discriminate.
Qed.

(** The middle item of [demo_page3] marked unused, as vacuum does. *)
Definition demo_fragmented : Page :=
  set_linp demo_page3 (upd (pd_linp demo_page3) 1 (mkItemId 0 0 5 0 0)).

Lemma unuse_ok p k it : page_wf p -> lens16 p -> used it = false -> 0 <= lp_len it < 2 ^ 16 ->
  page_wf (set_linp p (upd (pd_linp p) k it)) /\ lens16 (set_linp p (upd (pd_linp p) k it)).
Proof.
  intros [H1 H2 H3 H4 H5 H6 [L1 L2]] Hl Hu Hlen. split.
  - split; try done. split; unfold upd; simpl.
    + intros i Hi. destruct (Z.eqb_spec i k); [congruence|by apply L1].
    + intros i j Hi Hj Hne. destruct (Z.eqb_spec i k), (Z.eqb_spec j k); try congruence. by apply L2.
  - intros i. unfold upd. simpl. destruct (Z.eqb_spec i k); [done|apply Hl].
Qed.

Lemma demo_fragmented_ok : page_wf demo_fragmented /\ lens16 demo_fragmented.
Proof. exact (unuse_ok demo_page3 1 (mkItemId 0 0 5 0 0) demo_page3_wf demo_page3_lens eq_refl ltac:(simpl; lia)). Qed.

Lemma page_maintenance_refines_witness :
  items (PageRepairFragmentation demo_fragmented).2 =
    [Some [67; 67; 67]; None; Some [66; 66; 66; 66; 66; 66; 66; 66; 66]] /\
  pd_upper (PageRepairFragmentation demo_fragmented).2 = 8192 - 16 - (8 + 16).
Proof.
  pose proof (page_maintenance_refines demo_fragmented (proj1 demo_fragmented_ok) (proj2 demo_fragmented_ok)) as H.
  destruct (PageCompactPage demo_fragmented) as [i q]. destruct H as [(_ & H1 & H2 & _) _].
  split; [rewrite H1; vm_compute; reflexivity|]. rewrite H2. vm_compute. reflexivity.
Defined.

(** A page with two items that fill it up to 64 bytes. *)
Definition demo_full : Page := demo_add (demo_add demo_page 65 4000 0) 66 4056 0.

Lemma demo_full_wf : page_wf demo_full.
Proof.
  assert (page_wf (demo_add demo_page 65 4000 0)) as H1
    by (apply demo_add_wf; [exact demo_page_wf|lia|by left|reflexivity]).
  unfold demo_full. apply demo_add_wf; [exact H1|lia|by left|reflexivity].
Qed.

Lemma PageAddItem_failed_shuffle_witness : exists p',
  PageAddItem true demo_full (demo_item 67) 100 1 LP_USED = Ok (InvalidOffsetNumber, p') /\
  nlines p' = 2 /\ slot p' 1 = slot demo_full 0.
Proof.
  destruct (PageAddItem_failed_shuffle demo_full (demo_item 67) 100 1 LP_USED demo_full_wf) as (p' & H1 & H2 & H3).
  - lia.
  - vm_compute. split; discriminate.
  - vm_compute. discriminate.
  - vm_compute. reflexivity.
  - exists p'. split; [exact H1|]. split; [rewrite H2; vm_compute; reflexivity|].
    rewrite (H3 1); [reflexivity|]. vm_compute. split; [discriminate|reflexivity].
Defined.
