(* ===== verification/Lock.v ===== *)
(** * The lock manager

    Model of [storage/lmgr/lock.c], of the conflict table of
    [storage/lmgr/lmgr.c] and of the wait queue of
    [storage/lmgr/multithread.c], for one lockable object: its [LOCK] entry,
    the [HOLDER] entries of the transactions that hold or want it, and the
    queue of the threads that sleep on it.

    Every function of [lock.c] works in two phases.  Under the table guard,
    [SearchLockTable] finds or creates the entry and counts the caller in
    [refs] or [removing]; under the entry's own [protection] mutex the body of
    [LockAcquire], [LockRelease] or [LockReleaseAll] runs.  Another thread can
    run between the two, so the step relation [lstep] has one step per phase,
    and the threads between their phases are kept in [pending].

    The relation has a switch [late]: with it, a sleep may also be cancelled
    after another thread has granted it the lock.  [ThreadSleep] looks only at
    the result of [pthread_cond_timedwait], so a timeout that finds a cancel
    request wins over the grant, and [WaitOnLock] takes a granted lock for a
    failed wait.  The theorems on exclusion and wake-ups are about the runs
    without such a step; [late_cancel_breaks_locking] shows that one of them is
    enough to let two threads hold conflicting modes, and to leave a waiter
    asleep on a free lock.

    Main results: without late cancels, conflicting modes are never held by two
    threads and the entry is never freed while it is held, wanted or about to be
    used ([lock_mutual_exclusion]); [LockAcquire] grants exactly one lock of the
    mode when it grants, changes nobody's holdings otherwise, and has a reason
    when it does not grant ([LockAcquire_spec]); a release leaves no head
    waiter asleep that nobody blocks ([LockRelease_wakes]); [ThreadEnqueue]
    erases waiters from the shared wait mask, so that [LockReleaseAll] can
    leave the whole queue asleep with the lock free
    ([LockReleaseAll_lost_wakeup]).  The examples at the end show a
    transaction that leaves its entry behind and a stale wait mask.

    Not modelled: the hash tables (the entry is an [option], the holder table
    a list), the switch that turns locking off, [DeadLockCheck] (called only
    from [proc.c], which is not built), [GetOffWaitqueue] (a thread that
    releases its locks is not asleep) and the debugging output.  The counter
    [waitThreads.size] is the length of the queue; a late cancel would take one
    more off and write through the dead links of the thread, outside of the
    shared memory, which is not modelled.  The "INCONSISTENT" exit of
    [LockAcquire] after a sleep has no step: a granted thread holds the mode it
    waited for. *)

From S2P Require Import Prelude.

(** ** Lock modes and their conflicts ([storage/lmgr.h], [lmgr.c]) *)

Definition AccessShareLock : Z := 1.
Definition RowShareLock : Z := 2.
Definition RowExclusiveLock : Z := 3.
Definition ShareUpdateExclusiveLock : Z := 4.
Definition ShareLock : Z := 5.
Definition ShareRowExclusiveLock : Z := 6.
Definition ExclusiveLock : Z := 7.
Definition AccessExclusiveLock : Z := 8.

Definition MAX_LOCKMODES : Z := 10.
Definition USER_LOCKMETHOD : Z := 3.

(** [1 << mode]; also [BITS_ON[mode]]. *)
Definition bit (m : Z) : Z := Z.shiftl 1 m.

Definition LockConflicts : list Z :=
  let b := bit in let a := Z.lor in
  [ 0;
    b AccessExclusiveLock;
    a (b ExclusiveLock) (b AccessExclusiveLock);
    a (a (a (b ShareLock) (b ShareRowExclusiveLock)) (b ExclusiveLock)) (b AccessExclusiveLock);
    a (a (a (a (b ShareUpdateExclusiveLock) (b ShareLock)) (b ShareRowExclusiveLock))
         (b ExclusiveLock)) (b AccessExclusiveLock);
    a (a (a (a (b RowExclusiveLock) (b ShareUpdateExclusiveLock)) (b ShareRowExclusiveLock))
         (b ExclusiveLock)) (b AccessExclusiveLock);
    a (a (a (a (a (b RowExclusiveLock) (b ShareUpdateExclusiveLock)) (b ShareLock))
            (b ShareRowExclusiveLock)) (b ExclusiveLock)) (b AccessExclusiveLock);
    a (a (a (a (a (a (b RowShareLock) (b RowExclusiveLock)) (b ShareUpdateExclusiveLock))
               (b ShareLock)) (b ShareRowExclusiveLock)) (b ExclusiveLock)) (b AccessExclusiveLock);
    a (a (a (a (a (a (a (b AccessShareLock) (b RowShareLock)) (b RowExclusiveLock))
                  (b ShareUpdateExclusiveLock)) (b ShareLock)) (b ShareRowExclusiveLock))
         (b ExclusiveLock)) (b AccessExclusiveLock) ].

(** [InitLockTable] passes [MAX_LOCKMODES - 1]. *)
Definition numLockModes : Z := MAX_LOCKMODES - 1.

(** The loop [for (i = 1; i <= numLockModes; i++)]. *)
Definition lock_modes : list Z := [1; 2; 3; 4; 5; 6; 7; 8; 9].

(** ** Data *)

(** [HOLDER]: the locks one transaction of one thread holds on the object. *)
Record HOLDER := mkHOLDER {
  hpid : Z;              (* tag.pid *)
  hxid : Z;              (* tag.xid *)
  hholders : Z -> Z;     (* holders[] *)
  hnHolding : Z;         (* nHolding *)
}.

(** A sleeping thread: the fields of [THREAD] that the wait queue uses, its
    [waitHolder] given by the tag, and the wait mask [ThreadSleep] saved. *)
Record Waiter := mkWaiter {
  wpid : Z;
  wxid : Z;
  wmode : Z;             (* waitLockMode *)
  wholdLock : Z;         (* holdLock *)
  worigMask : Z;         (* origMask *)
}.

Record LOCK := mkLOCK {
  mask : Z;
  waitMask : Z;
  waitThreads : list Waiter;   (* in the order of the [prev] links *)
  holders : Z -> Z;
  nHolding : Z;
  activeHolders : Z -> Z;
  nActive : Z;
  refs : Z;
  removing : Z;
}.

(** A thread between its call of [SearchLockTable] and the body it runs under
    the entry's mutex. *)
Inductive Pending :=
| PAcquire (pid xid mode : Z) (failfast : bool)
| PRelease (pid xid mode : Z)
| PReleaseAll (pid xid : Z).

Definition ppid (p : Pending) : Z :=
  match p with PAcquire t _ _ _ | PRelease t _ _ | PReleaseAll t _ => t end.
Definition is_acquire (p : Pending) : bool :=
  match p with PAcquire _ _ _ _ => true | _ => false end.

(** The object: its entry in the lock table, the holder table (newest entry
    first, the order in which a thread's [lockQueue] is walked), the threads
    that were granted the lock in their sleep and have not run yet, and the
    threads between their two phases. *)
Record LockSys := mkLockSys {
  lock : option LOCK;
  htab : list HOLDER;
  awake : list Waiter;
  pending : list Pending;
}.

Definition with_lock (s : LockSys) (l : LOCK) : LockSys :=
  mkLockSys (Some l) (htab s) (awake s) (pending s).
Definition with_waitMask (l : LOCK) (wm : Z) : LOCK :=
  mkLOCK (mask l) wm (waitThreads l) (holders l) (nHolding l) (activeHolders l) (nActive l)
         (refs l) (removing l).
Definition with_queue (l : LOCK) (q : list Waiter) : LOCK :=
  mkLOCK (mask l) (waitMask l) q (holders l) (nHolding l) (activeHolders l) (nActive l)
         (refs l) (removing l).
Definition with_refs (l : LOCK) (r m : Z) : LOCK :=
  mkLOCK (mask l) (waitMask l) (waitThreads l) (holders l) (nHolding l) (activeHolders l)
         (nActive l) r m.
(** [lock->nHolding += d; lock->holders[m] += d]. *)
Definition bump (l : LOCK) (m d : Z) : LOCK :=
  mkLOCK (mask l) (waitMask l) (waitThreads l) (upd (holders l) m (holders l m + d))
         (nHolding l + d) (activeHolders l) (nActive l) (refs l) (removing l).

(** ** The holder table *)

Definition is_tag (pid xid : Z) (h : HOLDER) : bool := (hpid h =? pid) && (hxid h =? xid).

(** [SearchHolderTable(HASH_FIND)]. *)
Fixpoint find_holder (pid xid : Z) (hs : list HOLDER) : option HOLDER :=
  match hs with
  | [] => None
  | h :: hs' => if is_tag pid xid h then Some h else find_holder pid xid hs'
  end.

(** [SearchHolderTable(HASH_REMOVE)] and [SHMQueueDelete]. *)
Definition remove_holder (pid xid : Z) (hs : list HOLDER) : list HOLDER :=
  base.filter (fun h => is_tag pid xid h = false) hs.

(** [SearchHolderTable(HASH_ENTER)] with its [ThreadAddLock]. *)
Definition enter_holder (pid xid : Z) (hs : list HOLDER) : list HOLDER :=
  match find_holder pid xid hs with
  | Some _ => hs
  | None => mkHOLDER pid xid (fun _ => 0) 0 :: hs
  end.

Definition update_holder (pid xid : Z) (f : HOLDER -> HOLDER) (hs : list HOLDER) : list HOLDER :=
  (fun h => if is_tag pid xid h then f h else h) <$> hs.

(** [holder->holders[m] += d; holder->nHolding += d]. *)
Definition hbump (m d : Z) (h : HOLDER) : HOLDER :=
  mkHOLDER (hpid h) (hxid h) (upd (hholders h) m (hholders h m + d)) (hnHolding h + d).

Definition sum_list (l : list Z) : Z := foldr Z.add 0 l.

(** [LockCountMyLocks]: the locks [pid] holds under any transaction. *)
Definition LockCountMyLocks (pid : Z) (hs : list HOLDER) (i : Z) : Z :=
  sum_list ((fun h => if hpid h =? pid then hholders h i else 0) <$> hs).

(** The bitmask of the modes that satisfy a test. *)
Definition mode_mask (p : Z -> bool) : Z :=
  foldl (fun acc i => if p i then Z.lor acc (bit i) else acc) 0 lock_modes.

(** [LockGetMyHoldLocks], also written out in [LockAcquire]. *)
Definition LockGetMyHoldLocks (pid : Z) (hs : list HOLDER) : Z :=
  mode_mask (fun i => 0 <? LockCountMyLocks pid hs i).

Section LockManager.

(** [LockMethodInit] copies one entry more than [LockConflicts] has: the value
    it reads there.  [SearchLockTable] leaves the wait mask of a new entry as
    it was in the hash element: that value.  And the number of the table. *)
Context (conflict9 garbage lockmethod : Z).

Definition conflictTab (m : Z) : Z := if m =? 9 then conflict9 else aget 0 LockConflicts m.

(** ** The entry ([SearchLockTable]) *)

Definition new_lock : LOCK := mkLOCK 0 garbage [] (fun _ => 0) 0 (fun _ => 0) 0 0 0.

(** [HASH_ENTER]. *)
Definition SearchLockTable_enter (ol : option LOCK) : LOCK :=
  let l := default new_lock ol in with_refs l (refs l + 1) (removing l).

(** [HASH_FIND]: raises an error on a missing entry. *)
Definition SearchLockTable_find (ol : option LOCK) : result LOCK :=
  match ol with
  | Some l => Ok (with_refs l (refs l - 1) (removing l + 1))
  | None => Err "corrupted lock table"
  end.

(** [HASH_REMOVE]: the entry goes when no thread refers to it. *)
Definition SearchLockTable_remove (l : LOCK) : option LOCK :=
  let l' := with_refs l (refs l) (removing l - 1) in
  if (refs l' =? 0) && (removing l' =? 0) then None else Some l'.

(** ** Conflicts and grants *)

Definition LockResolveConflicts (mode : Z) (l : LOCK) (myHolders : Z -> Z) : bool :=
  if negb (conflictTab mode .& mask l) then true
  else negb (conflictTab mode .& mode_mask (fun i => negb (activeHolders l i =? myHolders i))).

Definition grant_lock (l : LOCK) (m : Z) : LOCK :=
  mkLOCK (Z.lor (mask l) (bit m)) (waitMask l) (waitThreads l) (holders l) (nHolding l)
         (upd (activeHolders l) m (activeHolders l m + 1)) (nActive l + 1) (refs l) (removing l).

(** [GrantLock] on the entry and on the holder with this tag. *)
Definition GrantLock (pid xid m : Z) (s : LockSys) (l : LOCK) : LockSys :=
  mkLockSys (Some (grant_lock l m)) (update_holder pid xid (hbump m 1) (htab s))
            (awake s) (pending s).

(** ** The wait queue *)

(** The loop of [ThreadEnqueue] over the waiters; [wm] is [lock->waitMask],
    which the loop changes, and the result is the queue with the thread in
    front of the waiter where the loop stopped, or [None] on a deadlock. *)
Fixpoint ThreadEnqueue_loop (l : LOCK) (w : Waiter) (wm : Z) (aheadHolders : Z -> Z)
    (prevSame : bool) (passed rest : list Waiter) : Z * option (list Waiter) :=
  let myMask := bit (wmode w) in
  let selfConflict := conflictTab (wmode w) .& myMask in
  match rest with
  | [] => (Z.lor wm myMask, Some (passed ++ [w]))
  | p :: rest' =>
    let stop := (Z.lor wm myMask, Some (passed ++ w :: rest)) in
    let ahead' := upd aheadHolders (wmode p) (aheadHolders (wmode p) + 1) in
    let wm' := if ahead' (wmode p) =? holders l (wmode p)
               then Z.ldiff wm (bit (wmode p)) else wm in
    let advance := ThreadEnqueue_loop l w wm' ahead' (wmode p =? wmode w) (passed ++ [p]) rest' in
    if conflictTab (wmode w) .& wholdLock p then
      if conflictTab (wmode p) .& wholdLock w then (wm, None) else advance
    else if conflictTab (wmode p) .& wholdLock w then stop
    else if conflictTab (wmode p) .& myMask then
      if negb selfConflict && prevSame then stop else advance
    else if negb (conflictTab (wmode w) .& wm) then stop
    else advance
  end.

Definition ThreadEnqueue (l : LOCK) (w : Waiter) : Z * option (list Waiter) :=
  if negb (conflictTab (wmode w) .& waitMask l) then
    (Z.lor (waitMask l) (bit (wmode w)), Some (w :: waitThreads l))
  else ThreadEnqueue_loop l w (waitMask l)
         (upd (activeHolders l) (wmode w) (activeHolders l (wmode w) + 1))
         false [] (waitThreads l).

(** What [WaitOnLock] does to the entry when the sleep failed. *)
Definition WaitOnLock_failed (l : LOCK) (m : Z) : LOCK :=
  let l1 := bump l m (-1) in
  if activeHolders l1 m =? holders l1 m
  then with_waitMask l1 (Z.ldiff (waitMask l1) (bit m)) else l1.

(** What [WaitOnLock] does to the entry when the thread was granted the lock. *)
Definition WaitOnLock_granted (l : LOCK) (m : Z) : LOCK :=
  if activeHolders l m =? holders l m
  then with_waitMask l (Z.ldiff (waitMask l) (bit m)) else l.

(** [ThreadLockWakeup] (with [LOCK_FIFO]): grant the lock to the waiters from
    the head on, up to the first that conflicts. *)
Fixpoint ThreadLockWakeup_loop (q : list Waiter) (l : LOCK) (s : LockSys) : LockSys :=
  match q with
  | [] => with_lock s (with_queue l [])
  | w :: q' =>
    if LockResolveConflicts (wmode w) l (LockCountMyLocks (wpid w) (htab s)) then
      let s1 := GrantLock (wpid w) (wxid w) (wmode w) s l in
      ThreadLockWakeup_loop q' (with_queue (grant_lock l (wmode w)) q')
        (mkLockSys (lock s1) (htab s1) (awake s1 ++ [w]) (pending s1))
    else with_lock s (with_queue l q)
  end.

Definition ThreadLockWakeup (l : LOCK) (s : LockSys) : LockSys :=
  ThreadLockWakeup_loop (waitThreads l) l s.

(** ** [LockAcquire] under the entry's mutex *)

Inductive AcquireResult := AcqGranted | AcqRefused | AcqSleeping | AcqDeadlock.

Definition LockAcquire_body (pid xid m : Z) (failfast : bool) (s : LockSys) (l0 : LOCK)
    : AcquireResult * LockSys :=
  let s1 := mkLockSys (lock s) (enter_holder pid xid (htab s)) (awake s) (pending s) in
  let holder := default (mkHOLDER pid xid (fun _ => 0) 0) (find_holder pid xid (htab s1)) in
  let l := bump l0 m 1 in
  if (hnHolding holder =? nActive l) || negb (hholders holder m =? 0) then
    (AcqGranted, GrantLock pid xid m s1 l)
  else
    let myHolders := LockCountMyLocks pid (htab s1) in
    if negb (myHolders m =? 0) then (AcqGranted, GrantLock pid xid m s1 l)
    else
      let forced := (conflictTab m .& waitMask l) &&
        negb (existsb (fun i => (0 <? myHolders i) && (conflictTab i .& waitMask l)) lock_modes) in
      if negb forced && LockResolveConflicts m l myHolders then
        (AcqGranted, GrantLock pid xid m s1 l)
      else if failfast || (lockmethod =? USER_LOCKMETHOD) then
        (AcqRefused,
         mkLockSys (Some (bump l m (-1)))
           (if hnHolding holder =? 0 then remove_holder pid xid (htab s1) else htab s1)
           (awake s1) (pending s1))
      else
        let w := mkWaiter pid xid m (LockGetMyHoldLocks pid (htab s1)) (waitMask l) in
        match ThreadEnqueue l w with
        | (wm, Some q) => (AcqSleeping, with_lock s1 (with_queue (with_waitMask l wm) q))
        | (wm, None) => (AcqDeadlock, with_lock s1 (WaitOnLock_failed (with_waitMask l wm) m))
        end.

(** ** [LockRelease] under the entry's mutex *)

Definition unlock_lock (l : LOCK) (m : Z) : LOCK :=
  let active' := upd (activeHolders l) m (activeHolders l m - 1) in
  mkLOCK (if active' m =? 0 then Z.ldiff (mask l) (bit m) else mask l) (waitMask l)
         (waitThreads l) (upd (holders l) m (holders l m - 1)) (nHolding l - 1)
         active' (nActive l - 1) (refs l) (removing l).

(** [SearchLockTable(HASH_REMOVE)] at the end of a release. *)
Definition finish_release (s : LockSys) : LockSys :=
  mkLockSys (match lock s with Some l => SearchLockTable_remove l | None => None end)
            (htab s) (awake s) (pending s).

Definition LockRelease_body (pid xid m : Z) (s : LockSys) (l : LOCK) : bool * LockSys :=
  match find_holder pid xid (htab s) with
  | None => (false, s)
  | Some h =>
    if negb (0 <? hholders h m) then (false, s)
    else
      let hs := if hnHolding h - 1 =? 0 then remove_holder pid xid (htab s)
                else update_holder pid xid (hbump m (-1)) (htab s) in
      let l1 := unlock_lock l m in
      let s1 := mkLockSys (Some l1) hs (awake s) (pending s) in
      (true, finish_release (if nHolding l1 =? 0 then s1 else ThreadLockWakeup l1 s1))
  end.

(** ** [LockReleaseAll] under the entry's mutex, for one holder *)

(** The loop over the modes in the branch where others hold or wait too. *)
Definition release_holder_modes (l : LOCK) (h : HOLDER) : LOCK :=
  let sub f := fun i => if (1 <=? i) && (i <=? numLockModes) then f i - hholders h i else f i in
  let active' := sub (activeHolders l) in
  mkLOCK (foldl (fun acc i => if active' i =? 0 then Z.ldiff acc (bit i) else acc)
            (mask l) lock_modes)
         (waitMask l) (waitThreads l) (sub (holders l)) (nHolding l - hnHolding h)
         active' (nActive l - hnHolding h) (refs l) (removing l).

Definition clear_lock (l : LOCK) : LOCK :=
  let clr f := fun i : Z => if (1 <=? i) && (i <=? numLockModes) then 0 else (f i : Z) in
  mkLOCK (mask l) (waitMask l) (waitThreads l) (clr (holders l)) 0 (clr (activeHolders l)) 0
         (refs l) (removing l).

Definition release_all_wakeup (l : LOCK) (h : HOLDER) : bool :=
  existsb (fun i => (0 <? hholders h i) && (conflictTab i .& waitMask l)) lock_modes.

(** The code walks to the holder by pointer; here its tag finds it ([None] has
    no counterpart in the code). *)
Definition LockReleaseAll_body (pid xid : Z) (s : LockSys) (l : LOCK) : LockSys :=
  match find_holder pid xid (htab s) with
  | None => s
  | Some h =>
    let others := negb (nHolding l =? hnHolding h) in
    let l1 := if others then release_holder_modes l h else clear_lock l in
    let wakeupNeeded := others && release_all_wakeup l h in
    let s1 := mkLockSys (Some l1) (remove_holder pid xid (htab s)) (awake s) (pending s) in
    finish_release
      (if negb (nHolding l1 =? 0) && wakeupNeeded then ThreadLockWakeup l1 s1 else s1)
  end.

(** The functions with nobody running between their phases. *)
Definition LockAcquire (pid xid m : Z) (failfast : bool) (s : LockSys) : AcquireResult * LockSys :=
  let l := SearchLockTable_enter (lock s) in
  LockAcquire_body pid xid m failfast (with_lock s l) l.

Definition LockRelease (pid xid m : Z) (s : LockSys) : result (bool * LockSys) :=
  l ← SearchLockTable_find (lock s);
  mret (LockRelease_body pid xid m (with_lock s l) l).

(** [LockReleaseAll] alone, with nobody running between its phases: every
    holder of the thread that the arguments select, newest first. *)
Definition release_all_one (pid : Z) (s : LockSys) (xid : Z) : result LockSys :=
  l ← SearchLockTable_find (lock s);
  mret (LockReleaseAll_body pid xid (with_lock s l) l).

Definition LockReleaseAll (pid : Z) (allxids : bool) (xid : Z) (s : LockSys) : result LockSys :=
  foldl (fun r x => s' ← r; release_all_one pid s' x) (Ok s)
    (hxid <$> base.filter (fun h => hpid h = pid /\ (allxids = true \/ hxid h = xid)) (htab s)).

(** ** Steps *)

Definition busy (s : LockSys) : list Z :=
  (wpid <$> from_option waitThreads [] (lock s)) ++ (wpid <$> awake s) ++ (ppid <$> pending s).

Definition valid_mode (m : Z) : Prop := 1 <= m <= 8.

Definition add_pending (s : LockSys) (l : LOCK) (p : Pending) : LockSys :=
  mkLockSys (Some l) (htab s) (awake s) (p :: pending s).
Definition drop_pending (s : LockSys) (ps : list Pending) : LockSys :=
  mkLockSys (lock s) (htab s) (awake s) ps.

(** One phase of one call, or a sleeper that ends its wait.  With [late], a
    sleeper may also give up after it was granted the lock. *)
Inductive lstep (late : bool) (s : LockSys) : LockSys -> Prop :=
| ls_acquire_enter pid xid m ff :
    pid ∉ busy s -> valid_mode m ->
    lstep late s (add_pending s (SearchLockTable_enter (lock s)) (PAcquire pid xid m ff))
| ls_acquire_body pid xid m ff ps1 ps2 l :
    pending s = ps1 ++ PAcquire pid xid m ff :: ps2 -> lock s = Some l ->
    lstep late s (snd (LockAcquire_body pid xid m ff (drop_pending s (ps1 ++ ps2)) l))
| ls_release_find pid xid m l :
    pid ∉ busy s -> valid_mode m -> SearchLockTable_find (lock s) = Ok l ->
    lstep late s (add_pending s l (PRelease pid xid m))
| ls_release_body pid xid m ps1 ps2 l :
    pending s = ps1 ++ PRelease pid xid m :: ps2 -> lock s = Some l ->
    lstep late s (snd (LockRelease_body pid xid m (drop_pending s (ps1 ++ ps2)) l))
| ls_release_all_find pid xid l :
    pid ∉ busy s -> is_Some (find_holder pid xid (htab s)) ->
    SearchLockTable_find (lock s) = Ok l ->
    lstep late s (add_pending s l (PReleaseAll pid xid))
| ls_release_all_body pid xid ps1 ps2 l :
    pending s = ps1 ++ PReleaseAll pid xid :: ps2 -> lock s = Some l ->
    lstep late s (LockReleaseAll_body pid xid (drop_pending s (ps1 ++ ps2)) l)
| ls_cancel w q1 q2 l :
    lock s = Some l -> waitThreads l = q1 ++ w :: q2 ->
    lstep late s (with_lock s
      (WaitOnLock_failed (with_waitMask (with_queue l (q1 ++ q2)) (worigMask w)) (wmode w)))
| ls_granted w a1 a2 l :
    lock s = Some l -> awake s = a1 ++ w :: a2 ->
    lstep late s (mkLockSys (Some (WaitOnLock_granted l (wmode w))) (htab s) (a1 ++ a2) (pending s))
| ls_cancel_granted w a1 a2 l :
    late = true -> lock s = Some l -> awake s = a1 ++ w :: a2 ->
    lstep late s (mkLockSys (Some (WaitOnLock_failed (with_waitMask l (worigMask w)) (wmode w)))
      (htab s) (a1 ++ a2) (pending s)).

Definition lock_init : LockSys := mkLockSys None [] [] [].

Definition lreachable (late : bool) : LockSys -> Prop := rtc (lstep late) lock_init.

End LockManager.

(** ** Sums over the holder table *)

Definition hsum (g : HOLDER -> Z) (hs : list HOLDER) : Z := sum_list (g <$> hs).
Definition htag (h : HOLDER) : Z * Z := (hpid h, hxid h).
Definition wtag (w : Waiter) : Z * Z := (wpid w, wxid w).

(** How many of a list of waiters satisfy a test. *)
Definition wcount (p : Waiter -> bool) (qs : list Waiter) : Z :=
  sum_list ((fun w => if p w then 1 else 0) <$> qs).

Lemma sum_list_app l1 l2 : sum_list (l1 ++ l2) = sum_list l1 + sum_list l2.
Proof. unfold sum_list. induction l1; simpl; lia. Qed.
Lemma hsum_app g a b : hsum g (a ++ b) = hsum g a + hsum g b.
Proof. unfold hsum. by rewrite fmap_app, sum_list_app. Qed.
Lemma hsum_cons g h b : hsum g (h :: b) = g h + hsum g b.
Proof. done. Qed.
Lemma wcount_app p a b : wcount p (a ++ b) = wcount p a + wcount p b.
Proof. unfold wcount. by rewrite fmap_app, sum_list_app. Qed.
Lemma wcount_cons p w b : wcount p (w :: b) = (if p w then 1 else 0) + wcount p b.
Proof. done. Qed.
Lemma wcount_nonneg p qs : 0 <= wcount p qs.
Proof.
  induction qs as [|w qs IH]; [done|]. rewrite wcount_cons. destruct (p w); lia.
Qed.
Lemma wcount_zero p qs : (forall w, w ∈ qs -> p w = false) -> wcount p qs = 0.
Proof.
  induction qs as [|w qs IH]; intros H; [done|]. rewrite wcount_cons, (H w) by set_solver.
  rewrite IH; [done|]. set_solver.
Qed.

Lemma hsum_le f g hs : (forall h, h ∈ hs -> f h <= g h) -> hsum f hs <= hsum g hs.
Proof.
  induction hs as [|h hs IH]; intros H; [done|]. rewrite !hsum_cons.
  assert (f h <= g h) by (apply H; set_solver).
  assert (hsum f hs <= hsum g hs) by (apply IH; set_solver). lia.
Qed.
Lemma hsum_ext f g hs : (forall h, h ∈ hs -> f h = g h) -> hsum f hs = hsum g hs.
Proof.
  intros H. apply Z.le_antisymm; apply hsum_le; intros h Hh; rewrite H by done; lia.
Qed.
Lemma hsum_zero hs : hsum (fun _ => 0) hs = 0.
Proof. induction hs as [|h hs IH]; [done|]. rewrite hsum_cons. lia. Qed.
Lemma hsum_nonneg f hs : (forall h, h ∈ hs -> 0 <= f h) -> 0 <= hsum f hs.
Proof. intros H. rewrite <- (hsum_zero hs). by apply hsum_le. Qed.
Lemma hsum_elem f hs h : (forall h', h' ∈ hs -> 0 <= f h') -> h ∈ hs -> f h <= hsum f hs.
Proof.
  intros Hf (a & b & ->)%list_elem_of_split. rewrite hsum_app, hsum_cons.
  assert (0 <= hsum f a) by (apply hsum_nonneg; set_solver).
  assert (0 <= hsum f b) by (apply hsum_nonneg; set_solver). lia.
Qed.
Lemma hsum_pos f hs : (forall h, h ∈ hs -> 0 <= f h) -> 0 < hsum f hs ->
  exists h, h ∈ hs /\ 0 < f h.
Proof.
  induction hs as [|h hs IH]; intros Hf Hp; [done|]. rewrite hsum_cons in Hp.
  destruct (decide (0 < f h)); [exists h; set_solver|].
  destruct IH as (h' & ? & ?); [set_solver|lia|exists h'; set_solver].
Qed.
Lemma hsum_plus f g hs : hsum (fun h => f h + g h) hs = hsum f hs + hsum g hs.
Proof. induction hs as [|h hs IH]; [done|]. rewrite !hsum_cons, IH. lia. Qed.

(** ** The holder table *)

Lemma is_tag_spec pid xid h : is_tag pid xid h = true <-> htag h = (pid, xid).
Proof.
  unfold is_tag, htag. rewrite andb_true_iff, !Z.eqb_eq. split; [intros [-> ->]|intros [= -> ->]]; done.
Qed.
Lemma is_tag_false pid xid h : is_tag pid xid h = false <-> htag h <> (pid, xid).
Proof. rewrite <- is_tag_spec. destruct (is_tag pid xid h); naive_solver. Qed.

(** A tag determines at most one holder: the table splits around it. *)
Lemma find_holder_split pid xid hs h : NoDup (htag <$> hs) ->
  find_holder pid xid hs = Some h ->
  exists a b, hs = a ++ h :: b /\ htag h = (pid, xid) /\
    (forall h', h' ∈ a ++ b -> is_tag pid xid h' = false).
Proof.
  induction hs as [|h0 hs IH]; [done|]. rewrite fmap_cons, NoDup_cons. intros [Hni Hnd]. simpl.
  destruct (is_tag pid xid h0) eqn:E.
  - intros [= ->]. apply is_tag_spec in E. exists [], hs. repeat split; [done|].
    intros h' Hh'. apply is_tag_false. intros Heq. apply Hni. rewrite E, <- Heq.
    by apply list_elem_of_fmap_2.
  - intros Hf. destruct (IH Hnd Hf) as (a & b & -> & Ht & Hab). exists (h0 :: a), b.
    repeat split; [done|]. set_solver.
Qed.

Lemma find_holder_elem pid xid hs h : find_holder pid xid hs = Some h ->
  h ∈ hs /\ htag h = (pid, xid).
Proof.
  induction hs as [|h0 hs IH]; [done|]. simpl. destruct (is_tag pid xid h0) eqn:E.
  - intros [= ->]. apply is_tag_spec in E. set_solver.
  - intros Hf. apply IH in Hf. set_solver.
Qed.

Lemma find_holder_None pid xid hs : find_holder pid xid hs = None ->
  forall h, h ∈ hs -> htag h <> (pid, xid).
Proof.
  induction hs as [|h0 hs IH]; simpl; [set_solver|]. destruct (is_tag pid xid h0) eqn:E; [done|].
  apply is_tag_false in E. set_solver.
Qed.

Lemma update_holder_id pid xid f hs : (forall h, h ∈ hs -> is_tag pid xid h = false) ->
  update_holder pid xid f hs = hs.
Proof.
  unfold update_holder. induction hs as [|h hs IH]; intros H; [done|]. rewrite fmap_cons.
  rewrite (H h) by set_solver. f_equal. apply IH. set_solver.
Qed.
Lemma update_holder_split pid xid f a h b : htag h = (pid, xid) ->
  (forall h', h' ∈ a ++ b -> is_tag pid xid h' = false) ->
  update_holder pid xid f (a ++ h :: b) = a ++ f h :: b.
Proof.
  intros Ht Hab. assert (forall x y, update_holder pid xid f (x ++ y) =
    update_holder pid xid f x ++ update_holder pid xid f y) as Happ
    by (intros; apply fmap_app).
  rewrite Happ, update_holder_id by set_solver. f_equal.
  change (h :: b) with ([h] ++ b). rewrite Happ, (update_holder_id _ _ _ b) by set_solver.
  unfold update_holder. simpl. apply is_tag_spec in Ht. by rewrite Ht.
Qed.
Lemma remove_holder_split pid xid a h b : htag h = (pid, xid) ->
  (forall h', h' ∈ a ++ b -> is_tag pid xid h' = false) ->
  remove_holder pid xid (a ++ h :: b) = a ++ b.
Proof.
  intros Ht Hab. unfold remove_holder.
  assert (forall x : list HOLDER, (forall h', h' ∈ x -> is_tag pid xid h' = false) ->
    base.filter (fun h => is_tag pid xid h = false) x = x) as Hid.
  { intros x Hx. induction x as [|y x IH]; [done|]. rewrite filter_cons, decide_True by set_solver.
    f_equal. apply IH. set_solver. }
  rewrite filter_app, filter_cons, decide_False.
  - rewrite (Hid a), (Hid b); [done| |]; intros h' Hh'; apply Hab, elem_of_app; auto.
  - apply is_tag_spec in Ht. congruence.
Qed.

(** ** Masks *)

Lemma testbit_bit m i : 0 <= m -> Z.testbit (bit m) i = (i =? m).
Proof.
  intros Hm. unfold bit. rewrite Z.shiftl_1_l. rewrite Z.pow2_bits_eqb by done.
  apply Z.eqb_sym.
Qed.

Lemma testbit_mode_mask p i : 0 <= i ->
  Z.testbit (mode_mask p) i = (1 <=? i) && (i <=? numLockModes) && p i.
Proof.
  intros Hi. unfold mode_mask. 
  assert (forall ms acc, Forall (fun m => 0 <= m) ms ->
    Z.testbit (foldl (fun acc i => if p i then Z.lor acc (bit i) else acc) acc ms) i =
    Z.testbit acc i || existsb (fun m => (m =? i) && p m) ms) as Hgen.
  { induction ms as [|m ms IH]; intros acc Hms; simpl; [by rewrite orb_false_r|].
    apply Forall_cons in Hms as [Hm Hms]. rewrite IH by done.
    destruct (p m).
    - rewrite Z.lor_spec, testbit_bit by done. rewrite andb_true_r, (Z.eqb_sym i m).
      by rewrite orb_assoc.
    - by rewrite andb_false_r. }
  rewrite Hgen by (unfold lock_modes; repeat constructor; lia). rewrite Z.bits_0, orb_false_l.
  destruct (decide (1 <= i <= 9)) as [Hr|Hr].
  - assert (i = 1 \/ i = 2 \/ i = 3 \/ i = 4 \/ i = 5 \/ i = 6 \/ i = 7 \/ i = 8 \/ i = 9)
      as Hc by lia.
    repeat destruct Hc as [->|Hc]; try subst i; simpl; by rewrite ?orb_false_r.
  - assert (existsb (fun m => (m =? i) && p m) lock_modes = false) as ->.
    { apply not_true_iff_false. intros Hex. apply existsb_exists in Hex as (m & Hin & Hm).
      bool_cases. subst m. unfold lock_modes in Hin. simpl in Hin. lia. }
    unfold numLockModes, MAX_LOCKMODES. destruct (Z.leb_spec 1 i), (Z.leb_spec i (10 - 1)); try done; lia.
Qed.

(** ** The invariant *)

Section Invariant.
Context (conflict9 garbage lockmethod : Z).
Notation conflictTab := (conflictTab conflict9).
Notation LockResolveConflicts := (LockResolveConflicts conflict9).
Notation ThreadEnqueue := (ThreadEnqueue conflict9).
Notation ThreadEnqueue_loop := (ThreadEnqueue_loop conflict9).
Notation ThreadLockWakeup_loop := (ThreadLockWakeup_loop conflict9).
Notation ThreadLockWakeup := (ThreadLockWakeup conflict9).
Notation LockAcquire_body := (LockAcquire_body conflict9 lockmethod).
Notation LockRelease_body := (LockRelease_body conflict9).
Notation LockReleaseAll_body := (LockReleaseAll_body conflict9).
Notation lstep := (lstep conflict9 garbage lockmethod).
Notation lreachable := (lreachable conflict9 garbage lockmethod false).

Definition holder_ok (h : HOLDER) : Prop :=
  (forall m, 0 <= hholders h m) /\ (forall m, 0 < hholders h m -> valid_mode m) /\
  hnHolding h = sum_list (hholders h <$> lock_modes).

(** No two threads hold conflicting modes. *)
Definition compatible (hs : list HOLDER) : Prop :=
  forall h1 h2, h1 ∈ hs -> h2 ∈ hs -> hpid h1 <> hpid h2 ->
  forall m1 m2, 0 < hholders h1 m1 -> 0 < hholders h2 m2 ->
    Z.testbit (conflictTab m1) m2 = false.

(** The counters of the entry against the holder table and the threads [qs]
    that are counted as waiting. *)
Record counts_ok (l : LOCK) (hs : list HOLDER) (qs : list Waiter) : Prop := {
  c_tags : NoDup (htag <$> hs);
  c_holder : forall h, h ∈ hs -> holder_ok h;
  c_active : forall m, activeHolders l m = hsum (fun h => hholders h m) hs;
  c_nActive : nActive l = hsum hnHolding hs;
  c_mask : forall m, 0 < activeHolders l m -> Z.testbit (mask l) m = true;
  c_holders : forall m, holders l m = activeHolders l m + wcount (fun w => wmode w =? m) qs;
  c_nHolding : nHolding l = nActive l + Zlen qs;
  c_queue : forall w, w ∈ qs ->
    valid_mode (wmode w) /\ exists h, h ∈ hs /\ htag h = wtag w;
  c_compat : compatible hs;
}.

(** The references a holder entry accounts for. *)
Definition need1 (qs : list Waiter) (h : HOLDER) : Z :=
  Z.max 1 (hnHolding h + wcount (fun w => is_tag (wpid w) (wxid w) h) qs).
Definition need (qs : list Waiter) (hs : list HOLDER) : Z := hsum (need1 qs) hs.

Definition pcount (p : Pending -> bool) (ps : list Pending) : Z :=
  sum_list ((fun x => if p x then 1 else 0) <$> ps).

Definition pending_ok (p : Pending) : Prop :=
  match p with PAcquire _ _ m _ | PRelease _ _ m => valid_mode m | PReleaseAll _ _ => True end.

(** A thread that was granted the lock in its sleep holds it. *)
Definition awake_ok (aw : list Waiter) (hs : list HOLDER) : Prop :=
  forall w, w ∈ aw -> exists h, h ∈ hs /\ htag h = wtag w /\ 0 < hholders h (wmode w).

Record entry_ok (s : LockSys) (l : LOCK) : Prop := {
  e_counts : counts_ok l (htab s) (waitThreads l);
  e_refs : need (waitThreads l) (htab s) + pcount is_acquire (pending s) <= refs l + removing l;
  e_removing : pcount (fun p => negb (is_acquire p)) (pending s) <= removing l;
  e_awake : awake_ok (awake s) (htab s);
  e_pending : forall p, p ∈ pending s -> pending_ok p;
}.

Record lock_inv (s : LockSys) : Prop := {
  i_busy : NoDup (busy s);
  i_entry : match lock s with
            | Some l => entry_ok s l
            | None => htab s = [] /\ awake s = [] /\ pending s = []
            end;
}.

Lemma conflictTab_sym m1 m2 : valid_mode m1 -> valid_mode m2 ->
  Z.testbit (conflictTab m1) m2 = Z.testbit (conflictTab m2) m1.
Proof.
  unfold valid_mode. intros H1 H2.
  assert (forall m, 1 <= m <= 8 -> m ∈ [1;2;3;4;5;6;7;8]) as Hin
    by (intros; rewrite !elem_of_cons; lia).
  apply Hin in H1, H2. rewrite !elem_of_cons, elem_of_nil in H1, H2.
  repeat destruct H1 as [->|H1]; try done; repeat destruct H2 as [->|H2]; try done; vm_compute; done.
Qed.

(** ** Conflicts with the locks of others *)

(** Another thread holds a mode that conflicts with [m]. *)
Definition blocked_by (pid m : Z) (hs : list HOLDER) : Prop :=
  exists h m', h ∈ hs /\ hpid h <> pid /\ 0 < hholders h m' /\
    Z.testbit (conflictTab m) m' = true.

Lemma count_mine_others pid hs i :
  hsum (fun h => hholders h i) hs =
  LockCountMyLocks pid hs i + hsum (fun h => if hpid h =? pid then 0 else hholders h i) hs.
Proof.
  unfold LockCountMyLocks. fold (hsum (fun h => if hpid h =? pid then hholders h i else 0) hs).
  rewrite <- hsum_plus. apply hsum_ext. intros h _. case_match; lia.
Qed.

Lemma others_hold l hs qs pid i : counts_ok l hs qs ->
  activeHolders l i <> LockCountMyLocks pid hs i ->
  exists h, h ∈ hs /\ hpid h <> pid /\ 0 < hholders h i.
Proof.
  intros C Hne. rewrite (c_active _ _ _ C), (count_mine_others pid) in Hne.
  assert (forall h, h ∈ hs -> 0 <= (if hpid h =? pid then 0 else hholders h i)) as Hnn.
  { intros h Hh. case_match; [lia|]. by apply (c_holder _ _ _ C). }
  pose proof (hsum_nonneg _ _ Hnn).
  destruct (hsum_pos _ _ Hnn) as (h & Hh & Hp); [lia|]. exists h.
  destruct (Z.eqb_spec (hpid h) pid); [lia|done].
Qed.

Lemma LockResolveConflicts_blocked l hs qs pid m : counts_ok l hs qs -> valid_mode m ->
  LockResolveConflicts m l (LockCountMyLocks pid hs) = false -> blocked_by pid m hs.
Proof.
  intros C Hm. unfold Lock.LockResolveConflicts. case_match; [done|]. intros Hf. bool_cases.
  apply flag_true in Hf as (i & Hi & Hc & Hb). rewrite testbit_mode_mask in Hb by done.
  bool_cases. destruct (others_hold _ _ _ pid i C) as (h & Hh & Hp & Hpos); [done|].
  exists h, i. done.
Qed.

Lemma LockResolveConflicts_ok l hs qs pid m : counts_ok l hs qs ->
  LockResolveConflicts m l (LockCountMyLocks pid hs) = true -> ~ blocked_by pid m hs.
Proof.
  intros C Hr (h & m' & Hh & Hp & Hpos & Hc).
  pose proof (c_holder _ _ _ C h Hh) as (Hnn & Hval & _).
  destruct (Hval _ Hpos) as [Hm1 Hm8].
  assert (0 < hsum (fun h => if hpid h =? pid then 0 else hholders h m') hs) as Ho.
  { eapply Z.lt_le_trans; [exact Hpos|].
    pose proof (hsum_elem (fun h => if hpid h =? pid then 0 else hholders h m') hs h) as Hel.
    simpl in Hel. destruct (Z.eqb_spec (hpid h) pid); [done|]. apply Hel; [|done].
    intros h' Hh'. case_match; [lia|]. by apply (c_holder _ _ _ C). }
  assert (0 <= LockCountMyLocks pid hs m') as Hmy.
  { apply hsum_nonneg. intros h' Hh'. case_match; [|lia]. by apply (c_holder _ _ _ C). }
  pose proof (c_active _ _ _ C m') as Hact. rewrite (count_mine_others pid) in Hact.
  unfold Lock.LockResolveConflicts in Hr. case_match eqn:E; bool_cases.
  - pose proof (flag_false _ _ m' E ltac:(lia) Hc) as Hbit.
    rewrite (c_mask _ _ _ C m') in Hbit by lia. done.
  - pose proof (flag_false _ _ m' Hr ltac:(lia) Hc) as Hb. rewrite testbit_mode_mask in Hb by lia.
    assert (activeHolders l m' =? LockCountMyLocks pid hs m' = false) as Hne by (apply Z.eqb_neq; lia).
    rewrite Hne in Hb. unfold numLockModes, MAX_LOCKMODES in Hb.
    destruct (Z.leb_spec 1 m'), (Z.leb_spec m' (10 - 1)); simpl in Hb; try discriminate; lia.
Qed.

(** ** The counters under the elementary updates *)

#[local] Instance sum_list_perm : Proper ((≡ₚ) ==> (=)) sum_list.
Proof. intros l1 l2 H. induction H; simpl in *; lia. Qed.
#[local] Instance wcount_perm p : Proper ((≡ₚ) ==> (=)) (wcount p).
Proof. intros q1 q2 H. unfold wcount. by rewrite H. Qed.

Lemma counts_ok_perm l hs q1 q2 : q1 ≡ₚ q2 -> counts_ok l hs q1 -> counts_ok l hs q2.
Proof.
  intros Hq C. destruct C. split; try done.
  - intros m. by rewrite <- Hq.
  - by rewrite <- Hq.
  - intros w. rewrite <- Hq. auto.
Qed.

(** The counters do not depend on the wait mask, the queue and the reference counts. *)
Lemma counts_ok_fields l l' hs qs : mask l = mask l' -> holders l = holders l' ->
  nHolding l = nHolding l' -> activeHolders l = activeHolders l' -> nActive l = nActive l' ->
  counts_ok l hs qs -> counts_ok l' hs qs.
Proof.
  intros E1 E2 E3 E4 E5 C. destruct C.
  split; try done; rewrite <- ?E1, <- ?E2, <- ?E3, <- ?E4, <- ?E5; done.
Qed.

Lemma sum_modes_upd f m d : valid_mode m ->
  sum_list (upd f m (f m + d) <$> lock_modes) = sum_list (f <$> lock_modes) + d.
Proof.
  unfold valid_mode. intros Hm.
  assert (m = 1 \/ m = 2 \/ m = 3 \/ m = 4 \/ m = 5 \/ m = 6 \/ m = 7 \/ m = 8) as Hc by lia.
  repeat destruct Hc as [->|Hc]; try subst m; unfold upd, lock_modes, sum_list; simpl; lia.
Qed.

Lemma hholders_hbump m d h i : hholders (hbump m d h) i = hholders h i + (if i =? m then d else 0).
Proof. simpl. unfold upd. destruct (Z.eqb_spec i m) as [->|]; lia. Qed.

Lemma holder_ok_hbump m d h : valid_mode m -> 0 <= hholders h m + d ->
  holder_ok h -> holder_ok (hbump m d h).
Proof.
  intros Hm Hd (Hnn & Hv & Hs). split_and!; try (intros i; rewrite hholders_hbump).
  - specialize (Hnn i). destruct (Z.eqb_spec i m); subst; lia.
  - intros Hp. destruct (Z.eqb_spec i m); [subst; apply Hm|]. apply Hv. lia.
  - unfold hbump. cbn [hnHolding hholders]. by rewrite sum_modes_upd, Hs.
Qed.

Lemma bump_ok l hs qs w : counts_ok l hs qs -> valid_mode (wmode w) ->
  (exists h, h ∈ hs /\ htag h = wtag w) -> counts_ok (bump l (wmode w) 1) hs (w :: qs).
Proof.
  intros C Hm Hh. destruct C. split; simpl; try done.
  - intros m. rewrite wcount_cons. unfold upd. rewrite (Z.eqb_sym (wmode w) m).
    rewrite !c_holders0. destruct (Z.eqb_spec m (wmode w)); subst; lia.
  - lia.
  - intros w' [->|]%elem_of_cons; auto.
Qed.

Lemma unbump_ok l hs qs w : counts_ok l hs (w :: qs) -> counts_ok (bump l (wmode w) (-1)) hs qs.
Proof.
  intros C. destruct C. split; simpl; try done.
  - intros m. unfold upd. rewrite !c_holders0, !wcount_cons, Z.eqb_refl, (Z.eqb_sym (wmode w) m).
    destruct (Z.eqb_spec m (wmode w)); subst; lia.
  - simpl in *. lia.
  - intros w' Hw'. apply c_queue0. by right.
Qed.

Lemma enter_ok l hs qs pid xid : counts_ok l hs qs -> counts_ok l (enter_holder pid xid hs) qs.
Proof.
  intros C. unfold enter_holder. case_match eqn:Ef; [done|]. destruct C. split; try done.
  - rewrite fmap_cons, NoDup_cons. split; [|done]. intros (h & Ht & Hh)%list_elem_of_fmap.
    by apply (find_holder_None _ _ _ Ef h Hh).
  - intros h [->|]%elem_of_cons; [|auto]. split_and!; simpl; [done|lia|done].
  - intros w Hw. destruct (c_queue0 w Hw) as (? & h & ? & ?). split; [done|]. exists h. set_solver.
  - intros h1 h2 [->|]%elem_of_cons [->|]%elem_of_cons; simpl; intros; try lia; eauto.
Qed.

Lemma enter_find pid xid hs : exists h, find_holder pid xid (enter_holder pid xid hs) = Some h.
Proof.
  unfold enter_holder. case_match eqn:Ef; [eauto|]. simpl. unfold is_tag. simpl.
  rewrite !Z.eqb_refl. eauto.
Qed.

Lemma holder_split hs h : NoDup (htag <$> hs) -> h ∈ hs ->
  exists a b, hs = a ++ h :: b /\
    forall h', h' ∈ a ++ b -> is_tag (hpid h) (hxid h) h' = false.
Proof.
  intros Hnd (a & b & ->)%list_elem_of_split. exists a, b. split; [done|]. intros h' Hh'.
  apply is_tag_false. intros Heq. rewrite fmap_app, fmap_cons, NoDup_app, NoDup_cons in Hnd.
  destruct Hnd as (_ & Hd & Hni & _). change (hpid h, hxid h) with (htag h) in Heq.
  apply elem_of_app in Hh' as [Hh'|Hh'].
  - apply (Hd (htag h')); [by apply list_elem_of_fmap_2|]. rewrite Heq. by left.
  - apply Hni. rewrite <- Heq. by apply list_elem_of_fmap_2.
Qed.

Lemma elem_mid (x y : HOLDER) a b : x ∈ a ++ y :: b <-> x = y \/ x ∈ a ++ b.
Proof. set_solver. Qed.

(** Replacing a holder by one that gained at most a mode nobody else blocks. *)
Lemma compatible_replace a h b h' m0 : (forall x, x ∈ a ++ h :: b -> holder_ok x) ->
  compatible (a ++ h :: b) -> hpid h' = hpid h ->
  (forall m, 0 < hholders h' m -> 0 < hholders h m \/
     m = m0 /\ valid_mode m0 /\ ~ blocked_by (hpid h) m0 (a ++ h :: b)) ->
  compatible (a ++ h' :: b).
Proof.
  intros Hok HC Hp Hm.
  assert (forall x m1 m2, x ∈ a ++ b -> hpid x <> hpid h -> 0 < hholders h' m1 ->
    0 < hholders x m2 -> Z.testbit (conflictTab m1) m2 = false /\
    Z.testbit (conflictTab m2) m1 = false) as Hpair.
  { intros x m1 m2 Hx Hpx H1 H2. assert (x ∈ a ++ h :: b) as Hx' by set_solver.
    destruct (Hm m1 H1) as [Hold|(-> & Hv & Hnb)].
    - split; [apply (HC h x)|apply (HC x h)]; try done; set_solver.
    - assert (Z.testbit (conflictTab m0) m2 = false) as Hc.
      { apply not_true_iff_false. intros Ht. apply Hnb. exists x, m2. done. }
      split; [done|]. rewrite conflictTab_sym; [done| |done]. by apply (Hok x Hx'). }
  intros h1 h2 H1 H2 Hne m1 m2 Hp1 Hp2.
  apply elem_mid in H1 as [->|H1], H2 as [->|H2]; [done| | |].
  - apply (Hpair h2 m1 m2); try done; congruence.
  - apply (Hpair h1 m2 m1); try done; congruence.
  - apply (HC h1 h2); try done; apply elem_mid; auto.
Qed.

Lemma hsum_replace g a h b h' : hsum g (a ++ h' :: b) = hsum g (a ++ h :: b) + (g h' - g h).
Proof. rewrite !hsum_app, !hsum_cons. lia. Qed.

Lemma fmap_tag_replace a h b h' : htag h' = htag h ->
  htag <$> (a ++ h' :: b) = htag <$> (a ++ h :: b).
Proof. intros Ht. by rewrite !fmap_app, !fmap_cons, Ht. Qed.

Lemma grant_ok l hs qs w : counts_ok l hs (w :: qs) -> ~ blocked_by (wpid w) (wmode w) hs ->
  counts_ok (grant_lock l (wmode w)) (update_holder (wpid w) (wxid w) (hbump (wmode w) 1) hs) qs.
Proof.
  intros C Hnb. destruct (c_queue _ _ _ C w) as (Hv & h & Hh & Ht); [by left|].
  destruct (holder_split hs h (c_tags _ _ _ C) Hh) as (a & b & -> & Hab).
  injection Ht as Hp Hx. rewrite <- Hp, <- Hx in *. rewrite update_holder_split by done.
  set (h' := hbump (wmode w) 1 h). destruct C. split; simpl.
  - rewrite (fmap_tag_replace a h b h') by done. done.
  - intros x [->|Hxin]%elem_mid; [|apply c_holder0, elem_mid; auto].
    apply holder_ok_hbump; [done| |by apply c_holder0].
    destruct (c_holder0 h Hh) as (Hnn & _). specialize (Hnn (wmode w)). lia.
  - intros m. rewrite (hsum_replace _ a h b h'), <- c_active0. unfold h', upd. simpl. unfold upd.
    destruct (Z.eqb_spec m (wmode w)); subst; lia.
  - rewrite (hsum_replace _ a h b h'), <- c_nActive0. simpl. lia.
  - intros m. unfold upd. rewrite Z.lor_spec, testbit_bit by (unfold valid_mode in Hv; lia).
    destruct (Z.eqb_spec m (wmode w)); [by rewrite orb_true_r|]. intros Hpos.
    by rewrite c_mask0.
  - intros m. unfold upd. rewrite !c_holders0, wcount_cons, (Z.eqb_sym (wmode w) m).
    destruct (Z.eqb_spec m (wmode w)); subst; lia.
  - simpl in *. lia.
  - intros w' Hw'. destruct (c_queue0 w') as (? & h1 & Hh1 & Ht1); [by right|]. split; [done|].
    apply elem_mid in Hh1 as [->|Hh1].
    + exists h'. split; [apply elem_mid; auto|done].
    + exists h1. split; [apply elem_mid; auto|done].
  - apply (compatible_replace a h b h' (wmode w)); try done.
    intros m. unfold h'. rewrite hholders_hbump. destruct (Z.eqb_spec m (wmode w)); [auto|].
    intros. left. lia.
Qed.

Lemma compatible_sub hs hs' : hs' ⊆ hs -> compatible hs -> compatible hs'.
Proof. intros Hs HC h1 h2 H1 H2. apply HC; by apply Hs. Qed.

Lemma hholders_le_n h i : holder_ok h -> hholders h i <= hnHolding h.
Proof.
  intros (Hnn & Hv & Hs). destruct (decide (0 < hholders h i)) as [Hp|Hp].
  - apply Hv in Hp. rewrite Hs.
    assert (hholders h 1 >= 0 /\ hholders h 2 >= 0 /\ hholders h 3 >= 0 /\ hholders h 4 >= 0 /\
      hholders h 5 >= 0 /\ hholders h 6 >= 0 /\ hholders h 7 >= 0 /\ hholders h 8 >= 0 /\
      hholders h 9 >= 0) as Hall by (repeat split; apply Z.le_ge, Hnn).
    unfold valid_mode in Hp.
    assert (i = 1 \/ i = 2 \/ i = 3 \/ i = 4 \/ i = 5 \/ i = 6 \/ i = 7 \/ i = 8) as Hc by lia.
    unfold lock_modes, sum_list. simpl.
    repeat destruct Hc as [->|Hc]; try subst i; lia.
  - assert (0 <= hnHolding h); [|lia]. rewrite Hs. unfold lock_modes, sum_list. simpl.
    pose proof (Hnn 1). pose proof (Hnn 2). pose proof (Hnn 3). pose proof (Hnn 4).
    pose proof (Hnn 5). pose proof (Hnn 6). pose proof (Hnn 7). pose proof (Hnn 8).
    pose proof (Hnn 9). lia.
Qed.

Lemma hnHolding_nonneg h : holder_ok h -> 0 <= hnHolding h.
Proof.
  intros Hok. pose proof (hholders_le_n h 1 Hok). destruct Hok as (Hnn & _). specialize (Hnn 1). lia.
Qed.

Lemma hholders_invalid h i : holder_ok h -> ~ valid_mode i -> hholders h i = 0.
Proof.
  intros (Hnn & Hv & _) Hi. specialize (Hnn i). destruct (decide (0 < hholders h i)); [|lia].
  by destruct Hi; apply Hv.
Qed.

(** Nobody in [qs] waits with the tag of [h]. *)
Definition unqueued (h : HOLDER) (qs : list Waiter) : Prop := forall w, w ∈ qs -> wtag w <> htag h.

Lemma queue_without a h b qs l : counts_ok l (a ++ h :: b) qs -> unqueued h qs ->
  forall w, w ∈ qs -> valid_mode (wmode w) /\ exists h', h' ∈ a ++ b /\ htag h' = wtag w.
Proof.
  intros C Hu w Hw. destruct (c_queue _ _ _ C w Hw) as (? & h' & [->|Hh']%elem_mid & Ht).
  - by destruct (Hu w Hw).
  - eauto.
Qed.

Lemma tags_without a h b : NoDup (htag <$> (a ++ h :: b)) -> NoDup (htag <$> (a ++ b)).
Proof.
  rewrite <- (Permutation_middle a b h), fmap_cons, NoDup_cons. by intros [_ ?].
Qed.

Lemma remove_zero_ok l a h b qs : counts_ok l (a ++ h :: b) qs -> hnHolding h = 0 ->
  unqueued h qs -> counts_ok l (a ++ b) qs.
Proof.
  intros C H0 Hu. pose proof (c_holder _ _ _ C h ltac:(apply elem_mid; auto)) as Hok.
  pose proof (queue_without _ _ _ _ _ C Hu). destruct C. split; try done.
  - by eapply tags_without.
  - intros h' Hh'. apply c_holder0, elem_mid. auto.
  - intros m. pose proof (hholders_le_n h m Hok). destruct Hok as (Hnn & _). specialize (Hnn m).
    rewrite c_active0, !hsum_app, hsum_cons. lia.
  - rewrite c_nActive0, !hsum_app, hsum_cons. lia.
  - eapply compatible_sub; [|done]. intros x. rewrite elem_mid. auto.
Qed.

Lemma unlock_ok l a h b qs m : counts_ok l (a ++ h :: b) qs -> 0 < hholders h m ->
  counts_ok (unlock_lock l m) (a ++ hbump m (-1) h :: b) qs.
Proof.
  intros C Hpos. pose proof (c_holder _ _ _ C h ltac:(apply elem_mid; auto)) as Hok.
  assert (valid_mode m) as Hv by (by apply Hok). set (h' := hbump m (-1) h).
  destruct C. split; simpl.
  - by rewrite (fmap_tag_replace a h b h').
  - intros x [->|Hx]%elem_mid; [|apply c_holder0, elem_mid; auto].
    apply holder_ok_hbump; [done|lia|done].
  - intros i. rewrite (hsum_replace _ a h b h'), <- c_active0. unfold h', upd. simpl. unfold upd.
    destruct (Z.eqb_spec i m); subst; lia.
  - rewrite (hsum_replace _ a h b h'), <- c_nActive0. simpl. lia.
  - intros i. rewrite upd_eq. unfold upd. unfold valid_mode in Hv.
    destruct (Z.eqb_spec (activeHolders l m - 1) 0) as [E|E].
    + rewrite Z.ldiff_spec, testbit_bit by lia.
      destruct (Z.eqb_spec i m); [subst; lia|]. intros. by rewrite c_mask0.
    + destruct (Z.eqb_spec i m); [|auto]. subst. intros. apply c_mask0. lia.
  - intros i. unfold upd. rewrite !c_holders0. destruct (Z.eqb_spec i m); subst; lia.
  - lia.
  - intros w Hw. destruct (c_queue0 w Hw) as (? & h1 & [->|Hh1]%elem_mid & Ht1); (split; [done|]).
    + exists h'. split; [apply elem_mid; auto|done].
    + exists h1. split; [apply elem_mid; auto|done].
  - apply (compatible_replace a h b h' 0); try done.
    intros i. unfold h'. rewrite hholders_hbump. intros. left. destruct (i =? m); lia.
Qed.

Lemma testbit_mask_off (f : Z -> Z) i : forall ms acc, 0 <= i -> Forall (fun m => 0 <= m) ms ->
  f i <> 0 ->
  Z.testbit (foldl (fun acc i => if f i =? 0 then Z.ldiff acc (bit i) else acc) acc ms) i =
  Z.testbit acc i.
Proof.
  induction ms as [|m ms IH]; intros acc Hi Hms Hf; simpl; [done|].
  apply Forall_cons in Hms as [Hm Hms]. rewrite IH by done. case_match; [|done]. bool_cases.
  rewrite Z.ldiff_spec, testbit_bit by done. destruct (Z.eqb_spec i m); [by subst|].
  by rewrite andb_true_r.
Qed.

Lemma in_modes_range i : valid_mode i -> (1 <=? i) && (i <=? numLockModes) = true.
Proof.
  unfold valid_mode, numLockModes, MAX_LOCKMODES. intros.
  apply andb_true_iff. rewrite !Z.leb_le. lia.
Qed.

Lemma release_modes_ok l a h b qs : counts_ok l (a ++ h :: b) qs -> unqueued h qs ->
  counts_ok (release_holder_modes l h) (a ++ b) qs.
Proof.
  intros C Hu. pose proof (c_holder _ _ _ C h ltac:(apply elem_mid; auto)) as Hok.
  pose proof (queue_without _ _ _ _ _ C Hu) as Hq.
  assert (forall (f : Z -> Z) i, (if (1 <=? i) && (i <=? numLockModes) then f i - hholders h i
    else f i) = f i - hholders h i) as Hsub.
  { intros f i. case_match eqn:E; [done|]. rewrite hholders_invalid; [lia|done|].
    intros Hv. apply in_modes_range in Hv. congruence. }
  assert (forall x, x ∈ a ++ b -> holder_ok x) as Hoks
    by (intros x Hx; apply (c_holder _ _ _ C), elem_mid; auto).
  destruct C. unfold release_holder_modes.
  split; cbn [mask holders nHolding activeHolders nActive]; try done.
  - by eapply tags_without.
  - intros m. rewrite Hsub, c_active0, !hsum_app, hsum_cons. lia.
  - rewrite c_nActive0, !hsum_app, hsum_cons. lia.
  - intros m Hpos. rewrite Hsub, c_active0, hsum_app, hsum_cons in Hpos.
    destruct (hsum_pos (fun x => hholders x m) (a ++ b)) as (x & Hx & Hxp).
    { intros x Hx. by apply Hoks. }
    { rewrite hsum_app. lia. }
    destruct (Hoks x Hx) as (_ & Hv & _). apply Hv in Hxp. unfold valid_mode in Hxp.
    destruct Hok as (Hnn & _). specialize (Hnn m).
    rewrite (testbit_mask_off (fun i => if (1 <=? i) && (i <=? numLockModes)
      then activeHolders l i - hholders h i else activeHolders l i)).
    + apply c_mask0. rewrite c_active0, hsum_app, hsum_cons. lia.
    + lia.
    + unfold lock_modes. repeat constructor; lia.
    + rewrite Hsub, c_active0, hsum_app, hsum_cons. lia.
  - intros m. rewrite !Hsub, c_holders0. lia.
  - lia.
  - eapply compatible_sub; [|done]. intros x. rewrite elem_mid. auto.
Qed.

Lemma clear_ok l a h b qs : counts_ok l (a ++ h :: b) qs -> nHolding l = hnHolding h ->
  counts_ok (clear_lock l) (a ++ b) qs /\ qs = [].
Proof.
  intros C Hn.
  assert (forall x, x ∈ a ++ b -> holder_ok x) as Hoks
    by (intros x Hx; apply (c_holder _ _ _ C), elem_mid; auto).
  pose proof (c_nHolding _ _ _ C) as HnH. pose proof (c_nActive _ _ _ C) as HnA.
  rewrite hsum_app, hsum_cons in HnA.
  assert (0 <= hsum hnHolding (a ++ b)) as Hnn
    by (apply hsum_nonneg; intros; by apply hnHolding_nonneg, Hoks).
  rewrite hsum_app in Hnn. assert (qs = []) as -> by (destruct qs; [done|simpl in *; lia]).
  assert (forall x i, x ∈ a ++ b -> hholders x i = 0) as Hz.
  { intros x i Hx. pose proof (hholders_le_n x i (Hoks x Hx)).
    destruct (Hoks x Hx) as (Hge & _). specialize (Hge i).
    pose proof (hsum_elem hnHolding (a ++ b) x ltac:(intros; by apply hnHolding_nonneg, Hoks) Hx) as He.
    rewrite hsum_app in He. simpl in HnH. lia. }
  split; [|done].
  assert (forall m, (if (1 <=? m) && (m <=? numLockModes) then 0 else activeHolders l m) = 0) as Hact.
  { intros m. case_match eqn:E; [done|]. rewrite (c_active _ _ _ C).
    transitivity (hsum (fun _ => 0) (a ++ h :: b)); [|apply hsum_zero]. apply hsum_ext.
    intros x Hx. apply hholders_invalid; [by apply (c_holder _ _ _ C)|].
    intros Hv. apply in_modes_range in Hv. congruence. }
  assert (forall m, hsum (fun x => hholders x m) (a ++ b) = 0) as Hs0.
  { intros m. rewrite <- (hsum_zero (a ++ b)). apply hsum_ext. intros x Hx. by apply Hz. }
  destruct C. split; simpl; try done.
  - by eapply tags_without.
  - intros m. by rewrite Hact, Hs0.
  - rewrite hsum_app. simpl in HnH. lia.
  - intros m. rewrite Hact. lia.
  - intros m. rewrite Hact. case_match eqn:E; [done|]. rewrite c_holders0. pose proof (Hact m) as Ha.
    rewrite E in Ha. rewrite Ha. done.
  - set_solver.
  - eapply compatible_sub; [|done]. intros x. rewrite elem_mid. auto.
Qed.

(** ** The references a holder table accounts for *)

Lemma need1_pos qs h : 1 <= need1 qs h.
Proof. unfold need1. lia. Qed.
Lemma need_nonneg qs hs : 0 <= need qs hs.
Proof. apply hsum_nonneg. intros h _. pose proof (need1_pos qs h). lia. Qed.
Lemma need_zero qs hs : need qs hs <= 0 -> hs = [].
Proof.
  destruct hs as [|h hs]; [done|]. unfold need. rewrite hsum_cons.
  pose proof (need1_pos qs h). pose proof (need_nonneg qs hs). unfold need in *. lia.
Qed.
Lemma need_perm q1 q2 hs : q1 ≡ₚ q2 -> need q1 hs = need q2 hs.
Proof. intros Hq. apply hsum_ext. intros h _. unfold need1. by rewrite Hq. Qed.
Lemma need_drop w qs hs : need qs hs <= need (w :: qs) hs.
Proof. apply hsum_le. intros h _. unfold need1. rewrite wcount_cons. case_match; lia. Qed.

Lemma need_remove qs a h b : need qs (a ++ b) <= need qs (a ++ h :: b) - 1.
Proof. unfold need. rewrite !hsum_app, hsum_cons. pose proof (need1_pos qs h). lia. Qed.

Lemma need_grant qs w m hs :
  need qs (update_holder (wpid w) (wxid w) (hbump m 1) hs) = need (w :: qs) hs.
Proof.
  unfold need, update_holder, hsum. rewrite <- list_fmap_compose.
  apply (hsum_ext (need1 qs ∘ _) (need1 (w :: qs))). intros h _. unfold need1, compose.
  rewrite wcount_cons. destruct (is_tag (wpid w) (wxid w) h) eqn:E; [|done].
  unfold hbump, is_tag. simpl. lia.
Qed.

Lemma need_enter l hs qs w : counts_ok l hs qs ->
  need (w :: qs) (enter_holder (wpid w) (wxid w) hs) <= need qs hs + 1.
Proof.
  intros C. unfold enter_holder. destruct (find_holder _ _ hs) as [h|] eqn:Ef.
  - destruct (find_holder_split _ _ _ _ (c_tags _ _ _ C) Ef) as (a & b & -> & Ht & Hab).
    assert (forall x, x ∈ a ++ b -> need1 (w :: qs) x = need1 qs x) as Hsame.
    { intros x Hx. unfold need1. by rewrite wcount_cons, Hab. }
    unfold need. rewrite !hsum_app, !hsum_cons.
    rewrite (hsum_ext (need1 (w :: qs)) (need1 qs) a), (hsum_ext (need1 (w :: qs)) (need1 qs) b)
      by (intros; apply Hsame; set_solver).
    unfold need1. rewrite wcount_cons. case_match; lia.
  - pose proof (find_holder_None _ _ _ Ef) as Hno. unfold need. rewrite hsum_cons.
    rewrite (hsum_ext (need1 (w :: qs)) (need1 qs) hs).
    2: { intros x Hx. unfold need1. rewrite wcount_cons.
         assert (is_tag (wpid w) (wxid w) x = false) as -> by (apply is_tag_false; auto). done. }
    unfold need1 at 1. rewrite wcount_cons, (wcount_zero _ qs).
    + simpl. case_match; lia.
    + intros w' Hw'. apply is_tag_false. unfold htag. simpl. intros [= Hp Hx].
      destruct (c_queue _ _ _ C w' Hw') as (_ & h & Hh & Hth). apply (Hno h Hh).
      rewrite Hth. unfold wtag. congruence.
Qed.

Lemma need_unlock qs a h b m : unqueued h qs -> 1 < hnHolding h ->
  need qs (a ++ hbump m (-1) h :: b) = need qs (a ++ h :: b) - 1.
Proof.
  intros Hu Hn. unfold need. rewrite !hsum_app, !hsum_cons. unfold need1 at 2 5.
  rewrite !wcount_zero; [simpl; lia| |]; intros w Hw; apply is_tag_false; intros Heq;
    by apply (Hu w Hw).
Qed.

(** ** Grants and wake-ups *)

Lemma entry_ok_with_lock s l0 l : entry_ok s l -> entry_ok (with_lock s l0) l.
Proof. intros []. by split. Qed.

Lemma awake_update aw hs pid xid m : (forall h, h ∈ hs -> holder_ok h) -> awake_ok aw hs ->
  awake_ok aw (update_holder pid xid (hbump m 1) hs).
Proof.
  intros Hok Ha w Hw. destruct (Ha w Hw) as (h & Hh & Ht & Hp).
  exists (if is_tag pid xid h then hbump m 1 h else h). split_and!.
  - unfold update_holder. by eapply list_elem_of_fmap_2'.
  - by case_match.
  - case_match; [|done]. rewrite hholders_hbump. case_match; lia.
Qed.

Lemma awake_without aw a h b : awake_ok aw (a ++ h :: b) -> hpid h ∉ (wpid <$> aw) ->
  awake_ok aw (a ++ b).
Proof.
  intros Ha Hni w Hw. destruct (Ha w Hw) as (x & [->|Hx]%elem_mid & Ht & Hp); [|eauto].
  destruct Hni. injection Ht as -> _. by apply list_elem_of_fmap_2.
Qed.

Lemma awake_incl aw hs hs' : hs ⊆ hs' -> awake_ok aw hs -> awake_ok aw hs'.
Proof. intros Hs Ha w Hw. destruct (Ha w Hw) as (h & Hh & ?). exists h. split; [|done]. by apply Hs. Qed.

(** The entry with one more counted waiter [w], not (or no longer) in its queue:
    a thread inside [LockAcquire] or [ThreadLockWakeup]. *)
Record entry_ok_with (w : Waiter) (s : LockSys) (l : LOCK) : Prop := {
  ew_counts : counts_ok l (htab s) (w :: waitThreads l);
  ew_refs : need (w :: waitThreads l) (htab s) + pcount is_acquire (pending s)
            <= refs l + removing l;
  ew_removing : pcount (fun p => negb (is_acquire p)) (pending s) <= removing l;
  ew_awake : awake_ok (awake s) (htab s);
  ew_pending : forall p, p ∈ pending s -> pending_ok p;
}.

Lemma grant_entry w s l : entry_ok_with w s l -> ~ blocked_by (wpid w) (wmode w) (htab s) ->
  entry_ok (GrantLock (wpid w) (wxid w) (wmode w) s l) (grant_lock l (wmode w)).
Proof.
  intros E Hnb. destruct E. split; simpl; try done.
  - by apply grant_ok.
  - by rewrite need_grant.
  - apply awake_update; [|done]. by apply (c_holder _ _ _ ew_counts0).
Qed.

Lemma grant_entry_awake w l hs : counts_ok l hs (w :: waitThreads l) ->
  awake_ok [w] (update_holder (wpid w) (wxid w) (hbump (wmode w) 1) hs).
Proof.
  intros C w' ->%list_elem_of_singleton.
  destruct (c_queue _ _ _ C w) as (_ & h & Hh & Ht); [by left|].
  exists (hbump (wmode w) 1 h). split_and!; [|done|].
  - assert (is_tag (wpid w) (wxid w) h = true) as Hit by by apply is_tag_spec.
    replace (hbump (wmode w) 1 h) with
      (if is_tag (wpid w) (wxid w) h then hbump (wmode w) 1 h else h) by by rewrite Hit.
    unfold update_holder. by eapply list_elem_of_fmap_2'.
  - rewrite hholders_hbump, Z.eqb_refl. destruct (c_holder _ _ _ C h Hh) as (Hnn & _).
    specialize (Hnn (wmode w)). lia.
Qed.

(** What a wake-up does: it grants the lock to the longest prefix of the queue
    that it can, in order, and the waiter it stops at is blocked by a lock that
    another thread holds. *)
Definition woken_spec (s : LockSys) (l : LOCK) (s' : LockSys) : Prop :=
  exists l' granted, lock s' = Some l' /\ entry_ok s' l' /\
    refs l' = refs l /\ removing l' = removing l /\ pending s' = pending s /\
    waitThreads l = granted ++ waitThreads l' /\ awake s' = awake s ++ granted /\
    need (waitThreads l') (htab s') = need (waitThreads l) (htab s) /\
    (forall w q, waitThreads l' = w :: q -> blocked_by (wpid w) (wmode w) (htab s')).

Lemma ThreadLockWakeup_spec l s : entry_ok s l -> woken_spec s l (ThreadLockWakeup l s).
Proof.
  unfold Lock.ThreadLockWakeup. remember (waitThreads l) as q eqn:Hq. revert l s Hq.
  induction q as [|w q IH]; intros l s Hq E; simpl.
  - exists (with_queue l []), []. destruct E. rewrite <- Hq in *. split_and!; try done.
    + split; try done. by eapply counts_ok_fields, e_counts0.
    + by rewrite app_nil_r.
  - destruct E as [C R1 R2 A P]. rewrite <- Hq in *.
    destruct (c_queue _ _ _ C w) as (Hv & _); [by left|].
    destruct (LockResolveConflicts _ l _) eqn:Er.
    + set (s1 := mkLockSys _ _ _ _). set (l1 := with_queue (grant_lock l (wmode w)) q).
      assert (entry_ok_with w s (with_queue l q)) as EW
        by (split; try done; by eapply counts_ok_fields, C).
      pose proof (LockResolveConflicts_ok _ _ _ _ _ C Er) as Hnb.
      destruct (grant_entry w s _ EW Hnb) as [C1 R11 R21 A1 P1]. simpl in *.
      destruct (IH l1 s1) as (l' & g & H1 & H2 & H3 & H4 & H5 & H6 & H7 & H8 & H9); [done| |].
      { split; try done. intros w' [Hw'|Hw']%elem_of_app; [by apply A1|].
        by apply (grant_entry_awake w (with_queue l q) (htab s) (ew_counts _ _ _ EW)). }
      exists l', (w :: g). split_and!; try done.
      * rewrite <- Hq. simpl. f_equal. exact H6.
      * rewrite H7. unfold s1. simpl. by rewrite <- app_assoc.
      * rewrite H8, <- Hq. unfold s1. simpl. apply need_grant.
    + exists (with_queue l (w :: q)), []. split_and!; try done.
      * split; try done. by eapply counts_ok_fields, C.
      * by rewrite app_nil_r.
      * simpl. by rewrite <- Hq.
      * simpl. intros w' q' [= <- <-]. by eapply LockResolveConflicts_blocked.
Qed.

(** ** [LockAcquire] *)

(** A thread that holds the mode already, or that is the only holder, is not blocked. *)
Lemma own_mode_unblocked l hs qs h pid m : counts_ok l hs qs -> h ∈ hs -> hpid h = pid ->
  hholders h m <> 0 -> ~ blocked_by pid m hs.
Proof.
  intros C Hh Hp Hne (h' & m' & Hh' & Hp' & Hpos & Hc).
  destruct (c_holder _ _ _ C h Hh) as (Hnn & _). specialize (Hnn m).
  rewrite (c_compat _ _ _ C h h' Hh Hh') in Hc; [done|congruence|lia|done].
Qed.

Lemma only_holder_unblocked l hs qs h m : counts_ok l hs qs -> h ∈ hs ->
  hnHolding h = nActive l -> ~ blocked_by (hpid h) m hs.
Proof.
  intros C (a & b & ->)%list_elem_of_split Hn (h' & m' & Hh' & Hp' & Hpos & Hc).
  apply elem_mid in Hh' as [->|Hh']; [done|].
  pose proof (c_holder _ _ _ C h' ltac:(apply elem_mid; auto)) as Hok.
  pose proof (hholders_le_n h' m' Hok). rewrite (c_nActive _ _ _ C), hsum_app, hsum_cons in Hn.
  assert (hnHolding h' <= hsum hnHolding (a ++ b)) as Hel.
  { apply hsum_elem; [|done]. intros x Hx. apply hnHolding_nonneg, (c_holder _ _ _ C), elem_mid.
    auto. }
  rewrite hsum_app in Hel. lia.
Qed.

Lemma my_mode_unblocked l hs qs pid m : counts_ok l hs qs ->
  LockCountMyLocks pid hs m <> 0 -> ~ blocked_by pid m hs.
Proof.
  intros C Hne. assert (0 < LockCountMyLocks pid hs m) as Hpos.
  { assert (0 <= LockCountMyLocks pid hs m); [|lia]. apply hsum_nonneg. intros h Hh.
    case_match; [|lia]. by apply (c_holder _ _ _ C). }
  apply hsum_pos in Hpos as (h & Hh & Hp).
  - destruct (Z.eqb_spec (hpid h) pid); [|lia]. eapply own_mode_unblocked; [done..|lia].
  - intros h Hh. case_match; [|lia]. by apply (c_holder _ _ _ C).
Qed.

Lemma ThreadEnqueue_loop_perm l w rest : forall wm ahead prev passed wm' q,
  ThreadEnqueue_loop l w wm ahead prev passed rest = (wm', Some q) -> q ≡ₚ w :: passed ++ rest.
Proof.
  assert (forall passed rest' : list Waiter, passed ++ w :: rest' ≡ₚ w :: passed ++ rest') as Hmid
    by (intros; symmetry; apply Permutation_middle).
  induction rest as [|p rest IH]; intros wm ahead prev passed wm' q; simpl.
  - intros [= _ <-]. by rewrite Hmid.
  - assert (forall wm1 ah1 pv1, ThreadEnqueue_loop l w wm1 ah1 pv1 (passed ++ [p]) rest = (wm', Some q) ->
      q ≡ₚ w :: passed ++ p :: rest) as Hadv.
    { intros wm1 ah1 pv1 H%IH. by rewrite H, <- app_assoc. }
    repeat case_match; try (by apply Hadv); intros [= _ <-]; by rewrite Hmid.
Qed.

Lemma ThreadEnqueue_perm l w wm q : ThreadEnqueue l w = (wm, Some q) -> q ≡ₚ w :: waitThreads l.
Proof.
  unfold Lock.ThreadEnqueue. case_match; [by intros [= _ <-]|].
  intros Hq%ThreadEnqueue_loop_perm. done.
Qed.

Lemma pcount_cons p x ps : pcount p (x :: ps) = (if p x then 1 else 0) + pcount p ps.
Proof. done. Qed.
Lemma pcount_app p ps1 ps2 : pcount p (ps1 ++ ps2) = pcount p ps1 + pcount p ps2.
Proof. unfold pcount. by rewrite !fmap_app, !sum_list_app. Qed.
Lemma pcount_mid p ps1 x ps2 :
  pcount p (ps1 ++ x :: ps2) = pcount p (ps1 ++ ps2) + (if p x then 1 else 0).
Proof. rewrite !pcount_app, pcount_cons. lia. Qed.
Lemma pcount_nonneg p ps : 0 <= pcount p ps.
Proof. induction ps as [|x ps IH]; [done|]. rewrite pcount_cons. case_match; lia. Qed.

(** The state of a thread that has counted itself in [LockAcquire]. *)
Lemma acquire_counted s l w ps1 ps2 ff : entry_ok s l ->
  pending s = ps1 ++ PAcquire (wpid w) (wxid w) (wmode w) ff :: ps2 ->
  entry_ok_with w
    (mkLockSys (lock s) (enter_holder (wpid w) (wxid w) (htab s)) (awake s) (ps1 ++ ps2))
    (bump l (wmode w) 1).
Proof.
  intros [C R1 R2 A P] Hp. rewrite Hp in *. rewrite pcount_mid in R1, R2. simpl in R1, R2.
  assert (valid_mode (wmode w)) as Hv by (apply (P (PAcquire (wpid w) (wxid w) (wmode w) ff)); set_solver).
  split; simpl.
  - apply (bump_ok l _ _ w); [by apply enter_ok|done|].
    destruct (enter_find (wpid w) (wxid w) (htab s)) as (h & Hf). exists h.
    apply find_holder_elem in Hf. by destruct Hf.
  - pose proof (need_enter _ _ _ w C). lia.
  - lia.
  - eapply awake_incl; [|exact A]. unfold enter_holder. case_match; set_solver.
  - set_solver.
Qed.

Lemma failed_entry w s l : entry_ok_with w s l -> forall l',
  mask l' = mask l -> holders l' = holders l -> nHolding l' = nHolding l ->
  activeHolders l' = activeHolders l -> nActive l' = nActive l -> waitThreads l' = waitThreads l ->
  refs l' = refs l -> removing l' = removing l ->
  entry_ok s (WaitOnLock_failed l' (wmode w)).
Proof.
  intros [C R1 R2 A P] l' E1 E2 E3 E4 E5 E6 E7 E8.
  assert (entry_ok s (bump l' (wmode w) (-1))) as [C' R1' R2' A' P'].
  { split; simpl; rewrite ?E6, ?E7, ?E8; try done.
    - apply unbump_ok. by eapply (counts_ok_fields l), C.
    - pose proof (need_drop w (waitThreads l) (htab s)). lia. }
  unfold WaitOnLock_failed. case_match; split; try done. by eapply counts_ok_fields, C'.
Qed.

(** [LockAcquire] gives up: the count goes back, and so does an empty holder entry. *)
Lemma refused_entry w s l h : entry_ok_with w s l ->
  find_holder (wpid w) (wxid w) (htab s) = Some h -> wpid w ∉ wpid <$> waitThreads l ->
  let s' := mkLockSys (Some (bump l (wmode w) (-1)))
    (if hnHolding h =? 0 then remove_holder (wpid w) (wxid w) (htab s) else htab s)
    (awake s) (pending s) in
  entry_ok s' (bump l (wmode w) (-1)).
Proof.
  intros [C R1 R2 A P] Hf Hni. pose proof (unbump_ok _ _ _ w C) as C'.
  pose proof (need_drop w (waitThreads l) (htab s)) as Hd.
  destruct (find_holder_split _ _ _ _ (c_tags _ _ _ C) Hf) as (a & b & Hab & Ht & Hnt).
  assert (holder_ok h) as Hok by (apply (c_holder _ _ _ C), (find_holder_elem _ _ _ _ Hf)).
  destruct (Z.eqb_spec (hnHolding h) 0) as [E0|E0]; split; simpl; try done; try lia.
  - rewrite Hab, remove_holder_split by done. eapply remove_zero_ok; [by rewrite <- Hab|done|].
    intros w' Hw' Heq. apply Hni. rewrite Ht in Heq. injection Heq as <- _.
    by apply list_elem_of_fmap_2.
  - rewrite Hab, remove_holder_split by done.
    pose proof (need_remove (waitThreads l) a h b). rewrite Hab in R1, Hd. lia.
  - rewrite Hab, remove_holder_split by done. rewrite Hab in A.
    intros w' Hw'. destruct (A w' Hw') as (x & [->|Hx]%elem_mid & Htx & Hpx); [|eauto].
    pose proof (hholders_le_n h (wmode w') Hok). lia.
Qed.

(** The four ways [LockAcquire] ends, for the counted caller [w]. *)
Lemma LockAcquire_body_cases s l pid xid m ff :
  let s1 := mkLockSys (lock s) (enter_holder pid xid (htab s)) (awake s) (pending s) in
  let l1 := bump l m 1 in
  let w := mkWaiter pid xid m (LockGetMyHoldLocks pid (htab s1)) (waitMask l1) in
  counts_ok l1 (htab s1) (w :: waitThreads l1) ->
  exists h, find_holder pid xid (htab s1) = Some h /\
    let '(r, s') := LockAcquire_body pid xid m ff s l in
    match r with
    | AcqGranted => ~ blocked_by pid m (htab s1) /\ s' = GrantLock pid xid m s1 l1
    | _ => (blocked_by pid m (htab s1) \/ conflictTab m .& waitMask l = true) /\
      match r with
      | AcqRefused => s' = mkLockSys (Some (bump l1 m (-1)))
          (if hnHolding h =? 0 then remove_holder pid xid (htab s1) else htab s1)
          (awake s1) (pending s1)
      | AcqSleeping => exists wm q, q ≡ₚ w :: waitThreads l1 /\
          s' = with_lock s1 (with_queue (with_waitMask l1 wm) q)
      | _ => exists wm, s' = with_lock s1 (WaitOnLock_failed (with_waitMask l1 wm) m)
      end
    end.
Proof.
  intros s1 l1 w C. destruct (enter_find pid xid (htab s)) as (h & Hf). exists h. split; [done|].
  destruct (find_holder_elem _ _ _ _ Hf) as [Hh Ht]. injection Ht as Hhp Hhx.
  destruct (c_queue _ _ _ C w) as (Hv & _); [by left|].
  unfold Lock.LockAcquire_body. cbn zeta. fold s1. fold l1.
  replace (find_holder pid xid (htab s1)) with (Some h) by done. simpl default.
  destruct (_ || negb (hholders h m =? 0)) eqn:E1.
  { split; [|done]. apply orb_true_iff in E1 as [E1|E1]; bool_cases.
    - rewrite <- Hhp. by eapply only_holder_unblocked.
    - by eapply own_mode_unblocked. }
  destruct (negb (LockCountMyLocks pid (htab s1) m =? 0)) eqn:E2.
  { split; [|done]. bool_cases. by eapply my_mode_unblocked. }
  destruct (negb _ && LockResolveConflicts _ _ _) eqn:E3.
  { split; [|done]. bool_cases. by eapply LockResolveConflicts_ok. }
  assert (blocked_by pid m (htab s1) \/ conflictTab m .& waitMask l = true) as Hwhy.
  { apply andb_false_iff in E3 as [E3|E3].
    - right. bool_cases. done.
    - left. by eapply LockResolveConflicts_blocked. }
  destruct (ff || _) eqn:E4; [done|]. fold w.
  destruct (ThreadEnqueue l1 w) as [wm [q|]] eqn:Eq; (split; [done|]).
  - apply ThreadEnqueue_perm in Eq. by exists wm, q.
  - by exists wm.
Qed.

Lemma LockAcquire_body_ok s l pid xid m ff ps1 ps2 : entry_ok s l ->
  pending s = ps1 ++ PAcquire pid xid m ff :: ps2 ->
  pid ∉ wpid <$> waitThreads l ->
  let s' := snd (LockAcquire_body pid xid m ff (drop_pending s (ps1 ++ ps2)) l) in
  exists l', lock s' = Some l' /\ entry_ok s' l' /\ awake s' = awake s /\
    pending s' = ps1 ++ ps2 /\
    (waitThreads l' = waitThreads l \/ exists w, wpid w = pid /\ waitThreads l' ≡ₚ w :: waitThreads l).
Proof.
  intros E Hp Hni.
  set (s1 := mkLockSys (lock s) (enter_holder pid xid (htab s)) (awake s) (ps1 ++ ps2)).
  set (w := mkWaiter pid xid m (LockGetMyHoldLocks pid (htab s1)) (waitMask (bump l m 1))).
  pose proof (acquire_counted s l w ps1 ps2 ff E Hp) as EW. change (mkLockSys _ _ _ _) with s1 in EW.
  destruct (LockAcquire_body_cases (drop_pending s (ps1 ++ ps2)) l pid xid m ff (ew_counts _ _ _ EW))
    as (h & Hf & Hc).
  destruct (LockAcquire_body _ _ _ _ _ _) as [r s']. simpl. destruct r.
  - destruct Hc as [Hnb ->]. exists (grant_lock (bump l m 1) m). split_and!; try done; [|by left].
    by apply (grant_entry w s1 (bump l m 1) EW).
  - destruct Hc as [_ ->]. eexists. split; [done|]. split_and!; try done; [|by left].
    by apply (refused_entry w s1 (bump l m 1) h EW).
  - destruct Hc as (_ & wm & q & Hq & ->). eexists. split; [done|].
    split_and!; try done; [|right; by exists w].
    destruct EW as [C R1 R2 A P]. split; simpl; try done.
    + eapply (counts_ok_fields (bump l m 1)); try done. eapply counts_ok_perm, C. by symmetry.
    + by rewrite (need_perm q _ _ Hq).
  - destruct Hc as (_ & wm & ->). eexists. split; [done|]. split_and!; try done.
    + by apply entry_ok_with_lock, (failed_entry w s1 (bump l m 1) EW).
    + left. unfold WaitOnLock_failed. by case_match.
Qed.

(** ** [LockRelease] and [LockReleaseAll] *)

(** The state before the closing [SearchLockTable(HASH_REMOVE)]: the caller is
    still counted in [removing]. *)
Definition releasing (s : LockSys) (l : LOCK) : Prop :=
  entry_ok s l /\
  need (waitThreads l) (htab s) + pcount is_acquire (pending s) + 1 <= refs l + removing l /\
  pcount (fun p => negb (is_acquire p)) (pending s) + 1 <= removing l.

Lemma pcount_none ps : pcount is_acquire ps <= 0 ->
  pcount (fun p => negb (is_acquire p)) ps <= 0 -> ps = [].
Proof.
  destruct ps as [|p ps]; [done|]. rewrite !pcount_cons.
  pose proof (pcount_nonneg is_acquire ps). pose proof (pcount_nonneg (fun p => negb (is_acquire p)) ps).
  destruct (is_acquire p); simpl; lia.
Qed.

Lemma finish_release_ok s l : lock s = Some l -> releasing s l -> NoDup (busy s) ->
  lock_inv (finish_release s).
Proof.
  intros Hl ([C R1 R2 A P] & S1 & S2) Hnd.
  unfold finish_release, SearchLockTable_remove. rewrite Hl. simpl.
  pose proof (need_nonneg (waitThreads l) (htab s)).
  pose proof (pcount_nonneg is_acquire (pending s)).
  destruct (_ && _) eqn:E.
  - bool_cases. assert (htab s = []) as Hht by (apply (need_zero (waitThreads l)); lia).
    assert (pending s = []) as Hp by (apply pcount_none; lia).
    assert (awake s = []) as Ha.
    { destruct (awake s) as [|w aw] eqn:Ea; [done|]. destruct (A w) as (h & Hh & _); [by left|].
      rewrite Hht in Hh. set_solver. }
    split; [|done]. unfold busy. simpl. by rewrite Hp, Ha; constructor.
  - split; simpl.
    + unfold busy in *. by rewrite Hl in Hnd.
    + split; simpl; try done; try lia. by eapply counts_ok_fields, C.
Qed.

Lemma busy_woken s l s' : lock s = Some l -> woken_spec s l s' -> NoDup (busy s) -> NoDup (busy s').
Proof.
  intros Hl (l' & g & Hl' & _ & _ & _ & Hp & Hq & Ha & _) Hnd. unfold busy in *.
  rewrite Hl in Hnd. rewrite Hl', Ha, Hp. simpl in *. rewrite Hq in Hnd.
  assert ((wpid <$> waitThreads l') ++ (wpid <$> awake s ++ g) ++ (ppid <$> pending s) ≡ₚ
    (wpid <$> g ++ waitThreads l') ++ (wpid <$> awake s) ++ (ppid <$> pending s)) as ->; [|done].
  rewrite !fmap_app. solve_Permutation.
Qed.

Lemma release_tail s l (b : bool) : lock s = Some l -> releasing s l -> NoDup (busy s) ->
  lock_inv (finish_release (if b then s else ThreadLockWakeup l s)).
Proof.
  intros Hl HR Hnd. destruct b; [by eapply finish_release_ok|].
  destruct HR as (E & S1 & S2). pose proof (ThreadLockWakeup_spec l s E) as HW.
  pose proof (busy_woken _ _ _ Hl HW Hnd) as Hnd'.
  destruct HW as (l' & g & Hl' & E' & Hr & Hm & Hp & _ & _ & Hneed & _).
  eapply finish_release_ok; [done| |done]. split; [done|]. rewrite Hneed, Hr, Hm, Hp. done.
Qed.

(** The closing [SearchLockTable(HASH_REMOVE)] only takes the entry away when
    its holder table is empty, and then nobody waits. *)
Lemma finish_release_entry s l : lock s = Some l -> releasing s l ->
  match lock (finish_release s) with
  | Some l' => waitThreads l' = waitThreads l
  | None => need (waitThreads l) (htab s) <= 0
  end.
Proof.
  intros Hl (_ & S1 & _). unfold finish_release, SearchLockTable_remove. simpl. rewrite Hl. simpl.
  pose proof (pcount_nonneg is_acquire (pending s)).
  destruct (_ && _) eqn:E; [|done]. bool_cases. lia.
Qed.

Lemma need_none_queue l hs : counts_ok l hs (waitThreads l) -> need (waitThreads l) hs <= 0 ->
  waitThreads l = [].
Proof.
  intros C ->%need_zero. destruct (waitThreads l) as [|w q] eqn:Eq; [done|].
  destruct (c_queue _ _ _ C w) as (_ & h & Hh & _); [by left|]. by apply not_elem_of_nil in Hh.
Qed.

Lemma drop_pending_ok s l ps1 p ps2 : pending s = ps1 ++ p :: ps2 -> entry_ok s l ->
  entry_ok (drop_pending s (ps1 ++ ps2)) l.
Proof.
  intros Hp [C R1 R2 A P]. rewrite Hp in *. rewrite pcount_mid in R1, R2.
  split; simpl; try done; [destruct (is_acquire p); simpl in *; lia..|]. set_solver.
Qed.

Lemma busy_mid s ps1 p ps2 : pending s = ps1 ++ p :: ps2 ->
  busy s ≡ₚ ppid p :: busy (drop_pending s (ps1 ++ ps2)).
Proof.
  intros Hp. unfold busy, drop_pending. cbn [lock awake pending].
  rewrite Hp, !fmap_app, fmap_cons. rewrite !app_assoc. symmetry. apply Permutation_middle.
Qed.

(** A thread inside a release is neither queued nor just granted. *)
Lemma busy_other s l pid xs : lock s = Some l -> NoDup (pid :: busy (drop_pending s xs)) ->
  pid ∉ wpid <$> waitThreads l /\ pid ∉ wpid <$> awake s.
Proof.
  intros Hl [Hni _]%NoDup_cons. unfold busy in Hni. simpl in Hni. rewrite Hl in Hni. simpl in Hni.
  rewrite !elem_of_app in Hni. tauto.
Qed.

Lemma unqueued_pid h qs : hpid h ∉ wpid <$> qs -> unqueued h qs.
Proof. intros Hni w Hw [= Hp _]. apply Hni. rewrite <- Hp. by apply list_elem_of_fmap_2. Qed.

(** Each release turns the entry of the caller's holder into [releasing]. *)
Lemma release_one_ok s l a h b m ps : entry_ok (drop_pending s ps) l -> htab s = a ++ h :: b ->
  need (waitThreads l) (htab s) + pcount is_acquire ps <= refs l + removing l ->
  pcount (fun p => negb (is_acquire p)) ps + 1 <= removing l ->
  hpid h ∉ wpid <$> waitThreads l -> hpid h ∉ wpid <$> awake s -> 0 < hholders h m ->
  releasing
    (mkLockSys (Some (unlock_lock l m))
       (if hnHolding h - 1 =? 0 then a ++ b else a ++ hbump m (-1) h :: b) (awake s) ps)
    (unlock_lock l m).
Proof.
  intros [C _ _ A P] Hab R1 R2 Hq Ha Hpos. simpl in *. rewrite Hab in *.
  pose proof (unlock_ok l a h b _ m C Hpos) as C1.
  pose proof (unqueued_pid _ _ Hq) as Hu. pose proof (awake_without _ _ _ _ A Ha) as A'.
  pose proof (c_holder _ _ _ C h ltac:(apply elem_mid; auto)) as Hok.
  pose proof (hholders_le_n h m Hok). unfold releasing. simpl.
  destruct (Z.eqb_spec (hnHolding h - 1) 0) as [E|E].
  - pose proof (need_remove (waitThreads l) a h b). split; [|lia]. split; simpl; try done; try lia.
    eapply (remove_zero_ok _ a (hbump m (-1) h) b); [done|simpl; lia|done].
  - pose proof (need_unlock (waitThreads l) a h b m Hu ltac:(lia)).
    split; [|lia]. split; simpl; try done; try lia.
    eapply awake_incl, A'. intros x. rewrite elem_mid. auto.
Qed.

(** [LockRelease] either finds nothing to release, or takes the mode off the
    caller's holder and goes on to the wake-up. *)
Lemma LockRelease_body_cases s l pid xid m ps1 ps2 : lock s = Some l -> entry_ok s l ->
  pending s = ps1 ++ PRelease pid xid m :: ps2 -> NoDup (busy s) ->
  let sd := drop_pending s (ps1 ++ ps2) in
  LockRelease_body pid xid m sd l = (false, sd) \/
  exists s1 l1, lock s1 = Some l1 /\ releasing s1 l1 /\ NoDup (busy s1) /\
    waitThreads l1 = waitThreads l /\ awake s1 = awake s /\
    LockRelease_body pid xid m sd l =
      (true, finish_release (if nHolding l1 =? 0 then s1 else ThreadLockWakeup l1 s1)).
Proof.
  intros Hl E Hp Hnd. rewrite (busy_mid _ _ _ _ Hp) in Hnd. simpl in Hnd.
  pose proof (drop_pending_ok _ _ _ _ _ Hp E) as E1.
  destruct (busy_other _ _ _ _ Hl Hnd) as [Hq Ha]. apply NoDup_cons in Hnd as [_ Hnd].
  unfold Lock.LockRelease_body. simpl.
  destruct (find_holder pid xid (htab s)) as [h|] eqn:Ef; [|by left].
  destruct (Z.ltb_spec 0 (hholders h m)) as [Hpos|]; [|by left]. right.
  destruct (find_holder_split _ _ _ _ (c_tags _ _ _ (e_counts _ _ E)) Ef) as (a & b & Hab & Ht & Hnt).
  injection Ht as <- <-. destruct E as [_ R1 R2 _ _]. rewrite Hp, pcount_mid in R1, R2. simpl in R1, R2.
  pose proof (release_one_ok s l a h b m _ E1 Hab ltac:(lia) ltac:(lia) Hq Ha Hpos) as HR.
  rewrite Hab, remove_holder_split, update_holder_split by done.
  eexists _, (unlock_lock l m). split_and!; [|exact HR|..]; try done.
  unfold busy in *. simpl in *. by rewrite Hl in Hnd.
Qed.

Lemma LockRelease_body_ok s l pid xid m ps1 ps2 : lock s = Some l -> entry_ok s l ->
  pending s = ps1 ++ PRelease pid xid m :: ps2 -> NoDup (busy s) ->
  lock_inv (snd (LockRelease_body pid xid m (drop_pending s (ps1 ++ ps2)) l)).
Proof.
  intros Hl E Hp Hnd.
  destruct (LockRelease_body_cases s l pid xid m ps1 ps2 Hl E Hp Hnd)
    as [->|(s1 & l1 & Hl1 & HR & Hnd1 & _ & _ & ->)]; simpl.
  - rewrite (busy_mid _ _ _ _ Hp) in Hnd. apply NoDup_cons in Hnd as [_ Hnd].
    split; [done|]. simpl. rewrite Hl. by eapply drop_pending_ok.
  - by apply release_tail.
Qed.

Lemma LockReleaseAll_body_ok s l pid xid ps1 ps2 : lock s = Some l -> entry_ok s l ->
  pending s = ps1 ++ PReleaseAll pid xid :: ps2 -> NoDup (busy s) ->
  lock_inv (LockReleaseAll_body pid xid (drop_pending s (ps1 ++ ps2)) l).
Proof.
  intros Hl E Hp Hnd. rewrite (busy_mid _ _ _ _ Hp) in Hnd. simpl in Hnd.
  pose proof (drop_pending_ok _ _ _ _ _ Hp E) as [C _ _ A P].
  destruct (busy_other _ _ _ _ Hl Hnd) as [Hq Ha]. apply NoDup_cons in Hnd as [_ Hnd].
  unfold Lock.LockReleaseAll_body. simpl in *.
  destruct (find_holder pid xid (htab s)) as [h|] eqn:Ef.
  2: { split; [done|]. simpl. rewrite Hl. by apply (drop_pending_ok _ _ _ _ _ Hp E). }
  destruct (find_holder_split _ _ _ _ (c_tags _ _ _ C) Ef) as (a & b & Hab & Ht & Hnt).
  injection Ht as <- <-. destruct E as [_ R1 R2 _ _]. rewrite Hp, pcount_mid in R1, R2. simpl in R1, R2.
  rewrite Hab in *. rewrite remove_holder_split by done.
  pose proof (unqueued_pid _ _ Hq) as Hu. pose proof (awake_without _ _ _ _ A Ha) as A'.
  pose proof (need_remove (waitThreads l) a h b).
  set (l1 := if negb (nHolding l =? hnHolding h) then release_holder_modes l h else clear_lock l).
  assert (counts_ok l1 (a ++ b) (waitThreads l) /\ waitThreads l1 = waitThreads l /\
    refs l1 = refs l /\ removing l1 = removing l) as (C1 & Hw & Hr & Hm).
  { unfold l1. destruct (Z.eqb_spec (nHolding l) (hnHolding h)); simpl; split_and!; try done.
    - by apply (clear_ok l a h b).
    - by apply release_modes_ok. }
  set (s1 := mkLockSys (Some l1) (a ++ b) (awake s) (ps1 ++ ps2)).
  assert (releasing s1 l1) as HR.
  { split; [split; simpl; try done|]; simpl; rewrite ?Hw, ?Hr, ?Hm; try done; lia. }
  assert (NoDup (busy s1)) as Hnd1
    by (unfold busy in *; cbn in *; rewrite Hw; by rewrite Hl in Hnd).
  destruct (_ && _).
  - by apply (release_tail s1 l1 false).
  - by apply (release_tail s1 l1 true).
Qed.

(** ** Every step preserves the invariant *)

Lemma new_lock_ok : counts_ok (new_lock garbage) [] [].
Proof.
  split; simpl; try done; [apply NoDup_nil_2|..]; repeat intro;
    exfalso; by eapply not_elem_of_nil.
Qed.

Lemma acquire_enter_inv s pid xid m ff : lock_inv s -> pid ∉ busy s -> valid_mode m ->
  lock_inv (add_pending s (SearchLockTable_enter garbage (lock s)) (PAcquire pid xid m ff)).
Proof.
  intros [Hnd He] Hni Hm. split.
  - assert (busy (add_pending s (SearchLockTable_enter garbage (lock s)) (PAcquire pid xid m ff))
      ≡ₚ pid :: busy s) as ->; [|by constructor].
    unfold busy. destruct (lock s); simpl; symmetry; rewrite ?app_assoc; apply Permutation_middle.
  - simpl. destruct (lock s) as [l|].
    + destruct He as [C R1 R2 A P]. split; simpl; rewrite ?pcount_cons; simpl; try done; try lia.
      * by eapply counts_ok_fields, C.
      * intros p [->|Hp]%elem_of_cons; [done|auto].
    + destruct He as (Hh & Ha & Hp).
      split; simpl; rewrite ?Hh, ?Ha, ?Hp, ?pcount_cons; simpl; try done.
      * by eapply counts_ok_fields, new_lock_ok.
      * intros w Hw. by apply not_elem_of_nil in Hw.
      * intros p ->%list_elem_of_singleton. done.
Qed.

Lemma find_inv s l p : lock_inv s -> ppid p ∉ busy s -> is_acquire p = false -> pending_ok p ->
  SearchLockTable_find (lock s) = Ok l -> lock_inv (add_pending s l p).
Proof.
  intros [Hnd He] Hni Ha Hok Hf. unfold SearchLockTable_find in Hf. case_match eqn:El; [|done].
  injection Hf as <-. split.
  - assert (busy (add_pending s (with_refs l0 (refs l0 - 1) (removing l0 + 1)) p) ≡ₚ ppid p :: busy s)
      as ->; [|by constructor].
    unfold busy. rewrite El. simpl. symmetry. rewrite ?app_assoc. apply Permutation_middle.
  - simpl. destruct He as [C R1 R2 A P].
    split; simpl; rewrite ?pcount_cons, ?Ha; simpl; try done; try lia.
    + by eapply counts_ok_fields, C.
    + intros q [->|Hq]%elem_of_cons; auto.
Qed.

Lemma acquire_body_inv s l pid xid m ff ps1 ps2 : lock_inv s -> lock s = Some l ->
  pending s = ps1 ++ PAcquire pid xid m ff :: ps2 ->
  lock_inv (snd (LockAcquire_body pid xid m ff (drop_pending s (ps1 ++ ps2)) l)).
Proof.
  intros [Hnd He] Hl Hp. rewrite Hl in He. rewrite (busy_mid _ _ _ _ Hp) in Hnd. simpl in Hnd.
  destruct (busy_other _ _ _ _ Hl Hnd) as [Hq _].
  destruct (LockAcquire_body_ok s l pid xid m ff ps1 ps2 He Hp Hq)
    as (l' & Hl' & E' & Ha & Hp' & Hw).
  split; [|by rewrite Hl'].
  unfold busy in Hnd |- *. rewrite Hl', Ha, Hp'. simpl in Hnd. rewrite Hl in Hnd. simpl in Hnd |- *.
  destruct Hw as [->|(w & Hpw & ->)]; [by apply NoDup_cons in Hnd as [_ ?]|].
  rewrite fmap_cons, Hpw. done.
Qed.

Lemma cancel_inv s l q1 w q2 : lock_inv s -> lock s = Some l -> waitThreads l = q1 ++ w :: q2 ->
  lock_inv (with_lock s
    (WaitOnLock_failed (with_waitMask (with_queue l (q1 ++ q2)) (worigMask w)) (wmode w))).
Proof.
  intros [Hnd He] Hl Hq. rewrite Hl in He. destruct He as [C R1 R2 A P].
  assert (waitThreads l ≡ₚ w :: q1 ++ q2) as Hperm by (rewrite Hq; symmetry; apply Permutation_middle).
  assert (entry_ok_with w s (with_queue l (q1 ++ q2))) as EW.
  { split; simpl; try done.
    - eapply (counts_ok_fields l); try done. by eapply counts_ok_perm, C.
    - by rewrite <- (need_perm _ _ _ Hperm). }
  split; [|by apply entry_ok_with_lock, (failed_entry w s _ EW)].
  unfold busy in *. rewrite Hl in Hnd. simpl in *. rewrite Hperm in Hnd.
  assert (waitThreads (WaitOnLock_failed (with_waitMask (with_queue l (q1 ++ q2)) (worigMask w))
    (wmode w)) = q1 ++ q2) as -> by (unfold WaitOnLock_failed; by case_match).
  by apply NoDup_cons in Hnd as [_ ?].
Qed.

Lemma granted_inv s l a1 w a2 : lock_inv s -> lock s = Some l -> awake s = a1 ++ w :: a2 ->
  lock_inv (mkLockSys (Some (WaitOnLock_granted l (wmode w))) (htab s) (a1 ++ a2) (pending s)).
Proof.
  intros [Hnd He] Hl Ha. rewrite Hl in He. destruct He as [C R1 R2 A P]. split.
  - unfold busy in *. rewrite Hl, Ha in Hnd. simpl in *.
    assert (waitThreads (WaitOnLock_granted l (wmode w)) = waitThreads l) as ->
      by (unfold WaitOnLock_granted; by case_match).
    rewrite <- (Permutation_middle a1 a2 w), fmap_cons in Hnd. simpl in Hnd.
    rewrite <- Permutation_middle in Hnd. by apply NoDup_cons in Hnd as [_ ?].
  - simpl. unfold WaitOnLock_granted. rewrite Ha in A.
    assert (awake_ok (a1 ++ a2) (htab s)) by (intros w' Hw'; apply A; set_solver).
    case_match; split; try done. by eapply counts_ok_fields, C.
Qed.

Lemma lstep_inv s s' : lock_inv s -> lstep false s s' -> lock_inv s'.
Proof.
  intros I. destruct 1.
  - by apply acquire_enter_inv.
  - by apply acquire_body_inv.
  - by apply find_inv.
  - destruct I as [Hnd He]. match goal with H : lock s = _ |- _ => rewrite H in He end.
    by eapply LockRelease_body_ok.
  - by apply find_inv.
  - destruct I as [Hnd He]. match goal with H : lock s = _ |- _ => rewrite H in He end.
    by eapply LockReleaseAll_body_ok.
  - by eapply cancel_inv.
  - by eapply granted_inv.
  - done.
Qed.

Lemma lock_reachable_inv s : lreachable s -> lock_inv s.
Proof.
  intros H. unfold Lock.lreachable in H. remember lock_init as s0 eqn:H0.
  assert (lock_inv s0) as Hi by (subst; split; [constructor|done]). clear H0.
  induction H; [done|]. apply IHrtc. by eapply lstep_inv.
Qed.

(** ** What a thread holds *)

Lemma LockCountMyLocks_enter pid xid hs p i :
  LockCountMyLocks p (enter_holder pid xid hs) i = LockCountMyLocks p hs i.
Proof. unfold enter_holder. case_match; [done|]. unfold LockCountMyLocks. simpl. by case_match. Qed.

Lemma blocked_enter pid xid hs p m :
  blocked_by p m (enter_holder pid xid hs) <-> blocked_by p m hs.
Proof.
  unfold enter_holder. case_match; [done|]. split; intros (h & m' & Hh & ?).
  - apply elem_of_cons in Hh as [->|Hh]; [simpl in *; lia|]. by exists h, m'.
  - exists h, m'. split; [by right|done].
Qed.

Lemma LockCountMyLocks_replace p a h b h' i : hpid h' = hpid h ->
  LockCountMyLocks p (a ++ h' :: b) i = LockCountMyLocks p (a ++ h :: b) i +
    (if hpid h =? p then hholders h' i - hholders h i else 0).
Proof.
  intros Hp. set (g := fun h => if hpid h =? p then hholders h i else 0).
  change (hsum g (a ++ h' :: b) = hsum g (a ++ h :: b) +
    (if hpid h =? p then hholders h' i - hholders h i else 0)).
  rewrite (hsum_replace g a h b h'). unfold g at 2 3. rewrite Hp. case_match; lia.
Qed.

Lemma LockCountMyLocks_grant pid xid hs h m p i : NoDup (htag <$> hs) ->
  find_holder pid xid hs = Some h ->
  LockCountMyLocks p (update_holder pid xid (hbump m 1) hs) i =
  LockCountMyLocks p hs i + (if (p =? pid) && (i =? m) then 1 else 0).
Proof.
  intros Hnd Hf. destruct (find_holder_split _ _ _ _ Hnd Hf) as (a & b & -> & Ht & Hab).
  rewrite update_holder_split, (LockCountMyLocks_replace p a h b) by done. injection Ht as -> _.
  rewrite (Z.eqb_sym pid p), hholders_hbump. destruct (p =? pid), (i =? m); simpl; lia.
Qed.

Lemma LockCountMyLocks_remove pid xid hs h p i : NoDup (htag <$> hs) -> holder_ok h ->
  find_holder pid xid hs = Some h -> hnHolding h = 0 ->
  LockCountMyLocks p (remove_holder pid xid hs) i = LockCountMyLocks p hs i.
Proof.
  intros Hnd Hok Hf H0. destruct (find_holder_split _ _ _ _ Hnd Hf) as (a & b & -> & Ht & Hab).
  rewrite remove_holder_split by done. pose proof (hholders_le_n h i Hok).
  destruct Hok as (Hnn & _). specialize (Hnn i).
  set (g := fun h => if hpid h =? p then hholders h i else 0).
  change (hsum g (a ++ b) = hsum g (a ++ h :: b)). rewrite !hsum_app, hsum_cons.
  unfold g at 4. case_match; lia.
Qed.

(** ** The functions as sequences of steps *)

Lemma LockAcquire_steps late s pid xid m ff : pid ∉ busy s -> valid_mode m ->
  rtc (lstep late) s (snd (LockAcquire conflict9 garbage lockmethod pid xid m ff s)).
Proof.
  intros Hb Hm. eapply rtc_l; [by apply (ls_acquire_enter _ _ _ late s pid xid m ff)|].
  apply rtc_once. by apply (ls_acquire_body _ _ _ late (add_pending s _ _) pid xid m ff [] (pending s)).
Qed.

Lemma LockRelease_steps late s pid xid m b s' : pid ∉ busy s -> valid_mode m ->
  LockRelease conflict9 pid xid m s = Ok (b, s') -> rtc (lstep late) s s'.
Proof.
  intros Hb Hm Hr. unfold LockRelease in Hr. apply result_bind_Ok in Hr as (l & Hf & [= Hr]).
  eapply rtc_l; [by apply (ls_release_find _ _ _ late s pid xid m l)|]. apply rtc_once.
  replace s' with (snd (LockRelease_body pid xid m (with_lock s l) l)) by by rewrite Hr.
  by apply (ls_release_body _ _ _ late (add_pending s l _) pid xid m [] (pending s)).
Qed.

Lemma release_all_one_steps late s pid xid s' : pid ∉ busy s -> is_Some (find_holder pid xid (htab s)) ->
  release_all_one conflict9 pid s xid = Ok s' -> rtc (lstep late) s s'.
Proof.
  intros Hb Hh Hr. unfold release_all_one in Hr. apply result_bind_Ok in Hr as (l & Hf & [= <-]).
  eapply rtc_l; [by apply (ls_release_all_find _ _ _ late s pid xid l)|]. apply rtc_once.
  by apply (ls_release_all_body _ _ _ late (add_pending s l _) pid xid [] (pending s)).
Qed.

(** ** Main results *)

(** C2: at every moment of every run of the lock manager in which no sleep is
    cancelled after its lock was granted, with any number of threads between the
    phases of their calls, asleep or cancelled while they still wait: two
    threads never hold conflicting modes; the entry is in the lock table as
    long as a thread holds the lock, was granted it in its sleep or is inside
    a call; a thread that was woken holds the mode it waited for; and the
    counters of the entry are the sums over the holders and the queue. *)
Theorem lock_mutual_exclusion s : lreachable s ->
  (forall h1 h2 m1 m2, h1 ∈ htab s -> h2 ∈ htab s -> hpid h1 <> hpid h2 ->
     0 < hholders h1 m1 -> 0 < hholders h2 m2 -> Z.testbit (conflictTab m1) m2 = false) /\
  (htab s <> [] \/ awake s <> [] \/ pending s <> [] -> is_Some (lock s)) /\
  (forall w, w ∈ awake s ->
     exists h, h ∈ htab s /\ htag h = wtag w /\ 0 < hholders h (wmode w)) /\
  (forall l, lock s = Some l -> forall m,
     activeHolders l m = hsum (fun h => hholders h m) (htab s) /\
     holders l m = activeHolders l m + wcount (fun w => wmode w =? m) (waitThreads l)).
Proof.
  intros [_ He]%lock_reachable_inv. destruct (lock s) as [l|].
  - destruct He as [C _ _ A _]. split_and!; [|eauto|exact A|].
    + intros h1 h2 m1 m2 H1 H2 Hp. by apply (c_compat _ _ _ C).
    + intros l' [= <-] m. split; [apply (c_active _ _ _ C)|apply (c_holders _ _ _ C)].
  - destruct He as (-> & -> & ->). split_and!; try done; try set_solver.
Qed.

(** [LockAcquire] run by a thread that is not asleep.  When it grants the
    lock, no other thread held a conflicting mode and the caller's holder
    entry counts one more lock of the mode; when it refuses or reports a
    deadlock, nobody's holdings change; and it only refuses, sleeps or fails
    when another thread holds a conflicting mode or the wait mask shows a
    conflicting waiter. *)
Theorem LockAcquire_spec s pid xid m ff r s' : lreachable s -> pid ∉ busy s -> valid_mode m ->
  LockAcquire conflict9 garbage lockmethod pid xid m ff s = (r, s') ->
  (r = AcqGranted -> ~ blocked_by pid m (htab s) /\
     forall p i, LockCountMyLocks p (htab s') i =
       LockCountMyLocks p (htab s) i + (if (p =? pid) && (i =? m) then 1 else 0)) /\
  (r <> AcqGranted ->
     (blocked_by pid m (htab s) \/ exists l, lock s = Some l /\ conflictTab m .& waitMask l = true) /\
     forall p i, LockCountMyLocks p (htab s') i = LockCountMyLocks p (htab s) i).
Proof.
  intros Hr Hb Hv Ha. apply lock_reachable_inv in Hr.
  assert (r <> AcqGranted -> is_Some (lock s)) as Hsome.
  { intros Hne. destruct Hr as [_ He]. destruct (lock s) as [l|] eqn:El; [done|].
    destruct He as (Hh & _). unfold LockAcquire, Lock.LockAcquire_body in Ha.
    cbn -[Z.eqb] in Ha. rewrite El, Hh in Ha. cbn -[Z.eqb] in Ha. unfold is_tag in Ha.
    cbn -[Z.eqb] in Ha. rewrite !Z.eqb_refl in Ha. cbn -[Z.eqb] in Ha. by injection Ha as <- _. }
  destruct (acquire_enter_inv s pid xid m ff Hr Hb Hv) as [_ E]. simpl in E.
  set (l := SearchLockTable_enter garbage (lock s)) in *.
  set (w := mkWaiter pid xid m (LockGetMyHoldLocks pid (enter_holder pid xid (htab s)))
    (waitMask (bump l m 1))).
  pose proof (ew_counts _ _ _ (acquire_counted _ l w [] (pending s) ff E eq_refl)) as C.
  simpl in C. destruct (LockAcquire_body_cases (with_lock s l) l pid xid m ff C) as (h & Hf & Hc).
  change (LockAcquire_body pid xid m ff (with_lock s l) l) with
    (LockAcquire conflict9 garbage lockmethod pid xid m ff s) in Hc. rewrite Ha in Hc. simpl in Hf, Hc.
  pose proof (c_holder _ _ _ C h (proj1 (find_holder_elem _ _ _ _ Hf))) as Hok.
  split; intros Hres.
  - subst r. destruct Hc as [Hnb ->]. split; [by rewrite <- blocked_enter|]. intros p i. simpl.
    erewrite LockCountMyLocks_grant, LockCountMyLocks_enter; [done|apply C|done].
  - assert ((blocked_by pid m (htab s) \/ conflictTab m .& waitMask l = true) /\
      forall p i, LockCountMyLocks p (htab s') i = LockCountMyLocks p (htab s) i) as [Hwhy Hsame].
    { rewrite <- (blocked_enter pid xid). destruct r; [done| | |]; destruct Hc as [Hwhy Hc];
        (split; [done|]); intros p i; rewrite <- (LockCountMyLocks_enter pid xid (htab s)).
      - subst s'. simpl. destruct (Z.eqb_spec (hnHolding h) 0); [|done].
        by eapply LockCountMyLocks_remove; [apply C|..].
      - by destruct Hc as (wm & q & _ & ->).
      - by destruct Hc as (wm & ->). }
    split; [|done]. destruct Hwhy as [|Hw]; [by left|]. right.
    destruct (Hsome Hres) as [l0 Hl0]. exists l0. split; [done|]. unfold l in Hw. by rewrite Hl0 in Hw.
Qed.

(** C31: in a run without late cancels, a
    [LockRelease] that succeeds wakes the queue in order: it grants the
    lock to a prefix of the waiters, and the first waiter it leaves asleep is
    blocked by a lock that another thread still holds.  When the entry is
    removed, nobody was waiting. *)
Theorem LockRelease_wakes s pid xid m s' : lreachable s -> pid ∉ busy s -> valid_mode m ->
  LockRelease conflict9 pid xid m s = Ok (true, s') ->
  exists l granted, lock s = Some l /\ awake s' = awake s ++ granted /\
    match lock s' with
    | Some l' => waitThreads l = granted ++ waitThreads l' /\
        forall w q, waitThreads l' = w :: q -> blocked_by (wpid w) (wmode w) (htab s')
    | None => waitThreads l = [] /\ granted = []
    end.
Proof.
  intros Hr Hb Hv Hrel. apply lock_reachable_inv in Hr. unfold LockRelease in Hrel.
  apply result_bind_Ok in Hrel as (l & Hf & [= Hbody]).
  destruct (find_inv s l (PRelease pid xid m) Hr Hb eq_refl Hv Hf) as [Hnd E]. simpl in E.
  destruct (lock s) as [l0|] eqn:El0; [|done]. injection Hf as Hl.
  destruct (LockRelease_body_cases (add_pending s l (PRelease pid xid m)) l pid xid m [] (pending s)
    eq_refl E eq_refl Hnd)
    as [Hc|(s1 & l1 & Hl1 & HR & _ & Hw & Ha & Hc)].
  { assert ((true, s') = (false, with_lock s l)) by (rewrite <- Hbody; exact Hc). done. }
  assert ((true, s') = (true, finish_release (if nHolding l1 =? 0 then s1 else ThreadLockWakeup l1 s1)))
    as [= ->] by (rewrite <- Hbody; exact Hc).
  assert (waitThreads l0 = waitThreads l1) as Hq by (rewrite Hw, <- Hl; done).
  exists l0. pose proof (proj1 HR) as [C1 _ _ _ _]. destruct (Z.eqb_spec (nHolding l1) 0) as [E0|E0].
  - assert (waitThreads l1 = []) as Hnil.
    { pose proof (c_nHolding _ _ _ C1). pose proof (c_nActive _ _ _ C1).
      assert (0 <= hsum hnHolding (htab s1)) by (apply hsum_nonneg; intros;
        by apply hnHolding_nonneg, (c_holder _ _ _ C1)).
      destruct (waitThreads l1); [done|simpl in *; lia]. }
    exists []. rewrite app_nil_r. split_and!; [done|done|].
    pose proof (finish_release_entry _ _ Hl1 HR). rewrite Hq, Hnil in *.
    destruct (lock (finish_release s1)); [|done]. split; [done|]. congruence.
  - destruct (ThreadLockWakeup_spec l1 s1 (proj1 HR))
      as (l' & g & Hl' & E' & Hrf & Hm & Hp & Hsplit & Haw & Hneed & Hhead).
    exists g. split_and!; [done|simpl; by rewrite Haw, Ha|].
    assert (releasing (ThreadLockWakeup l1 s1) l') as HR'
      by (split; [done|]; rewrite Hneed, Hrf, Hm, Hp; apply HR).
    pose proof (finish_release_entry _ _ Hl' HR') as Hfin.
    destruct (lock (finish_release _)); [rewrite Hfin; split; [congruence|exact Hhead]|].
    rewrite Hneed in Hfin. pose proof (need_none_queue _ _ C1 Hfin) as Hnil.
    rewrite Hq, Hnil. rewrite Hnil in Hsplit. symmetry in Hsplit. by apply app_nil in Hsplit as [-> _].
Qed.

End Invariant.

(** ** Runs *)

(** A closed test of a concrete state. *)
Ltac by_compute := apply (bool_decide_unpack _); vm_compute; exact I.

(** Threads 1 and 2 read; thread 3 asks for the table exclusively and sleeps. *)
Definition run_readers : LockSys :=
  snd (LockAcquire 0 0 1 3 30 AccessExclusiveLock false
    (snd (LockAcquire 0 0 1 2 20 AccessShareLock false
      (snd (LockAcquire 0 0 1 1 10 AccessShareLock false lock_init))))).

Lemma run_readers_reachable : lreachable 0 0 1 false run_readers.
Proof.
  unfold lreachable, run_readers.
  do 3 (etransitivity; [|apply LockAcquire_steps; [by_compute|vm_compute; done]]). done.
Qed.

Lemma lock_mutual_exclusion_witness :
  lreachable 0 0 1 false run_readers /\ htab run_readers <> [] /\ is_Some (lock run_readers).
Proof.
  split; [exact run_readers_reachable|]. split; [by vm_compute|].
  apply (lock_mutual_exclusion 0 0 1 run_readers run_readers_reachable). left. by vm_compute.
Defined.

(** Thread 2 asks again: it is granted, although an exclusive request waits,
    because it holds the mode already. *)
Lemma LockAcquire_spec_witness :
  fst (LockAcquire 0 0 1 2 20 AccessShareLock false run_readers) = AcqGranted /\
  LockCountMyLocks 2 (htab (snd (LockAcquire 0 0 1 2 20 AccessShareLock false run_readers)))
    AccessShareLock = 2.
Proof.
  split; [by vm_compute|].
  destruct (LockAcquire_spec 0 0 1 run_readers 2 20 AccessShareLock false
    (fst (LockAcquire 0 0 1 2 20 AccessShareLock false run_readers))
    (snd (LockAcquire 0 0 1 2 20 AccessShareLock false run_readers))) as [Hg _].
  - exact run_readers_reachable.
  - by_compute.
  - vm_compute; done.
  - by destruct (LockAcquire _ _ _ _ _ _ _ _).
  - destruct Hg as [_ Hc]; [by vm_compute|]. rewrite Hc. by vm_compute.
Defined.

(** Thread 1 releases: thread 3 stays asleep, blocked by thread 2. *)
Definition run_readers_released : result (bool * LockSys) :=
  LockRelease 0 1 10 AccessShareLock run_readers.

Lemma LockRelease_wakes_witness : exists s' l', run_readers_released = Ok (true, s') /\
  lock s' = Some l' /\ (wpid <$> waitThreads l') = [3] /\
  (forall w q, waitThreads l' = w :: q -> blocked_by 0 (wpid w) (wmode w) (htab s')).
Proof.
  eexists _, _. split; [vm_compute; reflexivity|]. split; [reflexivity|]. split; [reflexivity|].
  match goal with |- context [htab ?s] => set (s' := s) end.
  destruct (LockRelease_wakes 0 0 1 run_readers 1 10 AccessShareLock s') as (l & g & _ & _ & Hl').
  - exact run_readers_reachable.
  - by_compute.
  - vm_compute; done.
  - vm_compute; reflexivity.
  - exact (proj2 Hl').
Defined.

Section LostWakeup.
Context (conflict9 : Z).

(** Thread 1 writes the table, thread 2 wants to read-lock it and sleeps,
    thread 3 wants to write it too and sleeps behind thread 2. *)
Definition run_writer : LockSys :=
  snd (LockAcquire conflict9 0 1 1 10 RowExclusiveLock false lock_init).
Definition run_sleepers : LockSys :=
  snd (LockAcquire conflict9 0 1 3 30 RowExclusiveLock false
    (snd (LockAcquire conflict9 0 1 2 20 ShareLock false run_writer))).

Lemma run_sleepers_reachable : lreachable conflict9 0 1 false run_sleepers.
Proof.
  unfold lreachable, run_sleepers, run_writer.
  do 3 (etransitivity; [|apply LockAcquire_steps; [by_compute|vm_compute; done]]). done.
Qed.

(** Thread 1 ends its transaction. *)
Definition run_lost : LockSys :=
  match release_all_one conflict9 1 run_sleepers 10 with Ok s => s | Err _ => lock_init end.
Definition lost_lock : LOCK := default (new_lock 0) (lock run_lost).

Lemma run_lost_ok : release_all_one conflict9 1 run_sleepers 10 = Ok run_lost.
Proof. vm_compute. reflexivity. Qed.
Lemma run_lost_all : LockReleaseAll conflict9 1 true 10 run_sleepers = Ok run_lost.
Proof. vm_compute. reflexivity. Qed.
Lemma run_lost_lock : lock run_lost = Some lost_lock.
Proof. vm_compute. reflexivity. Qed.

(** C36: a lost wake-up.  [ThreadEnqueue] clears the bit of every waiter it
    passes in the wait mask of the shared entry (its model in [proc.c] used a
    local copy), so after a writer queued behind a waiting share request the
    mask no longer shows that request.  [LockReleaseAll] of the last holder
    then wakes nobody: the lock is free, no call is in progress, nobody was
    woken, and the two waiters sleep on, although a wake-up would grant the
    lock to the first of them. *)
Theorem LockReleaseAll_lost_wakeup : exists s s' l,
  lreachable conflict9 0 1 false s /\ lreachable conflict9 0 1 false s' /\
  LockReleaseAll conflict9 1 true 10 s = Ok s' /\ lock s' = Some l /\
  Forall (fun h => hnHolding h = 0) (htab s') /\ awake s' = [] /\ pending s' = [] /\
  (wpid <$> waitThreads l) = [2; 3] /\
  (wpid <$> awake (ThreadLockWakeup conflict9 l s')) = [2].
Proof.
  exists run_sleepers, run_lost, lost_lock. split; [exact run_sleepers_reachable|].
  split; [|split; [exact run_lost_all|split; [exact run_lost_lock|]]].
  - unfold lreachable. etransitivity; [exact run_sleepers_reachable|].
    eapply release_all_one_steps; [| |exact run_lost_ok]; by_compute.
  - split; [by_compute|]. split; [vm_compute; reflexivity|]. split; [vm_compute; reflexivity|].
    split; vm_compute; reflexivity.
Qed.

End LostWakeup.

(** ** A cancel that comes too late *)

Section LateCancel.
Context (conflict9 : Z).
Notation acquire := (fun pid xid m s => snd (LockAcquire conflict9 0 1 pid xid m false s)).

(** The state after a step that may fail, for closed runs. *)
Definition run_release (pid xid m : Z) (s : LockSys) : LockSys :=
  match LockRelease conflict9 pid xid m s with Ok (_, s') => s' | Err _ => s end.
Definition run_release_all (pid xid : Z) (s : LockSys) : LockSys :=
  match release_all_one conflict9 pid s xid with Ok s' => s' | Err _ => s end.
(** The thread that was woken first gives up all the same. *)
Definition run_late_cancel (s : LockSys) : LockSys :=
  match lock s, awake s with
  | Some l, w :: a =>
      mkLockSys (Some (WaitOnLock_failed (with_waitMask l (worigMask w)) (wmode w))) (htab s) a (pending s)
  | _, _ => s
  end.

(** The first of the woken threads goes on with its lock. *)
Definition run_granted (s : LockSys) : LockSys :=
  match lock s, awake s with
  | Some l, w :: a => mkLockSys (Some (WaitOnLock_granted l (wmode w))) (htab s) a (pending s)
  | _, _ => s
  end.

Lemma run_release_steps pid xid m s : pid ∉ busy s -> valid_mode m ->
  rtc (lstep conflict9 0 1 true) s (run_release pid xid m s).
Proof.
  intros Hb Hm. unfold run_release. destruct (LockRelease conflict9 pid xid m s) as [[b s']|e] eqn:E; [|done].
  by eapply LockRelease_steps.
Qed.

Lemma run_release_all_steps pid xid s : pid ∉ busy s -> is_Some (find_holder pid xid (htab s)) ->
  rtc (lstep conflict9 0 1 true) s (run_release_all pid xid s).
Proof.
  intros Hb Hm. unfold run_release_all. destruct (release_all_one conflict9 pid s xid) as [s'|e] eqn:E; [|done].
  by eapply release_all_one_steps.
Qed.

Lemma run_late_cancel_steps s : rtc (lstep conflict9 0 1 true) s (run_late_cancel s).
Proof.
  unfold run_late_cancel. destruct (lock s) as [l|] eqn:El; [|done].
  destruct (awake s) as [|w a] eqn:Ea; [done|]. apply rtc_once.
  by apply (ls_cancel_granted conflict9 0 1 true s w [] a l).
Qed.

Lemma run_granted_steps s : rtc (lstep conflict9 0 1 true) s (run_granted s).
Proof.
  unfold run_granted. destruct (lock s) as [l|] eqn:El; [|done].
  destruct (awake s) as [|w a] eqn:Ea; [done|]. apply rtc_once.
  by apply (ls_granted conflict9 0 1 true s w [] a l).
Qed.

(** Thread 1 holds the table exclusively, 3 and 2 wait to read it; 1 releases and
    both are granted the lock; 3 goes on, but 2 is cancelled before it runs. *)
Definition run_late : LockSys :=
  run_late_cancel (run_granted (run_release 1 10 AccessExclusiveLock
    (acquire 3 30 AccessShareLock (acquire 2 20 AccessShareLock
      (acquire 1 10 AccessExclusiveLock lock_init))))).
(** The transaction of thread 2 aborts; thread 4 asks for the table exclusively. *)
Definition run_broken : LockSys := acquire 4 40 AccessExclusiveLock (run_release_all 2 20 run_late).
(** Thread 5 queues up before that, and the transaction of thread 2 aborts. *)
Definition run_stranded : LockSys := run_release_all 2 20 (acquire 5 50 AccessExclusiveLock run_late).

Lemma run_late_reachable : lreachable conflict9 0 1 true run_late.
Proof.
  unfold lreachable, run_late. etransitivity; [|apply run_late_cancel_steps].
  etransitivity; [|apply run_granted_steps].
  etransitivity; [|apply run_release_steps; [by_compute|vm_compute; done]].
  do 3 (etransitivity; [|apply LockAcquire_steps; [by_compute|vm_compute; done]]). done.
Qed.

(** A sleep that is cancelled after the lock was granted breaks the lock
    manager.  The undo takes the thread off [nHolding] although it holds the
    lock.  When its transaction then aborts, [LockReleaseAll] takes it for the
    last holder and clears the counters: a third thread gets the table
    exclusively while another still reads it.  With a waiter in the queue,
    [LockRelease] of the last reader finds [nHolding] at 0 and wakes nobody. *)
Theorem late_cancel_breaks_locking :
  (exists h1 h2, lreachable conflict9 0 1 true run_broken /\ h1 ∈ htab run_broken /\ h2 ∈ htab run_broken /\
     hpid h1 <> hpid h2 /\ 0 < hholders h1 AccessExclusiveLock /\ 0 < hholders h2 AccessShareLock /\
     Z.testbit (conflictTab conflict9 AccessExclusiveLock) AccessShareLock = true) /\
  (exists s' l, lreachable conflict9 0 1 true run_stranded /\
     LockRelease conflict9 3 30 AccessShareLock run_stranded = Ok (true, s') /\ lock s' = Some l /\
     Forall (fun h => hnHolding h = 0) (htab s') /\ (wpid <$> waitThreads l) = [5] /\ awake s' = []).
Proof.
  split.
  - eexists _, _. split.
    { unfold lreachable, run_broken. etransitivity; [|apply LockAcquire_steps; [by_compute|vm_compute; done]].
      etransitivity; [|apply run_release_all_steps; by_compute]. apply run_late_reachable. }
    split; [vm_compute; left|]. split; [vm_compute; right; left|]. by vm_compute.
  - eexists _, _. split.
    { unfold lreachable, run_stranded. etransitivity; [|apply run_release_all_steps; by_compute].
      etransitivity; [|apply LockAcquire_steps; [by_compute|vm_compute; done]]. apply run_late_reachable. }
    split; [vm_compute; reflexivity|]. split; [reflexivity|]. split; [by_compute|]. by vm_compute.
Qed.

End LateCancel.

(** A transaction that acquired the lock twice counts twice in [refs], and its
    [LockReleaseAll] takes one off: the entry stays in the table, unused. *)
Example LockReleaseAll_leaks_entry :
  let s := snd (LockAcquire 0 0 1 1 10 RowShareLock false
    (snd (LockAcquire 0 0 1 1 10 AccessShareLock false lock_init))) in
  exists s' l, LockReleaseAll 0 1 true 10 s = Ok s' /\ lock s' = Some l /\ htab s' = [] /\
    nHolding l = 0 /\ refs l = 1 /\ removing l = 0.
Proof. eexists _, _. split_and!; vm_compute; reflexivity. Qed.

(** The wait mask of a new entry is whatever the hash element held: with a
    stale [AccessExclusiveLock] bit, the second reader is sent to sleep on an
    empty queue. *)
Example stale_waitMask_blocks_reader :
  let s := snd (LockAcquire 0 (bit AccessExclusiveLock) 1 1 10 AccessShareLock false lock_init) in
  fst (LockAcquire 0 (bit AccessExclusiveLock) 1 2 20 AccessShareLock false s) = AcqSleeping.
Proof. vm_compute. reflexivity. Qed.
