(* ===== verification/Hashfunc.v ===== *)
(** * Hash functions: access/hash/hashfunc.c and utils/hash/hashfn.c

    The functions that hash keys for indexes, caches and hash tables.  Memory
    is a list of bytes (0 to 255); an [int] or [uint32] is fetched little
    endian and a plain [char] is signed, as on the machines the system is
    built for.  The unrolled routines are modelled as they are written: the
    loop entered in its middle ([hashtext], [hashfloat4], [hashfloat8]) as a
    first pass of [len & 7] steps and passes of eight, the jump table of
    [tag_hash] by its cases, the two paths of [hash_any] for aligned and
    unaligned keys separately.

    Main results: the two paths of [hash_any] compute the same value
    ([hash_any_alignment]), and [mix] is reversible, as its comment says
    ([mix_reversible]); the unrolled routines and the jump table are the plain
    loops over their keys ([unrolled_hashes]). *)

From S2P Require Import Prelude.

(** ** Memory *)

Definition i8 (z : Z) : Z := swrap 8 z.
Definition byte_ok (b : Z) : Prop := 0 <= b < 256.

(** [((uint32 * ) k)[i]]. *)
Definition load32 (k : list Z) (i : Z) : Z :=
  aget 0 k (4 * i) + Z.shiftl (aget 0 k (4 * i + 1)) 8 + Z.shiftl (aget 0 k (4 * i + 2)) 16 +
  Z.shiftl (aget 0 k (4 * i + 3)) 24.
Definition load_int (k : list Z) (i : Z) : Z := i32 (load32 k i).

(** The bytes of a little-endian integer of [n] bytes. *)
Fixpoint bytes_of (n : nat) (w : Z) : list Z :=
  match n with O => [] | S n => Z.land w 255 :: bytes_of n (Z.shiftr w 8) end.

(** ** Hashes of fixed-size keys *)

Definition hashint2 (key : Z) : Z := u32 (Z.lnot key).
Definition hashint4 (key : Z) : Z := u32 (Z.lnot key).
Definition hashint8 (key : Z) : Z := u32 (Z.lnot (u32 key)).
Definition hashoid (key : Z) : Z := u32 (Z.lnot key).

(** [for (i = INDEX_MAX_KEYS; --i >= 0;) result = (result << 1) ^ (~(uint32) key[i])]. *)
Definition vector_step (key : Z) (result : Z) : Z :=
  Z.lxor (u32 (Z.shiftl result 1)) (u32 (Z.lnot (u32 key))).
Definition INDEX_MAX_KEYS : nat := 9.
Definition hashoidvector (key : list Z) : Z := foldr vector_step 0 (take INDEX_MAX_KEYS key).
Definition hashint2vector (key : list Z) : Z := foldr vector_step 0 (take INDEX_MAX_KEYS key).

Definition PRIME1 : Z := 37.
Definition PRIME2 : Z := 1048583.
Definition NAMEDATALEN : nat := 64.

Definition hashchar (key : Z) : Z := u32 (key - 32) mod PRIME2.

Definition name_step (h c : Z) : Z := Z.lxor (u32 (h * PRIME1)) (u32 (c - 32)).
(** [while (len--) h = h * PRIME1 ^ ( *key++ - ' ')]. *)
Fixpoint hashname_loop (len : nat) (key : list Z) (h : Z) : Z :=
  match len with
  | O => h
  | S len => hashname_loop len (drop 1 key) (name_step h (i8 (aget 0 key 0)))
  end.
Definition hashname (key : list Z) : Z := hashname_loop NAMEDATALEN key 0 mod PRIME2.

(** ** Unrolled loops *)

(** [n] consecutive steps of the unrolled body. *)
Fixpoint steps (step : Z -> Z -> Z) (n : nat) (h : Z) (kp : list Z) : Z * list Z :=
  match n with
  | O => (h, kp)
  | S n => steps step n (step h (i8 (aget 0 kp 0))) (drop 1 kp)
  end.

(** [do { ... } while (--loop)], entered with [first] steps to go before the
    first test; [loop] is the number of passes after the first. *)
Fixpoint unrolled_loop (step : Z -> Z -> Z) (loop first : nat) (h : Z) (kp : list Z) : Z :=
  let '(h, kp) := steps step first h kp in
  match loop with O => h | S loop => unrolled_loop step loop 8 h kp end.

Definition unrolled (step : Z -> Z -> Z) (len : Z) (kp : list Z) : Z :=
  if len >? 0 then
    let loop := Z.shiftr (len + 8 - 1) 3 in
    let entry := Z.land len (8 - 1) in
    unrolled_loop step (Z.to_nat (loop - 1)) (if entry =? 0 then 8%nat else Z.to_nat entry) 0 kp
  else 0.

Definition HASH4b (h c : Z) : Z := u32 (u32 (u32 (Z.shiftl h 5) + h) + c).
Definition HASHC (n c : Z) : Z := u32 (c + u32 (65599 * n)).

Definition hashfloat4 (keyp : list Z) : Z := unrolled HASH4b 4 keyp.
Definition hashfloat8 (keyp : list Z) : Z := unrolled HASH4b 8 keyp.

(** [VARSIZE] and [VARDATA] of the value. *)
Definition VARSIZE (vl_len : Z) : Z := Z.land vl_len 1073741823.
Definition hashtext (vl_len : Z) (vl_dat : list Z) : Z := unrolled HASHC (VARSIZE vl_len - 4) vl_dat.

(** ** hash_any *)

Definition rot (x k : Z) : Z := Z.lor (u32 (Z.shiftl x k)) (Z.shiftr x (32 - k)).

(** One line of [mix]: [x -= z; x ^= rot(z, k); z += y]. *)
Definition mix_line (k x y z : Z) : Z * Z := (Z.lxor (u32 (x - z)) (rot z k), u32 (z + y)).

Definition mix (abc : Z * Z * Z) : Z * Z * Z :=
  let '(a, b, c) := abc in
  let '(a, c) := mix_line 4 a b c in
  let '(b, a) := mix_line 6 b c a in
  let '(c, b) := mix_line 8 c a b in
  let '(a, c) := mix_line 16 a b c in
  let '(b, a) := mix_line 19 b c a in
  let '(c, b) := mix_line 4 c a b in
  (a, b, c).

(** One line of [final]: [x ^= y; x -= rot(y, k)]. *)
Definition final_line (k x y : Z) : Z := u32 (Z.lxor x y - rot y k).

Definition final (abc : Z * Z * Z) : Z * Z * Z :=
  let '(a, b, c) := abc in
  let c := final_line 14 c b in
  let a := final_line 11 a c in
  let b := final_line 25 b a in
  let c := final_line 16 c b in
  let a := final_line 4 a c in
  let b := final_line 14 b a in
  let c := final_line 24 c b in
  (a, b, c).

(** A [case n:] of a switch on [len] that is reached from [len] by falling
    through, up to the case [last]: [x += v] when it is. *)
Definition case_add (n len last : Z) (x v : Z) : Z :=
  if (n <=? len) && (len <=? last) then u32 (x + v) else x.

(** The switch of the aligned path; cases 8 and 4 break. *)
Definition aligned_tail (len : Z) (k : list Z) (abc : Z * Z * Z) : Z * Z * Z :=
  let '(a, b, c) := abc in
  let k_ i := aget 0 k i in
  let c := case_add 11 len 11 c (Z.shiftl (k_ 10) 24) in
  let c := case_add 10 len 11 c (Z.shiftl (k_ 9) 16) in
  let c := case_add 9 len 11 c (Z.shiftl (k_ 8) 8) in
  let b := case_add 8 len 11 b (load32 k 1) in
  let a := case_add 8 len 11 a (load32 k 0) in
  let b := case_add 7 len 7 b (Z.shiftl (k_ 6) 16) in
  let b := case_add 6 len 7 b (Z.shiftl (k_ 5) 8) in
  let b := case_add 5 len 7 b (k_ 4) in
  let a := case_add 4 len 7 a (load32 k 0) in
  let a := case_add 3 len 3 a (Z.shiftl (k_ 2) 16) in
  let a := case_add 2 len 3 a (Z.shiftl (k_ 1) 8) in
  let a := case_add 1 len 3 a (k_ 0) in
  (a, b, c).

(** The switch of the unaligned path; every case falls through. *)
Definition unaligned_tail (len : Z) (k : list Z) (abc : Z * Z * Z) : Z * Z * Z :=
  let '(a, b, c) := abc in
  let k_ i := aget 0 k i in
  let c := case_add 11 len 11 c (Z.shiftl (k_ 10) 24) in
  let c := case_add 10 len 11 c (Z.shiftl (k_ 9) 16) in
  let c := case_add 9 len 11 c (Z.shiftl (k_ 8) 8) in
  let b := case_add 8 len 11 b (Z.shiftl (k_ 7) 24) in
  let b := case_add 7 len 11 b (Z.shiftl (k_ 6) 16) in
  let b := case_add 6 len 11 b (Z.shiftl (k_ 5) 8) in
  let b := case_add 5 len 11 b (k_ 4) in
  let a := case_add 4 len 11 a (Z.shiftl (k_ 3) 24) in
  let a := case_add 3 len 11 a (Z.shiftl (k_ 2) 16) in
  let a := case_add 2 len 11 a (Z.shiftl (k_ 1) 8) in
  let a := case_add 1 len 11 a (k_ 0) in
  (a, b, c).

(** [while (len >= 12)] of the aligned path, which runs [len / 12] times;
    then its switch. *)
Fixpoint aligned_loop (len : Z) (k : list Z) (abc : Z * Z * Z) (n : nat) {struct n} : Z * Z * Z :=
  match n with
  | O => aligned_tail len k abc
  | S n =>
    let '(a, b, c) := abc in
    let a := u32 (a + load32 k 0) in
    let b := u32 (b + load32 k 1) in
    let c := u32 (c + load32 k 2) in
    aligned_loop (len - 12) (drop 12 k) (mix (a, b, c)) n
  end.

Fixpoint unaligned_loop (len : Z) (k : list Z) (abc : Z * Z * Z) (n : nat) {struct n} : Z * Z * Z :=
  match n with
  | O => unaligned_tail len k abc
  | S n =>
    let '(a, b, c) := abc in
    let k_ i := aget 0 k i in
    let a := u32 (a + u32 (u32 (u32 (k_ 0 + Z.shiftl (k_ 1) 8) + Z.shiftl (k_ 2) 16) + Z.shiftl (k_ 3) 24)) in
    let b := u32 (b + u32 (u32 (u32 (k_ 4 + Z.shiftl (k_ 5) 8) + Z.shiftl (k_ 6) 16) + Z.shiftl (k_ 7) 24)) in
    let c := u32 (c + u32 (u32 (u32 (k_ 8 + Z.shiftl (k_ 9) 8) + Z.shiftl (k_ 10) 16) + Z.shiftl (k_ 11) 24)) in
    unaligned_loop (len - 12) (drop 12 k) (mix (a, b, c)) n
  end.

(** [addr] is the address of the key, whose alignment selects the path. *)
Definition hash_any (addr : Z) (k : list Z) (keylen : Z) : Z :=
  let len := u32 keylen in
  let a := u32 (u32 (2654435769 + len) + 3923095) in
  let loop := if Z.land addr 3 =? 0 then aligned_loop else unaligned_loop in
  let '(_, _, c) := final (loop len k (a, a, a) (Z.to_nat (len / 12))) in
  c.

(** ** Hashes of hash table keys *)

(** [string_hash]: [h] is an [int]. *)
Fixpoint string_hash_loop (k : list Z) (h : Z) : Z :=
  match k with
  | [] => h
  | c :: k => if c =? 0 then h else string_hash_loop k (Z.lxor (i32 (h * PRIME1)) (c - 32))
  end.
Definition string_hash (key : list Z) : Z := Z.rem (string_hash_loop key 0) PRIME2.

(** [h = h * PRIME1 ^ ( *key)] on a [long]. *)
Definition tag_step (h key : Z) : Z := Z.lxor (i64 (h * PRIME1)) key.

(** [n] cases of the jump table, from [key] on. *)
Fixpoint tag_cases (n : nat) (h : Z) (key : list Z) : Z :=
  match n with
  | O => h
  | S n => tag_cases n (tag_step h (load_int key 0)) (drop 4 key)
  end.

(** [for (; keysize >= (int) sizeof(int); keysize -= sizeof(int), key++)],
    which runs [keysize / 4] times; then the switch on the bytes left. *)
Fixpoint tag_loop (n : nat) (keysize h : Z) (key : list Z) : Z :=
  match n with
  | O =>
    if keysize =? 3 then
      tag_step (tag_step (tag_step h (i8 (aget 0 key 0))) (i8 (aget 0 key 1))) (i8 (aget 0 key 2))
    else if keysize =? 2 then tag_step (tag_step h (i8 (aget 0 key 0))) (i8 (aget 0 key 1))
    else if keysize =? 1 then tag_step h (i8 (aget 0 key 0))
    else h
  | S n => tag_loop n (keysize - 4) (tag_step h (load_int key 0)) (drop 4 key)
  end.

Definition tag_hash (key : list Z) (keysize : Z) : Z :=
  let h :=
    if keysize =? 6 * 4 then tag_cases 6 0 key
    else if keysize =? 5 * 4 then tag_cases 5 0 key
    else if keysize =? 4 * 4 then tag_cases 4 0 key
    else if keysize =? 3 * 4 then tag_cases 3 0 key
    else if keysize =? 2 * 4 then tag_cases 2 0 key
    else if keysize =? 4 then tag_cases 1 0 key
    else tag_loop (Z.to_nat (keysize / 4)) keysize 0 key in
  Z.rem h PRIME2.

(** ** Aligned and unaligned keys *)

Lemma u32_add_l x y : u32 (u32 x + y) = u32 (x + y).
Proof. apply Zplus_mod_idemp_l. Qed.
Lemma u32_add_r x y : u32 (x + u32 y) = u32 (x + y).
Proof. apply Zplus_mod_idemp_r. Qed.
Lemma u32_sub_l x y : u32 (u32 x - y) = u32 (x - y).
Proof. apply Zminus_mod_idemp_l. Qed.


(** The bytes of a word added one by one. *)
Lemma u32_add4 a x y z w : u32 (u32 (u32 (u32 (a + w) + z) + y) + x) = u32 (a + (x + y + z + w)).
Proof.
  rewrite (u32_add_l (a + w)), (u32_add_l (a + w + z)), (u32_add_l (a + w + z + y)). f_equal. lia.
Qed.

Lemma u32_add3 x y z w : u32 (u32 (u32 (x + y) + z) + w) = u32 (x + y + z + w).
Proof. by rewrite (u32_add_l (x + y)), (u32_add_l (x + y + z)). Qed.

Lemma load32_0 k : load32 k 0 =
  aget 0 k 0 + Z.shiftl (aget 0 k 1) 8 + Z.shiftl (aget 0 k 2) 16 + Z.shiftl (aget 0 k 3) 24.
Proof. reflexivity. Qed.
Lemma load32_1 k : load32 k 1 =
  aget 0 k 4 + Z.shiftl (aget 0 k 5) 8 + Z.shiftl (aget 0 k 6) 16 + Z.shiftl (aget 0 k 7) 24.
Proof. reflexivity. Qed.
Lemma load32_2 k : load32 k 2 =
  aget 0 k 8 + Z.shiftl (aget 0 k 9) 8 + Z.shiftl (aget 0 k 10) 16 + Z.shiftl (aget 0 k 11) 24.
Proof. reflexivity. Qed.

Lemma tails_agree len k abc : 0 <= len < 12 -> aligned_tail len k abc = unaligned_tail len k abc.
Proof.
  intros Hlen. destruct abc as [[a b] c]. unfold aligned_tail, unaligned_tail. rewrite load32_0, load32_1.
  generalize (aget 0 k 0) (aget 0 k 1) (aget 0 k 2) (aget 0 k 3) (aget 0 k 4) (aget 0 k 5) (aget 0 k 6)
    (aget 0 k 7) (aget 0 k 8) (aget 0 k 9) (aget 0 k 10). intros k0 k1 k2 k3 k4 k5 k6 k7 k8 k9 k10.
  assert (len = 0 \/ len = 1 \/ len = 2 \/ len = 3 \/ len = 4 \/ len = 5 \/ len = 6 \/ len = 7 \/
    len = 8 \/ len = 9 \/ len = 10 \/ len = 11) as Hc by lia.
  repeat destruct Hc as [->|Hc]; [..|subst len]; cbv beta zeta iota delta [case_add andb Z.leb Z.compare Pos.compare Pos.compare_cont]; try reflexivity;
    repeat match goal with |- (_, _) = (_, _) => f_equal end; by rewrite ?u32_add4.
Qed.

Lemma aligned_loop_S n len k a b c : aligned_loop len k (a, b, c) (S n) =
  aligned_loop (len - 12) (drop 12 k) (mix (u32 (a + load32 k 0), u32 (b + load32 k 1), u32 (c + load32 k 2))) n.
Proof. reflexivity. Qed.

Lemma unaligned_loop_S n len k a b c : unaligned_loop len k (a, b, c) (S n) =
  unaligned_loop (len - 12) (drop 12 k) (mix (u32 (a + load32 k 0), u32 (b + load32 k 1), u32 (c + load32 k 2))) n.
Proof.
  rewrite load32_0, load32_1, load32_2, <- !(u32_add_r _ (_ + _ + _ + _)), <- !u32_add3. reflexivity.
Qed.

Lemma loops_agree n len k abc : 0 <= len < 12 * (Z.of_nat n + 1) -> 12 * Z.of_nat n <= len ->
  aligned_loop len k abc n = unaligned_loop len k abc n.
Proof.
  revert len k abc. induction n as [|n IH]; intros len k [[a b] c] Hlen Hn.
  - apply tails_agree. lia.
  - rewrite aligned_loop_S, unaligned_loop_S. apply IH; lia.
Qed.

Lemma hash_any_addr addr addr' k keylen : hash_any addr k keylen = hash_any addr' k keylen.
Proof.
  unfold hash_any. pose proof (u32_range keylen).
  assert (forall abc, aligned_loop (u32 keylen) k abc (Z.to_nat (u32 keylen / 12)) =
    unaligned_loop (u32 keylen) k abc (Z.to_nat (u32 keylen / 12))) as Ha.
  { intros abc. apply loops_agree; pose proof (Z.div_mod (u32 keylen) 12 ltac:(lia));
      pose proof (Z.mod_pos_bound (u32 keylen) 12 ltac:(lia)); lia. }
  by destruct (Z.land addr 3 =? 0), (Z.land addr' 3 =? 0); rewrite ?Ha.
Qed.
(** [hash_any] does not depend on where the key lies: the path that
    fetches aligned words and the path that fetches bytes give the same value
    for every key and length. *)
Theorem hash_any_alignment addr addr' k keylen : hash_any addr k keylen = hash_any addr' k keylen.
Proof. apply hash_any_addr. Qed.

(** ** mix is reversible *)

Definition word32 (x : Z) : Prop := 0 <= x < 2 ^ 32.

Lemma lxor_bound a b n : 0 <= n -> 0 <= a < 2 ^ n -> 0 <= b < 2 ^ n -> 0 <= Z.lxor a b < 2 ^ n.
Proof.
  intros Hn Ha Hb. assert (0 <= Z.lxor a b) as H0 by (apply Z.lxor_nonneg; lia). split; [done|].
  apply bounded_bits; [done|done|]. intros i Hi.
  by rewrite Z.lxor_spec, (testbit_above a n), (testbit_above b n).
Qed.

Lemma rot_word32 x k : word32 x -> 0 <= k <= 32 -> word32 (rot x k).
Proof.
  intros [H0 H1] Hk. apply lor_bound; [lia|apply u32_range|]. rewrite Z.shiftr_div_pow2 by lia.
  split; [apply Z.div_pos; lia|]. apply Z.div_lt_upper_bound; [lia|]. nia.
Qed.

(** The line undone. *)
Definition unmix_line (k x y z : Z) : Z * Z :=
  let z := u32 (z - y) in (u32 (Z.lxor x (rot z k) + z), z).

Definition unmix (abc : Z * Z * Z) : Z * Z * Z :=
  let '(a, b, c) := abc in
  let '(c, b) := unmix_line 4 c a b in
  let '(b, a) := unmix_line 19 b c a in
  let '(a, c) := unmix_line 16 a b c in
  let '(c, b) := unmix_line 8 c a b in
  let '(b, a) := unmix_line 6 b c a in
  let '(a, c) := unmix_line 4 a b c in
  (a, b, c).

Lemma mix_line_spec k x y z : 0 <= k <= 32 -> word32 x -> word32 z ->
  let '(x', z') := mix_line k x y z in word32 x' /\ word32 z' /\ unmix_line k x' y z' = (x, z).
Proof.
  intros Hk Hx Hz. unfold mix_line, unmix_line. split; [|split].
  - apply lxor_bound; [lia|apply u32_range|by apply rot_word32].
  - apply u32_range.
  - rewrite u32_sub_l. replace (z + y - y) with z by lia. rewrite (u32_id z Hz).
    rewrite Z.lxor_assoc, Z.lxor_nilpotent, Z.lxor_0_r, u32_add_l. f_equal.
    replace (x - z + z) with x by lia. by apply u32_id.
Qed.

Lemma unmix_line_spec k x y z : 0 <= k <= 32 -> word32 x -> word32 z ->
  let '(x', z') := unmix_line k x y z in word32 x' /\ word32 z' /\ mix_line k x' y z' = (x, z).
Proof.
  intros Hk Hx Hz. unfold mix_line, unmix_line. split; [|split].
  - apply u32_range.
  - apply u32_range.
  - rewrite u32_sub_l, u32_add_l. replace (z - y + y) with z by lia. rewrite (u32_id z Hz).
    set (z' := u32 (z - y)). assert (word32 z') as Hz' by apply u32_range.
    replace (Z.lxor x (rot z' k) + z' - z') with (Z.lxor x (rot z' k)) by lia.
    rewrite (u32_id (Z.lxor _ _)) by (apply lxor_bound; [lia|done|by apply rot_word32]).
    by rewrite Z.lxor_assoc, Z.lxor_nilpotent, Z.lxor_0_r.
Qed.

(** Run the lines of the goal and learn what undoes each. *)
Ltac lines f L :=
  repeat match goal with
  | |- context [f ?k ?x ?y ?z] =>
    let H := fresh in
    pose proof (L k x y z ltac:(lia) ltac:(assumption) ltac:(assumption)) as H; revert H;
    destruct (f k x y z) as [? ?]; intros (? & ? & ?)
  end.

Definition words32 (abc : Z * Z * Z) : Prop := let '(a, b, c) := abc in word32 a /\ word32 b /\ word32 c.

Lemma unmix_mix abc : words32 abc -> words32 (mix abc) /\ unmix (mix abc) = abc.
Proof.
  destruct abc as [[a b] c]. intros (Ha & Hb & Hc). cbn [mix]. lines mix_line mix_line_spec.
  split; [done|]. cbn [unmix]. by repeat match goal with H : unmix_line _ _ _ _ = _ |- _ => rewrite H; clear H end.
Qed.

Lemma mix_unmix abc : words32 abc -> mix (unmix abc) = abc.
Proof.
  destruct abc as [[a b] c]. intros (Ha & Hb & Hc). cbn [unmix]. lines unmix_line unmix_line_spec.
  cbn [mix]. by repeat match goal with H : mix_line _ _ _ _ = _ |- _ => rewrite H; clear H end.
Qed.

(** [mix] is reversible: on three 32-bit words it has an inverse on both
    sides, so that no information of the words is lost. *)
Theorem mix_reversible abc : words32 abc ->
  words32 (mix abc) /\ unmix (mix abc) = abc /\ mix (unmix abc) = abc.
Proof.
  intros H. destruct (unmix_mix abc H). auto using mix_unmix.
Qed.

Lemma mix_reversible_witness :
  unmix (mix (1, 2, 4294967295)) = (1, 2, 4294967295) /\ mix (1, 2, 4294967295) <> (1, 2, 4294967295).
Proof.
  split; [apply (mix_reversible (1, 2, 4294967295)); unfold words32, word32; lia|]. by vm_compute.
Defined.

(** ** Unrolled loops are loops *)

Lemma steps_spec step n h kp : (n <= length kp)%nat ->
  steps step n h kp = (foldl step h (i8 <$> take n kp), drop n kp).
Proof.
  revert h kp. induction n as [|n IH]; intros h kp Hn; [done|].
  destruct kp as [|c kp]; [simpl in Hn; lia|]. simpl. apply IH. simpl in Hn. lia.
Qed.

Lemma unrolled_loop_spec step loop first h kp : (first + 8 * loop <= length kp)%nat ->
  unrolled_loop step loop first h kp = foldl step h (i8 <$> take (first + 8 * loop) kp).
Proof.
  revert first h kp. induction loop as [|loop IH]; intros first h kp Hn; cbn [unrolled_loop];
    rewrite steps_spec by lia.
  - by rewrite Nat.mul_0_r, Nat.add_0_r.
  - rewrite IH by (rewrite length_drop; lia). rewrite <- foldl_app, <- fmap_app, take_take_drop.
    do 3 f_equal. lia.
Qed.

Lemma unrolled_spec step len kp : len <= Zlen kp ->
  unrolled step len kp = foldl step 0 (i8 <$> take (Z.to_nat len) kp).
Proof.
  intros Hlen. unfold unrolled. destruct (Z.gtb_spec len 0); [|by replace (Z.to_nat len) with O by lia].
  change (8 - 1) with (Z.ones 3). rewrite Z.land_ones, Z.shiftr_div_pow2 by lia. change (2 ^ 3) with 8.
  pose proof (Z.div_mod len 8 ltac:(lia)). pose proof (Z.mod_pos_bound len 8 ltac:(lia)).
  pose proof (Z.div_mod (len + 8 - 1) 8 ltac:(lia)). pose proof (Z.mod_pos_bound (len + 8 - 1) 8 ltac:(lia)).
  destruct (Z.eqb_spec (len mod 8) 0); rewrite unrolled_loop_spec; try lia; do 3 f_equal; lia.
Qed.

Lemma hashname_loop_spec n key h : (n <= length key)%nat ->
  hashname_loop n key h = foldl name_step h (i8 <$> take n key).
Proof.
  revert key h. induction n as [|n IH]; intros key h Hn; [done|].
  destruct key as [|c key]; [simpl in Hn; lia|]. simpl. apply IH. simpl in Hn. lia.
Qed.

(** The [int]s and the [char]s left of a key of [keysize] bytes. *)
Fixpoint tag_parts (key : list Z) : list Z :=
  match key with
  | b0 :: b1 :: b2 :: b3 :: key => load_int [b0; b1; b2; b3] 0 :: tag_parts key
  | rest => i8 <$> rest
  end.

Lemma tag_loop_spec n keysize h key : 4 * Z.of_nat n <= keysize < 4 * Z.of_nat n + 4 -> keysize <= Zlen key ->
  tag_loop n keysize h key = foldl tag_step h (tag_parts (take (Z.to_nat keysize) key)).
Proof.
  revert keysize h key. induction n as [|n IH]; intros keysize h key Hk Hlen; cbn [tag_loop].
  - assert (keysize = 0 \/ keysize = 1 \/ keysize = 2 \/ keysize = 3) as [->|[->|[->| ->]]] by lia;
      destruct key as [|b0 [|b1 [|b2 key]]]; simpl in Hlen; (lia || reflexivity).
  - destruct key as [|b0 [|b1 [|b2 [|b3 key]]]]; simpl in Hlen; try lia.
    replace (Z.to_nat keysize) with (4 + Z.to_nat (keysize - 4))%nat by lia.
    simpl drop. rewrite drop_0, IH by lia. reflexivity.
Qed.

Lemma tag_cases_loop n h key :
  tag_cases n h key = tag_loop n (4 * Z.of_nat n) h key.
Proof.
  revert h key. induction n as [|n IH]; intros h key; [done|]. cbn [tag_cases tag_loop]. rewrite IH.
  f_equal. lia.
Qed.

Lemma tag_hash_spec key keysize : 0 <= keysize <= Zlen key ->
  tag_hash key keysize = Z.rem (foldl tag_step 0 (tag_parts (take (Z.to_nat keysize) key))) PRIME2.
Proof.
  intros Hk. unfold tag_hash. f_equal. rewrite !tag_cases_loop.
  pose proof (Z.div_mod keysize 4 ltac:(lia)). pose proof (Z.mod_pos_bound keysize 4 ltac:(lia)).
  repeat case_match; bool_cases; subst; apply tag_loop_spec; lia.
Qed.

(** The unrolled hash functions are loops over their keys.  [hashtext]
    hashes exactly the bytes of the value after its length word, [hashfloat4]
    and [hashfloat8] the bytes of the number, whatever the remainder of the
    length by eight with which the unrolled loop is entered; [hashname] all
    bytes of the name; and the jump table of [tag_hash] gives for the sizes it
    handles what its general loop gives for the others: the [int]s of the key,
    then its last bytes one by one. *)
Theorem unrolled_hashes key vl_len keysize :
  VARSIZE vl_len - 4 <= Zlen key -> (64 <= length key)%nat -> 0 <= keysize <= Zlen key ->
  hashtext vl_len key = foldl HASHC 0 (i8 <$> take (Z.to_nat (VARSIZE vl_len - 4)) key) /\
  hashfloat4 key = foldl HASH4b 0 (i8 <$> take 4 key) /\
  hashfloat8 key = foldl HASH4b 0 (i8 <$> take 8 key) /\
  hashname key = foldl name_step 0 (i8 <$> take 64 key) mod PRIME2 /\
  tag_hash key keysize = Z.rem (foldl tag_step 0 (tag_parts (take (Z.to_nat keysize) key))) PRIME2.
Proof.
  intros Hv Hlen Hk. split_and!.
  - by apply unrolled_spec.
  - apply (unrolled_spec _ 4). lia.
  - apply (unrolled_spec _ 8). lia.
  - unfold hashname. by rewrite hashname_loop_spec.
  - by apply tag_hash_spec.
Qed.

(** A key of 64 bytes, as text of 15 bytes and as a tag of 22 bytes. *)
Definition sample_key : list Z := seqZ 100 64.
Lemma unrolled_hashes_witness :
  hashtext 19 sample_key = foldl HASHC 0 (i8 <$> take 15 sample_key) /\
  tag_hash sample_key 22 = Z.rem (foldl tag_step 0 (tag_parts (take 22 sample_key))) PRIME2 /\
  length (tag_parts (take 22 sample_key)) = 7%nat.
Proof.
  assert (length sample_key = 64%nat) as Hlen by reflexivity.
  destruct (unrolled_hashes sample_key 19 22) as (Ht & _ & _ & _ & Hk);
    [rewrite Hlen; vm_compute; discriminate|rewrite Hlen; lia|rewrite Hlen; lia|].
  split; [exact Ht|]. split; [exact Hk|]. reflexivity.
Defined.
