(* ===== verification/Bitmapset.v ===== *)
(** * Bitmap sets: env/bitmapset.c

    A set of nonnegative integers as an array of 64-bit words; a NULL pointer
    is the empty set.  The operations are modelled on the record [Bitmapset]
    ([nwords] is a C [int]) and a pointer is an [option]; the operations that
    recycle an argument return its new value, and their arguments are assumed
    not to be the same object.  The abstract set is the membership function
    [mem].

    Main results: the operations that build sets compute union, intersection,
    difference, insertion and removal ([bms_operations_refine]); the tests and
    the counts, with their byte tables, answer for the abstract set, and equal
    sets have equal hash values ([bms_tests_refine]); [bms_first_member] pops
    the least member, so that the iteration idiom of the code visits every
    member once, in order ([bms_first_member_enumerates]). *)

From S2P Require Import Prelude.
From S2P Require Import Hashfunc.
From Stdlib Require Import Sorting.Sorted.

Definition BITS_PER_BITMAPWORD : Z := 64.
Definition WORDNUM (x : Z) : Z := x / BITS_PER_BITMAPWORD.
Definition BITNUM (x : Z) : Z := x mod BITS_PER_BITMAPWORD.

Record Bitmapset := mkBitmapset { nwords : Z; words : list Z }.

Inductive BMS_Membership := BMS_EMPTY_SET | BMS_SINGLETON | BMS_MULTIPLE.
#[export] Instance BMS_Membership_eq_dec : EqDecision BMS_Membership.
Proof. solve_decision. Defined.

(** [RIGHTMOST_ONE(x)], read back as a [bitmapword]. *)
Definition RIGHTMOST_ONE (x : Z) : Z := u64 (Z.land (i64 x) (i64 (- i64 x))).
Definition HAS_MULTIPLE_ONES (x : Z) : bool := negb (RIGHTMOST_ONE x =? x).

(** The tables.  Each is one row of sixteen entries after the other, as in the
    source. *)
Definition pos_row (first : Z) : list Z := first :: [0; 1; 0; 2; 0; 1; 0; 3; 0; 1; 0; 2; 0; 1; 0].
Definition rightmost_one_pos : list Z :=
  pos_row 0 ++ pos_row 4 ++ pos_row 5 ++ pos_row 4 ++ pos_row 6 ++ pos_row 4 ++ pos_row 5 ++ pos_row 4 ++
  pos_row 7 ++ pos_row 4 ++ pos_row 5 ++ pos_row 4 ++ pos_row 6 ++ pos_row 4 ++ pos_row 5 ++ pos_row 4.

Definition ones_row (d : Z) : list Z :=
  Z.add d <$> [0; 1; 1; 2; 1; 2; 2; 3; 1; 2; 2; 3; 2; 3; 3; 4].
Definition number_of_ones : list Z :=
  ones_row 0 ++ ones_row 1 ++ ones_row 1 ++ ones_row 2 ++ ones_row 1 ++ ones_row 2 ++ ones_row 2 ++ ones_row 3 ++
  ones_row 1 ++ ones_row 2 ++ ones_row 2 ++ ones_row 3 ++ ones_row 2 ++ ones_row 3 ++ ones_row 3 ++ ones_row 4.

(** ** Loops over the words *)

(** [for (i = 0; i < n; i++) a->words[i] = f(a->words[i], b->words[i])]. *)
Fixpoint for_words (f : Z -> Z -> Z) (n : nat) (a b : list Z) : list Z :=
  match n, a, b with
  | S n, x :: a, y :: b => f x y :: for_words f n a b
  | _, _, _ => a
  end.

(** [for (i = 0; i < n; i++) if (t(a->words[i], b->words[i])) return true]. *)
Fixpoint any_words (t : Z -> Z -> bool) (n : nat) (a b : list Z) : bool :=
  match n, a, b with
  | S n, x :: a, y :: b => t x y || any_words t n a b
  | _, _, _ => false
  end.

(** [for (; i < nwords; i++) if (a->words[i] != 0) return true], from [i] on. *)
Definition any_nonzero (a : list Z) : bool := existsb (fun w => negb (w =? 0)) a.

(** [x & ~y] on 64-bit words. *)
Definition and_not (x y : Z) : Z := Z.land x (u64 (Z.lnot y)).

(** ** Copies, tests of emptiness and equality *)

Definition bms_copy (a : option Bitmapset) : option Bitmapset := a.

Definition bms_is_empty (a : option Bitmapset) : bool :=
  match a with None => true | Some a => negb (any_nonzero (take (Z.to_nat (nwords a)) (words a))) end.

Definition bms_equal (a b : option Bitmapset) : bool :=
  match a, b with
  | None, None => true
  | None, Some _ => bms_is_empty b
  | Some _, None => bms_is_empty a
  | Some a, Some b =>
    let '(shorter, longer) := if nwords a <=? nwords b then (a, b) else (b, a) in
    let shortlen := Z.to_nat (nwords shorter) in
    if any_words (fun x y => negb (x =? y)) shortlen (words shorter) (words longer) then false
    else negb (any_nonzero (drop shortlen (take (Z.to_nat (nwords longer)) (words longer))))
  end.

(** ** Fresh sets *)

Definition negative {A} : result A := Err "negative bitmapset member not allowed".

Definition bms_make_singleton (x : Z) : result (option Bitmapset) :=
  if x <? 0 then negative
  else
    let wordnum := WORDNUM x in
    let res := mkBitmapset (i32 (wordnum + 1)) (replicate (Z.to_nat (wordnum + 1)) 0) in
    Ok (Some (mkBitmapset (nwords res) (aset (words res) wordnum (u64 (Z.shiftl 1 (BITNUM x)))))).

Definition bms_union (a b : option Bitmapset) : option Bitmapset :=
  match a, b with
  | None, _ => bms_copy b
  | _, None => bms_copy a
  | Some a, Some b =>
    let '(res, other) := if nwords a <=? nwords b then (b, a) else (a, b) in
    Some (mkBitmapset (nwords res) (for_words Z.lor (Z.to_nat (nwords other)) (words res) (words other)))
  end.

Definition bms_intersect (a b : option Bitmapset) : option Bitmapset :=
  match a, b with
  | None, _ | _, None => None
  | Some a, Some b =>
    let '(res, other) := if nwords a <=? nwords b then (a, b) else (b, a) in
    Some (mkBitmapset (nwords res) (for_words Z.land (Z.to_nat (nwords res)) (words res) (words other)))
  end.

Definition bms_difference (a b : option Bitmapset) : option Bitmapset :=
  match a, b with
  | None, _ => None
  | Some _, None => bms_copy a
  | Some a, Some b =>
    let shortlen := Z.to_nat (Z.min (nwords a) (nwords b)) in
    Some (mkBitmapset (nwords a) (for_words and_not shortlen (words a) (words b)))
  end.

(** ** Tests *)

Definition bms_is_subset (a b : option Bitmapset) : bool :=
  match a, b with
  | None, _ => true
  | Some _, None => bms_is_empty a
  | Some a, Some b =>
    let shortlen := Z.to_nat (Z.min (nwords a) (nwords b)) in
    if any_words (fun x y => negb (and_not x y =? 0)) shortlen (words a) (words b) then false
    else if nwords a >? nwords b
    then negb (any_nonzero (drop shortlen (take (Z.to_nat (nwords a)) (words a))))
    else true
  end.

Definition bms_is_member (x : Z) (a : option Bitmapset) : result bool :=
  if x <? 0 then negative
  else match a with
  | None => Ok false
  | Some a =>
    if WORDNUM x >=? nwords a then Ok false
    else Ok (negb (Z.land (aget 0 (words a) (WORDNUM x)) (u64 (Z.shiftl 1 (BITNUM x))) =? 0))
  end.

Definition bms_overlap (a b : option Bitmapset) : bool :=
  match a, b with
  | None, _ | _, None => false
  | Some a, Some b =>
    any_words (fun x y => negb (Z.land x y =? 0)) (Z.to_nat (Z.min (nwords a) (nwords b)))
      (words a) (words b)
  end.

Definition bms_nonempty_difference (a b : option Bitmapset) : bool :=
  match a, b with
  | None, _ => false
  | Some _, None => negb (bms_is_empty a)
  | Some a, Some b =>
    let shortlen := Z.to_nat (Z.min (nwords a) (nwords b)) in
    any_words (fun x y => negb (and_not x y =? 0)) shortlen (words a) (words b) ||
    any_nonzero (drop shortlen (take (Z.to_nat (nwords a)) (words a)))
  end.

(** ** Positions and counts *)

(** [while ((w & 255) == 0) { w >>= 8; result += 8; }
     result += rightmost_one_pos[w & 255];], a nonzero word has eight bytes. *)
Fixpoint rightmost_pos (fuel : nat) (w res : Z) : Z :=
  match fuel with
  | O => res
  | S n => if Z.land w 255 =? 0 then rightmost_pos n (Z.shiftr w 8) (res + 8)
           else res + aget 0 rightmost_one_pos (Z.land w 255)
  end.

(** The loop of [bms_singleton_member] from word [i] on. *)
Fixpoint singleton_loop (i : Z) (ws : list Z) (res : Z) : result Z :=
  match ws with
  | [] => if res <? 0 then Err "bitmapset is empty" else Ok res
  | w :: ws =>
    if negb (w =? 0) then
      if (res >=? 0) || HAS_MULTIPLE_ONES w then Err "bitmapset has multiple members"
      else singleton_loop (i + 1) ws (rightmost_pos 8 w (i * BITS_PER_BITMAPWORD))
    else singleton_loop (i + 1) ws res
  end.

Definition bms_singleton_member (a : option Bitmapset) : result Z :=
  match a with
  | None => Err "bitmapset is empty"
  | Some a => singleton_loop 0 (take (Z.to_nat (nwords a)) (words a)) (-1)
  end.

(** [while (w != 0) { result += number_of_ones[w & 255]; w >>= 8; }]. *)
Fixpoint count_ones (fuel : nat) (w res : Z) : Z :=
  match fuel with
  | O => res
  | S n => if w =? 0 then res
           else count_ones n (Z.shiftr w 8) (res + aget 0 number_of_ones (Z.land w 255))
  end.

Definition bms_num_members (a : option Bitmapset) : Z :=
  match a with
  | None => 0
  | Some a => foldl (fun res w => count_ones 8 w res) 0 (take (Z.to_nat (nwords a)) (words a))
  end.

Fixpoint membership_loop (ws : list Z) (res : BMS_Membership) : BMS_Membership :=
  match ws with
  | [] => res
  | w :: ws =>
    if negb (w =? 0) then
      if bool_decide (res <> BMS_EMPTY_SET) || HAS_MULTIPLE_ONES w then BMS_MULTIPLE
      else membership_loop ws BMS_SINGLETON
    else membership_loop ws res
  end.

Definition bms_membership (a : option Bitmapset) : BMS_Membership :=
  match a with
  | None => BMS_EMPTY_SET
  | Some a => membership_loop (take (Z.to_nat (nwords a)) (words a)) BMS_EMPTY_SET
  end.

(** ** Operations that recycle their arguments *)

Definition bms_add_member (a : option Bitmapset) (x : Z) : result (option Bitmapset) :=
  if x <? 0 then negative
  else match a with
  | None => bms_make_singleton x
  | Some a =>
    if WORDNUM x >=? nwords a then
      match bms_make_singleton x with
      | Ok (Some res) =>
        Ok (Some (mkBitmapset (nwords res)
                    (for_words Z.lor (Z.to_nat (nwords a)) (words res) (words a))))
      | r => r
      end
    else
      Ok (Some (mkBitmapset (nwords a) (aset (words a) (WORDNUM x)
        (Z.lor (aget 0 (words a) (WORDNUM x)) (u64 (Z.shiftl 1 (BITNUM x)))))))
  end.

Definition bms_del_member (a : option Bitmapset) (x : Z) : result (option Bitmapset) :=
  if x <? 0 then negative
  else match a with
  | None => Ok None
  | Some a =>
    if WORDNUM x <? nwords a then
      Ok (Some (mkBitmapset (nwords a) (aset (words a) (WORDNUM x)
        (and_not (aget 0 (words a) (WORDNUM x)) (u64 (Z.shiftl 1 (BITNUM x)))))))
    else Ok (Some a)
  end.

Definition bms_add_members (a b : option Bitmapset) : option Bitmapset :=
  match a, b with
  | None, _ => bms_copy b
  | Some _, None => a
  | Some a, Some b =>
    let '(res, other) := if nwords a <? nwords b then (b, a) else (a, b) in
    Some (mkBitmapset (nwords res) (for_words Z.lor (Z.to_nat (nwords other)) (words res) (words other)))
  end.

Definition bms_int_members (a b : option Bitmapset) : option Bitmapset :=
  match a, b with
  | None, _ | Some _, None => None
  | Some a, Some b =>
    let shortlen := Z.to_nat (Z.min (nwords a) (nwords b)) in
    let ws := for_words Z.land shortlen (words a) (words b) in
    Some (mkBitmapset (nwords a)
      (take shortlen ws ++ replicate (Z.to_nat (nwords a) - shortlen) 0))
  end.

Definition bms_del_members (a b : option Bitmapset) : option Bitmapset :=
  match a, b with
  | None, _ => None
  | Some _, None => a
  | Some a, Some b =>
    let shortlen := Z.to_nat (Z.min (nwords a) (nwords b)) in
    Some (mkBitmapset (nwords a) (for_words and_not shortlen (words a) (words b)))
  end.

Definition bms_join (a b : option Bitmapset) : option Bitmapset :=
  match a, b with
  | None, _ => b
  | Some _, None => a
  | Some a, Some b =>
    let '(res, other) := if nwords a <? nwords b then (b, a) else (a, b) in
    Some (mkBitmapset (nwords res) (for_words Z.lor (Z.to_nat (nwords other)) (words res) (words other)))
  end.

(** ** Iteration and hashing *)

(** The loop of [bms_first_member]: the member found and the words left. *)
Fixpoint first_loop (i : Z) (ws : list Z) : Z * list Z :=
  match ws with
  | [] => (-1, [])
  | w :: ws =>
    if negb (w =? 0) then
      let r := RIGHTMOST_ONE w in
      (rightmost_pos 8 r (i * BITS_PER_BITMAPWORD), and_not w r :: ws)
    else let '(x, ws') := first_loop (i + 1) ws in (x, w :: ws')
  end.

Definition bms_first_member (a : option Bitmapset) : Z * option Bitmapset :=
  match a with
  | None => (-1, None)
  | Some a =>
    let '(x, ws) := first_loop 0 (take (Z.to_nat (nwords a)) (words a)) in
    (x, Some (mkBitmapset (nwords a) (ws ++ drop (Z.to_nat (nwords a)) (words a))))
  end.

(** [for (lastword = a->nwords; --lastword >= 0;) if (a->words[lastword] != 0) break]:
    the words that are hashed, [words[0 .. lastword]]. *)
Fixpoint strip_zeros (ws : list Z) : list Z :=
  match ws with
  | [] => []
  | w :: ws => match strip_zeros ws with
               | [] => if w =? 0 then [] else [w]
               | r => w :: r
               end
  end.

(** [addr] is the address of the words. *)
Definition bms_hash_value (addr : Z) (a : option Bitmapset) : Z :=
  match a with
  | None => 0
  | Some a => match strip_zeros (take (Z.to_nat (nwords a)) (words a)) with
              | [] => 0
              | ws => hash_any addr (ws ≫= bytes_of 8) (i32 (Zlen ws * 8))
              end
  end.

(** ** The abstract set *)

Definition wmem (ws : list Z) (x : Z) : bool := (0 <=? x) && Z.testbit (aget 0 ws (x / 64)) (x mod 64).

Definition mem (a : option Bitmapset) (x : Z) : bool :=
  match a with None => false | Some a => wmem (words a) x end.

Definition word_ok (w : Z) : Prop := 0 <= w < 2 ^ 64.

Record bms_wf (a : Bitmapset) : Prop := {
  bms_len : nwords a = Zlen (words a);
  bms_int : nwords a < 2 ^ 31;
  bms_words : Forall word_ok (words a);
}.

Definition set_wf (a : option Bitmapset) : Prop := match a with None => True | Some a => bms_wf a end.

(** The largest member a set can have ([nwords] is an [int]). *)
Definition max_member : Z := 64 * (2 ^ 31 - 1) - 1.

(** The members in increasing order, word by word. *)
Definition wbits (w : Z) : list Z := base.filter (fun k => Z.testbit w k = true) (seqZ 0 64).

Fixpoint wmembers (i : Z) (ws : list Z) : list Z :=
  match ws with
  | [] => []
  | w :: ws => (Z.add (64 * i) <$> wbits w) ++ wmembers (i + 1) ws
  end.

Definition members (a : option Bitmapset) : list Z :=
  match a with None => [] | Some a => wmembers 0 (words a) end.

(** The iteration idiom: [while ((x = bms_first_member(tmpset)) >= 0)]. *)
Fixpoint bms_iterate (fuel : nat) (a : option Bitmapset) : list Z :=
  match fuel with
  | O => []
  | S n => let '(x, a') := bms_first_member a in
           if x >=? 0 then x :: bms_iterate n a' else []
  end.

(** ** Words and arrays *)

Lemma aget_nil {A} (d : A) i : aget d [] i = d.
Proof. unfold aget. by case_match. Qed.
Lemma aget_cons {A} (d : A) x l i :
  0 <= i -> aget d (x :: l) i = if i =? 0 then x else aget d l (i - 1).
Proof.
  intros Hi. unfold aget. destruct (Z.ltb_spec i 0); [lia|]. destruct (Z.eqb_spec i 0) as [->|]; [done|].
  destruct (Z.ltb_spec (i - 1) 0); [lia|]. replace (Z.to_nat i) with (S (Z.to_nat (i - 1))) by lia. done.
Qed.
Lemma aget_past {A} (d : A) l i : Zlen l <= i -> aget d l i = d.
Proof. intros Hi. unfold aget. case_match; [done|]. rewrite lookup_ge_None_2; [done|lia]. Qed.
Lemma aget_drop {A} (d : A) l n i : 0 <= i -> aget d (drop n l) i = aget d l (i + Z.of_nat n).
Proof.
  intros Hi. unfold aget. destruct (Z.ltb_spec i 0), (Z.ltb_spec (i + Z.of_nat n) 0); try lia.
  rewrite lookup_drop. do 2 f_equal. lia.
Qed.
Lemma aget_replicate i n : aget 0 (replicate n 0) i = 0.
Proof.
  unfold aget. case_match; [done|]. destruct (replicate n 0 !! Z.to_nat i) eqn:E; [|done].
  apply lookup_replicate in E as [-> _]. done.
Qed.
Lemma word_ok_aget ws i : Forall word_ok ws -> word_ok (aget 0 ws i).
Proof. intros H. apply aget_Forall; [|done]. unfold word_ok. lia. Qed.

Lemma testbit_and_not u v k : 0 <= k < 64 ->
  Z.testbit (and_not u v) k = Z.testbit u k && negb (Z.testbit v k).
Proof.
  intros Hk. unfold and_not. rewrite Z.land_spec, testbit_u64, Z.lnot_spec by lia.
  by destruct (Z.ltb_spec k 64); [|lia].
Qed.
Lemma and_not_ok u v : word_ok u -> word_ok (and_not u v).
Proof. intros Hu. by apply land_bound. Qed.
Lemma and_not_0 u : word_ok u -> and_not u 0 = u.
Proof.
  intros Hu. apply Z.bits_inj'. intros k Hk. destruct (Z.lt_ge_cases k 64).
  - by rewrite testbit_and_not, Z.bits_0, andb_true_r by lia.
  - rewrite !(testbit_above _ 64); [done|done|done|by apply and_not_ok|done].
Qed.

(** A word with a bit; the lowest one. *)
Lemma word_lowest w : word_ok w -> w <> 0 ->
  exists k, 0 <= k < 64 /\ Z.testbit w k = true /\ forall i, 0 <= i < k -> Z.testbit w i = false.
Proof.
  intros Hw Hne.
  assert (forall n : nat, (exists k, 0 <= k < Z.of_nat n /\ Z.testbit w k = true /\
    forall i, 0 <= i < k -> Z.testbit w i = false) \/
    forall i, 0 <= i < Z.of_nat n -> Z.testbit w i = false) as Hn.
  { induction n as [|n [(k & Hk & H)|IH]]; [right; lia|left; exists k; split; [lia|done]|].
    destruct (Z.testbit w (Z.of_nat n)) eqn:E.
    - left. exists (Z.of_nat n). split_and!; [lia|lia|done|done].
    - right. intros i Hi. destruct (decide (i = Z.of_nat n)) as [->|]; [done|]. apply IH. lia. }
  destruct (Hn 64%nat) as [(k & Hk & H)|Hz]; [exists k; split; [lia|done]|].
  destruct Hne. apply Z.bits_inj'. intros k Hk. rewrite Z.bits_0.
  destruct (Z.lt_ge_cases k 64); [apply Hz; lia|]. by apply (testbit_above w 64).
Qed.

Lemma word_nonzero w : word_ok w -> w <> 0 <-> exists k, 0 <= k < 64 /\ Z.testbit w k = true.
Proof.
  intros Hw. split.
  - intros Hne. destruct (word_lowest w Hw Hne) as (k & Hk & H & _). eauto.
  - intros (k & _ & Hk) ->. by rewrite Z.bits_0 in Hk.
Qed.

(** ** Bitwise operations on the arrays *)

(** [g] combines 64-bit words bit by bit as [h] says. *)
Definition bitwise (g : Z -> Z -> Z) (h : bool -> bool -> bool) : Prop :=
  forall u v, word_ok u -> word_ok v -> word_ok (g u v) /\
    forall k, 0 <= k < 64 -> Z.testbit (g u v) k = h (Z.testbit u k) (Z.testbit v k).

Lemma bitwise_lor : bitwise Z.lor orb.
Proof. intros u v Hu Hv. split; [by apply lor_bound|]. intros k _. apply Z.lor_spec. Qed.
Lemma bitwise_land : bitwise Z.land andb.
Proof. intros u v Hu Hv. split; [by apply land_bound|]. intros k _. apply Z.land_spec. Qed.
Lemma bitwise_and_not : bitwise and_not (fun p q => p && negb q).
Proof. intros u v Hu Hv. split; [by apply and_not_ok|]. intros k Hk. by apply testbit_and_not. Qed.
Lemma bitwise_lxor : bitwise Z.lxor xorb.
Proof.
  intros u v Hu Hv. split; [|intros k _; apply Z.lxor_spec].
  split; [apply Z.lxor_nonneg; unfold word_ok in *; lia|]. apply bounded_bits; [done| |].
  - apply Z.lxor_nonneg. unfold word_ok in *. lia.
  - intros i Hi. by rewrite Z.lxor_spec, (testbit_above u 64), (testbit_above v 64).
Qed.

Lemma wmem_bit ws i k : 0 <= i -> 0 <= k < 64 ->
  wmem ws (64 * i + k) = Z.testbit (aget 0 ws i) k.
Proof.
  intros Hi Hk. unfold wmem. destruct (Z.leb_spec 0 (64 * i + k)); [|lia]. simpl.
  replace ((64 * i + k) / 64) with i by (apply (Z.div_unique _ _ _ k); lia).
  by replace ((64 * i + k) mod 64) with k by (apply (Z.mod_unique _ _ i); lia).
Qed.

(** The two views of an array built from two arrays. *)
Lemma wmem_op g h a b c : bitwise g h -> h false false = false ->
  Forall word_ok a -> Forall word_ok b ->
  (forall i, 0 <= i -> aget 0 c i = g (aget 0 a i) (aget 0 b i)) ->
  forall x, wmem c x = h (wmem a x) (wmem b x).
Proof.
  intros Hg Hff Ha Hb Hc x. unfold wmem. destruct (Z.leb_spec 0 x); simpl; [|done].
  rewrite Hc by (apply Z.div_pos; lia). apply Hg; try by apply word_ok_aget. by apply Z.mod_pos_bound.
Qed.

(** Some word combines to a nonzero one exactly when some member does. *)
Lemma exists_op g h a b : bitwise g h -> Forall word_ok a -> Forall word_ok b ->
  (exists i, 0 <= i /\ g (aget 0 a i) (aget 0 b i) <> 0) <->
  (exists x, 0 <= x /\ h (wmem a x) (wmem b x) = true).
Proof.
  intros Hg Ha Hb. split.
  - intros (i & Hi & Hne). destruct (Hg (aget 0 a i) (aget 0 b i)) as [Hok Hbit];
      [by apply word_ok_aget..|]. apply word_nonzero in Hne as (k & Hk & Ht); [|done].
    exists (64 * i + k). split; [lia|]. rewrite !wmem_bit, <- Hbit by lia. done.
  - intros (x & Hx & Ht). exists (x / 64). split; [apply Z.div_pos; lia|].
    destruct (Hg (aget 0 a (x / 64)) (aget 0 b (x / 64))) as [Hok Hbit]; [by apply word_ok_aget..|].
    apply word_nonzero; [done|]. exists (x mod 64). pose proof (Z.mod_pos_bound x 64 ltac:(lia)).
    split; [done|]. rewrite Hbit by done. unfold wmem in Ht.
    destruct (Z.leb_spec 0 x); [|lia]. done.
Qed.

(** ** The loops *)

Lemma for_words_length f n a b : length (for_words f n a b) = length a.
Proof. revert a b. induction n as [|n IH]; intros [|x a] [|y b]; simpl; auto. Qed.

Lemma for_words_ok f n a b : (forall u v, word_ok u -> word_ok v -> word_ok (f u v)) ->
  Forall word_ok a -> Forall word_ok b -> Forall word_ok (for_words f n a b).
Proof.
  intros Hf. revert a b. induction n as [|n IH]; intros [|x a] [|y b] Ha Hb; simpl; auto.
  apply Forall_cons in Ha as [? ?], Hb as [? ?]. constructor; auto.
Qed.

Lemma for_words_get f n a b i : (n <= length a)%nat -> (n <= length b)%nat -> 0 <= i ->
  aget 0 (for_words f n a b) i =
  if i <? Z.of_nat n then f (aget 0 a i) (aget 0 b i) else aget 0 a i.
Proof.
  revert a b i. induction n as [|n IH]; intros a b i Ha Hb Hi.
  { destruct (Z.ltb_spec i (Z.of_nat 0)); [lia|]. by destruct a, b. }
  destruct a as [|x a]; [simpl in Ha; lia|]. destruct b as [|y b]; [simpl in Hb; lia|]. simpl for_words.
  simpl in Ha, Hb. rewrite !aget_cons by done. destruct (Z.eqb_spec i 0) as [->|]; [done|].
  rewrite IH by lia. destruct (Z.ltb_spec (i - 1) (Z.of_nat n)), (Z.ltb_spec i (Z.of_nat (S n))); try lia; done.
Qed.

Lemma any_words_spec t n a b : (n <= length a)%nat -> (n <= length b)%nat ->
  any_words t n a b = true <->
  exists i, 0 <= i < Z.of_nat n /\ t (aget 0 a i) (aget 0 b i) = true.
Proof.
  revert a b. induction n as [|n IH]; intros a b Ha Hb.
  { destruct a, b; simpl; (split; [done|]); intros (i & Hi & _); lia. }
  destruct a as [|x a]; [simpl in Ha; lia|]. destruct b as [|y b]; [simpl in Hb; lia|].
  simpl in Ha, Hb |- *. rewrite orb_true_iff, IH by lia. split.
  - intros [Ht|(i & Hi & Ht)].
    + exists 0. split; [lia|]. done.
    + exists (i + 1). split; [lia|]. rewrite !aget_cons by lia.
      destruct (Z.eqb_spec (i + 1) 0); [lia|]. by replace (i + 1 - 1) with i by lia.
  - intros (i & Hi & Ht). rewrite !aget_cons in Ht by lia. destruct (Z.eqb_spec i 0); [by left|].
    right. exists (i - 1). split; [lia|done].
Qed.

Lemma any_nonzero_spec ws : any_nonzero ws = true <-> exists i, 0 <= i /\ aget 0 ws i <> 0.
Proof.
  induction ws as [|w ws IH]; simpl.
  { split; [done|]. intros (i & _ & H). by rewrite aget_nil in H. }
  rewrite orb_true_iff, negb_true_iff, Z.eqb_neq. unfold any_nonzero in IH. rewrite IH. split.
  - intros [H|(i & Hi & H)]; [by exists 0|]. exists (i + 1). split; [lia|].
    rewrite aget_cons by lia. destruct (Z.eqb_spec (i + 1) 0); [lia|].
    by replace (i + 1 - 1) with i by lia.
  - intros (i & Hi & H). rewrite aget_cons in H by done. destruct (Z.eqb_spec i 0); [by left|].
    right. exists (i - 1). split; [lia|done].
Qed.

(** A test of the common words followed by a test of the rest of [a]: the
    words past the end of [b] count as zero. *)
Lemma diff_words_spec (t : Z -> Z -> bool) (g : Z -> Z -> Z) n a b :
  (forall u v, t u v = true <-> g u v <> 0) -> (forall u, word_ok u -> g u 0 = u) ->
  Forall word_ok a -> n = (length a `min` length b)%nat ->
  any_words t n a b || any_nonzero (drop n a) = true <->
  exists i, 0 <= i < Zlen a /\ g (aget 0 a i) (aget 0 b i) <> 0.
Proof.
  intros Ht Hg Ha Hn. rewrite orb_true_iff, any_words_spec, any_nonzero_spec by lia. split.
  - intros [(i & Hi & H)|(i & Hi & H)].
    + exists i. rewrite <- Ht. split; [lia|done].
    + rewrite aget_drop in H by done. exists (i + Z.of_nat n).
      destruct (Z.lt_ge_cases (i + Z.of_nat n) (Zlen a)) as [Hlt|Hge]; [|by rewrite aget_past in H].
      split; [lia|]. rewrite (aget_past 0 b), Hg; [done|by apply word_ok_aget|lia].
  - intros (i & Hi & H). destruct (Z.lt_ge_cases i (Z.of_nat n)).
    + left. exists i. rewrite Ht. split; [lia|done].
    + right. exists (i - Z.of_nat n). split; [lia|]. rewrite aget_drop by lia.
      replace (i - Z.of_nat n + Z.of_nat n) with i by lia.
      rewrite (aget_past 0 b), Hg in H; [done|by apply word_ok_aget|lia].
Qed.

Lemma bms_nwords a : bms_wf a -> Z.to_nat (nwords a) = length (words a).
Proof. intros [-> _ _]. lia. Qed.
Lemma bms_take a : bms_wf a -> take (Z.to_nat (nwords a)) (words a) = words a.
Proof. intros H. rewrite (bms_nwords a H). apply take_ge. lia. Qed.
Lemma bms_min a b : bms_wf a -> bms_wf b ->
  Z.to_nat (Z.min (nwords a) (nwords b)) = (length (words a) `min` length (words b))%nat.
Proof. intros [-> _ _] [-> _ _]. lia. Qed.

(** ** The set operations *)

(** The union of a set into one that is at least as long. *)
Lemma or_into res other : bms_wf res -> bms_wf other -> nwords other <= nwords res ->
  let c := mkBitmapset (nwords res) (for_words Z.lor (Z.to_nat (nwords other)) (words res) (words other)) in
  bms_wf c /\ forall x, wmem (words c) x = wmem (words res) x || wmem (words other) x.
Proof.
  intros Hr Ho Hle. pose proof (bms_nwords _ Hr). pose proof (bms_nwords _ Ho).
  pose proof (bms_len _ Hr). pose proof (bms_len _ Ho). split.
  - split; simpl; [by rewrite for_words_length|apply Hr|].
    apply for_words_ok; [apply bitwise_lor|apply Hr|apply Ho].
  - simpl. apply wmem_op with Z.lor; [apply bitwise_lor|done|apply Hr|apply Ho|]. intros i Hi.
    rewrite for_words_get by lia. case_match eqn:E; [done|]. bool_cases.
    by rewrite (aget_past 0 (words other)), Z.lor_0_r by lia.
Qed.

Lemma or_either a b (t : bool) : bms_wf a -> bms_wf b ->
  (t = true -> nwords a <= nwords b) -> (t = false -> nwords b <= nwords a) ->
  let '(res, other) := if t then (b, a) else (a, b) in
  let c := Some (mkBitmapset (nwords res) (for_words Z.lor (Z.to_nat (nwords other)) (words res) (words other))) in
  set_wf c /\ forall x, mem c x = mem (Some a) x || mem (Some b) x.
Proof.
  intros Ha Hb Ht Hf. destruct t; [destruct (or_into b a) as [Hc Hm]|destruct (or_into a b) as [Hc Hm]]; auto.
  split; [done|]. intros x. simpl. rewrite Hm. apply orb_comm.
Qed.

Lemma and_not_into a b : bms_wf a -> bms_wf b ->
  let c := mkBitmapset (nwords a)
    (for_words and_not (Z.to_nat (Z.min (nwords a) (nwords b))) (words a) (words b)) in
  bms_wf c /\ forall x, wmem (words c) x = wmem (words a) x && negb (wmem (words b) x).
Proof.
  intros Ha Hb. rewrite (bms_min a b Ha Hb). split.
  - split; simpl; [rewrite for_words_length; apply Ha|apply Ha|].
    apply for_words_ok; [apply bitwise_and_not|apply Ha|apply Hb].
  - simpl. apply (wmem_op and_not (fun p q => p && negb q)); [apply bitwise_and_not|done|apply Ha|apply Hb|].
    intros i Hi. rewrite for_words_get by lia. case_match eqn:E; [done|]. bool_cases.
    destruct (Z.lt_ge_cases i (Zlen (words b))).
    + rewrite !(aget_past 0 (words a)) by lia. done.
    + rewrite (aget_past 0 (words b)) by lia. symmetry. apply and_not_0, word_ok_aget, Ha.
Qed.

Lemma intersect_spec a b : set_wf a -> set_wf b ->
  set_wf (bms_intersect a b) /\ forall x, mem (bms_intersect a b) x = mem a x && mem b x.
Proof.
  assert (forall r o, bms_wf r -> bms_wf o -> nwords r <= nwords o ->
    let c := mkBitmapset (nwords r) (for_words Z.land (Z.to_nat (nwords r)) (words r) (words o)) in
    bms_wf c /\ forall x, wmem (words c) x = wmem (words r) x && wmem (words o) x) as Hand.
  { intros r o Hr Ho Hle. pose proof (bms_nwords _ Hr). pose proof (bms_len _ Hr). pose proof (bms_len _ Ho).
    split.
    - split; simpl; [by rewrite for_words_length|apply Hr|].
      apply for_words_ok; [apply bitwise_land|apply Hr|apply Ho].
    - simpl. apply wmem_op with Z.land; [apply bitwise_land|done|apply Hr|apply Ho|]. intros i Hi.
      rewrite for_words_get by lia. case_match eqn:E; [done|]. bool_cases.
      by rewrite (aget_past 0 (words r)) by lia. }
  destruct a as [a|], b as [b|]; simpl; try done; intros Ha Hb.
  - destruct (Z.leb_spec (nwords a) (nwords b)).
    + destruct (Hand a b) as [Hc Hm]; auto.
    + destruct (Hand b a) as [Hc Hm]; auto; [lia|]. split; [done|]. intros x. simpl. rewrite Hm. apply andb_comm.
  - split; [done|]. intros x. by rewrite andb_false_r.
Qed.

Lemma int_members_spec a b : set_wf a -> set_wf b ->
  set_wf (bms_int_members a b) /\ forall x, mem (bms_int_members a b) x = mem a x && mem b x.
Proof.
  destruct a as [a|], b as [b|]; simpl; try done; intros Ha Hb.
  2: { split; [done|]. intros x. by rewrite andb_false_r. }
  rewrite (bms_min a b Ha Hb). set (n := (length (words a) `min` length (words b))%nat).
  pose proof (for_words_length Z.land n (words a) (words b)) as Hlen. pose proof (bms_nwords _ Ha) as Hna.
  split.
  - split; simpl.
    + rewrite length_app, length_take, length_replicate, Hlen. pose proof (bms_len _ Ha). lia.
    + apply Ha.
    + apply Forall_app. split.
      * apply Forall_take, for_words_ok; [apply bitwise_land|apply Ha|apply Hb].
      * apply Forall_replicate. unfold word_ok. lia.
  - intros x. simpl. revert x. apply wmem_op with Z.land; [apply bitwise_land|done|apply Ha|apply Hb|].
    intros i Hi. rewrite aget_app, length_take, Hlen by done.
    replace (n `min` length (words a))%nat with n by lia. destruct (Z.ltb_spec i (Z.of_nat n)).
    + rewrite aget_take. destruct (Z.ltb_spec i (Z.of_nat n)); [|lia].
      rewrite for_words_get by lia. by destruct (Z.ltb_spec i (Z.of_nat n)); [|lia].
    + rewrite aget_replicate. destruct (Z.lt_ge_cases i (Zlen (words b))).
      * by rewrite (aget_past 0 (words a)) by lia.
      * by rewrite (aget_past 0 (words b)), Z.land_0_r by lia.
Qed.

(** ** Single members *)

Lemma bit_word k : 0 <= k < 64 -> u64 (Z.shiftl 1 k) = 2 ^ k.
Proof.
  intros Hk. rewrite Z.shiftl_1_l. apply u64_id. split; [lia|]. apply Z.pow_lt_mono_r; lia.
Qed.
Lemma testbit_bit_word k i : 0 <= k < 64 -> 0 <= i -> Z.testbit (u64 (Z.shiftl 1 k)) i = (i =? k).
Proof.
  intros Hk Hi. rewrite bit_word by done. rewrite Z.pow2_bits_eqb by lia. apply Z.eqb_sym.
Qed.
Lemma bit_word_ok k : 0 <= k < 64 -> word_ok (u64 (Z.shiftl 1 k)).
Proof. intros. apply u64_range. Qed.

(** The word and bit of a member determine it. *)
Lemma member_split x y : (x / 64 =? y / 64) && (x mod 64 =? y mod 64) = (x =? y).
Proof.
  destruct (Z.eqb_spec x y) as [->|Hne]; [by rewrite !Z.eqb_refl|].
  destruct (Z.eqb_spec (x / 64) (y / 64)), (Z.eqb_spec (x mod 64) (y mod 64)); try done.
  destruct Hne. rewrite (Z.div_mod x 64), (Z.div_mod y 64) by lia. congruence.
Qed.

(** Writing one bit of one word. *)
Lemma wmem_aset ws x w v : Forall word_ok ws -> 0 <= x -> x / 64 < Zlen ws ->
  w = aget 0 ws (x / 64) ->
  (forall k, 0 <= k < 64 -> Z.testbit v k = if k =? x mod 64 then Z.testbit v (x mod 64) else Z.testbit w k) ->
  forall y, wmem (aset ws (x / 64) v) y =
    if (0 <=? y) && (y =? x) then Z.testbit v (x mod 64) else wmem ws y.
Proof.
  intros Hws Hx Hlen -> Hv y. unfold wmem. destruct (Z.leb_spec 0 y); simpl; [|done].
  pose proof (Z.div_pos x 64 Hx ltac:(lia)). rewrite aget_aset by lia.
  rewrite <- (member_split y x). destruct (Z.eqb_spec (y / 64) (x / 64)) as [->|]; simpl; [|done].
  rewrite Hv by (by apply Z.mod_pos_bound). done.
Qed.

Lemma make_singleton_spec x : 0 <= x <= max_member ->
  exists a, bms_make_singleton x = Ok (Some a) /\ bms_wf a /\ nwords a = x / 64 + 1 /\
    forall y, wmem (words a) y = (y =? x).
Proof.
  intros Hx. unfold max_member in Hx. unfold bms_make_singleton, WORDNUM, BITNUM, BITS_PER_BITMAPWORD.
  destruct (Z.ltb_spec x 0); [lia|]. eexists. split; [reflexivity|]. cbn [nwords words].
  assert (0 <= x / 64 < 2 ^ 31 - 1) as Hw.
  { split; [apply Z.div_pos; lia|]. apply Z.div_lt_upper_bound; lia. }
  assert (i32 (x / 64 + 1) = x / 64 + 1) as ->.
  { unfold i32, swrap. rewrite Z.mod_small by lia. by destruct (Z.ltb_spec (x / 64 + 1) (2 ^ (32 - 1))); [|lia]. }
  pose proof (Z.mod_pos_bound x 64 ltac:(lia)) as Hm. split_and!; [|done|].
  - split; cbn [nwords words].
    + rewrite aset_length, length_replicate. lia.
    + lia.
    + apply aset_Forall; [by apply bit_word_ok|]. apply Forall_replicate. unfold word_ok. lia.
  - intros y. rewrite (wmem_aset _ x 0).
    + rewrite testbit_bit_word, Z.eqb_refl by lia. unfold wmem. rewrite aget_replicate, Z.bits_0.
      rewrite andb_false_r. destruct (Z.leb_spec 0 y), (Z.eqb_spec y x); try done; lia.
    + apply Forall_replicate. unfold word_ok. lia.
    + lia.
    + rewrite length_replicate. lia.
    + by rewrite aget_replicate.
    + intros k Hk. rewrite Z.bits_0, testbit_bit_word by lia. destruct (Z.eqb_spec k (x mod 64)) as [->|]; [|done].
      by rewrite testbit_bit_word, Z.eqb_refl by lia.
Qed.

Lemma add_member_spec a x : set_wf a -> 0 <= x <= max_member ->
  exists c, bms_add_member a x = Ok c /\ set_wf c /\ forall y, mem c y = (y =? x) || mem a y.
Proof.
  intros Ha Hx. destruct (make_singleton_spec x Hx) as (s & Hs & Hws & Hns & Hms).
  unfold bms_add_member. destruct (Z.ltb_spec x 0); [lia|]. rewrite Hs. destruct a as [a|].
  2: { exists (Some s). split_and!; [done|done|]. intros y. simpl. by rewrite Hms, orb_false_r. }
  unfold WORDNUM, BITS_PER_BITMAPWORD. simpl in Ha. destruct (Z.geb_spec (x / 64) (nwords a)).
  - destruct (or_into s a Hws Ha ltac:(lia)) as [Hc Hm]. eexists. split_and!; [reflexivity|exact Hc|].
    intros y. simpl. simpl in Hm. by rewrite Hm, Hms.
  - pose proof (Z.mod_pos_bound x 64 ltac:(lia)) as Hmod. pose proof (bms_len _ Ha).
    set (v := Z.lor _ _). eexists. split_and!; [reflexivity| |].
    + split; cbn [nwords words]; [by rewrite aset_length|apply Ha|]. apply aset_Forall; [|apply Ha].
      apply bitwise_lor; [apply word_ok_aget, Ha|by apply bit_word_ok].
    + intros y. simpl. rewrite (wmem_aset _ x (aget 0 (words a) (x / 64))); [|apply Ha|lia|lia|done|].
      * unfold v, BITNUM, BITS_PER_BITMAPWORD. rewrite Z.lor_spec, testbit_bit_word, Z.eqb_refl, orb_true_r by lia.
        unfold wmem. destruct (Z.leb_spec 0 y), (Z.eqb_spec y x); try done; lia.
      * intros k Hk. unfold v, BITNUM, BITS_PER_BITMAPWORD. rewrite !Z.lor_spec, !testbit_bit_word by lia.
        destruct (Z.eqb_spec k (x mod 64)) as [->|]; [by rewrite Z.eqb_refl|by rewrite orb_false_r].
Qed.

Lemma del_member_spec a x : set_wf a -> 0 <= x ->
  exists c, bms_del_member a x = Ok c /\ set_wf c /\ forall y, mem c y = negb (y =? x) && mem a y.
Proof.
  intros Ha Hx. unfold bms_del_member. destruct (Z.ltb_spec x 0); [lia|]. destruct a as [a|].
  2: { exists None. split_and!; [done|done|]. intros y. simpl. by rewrite andb_false_r. }
  unfold WORDNUM, BITS_PER_BITMAPWORD. simpl in Ha. pose proof (bms_len _ Ha).
  pose proof (Z.mod_pos_bound x 64 ltac:(lia)) as Hmod. destruct (Z.ltb_spec (x / 64) (nwords a)).
  - set (v := and_not _ _). eexists. split_and!; [reflexivity| |].
    + split; cbn [nwords words]; [by rewrite aset_length|apply Ha|]. apply aset_Forall; [|apply Ha].
      apply and_not_ok, word_ok_aget, Ha.
    + intros y. simpl. rewrite (wmem_aset _ x (aget 0 (words a) (x / 64))); [|apply Ha|lia|lia|done|].
      * unfold v, BITNUM, BITS_PER_BITMAPWORD. rewrite testbit_and_not, testbit_bit_word, Z.eqb_refl, andb_false_r by lia.
        unfold wmem. destruct (Z.leb_spec 0 y), (Z.eqb_spec y x); try done; lia.
      * intros k Hk. unfold v, BITNUM, BITS_PER_BITMAPWORD. rewrite !testbit_and_not, !testbit_bit_word by lia.
        destruct (Z.eqb_spec k (x mod 64)) as [->|]; [by rewrite Z.eqb_refl|by rewrite andb_true_r].
  - eexists. split_and!; [reflexivity|done|]. intros y. destruct (Z.eqb_spec y x) as [->|]; [|done]. simpl.
    unfold wmem. by rewrite aget_past, Z.bits_0, andb_false_r by lia.
Qed.

Lemma is_member_spec a x : set_wf a -> 0 <= x -> bms_is_member x a = Ok (mem a x).
Proof.
  intros Ha Hx. unfold bms_is_member. destruct (Z.ltb_spec x 0); [lia|]. destruct a as [a|]; [|done].
  unfold WORDNUM, BITNUM, BITS_PER_BITMAPWORD. simpl in Ha |- *. pose proof (bms_len _ Ha).
  pose proof (Z.mod_pos_bound x 64 ltac:(lia)) as Hmod. unfold wmem.
  destruct (Z.leb_spec 0 x); [|lia]. simpl. destruct (Z.geb_spec (x / 64) (nwords a)).
  - by rewrite aget_past, Z.bits_0 by lia.
  - rewrite bit_word by done. by rewrite <- (flag_pow2 _ (x mod 64)) by lia.
Qed.

(** ** Tests *)

Lemma mem_nonneg a x : mem a x = true -> 0 <= x.
Proof. destruct a; simpl; [|done]. unfold wmem. intros. bool_cases. done. Qed.

Lemma and_not_nonzero u v : negb (and_not u v =? 0) = true <-> and_not u v <> 0.
Proof. by rewrite negb_true_iff, Z.eqb_neq. Qed.

Lemma is_empty_spec a : set_wf a -> bms_is_empty a = true <-> forall x, mem a x = false.
Proof.
  destruct a as [a|]; simpl; [|done]. intros Ha. rewrite (bms_take a Ha), negb_true_iff.
  rewrite <- not_true_iff_false, any_nonzero_spec.
  pose proof (exists_op Z.lor orb (words a) [] bitwise_lor (bms_words _ Ha) (List.Forall_nil _)) as Hex.
  assert ((exists i, 0 <= i /\ aget 0 (words a) i <> 0) <-> exists x, wmem (words a) x = true) as ->.
  { split.
    - intros (i & Hi & Hne). destruct Hex as [(x & Hx & Hm) _].
      { exists i. split; [done|]. by rewrite aget_nil, Z.lor_0_r. }
      exists x. unfold wmem in Hm |- *. by rewrite aget_nil, Z.bits_0, andb_false_r, orb_false_r in Hm.
    - intros (x & Hm). destruct Hex as [_ (i & Hi & Hne)].
      { exists x. rewrite Hm. split; [by apply (mem_nonneg (Some a))|done]. }
      exists i. split; [done|]. by rewrite aget_nil, Z.lor_0_r in Hne. }
  split.
  - intros Hn x. apply not_true_iff_false. intros Hm. eauto.
  - intros Hall (x & Hm). congruence.
Qed.

Lemma nonempty_difference_spec a b : set_wf a -> set_wf b ->
  bms_nonempty_difference a b = true <-> exists x, mem a x = true /\ mem b x = false.
Proof.
  destruct a as [a|], b as [b|]; intros Ha Hb; simpl in *.
  - rewrite (bms_take a Ha), (bms_min a b Ha Hb).
    rewrite (diff_words_spec _ and_not) by (done || apply and_not_nonzero || apply and_not_0 || apply Ha).
    pose proof (exists_op and_not (fun p q => p && negb q) _ _ bitwise_and_not (bms_words _ Ha) (bms_words _ Hb)) as Hex.
    split.
    + intros (i & Hi & Hne). destruct Hex as [(x & _ & Hm) _]; [exists i; split; [lia|done]|].
      exists x. apply andb_true_iff in Hm as [? ?%negb_true_iff]. done.
    + intros (x & Hma & Hmb). destruct Hex as [_ (i & Hi & Hne)].
      { exists x. split; [by apply (mem_nonneg (Some a))|]. by rewrite Hma, Hmb. }
      exists i. split; [|done]. split; [done|]. destruct (Z.lt_ge_cases i (Zlen (words a))); [done|].
      by rewrite aget_past in Hne.
  - rewrite negb_true_iff, <- not_true_iff_false, (is_empty_spec (Some a)) by done. split.
    + intros Hn. destruct (existsb (fun x => mem (Some a) x) (seqZ 0 (64 * nwords a))) eqn:E.
      { apply existsb_exists in E as (x & _ & Hx). by exists x. }
      destruct Hn. intros x. apply not_true_iff_false. intros Hm. apply not_true_iff_false in E.
      apply E, existsb_exists. exists x. split; [|done]. apply list_elem_of_In, elem_of_seqZ.
      pose proof (mem_nonneg _ _ Hm). simpl in Hm. unfold wmem in Hm. split; [done|].
      destruct (Z.lt_ge_cases (x / 64) (nwords a)) as [Hlt|Hge].
      * pose proof (Z.mod_pos_bound x 64 ltac:(lia)). pose proof (Z.div_mod x 64 ltac:(lia)). lia.
      * rewrite aget_past, Z.bits_0, andb_false_r in Hm; [done|]. rewrite <- (bms_len _ Ha). done.
    + intros (x & Hm & _) Hall. specialize (Hall x). simpl in Hall. congruence.
  - split; [done|]. by intros (x & ? & _).
  - split; [done|]. by intros (x & ? & _).
Qed.

Lemma is_subset_spec a b : set_wf a -> set_wf b ->
  bms_is_subset a b = true <-> forall x, mem a x = true -> mem b x = true.
Proof.
  intros Ha Hb. assert (bms_is_subset a b = negb (bms_nonempty_difference a b)) as ->.
  { destruct a as [a|], b as [b|]; simpl in *; try done; [|by rewrite negb_involutive].
    case_match eqn:E; [done|]. simpl. destruct (Z.gtb_spec (nwords a) (nwords b)); [done|].
    rewrite (bms_take a Ha), drop_ge; [done|]. rewrite (bms_min a b Ha Hb).
    pose proof (bms_len _ Ha). pose proof (bms_len _ Hb). lia. }
  rewrite negb_true_iff, <- not_true_iff_false, nonempty_difference_spec by done. split.
  - intros Hn x Hx. destruct (mem b x) eqn:E; [done|]. destruct Hn. eauto.
  - intros Hall (x & Hx & Hnx). rewrite (Hall x Hx) in Hnx. done.
Qed.

Lemma overlap_spec a b : set_wf a -> set_wf b ->
  bms_overlap a b = true <-> exists x, mem a x = true /\ mem b x = true.
Proof.
  destruct a as [a|], b as [b|]; intros Ha Hb; simpl in *; try (split; [done|]; by intros (x & ? & ?)).
  rewrite (bms_min a b Ha Hb), any_words_spec by lia.
  pose proof (exists_op Z.land andb _ _ bitwise_land (bms_words _ Ha) (bms_words _ Hb)) as Hex. split.
  - intros (i & Hi & Hne). apply negb_true_iff, Z.eqb_neq in Hne.
    destruct Hex as [(x & _ & Hm) _]; [exists i; split; [lia|done]|]. exists x. by apply andb_true_iff in Hm.
  - intros (x & Hma & Hmb). destruct Hex as [_ (i & Hi & Hne)].
    { exists x. split; [by apply (mem_nonneg (Some a))|]. by rewrite Hma, Hmb. }
    exists i. rewrite negb_true_iff, Z.eqb_neq. split; [|done]. split; [done|].
    destruct (Z.lt_ge_cases i (Zlen (words a))) as [|Hge]; [|by rewrite aget_past in Hne by done].
    destruct (Z.lt_ge_cases i (Zlen (words b))) as [|Hge]; [lia|].
    by rewrite (aget_past 0 (words b)), Z.land_0_r in Hne.
Qed.

Lemma equal_words_spec a b : bms_wf a -> bms_wf b -> nwords a <= nwords b ->
  any_words (fun x y => negb (x =? y)) (Z.to_nat (nwords a)) (words a) (words b) ||
  any_nonzero (drop (Z.to_nat (nwords a)) (take (Z.to_nat (nwords b)) (words b))) = true <->
  exists x, wmem (words a) x <> wmem (words b) x.
Proof.
  intros Ha Hb Hle. rewrite (bms_take b Hb), (bms_nwords a Ha).
  pose proof (bms_len _ Ha). pose proof (bms_len _ Hb).
  pose proof (exists_op Z.lxor xorb _ _ bitwise_lxor (bms_words _ Ha) (bms_words _ Hb)) as Hex.
  assert (any_words (fun x y => negb (x =? y)) (length (words a)) (words a) (words b) ||
    any_nonzero (drop (length (words a)) (words b)) = true <->
    exists i, 0 <= i /\ Z.lxor (aget 0 (words a) i) (aget 0 (words b) i) <> 0) as ->.
  { rewrite orb_true_iff, any_words_spec, any_nonzero_spec by lia. split.
    - intros [(i & Hi & Hne)|(i & Hi & Hne)].
      + exists i. split; [lia|]. intros Hx%Z.lxor_eq. rewrite Hx, Z.eqb_refl in Hne. done.
      + exists (i + Zlen (words a)). split; [lia|]. rewrite aget_drop in Hne by done.
        by rewrite (aget_past 0 (words a)), Z.lxor_0_l by lia.
    - intros (i & Hi & Hne). destruct (Z.lt_ge_cases i (Zlen (words a))).
      + left. exists i. split; [lia|]. apply negb_true_iff, Z.eqb_neq. intros Heq.
        by rewrite Heq, Z.lxor_nilpotent in Hne.
      + right. exists (i - Zlen (words a)). split; [lia|]. rewrite aget_drop by lia.
        replace (i - Zlen (words a) + Zlen (words a)) with i by lia.
        by rewrite (aget_past 0 (words a)), Z.lxor_0_l in Hne by lia. }
  rewrite Hex. split.
  - intros (x & _ & Hx). exists x. intros Heq. by rewrite Heq, xorb_nilpotent in Hx.
  - intros (x & Hne). exists x. split.
    + unfold wmem in Hne. destruct (Z.leb_spec 0 x); [done|]. by simpl in Hne.
    + by destruct (wmem (words a) x), (wmem (words b) x).
Qed.

Lemma equal_spec a b : set_wf a -> set_wf b ->
  bms_equal a b = true <-> forall x, mem a x = mem b x.
Proof.
  assert (forall u v : Z -> bool, (~ exists x, u x <> v x) <-> forall x, u x = v x) as Hne.
  { intros u v. split; [|naive_solver]. intros Hn x. destruct (decide (u x = v x)); [done|]. by destruct Hn; exists x. }
  intros Ha Hb. destruct a as [a|], b as [b|].
  - simpl in Ha, Hb. unfold bms_equal. destruct (Z.leb_spec (nwords a) (nwords b)).
    + pose proof (equal_words_spec a b Ha Hb ltac:(lia)) as Hw.
      simpl mem. rewrite <- (Hne (wmem (words a)) (wmem (words b))), <- Hw, not_true_iff_false, orb_false_iff.
      destruct (any_words _ _ _ _); [naive_solver|]. rewrite negb_true_iff. naive_solver.
    + pose proof (equal_words_spec b a Hb Ha ltac:(lia)) as Hw.
      rewrite <- (Hne (mem (Some a)) (mem (Some b))). simpl mem.
      assert ((exists x, wmem (words a) x <> wmem (words b) x) <->
        exists x, wmem (words b) x <> wmem (words a) x) as -> by (split; intros (x & ?); exists x; congruence).
      rewrite <- Hw, not_true_iff_false, orb_false_iff.
      destruct (any_words _ _ _ _); [naive_solver|]. rewrite negb_true_iff. naive_solver.
  - unfold bms_equal. by rewrite is_empty_spec.
  - unfold bms_equal. rewrite is_empty_spec by done. split; intros Hall x; symmetry; apply Hall.
  - done.
Qed.

(** ** The bits of a word *)

Lemma elem_wbits w k : k ∈ wbits w <-> 0 <= k < 64 /\ Z.testbit w k = true.
Proof. unfold wbits. rewrite list_elem_of_filter, elem_of_seqZ. naive_solver lia. Qed.

Lemma wbits_0 : wbits 0 = [].
Proof. vm_compute. reflexivity. Qed.

Lemma wbits_nil w : word_ok w -> wbits w = [] <-> w = 0.
Proof.
  intros Hw. split; [|intros ->; apply wbits_0]. intros Hn. destruct (decide (w = 0)); [done|].
  apply word_nonzero in n as (k & Hk & Ht); [|done].
  assert (k ∈ wbits w) as Hin by (by apply elem_wbits). rewrite Hn in Hin. by apply not_elem_of_nil in Hin.
Qed.

Lemma filter_none (P : Z -> Prop) `{!forall x, Decision (P x)} (l : list Z) :
  (forall x, x ∈ l -> ~ P x) -> base.filter P l = [].
Proof.
  induction l as [|x l IH]; intros Hn; [done|]. rewrite filter_cons_False by (apply Hn; by left).
  apply IH. intros y Hy. apply Hn. by right.
Qed.

Lemma filter_same (P Q : Z -> Prop) `{!forall x, Decision (P x), !forall x, Decision (Q x)} (l : list Z) :
  (forall x, x ∈ l -> P x <-> Q x) -> base.filter P l = base.filter Q l.
Proof.
  induction l as [|x l IH]; intros Hpq; [done|]. rewrite !filter_cons, IH by (intros y Hy; apply Hpq; by right).
  pose proof (Hpq x ltac:(by left)). destruct (decide (P x)), (decide (Q x)); naive_solver.
Qed.

(** The lowest bit is the first of the bits; clearing it leaves the others. *)
Lemma wbits_lowest w k : 0 <= k < 64 -> Z.testbit w k = true ->
  (forall i, 0 <= i < k -> Z.testbit w i = false) -> wbits w = k :: wbits (and_not w (2 ^ k)).
Proof.
  intros Hk Ht Hlow. unfold wbits.
  assert (seqZ 0 64 = seqZ 0 k ++ k :: seqZ (k + 1) (63 - k)) as ->.
  { replace 64 with (k + (64 - k)) by lia. rewrite seqZ_app by lia. f_equal.
    rewrite seqZ_cons by lia. replace (0 + k) with k by lia. repeat f_equal; lia. }
  rewrite !filter_app, !filter_cons.
  rewrite (filter_none _ (seqZ 0 k)).
  2: { intros i Hi%elem_of_seqZ. rewrite Hlow by lia. done. }
  rewrite (filter_none (fun i => Z.testbit (and_not w (2 ^ k)) i = true) (seqZ 0 k)).
  2: { intros i Hi%elem_of_seqZ. rewrite testbit_and_not, Hlow by lia. done. }
  rewrite decide_True, decide_False by (done || (rewrite testbit_and_not, Z.pow2_bits_true by lia;
    rewrite andb_false_r; done)).
  simpl. f_equal. apply filter_same. intros i Hi%elem_of_seqZ.
  rewrite testbit_and_not, Z.pow2_bits_false by lia. by rewrite andb_true_r.
Qed.

Lemma testbit_i64 z i : 0 <= i < 64 -> Z.testbit (i64 z) i = Z.testbit z i.
Proof.
  intros Hi. unfold i64, swrap.
  assert (Z.testbit (z mod 2 ^ 64) i = Z.testbit z i) as Hm.
  { rewrite testbit_mod_pow2 by lia. by destruct (Z.ltb_spec i 64); [|lia]. }
  case_match; [done|]. rewrite <- Hm.
  rewrite <- (Z.mod_pow2_bits_low (z mod 2 ^ 64 - 2 ^ 64) 64), <- (Z.mod_pow2_bits_low (z mod 2 ^ 64) 64) by lia.
  f_equal. rewrite Zminus_mod, Z_mod_same_full, Z.sub_0_r. by rewrite !Z.mod_mod.
Qed.

(** Two's complement: [w & -w] keeps the lowest bit only. *)
Lemma land_opp w k : 0 <= k -> Z.testbit w k = true ->
  (forall i, 0 <= i < k -> Z.testbit w i = false) ->
  forall i, 0 <= i -> Z.testbit w i && Z.testbit (- w) i = (i =? k).
Proof.
  intros Hk Ht Hlow i Hi.
  assert (w = (2 * (w / 2 ^ (k + 1)) + 1) * 2 ^ k) as Hw.
  { rewrite <- Z.shiftl_mul_pow2 by done. apply Z.bits_inj'. intros j Hj. rewrite Z.shiftl_spec by done.
    destruct (Z.lt_trichotomy j k) as [Hlt|[->|Hgt]].
    - rewrite Hlow, Z.testbit_neg_r by lia. done.
    - rewrite Z.sub_diag, Z.testbit_odd_0. done.
    - replace (j - k) with (Z.succ (j - k - 1)) by lia. rewrite Z.testbit_odd_succ by lia.
      rewrite Z.div_pow2_bits by lia. f_equal. lia. }
  set (q := w / 2 ^ (k + 1)) in Hw.
  assert (- w = (2 * (- q - 1) + 1) * 2 ^ k) as Ho by (rewrite Hw at 1; ring).
  rewrite Ho, Hw. rewrite <- !Z.shiftl_mul_pow2, !Z.shiftl_spec by done.
  destruct (Z.lt_trichotomy i k) as [Hlt|[->|Hgt]].
  - rewrite !Z.testbit_neg_r by lia. by destruct (Z.eqb_spec i k); [lia|].
  - by rewrite Z.sub_diag, !Z.testbit_odd_0, Z.eqb_refl.
  - replace (i - k) with (Z.succ (i - k - 1)) by lia. rewrite !Z.testbit_odd_succ by lia.
    replace (- q - 1) with (Z.lnot q) by (unfold Z.lnot; lia). rewrite Z.lnot_spec by lia.
    destruct (Z.eqb_spec i k); [lia|]. apply andb_negb_r.
Qed.

Lemma RIGHTMOST_ONE_spec w k : 0 <= k < 64 -> Z.testbit w k = true ->
  (forall i, 0 <= i < k -> Z.testbit w i = false) -> RIGHTMOST_ONE w = 2 ^ k.
Proof.
  intros Hk Ht Hlow. unfold RIGHTMOST_ONE. apply Z.bits_inj'. intros i Hi.
  rewrite testbit_u64, Z.pow2_bits_eqb, (Z.eqb_sym k i) by lia.
  destruct (Z.ltb_spec i 64) as [H64|H64]; simpl; [|by destruct (Z.eqb_spec i k); [lia|]].
  rewrite Z.land_spec, testbit_i64, testbit_i64 by lia.
  rewrite <- (land_opp w k) by (done || lia). f_equal.
  assert (forall a b, a mod 2 ^ 64 = b mod 2 ^ 64 -> Z.testbit a i = Z.testbit b i) as Hcong.
  { intros a b Hab. rewrite <- (Z.mod_pow2_bits_low a 64), <- (Z.mod_pow2_bits_low b 64) by lia. by rewrite Hab. }
  apply Hcong. unfold i64, swrap. case_match.
  - pose proof (Z.div_mod w (2 ^ 64) ltac:(lia)).
    replace (- (w mod 2 ^ 64)) with (- w + (w / 2 ^ 64) * 2 ^ 64) by lia. by rewrite Z_mod_plus_full.
  - pose proof (Z.div_mod w (2 ^ 64) ltac:(lia)).
    replace (- (w mod 2 ^ 64 - 2 ^ 64)) with (- w + (w / 2 ^ 64 + 1) * 2 ^ 64) by lia. by rewrite Z_mod_plus_full.
Qed.

Lemma rightmost_pos_pow2 k r : 0 <= k < 64 -> rightmost_pos 8 (2 ^ k) r = r + k.
Proof.
  intros Hk. assert (forall fuel w r, rightmost_pos fuel w r = r + rightmost_pos fuel w 0) as Hadd.
  { induction fuel as [|n IH]; intros w r'; simpl; [lia|]. case_match; [|lia].
    rewrite (IH _ (r' + 8)), (IH _ 8). lia. }
  rewrite Hadd. f_equal.
  assert (Forall (fun k => rightmost_pos 8 (2 ^ k) 0 = k) (seqZ 0 64)) as Hall
    by (apply (bool_decide_unpack _); vm_compute; exact I).
  rewrite Forall_forall in Hall. apply Hall, elem_of_seqZ. lia.
Qed.

(** The facts about a nonzero word that the loops use. *)
Lemma word_step w r : word_ok w -> w <> 0 -> exists k,
  0 <= k < 64 /\ wbits w = k :: wbits (and_not w (RIGHTMOST_ONE w)) /\
  rightmost_pos 8 (RIGHTMOST_ONE w) r = r + k /\
  (HAS_MULTIPLE_ONES w = false -> rightmost_pos 8 w r = r + k) /\
  (HAS_MULTIPLE_ONES w = true <-> wbits (and_not w (RIGHTMOST_ONE w)) <> []).
Proof.
  intros Hw Hne. destruct (word_lowest w Hw Hne) as (k & Hk & Ht & Hlow).
  pose proof (RIGHTMOST_ONE_spec w k Hk Ht Hlow) as HR. exists k. rewrite HR. split_and!; [lia|lia| | | |].
  - by apply wbits_lowest.
  - by apply rightmost_pos_pow2.
  - unfold HAS_MULTIPLE_ONES. rewrite HR. intros Hm%negb_false_iff%Z.eqb_eq. rewrite <- Hm.
    by apply rightmost_pos_pow2.
  - unfold HAS_MULTIPLE_ONES. rewrite HR, negb_true_iff, Z.eqb_neq, wbits_nil by (by apply and_not_ok).
    split; intros H1 H2; apply H1.
    + apply Z.bits_inj'. intros i Hi. rewrite Z.pow2_bits_eqb by lia.
      destruct (Z.eqb_spec k i) as [->|Hki]; [done|]. destruct (Z.lt_ge_cases i 64) as [Hlt|Hge].
      * assert (Z.testbit (and_not w (2 ^ k)) i = false) as Hz by (by rewrite H2, Z.bits_0).
        rewrite testbit_and_not, Z.pow2_bits_false, andb_true_r in Hz by lia. done.
      * symmetry. by apply (testbit_above w 64).
    + rewrite <- H2. apply Z.bits_inj'. intros i Hi. rewrite Z.bits_0.
      destruct (Z.lt_ge_cases i 64) as [Hlt|Hge].
      * rewrite testbit_and_not by lia. apply andb_negb_r.
      * apply (testbit_above _ 64); [|done]. apply and_not_ok. by rewrite H2.
Qed.

(** ** Members and counts *)

Lemma wmembers_elem i ws x : x ∈ wmembers i ws <-> exists j k,
  0 <= j < Zlen ws /\ 0 <= k < 64 /\ x = 64 * (i + j) + k /\ Z.testbit (aget 0 ws j) k = true.
Proof.
  revert i. induction ws as [|w ws IH]; intros i; simpl wmembers.
  { rewrite elem_of_nil. split; [done|]. intros (j & k & Hj & _). simpl in Hj. lia. }
  rewrite elem_of_app, list_elem_of_fmap, IH. split.
  - intros [(k & -> & [Hk Ht]%elem_wbits)|(j & k & Hj & Hk & -> & Ht)].
    + exists 0, k. split_and!; [done|simpl; lia|lia|lia|lia|done].
    + exists (j + 1), k. split_and!; [lia|simpl; lia|lia|lia|lia|]. rewrite aget_cons by lia.
      destruct (Z.eqb_spec (j + 1) 0); [lia|]. by replace (j + 1 - 1) with j by lia.
  - intros (j & k & Hj & Hk & -> & Ht). rewrite aget_cons in Ht by lia. destruct (Z.eqb_spec j 0) as [->|].
    + left. exists k. split; [lia|]. by apply elem_wbits.
    + right. exists (j - 1), k. simpl in Hj. split_and!; try lia. done.
Qed.

Lemma members_elem a x : x ∈ members a <-> mem a x = true.
Proof.
  destruct a as [a|]; simpl; [|by rewrite elem_of_nil]. rewrite wmembers_elem. split.
  - intros (j & k & Hj & Hk & -> & Ht). replace (64 * (0 + j) + k) with (64 * j + k) by lia.
    by rewrite wmem_bit by lia.
  - intros Hm. unfold wmem in Hm. bool_cases. pose proof (Z.mod_pos_bound x 64 ltac:(lia)).
    exists (x / 64), (x mod 64). pose proof (Z.div_mod x 64 ltac:(lia)). split_and!; try lia; [|done].
    destruct (Z.lt_ge_cases (x / 64) (Zlen (words a))) as [|Hge]; [done|].
    rewrite aget_past, Z.bits_0 in *; done.
Qed.

Lemma StronglySorted_filter_Z (P : Z -> Prop) `{!forall x, Decision (P x)} (l : list Z) :
  StronglySorted Z.lt l -> StronglySorted Z.lt (base.filter P l).
Proof.
  induction 1 as [|x l Hs IH Hf]; [constructor|]. rewrite filter_cons. case_decide; [|done].
  constructor; [done|]. apply Forall_forall. intros y [_ Hy]%list_elem_of_filter.
  rewrite Forall_forall in Hf. auto.
Qed.

Lemma StronglySorted_app_Z (l1 l2 : list Z) : StronglySorted Z.lt l1 -> StronglySorted Z.lt l2 ->
  (forall x y, x ∈ l1 -> y ∈ l2 -> x < y) -> StronglySorted Z.lt (l1 ++ l2).
Proof.
  induction 1 as [|x l Hs IH Hf]; simpl; [done|]. intros H2 Hlt. constructor.
  - apply IH; [done|]. intros. apply Hlt; [by right|done].
  - apply Forall_app. split; [done|]. apply Forall_forall. intros y Hy. apply Hlt; [by left|done].
Qed.

Lemma wmembers_sorted i ws : StronglySorted Z.lt (wmembers i ws).
Proof.
  revert i. induction ws as [|w ws IH]; intros i; simpl; [constructor|]. apply StronglySorted_app_Z; [|done|].
  - assert (StronglySorted Z.lt (wbits w)) as Hb.
    { apply StronglySorted_filter_Z. repeat constructor; simpl; lia. }
    induction Hb as [|k l Hs IHl Hf]; simpl; [constructor|]. constructor; [done|].
    apply Forall_fmap. eapply Forall_impl; [exact Hf|]. simpl. intros. lia.
  - intros x y (k & -> & [Hk _]%elem_wbits)%list_elem_of_fmap (j & k' & Hj & Hk' & -> & _)%wmembers_elem. lia.
Qed.

(** The bits below [n], and the count of a byte. *)
Definition low_bits (n : Z) (w : Z) : list Z := base.filter (fun k => Z.testbit w k = true) (seqZ 0 n).

Lemma low_bits_byte w n : 0 <= n ->
  length (low_bits (8 + n) w) = (length (low_bits 8 (Z.land w 255)) + length (low_bits n (Z.shiftr w 8)))%nat.
Proof.
  intros Hn. unfold low_bits. rewrite seqZ_app, filter_app, length_app by lia. f_equal.
  - f_equal. apply filter_same. intros k Hk%elem_of_seqZ. change 255 with (Z.ones 8).
    by rewrite Z.land_spec, Z.ones_spec_low, andb_true_r by lia.
  - assert (seqZ (0 + 8) n = Z.add 8 <$> seqZ 0 n) as -> by (rewrite fmap_add_seqZ; f_equal; lia).
    assert (Forall (fun k => 0 <= k) (seqZ 0 n)) as Hl
      by (apply Forall_forall; intros k Hk%elem_of_seqZ; lia).
    induction Hl as [|k l Hk Hl IH]; [done|]. rewrite fmap_cons, !filter_cons.
    rewrite Z.shiftr_spec, (Z.add_comm k 8) by done.
    destruct (decide (Z.testbit w (8 + k) = true)); simpl; auto.
Qed.

Lemma number_of_ones_spec b : 0 <= b < 256 -> aget 0 number_of_ones b = Zlen (low_bits 8 b).
Proof.
  intros Hb. assert (Forall (fun b => aget 0 number_of_ones b = Zlen (low_bits 8 b)) (seqZ 0 256)) as Hall
    by (apply (bool_decide_unpack _); vm_compute; exact I).
  rewrite Forall_forall in Hall. apply Hall, elem_of_seqZ. lia.
Qed.

Lemma low_bits_0 n : low_bits n 0 = [].
Proof. apply filter_none. intros k _. by rewrite Z.bits_0. Qed.

Lemma count_ones_spec fuel : forall w res, 0 <= w < 2 ^ (8 * Z.of_nat fuel) ->
  count_ones fuel w res = res + Zlen (low_bits (8 * Z.of_nat fuel) w).
Proof.
  induction fuel as [|n IH]; intros w res Hw; cbn [count_ones].
  { assert (w = 0) as -> by (simpl in Hw; lia). rewrite low_bits_0. simpl. lia. }
  destruct (Z.eqb_spec w 0) as [->|]; [rewrite low_bits_0; simpl; lia|].
  change 255 with (Z.ones 8). rewrite Z.land_ones by lia. rewrite IH.
  - replace (8 * Z.of_nat (S n)) with (8 + 8 * Z.of_nat n) by lia.
    rewrite low_bits_byte, number_of_ones_spec by (lia || (by apply Z.mod_pos_bound)).
    change 255 with (Z.ones 8). rewrite Z.land_ones by lia. lia.
  - rewrite Z.shiftr_div_pow2 by lia. split; [apply Z.div_pos; lia|]. apply Z.div_lt_upper_bound; [lia|].
    rewrite <- Z.pow_add_r by lia. replace (8 + 8 * Z.of_nat n) with (8 * Z.of_nat (S n)) by lia. apply Hw.
Qed.

Lemma num_members_loop i ws res : Forall word_ok ws ->
  foldl (fun res w => count_ones 8 w res) res ws = res + Zlen (wmembers i ws).
Proof.
  revert i res. induction ws as [|w ws IH]; intros i res Hws; [simpl; lia|].
  apply Forall_cons in Hws as [Hw Hws]. cbn [foldl wmembers]. rewrite (IH (i + 1)) by done.
  rewrite count_ones_spec by done. rewrite length_app, length_fmap. change (8 * Z.of_nat 8) with 64.
  change (low_bits 64 w) with (wbits w). lia.
Qed.

Definition classify (n : nat) : BMS_Membership :=
  match n with O => BMS_EMPTY_SET | 1%nat => BMS_SINGLETON | _ => BMS_MULTIPLE end.

Lemma membership_loop_spec i ws n : Forall word_ok ws -> (n <= 1)%nat ->
  membership_loop ws (classify n) = classify (n + length (wmembers i ws)).
Proof.
  revert i n. induction ws as [|w ws IH]; intros i n Hws Hn; [simpl; by rewrite Nat.add_0_r|].
  apply Forall_cons in Hws as [Hw Hws]. cbn [membership_loop wmembers]. rewrite length_app, length_fmap.
  destruct (Z.eqb_spec w 0) as [->|Hne]; simpl negb; cbv iota.
  { rewrite (IH (i + 1)) by done. by rewrite wbits_0. }
  destruct (word_step w 0 Hw Hne) as (k & _ & Hb & _ & _ & Hm). rewrite Hb. simpl length.
  destruct (HAS_MULTIPLE_ONES w).
  - rewrite orb_true_r. destruct (wbits (and_not _ _)) as [|k' l]; [by destruct (proj1 Hm eq_refl)|].
    simpl length. by replace (n + (S (S (length l)) + length (wmembers (i + 1) ws)))%nat
      with (S (S (n + length l + length (wmembers (i + 1) ws)))) by lia.
  - assert (wbits (and_not w (RIGHTMOST_ONE w)) = []) as ->.
    { destruct (wbits (and_not w (RIGHTMOST_ONE w))); [done|]. assert (false = true) by (apply Hm; discriminate). done. }
    cbn [length]. destruct n as [|[|n]]; [| |lia].
    + change BMS_SINGLETON with (classify 1). cbn [classify orb]. apply (IH (i + 1) 1%nat Hws). lia.
    + done.
Qed.

Lemma singleton_loop_spec i ws r : Forall word_ok ws -> 0 <= i ->
  singleton_loop i ws r =
  match wmembers i ws with
  | [] => if r <? 0 then Err "bitmapset is empty" else Ok r
  | x :: l => if (r >=? 0) || bool_decide (l <> []) then Err "bitmapset has multiple members" else Ok x
  end.
Proof.
  revert i r. induction ws as [|w ws IH]; intros i r Hws Hi; [done|].
  apply Forall_cons in Hws as [Hw Hws]. cbn [singleton_loop wmembers].
  destruct (Z.eqb_spec w 0) as [->|Hne]; simpl negb; cbv iota.
  { rewrite (IH (i + 1)) by (done || lia). by rewrite wbits_0. }
  unfold BITS_PER_BITMAPWORD. destruct (word_step w (i * 64) Hw Hne) as (k & Hk & Hb & _ & Hpos & Hm). rewrite Hb. simpl fmap.
  rewrite <- app_comm_cons. destruct (Z.geb_spec r 0); [done|]. rewrite !orb_false_l.
  destruct (HAS_MULTIPLE_ONES w).
  - destruct (wbits (and_not _ _)) as [|k' l]; [by destruct (proj1 Hm eq_refl)|]. by rewrite bool_decide_eq_true_2.
  - assert (wbits (and_not w (RIGHTMOST_ONE w)) = []) as ->.
    { destruct (wbits (and_not w (RIGHTMOST_ONE w))); [done|]. assert (false = true) by (apply Hm; discriminate). done. }
    rewrite Hpos, (IH (i + 1)) by (done || lia). simpl. replace (i * 64 + k) with (64 * i + k) by lia.
    destruct (Z.ltb_spec (64 * i + k) 0); [lia|]. destruct (Z.geb_spec (64 * i + k) 0); [|lia].
    by destruct (wmembers (i + 1) ws).
Qed.

(** ** Iteration *)

Lemma first_loop_spec i ws : Forall word_ok ws -> 0 <= i ->
  let '(x, ws') := first_loop i ws in
  length ws' = length ws /\ Forall word_ok ws' /\
  match wmembers i ws with
  | [] => x = -1 /\ ws' = ws
  | y :: l => x = y /\ wmembers i ws' = l
  end.
Proof.
  revert i. induction ws as [|w ws IH]; intros i Hws Hi; [done|].
  apply Forall_cons in Hws as [Hw Hws]. cbn [first_loop wmembers].
  destruct (Z.eqb_spec w 0) as [->|Hne]; simpl negb; cbv iota.
  - specialize (IH (i + 1) Hws ltac:(lia)). destruct (first_loop (i + 1) ws) as [x ws'].
    destruct IH as (Hl & Hok & Hm). rewrite wbits_0. simpl app. split_and!; [simpl; lia|by constructor|].
    destruct (wmembers (i + 1) ws) as [|y l]; destruct Hm as [-> Hm]; (split; [done|]).
    + by rewrite Hm.
    + cbn [wmembers]. by rewrite wbits_0.
  - unfold BITS_PER_BITMAPWORD. destruct (word_step w (i * 64) Hw Hne) as (k & Hk & Hb & Hpos & _).
    rewrite Hb, fmap_cons, <- app_comm_cons.
    split_and!; [done|constructor; [by apply and_not_ok|done]|rewrite Hpos; lia|done].
Qed.

Lemma first_member_spec a : set_wf a -> let '(x, a') := bms_first_member a in
  set_wf a' /\
  match members a with
  | [] => x = -1 /\ a' = a
  | y :: l => x = y /\ members a' = l
  end.
Proof.
  destruct a as [a|]; [|done]. simpl. intros Ha. rewrite (bms_take a Ha), (bms_nwords a Ha), drop_ge by lia.
  pose proof (first_loop_spec 0 (words a) (bms_words _ Ha) ltac:(lia)) as Hf.
  destruct (first_loop 0 (words a)) as [x ws']. destruct Hf as (Hl & Hok & Hm). rewrite app_nil_r. split.
  - split; simpl; [rewrite Hl; apply Ha|apply Ha|done].
  - destruct (wmembers 0 (words a)) as [|y l]; destruct Hm as [-> Hm]; (split; [done|]); simpl.
    + rewrite Hm. by destruct a.
    + done.
Qed.

Lemma iterate_spec fuel a : set_wf a -> (length (members a) < fuel)%nat -> bms_iterate fuel a = members a.
Proof.
  revert a. induction fuel as [|n IH]; intros a Ha Hlen; [lia|]. simpl.
  pose proof (first_member_spec a Ha) as Hf. destruct (bms_first_member a) as [x a']. destruct Hf as [Ha' Hm].
  destruct (members a) as [|y l] eqn:Em; destruct Hm as [-> Hm]; [done|].
  assert (0 <= y) as Hy by (apply (mem_nonneg a), members_elem; rewrite Em; by left).
  destruct (Z.geb_spec y 0); [|lia]. f_equal. rewrite <- Hm. apply IH; [done|]. simpl in Hlen. rewrite Hm. lia.
Qed.

(** ** Hashing *)

Lemma strip_zeros_nil ws : (forall i, 0 <= i -> aget 0 ws i = 0) -> strip_zeros ws = [].
Proof.
  induction ws as [|w ws IH]; intros H; [done|]. simpl. rewrite IH.
  - pose proof (H 0 ltac:(lia)) as H0. rewrite aget_cons in H0 by lia. simpl in H0. by subst w.
  - intros i Hi. specialize (H (i + 1) ltac:(lia)). rewrite aget_cons in H by lia.
    destruct (Z.eqb_spec (i + 1) 0); [lia|]. by replace (i + 1 - 1) with i in H by lia.
Qed.

Lemma strip_zeros_ext a b : (forall i, 0 <= i -> aget 0 a i = aget 0 b i) -> strip_zeros a = strip_zeros b.
Proof.
  revert b. induction a as [|x a IH]; intros b H.
  { symmetry. apply strip_zeros_nil. intros i Hi. by rewrite <- H, aget_nil. }
  destruct b as [|y b].
  { apply strip_zeros_nil. intros i Hi. by rewrite H, aget_nil. }
  pose proof (H 0 ltac:(lia)) as H0. rewrite !aget_cons in H0 by lia. simpl in H0. subst y. simpl.
  rewrite (IH b); [done|]. intros i Hi. specialize (H (i + 1) ltac:(lia)). rewrite !aget_cons in H by lia.
  destruct (Z.eqb_spec (i + 1) 0); [lia|]. by replace (i + 1 - 1) with i in H by lia.
Qed.

Lemma hash_spec p q a b : set_wf a -> set_wf b -> (forall x, mem a x = mem b x) ->
  bms_hash_value p a = bms_hash_value q b.
Proof.
  intros Ha Hb Hm. set (ws o := match o with None => [] | Some a => words a end : list Z).
  assert (forall r o, set_wf o -> bms_hash_value r o =
    match strip_zeros (ws o) with [] => 0 | ws => hash_any r (ws ≫= bytes_of 8) (i32 (Zlen ws * 8)) end) as Hv.
  { intros r [o|] Ho; simpl; [|done]. by rewrite (bms_take o Ho). }
  assert (forall o, set_wf o -> Forall word_ok (ws o)) as Hok by (intros [o|] Ho; [apply Ho|constructor]).
  assert (forall o x, mem o x = wmem (ws o) x) as Hw.
  { intros [o|] x; simpl; [done|]. unfold wmem. by rewrite aget_nil, Z.bits_0, andb_false_r. }
  rewrite !Hv by done. rewrite (strip_zeros_ext (ws a) (ws b)); [case_match; [done|apply hash_any_addr]|]. intros i Hi.
  apply Z.bits_inj'. intros k Hk. destruct (Z.lt_ge_cases k 64) as [Hlt|Hge].
  - rewrite <- !wmem_bit by lia. by rewrite <- !Hw.
  - rewrite !(testbit_above _ 64); try done; by apply word_ok_aget, Hok.
Qed.

(** ** The set interface *)

(** [c] is a well-formed set with the members [P]. *)
Definition represents (c : option Bitmapset) (P : Z -> bool) : Prop :=
  set_wf c /\ forall x, mem c x = P x.

(** The call succeeds with such a set. *)
Definition yields (r : result (option Bitmapset)) (P : Z -> bool) : Prop :=
  exists c, r = Ok c /\ represents c P.

Lemma union_spec a b : set_wf a -> set_wf b -> represents (bms_union a b) (fun x => mem a x || mem b x).
Proof.
  intros Ha Hb. destruct a as [a|]; [|by split]. destruct b as [b|].
  - pose proof (or_either a b (nwords a <=? nwords b) Ha Hb ltac:(lia) ltac:(lia)) as H.
    unfold bms_union. by destruct (nwords a <=? nwords b).
  - split; [done|]. intros x. by rewrite orb_false_r.
Qed.

Lemma add_members_spec a b : set_wf a -> set_wf b ->
  represents (bms_add_members a b) (fun x => mem a x || mem b x).
Proof.
  intros Ha Hb. destruct a as [a|]; [|by split]. destruct b as [b|].
  - pose proof (or_either a b (nwords a <? nwords b) Ha Hb ltac:(lia) ltac:(lia)) as H.
    unfold bms_add_members. by destruct (nwords a <? nwords b).
  - split; [done|]. intros x. by rewrite orb_false_r.
Qed.

Lemma join_spec a b : set_wf a -> set_wf b -> represents (bms_join a b) (fun x => mem a x || mem b x).
Proof. intros Ha Hb. by destruct (add_members_spec a b Ha Hb); destruct a, b. Qed.

Lemma difference_spec a b : set_wf a -> set_wf b ->
  represents (bms_difference a b) (fun x => mem a x && negb (mem b x)).
Proof.
  intros Ha Hb. destruct a as [a|]; [|by split]. destruct b as [b|]; [by apply and_not_into|].
  split; [done|]. intros x. by rewrite andb_true_r.
Qed.

Lemma del_members_spec a b : set_wf a -> set_wf b ->
  represents (bms_del_members a b) (fun x => mem a x && negb (mem b x)).
Proof. intros Ha Hb. by destruct (difference_spec a b Ha Hb); destruct a, b. Qed.

(** C40: every operation that builds or changes a set computes the set its
    name says, and gives a well-formed set: [bms_union], [bms_add_members] and
    [bms_join] the union, [bms_intersect] and [bms_int_members] the
    intersection, [bms_difference] and [bms_del_members] the difference,
    [bms_make_singleton], [bms_add_member] and [bms_del_member] the singleton,
    the insertion (up to the largest member an [int] number of words can
    hold) and the removal; a negative member is an error. *)
Theorem bms_operations_refine a b x : set_wf a -> set_wf b ->
  represents (bms_copy a) (mem a) /\
  represents (bms_union a b) (fun y => mem a y || mem b y) /\
  represents (bms_add_members a b) (fun y => mem a y || mem b y) /\
  represents (bms_join a b) (fun y => mem a y || mem b y) /\
  represents (bms_intersect a b) (fun y => mem a y && mem b y) /\
  represents (bms_int_members a b) (fun y => mem a y && mem b y) /\
  represents (bms_difference a b) (fun y => mem a y && negb (mem b y)) /\
  represents (bms_del_members a b) (fun y => mem a y && negb (mem b y)) /\
  (0 <= x <= max_member -> yields (bms_make_singleton x) (fun y => y =? x)) /\
  (0 <= x <= max_member -> yields (bms_add_member a x) (fun y => (y =? x) || mem a y)) /\
  (0 <= x -> yields (bms_del_member a x) (fun y => negb (y =? x) && mem a y)) /\
  (x < 0 -> bms_make_singleton x = negative /\ bms_add_member a x = negative /\
            bms_del_member a x = negative).
Proof.
  intros Ha Hb. split_and!.
  - by split.
  - by apply union_spec.
  - by apply add_members_spec.
  - by apply join_spec.
  - by apply intersect_spec.
  - by apply int_members_spec.
  - by apply difference_spec.
  - by apply del_members_spec.
  - intros Hx. destruct (make_singleton_spec x Hx) as (c & Hc & Hwf & _ & Hm). by exists (Some c).
  - by apply add_member_spec.
  - by apply del_member_spec.
  - intros Hx. unfold bms_make_singleton, bms_add_member, bms_del_member.
    by destruct (Z.ltb_spec x 0); [|lia].
Qed.

(** {1, 64, 66} and {1, 2}. *)
Definition set_a : option Bitmapset := Some (mkBitmapset 2 [2; 5]).
Definition set_b : option Bitmapset := Some (mkBitmapset 1 [6]).

Lemma set_a_wf : set_wf set_a.
Proof. split; simpl; [done|lia|]. repeat constructor; unfold word_ok; lia. Qed.
Lemma set_b_wf : set_wf set_b.
Proof. split; simpl; [done|lia|]. repeat constructor; unfold word_ok; lia. Qed.

Lemma bms_operations_refine_witness :
  represents (bms_union set_a set_b) (fun y => mem set_a y || mem set_b y) /\
  yields (bms_add_member set_a 200) (fun y => (y =? 200) || mem set_a y) /\
  members (bms_union set_a set_b) = [1; 2; 64; 66] /\ members (bms_int_members set_a set_b) = [1] /\
  members (bms_del_members set_a set_b) = [64; 66].
Proof.
  destruct (bms_operations_refine set_a set_b 200 set_a_wf set_b_wf)
    as (_ & Hu & _ & _ & _ & _ & _ & _ & _ & Hadd & _).
  split; [exact Hu|]. split; [apply Hadd; unfold max_member; lia|]. by vm_compute.
Defined.

Lemma num_members_spec a : set_wf a -> bms_num_members a = Zlen (members a).
Proof.
  destruct a as [a|]; [|done]. intros Ha. unfold bms_num_members. rewrite (bms_take a Ha).
  apply (num_members_loop 0). apply Ha.
Qed.

Lemma membership_spec a : set_wf a -> bms_membership a = classify (length (members a)).
Proof.
  destruct a as [a|]; [|done]. intros Ha. unfold bms_membership. rewrite (bms_take a Ha).
  apply (membership_loop_spec 0 _ 0%nat); [apply Ha|lia].
Qed.

Lemma singleton_member_spec a : set_wf a ->
  bms_singleton_member a = match members a with
                           | [] => Err "bitmapset is empty"
                           | [x] => Ok x
                           | _ => Err "bitmapset has multiple members"
                           end.
Proof.
  destruct a as [a|]; [|done]. intros Ha. unfold bms_singleton_member. rewrite (bms_take a Ha).
  rewrite singleton_loop_spec by (apply Ha || lia). cbn [members].
  by destruct (wmembers 0 (words a)) as [|x [|y l]].
Qed.

(** The tests answer for the abstract sets, whatever the lengths of the
    two arrays: membership (with an error for a negative argument),
    emptiness, equality, inclusion, overlap and nonempty difference; the
    count of the byte table is the number of members, [bms_membership]
    classifies it without counting, [bms_singleton_member] returns the only
    member or one of its two errors, and sets with the same members have the
    same hash value although their arrays may differ in length and lie at
    different addresses. *)
Theorem bms_tests_refine p q a b x : set_wf a -> set_wf b ->
  bms_is_member x a = (if x <? 0 then negative else Ok (mem a x)) /\
  (bms_is_empty a = true <-> forall y, mem a y = false) /\
  (bms_equal a b = true <-> forall y, mem a y = mem b y) /\
  (bms_is_subset a b = true <-> forall y, mem a y = true -> mem b y = true) /\
  (bms_overlap a b = true <-> exists y, mem a y = true /\ mem b y = true) /\
  (bms_nonempty_difference a b = true <-> exists y, mem a y = true /\ mem b y = false) /\
  bms_num_members a = Zlen (members a) /\
  bms_membership a = classify (length (members a)) /\
  bms_singleton_member a = match members a with
                           | [] => Err "bitmapset is empty"
                           | [y] => Ok y
                           | _ => Err "bitmapset has multiple members"
                           end /\
  (bms_equal a b = true -> bms_hash_value p a = bms_hash_value q b).
Proof.
  intros Ha Hb. split_and!;
    auto using is_empty_spec, equal_spec, is_subset_spec, overlap_spec, nonempty_difference_spec,
      num_members_spec, membership_spec, singleton_member_spec.
  - destruct (Z.ltb_spec x 0); [|by apply is_member_spec]. unfold bms_is_member.
    by destruct (Z.ltb_spec x 0); [|lia].
  - intros He. by apply hash_spec, equal_spec.
Qed.

(** {1, 2} in an array of two words. *)
Definition set_c : option Bitmapset := Some (mkBitmapset 2 [6; 0]).
Lemma set_c_wf : set_wf set_c.
Proof. split; simpl; [done|lia|]. repeat constructor; unfold word_ok; lia. Qed.

Lemma bms_tests_refine_witness :
  bms_equal set_b set_c = true /\ (forall y, mem set_b y = mem set_c y) /\
  bms_hash_value 8 set_b = bms_hash_value 21 set_c /\
  bms_num_members set_b = 2 /\ bms_membership set_b = BMS_MULTIPLE.
Proof.
  destruct (bms_tests_refine 8 21 set_b set_c 2 set_b_wf set_c_wf)
    as (_ & _ & He & _ & _ & _ & _ & _ & _ & Hh).
  split; [reflexivity|]. split; [apply He; reflexivity|]. split; [apply Hh; reflexivity|]. split; reflexivity.
Defined.

(** [bms_first_member] removes and returns the least member, [-1] when
    the set is empty; so the iteration idiom of its comment ends after one
    call more than the set has members and visits the members each once, in
    increasing order. *)
Theorem bms_first_member_enumerates a fuel : set_wf a -> (length (members a) < fuel)%nat ->
  StronglySorted Z.lt (members a) /\
  (forall x, x ∈ members a <-> mem a x = true) /\
  (let '(x, a') := bms_first_member a in
   set_wf a' /\
   match members a with
   | [] => x = -1 /\ a' = a
   | y :: l => x = y /\ members a' = l
   end) /\
  bms_iterate fuel (bms_copy a) = members a.
Proof.
  intros Ha Hf. split_and!.
  - destruct a as [a|]; [apply wmembers_sorted|constructor].
  - intros x. apply members_elem.
  - by apply first_member_spec.
  - by apply iterate_spec.
Qed.

Lemma bms_first_member_enumerates_witness :
  (forall x, x ∈ members set_a <-> mem set_a x = true) /\
  bms_iterate 4 (bms_copy set_a) = members set_a /\ members set_a = [1; 64; 66].
Proof.
  destruct (bms_first_member_enumerates set_a 4 set_a_wf) as (_ & Hm & _ & Hi); [vm_compute; lia|].
  split; [exact Hm|]. split; [exact Hi|]. by vm_compute.
Defined.
