(* ===== verification/DynahashMap.v ===== *)
(** * Hash tables as finite maps

    The refinement of [Dynahash]: a table represents a finite map from keys to
    the addresses of their elements ([repr]); the operations of
    [utils/hash/dynahash.c] are operations of that map. *)

From S2P Require Import Prelude.
From S2P Require Import Dynahash.

Section Map.

Variable hash : list Z -> Z -> Z.
Variable alloc_ok : nat -> bool.
Variable junk : Z -> list Z.

#[local] Notation call_hash := (call_hash hash).
#[local] Notation expand_table := (expand_table hash alloc_ok).
#[local] Notation hash_search := (hash_search hash alloc_ok junk).
#[local] Notation element_alloc := (element_alloc alloc_ok junk).

Definition in_use (t : HTAB) (b : Z) : Prop := 0 <= b <= max_bucket (hctl t).

(** [L b] are the elements of bucket [b], [F] the free elements. *)
Record reprL (t : HTAB) (M : gmap (list Z) Z) (L : Z -> list Z) (F : list Z) : Prop := {
  r_geom : geom (hctl t) (dir t);
  r_chain : forall b, in_use t b -> chain t (load t (bucket_slot t b)) (L b);
  r_free : chain t (freeList (hctl t)) F;
  r_nodup : forall b, in_use t b -> NoDup (L b);
  r_nodupF : NoDup F;
  r_disj : forall b a, in_use t b -> a ∈ L b -> a ∉ F;
  r_in : forall b a, in_use t b -> a ∈ L b ->
    exists k, keyof t a = Some k /\ call_hash t k = b /\ M !! k = Some a;
  r_map : forall k a, M !! k = Some a -> a ∈ L (call_hash t k) /\ keyof t a = Some k;
  r_count : nentries (hctl t) = Z.of_nat (size M);
  r_brk : forall a, is_Some (heap t !! a) -> a < brk t;
}.

(** The table represents the map [M]. *)
Definition repr (t : HTAB) (M : gmap (list Z) Z) : Prop := exists L F, reprL t M L F.

(** The key and the data of an element. *)
Definition contents (t : HTAB) (a : Z) : option (list Z * list Z) := (fun e => (ekey e, edata e)) <$> heap t !! a.

Lemma contents_keyof t t' a : contents t' a = contents t a -> keyof t' a = keyof t a.
Proof. unfold contents, keyof. destruct (heap t' !! a), (heap t !! a); simpl; congruence. Qed.

Lemma frame_contents P t t' a : frame P t t' -> contents t' a = contents t a.
Proof.
  intros Hf. pose proof (f_elem _ _ _ Hf a) as H. unfold contents.
  destruct (heap t' !! a), (heap t !! a); simpl in *; congruence.
Qed.

Lemma frame_dom P t t' a : frame P t t' -> is_Some (heap t' !! a) -> is_Some (heap t !! a).
Proof. intros Hf [e He]. pose proof (f_elem _ _ _ Hf a) as H. rewrite He in H. by destruct (heap t !! a). Qed.

Lemma call_hash_in_use t k : geom (hctl t) (dir t) -> in_use t (call_hash t k).
Proof. apply call_hash_range. Qed.

(** ** Changes that keep the representation *)

Lemma chain_ext t t' p l : (forall a, a ∈ l -> link <$> heap t' !! a = link <$> heap t !! a) -> chain t p l -> chain t' p l.
Proof.
  revert p. induction l as [|a l IH]; intros p H; [done|]. intros (-> & [e He] & Hc).
  pose proof (H a ltac:(left)) as Ha. rewrite He in Ha. split; [done|].
  destruct (heap t' !! a) as [e'|] eqn:He'; [|done]. split; [done|]. simpl in *. rewrite He in Hc. rewrite He'.
  simpl in *. injection Ha as ->. apply IH; [|done]. intros b Hb. apply H. by right.
Qed.

(** The fields of the header that the map depends on. *)
Definition same_hdr (h h' : HASHHDR) : Prop :=
  max_bucket h' = max_bucket h /\ high_mask h' = high_mask h /\ low_mask h' = low_mask h /\
  keysize h' = keysize h /\ nentries h' = nentries h /\ freeList h' = freeList h.

Lemma reprL_ext t t' M L F : reprL t M L F -> geom (hctl t') (dir t') -> same_hdr (hctl t) (hctl t') ->
  (forall b, in_use t b -> load t' (bucket_slot t' b) = load t (bucket_slot t b)) ->
  (forall a, (fun e => (link e, ekey e)) <$> heap t' !! a = (fun e => (link e, ekey e)) <$> heap t !! a) ->
  brk t <= brk t' -> reprL t' M L F.
Proof.
  intros R G (Hm & Hh & Hl & Hk & Hn & Hf) Hload Hheap Hbrk.
  assert (forall a, link <$> heap t' !! a = link <$> heap t !! a) as Hlink.
  { intros a. specialize (Hheap a). destruct (heap t' !! a), (heap t !! a); simpl in *; congruence. }
  assert (forall a, keyof t' a = keyof t a) as Hkey.
  { intros a. specialize (Hheap a). unfold keyof. destruct (heap t' !! a), (heap t !! a); simpl in *; congruence. }
  assert (forall k, call_hash t' k = call_hash t k) as Hch.
  { intros k. unfold Dynahash.call_hash. by rewrite Hm, Hh, Hl, Hk. }
  assert (forall b, in_use t' b -> in_use t b) as Hin by (unfold in_use; rewrite Hm; done).
  split.
  - done.
  - intros b Hb. rewrite Hload by auto. eapply chain_ext; [auto|apply R; auto].
  - rewrite Hf. eapply chain_ext; [auto|apply R].
  - intros b Hb. apply R. auto.
  - apply R.
  - intros b a Hb. apply R. auto.
  - intros b a Hb Ha. destruct (r_in _ _ _ _ R b a) as (k & H1 & H2 & H3); [auto..|]. exists k.
    by rewrite Hkey, Hch.
  - intros k a Hka. rewrite Hkey, Hch. by apply R.
  - rewrite Hn. apply R.
  - intros a Ha. assert (is_Some (heap t !! a)) as H. { rewrite <- (fmap_is_Some link), Hlink, fmap_is_Some in *. done. }
    apply (r_brk _ _ _ _ R) in H. lia.
Qed.

(** The allocator's state does not matter. *)
Lemma reprL_alloc t M L F b n : reprL t M L F -> brk t <= b -> reprL (mkHTAB (hctl t) (dir t) (heap t) b n) M L F.
Proof. intros R Hb. by apply (reprL_ext t); [|apply R| | | |]. Qed.

Lemma reprL_bucket t M L F b : reprL t M L F -> in_use t b -> valid t (bucket_slot t b).
Proof.
  intros R Hb. apply bucket_slot_valid; [apply R|]. pose proof (g_max _ _ (r_geom _ _ _ _ R)). unfold in_use in Hb. lia.
Qed.

Lemma chain_length t p l : chain t p l -> NoDup l -> (length l <= size (heap t))%nat.
Proof.
  intros Hc Hnd. rewrite <- (size_list_to_set (C := gset Z) l Hnd), <- size_dom. apply subseteq_size.
  intros a Ha%elem_of_list_to_set. apply elem_of_dom. by apply (chain_valid _ _ _ _ Hc).
Qed.

(** Elements of the table do not move between buckets. *)
Lemma reprL_unique t M L F b b' a : reprL t M L F -> in_use t b -> in_use t b' -> a ∈ L b -> a ∈ L b' -> b = b'.
Proof.
  intros R Hb Hb' Ha Ha'. destruct (r_in _ _ _ _ R _ _ Hb Ha) as (k & Hk & <- & _).
  destruct (r_in _ _ _ _ R _ _ Hb' Ha') as (k' & Hk' & <- & _). congruence.
Qed.

(** ** Search *)

Lemma search_spec t M L F k : reprL t M L F ->
  exists l1 l2, L (call_hash t k) = l1 ++ l2 /\ head l2 = M !! k /\
    (exists seg, aget None (dir t) (Z.shiftr (call_hash t k) (sshift (hctl t))) = Some seg) /\
    find_loop (S (size (heap t))) t k (bucket_slot t (call_hash t k)) (load t (bucket_slot t (call_hash t k)))
    = (last_loc (bucket_slot t (call_hash t k)) l1, M !! k).
Proof.
  intros R. pose proof (call_hash_in_use t k (r_geom _ _ _ _ R)) as Hu. set (b := call_hash t k) in *.
  pose proof (r_chain _ _ _ _ R b Hu) as Hc. pose proof (r_nodup _ _ _ _ R b Hu) as Hnd.
  destruct (find_loop_spec (S (size (heap t))) t k _ _ Hc) as (l1 & l2 & El & Hf & H1 & H2).
  { pose proof (chain_length _ _ _ Hc Hnd). lia. }
  assert (head l2 = M !! k) as Hh.
  { destruct (M !! k) as [a|] eqn:Ea.
    - destruct (r_map _ _ _ _ R _ _ Ea) as [Hin Hk]. fold b in Hin. rewrite El in Hin.
      apply elem_of_app in Hin as [Hin|Hin]; [by destruct (H1 _ Hin)|]. destruct l2 as [|c l2]; [by apply elem_of_nil in Hin|].
      specialize (H2 c eq_refl). destruct (r_in _ _ _ _ R b c Hu) as (k' & Hk' & _ & Hm); [rewrite El; set_solver|].
      simpl. congruence.
    - destruct l2 as [|c l2]; [done|]. specialize (H2 c eq_refl).
      destruct (r_in _ _ _ _ R b c Hu) as (k' & Hk' & _ & Hm); [rewrite El; set_solver|]. congruence. }
  exists l1, l2. split_and!; [done|done| |by rewrite Hf, Hh].
  destruct (reprL_bucket _ _ _ _ _ R Hu) as (seg & Hseg & _). by exists seg.
Qed.

(** ** Removal *)

(** The write that ends the removal: [e] is taken out of its chain and pushed
    on the free list. *)
Definition unlinked (t : HTAB) (prev : loc) (e : Z) : HTAB :=
  let t := with_hctl t (set_nentries (nentries (hctl t) - 1) (hctl t)) in
  let t := store t prev (load t (Link e)) in
  let t := store t (Link e) (freeList (hctl t)) in
  with_hctl t (set_free (Some e) (hctl t)).

Lemma store_hctl t l v h : store (with_hctl t h) l v = with_hctl (store t l v) h.
Proof. destruct l as [s i|a]; simpl; [|done]. by case_match. Qed.
Lemma load_hctl t l h : load (with_hctl t h) l = load t l.
Proof. by destruct l. Qed.
Lemma chain_hctl t p l h : chain t p l -> chain (with_hctl t h) p l.
Proof. by apply chain_ext. Qed.

Lemma hctl_store t l v : hctl (store t l v) = hctl t.
Proof. apply (store_frame t l v). Qed.

Lemma unlinked_eq t prev e : unlinked t prev e =
  with_hctl (store (store t prev (load t (Link e))) (Link e) (freeList (hctl t)))
    (set_free (Some e) (set_nentries (nentries (hctl t) - 1) (hctl t))).
Proof. unfold unlinked. by rewrite load_hctl, !store_hctl. Qed.

(** The locations of a bucket that a write at the end of [l1] or at [Link e]
    touches belong to that bucket. *)
Lemma slot_neq_last t b b' l1 : geom (hctl t) (dir t) -> b' <> b ->
  last_loc (bucket_slot t b) l1 <> bucket_slot t b'.
Proof. intros G Hne. apply last_loc_neq; [|done]. intros E%bucket_slot_inj; done. Qed.

Lemma link_neq_last t b l1 a : a ∉ l1 -> last_loc (bucket_slot t b) l1 <> Link a.
Proof. intros Ha. apply last_loc_neq; [done|]. intros c Hc [= ->]. done. Qed.

Section Unlink.
Context (t : HTAB) (M : gmap (list Z) Z) (L : Z -> list Z) (F : list Z) (R : reprL t M L F).
Context (b e : Z) (l1 l2 : list Z) (Hu : in_use t b) (El : L b = l1 ++ e :: l2).

#[local] Notation prev := (last_loc (bucket_slot t b) l1).
#[local] Notation t2 := (store (store t prev (load t (Link e))) (Link e) (freeList (hctl t))).

Lemma unlink_frame : frame (fun x => x = prev \/ x = Link e) t t2.
Proof.
  eapply frame_trans; (eapply frame_mono; [|apply store_frame]); intros y <-; auto.
Qed.

Lemma unlink_nodup : NoDup (l1 ++ l2) /\ e ∉ l1 ++ l2.
Proof.
  pose proof (r_nodup _ _ _ _ R b Hu) as Hnd. rewrite El, <- Permutation_middle in Hnd.
  apply NoDup_cons in Hnd as [? ?]. done.
Qed.

Lemma unlink_bucket : chain t2 (load t2 (bucket_slot t b)) (l1 ++ l2).
Proof.
  destruct unlink_nodup as [Hnd He]. pose proof (r_chain _ _ _ _ R b Hu) as Hc. rewrite El in Hc.
  apply chain_split in Hc as (Hp & _ & _ & Hc2). rewrite load_store_ne by done.
  eapply chain_frame; [apply store_frame|intros a Ha [= ->]; done|].
  apply NoDup_app in Hnd as (H1 & H2 & H3). apply chain_redirect; try done. by eapply reprL_bucket.
Qed.

Lemma unlink_free : chain t2 (Some e) (e :: F).
Proof.
  assert (is_Some (heap t !! e)) as He.
  { apply (chain_valid _ _ _ _ (r_chain _ _ _ _ R b Hu)). rewrite El. set_solver. }
  pose proof (store_frame t prev (load t (Link e))) as Hf1.
  split; [done|]. split; [by apply (f_valid _ _ _ unlink_frame (Link e))|].
  rewrite load_store_eq by (by apply (f_valid _ _ _ Hf1 (Link e))).
  eapply chain_frame; [apply unlink_frame| |apply R]. intros a Ha [Ep|[= ->]].
  - symmetry in Ep. apply link_neq_last in Ep; [done|]. intros Hl1. apply (r_disj _ _ _ _ R b a Hu); [|done]. rewrite El. set_solver.
  - apply (r_disj _ _ _ _ R b e Hu); [|done]. rewrite El. set_solver.
Qed.

Lemma unlink_other b' : in_use t b' -> b' <> b -> chain t2 (load t2 (bucket_slot t b')) (L b').
Proof.
  intros Hb' Hne. rewrite (f_load _ _ _ unlink_frame).
  - eapply chain_frame; [apply unlink_frame| |by apply R]. intros a Ha [Ep|[= ->]]; apply Hne.
    + symmetry in Ep. destruct (decide (a ∈ l1)); [|by apply link_neq_last in Ep].
      eapply (reprL_unique _ _ _ _ b' b a R); try done. rewrite El. set_solver.
    + eapply (reprL_unique _ _ _ _ b' b e R); try done. rewrite El. set_solver.
  - intros [Ep|Ep]; [|done]. symmetry in Ep. by apply slot_neq_last in Ep; [|apply R|].
Qed.

Lemma unlinked_repr k : M !! k = Some e -> call_hash t k = b ->
  reprL (unlinked t prev e) (delete k M) (upd L b (l1 ++ l2)) (e :: F).
Proof.
  intros Hk Hb. rewrite unlinked_eq. destruct unlink_nodup as [Hnd He]. pose proof unlink_frame as Hf.
  pose proof (f_hctl _ _ _ Hf) as Hh. set (u := store (store t _ _) _ _) in *.
  assert (forall a, keyof (with_hctl u (set_free (Some e) (set_nentries (nentries (hctl t) - 1) (hctl t)))) a = keyof t a) as Hkey
    by (intros a; apply (frame_keyof _ _ _ _ Hf)).
  assert (forall b' a, in_use t b' -> a ∈ upd L b (l1 ++ l2) b' -> a ∈ L b' /\ a <> e) as Hsub.
  { intros b' a Hb' Ha. destruct (decide (b' = b)) as [->|Hne].
    - rewrite upd_eq in Ha. rewrite El. set_solver.
    - rewrite upd_ne in Ha by done. split; [done|]. intros ->. apply Hne.
      apply (reprL_unique _ _ _ _ b' b e R); try done. rewrite El. set_solver. }
  split.
  - change (geom (set_free (Some e) (set_nentries (nentries (hctl t) - 1) (hctl t))) (dir u)).
    pose proof (f_geom _ _ _ Hf (r_geom _ _ _ _ R)) as G. rewrite Hh in G. by destruct G.
  - intros b' Hb'. rewrite load_hctl. apply chain_hctl.
    destruct (decide (b' = b)) as [->|Hne]; [rewrite upd_eq; apply unlink_bucket|rewrite upd_ne by done; by apply unlink_other].
  - apply chain_hctl, unlink_free.
  - intros b' Hb'. destruct (decide (b' = b)) as [->|Hne]; [by rewrite upd_eq|rewrite upd_ne by done; by apply R].
  - apply NoDup_cons. split; [|apply R]. apply (r_disj _ _ _ _ R b e Hu). rewrite El. set_solver.
  - intros b' a Hb' Ha. destruct (Hsub b' a Hb' Ha). apply not_elem_of_cons. split; [done|]. by eapply (r_disj _ _ _ _ R b' a).
  - intros b' a Hb' Ha. destruct (Hsub b' a Hb' Ha) as [Ha' Hne]. destruct (r_in _ _ _ _ R b' a Hb' Ha') as (k' & H1 & H2 & H3).
    exists k'. rewrite Hkey. split_and!; [done|done|]. rewrite lookup_delete_ne; [done|]. intros <-. congruence.
  - intros k' a [Hne Hk']%lookup_delete_Some. rewrite Hkey. destruct (r_map _ _ _ _ R _ _ Hk') as [Ha Hka]. split; [|done].
    change (a ∈ upd L b (l1 ++ l2) (call_hash t k')).
    destruct (decide (call_hash t k' = b)) as [E|E]; [|by rewrite upd_ne]. rewrite E, upd_eq. rewrite E, El in Ha.
    assert (a <> e); [|set_solver]. intros ->. destruct (r_map _ _ _ _ R _ _ Hk) as [_ Hke]. congruence.
  - simpl. rewrite (r_count _ _ _ _ R), map_size_delete_Some by eauto.
    assert (size M <> 0%nat); [|lia]. intros H0%map_size_empty_inv. set_solver.
  - intros a Ha. change (a < brk u). destruct (f_alloc _ _ _ Hf) as [-> _]. apply (r_brk _ _ _ _ R). change (is_Some (heap u !! a)) in Ha.
    unfold u in Ha. by rewrite !store_dom in Ha.
Qed.
End Unlink.

(** ** Allocation *)

Lemma bucket_in_heap t M L F b a : reprL t M L F -> in_use t b -> a ∈ L b -> is_Some (heap t !! a).
Proof. intros R Hb Ha. apply (chain_valid _ _ _ _ (r_chain _ _ _ _ R b Hb) Ha). Qed.
Lemma free_in_heap t M L F a : reprL t M L F -> a ∈ F -> is_Some (heap t !! a).
Proof. intros R Ha. apply (chain_valid _ _ _ _ (r_free _ _ _ _ R) Ha). Qed.

(** A fresh element is pushed on the free list. *)
Lemma push_fresh t M L F p x y z : reprL t M L F -> heap t !! p = None -> p < brk t ->
  reprL (with_hctl (with_heap t (<[p := mkElem (freeList (hctl t)) x y z]> (heap t))) (set_free (Some p) (hctl t)))
    M L (p :: F).
Proof.
  intros R Hp Hbrk. set (t' := with_hctl _ _).
  assert (forall a, is_Some (heap t !! a) -> heap t' !! a = heap t !! a) as Hold.
  { intros a Ha. simpl. rewrite lookup_insert_ne; [done|]. intros <-. rewrite Hp in Ha. by destruct Ha. }
  assert (forall q l, chain t q l -> chain t' q l) as Hchain.
  { intros q l Hc. eapply chain_ext; [|done]. intros a Ha. rewrite Hold; [done|]. by eapply chain_valid in Ha. }
  assert (forall a, is_Some (keyof t a) -> keyof t' a = keyof t a) as Hkey.
  { intros a Ha. unfold keyof in *. rewrite Hold; [done|]. by apply fmap_is_Some in Ha. }
  split.
  - destruct (r_geom _ _ _ _ R). by split.
  - intros b Hb. apply Hchain. by apply (r_chain _ _ _ _ R).
  - simpl. split; [done|]. rewrite lookup_insert_eq. split; [done|]. simpl. apply Hchain, R.
  - intros b Hb. by apply R.
  - apply NoDup_cons. split; [|apply R]. intros [? Ha]%(free_in_heap _ _ _ _ _ R). congruence.
  - intros b a Hb Ha. apply not_elem_of_cons. split; [|by apply (r_disj _ _ _ _ R b)].
    intros ->. destruct (bucket_in_heap _ _ _ _ _ _ R Hb Ha). congruence.
  - intros b a Hb Ha. destruct (r_in _ _ _ _ R b a Hb Ha) as (k & Hk & H). exists k. by rewrite Hkey; rewrite Hk.
  - intros k a Hk. destruct (r_map _ _ _ _ R k a Hk) as [? Hka]. split; [done|]. by rewrite Hkey; rewrite Hka.
  - apply R.
  - intros a Ha. simpl in *. rewrite lookup_insert_is_Some' in Ha. destruct Ha as [<-|Ha]; [done|by apply (r_brk _ _ _ _ R)].
Qed.

Lemma link_elements_spec n size tmp t M L F : reprL t M L F -> 0 < size -> (forall a, is_Some (heap t !! a) -> a < tmp) ->
  tmp + Z.of_nat n * size <= brk t ->
  let t' := link_elements junk n size tmp t in
  exists F', reprL t' M L F' /\ length F' = (n + length F)%nat /\ (exists x, hctl t' = set_free x (hctl t)) /\
    forall a, is_Some (heap t !! a) -> heap t' !! a = heap t !! a.
Proof.
  revert tmp t F. induction n as [|n IH]; intros tmp t F R Hs Hlt Hbrk.
  { exists F. split_and!; try done. exists (freeList (hctl t)). by destruct t as [[]]. }
  cbn [link_elements]. assert (heap t !! tmp = None) as Hfresh.
  { destruct (heap t !! tmp) eqn:E; [|done]. specialize (Hlt tmp ltac:(eauto)). lia. }
  pose proof (push_fresh t M L F tmp false (junk tmp) (junk tmp) R Hfresh ltac:(lia)) as R'.
  destruct (IH (tmp + size) _ _ R' Hs) as (F' & RF & Hlen & [x Hx] & Hh).
  - intros a. simpl. rewrite lookup_insert_is_Some'. intros [<-|H]; [lia|]. specialize (Hlt a H). lia.
  - simpl. lia.
  - exists F'. split_and!; [done|simpl in Hlen; lia|by exists x|]. intros a Hin. rewrite Hh.
    + simpl. rewrite lookup_insert_ne; [done|]. intros <-. rewrite Hfresh in Hin. by destruct Hin.
    + simpl. rewrite lookup_insert_is_Some'. by right.
Qed.

Lemma maxalign_nonneg x : 0 <= MAXALIGN x.
Proof. apply Z.land_nonneg. left. apply u64_range. Qed.

Lemma element_chunk_spec n t M L F : n <> O -> reprL t M L F ->
  let '(ok, t') := element_chunk alloc_ok junk n t in
  ok = alloc_ok (allocs t) /\ (exists x, hctl t' = set_free x (hctl t)) /\
  (forall a, is_Some (heap t !! a) -> contents t' a = contents t a) /\
  exists F', reprL t' M L F' /\ (ok = true -> F' <> []).
Proof.
  intros Hn R. unfold element_chunk, Dynahash.alloc. destruct (alloc_ok (allocs t)); simpl negb; cbv iota.
  - set (size := MAXALIGN _ + MAXALIGN _). cbn [brk hctl dir heap allocs]; set (t0 := mkHTAB _ _ _ (_ + _) _). set (t1 := link_elements _ _ _ _ _).
    assert (16 <= size) as Hsize.
    { unfold size. pose proof (maxalign_nonneg (entrysize (hctl t))). change (MAXALIGN SIZEOF_HASHELEMENT) with 16. lia. }
    assert (reprL t0 M L F) as R0 by (apply reprL_alloc; [done|lia]).
    destruct (link_elements_spec n size (brk t) t0 M L F R0) as (F' & R1 & Hlen & [x Hx] & Hold);
      [lia|apply R|cbn [t0 brk]; lia|]. fold t1 in R1, Hold, Hx. clearbody t1.
    split; [done|]. split; [by exists x|]. split.
    + intros a Ha. pose proof (Hold a Ha) as Ea. unfold contents. simpl. rewrite lookup_alter. case_decide; [subst|]; rewrite Ea; [|done]. simpl. by destruct (heap t !! _).
    + exists F'. split; [|intros _ ->; simpl in Hlen; lia]. apply (reprL_ext t1); try done; [apply R1|].
      intros a. simpl. rewrite lookup_alter. case_decide; [subst|done]. by destruct (heap t1 !! _).
  - split; [done|]. split; [exists (freeList (hctl t)); by destruct t as [[]]|]. split; [done|].
    exists F. split; [|done]. by apply reprL_alloc.
Qed.

Lemma element_alloc_spec t M L F : reprL t M L F ->
  let '(ok, t') := element_alloc t in
  ok = alloc_ok (allocs t) /\ (exists x, hctl t' = set_free x (hctl t)) /\
  (forall a, is_Some (heap t !! a) -> contents t' a = contents t a) /\
  exists F', reprL t' M L F' /\ (ok = true -> F' <> []).
Proof. by apply element_chunk_spec. Qed.

(** Tables with the same geometry. *)
Lemma load_bucket_ext t t' t0 b : dir t' = dir t0 -> sshift (hctl t') = sshift (hctl t) -> ssize (hctl t') = ssize (hctl t) ->
  load t' (bucket_slot t' b) = load t0 (bucket_slot t b).
Proof. intros Hd Hs Hz. unfold bucket_slot, load. by rewrite Hd, Hs, Hz. Qed.

Lemma call_hash_ext t t' k : max_bucket (hctl t') = max_bucket (hctl t) -> high_mask (hctl t') = high_mask (hctl t) ->
  low_mask (hctl t') = low_mask (hctl t) -> keysize (hctl t') = keysize (hctl t) -> call_hash t' k = call_hash t k.
Proof. intros H1 H2 H3 H4. unfold Dynahash.call_hash. by rewrite H1, H2, H3, H4. Qed.

(** ** Insertion *)

(** The element [e] of the free list becomes the last of a chain. *)
Definition entered (t : HTAB) (prev : loc) (e : Z) (key : list Z) : HTAB :=
  let t := with_hctl t (set_free (load t (Link e)) (hctl t)) in
  let t := store t prev (Some e) in
  let t := store t (Link e) None in
  let t := with_heap t (alter (fun el => mkElem (link el) (freeable el) key (edata el)) e (heap t)) in
  with_hctl t (set_nentries (nentries (hctl t) + 1) (hctl t)).

Lemma entered_eq t prev e key : entered t prev e key =
  let u := store (store t prev (Some e)) (Link e) None in
  with_hctl (with_heap u (alter (fun el => mkElem (link el) (freeable el) key (edata el)) e (heap u)))
    (set_nentries (nentries (hctl t) + 1) (set_free (load t (Link e)) (hctl t))).
Proof. unfold entered. by rewrite !store_hctl. Qed.

Section Enter.
Context (t : HTAB) (M : gmap (list Z) Z) (L : Z -> list Z) (F : list Z) (e : Z) (R : reprL t M L (e :: F)).
Context (k : list Z) (Hk : M !! k = None).

#[local] Notation b := (call_hash t k).
#[local] Notation prev := (last_loc (bucket_slot t b) (L b)).
#[local] Notation u := (store (store t prev (Some e)) (Link e) None).

Lemma enter_in_use : in_use t b.
Proof. apply call_hash_in_use, R. Qed.

Lemma enter_fresh b' : in_use t b' -> e ∉ L b'.
Proof. intros Hb' He. apply (r_disj _ _ _ _ R b' e Hb' He). left. Qed.

Lemma enter_free : load t (Link e) = freeList (set_free (load t (Link e)) (hctl t)) /\ is_Some (heap t !! e) /\ e ∉ F /\
  chain t (load t (Link e)) F.
Proof.
  destruct (r_free _ _ _ _ R) as (_ & He & Hc). split_and!; try done.
  pose proof (r_nodupF _ _ _ _ R) as [? ?]%NoDup_cons. done.
Qed.

Lemma enter_frame : frame (fun x => x = prev \/ x = Link e) t u.
Proof. eapply frame_trans; (eapply frame_mono; [|apply store_frame]); intros y <-; auto. Qed.

Lemma enter_bucket : chain u (load u (bucket_slot t b)) (L b ++ [e]).
Proof.
  pose proof enter_in_use as Hu. destruct (chain_path _ _ _ (r_chain _ _ _ _ R b Hu)) as [Hp _].
  destruct enter_free as (_ & He & _). pose proof (reprL_bucket _ _ _ _ _ R Hu) as Hv.
  pose proof (r_nodup _ _ _ _ R b Hu) as Hnd.
  assert (NoDup (L b ++ [e])) as Hnd'.
  { apply NoDup_app. split; [done|]. split; [|apply NoDup_singleton]. intros a Ha ->%list_elem_of_singleton.
    by eapply enter_fresh. }
  pose proof (path_extend t _ (L b) e Hp Hnd ltac:(done) Hv He) as Hp1.
  pose proof (chain_close _ _ _ Hp1 Hnd' ltac:(done)) as Hc. rewrite last_loc_snoc in Hc. apply Hc.
  by apply (f_valid _ _ _ (store_frame t prev (Some e))).
Qed.

Lemma enter_other b' : in_use t b' -> b' <> b -> chain u (load u (bucket_slot t b')) (L b').
Proof.
  intros Hb' Hne. pose proof enter_in_use as Hu. rewrite (f_load _ _ _ enter_frame).
  - eapply chain_frame; [apply enter_frame| |by apply R]. intros a Ha [Ep|[= ->]].
    + symmetry in Ep. destruct (decide (a ∈ L b)); [|by apply link_neq_last in Ep].
      apply Hne. by eapply (reprL_unique _ _ _ _ b' b a R).
    + by apply (enter_fresh b').
  - intros [Ep|Ep]; [|done]. symmetry in Ep. by apply slot_neq_last in Ep; [|apply R|].
Qed.

Lemma enter_rest : chain u (load t (Link e)) F.
Proof.
  destruct enter_free as (_ & _ & HeF & Hc). eapply chain_frame; [apply enter_frame| |done].
  intros a Ha [Ep|[= ->]]; [|done]. symmetry in Ep. apply link_neq_last in Ep; [done|].
  intros Hl. apply (r_disj _ _ _ _ R b a enter_in_use Hl). by right.
Qed.

Lemma entered_keyof a : keyof (entered t prev e k) a = if decide (a = e) then Some k else keyof t a.
Proof.
  rewrite entered_eq. pose proof enter_frame as Hf.
  assert (is_Some (heap u !! e)) as [el Hel] by (apply (f_valid _ _ _ Hf (Link e)), enter_free).
  revert Hf Hel. generalize u. intros v Hf Hel. unfold keyof at 1. simpl. case_decide as Ha; [subst a|].
  - by rewrite lookup_alter_eq, Hel.
  - rewrite lookup_alter_ne by done. apply (frame_keyof _ _ _ a Hf).
Qed.

Lemma entered_contents a : a <> e -> contents (entered t prev e k) a = contents t a.
Proof.
  intros Ha. rewrite entered_eq. pose proof enter_frame as Hf. revert Hf. generalize u. intros v Hf.
  unfold contents at 1. simpl. rewrite lookup_alter_ne by done. apply (frame_contents _ _ _ a Hf).
Qed.

Lemma entered_chain p l : chain u p l -> chain (entered t prev e k) p l.
Proof.
  rewrite entered_eq. generalize u. intros v. apply chain_ext. intros a _. simpl. rewrite lookup_alter.
  case_decide; [subst|done]. by destruct (heap v !! _).
Qed.

Lemma entered_repr : reprL (entered t prev e k) (<[k := e]> M) (upd L b (L b ++ [e])) F.
Proof.
  pose proof enter_in_use as Hu. pose proof enter_frame as Hf.
  assert (hctl (entered t prev e k) = set_nentries (nentries (hctl t) + 1) (set_free (load t (Link e)) (hctl t))) as Hh
    by (by rewrite entered_eq).
  assert (dir (entered t prev e k) = dir u) as Hd by (by rewrite entered_eq).
  assert (forall b', load (entered t prev e k) (bucket_slot (entered t prev e k) b') = load u (bucket_slot t b')) as Hl
    by (intros b'; apply load_bucket_ext; by rewrite ?Hh).
  assert (forall b', in_use (entered t prev e k) b' -> in_use t b') as Hin by (intros b'; unfold in_use; by rewrite Hh).
  assert (forall k', call_hash (entered t prev e k) k' = call_hash t k') as Hch
    by (intros k'; apply call_hash_ext; by rewrite Hh).
  assert (forall b' a, a ∈ upd L b (L b ++ [e]) b' <-> a ∈ L b' \/ (b' = b /\ a = e)) as Hupd.
  { intros b' a. destruct (decide (b' = b)) as [->|Hne]; [rewrite upd_eq|rewrite upd_ne by done]; set_solver. }
  split.
  - rewrite Hh, Hd. pose proof (f_geom _ _ _ Hf (r_geom _ _ _ _ R)) as G. rewrite (f_hctl _ _ _ Hf) in G. by destruct G.
  - intros b' Hb'. rewrite Hl. apply entered_chain.
    destruct (decide (b' = b)) as [->|Hne]; [rewrite upd_eq; apply enter_bucket|rewrite upd_ne by done; apply enter_other; auto].
  - rewrite Hh. apply entered_chain, enter_rest.
  - intros b' Hb'%Hin. destruct (decide (b' = b)) as [->|Hne]; [rewrite upd_eq|rewrite upd_ne by done; by apply R].
    apply NoDup_app. split; [by apply R|]. split; [|apply NoDup_singleton]. intros a Ha ->%list_elem_of_singleton.
    by eapply enter_fresh.
  - by pose proof (r_nodupF _ _ _ _ R) as [_ ?]%NoDup_cons.
  - intros b' a Hb'%Hin [Ha|[-> ->]]%Hupd; [|by apply enter_free].
    pose proof (r_disj _ _ _ _ R b' a Hb' Ha). set_solver.
  - intros b' a Hb'%Hin Ha%Hupd. rewrite entered_keyof. case_decide as He.
    + subst a. destruct Ha as [Ha|[-> _]]; [by apply enter_fresh in Ha|]. exists k. by rewrite Hch, lookup_insert_eq.
    + destruct Ha as [Ha|[_ ?]]; [|done]. destruct (r_in _ _ _ _ R b' a Hb' Ha) as (k' & H1 & H2 & H3).
      exists k'. rewrite Hch, lookup_insert_ne by congruence. done.
  - intros k' a. rewrite Hch, Hupd, entered_keyof. destruct (decide (k' = k)) as [->|Hne].
    + rewrite lookup_insert_eq. intros [= <-]. rewrite decide_True by done. auto.
    + rewrite lookup_insert_ne by done. intros Hka. destruct (r_map _ _ _ _ R _ _ Hka) as [Ha Hkey].
      rewrite decide_False; [auto|]. intros ->. apply (enter_fresh (call_hash t k')); [|done]. apply call_hash_in_use, R.
  - rewrite Hh. simpl. rewrite (r_count _ _ _ _ R), map_size_insert_None by done. lia.
  - intros a Ha. rewrite entered_eq in *. cbn [heap brk with_hctl with_heap] in *. rewrite lookup_alter_is_Some, !store_dom in Ha.
    rewrite (proj1 (f_alloc _ _ _ Hf)). by apply (r_brk _ _ _ _ R).
Qed.
End Enter.

(** ** Expansion *)

(** A change of the directory that keeps the segments in use. *)
Lemma reprL_dir t M L F h d n : reprL t M L F -> geom h d -> same_hdr (hctl t) h ->
  sshift h = sshift (hctl t) -> ssize h = ssize (hctl t) ->
  (forall s, 0 <= s < nsegs (hctl t) -> aget None d s = aget None (dir t) s) ->
  reprL (mkHTAB h d (heap t) (brk t) n) M L F.
Proof.
  intros R G Hs H1 H2 Hd. apply (reprL_ext t); try done. intros b Hb.
  assert (bucket_slot (mkHTAB h d (heap t) (brk t) n) b = bucket_slot t b) as ->
    by (unfold bucket_slot; simpl; by rewrite H1, H2).
  rewrite (bucket_slot_eq _ _ _ _ (r_geom _ _ _ _ R) eq_refl). simpl. rewrite Hd; [done|].
  pose proof (ssize_pos _ _ (r_geom _ _ _ _ R)). pose proof (g_max _ _ (r_geom _ _ _ _ R)). destruct Hb.
  split; [apply Z.div_pos; lia|]. apply Z.div_lt_upper_bound; lia.
Qed.

Lemma geom_dsize h d d' n : geom h d -> Zlen d' = n -> nsegs h <= n ->
  (forall s, 0 <= s < nsegs h -> aget None d' s = aget None d s) -> geom (set_dsize n h) d'.
Proof.
  intros [] Hn Hle Hd. split; simpl; try done; [lia|]. intros s Hs. rewrite Hd by done. by apply g_segs.
Qed.

Lemma geom_segment h d : geom h d -> nsegs h < dsize h ->
  geom (set_nsegs (nsegs h + 1) h) (aset d (nsegs h) (Some (replicate (Z.to_nat (ssize h)) None))).
Proof.
  intros G Hlt. pose proof (ssize_pos _ _ G). destruct G. split; simpl; try done; [by rewrite aset_length|lia| |nia].
  intros s Hs. rewrite aget_inj_aset. destruct (Z.eqb_spec s (nsegs h)) as [->|Hne]; simpl.
  - destruct (Z.leb_spec 0 (nsegs h)), (Z.ltb_spec (nsegs h) (Zlen d)); simpl; try lia.
    eexists. split; [done|]. rewrite length_replicate. lia.
  - apply g_segs. lia.
Qed.

Lemma geom_aset_None h d : geom h d -> geom h (aset d (nsegs h) None).
Proof.
  intros []. split; simpl; try done; [by rewrite aset_length|]. intros s Hs. rewrite aget_aset_ne by lia. by apply g_segs.
Qed.

Lemma aget_app_lt {A} (d : A) l l' i : i < Zlen l -> aget d (l ++ l') i = aget d l i.
Proof. intros Hi. unfold aget. case_match; [done|]. by rewrite lookup_app_l by lia. Qed.

Lemma dir_realloc_spec t M L F : reprL t M L F -> nsegs (hctl t) = dsize (hctl t) ->
  let '(ok, t') := dir_realloc alloc_ok t in
  reprL t' M L F /\ heap t' = heap t /\ max_bucket (hctl t') = max_bucket (hctl t) /\ nsegs (hctl t') = nsegs (hctl t) /\
  ssize (hctl t') = ssize (hctl t) /\ (ok = true -> nsegs (hctl t') < dsize (hctl t')).
Proof.
  intros R Hn. unfold dir_realloc. destruct (negb _); [by split_and!|]. unfold Dynahash.alloc.
  pose proof (r_geom _ _ _ _ R) as G. pose proof (g_nsegs _ _ G). pose proof (g_dir _ _ G) as Hd.
  rewrite Z.shiftl_mul_pow2 by lia. change (2 ^ 1) with 2. destruct (alloc_ok (allocs t)); simpl.
  - split_and!; try done; [|lia]. apply (reprL_dir t); try done.
    + apply (geom_dsize _ (dir t)); [done| |lia|].
      * simpl; rewrite length_app, length_replicate. lia.
      * intros s Hs. apply aget_app_lt. lia.
    + intros s Hs. apply aget_app_lt. lia.
  - split_and!; try done. by apply reprL_alloc.
Qed.

Lemma seg_alloc_spec t M L F : reprL t M L F -> nsegs (hctl t) < dsize (hctl t) ->
  let '(seg, t1) := seg_alloc alloc_ok t in
  let t2 := with_dir t1 (aset (dir t1) (nsegs (hctl t)) seg) in
  heap t2 = heap t /\ hctl t2 = hctl t /\
  match seg with
  | None => reprL t2 M L F
  | Some _ => reprL (with_hctl t2 (set_nsegs (nsegs (hctl t2) + 1) (hctl t2))) M L F
  end.
Proof.
  intros R Hlt. unfold seg_alloc, Dynahash.alloc. pose proof (r_geom _ _ _ _ R) as G.
  destruct (alloc_ok (allocs t)); simpl; (split_and!; [done|done|]); apply (reprL_dir t); try done;
    try (by apply geom_segment); try (by apply geom_aset_None); intros s Hs; apply aget_aset_ne; lia.
Qed.

Lemma add_segment_spec t M L F : reprL t M L F ->
  let '(ok, t') := add_segment alloc_ok (Z.shiftr (max_bucket (hctl t) + 1) (sshift (hctl t))) t in
  reprL t' M L F /\ heap t' = heap t /\ max_bucket (hctl t') = max_bucket (hctl t) /\
  (ok = true -> max_bucket (hctl t') + 1 < nsegs (hctl t') * ssize (hctl t')).
Proof.
  intros R. pose proof (r_geom _ _ _ _ R) as G. pose proof (ssize_pos _ _ G) as Hs. pose proof (g_max _ _ G) as Hm.
  rewrite Z.shiftr_div_pow2 by apply G. rewrite <- (g_ssize _ _ G). unfold add_segment.
  set (sn := (max_bucket (hctl t) + 1) / ssize (hctl t)).
  assert (sn <= nsegs (hctl t)) as Hsn by (apply Z.div_le_upper_bound; lia).
  destruct (Z.geb_spec sn (nsegs (hctl t))).
  - assert (sn = nsegs (hctl t)) as -> by lia. pose proof (g_nsegs _ _ G).
    assert (let '(ok, t') := if nsegs (hctl t) >=? dsize (hctl t) then dir_realloc alloc_ok t else (true, t) in
      reprL t' M L F /\ heap t' = heap t /\ max_bucket (hctl t') = max_bucket (hctl t) /\ nsegs (hctl t') = nsegs (hctl t) /\
      ssize (hctl t') = ssize (hctl t) /\ (ok = true -> nsegs (hctl t') < dsize (hctl t'))) as Hr.
    { destruct (Z.geb_spec (nsegs (hctl t)) (dsize (hctl t))); [apply dir_realloc_spec; [done|lia]|]. by split_and!. }
    destruct (if nsegs (hctl t) >=? dsize (hctl t) then dir_realloc alloc_ok t else (true, t)) as [ok t1]. destruct Hr as (R1 & H1 & H2 & H3 & H4 & H5). destruct ok; cbn [negb]; [|done].
    pose proof (seg_alloc_spec t1 M L F R1 (H5 eq_refl)) as Hg. rewrite <- H3. destruct (seg_alloc alloc_ok t1) as [[seg|] t2];
      simpl in Hg; destruct Hg as (Hh & Hc & Rg); simpl.
    + split_and!; [done|congruence|congruence|]. intros _. rewrite Hc. nia.
    + split_and!; [done|congruence|congruence|done].
  - split_and!; try done. intros _. unfold sn in *.
    pose proof (Z.div_mod (max_bucket (hctl t) + 1) (ssize (hctl t))). pose proof (Z.mod_pos_bound (max_bucket (hctl t) + 1) (ssize (hctl t))). nia.
Qed.

Section Split.
Context (t : HTAB) (M : gmap (list Z) Z) (L : Z -> list Z) (F : list Z) (R : reprL t M L F).
Context (Hseg : max_bucket (hctl t) + 1 < nsegs (hctl t) * ssize (hctl t)) (Hmax : max_bucket (hctl t) + 1 < 2 ^ 32).

#[local] Notation nb := (max_bucket (hctl t) + 1).
#[local] Notation ob := (Z.land (max_bucket (hctl t) + 1) (low_mask (hctl t))).
#[local] Notation t2 := (with_hctl t (grown (hctl t))).

(** The fields the expansion keeps. *)
Lemma grown_fields h : sshift (grown h) = sshift h /\ ssize (grown h) = ssize h /\ keysize (grown h) = keysize h /\
  nentries (grown h) = nentries h /\ freeList (grown h) = freeList h /\ nsegs (grown h) = nsegs h /\
  dsize (grown h) = dsize h /\ ffactor (grown h) = ffactor h /\ entrysize (grown h) = entrysize h /\ max_bucket (grown h) = max_bucket h + 1.
Proof. unfold grown. by case_match. Qed.

Lemma grown_geom : geom (grown (hctl t)) (dir t).
Proof.
  pose proof (r_geom _ _ _ _ R) as G. destruct (grown_masks _ _ G Hmax) as (Hm & n & Hn).
  destruct (grown_fields (hctl t)) as (E1 & E2 & _ & _ & _ & E6 & E7 & E8 & E9 & E10).
  pose proof (g_max _ _ G). destruct G. split; rewrite ?E1, ?E2, ?E6, ?E7, ?E8, ?E9; try done; [lia|].
  exists n. rewrite Hm in Hn. by rewrite E10.
Qed.

Lemma old_in_use : in_use t ob.
Proof.
  pose proof (r_geom _ _ _ _ R) as G. destruct (g_masks _ _ G) as (n & Hn & Hl & Hh & Hm).
  pose proof (g_max _ _ G). pose proof (Z.pow_pos_nonneg 2 n).
  rewrite Hl, land_pow2_sub by lia. pose proof (Z.mod_pos_bound nb (2 ^ n)). unfold in_use. lia.
Qed.

Lemma call_hash_grown k : call_hash t2 k = call_hash t k \/ (call_hash t k = ob /\ call_hash t2 k = nb).
Proof.
  rewrite (call_hash_masked _ t2) by apply grown_geom. rewrite call_hash_masked by apply R. simpl.
  destruct (grown_fields (hctl t)) as (_ & _ & -> & _). apply (masked_split _ _ _ (r_geom _ _ _ _ R) Hmax).
Qed.

Definition split_L (b : Z) : list Z :=
  if b =? ob then base.filter (fun a => belongs hash t2 ob a = true) (L ob)
  else if b =? nb then base.filter (fun a => belongs hash t2 ob a = false) (L ob)
  else L b.

Lemma split_L_old b a : (b = nb \/ in_use t b) -> a ∈ split_L b ->
  exists b0, in_use t b0 /\ a ∈ L b0 /\ (b = b0 \/ b0 = ob).
Proof.
  intros Hb. unfold split_L. destruct (Z.eqb_spec b ob) as [->|]; [|destruct (Z.eqb_spec b nb) as [->|]].
  - intros [_ Ha]%list_elem_of_filter. exists ob. auto using old_in_use.
  - intros [_ Ha]%list_elem_of_filter. exists ob. auto using old_in_use.
  - destruct Hb; [done|]. eauto.
Qed.

Lemma in_use_grown t' b : hctl t' = grown (hctl t) -> in_use t' b -> b = nb \/ in_use t b.
Proof. unfold in_use. intros ->. destruct (grown_fields (hctl t)) as (_ & _ & _ & _ & _ & _ & _ & _ & _ & ->). lia. Qed.

Lemma slot_grown b : bucket_slot t2 b = bucket_slot t b.
Proof. unfold bucket_slot. simpl. by destruct (grown_fields (hctl t)) as (-> & -> & _). Qed.

Lemma belongs_key a k b : keyof t a = Some k -> belongs hash t2 b a = (call_hash t2 k =? b).
Proof. intros Hk. unfold belongs. change (keyof t2 a) with (keyof t a). by rewrite Hk. Qed.

Lemma split_in b a : (b = nb \/ in_use t b) -> a ∈ split_L b -> exists k, keyof t a = Some k /\ call_hash t2 k = b /\ M !! k = Some a.
Proof.
  intros Hb Ha. destruct (split_L_old b a Hb Ha) as (b0 & Hb0 & Ha0 & Hor).
  destruct (r_in _ _ _ _ R b0 a Hb0 Ha0) as (k & Hk & Hh & Hm). exists k. split_and!; try done.
  unfold split_L in Ha. destruct (Z.eqb_spec b ob) as [->|Hne]; [|destruct (Z.eqb_spec b nb) as [->|Hne']].
  - apply list_elem_of_filter in Ha as [Hbl _]. rewrite (belongs_key a k) in Hbl by done. by apply Z.eqb_eq in Hbl.
  - apply list_elem_of_filter in Ha as [Hbl Ha]. rewrite (belongs_key a k) in Hbl by done. apply Z.eqb_neq in Hbl.
    assert (b0 = ob) by (apply (reprL_unique _ _ _ _ b0 ob a R); try done; apply old_in_use).
    destruct (call_hash_grown k) as [E|[_ E]]; congruence.
  - assert (b = b0) as -> by (destruct Hb; [done|]; by apply (reprL_unique _ _ _ _ b b0 a R)).
    destruct (call_hash_grown k) as [E'|[E' _]]; congruence.
Qed.

Lemma split_map k a : M !! k = Some a -> a ∈ split_L (call_hash t2 k).
Proof.
  intros Hk. destruct (r_map _ _ _ _ R _ _ Hk) as [Ha Hka]. unfold split_L. pose proof old_in_use as Ho. unfold in_use in Ho.
  destruct (call_hash_grown k) as [E|[E1 E2]].
  - rewrite E. destruct (Z.eqb_spec (call_hash t k) ob) as [E'|Hne].
    + apply list_elem_of_filter. rewrite E' in Ha. rewrite (belongs_key a k), E, E', Z.eqb_refl by done. done.
    + destruct (Z.eqb_spec (call_hash t k) nb) as [E'|]; [|done].
      pose proof (call_hash_in_use t k (r_geom _ _ _ _ R)) as Hu. unfold in_use in Hu. lia.
  - rewrite E2. destruct (Z.eqb_spec nb ob); [lia|]. rewrite Z.eqb_refl. rewrite E1 in Ha. apply list_elem_of_filter.
    rewrite (belongs_key a k), E2 by done. split; [|done]. by apply Z.eqb_neq.
Qed.

Lemma split_repr : let t' := relocate hash (S (size (heap t2))) t2 ob (bucket_slot t2 ob) (bucket_slot t2 nb) (load t2 (bucket_slot t2 ob)) in
  reprL t' M split_L F /\ forall a, contents t' a = contents t a.
Proof.
  intros t'. pose proof old_in_use as Ho. pose proof grown_geom as G2.
  assert (Hne : bucket_slot t2 ob <> bucket_slot t2 nb) by (intros E%bucket_slot_inj; [unfold in_use in Ho; lia|done]).
  destruct (relocate_spec hash (S (size (heap t2))) t2 ob (bucket_slot t2 ob) (bucket_slot t2 nb) [] [] (L ob)
    (load t2 (bucket_slot t2 ob))) as (H1 & H2 & H3); try done.
  { rewrite slot_grown. apply (bucket_slot_valid t); [apply R|]. pose proof (g_max _ _ (r_geom _ _ _ _ R)). unfold in_use in Ho. lia. }
  { rewrite slot_grown. apply (bucket_slot_valid t); [apply R|]. pose proof (g_max _ _ (r_geom _ _ _ _ R)). lia. }
  { by apply R. }
  { rewrite slot_grown, load_hctl. apply chain_hctl. by apply R. }
  { pose proof (chain_length _ _ _ (r_chain _ _ _ _ R ob Ho) (r_nodup _ _ _ _ R ob Ho)). simpl. lia. }
  cbn [last_loc app] in H1, H2, H3. fold t' in H1, H2, H3. clearbody t'. split; [|intros a; apply (frame_contents _ _ _ a H3)].
  pose proof (f_hctl _ _ _ H3) as Hh. simpl in Hh.
  assert (forall b, in_use t' b -> b = nb \/ in_use t b) as Hin by (intros b; by apply in_use_grown).
  assert (forall b, bucket_slot t' b = bucket_slot t2 b) as Hslot by (intros b; unfold bucket_slot; by rewrite Hh).
  assert (forall k, call_hash t' k = call_hash t2 k) as Hch by (intros k; by apply call_hash_hctl).
  destruct (grown_fields (hctl t)) as (_ & _ & _ & En & Ef & _).
  split.
  - by apply (f_geom _ _ _ H3).
  - intros b Hb. rewrite Hslot. unfold split_L. destruct (Z.eqb_spec b ob) as [->|Hno]; [done|].
    destruct (Z.eqb_spec b nb) as [->|Hnn]; [done|]. destruct (Hin b Hb) as [|Hu]; [done|].
    rewrite (f_load _ _ _ H3).
    + rewrite slot_grown, load_hctl. eapply chain_frame; [apply H3| |by apply chain_hctl, R].
      intros a Ha [E|[E|(c & Hc & [= <-])]]; [done|done|]. apply Hno. by apply (reprL_unique _ _ _ _ b ob a R).
    + intros [E|[E|(c & _ & E)]]; [| |done]; by apply bucket_slot_inj in E.
  - rewrite Hh, Ef. eapply chain_frame; [apply H3| |apply chain_hctl, R].
    intros a Ha [E|[E|(c & Hc & [= <-])]]; [done|done|]. by apply (r_disj _ _ _ _ R ob a).
  - intros b Hb. unfold split_L. destruct (Z.eqb_spec b ob); [by apply NoDup_filter, R|].
    destruct (Z.eqb_spec b nb); [by apply NoDup_filter, R|]. apply R. by destruct (Hin b Hb).
  - apply R.
  - intros b a Hb%Hin Ha. destruct (split_L_old b a Hb Ha) as (b0 & Hb0 & Ha0 & _). by apply (r_disj _ _ _ _ R b0).
  - intros b a Hb%Hin Ha. destruct (split_in b a Hb Ha) as (k & Hk & Hk2 & Hm). exists k.
    rewrite (frame_keyof _ _ _ a H3), Hch. done.
  - intros k a Hk. rewrite Hch, (frame_keyof _ _ _ a H3). split; [by apply split_map|]. by apply (r_map _ _ _ _ R).
  - rewrite Hh, En. apply R.
  - intros a Ha. destruct (f_alloc _ _ _ H3) as [-> _]. apply (r_brk _ _ _ _ R).
    by apply (frame_dom _ _ _ a H3) in Ha.
Qed.
End Split.

Lemma expand_spec t M L F : reprL t M L F -> max_bucket (hctl t) + 1 < 2 ^ 32 ->
  repr (snd (expand_table t)) M /\ forall a, contents (snd (expand_table t)) a = contents t a.
Proof.
  intros R Hmax. unfold Dynahash.expand_table. pose proof (add_segment_spec t M L F R) as Ha.
  destruct (add_segment alloc_ok _ t) as [ok t1]. destruct Ha as (R1 & Hh & Hm & Hs).
  destruct ok; cbn [negb]; [|simpl; split; [by exists L, F|]; unfold contents; by rewrite Hh].
  specialize (Hs eq_refl). rewrite <- Hm in *. pose proof (split_repr t1 M L F R1 Hs Hmax) as [R2 Hc].
  unfold contents in *. rewrite <- Hh. unfold grown in R2, Hc.
  destruct (max_bucket (hctl t1) + 1 >? high_mask (hctl t1)); (split; [eexists _, _; exact R2|exact Hc]).
Qed.

(** ** The operations *)

(** What [hash_search] does to a table that represents [M]. *)
Definition search_spec_of (t : HTAB) (M : gmap (list Z) Z) (k : list Z) : Prop :=
  let found := bool_decide (M !! k <> None) in
  hash_search t k HASH_FIND = Ok (t, M !! k, found) /\
  (exists t', hash_search t k HASH_REMOVE = Ok (t', M !! k, found) /\ repr t' (delete k M) /\
     forall a, contents t' a = contents t a) /\
  (exists t' r, hash_search t k HASH_ENTER = Ok (t', r, found) /\
     match M !! k with
     | Some a => r = Some a /\ t' = t
     | None =>
       match r with
       | None => alloc_ok (allocs t) = false /\ repr t' M /\ forall k' a, M !! k' = Some a -> contents t' a = contents t a
       | Some a => (forall k', M !! k' <> Some a) /\ keyof t' a = Some k /\ repr t' (<[k := a]> M) /\
                   forall k' a', M !! k' = Some a' -> contents t' a' = contents t a'
       end
     end).

Lemma map_in_heap t M L F k a : reprL t M L F -> M !! k = Some a -> is_Some (heap t !! a).
Proof.
  intros R Hk. destruct (r_map _ _ _ _ R _ _ Hk) as [Ha _]. eapply bucket_in_heap; [done| |done]. apply call_hash_in_use, R.
Qed.

Lemma enter_step t M L F k e : reprL t M L (e :: F) -> M !! k = None -> Z.of_nat (size M) + 1 < 2 ^ 32 ->
  let t1 := entered t (last_loc (bucket_slot t (call_hash t k)) (L (call_hash t k))) e k in
  let t' := if nentries (hctl t1) / (max_bucket (hctl t1) + 1) >? ffactor (hctl t1) then snd (expand_table t1) else t1 in
  (forall k', M !! k' <> Some e) /\ keyof t' e = Some k /\ repr t' (<[k := e]> M) /\
  forall k' a', M !! k' = Some a' -> contents t' a' = contents t a'.
Proof.
  intros R Hk Hsize t1 t'. assert (forall k', M !! k' <> Some e) as Hnew.
  { intros k' Hk'. destruct (r_map _ _ _ _ R _ _ Hk') as [Ha _]. apply (r_disj _ _ _ _ R (call_hash t k') e); [|done|left].
    apply call_hash_in_use, R. }
  pose proof (entered_repr t M L F e R k Hk) as R1. fold t1 in R1.
  assert (keyof t1 e = Some k) as Hkey1 by (unfold t1; rewrite (entered_keyof t M L F e R k); by rewrite decide_True).
  assert (forall k' a', M !! k' = Some a' -> contents t1 a' = contents t a') as Hc1.
  { intros k' a' Hk'. apply entered_contents. intros ->. by eapply Hnew. }
  clearbody t1. unfold t'. destruct (Z.gtb_spec (nentries (hctl t1) / (max_bucket (hctl t1) + 1)) (ffactor (hctl t1))) as [Hgt|].
  - pose proof (r_geom _ _ _ _ R1) as G. pose proof (g_ffactor _ _ G). pose proof (g_max _ _ G).
    assert (max_bucket (hctl t1) + 1 < 2 ^ 32) as Hmax.
    { rewrite (r_count _ _ _ _ R1), map_size_insert_None in Hgt by done.
      assert (2 <= Z.of_nat (S (size M)) / (max_bucket (hctl t1) + 1)) as H2 by lia.
      pose proof (Z.mul_div_le (Z.of_nat (S (size M))) (max_bucket (hctl t1) + 1) ltac:(lia)). nia. }
    destruct (expand_spec t1 _ _ _ R1 Hmax) as [R2 Hc2]. split_and!; try done.
    + by rewrite (contents_keyof t1) by auto.
    + intros k' a' Hk'. rewrite Hc2. eauto.
  - split_and!; try done. by eexists _, _.
Qed.

(** [hash_search] after its search loop. *)
Lemma hash_search_eq t M L F k : reprL t M L F -> exists l1 l2,
  L (call_hash t k) = l1 ++ l2 /\ head l2 = M !! k /\ forall act,
hash_search t k act =
    match act, M !! k with
    | HASH_FIND, _ => Ok (t, M !! k, bool_decide (M !! k <> None))
    | HASH_REMOVE, Some e => Ok (unlinked t (last_loc (bucket_slot t (call_hash t k)) l1) e, Some e, bool_decide (M !! k <> None))
    | HASH_REMOVE, None => Ok (t, None, bool_decide (M !! k <> None))
    | HASH_ENTER, Some e => Ok (t, Some e, bool_decide (M !! k <> None))
    | HASH_ENTER, None =>
      let '(ok, t0) := match freeList (hctl t) with None => element_alloc t | Some _ => (true, t) end in
      if negb ok then Ok (t0, None, bool_decide (M !! k <> None))
      else match freeList (hctl t0) with
      | None => Err "Assert(currBucket != NULL)"
      | Some e =>
        let t1 := entered t0 (last_loc (bucket_slot t (call_hash t k)) l1) e k in
        Ok (if nentries (hctl t1) / (max_bucket (hctl t1) + 1) >? ffactor (hctl t1) then snd (expand_table t1) else t1,
            Some e, bool_decide (M !! k <> None))
      end
    end.
Proof.
  intros R. destruct (search_spec t M L F k R) as (l1 & l2 & El & Hh & [seg Hseg] & Hf).
  exists l1, l2. split_and!; [done|done|]. intros act. unfold Dynahash.hash_search. unfold bucket_slot at 1.
  rewrite Hseg. cbv zeta. rewrite Hf. by destruct act.
Qed.

Lemma hash_search_remove t M L F k e : reprL t M L F -> M !! k = Some e ->
  exists l1 l2, L (call_hash t k) = l1 ++ e :: l2 /\
    let t' := unlinked t (last_loc (bucket_slot t (call_hash t k)) l1) e in
    hash_search t k HASH_REMOVE = Ok (t', Some e, true) /\
    reprL t' (delete k M) (upd L (call_hash t k) (l1 ++ l2)) (e :: F) /\ forall a, contents t' a = contents t a.
Proof.
  intros R Hk. destruct (hash_search_eq t M L F k R) as (l1 & [|e' l2] & El & Hh & Hs); rewrite Hk in Hh; [done|].
  injection Hh as ->. pose proof (call_hash_in_use t k (r_geom _ _ _ _ R)) as Hu. exists l1, l2. split; [done|]. cbv zeta. split_and!.
  - rewrite Hs, Hk, bool_decide_eq_true_2; [reflexivity|discriminate].
  - by apply unlinked_repr.
  - intros a. rewrite unlinked_eq. apply (frame_contents _ _ _ a (unlink_frame t (call_hash t k) e l1)).
Qed.

Lemma hash_search_spec t M k : repr t M -> Z.of_nat (size M) + 1 < 2 ^ 32 -> search_spec_of t M k.
Proof.
  intros (L & F & R) Hsize. destruct (hash_search_eq t M L F k R) as (l1 & l2 & El & Hh & Hs).
  split; [apply Hs|]. split.
  - destruct (M !! k) as [e|] eqn:Ek.
    + destruct (hash_search_remove t M L F k e R Ek) as (m1 & m2 & _ & H1 & H2 & H3).
      rewrite bool_decide_eq_true_2 by done. eexists. split; [exact H1|]. split; [by eexists _, _|done].
    + rewrite Hs. eexists. split; [done|]. rewrite delete_id by done. split; [by exists L, F|done].
  - rewrite Hs. destruct (M !! k) as [e|] eqn:Ek; [by eexists _, _|].
    assert (l1 = L (call_hash t k)) as -> by (destruct l2; [by rewrite El, app_nil_r|done]).
    assert (let '(ok, t0) := match freeList (hctl t) with None => element_alloc t | Some _ => (true, t) end in
      (ok = false -> alloc_ok (allocs t) = false) /\ (exists x, hctl t0 = set_free x (hctl t)) /\
      (forall k' a, M !! k' = Some a -> contents t0 a = contents t a) /\
      exists F', reprL t0 M L F' /\ (ok = true -> F' <> [])) as Ha.
    { destruct (freeList (hctl t)) as [e|] eqn:Ef.
      - split_and!; [done|exists (freeList (hctl t)); by destruct t as [[]]|done|]. exists F. split; [done|]. intros _ ->.
        pose proof (r_free _ _ _ _ R) as Hc. simpl in Hc. congruence.
      - pose proof (element_alloc_spec t M L F R) as Ha. destruct (element_alloc t) as [ok t0].
        destruct Ha as (-> & Hx & Hc & HF). split_and!; try done. intros k' a Hk'. apply Hc. by eapply map_in_heap. }
    destruct (match freeList (hctl t) with None => element_alloc t | Some _ => (true, t) end) as [ok t0].
    destruct Ha as (Hok & [x Hx] & Hc & F' & R0 & HF). destruct ok; cbn [negb].
    + specialize (HF eq_refl). destruct F' as [|e F']; [done|]. pose proof (r_free _ _ _ _ R0) as [-> _].
      assert (bucket_slot t (call_hash t k) = bucket_slot t0 (call_hash t0 k)) as ->.
      { rewrite (call_hash_ext t t0) by (by rewrite Hx). unfold bucket_slot. by rewrite Hx. }
      assert (L (call_hash t k) = L (call_hash t0 k)) as -> by (by rewrite (call_hash_ext t t0) by (by rewrite Hx)).
      eexists _, _. split; [done|]. destruct (enter_step t0 M L F' k e R0 Ek Hsize) as (H1 & H2 & H3 & H4).
      split_and!; try done. intros k' a' Hk'. rewrite (H4 k' a' Hk'). by apply (Hc k').
    + eexists _, _. split; [done|]. split_and!; [auto|by exists L, F'|done].
Qed.

(** ** Creation *)

Lemma log2_loop_spec fuel num i : 0 <= i -> num <= 2 ^ (i + Z.of_nat fuel) ->
  let k := log2_loop fuel num i (2 ^ i) in
  i <= k <= i + Z.of_nat fuel /\ num <= 2 ^ k /\ (i < k -> 2 ^ (k - 1) < num).
Proof.
  revert i. induction fuel as [|n IH]; intros i Hi Hn; cbn [log2_loop].
  - rewrite Z.add_0_r in Hn. lia.
  - destruct (Z.ltb_spec (2 ^ i) num) as [Hlt|Hge]; [|lia].
    replace (Z.shiftl (2 ^ i) 1) with (2 ^ (i + 1)) by (rewrite Z.shiftl_mul_pow2, Z.pow_add_r; lia).
    destruct (IH (i + 1)) as (H1 & H2 & H3); [lia| |].
    + replace (i + 1 + Z.of_nat n) with (i + Z.of_nat (S n)) by lia. done.
    + split_and!; [lia..|done|]. intros _. destruct (Z.eq_dec (log2_loop n num (i + 1) (2 ^ (i + 1))) (i + 1)) as [E|].
      * rewrite E. by replace (i + 1 - 1) with i by lia.
      * apply H3. lia.
Qed.

Lemma my_log2_spec num m : num <= 2 ^ m -> 0 <= m <= 63 ->
  0 <= my_log2 num <= m /\ num <= 2 ^ my_log2 num /\ (0 < my_log2 num -> 2 ^ (my_log2 num - 1) < num).
Proof.
  intros Hn Hm. destruct (log2_loop_spec 63 num 0 ltac:(lia)) as (H1 & H2 & H3).
  { etransitivity; [done|]. apply Z.pow_le_mono_r; lia. }
  change (log2_loop 63 num 0 (2 ^ 0)) with (my_log2 num) in *. split_and!; try done; [lia|].
  destruct (Z.lt_ge_cases m (my_log2 num)) as [Hlt|]; [|done]. specialize (H3 ltac:(lia)).
  assert (2 ^ m <= 2 ^ (my_log2 num - 1)) by (apply Z.pow_le_mono_r; lia). lia.
Qed.

(** The parameters of the header are sensible. *)
Record hdr_ok (h : HASHHDR) : Prop := {
  h_shift : 0 <= sshift h; h_ssize : ssize h = 2 ^ sshift h; h_dsize : 1 <= dsize h;
  h_ffactor : 1 <= ffactor h; h_entry : 0 <= entrysize h;
  h_new : nsegs h = 0 /\ nentries h = 0 /\ freeList h = None;
}.

(** The number of segments of a new table. *)
Definition init_nsegs (h : HASHHDR) (nelem : Z) : Z :=
  let nbuckets := 2 ^ my_log2 (Z.quot (nelem - 1) (ffactor h) + 1) in
  2 ^ my_log2 (Z.quot (nbuckets - 1) (ssize h) + 1).

Lemma init_segs_spec n t : nsegs (hctl t) + Z.of_nat n <= Zlen (dir t) -> 0 <= nsegs (hctl t) ->
  (forall s, 0 <= s < nsegs (hctl t) -> aget None (dir t) s = Some (replicate (Z.to_nat (ssize (hctl t))) None)) ->
  let '(ok, t') := init_segs alloc_ok n t in
  ((forall i, alloc_ok i = true) -> ok = true) /\
  (ok = true -> hctl t' = set_nsegs (nsegs (hctl t) + Z.of_nat n) (hctl t) /\ heap t' = heap t /\ Zlen (dir t') = Zlen (dir t) /\
    forall s, 0 <= s < nsegs (hctl t) + Z.of_nat n -> aget None (dir t') s = Some (replicate (Z.to_nat (ssize (hctl t))) None)).
Proof.
  revert t. induction n as [|n IH]; intros t Hlen H0 Hseg; cbn [init_segs].
  - split; [done|]. intros _. rewrite Z.add_0_r. by destruct t as [[]].
  - unfold seg_alloc, Dynahash.alloc. cbn [hctl dir allocs heap brk with_dir with_hctl].
    destruct (alloc_ok (allocs t)) eqn:Ea; [|split; [intros H; congruence|done]].
    match goal with |- context [init_segs alloc_ok n ?x] => set (u := x) end.
    pose proof (IH u) as Hu. destruct (init_segs alloc_ok n u) as [ok t'].
    destruct Hu as [Hall Hok]; cbn [u hctl dir with_hctl with_dir set_nsegs nsegs ssize] in *.
    + rewrite aset_length. lia.
    + lia.
    + intros s Hs. rewrite aget_inj_aset. destruct (Z.eqb_spec s (nsegs (hctl t))) as [->|]; [|apply Hseg; lia].
      destruct (Z.leb_spec 0 (nsegs (hctl t))), (Z.ltb_spec (nsegs (hctl t)) (Zlen (dir t))); simpl; (done || lia).
    + split; [done|]. intros Ht. destruct (Hok Ht) as (E1 & E2 & E3 & E4). rewrite aset_length in E3.
      split_and!; [|done|done|].
      * rewrite E1. unfold set_nsegs. simpl. f_equal. lia.
      * intros s Hs. apply E4. lia.
Qed.

(** A table whose segments are empty. *)
Lemma empty_repr t m : hdr_ok (set_masks 0 0 0 (set_nsegs 0 (set_dsize (Zlen (dir t)) (hctl t)))) -> 0 <= m < 32 ->
  low_mask (hctl t) = 2 ^ m - 1 -> max_bucket (hctl t) = 2 ^ m - 1 -> high_mask (hctl t) = 2 ^ (m + 1) - 1 ->
  Zlen (dir t) = dsize (hctl t) -> 1 <= nsegs (hctl t) <= dsize (hctl t) -> 2 ^ m <= nsegs (hctl t) * ssize (hctl t) ->
  heap t = ∅ ->
  (forall s, 0 <= s < nsegs (hctl t) -> aget None (dir t) s = Some (replicate (Z.to_nat (ssize (hctl t))) None)) ->
  repr t ∅.
Proof.
  intros [h1 h2 h3 h4 h5 (h6 & h7 & h8)] Hm Hlow Hmax Hhigh Hdir Hns Hbig Hheap Hseg. simpl in *.
  assert (0 < 2 ^ m) by (apply Z.pow_pos_nonneg; lia).
  assert (0 < 2 ^ sshift (hctl t)) by (apply Z.pow_pos_nonneg; lia).
  assert (2 ^ (m + 1) = 2 * 2 ^ m) by (rewrite Z.pow_add_r; lia).
  assert (geom (hctl t) (dir t)) as G.
  { split; try done; [|lia|].
    - intros s Hs. eexists. split; [by apply Hseg|]. rewrite length_replicate. lia.
    - exists m. lia. }
  exists (fun _ => []), []. split; try done; try apply NoDup_nil_2.
  - intros b Hb. cbn [chain]. rewrite (bucket_slot_eq _ _ _ _ G eq_refl). simpl. rewrite Hseg.
    + unfold aget. case_match; [done|]. destruct (_ !! _) eqn:E; [|done]. by apply lookup_replicate in E as [-> _].
    + destruct Hb. split; [apply Z.div_pos; lia|]. apply Z.div_lt_upper_bound; lia.
  - intros b _. apply NoDup_nil_2.
  - intros b a _ Ha. by apply elem_of_nil in Ha.
  - intros b a _ Ha. by apply elem_of_nil in Ha.
  - intros a. rewrite Hheap, lookup_empty. by intros [? ?].
Qed.

(** The sizes of a new table. *)
Lemma init_sizes h nelem : hdr_ok h -> nelem <= 2 ^ 29 ->
  exists m, 0 <= m <= 29 /\ my_log2 (Z.quot (nelem - 1) (ffactor h) + 1) = m /\
    1 <= init_nsegs h nelem <= 2 ^ 29 /\ 2 ^ m <= init_nsegs h nelem * ssize h /\
    0 <= my_log2 (Z.quot (2 ^ m - 1) (ssize h) + 1) <= 29 /\ Z.quot (2 ^ m - 1) (ssize h) + 1 <= 2 ^ 29 /\
    0 <= Z.quot (2 ^ m - 1) (ssize h).
Proof.
  intros [h1 h2 h3 h4 h5 h6] Hn. set (n' := Z.quot (nelem - 1) (ffactor h) + 1).
  assert (n' <= 2 ^ 29) as Hn'.
  { unfold n'. destruct (Z.le_gt_cases 1 nelem) as [H|H].
    - rewrite Z.quot_div_nonneg by lia. assert ((nelem - 1) / ffactor h <= nelem - 1) by (apply Z.div_le_upper_bound; nia). lia.
    - assert (Z.quot (nelem - 1) (ffactor h) <= 0); [|lia].
      replace (nelem - 1) with (- (1 - nelem)) by lia. rewrite Z.quot_opp_l by lia.
      pose proof (Z.quot_pos (1 - nelem) (ffactor h) ltac:(lia) ltac:(lia)). lia. }
  destruct (my_log2_spec n' 29 Hn' ltac:(lia)) as (Hm & _ & _). exists (my_log2 n').
  assert (1 <= ssize h) as Hs by (rewrite h2; pose proof (Z.pow_pos_nonneg 2 (sshift h)); lia).
  pose proof (Z.pow_pos_nonneg 2 (my_log2 n')) as Hp. assert (2 ^ my_log2 n' <= 2 ^ 29) by (apply Z.pow_le_mono_r; lia).
  assert (0 <= Z.quot (2 ^ my_log2 n' - 1) (ssize h) <= 2 ^ my_log2 n' - 1) as Hq.
  { rewrite Z.quot_div_nonneg by lia. split; [apply Z.div_pos; lia|]. apply Z.div_le_upper_bound; nia. }
  destruct (my_log2_spec (Z.quot (2 ^ my_log2 n' - 1) (ssize h) + 1) 29 ltac:(lia) ltac:(lia)) as (Hm2 & Hge & _).
  unfold init_nsegs. fold n'. set (m2 := my_log2 (Z.quot _ _ + 1)) in *.
  assert (2 ^ m2 <= 2 ^ 29) by (apply Z.pow_le_mono_r; lia). pose proof (Z.pow_pos_nonneg 2 m2).
  split_and!; try lia. rewrite Z.quot_div_nonneg in Hge by lia.
  pose proof (Z.div_mod (2 ^ my_log2 n' - 1) (ssize h) ltac:(lia)). pose proof (Z.mod_pos_bound (2 ^ my_log2 n' - 1) (ssize h) ltac:(lia)). nia.
Qed.

Lemma init_htab_spec t odir nelem : hdr_ok (hctl t) -> nelem <= 2 ^ 29 -> heap t = ∅ ->
  (forall d, odir = Some d -> Zlen d = dsize (hctl t)) ->
  let '(ok, t') := init_htab alloc_ok t odir nelem in
  (ok = true -> repr t' ∅) /\
  ((forall i, alloc_ok i = true) -> odir = None \/ init_nsegs (hctl t) nelem <= dsize (hctl t) -> ok = true).
Proof.
  intros Hh Hn Hheap Hd. destruct (init_sizes (hctl t) nelem Hh Hn) as (m & Hm & Em & Hns & Hbig & Hm2 & Hq & Hq0).
  pose proof (Z.pow_pos_nonneg 2 m) as Hp. assert (2 ^ m <= 2 ^ 29) by (apply Z.pow_le_mono_r; lia).
  assert (2 ^ (m + 1) = 2 * 2 ^ m) as E1 by (rewrite Z.pow_add_r; lia).
  unfold init_htab. rewrite Em. rewrite (Z.shiftl_mul_pow2 1 m), Z.mul_1_l, (i32_id (2 ^ m)) by lia.
  rewrite (Z.shiftl_mul_pow2 (2 ^ m) 1) by lia. change (2 ^ 1) with 2. rewrite (i32_id (2 ^ m * 2)) by lia.
  replace (2 ^ m * 2 - 1) with (2 ^ (m + 1) - 1) by lia.
  unfold init_nsegs in *. rewrite Em in *. set (q := Z.quot (2 ^ m - 1) (ssize (hctl t))) in *.
  cbn [ssize set_masks dsize]. fold q. rewrite (i32_id (q + 1)) by lia.
  rewrite (Z.shiftl_mul_pow2 1), Z.mul_1_l, i32_id by lia. set (ns := 2 ^ my_log2 (q + 1)) in *.
  assert (forall u, hctl u = set_masks (2 ^ m - 1) (2 ^ (m + 1) - 1) (2 ^ m - 1) (set_dsize (dsize (hctl u)) (hctl t)) ->
    heap u = ∅ -> ns <= dsize (hctl u) -> Zlen (dir u) = dsize (hctl u) ->
    let '(ok, t') := init_segs alloc_ok (Z.to_nat ns) u in
    (ok = true -> repr t' ∅) /\ ((forall i, alloc_ok i = true) -> ok = true)) as Hinit.
  { intros u Hu Hhu Hle Hlu. destruct Hh as [h1 h2 h3 h4 h5 (h6 & h7 & h8)].
    assert (nsegs (hctl u) = 0 /\ ssize (hctl u) = ssize (hctl t)) as [Hn0 Hss] by (by rewrite Hu).
    pose proof (init_segs_spec (Z.to_nat ns) u) as Hi. rewrite Hn0, Hss in Hi.
    destruct (init_segs alloc_ok (Z.to_nat ns) u) as [ok t'].
    destruct Hi as [Hall Hok]; [lia..|]. split; [|done]. intros Ht. destruct (Hok Ht) as (K1 & K2 & K3 & K4).
    rewrite Z2Nat.id, Z.add_0_l in * by lia. rewrite Hu in K1. simpl in K1.
    apply (empty_repr t' m); rewrite ?K1; simpl; try lia; try congruence.
    - split; simpl; try done. lia.
    - intros s Hs. apply K4. lia. }
  destruct odir as [d|].
  - specialize (Hd d eq_refl). destruct (Z.gtb_spec ns (dsize (hctl t))); [split; [done|lia || (intros _ [?|?]; [done|lia])]|].
    pose proof (Hinit (with_dir (with_hctl t (set_masks (2 ^ m - 1) (2 ^ (m + 1) - 1) (2 ^ m - 1) (hctl t))) d)) as Hi.
    destruct (init_segs _ _ _) as [ok t'].
    destruct Hi as [H1 H2]; [by destruct t as [[]]|done|simpl; lia|done|]. auto.
  - set (h' := if ns >? dsize (hctl t) then _ else _). unfold Dynahash.alloc.
    assert (ns <= dsize h' /\ h' = set_masks (2 ^ m - 1) (2 ^ (m + 1) - 1) (2 ^ m - 1) (set_dsize (dsize h') (hctl t))) as [Hle Eh].
    { unfold h'. destruct (Z.gtb_spec ns (dsize (hctl t))); simpl; (split; [lia|done]). }
    cbn [hctl with_hctl allocs]. destruct (alloc_ok (allocs t)) eqn:Ea; cbn [negb]; [|split; [done|intros Hal; congruence]].
    match goal with |- context [init_segs alloc_ok _ ?x] => set (u := x) end.
    pose proof (Hinit u) as Hi. destruct (init_segs _ _ u) as [ok t']. destruct Hi as [H1 H2]; try done.
    + simpl. rewrite length_replicate. destruct Hh. lia.
    + auto.
Qed.

(** The parameters the flags announce are sensible. *)
Record create_ok (info : HASHCTL) (flags : Z) : Prop := {
  c_segment : flags .& HASH_SEGMENT = true -> exists k, 0 <= k <= 62 /\ i_ssize info = 2 ^ k;
  c_ffactor : flags .& HASH_FFACTOR = true -> 1 <= i_ffactor info;
  c_dirsize : flags .& HASH_DIRSIZE = true -> 1 <= i_dsize info;
  c_elem : flags .& HASH_ELEM = true -> 0 <= i_entrysize info;
  c_dir : forall d, i_dir info = Some d -> Zlen d = dsize (create_hdr info flags);
  c_attach : flags .& HASH_ATTACH = false;
}.

Lemma my_log2_pow2 k : 0 <= k <= 62 -> my_log2 (2 ^ k) = k.
Proof.
  intros Hk. destruct (my_log2_spec (2 ^ k) k ltac:(lia) ltac:(lia)) as (H1 & H2 & _).
  apply Z.pow_le_mono_r_iff in H2; lia.
Qed.

Lemma create_hdr_ok info flags : create_ok info flags -> hdr_ok (create_hdr info flags).
Proof.
  intros [H1 H2 H3 H4 _ _]. unfold create_hdr. destruct (flags .& HASH_SEGMENT).
  - destruct (H1 eq_refl) as (k & Hk & Hs). rewrite Hs, my_log2_pow2 by done.
    split; simpl; try done; try lia; repeat case_match; try lia; auto; done.
  - split; simpl; try done; try lia; repeat case_match; try lia; auto; done.
Qed.

Lemma dir_loop_spec fuel d n : 1 <= d -> n <= d * 2 ^ Z.of_nat fuel -> n <= dir_loop fuel d n.
Proof.
  revert d. induction fuel as [|f IH]; intros d Hd Hn; cbn [dir_loop]; [lia|].
  destruct (Z.ltb_spec d n); [|done]. rewrite Z.shiftl_mul_pow2 by lia. change (2 ^ 1) with 2. apply IH; [lia|].
  replace (Z.of_nat (S f)) with (Z.of_nat f + 1) in Hn by lia. rewrite Z.pow_add_r in Hn by lia. lia.
Qed.

(** [hash_select_dirsize] proposes a directory that [init_htab] does not
    outgrow. *)
Lemma select_dirsize_enough h nelem : hdr_ok h -> ffactor h = DEF_FFACTOR -> ssize h = DEF_SEGSIZE -> nelem <= 2 ^ 29 ->
  init_nsegs h nelem <= hash_select_dirsize nelem.
Proof.
  intros Hh Hf Hs Hn. destruct (init_sizes h nelem Hh Hn) as (m & Hm & Em & Hns & _ & Hm2 & _).
  unfold hash_select_dirsize. rewrite <- Hf, <- Hs, Em, (Z.shiftl_mul_pow2 1 m), Z.mul_1_l by lia.
  rewrite Z.shiftl_mul_pow2, Z.mul_1_l by lia. unfold init_nsegs in *. rewrite Em in *.
  apply dir_loop_spec; [done|]. change (DEF_DIRSIZE * 2 ^ Z.of_nat 63) with (2 ^ 71). lia.
Qed.

Lemma hash_create_spec addr n nelem info flags : create_ok info flags -> nelem <= 2 ^ 29 ->
  (forall t, hash_create alloc_ok addr n nelem info flags = Ok (Some t) -> repr t ∅) /\
  ((forall i, alloc_ok i = true) ->
   flags .& HASH_SHARED_MEM = false \/ i_dir info = None \/ init_nsegs (create_hdr info flags) nelem <= dsize (create_hdr info flags) ->
   exists t, hash_create alloc_ok addr n nelem info flags = Ok (Some t)).
Proof.
  intros Hc Hn. pose proof (create_hdr_ok info flags Hc) as Hh. unfold hash_create. rewrite (c_attach _ _ Hc), andb_false_r.
  destruct (alloc_ok n) eqn:Ea; cbn [negb]; [|split; [done|intros Hal; congruence]].
  destruct (alloc_ok (S n)) eqn:Eb; cbn [negb]; [|split; [done|intros Hal; congruence]].
  match goal with |- context [mkHTAB hdefault ?d ∅ addr (S (S n))] => set (t0 := mkHTAB hdefault d ∅ addr (S (S n))) end.
  set (g := (flags .& HASH_SHARED_MEM) && _).
  assert (exists ok t1, (if g then (true, t0) else Dynahash.alloc alloc_ok t0) = (ok, t1) /\ heap t1 = ∅ /\
    ((forall i, alloc_ok i = true) -> ok = true)) as (ok & t1 & -> & Hheap & Hok).
  { destruct g; [by exists true, t0|]. eexists _, _. split; [done|]. split; [done|]. auto. }
  destruct ok; cbn [negb]; [|split; [done|intros Hal; by specialize (Hok Hal)]].
  pose proof (init_htab_spec (with_hctl t1 (create_hdr info flags)) (if flags .& HASH_SHARED_MEM then i_dir info else None) nelem Hh Hn Hheap) as Hi.
  destruct (init_htab _ _ _ _) as [ok2 t2]. destruct Hi as [H1 H2].
  { intros d Hd. apply (c_dir _ _ Hc). by destruct (flags .& HASH_SHARED_MEM). }
  split.
  - intros t [= E]. destruct ok2; [|done]. injection E as <-. auto.
  - intros Hal Hor. rewrite H2; [by eexists|done|]. simpl. destruct (flags .& HASH_SHARED_MEM); [|by left].
    destruct Hor as [|[->|Hle]]; [done|by left|by right].
Qed.

(** ** Sequential scans *)

(** The elements of [n] buckets from [b] on. *)
Fixpoint from (L : Z -> list Z) (b : Z) (n : nat) : list Z :=
  match n with O => [] | S n => L b ++ from L (b + 1) n end.

#[local] Notation rest L t b := (from L b (Z.to_nat (max_bucket (hctl t) + 1 - b))).

Lemma elem_of_from L b n a : a ∈ from L b n <-> exists b', b <= b' < b + Z.of_nat n /\ a ∈ L b'.
Proof.
  revert b. induction n as [|n IH]; intros b; cbn [from].
  - split; [by intros ?%elem_of_nil|intros (b' & Hb & _); lia].
  - rewrite elem_of_app, IH. split.
    + intros [Ha|(b' & Hb & Ha)]; eexists; (split; [|done]); lia.
    + intros (b' & Hb & Ha). destruct (decide (b' = b)) as [->|]; [by left|]. right. exists b'. split; [lia|done].
Qed.

Lemma from_ext L L' b n : (forall b', b <= b' -> L' b' = L b') -> from L' b n = from L b n.
Proof.
  revert b. induction n as [|n IH]; intros b H; cbn [from]; [done|]. rewrite H, IH; [done| |lia]. intros b' Hb. apply H. lia.
Qed.

Lemma from_nodup t M L F b n : reprL t M L F -> 0 <= b -> b + Z.of_nat n <= max_bucket (hctl t) + 1 -> NoDup (from L b n).
Proof.
  intros R. revert b. induction n as [|n IH]; intros b Hb Hn; cbn [from]; [apply NoDup_nil_2|].
  apply NoDup_app. split_and!; [apply R; unfold in_use; lia| |apply IH; lia].
  intros a Ha (b' & Hb' & Ha')%elem_of_from.
  assert (b = b'); [|lia]. apply (reprL_unique _ _ _ _ b b' a R); try done; unfold in_use; lia.
Qed.

Lemma rest_cons L t b : in_use t b -> rest L t b = L b ++ rest L t (b + 1).
Proof. intros Hb. unfold in_use in Hb. by replace (Z.to_nat (max_bucket (hctl t) + 1 - b)) with (S (Z.to_nat (max_bucket (hctl t) + 1 - (b + 1)))) by lia. Qed.

(** The scan at [st] has still to visit [R]. *)
Definition scan_at (t : HTAB) (L : Z -> list Z) (st : HASH_SEQ_STATUS) (R : list Z) : Prop :=
  0 <= curBucket st /\
  match curEntry st with
  | None => R = rest L t (curBucket st)
  | Some e => in_use t (curBucket st) /\ exists l1 l2, L (curBucket st) = l1 ++ e :: l2 /\
      R = e :: l2 ++ rest L t (curBucket st + 1)
  end.

(** One call: the head of what is left; the entry it returns can be taken out
    of its bucket without disturbing the scan. *)
Lemma seq_entry t M L F b e l1 l2 : reprL t M L F -> in_use t b -> L b = l1 ++ e :: l2 ->
  let next := load t (Link e) in
  let st := mkSeq (if bool_decide (next = None) then b + 1 else b) next in
  scan_at t L st (l2 ++ rest L t (b + 1)) /\
  forall t' F' M', reprL t' M' (upd L b (l1 ++ l2)) F' -> hctl t' = set_free (freeList (hctl t')) (set_nentries (nentries (hctl t')) (hctl t)) ->
    scan_at t' (upd L b (l1 ++ l2)) st (l2 ++ rest L t (b + 1)).
Proof.
  intros R Hb El next st. pose proof (r_chain _ _ _ _ R b Hb) as Hc. rewrite El in Hc.
  apply chain_split in Hc as (_ & _ & _ & Hc). fold next in Hc. unfold scan_at, st. destruct l2 as [|x l2]; simpl in Hc.
  - rewrite Hc. simpl. unfold in_use in Hb. split; [split; [lia|done]|]. intros t' F' M' R' Ht'. split; [lia|].
    rewrite Ht'. simpl. symmetry. apply from_ext. intros b' Hb'. apply upd_ne. lia.
  - destruct Hc as [Hc _]. rewrite Hc. simpl. split.
    + split; [apply Hb|]. split; [done|]. exists (l1 ++ [e]), l2. by rewrite <- app_assoc.
    + intros t' F' M' R' Ht'. unfold in_use in *. rewrite Ht'. simpl. split; [lia|]. split; [done|]. exists l1, l2.
      rewrite upd_eq. split; [done|]. do 2 f_equal. symmetry. apply from_ext. intros b' Hb'. apply upd_ne. lia.
Qed.

Lemma seq_loop_spec fuel t M L F st R : reprL t M L F -> scan_at t L st R ->
  match curEntry st with None => Z.max 0 (max_bucket (hctl t) + 1 - curBucket st) + 1 | Some _ => 1 end <= Z.of_nat fuel ->
  match R with
  | [] => exists st', hash_seq_loop fuel t st = Ok (st', None)
  | e :: R' => exists b l1 l2, in_use t b /\ L b = l1 ++ e :: l2 /\ R' = l2 ++ rest L t (b + 1) /\
      let next := load t (Link e) in
      hash_seq_loop fuel t st = Ok (mkSeq (if bool_decide (next = None) then b + 1 else b) next, Some e)
  end.
Proof.
  intros Rr. revert st. induction fuel as [|n IH]; intros [b [e|]] [H0 Hs] Hf; simpl in H0, Hf, Hs; [lia|lia| |].
  - destruct Hs as (Hb & l1 & l2 & El & ->). exists b, l1, l2. split_and!; try done.
    cbn [hash_seq_loop curBucket curEntry]. unfold in_use in Hb. by destruct (Z.leb_spec b (max_bucket (hctl t))); [|lia].
  - cbn [hash_seq_loop curBucket curEntry]. destruct (Z.leb_spec b (max_bucket (hctl t))) as [Hle|Hgt].
    2:{ replace (Z.to_nat (max_bucket (hctl t) + 1 - b)) with O in Hs by lia. simpl in Hs. subst R. by eexists. }
    assert (in_use t b) as Hb by (by split). destruct (reprL_bucket _ _ _ _ _ Rr Hb) as (seg & Hseg & _).
    unfold bucket_slot in Hseg. rewrite Hseg. pose proof (r_chain _ _ _ _ Rr b Hb) as Hc. rewrite rest_cons in Hs by done.
    destruct (L b) as [|e l] eqn:El; cbn [chain] in Hc.
    + rewrite Hc, bool_decide_eq_true_2 by done. apply IH; [split; [simpl; lia|]|simpl; lia]. done.
    + destruct Hc as [Hc _]. rewrite Hc, bool_decide_eq_false_2 by done.
      apply IH; [|simpl; lia]. split; [done|]. split; [done|]. exists [], l. simpl. split; [done|]. by rewrite Hs.
Qed.

Lemma nodup_split {A} (l1 l2 m1 m2 : list A) e : NoDup (l1 ++ e :: l2) -> l1 ++ e :: l2 = m1 ++ e :: m2 -> l1 = m1 /\ l2 = m2.
Proof.
  revert m1. induction l1 as [|x l1 IH]; intros [|y m1] Hnd E; simpl in *; simplify_eq; try done.
  - apply NoDup_cons in Hnd as [Hn _]. set_solver.
  - apply NoDup_cons in Hnd as [Hn _]. set_solver.
  - apply NoDup_cons in Hnd as [_ Hnd]. destruct (IH m1 Hnd) as [-> ->]; done.
Qed.

Lemma scan_spec fuel del t M L F st R : reprL t M L F -> scan_at t L st R -> NoDup R -> (length R < fuel)%nat ->
  exists t' M', hash_scan hash alloc_ok junk fuel del t st = Ok (t', R) /\ repr t' M' /\
    forall k, M' !! k = (a ← M !! k; if bool_decide (a ∈ R) && del k then None else Some a).
Proof.
  revert t M L F st R. induction fuel as [|n IH]; intros t M L F st R Rr Hs Hnd Hlen; [lia|].
  pose proof (seq_loop_spec (S (S (Z.to_nat (max_bucket (hctl t) + 1 - curBucket st)))) t M L F st R Rr Hs) as Hl.
  fold (hash_seq_search t st) in Hl. cbn [hash_scan]. destruct R as [|e R'].
  { destruct Hl as [st' ->]; [case_match; lia|]. simpl. exists t, M. split; [done|]. split; [by exists L, F|].
    intros k. by destruct (M !! k). }
  destruct Hl as (b & l1 & l2 & Hb & El & ER & ->); [case_match; lia|].
  destruct (seq_entry t M L F b e l1 l2 Rr Hb El) as [Hstay Hgone]. rewrite <- ER in Hstay, Hgone.
  set (st' := mkSeq _ _) in *. clearbody st'. simpl mbind. cbv beta iota.
  destruct (r_in _ _ _ _ Rr b e Hb) as (k & Hk & Hkb & HM); [rewrite El; set_solver|]. unfold keyof in Hk.
  destruct (heap t !! e) as [el|] eqn:He; [|done]. injection Hk as Hk. rewrite Hk.
  apply NoDup_cons in Hnd as [Hne Hnd]. simpl in Hlen.
  assert (forall k' a, M !! k' = Some a -> a = e -> k' = k) as Hinj.
  { intros k' a Hk' ->. destruct (r_map _ _ _ _ Rr _ _ Hk') as [_ E]. unfold keyof in E. rewrite He in E. simpl in E. congruence. }
  destruct (del k) eqn:Ed.
  - destruct (hash_search_remove t M L F k e Rr HM) as (m1 & m2 & Em & -> & R1 & _). rewrite Hkb in *.
    destruct (nodup_split m1 m2 l1 l2 e) as [-> ->]; [rewrite <- Em; by apply Rr|congruence|]. simpl mbind. cbv beta iota.
    destruct (IH _ _ _ _ st' R' R1) as (t' & M' & -> & Hr & Hm); [|done|lia|].
    { apply (Hgone _ (e :: F) (delete k M)); [done|]. by rewrite unlinked_eq. }
    simpl. exists t', M'. split_and!; [done|done|]. intros k'. rewrite Hm. destruct (decide (k' = k)) as [->|Hkk].
    + rewrite lookup_delete_eq, HM. simpl. rewrite Ed, bool_decide_eq_true_2 by left. done.
    + rewrite lookup_delete_ne by done. destruct (M !! k') as [a|] eqn:Ea; [|done]. simpl.
      assert (a <> e) by (intros E; by eapply Hkk, Hinj). by rewrite (bool_decide_ext (a ∈ e :: R') (a ∈ R')) by set_solver.
  - simpl mbind. cbv beta iota. destruct (IH _ _ _ _ st' R' Rr) as (t' & M' & -> & Hr & Hm); [done|done|lia|].
    simpl. exists t', M'. split_and!; [done|done|]. intros k'. rewrite Hm. destruct (M !! k') as [a|] eqn:Ea; [|done]. simpl.
    destruct (decide (a = e)) as [->|Hae].
    + rewrite (Hinj k' e Ea eq_refl), Ed, !andb_false_r. done.
    + by rewrite (bool_decide_ext (a ∈ e :: R') (a ∈ R')) by set_solver.
Qed.

Lemma scan_start t M L F : reprL t M L F ->
  let R := rest L t 0 in
  scan_at t L hash_seq_init R /\ NoDup R /\ (forall a, a ∈ R <-> exists k, M !! k = Some a) /\ (length R <= size M)%nat.
Proof.
  intros Rr R. pose proof (g_max _ _ (r_geom _ _ _ _ Rr)) as Hm.
  assert (NoDup R) as Hnd by (eapply from_nodup; [done|lia|lia]).
  assert (forall a, a ∈ R <-> exists k, M !! k = Some a) as Hin.
  { intros a. unfold R. rewrite elem_of_from. split.
    - intros (b & Hb & Ha). destruct (r_in _ _ _ _ Rr b a) as (k & _ & _ & Hk); [unfold in_use; lia|done|]. eauto.
    - intros [k Hk]. destruct (r_map _ _ _ _ Rr _ _ Hk) as [Ha _]. exists (call_hash t k). split; [|done].
      pose proof (call_hash_in_use t k (r_geom _ _ _ _ Rr)) as Hu. unfold in_use in Hu. lia. }
  split_and!; try done. replace (size M) with (length (map_to_list M).*2) by (by rewrite length_fmap, length_map_to_list).
  apply submseteq_length, NoDup_submseteq; [done|]. intros a [k Hk]%Hin.
  apply list_elem_of_fmap. exists (k, a). split; [done|]. by apply elem_of_map_to_list.
Qed.

(** C19: a hash table is a finite map.  On a table that represents [M],
    [hash_search] finds what [M] has for the key; HASH_REMOVE deletes the key
    from the map and returns its element; HASH_ENTER returns the element of a
    key that is present and changes nothing, and otherwise adds the key with
    an element that no other key has, or returns NULL when the allocation of
    elements fails.  The expansion of the table on the way (a new bucket, a new
    segment, a larger directory, or a failure of any of these) is invisible:
    the elements of the other keys stay where they are, with their data. *)
Theorem hash_search_refines t M k : repr t M -> Z.of_nat (size M) + 1 < 2 ^ 32 -> search_spec_of t M k.
Proof. apply hash_search_spec. Qed.

(** [hash_create] makes an empty table for up to [2^29] elements, from the
    parameters its flags announce; it succeeds when every allocation does and
    the directory is its own.  A directory in shared memory is large enough
    when its size is the one [hash_select_dirsize] proposes. *)
Theorem hash_create_empty addr n nelem info flags : create_ok info flags -> nelem <= 2 ^ 29 ->
  (forall t, hash_create alloc_ok addr n nelem info flags = Ok (Some t) -> repr t ∅) /\
  ((forall i, alloc_ok i = true) ->
   flags .& HASH_SHARED_MEM = false \/ i_dir info = None \/
   (flags .& HASH_SEGMENT = false /\ flags .& HASH_FFACTOR = false /\ flags .& HASH_DIRSIZE = true /\
    i_dsize info = hash_select_dirsize nelem) ->
   exists t, hash_create alloc_ok addr n nelem info flags = Ok (Some t)).
Proof.
  intros Hc Hn. destruct (hash_create_spec addr n nelem info flags Hc Hn) as [H1 H2]. split; [done|].
  intros Hal Hor. apply H2; [done|]. destruct Hor as [|[|(E1 & E2 & E3 & E4)]]; auto. right; right.
  assert (dsize (create_hdr info flags) = hash_select_dirsize nelem) as -> by (simpl; by rewrite E3).
  apply select_dirsize_enough; [by apply create_hdr_ok| | |done]; simpl; by rewrite ?E1, ?E2.
Qed.

(** C20: a sequential scan terminates and visits every element of the table
    exactly once, and the caller may remove the element it was just given:
    after a scan that removes the elements whose key satisfies [del], the table
    represents the map without those keys. *)
Theorem hash_seq_complete del t M : repr t M ->
  exists t' es, hash_scan hash alloc_ok junk (S (size M)) del t hash_seq_init = Ok (t', es) /\
    NoDup es /\ (forall a, a ∈ es <-> exists k, M !! k = Some a) /\
    repr t' (base.filter (fun kv => del kv.1 = false) M).
Proof.
  intros (L & F & R). destruct (scan_start t M L F R) as (Hs & Hnd & Hin & Hlen).
  destruct (scan_spec (S (size M)) del t M L F _ _ R Hs Hnd) as (t' & M' & Hr & Hrep & Hm); [lia|].
  eexists t', _. split_and!; [exact Hr|done|done|].
  assert (base.filter (fun kv => del kv.1 = false) M = M') as ->; [|done].
  apply map_eq. intros k. apply option_eq. intros a. rewrite Hm, map_lookup_filter_Some. simpl.
  destruct (M !! k) as [a'|] eqn:Ea; simpl; [|naive_solver].
  rewrite bool_decide_eq_true_2 by (apply Hin; eauto). destruct (del k) eqn:Ed; simpl; naive_solver.
Qed.
End Map.

(** ** A table *)

(** Keys of one byte, hashed to that byte. *)
Definition byte_hash (k : list Z) (_ : Z) : Z := default 0 (head k).
Definition no_junk (_ : Z) : list Z := [].
Definition always (_ : nat) : bool := true.

Definition plain : HASHCTL := mkInfo 0 0 0 1 32 0 None None.

(** Enter the keys one after the other. *)
Definition enter_all (t : HTAB) (keys : list (list Z)) : result HTAB :=
  foldl (fun r k => t ← r; '(t, _, _) ← hash_search byte_hash always no_junk t k HASH_ENTER; Ok t) (Ok t) keys.

(** A table for four elements. *)
Definition new_table : HTAB :=
  match hash_create always 4096 0 4 plain HASH_ELEM with Ok (Some t) => t | _ => mkHTAB hdefault [] ∅ 0 0 end.

Lemma plain_ok : create_ok plain HASH_ELEM.
Proof. split; try done; simpl; lia. Qed.

Lemma new_table_repr : repr byte_hash new_table ∅.
Proof.
  destruct (hash_create_spec byte_hash always 4096 0 4 plain HASH_ELEM plain_ok) as [H1 H2]; [lia|].
  unfold new_table. destruct H2 as [t Ht]; [done|by left|]. rewrite Ht. auto.
Qed.

Lemma enter_all_repr keys t M : repr byte_hash t M -> Z.of_nat (size M + length keys) + 1 < 2 ^ 32 ->
  exists t' M', enter_all t keys = Ok t' /\ repr byte_hash t' M' /\ (size M' <= size M + length keys)%nat /\
    forall k, is_Some (M' !! k) <-> is_Some (M !! k) \/ k ∈ keys.
Proof.
  revert t M. induction keys as [|k keys IH]; intros t M R Hn.
  { exists t, M. split_and!; [done|done|simpl; lia|]. set_solver. }
  destruct (hash_search_spec byte_hash always no_junk t M k R) as (_ & _ & t1 & r & E & Hr); [simpl in Hn; lia|].
  unfold enter_all. cbn [foldl]. simpl mbind. rewrite E. simpl mbind. cbv beta iota.
  destruct (M !! k) as [a|] eqn:Ek.
  - destruct Hr as [-> ->]. destruct (IH t M R) as (t' & M' & E' & R' & Hs & Hd); [simpl in Hn; lia|].
    exists t', M'. split_and!; [done|done|simpl; lia|]. intros k'. rewrite Hd, elem_of_cons. split; [tauto|].
    intros [|[->|]]; [tauto|rewrite Ek; eauto|tauto].
  - destruct r as [a|]; [|by destruct Hr]. destruct Hr as (_ & _ & R1 & _).
    assert (size (<[k := a]> M) = S (size M)) as Es by (by apply map_size_insert_None).
    destruct (IH t1 (<[k := a]> M) R1) as (t' & M' & E' & R' & Hs & Hd); [simpl in Hn; lia|].
    exists t', M'. split_and!; [done|done|simpl in *; lia|]. intros k'. rewrite Hd, elem_of_cons, lookup_insert_is_Some'.
    naive_solver.
Qed.

(** The keys 1 to 9; the table has grown to five buckets. *)
Definition nine_keys : list (list Z) := (fun i => [i]) <$> seqZ 1 9.

Lemma hash_search_refines_witness :
  search_spec_of byte_hash always no_junk new_table ∅ [7] /\
  exists t a, hash_search byte_hash always no_junk new_table [7] HASH_ENTER = Ok (t, Some a, false) /\ nentries (hctl t) = 1.
Proof.
  split; [apply (hash_search_refines byte_hash always no_junk new_table ∅ [7]); [exact new_table_repr|vm_compute; reflexivity]|].
  eexists _, _. split; vm_compute; reflexivity.
Defined.

Lemma hash_create_empty_witness :
  repr byte_hash new_table ∅ /\ exists t, hash_create always 4096 0 4 plain HASH_ELEM = Ok (Some t) /\ max_bucket (hctl t) = 3.
Proof.
  destruct (hash_create_empty byte_hash always 4096 0 4 plain HASH_ELEM plain_ok) as [H1 H2]; [lia|].
  destruct H2 as [t Ht]; [reflexivity|left; reflexivity|]. split.
  - unfold new_table. rewrite Ht. apply H1, Ht.
  - eexists. split; vm_compute; reflexivity.
Defined.

Lemma hash_seq_complete_witness : exists t M, enter_all new_table nine_keys = Ok t /\ max_bucket (hctl t) = 4 /\
  repr byte_hash t M /\ (forall k, is_Some (M !! k) <-> k ∈ nine_keys) /\
  exists t' es, hash_scan byte_hash always no_junk (S (size M)) (fun k => bool_decide (k = [5])) t hash_seq_init = Ok (t', es) /\
    NoDup es /\ repr byte_hash t' (base.filter (fun kv => bool_decide (kv.1 = [5]) = false) M).
Proof.
  destruct (enter_all_repr nine_keys new_table ∅ new_table_repr) as (t & M & E & R & _ & Hd); [vm_compute; reflexivity|].
  exists t, M. split; [exact E|]. split.
  { assert (max_bucket (hctl (match enter_all new_table nine_keys with Ok t => t | Err _ => new_table end)) = 4) as H by (vm_compute; reflexivity).
    by rewrite E in H. }
  split; [exact R|]. split; [intros k; rewrite Hd, lookup_empty; split; [intros [[? ?]|?]; done|auto]|].
  destruct (hash_seq_complete byte_hash always no_junk (fun k => bool_decide (k = [5])) t M R) as (t' & es & Hs & Hnd & _ & Hr).
  exists t', es. split; [exact Hs|]. split; [exact Hnd|exact Hr].
Defined.

(** [hash_destroy] looks at the first bucket of every segment only: a
    table for which one chunk of elements was allocated, with 32 keys, is
    destroyed without freeing the chunk, because the element at its start is
    in another bucket. *)
Theorem hash_destroy_leaks : exists t,
  enter_all new_table (((fun i => [i]) <$> seqZ 1 31) ++ [[33]]) = Ok t /\
  hash_destroy t = [] /\ exists a el, heap t !! a = Some el /\ freeable el = true.
Proof. eexists. split; [vm_compute; reflexivity|]. split; [vm_compute; reflexivity|]. exists 4096. eexists. split; vm_compute; reflexivity. Qed.
