(* ===== verification/Freelist.v ===== *)
(** * The buffer pool: free list, pins and buffer table

    Model of [storage/buffer/freelist.c], [buf_table.c], of the pool set-up and
    growth of [buf_init.c] and of the way [bufmgr.c] puts them together
    ([BufferAlloc], [InvalidateBuffer]).

    The pool has one descriptor per buffer.  The free list is lazy: a buffer
    that is pinned stays in the list, and whoever meets it there drops it.  The
    list links are protected by the [guard] of the list and by the guards of
    the descriptors, and most operations take them one after the other, so a
    buffer can be flagged [BM_FREE] and not yet be linked, or be taken off the
    list and not yet be looked at.  [mem] is the shared memory; each definition
    below is one critical section of the code over it.  [FreelistInv.v] lets
    the sections of all threads interleave.

    [BufferDescriptors[i]] with [i] outside of the array is an error, as is an
    [Assert] that fails.  The [buf_id] of a descriptor is its index.  The hash
    tables of [buf_table.c] are one finite map: the key determines the table,
    and [DynahashMap.v] proves that a table is a map.  Not modelled: the page
    contents, the I/O flags, the mutexes themselves (a section is atomic), the
    condition variable of the list and the flush that a thread starts when it
    has waited too long for a buffer. *)

From S2P Require Import Prelude.

(** ** Data ([storage/buf_internals.h]) *)

Definition BM_USED : Z := 1.
Definition BM_VALID : Z := 2.
Definition BM_DELETED : Z := 4.
Definition BM_FREE : Z := 8.
Definition BM_WRITELOCK : Z := 16.
Definition BM_EXCLUSIVE : Z := 32.
Definition BM_RETIRED : Z := 256.

Definition INVALID_DESCRIPTOR : Z := -3.
Definition DETACHED_DESCRIPTOR : Z := -4.

Definition RELKIND_INDEX : Z := 105.
Definition RELKIND_INVALID : Z := 73.

Record BufferTag := mkBufferTag { relId : Z; dbId : Z; blockNum : Z }.

#[export] Instance BufferTag_eq_dec : EqDecision BufferTag.
Proof. solve_decision. Defined.
#[export] Instance BufferTag_countable : Countable BufferTag.
Proof.
  apply (inj_countable' (fun t => (relId t, dbId t, blockNum t))
           (fun '(r, d, b) => mkBufferTag r d b)).
  by intros [].
Defined.

(** [CLEAR_BUFFERTAG]: [InvalidOid] and [InvalidBlockNumber]. *)
Definition CLEAR_BUFFERTAG : BufferTag := mkBufferTag 0 0 (2 ^ 64 - 1).

Record BufferDesc := mkBufferDesc {
  freeNext : Z;
  tag : BufferTag;
  kind : Z;
  locflags : Z;
  refCount : Z;
  pageaccess : Z;
  e_waiting : Z;
  p_waiting : Z;
  bias : Z
}.

(** Assignments to the fields of a descriptor. *)
Definition set_freeNext (x : Z) (d : BufferDesc) : BufferDesc :=
  mkBufferDesc x (tag d) (kind d) (locflags d) (refCount d) (pageaccess d) (e_waiting d) (p_waiting d) (bias d).
Definition set_tag (t : BufferTag) (k : Z) (d : BufferDesc) : BufferDesc :=
  mkBufferDesc (freeNext d) t k (locflags d) (refCount d) (pageaccess d) (e_waiting d) (p_waiting d) (bias d).
Definition set_locflags (x : Z) (d : BufferDesc) : BufferDesc :=
  mkBufferDesc (freeNext d) (tag d) (kind d) x (refCount d) (pageaccess d) (e_waiting d) (p_waiting d) (bias d).
Definition set_counts (r p : Z) (d : BufferDesc) : BufferDesc :=
  mkBufferDesc (freeNext d) (tag d) (kind d) (locflags d) r p (e_waiting d) (p_waiting d) (bias d).
Definition set_p_waiting (x : Z) (d : BufferDesc) : BufferDesc :=
  mkBufferDesc (freeNext d) (tag d) (kind d) (locflags d) (refCount d) (pageaccess d) (e_waiting d) x (bias d).
Definition set_e_waiting (x : Z) (d : BufferDesc) : BufferDesc :=
  mkBufferDesc (freeNext d) (tag d) (kind d) (locflags d) (refCount d) (pageaccess d) x (p_waiting d) (bias d).
Definition set_bias (x : Z) (d : BufferDesc) : BufferDesc :=
  mkBufferDesc (freeNext d) (tag d) (kind d) (locflags d) (refCount d) (pageaccess d) (e_waiting d) (p_waiting d) x.

(** [locflags |= m] and [locflags &= ~m]. *)
Definition raise (m : Z) (d : BufferDesc) : BufferDesc := set_locflags (Z.lor (locflags d) m) d.
Definition lower (m : Z) (d : BufferDesc) : BufferDesc := set_locflags (Z.land (locflags d) (Z.lnot m)) d.
(** [locflags & m]. *)
Definition has (m : Z) (d : BufferDesc) : bool := flag (locflags d) m.

Record FreeList := mkFreeList { head : Z; tail : Z; last : Z }.

(** The shared memory of the pool and its configuration. *)
Record mem := mkMem {
  MaxBuffers : Z;
  NBuffers : Z;
  lingeringbuffers : bool;
  BufferDescriptors : Z -> BufferDesc;
  MasterList : FreeList;
  IndexList : option FreeList;
  table : gmap BufferTag Z
}.

Definition set_descs (f : Z -> BufferDesc) (m : mem) : mem :=
  mkMem (MaxBuffers m) (NBuffers m) (lingeringbuffers m) f (MasterList m) (IndexList m) (table m).
Definition set_table (t : gmap BufferTag Z) (m : mem) : mem :=
  mkMem (MaxBuffers m) (NBuffers m) (lingeringbuffers m) (BufferDescriptors m) (MasterList m) (IndexList m) t.
Definition set_NBuffers (n : Z) (m : mem) : mem :=
  mkMem (MaxBuffers m) n (lingeringbuffers m) (BufferDescriptors m) (MasterList m) (IndexList m) (table m).

(** Reading and writing [BufferDescriptors[i]]. *)
Definition deref (m : mem) (i : Z) : result BufferDesc :=
  if (0 <=? i) && (i <? MaxBuffers m) then Ok (BufferDescriptors m i)
  else Err "BufferDescriptors: out of range".
Definition put_desc (i : Z) (d : BufferDesc) (m : mem) : mem :=
  set_descs (upd (BufferDescriptors m) i d) m.
Definition modify_desc (i : Z) (f : BufferDesc -> BufferDesc) (m : mem) : mem :=
  put_desc i (f (BufferDescriptors m i)) m.

Inductive which := Master | Index.

#[export] Instance which_eq_dec : EqDecision which.
Proof. solve_decision. Defined.

Definition list_of (m : mem) (w : which) : FreeList :=
  match w with
  | Master => MasterList m
  | Index => default (mkFreeList INVALID_DESCRIPTOR INVALID_DESCRIPTOR 0) (IndexList m)
  end.
Definition set_list (w : which) (l : FreeList) (m : mem) : mem :=
  match w with
  | Master => mkMem (MaxBuffers m) (NBuffers m) (lingeringbuffers m) (BufferDescriptors m) l (IndexList m) (table m)
  | Index => mkMem (MaxBuffers m) (NBuffers m) (lingeringbuffers m) (BufferDescriptors m) (MasterList m)
               (IndexList m ≫= fun _ => Some l) (table m)
  end.

(** [( buf->kind == RELKIND_INDEX && IndexList != NULL ) ? IndexList : MasterList]. *)
Definition list_for (m : mem) (d : BufferDesc) : which :=
  if (kind d =? RELKIND_INDEX) && bool_decide (is_Some (IndexList m)) then Index else Master.

Definition Assert (b : bool) : result unit := ereport_unless b "Assert".

(** ** The lists ([freelist.c]) *)

(** [GetHead], from the point where the thread holds the guard of a list that
    is not empty; the wait for that is a precondition of the step. *)
Definition GetHead (m : mem) (w : which) : result (mem * Z) :=
  let l := list_of m w in
  let b := head l in
  Assert ((0 <=? b) && (b <? MaxBuffers m)) ≫= fun _ =>
  let d := BufferDescriptors m b in
  Assert (has BM_FREE d) ≫= fun _ =>
  let h := freeNext d in
  let t := if h =? tail l then INVALID_DESCRIPTOR else tail l in
  Ok (set_list w (mkFreeList h t b)
        (put_desc b (set_freeNext DETACHED_DESCRIPTOR (lower BM_FREE d)) m), b).

Definition SetHead (m : mem) (b : Z) : result mem :=
  deref m b ≫= fun d =>
  let w := list_for m d in
  let l := list_of m w in
  Assert (has BM_FREE d) ≫= fun _ =>
  Assert (freeNext d =? DETACHED_DESCRIPTOR) ≫= fun _ =>
  let t := if tail l =? INVALID_DESCRIPTOR then head l else tail l in
  Assert (negb (b =? head l)) ≫= fun _ =>
  Ok (set_list w (mkFreeList b t (last l)) (put_desc b (set_freeNext (head l) d) m)).

(** The descriptor that [SetTailBuffer] and [AddBuffersToTail] append to. *)
Definition tail_buffer (l : FreeList) : option Z :=
  if head l =? INVALID_DESCRIPTOR then None
  else if tail l =? INVALID_DESCRIPTOR then Some (head l)
  else Some (tail l).

Definition SetTailBuffer (m : mem) (b : Z) : result mem :=
  deref m b ≫= fun d =>
  let w := list_for m d in
  let l := list_of m w in
  match tail_buffer l with
  | None => Ok (set_list w (mkFreeList b INVALID_DESCRIPTOR (last l)) m)
  | Some t =>
      deref m t ≫= fun dt =>
      Assert (has BM_FREE dt) ≫= fun _ =>
      Assert (freeNext d =? INVALID_DESCRIPTOR) ≫= fun _ =>
      Assert (freeNext dt =? INVALID_DESCRIPTOR) ≫= fun _ =>
      Ok (set_list w (mkFreeList (head l) b (last l)) (put_desc t (set_freeNext b dt) m))
  end.

(** [while ( buf->freeNext != INVALID_DESCRIPTOR ) buf = ...]; a chain without
    an end would loop for ever, one that leaves the array is an error. *)
Fixpoint last_of_chain (fuel : nat) (m : mem) (b : Z) : result Z :=
  match fuel with
  | O => Err "AddBuffersToTail: endless chain"
  | S fuel =>
      deref m b ≫= fun d =>
      if freeNext d =? INVALID_DESCRIPTOR then Ok b else last_of_chain fuel m (freeNext d)
  end.

Definition AddBuffersToTail (m : mem) (b : Z) : result mem :=
  let l := list_of m Master in
  (match tail_buffer l with
   | None => Ok (m, b)
   | Some t =>
       deref m t ≫= fun dt =>
       Assert (has BM_FREE dt) ≫= fun _ =>
       Assert (freeNext dt =? INVALID_DESCRIPTOR) ≫= fun _ =>
       Ok (put_desc t (set_freeNext b dt) m, head l)
   end) ≫= fun '(m', h) =>
  last_of_chain (S (Z.to_nat (MaxBuffers m))) m' b ≫= fun e =>
  Ok (set_list Master (mkFreeList h e (last l)) m').

(** One turn of the loop of [RemoveNearestNeighbor], with the outcome of the
    [pthread_mutex_trylock] on the neighbour: the loop goes on, or it ends and
    possibly hands back a buffer for the tail. *)
Inductive scan_result := ScanMore | ScanDone (add : option Z).

Definition RemoveNearestNeighbor (m : mem) (b : Z) (trylock : bool) : result (mem * scan_result) :=
  deref m b ≫= fun bf =>
  if freeNext bf =? INVALID_DESCRIPTOR then Ok (m, ScanDone None)
  else
    let n := freeNext bf in
    deref m n ≫= fun next =>
    if negb trylock then Ok (m, ScanDone None)
    else if freeNext next =? INVALID_DESCRIPTOR then Ok (m, ScanDone None)
    else if 0 <? refCount next then
      Ok (put_desc n (set_freeNext DETACHED_DESCRIPTOR (lower (Z.lor BM_FREE BM_USED) next))
            (put_desc b (set_freeNext (freeNext next) bf) m), ScanMore)
    else if lingeringbuffers m && has BM_USED next then
      Assert (has BM_FREE next) ≫= fun _ =>
      Ok (put_desc n (set_freeNext INVALID_DESCRIPTOR (lower BM_USED next))
            (put_desc b (set_freeNext (freeNext next) bf) m), ScanDone (Some n))
    else Ok (m, ScanDone None).

(** ** Pins ([freelist.c]) *)

Definition BiasPinned (m : mem) (b : Z) : result mem :=
  deref m b ≫= fun d => Ok (put_desc b (set_bias (u32 (bias d + 1)) d) m).

(** [ManualPin] after the wait: the pin fails on an invalid buffer; on a buffer
    that is flagged free the thread goes on to scan for pinned neighbours, with
    the guard of the buffer in its hands. *)
Inductive pin_result := PinFailed | PinWaits | PinScans | PinDone.

Definition ManualPin_count (m : mem) (b : Z) (access : bool) : result (mem * pin_result) :=
  deref m b ≫= fun d =>
  if has BM_VALID d then
    let d1 := if access then set_counts (refCount d) (u32 (pageaccess d + 1)) d else d in
    let d2 := set_counts (u32 (refCount d1 + 1)) (pageaccess d1) d1 in
    let d3 := if refCount d =? 0 then raise BM_USED d2 else d2 in
    Ok (put_desc b d3 m, if has BM_FREE d3 then PinScans else PinDone)
  else Ok (m, PinFailed).

(** The entry of [ManualPin]: a retired buffer is refused, a page access waits
    for an exclusive lock to go. *)
Definition ManualPin (m : mem) (b : Z) (access : bool) : result (mem * pin_result) :=
  deref m b ≫= fun d =>
  if has BM_RETIRED d then Ok (m, PinFailed)
  else if access && has BM_EXCLUSIVE d then
    Ok (put_desc b (set_p_waiting (u32 (p_waiting d + 1)) d) m, PinWaits)
  else ManualPin_count m b access.

(** A thread that waits in [ManualPin] wakes up and tests again. *)
Definition ManualPin_wake (m : mem) (b : Z) : result (mem * pin_result) :=
  deref m b ≫= fun d =>
  if has BM_EXCLUSIVE d then Ok (m, PinWaits)
  else ManualPin_count (put_desc b (set_p_waiting (u32 (p_waiting d - 1)) d) m) b true.

(** [ManualUnpin] up to the call of [SetTailBuffer]; the result says whether
    that call follows. *)
Definition ManualUnpin (m : mem) (b : Z) (access : bool) : result (mem * bool) :=
  deref m b ≫= fun d =>
  let d1 := set_counts (u32 (refCount d - 1))
              (if access then u32 (pageaccess d - 1) else pageaccess d) d in
  if refCount d1 =? 0 then
    if has BM_FREE d1 then Ok (put_desc b d1 m, false)
    else
      let d2 := raise BM_FREE (lower BM_USED d1) in
      Assert (freeNext d2 =? DETACHED_DESCRIPTOR) ≫= fun _ =>
      Ok (put_desc b (set_freeNext INVALID_DESCRIPTOR d2) m, true)
  else Ok (put_desc b d1 m, false).

(** [PutFreeBuffer] up to the call of [SetHead]. *)
Definition PutFreeBuffer (m : mem) (b : Z) : result (mem * bool) :=
  deref m b ≫= fun d =>
  Assert ((refCount d =? 1) && (pageaccess d =? 1)) ≫= fun _ =>
  if negb (has BM_FREE d) then
    Ok (put_desc b (raise BM_FREE (set_counts 0 0 (lower BM_USED d))) m, true)
  else Ok (m, false).

(** The body of the loop of [GetFreeBuffer] after [GetHead]: the candidate is
    dropped, put back at the tail, or taken. *)
Inductive check_result := Dropped | Requeued | Taken.

Definition GetFreeBuffer (m : mem) (b : Z) : result (mem * check_result) :=
  deref m b ≫= fun d =>
  let requeue (d : BufferDesc) :=
    if negb (has BM_FREE d)
    then Ok (put_desc b (set_freeNext INVALID_DESCRIPTOR (raise BM_FREE d)) m, Requeued)
    else Ok (put_desc b d m, Dropped) in
  if 0 <? refCount d then Ok (put_desc b (lower BM_USED d) m, Dropped)
  else if 0 <? bias d then requeue (lower BM_USED (set_bias (bias d - 1) d))
  else if lingeringbuffers m && has BM_USED d then requeue (lower BM_USED d)
  else
    Assert (refCount d =? 0) ≫= fun _ =>
    Assert (pageaccess d =? 0) ≫= fun _ =>
    Ok (put_desc b (lower BM_USED (set_counts 1 1 (lower BM_VALID d))) m, Taken).

(** ** The buffer table ([buf_table.c]) *)

Inductive hash_action := HashFind | HashRemove | HashEnter.

(** [LockedHashSearch]: the new table and the entry that was found. *)
Definition LockedHashSearch (t : gmap BufferTag Z) (key : BufferTag) (insert_id : Z) (a : hash_action)
    : gmap BufferTag Z * option Z :=
  match a with
  | HashFind => (t, t !! key)
  | HashRemove => (delete key t, t !! key)
  | HashEnter => (match t !! key with None => <[key := insert_id]> t | Some _ => t end, t !! key)
  end.

Definition BufTableLookup (m : mem) (key : BufferTag) : option Z :=
  snd (LockedHashSearch (table m) key 0 HashFind).

Definition BufTableDelete (m : mem) (b : Z) : result mem :=
  deref m b ≫= fun d =>
  if has BM_DELETED d then Ok m
  else
    let d1 := lower BM_VALID (raise BM_DELETED d) in
    let '(t, found) := LockedHashSearch (table m) (tag d) 0 HashRemove in
    ereport_unless (bool_decide (is_Some found)) "BufTableDelete:buffer not in table" ≫= fun _ =>
    Ok (set_table t (put_desc b (set_tag CLEAR_BUFFERTAG RELKIND_INVALID d1) m)).

Definition BufTableReplace (m : mem) (b : Z) (key : BufferTag) (relkind : Z) : result (mem * bool) :=
  deref m b ≫= fun d =>
  Assert (negb (has BM_VALID d)) ≫= fun _ =>
  (if has BM_DELETED d then Ok (table m, d)
   else
     let '(t, found) := LockedHashSearch (table m) (tag d) 0 HashRemove in
     ereport_unless (bool_decide (is_Some found)) "BufTableReplace:buffer not in table" ≫= fun _ =>
     Ok (t, raise BM_DELETED d)) ≫= fun '(t, d1) =>
  match LockedHashSearch t key b HashEnter with
  | (t', None) =>
      Ok (set_table t' (put_desc b (lower BM_DELETED (raise BM_VALID (set_tag key relkind d1))) m), true)
  | (t', Some _) =>
      Ok (set_table t' (put_desc b (set_tag CLEAR_BUFFERTAG RELKIND_INVALID d1) m), false)
  end.

(** ** Set-up and growth ([buf_init.c], [freelist.c]) *)

(** The loop of [InitializeBuffers] over all [MaxBuffers] descriptors; the kind
    of a fresh descriptor is what the memory held. *)
Definition InitializeBuffers (m : mem) : mem :=
  let init i d :=
    mkBufferDesc (if i =? MaxBuffers m - 1 then INVALID_DESCRIPTOR else i + 1)
      CLEAR_BUFFERTAG (kind d)
      (if NBuffers m <=? i then Z.lor (Z.lor BM_DELETED BM_FREE) BM_RETIRED else Z.lor BM_DELETED BM_FREE)
      0 0 0 0 0 in
  set_descs (fun i => if (0 <=? i) && (i <? MaxBuffers m) then init i (BufferDescriptors m i)
                      else BufferDescriptors m i) m.

(** [InitFreeList(true)]; [split] is [NBuffers * reserve]. *)
Definition InitFreeList (m : mem) (split : Z) : mem :=
  let link i d :=
    set_freeNext (if (negb (split =? 0) && (i =? split - 1)) || (i =? NBuffers m - 1)
                  then INVALID_DESCRIPTOR else i + 1) (raise BM_FREE d) in
  mkMem (MaxBuffers m) (NBuffers m) (lingeringbuffers m)
    (fun i => if (0 <=? i) && (i <? NBuffers m) then link i (BufferDescriptors m i)
              else BufferDescriptors m i)
    (mkFreeList split (NBuffers m - 1) 0)
    (if split =? 0 then None else Some (mkFreeList 0 (split - 1) 0))
    (table m).

(** [InitBufferPool]: descriptors, an empty table, the lists. *)
Definition InitBufferPool (m : mem) (split : Z) : mem :=
  InitFreeList (set_table ∅ (InitializeBuffers m)) split.

(** [AddMoreBuffers] below the maximum (the only way [InitiateFlush] calls it):
    the next [count] descriptors leave their retirement and their chain goes to
    the tail of the list.  With nothing to add, [buf] is still [NULL] when
    [buf->freeNext] is assigned. *)
Definition AddMoreBuffers (m : mem) (count : Z) : result mem :=
  let n := Z.min count (MaxBuffers m - NBuffers m) in
  let activate i d := if (NBuffers m <=? i) && (i <? NBuffers m + n) then lower BM_RETIRED d else d in
  let m1 := set_descs (fun i => activate i (BufferDescriptors m i)) m in
  ereport_unless (0 <? n) "AddMoreBuffers: null pointer" ≫= fun _ =>
  let m2 := modify_desc (NBuffers m + n - 1) (set_freeNext INVALID_DESCRIPTOR) m1 in
  AddBuffersToTail m2 (NBuffers m) ≫= fun m3 =>
  Ok (set_NBuffers (NBuffers m + n) m3).

(** ** Assertions and flags *)

Lemma Assert_true b : b = true -> Assert b = Ok ().
Proof. by intros ->. Qed.

(** Discharges the assertions of a section. *)
Ltac asserts := repeat (rewrite Assert_true by (done || lia); cbn [mbind result_bind]).

Lemma has_raise m k d : has m (raise k d) = has m d || flag k m.
Proof. apply flag_lor. Qed.
Lemma has_lower m k d : m = 2 ^ Z.log2 m -> has m (lower k d) = has m d && negb (flag k m).
Proof. apply flag_clear. Qed.

Lemma has_frame m d d' : locflags d' = locflags d -> has m d' = has m d.
Proof. unfold has. by intros ->. Qed.

Create HintDb desc discriminated.
#[export] Hint Rewrite has_raise : desc.
#[export] Hint Rewrite has_lower using reflexivity : desc.

(** Evaluates the flag tests of a descriptor that was built by assignments. *)
Ltac flags :=
  repeat (autorewrite with desc;
    repeat match goal with
    | |- context [has ?m (set_freeNext ?x ?d)] => change (has m (set_freeNext x d)) with (has m d)
    | |- context [has ?m (set_tag ?x ?y ?d)] => change (has m (set_tag x y d)) with (has m d)
    | |- context [has ?m (set_counts ?x ?y ?d)] => change (has m (set_counts x y d)) with (has m d)
    | |- context [has ?m (set_p_waiting ?x ?d)] => change (has m (set_p_waiting x d)) with (has m d)
    | |- context [has ?m (set_e_waiting ?x ?d)] => change (has m (set_e_waiting x d)) with (has m d)
    | |- context [has ?m (set_bias ?x ?d)] => change (has m (set_bias x d)) with (has m d)
    | |- context [flag ?a ?b] =>
        let v := eval vm_compute in (flag a b) in
        first [constr_eq v true | constr_eq v false]; change (flag a b) with v
    end);
  cbn [negb]; rewrite ?andb_true_r, ?andb_false_r, ?orb_true_r, ?orb_false_r.
