(* ===== verification/FreelistInv.v ===== *)
(** * The buffer pool under concurrency

    The threads of the server run the critical sections of [Freelist.v] in any
    order.  What a thread still has to do for a buffer - link it into a list,
    look at a candidate it took off the list, replace its contents, give a pin
    back - is a [task], a pair of a buffer and a [role]; the state of the system is the shared memory and the
    bag of tasks ([sys]).  A step ([step]) consumes a task, runs a section and
    leaves the tasks that follow from it, the way [BufferAlloc], [ManualPin],
    [ManualUnpin], [PutFreeBuffer] and [GetFreeBuffer] call the sections.
    [BufTableLookup] does not appear as a step: its result is read after the
    table lock is gone, so a thread may try to pin any buffer ([EPin]).

    Main results ([FreelistSafe.v]): in every interleaving that avoids two windows ([calm]) no
    assertion fails and no descriptor outside of the array is touched, the
    lists are exactly the unlinked-or-linked free buffers, and no buffer is
    lost ([pool_invariant]); a page is in one buffer at most
    ([one_buffer_per_page]); a buffer that is being replaced has one user
    ([replaced_buffer_exclusive]).  The windows are real: [PutFreeBuffer] can
    drop a buffer for good ([PutFreeBuffer_leaks]) or expose one that is not
    linked yet, through which [ManualPin] reads outside of the array
    ([PutFreeBuffer_window]); a list that once had a single buffer appended keeps
    a stale tail ([single_buffer_stale_tail]). *)

From Stdlib Require Import ZifyBool.
From S2P Require Import Prelude Freelist.

(** ** Tasks and events *)

Inductive role :=
| RTail                      (** flagged free, [SetTailBuffer] to come *)
| RHead                      (** flagged free, [SetHead] to come *)
| RExamine                   (** taken off the list by [GetHead], to be looked at *)
| RReplace                   (** returned by [GetFreeBuffer], [BufTableReplace] to come *)
| RPut                       (** [BufTableReplace] failed, [PutFreeBuffer] to come *)
| RHold (access : bool)      (** a pin *)
| RScan (access : bool)      (** a pin, in [RemoveNearestNeighbor] with the guard held *)
| RWait                      (** waits in [ManualPin] *)
| RLost.                     (** no thread: a count that [PutFreeBuffer] left behind *)

#[export] Instance role_eq_dec : EqDecision role.
Proof. solve_decision. Defined.

Notation task := (Z * role)%type.

Record sys := mkSys { smem : mem; tasks : list task }.

Inductive event :=
| EPin (b : Z) (access : bool)
| EWake (b : Z)
| EScan (b : Z) (access trylock : bool)
| EUnpin (b : Z) (access : bool)
| ESetTail (b : Z)
| ESetHead (b : Z)
| EGet (w : which)
| ECheck (b : Z)
| EReplace (b : Z) (key : BufferTag) (relkind : Z)
| EPut (b : Z)
| EDelete (b : Z)
| EBias (b : Z)
| ELock (b flags waiting : Z)
| EAdd (count : Z).

(** The guard of a descriptor is in the hands of a thread that scans. *)
Definition guarded (s : sys) (b : Z) : bool :=
  existsb (fun t => bool_decide (t = (b, RScan true)) || bool_decide (t = (b, RScan false))) (tasks s).

Definition unguarded (s : sys) (b : Z) : option unit := if guarded s b then None else Some ().
Definition unguarded_tail (s : sys) (w : which) : option unit :=
  match tail_buffer (list_of (smem s) w) with None => Some () | Some t => unguarded s t end.

(** The other tasks, when a thread is at the point that the task says. *)
Fixpoint remove_task (t : task) (ts : list task) : option (list task) :=
  match ts with
  | [] => None
  | u :: ts => if decide (t = u) then Some ts else (cons u) <$> remove_task t ts
  end.
Definition at_task (s : sys) (t : task) : option (list task) := remove_task t (tasks s).

Definition require (b : bool) : option unit := if b then Some () else None.

(** What a thread does after the section of a pin. *)
Definition after_pin (b : Z) (access : bool) (p : pin_result) (ts : list task) : list task :=
  match p with
  | PinFailed => ts
  | PinWaits => (b, RWait) :: ts
  | PinScans => (b, RScan access) :: ts
  | PinDone => (b, RHold access) :: ts
  end.

(** [LockBuffer] and [UnlockIndividualBuffer] change the lock bits and the
    number of threads that wait for an exclusive lock. *)
Definition lock_bits (flags waiting : Z) (d : BufferDesc) : BufferDesc :=
  let m := Z.lor BM_WRITELOCK BM_EXCLUSIVE in
  set_e_waiting waiting (raise (Z.land flags m) (lower m d)).

(** One section of one thread; [None]: no thread can do this now. *)
Definition step (s : sys) (e : event) : option (result sys) :=
  let m := smem s in
  match e with
  | EPin b access =>
      require ((0 <=? b) && (b <? MaxBuffers m)) ≫= fun _ => unguarded s b ≫= fun _ =>
      Some ('(m', p) ← ManualPin m b access; Ok (mkSys m' (after_pin b access p (tasks s))))
  | EWake b =>
      at_task s (b, RWait) ≫= fun ts => unguarded s b ≫= fun _ =>
      Some ('(m', p) ← ManualPin_wake m b; Ok (mkSys m' (after_pin b true p ts)))
  | EScan b access trylock =>
      at_task s (b, RScan access) ≫= fun ts =>
      require (negb (trylock && guarded s (freeNext (BufferDescriptors m b)))) ≫= fun _ =>
      Some ('(m', r) ← RemoveNearestNeighbor m b trylock;
            Ok (mkSys m' (match r with
                          | ScanMore => (b, RScan access) :: ts
                          | ScanDone None => (b, RHold access) :: ts
                          | ScanDone (Some n) => (b, RHold access) :: (n, RTail) :: ts
                          end)))
  | EUnpin b access =>
      at_task s (b, RHold access) ≫= fun ts => unguarded s b ≫= fun _ =>
      Some ('(m', add) ← ManualUnpin m b access;
            Ok (mkSys m' (if (add : bool) then (b, RTail) :: ts else ts)))
  | ESetTail b =>
      at_task s (b, RTail) ≫= fun ts =>
      unguarded_tail s (list_for m (BufferDescriptors m b)) ≫= fun _ =>
      Some (m' ← SetTailBuffer m b; Ok (mkSys m' ts))
  | ESetHead b =>
      at_task s (b, RHead) ≫= fun ts => unguarded s b ≫= fun _ =>
      Some (m' ← SetHead m b; Ok (mkSys m' ts))
  | EGet w =>
      require (negb (head (list_of m w) =? INVALID_DESCRIPTOR)) ≫= fun _ =>
      unguarded s (head (list_of m w)) ≫= fun _ =>
      Some ('(m', b) ← GetHead m w; Ok (mkSys m' ((b, RExamine) :: tasks s)))
  | ECheck b =>
      at_task s (b, RExamine) ≫= fun ts => unguarded s b ≫= fun _ =>
      Some ('(m', r) ← GetFreeBuffer m b;
            Ok (mkSys m' (match r with
                          | Dropped => ts
                          | Requeued => (b, RTail) :: ts
                          | Taken => (b, RReplace) :: ts
                          end)))
  | EReplace b key relkind =>
      at_task s (b, RReplace) ≫= fun ts => unguarded s b ≫= fun _ =>
      Some ('(m', used) ← BufTableReplace m b key relkind;
            Ok (mkSys m' ((b, if (used : bool) then RHold true else RPut) :: ts)))
  | EPut b =>
      at_task s (b, RPut) ≫= fun ts => unguarded s b ≫= fun _ =>
      Some ('(m', put) ← PutFreeBuffer m b;
            Ok (mkSys m' ((b, if (put : bool) then RHead else RLost) :: ts)))
  | EDelete b =>
      at_task s (b, RHold true) ≫= fun _ => unguarded s b ≫= fun _ =>
      Some (m' ← BufTableDelete m b; Ok (mkSys m' (tasks s)))
  | EBias b =>
      require ((0 <=? b) && (b <? MaxBuffers m)) ≫= fun _ => unguarded s b ≫= fun _ =>
      Some (m' ← BiasPinned m b; Ok (mkSys m' (tasks s)))
  | ELock b flags waiting =>
      at_task s (b, RHold true) ≫= fun _ => unguarded s b ≫= fun _ =>
      Some (Ok (mkSys (modify_desc b (lock_bits flags waiting) m) (tasks s)))
  | EAdd count =>
      require (NBuffers m <? MaxBuffers m) ≫= fun _ => unguarded_tail s Master ≫= fun _ =>
      Some (m' ← AddMoreBuffers m count; Ok (mkSys m' (tasks s)))
  end.

(** A history of the system; the first error ends it. *)
Fixpoint run (s : sys) (es : list event) : option (result sys) :=
  match es with
  | [] => Some (Ok s)
  | e :: es => step s e ≫= fun r =>
      match r with Ok s' => run s' es | Err msg => Some (Err msg) end
  end.

(** The windows: a pin meets a buffer that [PutFreeBuffer] has flagged and not
    yet linked; a single buffer is added to the pool. *)
Definition calm_event (s : sys) (e : event) : bool :=
  match e with
  | EPin b _ | EWake b => negb (bool_decide ((b, RHead) ∈ tasks s))
  | EAdd count => 2 <=? Z.min count (MaxBuffers (smem s) - NBuffers (smem s))
  | _ => true
  end.

Fixpoint calm (s : sys) (es : list event) : bool :=
  match es with
  | [] => true
  | e :: es => calm_event s e &&
      match step s e with Some (Ok s') => calm s' es | _ => true end
  end.

(** The pool after start-up, with nobody at work. *)
Definition start (nbuffers maxbuffers split : Z) (lingering : bool) (junk : Z -> BufferDesc) : sys :=
  mkSys (InitBufferPool (mkMem maxbuffers nbuffers lingering junk
           (mkFreeList 0 0 0) None ∅) split) [].

(** ** Counting tasks *)

Fixpoint cnt (ts : list task) (b : Z) (r : role) : nat :=
  match ts with
  | [] => 0
  | t :: ts => (if decide (t = (b, r)) then 1 else 0) + cnt ts b r
  end%nat.

(** One more task of a role. *)
Definition inc (r0 : role) (p : role -> nat) (r : role) : nat :=
  ((if decide (r0 = r) then 1 else 0) + p r)%nat.

Lemma cnt_cons_same ts b r0 r : cnt ((b, r0) :: ts) b r = inc r0 (cnt ts b) r.
Proof. unfold inc. simpl. repeat case_decide; naive_solver. Qed.

Lemma cnt_cons_other ts b c r0 r : c <> b -> cnt ((b, r0) :: ts) c r = cnt ts c r.
Proof. intros. simpl. case_decide; naive_solver. Qed.

Lemma cnt_perm ts ts' b r : ts ≡ₚ ts' -> cnt ts b r = cnt ts' b r.
Proof. induction 1; simpl; lia. Qed.

Lemma remove_task_perm t ts ts' : remove_task t ts = Some ts' -> ts ≡ₚ t :: ts'.
Proof.
  revert ts'. induction ts as [|u ts IH]; intros ts'; simpl; [done|].
  case_decide as E; [naive_solver|]. destruct (remove_task t ts); simpl; intros [= <-].
  rewrite (IH _ eq_refl). constructor.
Qed.

Lemma cnt_elem ts b r : (b, r) ∈ ts <-> cnt ts b r <> 0%nat.
Proof.
  induction ts as [|u ts IH]; simpl; [set_solver|].
  rewrite elem_of_cons, IH. case_decide; naive_solver lia.
Qed.

Definition holds (p : role -> nat) : nat :=
  (p (RHold true) + p (RHold false) + p (RScan true) + p (RScan false)
   + p RReplace + p RPut + p RLost)%nat.
Definition accesses (p : role -> nat) : nat :=
  (p (RHold true) + p (RScan true) + p RReplace + p RPut + p RLost)%nat.
(** Flagged free and not linked yet. *)
Definition unlinked (p : role -> nat) : nat := (p RTail + p RHead)%nat.

Lemma holds_length ts b : (holds (cnt ts b) <= length ts)%nat.
Proof.
  unfold holds. induction ts as [|[c r] ts IH]; simpl; [lia|].
  destruct r as [| | | | |[]|[]| |]; repeat case_decide; simplify_eq; lia.
Qed.

(** ** Linked lists of descriptors *)

Fixpoint chain (nx : Z -> Z) (h : Z) (L : list Z) : Prop :=
  match L with
  | [] => h = INVALID_DESCRIPTOR
  | x :: L => h = x /\ chain nx (nx x) L
  end.

Lemma links_frame nx nx' h L : (forall x, x ∈ L -> nx' x = nx x) -> chain nx h L -> chain nx' h L.
Proof.
  revert h. induction L as [|x L IH]; intros h Hx; simpl; [done|].
  intros [-> Hc]. split; [done|]. rewrite Hx by set_solver. apply IH; set_solver.
Qed.

Lemma chain_snoc nx h A t : chain nx h (A ++ [t]) -> nx t = INVALID_DESCRIPTOR.
Proof. revert h. induction A; intros h; simpl; naive_solver. Qed.

(** Appending a chain to the last element. *)
Lemma chain_append nx h A t b K : NoDup (A ++ [t]) -> (forall x, x ∈ K -> x ∉ A ++ [t]) ->
  chain nx h (A ++ [t]) -> chain nx b K -> chain (upd nx t b) h ((A ++ [t]) ++ K).
Proof.
  revert h. induction A as [|a A IH]; intros h Hnd Hdis; simpl.
  - intros [-> _] Hk. split; [done|]. rewrite upd_eq.
    eapply links_frame; [|done]. intros x Hx. apply upd_ne. set_solver.
  - intros [-> Hc] Hk. apply NoDup_cons in Hnd as [Ha Hnd]. split; [done|].
    rewrite upd_ne by set_solver. apply IH; set_solver.
Qed.

(** The middle of a chain and the removal of an element from it. *)
Lemma chain_mid nx h A b C : chain nx h (A ++ b :: C) -> chain nx (nx b) C.
Proof. revert h. induction A; intros h; simpl; naive_solver. Qed.

Lemma chain_remove nx h A b n C x : NoDup (A ++ b :: n :: C) ->
  chain nx h (A ++ b :: n :: C) -> chain (upd (upd nx b (nx n)) n x) h (A ++ b :: C).
Proof.
  revert h. induction A as [|a A IH]; intros h; simpl.
  - rewrite !NoDup_cons. intros (Hb & Hn & _) (-> & <- & Hc). split; [done|].
    rewrite upd_ne, upd_eq by set_solver. eapply links_frame; [|done].
    intros y Hy. rewrite !upd_ne; set_solver.
  - rewrite NoDup_cons. intros [Ha Hnd] [-> Hc]. split; [done|].
    rewrite !upd_ne by set_solver. auto.
Qed.

Lemma chain_in nx h L b : chain nx h L -> b ∈ L -> nx b <> INVALID_DESCRIPTOR ->
  exists A C, L = A ++ b :: nx b :: C.
Proof.
  intros Hc (A & C & ->)%list_elem_of_split Hb. apply chain_mid in Hc.
  destruct C as [|n C]; simpl in Hc; [done|]. destruct Hc as [-> _]. eauto.
Qed.

(** The [tail] field of a list: the last of two or more. *)
Fixpoint last_elem (x : Z) (L : list Z) : Z :=
  match L with [] => x | y :: L => last_elem y L end.
Definition tail_for (L : list Z) : Z :=
  match L with x :: y :: L => last_elem y L | _ => INVALID_DESCRIPTOR end.

Lemma last_elem_snoc x A t : last_elem x (A ++ [t]) = t.
Proof. revert x. induction A; intros x; simpl; auto. Qed.

Lemma tail_for_snoc A t : A <> [] -> tail_for (A ++ [t]) = t.
Proof. destruct A as [|x [|y A]]; simpl; [done|done|]. intros _. apply last_elem_snoc. Qed.

Lemma last_elem_in x L : last_elem x L ∈ x :: L.
Proof. revert x. induction L as [|y L IH]; intros x; simpl; [set_solver|]. specialize (IH y). set_solver. Qed.

Lemma tail_buffer_spec nx l L : chain nx (head l) L -> tail l = tail_for L -> Forall (fun x => 0 <= x) L ->
  match tail_buffer l with
  | None => L = []
  | Some t => exists A, L = A ++ [t]
  end.
Proof.
  unfold tail_buffer. intros Hc Ht Hpos. destruct L as [|x L] using rev_ind; simpl in *.
  - by rewrite Hc.
  - clear IHL. destruct L as [|y L]; simpl in *.
    + destruct Hc as [-> _]. inversion_clear Hpos. rewrite Ht. unfold INVALID_DESCRIPTOR.
      destruct (Z.eqb_spec x (-3)); [lia|]. simpl. by exists [].
    + destruct Hc as [-> _]. inversion_clear Hpos. unfold INVALID_DESCRIPTOR in *.
      destruct (Z.eqb_spec y (-3)); [lia|].
      assert (tail l = x) as -> by (rewrite Ht; exact (tail_for_snoc (y :: L) x ltac:(done))).
      apply Forall_app in H0 as [_ Hx]. inversion_clear Hx.
      destruct (Z.eqb_spec x (-3)); [lia|]. by exists (y :: L).
Qed.

(** ** The invariant *)

(** One active buffer: its descriptor, the tasks on it and whether it is linked. *)
Record b_ok (d : BufferDesc) (p : role -> nat) (linked : bool) : Prop := {
  ok_free : has BM_FREE d = true ->
    (linked = true /\ unlinked p = 0%nat) \/ (linked = false /\ unlinked p = 1%nat);
  ok_used : has BM_FREE d = false ->
    linked = false /\ unlinked p = 0%nat /\ freeNext d = DETACHED_DESCRIPTOR;
  ok_tail : p RTail <> 0%nat -> freeNext d = INVALID_DESCRIPTOR;
  ok_head : p RHead <> 0%nat -> freeNext d = DETACHED_DESCRIPTOR /\ p (RScan true) = 0%nat /\ p (RScan false) = 0%nat;
  ok_ref : refCount d = Z.of_nat (holds p);
  ok_access : pageaccess d = Z.of_nat (accesses p);
  ok_owner : (p RReplace + p RPut + p RLost <> 0)%nat -> holds p = 1%nat /\ has BM_VALID d = false;
  ok_deleted : (p RPut + p RLost <> 0)%nat -> has BM_DELETED d = true;
  ok_zero : holds p = 0%nat -> has BM_FREE d = true \/ p RExamine <> 0%nat;
  ok_scan : (p (RScan true) + p (RScan false) <> 0)%nat -> has BM_FREE d = true;
  ok_valid : has BM_VALID d = true -> has BM_DELETED d = false;
  ok_active : has BM_RETIRED d = false
}.

(** A descriptor that the pool has not grown to yet. *)
Record reserve_ok (max b : Z) (d : BufferDesc) : Prop := {
  res_free : has BM_FREE d = true;
  res_retired : has BM_RETIRED d = true;
  res_deleted : has BM_DELETED d = true;
  res_valid : has BM_VALID d = false;
  res_ref : refCount d = 0;
  res_access : pageaccess d = 0;
  res_next : freeNext d = if b =? max - 1 then INVALID_DESCRIPTOR else b + 1
}.

Definition linked (L : which -> list Z) (b : Z) : bool :=
  bool_decide (b ∈ L Master) || bool_decide (b ∈ L Index).

Lemma linked_true L b : linked L b = true <-> exists w, b ∈ L w.
Proof.
  unfold linked. rewrite orb_true_iff, !bool_decide_eq_true. split; [naive_solver|].
  intros [[] ?]; auto.
Qed.

(** The table maps a tag to the buffer that has it. *)
Definition table_ok (m : mem) : Prop := forall t b,
  table m !! t = Some b <->
  0 <= b < NBuffers m /\ has BM_DELETED (BufferDescriptors m b) = false /\ tag (BufferDescriptors m b) = t.

Notation nexts m := (fun b => freeNext (BufferDescriptors m b)).

Record lists_ok (m : mem) (L : which -> list Z) : Prop := {
  lists_chain w : chain (nexts m) (head (list_of m w)) (L w);
  lists_tail w : tail (list_of m w) = tail_for (L w);
  lists_nodup w : NoDup (L w);
  lists_disjoint b w w' : b ∈ L w -> b ∈ L w' -> w = w';
  lists_range b : linked L b = true -> 0 <= b < NBuffers m
}.

Record inv (n : Z) (s : sys) (L : which -> list Z) : Prop := {
  inv_sizes : 0 <= NBuffers (smem s) <= MaxBuffers (smem s);
  inv_lists : lists_ok (smem s) L;
  inv_buf b : 0 <= b < NBuffers (smem s) ->
    b_ok (BufferDescriptors (smem s) b) (cnt (tasks s) b) (linked L b);
  inv_res b : NBuffers (smem s) <= b < MaxBuffers (smem s) ->
    reserve_ok (MaxBuffers (smem s)) b (BufferDescriptors (smem s) b);
  inv_out b r : ~ (0 <= b < NBuffers (smem s)) -> cnt (tasks s) b r = 0%nat;
  inv_table : table_ok (smem s);
  inv_len : Zlen (tasks s) <= n
}.

(** ** How the sections change one descriptor *)

(** Evaluates the counts of concrete roles. *)
Ltac roles :=
  unfold holds, accesses, unlinked, inc in *;
  repeat match goal with
  | H : context [decide (?a = ?b)] |- _ =>
      destruct (decide (a = b)) as [?E|?E]; [try discriminate E|try (exfalso; apply E; reflexivity)]; clear E
  | |- context [decide (?a = ?b)] =>
      destruct (decide (a = b)) as [?E|?E]; [try discriminate E|try (exfalso; apply E; reflexivity)]; clear E
  end; simpl in *.

(** Proves that a descriptor built by assignments is fine: one goal per field,
    the old fields and the flag tests as facts. *)
Ltac b_ok_auto :=
  match goal with H : b_ok _ _ _ |- _ => destruct H end;
  roles; cbn [freeNext refCount pageaccess] in *;
  split; flags; roles; cbn [freeNext refCount pageaccess set_freeNext set_counts set_tag set_bias
    set_p_waiting set_e_waiting raise lower set_locflags]; intros; lia.

Lemma b_ok_ext d d' p p' (l l' : bool) :
  b_ok d p l ->
  freeNext d' = freeNext d -> refCount d' = refCount d -> pageaccess d' = pageaccess d ->
  has BM_FREE d' = has BM_FREE d -> has BM_VALID d' = has BM_VALID d ->
  has BM_DELETED d' = has BM_DELETED d -> has BM_RETIRED d' = has BM_RETIRED d ->
  (forall r, r <> RWait -> p' r = p r) -> l' = l -> b_ok d' p' l'.
Proof.
  intros [] E1 E2 E3 E4 E5 E6 E7 Hp ->.
  split; unfold holds, accesses, unlinked in *; rewrite ?E1, ?E2, ?E3, ?E4, ?E5, ?E6, ?E7, ?Hp by done; done.
Qed.

(** The link of a linked buffer is free to change. *)
Lemma b_ok_relink x d p : b_ok d p true -> b_ok (set_freeNext x d) p true.
Proof. intros H. b_ok_auto. Qed.

Lemma b_ok_pin (access : bool) d p l : has BM_VALID d = true -> p RHead = 0%nat ->
  Z.of_nat (holds p) + 1 < 2 ^ 32 -> b_ok d p l ->
  let d1 := if access then set_counts (refCount d) (u32 (pageaccess d + 1)) d else d in
  let d2 := set_counts (u32 (refCount d1 + 1)) (pageaccess d1) d1 in
  let d3 := if refCount d =? 0 then raise BM_USED d2 else d2 in
  has BM_FREE d3 = has BM_FREE d /\
  b_ok d3 (inc (if has BM_FREE d then RScan access else RHold access) p) l.
Proof.
  intros Hv Hh Hb H d1 d2 d3.
  assert (refCount d = Z.of_nat (holds p)) as Hr by apply H.
  assert (pageaccess d = Z.of_nat (accesses p)) as Ha by apply H.
  assert (refCount d2 = Z.of_nat (holds p) + 1 /\
          pageaccess d2 = Z.of_nat (accesses p) + (if access then 1 else 0)) as [E1 E2].
  { unfold d2, d1, holds, accesses in *.
    destruct access; simpl; rewrite ?Hr, ?Ha, ?u32_id by lia; lia. }
  assert (locflags d2 = locflags d /\ freeNext d2 = freeNext d) as [E3 E4] by (unfold d2, d1; by destruct access).
  assert (refCount d3 = refCount d2 /\ pageaccess d3 = pageaccess d2 /\ freeNext d3 = freeNext d2)
    as (E5 & E6 & E7) by (unfold d3; by destruct (refCount d =? 0)).
  assert (forall m, m = 2 ^ Z.log2 m -> flag BM_USED m = false -> has m d3 = has m d) as Hf.
  { intros m Hm Hu. unfold d3. destruct (refCount d =? 0); [rewrite has_raise, Hu, orb_false_r|]; by apply has_frame. }
  rewrite E1, E2, E4 in *. clear Hr Ha E1 E2 E3 E4. clearbody d3. clear d1 d2.
  pose proof (Hf BM_FREE eq_refl eq_refl) as F1. pose proof (Hf BM_VALID eq_refl eq_refl) as F2.
  pose proof (Hf BM_DELETED eq_refl eq_refl) as F3. pose proof (Hf BM_RETIRED eq_refl eq_refl) as F4.
  clear Hb Hf. split; [done|]. destruct H, access, (has BM_FREE d);
    split; rewrite ?F1, ?F2, ?F3, ?F4, ?E5, ?E6, ?E7; clear F1 F2 F3 F4 E5 E6 E7; roles; intros; lia.
Qed.

Lemma b_ok_scanned (access : bool) d p l :
  b_ok d (inc (RScan access) p) l -> b_ok d (inc (RHold access) p) l.
Proof. intros H. destruct access; b_ok_auto. Qed.

Lemma b_ok_unpin (access : bool) d p l : b_ok d (inc (RHold access) p) l ->
  Z.of_nat (S (holds p)) < 2 ^ 32 ->
  let d1 := set_counts (u32 (refCount d - 1)) (if access then u32 (pageaccess d - 1) else pageaccess d) d in
  refCount d1 = Z.of_nat (holds p) /\
  ((holds p <> 0%nat \/ has BM_FREE d = true) -> b_ok d1 p l) /\
  (holds p = 0%nat -> has BM_FREE d = false ->
     freeNext d = DETACHED_DESCRIPTOR /\
     b_ok (set_freeNext INVALID_DESCRIPTOR (raise BM_FREE (lower BM_USED d1))) (inc RTail p) l).
Proof.
  intros H Hb d1.
  assert (refCount d1 = Z.of_nat (holds p) /\ pageaccess d1 = Z.of_nat (accesses p)) as [E1 E2].
  { unfold d1. cbn [refCount pageaccess set_counts]. rewrite (ok_ref _ _ _ H), (ok_access _ _ _ H).
    destruct access; roles; rewrite ?u32_id by lia; lia. }
  assert (locflags d1 = locflags d /\ freeNext d1 = freeNext d) as [E3 E4] by done. clearbody d1.
  split; [done|]. split.
  - intros Hor. destruct H. split; rewrite ?(has_frame _ _ _ E3), ?E1, ?E2, ?E4;
      destruct access; roles; intros; try lia.
  - intros H0 Hf. split; [destruct H; naive_solver|].
    destruct H. split; flags; rewrite ?(has_frame _ _ _ E3);
      cbn [freeNext refCount pageaccess set_freeNext raise lower set_locflags]; rewrite ?E1, ?E2;
      destruct access; roles; intros; try lia.
Qed.

(** [GetHead] takes a buffer off the list. *)
Lemma b_ok_pop d p : b_ok d p true -> p (RScan true) = 0%nat -> p (RScan false) = 0%nat ->
  b_ok (set_freeNext DETACHED_DESCRIPTOR (lower BM_FREE d)) (inc RExamine p) false.
Proof. intros H ? ?. b_ok_auto. Qed.

(** [RemoveNearestNeighbor] drops a pinned neighbour, or moves one to the tail. *)
Lemma b_ok_drop d p : b_ok d p true -> p (RScan true) = 0%nat -> p (RScan false) = 0%nat ->
  0 < refCount d ->
  b_ok (set_freeNext DETACHED_DESCRIPTOR (lower (Z.lor BM_FREE BM_USED) d)) p false.
Proof. intros H ? ? ?. b_ok_auto. Qed.

Lemma b_ok_move d p : b_ok d p true ->
  b_ok (set_freeNext INVALID_DESCRIPTOR (lower BM_USED d)) (inc RTail p) false.
Proof. intros H. b_ok_auto. Qed.

(** [SetTailBuffer] and [SetHead] link a buffer. *)
Lemma b_ok_link_tail d p l : b_ok d (inc RTail p) l -> b_ok d p true.
Proof. intros H. b_ok_auto. Qed.

Lemma b_ok_link_head x d p l : b_ok d (inc RHead p) l -> b_ok (set_freeNext x d) p true.
Proof. intros H. b_ok_auto. Qed.

(** [GetFreeBuffer] looks at the candidate. *)
Lemma b_ok_dropped d p l : b_ok d (inc RExamine p) l -> 0 < refCount d \/ has BM_FREE d = true ->
  b_ok (lower BM_USED d) p l.
Proof. intros H Hor. b_ok_auto. Qed.

Lemma b_ok_requeued d p l : b_ok d (inc RExamine p) l -> has BM_FREE d = false ->
  b_ok (set_freeNext INVALID_DESCRIPTOR (raise BM_FREE d)) (inc RTail p) l.
Proof. intros H Hf. b_ok_auto. Qed.

Lemma b_ok_taken d p l : b_ok d (inc RExamine p) l -> refCount d = 0 ->
  b_ok (lower BM_USED (set_counts 1 1 (lower BM_VALID d))) (inc RReplace p) l.
Proof. intros H Hr. b_ok_auto. Qed.

(** [PutFreeBuffer]. *)
Lemma b_ok_put d p l : b_ok d (inc RPut p) l -> has BM_FREE d = false ->
  b_ok (raise BM_FREE (set_counts 0 0 (lower BM_USED d))) (inc RHead p) l.
Proof. intros H Hf. b_ok_auto. Qed.

Lemma b_ok_lost d p l : b_ok d (inc RPut p) l -> b_ok d (inc RLost p) l.
Proof. intros H. b_ok_auto. Qed.

(** The buffer table. *)
Lemma b_ok_replaced d d' p l : b_ok d (inc RReplace p) l ->
  freeNext d' = freeNext d -> refCount d' = refCount d -> pageaccess d' = pageaccess d ->
  has BM_FREE d' = has BM_FREE d -> has BM_RETIRED d' = has BM_RETIRED d ->
  (has BM_VALID d' = true -> has BM_DELETED d' = false -> b_ok d' (inc (RHold true) p) l) /\
  (has BM_VALID d' = false -> has BM_DELETED d' = true -> b_ok d' (inc RPut p) l).
Proof.
  intros [] E1 E2 E3 E4 E5.
  split; intros E6 E7; split; rewrite ?E1, ?E2, ?E3, ?E4, ?E5, ?E6, ?E7; clear E1 E2 E3 E4 E5 E6 E7; roles; intros; lia.
Qed.

Lemma b_ok_invalidate t k d p l : b_ok d p l -> p (RHold true) <> 0%nat ->
  b_ok (set_tag t k (lower BM_VALID (raise BM_DELETED d))) p l.
Proof. intros H Hp. b_ok_auto. Qed.

(** A descriptor that leaves the reserve. *)
Lemma b_ok_activate max b d d' : reserve_ok max b d ->
  locflags d' = Z.land (locflags d) (Z.lnot BM_RETIRED) -> refCount d' = 0 -> pageaccess d' = 0 ->
  b_ok d' (fun _ => 0%nat) true.
Proof.
  intros [] El E2 E3.
  assert (forall m, has m d' = has m (lower BM_RETIRED d)) as Hh by (intros; by apply has_frame).
  split; rewrite ?Hh; flags; rewrite ?E2, ?E3; unfold holds, accesses, unlinked; intros; lia.
Qed.
