(* ===== verification/FreelistSafe.v ===== *)
(** * The buffer pool: safety in every interleaving

    The proofs that the steps of [FreelistInv.v] keep its invariant, one lemma
    per step, and what follows from it: the claims about the pool and the
    histories that show its defects. *)

From Stdlib Require Import ZifyBool.
From S2P Require Import Prelude Freelist FreelistInv.

(** ** Frames *)

Lemma deref_ok m i : 0 <= i < MaxBuffers m -> deref m i = Ok (BufferDescriptors m i).
Proof. intros. unfold deref. by replace ((0 <=? i) && (i <? MaxBuffers m)) with true by lia. Qed.

Lemma table_ok_frame m m' : table_ok m -> table m' = table m -> NBuffers m' = NBuffers m ->
  (forall b, 0 <= b < NBuffers m -> has BM_DELETED (BufferDescriptors m' b) = has BM_DELETED (BufferDescriptors m b) /\
             tag (BufferDescriptors m' b) = tag (BufferDescriptors m b)) ->
  table_ok m'.
Proof.
  intros H E1 E2 Hd t b. rewrite E1, E2, (H t b).
  split; intros (Hb & ?); destruct (Hd b Hb) as [? ?]; split; try done; split; intuition congruence.
Qed.

Lemma lists_ok_frame m m' L : lists_ok m L -> (forall w, list_of m' w = list_of m w) ->
  NBuffers m <= NBuffers m' ->
  (forall b, linked L b = true -> freeNext (BufferDescriptors m' b) = freeNext (BufferDescriptors m b)) ->
  lists_ok m' L.
Proof.
  intros [Hc Ht Hn Hd Hr] El En Hf. split; intros; rewrite ?El; eauto.
  - eapply links_frame; [|apply Hc]. intros x Hx. apply Hf, linked_true. eauto.
  - specialize (Hr b). lia.
Qed.

Lemma inv_weaken n n' s L : inv n s L -> n <= n' -> inv n' s L.
Proof. intros [] ?. split; try done. lia. Qed.

Lemma inv_in_range n s L b r : inv n s L -> cnt (tasks s) b r <> 0%nat -> 0 <= b < NBuffers (smem s).
Proof.
  intros H Hc. destruct (decide (0 <= b < NBuffers (smem s))); [done|].
  by rewrite (inv_out _ _ _ H) in Hc.
Qed.

(** A step that changes one descriptor, the table and the tasks on the buffer. *)
Lemma inv_local n n' s L b d' t' ts' :
  inv n s L -> 0 <= b < NBuffers (smem s) ->
  freeNext d' = freeNext (BufferDescriptors (smem s) b) \/ linked L b = false ->
  (forall c r, c <> b -> cnt ts' c r = cnt (tasks s) c r) ->
  b_ok d' (cnt ts' b) (linked L b) ->
  table_ok (set_table t' (put_desc b d' (smem s))) -> Zlen ts' <= n' ->
  inv n' (mkSys (set_table t' (put_desc b d' (smem s))) ts') L.
Proof.
  intros H Hb Hf Hc Hok Ht Hn. pose proof (inv_sizes _ _ _ H).
  destruct H as [_ Hl Hbuf Hres Hout _ _]. split; cbn in *; try done.
  - eapply lists_ok_frame; [done|by intros []|done|]. intros c Hlk. cbn. unfold upd.
    destruct (Z.eqb_spec c b) as [->|]; [|done]. destruct Hf; congruence.
  - intros c Hr. unfold upd. destruct (Z.eqb_spec c b) as [->|]; [done|].
    eapply b_ok_ext; [by apply Hbuf|done..| |done]. auto.
  - intros c Hr. rewrite upd_ne by lia. auto.
  - intros c r Hr. rewrite Hc by (intros ->; lia). auto.
Qed.

(** The same when the table and the identity of the page stay. *)
Lemma inv_desc n n' s L b d' ts' :
  inv n s L -> 0 <= b < NBuffers (smem s) ->
  freeNext d' = freeNext (BufferDescriptors (smem s) b) \/ linked L b = false ->
  has BM_DELETED d' = has BM_DELETED (BufferDescriptors (smem s) b) ->
  tag d' = tag (BufferDescriptors (smem s) b) ->
  (forall c r, c <> b -> cnt ts' c r = cnt (tasks s) c r) ->
  b_ok d' (cnt ts' b) (linked L b) -> Zlen ts' <= n' ->
  inv n' (mkSys (put_desc b d' (smem s)) ts') L.
Proof.
  intros H Hb Hf Hd Ht Hc Hok Hn.
  apply (inv_local n n' s L b d' (table (smem s)) ts'); try done.
  eapply table_ok_frame; [apply H|done|done|]. intros c _. cbn. unfold upd.
  by destruct (Z.eqb_spec c b) as [->|].
Qed.

(** A change of fields that the invariant does not mention. *)
Lemma inv_quiet n s L b d' :
  inv n s L -> let d := BufferDescriptors (smem s) b in
  freeNext d' = freeNext d -> refCount d' = refCount d -> pageaccess d' = pageaccess d -> tag d' = tag d ->
  (forall m, In m [BM_FREE; BM_VALID; BM_DELETED; BM_RETIRED] -> has m d' = has m d) ->
  inv n (mkSys (put_desc b d' (smem s)) (tasks s)) L.
Proof.
  intros H d E1 E2 E3 E4 Hm. subst d. cbn zeta in *.
  pose proof (Hm BM_FREE ltac:(simpl; tauto)) as F1. pose proof (Hm BM_VALID ltac:(simpl; tauto)) as F2.
  pose proof (Hm BM_DELETED ltac:(simpl; tauto)) as F3. pose proof (Hm BM_RETIRED ltac:(simpl; tauto)) as F4.
  destruct H as [? Hl Hbuf Hres Hout Htab ?]. split; cbn in *; try done.
  - eapply lists_ok_frame; [done|by intros []|done|]. intros c _. cbn. unfold upd.
    by destruct (Z.eqb_spec c b) as [->|].
  - intros c Hr. unfold upd. destruct (Z.eqb_spec c b) as [->|]; [|auto].
    eapply b_ok_ext; [by apply Hbuf|done..].
  - intros c Hr. unfold upd. destruct (Z.eqb_spec c b) as [->|]; [|auto].
    destruct (Hres b Hr). split; congruence.
  - eapply table_ok_frame; [done|done|done|]. intros c _. cbn. unfold upd.
    by destruct (Z.eqb_spec c b) as [->|].
Qed.

(** A step that changes the tasks on one buffer only. *)
Lemma inv_tasks n n' s L b ts' : inv n s L -> 0 <= b < NBuffers (smem s) ->
  (forall c r, c <> b -> cnt ts' c r = cnt (tasks s) c r) ->
  b_ok (BufferDescriptors (smem s) b) (cnt ts' b) (linked L b) -> Zlen ts' <= n' ->
  inv n' (mkSys (smem s) ts') L.
Proof.
  intros [? ? Hbuf Hres Hout ? ?] Hb Hc Hok Hn. split; try done; cbn [smem tasks].
  - intros c Hr. destruct (decide (c = b)) as [->|]; [done|].
    eapply b_ok_ext; [by apply Hbuf|done..| |done]. auto.
  - intros c q Hr. rewrite Hc by (intros ->; done). auto.
Qed.

(** ** Tasks of a state *)

Lemma at_task_cnt s b r ts : at_task s (b, r) = Some ts ->
  (forall c q, c <> b -> cnt ts c q = cnt (tasks s) c q) /\
  (forall q, cnt (tasks s) b q = inc r (cnt ts b) q) /\
  Zlen (tasks s) = Zlen ts + 1.
Proof.
  intros Hp%remove_task_perm. split; [|split].
  - intros c q Hc. rewrite (cnt_perm _ _ c q Hp). by rewrite cnt_cons_other.
  - intros q. by rewrite (cnt_perm _ _ b q Hp), cnt_cons_same.
  - rewrite (Permutation_length Hp). simpl. lia.
Qed.

Lemma unguarded_cnt s b : unguarded s b = Some () ->
  cnt (tasks s) b (RScan true) = 0%nat /\ cnt (tasks s) b (RScan false) = 0%nat.
Proof.
  unfold unguarded, guarded. case_match eqn:E; [done|]. intros _.
  assert (forall a, (b, RScan a) ∉ tasks s) as Hn.
  { intros a Hin. apply not_true_iff_false in E. apply E, existsb_exists. exists (b, RScan a).
    split; [by apply list_elem_of_In|]. rewrite orb_true_iff, !bool_decide_eq_true. destruct a; auto. }
  split; destruct (cnt _ _ _) eqn:E'; try done; exfalso; eapply Hn; apply cnt_elem; by rewrite E'.
Qed.

Lemma at_task_ok n s L b r ts : inv n s L -> at_task s (b, r) = Some ts ->
  0 <= b < NBuffers (smem s) /\ 0 <= b < MaxBuffers (smem s) /\
  b_ok (BufferDescriptors (smem s) b) (inc r (cnt ts b)) (linked L b).
Proof.
  intros H Ht. pose proof (at_task_cnt _ _ _ _ Ht) as (_ & Hc & _).
  assert (0 <= b < NBuffers (smem s)) as Hb.
  { eapply inv_in_range; [done|]. rewrite (Hc r). unfold inc. rewrite decide_True; [lia|done]. }
  pose proof (inv_sizes _ _ _ H). split; [done|]. split; [lia|].
  eapply b_ok_ext; [by apply H|done..| |done]. intros q _. by rewrite Hc.
Qed.

(** The result of a step is a good state. *)
Definition good (n : Z) (r : result sys) : Prop := exists s L, r = Ok s /\ inv n s L.

Lemma good_intro n s L : inv n s L -> good n (Ok s).
Proof. intros. by exists s, L. Qed.

(** Counts after [b] got the roles [rs]. *)
Ltac counts :=
  intros; repeat first [rewrite cnt_cons_other by done | rewrite cnt_cons_same]; eauto.

Lemma b_ok_cons d b r ts l : b_ok d (inc r (cnt ts b)) l -> b_ok d (cnt ((b, r) :: ts) b) l.
Proof. intros H. eapply b_ok_ext; [done..| |done]. intros q _. apply cnt_cons_same. Qed.

(** ** Steps on one descriptor *)

Lemma pin_count_good n m ts L b access : inv n (mkSys m ts) L -> n + 1 < 2 ^ 32 ->
  0 <= b < NBuffers m -> cnt ts b RHead = 0%nat ->
  good (n + 1) ('(m', p) ← ManualPin_count m b access; Ok (mkSys m' (after_pin b access p ts))).
Proof.
  intros H Hn Hb Hh. pose proof (inv_sizes _ _ _ H) as Hs. cbn in Hs.
  pose proof (inv_buf _ _ _ H b Hb) as Hok. cbn in Hok.
  unfold ManualPin_count. rewrite deref_ok by lia. cbn [mbind result_bind].
  set (d := BufferDescriptors m b) in *. destruct (has BM_VALID d) eqn:Hv; cbn [mbind result_bind].
  2: { eapply good_intro, inv_weaken; [done|lia]. }
  pose proof (holds_length ts b). pose proof (inv_len _ _ _ H) as Hlen. cbn in Hlen.
  destruct (b_ok_pin access d _ _ Hv Hh ltac:(lia) Hok) as [Hf Hok']. cbv zeta in Hf, Hok'.
  set (d1 := if access then _ else _) in *. set (d2 := set_counts _ _ d1) in *. set (d3 := if refCount d =? 0 then _ else _) in *.
  assert (freeNext d3 = freeNext d /\ tag d3 = tag d /\ has BM_DELETED d3 = has BM_DELETED d) as (E1 & E2 & E3).
  { unfold d3, d2, d1. destruct access, (refCount d =? 0); flags; done. }
  eapply (good_intro _ _ L), (inv_desc n _ (mkSys m ts)); cbn [smem tasks]; try done; fold d.
  - by left.
  - intros c r Hc. rewrite Hf. unfold after_pin. destruct (has BM_FREE d); by rewrite cnt_cons_other.
  - rewrite Hf. unfold after_pin. destruct (has BM_FREE d); by apply b_ok_cons.
  - rewrite Hf. unfold after_pin. destruct (has BM_FREE d); simpl; lia.
Qed.

Lemma cnt_not_elem ts b r : bool_decide ((b, r) ∈ ts) = false -> cnt ts b r = 0%nat.
Proof. intros H%bool_decide_eq_false. rewrite cnt_elem in H. lia. Qed.

Lemma step_pin n s L b access r : inv n s L -> n + 1 < 2 ^ 32 -> calm_event s (EPin b access) = true ->
  step s (EPin b access) = Some r -> good (n + 1) r.
Proof.
  intros H Hn Hcalm. pose proof (inv_sizes _ _ _ H) as Hs. destruct s as [m ts]. cbn in *. bool_cases.
  destruct ((0 <=? b) && (b <? MaxBuffers m)) eqn:Hb; [|done]. bool_cases. cbn.
  destruct (unguarded _ b); [|done]. cbn. intros [= <-].
  unfold ManualPin. rewrite deref_ok by lia. cbn [mbind result_bind].
  destruct (Z.lt_ge_cases b (NBuffers m)) as [Hlt|Hge].
  2: { pose proof (inv_res _ _ _ H b ltac:(cbn; lia)) as Hres. cbn in Hres. rewrite (res_retired _ _ _ Hres). cbn.
       eapply good_intro, inv_weaken; [done|lia]. }
  pose proof (inv_buf _ _ _ H b ltac:(cbn; lia)) as Hok. cbn in Hok. rewrite (ok_active _ _ _ Hok).
  destruct (access && has BM_EXCLUSIVE _); [|by apply pin_count_good with L; [..|lia|by apply cnt_not_elem]].
  cbn [mbind result_bind after_pin]. eapply (good_intro _ _ L), (inv_desc n _ (mkSys m ts)); cbn [smem tasks]; try done.
  - by left.
  - counts.
  - apply b_ok_cons. eapply b_ok_ext; [by apply H|done..| |done]. intros q Hq. cbn. unfold inc. by rewrite decide_False.
  - pose proof (inv_len _ _ _ H). simpl in *. lia.
Qed.

Lemma step_wake n s L b r : inv n s L -> n + 1 < 2 ^ 32 -> calm_event s (EWake b) = true ->
  step s (EWake b) = Some r -> good (n + 1) r.
Proof.
  intros H Hn Hcalm. cbn in *. bool_cases.
  destruct (at_task s (b, RWait)) as [ts|] eqn:Ht; [|done]. cbn.
  destruct (unguarded _ b); [|done]. cbn. intros [= <-].
  destruct (at_task_ok _ _ _ _ _ _ H Ht) as (Hb & Hmax & Hok).
  destruct (at_task_cnt _ _ _ _ Ht) as (Hc & Hp & Hlen). pose proof (inv_len _ _ _ H).
  unfold ManualPin_wake. rewrite deref_ok by lia. cbn [mbind result_bind].
  destruct (has BM_EXCLUSIVE _); cbn [mbind result_bind].
  - eapply (good_intro _ _ L), (inv_tasks n _ s L b); try done; cbn [after_pin]; [counts|by apply b_ok_cons|simpl; lia].
  - apply pin_count_good with L; [|done|done|].
    2: { apply cnt_not_elem in Hcalm. rewrite Hp in Hcalm. unfold inc in Hcalm. rewrite decide_False in Hcalm; done. }
    apply (inv_desc n _ s L); try done; [by left| |lia].
    eapply b_ok_ext; [done..| |done]. intros q Hq. unfold inc. by rewrite decide_False.
Qed.

Lemma step_unpin n s L b access r : inv n s L -> n + 1 < 2 ^ 32 ->
  step s (EUnpin b access) = Some r -> good (n + 1) r.
Proof.
  intros H Hn. cbn.
  destruct (at_task s (b, RHold access)) as [ts|] eqn:Ht; [|done]. cbn.
  destruct (unguarded _ b); [|done]. cbn. intros [= <-].
  destruct (at_task_ok _ _ _ _ _ _ H Ht) as (Hb & Hmax & Hok).
  destruct (at_task_cnt _ _ _ _ Ht) as (Hc & Hp & Hlen). pose proof (inv_len _ _ _ H).
  unfold ManualUnpin. rewrite deref_ok by lia. cbn [mbind result_bind].
  set (d := BufferDescriptors (smem s) b) in *. pose proof (holds_length ts b).
  destruct (b_ok_unpin access d _ _ Hok ltac:(lia)) as (Hr & Hkeep & Hadd). cbv zeta in *.
  set (d1 := set_counts _ _ d) in *. rewrite Hr.
  assert (forall q, has q d1 = has q d) as Hh by (intros; by apply has_frame). rewrite Hh.
  destruct (Z.eqb_spec (Z.of_nat (holds (cnt ts b))) 0) as [E|E]; [destruct (has BM_FREE d) eqn:Hf|];
    cbn [mbind result_bind].
  - eapply (good_intro _ _ L), (inv_desc n); try done; [by left|auto|lia].
  - destruct Hadd as [Hd Hok']; [lia|done|].
    rewrite Assert_true by (apply Z.eqb_eq; exact Hd). cbn [mbind result_bind].
    eapply (good_intro _ _ L), (inv_desc n); try done.
    + right. by destruct (ok_used _ _ _ Hok Hf).
    + flags. apply Hh.
    + counts.
    + by apply b_ok_cons.
    + simpl. lia.
  - eapply (good_intro _ _ L), (inv_desc n); try done; [by left|auto with lia|lia].
Qed.

(** What [GetFreeBuffer] leaves to do. *)
Notation after_check b ts r :=
  (match r with Dropped => ts | Requeued => (b, RTail) :: ts | Taken => (b, RReplace) :: ts end).

(** The candidate goes back to the tail, unless it is on the list already. *)
Lemma requeue_good n s L b ts d0 : inv n s L -> at_task s (b, RExamine) = Some ts ->
  let d := BufferDescriptors (smem s) b in
  locflags d0 = locflags d -> freeNext d0 = freeNext d -> refCount d0 = refCount d ->
  pageaccess d0 = pageaccess d -> tag d0 = tag d ->
  good (n + 1)
    ('(m', r) ← (if negb (has BM_FREE (lower BM_USED d0))
       then Ok (put_desc b (set_freeNext INVALID_DESCRIPTOR (raise BM_FREE (lower BM_USED d0))) (smem s), Requeued)
       else Ok (put_desc b (lower BM_USED d0) (smem s), Dropped));
     Ok (mkSys m' (after_check b ts r))).
Proof.
  intros H Ht d E1 E2 E3 E4 E5.
  destruct (at_task_ok _ _ _ _ _ _ H Ht) as (Hb & Hmax & Hok).
  destruct (at_task_cnt _ _ _ _ Ht) as (Hc & Hp & Hlen). pose proof (inv_len _ _ _ H).
  assert (forall q, has q d0 = has q d) as Hh by (intros; by apply has_frame).
  assert (b_ok d0 (inc RExamine (cnt ts b)) (linked L b)) as Hok0 by (by eapply b_ok_ext; [exact Hok|..]).
  assert (has BM_FREE (lower BM_USED d0) = has BM_FREE d0) as Hf0 by (by flags).
  destruct (has BM_FREE (lower BM_USED d0)) eqn:Hf; cbn [negb mbind result_bind].
  - eapply (good_intro _ _ L), (inv_desc n); try done; [by left|by flags| |lia].
    apply b_ok_dropped; auto.
  - eapply (good_intro _ _ L), (inv_desc n); try done; [|by flags|counts| |simpl; lia].
    + right. by destruct (ok_used _ _ _ Hok0 (eq_sym Hf0)).
    + apply b_ok_cons, b_ok_requeued; [|done].
      eapply b_ok_ext; [exact Hok0|done..|by flags|by flags|by flags|by flags|done|done].
Qed.

Lemma step_check n s L b r : inv n s L -> step s (ECheck b) = Some r -> good (n + 1) r.
Proof.
  intros H. cbn.
  destruct (at_task s (b, RExamine)) as [ts|] eqn:Ht; [|done]. cbn.
  destruct (unguarded _ b); [|done]. cbn. intros [= <-].
  destruct (at_task_ok _ _ _ _ _ _ H Ht) as (Hb & Hmax & Hok).
  destruct (at_task_cnt _ _ _ _ Ht) as (Hc & Hp & Hlen). pose proof (inv_len _ _ _ H).
  unfold GetFreeBuffer. rewrite deref_ok by lia. cbn [mbind result_bind].
  set (d := BufferDescriptors (smem s) b) in *.
  destruct (Z.ltb_spec 0 (refCount d)) as [Hr|Hr]; cbn [mbind result_bind].
  { eapply (good_intro _ _ L), (inv_desc n); try done; [by left|by flags|apply b_ok_dropped; auto|lia]. }
  assert (refCount d = 0) as Hr0 by (rewrite (ok_ref _ _ _ Hok) in *; lia).
  destruct (0 <? bias d); [by apply requeue_good with L|].
  destruct (lingeringbuffers (smem s) && has BM_USED d); [by apply requeue_good with L|].
  assert (pageaccess d = 0) as Ha.
  { rewrite (ok_access _ _ _ Hok). rewrite (ok_ref _ _ _ Hok) in Hr0. unfold holds, accesses in *. lia. }
  rewrite !Assert_true by lia. cbn [mbind result_bind].
  eapply (good_intro _ _ L), (inv_desc n); try done; [by left|by flags|counts|by apply b_ok_cons, b_ok_taken|simpl; lia].
Qed.

Lemma step_put n s L b r : inv n s L -> step s (EPut b) = Some r -> good (n + 1) r.
Proof.
  intros H. cbn.
  destruct (at_task s (b, RPut)) as [ts|] eqn:Ht; [|done]. cbn.
  destruct (unguarded _ b); [|done]. cbn. intros [= <-].
  destruct (at_task_ok _ _ _ _ _ _ H Ht) as (Hb & Hmax & Hok).
  destruct (at_task_cnt _ _ _ _ Ht) as (Hc & Hp & Hlen). pose proof (inv_len _ _ _ H).
  unfold PutFreeBuffer. rewrite deref_ok by lia. cbn [mbind result_bind].
  set (d := BufferDescriptors (smem s) b) in *.
  assert (refCount d = 1 /\ pageaccess d = 1) as [Hr Ha].
  { rewrite (ok_ref _ _ _ Hok), (ok_access _ _ _ Hok). destruct Hok. roles. lia. }
  rewrite Assert_true by lia. cbn [mbind result_bind].
  destruct (has BM_FREE d) eqn:Hf; cbn [negb mbind result_bind].
  - eapply (good_intro _ _ L), (inv_tasks n _ s L b); try done; [counts|by apply b_ok_cons, b_ok_lost|simpl; lia].
  - eapply (good_intro _ _ L), (inv_desc n); try done;
      [by left|by flags|counts|by apply b_ok_cons, b_ok_put|simpl; lia].
Qed.

Lemma step_bias n s L b r : inv n s L -> step s (EBias b) = Some r -> good (n + 1) r.
Proof.
  intros H. cbn. destruct ((0 <=? b) && (b <? MaxBuffers (smem s))) eqn:Hb; [|done]. bool_cases. cbn.
  destruct (unguarded _ b); [|done]. cbn. intros [= <-].
  unfold BiasPinned. rewrite deref_ok by lia. cbn [mbind result_bind].
  eapply (good_intro _ _ L), inv_weaken; [|apply Z.le_succ_diag_r].
  by apply inv_quiet.
Qed.

Lemma step_lock n s L b f k r : inv n s L -> step s (ELock b f k) = Some r -> good (n + 1) r.
Proof.
  intros H. cbn. destruct (at_task s _); [|done]. cbn. destruct (unguarded _ b); [|done]. cbn. intros [= <-].
  eapply (good_intro _ _ L), inv_weaken; [|apply Z.le_succ_diag_r].
  apply inv_quiet; try done. intros m Hm. unfold lock_bits.
  change (has m (set_e_waiting k ?d)) with (has m d). rewrite has_raise.
  assert (flag (Z.land f (Z.lor BM_WRITELOCK BM_EXCLUSIVE)) m = false) as ->.
  { apply not_true_iff_false. rewrite flag_true. intros (i & Hi & Hx & Hy). rewrite Z.land_spec in Hx.
    apply andb_true_iff in Hx as [_ Hx].
    destruct Hm as [<-|[<-|[<-|[<-|[]]]]];
      (assert (flag (Z.lor BM_WRITELOCK BM_EXCLUSIVE) _ = true) as C by (apply flag_true; eauto)); discriminate C. }
  destruct Hm as [<-|[<-|[<-|[<-|[]]]]]; by flags.
Qed.

(** ** The buffer table *)

(** The table without the entry of a buffer. *)
Definition table_without (m : mem) (b : Z) (t : gmap BufferTag Z) : Prop := forall key c,
  t !! key = Some c <->
  c <> b /\ 0 <= c < NBuffers m /\ has BM_DELETED (BufferDescriptors m c) = false /\ tag (BufferDescriptors m c) = key.

Lemma table_without_deleted m b : table_ok m -> has BM_DELETED (BufferDescriptors m b) = true ->
  table_without m b (table m).
Proof. intros H Hd key c. rewrite (H key c). split; [|naive_solver].
  intros (Hr & Hx & Ht). split; [|done]. intros ->. congruence.
Qed.

Lemma table_remove m b : table_ok m -> 0 <= b < NBuffers m ->
  has BM_DELETED (BufferDescriptors m b) = false ->
  table m !! tag (BufferDescriptors m b) = Some b /\
  table_without m b (delete (tag (BufferDescriptors m b)) (table m)).
Proof.
  intros H Hb Hd. assert (table m !! tag (BufferDescriptors m b) = Some b) as Hl by (by apply H).
  split; [done|]. intros key c. rewrite lookup_delete_Some, (H key c). split.
  - intros (Hne & Hr & Hx & Ht). split; [|done]. intros ->. congruence.
  - intros (Hne & Hr). split; [|done]. intros Heq. apply Hne.
    assert (table m !! key = Some c) as Hk by (by apply H). rewrite <- Heq, Hl in Hk. congruence.
Qed.

(** The buffer enters under a new tag, or stays outside. *)
Lemma table_enter m b d' t : table_without m b t -> 0 <= b < NBuffers m ->
  has BM_DELETED d' = false -> t !! tag d' = None ->
  table_ok (set_table (<[tag d' := b]> t) (put_desc b d' m)).
Proof.
  intros H Hb Hd Hn key c. cbn. unfold upd. rewrite lookup_insert_Some, (H key c).
  destruct (Z.eqb_spec c b) as [->|Hc].
  - split; [naive_solver|]. intros (_ & _ & <-). by left.
  - split; [naive_solver|]. intros Hr. right. split; [|done]. intros E.
    assert (t !! key = Some c) as Hk by (by apply H). congruence.
Qed.

Lemma table_stay m b d' t : table_without m b t -> has BM_DELETED d' = true ->
  table_ok (set_table t (put_desc b d' m)).
Proof.
  intros H Hd key c. cbn. unfold upd. rewrite (H key c).
  destruct (Z.eqb_spec c b) as [->|Hc]; [|naive_solver].
  split; [naive_solver|]. intros (_ & Hx & _). congruence.
Qed.

Lemma step_replace n s L b key k r : inv n s L -> step s (EReplace b key k) = Some r -> good (n + 1) r.
Proof.
  intros H. cbn.
  destruct (at_task s (b, RReplace)) as [ts|] eqn:Ht; [|done]. cbn.
  destruct (unguarded _ b); [|done]. cbn. intros [= <-].
  destruct (at_task_ok _ _ _ _ _ _ H Ht) as (Hb & Hmax & Hok).
  destruct (at_task_cnt _ _ _ _ Ht) as (Hc & Hp & Hlen). pose proof (inv_len _ _ _ H).
  unfold BufTableReplace. rewrite deref_ok by lia. cbn [mbind result_bind].
  set (d := BufferDescriptors (smem s) b) in *.
  assert (has BM_VALID d = false) as Hv by (apply Hok; roles; lia).
  rewrite Assert_true by (by rewrite Hv). cbn [mbind result_bind].
  set (prep := if has BM_DELETED d then _ else _).
  assert (exists t d1, prep = Ok (t, d1) /\ table_without (smem s) b t /\
    freeNext d1 = freeNext d /\ refCount d1 = refCount d /\ pageaccess d1 = pageaccess d /\
    has BM_FREE d1 = has BM_FREE d /\ has BM_RETIRED d1 = has BM_RETIRED d /\
    has BM_VALID d1 = false /\ has BM_DELETED d1 = true) as (t & d1 & -> & Hw & E1 & E2 & E3 & E4 & E5 & E6 & E7).
  { unfold prep. destruct (has BM_DELETED d) eqn:Hd.
    - exists (table (smem s)), d. split_and!; try done. by apply table_without_deleted; [apply H|].
    - destruct (table_remove (smem s) b) as [Hl Hw]; [apply H|done|done|]. cbn. fold d in Hl, Hw |- *.
      rewrite Hl. eexists _, _. split; [reflexivity|]. split; [done|]. split_and!; by flags. }
  cbn [mbind result_bind LockedHashSearch].
  destruct (t !! key) eqn:Hk; cbn [mbind result_bind].
  - eapply (good_intro _ _ L), (inv_local n); try done; [by left|counts| |by apply table_stay|simpl; lia].
    apply b_ok_cons. eapply b_ok_replaced; [exact Hok|done..].
  - eapply (good_intro _ _ L), (inv_local n); try done; [by left|counts| | |simpl; lia].
    + apply b_ok_cons. eapply b_ok_replaced; [exact Hok|done..|by flags|by flags|by flags|by flags].
    + by apply (table_enter (smem s) b (lower BM_DELETED (raise BM_VALID (set_tag key k d1)))); [..|flags|].
Qed.

Lemma step_delete n s L b r : inv n s L -> step s (EDelete b) = Some r -> good (n + 1) r.
Proof.
  intros H. cbn. destruct (at_task s (b, RHold true)) as [ts|] eqn:Ht; [|done]. cbn.
  destruct (unguarded _ b); [|done]. cbn. intros [= <-].
  destruct (at_task_ok _ _ _ _ _ _ H Ht) as (Hb & Hmax & _).
  destruct (at_task_cnt _ _ _ _ Ht) as (_ & Hp & _). pose proof (inv_len _ _ _ H).
  unfold BufTableDelete. rewrite deref_ok by lia. cbn [mbind result_bind].
  destruct (has BM_DELETED _) eqn:Hd; cbn [mbind result_bind].
  { eapply (good_intro _ _ L), inv_weaken; [|apply Z.le_succ_diag_r]. by destruct s. }
  destruct (table_remove (smem s) b) as [Hl Hw]; [apply H|done|done|].
  cbn [LockedHashSearch mbind result_bind]. rewrite Hl. cbn [bool_decide ereport_unless mbind result_bind].
  eapply (good_intro _ _ L), (inv_local n); try done; [by left| |by apply table_stay; [|flags]|lia].
  apply b_ok_invalidate; [by apply H|]. rewrite Hp. roles. lia.
Qed.

(** ** Steps on the lists *)

Definition set_L (w : which) (K : list Z) (L : which -> list Z) (w' : which) : list Z :=
  if decide (w' = w) then K else L w'.

Lemma set_L_eq w K L : set_L w K L w = K.
Proof. unfold set_L. by rewrite decide_True. Qed.
Lemma set_L_ne w w' K L : w' <> w -> set_L w K L w' = L w'.
Proof. intros. unfold set_L. by rewrite decide_False. Qed.

(** Membership in the new lists, given that the lists are disjoint. *)
Lemma linked_set_in w K L b : b ∈ K -> linked (set_L w K L) b = true.
Proof. intros. apply linked_true. exists w. by rewrite set_L_eq. Qed.

Lemma linked_set_same w K L b : (b ∈ K <-> b ∈ L w) -> linked (set_L w K L) b = linked L b.
Proof.
  intros Hb. apply eq_true_iff_eq. rewrite !linked_true. split; intros [w' Hw'];
    exists w'; destruct (decide (w' = w)) as [->|]; rewrite ?set_L_eq, ?set_L_ne in * by done; naive_solver.
Qed.

Lemma linked_set_out m w K L b : lists_ok m L -> b ∈ L w -> b ∉ K -> linked (set_L w K L) b = false.
Proof.
  intros H Hb HK. apply not_true_iff_false. rewrite linked_true. intros [w' Hw'].
  destruct (decide (w' = w)) as [->|]; rewrite ?set_L_eq, ?set_L_ne in * by done; [done|].
  pose proof (lists_disjoint _ _ H _ _ _ Hb Hw'). congruence.
Qed.

Lemma list_of_set_eq w l m : (w = Index -> is_Some (IndexList m)) -> list_of (set_list w l m) w = l.
Proof. destruct w; cbn; [done|]. intros H. destruct (H eq_refl) as [? ->]. done. Qed.
Lemma list_of_set_ne w w' l m : w' <> w -> list_of (set_list w l m) w' = list_of m w'.
Proof. by destruct w, w'. Qed.

(** One list is replaced and links of its members change. *)
Lemma lists_ok_set m L w f l K : lists_ok m L -> (w = Index -> is_Some (IndexList m)) ->
  chain (fun b => freeNext (f b)) (head l) K -> tail l = tail_for K -> NoDup K ->
  (forall b, b ∈ K -> 0 <= b < NBuffers m /\ (b ∈ L w \/ linked L b = false)) ->
  (forall b, linked L b = true -> b ∉ L w -> freeNext (f b) = freeNext (BufferDescriptors m b)) ->
  lists_ok (set_list w l (set_descs f m)) (set_L w K L).
Proof.
  intros H Hi Hc Ht Hnd HK Hf.
  assert (BufferDescriptors (set_list w l (set_descs f m)) = f) as Ed by (by destruct w).
  assert (NBuffers (set_list w l (set_descs f m)) = NBuffers m) as En by (by destruct w).
  assert (forall b w', w' <> w -> b ∈ L w' -> b ∉ L w) as Hdis.
  { intros b w' Hw Hb Hb'. by pose proof (lists_disjoint _ _ H _ _ _ Hb Hb'). }
  assert (forall b w', w' <> w -> b ∈ L w' -> b ∉ K) as HdisK.
  { intros b w' Hw Hb Hb'. destruct (HK b Hb') as [_ [?|Hl]]; [by eapply Hdis|].
    assert (linked L b = true) by (apply linked_true; eauto). congruence. }
  split.
  - intros w'. rewrite Ed. destruct (decide (w' = w)) as [->|Hw].
    + by rewrite set_L_eq, list_of_set_eq.
    + rewrite set_L_ne, list_of_set_ne by done. eapply links_frame; [|apply (lists_chain _ _ H w')].
      intros x Hx. apply Hf; [apply linked_true; eauto|by eapply Hdis].
  - intros w'. destruct (decide (w' = w)) as [->|Hw].
    + by rewrite set_L_eq, list_of_set_eq.
    + rewrite set_L_ne, list_of_set_ne by done. apply H.
  - intros w'. destruct (decide (w' = w)) as [->|Hw]; [by rewrite set_L_eq|rewrite set_L_ne by done; apply H].
  - intros b w1 w2. unfold set_L. repeat case_decide; subst; try done; intros Hb1 Hb2.
    + exfalso. by eapply HdisK.
    + exfalso. by eapply HdisK.
    + by eapply (lists_disjoint _ _ H).
  - intros b. rewrite En, linked_true. intros [w' Hb]. destruct (decide (w' = w)) as [->|Hw].
    + rewrite set_L_eq in Hb. by apply HK.
    + rewrite set_L_ne in Hb by done. apply H, linked_true. eauto.
Qed.

(** The invariant after such a step, when the pages keep their identity. *)
Lemma inv_set n n' s L w f l K ts' : inv n s L -> (w = Index -> is_Some (IndexList (smem s))) ->
  lists_ok (set_list w l (set_descs f (smem s))) (set_L w K L) ->
  (forall b, 0 <= b < NBuffers (smem s) ->
     has BM_DELETED (f b) = has BM_DELETED (BufferDescriptors (smem s) b) /\
     tag (f b) = tag (BufferDescriptors (smem s) b) /\
     b_ok (f b) (cnt ts' b) (linked (set_L w K L) b)) ->
  (forall b, ~ (0 <= b < NBuffers (smem s)) -> f b = BufferDescriptors (smem s) b /\ forall r, cnt ts' b r = 0%nat) ->
  Zlen ts' <= n' ->
  inv n' (mkSys (set_list w l (set_descs f (smem s))) ts') (set_L w K L).
Proof.
  intros [Hs Hl Hbuf Hres Hout Htab Hlen] Hi Hl' Hin Hnin Hn.
  set (m' := set_list w l (set_descs f (smem s))) in *.
  assert (BufferDescriptors m' = f /\ NBuffers m' = NBuffers (smem s) /\ MaxBuffers m' = MaxBuffers (smem s) /\
    table m' = table (smem s)) as (Ed & En & Em & Et) by (by destruct w).
  split; cbn [smem tasks]; rewrite ?Ed, ?En, ?Em; try done.
  - intros b Hb. by apply Hin.
  - intros b Hb. destruct (Hnin b) as [-> _]; [lia|]. auto.
  - intros b r Hb. by apply Hnin.
  - eapply table_ok_frame; [done..|]. rewrite Ed. intros b Hb. by destruct (Hin b Hb) as (? & ? & _).
Qed.

Lemma lists_pos m L w : lists_ok m L -> Forall (fun x => 0 <= x) (L w).
Proof. intros H. apply Forall_forall. intros x Hx. assert (linked L x = true) as Hl by (apply linked_true; eauto).
  apply H in Hl. lia. Qed.

(** A list that is not empty exists. *)
Lemma index_exists m w : head (list_of m w) <> INVALID_DESCRIPTOR -> w = Index -> is_Some (IndexList m).
Proof. intros H ->. cbn in H. by destruct (IndexList m). Qed.

Lemma index_for m d : list_for m d = Index -> is_Some (IndexList m).
Proof. unfold list_for. case_match eqn:E; [|done]. intros _. bool_cases. by apply bool_decide_eq_true in H0. Qed.

Lemma tail_for_pop x K : NoDup (x :: K) -> forall h, (K = [] -> h = INVALID_DESCRIPTOR) ->
  (forall y K', K = y :: K' -> h = y) ->
  (if h =? tail_for (x :: K) then INVALID_DESCRIPTOR else tail_for (x :: K)) = tail_for K.
Proof.
  intros Hnd h H0 H1. destruct K as [|y [|z K]]; simpl.
  - by rewrite H0.
  - rewrite (H1 y []) by done. by rewrite Z.eqb_refl.
  - rewrite (H1 _ _ eq_refl). destruct (Z.eqb_spec y (last_elem z K)) as [E|]; [|done].
    pose proof (last_elem_in z K) as Hin. rewrite <- E in Hin.
    apply NoDup_cons in Hnd as [_ Hnd]. apply NoDup_cons in Hnd as [Hy _]. by destruct Hy.
Qed.

Lemma step_get n s L w r : inv n s L -> step s (EGet w) = Some r -> good (n + 1) r.
Proof.
  intros H. pose proof (inv_lists _ _ _ H) as Hl. cbn.
  destruct (Z.eqb_spec (head (list_of (smem s) w)) INVALID_DESCRIPTOR) as [|Hne]; [done|]. cbn.
  destruct (unguarded s (head (list_of (smem s) w))) as [[]|] eqn:Hg; [|done]. cbn. intros [= <-].
  pose proof (lists_chain _ _ Hl w) as Hc. pose proof (lists_nodup _ _ Hl w) as Hnd.
  destruct (L w) as [|b K] eqn:EL; [by cbn in Hc|]. cbn in Hc. destruct Hc as [Eh Hc].
  assert (linked L b = true) as Hlk by (apply linked_true; exists w; rewrite EL; set_solver).
  pose proof (lists_range _ _ Hl b Hlk) as Hb. pose proof (inv_sizes _ _ _ H).
  pose proof (inv_buf _ _ _ H b Hb) as Hok. rewrite Hlk in Hok.
  apply NoDup_cons in Hnd as Hnd'. destruct Hnd' as [HbK HndK].
  unfold GetHead. rewrite Eh in *. set (d := BufferDescriptors (smem s) b) in *.
  assert (has BM_FREE d = true) as Hf by (destruct Hok; lia).
  asserts.
  eapply (good_intro _ _ (set_L w K L)), (inv_set n).
  - done.
  - intros ->. eapply index_exists; [|reflexivity]. by rewrite Eh.
  - apply lists_ok_set; try done.
    + intros ->. eapply index_exists; [|reflexivity]. by rewrite Eh.
    + cbn [head]. eapply links_frame; [|exact Hc]. intros x Hx. cbn. rewrite upd_ne; [done|set_solver].
    + cbn [tail]. rewrite (lists_tail _ _ Hl), EL. apply tail_for_pop; [done|..].
      * by intros ->.
      * intros y K' ->. apply Hc.
    + intros x Hx. rewrite EL. split; [|set_solver]. apply (lists_range _ _ Hl), linked_true. exists w. rewrite EL. set_solver.
    + intros x _ Hx. rewrite EL in Hx. rewrite upd_ne; [done|set_solver].
  - intros c Hr. unfold upd. destruct (Z.eqb_spec c b) as [->|Hcb].
    + split; [by flags|]. split; [done|].
      rewrite (linked_set_out (smem s)); [|done|rewrite EL; set_solver|done].
      apply unguarded_cnt in Hg as [? ?]. by apply b_ok_cons, b_ok_pop.
    + split; [done|]. split; [done|]. rewrite linked_set_same by (rewrite EL; set_solver).
      eapply b_ok_ext; [by apply H|done..| |done]. counts.
  - intros c Hr. rewrite upd_ne by (intros ->; done). split; [done|]. intros q.
    rewrite cnt_cons_other by (intros ->; done). by apply H.
  - pose proof (inv_len _ _ _ H). simpl. lia.
Qed.

Lemma tail_for_push b h L t : t = tail_for L -> (L = [] -> h = INVALID_DESCRIPTOR) -> (forall x K, L = x :: K -> h = x) ->
  Forall (fun x => 0 <= x) L ->
  (if t =? INVALID_DESCRIPTOR then h else t) = tail_for (b :: L).
Proof.
  intros -> H0 H1 Hpos. destruct L as [|x [|y K]]; simpl; [by apply H0|by eapply H1|].
  destruct (Z.eqb_spec (last_elem y K) INVALID_DESCRIPTOR) as [E|]; [|done].
  pose proof (last_elem_in y K) as Hin. rewrite E in Hin.
  rewrite Forall_forall in Hpos. specialize (Hpos INVALID_DESCRIPTOR ltac:(set_solver)).
  unfold INVALID_DESCRIPTOR in Hpos. lia.
Qed.

(** The links of a buffer that is not linked are its own. *)
Lemma not_linked_cnt d p l : b_ok d p l -> unlinked p <> 0%nat -> l = false /\ has BM_FREE d = true.
Proof. intros H Hu. destruct H, (has BM_FREE d); lia. Qed.

Lemma step_sethead n s L b r : inv n s L -> step s (ESetHead b) = Some r -> good (n + 1) r.
Proof.
  intros H. pose proof (inv_lists _ _ _ H) as Hl. cbn.
  destruct (at_task s (b, RHead)) as [ts|] eqn:Ht; [|done]. cbn.
  destruct (unguarded _ b); [|done]. cbn. intros [= <-].
  destruct (at_task_ok _ _ _ _ _ _ H Ht) as (Hb & Hmax & Hok).
  destruct (at_task_cnt _ _ _ _ Ht) as (Hc & Hp & Hlen). pose proof (inv_len _ _ _ H).
  unfold SetHead. rewrite deref_ok by lia. cbn [mbind result_bind].
  set (d := BufferDescriptors (smem s) b) in *. set (w := list_for (smem s) d) in *.
  destruct (not_linked_cnt _ _ _ Hok) as [Hnl Hf]; [roles; lia|].
  assert (b ∉ L w) as HbL by (intros ?; assert (linked L b = true) by (apply linked_true; eauto); congruence).
  pose proof (lists_chain _ _ Hl w) as Hch.
  assert (freeNext d = DETACHED_DESCRIPTOR) as Hd by (apply (ok_head _ _ _ Hok); roles; lia).
  assert (b <> head (list_of (smem s) w)) as Hbh.
  { intros E. destruct (L w) as [|x K]; cbn in Hch; [unfold INVALID_DESCRIPTOR in *; lia|]. set_solver. }
  asserts.
  eapply (good_intro _ _ (set_L w (b :: L w) L)), (inv_set n).
  - done.
  - apply index_for.
  - apply lists_ok_set; try done.
    + apply index_for.
    + cbn. split; [done|]. rewrite upd_eq. cbn. eapply links_frame; [|exact Hch].
      intros x Hx. cbn. rewrite upd_ne; [done|set_solver].
    + cbn [tail]. apply tail_for_push; [apply Hl|by intros E; rewrite E in Hch| |by eapply lists_pos].
      intros x K E. rewrite E in Hch. apply Hch.
    + apply NoDup_cons. split; [done|apply Hl].
    + intros x [->|Hx]%elem_of_cons; [by auto|]. split; [|by left]. apply Hl, linked_true. eauto.
    + intros x Hx Hx'. rewrite upd_ne; [done|]. intros ->. congruence.
  - intros c Hr. unfold upd. destruct (Z.eqb_spec c b) as [->|Hcb].
    + split; [by flags|]. split; [done|]. rewrite linked_set_in by set_solver. by eapply b_ok_link_head.
    + split; [done|]. split; [done|]. rewrite linked_set_same by set_solver.
      eapply b_ok_ext; [by apply H|done..| |done]. auto.
  - intros c Hr. rewrite upd_ne by (intros ->; done). split; [done|]. intros q. rewrite Hc by (intros ->; done). by apply H.
  - lia.
Qed.

Lemma set_descs_id m : set_descs (BufferDescriptors m) m = m.
Proof. by destruct m. Qed.

(** Linking a chain [K] of unlinked buffers to the end of a list: the links and
    the [tail]. *)
Lemma append_lists m L w b K t : lists_ok m L -> tail_buffer (list_of m w) = Some t ->
  chain (nexts m) b K -> K <> [] -> (forall x, x ∈ K -> x ∉ L w) ->
  let f := upd (BufferDescriptors m) t (set_freeNext b (BufferDescriptors m t)) in
  t ∈ L w /\ chain (fun x => freeNext (f x)) (head (list_of m w)) (L w ++ K) /\
  tail_for (L w ++ K) = last_elem t K.
Proof.
  intros H Ht Hk HK Hdis f. pose proof (lists_chain _ _ H w) as Hc.
  pose proof (tail_buffer_spec _ _ _ Hc (lists_tail _ _ H w) (lists_pos _ _ w H)) as Hs.
  rewrite Ht in Hs. destruct Hs as [A EL]. rewrite EL in *. split; [set_solver|]. split.
  - eapply (links_frame (upd (nexts m) t b)); [intros x _; unfold f, upd; by destruct (Z.eqb_spec x t)|].
    apply chain_append; try done. rewrite <- EL. apply H.
  - destruct K as [|x K _] using rev_ind; [done|]. rewrite app_assoc, tail_for_snoc, last_elem_snoc; [done|].
    by destruct A.
Qed.

Lemma step_settail n s L b r : inv n s L -> step s (ESetTail b) = Some r -> good (n + 1) r.
Proof.
  intros H. pose proof (inv_lists _ _ _ H) as Hl. cbn.
  destruct (at_task s (b, RTail)) as [ts|] eqn:Ht; [|done]. cbn.
  set (d := BufferDescriptors (smem s) b). set (w := list_for (smem s) d).
  destruct (unguarded_tail s w); [|done]. cbn. intros [= <-].
  destruct (at_task_ok _ _ _ _ _ _ H Ht) as (Hb & Hmax & Hok). fold d in Hok.
  destruct (at_task_cnt _ _ _ _ Ht) as (Hc & Hp & Hlen). pose proof (inv_len _ _ _ H).
  unfold SetTailBuffer. rewrite deref_ok by lia. cbn [mbind result_bind]. fold d w.
  destruct (not_linked_cnt _ _ _ Hok) as [Hnl Hf]; [roles; lia|].
  assert (b ∉ L w) as HbL by (intros ?; assert (linked L b = true) by (apply linked_true; eauto); congruence).
  pose proof (lists_chain _ _ Hl w) as Hch.
  assert (freeNext d = INVALID_DESCRIPTOR) as Hd by (apply (ok_tail _ _ _ Hok); roles; lia).
  assert (forall c q, ~ (0 <= c < NBuffers (smem s)) -> cnt ts c q = 0%nat) as Hout.
  { intros c q Hr. rewrite Hc by (intros ->; done). by apply H. }
  assert (forall c, c <> b -> 0 <= c < NBuffers (smem s) -> b_ok (BufferDescriptors (smem s) c) (cnt ts c) (linked L c)) as Hother.
  { intros c Hcb Hr. eapply b_ok_ext; [by apply H|done..| |done]. auto. }
  pose proof (tail_buffer_spec _ _ _ Hch (lists_tail _ _ Hl w) (lists_pos _ _ w Hl)) as Hs.
  destruct (tail_buffer (list_of (smem s) w)) as [t|] eqn:Et.
  - destruct (append_lists (smem s) L w b [b] t) as (Htin & Hch' & Htl); try done.
    { set_solver. }
    assert (linked L t = true) as Htl' by (apply linked_true; eauto).
    pose proof (lists_range _ _ Hl t Htl') as Htr. pose proof (inv_sizes _ _ _ H).
    assert (t <> b) as Htb by (intros ->; congruence).
    pose proof (Hother t Htb Htr) as Hokt. rewrite Htl' in Hokt.
    assert (freeNext (BufferDescriptors (smem s) t) = INVALID_DESCRIPTOR) as Hnt.
    { destruct Hs as [A EL]. rewrite EL in Hch. by apply chain_snoc in Hch. }
    rewrite deref_ok by lia. cbn [mbind result_bind].
    assert (has BM_FREE (BufferDescriptors (smem s) t) = true) as Hft by (destruct Hokt; lia). asserts.
    eapply (good_intro _ _ (set_L w (L w ++ [b]) L)), (inv_set n); [done|apply index_for| | | |lia].
    + apply lists_ok_set; try done; [apply index_for|apply NoDup_app; split_and!; [apply Hl|set_solver|apply NoDup_singleton]| |].
      * intros x [Hx|Hx]%elem_of_app; [|apply list_elem_of_singleton in Hx as ->; by auto].
        split; [|by left]. apply Hl, linked_true. eauto.
      * intros x Hx Hx'. rewrite upd_ne; [done|]. by intros ->.
    + intros c Hr. unfold upd. destruct (Z.eqb_spec c t) as [->|Hct].
      * split; [by flags|]. split; [done|]. rewrite linked_set_in by set_solver. by apply b_ok_relink.
      * split; [done|]. split; [done|]. destruct (decide (c = b)) as [->|Hcb].
        -- rewrite linked_set_in by set_solver. by eapply b_ok_link_tail.
        -- rewrite linked_set_same by set_solver. auto.
    + intros c Hr. rewrite upd_ne by (intros ->; done). auto.
  - eapply (good_intro _ _ (set_L w [b] L)). rewrite <- (set_descs_id (smem s)) at 1.
    apply (inv_set n); [done|apply index_for| | |auto|lia].
    + apply lists_ok_set; try done; [apply index_for|apply NoDup_singleton|].
      intros x Hx. apply list_elem_of_singleton in Hx as ->. auto.
    + intros c Hr. split; [done|]. split; [done|]. destruct (decide (c = b)) as [->|Hcb].
      * rewrite linked_set_in by set_solver. by eapply b_ok_link_tail.
      * rewrite linked_set_same by (rewrite Hs; set_solver). auto.
Qed.

Lemma set_list_id w m : (w = Index -> is_Some (IndexList m)) -> set_list w (list_of m w) m = m.
Proof. destruct m, w; cbn; [done|]. intros H. by destruct (H eq_refl) as [? ->]. Qed.

(** A neighbour leaves the middle of a list. *)
Lemma remove_inv n n' s L w A b x C dx ts' :
  inv n s L -> L w = A ++ b :: x :: C -> C <> [] ->
  let D := BufferDescriptors (smem s) in
  has BM_DELETED dx = has BM_DELETED (D x) -> tag dx = tag (D x) ->
  b_ok dx (cnt ts' x) false -> b_ok (D b) (cnt ts' b) true ->
  (forall c r, c <> b -> c <> x -> cnt ts' c r = cnt (tasks s) c r) -> Zlen ts' <= n' ->
  inv n' (mkSys (put_desc x dx (put_desc b (set_freeNext (freeNext (D x)) (D b)) (smem s))) ts')
    (set_L w (A ++ b :: C) L).
Proof.
  intros H EL HC D Hd Ht Hokx Hokb Hcnt Hn. pose proof (inv_lists _ _ _ H) as Hl.
  pose proof (lists_chain _ _ Hl w) as Hch. pose proof (lists_nodup _ _ Hl w) as Hnd. rewrite EL in *.
  assert (forall y, y ∈ A ++ b :: x :: C -> 0 <= y < NBuffers (smem s)) as Hr.
  { intros y Hy. apply Hl, linked_true. exists w. by rewrite EL. }
  assert (w = Index -> is_Some (IndexList (smem s))) as Hi.
  { intros ->. eapply index_exists; [|reflexivity]. intros E. rewrite E in Hch.
    destruct A as [|a A]; destruct Hch as [E' _]; unfold INVALID_DESCRIPTOR in E'.
    - specialize (Hr b ltac:(set_solver)). lia.
    - specialize (Hr a ltac:(set_solver)). lia. }
  assert (x ∉ A ++ b :: C /\ x <> b) as [Hx Hxb].
  { apply NoDup_app in Hnd as (_ & Hdis & Hnd). rewrite !NoDup_cons in Hnd. set_solver. }
  set (f := upd (upd D b (set_freeNext (freeNext (D x)) (D b))) x dx).
  change (put_desc x dx _) with (set_descs f (smem s)).
  rewrite <- (set_list_id w (set_descs f (smem s))) by done.
  apply (inv_set n); [done|done| | | |done].
  - apply lists_ok_set; [done|done| | | |..].
    + eapply links_frame; [|eapply (chain_remove _ _ _ _ _ _ (freeNext dx)); [exact Hnd|]].
      2: { destruct w; exact Hch. }
      intros y _. unfold f, upd, D. by repeat case_match.
    + replace (tail _) with (tail (list_of (smem s) w)) by (by destruct w).
      rewrite (lists_tail _ _ Hl), EL.
      destruct C as [|z C _] using rev_ind; [done|].
      rewrite !app_comm_cons, !app_assoc, !tail_for_snoc; [done|..]; by destruct A.
    + rewrite NoDup_app in *. rewrite !NoDup_cons in *. set_solver.
    + intros y Hy. rewrite EL. split; [apply Hr|left]; set_solver.
    + intros y _ Hy. rewrite EL in Hy. unfold f. rewrite !upd_ne; [done|set_solver..].
  - intros c Hrc. unfold f, upd. destruct (Z.eqb_spec c x) as [->|Hcx].
    + split; [done|]. split; [done|]. rewrite (linked_set_out (smem s)); [done|done|rewrite EL; set_solver|done].
    + destruct (Z.eqb_spec c b) as [->|Hcb].
      * split; [by flags|]. split; [done|]. rewrite linked_set_in by set_solver. by apply b_ok_relink.
      * split; [done|]. split; [done|]. rewrite linked_set_same by (rewrite EL; set_solver).
        eapply b_ok_ext; [by apply H|done..| |done]. auto.
  - intros c Hrc. unfold f. rewrite !upd_ne by (intros ->; apply Hrc, Hr; set_solver). split; [done|].
    intros q. rewrite Hcnt by (intros ->; apply Hrc, Hr; set_solver). by apply H.
Qed.

(** A buffer whose neighbours are looked at is linked, unless it has none. *)
Lemma scanned_linked access d p l : b_ok d (inc (RScan access) p) l ->
  freeNext d <> INVALID_DESCRIPTOR -> l = true.
Proof. intros H Hni. destruct l; [done|]. destruct H, access; roles; lia. Qed.

(** The neighbour of a buffer that is scanned is in the same list. *)
Lemma neighbour n s L b access ts : inv n s L -> at_task s (b, RScan access) = Some ts ->
  let D := BufferDescriptors (smem s) in let x := freeNext (D b) in
  x <> INVALID_DESCRIPTOR -> exists w A C, L w = A ++ b :: x :: C /\
    (freeNext (D x) <> INVALID_DESCRIPTOR -> C <> []) /\ 0 <= x < NBuffers (smem s) /\ x <> b /\
    b_ok (D b) (inc (RScan access) (cnt ts b)) true /\ b_ok (D x) (cnt (tasks s) x) true.
Proof.
  intros H Ht D x Hni. pose proof (inv_lists _ _ _ H) as Hl.
  destruct (at_task_ok _ _ _ _ _ _ H Ht) as (Hb & _ & Hok).
  assert (linked L b = true) as Hlk by (by eapply scanned_linked).
  apply linked_true in Hlk as Hw. destruct Hw as [w Hw].
  destruct (chain_in _ _ _ b (lists_chain _ _ Hl w) Hw Hni) as (A & C & EL). fold D x in EL.
  assert (linked L x = true) as Hlx by (apply linked_true; exists w; rewrite EL; set_solver).
  pose proof (lists_range _ _ Hl x Hlx) as Hxr. pose proof (inv_buf _ _ _ H x Hxr) as Hokx.
  rewrite Hlk in Hok. rewrite Hlx in Hokx.
  exists w, A, C. split; [done|]. split; [|split; [done|split; [|done]]].
  - intros Hnx ->. apply Hnx, (chain_snoc (nexts (smem s)) (head (list_of (smem s) w)) (A ++ [b]) x).
    rewrite <- app_assoc. simpl. rewrite <- EL. apply Hl.
  - intros E. pose proof (lists_nodup _ _ Hl w) as Hnd. rewrite EL, E, NoDup_app, !NoDup_cons in Hnd. set_solver.
Qed.

Lemma step_scan n s L b access trylock r : inv n s L ->
  step s (EScan b access trylock) = Some r -> good (n + 1) r.
Proof.
  intros H. cbn. destruct (at_task s (b, RScan access)) as [ts|] eqn:Ht; [|done]. cbn.
  set (d := BufferDescriptors (smem s) b).
  destruct (trylock && guarded s (freeNext d)) eqn:Hg; [done|]. cbn. intros [= <-].
  destruct (at_task_ok _ _ _ _ _ _ H Ht) as (Hb & Hmax & Hok).
  destruct (at_task_cnt _ _ _ _ Ht) as (Hc & Hp & Hlen). pose proof (inv_len _ _ _ H). pose proof (inv_sizes _ _ _ H).
  unfold RemoveNearestNeighbor. rewrite deref_ok by lia. cbn [mbind result_bind]. fold d.
  assert (good (n + 1) (Ok (mkSys (smem s) ((b, RHold access) :: ts)))) as Hdone.
  { eapply (good_intro _ _ L), (inv_tasks n _ s L b); try done; [counts|by apply b_ok_cons, b_ok_scanned|simpl; lia]. }
  destruct (Z.eqb_spec (freeNext d) INVALID_DESCRIPTOR) as [|Hni]; [done|].
  destruct (neighbour _ _ _ _ _ _ H Ht Hni) as (w & A & C & EL & HC & Hxr & Hxb & Hokb & Hokx). fold d in EL, HC, Hxr, Hxb, Hokb, Hokx.
  set (x := freeNext d) in *. rewrite deref_ok by lia. cbn [mbind result_bind].
  set (dx := BufferDescriptors (smem s) x) in *.
  destruct trylock; [|done]. cbn [negb andb] in *.
  destruct (Z.eqb_spec (freeNext dx) INVALID_DESCRIPTOR) as [|Hnx]; [done|]. specialize (HC Hnx).
  destruct (unguarded_cnt s x) as [Hs1 Hs2]; [unfold unguarded; by rewrite Hg|].
  destruct (Z.ltb_spec 0 (refCount dx)) as [Hrx|Hrx]; cbn [mbind result_bind].
  - eapply (good_intro _ _ (set_L w (A ++ b :: C) L)), (remove_inv n); try done; fold dx d;
      [by flags| |by apply b_ok_cons|counts|simpl; lia].
    eapply b_ok_ext; [by apply b_ok_drop|done..| |done]. intros q _. rewrite cnt_cons_other by done. auto.
  - destruct (lingeringbuffers (smem s) && has BM_USED dx); [|done].
    assert (has BM_FREE dx = true) as Hfx by (destruct Hokx; lia). asserts.
    eapply (good_intro _ _ (set_L w (A ++ b :: C) L)), (remove_inv n); try done; fold dx d;
      [by flags| | |counts|simpl; lia].
    + eapply b_ok_ext; [by apply b_ok_move|done..| |done]. intros q _.
      rewrite cnt_cons_other, cnt_cons_same by done. unfold inc. by rewrite Hc.
    + apply b_ok_cons. eapply b_ok_ext; [by apply b_ok_scanned|done..| |done]. intros q _.
      unfold inc. by rewrite cnt_cons_other.
Qed.

(** ** Growth of the pool *)

Lemma chain_seqZ nx a n : 0 < n -> (forall i, a <= i < a + n - 1 -> nx i = i + 1) ->
  nx (a + n - 1) = INVALID_DESCRIPTOR -> chain nx a (seqZ a n).
Proof.
  intros Hn. replace n with (Z.of_nat (S (Z.to_nat (n - 1)))) by lia.
  generalize (Z.to_nat (n - 1)) as k. clear n Hn. intros k. revert a. induction k as [|k IH]; intros a Hi Hl.
  - rewrite seqZ_cons by lia. simpl. split; [done|]. rewrite <- Hl. f_equal. lia.
  - rewrite seqZ_cons by lia. split; [done|]. rewrite Hi by lia.
    replace (Z.pred (Z.of_nat (S (S k)))) with (Z.of_nat (S k)) by lia.
    apply IH; [intros; apply Hi; lia|]. rewrite <- Hl. f_equal. lia.
Qed.

Lemma last_of_chain_ok fuel m b K : chain (nexts m) b (b :: K) ->
  (forall x, x ∈ b :: K -> 0 <= x < MaxBuffers m) -> (length K < fuel)%nat ->
  last_of_chain fuel m b = Ok (last_elem b K).
Proof.
  revert b K. induction fuel as [|fuel IH]; intros b K [_ Hc] Hr Hlen; [lia|].
  cbn. rewrite deref_ok by (apply Hr; set_solver). cbn [mbind result_bind].
  destruct K as [|x K]; cbn in Hc; [by rewrite Hc|]. destruct Hc as [-> Hc].
  assert (0 <= x < MaxBuffers m) by (apply Hr; set_solver).
  destruct (Z.eqb_spec x INVALID_DESCRIPTOR) as [E|_]; [unfold INVALID_DESCRIPTOR in E; lia|].
  cbn [last_elem length] in *. apply IH; [done|set_solver|lia].
Qed.

(** [AddBuffersToTail] on a chain of unlinked buffers. *)
Lemma AddBuffersToTail_ok m L b K : lists_ok m L -> chain (nexts m) b (b :: K) ->
  (forall x, x ∈ b :: K -> x ∉ L Master /\ 0 <= x < MaxBuffers m) -> (length K <= Z.to_nat (MaxBuffers m))%nat ->
  NBuffers m <= MaxBuffers m ->
  (forall x, x ∈ L Master -> has BM_FREE (BufferDescriptors m x) = true) ->
  exists f h, AddBuffersToTail m b =
    Ok (set_list Master (mkFreeList h (last_elem b K) (last (list_of m Master))) (set_descs f m)) /\
  chain (fun x => freeNext (f x)) h (L Master ++ b :: K) /\
  (forall x, f x = BufferDescriptors m x \/ x ∈ L Master /\ exists y, f x = set_freeNext y (BufferDescriptors m x)).
Proof.
  intros Hl Hk HK Hlen Hmax Hfree. unfold AddBuffersToTail.
  pose proof (lists_chain _ _ Hl Master) as Hch.
  pose proof (tail_buffer_spec _ _ _ Hch (lists_tail _ _ Hl Master) (lists_pos _ _ Master Hl)) as Hs.
  destruct (tail_buffer (list_of m Master)) as [t|] eqn:Et.
  - destruct (append_lists m L Master b (b :: K) t) as (Htin & Hch' & _); try done.
    { intros x Hx. by apply HK. }
    destruct Hs as [A EL].
    assert (0 <= t < NBuffers m) as Htr by (apply Hl, linked_true; eauto).
    rewrite deref_ok by lia. cbn [mbind result_bind].
    assert (freeNext (BufferDescriptors m t) = INVALID_DESCRIPTOR) as Hnt by (rewrite EL in Hch; by apply chain_snoc in Hch).
    pose proof (Hfree t Htin). asserts.
    rewrite (last_of_chain_ok _ _ _ K); [|eapply links_frame; [|exact Hk]|by intros x Hx; apply HK|lia].
    2: { intros x Hx. cbn. rewrite upd_ne; [done|]. intros ->. by apply HK in Htin. }
    eexists _, _. split; [reflexivity|]. split; [done|].
    intros x. unfold upd. destruct (Z.eqb_spec x t) as [->|]; [right; eauto|by left].
  - cbn [mbind result_bind]. rewrite (last_of_chain_ok _ _ _ K); [|done|by intros x Hx; apply HK|lia].
    exists (BufferDescriptors m), b. rewrite set_descs_id. split; [reflexivity|]. rewrite Hs. split; [done|]. by left.
Qed.

(** The descriptors that [AddMoreBuffers] takes out of the reserve. *)
Definition activated (m : mem) (k : Z) : mem :=
  let activate i d := if (NBuffers m <=? i) && (i <? NBuffers m + k) then lower BM_RETIRED d else d in
  modify_desc (NBuffers m + k - 1) (set_freeNext INVALID_DESCRIPTOR)
    (set_descs (fun i => activate i (BufferDescriptors m i)) m).

Lemma activated_spec m k : 0 < k ->
  let D := BufferDescriptors m in let N := NBuffers m in
  (forall x, ~ (N <= x < N + k) -> BufferDescriptors (activated m k) x = D x) /\
  (forall x, N <= x < N + k -> exists d', BufferDescriptors (activated m k) x = d' /\
    locflags d' = Z.land (locflags (D x)) (Z.lnot BM_RETIRED) /\
    refCount d' = refCount (D x) /\ pageaccess d' = pageaccess (D x) /\
    freeNext d' = if x =? N + k - 1 then INVALID_DESCRIPTOR else freeNext (D x)).
Proof.
  intros Hk D N. split; intros x Hx.
  - cbn. fold N. rewrite upd_ne by lia. by replace ((N <=? x) && (x <? N + k)) with false by lia.
  - eexists. split; [reflexivity|]. cbn. fold N. unfold upd.
    destruct (Z.eqb_spec x (N + k - 1)) as [->|]; cbn;
      [replace ((N <=? N + k - 1) && (N + k - 1 <? N + k)) with true by lia|
       replace ((N <=? x) && (x <? N + k)) with true by lia]; done.
Qed.

Lemma tail_for_app A x K : K <> [] -> tail_for (A ++ x :: K) = last_elem x K.
Proof.
  intros HK. destruct K as [|y K _] using rev_ind; [done|].
  rewrite app_comm_cons, app_assoc, tail_for_snoc, last_elem_snoc; [done|]. by destruct A.
Qed.

(** The state after the new buffers are linked. *)
Lemma add_inv n m ts L k f l K : inv n (mkSys m ts) L -> 0 < k -> NBuffers m + k <= MaxBuffers m ->
  let m3 := set_NBuffers (NBuffers m + k) (activated m k) in
  lists_ok (set_list Master l (set_descs f m3)) (set_L Master (L Master ++ K) L) ->
  (forall x, x ∈ K <-> NBuffers m <= x < NBuffers m + k) ->
  (forall x, f x = BufferDescriptors (activated m k) x \/
     x ∈ L Master /\ exists y, f x = set_freeNext y (BufferDescriptors (activated m k) x)) ->
  inv (n + 1) (mkSys (set_list Master l (set_descs f m3)) ts) (set_L Master (L Master ++ K) L).
Proof.
  intros H Hk Hmax m3 Hl' HK Hf. destruct (activated_spec m k Hk) as [Hold Hnew].
  destruct H as [Hsz Hl Hbuf Hres Hout Htab Hlen]. cbn [smem tasks] in *.
  assert (forall x, x ∈ L Master -> 0 <= x < NBuffers m) as HLr by (intros; apply Hl, linked_true; eauto).
  assert (forall x, NBuffers m <= x -> f x = BufferDescriptors (activated m k) x) as Hfnew.
  { intros x Hx. destruct (Hf x) as [|[Hin _]]; [done|]. specialize (HLr x Hin). lia. }
  assert (forall x, 0 <= x < NBuffers m -> f x = BufferDescriptors m x \/
     x ∈ L Master /\ exists y, f x = set_freeNext y (BufferDescriptors m x)) as Hfold.
  { intros x Hx. rewrite <- (Hold x) by lia. apply Hf. }
  split; cbn [smem tasks set_list NBuffers MaxBuffers BufferDescriptors m3 set_NBuffers set_descs activated modify_desc put_desc];
    fold (activated m k); [lia|done|..].
  - intros x Hx. destruct (Z.lt_ge_cases x (NBuffers m)) as [Hlt|Hge].
    + destruct (Hfold x ltac:(lia)) as [->|[Hin [y ->]]].
      * rewrite linked_set_same; [apply Hbuf; lia|]. rewrite elem_of_app, HK. naive_solver lia.
      * assert (linked L x = true) as Hlk by (apply linked_true; eauto).
        rewrite linked_set_in by set_solver. apply b_ok_relink. rewrite <- Hlk. apply Hbuf. lia.
    + rewrite Hfnew, linked_set_in by (try apply elem_of_app; try rewrite HK; lia || (right; lia)).
      destruct (Hnew x ltac:(lia)) as (d' & -> & E1 & E2 & E3 & _).
      pose proof (Hres x ltac:(lia)) as Hrx. pose proof (res_ref _ _ _ Hrx). pose proof (res_access _ _ _ Hrx).
      eapply b_ok_ext; [by eapply (b_ok_activate _ _ _ d' Hrx); congruence|done..| |done].
      intros q _. apply Hout. lia.
  - intros x Hx. rewrite Hfnew, Hold by lia. apply Hres. lia.
  - intros x q Hx. apply Hout. lia.
  - intros t x.
    change (table m !! t = Some x <->
      0 <= x < NBuffers m + k /\ has BM_DELETED (f x) = false /\ tag (f x) = t).
    rewrite (Htab t x).
    destruct (decide (0 <= x < NBuffers m)) as [Hx|Hx].
    + destruct (Hfold x Hx) as [->|[_ [y ->]]]; naive_solver lia.
    + split; [naive_solver|]. intros (Hr & Hd & _). exfalso. revert Hd. rewrite Hfnew by lia.
      destruct (Hnew x ltac:(lia)) as (d' & -> & E1 & _).
      rewrite (has_frame _ (lower BM_RETIRED (BufferDescriptors m x)) d' E1). flags.
      by rewrite (res_deleted _ _ _ (Hres x ltac:(lia))).
  - lia.
Qed.

Lemma step_add n s L count r : inv n s L -> calm_event s (EAdd count) = true ->
  step s (EAdd count) = Some r -> good (n + 1) r.
Proof.
  intros H Hcalm. pose proof (inv_lists _ _ _ H) as Hl. pose proof (inv_sizes _ _ _ H) as Hsz.
  destruct s as [m ts]. cbn in *.
  destruct (NBuffers m <? MaxBuffers m) eqn:Hlt; [|done]. cbn.
  destruct (unguarded_tail _ Master); [|done]. cbn. intros [= <-].
  unfold AddMoreBuffers. set (k := Z.min count (MaxBuffers m - NBuffers m)) in *.
  replace (0 <? k) with true by lia. cbn [ereport_unless mbind result_bind].
  change (modify_desc _ _ _) with (activated m k). set (N := NBuffers m) in *.
  destruct (activated_spec m k) as [Hold Hnew]; [lia|]. fold N in Hold, Hnew. cbv zeta in Hold, Hnew.
  assert (forall x, linked L x = true -> 0 <= x < N) as Hr by apply Hl.
  assert (lists_ok (activated m k) L) as Hl2.
  { eapply lists_ok_frame; [done|by intros []|done|]. intros x Hx%Hr. by rewrite Hold by lia. }
  assert (seqZ N k = N :: seqZ (Z.succ N) (Z.pred k)) as Eseq by (apply seqZ_cons; lia).
  set (K := seqZ (Z.succ N) (Z.pred k)) in *.
  assert (forall x, x ∈ N :: K <-> N <= x < N + k) as HK by (intros; rewrite <- Eseq; apply elem_of_seqZ).
  destruct (AddBuffersToTail_ok (activated m k) L N K) as (f & h & -> & Hch & Hf); try done.
  { rewrite <- Eseq. apply chain_seqZ; [lia| |].
    - intros i Hi. destruct (Hnew i ltac:(lia)) as (d' & -> & _ & _ & _ & ->).
      replace (i =? N + k - 1) with false by lia.
      pose proof (res_next _ _ _ (inv_res _ _ _ H i ltac:(cbn; lia))) as Hnx. cbn in Hnx. rewrite Hnx. by replace (i =? MaxBuffers m - 1) with false by lia.
    - destruct (Hnew (N + k - 1) ltac:(lia)) as (d' & -> & _ & _ & _ & ->). by rewrite Z.eqb_refl. }
  { intros x Hx%HK. split; [|cbn; lia]. intros Hin. specialize (Hr x ltac:(apply linked_true; eauto)). lia. }
  { unfold K. rewrite length_seqZ. cbn. lia. }
  { cbn. lia. }
  { intros x Hx. assert (linked L x = true) as Hlk by (apply linked_true; eauto). rewrite Hold by (specialize (Hr x Hlk); lia).
    pose proof (inv_buf _ _ _ H x (Hr x Hlk)) as Hok. rewrite Hlk in Hok. destruct Hok. cbn in *. lia. }
  cbn [mbind result_bind].
  eapply (good_intro _ _ (set_L Master (L Master ++ N :: K) L)), (add_inv n m ts L k f); try done; [lia|lia|].
  apply lists_ok_set; try done.
  - eapply lists_ok_frame; [exact Hl2|by intros []|cbn; lia|done].
  - symmetry. apply tail_for_app. intros E%(f_equal length). unfold K in E. rewrite length_seqZ in E. simpl in E. lia.
  - apply NoDup_app. split; [apply Hl|]. rewrite <- Eseq. split; [|apply NoDup_seqZ].
    intros x Hx Hx'%elem_of_seqZ. specialize (Hr x ltac:(apply linked_true; eauto)). lia.
  - intros x [Hx|Hx]%elem_of_app; cbn; fold N k.
    + specialize (Hr x ltac:(apply linked_true; eauto)). split; [lia|by left].
    + apply HK in Hx. split; [lia|]. right. destruct (linked L x) eqn:E; [|done]. specialize (Hr x E). lia.
  - intros x Hx Hx'. destruct (Hf x) as [->|[? _]]; [done|done].
Qed.

(** ** Start-up *)

Definition start_lists (nbuffers split : Z) (w : which) : list Z :=
  match w with Master => seqZ split (nbuffers - split) | Index => seqZ 0 split end.

Lemma start_desc nbuffers maxbuffers split lingering junk b : 0 <= b < maxbuffers -> nbuffers <= maxbuffers ->
  let d := BufferDescriptors (smem (start nbuffers maxbuffers split lingering junk)) b in
  refCount d = 0 /\ pageaccess d = 0 /\ has BM_FREE d = true /\ has BM_VALID d = false /\
  has BM_DELETED d = true /\ has BM_RETIRED d = negb (b <? nbuffers) /\
  freeNext d = if b <? nbuffers
    then if (negb (split =? 0) && (b =? split - 1)) || (b =? nbuffers - 1) then INVALID_DESCRIPTOR else b + 1
    else if b =? maxbuffers - 1 then INVALID_DESCRIPTOR else b + 1.
Proof.
  intros Hb Hn. cbn.
  replace ((0 <=? b) && (b <? maxbuffers)) with true by lia.
  destruct (Z.ltb_spec b nbuffers); [replace ((0 <=? b) && true) with true by lia|
    replace ((0 <=? b) && false) with false by lia].
  - replace (nbuffers <=? b) with false by lia. cbn. split_and!; done.
  - replace (nbuffers <=? b) with true by lia. cbn. split_and!; done.
Qed.

Lemma start_linked nbuffers split b : 0 <= split <= nbuffers ->
  linked (start_lists nbuffers split) b = true <-> 0 <= b < nbuffers.
Proof.
  intros Hs. rewrite linked_true. split.
  - intros [[] Hb%elem_of_seqZ]; lia.
  - intros Hb. destruct (decide (split <= b)); [exists Master|exists Index]; apply elem_of_seqZ; lia.
Qed.

Lemma tail_for_seqZ a n : 2 <= n -> tail_for (seqZ a n) = a + n - 1.
Proof.
  intros Hn. replace n with ((n - 1) + 1) at 1 by lia. rewrite seqZ_app by lia.
  replace (seqZ (a + (n - 1)) 1) with [a + (n - 1)] by done. rewrite tail_for_snoc; [lia|].
  intros E%(f_equal length). rewrite length_seqZ in E. simpl in E. lia.
Qed.

(** A list of [InitFreeList]: the buffers [a .. a + n - 1]. *)
Lemma start_chain nbuffers maxbuffers split lingering junk a n : nbuffers <= maxbuffers -> 0 < n ->
  0 <= a -> a + n <= nbuffers -> (a + n = split \/ a = split /\ a + n = nbuffers) ->
  chain (nexts (smem (start nbuffers maxbuffers split lingering junk))) a (seqZ a n).
Proof.
  intros Hmax Hn Ha Hr Hs. apply chain_seqZ; [done| |].
  - intros i Hi. destruct (start_desc nbuffers maxbuffers split lingering junk i ltac:(lia) Hmax)
      as (_ & _ & _ & _ & _ & _ & ->).
    replace (i <? nbuffers) with true by lia.
    by replace ((negb (split =? 0) && (i =? split - 1)) || (i =? nbuffers - 1)) with false by lia.
  - destruct (start_desc nbuffers maxbuffers split lingering junk (a + n - 1) ltac:(lia) Hmax)
      as (_ & _ & _ & _ & _ & _ & ->).
    replace (_ <? nbuffers) with true by lia.
    by replace ((negb (split =? 0) && (a + n - 1 =? split - 1)) || (a + n - 1 =? nbuffers - 1)) with true by lia.
Qed.

Lemma start_lists_ok nbuffers maxbuffers split lingering junk :
  2 <= nbuffers - split -> 0 <= split -> split <> 1 -> nbuffers <= maxbuffers ->
  lists_ok (smem (start nbuffers maxbuffers split lingering junk)) (start_lists nbuffers split).
Proof.
  intros Hm Hs H1 Hmax. set (s := start _ _ _ _ _).
  assert (list_of (smem s) Index = if split =? 0 then mkFreeList INVALID_DESCRIPTOR INVALID_DESCRIPTOR 0
            else mkFreeList 0 (split - 1) 0) as Ei by (cbn; by destruct (split =? 0)).
  assert (list_of (smem s) Master = mkFreeList split (nbuffers - 1) 0) as Ema by done.
  split.
  - intros []; rewrite ?Ei, ?Ema; cbn [start_lists].
    + apply start_chain; lia.
    + destruct (Z.eqb_spec split 0) as [->|]; [done|]. apply start_chain; lia.
  - intros []; rewrite ?Ei, ?Ema; cbn [start_lists].
    + rewrite tail_for_seqZ by lia. cbn. lia.
    + destruct (Z.eqb_spec split 0) as [->|]; [done|]. rewrite tail_for_seqZ by lia. cbn. lia.
  - intros []; apply NoDup_seqZ.
  - intros b [] []; cbn; try done; rewrite !elem_of_seqZ; lia.
  - intros b Hb. change (NBuffers (smem s)) with nbuffers. apply start_linked in Hb; lia.
Qed.

Lemma start_inv nbuffers maxbuffers split lingering junk :
  2 <= nbuffers - split -> 0 <= split -> split <> 1 -> nbuffers <= maxbuffers ->
  inv 0 (start nbuffers maxbuffers split lingering junk) (start_lists nbuffers split).
Proof.
  intros Hm Hs H1 Hmax. pose proof (start_lists_ok nbuffers maxbuffers split lingering junk Hm Hs H1 Hmax) as Hl.
  pose proof (fun b Hb => start_desc nbuffers maxbuffers split lingering junk b Hb Hmax) as Hd.
  set (s := start _ _ _ _ _) in *.
  assert (NBuffers (smem s) = nbuffers /\ MaxBuffers (smem s) = maxbuffers /\ tasks s = []) as (En & Em & Et) by done.
  split; rewrite ?En, ?Em, ?Et; [lia|done| | |done| |done].
  - intros b Hb. destruct (Hd b ltac:(lia)) as (E1 & E2 & E3 & E4 & E5 & E6 & _).
    rewrite (proj2 (start_linked nbuffers split b ltac:(lia)) Hb).
    split; rewrite ?E1, ?E2, ?E3, ?E4, ?E5, ?E6; unfold holds, accesses, unlinked; cbn; lia.
  - intros b Hb. destruct (Hd b ltac:(lia)) as (E1 & E2 & E3 & E4 & E5 & E6 & E7).
    split; rewrite ?E1, ?E2, ?E3, ?E4, ?E5, ?E6, ?E7; try done; by replace (b <? nbuffers) with false by lia.
  - intros t b. rewrite En. change (table (smem s)) with (∅ : gmap BufferTag Z). rewrite lookup_empty.
    split; [done|]. intros (Hb & Hx & _). destruct (Hd b ltac:(lia)) as (_ & _ & _ & _ & E5 & _). congruence.
Qed.

(** ** Histories *)

Lemma step_inv n s L e r : inv n s L -> n + 1 < 2 ^ 32 -> calm_event s e = true ->
  step s e = Some r -> good (n + 1) r.
Proof.
  destruct e; intros; [eapply step_pin|eapply step_wake|eapply step_scan|eapply step_unpin|eapply step_settail|
    eapply step_sethead|eapply step_get|eapply step_check|eapply step_replace|eapply step_put|eapply step_delete|
    eapply step_bias|eapply step_lock|eapply step_add]; eauto.
Qed.

Lemma run_inv es n s L r : inv n s L -> n + Zlen es < 2 ^ 32 -> calm s es = true ->
  run s es = Some r -> good (n + Zlen es) r.
Proof.
  revert n s L. induction es as [|e es IH]; intros n s L H Hn Hc Hr; simpl in *.
  - injection Hr as <-. rewrite Z.add_0_r. by eapply good_intro.
  - apply andb_true_iff in Hc as [He Hc]. destruct (step s e) as [r1|] eqn:Hs; simpl in Hr; [|done].
    destruct (step_inv _ _ _ _ _ H ltac:(lia) He Hs) as (s1 & L1 & -> & H1).
    replace (n + Z.of_nat (S (length es))) with (n + 1 + Zlen es) by lia.
    eapply IH; [done|lia|done|done].
Qed.

(** A configuration in which no list starts with a single buffer. *)
Definition pool_config (nbuffers maxbuffers split : Z) : Prop :=
  2 <= nbuffers - split /\ 0 <= split /\ split <> 1 /\ nbuffers <= maxbuffers.

Lemma history_inv nbuffers maxbuffers split lingering junk es r :
  pool_config nbuffers maxbuffers split -> Zlen es < 2 ^ 32 ->
  calm (start nbuffers maxbuffers split lingering junk) es = true ->
  run (start nbuffers maxbuffers split lingering junk) es = Some r -> good (Zlen es) r.
Proof.
  intros (? & ? & ? & ?) Hn Hc Hr.
  apply (run_inv es 0 _ _ r (start_inv nbuffers maxbuffers split lingering junk ltac:(done) ltac:(done) ltac:(done) ltac:(done)));
    done.
Qed.

Lemma idle_lists n s L : inv n s L -> tasks s = [] ->
  L Master ++ L Index ≡ₚ seqZ 0 (NBuffers (smem s)) /\
  forall b, 0 <= b < NBuffers (smem s) -> refCount (BufferDescriptors (smem s) b) = 0.
Proof.
  intros H Et. pose proof (inv_lists _ _ _ H) as Hl. split.
  - apply NoDup_Permutation; [|apply NoDup_seqZ|].
    + apply NoDup_app. split_and!; [apply Hl| |apply Hl]. intros b H1 H2.
      by pose proof (lists_disjoint _ _ Hl _ _ _ H1 H2).
    + intros b. rewrite elem_of_app, elem_of_seqZ. transitivity (linked L b = true).
      { rewrite linked_true. split; [naive_solver|]. intros [[] ?]; auto. }
      split; [apply Hl|]. intros Hb. destruct (inv_buf _ _ _ H b ltac:(lia)). rewrite Et in *.
      unfold holds, unlinked in *. cbn in *. destruct (ok_zero eq_refl) as [Hf|]; [|done]. lia.
  - intros b Hb. rewrite (ok_ref _ _ _ (inv_buf _ _ _ H b Hb)), Et. done.
Qed.

(** The pins that threads hold on a buffer; the count that a failed [PutFreeBuffer] leaves behind
    is not one of them. *)
Definition own_pins (p : role -> nat) : nat :=
  (p (RHold true) + p (RHold false) + p (RScan true) + p (RScan false) + p RReplace + p RPut)%nat.

(** A buffer that nobody works on is on one of the lists, once. *)
Lemma untouched_linked n s L b : inv n s L -> 0 <= b < NBuffers (smem s) -> (forall q, (b, q) ∉ tasks s) ->
  b ∈ L Master ++ L Index /\ refCount (BufferDescriptors (smem s) b) = 0.
Proof.
  intros H Hb Hq. assert (forall q, cnt (tasks s) b q = 0%nat) as Hz.
  { intros q. destruct (decide (cnt (tasks s) b q = 0%nat)) as [|Hc]; [done|]. apply cnt_elem in Hc. by destruct (Hq q). }
  destruct (inv_buf _ _ _ H b Hb) as [Hfree _ _ _ Href _ _ _ Hzero _ _ _].
  assert (holds (cnt (tasks s) b) = 0%nat) as Hh by (unfold holds; by rewrite !Hz). split; [|by rewrite Href, Hh].
  destruct (Hzero Hh) as [Hf|Hx]; [|by rewrite Hz in Hx]. destruct (Hfree Hf) as [[Hl _]|[_ Hu]].
  - apply linked_true in Hl as [[] Hl]; apply elem_of_app; auto.
  - unfold unlinked in Hu. by rewrite !Hz in Hu.
Qed.


(** C13: A page of a relation is in at most one buffer: in every history of fewer than 2^32
    sections, in a pool in which neither list starts with a single buffer, without a pin between the two sections of
    [PutFreeBuffer] and without growth by one, two valid buffers
    with the same tag are the same buffer, and it is the one that the buffer table names for the
    tag - so two threads that read a page always share its buffer. *)
Theorem one_buffer_per_page nbuffers maxbuffers split lingering junk es s :
  pool_config nbuffers maxbuffers split -> Zlen es < 2 ^ 32 ->
  calm (start nbuffers maxbuffers split lingering junk) es = true ->
  run (start nbuffers maxbuffers split lingering junk) es = Some (Ok s) ->
  forall b c, 0 <= b < NBuffers (smem s) -> 0 <= c < NBuffers (smem s) ->
  let D := BufferDescriptors (smem s) in
  has BM_VALID (D b) = true -> has BM_VALID (D c) = true -> tag (D b) = tag (D c) ->
  b = c /\ BufTableLookup (smem s) (tag (D b)) = Some b.
Proof.
  intros Hcfg Hn Hc Hr b c Hb Hc' D Hvb Hvc Htag.
  destruct (history_inv _ _ _ _ _ _ _ Hcfg Hn Hc Hr) as (s' & L & [= <-] & H).
  pose proof (ok_valid _ _ _ (inv_buf _ _ _ H b Hb) Hvb) as Hdb.
  pose proof (ok_valid _ _ _ (inv_buf _ _ _ H c Hc') Hvc) as Hdc.
  assert (table (smem s) !! tag (D b) = Some b) as Eb by (by apply (inv_table _ _ _ H)).
  assert (table (smem s) !! tag (D b) = Some c) as Ec by (by apply (inv_table _ _ _ H)).
  split; [congruence|]. exact Eb.
Qed.

Definition pins (r : role) : bool :=
  match r with RHold _ | RScan _ | RReplace | RPut | RLost => true | _ => false end.

Lemma single_pin d p l r r' : b_ok d p l -> holds p = 1%nat -> pins r = true -> pins r' = true ->
  p r <> 0%nat -> p r' <> 0%nat -> r = r' /\ p r = 1%nat.
Proof.
  intros _ H1 Hr Hr' H2 H3. unfold holds in H1.
  destruct r as [| | | | |[]|[]| |], r' as [| | | | |[]|[]| |]; try done; split; try done; try lia; exfalso; lia.
Qed.

(** A buffer that [GetFreeBuffer] has handed out belongs to the thread alone until
    [BufTableReplace] has given it a new page: it is not valid, its count is one, no other thread
    holds a pin of any kind on it, and a [ManualPin] by another thread does not succeed. *)
Theorem replaced_buffer_exclusive nbuffers maxbuffers split lingering junk es s :
  pool_config nbuffers maxbuffers split -> Zlen es < 2 ^ 32 ->
  calm (start nbuffers maxbuffers split lingering junk) es = true ->
  run (start nbuffers maxbuffers split lingering junk) es = Some (Ok s) ->
  forall b, (b, RReplace) ∈ tasks s ->
  has BM_VALID (BufferDescriptors (smem s) b) = false /\
  refCount (BufferDescriptors (smem s) b) = 1 /\
  cnt (tasks s) b RReplace = 1%nat /\
  (forall r, pins r = true -> (b, r) ∈ tasks s -> r = RReplace) /\
  (forall access m' p, ManualPin (smem s) b access = Ok (m', p) -> p = PinFailed \/ p = PinWaits).
Proof.
  intros Hcfg Hn Hc Hr b Hb.
  destruct (history_inv _ _ _ _ _ _ _ Hcfg Hn Hc Hr) as (s' & L & [= <-] & H).
  apply cnt_elem in Hb as Hcnt. pose proof (inv_in_range _ _ _ _ _ H Hcnt) as Hrange.
  pose proof (inv_buf _ _ _ H b Hrange) as Hok. pose proof (inv_sizes _ _ _ H).
  destruct (ok_owner _ _ _ Hok) as [H1 Hv]; [lia|].
  split; [done|]. split; [rewrite (ok_ref _ _ _ Hok); lia|].
  split; [by apply (single_pin _ _ _ RReplace RReplace Hok)|]. split.
  - intros r Hp Hin%cnt_elem. by destruct (single_pin _ _ _ r RReplace Hok H1 Hp eq_refl Hin Hcnt).
  - intros access m' p. unfold ManualPin, ManualPin_count. rewrite !deref_ok by lia. cbn [mbind result_bind].
    rewrite Hv. repeat case_match; intros [= <- <-]; auto.
Qed.

(** ** Histories of small pools *)

Definition blank (_ : Z) : BufferDesc := mkBufferDesc 0 CLEAR_BUFFERTAG 0 0 0 0 0 0 0.
Definition page (block : Z) : BufferTag := mkBufferTag 1 1 block.
Definition heap : Z := 114.

(** Reads of three pages, a pin on a listed buffer whose neighbour is pinned too, a page that
    another thread brought in first, growth by two, and everything given back. *)
Definition busy_history : list event :=
  [EGet Master; ECheck 0; EReplace 0 (page 7) heap; EUnpin 0 true; ESetTail 0;
   EGet Master; ECheck 1; EReplace 1 (page 8) heap; EUnpin 1 true; ESetTail 1;
   EPin 0 true; EScan 0 true true; EPin 1 false; EScan 1 false true;
   EPin 0 true; EScan 0 true false;
   EGet Master; ECheck 2; EReplace 2 (page 8) heap; EPut 2; ESetHead 2;
   EAdd 2; EUnpin 1 false; EUnpin 0 true; EDelete 0; EUnpin 0 true].

(** A history that ends in a state with a property. *)
Lemma run_decided s es (f : sys -> bool) :
  (match run s es with Some (Ok s') => f s' | _ => false end) = true ->
  exists s', run s es = Some (Ok s') /\ f s' = true.
Proof. destruct (run s es) as [[]|]; intros; [eauto|done|done]. Qed.


Lemma one_buffer_per_page_witness : exists s,
  run (start 4 6 0 true blank) (take 20 busy_history) = Some (Ok s) /\
  BufTableLookup (smem s) (tag (BufferDescriptors (smem s) 1)) = Some 1.
Proof.
  destruct (run_decided (start 4 6 0 true blank) (take 20 busy_history)
    (fun s => (NBuffers (smem s) =? 4) && has BM_VALID (BufferDescriptors (smem s) 1))) as (s & Hs & Hv); [vm_compute; reflexivity|].
  exists s. split; [exact Hs|]. apply andb_true_iff in Hv as [Hn Hv]. apply Z.eqb_eq in Hn.
  apply (one_buffer_per_page 4 6 0 true blank (take 20 busy_history) s) with (c := 1).
  - repeat split; lia.
  - vm_compute. reflexivity.
  - vm_compute. reflexivity.
  - exact Hs.
  - lia.
  - lia.
  - exact Hv.
  - exact Hv.
  - reflexivity.
Defined.

Lemma replaced_buffer_exclusive_witness : exists s,
  run (start 4 6 0 true blank) (take 18 busy_history) = Some (Ok s) /\
  refCount (BufferDescriptors (smem s) 2) = 1 /\ forall access, (2, RHold access) ∉ tasks s.
Proof.
  destruct (run_decided (start 4 6 0 true blank) (take 18 busy_history)
    (fun s => bool_decide ((2, RReplace) ∈ tasks s))) as (s & Hs & Hv); [vm_compute; reflexivity|].
  exists s. split; [exact Hs|].
  destruct (replaced_buffer_exclusive 4 6 0 true blank (take 18 busy_history) s) with (b := 2) as (_ & Hr & _ & Hp & _).
  - repeat split; lia.
  - vm_compute. reflexivity.
  - vm_compute. reflexivity.
  - exact Hs.
  - exact (bool_decide_eq_true_1 _ Hv).
  - split; [exact Hr|]. intros access Hin. discriminate (Hp (RHold access) eq_refl Hin).
Defined.

(** ** Defects *)

(** Nothing takes back a count that [PutFreeBuffer] left behind. *)
Lemma step_lost s e s' b : step s e = Some (Ok s') ->
  (cnt (tasks s) b RLost <= cnt (tasks s') b RLost)%nat.
Proof.
  assert (forall c r ts, r <> RLost -> at_task s (c, r) = Some ts -> cnt ts b RLost = cnt (tasks s) b RLost) as Ht.
  { intros c r ts Hr Hp. destruct (at_task_cnt _ _ _ _ Hp) as (H1 & H2 & _).
    destruct (decide (b = c)) as [->|]; [|by apply H1]. rewrite H2. unfold inc. by rewrite decide_False. }
  assert (forall c r ts, (cnt ts b RLost <= cnt ((c, r) :: ts) b RLost)%nat) as Hc by (intros; simpl; lia).
  assert (forall c a p ts, (cnt ts b RLost <= cnt (after_pin c a p ts) b RLost)%nat) as Hp by (intros ? ? [] ?; simpl; lia).
  destruct e; cbn [step]; intros H;
    repeat match type of H with
    | (require ?x ≫= _) = _ => destruct (require x); [cbn [mbind option_bind] in H|discriminate H]
    | (unguarded ?x ?y ≫= _) = _ => destruct (unguarded x y); [cbn [mbind option_bind] in H|discriminate H]
    | (unguarded_tail ?x ?y ≫= _) = _ => destruct (unguarded_tail x y); [cbn [mbind option_bind] in H|discriminate H]
    | (at_task ?x (?y, ?r) ≫= _) = _ =>
        let E := fresh "E" in destruct (at_task x (y, r)) eqn:E;
        [cbn [mbind option_bind] in H; apply Ht in E; [rewrite <- E|done]|discriminate H]
    end; injection H as H; first [apply result_bind_Ok in H as (x & _ & H); try destruct x; injection H as <-|subst s'];
    cbn [tasks]; repeat case_match; try apply Hp; simpl; lia.
Qed.

Lemma run_lost es s s' b : run s es = Some (Ok s') ->
  (cnt (tasks s) b RLost <= cnt (tasks s') b RLost)%nat.
Proof.
  revert s. induction es as [|e es IH]; intros s; simpl; [by intros [= <-]|].
  destruct (step s e) as [[s1|]|] eqn:E; simpl; [|done|done].
  intros Hr. etrans; [by eapply step_lost|]. eauto.
Qed.

(** A thread takes buffer 1 off the list and is interrupted before it looks at it; another one
    pins and unpins the page in it, which puts the buffer back; the first thread takes the buffer,
    finds that its page has been brought in meanwhile and gives the buffer up. *)
Definition leak_history : list event :=
  [EGet Master; ECheck 0; EReplace 0 (page 7) heap; EGet Master; ECheck 1; EReplace 1 (page 8) heap;
   EGet Master; ECheck 2; EReplace 2 (page 9) heap; EUnpin 1 true; ESetTail 1;
   EGet Master; EPin 1 true; EUnpin 1 true; ESetTail 1; ECheck 1; EReplace 1 (page 7) heap; EPut 1].

(** [PutFreeBuffer] can lose a buffer for good.  When the buffer is back on the free list
    already, it keeps the reference count of one that [GetFreeBuffer] set.  There is a history
    of a pool of three buffers, without any of the excluded windows, after which buffer 1 has
    count one although no thread holds a pin on it; and in every continuation of fewer than 2^31
    sections without one of these windows the count stays, the buffer stays invalid and no thread ever pins, replaces or returns it. *)
Theorem PutFreeBuffer_leaks : exists s,
  run (start 3 3 0 false blank) leak_history = Some (Ok s) /\
  calm (start 3 3 0 false blank) leak_history = true /\
  forall es r, calm s es = true -> Zlen es < 2 ^ 31 -> run s es = Some r ->
  exists s', r = Ok s' /\ refCount (BufferDescriptors (smem s') 1) = 1 /\
    has BM_VALID (BufferDescriptors (smem s') 1) = false /\
    forall q, pins q = true -> q <> RLost -> (1, q) ∉ tasks s'.
Proof.
  destruct (run_decided (start 3 3 0 false blank) leak_history (fun s => bool_decide ((1, RLost) ∈ tasks s)))
    as (s & Hs & Hlost%bool_decide_eq_true_1%cnt_elem); [vm_compute; reflexivity|].
  assert (calm (start 3 3 0 false blank) leak_history = true) as Hc by (vm_compute; reflexivity).
  exists s. split; [done|]. split; [done|]. intros es r Hcalm Hn Hr.
  destruct (history_inv 3 3 0 false blank leak_history (Ok s)) as (s0 & L & [= <-] & H);
    [by repeat split; lia|done..|].
  change (Zlen leak_history) with 18 in H.
  destruct (run_inv es 18 s L r H ltac:(lia) Hcalm Hr) as (s' & L' & -> & H').
  exists s'. split; [done|].
  assert (cnt (tasks s') 1 RLost <> 0%nat) as Hl by (pose proof (run_lost es s s' 1 Hr); lia).
  pose proof (inv_buf _ _ _ H' 1 (inv_in_range _ _ _ _ _ H' Hl)) as Hok.
  destruct (ok_owner _ _ _ Hok) as [H1 Hv]; [lia|]. split; [rewrite (ok_ref _ _ _ Hok); lia|]. split; [done|].
  intros q Hq Hne Hin%cnt_elem. exact (Hne (proj1 (single_pin _ _ _ q RLost Hok H1 Hq eq_refl Hin Hl))).
Qed.

(** The same buffer is taken off the list twice and given up once; before [PutFreeBuffer] has
    linked it again the other thread puts a page into it, which a third one pins. *)
Definition window_history : list event :=
  [EGet Master; ECheck 0; EReplace 0 (page 7) heap; EGet Master; ECheck 1; EReplace 1 (page 8) heap;
   EGet Master; ECheck 2; EReplace 2 (page 9) heap; EUnpin 1 true; ESetTail 1;
   EGet Master; EPin 1 true; EUnpin 1 true; ESetTail 1; EGet Master;
   ECheck 1; EReplace 1 (page 7) heap; EPut 1;
   ECheck 1; EReplace 1 (page 8) heap; EPin 1 true; EScan 1 true true].

(** [PutFreeBuffer] flags a buffer [BM_FREE] before [SetHead] has given it a link.  There
    is a history in which another thread validates the buffer in this window and a third one
    pins it: [RemoveNearestNeighbor] then follows [DETACHED_DESCRIPTOR] and reads
    [BufferDescriptors[-4]]. *)
Theorem PutFreeBuffer_window :
  run (start 3 3 0 false blank) window_history = Some (Err "BufferDescriptors: out of range") /\
  calm (start 3 3 0 false blank) window_history = false.
Proof. split; vm_compute; reflexivity. Qed.

(** When a single buffer is added to an empty list, [tail] names it; [GetHead] does not reset
    [tail] when it takes it, [SetHead] keeps it, and the next [SetTailBuffer] links to a buffer
    that is not in the list. *)
Definition tail_history : list event :=
  [EGet Master; ECheck 0; EReplace 0 (page 7) heap; EGet Master; ECheck 1; EAdd 1; EGet Master;
   EReplace 1 (page 7) heap; EPut 1; ESetHead 1; EUnpin 0 true; ESetTail 0].

Theorem single_buffer_stale_tail :
  run (start 2 3 0 false blank) tail_history = Some (Err "Assert") /\
  (exists s, run (start 2 3 0 false blank) (take 11 tail_history) = Some (Ok s) /\
     head (MasterList (smem s)) = 1 /\ freeNext (BufferDescriptors (smem s) 1) = INVALID_DESCRIPTOR /\
     tail (MasterList (smem s)) = 2 /\ has BM_FREE (BufferDescriptors (smem s) 2) = false).
Proof.
  split; [vm_compute; reflexivity|].
  destruct (run_decided (start 2 3 0 false blank) (take 11 tail_history) (fun s =>
    (head (MasterList (smem s)) =? 1) && (freeNext (BufferDescriptors (smem s) 1) =? INVALID_DESCRIPTOR) &&
    (tail (MasterList (smem s)) =? 2) && negb (has BM_FREE (BufferDescriptors (smem s) 2))))
    as (s & Hs & Hf); [vm_compute; reflexivity|].
  exists s. split; [exact Hs|]. lia.
Qed.

(** [InitiateFlush] asks for [NBuffers * 0.1] more buffers: none when the pool has fewer than
    ten, and [AddMoreBuffers] then writes through a null pointer. *)
Theorem AddMoreBuffers_none m : NBuffers m < MaxBuffers m ->
  AddMoreBuffers m 0 = Err "AddMoreBuffers: null pointer".
Proof. intros H. unfold AddMoreBuffers. by replace (0 <? Z.min 0 (MaxBuffers m - NBuffers m)) with false by lia. Qed.
