(* ===== verification/Buflock.v ===== *)
(** * Content locks of a buffer

    Model of [LockBuffer] and [UnlockIndividualBuffer] ([storage/buffer/bufmgr.c])
    and of the waits for page access in [ManualPin] and [ManualUnpin]
    ([freelist.c]), for one buffer and any number of threads.

    A thread that works on a page holds a pin with page access and takes a
    shared or a write lock on the contents; a reference-exclusive lock
    ([BUFFER_LOCK_REF_EXCLUSIVE], used by vacuum and by B-tree page deletion)
    also waits until all others have given up their access.  All waits of a
    buffer use one condition variable ([cntx_lock.gate]).  The critical sections
    are functions on the lock fields of the descriptor ([lockdesc]); [lock_step]
    interleaves the threads, with the condition variable made explicit: a thread
    in [pthread_cond_wait] continues when it was signalled, or for no reason.

    Main results: writers exclude everybody else, a reference-exclusive holder
    is alone on the page, and no [Assert] fails ([content_lock_exclusion]); but
    one [pthread_cond_signal] for waiters that wait for different things can
    wake the wrong one, and all threads sleep with the lock free
    ([unlock_lost_wakeup]).

    The caller's side is a precondition of the steps: a thread locks a buffer
    that it has pinned and not locked yet and unpins it without a lock.  The
    validity test of [ManualPin] is in [Freelist.v].  No caller passes a null
    relation to [LockBuffer], and that case is left out. *)

From Stdlib Require Import ZifyBool.
From S2P Require Import Prelude Freelist.

(** ** Data *)

Definition BUFFER_LOCK_UNLOCK : Z := 0.
Definition BUFFER_LOCK_SHARE : Z := 1.
Definition BUFFER_LOCK_EXCLUSIVE : Z := 2.
Definition BUFFER_LOCK_REF_EXCLUSIVE : Z := 4.
Definition BUFFER_LOCK_READ_EXCLUSIVE : Z := 8.

Definition BL_R_LOCK : Z := 2.
Definition BL_W_LOCK : Z := 8.

(** The fields of [BufferDesc] that the locks use. *)
Record lockdesc := mkLockdesc {
  l_flags : Z;
  l_access : Z;
  r_locks : Z;
  w_owner : Z;
  l_e_waiting : Z;
  w_waiting : Z;
  r_waiting : Z;
  l_p_waiting : Z
}.

Inductive wait := WaitPin | WaitShare | WaitWrite | WaitRef.

#[export] Instance wait_eq_dec : EqDecision wait.
Proof. solve_decision. Defined.

(** [x_waiting += k]. *)
Definition add_waiting (w : wait) (k : Z) (d : lockdesc) : lockdesc :=
  let '(e, x, r, p) :=
    match w with
    | WaitRef => (u32 (l_e_waiting d + k), w_waiting d, r_waiting d, l_p_waiting d)
    | WaitWrite => (l_e_waiting d, u32 (w_waiting d + k), r_waiting d, l_p_waiting d)
    | WaitShare => (l_e_waiting d, w_waiting d, u32 (r_waiting d + k), l_p_waiting d)
    | WaitPin => (l_e_waiting d, w_waiting d, r_waiting d, u32 (l_p_waiting d + k))
    end in
  mkLockdesc (l_flags d) (l_access d) (r_locks d) (w_owner d) e x r p.
Definition set_flags (f : Z) (d : lockdesc) : lockdesc :=
  mkLockdesc f (l_access d) (r_locks d) (w_owner d) (l_e_waiting d) (w_waiting d) (r_waiting d) (l_p_waiting d).
Definition set_owner (o : Z) (d : lockdesc) : lockdesc :=
  mkLockdesc (l_flags d) (l_access d) (r_locks d) o (l_e_waiting d) (w_waiting d) (r_waiting d) (l_p_waiting d).
Definition set_r_locks (r : Z) (d : lockdesc) : lockdesc :=
  mkLockdesc (l_flags d) (l_access d) r (w_owner d) (l_e_waiting d) (w_waiting d) (r_waiting d) (l_p_waiting d).
Definition set_access (a : Z) (d : lockdesc) : lockdesc :=
  mkLockdesc (l_flags d) a (r_locks d) (w_owner d) (l_e_waiting d) (w_waiting d) (r_waiting d) (l_p_waiting d).

(** What a section does with the condition variable when it ends. *)
Inductive signal := NoSignal | Signal | Broadcast.

(** A lock request ends with the lock or in a wait. *)
Inductive lock_result := Waits (w : wait) | Locked (buflock : Z).

(** ** The sections *)

Definition Exclusive (d : lockdesc) : bool := flag (l_flags d) BM_EXCLUSIVE.
Definition Writelock (d : lockdesc) : bool := flag (l_flags d) BM_WRITELOCK.

(** The condition of the [while] loop of a lock mode. *)
Definition must_wait (w : wait) (d : lockdesc) : bool :=
  match w with
  | WaitPin => Exclusive d
  | WaitShare => Writelock d || (0 <? w_waiting d)
  | WaitWrite => (0 <? r_locks d) || Writelock d
  | WaitRef => l_e_waiting d + 1 <? l_access d
  end.

(** What follows the loop. *)
Definition take (w : wait) (eid buflock : Z) (d : lockdesc) : lockdesc * Z :=
  match w with
  | WaitPin => (set_access (u32 (l_access d + 1)) d, buflock)
  | WaitShare => (set_r_locks (u32 (r_locks d + 1)) d, Z.lor buflock BL_R_LOCK)
  | WaitWrite => (set_flags (Z.lor (l_flags d) BM_WRITELOCK) (set_owner eid d), Z.lor buflock BL_W_LOCK)
  | WaitRef => (set_flags (Z.lor (l_flags d) (Z.lor BM_WRITELOCK BM_EXCLUSIVE)) d, Z.lor buflock BL_W_LOCK)
  end.

Definition wait_or_take (w : wait) (eid buflock : Z) (d : lockdesc) : lockdesc * lock_result :=
  if must_wait w d then (add_waiting w 1 d, Waits w)
  else let '(d', l) := take w eid buflock d in (d', Locked l).

(** The wait that belongs to a lock mode; any other mode is an error. *)
Definition mode_wait (mode : Z) : result wait :=
  if mode =? BUFFER_LOCK_REF_EXCLUSIVE then Ok WaitRef
  else if mode =? BUFFER_LOCK_SHARE then Ok WaitShare
  else if (mode =? BUFFER_LOCK_EXCLUSIVE) || (mode =? BUFFER_LOCK_READ_EXCLUSIVE) then Ok WaitWrite
  else Err "LockBuffer: unknown lock mode".

(** [LockBuffer] for every mode but [BUFFER_LOCK_UNLOCK]. *)
Definition LockBuffer (d : lockdesc) (mode eid buflock : Z) : result (lockdesc * lock_result) :=
  mode_wait mode ≫= fun w =>
  Assert (negb (flag BL_R_LOCK buflock)) ≫= fun _ =>
  Assert (negb (flag BL_W_LOCK buflock)) ≫= fun _ =>
  Ok (wait_or_take w eid buflock d).

(** The rest of the loop after [pthread_cond_wait]: a reader that finds no
    writer leaves the loop at once, the others test the condition again. *)
Definition wake_up (w : wait) (eid buflock : Z) (d : lockdesc) : lockdesc * lock_result :=
  let d1 := add_waiting w (-1) d in
  if match w with WaitShare => negb (Writelock d1) | _ => false end
  then let '(d', l) := take w eid buflock d1 in (d', Locked l)
  else wait_or_take w eid buflock d1.

Definition UnlockIndividualBuffer (d : lockdesc) (buflock : Z) : result (lockdesc * Z * signal) :=
  (if flag buflock BL_R_LOCK then
     Assert (0 <? r_locks d) ≫= fun _ =>
     let d' := set_r_locks (u32 (r_locks d - 1)) d in
     Ok (d', Z.land buflock (Z.lnot BL_R_LOCK), r_locks d' =? 0)
   else if flag buflock BL_W_LOCK then
     Assert (Writelock d) ≫= fun _ =>
     Assert (negb (Exclusive d) || (l_access d <=? l_e_waiting d + 1)) ≫= fun _ =>
     Ok (set_flags (Z.land (l_flags d) (Z.lnot (Z.lor BM_WRITELOCK BM_EXCLUSIVE))) (set_owner 0 d),
         Z.land buflock (Z.lnot BL_W_LOCK), true)
   else Ok (d, buflock, false)) ≫= fun '(d', l, sig) =>
  Ok (d', l,
      if (sig : bool) then
        if 0 <? u32 (r_waiting d' + l_p_waiting d') then Broadcast
        else if 0 <? u32 (w_waiting d' + l_e_waiting d') then Signal else NoSignal
      else NoSignal).

(** The page-access part of [ManualUnpin]. *)
Definition ManualUnpin_access (d : lockdesc) : lockdesc * signal :=
  let d' := set_access (u32 (l_access d - 1)) d in
  (d', if (0 <? l_e_waiting d') && (l_access d' =? l_e_waiting d') then Signal else NoSignal).

(** ** Threads *)

(** Where a thread is: away from the buffer, in a wait (signalled or not), or on
    the page with the bits of its [BufferLocks] entry. *)
Inductive place := Away | Sleeps (w : wait) (signalled : bool) | OnPage (buflock : Z).

Record locksys := mkLocksys { ldesc : lockdesc; threads : list place }.

Inductive lock_event :=
| LPin (i : nat)
| LUnpin (i : nat) (target : nat)
| LLock (i : nat) (mode : Z)
| LWake (i : nat) (spurious : bool)
| LUnlock (i : nat) (target : nat).

Definition signalled (p : place) : place := match p with Sleeps w _ => Sleeps w true | p => p end.
Definition sleeps (p : place) : bool := match p with Sleeps _ false => true | _ => false end.

(** [pthread_cond_signal] wakes one thread that sleeps, of the system's choice;
    [pthread_cond_broadcast] wakes them all. *)
Definition deliver (s : signal) (target : nat) (ts : list place) : option (list place) :=
  match s with
  | NoSignal => Some ts
  | Broadcast => Some (map signalled ts)
  | Signal =>
      if existsb sleeps ts then
        match ts !! target with
        | Some p => if sleeps p then Some (<[target := signalled p]> ts) else None
        | None => None
        end
      else Some ts
  end.

(** The modes that callers ask for. *)
Definition lock_mode (mode : Z) : bool :=
  (mode =? BUFFER_LOCK_SHARE) || (mode =? BUFFER_LOCK_EXCLUSIVE) ||
  (mode =? BUFFER_LOCK_REF_EXCLUSIVE) || (mode =? BUFFER_LOCK_READ_EXCLUSIVE).

(** The place of a thread after a request that found it with [buflock]. *)
Definition after_lock (r : lock_result) : place :=
  match r with Waits w => Sleeps w false | Locked l => OnPage l end.

Definition lock_step (s : locksys) (e : lock_event) : option (result locksys) :=
  let d := ldesc s in let ts := threads s in
  match e with
  | LPin i =>
      match ts !! i with
      | Some Away =>
          let '(d', r) := wait_or_take WaitPin (Z.of_nat i) 0 d in
          Some (Ok (mkLocksys d' (<[i := after_lock r]> ts)))
      | _ => None
      end
  | LUnpin i target =>
      match ts !! i with
      | Some (OnPage 0) =>
          let '(d', sig) := ManualUnpin_access d in
          deliver sig target (<[i := Away]> ts) ≫= fun ts' => Some (Ok (mkLocksys d' ts'))
      | _ => None
      end
  | LLock i mode =>
      match ts !! i with
      | Some (OnPage 0) =>
          if negb (lock_mode mode) then None else
          Some ('(d', r) ← LockBuffer d mode (Z.of_nat i) 0; Ok (mkLocksys d' (<[i := after_lock r]> ts)))
      | _ => None
      end
  | LWake i spurious =>
      match ts !! i with
      | Some (Sleeps w woken) =>
          if woken || spurious then
            let '(d', r) := wake_up w (Z.of_nat i) 0 d in
            Some (Ok (mkLocksys d' (<[i := after_lock r]> ts)))
          else None
      | _ => None
      end
  | LUnlock i target =>
      match ts !! i with
      | Some (OnPage l) =>
          match UnlockIndividualBuffer d l with
          | Ok (d', l', sig) =>
              deliver sig target (<[i := OnPage l']> ts) ≫= fun ts' => Some (Ok (mkLocksys d' ts'))
          | Err msg => Some (Err msg)
          end
      | _ => None
      end
  end.

Fixpoint lock_run (s : locksys) (es : list lock_event) : option (result locksys) :=
  match es with
  | [] => Some (Ok s)
  | e :: es => lock_step s e ≫= fun r =>
      match r with Ok s' => lock_run s' es | Err msg => Some (Err msg) end
  end.

(** A buffer that nobody uses, and [n] threads. *)
Definition idle (flags : Z) (n : nat) : locksys :=
  mkLocksys (mkLockdesc (Z.land flags (Z.lnot (Z.lor BM_WRITELOCK BM_EXCLUSIVE))) 0 0 0 0 0 0 0) (replicate n Away).

(** ** Counting threads *)

(** What a thread counts for. *)
Inductive class := CAway | CWait (w : wait) | CFree | CRead | CWrite.

#[export] Instance class_eq_dec : EqDecision class.
Proof. solve_decision. Defined.

Definition class_of (p : place) : class :=
  match p with
  | Away => CAway
  | Sleeps w _ => CWait w
  | OnPage l => if flag l BL_R_LOCK then CRead else if flag l BL_W_LOCK then CWrite else CFree
  end.

Fixpoint num (c : class) (ts : list place) : nat :=
  match ts with
  | [] => 0
  | p :: ts => (if decide (class_of p = c) then 1 else 0) + num c ts
  end%nat.

Lemma num_length c ts : (num c ts <= length ts)%nat.
Proof. induction ts; simpl; [lia|]. case_decide; lia. Qed.

Lemma num_insert c ts i p q : ts !! i = Some p ->
  (num c (<[i := q]> ts) + (if decide (class_of p = c) then 1 else 0) =
   num c ts + (if decide (class_of q = c) then 1 else 0))%nat.
Proof.
  revert i. induction ts as [|x ts IH]; intros [|i]; simpl; [done|done| |].
  - intros [= ->]. lia.
  - intros Hi%IH. lia.
Qed.

Lemma num_pos c ts i p : ts !! i = Some p -> class_of p = c -> num c ts <> 0%nat.
Proof.
  revert i. induction ts as [|x ts IH]; intros [|i]; simpl; [done|done| |].
  - intros [= ->] ->. rewrite decide_True; [lia|done].
  - intros Hi Hc. specialize (IH i Hi Hc). lia.
Qed.

Lemma num_two c ts i j p q : ts !! i = Some p -> ts !! j = Some q -> i <> j ->
  class_of p = c -> class_of q = c -> (2 <= num c ts)%nat.
Proof.
  revert i j. induction ts as [|x ts IH]; intros [|i] [|j]; simpl; try done.
  - intros [= ->] Hj _ -> Hq. rewrite decide_True by done. pose proof (num_pos _ _ _ _ Hj Hq). lia.
  - intros Hi [= ->] _ Hp ->. rewrite decide_True by done. pose proof (num_pos _ _ _ _ Hi Hp). lia.
  - intros Hi Hj Hne Hp Hq. assert (i <> j) by congruence. specialize (IH i j Hi Hj ltac:(done) Hp Hq). lia.
Qed.

(** All threads together. *)
Lemma num_total ts :
  (num CAway ts + num (CWait WaitPin) ts + num (CWait WaitShare) ts + num (CWait WaitWrite) ts
   + num (CWait WaitRef) ts + num CFree ts + num CRead ts + num CWrite ts = length ts)%nat.
Proof.
  induction ts as [|p ts IH]; simpl; [done|].
  destruct (class_of p) as [|[]| | |]; repeat (case_decide; simplify_eq); lia.
Qed.

Definition place_ok (p : place) : Prop :=
  match p with OnPage l => l = 0 \/ l = BL_R_LOCK \/ l = BL_W_LOCK | _ => True end.

Lemma class_signalled p : class_of (signalled p) = class_of p.
Proof. by destruct p. Qed.

(** Signals change nothing that is counted. *)
Lemma deliver_same s target ts ts' : deliver s target ts = Some ts' ->
  length ts' = length ts /\ (forall c, num c ts' = num c ts) /\ (Forall place_ok ts -> Forall place_ok ts').
Proof.
  assert (forall p, place_ok p -> place_ok (signalled p)) as Hok by (by intros []).
  destruct s; simpl.
  - by intros [= ->].
  - case_match; [|by intros [= ->]]. destruct (ts !! target) as [p|] eqn:E; [|done]. case_match; [|done].
    intros [= <-]. rewrite length_insert. split; [done|]. split.
    + intros c. pose proof (num_insert c ts target p (signalled p) E) as Hn. rewrite class_signalled in Hn. lia.
    + intros HF. apply Forall_insert; [done|]. apply Hok. by eapply Forall_lookup_1.
  - intros [= <-]. rewrite length_map. split; [done|]. split.
    + intros c. induction ts as [|p ts IH]; simpl; [done|]. by rewrite class_signalled, IH.
    + intros HF. apply Forall_map. eapply Forall_impl; [exact HF|]. apply Hok.
Qed.

(** ** The invariant *)

Record lock_inv (s : locksys) : Prop := {
  li_small : Zlen (threads s) < 2 ^ 31;
  li_places : Forall place_ok (threads s);
  li_read : r_locks (ldesc s) = Z.of_nat (num CRead (threads s));
  li_write : (Writelock (ldesc s) = true -> num CWrite (threads s) = 1%nat) /\
             (Writelock (ldesc s) = false -> num CWrite (threads s) = 0%nat);
  li_exclude : Writelock (ldesc s) = true -> num CRead (threads s) = 0%nat;
  li_access : l_access (ldesc s) = Z.of_nat (num CFree (threads s) + num CRead (threads s) + num CWrite (threads s)
    + num (CWait WaitShare) (threads s) + num (CWait WaitWrite) (threads s) + num (CWait WaitRef) (threads s))%nat;
  li_e : l_e_waiting (ldesc s) = Z.of_nat (num (CWait WaitRef) (threads s));
  li_w : w_waiting (ldesc s) = Z.of_nat (num (CWait WaitWrite) (threads s));
  li_r : r_waiting (ldesc s) = Z.of_nat (num (CWait WaitShare) (threads s));
  li_p : l_p_waiting (ldesc s) = Z.of_nat (num (CWait WaitPin) (threads s));
  li_ref : Exclusive (ldesc s) = true -> Writelock (ldesc s) = true /\
    (num CFree (threads s) + num (CWait WaitShare) (threads s) + num (CWait WaitWrite) (threads s) = 0)%nat
}.

Lemma idle_inv flags n : Z.of_nat n < 2 ^ 31 -> lock_inv (idle flags n).
Proof.
  intros Hn. assert (forall c, c <> CAway -> num c (replicate n Away) = 0%nat) as Hc.
  { intros c Hc. induction n as [|n IH]; simpl; [done|]. rewrite decide_False by congruence. apply IH. lia. }
  assert (Writelock (ldesc (idle flags n)) = false /\ Exclusive (ldesc (idle flags n)) = false) as [Hw He].
  { unfold Writelock, Exclusive. cbn. rewrite !flag_clear by done.
    change (negb (flag _ BM_WRITELOCK)) with false. change (negb (flag _ BM_EXCLUSIVE)) with false.
    by rewrite !andb_false_r. }
  split; rewrite ?Hw, ?He; cbn [ldesc threads idle l_access r_locks l_e_waiting w_waiting r_waiting l_p_waiting];
    rewrite ?Hc by done; try done.
  - by rewrite length_replicate.
  - by apply Forall_replicate.
Qed.

(** The counts after thread [i] moved from [p] to [q]. *)
Ltac moved H q :=
  pose proof (num_insert CFree _ _ _ q H); pose proof (num_insert CRead _ _ _ q H);
  pose proof (num_insert CWrite _ _ _ q H); pose proof (num_insert (CWait WaitShare) _ _ _ q H);
  pose proof (num_insert (CWait WaitWrite) _ _ _ q H); pose proof (num_insert (CWait WaitRef) _ _ _ q H);
  pose proof (num_insert (CWait WaitPin) _ _ _ q H);
  let N := fresh "N" in pose proof (num_pos _ _ _ _ H eq_refl) as N; simpl in N;
  repeat match goal with
  | G : context [decide (class_of ?p = ?c)] |- _ =>
      let b := eval vm_compute in (bool_decide (class_of p = c)) in
      match b with
      | true => rewrite (decide_True (P := class_of p = c)) in G by reflexivity; rewrite ?Nat.add_0_r in G
      | false => rewrite (decide_False (P := class_of p = c)) in G by discriminate
      end
  end.

Ltac lock_fields :=
  cbn [ldesc threads l_flags l_access r_locks l_e_waiting w_waiting r_waiting l_p_waiting set_flags set_owner
       set_r_locks set_access add_waiting] in *.

(** Counters below the limit do not wrap around. *)
Ltac u32s :=
  repeat match goal with
  | G : context [u32 ?x] |- _ => rewrite (u32_id x) in G by lia
  | |- context [u32 ?x] => rewrite (u32_id x) by lia
  end.

(** Proves the invariant of the new state field by field. *)
Ltac lock_inv_auto Hp :=
  split; lock_fields; rewrite ?length_insert; [done|apply Hp; unfold place_ok; tauto|..];
  unfold Writelock, Exclusive in *; lock_fields; rewrite ?flag_lor, ?flag_clear by reflexivity; flags;
  u32s; lia.

(** A request by a thread that is on its way to the page or on it without a lock. *)
Lemma wait_or_take_inv s i w eid : lock_inv s ->
  threads s !! i = Some (if decide (w = WaitPin) then Away else OnPage 0) ->
  let '(d', r) := wait_or_take w eid 0 (ldesc s) in lock_inv (mkLocksys d' (<[i := after_lock r]> (threads s))).
Proof.
  intros H Hi. pose proof (num_total (threads s)) as Ht. destruct s as [d ts]. destruct H. lock_fields.
  assert (forall q, place_ok q -> Forall place_ok (<[i := q]> ts)) as Hp by (intros; by apply Forall_insert).
  unfold wait_or_take. destruct (must_wait w d) eqn:Hm; destruct w; simpl in Hi, Hm; cbn [take after_lock];
    [moved Hi (Sleeps WaitPin false)|moved Hi (Sleeps WaitShare false)|moved Hi (Sleeps WaitWrite false)|
     moved Hi (Sleeps WaitRef false)|moved Hi (OnPage 0)|moved Hi (OnPage BL_R_LOCK)|moved Hi (OnPage BL_W_LOCK)|
     moved Hi (OnPage BL_W_LOCK)].
  all: change (Z.lor 0 BL_R_LOCK) with BL_R_LOCK; change (Z.lor 0 BL_W_LOCK) with BL_W_LOCK; lock_inv_auto Hp.
Qed.

(** The rest of a wait. *)
Lemma wake_up_inv s i w woken eid : lock_inv s -> threads s !! i = Some (Sleeps w woken) ->
  let '(d', r) := wake_up w eid 0 (ldesc s) in lock_inv (mkLocksys d' (<[i := after_lock r]> (threads s))).
Proof.
  intros H Hi. pose proof (num_total (threads s)) as Ht. destruct s as [d ts]. destruct H. lock_fields.
  assert (forall q, place_ok q -> Forall place_ok (<[i := q]> ts)) as Hp by (intros; by apply Forall_insert).
  unfold wake_up, wait_or_take.
  destruct w; cbn iota.
  all: repeat match goal with |- context [if ?b then _ else _] => destruct b eqn:?Hm end; cbn [take after_lock];
    change (Z.lor 0 BL_R_LOCK) with BL_R_LOCK; change (Z.lor 0 BL_W_LOCK) with BL_W_LOCK;
    match goal with |- lock_inv (mkLocksys _ (<[_ := ?q]> _)) => moved Hi q end.
  all: unfold must_wait, Writelock, Exclusive in *; lock_fields;
    u32s; lock_inv_auto Hp.
Qed.

Lemma unpin_inv s i target r : lock_inv s -> lock_step s (LUnpin i target) = Some r ->
  exists s', r = Ok s' /\ lock_inv s'.
Proof.
  intros H. pose proof (num_total (threads s)) as Ht. destruct s as [d ts]. destruct H. cbn. lock_fields.
  destruct (ts !! i) as [[| |[]]|] eqn:Hi; try done.
  destruct (deliver _ _ _) as [ts'|] eqn:Hd; [|done]. intros [= <-]. eexists. split; [reflexivity|].
  destruct (deliver_same _ _ _ _ Hd) as (Hlen & Hnum & Hok). moved Hi Away. rewrite length_insert in Hlen.
  split; lock_fields; rewrite ?Hnum; [lia|by apply Hok, Forall_insert|..]; unfold Writelock, Exclusive in *;
    lock_fields; u32s; lia.
Qed.

Lemma unlock_step_inv s i target r : lock_inv s -> lock_step s (LUnlock i target) = Some r ->
  exists s', r = Ok s' /\ lock_inv s'.
Proof.
  intros H. pose proof (num_total (threads s)) as Ht. destruct s as [d ts]. destruct H. cbn. lock_fields.
  destruct (ts !! i) as [[| |l]|] eqn:Hi; try done.
  assert (l = 0 \/ l = BL_R_LOCK \/ l = BL_W_LOCK) as Hl by (eapply (Forall_lookup_1 place_ok ts i (OnPage l)); done).
  unfold UnlockIndividualBuffer. destruct Hl as [->|[->| ->]]; flags.
  - cbn [mbind result_bind]. cbn. intros [= <-]. eexists. split; [reflexivity|].
    rewrite list_insert_id by done. by split.
  - moved Hi (OnPage 0). asserts.
    change (Z.land BL_R_LOCK (Z.lnot BL_R_LOCK)) with 0.
    destruct (deliver _ _ _) as [ts'|] eqn:Hd; [|done]. intros [= <-]. eexists. split; [reflexivity|].
    destruct (deliver_same _ _ _ _ Hd) as (Hlen & Hnum & Hok). rewrite length_insert in Hlen.
    split; lock_fields; rewrite ?Hnum; [lia|apply Hok, Forall_insert; [done|by left]|..]; unfold Writelock, Exclusive in *;
      lock_fields; u32s; lia.
  - moved Hi (OnPage 0). assert (Writelock d = true) as Hw by (destruct (Writelock d); [done|lia]).
    asserts.
    change (Z.land BL_W_LOCK (Z.lnot BL_W_LOCK)) with 0.
    destruct (deliver _ _ _) as [ts'|] eqn:Hd; [|done]. intros [= <-]. eexists. split; [reflexivity|].
    destruct (deliver_same _ _ _ _ Hd) as (Hlen & Hnum & Hok). rewrite length_insert in Hlen.
    split; lock_fields; rewrite ?Hnum; [lia|apply Hok, Forall_insert; [done|by left]|..]; unfold Writelock, Exclusive in *;
      lock_fields; rewrite ?flag_clear by reflexivity; flags; u32s; lia.
Qed.

Lemma lock_step_inv s e r : lock_inv s -> lock_step s e = Some r -> exists s', r = Ok s' /\ lock_inv s'.
Proof.
  intros H. destruct e as [i|i t|i mode|i spurious|i t].
  - cbn. destruct (threads s !! i) as [[]|] eqn:Hi; try done.
    pose proof (wait_or_take_inv s i WaitPin (Z.of_nat i) H Hi) as Hw.
    destruct (wait_or_take WaitPin (Z.of_nat i) 0 (ldesc s)). intros [= <-]. eauto.
  - by apply unpin_inv.
  - cbn. destruct (threads s !! i) as [[| |[]]|] eqn:Hi; try done.
    destruct (lock_mode mode) eqn:Hm; [|done]. cbn [negb]. intros [= <-]. unfold LockBuffer.
    assert (exists w, mode_wait mode = Ok w /\ w <> WaitPin) as (w & -> & Hw).
    { unfold mode_wait, lock_mode in *. repeat case_match; eauto. lia. }
    cbn [mbind result_bind]. asserts.
    pose proof (wait_or_take_inv s i w (Z.of_nat i) H) as Hi'. rewrite decide_False in Hi' by done.
    specialize (Hi' Hi). destruct (wait_or_take w (Z.of_nat i) 0 (ldesc s)). eauto.
  - cbn. destruct (threads s !! i) as [[|w woken|]|] eqn:Hi; try done. case_match; [|done].
    pose proof (wake_up_inv s i w woken (Z.of_nat i) H Hi) as Hw.
    destruct (wake_up w (Z.of_nat i) 0 (ldesc s)). intros [= <-]. eauto.
  - by apply unlock_step_inv.
Qed.

Lemma lock_run_inv es s r : lock_inv s -> lock_run s es = Some r -> exists s', r = Ok s' /\ lock_inv s'.
Proof.
  revert s. induction es as [|e es IH]; intros s H; simpl; [intros [= <-]; eauto|].
  destruct (lock_step s e) as [r1|] eqn:E; simpl; [|done].
  destruct (lock_step_inv _ _ _ H E) as (s1 & -> & H1). by apply IH.
Qed.

(** C14: Content locks exclude each other.  In every interleaving of any number of threads (below
    2^31) that pin, lock, wait, wake up - also for no reason - unlock and unpin, no [Assert] of
    [LockBuffer] and [UnlockIndividualBuffer] fails; while a thread has a write lock no other
    thread has a lock of any kind; and while the lock is reference-exclusive every other thread
    that has access to the page is asleep waiting for the same. *)
Theorem content_lock_exclusion flags n es r : Z.of_nat n < 2 ^ 31 ->
  lock_run (idle flags n) es = Some r ->
  exists s, r = Ok s /\
  forall i j l l', i <> j ->
    threads s !! i = Some (OnPage l) -> flag l BL_W_LOCK = true ->
    (threads s !! j = Some (OnPage l') -> flag l' BL_W_LOCK = false /\ flag l' BL_R_LOCK = false) /\
    (Exclusive (ldesc s) = true -> forall p, threads s !! j = Some p ->
       p = Away \/ exists b, p = Sleeps WaitRef b \/ p = Sleeps WaitPin b).
Proof.
  intros Hn Hr. destruct (lock_run_inv _ _ _ (idle_inv flags n Hn) Hr) as (s & -> & H).
  exists s. split; [done|]. intros i j l l' Hij Hi Hl. destruct H.
  assert (forall k x, threads s !! k = Some (OnPage x) -> x = 0 \/ x = BL_R_LOCK \/ x = BL_W_LOCK) as Hpl.
  { intros k x Hk. eapply (Forall_lookup_1 place_ok _ _ (OnPage x)); done. }
  assert (l = BL_W_LOCK) as -> by (destruct (Hpl _ _ Hi) as [->|[->| ->]]; done).
  pose proof (num_pos CWrite _ _ _ Hi eq_refl) as H1.
  assert (Writelock (ldesc s) = true) as Hw by (destruct (Writelock (ldesc s)); [done|lia]). split.
  - intros Hj. destruct (Hpl _ _ Hj) as [->|[->| ->]]; [done|..].
    + pose proof (num_pos CRead _ _ _ Hj eq_refl). lia.
    + pose proof (num_two CWrite _ _ _ _ _ Hi Hj Hij eq_refl eq_refl). lia.
  - intros He p Hj. destruct (li_ref0 He) as [_ Hz].
    destruct p as [|w b|x]; [by left|..].
    + pose proof (num_pos (CWait w) _ _ _ Hj eq_refl). right. exists b. destruct w; [by right|lia|lia|by left].
    + destruct (Hpl _ _ Hj) as [->|[->| ->]].
      * pose proof (num_pos CFree _ _ _ Hj eq_refl). lia.
      * pose proof (num_pos CRead _ _ _ Hj eq_refl). lia.
      * pose proof (num_two CWrite _ _ _ _ _ Hi Hj Hij eq_refl eq_refl). lia.
Qed.

(** A reader, another user of the page, and a thread that wants the page for itself. *)
Definition vacuum_history : list lock_event :=
  [LPin 0; LPin 1; LLock 0 BUFFER_LOCK_SHARE; LLock 1 BUFFER_LOCK_REF_EXCLUSIVE; LPin 2; LUnlock 0 1;
   LWake 1 false; LUnpin 0 0; LUnpin 2 1; LWake 1 false; LPin 0].

Definition vacuum_state : locksys :=
  mkLocksys (mkLockdesc (Z.lor BM_WRITELOCK BM_EXCLUSIVE) 1 0 0 0 0 0 1)
    [Sleeps WaitPin false; OnPage BL_W_LOCK; Away].

Lemma content_lock_exclusion_witness :
  lock_run (idle 0 3) vacuum_history = Some (Ok vacuum_state) /\
  forall p, threads vacuum_state !! 0%nat = Some p ->
    p = Away \/ exists b, p = Sleeps WaitRef b \/ p = Sleeps WaitPin b.
Proof.
  assert (lock_run (idle 0 3) vacuum_history = Some (Ok vacuum_state)) as E by (vm_compute; reflexivity).
  split; [exact E|]. intros p Hp.
  destruct (content_lock_exclusion 0 3 vacuum_history (Ok vacuum_state)) as (s & Hs & H).
  - lia.
  - exact E.
  - injection Hs as <-. destruct (H 1%nat 0%nat BL_W_LOCK 0) as [_ H'].
    + discriminate.
    + reflexivity.
    + reflexivity.
    + apply H'; [reflexivity|exact Hp].
Defined.

Definition thread_of (e : lock_event) : nat :=
  match e with LPin i | LUnpin i _ | LLock i _ | LWake i _ | LUnlock i _ => i end.
Definition spurious (e : lock_event) : bool := match e with LWake _ b => b | _ => false end.

(** Thread 0 has a write lock, thread 1 waits for a write lock, thread 2 for a reference-exclusive
    one; thread 0 unlocks and its signal reaches thread 2, which cannot have the page before
    thread 1 has left it; thread 0 unpins. *)
Definition wakeup_history : list lock_event :=
  [LPin 0; LPin 1; LPin 2; LLock 0 BUFFER_LOCK_EXCLUSIVE; LLock 1 BUFFER_LOCK_EXCLUSIVE;
   LLock 2 BUFFER_LOCK_REF_EXCLUSIVE; LUnlock 0 2; LWake 2 false; LUnpin 0 1].

(** C38: A wake-up can be lost.  [UnlockIndividualBuffer] sends one [pthread_cond_signal] for the
    threads that wait for a write lock and those that wait for a reference-exclusive one.  There is
    a history without spurious wake-ups in which the signal goes to a thread that has to go on
    waiting: in the end the buffer has no lock and no user, a thread that could have the write
    lock sleeps, and nothing that the sleeping threads can do wakes any of them. *)
Theorem unlock_lost_wakeup : exists s,
  lock_run (idle 0 3) wakeup_history = Some (Ok s) /\ forallb (fun e => negb (spurious e)) wakeup_history = true /\
  must_wait WaitWrite (ldesc s) = false /\
  threads s = [Away; Sleeps WaitWrite false; Sleeps WaitRef false] /\
  forall e, thread_of e <> 0%nat -> spurious e = false -> lock_step s e = None.
Proof.
  eexists. split; [vm_compute; reflexivity|]. split_and!; try reflexivity.
  intros e Ht Hs.
  destruct e as [i|i t|i mode|i b|i t]; cbn in Ht, Hs; subst;
    destruct i as [|[|[|i]]]; reflexivity || congruence.
Qed.
