(* ===== verification/Varlena.v ===== *)
(** * Variable-length values ([include/postgres.h])

    A value of variable length is a length word of four bytes, stored
    little-endian, and the data.  The two top bits of the word are flags: the
    data is indirect (a reference to a blob) or buffered. *)

From S2P Require Import Prelude.

Module Varlena.

Definition VARHDRSZ : Z := 4.

(** The word at the head of the object at the pointer. *)
Definition vl_len (p : list Z) : Z := le_val (take 4 p).
Definition VARSIZE (p : list Z) : Z := Z.land (vl_len p) 0x3fffffff.
Definition VARDATA (p : list Z) : list Z := drop 4 p.
Definition ISINDIRECT (p : list Z) : bool := vl_len p .& 0x80000000.
Definition ISBUFFERED (p : list Z) : bool := vl_len p .& 0x40000000.
Definition SETVARSIZE (p : list Z) (size : Z) : list Z := le_bytes 4 size ++ drop 4 p.
Definition SETINDIRECT (p : list Z) : list Z := le_bytes 4 (Z.lor (vl_len p) 0x80000000) ++ drop 4 p.
Definition SETBUFFERED (p : list Z) : list Z := le_bytes 4 (Z.lor (vl_len p) 0x40000000) ++ drop 4 p.

Lemma vl_len_word w l : vl_len (le_bytes 4 w ++ l) = w mod 2 ^ 32.
Proof.
  unfold vl_len. rewrite take_app_length' by (by rewrite le_bytes_length). by rewrite le_val_bytes.
Qed.

Lemma vardata_word w l : VARDATA (le_bytes 4 w ++ l) = l.
Proof. unfold VARDATA. apply drop_app_length'. by rewrite le_bytes_length. Qed.

Lemma varsize_word w l : 0 <= w < 2 ^ 30 -> VARSIZE (le_bytes 4 w ++ l) = w.
Proof.
  intros Hw. unfold VARSIZE. rewrite vl_len_word, Z.mod_small by lia.
  change 0x3fffffff with (Z.ones 30). rewrite Z.land_ones by lia. by apply Z.mod_small.
Qed.

Lemma varsize_nonneg p : 0 <= VARSIZE p.
Proof. apply Z.land_nonneg. by right. Qed.

Lemma varsize_range p : 0 <= VARSIZE p < 2 ^ 30.
Proof.
  unfold VARSIZE. change 0x3fffffff with (Z.ones 30). rewrite Z.land_ones by lia. by apply Z.mod_pos_bound.
Qed.

(** The size does not see the flags. *)
Lemma varsize_flagged w f l : 0 <= w < 2 ^ 30 -> f = 0x80000000 \/ f = 0x40000000 ->
  VARSIZE (le_bytes 4 (Z.lor w f) ++ l) = w /\ flag (vl_len (le_bytes 4 (Z.lor w f) ++ l)) f = true.
Proof.
  intros Hw Hf. assert (0 <= Z.lor w f < 2 ^ 32) by (apply lor_bound; lia).
  unfold VARSIZE. rewrite vl_len_word, Z.mod_small by done. split.
  - change 0x3fffffff with (Z.ones 30). zbits i Hi. rewrite Z.testbit_ones_nonneg by lia.
    destruct (Z.ltb_spec i 30).
    + rewrite andb_true_r. assert (Z.testbit f i = false) as ->; [|by rewrite orb_false_r].
      destruct Hf as [-> | ->]; [change 0x80000000 with (2 ^ 31)|change 0x40000000 with (2 ^ 30)];
        apply Z.pow2_bits_false; lia.
    + rewrite andb_false_r. symmetry. by apply (testbit_above w 30).
  - rewrite flag_lor. by destruct Hf as [-> | ->]; rewrite orb_true_r.
Qed.

End Varlena.
