(* ===== verification/Lzcompress.v ===== *)
(** * LZ compression ([utils/adt/pg_lzcompress.c], [utils/adt/lztext.c])

    The compressor with its history table (hash chains of doubly linked entries
    in two static arrays, recycled after 4096 positions) and its output buffer
    with the pending control byte, the decompressor with its checks for corrupt
    input, and the type [lztext] that stores a text compressed when that pays.

    A byte is an integer below 256; a position is an index into the source.  A
    pointer to a history entry is the entry's index.  The loops run on a fuel:
    one turn per source byte, 4096 turns for a chain; both are proved enough. *)

From S2P Require Import Prelude Varlena.

Module Lz.

Definition PGLZ_HISTORY_MASK : Z := 8192 - 1.
Definition PGLZ_HISTORY_SIZE : Z := 4096.
Definition PGLZ_MAX_MATCH : Z := 273.
Definition INT_MAX : Z := 2 ^ 31 - 1.

(** ** The history table *)

Record PGLZ_HistEntry := mkEntry {
  next : option Z;
  prev : option Z;
  hindex : Z;
  pos : Z }.

Record hist := mkHist {
  hist_start : Z -> option Z;
  hist_entries : Z -> PGLZ_HistEntry;
  hist_next : Z;
  hist_recycle : bool }.

Definition set_next (e : PGLZ_HistEntry) x := mkEntry x (prev e) (hindex e) (pos e).
Definition set_prev (e : PGLZ_HistEntry) x := mkEntry (next e) x (hindex e) (pos e).

Section Source.
(** The input, and the signed [char] the hash sees. *)
Context (source : list Z).
Definition slen : Z := Zlen source.
Definition at_ (i : Z) : Z := aget 0 source i.
Definition chr (i : Z) : Z := swrap 8 (at_ i).

Definition pglz_hist_idx (s : Z) : Z :=
  Z.land (if slen - s <? 4 then chr s
          else Z.lxor (Z.lxor (Z.lxor (Z.shiftl (chr s) 9) (Z.shiftl (chr (s + 1)) 6))
                         (Z.shiftl (chr (s + 2)) 3)) (chr (s + 3)))
    PGLZ_HISTORY_MASK.

(** The part of [pglz_hist_add] that takes a recycled entry out of its list. *)
Definition hist_unlink (h : hist) (e : Z) : hist :=
  let myhe := hist_entries h e in
  let hs := match prev myhe with
            | None => upd (hist_start h) (hindex myhe) (next myhe)
            | Some _ => hist_start h end in
  let he := match prev myhe with
            | None => hist_entries h
            | Some p => upd (hist_entries h) p (set_next (hist_entries h p) (next myhe)) end in
  let he := match next (he e) with
            | None => he
            | Some n => upd he n (set_prev (he n) (prev (he e))) end in
  mkHist hs he (hist_next h) (hist_recycle h).

(** The part that puts it at the head of the list of its new hash key. *)
Definition hist_link (h : hist) (e s : Z) : hist :=
  let hi := pglz_hist_idx s in
  let head := hist_start h hi in
  let he := upd (hist_entries h) e (mkEntry head None hi s) in
  let he := match head with
            | None => he
            | Some f => upd he f (set_prev (he f) (Some e)) end in
  mkHist (upd (hist_start h) hi (Some e)) he (hist_next h) (hist_recycle h).

Definition pglz_hist_add (h : hist) (s : Z) : hist :=
  let e := hist_next h in
  let h := hist_link (if hist_recycle h then hist_unlink h e else h) e s in
  if PGLZ_HISTORY_SIZE <=? hist_next h + 1
  then mkHist (hist_start h) (hist_entries h) 0 true
  else mkHist (hist_start h) (hist_entries h) (hist_next h + 1) (hist_recycle h).

(** ** Looking for a match *)

(** The comparison loop; [thislen < PGLZ_MAX_MATCH] bounds its turns. *)
Fixpoint match_loop (n : nat) (ip hp thislen : Z) : Z :=
  match n with
  | O => thislen
  | S n => if (ip <? slen) && (at_ ip =? at_ hp) && (thislen <? PGLZ_MAX_MATCH)
           then match_loop n (ip + 1) (hp + 1) (thislen + 1) else thislen
  end.

Definition match_turns : nat := Z.to_nat PGLZ_MAX_MATCH.

(** [memcmp(source + a, source + b, n) == 0] *)
Fixpoint memcmp_eq (n : nat) (a b : Z) : bool :=
  match n with
  | O => true
  | S n => (at_ a =? at_ b) && memcmp_eq n (a + 1) (b + 1)
  end.

Definition this_match (input hp len : Z) : Z :=
  if 16 <=? len
  then if memcmp_eq (Z.to_nat len) input hp
       then match_loop match_turns (input + len) (hp + len) len else 0
  else match_loop match_turns input hp 0.

(** The walk of the chain: the best length and offset, [None] when out of fuel. *)
Fixpoint chain_loop (fuel : nat) (h : hist) (input good_drop : Z)
    (hent : option Z) (len off good_match : Z) : option (Z * Z) :=
  match hent with
  | None => Some (len, off)
  | Some e =>
    match fuel with
    | O => None
    | S fuel =>
      let hp := pos (hist_entries h e) in
      let thisoff := input - hp in
      if 0x0fff <=? thisoff then Some (len, off) else
      let thislen := this_match input hp len in
      let '(len, off) := if len <? thislen then (thislen, thisoff) else (len, off) in
      match next (hist_entries h e) with
      | None => Some (len, off)
      | Some e' =>
        if good_match <=? len then Some (len, off)
        else chain_loop fuel h input good_drop (Some e') len off
               (good_match - Z.quot (good_match * good_drop) 100)
      end
    end
  end.

Definition chain_turns : nat := Z.to_nat PGLZ_HISTORY_SIZE.

(** The inner option is the return value with [*lenp] and [*offp]. *)
Definition pglz_find_match (h : hist) (input good_match good_drop : Z) :
    option (option (Z * Z)) :=
  match chain_loop chain_turns h input good_drop (hist_start h (pglz_hist_idx input)) 0 0 good_match with
  | None => None
  | Some (len, off) => Some (if 2 <? len then Some (len, off) else None)
  end.

(** ** The output buffer *)

(** [bp] is the end of [out]; [ctrlp] is where the pending control byte goes
    ([None]: the dummy variable of the start). *)
Record obuf := mkObuf {
  out : list Z;
  ctrlp : option nat;
  ctrlb : Z;
  ctrl : Z }.

Definition store_ctrl (o : obuf) : list Z :=
  match ctrlp o with None => out o | Some i => <[i := ctrlb o]> (out o) end.

Definition pglz_out_ctrl (o : obuf) : obuf :=
  if Z.land (ctrl o) 0xff =? 0
  then mkObuf (store_ctrl o ++ [0]) (Some (length (out o))) 0 1
  else o.

Definition pglz_out_literal (o : obuf) (byte : Z) : obuf :=
  let o := pglz_out_ctrl o in
  mkObuf (out o ++ [u8 byte]) (ctrlp o) (ctrlb o) (u8 (Z.shiftl (ctrl o) 1)).

Definition tag_bytes (len off : Z) : list Z :=
  if 17 <? len
  then [u8 (Z.lor (Z.shiftr (Z.land off 0xf00) 4) 0x0f); u8 (Z.land off 0xff); u8 (len - 18)]
  else [u8 (Z.lor (Z.shiftr (Z.land off 0xf00) 4) (len - 3)); u8 (Z.land off 0xff)].

Definition pglz_out_tag (o : obuf) (len off : Z) : obuf :=
  let o := pglz_out_ctrl o in
  mkObuf (out o ++ tag_bytes len off) (ctrlp o)
    (u8 (Z.lor (ctrlb o) (ctrl o))) (u8 (Z.shiftl (ctrl o) 1)).

(** ** The compressor *)

Record PGLZ_Strategy := mkStrategy {
  min_input_size : Z;
  max_input_size : Z;
  min_comp_rate : Z;
  first_success_by : Z;
  match_size_good : Z;
  match_size_drop : Z }.

Definition strategy_default_data : PGLZ_Strategy := mkStrategy 32 INT_MAX 25 1024 128 10.
Definition strategy_always_data : PGLZ_Strategy := mkStrategy 0 INT_MAX 0 INT_MAX 128 6.

(** [if (x > hi) x = hi; else if (x < lo) x = lo;] *)
Definition clamp (lo hi x : Z) : Z := if hi <? x then hi else if x <? lo then lo else x.

Definition result_max (need_rate : Z) : Z :=
  if Z.quot INT_MAX 100 <? slen then i32 (Z.quot slen 100 * (100 - need_rate))
  else Z.quot (i32 (slen * (100 - need_rate))) 100.

(** [while (match_len--)]: an entry for each matched position. *)
Fixpoint hist_add_n (n : nat) (h : hist) (dp : Z) : hist :=
  match n with
  | O => h
  | S n => hist_add_n n (pglz_hist_add h dp) (dp + 1)
  end.

Inductive lzstop :=
| Done (o : obuf)        (** the source is used up *)
| TooBig (o : obuf).     (** one of the two [return 0] of the loop *)

Section Loop.
Context (strategy : PGLZ_Strategy) (good_match good_drop rmax : Z).

Fixpoint compress_loop (fuel : nat) (h : hist) (dp : Z) (o : obuf) (found_match : bool) :
    option lzstop :=
  if negb (dp <? slen) then Some (Done o) else
  match fuel with
  | O => None
  | S fuel =>
    if rmax <=? Zlen (out o) then Some (TooBig o) else
    if negb found_match && (first_success_by strategy <=? Zlen (out o)) then Some (TooBig o) else
    match pglz_find_match h dp good_match good_drop with
    | None => None
    | Some (Some (len, off)) =>
      compress_loop fuel (hist_add_n (Z.to_nat len) h dp) (dp + len) (pglz_out_tag o len off) true
    | Some None =>
      compress_loop fuel (pglz_hist_add h dp) (dp + 1) (pglz_out_literal o (at_ dp)) found_match
    end
  end.
End Loop.

(** What is in the output area after the header, and the return value: 0, or
    the size of the datum with its header of 8 bytes.  [entries] is whatever the
    static array holds from earlier calls. *)
Definition pglz_compress (entries : Z -> PGLZ_HistEntry) (strategy : PGLZ_Strategy) :
    option (list Z * Z) :=
  if (match_size_good strategy <=? 0) || (slen <? min_input_size strategy)
     || (max_input_size strategy <? slen) then Some ([], 0) else
  let good_match := clamp 17 PGLZ_MAX_MATCH (match_size_good strategy) in
  let good_drop := clamp 0 100 (match_size_drop strategy) in
  let rmax := result_max (clamp 0 99 (min_comp_rate strategy)) in
  match compress_loop strategy good_match good_drop rmax (length source)
          (mkHist (fun _ => None) entries 0 false) 0 (mkObuf [] None 0 0) false with
  | None => None
  | Some (TooBig o) => Some (out o, 0)
  | Some (Done o) =>
    Some (store_ctrl o, if rmax <=? Zlen (out o) then 0 else Zlen (out o) + 8)
  end.

End Source.

(** ** The decompressor *)

(** [while (len--) { *dp = dp[-off]; dp++; }]; the result is [None] when the
    loop would read outside of what has been written. *)
Fixpoint copy_loop (n : nat) (dest : list Z) (off : Z) : option (list Z) :=
  match n with
  | O => Some dest
  | S n =>
    if (0 <? off) && (off <=? Zlen dest)
    then copy_loop n (dest ++ [aget 0 dest (Zlen dest - off)]) off else None
  end.

(** How the inner loop is left: [sp] is given by what remains of the source;
    [Overrun] is the [break] after [dp += len], [Stuck] a [break] at a literal
    that does not fit, [Undefined] a read outside of source or destination. *)
Inductive dstop :=
| Next (src : list Z) (dest : list Z)
| Overrun
| Stuck (src : list Z) (dest : list Z)
| Undefined.

Fixpoint ctrl_loop (n : nat) (rawsize ctrl : Z) (src dest : list Z) : dstop :=
  match n with
  | O => Next src dest
  | S n =>
    match src with
    | [] => Next [] dest
    | b0 :: src1 =>
      if ctrl .& 1 then
        match src1 with
        | [] => Undefined
        | b1 :: src2 =>
          let len := Z.land b0 0x0f + 3 in
          let off := Z.lor (Z.shiftl (Z.land b0 0xf0) 4) b1 in
          let next :=
            if len =? 18
            then match src2 with [] => None | b2 :: src3 => Some (len + b2, src3) end
            else Some (len, src2) in
          match next with
          | None => Undefined
          | Some (len, src) =>
            if rawsize <? Zlen dest + len then Overrun else
            match copy_loop (Z.to_nat len) dest off with
            | None => Undefined
            | Some dest => ctrl_loop n rawsize (Z.shiftr ctrl 1) src dest
            end
          end
        end
      else if rawsize <=? Zlen dest then Stuck src dest
      else ctrl_loop n rawsize (Z.shiftr ctrl 1) src1 (dest ++ [b0])
    end
  end.

(** The outer loop takes a control byte per turn. *)
Fixpoint decompress_loop (fuel : nat) (rawsize : Z) (src dest : list Z) : option dstop :=
  match src with
  | [] => Some (Next [] dest)
  | ctrl :: src1 =>
    if negb (Zlen dest <? rawsize) then Some (Next src dest) else
    match fuel with
    | O => None
    | S fuel =>
      match ctrl_loop 8 rawsize ctrl src1 dest with
      | Next src dest => decompress_loop fuel rawsize src dest
      | Stuck src dest => Some (Stuck src dest)
      | r => Some r
      end
    end
  end.

(** [src] is the datum after its header. *)
Definition pglz_decompress (rawsize : Z) (src : list Z) : option (result (list Z)) :=
  match decompress_loop (length src) rawsize src [] with
  | None => None
  | Some (Next src dest) =>
    Some (if (Zlen dest =? rawsize) && (match src with [] => true | _ => false end)
          then Ok dest else Err "compressed data is corrupt")
  | Some Overrun | Some (Stuck _ _) => Some (Err "compressed data is corrupt")
  | Some Undefined => Some (Err "undefined: read outside of the datum")
  end.


(** ** The history table is a set of sound lists

    [U] is the set of entries in use. *)

Record lists_ok (U : Z -> Prop) (h : hist) : Prop := {
  lo_next e f : U e -> next (hist_entries h e) = Some f ->
    U f /\ pos (hist_entries h f) < pos (hist_entries h e) /\ prev (hist_entries h f) = Some e /\
    hindex (hist_entries h f) = hindex (hist_entries h e);
  lo_prev e f : U e -> prev (hist_entries h e) = Some f ->
    U f /\ next (hist_entries h f) = Some e;
  lo_first e : U e -> prev (hist_entries h e) = None ->
    hist_start h (hindex (hist_entries h e)) = Some e;
  lo_head k e : hist_start h k = Some e ->
    U e /\ prev (hist_entries h e) = None /\ hindex (hist_entries h e) = k }.

(** Splits on the index of every array update. *)
Ltac upd_cases :=
  unfold upd in *;
  repeat match goal with
  | |- context [?a =? ?b] => destruct (Z.eqb_spec a b); subst
  | H : context [?a =? ?b] |- _ => destruct (Z.eqb_spec a b); subst
  end; simpl in *.

Lemma lists_ok_ext U V h : (forall e, U e <-> V e) -> lists_ok U h -> lists_ok V h.
Proof.
  intros HUV [H1 H2 H3 H4].
  split; intros; repeat match goal with H : V _ |- _ => apply HUV in H end; naive_solver.
Qed.

(** What unlinking does to each field. *)
Lemma hist_unlink_fields h e : prev (hist_entries h e) <> Some e ->
  next (hist_entries h e) <> Some e ->
  let n := next (hist_entries h e) in
  let p := prev (hist_entries h e) in
  let h' := hist_unlink h e in
  (forall x, next (hist_entries h' x) = if decide (p = Some x) then n else next (hist_entries h x)) /\
  (forall x, prev (hist_entries h' x) = if decide (n = Some x) then p else prev (hist_entries h x)) /\
  (forall x, hindex (hist_entries h' x) = hindex (hist_entries h x)) /\
  (forall x, pos (hist_entries h' x) = pos (hist_entries h x)) /\
  (forall k, hist_start h' k =
     if decide (p = None /\ k = hindex (hist_entries h e)) then n else hist_start h k).
Proof.
  intros Hp Hn. simpl. unfold hist_unlink.
  destruct (prev (hist_entries h e)) as [p|] eqn:Ep.
  - rewrite upd_ne by congruence. rewrite Ep.
    destruct (next (hist_entries h e)) as [n|] eqn:En; simpl;
      split_and!; intros x; upd_cases; repeat case_decide; simplify_eq; naive_solver.
  - rewrite Ep. destruct (next (hist_entries h e)) as [n|] eqn:En; simpl;
      split_and!; intros x; upd_cases; repeat case_decide; simplify_eq; naive_solver.
Qed.

Lemma lists_ok_irrefl U h e : lists_ok U h -> U e ->
  prev (hist_entries h e) <> Some e /\ next (hist_entries h e) <> Some e.
Proof.
  intros H He. assert (next (hist_entries h e) <> Some e) as Hn.
  { intros Hn. destruct (lo_next _ _ H e e He Hn). lia. }
  split; [|done]. intros Hp. by destruct (lo_prev _ _ H e e He Hp).
Qed.

Lemma hist_unlink_ok U h e : lists_ok U h -> U e ->
  lists_ok (fun x => U x /\ x <> e) (hist_unlink h e) /\
  forall x, pos (hist_entries (hist_unlink h e) x) = pos (hist_entries h x).
Proof.
  intros H He. destruct (lists_ok_irrefl U h e H He) as [Hpe Hne].
  destruct (hist_unlink_fields h e Hpe Hne) as (Fn & Fp & Fh & Fo & Fs).
  split; [|done].
  pose proof (fun f => lo_next _ _ H e f He) as N. pose proof (fun f => lo_prev _ _ H e f He) as P.
  split.
  - intros a b [Ua Ha]. rewrite Fn, Fp, !Fo, !Fh. case_decide as D.
    + intros Hb. destruct (P a D) as [_ Hae]. destruct (lo_next _ _ H a e Ua Hae) as (_ & ? & _ & ?).
      destruct (N b Hb) as (? & ? & ? & ?). rewrite Hb, decide_True by done. rewrite D.
      split_and!; [done|congruence|lia|done|congruence].
    + intros Hb. destruct (lo_next _ _ H a b Ua Hb) as (? & ? & Hba & ?).
      split_and!; [done| |lia| |done].
      * intros ->. congruence.
      * rewrite decide_False; [done|]. intros Hnb. destruct (N b Hnb) as (_ & _ & ? & _). congruence.
  - intros a b [Ua Ha]. rewrite Fp, Fn. case_decide as D.
    + intros Hb. destruct (P b Hb) as [? ?]. rewrite decide_True by done. split; [split|]; [done|congruence|done].
    + intros Hb. destruct (lo_prev _ _ H a b Ua Hb) as [? Hba].
      split_and!; [done|intros ->; congruence|].
      rewrite decide_False; [done|]. intros Hpb. destruct (P b Hpb) as [_ ?]. congruence.
  - intros a [Ua Ha]. rewrite Fp, Fh, Fs. case_decide as D.
    + intros Hp. destruct (N a D) as (_ & _ & _ & ->). by rewrite decide_True.
    + intros Hp. rewrite decide_False; [by apply (lo_first _ _ H)|].
      intros [Hpe0 Hk]. pose proof (lo_first _ _ H e He Hpe0). pose proof (lo_first _ _ H a Ua Hp). congruence.
  - intros k a. rewrite Fs. case_decide as D.
    + destruct D as [Hp ->]. intros Hn. destruct (N a Hn) as (? & ? & ? & ?).
      rewrite Fp, Fh, decide_True by done. split_and!; [done|congruence|done|done].
    + intros Hk. destruct (lo_head _ _ H k a Hk) as (? & Hp & ?).
      rewrite Fp, Fh. split_and!; [done| |rewrite decide_False; [done|]|done].
      * intros ->. by apply D.
      * intros Hn. destruct (N a Hn) as (_ & _ & ? & _). congruence.
Qed.

Lemma hist_link_fields source h e s : hist_start h (pglz_hist_idx source s) <> Some e ->
  let hi := pglz_hist_idx source s in
  let hd := hist_start h hi in
  let h' := hist_link source h e s in
  hist_entries h' e = mkEntry hd None hi s /\
  (forall x, x <> e -> next (hist_entries h' x) = next (hist_entries h x)) /\
  (forall x, x <> e ->
     prev (hist_entries h' x) = if decide (hd = Some x) then Some e else prev (hist_entries h x)) /\
  (forall x, x <> e -> hindex (hist_entries h' x) = hindex (hist_entries h x)) /\
  (forall x, x <> e -> pos (hist_entries h' x) = pos (hist_entries h x)) /\
  (forall k, hist_start h' k = if decide (k = hi) then Some e else hist_start h k).
Proof.
  intros Hd. simpl. unfold hist_link. destruct (hist_start h _) as [f|]; simpl.
  - split_and!; [by rewrite upd_ne, upd_eq by congruence|..];
      intros x; upd_cases; repeat case_decide; simplify_eq; naive_solver.
  - split_and!; [by rewrite upd_eq|..]; intros x; upd_cases; repeat case_decide; simplify_eq; naive_solver.
Qed.

Lemma hist_link_ok source U h e s : lists_ok U h -> ~ U e ->
  (forall x, U x -> pos (hist_entries h x) < s) ->
  lists_ok (fun x => U x \/ x = e) (hist_link source h e s) /\
  pos (hist_entries (hist_link source h e s) e) = s /\
  forall x, x <> e -> pos (hist_entries (hist_link source h e s) x) = pos (hist_entries h x).
Proof.
  intros H He Hs. set (hi := pglz_hist_idx source s).
  assert (hist_start h hi <> Some e) as Hd.
  { intros Hk. destruct (lo_head _ _ H _ _ Hk). done. }
  destruct (hist_link_fields source h e s Hd) as (E & Fn & Fp & Fh & Fo & Fs). fold hi in E, Fp, Fs.
  split; [|rewrite E; done].
  assert (forall x, U x -> x <> e) as Ue by (intros x Hx ->; done).
  split.
  - intros a b [Ua| ->].
    + rewrite Fn by auto. intros Hb. destruct (lo_next _ _ H a b Ua Hb) as (Ub & ? & Hp & ?).
      rewrite !Fo, !Fh, Fp by auto. split_and!; [by left|lia| |done].
      rewrite decide_False; [done|]. intros Hk. destruct (lo_head _ _ H _ _ Hk) as (_ & ? & _). congruence.
    + rewrite E. simpl. intros Hk. destruct (lo_head _ _ H _ _ Hk) as (Ub & _ & <-).
      rewrite Fo, Fp, Fh, decide_True by auto. split_and!; [by left|by apply Hs|done|done].
  - intros a b [Ua| ->]; [|rewrite E; done]. rewrite Fp by auto. case_decide as D.
    + intros [= <-]. rewrite E. split; [by right|done].
    + intros Hb. destruct (lo_prev _ _ H a b Ua Hb). rewrite Fn by auto. split; [by left|done].
  - intros a [Ua| ->].
    + rewrite Fp, Fh, Fs by auto. case_decide as D; [done|]. intros Hp.
      pose proof (lo_first _ _ H a Ua Hp). rewrite decide_False; [done|]. intros Hk. congruence.
    + rewrite E, Fs. simpl. by rewrite decide_True.
  - intros k a. rewrite Fs. case_decide as D.
    + intros [= <-]. rewrite E. simpl. split_and!; [by right|done|done].
    + intros Hk. destruct (lo_head _ _ H k a Hk) as (Ua & ? & ?). rewrite Fp, Fh by auto.
      split_and!; [by left| |done]. rewrite decide_False; [done|].
      intros Hk'. destruct (lo_head _ _ H _ _ Hk') as (_ & _ & ?). congruence.
Qed.

(** The entries in use are those of the last 4096 positions, each in the slot
    its position has modulo the size of the table. *)
Definition in_use (dp e : Z) : Prop := 0 <= e < PGLZ_HISTORY_SIZE /\ e < dp.

Record hist_ok (h : hist) (dp : Z) : Prop := {
  ho_lists : lists_ok (in_use dp) h;
  ho_dp : 0 <= dp;
  ho_slot : hist_next h = dp mod PGLZ_HISTORY_SIZE;
  ho_recycle : hist_recycle h = (PGLZ_HISTORY_SIZE <=? dp);
  ho_pos e : in_use dp e ->
    0 <= pos (hist_entries h e) /\ dp - PGLZ_HISTORY_SIZE <= pos (hist_entries h e) < dp /\
    pos (hist_entries h e) mod PGLZ_HISTORY_SIZE = e }.

Lemma hist_ok_init entries : hist_ok (mkHist (fun _ => None) entries 0 false) 0.
Proof.
  split; simpl; try done; [split; unfold in_use; simpl; naive_solver lia|unfold in_use; lia].
Qed.

Lemma pglz_hist_add_ok source h dp : hist_ok h dp -> hist_ok (pglz_hist_add source h dp) (dp + 1).
Proof.
  intros [Hl Hdp Hslot Hrec Hpos]. unfold PGLZ_HISTORY_SIZE in *.
  set (e := hist_next h). assert (0 <= e < 4096) as He by (subst e; rewrite Hslot; apply Z.mod_pos_bound; lia).
  set (h1 := if hist_recycle h then hist_unlink h e else h).
  assert (lists_ok (fun x => in_use dp x /\ x <> e) h1 /\
    forall x, pos (hist_entries h1 x) = pos (hist_entries h x)) as [H1 P1].
  { subst h1. rewrite Hrec. destruct (Z.leb_spec 4096 dp).
    - apply hist_unlink_ok; [done|]. split; unfold PGLZ_HISTORY_SIZE; lia.
    - split; [|done]. eapply lists_ok_ext; [|exact Hl]. intros x. unfold in_use.
      rewrite Z.mod_small in Hslot by lia. lia. }
  destruct (hist_link_ok source _ h1 e dp H1) as (H2 & E2 & P2).
  { tauto. }
  { intros x [Hx _]. rewrite P1. by apply Hpos. }
  assert (forall h', hist_start h' = hist_start (hist_link source h1 e dp) ->
    hist_entries h' = hist_entries (hist_link source h1 e dp) -> lists_ok (in_use (dp + 1)) h') as Hl'.
  { intros h' E1' E2'. eapply (lists_ok_ext (fun x => (in_use dp x /\ x <> e) \/ x = e)).
    - intros x. unfold in_use, PGLZ_HISTORY_SIZE. 
      assert (4096 <= dp \/ e = dp) by (rewrite Z.mod_eq in Hslot by lia; destruct (Z.le_gt_cases 4096 dp); [by left|right];
        unfold e; rewrite Hslot, Z.div_small; lia). lia.
    - destruct H2 as [A B C D]. split; rewrite ?E1', ?E2'; done. }
  assert (forall x, in_use (dp + 1) x -> 0 <= pos (hist_entries (hist_link source h1 e dp) x) /\
     dp + 1 - 4096 <= pos (hist_entries (hist_link source h1 e dp) x) < dp + 1 /\
     pos (hist_entries (hist_link source h1 e dp) x) mod 4096 = x) as Hp.
  { intros x Hx. destruct (decide (x = e)) as [->|Hne].
    - rewrite E2. unfold e. lia.
    - rewrite P2, P1 by done. unfold in_use, PGLZ_HISTORY_SIZE in *. destruct (Hpos x) as (? & ? & ?).
      { unfold e in Hne. split; [lia|]. destruct (Z.le_gt_cases 4096 dp); [lia|].
        rewrite Z.mod_small in Hslot by lia. lia. }
      split_and!; try lia. destruct (decide (pos (hist_entries h x) = dp - 4096)) as [Eq|]; [|lia].
      exfalso. apply Hne. unfold e. rewrite Hslot. rewrite <- H3, Eq.
      rewrite <- (Z_mod_plus_full (dp - 4096) 1). f_equal. lia. }
  unfold pglz_hist_add. fold e h1. unfold PGLZ_HISTORY_SIZE. simpl.
  assert (hist_next h1 = hist_next h /\ hist_recycle h1 = hist_recycle h) as [N1 R1]
    by (subst h1; destruct (hist_recycle h) eqn:?; done).
  assert (hist_next h = dp - 4096 * (dp / 4096)) as Hq by (rewrite Hslot, Z.mod_eq; lia).
  rewrite N1, R1. destruct (Z.leb_spec 4096 (hist_next h + 1)); split; simpl; auto; try lia.
  - apply (Z.mod_unique _ _ (dp / 4096 + 1)); unfold PGLZ_HISTORY_SIZE; lia.
  - symmetry. apply Z.leb_le. unfold PGLZ_HISTORY_SIZE. pose proof (Z.div_pos dp 4096). lia.
  - apply (Z.mod_unique _ _ (dp / 4096)); unfold PGLZ_HISTORY_SIZE; lia.
  - rewrite Hrec. unfold PGLZ_HISTORY_SIZE. destruct (Z.leb_spec 4096 dp), (Z.leb_spec 4096 (dp + 1)); try lia; try done.
Qed.

Lemma hist_add_n_ok source n h dp : hist_ok h dp -> hist_ok (hist_add_n source n h dp) (dp + Z.of_nat n).
Proof.
  revert h dp. induction n as [|n IH]; intros h dp H; simpl.
  - by rewrite Z.add_0_r.
  - replace (dp + Z.of_nat (S n)) with (dp + 1 + Z.of_nat n) by lia.
    by apply IH, pglz_hist_add_ok.
Qed.


(** ** Matches *)

(** [n] bytes at [a] equal the [n] bytes at [b]. *)
Definition same (source : list Z) (a b n : Z) : Prop :=
  forall k, 0 <= k < n -> at_ source (a + k) = at_ source (b + k).

Lemma match_loop_spec source n ip hp l0 :
  0 <= l0 <= PGLZ_MAX_MATCH -> ip <= slen source ->
  same source (ip - l0) (hp - l0) l0 ->
  let l := match_loop source n ip hp l0 in
  l0 <= l <= PGLZ_MAX_MATCH /\ ip - l0 + l <= slen source /\ same source (ip - l0) (hp - l0) l.
Proof.
  revert ip hp l0. induction n as [|n IH]; intros ip hp l0 Hl Hip Hs; simpl; [split_and!; try lia; done|].
  destruct (Z.ltb_spec ip (slen source)), (Z.eqb_spec (at_ source ip) (at_ source hp)) as [Heq|],
    (Z.ltb_spec l0 PGLZ_MAX_MATCH); simpl; try (split_and!; try lia; done).
  destruct (IH (ip + 1) (hp + 1) (l0 + 1)) as (? & ? & Hr); [lia..| |].
  - replace (ip + 1 - (l0 + 1)) with (ip - l0) by lia. replace (hp + 1 - (l0 + 1)) with (hp - l0) by lia.
    intros k Hk. destruct (decide (k = l0)) as [->|]; [|apply Hs; lia].
    by replace (ip - l0 + l0) with ip by lia; replace (hp - l0 + l0) with hp by lia.
  - split_and!; try lia. replace (ip - l0) with (ip + 1 - (l0 + 1)) by lia.
    by replace (hp - l0) with (hp + 1 - (l0 + 1)) by lia.
Qed.

Lemma memcmp_eq_spec source n a b : memcmp_eq source n a b = true -> same source a b (Z.of_nat n).
Proof.
  revert a b. induction n as [|n IH]; intros a b H k Hk; [lia|]. simpl in H.
  apply andb_true_iff in H as [H1 H2]. apply Z.eqb_eq in H1.
  destruct (decide (k = 0)) as [->|]; [by rewrite !Z.add_0_r|].
  specialize (IH (a + 1) (b + 1) H2 (k - 1)).
  replace (a + k) with (a + 1 + (k - 1)) by lia. replace (b + k) with (b + 1 + (k - 1)) by lia. apply IH. lia.
Qed.

(** A match: at most 273 bytes inside of the source. *)
Definition good (source : list Z) (input off len : Z) : Prop :=
  0 <= len <= PGLZ_MAX_MATCH /\ input + len <= slen source /\ same source input (input - off) len.

Lemma this_match_good source input hp len :
  0 <= len <= PGLZ_MAX_MATCH -> input + len <= slen source ->
  good source input (input - hp) (this_match source input hp len).
Proof.
  intros Hlen Hin. unfold this_match, good. replace (input - (input - hp)) with hp by lia.
  assert (same source (input - 0) (hp - 0) 0) as H0 by (intros k Hk; lia).
  destruct (Z.leb_spec 16 len).
  - destruct (memcmp_eq _ _ _ _) eqn:E; [|split_and!; unfold PGLZ_MAX_MATCH; try lia; intros k Hk; lia].
    apply memcmp_eq_spec in E. rewrite Z2Nat.id in E by lia.
    destruct (match_loop_spec source match_turns (input + len) (hp + len) len) as (? & ? & Hr); [lia..| |].
    + by replace (input + len - len) with input by lia; replace (hp + len - len) with hp by lia.
    + replace (input + len - len) with input in * by lia. replace (hp + len - len) with hp in * by lia.
      split_and!; try lia. done.
  - destruct (match_loop_spec source match_turns input hp 0) as (? & ? & Hr);
      [unfold PGLZ_MAX_MATCH; lia|lia|done|].
    rewrite !Z.sub_0_r in *. split_and!; try lia. done.
Qed.

(** The walk ends within 4096 turns, because positions fall along a chain and
    all are in the window; what it finds is a match at an offset of 1 to 4094. *)
Lemma chain_loop_spec source h input drop fuel hent len off gm :
  hist_ok h input -> (forall e, hent = Some e -> in_use input e) ->
  (forall e, hent = Some e -> pos (hist_entries h e) < input - PGLZ_HISTORY_SIZE + Z.of_nat fuel) ->
  good source input off len -> (0 < len -> 0 < off < 0x0fff /\ off <= input) ->
  exists len' off', chain_loop source fuel h input drop hent len off gm = Some (len', off') /\
    good source input off' len' /\ (0 < len' -> 0 < off' < 0x0fff /\ off' <= input).
Proof.
  intros Hh. revert hent len off gm. induction fuel as [|fuel IH]; intros hent len off gm Hu Hf Hg Ho.
  - destruct hent as [e|]; [|eauto]. exfalso. specialize (Hf e eq_refl).
    destruct (ho_pos _ _ Hh e (Hu e eq_refl)) as (_ & ? & _). lia.
  - destruct hent as [e|]; simpl; [|eauto]. specialize (Hu e eq_refl). specialize (Hf e eq_refl).
    destruct (ho_pos _ _ Hh e Hu) as (Hp0 & Hp & _).
    destruct (Z.leb_spec 0x0fff (input - pos (hist_entries h e))); [eauto|].
    pose proof (this_match_good source input (pos (hist_entries h e)) len) as Ht.
    destruct Hg as (Hg1 & Hg2 & Hg3). specialize (Ht Hg1 Hg2).
    set (t := this_match _ _ _ _) in *.
    destruct (Z.ltb_spec len t) as [Hlt|Hge];
      (destruct (next (hist_entries h e)) as [f|] eqn:En; [|eexists _, _; split; [done|]; split; [done|lia]]);
      (match goal with |- context [gm <=? ?l] => destruct (Z.leb_spec gm l) end;
        [eexists _, _; split; [done|]; split; [done|lia]|]);
      destruct (lo_next _ _ (ho_lists _ _ Hh) e f Hu En) as (? & ? & _);
      apply IH; try (intros ? [= <-]; lia || done); try done; lia.
Qed.

Lemma pglz_find_match_spec source h input gm drop :
  hist_ok h input -> input < slen source ->
  exists r, pglz_find_match source h input gm drop = Some r /\
    forall len off, r = Some (len, off) ->
      good source input off len /\ 2 < len /\ 0 < off < 0x0fff /\ off <= input.
Proof.
  intros Hh Hin. unfold pglz_find_match.
  pose proof (ho_dp _ _ Hh).
  destruct (chain_loop_spec source h input drop chain_turns (hist_start h (pglz_hist_idx source input)) 0 0 gm Hh)
    as (len & off & -> & Hg & Ho).
  - intros e He. by apply (lo_head _ _ (ho_lists _ _ Hh)) in He as [? _].
  - intros e He. apply (lo_head _ _ (ho_lists _ _ Hh)) in He as [Hu _].
    destruct (ho_pos _ _ Hh e Hu) as (_ & ? & _). unfold chain_turns, PGLZ_HISTORY_SIZE in *. lia.
  - split_and!; unfold PGLZ_MAX_MATCH; try lia. intros k Hk; lia.
  - lia.
  - eexists. split; [done|]. intros len' off'. destruct (Z.ltb_spec 2 len); [|done].
    intros [= <- <-]. split_and!; try done; lia.
Qed.


(** ** The compressed format

    The datum is a sequence of groups of up to eight items, each group led by a
    control byte with a bit per item. *)

Inductive token :=
| Lit (b : Z)
| Tag (len off : Z).

Definition token_ok (t : token) : Prop :=
  match t with
  | Lit b => 0 <= b < 256
  | Tag len off => 2 < len <= PGLZ_MAX_MATCH /\ 0 < off < 0x0fff
  end.

Definition is_tag (t : token) : bool := match t with Lit _ => false | Tag _ _ => true end.
Definition payload (t : token) : list Z :=
  match t with Lit b => [b] | Tag len off => tag_bytes len off end.
Fixpoint bits (g : list token) : Z :=
  match g with [] => 0 | t :: g => Z.b2z (is_tag t) + 2 * bits g end.
Definition items (g : list token) : list Z := concat (payload <$> g).
Definition group (g : list token) : list Z := bits g :: items g.

(** What the items mean: the bytes they append. *)
Definition apply_token (dest : list Z) (t : token) : option (list Z) :=
  match t with
  | Lit b => Some (dest ++ [b])
  | Tag len off => copy_loop (Z.to_nat len) dest off
  end.
Fixpoint sem (dest : list Z) (ts : list token) : option (list Z) :=
  match ts with
  | [] => Some dest
  | t :: ts => match apply_token dest t with None => None | Some d => sem d ts end
  end.

Lemma sem_app dest ts us :
  sem dest (ts ++ us) = match sem dest ts with None => None | Some d => sem d us end.
Proof. revert dest. induction ts as [|t ts IH]; intros dest; simpl; [done|]. destruct (apply_token dest t); auto. Qed.

Lemma copy_loop_length n dest off d : copy_loop n dest off = Some d -> length d = (length dest + n)%nat.
Proof.
  revert dest. induction n as [|n IH]; intros dest; simpl; [intros [= <-]; lia|].
  case_match; [|done]. intros Hc. apply IH in Hc. rewrite Hc, length_app. simpl. lia.
Qed.

Lemma apply_token_length dest t d : token_ok t -> apply_token dest t = Some d -> (length dest < length d)%nat.
Proof.
  destruct t as [b|len off]; simpl.
  - intros _ [= <-]. rewrite length_app. simpl. lia.
  - intros Ht H. apply copy_loop_length in H. lia.
Qed.

Lemma sem_length dest ts d : Forall token_ok ts -> sem dest ts = Some d ->
  (length dest + length ts <= length d)%nat.
Proof.
  intros Hts. revert dest. induction Hts as [|t ts Ht _ IH]; intros dest; simpl; [intros [= <-]; lia|].
  destruct (apply_token dest t) as [d'|] eqn:E; [|done]. intros H.
  apply apply_token_length in E; [|done]. apply IH in H. lia.
Qed.

(** Every offset and length nibble survives the packing into two bytes. *)
Lemma tag_nibbles off nib : 0 <= off < 4096 -> 0 <= nib < 16 ->
  let b0 := u8 (Z.lor (Z.shiftr (Z.land off 0xf00) 4) nib) in
  Z.land b0 0x0f = nib /\ Z.lor (Z.shiftl (Z.land b0 0xf0) 4) (u8 (Z.land off 0xff)) = off.
Proof.
  intros Ho Hn.
  assert (forallb (fun off => forallb (fun nib =>
    let b0 := u8 (Z.lor (Z.shiftr (Z.land off 0xf00) 4) nib) in
    (Z.land b0 0x0f =? nib) && (Z.lor (Z.shiftl (Z.land b0 0xf0) 4) (u8 (Z.land off 0xff)) =? off))
    (seqZ 0 16)) (seqZ 0 4096) = true) as H by (vm_compute; reflexivity).
  assert (forall n x, 0 <= x < n -> In x (seqZ 0 n)) as Hin
    by (intros; apply list_elem_of_In, elem_of_seqZ; lia).
  rewrite forallb_forall in H. specialize (H off (Hin _ _ Ho)).
  rewrite forallb_forall in H. specialize (H nib (Hin _ _ Hn)).
  by rewrite andb_true_iff, !Z.eqb_eq in H.
Qed.

Lemma bits_range g : 0 <= bits g < 2 ^ Zlen g.
Proof.
  induction g as [|t g IH]; simpl bits; [done|]. simpl length.
  replace (Z.of_nat (S (length g))) with (Z.of_nat (length g) + 1) by lia.
  rewrite Z.pow_add_r by lia. destruct (is_tag t); simpl Z.b2z; lia.
Qed.

Lemma bits_step b g : flag (Z.b2z b + 2 * bits g) 1 = b /\ Z.shiftr (Z.b2z b + 2 * bits g) 1 = bits g.
Proof.
  split.
  - rewrite (flag_pow2 _ 0), Z.add_comm by done. apply Z.testbit_0_r.
  - rewrite Z.shiftr_div_pow2 by lia. destruct b; simpl Z.b2z.
    + symmetry. apply (Z.div_unique _ _ _ 1); lia.
    + symmetry. apply (Z.div_unique _ _ _ 0); lia.
Qed.

(** One group decodes to the meaning of its items. *)
Lemma ctrl_loop_group n rawsize g rest dest d :
  (length g <= n)%nat -> (n = length g \/ rest = []) ->
  Forall token_ok g -> sem dest g = Some d -> Zlen d <= rawsize ->
  ctrl_loop n rawsize (bits g) (items g ++ rest) dest = Next rest d.
Proof.
  intros Hn Hr Hg. revert n dest Hn Hr. induction Hg as [|t g Ht Hg IH]; intros n dest Hn Hr Hs Hd.
  - injection Hs as <-. destruct Hr as [->| ->]; [done|]. by destruct n.
  - destruct n as [|n]; [simpl in Hn; lia|].
    simpl in Hn, Hr. simpl in Hs. destruct (apply_token dest t) as [d1|] eqn:E; [|done].
    pose proof (sem_length d1 g d Hg Hs) as Hlen.
    destruct (bits_step (is_tag t) g) as [Hf Hsh]. unfold items in *. simpl.
    destruct t as [b|len off]; simpl in *.
    + injection E as <-. rewrite Hf, Hsh. rewrite length_app in Hlen. simpl in Hlen.
      destruct (Z.leb_spec rawsize (Zlen dest)); [lia|]. apply IH; [lia|intuition lia|done|done].
    + destruct Ht as [Hl Ho]. pose proof (copy_loop_length _ _ _ _ E) as Hlc.
      unfold tag_bytes, PGLZ_MAX_MATCH in *. destruct (Z.ltb_spec 17 len); simpl; rewrite Hf, Hsh.
      * destruct (tag_nibbles off 0x0f) as [E1 E2]; [lia..|].
        rewrite E1, E2. change (15 + 3 =? 18) with true. cbv iota. rewrite u8_id by lia.
        replace (15 + 3 + (len - 18)) with len by lia.
        destruct (Z.ltb_spec rawsize (Zlen dest + len)); [lia|]. rewrite E.
        apply IH; [lia|intuition lia|done|done].
      * destruct (tag_nibbles off (len - 3)) as [E1 E2]; [lia..|].
        rewrite E1, E2. replace (len - 3 + 3) with len by lia.
        destruct (Z.eqb_spec len 18); [lia|].
        destruct (Z.ltb_spec rawsize (Zlen dest + len)); [lia|]. rewrite E.
        apply IH; [lia|intuition lia|done|done].
Qed.

Lemma decompress_groups gs g fuel rawsize dest d :
  Forall (fun g => length g = 8%nat) gs -> (0 < length g <= 8)%nat ->
  Forall token_ok (concat gs ++ g) -> sem dest (concat gs ++ g) = Some d -> Zlen d = rawsize ->
  (length gs < fuel)%nat ->
  decompress_loop fuel rawsize (concat (group <$> gs) ++ group g) dest = Some (Next [] d).
Proof.
  intros Hgs Hg Hok Hs Hd. revert fuel dest Hok Hs. induction Hgs as [|g1 gs Hg1 _ IH]; intros fuel dest Hok Hs Hf.
  - simpl concat in *. simpl app in *. destruct fuel as [|fuel]; [simpl in Hf; lia|]. unfold group. cbn [decompress_loop].
    pose proof (sem_length _ _ _ Hok Hs). destruct (Z.ltb_spec (Zlen dest) rawsize); [|lia]. cbn [negb].
    rewrite <- (app_nil_r (items g)), (ctrl_loop_group 8 rawsize g [] dest d); [|lia|by right|done|done|lia].
    by destruct fuel.
  - destruct fuel as [|fuel]; [simpl in Hf; lia|]. simpl in Hok, Hs.
    cbn [concat fmap list_fmap]. unfold group at 1. cbn [app decompress_loop].
    rewrite <- app_assoc in Hok, Hs. rewrite sem_app in Hs.
    apply Forall_app in Hok as [Hok1 Hok2].
    destruct (sem dest g1) as [d1|] eqn:E1; [|done].
    pose proof (sem_length _ _ _ Hok1 E1). pose proof (sem_length _ _ _ Hok2 Hs).
    destruct (Z.ltb_spec (Zlen dest) rawsize); [|lia]. cbn [negb]. rewrite <- app_assoc.
    rewrite (ctrl_loop_group 8 rawsize g1 _ dest d1); [|lia|by left|done|done|lia].
    apply IH; [done|done|simpl in Hf; lia].
Qed.

(** ** The output buffer holds groups *)

Record holds (o : obuf) (gs : list (list token)) (g : list token) : Prop := {
  ho_full : Forall (fun g => length g = 8%nat) gs;
  ho_len : (length g <= 8)%nat;
  ho_out : exists x, out o = concat (group <$> gs) ++ x :: items g;
  ho_ctrlp : ctrlp o = Some (length (concat (group <$> gs)));
  ho_ctrlb : ctrlb o = bits g;
  ho_ctrl : ctrl o = u8 (2 ^ Zlen g) }.

(** The buffer before the first item, or one that holds [ts]. *)
Definition obuf_ok (o : obuf) (ts : list token) : Prop :=
  (o = mkObuf [] None 0 0 /\ ts = []) \/
  exists gs g, holds o gs g /\ g <> [] /\ ts = concat gs ++ g.

Lemma store_ctrl_holds o gs g : holds o gs g ->
  store_ctrl o = concat (group <$> gs) ++ group g.
Proof.
  intros [? ? [x Ho] Hp Hb ?]. unfold store_ctrl. rewrite Hp, Ho, Hb.
  rewrite insert_app_r_alt, Nat.sub_diag by lia. done.
Qed.

Lemma pglz_out_ctrl_holds o ts : obuf_ok o ts ->
  exists gs g, holds (pglz_out_ctrl o) gs g /\ ts = concat gs ++ g /\ (length g < 8)%nat /\
    (length (out o) <= length (out (pglz_out_ctrl o)) <= length (out o) + 1)%nat.
Proof.
  intros [[-> ->]|(gs & g & H & Hne & ->)].
  - exists [], []. split_and!; simpl; try lia; [|done]. by split; simpl; [constructor|lia|exists 0|..].
  - unfold pglz_out_ctrl. destruct (decide (length g = 8%nat)) as [E8|N8].
    + rewrite (ho_ctrl _ _ _ H), E8. simpl. exists (gs ++ [g]), [].
      rewrite (store_ctrl_holds o gs g H), app_nil_r.
      destruct H as [H1 H2 [x H3] H4 H5 H6].
      split_and!; simpl; try lia; [|by rewrite concat_app; simpl; rewrite app_nil_r| |].
      * assert (concat (group <$> gs ++ [g]) = concat (group <$> gs) ++ group g) as E
          by (rewrite fmap_app, concat_app; simpl; by rewrite app_nil_r).
        split; cbn [out ctrlp ctrlb ctrl]; rewrite ?E; [|simpl; lia| | |done..].
        -- apply Forall_app. auto.
        -- by exists 0.
        -- rewrite H3, !length_app. done.
      * rewrite H3, !length_app. simpl. lia.
      * rewrite H3, !length_app. simpl. lia.
    + destruct H as [H1 H2 H3 H4 H5 H6]. rewrite H6.
      assert (0 <= Zlen g < 8) by lia.
      assert (u8 (2 ^ Zlen g) = 2 ^ Zlen g) as ->.
      { apply u8_id. split; [lia|]. apply Z.pow_lt_mono_r; lia. }
      assert (Z.land (2 ^ Zlen g) 255 =? 0 = false) as ->.
      { apply Z.eqb_neq. change 255 with (Z.ones 8). rewrite Z.land_ones by lia.
        rewrite Z.mod_small; [lia|]. split; [lia|]. apply Z.pow_lt_mono_r; lia. }
      exists gs, g. split_and!; try lia; [|done]. by split.
Qed.

Lemma holds_snoc o gs g t c : holds o gs g -> (length g < 8)%nat ->
  c = bits (g ++ [t]) ->
  holds (mkObuf (out o ++ payload t) (ctrlp o) c (u8 (Z.shiftl (ctrl o) 1))) gs (g ++ [t]).
Proof.
  intros [H1 H2 [x H3] H4 H5 H6] Hl ->. split; simpl; auto.
  - rewrite length_app. simpl. lia.
  - exists x. rewrite H3. unfold items. rewrite fmap_app, concat_app, <- app_assoc. simpl. by rewrite app_nil_r.
  - rewrite H6, length_app, Z.shiftl_mul_pow2 by lia. cbn [length].
    rewrite (u8_id (2 ^ Zlen g)) by (split; [lia|]; apply Z.pow_lt_mono_r; lia).
    replace (Z.of_nat (length g + 1)) with (Zlen g + 1) by lia. by rewrite Z.pow_add_r by lia.
Qed.

Lemma bits_snoc g t : bits (g ++ [t]) = bits g + Z.b2z (is_tag t) * 2 ^ Zlen g.
Proof.
  induction g as [|u g IH]; cbn [bits app]; [simpl; lia|]. rewrite IH. cbn [length].
  replace (Z.of_nat (S (length g))) with (Zlen g + 1) by lia. rewrite Z.pow_add_r by lia. lia.
Qed.

Lemma obuf_literal o ts b : obuf_ok o ts -> 0 <= b < 256 ->
  obuf_ok (pglz_out_literal o b) (ts ++ [Lit b]) /\
  (length (out (pglz_out_literal o b)) <= length (out o) + 2)%nat.
Proof.
  intros Ho Hb. destruct (pglz_out_ctrl_holds o ts Ho) as (gs & g & H & -> & Hl & Hle).
  unfold pglz_out_literal. split; [right|simpl; rewrite length_app; simpl; lia].
  exists gs, (g ++ [Lit b]). split; [|split; [by destruct g|by rewrite app_assoc]].
  rewrite u8_id by lia. apply (holds_snoc _ gs g (Lit b)); [done|done|].
  rewrite bits_snoc. simpl. rewrite (ho_ctrlb _ _ _ H). lia.
Qed.

Lemma obuf_tag o ts len off : obuf_ok o ts ->
  obuf_ok (pglz_out_tag o len off) (ts ++ [Tag len off]) /\
  (length (out (pglz_out_tag o len off)) <= length (out o) + 4)%nat.
Proof.
  intros Ho. destruct (pglz_out_ctrl_holds o ts Ho) as (gs & g & H & -> & Hl & Hle).
  unfold pglz_out_tag. split;
    [right|simpl; rewrite length_app; unfold tag_bytes; destruct (17 <? len); simpl; lia].
  exists gs, (g ++ [Tag len off]). split; [|split; [by destruct g|by rewrite app_assoc]].
  apply (holds_snoc _ gs g (Tag len off)); [done|done|].
  rewrite bits_snoc, (ho_ctrlb _ _ _ H), (ho_ctrl _ _ _ H). simpl Z.b2z.
  pose proof (bits_range g). assert (2 ^ Zlen g <= 2 ^ 7) by (apply Z.pow_le_mono_r; lia).
  rewrite (u8_id (2 ^ Zlen g)) by lia.
  assert (Z.lor (bits g) (2 ^ Zlen g) = bits g + 2 ^ Zlen g) as ->.
  { rewrite <- (Z.lxor_lor), <- Z.add_nocarry_lxor; [done|..];
      zbits i Hi; rewrite Z.pow2_bits_eqb by lia; destruct (Z.eqb_spec (Zlen g) i) as [<-|];
      rewrite ?andb_false_r; try done; rewrite (testbit_above (bits g) (Zlen g)); done || lia. }
  rewrite u8_id; [lia|]. lia.
Qed.


(** ** The compressor writes tokens that mean the source *)

Definition byte_ok (b : Z) : Prop := 0 <= b < 256.
Definition upto (source : list Z) (i : Z) : list Z := take (Z.to_nat i) source.

Lemma upto_length source i : 0 <= i <= slen source -> Zlen (upto source i) = i.
Proof. unfold upto, slen. intros. rewrite length_take. lia. Qed.

Lemma upto_snoc source i : 0 <= i < slen source ->
  upto source (i + 1) = upto source i ++ [at_ source i].
Proof.
  unfold upto, slen, at_, aget. intros Hi. destruct (Z.ltb_spec i 0); [lia|].
  replace (Z.to_nat (i + 1)) with (S (Z.to_nat i)) by lia.
  destruct (source !! Z.to_nat i) as [b|] eqn:E; [|apply lookup_ge_None in E; lia].
  by rewrite (take_S_r _ _ b).
Qed.

Lemma at_upto source i j : 0 <= j < i -> i <= slen source -> aget 0 (upto source i) j = at_ source j.
Proof.
  unfold upto, slen, at_, aget. intros. destruct (Z.ltb_spec j 0); [lia|].
  by rewrite lookup_take_lt by lia.
Qed.

Lemma copy_loop_upto source input off n i :
  0 < off <= input -> input <= i -> i + Z.of_nat n <= slen source ->
  (forall k, input <= k < i + Z.of_nat n -> at_ source k = at_ source (k - off)) ->
  copy_loop n (upto source i) off = Some (upto source (i + Z.of_nat n)).
Proof.
  intros Ho. revert i. induction n as [|n IH]; intros i Hi Hn Hs.
  - by rewrite Z.add_0_r.
  - cbn [copy_loop]. rewrite upto_length by lia.
    rewrite (proj2 (Z.ltb_lt 0 off)), (proj2 (Z.leb_le off i)) by lia. cbn [andb].
    rewrite at_upto by lia. rewrite <- Hs by lia. rewrite <- upto_snoc by lia.
    rewrite IH; [f_equal; f_equal; lia|lia..|]. intros k Hk. apply Hs. lia.
Qed.

Lemma at_byte source i : Forall byte_ok source -> byte_ok (at_ source i).
Proof. intros. unfold at_. apply (aget_Forall byte_ok); [unfold byte_ok; lia|done]. Qed.

(** The state of the compressor at position [dp]. *)
Definition lz_ok (source : list Z) (dp : Z) (o : obuf) (ts : list token) : Prop :=
  obuf_ok o ts /\ Forall token_ok ts /\ sem [] ts = Some (upto source dp).

Lemma lz_literal source dp o ts : Forall byte_ok source -> 0 <= dp < slen source ->
  lz_ok source dp o ts ->
  lz_ok source (dp + 1) (pglz_out_literal o (at_ source dp)) (ts ++ [Lit (at_ source dp)]).
Proof.
  intros Hb Hdp (H1 & H2 & H3). pose proof (at_byte source dp Hb) as Hat. split_and!.
  - by apply obuf_literal.
  - apply Forall_app. auto.
  - rewrite sem_app, H3. simpl. by rewrite upto_snoc.
Qed.

Lemma lz_tag source dp o ts len off : 0 <= dp -> lz_ok source dp o ts ->
  good source dp off len -> 2 < len -> 0 < off < 0x0fff -> off <= dp ->
  lz_ok source (dp + len) (pglz_out_tag o len off) (ts ++ [Tag len off]).
Proof.
  intros Hdp (H1 & H2 & H3) (G1 & G2 & G3) Hl Ho Hod. split_and!.
  - by apply obuf_tag.
  - apply Forall_app. split; [done|]. constructor; [|done]. simpl. lia.
  - rewrite sem_app, H3. cbn [sem apply_token].
    rewrite (copy_loop_upto source dp off); rewrite ?Z2Nat.id by lia; try lia; [done|].
    intros k Hk. specialize (G3 (k - dp) ltac:(lia)).
    replace (dp + (k - dp)) with k in G3 by lia. by replace (dp - off + (k - dp)) with (k - off) in G3 by lia.
Qed.

Section CompressLoop.
Context (source : list Z) (strategy : PGLZ_Strategy) (gm drop rmax : Z).
Hypothesis Hbytes : Forall byte_ok source.

(** The loop ends; if it used up the source, the items written mean the source;
    it never has more than three bytes beyond the allowed size in the buffer. *)
Lemma compress_loop_spec fuel h dp o found ts :
  hist_ok h dp -> dp <= slen source -> slen source <= dp + Z.of_nat fuel ->
  lz_ok source dp o ts -> Zlen (out o) <= Z.max rmax 0 + 3 ->
  exists r, compress_loop source strategy gm drop rmax fuel h dp o found = Some r /\
    match r with
    | Done o' => (exists ts', lz_ok source (slen source) o' ts') /\ Zlen (out o') <= Z.max rmax 0 + 3
    | TooBig o' => Zlen (out o') <= Z.max rmax 0 + 3
    end.
Proof.
  revert h dp o found ts. induction fuel as [|fuel IH]; intros h dp o found ts Hh Hdp Hf Hlz Hout.
  - cbn [compress_loop]. destruct (Z.ltb_spec dp (slen source)); [lia|]. cbn [negb].
    replace dp with (slen source) in Hlz by lia. eexists. split; [done|]. split; [by exists ts|done].
  - cbn [compress_loop]. destruct (Z.ltb_spec dp (slen source)) as [Hlt|]; cbn [negb].
    2:{ replace dp with (slen source) in Hlz by lia. eexists. split; [done|]. split; [by exists ts|done]. }
    pose proof (ho_dp _ _ Hh) as H0.
    destruct (Z.leb_spec rmax (Zlen (out o))) as [|Hr]; [eauto|].
    destruct (negb found && _); [eauto|].
    destruct (pglz_find_match_spec source h dp gm drop Hh Hlt) as (m & -> & Hm).
    destruct m as [[len off]|].
    + destruct (Hm len off eq_refl) as (G & ? & ? & ?).
      destruct (obuf_tag o ts len off) as [_ Hb]; [by apply Hlz|].
      eapply IH; [| |lia|by apply lz_tag|lia].
      * destruct G. replace (dp + len) with (dp + Z.of_nat (Z.to_nat len)) by lia. by apply hist_add_n_ok.
      * by destruct G as (_ & ? & _).
    + destruct (obuf_literal o ts (at_ source dp)) as [_ Hb]; [by apply Hlz|by apply at_byte|].
      eapply IH; [by apply pglz_hist_add_ok|lia|lia|by apply lz_literal|lia].
Qed.
End CompressLoop.

Lemma store_ctrl_length o : length (store_ctrl o) = length (out o).
Proof. unfold store_ctrl. case_match; [|done]. by rewrite length_insert. Qed.

Lemma result_max_range source rate : slen source <= INT_MAX -> 0 <= rate <= 99 ->
  0 <= result_max source rate <= slen source.
Proof.
  intros Hs Hr. assert (0 <= slen source) by (unfold slen; lia). unfold result_max, INT_MAX in *.
  change (Z.quot (2 ^ 31 - 1) 100) with 21474836.
  destruct (Z.ltb_spec 21474836 (slen source)).
  - rewrite Z.quot_div_nonneg by lia. pose proof (Z.div_mod (slen source) 100 ltac:(lia)).
    pose proof (Z.mod_pos_bound (slen source) 100 ltac:(lia)).
    rewrite i32_id by nia. nia.
  - rewrite i32_id by nia. rewrite Z.quot_div_nonneg by nia.
    split; [apply Z.div_pos; nia|]. apply Z.div_le_upper_bound; nia.
Qed.

Lemma clamp_range lo hi x : lo <= hi -> lo <= clamp lo hi x <= hi.
Proof. intros. unfold clamp. destruct (Z.ltb_spec hi x), (Z.ltb_spec x lo); lia. Qed.

Lemma groups_length gs : (length gs <= length (concat (group <$> gs)))%nat.
Proof.
  induction gs as [|g gs IH]; [done|]. cbn [fmap list_fmap concat length].
  rewrite length_app. unfold group at 1. cbn [length]. unfold fmap in *. lia.
Qed.

(** A non-empty sequence of items decompresses to what it means. *)
Lemma decompress_tokens o ts d : obuf_ok o ts -> ts <> [] -> Forall token_ok ts -> sem [] ts = Some d ->
  pglz_decompress (Zlen d) (store_ctrl o) = Some (Ok d).
Proof.
  intros [[_ ->]|(gs & g & H & Hne & ->)]; [done|]. intros _ Hok Hs. unfold pglz_decompress.
  rewrite (store_ctrl_holds o gs g H).
  assert (length gs < length (concat (group <$> gs) ++ group g))%nat as Hf.
  { rewrite length_app. pose proof (groups_length gs). simpl. lia. }
  rewrite (decompress_groups gs g _ _ [] d); try done; [by rewrite Z.eqb_refl|by apply H|].
  pose proof (ho_len _ _ _ H). destruct g; simpl in *; [done|lia].
Qed.

Lemma pglz_compress_spec source entries strategy :
  Forall byte_ok source -> slen source <= INT_MAX ->
  exists dest ret, pglz_compress source entries strategy = Some (dest, ret) /\
    Zlen dest <= slen source + 4 /\
    (ret = 0 \/
     ret = Zlen dest + 8 /\ Zlen dest < slen source /\
     pglz_decompress (slen source) dest = Some (Ok source)).
Proof.
  intros Hb Hmax. unfold pglz_compress. pose proof (Zle_0_nat (length source)).
  case_match; [exists [], 0; unfold slen; simpl; split_and!; [done|lia|by left]|].
  pose proof (result_max_range source (clamp 0 99 (min_comp_rate strategy)) Hmax
    (clamp_range 0 99 _ ltac:(lia))) as Hrm.
  set (rmax := result_max _ _) in *.
  destruct (compress_loop_spec source strategy (clamp 17 PGLZ_MAX_MATCH (match_size_good strategy))
    (clamp 0 100 (match_size_drop strategy)) rmax Hb (length source) (mkHist (λ _, None) entries 0 false) 0
    (mkObuf [] None 0 0) false []) as (r & -> & Hr).
  - apply hist_ok_init.
  - unfold slen. lia.
  - unfold slen. lia.
  - split_and!; [by left|done|done].
  - simpl. lia.
  - destruct r as [o|o]; [|exists (out o), 0; split_and!; [done|lia|by left]].
    destruct Hr as [(ts & Ho & Hok & Hs) Hlen].
    eexists _, _. split; [done|]. rewrite store_ctrl_length. split; [lia|].
    destruct (Z.leb_spec rmax (Zlen (out o))); [by left|right]. split_and!; [done|lia|].
    unfold upto, slen in Hs. rewrite Nat2Z.id, take_ge in Hs by lia.
    apply (decompress_tokens o ts); try done. intros ->. injection Hs as <-. unfold slen in *. simpl in *. lia.
Qed.


(** The decompressor ends on every input, corrupt or not, and never writes
    outside of the [rawsize] bytes of its destination. *)
Lemma ctrl_loop_bounds n rawsize ctrl src dest : 0 <= rawsize -> Zlen dest <= rawsize ->
  match ctrl_loop n rawsize ctrl src dest with
  | Next src' d | Stuck src' d => (length src' <= length src)%nat /\ Zlen d <= rawsize
  | _ => True
  end.
Proof.
  intros H0. revert ctrl src dest. induction n as [|n IH]; intros ctrl src dest Hd; [done|].
  destruct src as [|b0 src]; [done|]. cbn [ctrl_loop].
  destruct (ctrl .& 1).
  - destruct src as [|b1 src]; [done|].
    set (len := Z.land b0 0x0f + 3). assert (0 <= len) by (subst len; pose proof (Z.land_nonneg b0 0x0f); lia).
    set (nx := if len =? 18 then _ else _). destruct nx as [[l src']|] eqn:E; [|done].
    assert (length src' <= length src)%nat as Hsrc
      by (subst nx; destruct (len =? 18); [destruct src; simplify_eq; simpl; lia|by simplify_eq]).
    destruct (Z.ltb_spec rawsize (Zlen dest + l)); [done|].
    destruct (copy_loop _ _ _) as [d|] eqn:Ec; [|done]. apply copy_loop_length in Ec.
    specialize (IH (Z.shiftr ctrl 1) src' d).
    destruct (ctrl_loop _ _ _ _ _); try done; simpl; (destruct IH; [lia|split; [lia|done]]).
  - destruct (Z.leb_spec rawsize (Zlen dest)); [done|].
    specialize (IH (Z.shiftr ctrl 1) src (dest ++ [b0])). rewrite length_app in IH. simpl in IH.
    destruct (ctrl_loop _ _ _ _ _); try done; simpl; (destruct IH; [lia|split; [lia|done]]).
Qed.

Lemma decompress_loop_bounds fuel rawsize src dest : 0 <= rawsize -> Zlen dest <= rawsize ->
  (length src <= fuel)%nat ->
  exists r, decompress_loop fuel rawsize src dest = Some r /\
    match r with Next _ d | Stuck _ d => Zlen d <= rawsize | _ => True end.
Proof.
  intros H0. revert src dest. induction fuel as [|fuel IH]; intros src dest Hd Hf.
  - destruct src; [|simpl in Hf; lia]. eexists. split; [done|done].
  - destruct src as [|c src]; [eexists; split; [done|done]|]. cbn [decompress_loop].
    destruct (negb _); [eexists; split; [done|done]|].
    pose proof (ctrl_loop_bounds 8 rawsize c src dest H0 Hd) as Hc.
    destruct (ctrl_loop 8 rawsize c src dest); try (eexists; split; [done|tauto]).
    destruct Hc. simpl in Hf. apply IH; [done|lia].
Qed.

Theorem pglz_decompress_safe rawsize src : 0 <= rawsize ->
  exists r, pglz_decompress rawsize src = Some r /\ forall d, r = Ok d -> Zlen d = rawsize.
Proof.
  intros H0. unfold pglz_decompress.
  destruct (decompress_loop_bounds (length src) rawsize src []) as (r & -> & _); [done|simpl; lia|done|].
  destruct r; (eexists; split; [done|]); intros ? Hd; try done.
  destruct (Z.eqb_spec (Zlen dest) rawsize); [|done]. by destruct src0; simplify_eq/=.
Qed.

(** A control bit announces a tag, but the datum ends after its first byte: the
    code reads on. *)
Theorem pglz_decompress_overread : pglz_decompress 8 [1; 0] = Some (Err "undefined: read outside of the datum").
Proof. reflexivity. Qed.

(** C24: Compression loses nothing: on every input of at most [INT_MAX] bytes
    and for every strategy [pglz_compress] terminates, keeps within the
    [PGLZ_MAX_OUTPUT] bytes of its output area even when it gives up, and when
    it succeeds the datum is shorter than the input and [pglz_decompress]
    restores the input exactly; on arbitrary, corrupt data the decompressor
    terminates too and never yields more or less than the announced size. *)
Theorem pglz_roundtrip source entries strategy :
  Forall byte_ok source -> slen source <= INT_MAX ->
  (exists dest ret, pglz_compress source entries strategy = Some (dest, ret) /\
    Zlen dest <= slen source + 4 /\
    (ret = 0 \/
     ret = Zlen dest + 8 /\ Zlen dest < slen source /\
     pglz_decompress (slen source) dest = Some (Ok source))) /\
  (forall rawsize src, 0 <= rawsize ->
    exists r, pglz_decompress rawsize src = Some r /\ forall d, r = Ok d -> Zlen d = rawsize).
Proof.
  intros Hb Hm. split; [by apply pglz_compress_spec|]. intros. by apply pglz_decompress_safe.
Qed.

Definition sample : list Z := concat (repeat [97; 98; 99; 100; 101; 200; 7] 8).

Lemma pglz_roundtrip_witness :
  pglz_compress sample (fun _ => mkEntry None None 0 0) strategy_default_data
    = Some ([128; 97; 98; 99; 100; 101; 200; 7; 15; 7; 31], 19) /\
  pglz_decompress (slen sample) [128; 97; 98; 99; 100; 101; 200; 7; 15; 7; 31] = Some (Ok sample).
Proof.
  assert (Forall byte_ok sample) as Hb
    by (unfold byte_ok; repeat (constructor; [lia|]); constructor).
  assert (slen sample <= INT_MAX) as Hm by (vm_compute; discriminate).
  destruct (pglz_roundtrip sample (fun _ => mkEntry None None 0 0) strategy_default_data Hb Hm)
    as [(dest & ret & E & _ & H) _].
  vm_compute in E. injection E as <- <-. split; [vm_compute; reflexivity|].
  destruct H as [H|(_ & _ & H)]; [discriminate H|exact H].
Defined.

End Lz.

(** ** The type [lztext] *)

Module Lztext.
Import Lz Varlena.

Definition UNCOMPRESSED (length : Z) : Z := Z.lor length 0x80000000.
Definition ISCOMPRESSED (lz : list Z) : bool := negb (vl_len lz .& 0x80000000).
Definition PGLZ_RAW_SIZE (lz : list Z) : Z := le_val (take 4 (drop 4 lz)).

(** [lztextin] and [text_lztext]: the datum for the bytes [str]; [None] is the
    null pointer.  The copy into a tighter allocation changes no byte. *)
Definition lztextin (entries : Z -> PGLZ_HistEntry) (str : option (list Z)) : option (option (list Z)) :=
  match str with
  | None => Some None
  | Some str =>
    match pglz_compress str entries strategy_default_data with
    | None => None
    | Some (dest, clen) =>
      Some (Some (if clen =? 0 then le_bytes 4 (UNCOMPRESSED (Zlen str + VARHDRSZ)) ++ str
                  else le_bytes 4 clen ++ le_bytes 4 (Zlen str) ++ dest))
    end
  end.

(** [lztextout] and [lztext_text]: the bytes of the text. *)
Definition lztextout (lz : option (list Z)) : option (result (list Z)) :=
  match lz with
  | None => Some (Ok [45])
  | Some lz =>
    if negb (ISCOMPRESSED lz) then Some (Ok (take (Z.to_nat (VARSIZE lz - VARHDRSZ)) (VARDATA lz)))
    else if PGLZ_RAW_SIZE lz =? VARSIZE lz - 8
    then Some (Ok (take (Z.to_nat (PGLZ_RAW_SIZE lz)) (drop 8 lz)))
    else pglz_decompress (PGLZ_RAW_SIZE lz) (take (Z.to_nat (VARSIZE lz - 8)) (drop 8 lz))
  end.

Definition lztextlen (lz : option (list Z)) : Z :=
  match lz with
  | None => 0
  | Some lz => if negb (ISCOMPRESSED lz) then VARSIZE lz - VARHDRSZ else PGLZ_RAW_SIZE lz
  end.

Definition lztextoctetlen (lz : option (list Z)) : Z :=
  match lz with None => 0 | Some lz => VARSIZE lz - VARHDRSZ end.

(** A text goes through the type unchanged, compressed or not, and is never
    stored longer than plain. *)
Theorem lztext_roundtrip entries str : Forall byte_ok str -> Zlen str + 8 < 2 ^ 30 ->
  exists lz, lztextin entries (Some str) = Some (Some lz) /\
    lztextout (Some lz) = Some (Ok str) /\ lztextlen (Some lz) = Zlen str /\
    lztextoctetlen (Some lz) <= Zlen str + 3.
Proof.
  intros Hb Hl. unfold lztextin.
  destruct (pglz_compress_spec str entries strategy_default_data Hb) as (dest & ret & -> & Hd & H).
  { unfold slen, INT_MAX. lia. }
  unfold slen in *. destruct (Z.eqb_spec ret 0) as [->|Hne].
  - eexists. split; [done|]. unfold lztextout, lztextlen, lztextoctetlen, ISCOMPRESSED, UNCOMPRESSED, VARHDRSZ.
    destruct (varsize_flagged (Zlen str + 4) 0x80000000 str) as [Ev Ef]; [lia|by left|].
    rewrite Ef, Ev. cbn [negb]. rewrite vardata_word. split_and!; try lia. do 2 f_equal. apply take_ge. lia.
  - destruct H as [|(-> & Hlt & Hr)]; [done|]. eexists. split; [done|].
    unfold lztextout, lztextlen, lztextoctetlen, ISCOMPRESSED, VARHDRSZ.
    set (lz := le_bytes 4 _ ++ _).
    assert (VARSIZE lz = Zlen dest + 8) as Ev by (apply varsize_word; lia).
    assert (vl_len lz = Zlen dest + 8) as Ew by (subst lz; rewrite vl_len_word; apply Z.mod_small; lia).
    assert (flag (Zlen dest + 8) 0x80000000 = false) as Ef.
    { change 0x80000000 with (2 ^ 31). rewrite flag_pow2 by lia. apply (testbit_above _ 30); lia. }
    assert (drop 4 lz = le_bytes 4 (Zlen str) ++ dest) as Ed by apply vardata_word.
    assert (PGLZ_RAW_SIZE lz = Zlen str) as Er.
    { unfold PGLZ_RAW_SIZE. rewrite Ed. pose proof (vl_len_word (Zlen str) dest) as Hv. unfold vl_len in Hv.
      rewrite Hv. apply Z.mod_small. lia. }
    assert (drop 8 lz = dest) as E8 by (change 8%nat with (4 + 4)%nat; rewrite <- drop_drop, Ed; apply vardata_word).
    rewrite Ew, Ef, Er, Ev, E8. cbn [negb]. rewrite (proj2 (Z.eqb_neq _ _)) by lia.
    rewrite take_ge by lia. rewrite Hr. split_and!; try done; lia.
Qed.

End Lztext.
