(* ===== verification/Heaptuple.v ===== *)
(** * Tuples as bytes ([access/common/heaptuple.c], [include/access/tupmacs.h])

    Forming a tuple from an array of values (the null bitmap, the aligned data
    area), and fetching an attribute from it, with the offsets that
    [nocachegetattr] caches in the attribute descriptors.

    A [Datum] is a 64-bit word; where the attribute is passed by reference the
    word is a pointer, and the model carries the bytes found there.  Memory is
    little-endian.  A tuple is its header and its data area, the bytes from
    [t_hoff] on; the area starts at an aligned address [base]. *)

From S2P Require Import Prelude Tqual Varlena.
From Stdlib Require Import Ascii.

Module Heaptuple.
Import Varlena.

(** ** Descriptors and values *)

Record Form_pg_attribute := mkAtt {
  attlen : Z;
  attalign : ascii;
  attbyval : bool;
  atttypid : Z;
  atttypmod : Z;
  attstorage : ascii;
  attcacheoff : Z }.

Definition set_attcacheoff (a : Form_pg_attribute) (o : Z) : Form_pg_attribute :=
  mkAtt (attlen a) (attalign a) (attbyval a) (atttypid a) (atttypmod a) (attstorage a) o.

Inductive Datum :=
| Val (z : Z)
| Ptr (p : list Z).

(** The object a datum points to. *)
Definition DatumGetPointer (d : Datum) : list Z := match d with Val _ => [] | Ptr p => p end.
Definition DatumWord (d : Datum) : Z := match d with Val z => z | Ptr _ => 0 end.

Definition BPCHAROID : Z := 1042.
Definition VARLENA_FIXED_SIZE (a : Form_pg_attribute) : bool :=
  (atttypid a =? BPCHAROID) && (0 <? atttypmod a).

Definition TYPEALIGN (al len : Z) : Z := Z.land (u64 (len + (al - 1))) (Z.lnot (al - 1)).

Definition att_align (cur : Z) (attalign : ascii) : Z :=
  if decide (attalign = "i"%char) then TYPEALIGN 4 cur
  else if decide (attalign = "l"%char) then TYPEALIGN 8 cur
  else if decide (attalign = "c"%char) then cur
  else if decide (attalign = "d"%char) then TYPEALIGN 8 cur
  else TYPEALIGN 2 cur.

Definition att_addlength (cur attlen : Z) (attval : list Z) : Z :=
  if negb (attlen =? -1) then cur + attlen else cur + VARSIZE attval.

Definition att_isnull (att : Z) (bits : list Z) : bool :=
  negb (aget 0 bits (Z.shiftr att 3) .& Z.shiftl 1 (Z.land att 0x07)).

(** ** Filling the data area *)

(** The three arrays [attrs], [value] and [nulls], read in step. *)
Notation column := (Form_pg_attribute * Datum * ascii)%type.
Notation null_char := ("n"%char).

Fixpoint ComputeDataSize_loop (cols : list column) (data_length : Z) : Z :=
  match cols with
  | [] => data_length
  | (a, v, n) :: cols =>
    if decide (n = null_char) then ComputeDataSize_loop cols data_length
    else
      let data_length := i32 (att_align data_length (attalign a)) in
      ComputeDataSize_loop cols (i32 (att_addlength data_length (attlen a) (DatumGetPointer v)))
  end.
Definition ComputeDataSize (cols : list column) : Z := ComputeDataSize_loop cols 0.

Definition HEAP_HASNULL : Z := 2 ^ 0.
Definition HEAP_HASVARLENA : Z := 2 ^ 1.
Definition CSIGNBIT : Z := 0x80.

(** [memmove] of [bs] to offset [i] of the area. *)
Definition splice (mem : list Z) (i : Z) (bs : list Z) : list Z :=
  take (Z.to_nat i) mem ++ bs ++ drop (Z.to_nat i + length bs) mem.

(** The bytes the [switch] of [DataFill] stores. *)
Definition fill_bytes (a : Form_pg_attribute) (v : Datum) : list Z :=
  let scalar n := if attbyval a then le_bytes n (DatumWord v) else take n (DatumGetPointer v) in
  if attlen a =? -1 then take (Z.to_nat (VARSIZE (DatumGetPointer v))) (DatumGetPointer v)
  else if attlen a =? 1 then scalar 1%nat
  else if attlen a =? 2 then scalar 2%nat
  else if attlen a =? 4 then scalar 4%nat
  else if attlen a =? 8 then scalar 8%nat
  else take (Z.to_nat (attlen a)) (DatumGetPointer v).

Record fill := mkFill {
  f_data : Z;          (** the pointer [data] *)
  f_mem : list Z;      (** the data area *)
  f_infomask : Z;
  f_bitP : Z;          (** [bitP - bit] *)
  f_bitmask : Z;
  f_bits : list Z }.

(** The bitmap part of the loop body: [bit != NULL]. *)
Definition fill_bit (s : fill) : fill :=
  if negb (f_bitmask s =? CSIGNBIT)
  then mkFill (f_data s) (f_mem s) (f_infomask s) (f_bitP s) (Z.shiftl (f_bitmask s) 1) (f_bits s)
  else mkFill (f_data s) (f_mem s) (f_infomask s) (f_bitP s + 1) 1 (aset (f_bits s) (f_bitP s + 1) 0).
Definition mark_null (s : fill) : fill :=
  mkFill (f_data s) (f_mem s) (Z.lor (f_infomask s) HEAP_HASNULL) (f_bitP s) (f_bitmask s) (f_bits s).
Definition mark_present (s : fill) : fill :=
  mkFill (f_data s) (f_mem s) (f_infomask s) (f_bitP s) (f_bitmask s)
    (aset (f_bits s) (f_bitP s) (Z.lor (aget 0 (f_bits s) (f_bitP s)) (f_bitmask s))).

(** The data part. *)
Definition fill_data (base : Z) (a : Form_pg_attribute) (v : Datum) (s : fill) : fill :=
  let data := att_align (f_data s) (attalign a) in
  mkFill (att_addlength data (attlen a) (DatumGetPointer v))
    (splice (f_mem s) (data - base) (fill_bytes a v))
    (if attlen a =? -1 then Z.lor (f_infomask s) HEAP_HASVARLENA else f_infomask s)
    (f_bitP s) (f_bitmask s) (f_bits s).

Fixpoint DataFill_loop (base : Z) (bit : bool) (cols : list column) (s : fill) : fill :=
  match cols with
  | [] => s
  | (a, v, n) :: cols =>
    if bit then
      let s := fill_bit s in
      if decide (n = null_char) then DataFill_loop base bit cols (mark_null s)
      else DataFill_loop base bit cols (fill_data base a v (mark_present s))
    else DataFill_loop base bit cols (fill_data base a v s)
  end.

(** [bits] is the bitmap area, [None] for the null pointer. *)
Definition DataFill (base : Z) (cols : list column) (mem : list Z) (bits : option (list Z)) : fill :=
  match bits with
  | None => DataFill_loop base false cols (mkFill base mem 0 0 0 [])
  | Some b => DataFill_loop base true cols (mkFill base mem 0 (-1) CSIGNBIT b)
  end.

(** ** Forming a tuple *)

Record HeapTuple := mkHeapTuple {
  t_len : Z;
  t_self : Z;
  t_info : Z;
  t_oid : Z;
  t_data : HeapTupleHeader;
  t_natts : Z;
  t_hoff : Z;
  t_bits : list Z;
  t_area : list Z }.

Definition MaxHeapAttributeNumber : Z := 1600.
Definition TUPLE_HASINDIRECT : Z := 1.
Definition TUPLE_HASBUFFERED : Z := 2.
(** [offsetof(HeapTupleHeaderData, t_bits)]: five words of eight bytes, two of
    two and [t_hoff]. *)
Definition offsetof_t_bits : Z := 45.

Definition BITMAPLEN (natts : Z) : Z := Z.land (Z.shiftr (natts - 1) 3 + 4 - 4) (Z.lnot 3) + 4.

Definition is_null (c : column) : bool := bool_decide (c.2 = null_char).
Definition external (c : column) (test : list Z -> bool) : bool :=
  negb (is_null c) && bool_decide (attstorage c.1.1 = "e"%char) && test (DatumGetPointer c.1.2).

Definition heap_formtuple (addr : Z) (attrs : list Form_pg_attribute) (value : list Datum)
    (nulls : list ascii) : result HeapTuple :=
  let cols := zip (zip attrs value) nulls in
  let hasnull := existsb is_null cols in
  let hasbuffered := existsb (fun c => external c ISBUFFERED) cols in
  let hasindirect := existsb (fun c => external c ISINDIRECT) cols in
  let natts := Zlen attrs in
  if MaxHeapAttributeNumber <? natts then Err "heap_formtuple: numberOfAttributes" else
  let len := offsetof_t_bits + (if hasnull then BITMAPLEN natts else 0) in
  let hoff := MAXALIGN len in
  let size := ComputeDataSize cols in
  let f := DataFill (addr + u8 hoff) cols (replicate (Z.to_nat size) 0)
             (if hasnull then Some (replicate (Z.to_nat (hoff - offsetof_t_bits)) 0) else None) in
  Ok (mkHeapTuple (hoff + size) 0
        (Z.lor (if hasindirect then TUPLE_HASINDIRECT else 0) (if hasbuffered then TUPLE_HASBUFFERED else 0))
        0 (mkTuple 0 0 0 (0, 0) (Z.lor (f_infomask f) HEAP_XMAX_INVALID))
        natts (u8 hoff)
        (if hasnull then f_bits f else replicate (Z.to_nat (hoff - offsetof_t_bits)) 0) (f_mem f)).

(** ** Fetching an attribute *)

Definition HeapFetchAtt (a : Form_pg_attribute) (tupledata : list Z) : Datum :=
  if attbyval a && negb (attlen a =? -1) then
    if attlen a =? 1 then Val (u64 (swrap 8 (le_val (take 1 tupledata))))
    else if attlen a =? 2 then Val (u64 (swrap 16 (le_val (take 2 tupledata))))
    else if attlen a =? 8 then Val (u64 (swrap 64 (le_val (take 8 tupledata))))
    else Val (u64 (swrap 32 (le_val (take 4 tupledata))))
  else Ptr tupledata.

Definition HeapTupleNoNulls (t : HeapTuple) : bool := negb (t_infomask (t_data t) .& HEAP_HASNULL).
Definition HeapTupleAllFixed (t : HeapTuple) : bool := negb (t_infomask (t_data t) .& HEAP_HASVARLENA).

Definition att0 : Form_pg_attribute := mkAtt 0 "c"%char false 0 0 "p"%char (-1).
Definition att_ (att : list Form_pg_attribute) (i : Z) : Form_pg_attribute := aget att0 att i.
Definition set_cache (att : list Form_pg_attribute) (i off : Z) : list Form_pg_attribute :=
  aset att i (set_attcacheoff (att_ att i) off).
Definition at_off (tp : list Z) (off : Z) : list Z := drop (Z.to_nat off) tp.

(** Nulls before the attribute: in its byte below its bit, or in an earlier byte. *)
Definition nulls_before (bp : list Z) (attnum : Z) : bool :=
  let byte := Z.shiftr attnum 3 in
  let finalbit := Z.land attnum 0x07 in
  (Z.lnot (aget 0 bp byte) .& (Z.shiftl 1 finalbit - 1))
  || existsb (fun b => negb (b =? 0xFF)) (take (Z.to_nat byte) bp).

Definition varies (a : Form_pg_attribute) : bool := (attlen a <? 1) && negb (VARLENA_FIXED_SIZE a).

(** [while (att[j]->attcacheoff > 0) j++;] *)
Fixpoint skip_cached (fuel : nat) (att : list Form_pg_attribute) (j : Z) : Z :=
  match fuel with
  | O => j
  | S fuel => if 0 <? attcacheoff (att_ att j) then skip_cached fuel att (j + 1) else j
  end.

(** [while (j <= attnum)]: fill in the cached offsets; [n] turns are left. *)
Fixpoint cache_fill (n : nat) (tp : list Z) (att : list Form_pg_attribute) (j off : Z) :
    list Form_pg_attribute :=
  match n with
  | O => att
  | S n =>
    let off := i32 (att_align off (attalign (att_ att j))) in
    let att := set_cache att j off in
    cache_fill n tp att (j + 1) (i32 (att_addlength off (attlen (att_ att j)) (at_off tp off)))
  end.

(** The careful walk: [for (i = 0; i < attnum; i++)], [n] turns left. *)
Fixpoint careful_walk (n : nat) (nonulls : bool) (bp tp : list Z) (att : list Form_pg_attribute)
    (i off : Z) (usecache : bool) : list Form_pg_attribute * Z :=
  match n with
  | O => (att, off)
  | S n =>
    if negb nonulls && att_isnull i bp then careful_walk n nonulls bp tp att (i + 1) off false
    else
      let a := att_ att i in
      let '(att, off) :=
        if usecache && negb (attcacheoff a =? -1) then (att, attcacheoff a)
        else let off := i32 (att_align off (attalign a)) in
             (if usecache then set_cache att i off else att, off) in
      let off := i32 (att_addlength off (attlen a) (at_off tp off)) in
      careful_walk n nonulls bp tp att (i + 1) off
        (if usecache && (attlen a =? -1) && negb (VARLENA_FIXED_SIZE a) then false else usecache)
  end.

(** The datum and the descriptor with the offsets it caches. *)
Definition nocachegetattr (t : HeapTuple) (attnum : Z) (att : list Form_pg_attribute) :
    Datum * list Form_pg_attribute :=
  let attnum := attnum - 1 in
  let tp := t_area t in
  let fetch att off := (HeapFetchAtt (att_ att attnum) (at_off tp off), att) in
  let slow := negb (HeapTupleNoNulls t) && nulls_before (t_bits t) attnum in
  if negb slow && negb (attcacheoff (att_ att attnum) =? -1) then fetch att (attcacheoff (att_ att attnum))
  else if negb slow && (attnum =? 0) then fetch att 0
  else
    let slow := slow || (negb (HeapTupleAllFixed t)
                         && existsb varies (take (Z.to_nat (attnum + 1)) att)) in
    if negb slow then
      let att := set_cache att 0 0 in
      let j := skip_cached (length att) att 1 in
      let p := att_ att (j - 1) in
      let off := if negb (VARLENA_FIXED_SIZE p) then attcacheoff p + attlen p else attcacheoff p + atttypmod p in
      let att := cache_fill (Z.to_nat (attnum + 1 - j)) tp att j off in
      fetch att (attcacheoff (att_ att attnum))
    else
      let '(att, off) := careful_walk (Z.to_nat attnum) (HeapTupleNoNulls t) (t_bits t) tp att 0 0 true in
      fetch att (i32 (att_align off (attalign (att_ att attnum)))).

Definition SelfItemPointerAttributeNumber : Z := -1.
Definition ObjectIdAttributeNumber : Z := -2.
Definition MinTransactionIdAttributeNumber : Z := -3.
Definition MinCommandIdAttributeNumber : Z := -4.
Definition MaxTransactionIdAttributeNumber : Z := -5.
Definition MaxCommandIdAttributeNumber : Z := -6.
Definition MoveTransactionIdAttributeNumber : Z := -7.
Definition FirstLowInvalidHeapAttributeNumber : Z := -8.

(** The system attributes; a transaction id is returned by reference.  The
    number -8 gets here too, and indexes [heap_sysoffset] out of its bounds. *)
Definition getsysattr (t : HeapTuple) (attnum : Z) : result Datum :=
  let h := t_data t in
  let moved := t_infomask h .& HEAP_MOVED_IN in
  if attnum =? SelfItemPointerAttributeNumber then Ok (Ptr (le_bytes 8 (t_self t)))
  else if attnum =? MinTransactionIdAttributeNumber then
    Ok (Ptr (le_bytes 8 (if moved then t_vtran h else t_xmin h)))
  else if attnum =? MaxTransactionIdAttributeNumber then Ok (Ptr (le_bytes 8 (t_xmax h)))
  else if attnum =? MoveTransactionIdAttributeNumber then
    Ok (Ptr (le_bytes 8 (if moved then t_xmin h else 0)))
  else if attnum =? MinCommandIdAttributeNumber then Ok (Val (if moved then 0 else t_cmin h))
  else if attnum =? MaxCommandIdAttributeNumber then Ok (Val (if moved then 0 else t_cmax h))
  else if attnum =? ObjectIdAttributeNumber then Ok (Val (t_oid t))
  else Err "undefined: heap_sysoffset[7]".

(** [None] is [*isnull = true]. *)
Definition HeapGetAttr (t : HeapTuple) (attnum : Z) (att : list Form_pg_attribute) :
    result (option Datum) * list Form_pg_attribute :=
  if (attnum <? FirstLowInvalidHeapAttributeNumber) || (attnum =? 0) then (Ok None, att)
  else if t_natts t <? attnum then (Ok None, att)
  else if 0 <? attnum then
    let a := att_ att (attnum - 1) in
    let nocache := let '(d, att) := nocachegetattr t attnum att in (Ok (Some d), att) in
    if HeapTupleNoNulls t then
      if negb (attcacheoff a =? -1) || (attnum =? 1)
      then (Ok (Some (HeapFetchAtt a (at_off (t_area t) (if negb (attnum =? 1) then attcacheoff a else 0)))), att)
      else nocache
    else if att_isnull (attnum - 1) (t_bits t) then (Ok None, att) else nocache
  else (Some <$> getsysattr t attnum, att).

Definition heap_attisnull (t : HeapTuple) (attnum : Z) : result bool :=
  if t_natts t <? attnum then Ok true
  else if HeapTupleNoNulls t then Ok false
  else if 0 <? attnum then Ok (att_isnull (attnum - 1) (t_bits t))
  else if (attnum =? 0) || (attnum <? MoveTransactionIdAttributeNumber) then Err "heap_attisnull"
  else Ok ((attnum =? MoveTransactionIdAttributeNumber) && negb (t_infomask (t_data t) .& HEAP_MOVED_IN)).


(** [heap_modifytuple]: the values kept (' ') come from the tuple, the others
    ('r') from the replacement; [n] attributes are left. *)
Fixpoint modify_loop (t : HeapTuple) (n : nat) (attoff : Z) (att : list Form_pg_attribute)
    (replValue : list Datum) (replNull repl : list ascii) :
    result (list Datum * list ascii * list Form_pg_attribute) :=
  match n, replValue, replNull, repl with
  | S n, rv :: replValue, rn :: replNull, r :: repl =>
    x ← (if decide (r = " "%char) then
           let '(g, att) := HeapGetAttr t (attoff + 1) att in
           match g with
           | Ok (Some d) => Ok (d, " "%char, att)
           | Ok None => Ok (Val 0, null_char, att)
           | Err e => Err e
           end
         else if negb (bool_decide (r = "r"%char)) then Err "heap_modifytuple: repl"
         else Ok (rv, rn, att));
    let '(d, nl, att) := x in
    y ← modify_loop t n (attoff + 1) att replValue replNull repl;
    let '(ds, nls, att) := y in
    Ok (d :: ds, nl :: nls, att)
  | _, _, _, _ => Ok ([], [], att)
  end.

(** The header is copied but for its length, mask and bitmap. *)
Definition heap_modifytuple (addr : Z) (t : HeapTuple) (att : list Form_pg_attribute)
    (replValue : list Datum) (replNull repl : list ascii) : result (HeapTuple * list Form_pg_attribute) :=
  x ← modify_loop t (length att) 0 att replValue replNull repl;
  let '(value, nulls, att) := x in
  t' ← heap_formtuple addr att value nulls;
  let h := t_data t in
  Ok (mkHeapTuple (t_len t') (t_self t) (t_info t') (t_oid t)
        (mkTuple (progress h) (t_xmin h) (t_xmax h) (t_ctid h) (t_infomask (t_data t')))
        (Zlen att) (t_hoff t') (t_bits t') (t_area t'), att).

(** ** Alignment *)

Lemma TYPEALIGN_eq k len : 0 <= k <= 3 -> 0 <= len < 2 ^ 63 ->
  TYPEALIGN (2 ^ k) len = 2 ^ k * ((len + (2 ^ k - 1)) / 2 ^ k).
Proof.
  intros Hk Hlen. assert (1 <= 2 ^ k <= 2 ^ 3).
  { split; [apply (Z.pow_le_mono_r 2 0 k)|apply (Z.pow_le_mono_r 2 k 3)]; lia. }
  unfold TYPEALIGN. rewrite u64_id by lia. rewrite <- Z.ldiff_land.
  replace (2 ^ k - 1) with (Z.ones k) by (rewrite Z.ones_equiv; lia).
  rewrite Z.ldiff_ones_r, Z.shiftl_mul_pow2, Z.shiftr_div_pow2 by lia. lia.
Qed.

(** The alignment of a descriptor, as a power of two. *)
Definition align_exp (c : ascii) : Z :=
  if decide (c = "i"%char) then 2 else if decide (c = "l"%char) then 3
  else if decide (c = "c"%char) then 0 else if decide (c = "d"%char) then 3 else 1.

Lemma align_exp_range c : 0 <= align_exp c <= 3.
Proof. unfold align_exp. repeat case_decide; lia. Qed.

Lemma att_align_eq cur c : 0 <= cur < 2 ^ 63 ->
  att_align cur c = 2 ^ align_exp c * ((cur + (2 ^ align_exp c - 1)) / 2 ^ align_exp c).
Proof.
  intros Hc. unfold att_align, align_exp. repeat case_decide.
  - apply (TYPEALIGN_eq 2); lia.
  - apply (TYPEALIGN_eq 3); lia.
  - change (2 ^ 0) with 1. rewrite Z.div_1_r. lia.
  - apply (TYPEALIGN_eq 3); lia.
  - apply (TYPEALIGN_eq 1); lia.
Qed.

Lemma att_align_range cur c : 0 <= cur < 2 ^ 63 -> cur <= att_align cur c <= cur + 7.
Proof.
  intros Hc. rewrite att_align_eq by done. pose proof (align_exp_range c).
  assert (1 <= 2 ^ align_exp c <= 8).
  { split; [apply (Z.pow_le_mono_r 2 0)|apply (Z.pow_le_mono_r 2 _ 3)]; lia. }
  set (k := 2 ^ align_exp c) in *.
  pose proof (Z.div_mod (cur + (k - 1)) k ltac:(lia)). pose proof (Z.mod_pos_bound (cur + (k - 1)) k ltac:(lia)).
  lia.
Qed.

Lemma att_align_0 c : att_align 0 c = 0.
Proof. unfold att_align. by repeat case_decide. Qed.

(** Aligning an address in an aligned area is aligning the offset. *)
Lemma att_align_base base cur c : base mod 8 = 0 -> 0 <= base -> 0 <= cur -> base + cur < 2 ^ 63 ->
  att_align (base + cur) c = base + att_align cur c.
Proof.
  intros Hb H0 H1 H2. rewrite !att_align_eq by lia. pose proof (align_exp_range c).
  apply Z.mod_divide in Hb as [q ->]; [|lia].
  assert (8 = 2 ^ align_exp c * 2 ^ (3 - align_exp c)) as E
    by (rewrite <- Z.pow_add_r by lia; by replace (align_exp c + (3 - align_exp c)) with 3 by lia).
  set (k := 2 ^ align_exp c) in *. set (m := 2 ^ (3 - align_exp c)) in *.
  assert (0 < k) by (subst k; apply Z.pow_pos_nonneg; lia).
  replace (q * 8 + cur + (k - 1)) with (cur + (k - 1) + q * m * k) by (rewrite E; lia).
  rewrite Z.div_add by lia. rewrite E. lia.
Qed.

(** ** Well-formed columns *)

Definition by_value (a : Form_pg_attribute) : bool := attbyval a && negb (attlen a =? -1).

Record att_ok (a : Form_pg_attribute) : Prop := {
  ao_len : attlen a = -1 \/ 1 <= attlen a < 2 ^ 15;
  ao_byval : by_value a = true -> attlen a ∈ [1; 2; 4; 8];
  ao_bpchar : atttypid a = BPCHAROID -> attlen a = -1 }.

(** The length of a stored value. *)
Definition col_len (a : Form_pg_attribute) (v : Datum) : Z :=
  if attlen a =? -1 then VARSIZE (DatumGetPointer v) else attlen a.

(** A value that suits its attribute; a [char(n)] is padded to its length. *)
Definition datum_ok (a : Form_pg_attribute) (v : Datum) : Prop :=
  if by_value a then exists z, v = Val z
  else exists p, v = Ptr p /\ col_len a v <= Zlen p /\
    (attlen a = -1 -> VARHDRSZ <= VARSIZE p /\ (VARLENA_FIXED_SIZE a = true -> VARSIZE p = atttypmod a)).

Definition col_ok (c : column) : Prop := att_ok c.1.1 /\ (c.2 <> null_char -> datum_ok c.1.1 c.1.2).

Lemma col_len_range a v : att_ok a -> datum_ok a v -> 1 <= col_len a v < 2 ^ 30.
Proof.
  intros Ha Hv. unfold col_len, datum_ok, by_value in *.
  destruct (Z.eqb_spec (attlen a) (-1)) as [E|]; [|destruct (ao_len _ Ha); lia].
  rewrite andb_false_r in Hv. destruct Hv as (p & -> & _ & H). simpl.
  destruct (H E). pose proof (varsize_range p). unfold VARHDRSZ in *. lia.
Qed.

Lemma fill_bytes_length a v : att_ok a -> datum_ok a v -> Zlen (fill_bytes a v) = col_len a v.
Proof.
  intros Ha Hv. unfold fill_bytes, datum_ok, by_value, col_len in *.
  destruct (ao_len _ Ha) as [E|E].
  - rewrite E, andb_false_r in Hv. rewrite E. simpl in *. destruct Hv as (p & -> & Hl & _).
    simpl in *. pose proof (varsize_nonneg p). rewrite length_take. lia.
  - pose proof (ao_byval _ Ha) as Hb. unfold by_value in Hb.
    destruct (Z.eqb_spec (attlen a) (-1)); [lia|]. cbn [negb] in *. rewrite andb_true_r in *.
    destruct (attbyval a).
    + specialize (Hb eq_refl). rewrite !elem_of_cons, elem_of_nil in Hb.
      destruct Hb as [-> | [-> | [-> | [-> | []]]]]; simpl; done.
    + destruct Hv as (p & -> & Hl & _). cbn [DatumGetPointer] in *. cbv zeta.
      repeat case_match; bool_cases; rewrite length_take; lia.
Qed.

Lemma att_addlength_col cur a v : att_addlength cur (attlen a) (DatumGetPointer v) = cur + col_len a v.
Proof. unfold att_addlength, col_len. by destruct (attlen a =? -1). Qed.

(** ** Where the values go *)

(** The offset of each column that is not null, and the end. *)
Fixpoint layout (off : Z) (cols : list column) : list (option Z) :=
  match cols with
  | [] => []
  | (a, v, n) :: cols =>
    if decide (n = null_char) then None :: layout off cols
    else Some (att_align off (attalign a)) :: layout (att_align off (attalign a) + col_len a v) cols
  end.

Fixpoint layout_end (off : Z) (cols : list column) : Z :=
  match cols with
  | [] => off
  | (a, v, n) :: cols =>
    if decide (n = null_char) then layout_end off cols
    else layout_end (att_align off (attalign a) + col_len a v) cols
  end.

Lemma layout_end_app off cs ds : layout_end off (cs ++ ds) = layout_end (layout_end off cs) ds.
Proof. revert off. induction cs as [|[[a v] n] cs IH]; intros off; simpl; [done|]. case_decide; auto. Qed.

Lemma layout_lookup off cols i a v n : cols !! i = Some (a, v, n) -> n <> null_char ->
  layout off cols !! i = Some (Some (att_align (layout_end off (take i cols)) (attalign a))).
Proof.
  revert off i. induction cols as [|[[a' v'] n'] cols IH]; intros off [|i] Hi Hn; simpl in *; try done.
  - injection Hi as -> -> ->. by rewrite decide_False.
  - case_decide; simpl; by apply IH.
Qed.

(** Ends only grow. *)
Definition room (off : Z) (cols : list column) : Prop := 0 <= off /\ off + 2 ^ 31 * Zlen cols < 2 ^ 62.

Lemma room_step off a v n cols : room off ((a, v, n) :: cols) -> col_ok (a, v, n) -> n <> null_char ->
  room (att_align off (attalign a) + col_len a v) cols /\
  off <= att_align off (attalign a) /\ 1 <= col_len a v < 2 ^ 30.
Proof.
  intros [H0 H1] [Ha Hv] Hn. specialize (Hv Hn). simpl in *.
  pose proof (col_len_range a v Ha Hv). pose proof (att_align_range off (attalign a)). unfold room. lia.
Qed.

Lemma room_skip off c cols : room off (c :: cols) -> room off cols.
Proof. unfold room. simpl. lia. Qed.

Lemma layout_end_mono off cols : Forall col_ok cols -> room off cols ->
  off <= layout_end off cols /\ layout_end off cols <= off + 2 ^ 31 * Zlen cols.
Proof.
  intros Hc. revert off. induction Hc as [|[[a v] n] cols Hc _ IH]; intros off Hr; simpl; [lia|].
  case_decide as Hn.
  - destruct (IH off (room_skip _ _ _ Hr)). lia.
  - destruct (room_step off a v n cols Hr Hc Hn) as (Hr' & ? & ?).
    destruct (IH _ Hr'). pose proof (att_align_range off (attalign a)). destruct Hr. lia.
Qed.

Lemma room_take off cols i : Forall col_ok cols -> room off cols ->
  off <= layout_end off (take i cols) /\ layout_end off (take i cols) <= layout_end off cols /\
  room (layout_end off (take i cols)) (drop i cols).
Proof.
  intros Hc Hr. assert (Hr' : room off (take i cols)).
  { pose proof (length_take cols i). unfold room in *. lia. }
  pose proof (layout_end_mono off (take i cols) (Forall_take _ _ _ Hc) Hr') as [? ?].
  assert (room (layout_end off (take i cols)) (drop i cols)) as Hd.
  { pose proof (length_take cols i). pose proof (length_drop cols i). unfold room in *. lia. }
  pose proof (layout_end_mono _ (drop i cols) (Forall_drop _ _ _ Hc) Hd) as [E _].
  rewrite <- layout_end_app, take_drop in E. done.
Qed.

Lemma ComputeDataSize_layout_aux cols off : Forall col_ok cols -> room off cols ->
  layout_end off cols < 2 ^ 31 -> ComputeDataSize_loop cols off = layout_end off cols.
Proof.
  intros Hc. revert off. induction Hc as [|[[a v] n] cols Hc Hcs IH]; intros off Hr He; simpl in *; [done|].
  case_decide as Hn; [apply IH; [by eapply room_skip|done]|].
  destruct (room_step off a v n cols Hr Hc Hn) as (Hr' & ? & ?).
  pose proof (layout_end_mono _ cols Hcs Hr') as [? _]. destruct Hr.
  rewrite (i32_id (att_align off (attalign a))) by lia.
  rewrite att_addlength_col, i32_id by lia. by apply IH.
Qed.

Lemma ComputeDataSize_layout cols : Forall col_ok cols -> room 0 cols -> layout_end 0 cols < 2 ^ 31 ->
  ComputeDataSize cols = layout_end 0 cols.
Proof. by apply ComputeDataSize_layout_aux. Qed.

(** ** What [DataFill] writes *)

Definition nul (n : ascii) : bool := bool_decide (n = null_char).

Lemma splice_length mem i bs : 0 <= i -> i + Zlen bs <= Zlen mem -> length (splice mem i bs) = length mem.
Proof. intros. unfold splice. rewrite !length_app, length_take, length_drop. lia. Qed.

Lemma splice_take mem i bs j : (j <= Z.to_nat i)%nat -> (Z.to_nat i <= length mem)%nat ->
  take j (splice mem i bs) = take j mem.
Proof.
  intros. unfold splice. rewrite take_app_le by (rewrite length_take; lia).
  rewrite take_take. by rewrite Nat.min_l by lia.
Qed.

Lemma splice_at mem i bs : (Z.to_nat i <= length mem)%nat ->
  take (length bs) (at_off (splice mem i bs) i) = bs.
Proof.
  intros. unfold splice, at_off. rewrite drop_app_length' by (rewrite length_take; lia).
  by rewrite take_app_length.
Qed.

(** The loop advances the pointer along the layout, keeps what it has written
    and stores each value at its offset. *)
Lemma DataFill_loop_mem base bit cols s off : base mod 8 = 0 -> 0 <= base < 2 ^ 62 ->
  Forall col_ok cols -> (bit = false -> Forall (fun c => nul c.2 = false) cols) ->
  room off cols -> f_data s = base + off -> layout_end off cols <= Zlen (f_mem s) ->
  let s' := DataFill_loop base bit cols s in
  length (f_mem s') = length (f_mem s) /\
  take (Z.to_nat off) (f_mem s') = take (Z.to_nat off) (f_mem s) /\
  forall i a v n o, cols !! i = Some (a, v, n) -> layout off cols !! i = Some (Some o) ->
    take (Z.to_nat (col_len a v)) (at_off (f_mem s') o) = fill_bytes a v.
Proof.
  intros Hb Hb0 Hc Hbit. revert s off. induction Hc as [|[[a v] n] cols Hc Hcs IH]; intros s off Hr Hd He.
  { simpl. split_and!; done. }
  simpl in Hbit. assert (forall s1, f_data s1 = base + off -> f_mem s1 = f_mem s -> n <> null_char ->
    let s' := DataFill_loop base bit cols (fill_data base a v s1) in
    length (f_mem s') = length (f_mem s) /\
    take (Z.to_nat off) (f_mem s') = take (Z.to_nat off) (f_mem s) /\
    forall i a' v' n' o, ((a, v, n) :: cols) !! i = Some (a', v', n') ->
      layout off ((a, v, n) :: cols) !! i = Some (Some o) ->
      take (Z.to_nat (col_len a' v')) (at_off (f_mem s') o) = fill_bytes a' v') as Hstep.
  { intros s1 Hd1 Hm1 Hn. destruct (room_step off a v n cols Hr Hc Hn) as (Hr' & Hal & Hl).
    cbn [layout layout_end] in He |- *. destruct (decide (n = null_char)); [done|].
    pose proof (layout_end_mono _ cols Hcs Hr') as [Hmono _]. set (o := att_align off (attalign a)) in *.
    destruct Hc as [Ha Hv]. specialize (Hv Hn). simpl in Ha, Hv. destruct Hr as [Hr0 Hr1].
    assert (att_align (base + off) (attalign a) = base + o) as Eal
      by (apply att_align_base; [done|lia|lia|]; simpl in Hr1; lia).
    pose proof (fill_bytes_length a v Ha Hv) as Hfb.
    destruct (IH ltac:(intros E; by apply Forall_cons in Hbit as [_ ?]) (fill_data base a v s1) (o + col_len a v) Hr') as (L & T & P).
    - simpl. rewrite Hd1, Eal, att_addlength_col. lia.
    - simpl. rewrite Hd1, Eal, Hm1, splice_length; [lia|lia|]. lia.
    - simpl in L, T. rewrite Hd1, Eal, Hm1 in L, T. replace (base + o - base) with o in L, T by lia.
      rewrite splice_length in L by lia.
      set (m := f_mem (DataFill_loop base bit cols (fill_data base a v s1))) in *.
      split_and!; [done| |].
      + assert (take (Z.to_nat off) m = take (Z.to_nat off) (take (Z.to_nat (o + col_len a v)) m)) as ->
          by (rewrite take_take; f_equal; lia).
        rewrite T, take_take, Nat.min_l by lia. apply splice_take; lia.
      + intros [|i] a' v' n' o' Hi Ho; simpl in Hi, Ho.
        * injection Hi as <- <- <-. injection Ho as <-. unfold at_off.
          assert (take (Z.to_nat (col_len a v)) (drop (Z.to_nat o) m)
            = drop (Z.to_nat o) (take (Z.to_nat (o + col_len a v)) m)) as ->
            by (rewrite take_drop_commute; do 2 f_equal; lia).
          rewrite T. rewrite <- (splice_at (f_mem s) o (fill_bytes a v)) at 2 by lia. unfold at_off.
          rewrite take_drop_commute. do 2 f_equal. lia.
        * by apply (P i a' v' n' o'). }
  cbn [DataFill_loop]. destruct bit.
  - case_decide as Hn.
    + cbn [layout layout_end] in He |- *. destruct (decide (n = null_char)); [|done].
      destruct (IH ltac:(done) (mark_null (fill_bit s)) off (room_skip _ _ _ Hr)) as (L & T & P).
      * unfold fill_bit. by destruct (negb _).
      * unfold fill_bit. by destruct (negb _).
      * assert (f_mem (mark_null (fill_bit s)) = f_mem s) as E by (unfold fill_bit; by destruct (negb _)).
        rewrite E in L, T. split_and!; [done|done|]. intros [|i] a' v' n' o' Hi Ho; [done|]. by apply (P i a' v' n' o').
    + apply Hstep; [unfold fill_bit; by destruct (negb _)..|done].
  - apply Hstep; [done..|]. specialize (Hbit eq_refl). apply Forall_cons in Hbit as [Hbit _].
    by apply bool_decide_eq_false in Hbit.
Qed.


(** ** The null bitmap and the mask *)

Definition bitof (bits : list Z) (j : Z) : bool := Z.testbit (aget 0 bits (j / 8)) (j mod 8).

Lemma att_isnull_bitof j bits : 0 <= j -> att_isnull j bits = negb (bitof bits j).
Proof.
  intros Hj. unfold att_isnull, bitof. f_equal.
  change 0x07 with (Z.ones 3). rewrite Z.land_ones, Z.shiftr_div_pow2, Z.shiftl_1_l by lia.
  change (2 ^ 3) with 8. apply flag_pow2. pose proof (Z.mod_pos_bound j 8). lia.
Qed.

Lemma bitof_aset bits i j x : 0 <= i < Zlen bits ->
  bitof (aset bits i x) j = if j / 8 =? i then Z.testbit x (j mod 8) else bitof bits j.
Proof. intros Hi. unfold bitof. rewrite aget_aset by done. by destruct (j / 8 =? i). Qed.

(** Before column [k]: the bitmap pointer and mask are at bit [k - 1], and the
    rest of that byte is clear. *)
Record bit_at (s : fill) (k : Z) : Prop := {
  ba_P : f_bitP s = (k - 1) / 8;
  ba_mask : f_bitmask s = 2 ^ ((k - 1) mod 8);
  ba_clear j : k <= j -> j / 8 = (k - 1) / 8 -> bitof (f_bits s) j = false }.

Lemma fill_bit_spec s k : 0 <= k -> bit_at s k -> k / 8 < Zlen (f_bits s) ->
  let s' := fill_bit s in
  f_bitP s' = k / 8 /\ f_bitmask s' = 2 ^ (k mod 8) /\ length (f_bits s') = length (f_bits s) /\
  (forall j, 0 <= j < k -> bitof (f_bits s') j = bitof (f_bits s) j) /\
  (forall j, k <= j -> j / 8 = k / 8 -> bitof (f_bits s') j = false).
Proof.
  intros Hk [HP Hm Hcl] Hlen. pose proof (Z.mod_pos_bound (k - 1) 8 ltac:(lia)) as Hr.
  pose proof (Z.div_mod (k - 1) 8 ltac:(lia)) as Hdm. pose proof (Z.div_pos k 8 Hk ltac:(lia)).
  unfold fill_bit. rewrite Hm. unfold CSIGNBIT. change 0x80 with (2 ^ 7).
  destruct (Z.eqb_spec (2 ^ ((k - 1) mod 8)) (2 ^ 7)) as [E|E].
  - apply Z.pow_inj_r in E; [|lia..]. simpl.
    assert (k / 8 = (k - 1) / 8 + 1) as Ek by (symmetry; apply (Z.div_unique k 8 _ 0); lia).
    assert (k mod 8 = 0) as Er by (symmetry; apply (Z.mod_unique k 8 (k / 8)); lia).
    rewrite HP, <- Ek, Er, aset_length. split_and!; try done.
    + intros j Hj. rewrite bitof_aset by lia. destruct (Z.eqb_spec (j / 8) (k / 8)) as [Ej|]; [|done].
      pose proof (Z.div_mod j 8 ltac:(lia)). pose proof (Z.mod_pos_bound j 8 ltac:(lia)). lia.
    + intros j Hj Ej. rewrite bitof_aset, Ej, Z.eqb_refl by lia. apply Z.bits_0.
  - simpl. assert ((k - 1) mod 8 <> 7) by congruence.
    assert (k / 8 = (k - 1) / 8) as Ek by (symmetry; apply (Z.div_unique k 8 _ ((k - 1) mod 8 + 1)); lia).
    assert (k mod 8 = (k - 1) mod 8 + 1) as Er by (symmetry; apply (Z.mod_unique k 8 ((k - 1) / 8)); lia).
    rewrite HP, Ek, Er, Z.shiftl_mul_pow2, Z.pow_add_r by lia. by split_and!.
Qed.

Lemma fill_bit_null s k : 0 <= k -> bit_at s k -> k / 8 < Zlen (f_bits s) ->
  let s' := mark_null (fill_bit s) in
  bit_at s' (k + 1) /\ length (f_bits s') = length (f_bits s) /\
  (forall j, 0 <= j < k -> bitof (f_bits s') j = bitof (f_bits s) j) /\ bitof (f_bits s') k = false.
Proof.
  intros Hk Hs Hl. destruct (fill_bit_spec s k Hk Hs Hl) as (HP & Hm & L & B & C). simpl.
  split_and!; [|done|done|by apply C]. split; simpl; replace (k + 1 - 1) with k by lia; try done.
  intros j Hj Ej. apply C; [lia|done].
Qed.

Lemma fill_bit_present base a v s k : 0 <= k -> bit_at s k -> k / 8 < Zlen (f_bits s) ->
  let s' := fill_data base a v (mark_present (fill_bit s)) in
  bit_at s' (k + 1) /\ length (f_bits s') = length (f_bits s) /\
  (forall j, 0 <= j < k -> bitof (f_bits s') j = bitof (f_bits s) j) /\ bitof (f_bits s') k = true.
Proof.
  intros Hk Hs Hl. destruct (fill_bit_spec s k Hk Hs Hl) as (HP & Hm & L & B & C). simpl.
  set (s1 := fill_bit s) in *. pose proof (Z.div_pos k 8 Hk ltac:(lia)).
  assert (forall j, 0 <= j -> bitof (aset (f_bits s1) (f_bitP s1)
      (Z.lor (aget 0 (f_bits s1) (f_bitP s1)) (f_bitmask s1))) j
    = if j =? k then true else bitof (f_bits s1) j) as Hset.
  { intros j Hj. rewrite HP, Hm, bitof_aset by lia. destruct (Z.eqb_spec (j / 8) (k / 8)) as [Ej|Ej].
    - rewrite Z.lor_spec, Z.pow2_bits_eqb by (pose proof (Z.mod_pos_bound k 8); lia). rewrite <- Ej.
      fold (bitof (f_bits s1) j). pose proof (Z.div_mod j 8 ltac:(lia)). pose proof (Z.div_mod k 8 ltac:(lia)).
      destruct (Z.eqb_spec (k mod 8) (j mod 8)), (Z.eqb_spec j k); try lia; by rewrite ?orb_true_r, ?orb_false_r.
    - destruct (Z.eqb_spec j k) as [->|]; [done|done]. }
  split_and!.
  - split; simpl; replace (k + 1 - 1) with k by lia; try done. intros j Hj Ej.
    rewrite Hset by lia. destruct (Z.eqb_spec j k); [lia|]. apply C; [lia|done].
  - by rewrite aset_length.
  - intros j Hj. rewrite Hset by lia. destruct (Z.eqb_spec j k); [lia|]. by apply B.
  - by rewrite Hset, Z.eqb_refl by lia.
Qed.

Lemma DataFill_loop_bits base cols s k : 0 <= k -> bit_at s k ->
  k + Zlen cols <= 8 * Zlen (f_bits s) ->
  let s' := DataFill_loop base true cols s in
  length (f_bits s') = length (f_bits s) /\
  (forall j, 0 <= j < k -> bitof (f_bits s') j = bitof (f_bits s) j) /\
  (forall i a v n, cols !! i = Some (a, v, n) -> bitof (f_bits s') (k + Z.of_nat i) = negb (nul n)).
Proof.
  revert s k. induction cols as [|[[a v] n] cols IH]; intros s k Hk Hs Hl; [done|].
  assert (k / 8 < Zlen (f_bits s)) as Hk8 by (apply Z.div_lt_upper_bound; simpl in Hl; lia).
  assert (forall s1, bit_at s1 (k + 1) /\ length (f_bits s1) = length (f_bits s) /\
    (forall j, 0 <= j < k -> bitof (f_bits s1) j = bitof (f_bits s) j) /\ bitof (f_bits s1) k = negb (nul n) ->
    let s' := DataFill_loop base true cols s1 in
    length (f_bits s') = length (f_bits s) /\
    (forall j, 0 <= j < k -> bitof (f_bits s') j = bitof (f_bits s) j) /\
    (forall i a' v' n', ((a, v, n) :: cols) !! i = Some (a', v', n') ->
       bitof (f_bits s') (k + Z.of_nat i) = negb (nul n'))) as Hstep.
  { intros s1 (H1 & H2 & H3 & H4). destruct (IH s1 (k + 1)) as (L & B & N); [lia|done|simpl in Hl; lia|].
    simpl. split_and!; [by rewrite L|intros j Hj; rewrite B by lia; by apply H3|].
    intros [|i] a' v' n' Hi; simpl in Hi.
    - injection Hi as <- <- <-. rewrite Z.add_0_r, B by lia. done.
    - replace (k + Z.of_nat (S i)) with (k + 1 + Z.of_nat i) by lia. by apply (N i a' v'). }
  cbn [DataFill_loop]. case_decide as Hn; apply Hstep.
  - destruct (fill_bit_null s k Hk Hs Hk8) as (? & ? & ? & ->). split_and!; try done.
    unfold nul. by rewrite bool_decide_true.
  - destruct (fill_bit_present base a v s k Hk Hs Hk8) as (? & ? & ? & ->). split_and!; try done.
    unfold nul. by rewrite bool_decide_false.
Qed.

Definition var_col (c : column) : bool := negb (is_null c) && (attlen c.1.1 =? -1).

Lemma DataFill_loop_mask base bit cols s : (bit = false -> Forall (fun c => nul c.2 = false) cols) ->
  let m := f_infomask (DataFill_loop base bit cols s) in
  flag m HEAP_HASNULL = flag (f_infomask s) HEAP_HASNULL || existsb is_null cols /\
  flag m HEAP_HASVARLENA = flag (f_infomask s) HEAP_HASVARLENA || existsb var_col cols.
Proof.
  revert s. induction cols as [|[[a v] n] cols IH]; intros s Hb; [by simpl; rewrite !orb_false_r|].
  assert (forall s, f_infomask (fill_bit s) = f_infomask s) as Hfb by (intros t; unfold fill_bit; by destruct (negb _)).
  cbn [DataFill_loop existsb]. unfold is_null at 1, var_col at 1, is_null at 2. simpl fst. simpl snd.
  assert (forall m, flag (if attlen a =? -1 then Z.lor m HEAP_HASVARLENA else m) HEAP_HASNULL = flag m HEAP_HASNULL /\
    flag (if attlen a =? -1 then Z.lor m HEAP_HASVARLENA else m) HEAP_HASVARLENA
      = flag m HEAP_HASVARLENA || (attlen a =? -1)) as Hd.
  { intros m. destruct (attlen a =? -1); rewrite ?flag_lor; simpl; by rewrite ?orb_false_r, ?orb_true_r. }
  destruct bit.
  - case_decide as Hn.
    + rewrite bool_decide_true by done. cbn [negb andb orb].
      destruct (IH (mark_null (fill_bit s)) ltac:(done)) as [-> ->]. simpl. rewrite Hfb, !flag_lor.
      simpl. by rewrite ?orb_false_r, ?orb_true_r.
    + rewrite bool_decide_false by done. cbn [negb andb orb].
      destruct (IH (fill_data base a v (mark_present (fill_bit s))) ltac:(done)) as [-> ->]. simpl f_infomask.
      rewrite Hfb. destruct (Hd (f_infomask s)) as [-> ->]. by rewrite orb_assoc.
  - specialize (Hb eq_refl). apply Forall_cons in Hb as [Hn Hb]. unfold nul in Hn. simpl in Hn. rewrite Hn.
    cbn [negb andb orb].
    destruct (IH (fill_data base a v s) ltac:(done)) as [-> ->]. simpl f_infomask.
    destruct (Hd (f_infomask s)) as [-> ->]. by rewrite orb_assoc.
Qed.


(** ** Cached offsets *)

(** A descriptor without its cache, and the sequence of all of a relation. *)
Definition strip (a : Form_pg_attribute) : Form_pg_attribute := set_attcacheoff a (-1).

Definition fixlen (a : Form_pg_attribute) : Z := if VARLENA_FIXED_SIZE a then atttypmod a else attlen a.
Fixpoint fixed_end (off : Z) (atts : list Form_pg_attribute) : Z :=
  match atts with
  | [] => off
  | a :: atts => fixed_end (att_align off (attalign a) + fixlen a) atts
  end.
Lemma fixed_end_snoc off l a : fixed_end off (l ++ [a]) = att_align (fixed_end off l) (attalign a) + fixlen a.
Proof. revert off. induction l; simpl; auto. Qed.
Notation fixed a := (varies a = false).

(** A cached offset is the one that the attribute has behind attributes of
    fixed length without nulls. *)
Definition cache_ok (att : list Form_pg_attribute) : Prop :=
  forall i a, att !! i = Some a -> attcacheoff a = -1 \/
    (Forall (fun b => fixed b) (take i (strip <$> att)) /\
     attcacheoff a = att_align (fixed_end 0 (take i (strip <$> att))) (attalign a)).

Lemma strip_set a o : strip (set_attcacheoff a o) = strip a.
Proof. done. Qed.

Lemma att_lookup att i : (i < length att)%nat -> att !! i = Some (att_ att (Z.of_nat i)).
Proof.
  intros Hi. unfold att_, aget. destruct (Z.ltb_spec (Z.of_nat i) 0); [lia|].
  rewrite Nat2Z.id. destruct (att !! i) eqn:E; [done|]. apply lookup_ge_None in E. lia.
Qed.

Lemma set_cache_insert att i o : (i < length att)%nat ->
  set_cache att (Z.of_nat i) o = <[i := set_attcacheoff (att_ att (Z.of_nat i)) o]> att.
Proof. intros. unfold set_cache, aset. destruct (Z.ltb_spec (Z.of_nat i) 0); [lia|]. by rewrite Nat2Z.id. Qed.

Lemma strip_set_cache att i o : (i < length att)%nat -> strip <$> set_cache att (Z.of_nat i) o = strip <$> att.
Proof.
  intros Hi. rewrite set_cache_insert by done. rewrite list_fmap_insert, strip_set.
  apply list_insert_id. by rewrite list_lookup_fmap, att_lookup.
Qed.

Lemma cache_ok_set att i o : cache_ok att -> (i < length att)%nat ->
  Forall (fun b => fixed b) (take i (strip <$> att)) ->
  o = att_align (fixed_end 0 (take i (strip <$> att))) (attalign (att_ att (Z.of_nat i))) ->
  cache_ok (set_cache att (Z.of_nat i) o).
Proof.
  intros Hc Hi Hf Ho j a. rewrite strip_set_cache by done. rewrite set_cache_insert by done.
  destruct (decide (i = j)) as [->|Hne].
  - rewrite list_lookup_insert_eq by done. intros [= <-]. right. done.
  - rewrite list_lookup_insert_ne by done. apply Hc.
Qed.

(** ** A tuple that stores columns *)

Definition desc (cols : list column) : list Form_pg_attribute := (fun c => strip c.1.1) <$> cols.

Record stores (t : HeapTuple) (cols : list column) : Prop := {
  st_cols : Forall col_ok cols;
  st_room : room 0 cols;
  st_size : layout_end 0 cols < 2 ^ 31;
  st_natts : t_natts t = Zlen cols;
  st_nonulls : HeapTupleNoNulls t = negb (existsb is_null cols);
  st_allfixed : HeapTupleAllFixed t = negb (existsb var_col cols);
  st_bits : HeapTupleNoNulls t = false ->
    Zlen cols <= 8 * Zlen (t_bits t) /\ Forall (fun b => 0 <= b < 256) (t_bits t) /\
    forall i a v n, cols !! i = Some (a, v, n) -> bitof (t_bits t) (Z.of_nat i) = negb (nul n);
  st_data i a v n o : cols !! i = Some (a, v, n) -> layout 0 cols !! i = Some (Some o) ->
    take (Z.to_nat (col_len a v)) (at_off (t_area t) o) = fill_bytes a v }.

(** A fetched datum agrees with the one stored: a word of the attribute's width,
    sign-extended, or a pointer to the same object. *)
Definition fetched (a : Form_pg_attribute) (v d : Datum) : Prop :=
  if by_value a then d = Val (u64 (swrap (8 * attlen a) (DatumWord v)))
  else exists p, d = Ptr p /\
    take (Z.to_nat (col_len a v)) p = take (Z.to_nat (col_len a v)) (DatumGetPointer v).

Lemma swrap_mod w z : 0 <= w -> swrap w (z mod 2 ^ w) = swrap w z.
Proof. intros. unfold swrap. rewrite Z.mod_mod; [done|]. pose proof (Z.pow_pos_nonneg 2 w). lia. Qed.

Lemma HeapFetchAtt_ok a v data : att_ok a -> datum_ok a v ->
  take (Z.to_nat (col_len a v)) data = fill_bytes a v -> fetched a v (HeapFetchAtt a data).
Proof.
  intros Ha Hv Hd. unfold fetched, HeapFetchAtt. pose proof (ao_byval _ Ha) as Hb.
  unfold by_value in *. destruct (attbyval a && negb (attlen a =? -1)) eqn:E.
  - specialize (Hb eq_refl). rewrite !elem_of_cons, elem_of_nil in Hb.
    apply andb_true_iff in E as [E1 E2]. unfold fill_bytes, col_len in Hd. rewrite E1 in Hd.
    destruct Hb as [Hb|[Hb|[Hb|[Hb|[]]]]]; rewrite Hb in *; simpl Z.eqb in *; cbv iota zeta in *;
      change (Z.to_nat 1) with 1%nat in Hd; change (Z.to_nat 2) with 2%nat in Hd;
      change (Z.to_nat 4) with 4%nat in Hd; change (Z.to_nat 8) with 8%nat in Hd;
      rewrite Hd, le_val_bytes; do 2 f_equal; apply swrap_mod; lia.
  - eexists. split; [done|]. unfold datum_ok, by_value in Hv. rewrite E in Hv. destruct Hv as (p & -> & Hl & _).
    rewrite Hd. unfold fill_bytes, col_len in *. simpl in *. destruct (Z.eqb_spec (attlen a) (-1)); [done|].
    rewrite andb_true_r in E. rewrite E.
    repeat case_match; bool_cases; try done;
      match goal with H : attlen a = _ |- _ => by rewrite H end.
Qed.

Lemma byte_full b : 0 <= b < 256 -> b <> 255 -> exists k, 0 <= k < 8 /\ Z.testbit b k = false.
Proof.
  intros Hb Hne. destruct (decide (Exists (fun k => Z.testbit b k = false) (seqZ 0 8))) as [E|E].
  - apply Exists_exists in E as (k & Hk & E). apply elem_of_seqZ in Hk. exists k. split; [lia|done].
  - exfalso. apply Hne. change 255 with (Z.ones 8). zbits k Hk. rewrite Z.testbit_ones_nonneg by lia.
    destruct (Z.ltb_spec k 8); [|by apply (testbit_above b 8)].
    destruct (Z.testbit b k) eqn:Ek; [done|]. destruct E. apply Exists_exists. exists k.
    split; [apply elem_of_seqZ; lia|done].
Qed.

Lemma nulls_before_bits bits i : 0 <= i < 8 * Zlen bits -> Forall (fun b => 0 <= b < 256) bits ->
  nulls_before bits i = true <-> exists j, 0 <= j < i /\ bitof bits j = false.
Proof.
  intros Hi Hb. unfold nulls_before. rewrite orb_true_iff, flag_true, existsb_exists.
  change 0x07 with (Z.ones 3). rewrite Z.land_ones, Z.shiftr_div_pow2, Z.shiftl_1_l by lia. change (2 ^ 3) with 8.
  pose proof (Z.div_mod i 8 ltac:(lia)) as Ed. pose proof (Z.mod_pos_bound i 8 ltac:(lia)) as Em.
  pose proof (Z.div_pos i 8 ltac:(lia) ltac:(lia)) as Ep.
  replace (2 ^ (i mod 8) - 1) with (Z.ones (i mod 8)) by (rewrite Z.ones_equiv; lia). split.
  - intros [(k & Hk & H1 & H2)|(b & Hin & Hne)].
    + rewrite Z.lnot_spec in H1 by lia. apply Z.ones_spec_iff in H2; [|lia].
      exists (8 * (i / 8) + k). split; [lia|]. unfold bitof.
      rewrite <- (Z.div_unique (8 * (i / 8) + k) 8 (i / 8) k), <- (Z.mod_unique (8 * (i / 8) + k) 8 (i / 8) k) by lia.
      by destruct (Z.testbit _ k).
    + apply negb_true_iff, Z.eqb_neq in Hne. apply list_elem_of_In, list_elem_of_lookup in Hin as [m Hm].
      assert (m < Z.to_nat (i / 8))%nat as Hlt by (apply lookup_lt_Some in Hm; rewrite length_take in Hm; lia).
      rewrite lookup_take_lt in Hm by done. pose proof (Forall_lookup_1 _ _ _ _ Hb Hm) as Hr.
      destruct (byte_full b Hr Hne) as (k & Hk & Ek). exists (8 * Z.of_nat m + k). split; [lia|]. unfold bitof.
      rewrite <- (Z.div_unique (8 * Z.of_nat m + k) 8 (Z.of_nat m) k),
        <- (Z.mod_unique (8 * Z.of_nat m + k) 8 (Z.of_nat m) k) by lia.
      unfold aget. destruct (Z.ltb_spec (Z.of_nat m) 0); [lia|]. rewrite Nat2Z.id, Hm. done.
  - intros (j & Hj & Ej). unfold bitof in Ej.
    pose proof (Z.div_mod j 8 ltac:(lia)). pose proof (Z.mod_pos_bound j 8 ltac:(lia)).
    pose proof (Z.div_pos j 8 ltac:(lia) ltac:(lia)).
    destruct (decide (j / 8 = i / 8)) as [E|E].
    + left. exists (j mod 8). split; [lia|]. rewrite Z.lnot_spec by lia. rewrite <- E, Ej. split; [done|].
      apply Z.ones_spec_iff; lia.
    + right. assert (j / 8 < i / 8) by lia. unfold aget in Ej. destruct (Z.ltb_spec (j / 8) 0); [lia|].
      destruct (bits !! Z.to_nat (j / 8)) as [b|] eqn:Eb; [|apply lookup_ge_None in Eb; lia].
      exists b. split.
      * apply list_elem_of_In, list_elem_of_lookup. exists (Z.to_nat (j / 8)). by rewrite lookup_take_lt by lia.
      * simpl in Ej. apply negb_true_iff, Z.eqb_neq. intros ->. change 255 with (Z.ones 8) in Ej.
        rewrite Z.testbit_ones_nonneg in Ej by lia. destruct (Z.ltb_spec (j mod 8) 8); [done|lia].
Qed.

Section Read.
Context (t : HeapTuple) (cols : list column).
Hypothesis Hst : stores t cols.

Lemma col_at i a v n : cols !! i = Some (a, v, n) -> col_ok (a, v, n).
Proof. intros Hi. pose proof (st_cols _ _ Hst) as H. by eapply Forall_lookup_1 in H. Qed.

(** Fetching at the offset of the layout gives the value. *)
Lemma fetch_at i a v n b o : cols !! i = Some (a, v, n) -> n <> null_char -> strip b = strip a ->
  o = att_align (layout_end 0 (take i cols)) (attalign a) ->
  fetched a v (HeapFetchAtt b (at_off (t_area t) o)).
Proof.
  intros Hi Hn Hb ->. destruct (col_at i a v n Hi) as [Ha Hv]. specialize (Hv Hn). simpl in *.
  assert (HeapFetchAtt b = HeapFetchAtt a) as ->.
  { unfold HeapFetchAtt. injection Hb as -> _ -> _. done. }
  apply HeapFetchAtt_ok; try done. eapply (st_data _ _ Hst); [done|]. by eapply layout_lookup.
Qed.

(** The length word read from the area is that of the stored value. *)
Lemma stored_addlength i a v n o : cols !! i = Some (a, v, n) -> n <> null_char ->
  o = att_align (layout_end 0 (take i cols)) (attalign a) ->
  att_addlength o (attlen a) (at_off (t_area t) o) = layout_end 0 (take (S i) cols).
Proof.
  intros Hi Hn Ho. destruct (col_at i a v n Hi) as [Ha Hv]. specialize (Hv Hn). simpl in *.
  pose proof (layout_lookup 0 cols i a v n Hi Hn) as Hl. rewrite <- Ho in Hl.
  pose proof (st_data _ _ Hst i a v n o Hi Hl) as Hd.
  rewrite (take_S_r _ _ _ Hi), layout_end_app. cbn [layout_end].
  destruct (decide (n = null_char)); [done|]. rewrite <- Ho. unfold att_addlength, col_len in *.
  destruct (Z.eqb_spec (attlen a) (-1)) as [E|E]; [|done]. simpl. f_equal.
  unfold fill_bytes in Hd. rewrite E in Hd. simpl in Hd.
  unfold datum_ok, by_value in Hv. rewrite E, andb_false_r in Hv. destruct Hv as (p & -> & Hlen & Hv).
  destruct (Hv eq_refl) as [H4 _]. simpl in *. unfold VARHDRSZ, VARSIZE, vl_len in *.
  set (w := Z.land (le_val (take 4 p)) 1073741823) in *.
  assert (take 4 (take (Z.to_nat w) (at_off (t_area t) o)) = take 4 (take (Z.to_nat w) p)) as E4 by (by rewrite Hd).
  rewrite !take_take, !Nat.min_l in E4 by lia. unfold w. by rewrite E4.
Qed.

Lemma layout_bounds i : 0 <= layout_end 0 (take i cols) < 2 ^ 31.
Proof.
  destruct (room_take 0 cols i (st_cols _ _ Hst) (st_room _ _ Hst)) as (? & ? & _).
  pose proof (st_size _ _ Hst). lia.
Qed.

Lemma offset_bounds i a v n : cols !! i = Some (a, v, n) -> n <> null_char ->
  0 <= att_align (layout_end 0 (take i cols)) (attalign a) < 2 ^ 31.
Proof.
  intros Hi Hn. pose proof (layout_bounds i). pose proof (layout_bounds (S i)) as Hs.
  rewrite (take_S_r _ _ _ Hi), layout_end_app in Hs. cbn [layout_end] in Hs.
  destruct (decide (n = null_char)); [done|].
  destruct (col_at i a v n Hi) as [Ha Hv]. pose proof (col_len_range a v Ha (Hv Hn)). simpl in *.
  pose proof (att_align_range (layout_end 0 (take i cols)) (attalign a)). lia.
Qed.

(** Behind fixed-length columns without nulls, the layout is that of the
    descriptors. *)
Lemma fixed_layout i : Forall (fun c => is_null c = false) (take i cols) ->
  Forall (fun b => fixed b) (take i (desc cols)) ->
  layout_end 0 (take i cols) = fixed_end 0 (take i (desc cols)).
Proof.
  unfold desc. rewrite <- fmap_take. pose proof (Forall_take _ i _ (st_cols _ _ Hst)) as Hc.
  generalize 0 as off. induction Hc as [|[[a v] n] l [Ha Hv] _ IH]; intros off Hn Hf; [done|].
  cbn [fmap list_fmap] in Hf. apply Forall_cons in Hf as [Hf Hfs], Hn as [Hn Hns].
  unfold is_null in Hn. simpl in Hn, Hf. apply bool_decide_eq_false in Hn. specialize (Hv Hn).
  cbn [layout_end fmap list_fmap fixed_end]. destruct (decide (n = null_char)); [done|].
  assert (col_len a v = fixlen (strip a)) as E; [|simpl; rewrite <- E; by apply IH].
  unfold varies, fixlen, col_len, datum_ok, by_value in *. simpl in *.
  change (VARLENA_FIXED_SIZE (strip a)) with (VARLENA_FIXED_SIZE a) in *.
  destruct (VARLENA_FIXED_SIZE a) eqn:Ev.
  - assert (attlen a = -1) as E1.
    { apply (ao_bpchar _ Ha). unfold VARLENA_FIXED_SIZE in Ev. bool_cases. done. }
    rewrite E1, andb_false_r in Hv. rewrite E1. destruct Hv as (p & -> & _ & Hv). simpl. by apply Hv.
  - simpl in Hf. rewrite andb_true_r in Hf. bool_cases. destruct (Z.eqb_spec (attlen a) (-1)); [lia|done].
Qed.

(** The bitmap test for nulls in front of an attribute is right. *)
Lemma nulls_before_ok i : (i < length cols)%nat ->
  negb (HeapTupleNoNulls t) && nulls_before (t_bits t) (Z.of_nat i) = existsb is_null (take i cols).
Proof.
  intros Hi. apply eq_true_iff_eq. destruct (HeapTupleNoNulls t) eqn:E; simpl.
  - split; [done|]. rewrite (st_nonulls _ _ Hst) in E. apply negb_true_iff in E.
    rewrite existsb_exists. intros (c & Hc & Hn). rewrite <- E. apply existsb_exists. exists c. split; [|done].
    apply list_elem_of_In. apply list_elem_of_In, elem_of_take in Hc as (k & Hk & _).
    by apply list_elem_of_lookup_2 in Hk.
  - destruct (st_bits _ _ Hst E) as (Hl & Hb & Hbits).
    rewrite nulls_before_bits by (done || lia). rewrite existsb_exists. split.
    + intros (j & Hj & Ej). destruct (cols !! Z.to_nat j) as [[[a v] n]|] eqn:Ec; [|apply lookup_ge_None in Ec; lia].
      pose proof (Hbits _ _ _ _ Ec) as Hn. rewrite Z2Nat.id, Ej in Hn by lia.
      exists (a, v, n). split; [|by unfold nul in Hn; destruct (bool_decide (n = null_char)) eqn:En; unfold is_null; simpl; rewrite En].
      apply list_elem_of_In, list_elem_of_lookup. exists (Z.to_nat j). by rewrite lookup_take_lt by lia.
    + intros ([[a v] n] & Hin & Hn). apply list_elem_of_In, list_elem_of_lookup in Hin as [j Hj].
      pose proof (lookup_lt_Some _ _ _ Hj) as Hlt. rewrite length_take in Hlt. rewrite lookup_take_lt in Hj by lia.
      exists (Z.of_nat j). split; [lia|]. rewrite (Hbits _ _ _ _ Hj). unfold nul. unfold is_null in Hn. simpl in Hn. by rewrite Hn.
Qed.

(** A descriptor for these columns, whatever it has cached. *)
Definition describes (att : list Form_pg_attribute) : Prop := strip <$> att = desc cols /\ cache_ok att.

Lemma describes_length att : describes att -> length att = length cols.
Proof. intros [H _]. apply (f_equal length) in H. unfold desc in H. by rewrite !length_fmap in H. Qed.

Lemma describes_at att i a v n : describes att -> cols !! i = Some (a, v, n) ->
  let b := att_ att (Z.of_nat i) in
  att !! i = Some b /\ strip b = strip a /\ attlen b = attlen a /\ attalign b = attalign a /\
  VARLENA_FIXED_SIZE b = VARLENA_FIXED_SIZE a /\ atttypmod b = atttypmod a.
Proof.
  intros Hd Hi. pose proof (lookup_lt_Some _ _ _ Hi) as Hlt. rewrite <- (describes_length att Hd) in Hlt.
  pose proof (att_lookup att i Hlt) as Ha. split; [done|]. destruct Hd as [Hs _].
  assert (strip (att_ att (Z.of_nat i)) = strip a) as E.
  { apply (f_equal (fun l => l !! i)) in Hs. unfold desc in Hs.
    rewrite !list_lookup_fmap, Ha, Hi in Hs. by apply (inj Some) in Hs. }
  split; [done|]. injection E as E1 E2 _ E3 E4 _. unfold VARLENA_FIXED_SIZE. split_and!; congruence.
Qed.

Lemma cached_right att i a v n : describes att -> cols !! i = Some (a, v, n) ->
  Forall (fun c => is_null c = false) (take i cols) -> attcacheoff (att_ att (Z.of_nat i)) <> -1 ->
  attcacheoff (att_ att (Z.of_nat i)) = att_align (layout_end 0 (take i cols)) (attalign a).
Proof.
  intros Hd Hi Hn Hc. destruct (describes_at att i a v n Hd Hi) as (Ha & _ & _ & Hal & _).
  destruct Hd as [Hs Hok]. destruct (Hok i _ Ha) as [|[Hf ->]]; [done|].
  rewrite Hs in *. rewrite Hal. f_equal. symmetry. by apply fixed_layout.
Qed.

(** Behind a column of fixed length. *)
Lemma fixed_step i a v n : cols !! i = Some (a, v, n) ->
  Forall (fun c => is_null c = false) (take (S i) cols) -> Forall (fun b => fixed b) (take (S i) (desc cols)) ->
  layout_end 0 (take (S i) cols) = att_align (layout_end 0 (take i cols)) (attalign a) + fixlen a.
Proof.
  intros Hi Hn Hf. rewrite (fixed_layout _ Hn Hf). rewrite (fixed_layout i).
  - assert (desc cols !! i = Some (strip a)) as Ed by (unfold desc; by rewrite list_lookup_fmap, Hi).
    rewrite (take_S_r _ _ _ Ed), fixed_end_snoc. done.
  - rewrite <- (Nat.min_l i (S i)), <- take_take by lia. by apply Forall_take.
  - rewrite <- (Nat.min_l i (S i)), <- take_take by lia. by apply Forall_take.
Qed.

(** Recording the offset of the layout keeps the descriptor sound. *)
Lemma describes_set att i a v n : describes att -> cols !! i = Some (a, v, n) ->
  Forall (fun c => is_null c = false) (take i cols) -> Forall (fun b => fixed b) (take i (desc cols)) ->
  describes (set_cache att (Z.of_nat i) (att_align (layout_end 0 (take i cols)) (attalign a))).
Proof.
  intros Hd Hi Hn Hf. destruct (describes_at att i a v n Hd Hi) as (Ha & _ & _ & Hal & _).
  pose proof (lookup_lt_Some _ _ _ Ha) as Hlt. destruct Hd as [Hs Hok]. split.
  - by rewrite strip_set_cache.
  - apply cache_ok_set; [done|done|by rewrite Hs|]. rewrite Hs, Hal. f_equal. by apply fixed_layout.
Qed.

Lemma set_cache_at att i o k : (i < length att)%nat ->
  att_ (set_cache att (Z.of_nat i) o) k
  = if k =? Z.of_nat i then set_attcacheoff (att_ att (Z.of_nat i)) o else att_ att k.
Proof. intros Hi. unfold att_, set_cache. rewrite aget_aset by lia. done. Qed.

Lemma Forall_take_le {A} (P : A -> Prop) l i j : (i <= j)%nat -> Forall P (take j l) -> Forall P (take i l).
Proof. intros Hij H. rewrite <- (Nat.min_l i j), <- take_take by done. by apply Forall_take. Qed.

Lemma not_null_at i c m : Forall (fun c => is_null c = false) (take m cols) -> (i < m)%nat ->
  cols !! i = Some c -> c.2 <> null_char.
Proof.
  intros H Hi Hc. eapply (Forall_lookup_1 _ _ i c) in H; [|by rewrite lookup_take_lt].
  by apply bool_decide_eq_false in H.
Qed.

Lemma cache_fill_ok n j att : describes att -> (j + n <= length cols)%nat ->
  Forall (fun c => is_null c = false) (take (j + n) cols) ->
  Forall (fun b => fixed b) (take (j + n) (desc cols)) ->
  let att' := cache_fill n (t_area t) att (Z.of_nat j) (layout_end 0 (take j cols)) in
  describes att' /\ (forall k, k < Z.of_nat j -> att_ att' k = att_ att k) /\
  (forall k, Z.of_nat j <= k < Z.of_nat (j + n) -> attcacheoff (att_ att' k) <> -1).
Proof.
  revert j att. induction n as [|n IH]; intros j att Hd Hl Hn Hf; simpl.
  { split_and!; [done|done|lia]. }
  destruct (cols !! j) as [[[a v] nn]|] eqn:Ej; [|apply lookup_ge_None in Ej; lia].
  assert (nn <> null_char) as Hnn by (apply (not_null_at j (a, v, nn) (j + S n)); [done|lia|done]).
  destruct (describes_at att j a v nn Hd Ej) as (Ha & Hs & Hlen & Hal & _).
  pose proof (lookup_lt_Some _ _ _ Ha) as Hlt.
  pose proof (offset_bounds j a v nn Ej Hnn) as Ho. rewrite Hal, i32_id by lia.
  set (o := att_align (layout_end 0 (take j cols)) (attalign a)) in *.
  rewrite set_cache_at, Z.eqb_refl by done. simpl attlen. rewrite Hlen.
  rewrite (stored_addlength j a v nn o Ej Hnn) by done.
  pose proof (layout_bounds (S j)). rewrite i32_id by lia.
  replace (Z.of_nat j + 1) with (Z.of_nat (S j)) by lia.
  destruct (IH (S j) (set_cache att (Z.of_nat j) o)) as (D & K & C).
  - apply (describes_set att j a v nn); try done; (eapply Forall_take_le; [|done]); lia.
  - lia.
  - by replace (S j + n)%nat with (j + S n)%nat by lia.
  - by replace (S j + n)%nat with (j + S n)%nat by lia.
  - split_and!; [done| |].
    + intros k Hk. rewrite K by lia. rewrite set_cache_at by done. destruct (Z.eqb_spec k (Z.of_nat j)); [lia|done].
    + intros k Hk. destruct (decide (k = Z.of_nat j)) as [->|]; [|apply C; lia].
      rewrite K by lia. rewrite set_cache_at, Z.eqb_refl by done. simpl. lia.
Qed.

Lemma skip_cached_ok fuel att j i : attcacheoff (att_ att i) <= 0 -> j <= i -> i - j < Z.of_nat fuel ->
  let j' := skip_cached fuel att j in
  j <= j' <= i /\ (j < j' -> 0 < attcacheoff (att_ att (j' - 1))).
Proof.
  intros Hi. revert j. induction fuel as [|fuel IH]; intros j Hj Hf; [lia|]. simpl.
  destruct (Z.ltb_spec 0 (attcacheoff (att_ att j))) as [Hp|Hp]; [|split; lia].
  destruct (decide (j = i)) as [->|]; [lia|]. destruct (IH (j + 1)) as [? Hc]; [lia..|]. split; [lia|].
  intros _. destruct (decide (skip_cached fuel att (j + 1) = j + 1)) as [->|]; [by replace (j + 1 - 1) with j by lia|].
  apply Hc. lia.
Qed.

Lemma att_isnull_ok i a v n : cols !! i = Some (a, v, n) ->
  negb (HeapTupleNoNulls t) && att_isnull (Z.of_nat i) (t_bits t) = nul n.
Proof.
  intros Hi. destruct (HeapTupleNoNulls t) eqn:E; simpl.
  - symmetry. rewrite (st_nonulls _ _ Hst) in E. apply negb_true_iff in E.
    destruct (nul n) eqn:En; [|done]. exfalso. rewrite <- not_true_iff_false in E. apply E.
    apply existsb_exists. exists (a, v, n). split; [|done]. apply list_elem_of_In. by apply list_elem_of_lookup_2 in Hi.
  - rewrite att_isnull_bitof by lia. destruct (st_bits _ _ Hst E) as (_ & _ & Hb).
    rewrite (Hb i a v n Hi). by destruct (nul n).
Qed.

Lemma careful_walk_ok n i att uc : describes att -> (i + n <= length cols)%nat ->
  (uc = true -> Forall (fun c => is_null c = false) (take i cols) /\
                Forall (fun b => fixed b) (take i (desc cols))) ->
  exists att', careful_walk n (HeapTupleNoNulls t) (t_bits t) (t_area t) att (Z.of_nat i)
      (layout_end 0 (take i cols)) uc = (att', layout_end 0 (take (i + n) cols)) /\ describes att'.
Proof.
  revert i att uc. induction n as [|n IH]; intros i att uc Hd Hl Huc; cbn [careful_walk].
  { rewrite Nat.add_0_r. eauto. }
  destruct (cols !! i) as [[[a v] nn]|] eqn:Ei; [|apply lookup_ge_None in Ei; lia].
  rewrite (att_isnull_ok i a v nn Ei). replace (Z.of_nat i + 1) with (Z.of_nat (S i)) by lia.
  replace (i + S n)%nat with (S i + n)%nat by lia.
  assert (layout_end 0 (take (S i) cols) = if nul nn then layout_end 0 (take i cols) else
    att_align (layout_end 0 (take i cols)) (attalign a) + col_len a v) as Enext.
  { rewrite (take_S_r _ _ _ Ei), layout_end_app. cbn [layout_end]. unfold nul.
    by destruct (decide (nn = null_char)); [rewrite bool_decide_true|rewrite bool_decide_false]. }
  destruct (nul nn) eqn:En.
  { rewrite <- Enext. apply IH; [done|lia|done]. }
  unfold nul in En. apply bool_decide_eq_false in En.
  destruct (describes_at att i a v nn Hd Ei) as (Ha & Hs & Hlen & Hal & Hv & _).
  pose proof (offset_bounds i a v nn Ei En) as Ho. pose proof (layout_bounds (S i)) as Hb.
  set (o := att_align (layout_end 0 (take i cols)) (attalign a)) in *.
  assert (exists att1, (if uc && negb (attcacheoff (att_ att (Z.of_nat i)) =? -1)
      then (att, attcacheoff (att_ att (Z.of_nat i)))
      else (if uc then set_cache att (Z.of_nat i) (i32 (att_align (layout_end 0 (take i cols)) (attalign (att_ att (Z.of_nat i))))) else att,
            i32 (att_align (layout_end 0 (take i cols)) (attalign (att_ att (Z.of_nat i)))))) = (att1, o) /\ describes att1)
    as (att1 & E1 & D1).
  { rewrite Hal. fold o. rewrite i32_id by lia. destruct uc; cbn [andb]; [|eauto]. destruct (Huc eq_refl) as [Hn Hf].
    destruct (Z.eqb_spec (attcacheoff (att_ att (Z.of_nat i))) (-1)) as [E|E]; cbn [negb].
    - eexists. split; [done|]. by apply (describes_set att i a v nn).
    - exists att. by rewrite (cached_right att i a v nn). }
  cbv zeta. cbv zeta in E1. rewrite E1. rewrite Hlen, Hv.
  rewrite (stored_addlength i a v nn o Ei En) by done. rewrite i32_id by lia.
  apply IH; [done|lia|]. intros Hu.
  destruct uc; [|done]. cbn [andb] in Hu. destruct (Huc eq_refl) as [Hn Hf]. split.
  - rewrite (take_S_r _ _ _ Ei). apply Forall_app. split; [done|]. constructor; [|done].
    unfold is_null. by rewrite bool_decide_false.
  - assert (desc cols !! i = Some (strip a)) as Edi by (unfold desc; by rewrite list_lookup_fmap, Ei).
    rewrite (take_S_r _ _ _ Edi). apply Forall_app. split; [done|]. constructor; [|done].
    destruct (col_at i a v nn Ei) as [Hao _]. destruct (ao_len _ Hao) as [E|E]; unfold varies; simpl in *.
    + change (VARLENA_FIXED_SIZE (strip a)) with (VARLENA_FIXED_SIZE a). rewrite E in *. simpl in Hu.
      by destruct (VARLENA_FIXED_SIZE a).
    + rewrite (proj2 (Z.ltb_ge _ _)) by lia. done.
Qed.

Lemma existsb_false_Forall {A} (f : A -> bool) l : existsb f l = false <-> Forall (fun x => f x = false) l.
Proof.
  rewrite Forall_forall, <- not_true_iff_false, existsb_exists. split.
  - intros H x Hx. apply not_true_iff_false. intros E. apply H. exists x. by rewrite <- list_elem_of_In.
  - intros H (x & Hx & E). apply list_elem_of_In in Hx. by rewrite (H x Hx) in E.
Qed.

(** A tuple without variable-length values has only fixed attributes in front
    of (and at) an attribute with no nulls before it. *)
Lemma fixed_upto att i a v n : describes att -> cols !! i = Some (a, v, n) -> n <> null_char ->
  Forall (fun c => is_null c = false) (take i cols) ->
  negb (HeapTupleAllFixed t) && existsb varies (take (S i) att) = false ->
  Forall (fun b => fixed b) (take (S i) (desc cols)).
Proof.
  intros Hd Hi Hn Hnn Hv. pose proof (describes_length att Hd) as Hlen. destruct Hd as [Hs _].
  rewrite (st_allfixed _ _ Hst), negb_involutive in Hv. apply andb_false_iff in Hv as [Hv|Hv].
  - apply existsb_false_Forall in Hv. apply Forall_lookup. intros k b Hk.
    pose proof (lookup_lt_Some _ _ _ Hk) as Hlt. rewrite length_take in Hlt. rewrite lookup_take_lt in Hk by lia.
    unfold desc in Hk. rewrite list_lookup_fmap in Hk. destruct (cols !! k) as [[[a' v'] n']|] eqn:Ek; [|done].
    injection Hk as <-. eapply Forall_lookup_1 in Hv; [|exact Ek]. unfold var_col in Hv. simpl in Hv.
    assert (is_null (a', v', n') = false) as E.
    { destruct (decide (k = i)) as [->|]; [rewrite Ek in Hi; injection Hi as -> -> ->; unfold is_null; by rewrite bool_decide_false|].
      eapply Forall_lookup_1 in Hnn; [exact Hnn|]. rewrite lookup_take_lt; [done|lia]. }
    rewrite E in Hv. simpl in Hv. destruct (col_at k a' v' n' Ek) as [Ha _]. unfold varies. simpl in *.
    destruct (ao_len _ Ha) as [E'|E']; [by rewrite E' in Hv|]. by rewrite (proj2 (Z.ltb_ge _ _)) by lia.
  - apply existsb_false_Forall in Hv. rewrite <- Hs, <- fmap_take. apply Forall_fmap.
    eapply Forall_impl; [exact Hv|]. done.
Qed.

Lemma careful_fetch att i a v n : describes att -> cols !! i = Some (a, v, n) -> n <> null_char ->
  let '(att', off) := careful_walk i (HeapTupleNoNulls t) (t_bits t) (t_area t) att 0 0 true in
  fetched a v (HeapFetchAtt (att_ att' (Z.of_nat i))
    (at_off (t_area t) (i32 (att_align off (attalign (att_ att' (Z.of_nat i))))))) /\ describes att'.
Proof.
  intros Hd Hi Hn. pose proof (lookup_lt_Some _ _ _ Hi) as Hlt.
  destruct (careful_walk_ok i 0 att true Hd) as (att' & E & D); [lia|by rewrite !take_0|].
  change (Z.of_nat 0) with 0 in E. rewrite take_0 in E. simpl layout_end in E. rewrite E. simpl.
  split; [|done]. destruct (describes_at att' i a v n D Hi) as (_ & Hs & _ & Hal & _).
  pose proof (offset_bounds i a v n Hi Hn). rewrite Hal, i32_id by lia. eapply fetch_at; eauto.
Qed.

Lemma nocachegetattr_ok att i a v n : describes att -> cols !! i = Some (a, v, n) -> n <> null_char ->
  let '(d, att') := nocachegetattr t (Z.of_nat i + 1) att in fetched a v d /\ describes att'.
Proof.
  intros Hd Hi Hn. pose proof (lookup_lt_Some _ _ _ Hi) as Hlt. pose proof (describes_length att Hd) as Hlen.
  assert (forall att', describes att' -> strip (att_ att' (Z.of_nat i)) = strip a) as Hst'.
  { intros att' Hd'. by destruct (describes_at att' i a v n Hd' Hi) as (_ & ? & _). }
  unfold nocachegetattr. replace (Z.of_nat i + 1 - 1) with (Z.of_nat i) by lia.
  rewrite (nulls_before_ok i Hlt). destruct (existsb is_null (take i cols)) eqn:Es; cbn [negb andb orb].
  - (* nulls in front: the careful walk *)
    rewrite Nat2Z.id. pose proof (careful_fetch att i a v n Hd Hi Hn) as H.
    by destruct (careful_walk i _ _ _ att 0 0 true).
  - apply existsb_false_Forall in Es.
    destruct (Z.eqb_spec (attcacheoff (att_ att (Z.of_nat i))) (-1)) as [Ec|Ec]; cbn [negb].
    2:{ split; [|done]. eapply fetch_at; eauto. by apply (cached_right att i a v n). }
    destruct (Z.eqb_spec (Z.of_nat i) 0) as [E0|E0].
    { split; [|done]. eapply fetch_at; eauto. assert (i = 0%nat) as -> by lia. by rewrite att_align_0. }
    replace (Z.to_nat (Z.of_nat i + 1)) with (S i) by lia.
    destruct (negb (HeapTupleAllFixed t) && existsb varies (take (S i) att)) eqn:Ev; cbn [negb].
    + rewrite Nat2Z.id. pose proof (careful_fetch att i a v n Hd Hi Hn) as H.
      by destruct (careful_walk i _ _ _ att 0 0 true).
    + (* fixed lengths in front: complete the cache *)
      pose proof (fixed_upto att i a v n Hd Hi Hn Es Ev) as Hf.
      destruct (cols !! 0%nat) as [[[a0 v0] n0]|] eqn:E00; [|apply lookup_ge_None in E00; lia].
      assert (describes (set_cache att 0 0)) as Hd0.
      { pose proof (describes_set att 0 a0 v0 n0 Hd E00) as H. rewrite take_0 in H. simpl layout_end in H.
        rewrite att_align_0 in H. by apply H; [constructor|rewrite take_0]. }
      set (att1 := set_cache att 0 0) in *.
      assert (forall k, att_ att1 k = if k =? 0 then set_attcacheoff (att_ att 0) 0 else att_ att k) as Hat
        by (intros k; apply (set_cache_at att 0); lia).
      destruct (skip_cached_ok (length att1) att1 1 (Z.of_nat i)) as [Hj Hc].
      { rewrite Hat. destruct (Z.eqb_spec (Z.of_nat i) 0); lia. }
      { lia. }
      { rewrite (describes_length att1 Hd0). lia. }
      set (j := skip_cached (length att1) att1 1) in *.
      destruct (cols !! Z.to_nat (j - 1)) as [[[b w] m]|] eqn:Ej; [|apply lookup_ge_None in Ej; lia].
      assert (Z.of_nat (Z.to_nat (j - 1)) = j - 1) as Ejz by lia.
      assert (m <> null_char) as Hm by (apply (not_null_at (Z.to_nat (j - 1)) (b, w, m) i); [done|lia|done]).
      assert (attcacheoff (att_ att1 (j - 1)) = att_align (layout_end 0 (take (Z.to_nat (j - 1)) cols)) (attalign b)) as Ecj.
      { pose proof (cached_right att1 _ b w m Hd0 Ej) as H. rewrite Ejz in H.
        apply H; [eapply Forall_take_le; [|done]; lia|]. destruct (decide (1 < j)) as [Hgt|]; [specialize (Hc Hgt); lia|].
        replace (j - 1) with 0 by lia. rewrite Hat. simpl. lia. }
      destruct (describes_at att1 (Z.to_nat (j - 1)) b w m Hd0 Ej) as (_ & _ & El & _ & Evf & Etm).
      rewrite Ejz in El, Evf, Etm.
      assert ((if negb (VARLENA_FIXED_SIZE (att_ att1 (j - 1)))
               then attcacheoff (att_ att1 (j - 1)) + attlen (att_ att1 (j - 1))
               else attcacheoff (att_ att1 (j - 1)) + atttypmod (att_ att1 (j - 1)))
              = layout_end 0 (take (Z.to_nat j) cols)) as ->.
      { rewrite Ecj, El, Evf, Etm. replace (Z.to_nat j) with (S (Z.to_nat (j - 1))) by lia.
        rewrite (fixed_step _ b w m Ej) by (eapply Forall_take_le; [|done]; lia). unfold fixlen. by destruct (VARLENA_FIXED_SIZE b). }
      replace (Z.to_nat (Z.of_nat i + 1 - j)) with (S i - Z.to_nat j)%nat by lia.
      destruct (cache_fill_ok (S i - Z.to_nat j) (Z.to_nat j) att1 Hd0) as (D & _ & C).
      { lia. }
      { replace (Z.to_nat j + (S i - Z.to_nat j))%nat with (S i) by lia. rewrite (take_S_r _ _ _ Hi).
        apply Forall_app. split; [done|]. constructor; [|done]. unfold is_null. by rewrite bool_decide_false. }
      { by replace (Z.to_nat j + (S i - Z.to_nat j))%nat with (S i) by lia. }
      rewrite Z2Nat.id in D, C by lia. set (att2 := cache_fill _ _ _ _ _) in *. split; [|done].
      eapply fetch_at; eauto. apply (cached_right att2 i a v n D Hi Es). apply C. lia.
Qed.

(** [HeapGetAttr] returns the stored value or null, and leaves the descriptor
    sound. *)
Lemma HeapGetAttr_ok att i a v n : describes att -> cols !! i = Some (a, v, n) ->
  let '(r, att') := HeapGetAttr t (Z.of_nat i + 1) att in
  describes att' /\
  match r with
  | Ok None => n = null_char
  | Ok (Some d) => n <> null_char /\ fetched a v d
  | Err _ => False
  end.
Proof.
  intros Hd Hi. pose proof (lookup_lt_Some _ _ _ Hi) as Hlt. unfold HeapGetAttr.
  unfold FirstLowInvalidHeapAttributeNumber. destruct (Z.ltb_spec (Z.of_nat i + 1) (-8)); [lia|].
  destruct (Z.eqb_spec (Z.of_nat i + 1) 0); [lia|]. cbn [orb].
  rewrite (st_natts _ _ Hst). destruct (Z.ltb_spec (Zlen cols) (Z.of_nat i + 1)); [lia|].
  destruct (Z.ltb_spec 0 (Z.of_nat i + 1)); [|lia].
  replace (Z.of_nat i + 1 - 1) with (Z.of_nat i) by lia.
  pose proof (att_isnull_ok i a v n Hi) as Hnull.
  assert (Hst' : strip (att_ att (Z.of_nat i)) = strip a) by (by destruct (describes_at att i a v n Hd Hi) as (_ & ? & _)).
  pose proof (nocachegetattr_ok att i a v n Hd Hi) as Hno.
  destruct (HeapTupleNoNulls t) eqn:En; cbn [negb andb] in Hnull.
  - unfold nul in Hnull. symmetry in Hnull. apply bool_decide_eq_false in Hnull.
    destruct (_ || _) eqn:Eb.
    + split; [done|]. split; [done|]. eapply fetch_at; eauto.
      destruct (Z.eqb_spec (Z.of_nat i + 1) 1) as [E1|E1]; cbn [negb].
      * assert (i = 0%nat) as -> by lia. by rewrite att_align_0.
      * rewrite orb_false_r in Eb. bool_cases. apply (cached_right att i a v n Hd Hi); [|done].
        apply Forall_take, existsb_false_Forall. rewrite (st_nonulls _ _ Hst) in En. by apply negb_true_iff.
    + specialize (Hno Hnull). destruct (nocachegetattr t _ att) as [d att']. destruct Hno. done.
  - rewrite Hnull. unfold nul. case_bool_decide as Hn; [done|].
    specialize (Hno Hn). destruct (nocachegetattr t _ att) as [d att']. destruct Hno. done.
Qed.

End Read.


(** ** A formed tuple stores its columns *)

Lemma fill_bit_bytes s k : 0 <= k -> bit_at s k -> Forall (fun b => 0 <= b < 256) (f_bits s) ->
  Forall (fun b => 0 <= b < 256) (f_bits (fill_bit s)).
Proof. intros Hk Hs Hb. unfold fill_bit. destruct (negb _); simpl; [done|]. apply aset_Forall; [lia|done]. Qed.

Lemma DataFill_loop_bytes base cols s k : 0 <= k -> bit_at s k -> k + Zlen cols <= 8 * Zlen (f_bits s) ->
  Forall (fun b => 0 <= b < 256) (f_bits s) ->
  Forall (fun b => 0 <= b < 256) (f_bits (DataFill_loop base true cols s)).
Proof.
  revert s k. induction cols as [|[[a v] n] cols IH]; intros s k Hk Hs Hl Hb; [done|]. cbn [length] in Hl.
  assert (k / 8 < Zlen (f_bits s)) as Hk8 by (apply Z.div_lt_upper_bound; lia).
  pose proof (fill_bit_bytes s k Hk Hs Hb) as Hb1. cbn [DataFill_loop]. case_decide.
  - destruct (fill_bit_null s k Hk Hs Hk8) as (B & L & _ & _). eapply (IH _ (k + 1)); [lia|done|rewrite L; lia|done].
  - destruct (fill_bit_present base a v s k Hk Hs Hk8) as (B & L & _ & _).
    eapply (IH _ (k + 1)); [lia|done|rewrite L; lia|]. simpl. apply aset_Forall; [|done].
    destruct (fill_bit_spec s k Hk Hs Hk8) as (HP & Hm & _). rewrite Hm.
    pose proof (Z.mod_pos_bound k 8 ltac:(lia)). change 256 with (2 ^ 8). apply lor_bound; [lia| |].
    + apply (aget_Forall (fun b => 0 <= b < 2 ^ 8)); [lia|done].
    + split; [lia|]. apply Z.pow_lt_mono_r; lia.
Qed.

Lemma BITMAPLEN_range n : 1 <= n <= MaxHeapAttributeNumber -> n <= 8 * BITMAPLEN n /\ BITMAPLEN n <= 200.
Proof.
  unfold MaxHeapAttributeNumber, BITMAPLEN. intros Hn. rewrite Z.shiftr_div_pow2 by lia. change (2 ^ 3) with 8.
  replace ((n - 1) / 8 + 4 - 4) with ((n - 1) / 8) by lia. change (Z.lnot 3) with (Z.lnot (Z.ones 2)).
  rewrite <- Z.ldiff_land, Z.ldiff_ones_r, Z.shiftl_mul_pow2, Z.shiftr_div_pow2 by lia. change (2 ^ 2) with 4.
  pose proof (Z.div_mod (n - 1) 8 ltac:(lia)). pose proof (Z.mod_pos_bound (n - 1) 8 ltac:(lia)).
  pose proof (Z.div_mod ((n - 1) / 8) 4 ltac:(lia)). pose proof (Z.mod_pos_bound ((n - 1) / 8) 4 ltac:(lia)). lia.
Qed.

(** The header length is aligned and fits its byte. *)
Lemma hoff_ok (hasnull : bool) n : (hasnull = true -> 1 <= n) -> n <= MaxHeapAttributeNumber ->
  let len := offsetof_t_bits + (if hasnull then BITMAPLEN n else 0) in
  let hoff := MAXALIGN len in
  len <= hoff <= 255 /\ hoff mod 8 = 0 /\ (hasnull = true -> n <= 8 * (hoff - offsetof_t_bits)).
Proof.
  intros Hn Hm. unfold offsetof_t_bits. simpl.
  assert (0 <= (if hasnull then BITMAPLEN n else 0) <= 200 /\
    (hasnull = true -> n <= 8 * (if hasnull then BITMAPLEN n else 0))) as [Hb Hb'].
  { destruct hasnull; [|split; [lia|done]]. destruct (BITMAPLEN_range n); [split; [by apply Hn|done]|]. lia. }
  set (b := if hasnull then BITMAPLEN n else 0) in *.
  change (MAXALIGN (45 + b)) with (TYPEALIGN (2 ^ 3) (45 + b)). rewrite TYPEALIGN_eq by lia. change (2 ^ 3) with 8.
  replace (45 + b + (8 - 1)) with (52 + b) by lia.
  pose proof (Z.div_mod (52 + b) 8 ltac:(lia)). pose proof (Z.mod_pos_bound (52 + b) 8 ltac:(lia)).
  split_and!; try lia.
  - rewrite Z.mul_comm. apply Z.mod_mul. lia.
  - intros E. specialize (Hb' E). lia.
Qed.

Definition columns (attrs : list Form_pg_attribute) (value : list Datum) (nulls : list ascii) : list column :=
  zip (zip attrs value) nulls.

Lemma columns_length attrs value nulls : length value = length attrs -> length nulls = length attrs ->
  length (columns attrs value nulls) = length attrs.
Proof. intros. unfold columns. rewrite !length_zip. lia. Qed.

Lemma columns_desc attrs value nulls : length value = length attrs -> length nulls = length attrs ->
  desc (columns attrs value nulls) = strip <$> attrs.
Proof.
  intros Hv Hn. unfold desc, columns. rewrite <- (fst_zip attrs value) at 2 by lia.
  rewrite <- (fst_zip (zip attrs value) nulls) at 2 by (rewrite length_zip; lia).
  by rewrite <- !list_fmap_compose.
Qed.

(** What [DataFill] leaves behind, with a bitmap when there are nulls. *)
Lemma DataFill_ok base cols mem bits : base mod 8 = 0 -> 0 <= base < 2 ^ 62 -> Forall col_ok cols -> room 0 cols ->
  layout_end 0 cols <= Zlen mem -> Forall (fun b => 0 <= b < 256) bits -> (existsb is_null cols = true -> Zlen cols <= 8 * Zlen bits) ->
  let f := DataFill base cols mem (if existsb is_null cols then Some bits else None) in
  flag (f_infomask f) HEAP_HASNULL = existsb is_null cols /\ flag (f_infomask f) HEAP_HASVARLENA = existsb var_col cols /\
  (existsb is_null cols = true -> length (f_bits f) = length bits /\ Forall (fun b => 0 <= b < 256) (f_bits f) /\
     forall i a v n, cols !! i = Some (a, v, n) -> bitof (f_bits f) (Z.of_nat i) = negb (nul n)) /\
  forall i a v n o, cols !! i = Some (a, v, n) -> layout 0 cols !! i = Some (Some o) ->
    take (Z.to_nat (col_len a v)) (at_off (f_mem f) o) = fill_bytes a v.
Proof.
  intros Hbase Hb Hc Hr Hmem Hbits Hl. destruct (existsb is_null cols) eqn:En.
  - set (s0 := mkFill base mem 0 (-1) CSIGNBIT bits).
    assert (bit_at s0 0) as Hbit.
    { split; simpl; [done|done|]. intros j Hj E. exfalso. change ((0 - 1) / 8) with (-1) in E. pose proof (Z.div_pos j 8). lia. }
    assert (0 + Zlen cols <= 8 * Zlen (f_bits s0)) as Hlb by (simpl; specialize (Hl eq_refl); lia).
    destruct (DataFill_loop_mem base true cols s0 0 Hbase) as (M1 & M2 & M3); try done; [simpl; lia|].
    destruct (DataFill_loop_bits base cols s0 0 ltac:(lia) Hbit Hlb) as (B1 & _ & B3).
    pose proof (DataFill_loop_bytes base cols s0 0 ltac:(lia) Hbit Hlb Hbits) as B4.
    destruct (DataFill_loop_mask base true cols s0 ltac:(done)) as [K1 K2].
    unfold DataFill. fold s0. cbn zeta. rewrite K1, K2, En. by split_and!.
  - set (s0 := mkFill base mem 0 0 0 []).
    assert (false = false -> Forall (fun c : column => nul c.2 = false) cols) as Hnn
      by (intros _; by apply existsb_false_Forall).
    destruct (DataFill_loop_mem base false cols s0 0 Hbase) as (M1 & M2 & M3); try done; [simpl; lia|].
    destruct (DataFill_loop_mask base false cols s0 Hnn) as [K1 K2].
    unfold DataFill. fold s0. cbn zeta. rewrite K1, K2, En. by split_and!.
Qed.

Lemma heap_formtuple_stores addr attrs value nulls :
  length value = length attrs -> length nulls = length attrs -> Zlen attrs <= MaxHeapAttributeNumber ->
  addr mod 8 = 0 -> 0 <= addr < 2 ^ 61 -> Forall col_ok (columns attrs value nulls) ->
  layout_end 0 (columns attrs value nulls) < 2 ^ 31 ->
  exists t, heap_formtuple addr attrs value nulls = Ok t /\ stores t (columns attrs value nulls).
Proof.
  intros Hlv Hln Hmax Hal Ha Hc Hsz. pose proof (columns_length attrs value nulls Hlv Hln) as Hlen.
  unfold heap_formtuple. fold (columns attrs value nulls). set (cols := columns attrs value nulls) in *.
  rewrite (proj2 (Z.ltb_ge _ _)) by lia.
  assert (room 0 cols) as Hr by (unfold room, MaxHeapAttributeNumber in *; lia).
  rewrite ComputeDataSize_layout by done. destruct (layout_end_mono 0 cols Hc Hr) as [H0 _].
  destruct (hoff_ok (existsb is_null cols) (Zlen attrs)) as (Hh1 & Hh2 & Hh3); [|done|].
  { rewrite <- Hlen. destruct cols; simpl; [done|lia]. }
  set (hoff := MAXALIGN _) in *. unfold offsetof_t_bits in Hh1, Hh3.
  assert (0 <= (if existsb is_null cols then BITMAPLEN (Zlen attrs) else 0)) as Hb0.
  { destruct (existsb is_null cols) eqn:E; [|lia]. destruct (BITMAPLEN_range (Zlen attrs)); [|lia].
    split; [|done]. rewrite <- Hlen. destruct cols; simpl in *; [done|lia]. }
  assert (u8 hoff = hoff) as Hu8 by (apply u8_id; lia). rewrite Hu8.
  eexists. split; [reflexivity|].
  assert ((addr + hoff) mod 8 = 0) as Hbase by (rewrite Z.add_mod, Hal, Hh2 by lia; done).
  set (bits0 := replicate (Z.to_nat (hoff - offsetof_t_bits)) 0).
  assert (Zlen bits0 = hoff - 45) as Hbits0 by (unfold bits0, offsetof_t_bits; rewrite length_replicate; lia).
  destruct (DataFill_ok (addr + hoff) cols (replicate (Z.to_nat (layout_end 0 cols)) 0) bits0) as (K1 & K2 & B & M); try done.
  { lia. }
  { rewrite length_replicate. lia. }
  { apply Forall_replicate. lia. }
  { intros E. specialize (Hh3 E). lia. }
  set (f := DataFill _ _ _ _) in *. split; cbn [t_natts t_bits t_area]; try done; try lia.
  - unfold HeapTupleNoNulls. simpl. by rewrite flag_lor, K1, orb_false_r.
  - unfold HeapTupleAllFixed. simpl. by rewrite flag_lor, K2, orb_false_r.
  - unfold HeapTupleNoNulls. simpl. rewrite flag_lor, K1, orb_false_r. intros E. apply negb_false_iff in E. rewrite E in *.
    destruct (B eq_refl) as (B1 & B2 & B3). split_and!; [rewrite B1; specialize (Hh3 eq_refl); lia|done|done].
Qed.


(** ** Modified tuples *)

(** A fetched value can be stored again, and is then the same to a reader. *)
Lemma fetched_ok a v d : att_ok a -> datum_ok a v -> fetched a v d ->
  datum_ok a d /\ col_len a d = col_len a v.
Proof.
  intros Ha Hv Hf. pose proof (col_len_range a v Ha Hv) as Hl. unfold fetched, datum_ok, by_value in *.
  destruct (attbyval a && negb (attlen a =? -1)) eqn:E.
  - split; [eauto|]. unfold col_len. apply andb_true_iff in E as [_ E]. apply negb_true_iff in E. by rewrite E.
  - destruct Hv as (p & -> & Hlp & H4), Hf as (q & -> & Hq). simpl DatumGetPointer in *.
    assert (length (take (Z.to_nat (col_len a (Ptr p))) q) = Z.to_nat (col_len a (Ptr p))) as Hlq
      by (rewrite Hq, length_take; lia). rewrite length_take in Hlq.
    assert (col_len a (Ptr q) = col_len a (Ptr p) /\ (attlen a = -1 -> VARSIZE q = VARSIZE p)) as [Ec Ev].
    { unfold col_len in *. destruct (Z.eqb_spec (attlen a) (-1)) as [E1|]; [|done]. simpl in *.
      destruct (H4 E1) as [Hge _]. unfold VARHDRSZ in *.
      assert (VARSIZE q = VARSIZE p); [|done]. unfold VARSIZE at 1 2, vl_len. do 2 f_equal.
      rewrite <- (Nat.min_l 4 (Z.to_nat (VARSIZE p))), <- !take_take by lia. by rewrite Hq. }
    split; [|done]. exists q. split_and!; [done|lia|]. intros E1. rewrite Ev by done. by apply H4.
Qed.

Lemma fetched_trans a v d d' : att_ok a -> datum_ok a v -> fetched a v d -> fetched a d d' -> fetched a v d'.
Proof.
  intros Ha Hv Hf Hf'. destruct (fetched_ok a v d Ha Hv Hf) as [_ El].
  pose proof (ao_byval _ Ha) as Hb. unfold fetched, by_value in *. destruct (attbyval a && negb (attlen a =? -1)).
  - subst. simpl. do 2 f_equal. specialize (Hb eq_refl). rewrite !elem_of_cons, elem_of_nil in Hb.
    assert (8 * attlen a <= 64 /\ 0 <= attlen a) as [Hw Hw0] by (destruct Hb as [-> | [-> | [-> | [-> | []]]]]; lia).
    unfold u64. rewrite <- (swrap_mod (8 * attlen a) (_ mod 2 ^ 64)) by lia.
    assert (2 ^ 64 = 2 ^ (64 - 8 * attlen a) * 2 ^ (8 * attlen a)) as E64 by (rewrite <- Z.pow_add_r by lia; f_equal; lia).
    assert (forall x, x mod 2 ^ 64 mod 2 ^ (8 * attlen a) = x mod 2 ^ (8 * attlen a)) as Hmod.
    { intros x. rewrite (Z.mod_eq x (2 ^ 64)) by lia. rewrite E64.
      rewrite <- (Z.mod_add (x - _) (2 ^ (64 - 8 * attlen a) * (x / (2 ^ (64 - 8 * attlen a) * 2 ^ (8 * attlen a))))) by lia.
      f_equal. lia. }
    rewrite Hmod, swrap_mod by lia.
    unfold swrap. destruct (Z.ltb_spec (DatumWord v mod 2 ^ (8 * attlen a)) (2 ^ (8 * attlen a - 1))).
    + rewrite Z.mod_mod by lia. destruct (Z.ltb_spec (DatumWord v mod 2 ^ (8 * attlen a)) (2 ^ (8 * attlen a - 1))); [done|lia].
    + assert ((DatumWord v mod 2 ^ (8 * attlen a) - 2 ^ (8 * attlen a)) mod 2 ^ (8 * attlen a)
        = DatumWord v mod 2 ^ (8 * attlen a)) as ->.
      { rewrite <- (Z.mod_add _ 1) by lia. replace (_ - _ + 1 * _) with (DatumWord v mod 2 ^ (8 * attlen a)) by lia.
        by rewrite Z.mod_mod by lia. }
      destruct (Z.ltb_spec (DatumWord v mod 2 ^ (8 * attlen a)) (2 ^ (8 * attlen a - 1))); [lia|done].
  - destruct Hf as (p & -> & Hp), Hf' as (q & -> & Hq). exists q. split; [done|]. simpl in *. by rewrite <- Hp, <- El.
Qed.

(** Columns with the same layout: what a modified tuple stores against what was
    asked for. *)
Definition same_col (c c' : column) : Prop :=
  strip c.1.1 = strip c'.1.1 /\ is_null c = is_null c' /\ (c'.2 <> null_char -> fetched c'.1.1 c'.1.2 c.1.2 \/ c.1.2 = c'.1.2).

Definition repl_cols (cols : list column) (replValue : list Datum) (replNull repl : list ascii) : list column :=
  zip_with (fun c x => if decide (x.2 = " "%char) then c else (c.1.1, x.1.1, x.1.2))
    cols (zip (zip replValue replNull) repl).

Lemma strip_col_ok a b : strip b = strip a -> att_ok a -> att_ok b /\
  (forall v, datum_ok a v -> datum_ok b v) /\ (forall v, col_len b v = col_len a v) /\ attalign b = attalign a.
Proof.
  intros E [H1 H2 H3]. injection E as E1 E2 E3 E4 E5 E6.
  assert (by_value b = by_value a) as Ev by (unfold by_value; by rewrite E1, E3).
  assert (forall v, col_len b v = col_len a v) as El by (intros v; unfold col_len; by rewrite E1).
  assert (VARLENA_FIXED_SIZE b = VARLENA_FIXED_SIZE a) as Ef by (unfold VARLENA_FIXED_SIZE; by rewrite E4, E5).
  split_and!; [|intros v; unfold datum_ok; rewrite Ev, El, E1, Ef, E5; done|done|done].
  split; rewrite ?E1, ?Ev, ?E4; done.
Qed.

Lemma same_cols_ok cs cs' : Forall2 same_col cs cs' -> Forall col_ok cs' ->
  Forall col_ok cs /\ forall off, layout_end off cs = layout_end off cs'.
Proof.
  induction 1 as [|[[b d] m] [[a v] n] cs cs' Hc _ IH]; intros Hok; [done|].
  apply Forall_cons in Hok as [[Ha Hv] Hok]. destruct (IH Hok) as [I1 I2]. destruct Hc as (Es & En & Hf). simpl in *.
  destruct (strip_col_ok a b Es Ha) as (Hb & Hd & El & Eal).
  unfold is_null in En. simpl in En.
  assert (m = null_char <-> n = null_char) as En'.
  { split; intros ->; rewrite (bool_decide_true (null_char = null_char)) in En by done;
      [symmetry in En|]; by apply bool_decide_eq_true in En. }
  assert (n <> null_char -> datum_ok b d /\ col_len b d = col_len a v) as Hnn.
  { intros Hn. specialize (Hv Hn). destruct (Hf Hn) as [Hf'| ->]; [|split; [by apply Hd|by apply El]].
    destruct (fetched_ok a v d Ha Hv Hf') as [Hda Hdl]. split; [by apply Hd|by rewrite El]. }
  split.
  - apply Forall_cons. split; [|done]. split; [done|]. intros Hm. apply Hnn. tauto.
  - intros off. cbn [layout_end]. rewrite Eal. destruct (decide (m = null_char)), (decide (n = null_char)); [apply I2|tauto|tauto|].
    destruct Hnn as [_ ->]; [done|]. apply I2.
Qed.


Lemma modify_loop_ok t cols n k att rv rn rp : stores t cols -> describes cols att ->
  (k + n = length cols)%nat -> length rv = n -> length rn = n -> length rp = n ->
  Forall (fun r => r = " "%char \/ r = "r"%char) rp ->
  exists ds ns att', modify_loop t n (Z.of_nat k) att rv rn rp = Ok (ds, ns, att') /\ describes cols att' /\
    length ds = n /\ length ns = n /\
    forall attrs, strip <$> attrs = desc cols ->
      Forall2 same_col (columns (drop k attrs) ds ns) (repl_cols (drop k cols) rv rn rp).
Proof.
  intros Hst. revert k att rv rn rp.
  induction n as [|n IH]; intros k att rv rn rp Hd Hk Hv Hn Hp Hr; destruct rv as [|d rv], rn as [|m rn], rp as [|r rp];
    try done.
  { exists [], [], att. split_and!; try done. intros attrs Hs.
    unfold repl_cols, columns. rewrite !zip_with_nil_r. done. }
  injection Hv as Hv. injection Hn as Hn. injection Hp as Hp. apply Forall_cons in Hr as [Hr Hrs].
  destruct (cols !! k) as [[[a v] nl]|] eqn:Ek; [|apply lookup_ge_None in Ek; lia].
  assert (exists d1 n1 att1, (if decide (r = " "%char) then
           let '(g, att) := HeapGetAttr t (Z.of_nat k + 1) att in
           match g with
           | Ok (Some d) => Ok (d, " "%char, att)
           | Ok None => Ok (Val 0, null_char, att)
           | Err e => Err e
           end
         else if negb (bool_decide (r = "r"%char)) then Err "heap_modifytuple: repl"
         else Ok (d, m, att)) = Ok (d1, n1, att1) /\ describes cols att1 /\
    forall b, strip b = strip a ->
      same_col (b, d1, n1) (if decide (r = " "%char) then (a, v, nl) else (a, d, m))) as (d1 & n1 & att1 & E1 & D1 & S1).
  { destruct (decide (r = " "%char)) as [->|Hne].
    - pose proof (HeapGetAttr_ok t cols Hst att k a v nl Hd Ek) as Hg.
      destruct (HeapGetAttr t (Z.of_nat k + 1) att) as [[[g|]|] att1]; destruct Hg as [Dg Hg]; [| |done].
      + destruct Hg as [Hnn Hf]. eexists _, _, _. split_and!; [done|done|]. intros b Hb. split_and!; simpl; auto.
        unfold is_null. simpl. by rewrite !bool_decide_false.
      + subst nl. eexists _, _, _. split_and!; [done|done|]. intros b Hb. split_and!; simpl; [done|done|done].
    - destruct Hr as [| ->]; [done|]. rewrite bool_decide_true by done. simpl.
      eexists _, _, _. split_and!; [done|done|]. intros b Hb. split_and!; simpl; auto. }
  destruct (IH (S k) att1 rv rn rp D1) as (ds & ns & att2 & E2 & D2 & L1 & L2 & F2); try done; [lia|].
  exists (d1 :: ds), (n1 :: ns), att2. cbn [modify_loop]. cbv beta iota delta [mbind result_bind].
  rewrite E1. cbn beta iota. replace (Z.of_nat k + 1) with (Z.of_nat (S k)) by lia. rewrite E2.
  split_and!; [done|done|simpl; lia|simpl; lia|]. intros attrs Hs.
  assert (exists b, attrs !! k = Some b /\ strip b = strip a) as (b & Eb & Sb).
  { apply (f_equal (fun l => l !! k)) in Hs. unfold desc in Hs. rewrite !list_lookup_fmap, Ek in Hs.
    destruct (attrs !! k) as [b|]; [|done]. exists b. split; [done|]. by apply (inj Some) in Hs. }
  rewrite (drop_S _ _ _ Ek), (drop_S _ _ _ Eb). unfold columns, repl_cols. cbn [zip zip_with].
  constructor; [by apply S1|]. by apply F2.
Qed.

(** [heap_modifytuple] replaces what it is asked to replace and keeps the rest,
    values and header. *)
Theorem heap_modifytuple_spec addr t cols att rv rn rp :
  stores t cols -> describes cols att -> Zlen cols <= MaxHeapAttributeNumber ->
  addr mod 8 = 0 -> 0 <= addr < 2 ^ 61 ->
  length rv = length cols -> length rn = length cols -> length rp = length cols ->
  Forall (fun r => r = " "%char \/ r = "r"%char) rp ->
  Forall col_ok (repl_cols cols rv rn rp) -> layout_end 0 (repl_cols cols rv rn rp) < 2 ^ 31 ->
  exists t' att', heap_modifytuple addr t att rv rn rp = Ok (t', att') /\ describes cols att' /\
    t_oid t' = t_oid t /\ t_self t' = t_self t /\ t_xmin (t_data t') = t_xmin (t_data t) /\
    t_xmax (t_data t') = t_xmax (t_data t) /\
    forall i a v n, repl_cols cols rv rn rp !! i = Some (a, v, n) ->
      match (HeapGetAttr t' (Z.of_nat i + 1) att').1 with
      | Ok None => n = null_char
      | Ok (Some d) => n <> null_char /\ fetched a v d
      | Err _ => False
      end.
Proof.
  intros Hst Hd Hmax Hal Haddr Hv Hn Hp Hr Hok Hsz.
  destruct (modify_loop_ok t cols (length cols) 0 att rv rn rp Hst Hd) as (ds & ns & att' & E & D & L1 & L2 & F); try done.
  pose proof (describes_length cols att Hd) as La. pose proof (describes_length cols att' D) as La'.
  specialize (F att' ltac:(by destruct D)). rewrite !drop_0 in F.
  destruct (same_cols_ok _ _ F Hok) as [Hok' Hend].
  destruct (heap_formtuple_stores addr att' ds ns) as (t1 & E1 & St1); try done; try lia; [by rewrite Hend|].
  unfold heap_modifytuple. cbv beta iota delta [mbind result_bind]. rewrite La.
  change (Z.of_nat 0) with 0 in E. rewrite E. cbn beta iota. rewrite E1.
  eexists _, _. split; [done|]. split; [done|]. simpl. split_and!; try done.
  intros i a v n Hi. set (t' := mkHeapTuple _ _ _ _ _ _ _ _ _).
  assert (stores t' (columns att' ds ns)) as St'.
  { destruct St1 as [A1 A2 A3 A4 A5 A6 A7 A8]. split; try done. simpl. rewrite columns_length; lia. }
  destruct (Forall2_lookup_r _ _ _ _ _ F Hi) as ([[b d] m] & Hi' & Es & En & Hf). simpl in *.
  assert (describes (columns att' ds ns) att') as D'.
  { destruct D as [D1 D2]. split; [|done]. by rewrite columns_desc by lia. }
  pose proof (HeapGetAttr_ok t' _ St' att' i b d m D' Hi') as Hg.
  destruct (HeapGetAttr t' (Z.of_nat i + 1) att') as [g att2]. simpl. destruct Hg as [_ Hg].
  unfold is_null in En. simpl in En.
  pose proof (Forall_lookup_1 _ _ _ _ Hok Hi) as [Ha Hav]. simpl in Ha, Hav.
  destruct g as [[g|]|]; [|subst m; rewrite bool_decide_true in En by done; symmetry in En; by apply bool_decide_eq_true in En|done].
  destruct Hg as [Hm Hg]. rewrite (bool_decide_false (m = null_char)) in En by done. symmetry in En.
  apply bool_decide_eq_false in En. split; [done|]. specialize (Hav En).
  assert (fetched a d g) as Hg' by (injection Es as E1' E2' E3' _; unfold fetched, by_value, col_len in *; by rewrite E1', E3' in Hg).
  destruct (Hf En) as [Hf'| ->]; [|done]. by eapply fetched_trans.
Qed.

(** ** The claims *)

(** Everything [heap_formtuple] asks of its arguments; the address is what the
    allocator returns behind the [HeapTupleData]. *)
Record formable (addr : Z) (attrs : list Form_pg_attribute) (value : list Datum) (nulls : list ascii) : Prop := {
  fo_values : length value = length attrs;
  fo_nulls : length nulls = length attrs;
  fo_natts : Zlen attrs <= MaxHeapAttributeNumber;
  fo_aligned : addr mod 8 = 0;
  fo_addr : 0 <= addr < 2 ^ 61;
  fo_cols : Forall col_ok (columns attrs value nulls);
  fo_size : layout_end 0 (columns attrs value nulls) < 2 ^ 31 }.

Lemma columns_lookup attrs value nulls i a v n : attrs !! i = Some a -> value !! i = Some v -> nulls !! i = Some n ->
  columns attrs value nulls !! i = Some (a, v, n).
Proof. intros Ha Hv Hn. unfold columns. apply lookup_zip_Some. split; [|done]. by apply lookup_zip_Some. Qed.

(** C21: What is stored in a heap tuple is what is fetched from it.  For every
    descriptor of well-formed attributes (any alignment, fixed and variable
    lengths, by value and by reference, padded [char(n)]) and every array of
    values and nulls, [heap_formtuple] succeeds, and [HeapGetAttr] on the result
    returns for each attribute null exactly when it was stored null and the
    stored value otherwise, on all of its paths (cached offset, completing the
    cache, careful walk), with whatever sound offsets the descriptor has cached;
    the offsets it adds to the cache are sound again, for every later tuple. *)
Theorem heap_tuple_roundtrip addr attrs value nulls :
  formable addr attrs value nulls ->
  exists t, heap_formtuple addr attrs value nulls = Ok t /\
    forall att i a v n, strip <$> att = strip <$> attrs -> cache_ok att ->
      attrs !! i = Some a -> value !! i = Some v -> nulls !! i = Some n ->
      let '(r, att') := HeapGetAttr t (Z.of_nat i + 1) att in
      strip <$> att' = strip <$> attrs /\ cache_ok att' /\
      match r with
      | Ok None => n = null_char
      | Ok (Some d) => n <> null_char /\ fetched a v d
      | Err _ => False
      end.
Proof.
  intros [H1 H2 H3 H4 H5 H6 H7].
  destruct (heap_formtuple_stores addr attrs value nulls H1 H2 H3 H4 H5 H6 H7) as (t & E & Hst).
  exists t. split; [done|]. intros att i a v n Hs Hc Ha Hv Hn. rewrite <- (columns_desc attrs value nulls H1 H2) in Hs |- *.
  pose proof (HeapGetAttr_ok t _ Hst att i a v n (conj Hs Hc) (columns_lookup _ _ _ _ _ _ _ Ha Hv Hn)) as H.
  destruct (HeapGetAttr t (Z.of_nat i + 1) att) as [r att']. destruct H as [[D1 D2] H]. done.
Qed.

(** Four attributes: a four-byte integer, a text, a null, a char. *)
Definition demo_attrs : list Form_pg_attribute :=
  [mkAtt 4 "i" true 23 (-1) "p" (-1); mkAtt (-1) "i" false 25 (-1) "p" (-1);
   mkAtt 2 "s" true 21 (-1) "p" (-1); mkAtt 1 "c" true 18 (-1) "p" (-1)]%char.
Definition demo_values : list Datum := [Val (u64 (-7)); Ptr [6; 0; 0; 0; 104; 105]; Val 0; Val 65].
Definition demo_nulls : list ascii := [" "; " "; "n"; " "]%char.

Lemma demo_formable : formable 4096 demo_attrs demo_values demo_nulls.
Proof.
  split; [done|done|vm_compute; discriminate|reflexivity|lia| |reflexivity].
  unfold columns, demo_attrs, demo_values, demo_nulls. cbn [zip zip_with].
  repeat (apply Forall_cons; split; [split; [split|]; simpl|]); [..|by apply Forall_nil];
    try (intros Hd; discriminate Hd); try lia; try (intros _; set_solver);
    try (intros Hn; unfold datum_ok, by_value; simpl; eauto; done).
  intros _. exists [6; 0; 0; 0; 104; 105]. split; [done|]. split; [vm_compute; discriminate|].
  intros _. split; [vm_compute; discriminate|]. intros Hf. discriminate Hf.
Defined.

Lemma heap_tuple_roundtrip_witness :
  exists t, heap_formtuple 4096 demo_attrs demo_values demo_nulls = Ok t /\
    (HeapGetAttr t 4 demo_attrs).1 = Ok (Some (Val 65)) /\ (HeapGetAttr t 3 demo_attrs).1 = Ok None /\
    fetched (mkAtt (-1) "i"%char false 25 (-1) "p"%char (-1)) (Ptr [6; 0; 0; 0; 104; 105])
      (Ptr (drop 4 (t_area t))).
Proof.
  destruct (heap_tuple_roundtrip 4096 demo_attrs demo_values demo_nulls demo_formable) as (t & E & H).
  exists t. split; [exact E|]. 
  specialize (H demo_attrs 1%nat _ _ _ eq_refl
    ltac:(intros i b Hi; left; do 4 (destruct i as [|i]; [by injection Hi as <-|]); discriminate Hi)
    eq_refl eq_refl eq_refl).
  destruct (HeapGetAttr t (Z.of_nat 1 + 1) demo_attrs) as [r att'] eqn:G.
  vm_compute in E. injection E as <-. vm_compute in G. injection G as <- <-. destruct H as (_ & _ & _ & H).
  split; [vm_compute; reflexivity|]. split; [vm_compute; reflexivity|]. exact H.
Defined.

End Heaptuple.
