(* ===== verification/Indextuple.v ===== *)
(** * Index tuples ([access/common/indextuple.c], [include/access/itup.h])

    An index tuple shares its data area with heap tuples ([Heaptuple.DataFill]);
    its header is a pointer to the heap and 16 bits: two flags and the size.  Reading an
    attribute uses and completes the offsets cached in the descriptor, as for heap tuples. *)

From S2P Require Import Prelude Bufpage Varlena Heaptuple.
From Stdlib Require Import Ascii.

Module Indextuple.
Import Varlena Heaptuple.

Definition INDEX_MAX_KEYS : Z := 9.
Definition INDEX_SIZE_MASK : Z := 0x1FFF.
Definition INDEX_NULL_MASK : Z := 0x8000.
Definition INDEX_VAR_MASK : Z := 0x4000.
Definition sizeof_IndexTupleData : Z := 16.
Definition sizeof_IndexAttributeBitMapData : Z := 2.

Record IndexTuple := mkIndexTuple {
  it_info : Z;
  it_bits : list Z;
  it_area : list Z }.

Definition IndexTupleSize (it : IndexTuple) : Z := Z.land (it_info it) 0x1FFF.
Definition IndexTupleNoNulls (it : IndexTuple) : bool := negb (it_info it .& 0x8000).
Definition IndexTupleAllFixed (it : IndexTuple) : bool := negb (it_info it .& 0x4000).

Definition IndexInfoFindDataOffset (t_info : Z) : Z :=
  if negb (u16 t_info .& INDEX_NULL_MASK) then sizeof_IndexTupleData
  else MAXALIGN (sizeof_IndexTupleData + sizeof_IndexAttributeBitMapData).

(** The size the tuple needs, before it is put into 13 bits. *)
Definition index_size (cols : list (Form_pg_attribute * Datum * ascii)) (hasnull : bool) : Z :=
  MAXALIGN (IndexInfoFindDataOffset (if hasnull then INDEX_NULL_MASK else 0) + ComputeDataSize cols).

Definition index_formtuple (addr : Z) (attrs : list Form_pg_attribute) (value : list Datum)
    (null : list ascii) : result IndexTuple :=
  let cols := columns attrs value null in
  let natts := Zlen attrs in
  if INDEX_MAX_KEYS <? natts then Err "index_formtuple: numberOfAttributes" else
  let hasnull := existsb (fun n => negb (bool_decide (n = " "%char))) null in
  let infomask := if hasnull then INDEX_NULL_MASK else 0 in
  let hoff := IndexInfoFindDataOffset infomask in
  let size := index_size cols hasnull in
  let f := DataFill (addr + hoff) cols (replicate (Z.to_nat (size - hoff)) 0)
             (if hasnull then Some (replicate (Z.to_nat (hoff - sizeof_IndexTupleData)) 0) else None) in
  let infomask := if f_infomask f .& 0x02 then Z.lor infomask INDEX_VAR_MASK else infomask in
  if size .& 0xE000 then Err "index_formtuple: data takes too many bytes"
  else Ok (mkIndexTuple (u16 (Z.lor infomask size))
             (if hasnull then f_bits f else []) (f_mem f)).

(** *** Reading an attribute *)

(** [while (att[j]->attcacheoff != -1) j++;] *)
Fixpoint index_skip (fuel : nat) (att : list Form_pg_attribute) (j : Z) : Z :=
  match fuel with
  | O => j
  | S fuel => if negb (attcacheoff (att_ att j) =? -1) then index_skip fuel att (j + 1) else j
  end.

(** [for (; j < attnum + 1; j++)]: [n] turns are left. *)
Fixpoint index_cache_fill (n : nat) (att : list Form_pg_attribute) (j off : Z) : list Form_pg_attribute :=
  match n with
  | O => att
  | S n =>
    let off := att_align off (attalign (att_ att j)) in
    let att := set_cache att j (i32 off) in
    let a := att_ att j in
    index_cache_fill n att (j + 1) (if negb (VARLENA_FIXED_SIZE a) then off + attlen a else off + atttypmod a)
  end.

(** The datum and the descriptor with the offsets it caches.  The careful walk is
    that of heap tuples. *)
Definition nocache_index_getattr (tup : IndexTuple) (attnum : Z) (att : list Form_pg_attribute) :
    Datum * list Form_pg_attribute :=
  let attnum := attnum - 1 in
  let tp := it_area tup in
  let fetch att off := (HeapFetchAtt (att_ att attnum) (at_off tp off), att) in
  let slow := if IndexTupleNoNulls tup then false else nulls_before (it_bits tup) attnum in
  if negb slow && negb (attcacheoff (att_ att attnum) =? -1) then fetch att (attcacheoff (att_ att attnum))
  else if negb slow && (attnum =? 0) then fetch att 0
  else
    let slow := slow || (negb (IndexTupleAllFixed tup) && existsb varies (take (Z.to_nat attnum) att)) in
    if negb slow then
      let att := set_cache att 0 0 in
      let j := index_skip (length att) att 1 in
      let p := att_ att (j - 1) in
      let off := if negb (VARLENA_FIXED_SIZE p) then attcacheoff p + attlen p else attcacheoff p + atttypmod p in
      let att := index_cache_fill (Z.to_nat (attnum + 1 - j)) att j off in
      fetch att (attcacheoff (att_ att attnum))
    else
      let '(att, off) := careful_walk (Z.to_nat attnum) (IndexTupleNoNulls tup) (it_bits tup) tp att 0 0 true in
      fetch att (i32 (att_align off (attalign (att_ att attnum)))).

(** The macro: [None] for a null. *)
Definition index_getattr (tup : IndexTuple) (attnum : Z) (att : list Form_pg_attribute) :
    option Datum * list Form_pg_attribute :=
  let a := att_ att (attnum - 1) in
  let nocache := let '(d, att) := nocache_index_getattr tup attnum att in (Some d, att) in
  if IndexTupleNoNulls tup then
    if negb (attcacheoff a =? -1) || (attnum =? 1)
    then (Some (HeapFetchAtt a (at_off (it_area tup) (if negb (attnum =? 1) then attcacheoff a else 0))), att)
    else nocache
  else if att_isnull (attnum - 1) (it_bits tup) then (None, att) else nocache.

(** ** The size field *)

Lemma no_E000 size : 0 <= size -> size .& 0xE000 = false <-> size mod 2 ^ 16 < 2 ^ 13.
Proof.
  intros H0. split.
  - intros Hf. apply bounded_bits; [lia|apply Z.mod_pos_bound; lia|]. intros i Hi.
    rewrite testbit_mod_pow2 by lia. destruct (Z.ltb_spec i 16); [|done]. simpl.
    destruct (Z.testbit size i) eqn:E; [|done]. exfalso.
    pose proof (flag_false size 0xE000 i Hf ltac:(lia) E) as Hb.
    assert (i = 13 \/ i = 14 \/ i = 15) as [-> | [-> | ->]] by lia; discriminate Hb.
  - intros Hlt. apply not_true_iff_false. rewrite flag_true. intros (i & Hi & H1 & H2).
    assert (i < 16) as Hi16.
    { destruct (Z.lt_ge_cases i 16); [done|]. rewrite (testbit_above 0xE000 16 i) in H2; [done|lia|lia]. }
    assert (Z.testbit (size mod 2 ^ 16) i = true) as H3
      by (rewrite testbit_mod_pow2 by lia; destruct (Z.ltb_spec i 16); [done|lia]).
    destruct (Z.lt_ge_cases i 13) as [Hl|Hg].
    + assert (forallb (fun k => negb (Z.testbit 0xE000 k)) (seqZ 0 13) = true) as Hall by reflexivity.
      rewrite forallb_forall in Hall. specialize (Hall i). rewrite H2 in Hall. discriminate Hall.
      apply list_elem_of_In, elem_of_seqZ. lia.
    + rewrite (testbit_above _ 13 i) in H3; [done| |lia]. split; [apply Z.mod_pos_bound; lia|done].
Qed.

Lemma size_field m size : m ∈ [0; INDEX_NULL_MASK; INDEX_VAR_MASK; Z.lor INDEX_NULL_MASK INDEX_VAR_MASK] ->
  0 <= size -> size mod 2 ^ 16 < 2 ^ 13 ->
  Z.land (u16 (Z.lor m size)) 0x1FFF = size mod 2 ^ 16 /\
  (u16 (Z.lor m size) .& 0x8000) = (m .& 0x8000) /\ (u16 (Z.lor m size) .& 0x4000) = (m .& 0x4000).
Proof.
  intros Hm H0 Hs.
  assert (forall i, 13 <= i < 16 -> Z.testbit size i = false) as Hhi.
  { intros i Hi. pose proof (testbit_mod_pow2 size 16 i ltac:(lia)) as E. rewrite (testbit_above _ 13 i) in E.
    - destruct (Z.ltb_spec i 16); [done|lia].
    - split; [apply Z.mod_pos_bound; lia|done].
    - lia. }
  assert (forall i, 0 <= i < 13 -> Z.testbit m i = false) as Hlo.
  { intros i Hi. assert (forallb (fun k => negb (Z.testbit m k)) (seqZ 0 13) = true) as Hall.
    { rewrite !elem_of_cons, elem_of_nil in Hm. destruct Hm as [-> | [-> | [-> | [-> | []]]]]; reflexivity. }
    rewrite forallb_forall in Hall. apply negb_true_iff, Hall. apply list_elem_of_In, elem_of_seqZ. lia. }
  unfold u16. split_and!.
  - change 0x1FFF with (Z.ones 13). zbits i Hi. rewrite !testbit_mod_pow2, Z.testbit_ones_nonneg by lia. autorewrite with wbits.
    destruct (Z.ltb_spec i 13); rewrite ?andb_true_r, ?andb_false_r.
    + by rewrite Hlo by lia.
    + destruct (Z.ltb_spec i 16); [|done]. by rewrite Hhi by lia.
  - rewrite !(flag_pow2 _ 15) by lia. rewrite testbit_mod_pow2 by lia. autorewrite with wbits.
    by rewrite Hhi, orb_false_r by lia.
  - rewrite !(flag_pow2 _ 14) by lia. rewrite testbit_mod_pow2 by lia. autorewrite with wbits.
    by rewrite Hhi, orb_false_r by lia.
Qed.

(** ** Reading what was formed *)

(** The data area of an index tuple is that of a heap tuple. *)
Definition as_heap (natts : Z) (it : IndexTuple) : HeapTuple :=
  mkHeapTuple 0 0 0 0 (Tqual.mkTuple 0 0 0 (0, 0)
    (Z.lor (if IndexTupleNoNulls it then 0 else HEAP_HASNULL) (if IndexTupleAllFixed it then 0 else HEAP_HASVARLENA)))
    natts 0 (it_bits it) (it_area it).

Lemma as_heap_flags n it : HeapTupleNoNulls (as_heap n it) = IndexTupleNoNulls it /\ HeapTupleAllFixed (as_heap n it) = IndexTupleAllFixed it.
Proof. unfold HeapTupleNoNulls, HeapTupleAllFixed, as_heap. by destruct (IndexTupleNoNulls it), (IndexTupleAllFixed it). Qed.

Section IndexRead.
Context (it : IndexTuple) (cols : list column).
Let t := as_heap (Zlen cols) it.
Hypothesis Hst : stores t cols.

Lemma index_skip_ok fuel att j i : attcacheoff (att_ att i) = -1 -> j <= i -> i - j < Z.of_nat fuel ->
  let j' := index_skip fuel att j in
  j <= j' <= i /\ (j < j' -> attcacheoff (att_ att (j' - 1)) <> -1).
Proof.
  intros Hi. revert j. induction fuel as [|fuel IH]; intros j Hj Hf; [lia|]. simpl.
  destruct (Z.eqb_spec (attcacheoff (att_ att j)) (-1)) as [Hp|Hp]; cbn [negb]; [split; lia|].
  destruct (decide (j = i)) as [->|]; [lia|]. destruct (IH (j + 1)) as [? Hc]; [lia..|]. split; [lia|].
  intros _. destruct (decide (index_skip fuel att (j + 1) = j + 1)) as [->|]; [by replace (j + 1 - 1) with j by lia|].
  apply Hc. lia.
Qed.

(** The attribute asked for may have any length: its end is not used. *)
Lemma index_cache_fill_ok n : forall j att off, describes cols att -> (j + n <= length cols)%nat ->
  Forall (fun c => is_null c = false) (take (j + n) cols) -> Forall (fun b => varies b = false) (take (j + n - 1) (desc cols)) ->
  (n = 0%nat \/ off = layout_end 0 (take j cols)) ->
  let att' := index_cache_fill n att (Z.of_nat j) off in
  describes cols att' /\ (forall k, k < Z.of_nat j -> att_ att' k = att_ att k) /\
  (forall k, Z.of_nat j <= k < Z.of_nat (j + n) -> attcacheoff (att_ att' k) <> -1).
Proof.
  induction n as [|n IH]; intros j att off Hd Hl Hn Hf Hoff; cbn [index_cache_fill].
  { split_and!; [done|done|lia]. }
  destruct Hoff as [?|Hoff]; [lia|]. subst off.
  destruct (cols !! j) as [[[a v] nn]|] eqn:Ej; [|apply lookup_ge_None in Ej; lia].
  assert (nn <> null_char) as Hnn by (apply (not_null_at cols j (a, v, nn) (j + S n)); [done|lia|done]).
  destruct (describes_at cols att j a v nn Hd Ej) as (Ha & _ & Hlen & Hal & Hvf & Htm).
  pose proof (lookup_lt_Some _ _ _ Ha) as Hlt. pose proof (offset_bounds t cols Hst j a v nn Ej Hnn) as Ho. rewrite Hal.
  set (o := att_align (layout_end 0 (take j cols)) (attalign a)) in *. rewrite (i32_id o) by lia.
  rewrite set_cache_at, Z.eqb_refl by done. cbn [set_attcacheoff attlen atttypmod].
  change (VARLENA_FIXED_SIZE (set_attcacheoff (att_ att (Z.of_nat j)) o)) with (VARLENA_FIXED_SIZE (att_ att (Z.of_nat j))).
  replace (Z.of_nat j + 1) with (Z.of_nat (S j)) by lia.
  match goal with |- context [index_cache_fill n _ _ ?e] => set (off' := e) end.
  destruct (IH (S j) (set_cache att (Z.of_nat j) o) off') as (D & K & C).
  - apply (describes_set t cols Hst att j a v nn); try done; (eapply Forall_take_le; [|done]); lia.
  - lia.
  - by replace (S j + n)%nat with (j + S n)%nat by lia.
  - by replace (S j + n - 1)%nat with (j + S n - 1)%nat by lia.
  - destruct n as [|n]; [by left|right]. rewrite (fixed_step t cols Hst j a v nn Ej) by (eapply Forall_take_le; [|done]; lia).
    unfold off', fixlen. rewrite Hlen, Hvf, Htm. fold o. by destruct (VARLENA_FIXED_SIZE a).
  - split_and!; [exact D| |].
    + intros k Hk. rewrite K by lia. rewrite set_cache_at by done. destruct (Z.eqb_spec k (Z.of_nat j)); [lia|done].
    + intros k Hk. destruct (decide (k = Z.of_nat j)) as [->|]; [|apply C; lia].
      rewrite K by lia. rewrite set_cache_at, Z.eqb_refl by done. simpl. lia.
Qed.

Lemma index_fixed_upto att i a v n : describes cols att -> cols !! i = Some (a, v, n) -> n <> null_char ->
  Forall (fun c => is_null c = false) (take i cols) ->
  negb (IndexTupleAllFixed it) && existsb varies (take i att) = false -> Forall (fun b => varies b = false) (take i (desc cols)).
Proof.
  intros Hd Hi Hn Hnn Hv. destruct (IndexTupleAllFixed it) eqn:Ef; cbn [negb andb] in Hv.
  - apply (Forall_take_le _ _ i (S i)); [lia|]. apply (fixed_upto t cols Hst att i a v n Hd Hi Hn Hnn).
    unfold t. by rewrite (proj2 (as_heap_flags _ _)), Ef.
  - destruct Hd as [Hs _]. rewrite <- Hs, <- fmap_take. apply existsb_false_Forall in Hv. apply Forall_fmap. eapply Forall_impl; [exact Hv|]. done.
Qed.
(** Completing the cache. *)
Lemma index_cached att i a v n : describes cols att -> cols !! i = Some (a, v, n) -> n <> null_char -> (0 < i)%nat ->
  Forall (fun c => is_null c = false) (take i cols) -> Forall (fun b => varies b = false) (take i (desc cols)) -> attcacheoff (att_ att (Z.of_nat i)) = -1 ->
  let att1 := set_cache att 0 0 in let j := index_skip (length att1) att1 1 in let p := att_ att1 (j - 1) in
  let off := if negb (VARLENA_FIXED_SIZE p) then attcacheoff p + attlen p else attcacheoff p + atttypmod p in
  let att2 := index_cache_fill (Z.to_nat (Z.of_nat i + 1 - j)) att1 j off in
  describes cols att2 /\ attcacheoff (att_ att2 (Z.of_nat i)) <> -1.
Proof.
  intros Hd Hi Hn Hi0 Es Hf Ec. pose proof (lookup_lt_Some _ _ _ Hi) as Hlt. pose proof (describes_length cols att Hd) as Hlen.
  destruct (cols !! 0%nat) as [[[a0 v0] n0]|] eqn:E00; [|apply lookup_ge_None in E00; lia].
  cbn zeta. set (att1 := set_cache att 0 0). assert (describes cols att1) as Hd0.
  { pose proof (describes_set t cols Hst att 0 a0 v0 n0 Hd E00) as H. rewrite take_0 in H. simpl layout_end in H.
    rewrite att_align_0 in H. by apply H; [constructor|rewrite take_0]. }
  assert (forall k, att_ att1 k = if k =? 0 then set_attcacheoff (att_ att 0) 0 else att_ att k) as Hat
    by (intros k; apply (set_cache_at att 0); lia).
  destruct (index_skip_ok (length att1) att1 1 (Z.of_nat i)) as [Hj Hc].
  { rewrite Hat. by destruct (Z.eqb_spec (Z.of_nat i) 0); [lia|]. }
  { lia. }
  { rewrite (describes_length cols att1 Hd0). lia. }
  set (j := index_skip (length att1) att1 1) in *.
  destruct (cols !! Z.to_nat (j - 1)) as [[[b w] m]|] eqn:Ej; [|apply lookup_ge_None in Ej; lia].
  assert (Z.of_nat (Z.to_nat (j - 1)) = j - 1) as Ejz by lia.
  assert (attcacheoff (att_ att1 (j - 1)) = att_align (layout_end 0 (take (Z.to_nat (j - 1)) cols)) (attalign b)) as Ecj.
  { pose proof (cached_right t cols Hst att1 _ b w m Hd0 Ej) as H. rewrite Ejz in H.
    apply H; [eapply Forall_take_le; [|done]; lia|]. destruct (decide (1 < j)) as [Hgt|]; [by apply Hc|].
    replace (j - 1) with 0 by lia. rewrite Hat. simpl. lia. }
  destruct (describes_at cols att1 (Z.to_nat (j - 1)) b w m Hd0 Ej) as (_ & _ & El & _ & Evf & Etm). rewrite Ejz in El, Evf, Etm.
  match goal with |- context [index_cache_fill _ att1 j ?e] => set (off := e) end.
  assert (off = layout_end 0 (take (Z.to_nat j) cols)) as Eoff.
  { unfold off. rewrite Ecj, El, Evf, Etm. replace (Z.to_nat j) with (S (Z.to_nat (j - 1))) by lia.
    rewrite (fixed_step t cols Hst _ b w m Ej) by (eapply Forall_take_le; [|done]; lia). unfold fixlen. by destruct (VARLENA_FIXED_SIZE b). }
  replace (Z.to_nat (Z.of_nat i + 1 - j)) with (S i - Z.to_nat j)%nat by lia.
  destruct (index_cache_fill_ok (S i - Z.to_nat j) (Z.to_nat j) att1 off Hd0) as (D & _ & C); [lia| | |by right|].
  { replace (Z.to_nat j + (S i - Z.to_nat j))%nat with (S i) by lia. rewrite (take_S_r _ _ _ Hi).
    apply Forall_app. split; [done|]. constructor; [|done]. unfold is_null. by rewrite bool_decide_false. }
  { by replace (Z.to_nat j + (S i - Z.to_nat j) - 1)%nat with i by lia. }
  rewrite Z2Nat.id in D, C by lia. split; [exact D|]. apply C. lia.
Qed.

Lemma nocache_index_ok att i a v n : describes cols att -> cols !! i = Some (a, v, n) -> n <> null_char ->
  let '(d, att') := nocache_index_getattr it (Z.of_nat i + 1) att in fetched a v d /\ describes cols att'.
Proof.
  intros Hd Hi Hn. pose proof (lookup_lt_Some _ _ _ Hi) as Hlt. destruct (as_heap_flags (Zlen cols) it) as [En Ea]. fold t in En, Ea.
  assert (forall att', describes cols att' -> strip (att_ att' (Z.of_nat i)) = strip a) as Hst'.
  { intros att' Hd'. by destruct (describes_at cols att' i a v n Hd' Hi) as (_ & ? & _). }
  pose proof (careful_fetch t cols Hst att i a v n Hd Hi Hn) as Hcare. rewrite En in Hcare. change (t_bits t) with (it_bits it) in Hcare. change (t_area t) with (it_area it) in Hcare.
  pose proof (fetch_at t cols Hst i a v n) as Hfetch. change (t_area t) with (it_area it) in Hfetch.
  unfold nocache_index_getattr. replace (Z.of_nat i + 1 - 1) with (Z.of_nat i) by lia.
  assert ((if IndexTupleNoNulls it then false else nulls_before (it_bits it) (Z.of_nat i)) = existsb is_null (take i cols)) as ->.
  { rewrite <- (nulls_before_ok t cols Hst i Hlt), En. by destruct (IndexTupleNoNulls it). }
  destruct (existsb is_null (take i cols)) eqn:Es; cbn [negb andb orb].
  - rewrite Nat2Z.id. by destruct (careful_walk i _ _ _ att 0 0 true).
  - apply existsb_false_Forall in Es.
    destruct (Z.eqb_spec (attcacheoff (att_ att (Z.of_nat i))) (-1)) as [Ec|Ec]; cbn [negb].
    2:{ split; [|done]. apply Hfetch; try done; [by apply Hst'|]. by apply (cached_right t cols Hst att i a v n). }
    destruct (Z.eqb_spec (Z.of_nat i) 0) as [E0|E0].
    { split; [|done]. apply Hfetch; try done; [by apply Hst'|]. assert (i = 0%nat) as -> by lia. by rewrite att_align_0. }
    rewrite Nat2Z.id. destruct (negb (IndexTupleAllFixed it) && existsb varies (take i att)) eqn:Ev; cbn [negb].
    + by destruct (careful_walk i _ _ _ att 0 0 true).
    + pose proof (index_fixed_upto att i a v n Hd Hi Hn Es Ev) as Hf.
      destruct (index_cached att i a v n Hd Hi Hn ltac:(lia) Es Hf Ec) as [D C]. split; [|exact D].
      apply Hfetch; try done; [by apply Hst'|]. by apply (cached_right t cols Hst _ i a v n D Hi Es).
Qed.

Lemma index_getattr_ok att i a v n : describes cols att -> cols !! i = Some (a, v, n) ->
  let '(r, att') := index_getattr it (Z.of_nat i + 1) att in
  describes cols att' /\ match r with None => n = null_char | Some d => n <> null_char /\ fetched a v d end.
Proof.
  intros Hd Hi. destruct (as_heap_flags (Zlen cols) it) as [En _]. fold t in En.
  pose proof (att_isnull_ok t cols Hst i a v n Hi) as Hnull. rewrite En in Hnull. change (t_bits t) with (it_bits it) in Hnull.
  pose proof (nocache_index_ok att i a v n Hd Hi) as Hno. unfold index_getattr. replace (Z.of_nat i + 1 - 1) with (Z.of_nat i) by lia.
  destruct (IndexTupleNoNulls it) eqn:E; cbn [negb andb] in Hnull.
  - unfold nul in Hnull. symmetry in Hnull. apply bool_decide_eq_false in Hnull. destruct (_ || _) eqn:Eb.
    + split; [done|]. split; [done|]. apply (fetch_at t cols Hst i a v n); try done; [by destruct (describes_at cols att i a v n Hd Hi) as (_ & ? & _)|].
      destruct (Z.eqb_spec (Z.of_nat i + 1) 1) as [E1|E1]; cbn [negb].
      * assert (i = 0%nat) as -> by lia. by rewrite att_align_0.
      * rewrite orb_false_r in Eb. apply negb_true_iff, Z.eqb_neq in Eb. apply (cached_right t cols Hst att i a v n Hd Hi); [|done].
        apply Forall_take, existsb_false_Forall. pose proof (st_nonulls _ _ Hst) as Hnn. rewrite En in Hnn. by apply negb_true_iff.
    + specialize (Hno Hnull). destruct (nocache_index_getattr it _ att) as [d att']. destruct Hno. done.
  - rewrite Hnull. unfold nul. case_bool_decide as Hn; [done|].
    specialize (Hno Hn). destruct (nocache_index_getattr it _ att) as [d att']. destruct Hno. done.
Qed.
End IndexRead.

(** *** Forming *)

Lemma index_hasnull attrs value nulls : length value = length attrs -> length nulls = length attrs ->
  Forall (fun n => n = " "%char \/ n = null_char) nulls ->
  existsb (fun n => negb (bool_decide (n = " "%char))) nulls = existsb is_null (columns attrs value nulls).
Proof.
  intros Hv Hn H. unfold columns. assert (length (zip attrs value) = length nulls) as Hl by (rewrite length_zip; lia).
  revert Hl. generalize (zip attrs value). clear Hv Hn. induction H as [|n nulls Hn _ IH]; intros [|x l] Hl; try done.
  cbn [zip zip_with existsb]. rewrite (IH l) by (simpl in Hl; lia). f_equal. unfold is_null. cbn [snd]. by destruct Hn as [-> | ->].
Qed.

Lemma index_formtuple_stores addr attrs value nulls : formable addr attrs value nulls -> Zlen attrs <= INDEX_MAX_KEYS ->
  Forall (fun n => n = " "%char \/ n = null_char) nulls ->
  let cols := columns attrs value nulls in let size := index_size cols (existsb is_null cols) in size < 2 ^ 13 ->
  exists it, index_formtuple addr attrs value nulls = Ok it /\ IndexTupleSize it = size /\ stores (as_heap (Zlen cols) it) cols.
Proof.
  intros [Hlv Hln _ Hal Ha Hc Hsz] Hmax Hnulls cols size Hsize. pose proof (columns_length attrs value nulls Hlv Hln) as Hlen. fold cols in Hlen, Hc, Hsz.
  unfold INDEX_MAX_KEYS in Hmax. assert (room 0 cols) as Hr by (unfold room; lia). destruct (layout_end_mono 0 cols Hc Hr) as [H0 _].
  unfold index_formtuple. rewrite (proj2 (Z.ltb_ge _ _)) by (unfold INDEX_MAX_KEYS; lia). rewrite (index_hasnull attrs value nulls Hlv Hln Hnulls). fold cols size.
  set (hasnull := existsb is_null cols) in *. set (hoff := IndexInfoFindDataOffset (if hasnull then INDEX_NULL_MASK else 0)).
  assert (hoff = if hasnull then 24 else 16) as Eh by (unfold hoff; by destruct hasnull).
  assert (size = MAXALIGN (hoff + layout_end 0 cols)) as Es by (unfold size, index_size; fold hoff; by rewrite ComputeDataSize_layout).
  destruct (MAXALIGN_spec (hoff + layout_end 0 cols)) as (_ & Hge & _); [destruct hasnull; lia|].
  assert (size mod 2 ^ 16 = size) as Em by (apply Z.mod_small; destruct hasnull; lia).
  rewrite (proj2 (no_E000 size ltac:(destruct hasnull; lia))) by lia. eexists. split; [reflexivity|].
  set (bits0 := replicate (Z.to_nat (hoff - sizeof_IndexTupleData)) 0).
  destruct (DataFill_ok (addr + hoff) cols (replicate (Z.to_nat (size - hoff)) 0) bits0) as (K1 & K2 & B & M); try done.
  { rewrite Z.add_mod, Hal, Eh by lia. by destruct hasnull. }
  { destruct hasnull; lia. }
  { rewrite length_replicate. lia. }
  { apply Forall_replicate. lia. }
  { fold hasnull. intros E. unfold bits0. rewrite length_replicate, Eh, E. unfold sizeof_IndexTupleData. lia. }
  fold hasnull in K1, K2, B, M. set (f := DataFill _ _ _ _) in *. set (m := if f_infomask f .& 0x02 then _ else _).
  assert (m ∈ [0; INDEX_NULL_MASK; INDEX_VAR_MASK; Z.lor INDEX_NULL_MASK INDEX_VAR_MASK] /\ (m .& 0x8000) = hasnull /\ (m .& 0x4000) = existsb var_col cols) as (Hm & Hm1 & Hm2).
  { change HEAP_HASVARLENA with 0x02 in K2. unfold m. rewrite K2. clearbody hasnull. split; [|by destruct hasnull, (existsb var_col cols)].
    destruct hasnull, (existsb var_col cols); apply (bool_decide_unpack _); vm_compute; exact I. }
  destruct (size_field m size Hm ltac:(destruct hasnull; lia) ltac:(lia)) as (F1 & F2 & F3). rewrite Em in F1. rewrite Hm1 in F2. rewrite Hm2 in F3.
  split; [exact F1|]. set (it := mkIndexTuple _ _ _). destruct (as_heap_flags (Zlen cols) it) as [En Ea].
  assert (IndexTupleNoNulls it = negb hasnull) as En' by (unfold IndexTupleNoNulls; cbn [it it_info]; by rewrite F2).
  split; try done.
  - by rewrite En, En'.
  - rewrite Ea. unfold IndexTupleAllFixed. cbn [it it_info]. by rewrite F3.
  - rewrite En, En'. intros E. apply negb_false_iff in E. destruct (B E) as (B1 & B2 & B3). cbn [as_heap t_bits it it_bits]. rewrite E.
    split_and!; [|done|done]. rewrite B1. unfold bits0. rewrite length_replicate, Eh, E. unfold sizeof_IndexTupleData. lia.
Qed.




(** C35: The size check of [index_formtuple] looks at bits 13 to 15 only.  A
    tuple of at most 64 kB is accepted exactly when its size fits the 13 bits of
    the header, which then hold it; but a tuple of 64 kB to 72 kB passes the
    check too, and its header announces a size that is 65536 too small. *)
Theorem index_formtuple_size addr attrs value null size :
  Zlen attrs <= INDEX_MAX_KEYS ->
  size = index_size (columns attrs value null) (existsb (fun n => negb (bool_decide (n = " "%char))) null) ->
  0 <= size ->
  (size < 2 ^ 13 -> exists it, index_formtuple addr attrs value null = Ok it /\ IndexTupleSize it = size) /\
  (2 ^ 13 <= size < 2 ^ 16 -> exists e, index_formtuple addr attrs value null = Err e) /\
  (2 ^ 16 <= size < 2 ^ 16 + 2 ^ 13 ->
     exists it, index_formtuple addr attrs value null = Ok it /\ IndexTupleSize it = size - 2 ^ 16).
Proof.
  intros Hn Hsize H0. unfold index_formtuple. rewrite (proj2 (Z.ltb_ge _ _)) by lia.
  rewrite <- Hsize. clear Hsize. set (hasnull := existsb _ null). set (f := DataFill _ _ _ _).
  set (m := if f_infomask f .& 0x02 then _ else _).
  assert (m ∈ [0; INDEX_NULL_MASK; INDEX_VAR_MASK; Z.lor INDEX_NULL_MASK INDEX_VAR_MASK]) as Hm.
  { subst m. clearbody hasnull. destruct hasnull, (f_infomask f .& 0x02); vm_compute; set_solver. }
  split_and!; intros Hs.
  - assert (size mod 2 ^ 16 = size) as Em by (apply Z.mod_small; lia).
    rewrite (proj2 (no_E000 size H0)) by lia. eexists. split; [done|].
    unfold IndexTupleSize. simpl it_info. rewrite <- Em at 2. apply size_field; [done|done|lia].
  - assert (size mod 2 ^ 16 = size) as Em by (apply Z.mod_small; lia).
    destruct (size .& 0xE000) eqn:E; [eauto|]. apply (no_E000 size H0) in E. lia.
  - assert (size mod 2 ^ 16 = size - 2 ^ 16) as Em by (symmetry; apply (Z.mod_unique _ _ 1); lia).
    rewrite (proj2 (no_E000 size H0)) by lia. eexists. split; [done|].
    unfold IndexTupleSize. simpl it_info. rewrite <- Em. apply size_field; [done|done|lia].
Qed.

(** Three keys of 21840 bytes each: 65536 bytes with the header, stored as 0. *)
Definition wide_attr : Form_pg_attribute := mkAtt 21840 "c"%char false 17 (-1) "p"%char (-1).
Definition wide : Datum := Ptr (replicate (Z.to_nat 21840) 0).

Lemma index_formtuple_size_witness :
  exists it, index_formtuple 4096 [wide_attr; wide_attr; wide_attr] [wide; wide; wide]
               [" "; " "; " "]%char = Ok it /\ IndexTupleSize it = 0.
Proof.
  apply (index_formtuple_size 4096 [wide_attr; wide_attr; wide_attr] [wide; wide; wide]
           [" "; " "; " "]%char (2 ^ 16)); [vm_compute; discriminate|vm_compute; reflexivity|lia|lia].
Defined.

End Indextuple.
