(* ===== verification/Numeric.v ===== *)
(** * Exact decimal numbers ([utils/adt/numeric.c])

    The variable format of numeric.c, its unsigned and signed arithmetic and
    comparison, the packed format stored in tuples and the SQL functions that
    unpack, compute and pack.  [numval] reads a variable as a rational number;
    the theorems say that addition, subtraction and multiplication are exact
    and that comparison is the order of the rationals.

    A digit buffer is the list of its digits in use; [ndigits] is its length.
    The spare byte in front of the digits, which rounding carries into, is
    written out in [carry_loop] ([alloc_var] sets it to zero).  The file-level
    variable [global_rscale] is an argument of the functions that read it. *)

From S2P Require Import Prelude.
From S2P Require Import Varlena.
From Stdlib Require Import QArith Qround Qpower.
Open Scope Z_scope.

Module Numeric.

(** ** Constants of numeric.h *)

Definition NUMERIC_MAX_PRECISION : Z := 1000.
Definition NUMERIC_DEFAULT_PRECISION : Z := 30.
Definition NUMERIC_DEFAULT_SCALE : Z := 6.
Definition NUMERIC_MAX_DISPLAY_SCALE : Z := NUMERIC_MAX_PRECISION.
Definition NUMERIC_MIN_DISPLAY_SCALE : Z := NUMERIC_DEFAULT_SCALE + 4.
Definition NUMERIC_MAX_RESULT_SCALE : Z := NUMERIC_MAX_PRECISION * 2.
Definition NUMERIC_MIN_RESULT_SCALE : Z := NUMERIC_DEFAULT_PRECISION + 4.
Definition NUMERIC_SIGN_MASK : Z := 0xC000.
Definition NUMERIC_POS : Z := 0x0000.
Definition NUMERIC_NEG : Z := 0x4000.
Definition NUMERIC_NAN : Z := 0xC000.
Definition NUMERIC_DSCALE_MASK : Z := 0x3FFF.
Definition NUMERIC_HDRSZ : Z := 4 + 2 * 3.

(** ** Variables *)

Record NumericVar := mkVar {
  weight : Z;
  rscale : Z;
  dscale : Z;
  sign : Z;
  digits : list Z
}.

Definition ndigits (v : NumericVar) : Z := Zlen (digits v).

(** [init_var]: all fields zero. *)
Definition init_var : NumericVar := mkVar 0 0 0 0 [].

Definition const_zero : NumericVar := mkVar 0 0 0 NUMERIC_POS [].
Definition const_one : NumericVar := mkVar 0 0 0 NUMERIC_POS [1].
Definition const_nan : NumericVar := mkVar 0 0 0 NUMERIC_NAN [].

Definition set_sign (s : Z) (v : NumericVar) : NumericVar :=
  mkVar (weight v) (rscale v) (dscale v) s (digits v).
Definition set_rscale (r : Z) (v : NumericVar) : NumericVar :=
  mkVar (weight v) r (dscale v) (sign v) (digits v).
Definition set_dscale (d : Z) (v : NumericVar) : NumericVar :=
  mkVar (weight v) (rscale v) d (sign v) (digits v).
(** An assignment to [ndigits] of a count that is not larger. *)
Definition set_ndigits (n : Z) (v : NumericVar) : NumericVar :=
  mkVar (weight v) (rscale v) (dscale v) (sign v) (take (Z.to_nat n) (digits v)).

Definition zero_var (v : NumericVar) : NumericVar := mkVar 0 (rscale v) (dscale v) NUMERIC_POS [].

(** ** The loops that strip zeroes *)

Fixpoint strip_leading (ds : list Z) (w : Z) : list Z * Z :=
  match ds with
  | d :: ds' => if d =? 0 then strip_leading ds' (w - 1) else (ds, w)
  | [] => ([], w)
  end.

Fixpoint trailing (ds : list Z) (n : nat) : nat :=
  match n with
  | O => O
  | S n' => if aget 0 ds (Z.of_nat n') =? 0 then trailing ds n' else n
  end.

Definition strip_trailing (ds : list Z) : list Z := take (trailing ds (length ds)) ds.

(** ** Unsigned arithmetic *)

(** [if (i >= 0 && i < var->ndigits) ... var->digits[i]] *)
Definition guarded (v : NumericVar) (i : Z) : Z :=
  if (0 <=? i) && (i <? ndigits v) then aget 0 (digits v) i else 0.

Fixpoint add_loop (v1 v2 : NumericVar) (n : nat) (i1 i2 carry : Z) (acc : list Z) : list Z :=
  match n with
  | O => acc
  | S n =>
    let i1 := i1 - 1 in
    let i2 := i2 - 1 in
    let carry := carry + guarded v1 i1 + guarded v2 i2 in
    add_loop v1 v2 n i1 i2 (carry / 10) (carry mod 10 :: acc)
  end.

Definition add_abs (v1 v2 : NumericVar) (s : Z) : NumericVar :=
  let res_weight := Z.max (weight v1) (weight v2) + 1 in
  let res_rscale := Z.max (rscale v1) (rscale v2) in
  let res_dscale := Z.max (dscale v1) (dscale v2) in
  let res_ndigits := res_rscale + res_weight + 1 in
  let res_ndigits := if res_ndigits <=? 0 then 1 else res_ndigits in
  let res := add_loop v1 v2 (Z.to_nat res_ndigits)
               (res_rscale + weight v1 + 1) (res_rscale + weight v2 + 1) 0 [] in
  let '(res, res_weight) := strip_leading res res_weight in
  let res := strip_trailing res in
  mkVar (if Zlen res =? 0 then 0 else res_weight) res_rscale res_dscale s res.

Fixpoint sub_loop (v1 v2 : NumericVar) (n : nat) (i1 i2 borrow : Z) (acc : list Z) : list Z :=
  match n with
  | O => acc
  | S n =>
    let i1 := i1 - 1 in
    let i2 := i2 - 1 in
    let borrow := borrow + guarded v1 i1 - guarded v2 i2 in
    if borrow <? 0 then sub_loop v1 v2 n i1 i2 (-1) (borrow + 10 :: acc)
    else sub_loop v1 v2 n i1 i2 0 (borrow :: acc)
  end.

Definition sub_abs (v1 v2 : NumericVar) (s : Z) : NumericVar :=
  let res_weight := weight v1 in
  let res_rscale := Z.max (rscale v1) (rscale v2) in
  let res_dscale := Z.max (dscale v1) (dscale v2) in
  let res_ndigits := res_rscale + res_weight + 1 in
  let res_ndigits := if res_ndigits <=? 0 then 1 else res_ndigits in
  let res := sub_loop v1 v2 (Z.to_nat res_ndigits)
               (res_rscale + weight v1 + 1) (res_rscale + weight v2 + 1) 0 [] in
  let '(res, res_weight) := strip_leading res res_weight in
  let res := strip_trailing res in
  mkVar (if Zlen res =? 0 then 0 else res_weight) res_rscale res_dscale s res.

(** The first two loops of [cmp_abs]: digits above the other number. *)
Fixpoint skip_above (ds : list Z) (w wo : Z) : option (list Z * Z) :=
  if wo <? w then
    match ds with
    | d :: ds => if d =? 0 then skip_above ds (w - 1) wo else None
    | [] => Some ([], w)
    end
  else Some (ds, w).

(** The loop over both numbers. *)
Fixpoint cmp_common (ds1 ds2 : list Z) : Z + (list Z * list Z) :=
  match ds1, ds2 with
  | d1 :: t1, d2 :: t2 =>
    let stat := d1 - d2 in
    if negb (stat =? 0) then inl (if 0 <? stat then 1 else -1) else cmp_common t1 t2
  | _, _ => inr (ds1, ds2)
  end.

(** The last two loops. *)
Definition cmp_rest (ds1 ds2 : list Z) : Z :=
  if existsb (fun d => negb (d =? 0)) ds1 then 1
  else if existsb (fun d => negb (d =? 0)) ds2 then -1 else 0.

Definition cmp_abs (v1 v2 : NumericVar) : Z :=
  match skip_above (digits v1) (weight v1) (weight v2) with
  | None => 1
  | Some (ds1, w1) =>
    match skip_above (digits v2) (weight v2) w1 with
    | None => -1
    | Some (ds2, w2) =>
      match (if w1 =? w2 then cmp_common ds1 ds2 else inr (ds1, ds2)) with
      | inl stat => stat
      | inr (ds1, ds2) => cmp_rest ds1 ds2
      end
    end
  end.

(** ** Signed arithmetic *)

Definition cmp_var (v1 v2 : NumericVar) : Z :=
  if ndigits v1 =? 0 then
    (if ndigits v2 =? 0 then 0 else if sign v2 =? NUMERIC_NEG then 1 else -1)
  else if ndigits v2 =? 0 then (if sign v1 =? NUMERIC_POS then 1 else -1)
  else if sign v1 =? NUMERIC_POS then
    (if sign v2 =? NUMERIC_NEG then 1 else cmp_abs v1 v2)
  else if sign v2 =? NUMERIC_POS then -1
  else cmp_abs v2 v1.

(** [zero_var(result)] with the scales of the arguments. *)
Definition zero_result (v1 v2 : NumericVar) : NumericVar :=
  mkVar 0 (Z.max (rscale v1) (rscale v2)) (Z.max (dscale v1) (dscale v2)) NUMERIC_POS [].

Definition add_var (v1 v2 : NumericVar) : NumericVar :=
  if sign v1 =? NUMERIC_POS then
    if sign v2 =? NUMERIC_POS then add_abs v1 v2 NUMERIC_POS
    else
      let stat := cmp_abs v1 v2 in
      if stat =? 0 then zero_result v1 v2
      else if stat =? 1 then sub_abs v1 v2 NUMERIC_POS
      else sub_abs v2 v1 NUMERIC_NEG
  else
    if sign v2 =? NUMERIC_POS then
      let stat := cmp_abs v1 v2 in
      if stat =? 0 then zero_result v1 v2
      else if stat =? 1 then sub_abs v1 v2 NUMERIC_NEG
      else sub_abs v2 v1 NUMERIC_POS
    else add_abs v1 v2 NUMERIC_NEG.

Definition sub_var (v1 v2 : NumericVar) : NumericVar :=
  if sign v1 =? NUMERIC_POS then
    if sign v2 =? NUMERIC_NEG then add_abs v1 v2 NUMERIC_POS
    else
      let stat := cmp_abs v1 v2 in
      if stat =? 0 then zero_result v1 v2
      else if stat =? 1 then sub_abs v1 v2 NUMERIC_POS
      else sub_abs v2 v1 NUMERIC_NEG
  else
    if sign v2 =? NUMERIC_NEG then
      let stat := cmp_abs v1 v2 in
      if stat =? 0 then zero_result v1 v2
      else if stat =? 1 then sub_abs v1 v2 NUMERIC_NEG
      else sub_abs v2 v1 NUMERIC_POS
    else add_abs v1 v2 NUMERIC_NEG.

(** The loop over [i2]; [ds2] are the digits of [var2] from the last one. *)
Fixpoint mul_row (d1 : Z) (ds2 : list Z) (res : list Z) (i sum : Z) : list Z :=
  match ds2 with
  | d2 :: ds2 =>
    let sum := sum + aget 0 res i + d1 * d2 in
    mul_row d1 ds2 (aset res i (sum mod 10)) (i - 1) (sum / 10)
  | [] => aset res i sum
  end.

(** The loop over [i1]; [ds1] are the digits of [var1] from the last one. *)
Fixpoint mul_rows (ds1 ds2 : list Z) (res : list Z) (ri : Z) : list Z :=
  match ds1 with
  | d1 :: ds1 => mul_rows ds1 ds2 (mul_row d1 ds2 res (ri - 1) 0) (ri - 1)
  | [] => res
  end.

(** [while (sum) { sum += digits[i]; digits[i--] = sum % 10; sum /= 10; }] *)
Fixpoint sum_loop (fuel : nat) (res : list Z) (i sum : Z) : list Z :=
  match fuel with
  | O => res
  | S fuel =>
    if sum =? 0 then res
    else let sum := sum + aget 0 res i in sum_loop fuel (aset res i (sum mod 10)) (i - 1) (sum / 10)
  end.

Definition mul_var (global_rscale : Z) (v1 v2 result : NumericVar) : NumericVar :=
  let res_weight := weight v1 + weight v2 + 2 in
  let res_ndigits := ndigits v1 + ndigits v2 + 1 in
  let res_sign := if sign v1 =? sign v2 then NUMERIC_POS else NUMERIC_NEG in
  let res := mul_rows (reverse (digits v1)) (reverse (digits v2))
               (replicate (Z.to_nat res_ndigits) 0) res_ndigits in
  let i := res_weight + global_rscale + 2 in
  let res :=
    if (0 <=? i) && (i <? res_ndigits) then
      take (Z.to_nat i)
        (sum_loop (Z.to_nat i) res (i - 1) (if 4 <? aget 0 res i then 1 else 0))
    else res in
  let '(res, res_weight) := strip_leading res res_weight in
  let res := strip_trailing res in
  if Zlen res =? 0 then mkVar 0 global_rscale (dscale result) NUMERIC_POS res
  else mkVar res_weight global_rscale (dscale result) res_sign res.

(** ** The packed format *)

Record NumericData := mkNumeric {
  varlen : Z;
  n_weight : Z;
  n_rscale : Z;
  n_sign_dscale : Z;
  n_data : list Z
}.

Definition NUMERIC_SIGN (n : NumericData) : Z := Z.land (n_sign_dscale n) NUMERIC_SIGN_MASK.
Definition NUMERIC_DSCALE (n : NumericData) : Z := Z.land (n_sign_dscale n) NUMERIC_DSCALE_MASK.
Definition NUMERIC_IS_NAN (n : NumericData) : bool :=
  negb (NUMERIC_SIGN n =? NUMERIC_POS) && negb (NUMERIC_SIGN n =? NUMERIC_NEG).

(** The loop of [set_var_from_num]: two digits per byte. *)
Fixpoint unpack_digits (bs : list Z) : list Z :=
  match bs with
  | b :: bs => Z.land (Z.shiftr b 4) 0x0f :: Z.land b 0x0f :: unpack_digits bs
  | [] => []
  end.

Definition set_var_from_num (num : NumericData) : NumericVar :=
  let n := varlen num - NUMERIC_HDRSZ in
  mkVar (n_weight num) (n_rscale num) (NUMERIC_DSCALE num) (NUMERIC_SIGN num)
    (unpack_digits (take (Z.to_nat n) (n_data num))).

(** The loop of [make_result]. *)
Fixpoint pack_digits (ds : list Z) : list Z :=
  match ds with
  | d1 :: d2 :: ds => Z.lor (u8 (Z.shiftl d1 4)) d2 :: pack_digits ds
  | [d1] => [u8 (Z.shiftl d1 4)]
  | [] => []
  end.

Definition make_result (var : NumericVar) : NumericData :=
  if sign var =? NUMERIC_NAN then mkNumeric NUMERIC_HDRSZ 0 0 NUMERIC_NAN []
  else
    let n := Z.max 0 (Z.min (ndigits var) (weight var + rscale var + 1)) in
    let '(digit, weight) := strip_leading (take (Z.to_nat n) (digits var)) (weight var) in
    let digit := strip_trailing digit in
    let n := Zlen digit in
    let weight := if n =? 0 then 0 else weight in
    let sign := if n =? 0 then NUMERIC_POS else sign var in
    mkNumeric (NUMERIC_HDRSZ + (n + 1) / 2) (swrap 16 weight) (u16 (rscale var))
      (u16 (Z.lor sign (Z.land (u16 (dscale var)) NUMERIC_DSCALE_MASK))) (pack_digits digit).

(** ** SQL functions: sign, comparison, arithmetic

    [None] is the NULL pointer. *)

Definition numeric_abs (num : option NumericData) : option NumericData :=
  n ← num;
  if NUMERIC_IS_NAN n then Some (make_result const_nan)
  else Some (mkNumeric (varlen n) (n_weight n) (n_rscale n)
               (Z.lor NUMERIC_POS (NUMERIC_DSCALE n)) (n_data n)).

Definition numeric_uminus (num : option NumericData) : option NumericData :=
  n ← num;
  if NUMERIC_IS_NAN n then Some (make_result const_nan)
  else if negb (varlen n =? NUMERIC_HDRSZ) then
    Some (mkNumeric (varlen n) (n_weight n) (n_rscale n)
            (if NUMERIC_SIGN n =? NUMERIC_POS then Z.lor NUMERIC_NEG (NUMERIC_DSCALE n)
             else Z.lor NUMERIC_POS (NUMERIC_DSCALE n)) (n_data n))
  else Some n.

Definition numeric_sign (num : option NumericData) : option NumericData :=
  n ← num;
  if NUMERIC_IS_NAN n then Some (make_result const_nan)
  else if varlen n =? NUMERIC_HDRSZ then Some (make_result const_zero)
  else Some (make_result (set_sign (NUMERIC_SIGN n) const_one)).

Definition numeric_cmp (num1 num2 : option NumericData) : Z :=
  match num1, num2 with
  | Some n1, Some n2 =>
    if NUMERIC_IS_NAN n1 || NUMERIC_IS_NAN n2 then 0
    else
      let result := cmp_var (set_var_from_num n1) (set_var_from_num n2) in
      if result =? 0 then 0 else if result <? 0 then -1 else 1
  | _, _ => 0
  end.

(** The six comparison operators differ in the test of the result only. *)
Definition numeric_test (test : Z -> bool) (num1 num2 : option NumericData) : bool :=
  match num1, num2 with
  | Some n1, Some n2 =>
    if NUMERIC_IS_NAN n1 || NUMERIC_IS_NAN n2 then false
    else test (cmp_var (set_var_from_num n1) (set_var_from_num n2))
  | _, _ => false
  end.
Definition numeric_eq := numeric_test (fun result => result =? 0).
Definition numeric_ne := numeric_test (fun result => negb (result =? 0)).
Definition numeric_gt := numeric_test (fun result => 0 <? result).
Definition numeric_ge := numeric_test (fun result => 0 <=? result).
Definition numeric_lt := numeric_test (fun result => result <? 0).
Definition numeric_le := numeric_test (fun result => result <=? 0).

Definition numeric_add (num1 num2 : option NumericData) : option NumericData :=
  n1 ← num1; n2 ← num2;
  if NUMERIC_IS_NAN n1 || NUMERIC_IS_NAN n2 then Some (make_result const_nan)
  else Some (make_result (add_var (set_var_from_num n1) (set_var_from_num n2))).

Definition numeric_sub (num1 num2 : option NumericData) : option NumericData :=
  n1 ← num1; n2 ← num2;
  if NUMERIC_IS_NAN n1 || NUMERIC_IS_NAN n2 then Some (make_result const_nan)
  else Some (make_result (sub_var (set_var_from_num n1) (set_var_from_num n2))).

Definition numeric_mul (num1 num2 : option NumericData) : option NumericData :=
  n1 ← num1; n2 ← num2;
  if NUMERIC_IS_NAN n1 || NUMERIC_IS_NAN n2 then Some (make_result const_nan)
  else
    let arg1 := set_var_from_num n1 in
    let arg2 := set_var_from_num n2 in
    let global_rscale := rscale arg1 + rscale arg2 in
    let result := mul_var global_rscale arg1 arg2 init_var in
    Some (make_result (set_dscale (dscale arg1 + dscale arg2) result)).

Definition numeric_inc (num : option NumericData) : option NumericData :=
  n ← num;
  if NUMERIC_IS_NAN n then Some (make_result const_nan)
  else Some (make_result (add_var (set_var_from_num n) const_one)).

Definition numeric_dec (num : option NumericData) : option NumericData :=
  n ← num;
  if NUMERIC_IS_NAN n then Some (make_result const_nan)
  else Some (make_result (sub_var (set_var_from_num n) const_one)).

Definition numeric_smaller (num1 num2 : option NumericData) : option NumericData :=
  n1 ← num1; n2 ← num2;
  if NUMERIC_IS_NAN n1 || NUMERIC_IS_NAN n2 then Some (make_result const_nan)
  else
    let arg1 := set_var_from_num n1 in
    let arg2 := set_var_from_num n2 in
    if cmp_var arg1 arg2 <=? 0 then Some (make_result arg1) else Some (make_result arg2).

Definition numeric_larger (num1 num2 : option NumericData) : option NumericData :=
  n1 ← num1; n2 ← num2;
  if NUMERIC_IS_NAN n1 || NUMERIC_IS_NAN n2 then Some (make_result const_nan)
  else
    let arg1 := set_var_from_num n1 in
    let arg2 := set_var_from_num n2 in
    if 0 <=? cmp_var arg1 arg2 then Some (make_result arg1) else Some (make_result arg2).

(** ** The number a variable stands for *)

(** [f 0 + 10 * f 1 + 100 * f 2 + ...], [n] terms. *)
Fixpoint fsum (f : Z -> Z) (n : nat) : Z :=
  match n with O => 0 | S n => f 0 + 10 * fsum (fun j => f (j + 1)) n end.

(** The digit at the position of [10 ^ p]. *)
Definition dig (v : NumericVar) (p : Z) : Z := aget 0 (digits v) (weight v - p).

(** The absolute value in units of [10 ^ (- k)], digits below dropped. *)
Definition scaled (k : Z) (v : NumericVar) : Z :=
  fsum (fun j => dig v (j - k)) (Z.to_nat (k + weight v + 1)).

(** The number of digits after the decimal point. *)
Definition places (v : NumericVar) : Z := Z.max 0 (ndigits v - 1 - weight v).

Definition signed (v : NumericVar) (z : Z) : Z := if sign v =? NUMERIC_POS then z else - z.

Definition tenpow (k : Z) : positive := Z.to_pos (10 ^ k).

Definition numval (v : NumericVar) : Q :=
  Qmake (signed v (scaled (places v) v)) (tenpow (places v)).

(** A variable: decimal digits, a proper sign, nothing below its scale. *)
Record var_ok (v : NumericVar) : Prop := {
  ok_digits : Forall (fun d => 0 <= d <= 9) (digits v);
  ok_sign : sign v = NUMERIC_POS \/ sign v = NUMERIC_NEG;
  ok_rscale : 0 <= rscale v;
  ok_scale : forall p, p < - rscale v -> dig v p = 0
}.

Example add_example :
  add_var (mkVar 1 2 2 NUMERIC_POS [9; 9; 5]) (mkVar 0 1 1 NUMERIC_NEG [7; 5])
  = mkVar 1 2 2 NUMERIC_POS [9; 2].
Proof. reflexivity. Qed.
Example mul_example :
  mul_var 4 (mkVar 1 2 2 NUMERIC_POS [9; 9; 5]) (mkVar 0 1 1 NUMERIC_NEG [7; 5]) init_var
  = mkVar 2 4 0 NUMERIC_NEG [7; 4; 6; 2; 5].
Proof. reflexivity. Qed.

(** ** Sums of digits *)

Lemma fsum_ext f g n : (forall j, 0 <= j < Z.of_nat n -> f j = g j) -> fsum f n = fsum g n.
Proof.
  revert f g. induction n as [|n IH]; intros f g H; [done|]. cbn [fsum].
  rewrite (H 0) by lia. f_equal. f_equal. apply IH. intros j Hj. apply H. lia.
Qed.

Lemma fsum_snoc f n : fsum f (S n) = fsum f n + f (Z.of_nat n) * 10 ^ Z.of_nat n.
Proof.
  revert f. induction n as [|n IH]; intros f; [cbn [fsum]; change (Z.of_nat 0) with 0; lia|].
  change (fsum f (S (S n))) with (f 0 + 10 * fsum (fun j => f (j + 1)) (S n)). rewrite IH.
  cbn [fsum]. rewrite Nat2Z.inj_succ, Z.pow_succ_r by lia. unfold Z.succ. lia.
Qed.

Lemma fsum_add f g n : fsum (fun j => f j + g j) n = fsum f n + fsum g n.
Proof. revert f g. induction n as [|n IH]; intros; [done|]. cbn [fsum]. rewrite IH. lia. Qed.

Lemma fsum_stable f n m : (forall j, Z.of_nat n <= j -> f j = 0) -> (n <= m)%nat -> fsum f m = fsum f n.
Proof.
  intros H Hm. induction Hm as [|m Hm IH]; [done|]. rewrite fsum_snoc, IH, H by lia. lia.
Qed.

Lemma fsum_bound f n : (forall j, 0 <= f j <= 9) -> 0 <= fsum f n < 10 ^ Z.of_nat n.
Proof.
  revert f. induction n as [|n IH]; intros f H; [simpl; lia|]. cbn [fsum].
  rewrite Nat2Z.inj_succ, Z.pow_succ_r by lia. pose proof (H 0).
  pose proof (IH (fun j => f (j + 1)) ltac:(intros; apply H)). lia.
Qed.

Lemma fsum_digit f n i : (forall j, 0 <= f j <= 9) -> 0 <= i < Z.of_nat n ->
  (fsum f n / 10 ^ i) mod 10 = f i.
Proof.
  revert f i. induction n as [|n IH]; intros f i H Hi; [lia|]. cbn [fsum].
  pose proof (H 0). destruct (decide (i = 0)) as [->|].
  - rewrite Z.div_1_r. replace (f 0 + 10 * fsum (fun j => f (j + 1)) n)
      with (f 0 + fsum (fun j => f (j + 1)) n * 10) by lia.
    rewrite Z_mod_plus_full, Z.mod_small; lia.
  - replace i with (Z.succ (i - 1)) at 1 by lia. rewrite Z.pow_succ_r, <- Z.div_div by lia.
    replace (f 0 + 10 * fsum (fun j => f (j + 1)) n)
      with (f 0 + fsum (fun j => f (j + 1)) n * 10) by lia.
    rewrite Z.div_add, (Z.div_small (f 0)), Z.add_0_l by lia.
    rewrite (IH (fun j => f (j + 1))); [f_equal; lia|intros; apply H|lia].
Qed.

(** The [n] digits of an integer. *)
Fixpoint to_digits (n : nat) (x : Z) : list Z :=
  match n with O => [] | S n => to_digits n (x / 10) ++ [x mod 10] end.

Lemma to_digits_length n x : length (to_digits n x) = n.
Proof. revert x. induction n as [|n IH]; intros; [done|]. simpl. rewrite length_app, IH. simpl. lia. Qed.

Lemma to_digits_ok n x : Forall (fun d => 0 <= d <= 9) (to_digits n x).
Proof.
  revert x. induction n as [|n IH]; intros x; [constructor|]. simpl. apply Forall_app. split; [done|].
  repeat constructor; pose proof (Z.mod_pos_bound x 10); lia.
Qed.

Lemma aget_out {A} (d : A) l i : i < 0 \/ Zlen l <= i -> aget d l i = d.
Proof.
  intros Hi. unfold aget. destruct (Z.ltb_spec i 0); [done|].
  rewrite lookup_ge_None_2 by lia. done.
Qed.

Lemma aget_to_digits n x i : 0 <= i < Z.of_nat n ->
  aget 0 (to_digits n x) i = (x / 10 ^ (Z.of_nat n - 1 - i)) mod 10.
Proof.
  revert x i. induction n as [|n IH]; intros x i Hi; [lia|]. cbn [to_digits].
  rewrite aget_app, to_digits_length by lia. destruct (Z.ltb_spec i (Z.of_nat n)).
  - rewrite IH by lia. rewrite Z.div_div by (try apply Z.pow_nonzero; try apply Z.pow_pos_nonneg; lia).
    replace (Z.of_nat (S n) - 1 - i) with (Z.succ (Z.of_nat n - 1 - i)) by lia.
    by rewrite Z.pow_succ_r by lia.
  - replace (i - Z.of_nat n) with 0 by lia. replace (Z.of_nat (S n) - 1 - i) with 0 by lia.
    by rewrite Z.div_1_r.
Qed.

Lemma fsum_digits_of n x : fsum (fun j => (x / 10 ^ j) mod 10) n = x mod 10 ^ Z.of_nat n.
Proof.
  induction n as [|n IH]; [by rewrite Z.mod_1_r|]. rewrite fsum_snoc, IH.
  rewrite Nat2Z.inj_succ, Z.pow_succ_r, (Z.mul_comm 10) by lia.
  pose proof (Z.pow_pos_nonneg 10 (Z.of_nat n)). rewrite Z.rem_mul_r by lia. lia.
Qed.

(** ** Digits and values of a list of digits whose first one has weight [w] *)

Notation digit_ok := (fun d : Z => 0 <= d <= 9).

Definition scaledl (k w : Z) (ds : list Z) : Z :=
  fsum (fun j => aget 0 ds (w - (j - k))) (Z.to_nat (k + w + 1)).

Lemma scaled_list k v : scaled k v = scaledl k (weight v) (digits v).
Proof. done. Qed.

Lemma digit_bound ds i : Forall digit_ok ds -> 0 <= aget 0 ds i <= 9.
Proof. intros H. by apply (aget_Forall (fun d => 0 <= d <= 9)). Qed.

Lemma scaledl_at k w ds n : k + w + 1 <= Z.of_nat n ->
  scaledl k w ds = fsum (fun j => aget 0 ds (w - (j - k))) n.
Proof.
  intros Hn. symmetry. apply fsum_stable; [|lia]. intros j Hj. apply aget_out. lia.
Qed.

Lemma scaledl_succ k w ds : scaledl (k + 1) w ds = 10 * scaledl k w ds + aget 0 ds (w + k + 1).
Proof.
  set (n := Z.to_nat (k + w + 1)).
  rewrite (scaledl_at (k + 1) w ds (S n)), (scaledl_at k w ds n) by lia. cbn [fsum].
  replace (w - (0 - (k + 1))) with (w + k + 1) by lia.
  rewrite (fsum_ext _ (fun j => aget 0 ds (w - (j - k)))); [lia|].
  intros j _. f_equal. lia.
Qed.

Lemma scaledl_bound k w ds : Forall digit_ok ds -> 0 <= scaledl k w ds < 10 ^ (Z.max 0 (k + w + 1)).
Proof.
  intros H. replace (Z.max 0 (k + w + 1)) with (Z.of_nat (Z.to_nat (k + w + 1))) by lia.
  apply fsum_bound. intros j. by apply digit_bound.
Qed.

Lemma scaledl_digit k w ds i : Forall digit_ok ds -> i <= w + k ->
  aget 0 ds i = (scaledl k w ds / 10 ^ (w + k - i)) mod 10.
Proof.
  intros H Hi. set (n := Z.to_nat (Z.max (k + w + 1) (w + k - i + 1))).
  rewrite (scaledl_at k w ds n) by lia.
  rewrite fsum_digit; [f_equal; lia|intros; by apply digit_bound|lia].
Qed.

Lemma scaledl_ext k w ds w' ds' :
  (forall p, - k <= p -> aget 0 ds (w - p) = aget 0 ds' (w' - p)) ->
  scaledl k w ds = scaledl k w' ds'.
Proof.
  intros H. set (n := Z.to_nat (Z.max (k + w + 1) (k + w' + 1))).
  rewrite (scaledl_at k w ds n), (scaledl_at k w' ds' n) by lia.
  apply fsum_ext. intros j Hj. apply H. lia.
Qed.

Lemma scaledl_more k w ds m : 0 <= m -> (forall p, p < - k -> aget 0 ds (w - p) = 0) ->
  scaledl (k + m) w ds = scaledl k w ds * 10 ^ m.
Proof.
  intros Hm H. pattern m. apply natlike_ind; [|clear m Hm; intros m Hm IH|done].
  - rewrite Z.add_0_r. lia.
  - replace (k + Z.succ m) with (k + m + 1) by lia. rewrite scaledl_succ, IH, Z.pow_succ_r by lia.
    replace (w + (k + m) + 1) with (w - (- (k + m + 1))) by lia. rewrite H by lia. lia.
Qed.

Lemma scaledl_floor k w ds m : Forall digit_ok ds -> 0 <= m -> scaledl k w ds = scaledl (k + m) w ds / 10 ^ m.
Proof.
  intros Hok Hm. pattern m. apply natlike_ind; [|clear m Hm; intros m Hm IH|done].
  - by rewrite Z.add_0_r, Z.div_1_r.
  - replace (k + Z.succ m) with (k + m + 1) by lia. rewrite scaledl_succ, Z.pow_succ_r by lia.
    rewrite <- Z.div_div by lia.
    pose proof (digit_bound ds (w + (k + m) + 1) Hok).
    rewrite (Z.mul_comm 10), Z.div_add_l, (Z.div_small (aget _ _ _)), Z.add_0_r by lia. done.
Qed.

Lemma scaledl_nil k w : scaledl k w [] = 0.
Proof.
  rewrite <- (Z.mul_0_l (10 ^ Z.of_nat (Z.to_nat (k + w + 1)))). unfold scaledl.
  generalize (Z.to_nat (k + w + 1)) as n. intros n. induction n as [|n IH]; [done|].
  rewrite fsum_snoc, IH, aget_out; [lia|]. cbn [length]. lia.
Qed.

Lemma scaledl_cons k w d ds : 0 <= k + w ->
  scaledl k w (d :: ds) = d * 10 ^ (k + w) + scaledl k (w - 1) ds.
Proof.
  intros H. rewrite (scaledl_at k w _ (S (Z.to_nat (k + w)))), fsum_snoc by lia.
  rewrite Z2Nat.id by lia. replace (w - (k + w - k)) with 0 by lia.
  change (aget 0 (d :: ds) 0) with d.
  rewrite (scaledl_at k (w - 1) _ (Z.to_nat (k + w))) by lia. rewrite Z.add_comm. f_equal.
  apply fsum_ext. intros j Hj. unfold aget. destruct (Z.ltb_spec (w - (j - k)) 0); [lia|].
  destruct (Z.ltb_spec (w - 1 - (j - k)) 0); [lia|].
  replace (Z.to_nat (w - (j - k))) with (S (Z.to_nat (w - 1 - (j - k)))) by lia. done.
Qed.

Lemma scaledl_to_digits k w n x : k + w + 1 = Z.of_nat n -> 0 <= x < 10 ^ Z.of_nat n ->
  scaledl k w (to_digits n x) = x.
Proof.
  intros Hn Hx. rewrite (scaledl_at k w _ n) by lia.
  rewrite (fsum_ext _ (fun j => (x / 10 ^ j) mod 10)).
  - rewrite fsum_digits_of. by apply Z.mod_small.
  - intros j Hj. rewrite aget_to_digits by lia. do 3 f_equal. lia.
Qed.

(** ** Values of variables *)

Lemma dig_bound v p : Forall digit_ok (digits v) -> 0 <= dig v p <= 9.
Proof. apply digit_bound. Qed.

Lemma scaled_bound k v : Forall digit_ok (digits v) ->
  0 <= scaled k v < 10 ^ (Z.max 0 (k + weight v + 1)).
Proof. apply scaledl_bound. Qed.

Lemma scaled_ext k v v' : (forall p, - k <= p -> dig v p = dig v' p) -> scaled k v = scaled k v'.
Proof. apply scaledl_ext. Qed.

Lemma scaled_more k v m : 0 <= m -> (forall p, p < - k -> dig v p = 0) ->
  scaled (k + m) v = scaled k v * 10 ^ m.
Proof. apply scaledl_more. Qed.

Lemma scaled_dig k v p : Forall digit_ok (digits v) -> - k <= p ->
  dig v p = (scaled k v / 10 ^ (p + k)) mod 10.
Proof.
  intros Hok Hp. unfold dig, scaled.
  rewrite (scaledl_digit k (weight v) (digits v)) by (done || lia). do 3 f_equal. lia.
Qed.

Lemma tenpow_pos k : 0 <= k -> Zpos (tenpow k) = 10 ^ k.
Proof. intros Hk. unfold tenpow. apply Z2Pos.id, Z.pow_pos_nonneg; lia. Qed.

Lemma dig_places v p : p < - places v -> dig v p = 0.
Proof. intros Hp. unfold dig, places, ndigits in *. apply aget_out. lia. Qed.

Lemma signed_mul v a b : signed v (a * b) = signed v a * b.
Proof. unfold signed. case_match; lia. Qed.

(** Two scales that both hold all digits give the same number. *)
Lemma scaled_agree v a b : 0 <= a -> 0 <= b ->
  (forall p, p < - a -> dig v p = 0) -> (forall p, p < - b -> dig v p = 0) ->
  (signed v (scaled a v) # tenpow a == signed v (scaled b v) # tenpow b)%Q.
Proof.
  intros Ha Hb Hda Hdb. unfold Qeq. cbn [Qnum Qden]. rewrite !tenpow_pos by done.
  destruct (Z.le_ge_cases a b).
  - replace b with (a + (b - a)) at 2 by lia. rewrite scaled_more by (done || lia).
    replace b with (a + (b - a)) at 1 by lia. rewrite Z.pow_add_r, signed_mul by lia. lia.
  - replace a with (b + (a - b)) at 1 by lia. rewrite scaled_more by (done || lia).
    replace a with (b + (a - b)) at 2 by lia. rewrite Z.pow_add_r, signed_mul by lia. lia.
Qed.

Lemma numval_at k v : 0 <= k -> (forall p, p < - k -> dig v p = 0) ->
  (numval v == signed v (scaled k v) # tenpow k)%Q.
Proof. intros. apply scaled_agree; try done; [apply Z.le_max_l|apply dig_places]. Qed.

Lemma numval_ext v v' : sign v = sign v' -> (forall p, dig v p = dig v' p) -> (numval v == numval v')%Q.
Proof.
  intros Hs H. rewrite (numval_at (places v') v).
  - unfold numval, signed. rewrite Hs, (scaled_ext _ v v') by auto. done.
  - apply Z.le_max_l.
  - intros p Hp. rewrite H. by apply dig_places.
Qed.

(** A number without a nonzero digit is zero, whatever its sign. *)
Lemma numval_zero v : (forall p, dig v p = 0) -> (numval v == 0)%Q.
Proof.
  intros H. rewrite (numval_at 0 v) by auto with lia. rewrite (scaled_ext 0 v const_zero).
  - rewrite scaled_list, scaledl_nil. unfold signed. by case_match.
  - intros p _. rewrite H. unfold dig. by rewrite aget_out by (cbn; lia).
Qed.

(** Numbers at the same scale add, subtract and compare as integers. *)
Lemma Qmake_add a b d : ((a + b) # d == (a # d) + (b # d))%Q.
Proof. unfold Qeq, Qplus. cbn [Qnum Qden]. rewrite Pos2Z.inj_mul. lia. Qed.
Lemma Qmake_sub a b d : ((a - b) # d == (a # d) - (b # d))%Q.
Proof. unfold Qeq, Qminus, Qplus, Qopp. cbn [Qnum Qden]. rewrite Pos2Z.inj_mul. lia. Qed.
Lemma Qmake_compare a b d : ((a # d) ?= (b # d))%Q = (a ?= b).
Proof. unfold Qcompare. cbn [Qnum Qden]. symmetry. by apply Zmult_compare_compat_r. Qed.

(** ** Stripping zeroes *)

Lemma strip_leading_digits ds w p :
  aget 0 (strip_leading ds w).1 ((strip_leading ds w).2 - p) = aget 0 ds (w - p).
Proof.
  revert w. induction ds as [|d ds IH]; intros w; [done|]. cbn [strip_leading].
  destruct (Z.eqb_spec d 0) as [->|]; [|done]. rewrite IH. unfold aget.
  destruct (Z.ltb_spec (w - 1 - p) 0), (Z.ltb_spec (w - p) 0); try done; try lia.
  - by replace (w - p) with 0 by lia.
  - by replace (Z.to_nat (w - p)) with (S (Z.to_nat (w - 1 - p))) by lia.
Qed.

Lemma strip_leading_Forall P ds w : Forall P ds -> Forall P (strip_leading ds w).1.
Proof.
  revert w. induction ds as [|d ds IH]; intros w H; [done|]. cbn [strip_leading].
  case_match; [|done]. apply IH. by inversion H.
Qed.

Lemma strip_leading_length ds w :
  Zlen (strip_leading ds w).1 - (strip_leading ds w).2 = Zlen ds - w.
Proof.
  revert w. induction ds as [|d ds IH]; intros w; [done|]. cbn [strip_leading].
  case_match; [|done]. rewrite IH. cbn [length]. lia.
Qed.

Lemma strip_leading_weight ds w : (strip_leading ds w).2 <= w.
Proof.
  revert w. induction ds as [|d ds IH]; intros w; [done|]. cbn [strip_leading].
  case_match; [|done]. specialize (IH (w - 1)). lia.
Qed.

Lemma strip_leading_head ds w : (strip_leading ds w).1 = [] \/ aget 0 (strip_leading ds w).1 0 <> 0.
Proof.
  revert w. induction ds as [|d ds IH]; intros w; [by left|]. cbn [strip_leading].
  case_match; bool_cases; [apply IH|by right].
Qed.

Lemma trailing_digits ds n i : Z.of_nat (trailing ds n) <= i < Z.of_nat n -> aget 0 ds i = 0.
Proof.
  induction n as [|n IH]; cbn [trailing]; [lia|]. destruct (aget 0 ds (Z.of_nat n) =? 0) eqn:E; [|lia].
  bool_cases. intros Hi. destruct (decide (i = Z.of_nat n)) as [->|]; [done|]. apply IH. lia.
Qed.

Lemma trailing_le ds n : (trailing ds n <= n)%nat.
Proof. induction n as [|n IH]; cbn [trailing]; [done|]. case_match; lia. Qed.

Lemma trailing_last ds n : (0 < trailing ds n)%nat -> aget 0 ds (Z.of_nat (trailing ds n) - 1) <> 0.
Proof.
  induction n as [|n IH]; cbn [trailing]; [lia|]. case_match; bool_cases; [done|].
  intros _. by replace (Z.of_nat (S n) - 1) with (Z.of_nat n) by lia.
Qed.

Lemma strip_trailing_digits ds i : aget 0 (strip_trailing ds) i = aget 0 ds i.
Proof.
  unfold strip_trailing. rewrite aget_take. destruct (Z.ltb_spec i (Z.of_nat (trailing ds (length ds)))); [done|].
  destruct (Z.lt_ge_cases i (Zlen ds)); [|by rewrite aget_out by lia].
  symmetry. apply (trailing_digits ds (length ds)). lia.
Qed.

Lemma strip_trailing_length ds : (length (strip_trailing ds) <= length ds)%nat.
Proof. unfold strip_trailing. rewrite length_take. lia. Qed.

(** Both together, as the arithmetic functions and [make_result] do. *)
Definition strip (ds : list Z) (w : Z) : list Z * Z :=
  (strip_trailing (strip_leading ds w).1,
   if Zlen (strip_trailing (strip_leading ds w).1) =? 0 then 0 else (strip_leading ds w).2).

Lemma strip_digits ds w p : aget 0 (strip ds w).1 ((strip ds w).2 - p) = aget 0 ds (w - p).
Proof.
  rewrite <- (strip_leading_digits ds w p). unfold strip. cbn [fst snd]. destruct (Z.eqb_spec (Zlen (strip_trailing (strip_leading ds w).1)) 0) as [E|].
  - rewrite <- (strip_trailing_digits (strip_leading ds w).1 ((strip_leading ds w).2 - p)).
    by rewrite !(aget_out 0 (strip_trailing _)) by lia.
  - apply strip_trailing_digits.
Qed.

Lemma strip_Forall P ds w : Forall P ds -> Forall P (strip ds w).1.
Proof. intros H. unfold strip, strip_trailing. cbn [fst]. by apply Forall_take, strip_leading_Forall. Qed.

(** A stripped number that is not empty begins with a nonzero digit. *)
Definition stripped (ds : list Z) : Prop := ds = [] \/ aget 0 ds 0 <> 0.

Lemma strip_stripped ds w : stripped (strip ds w).1.
Proof.
  unfold strip, stripped. cbn [fst]. destruct (strip_leading_head ds w) as [->|H]; [by left|].
  destruct (decide (strip_trailing (strip_leading ds w).1 = [])); [by left|right].
  by rewrite strip_trailing_digits.
Qed.

Lemma strip_weight ds w k : k <= 0 -> 0 <= w -> (forall p, p < k -> aget 0 ds (w - p) = 0) ->
  k <= (strip ds w).2 <= w.
Proof.
  intros Hk Hw H. pose proof (strip_stripped ds w) as Hs. revert Hs. unfold strip, stripped. cbn [fst snd].
  set (l := strip_trailing _). intros [Hnil|Hhd].
  - assert (Zlen l = 0) as -> by by rewrite Hnil. rewrite Z.eqb_refl. lia.
  - destruct (Z.eqb_spec (Zlen l) 0); [lia|]. pose proof (strip_leading_weight ds w).
    split; [|done]. destruct (Z.lt_ge_cases (strip_leading ds w).2 k); [|lia].
    destruct Hhd. unfold l. rewrite strip_trailing_digits.
    replace 0 with ((strip_leading ds w).2 - (strip_leading ds w).2) at 2 by lia.
    rewrite strip_leading_digits. by apply H.
Qed.

(** ** Addition and subtraction of absolute values *)

Lemma guarded_aget v i : guarded v i = aget 0 (digits v) i.
Proof.
  unfold guarded, ndigits. destruct (Z.leb_spec 0 i), (Z.ltb_spec i (Zlen (digits v))); cbn [andb];
    try done; by rewrite aget_out by lia.
Qed.

Lemma fsum_guarded v k n : k + weight v + 1 <= Z.of_nat n ->
  fsum (fun j => guarded v (k + weight v + 1 - 1 - j)) n = scaled k v.
Proof.
  intros Hn. rewrite scaled_list, (scaledl_at _ _ _ n) by done. apply fsum_ext. intros j _.
  rewrite guarded_aget. f_equal. lia.
Qed.

Lemma fsum_guarded_next v i n :
  fsum (fun j => guarded v (i - 1 - 1 - j)) n = fsum (fun j => guarded v (i - 1 - (j + 1))) n.
Proof. apply fsum_ext. intros j _. f_equal. lia. Qed.

Lemma add_loop_digits v1 v2 n i1 i2 carry acc :
  add_loop v1 v2 n i1 i2 carry acc =
  to_digits n (carry + fsum (fun j => guarded v1 (i1 - 1 - j)) n
                     + fsum (fun j => guarded v2 (i2 - 1 - j)) n) ++ acc.
Proof.
  revert i1 i2 carry acc. induction n as [|n IH]; intros; [done|]. cbn [add_loop fsum to_digits].
  rewrite IH, <- app_assoc. cbn [app].
  rewrite !fsum_guarded_next.
  set (a := fsum _ n). set (b := fsum _ n). rewrite !Z.sub_0_r.
  set (c := carry + guarded v1 (i1 - 1) + guarded v2 (i2 - 1)).
  replace (carry + (guarded v1 (i1 - 1) + 10 * a) + (guarded v2 (i2 - 1) + 10 * b))
    with (c + (a + b) * 10) by lia.
  rewrite Z.div_add, Z_mod_plus_full by lia. do 2 f_equal. lia.
Qed.

Lemma sub_loop_digits v1 v2 n i1 i2 borrow acc : -1 <= borrow <= 0 ->
  Forall digit_ok (digits v1) -> Forall digit_ok (digits v2) ->
  sub_loop v1 v2 n i1 i2 borrow acc =
  to_digits n (borrow + fsum (fun j => guarded v1 (i1 - 1 - j)) n
                      - fsum (fun j => guarded v2 (i2 - 1 - j)) n) ++ acc.
Proof.
  intros Hb Hv1 Hv2. revert i1 i2 borrow Hb acc.
  induction n as [|n IH]; intros; [done|]. cbn [sub_loop fsum to_digits].
  rewrite !Z.sub_0_r, <- app_assoc. cbn [app].
  set (c := borrow + guarded v1 (i1 - 1) - guarded v2 (i2 - 1)).
  assert (-10 <= c <= 9).
  { unfold c. rewrite !guarded_aget. pose proof (digit_bound _ (i1 - 1) Hv1).
    pose proof (digit_bound _ (i2 - 1) Hv2). lia. }
  set (a := fsum (fun j => guarded v1 (i1 - 1 - (j + 1))) n).
  set (b := fsum (fun j => guarded v2 (i2 - 1 - (j + 1))) n).
  replace (borrow + (guarded v1 (i1 - 1) + 10 * a) - (guarded v2 (i2 - 1) + 10 * b))
    with (c + (a - b) * 10) by lia.
  rewrite Z.div_add, Z_mod_plus_full by lia.
  assert (forall c', -1 <= c' <= 0 -> forall d, sub_loop v1 v2 n (i1 - 1) (i2 - 1) c' (d :: acc)
    = to_digits n (c' + (a - b)) ++ d :: acc) as Hstep.
  { intros c' Hc' d. rewrite IH by done. do 2 f_equal.
    rewrite !fsum_guarded_next. fold a b. lia. }
  destruct (Z.ltb_spec c 0); rewrite Hstep by lia.
  - replace (c / 10) with (-1) by (apply (Z.div_unique c 10 (-1) (c + 10)); lia).
    by replace (c mod 10) with (c + 10) by (apply (Z.mod_unique c 10 (-1) (c + 10)); lia).
  - by rewrite Z.div_small, Z.mod_small by lia.
Qed.

Lemma to_digits_zero n i : aget 0 (to_digits n 0) i = 0.
Proof.
  destruct (decide (0 <= i < Z.of_nat n)).
  - by rewrite aget_to_digits, Z.div_0_l by (try apply Z.pow_nonzero; lia).
  - apply aget_out. rewrite to_digits_length. lia.
Qed.

(** What a function that writes [n] digits from weight [w] down to the scale
    [r] and strips them has computed. *)
Lemma strip_to_digits r w n x v : n = Z.to_nat (Z.max 1 (r + w + 1)) ->
  0 <= x < 10 ^ Z.max 0 (r + w + 1) -> digits v = (strip (to_digits n x) w).1 ->
  weight v = (strip (to_digits n x) w).2 ->
  Forall digit_ok (digits v) /\ stripped (digits v) /\ (forall p, p < - r -> dig v p = 0)
  /\ scaled r v = x.
Proof.
  intros Hn Hx Hd Hw. assert (forall p, dig v p = aget 0 (to_digits n x) (w - p)) as Hdig.
  { intros p. unfold dig. rewrite Hd, Hw. apply strip_digits. }
  assert (r + w + 1 <= 0 -> x = 0) as Hx0 by (intros; rewrite Z.max_l in Hx by lia; simpl in Hx; lia).
  split; [|split; [|split]].
  - rewrite Hd. apply strip_Forall, to_digits_ok.
  - rewrite Hd. apply strip_stripped.
  - intros p Hp. rewrite Hdig. destruct (decide (r + w + 1 <= 0)).
    + rewrite Hx0 by lia. apply to_digits_zero.
    + apply aget_out. rewrite to_digits_length. lia.
  - destruct (decide (r + w + 1 <= 0)).
    + rewrite Hx0 in Hdig by lia. rewrite Hx0 by lia. rewrite (scaled_ext r v const_zero).
      { by rewrite scaled_list, scaledl_nil. }
      intros p _. rewrite Hdig, to_digits_zero. unfold dig. by rewrite aget_out by (cbn; lia).
    + transitivity (scaledl r w (to_digits n x)).
      * apply scaledl_ext. intros p _. apply Hdig.
      * apply scaledl_to_digits; [lia|]. by replace (Z.of_nat n) with (Z.max 0 (r + w + 1)) by lia.
Qed.

Lemma fsum_guarded_mod v k n : Forall digit_ok (digits v) ->
  fsum (fun j => guarded v (k + weight v + 1 - 1 - j)) n = scaled k v mod 10 ^ Z.of_nat n.
Proof.
  intros Hok. rewrite <- fsum_digits_of. apply fsum_ext. intros j Hj. rewrite guarded_aget.
  replace (k + weight v + 1 - 1 - j) with (weight v - (j - k)) by lia.
  change (aget 0 (digits v) (weight v - (j - k))) with (dig v (j - k)).
  rewrite (scaled_dig k) by (done || lia). do 3 f_equal. lia.
Qed.

(** [v] is the stripped number of [x] units of [10 ^ (- r)]. *)
Definition is_scaled (r x : Z) (v : NumericVar) : Prop :=
  Forall digit_ok (digits v) /\ stripped (digits v) /\ (forall p, p < - r -> dig v p = 0)
  /\ scaled r v = x.

Lemma add_abs_spec v1 v2 s : Forall digit_ok (digits v1) -> Forall digit_ok (digits v2) ->
  let r := Z.max (rscale v1) (rscale v2) in
  is_scaled r (scaled r v1 + scaled r v2) (add_abs v1 v2 s)
  /\ sign (add_abs v1 v2 s) = s /\ rscale (add_abs v1 v2 s) = r
  /\ dscale (add_abs v1 v2 s) = Z.max (dscale v1) (dscale v2).
Proof.
  intros H1 H2 r. set (w := Z.max (weight v1) (weight v2) + 1).
  set (n := Z.to_nat (Z.max 1 (r + w + 1))).
  assert (add_abs v1 v2 s = mkVar (strip (to_digits n (scaled r v1 + scaled r v2)) w).2 r
    (Z.max (dscale v1) (dscale v2)) s (strip (to_digits n (scaled r v1 + scaled r v2)) w).1) as ->.
  { unfold add_abs. fold r w.
    replace (if r + w + 1 <=? 0 then 1 else r + w + 1) with (Z.max 1 (r + w + 1))
      by (destruct (Z.leb_spec (r + w + 1) 0); lia). fold n.
    rewrite add_loop_digits, app_nil_r, Z.add_0_l, !fsum_guarded by lia.
    unfold strip. by destruct (strip_leading _ w). }
  split; [|done]. apply (strip_to_digits r w n); try done.
  pose proof (scaled_bound r v1 H1) as B1. pose proof (scaled_bound r v2 H2) as B2.
  assert (forall wi, wi < w -> 10 ^ Z.max 0 (r + wi + 1) <= 10 ^ Z.max 0 (r + w)) as Hp
    by (intros; apply Z.pow_le_mono_r; lia).
  pose proof (Hp (weight v1) ltac:(lia)). pose proof (Hp (weight v2) ltac:(lia)).
  destruct (decide (r + w + 1 <= 0)).
  - rewrite (Z.max_l 0 (r + w + 1)) by lia. rewrite (Z.max_l 0 (r + w)) in * by lia.
    change (10 ^ 0) with 1 in *. lia.
  - rewrite (Z.max_r 0 (r + w + 1)) by lia. rewrite (Z.max_r 0 (r + w)) in * by lia.
    rewrite Z.pow_add_r by lia. lia.
Qed.

Lemma sub_abs_spec v1 v2 s : Forall digit_ok (digits v1) -> Forall digit_ok (digits v2) ->
  let r := Z.max (rscale v1) (rscale v2) in
  scaled r v2 <= scaled r v1 ->
  is_scaled r (scaled r v1 - scaled r v2) (sub_abs v1 v2 s)
  /\ sign (sub_abs v1 v2 s) = s /\ rscale (sub_abs v1 v2 s) = r
  /\ dscale (sub_abs v1 v2 s) = Z.max (dscale v1) (dscale v2).
Proof.
  intros H1 H2 r Hle. set (w := weight v1). set (n := Z.to_nat (Z.max 1 (r + w + 1))).
  pose proof (scaled_bound r v1 H1) as B1. pose proof (scaled_bound r v2 H2) as B2. fold w in B1.
  assert (10 ^ Z.max 0 (r + w + 1) <= 10 ^ Z.of_nat n) by (apply Z.pow_le_mono_r; lia).
  assert (sub_abs v1 v2 s = mkVar (strip (to_digits n (scaled r v1 - scaled r v2)) w).2 r
    (Z.max (dscale v1) (dscale v2)) s (strip (to_digits n (scaled r v1 - scaled r v2)) w).1) as ->.
  { unfold sub_abs. fold r w.
    replace (if r + w + 1 <=? 0 then 1 else r + w + 1) with (Z.max 1 (r + w + 1))
      by (destruct (Z.leb_spec (r + w + 1) 0); lia). fold n. unfold w.
    rewrite sub_loop_digits, app_nil_r, Z.add_0_l, !fsum_guarded_mod by (done || lia).
    rewrite !Z.mod_small by (fold w; lia).
    unfold strip. by destruct (strip_leading _ _). }
  split; [|done]. apply (strip_to_digits r w n); try done. lia.
Qed.

(** ** Comparison *)

Definition ordering (c : comparison) : Z := match c with Eq => 0 | Lt => -1 | Gt => 1 end.

Lemma scaledl_pos k w ds : Zlen ds - 1 - w <= k -> Forall digit_ok ds ->
  existsb (fun d => negb (d =? 0)) ds = (0 <? scaledl k w ds).
Proof.
  revert w. induction ds as [|d ds IH]; intros w Hk Hok; [by rewrite scaledl_nil|].
  cbn [length] in Hk. inversion Hok; subst. cbn [existsb].
  rewrite scaledl_cons, (IH (w - 1)) by (done || lia).
  pose proof (scaledl_bound k (w - 1) ds ltac:(done)). pose proof (Z.pow_pos_nonneg 10 (k + w)).
  destruct (Z.eqb_spec d 0) as [->|]; [done|]. cbn [negb orb]. symmetry. apply Z.ltb_lt. nia.
Qed.

Lemma skip_above_spec k ds w wo : Zlen ds - 1 - w <= k -> Forall digit_ok ds -> 0 <= k + wo + 1 ->
  match skip_above ds w wo with
  | None => 10 ^ (k + wo + 1) <= scaledl k w ds
  | Some (ds', w') => Forall digit_ok ds' /\ Zlen ds' - 1 - w' <= k /\ scaledl k w' ds' = scaledl k w ds
      /\ (w' <= wo \/ ds' = []) /\ (wo <= w -> wo <= w') /\ (w <= wo -> ds' = ds /\ w' = w)
  end.
Proof.
  revert w. induction ds as [|d ds IH]; intros w Hk Hok Hwo; cbn [skip_above];
    destruct (Z.ltb_spec wo w); try (split_and!; auto with lia; by left; lia).
  cbn [length] in Hk. inversion Hok; subst.
  destruct (Z.eqb_spec d 0) as [->|Hd].
  - specialize (IH (w - 1) ltac:(lia) ltac:(done) Hwo). rewrite scaledl_cons by lia.
    rewrite Z.mul_0_l, Z.add_0_l. destruct (skip_above ds (w - 1) wo) as [[ds' w']|]; [|done].
    destruct IH as (? & ? & ? & ? & ? & ?). split_and!; auto with lia.
  - rewrite scaledl_cons by lia. pose proof (scaledl_bound k (w - 1) ds ltac:(done)).
    assert (10 ^ (k + wo + 1) <= 10 ^ (k + w)) by (apply Z.pow_le_mono_r; lia). nia.
Qed.

Lemma cmp_common_spec k w ds1 ds2 : Zlen ds1 - 1 - w <= k -> Zlen ds2 - 1 - w <= k ->
  Forall digit_ok ds1 -> Forall digit_ok ds2 ->
  match cmp_common ds1 ds2 with
  | inl stat => stat = ordering (scaledl k w ds1 ?= scaledl k w ds2)
  | inr (t1, t2) => exists w', Zlen t1 - 1 - w' <= k /\ Zlen t2 - 1 - w' <= k
      /\ Forall digit_ok t1 /\ Forall digit_ok t2 /\ (t1 = [] \/ t2 = [])
      /\ scaledl k w ds1 - scaledl k w ds2 = scaledl k w' t1 - scaledl k w' t2
  end.
Proof.
  revert w ds2. induction ds1 as [|d1 ds1 IH]; intros w [|d2 ds2] H1 H2 Ho1 Ho2; cbn [cmp_common];
    try (exists w; by auto 8).
  cbn [length] in *. inversion Ho1; inversion Ho2; subst.
  destruct (Z.eqb_spec (d1 - d2) 0) as [Heq|Hne]; cbn [negb].
  - specialize (IH (w - 1) ds2 ltac:(lia) ltac:(lia) ltac:(done) ltac:(done)).
    assert (d1 = d2) as -> by lia. destruct (cmp_common ds1 ds2) as [stat|[t1 t2]].
    + subst stat. rewrite !scaledl_cons by lia. by rewrite Z.add_compare_mono_l.
    + destruct IH as (w' & ? & ? & ? & ? & ? & He). exists w'. rewrite !scaledl_cons by lia.
      repeat split; auto; lia.
  - rewrite !scaledl_cons by lia. pose proof (scaledl_bound k (w - 1) ds1 ltac:(done)) as B1.
    pose proof (scaledl_bound k (w - 1) ds2 ltac:(done)) as B2.
    rewrite Z.max_r in B1, B2 by lia. replace (k + (w - 1) + 1) with (k + w) in B1, B2 by lia.
    destruct (Z.ltb_spec 0 (d1 - d2)).
    + rewrite (proj2 (Z.compare_gt_iff _ _)); [done|]. nia.
    + rewrite (proj2 (Z.compare_lt_iff _ _)); [done|]. nia.
Qed.

Lemma cmp_rest_spec k ds1 ds2 w1 w2 : Zlen ds1 - 1 - w1 <= k -> Zlen ds2 - 1 - w2 <= k ->
  Forall digit_ok ds1 -> Forall digit_ok ds2 -> (ds1 = [] \/ ds2 = []) ->
  forall a b, a - b = scaledl k w1 ds1 - scaledl k w2 ds2 ->
  cmp_rest ds1 ds2 = ordering (a ?= b).
Proof.
  intros H1 H2 Ho1 Ho2 Hnil a b Hab. unfold cmp_rest.
  rewrite (scaledl_pos k w1 ds1), (scaledl_pos k w2 ds2) by done.
  pose proof (scaledl_bound k w1 ds1 Ho1). pose proof (scaledl_bound k w2 ds2 Ho2).
  assert (scaledl k w1 ds1 = 0 \/ scaledl k w2 ds2 = 0) as Hz
    by (destruct Hnil as [->| ->]; rewrite scaledl_nil; auto).
  destruct (Z.ltb_spec 0 (scaledl k w1 ds1)), (Z.ltb_spec 0 (scaledl k w2 ds2)), (Z.compare_spec a b);
    cbn [ordering]; lia.
Qed.

Lemma cmp_abs_lists k v1 v2 : Forall digit_ok (digits v1) -> Forall digit_ok (digits v2) ->
  places v1 <= k -> places v2 <= k -> 0 <= k + weight v1 + 1 -> 0 <= k + weight v2 + 1 ->
  cmp_abs v1 v2 = ordering (scaled k v1 ?= scaled k v2).
Proof.
  intros Ho1 Ho2 Hp1 Hp2 Hw1 Hw2. unfold places, ndigits in *. rewrite !scaled_list. unfold cmp_abs.
  pose proof (skip_above_spec k (digits v1) (weight v1) (weight v2) ltac:(lia) Ho1 Hw2) as S1.
  destruct (skip_above (digits v1) _ _) as [[ds1 w1]|].
  - destruct S1 as (Hd1 & Hk1 & E1 & Hor1 & Hge1 & Hsame1). rewrite <- E1.
    assert (0 <= k + w1 + 1) by (destruct (Z.le_ge_cases (weight v1) (weight v2)); naive_solver lia).
    pose proof (skip_above_spec k (digits v2) (weight v2) w1 ltac:(lia) Ho2 ltac:(done)) as S2.
    destruct (skip_above (digits v2) _ _) as [[ds2 w2]|].
    + destruct S2 as (Hd2 & Hk2 & E2 & Hor2 & Hge2 & Hsame2). rewrite <- E2.
      destruct (Z.eqb_spec w1 w2) as [<-|Hne].
      * pose proof (cmp_common_spec k w1 ds1 ds2 Hk1 Hk2 Hd1 Hd2) as C.
        destruct (cmp_common ds1 ds2) as [stat|[t1 t2]]; [done|].
        destruct C as (w' & ? & ? & ? & ? & ? & He). by eapply (cmp_rest_spec k t1 t2 w' w').
      * apply (cmp_rest_spec k ds1 ds2 w1 w2); try done.
        destruct Hor1 as [|]; [|by left]. destruct Hor2 as [|]; [|by right].
        destruct (Z.le_ge_cases w1 (weight v2)); naive_solver lia.
    + pose proof (scaledl_bound k w1 ds1 Hd1) as B. rewrite Z.max_r in B by lia.
      rewrite (proj2 (Z.compare_lt_iff _ _)); [done|]. lia.
  - pose proof (scaledl_bound k (weight v2) (digits v2) Ho2) as B. rewrite Z.max_r in B by lia.
    rewrite (proj2 (Z.compare_gt_iff _ _)); [done|]. lia.
Qed.

Lemma cmp_abs_spec k v1 v2 : Forall digit_ok (digits v1) -> Forall digit_ok (digits v2) ->
  (forall p, p < - k -> dig v1 p = 0) -> (forall p, p < - k -> dig v2 p = 0) ->
  cmp_abs v1 v2 = ordering (scaled k v1 ?= scaled k v2).
Proof.
  intros Ho1 Ho2 H1 H2.
  set (m := Z.max 0 (places v1 - k) + Z.max 0 (places v2 - k)
            + Z.max 0 (- k - weight v1 - 1) + Z.max 0 (- k - weight v2 - 1)).
  rewrite (cmp_abs_lists (k + m)) by (done || lia). rewrite !scaled_more by (done || lia).
  by rewrite <- (Zmult_compare_compat_r _ _ (10 ^ m)) by (apply Z.lt_gt, Z.pow_pos_nonneg; lia).
Qed.

(** ** Signed addition and subtraction *)

Lemma is_scaled_numval r x v : 0 <= r -> is_scaled r x v -> (numval v == signed v x # tenpow r)%Q.
Proof. intros Hr (_ & _ & Hd & <-). by apply numval_at. Qed.

Lemma is_scaled_ok r x v s : 0 <= r -> is_scaled r x v -> sign v = s -> rscale v = r ->
  s = NUMERIC_POS \/ s = NUMERIC_NEG -> var_ok v.
Proof. intros Hr (? & _ & ? & _) <- <-. by constructor. Qed.

(** The result of an addition: a stripped variable at the larger scales. *)
Record sum_ok (v1 v2 v : NumericVar) (q : Q) : Prop := {
  sum_var : var_ok v;
  sum_stripped : stripped (digits v);
  sum_rscale : rscale v = Z.max (rscale v1) (rscale v2);
  sum_dscale : dscale v = Z.max (dscale v1) (dscale v2);
  sum_value : (numval v == q)%Q
}.

Lemma ok_dig_scale v r p : var_ok v -> rscale v <= r -> p < - r -> dig v p = 0.
Proof. intros Hv Hr Hp. apply (ok_scale v Hv). lia. Qed.

(** The three cases of a subtraction of absolute values. *)
Lemma diff_spec v1 v2 s1 s2 : var_ok v1 -> var_ok v2 ->
  (s1 = NUMERIC_POS /\ s2 = NUMERIC_NEG) \/ (s1 = NUMERIC_NEG /\ s2 = NUMERIC_POS) ->
  let r := Z.max (rscale v1) (rscale v2) in
  let stat := cmp_abs v1 v2 in
  sum_ok v1 v2 (if stat =? 0 then zero_result v1 v2
                else if stat =? 1 then sub_abs v1 v2 s1 else sub_abs v2 v1 s2)
    ((if s1 =? NUMERIC_POS then scaled r v1 - scaled r v2 else scaled r v2 - scaled r v1) # tenpow r).
Proof.
  intros Ok1 Ok2 Hs r. pose proof (ok_rscale _ Ok1). pose proof (ok_rscale _ Ok2).
  assert (0 <= r) as Hr by lia. cbn zeta.
  rewrite (cmp_abs_spec r) by (try apply ok_digits; try (intros p Hp; apply (ok_dig_scale _ r)); done || lia).
  destruct (Z.compare_spec (scaled r v1) (scaled r v2)) as [E|L|G]; cbn [ordering].
  - rewrite Z.eqb_refl. constructor; try done.
    + constructor; cbn [zero_result digits sign rscale]; auto with lia. intros p _. by apply aget_out; cbn; lia.
    + by left.
    + rewrite numval_zero by (intros p; apply aget_out; cbn; lia). rewrite E, Z.sub_diag. by case_match.
  - change (-1 =? 0) with false. change (-1 =? 1) with false. cbn iota.
    destruct (sub_abs_spec v2 v1 s2) as (Hsc & Hsg & Hrs & Hds); try by apply ok_digits.
    { rewrite Z.max_comm. fold r. lia. }
    rewrite Z.max_comm in Hsc, Hrs, Hds. fold r in Hsc, Hrs. constructor; try done.
    + eapply is_scaled_ok; try done. naive_solver.
    + apply Hsc.
    + rewrite (is_scaled_numval r _ _ Hr Hsc). unfold signed. rewrite Hsg.
      destruct Hs as [[-> ->]|[-> ->]]; cbn; unfold Qeq; cbn [Qnum Qden]; lia.
  - change (1 =? 0) with false. change (1 =? 1) with true. cbn iota.
    destruct (sub_abs_spec v1 v2 s1) as (Hsc & Hsg & Hrs & Hds); try by apply ok_digits.
    { fold r. lia. }
    fold r in Hsc, Hrs. constructor; try done.
    + eapply is_scaled_ok; try done. naive_solver.
    + apply Hsc.
    + rewrite (is_scaled_numval r _ _ Hr Hsc). unfold signed. rewrite Hsg.
      destruct Hs as [[-> ->]|[-> ->]]; cbn; unfold Qeq; cbn [Qnum Qden]; lia.
Qed.

Lemma total_spec v1 v2 s : var_ok v1 -> var_ok v2 -> s = NUMERIC_POS \/ s = NUMERIC_NEG ->
  let r := Z.max (rscale v1) (rscale v2) in
  sum_ok v1 v2 (add_abs v1 v2 s)
    ((if s =? NUMERIC_POS then scaled r v1 + scaled r v2 else - (scaled r v1 + scaled r v2)) # tenpow r).
Proof.
  intros Ok1 Ok2 Hs r. pose proof (ok_rscale _ Ok1). pose proof (ok_rscale _ Ok2).
  destruct (add_abs_spec v1 v2 s) as (Hsc & Hsg & Hrs & Hds); try by apply ok_digits.
  fold r in Hsc, Hrs. constructor; try done.
  - apply (is_scaled_ok r _ _ s ltac:(lia) Hsc Hsg Hrs Hs).
  - apply Hsc.
  - rewrite (is_scaled_numval r _ _ ltac:(lia) Hsc). unfold signed. by rewrite Hsg.
Qed.

Lemma sum_ok_proper v1 v2 v q q' : (q == q')%Q -> sum_ok v1 v2 v q -> sum_ok v1 v2 v q'.
Proof. intros Hq []. constructor; try done. by rewrite <- Hq. Qed.

(** Both arguments at the common scale. *)
Lemma numval_common v1 v2 : var_ok v1 -> var_ok v2 ->
  let r := Z.max (rscale v1) (rscale v2) in
  (numval v1 == signed v1 (scaled r v1) # tenpow r)%Q /\ (numval v2 == signed v2 (scaled r v2) # tenpow r)%Q.
Proof.
  intros Ok1 Ok2 r. pose proof (ok_rscale _ Ok1). pose proof (ok_rscale _ Ok2).
  split; apply numval_at; try lia; intros p Hp; apply (ok_dig_scale _ r); done || lia.
Qed.

Lemma add_var_spec v1 v2 : var_ok v1 -> var_ok v2 -> sum_ok v1 v2 (add_var v1 v2) (numval v1 + numval v2).
Proof.
  intros Ok1 Ok2. destruct (numval_common v1 v2 Ok1 Ok2) as [N1 N2].
  eapply sum_ok_proper; [rewrite N1, N2, <- Qmake_add; reflexivity|]. unfold add_var, signed.
  destruct (ok_sign _ Ok1) as [S1|S1], (ok_sign _ Ok2) as [S2|S2]; rewrite S1, S2; cbn [Z.eqb NUMERIC_POS NUMERIC_NEG Pos.eqb];
    (eapply sum_ok_proper; [|first [by apply total_spec; auto | by apply diff_spec; auto]]);
    unfold Qeq; cbn [Qnum Qden Z.eqb NUMERIC_POS NUMERIC_NEG]; lia.
Qed.

Lemma sub_var_spec v1 v2 : var_ok v1 -> var_ok v2 -> sum_ok v1 v2 (sub_var v1 v2) (numval v1 - numval v2).
Proof.
  intros Ok1 Ok2. destruct (numval_common v1 v2 Ok1 Ok2) as [N1 N2].
  eapply sum_ok_proper; [rewrite N1, N2, <- Qmake_sub; reflexivity|]. unfold sub_var, signed.
  destruct (ok_sign _ Ok1) as [S1|S1], (ok_sign _ Ok2) as [S2|S2]; rewrite S1, S2; cbn [Z.eqb NUMERIC_POS NUMERIC_NEG Pos.eqb];
    (eapply sum_ok_proper; [|first [by apply total_spec; auto | by apply diff_spec; auto]]);
    unfold Qeq; cbn [Qnum Qden Z.eqb NUMERIC_POS NUMERIC_NEG]; lia.
Qed.

(** ** Multiplication *)

(** The integer a list of digits spells, and a reversed one. *)
Fixpoint dval (ds : list Z) : Z :=
  match ds with d :: ds => d * 10 ^ Zlen ds + dval ds | [] => 0 end.
Fixpoint rval (ds : list Z) : Z := match ds with d :: ds => d + 10 * rval ds | [] => 0 end.

Lemma dval_app l1 l2 : dval (l1 ++ l2) = dval l1 * 10 ^ Zlen l2 + dval l2.
Proof.
  induction l1 as [|d l1 IH]; [done|]. cbn [app dval]. rewrite IH, length_app, Nat2Z.inj_add, Z.pow_add_r by lia. lia.
Qed.

Lemma rval_reverse l : rval (reverse l) = dval l.
Proof.
  rewrite <- (reverse_involutive l) at 2. generalize (reverse l) as m. clear l. intros m.
  induction m as [|d m IH]; [done|]. rewrite reverse_cons, dval_app. cbn [rval dval length]. rewrite IH.
  change (Z.of_nat 1) with 1. change (Z.of_nat 0) with 0. lia.
Qed.

Lemma scaledl_dval k w ds : Zlen ds - 1 - w <= k -> scaledl k w ds = dval ds * 10 ^ (k + w + 1 - Zlen ds).
Proof.
  revert w. induction ds as [|d ds IH]; intros w Hk; [by rewrite scaledl_nil|]. cbn [length dval] in *.
  rewrite scaledl_cons, IH by lia. rewrite Z.mul_add_distr_r, <- Z.mul_assoc, <- Z.pow_add_r by lia.
  f_equal; [do 2 f_equal; lia|do 2 f_equal; lia].
Qed.

Lemma dval_bound ds : Forall digit_ok ds -> 0 <= dval ds < 10 ^ Zlen ds.
Proof.
  intros H. pose proof (scaledl_bound 0 (Zlen ds - 1) ds H) as B. rewrite scaledl_dval in B by lia.
  replace (0 + (Zlen ds - 1) + 1 - Zlen ds) with 0 in B by lia. rewrite Z.pow_0_r, Z.mul_1_r in B.
  by replace (Z.max 0 (0 + (Zlen ds - 1) + 1)) with (Zlen ds) in B by lia.
Qed.

Lemma dval_digit ds i : Forall digit_ok ds -> 0 <= i < Zlen ds ->
  aget 0 ds i = (dval ds / 10 ^ (Zlen ds - 1 - i)) mod 10.
Proof.
  intros H Hi. rewrite (scaledl_digit 0 (Zlen ds - 1) ds) by (done || lia). rewrite scaledl_dval by lia.
  replace (0 + (Zlen ds - 1) + 1 - Zlen ds) with 0 by lia. rewrite Z.pow_0_r, Z.mul_1_r. do 3 f_equal. lia.
Qed.

Lemma dval_to_digits n x : 0 <= x < 10 ^ Z.of_nat n -> dval (to_digits n x) = x.
Proof.
  intros Hx. pose proof (scaledl_to_digits 0 (Z.of_nat n - 1) n x ltac:(lia) Hx) as E.
  rewrite scaledl_dval, to_digits_length in E by (rewrite to_digits_length; lia).
  replace (0 + (Z.of_nat n - 1) + 1 - Z.of_nat n) with 0 in E by lia. by rewrite Z.pow_0_r, Z.mul_1_r in E.
Qed.

Lemma to_digits_dval ds : Forall digit_ok ds -> to_digits (length ds) (dval ds) = ds.
Proof.
  induction ds as [|d ds IH] using rev_ind; intros H; [done|]. apply Forall_app in H as [H1 H2].
  inversion H2; subst. rewrite length_app, Nat.add_comm, dval_app. cbn [length Nat.add to_digits dval].
  change (Z.of_nat 1) with 1. change (10 ^ 1) with 10. change (10 ^ Z.of_nat 0) with 1.
  rewrite Z.mul_1_r, Z.add_0_r, Z.div_add_l, Z.div_small, Z.add_0_r, IH by (done || lia). do 2 f_equal.
  rewrite Z.add_comm, Z_mod_plus_full. by apply Z.mod_small; lia.
Qed.

Lemma dval_take ds n : Forall digit_ok ds -> (n <= length ds)%nat ->
  dval (take n ds) = dval ds / 10 ^ (Zlen ds - Z.of_nat n).
Proof.
  intros H Hn. rewrite <- (take_drop n ds) at 2. rewrite dval_app, length_drop.
  pose proof (dval_bound (drop n ds) (Forall_drop _ _ _ H)) as B. rewrite length_drop in B.
  rewrite Nat2Z.inj_sub in * by lia. rewrite Z.div_add_l, Z.div_small by lia. lia.
Qed.

Lemma dval_aset ds i x : 0 <= i < Zlen ds ->
  dval (aset ds i x) = dval ds + (x - aget 0 ds i) * 10 ^ (Zlen ds - 1 - i).
Proof.
  revert i. induction ds as [|d ds IH]; intros i Hi; [cbn in Hi; lia|]. cbn [length] in Hi.
  unfold aset, aget in *. destruct (Z.ltb_spec i 0); [lia|]. destruct (decide (i = 0)) as [->|].
  - change (Z.to_nat 0) with 0%nat. cbn [dval length insert list_insert lookup list_lookup default].
    replace (Z.of_nat (S (length ds)) - 1 - 0) with (Zlen ds) by lia. cbn. lia.
  - specialize (IH (i - 1) ltac:(lia)). destruct (Z.ltb_spec (i - 1) 0); [lia|].
    replace (Z.to_nat i) with (S (Z.to_nat (i - 1))) by lia.
    change (<[S (Z.to_nat (i - 1)):=x]> (d :: ds)) with (d :: <[Z.to_nat (i - 1):=x]> ds).
    change ((d :: ds) !! S (Z.to_nat (i - 1))) with (ds !! Z.to_nat (i - 1)). cbn [dval length].
    rewrite IH, length_insert. replace (Z.of_nat (S (length ds)) - 1 - i) with (Zlen ds - 1 - (i - 1)) by lia. lia.
Qed.

(** One row adds [d1] times the second number at its place; the place above
    it must still be empty. *)
Lemma mul_row_spec d1 ds2 res i sum : 0 <= d1 <= 9 -> Forall digit_ok ds2 -> Forall digit_ok res ->
  0 <= sum <= 9 -> 0 <= i - Zlen ds2 -> i < Zlen res -> aget 0 res (i - Zlen ds2) = 0 ->
  let res' := mul_row d1 ds2 res i sum in
  length res' = length res /\ Forall digit_ok res'
  /\ (forall j, j < i - Zlen ds2 -> aget 0 res' j = aget 0 res j)
  /\ dval res' = dval res + (sum + d1 * rval ds2) * 10 ^ (Zlen res - 1 - i).
Proof.
  intros Hd1. revert res i sum. induction ds2 as [|d2 ds2 IH]; intros res i sum H2 Hres Hsum Hi Hl H0;
    cbn [mul_row rval length] in *; cbn zeta.
  - change (Z.of_nat 0) with 0 in *. rewrite Z.sub_0_r in *.
    rewrite aset_length, dval_aset, H0 by lia. split_and!; [done|by apply aset_Forall| |lia].
    intros j Hj. apply aget_aset_ne. lia.
  - inversion H2; subst. pose proof (digit_bound res i Hres).
    set (s := sum + aget 0 res i + d1 * d2). assert (0 <= s <= 99) by (unfold s; nia).
    pose proof (Z.mod_pos_bound s 10 ltac:(lia)).
    assert (0 <= s / 10 <= 9) by (pose proof (Z.div_pos s 10); pose proof (Z.div_lt_upper_bound s 10 10); lia).
    destruct (IH (aset res i (s mod 10)) (i - 1) (s / 10)) as (L & F & J & V); try done; try lia.
    + apply aset_Forall; [lia|done].
    + rewrite aset_length. lia.
    + rewrite aget_aset_ne by lia. etransitivity; [|apply H0]. f_equal. lia.
    + rewrite aset_length in L, V. split_and!; [done|done| |].
      * intros j Hj. rewrite J by lia. apply aget_aset_ne. lia.
      * rewrite V, dval_aset by lia.
        replace (Zlen res - 1 - (i - 1)) with (Z.succ (Zlen res - 1 - i)) by lia.
        rewrite Z.pow_succ_r by lia. pose proof (Z.div_mod s 10 ltac:(lia)).
        set (e := 10 ^ (Zlen res - 1 - i)) in *. unfold s in *. nia.
Qed.

Lemma mul_rows_spec ds1 ds2 res ri : Forall digit_ok ds1 -> Forall digit_ok ds2 -> Forall digit_ok res ->
  ri <= Zlen res -> Zlen ds1 + Zlen ds2 < ri -> (forall j, j < ri - Zlen ds2 -> aget 0 res j = 0) ->
  let res' := mul_rows ds1 ds2 res ri in
  length res' = length res /\ Forall digit_ok res'
  /\ dval res' = dval res + rval ds1 * rval ds2 * 10 ^ (Zlen res - ri).
Proof.
  revert res ri. induction ds1 as [|d1 ds1 IH]; intros res ri H1 H2 Hres Hl Hri H0;
    cbn [mul_rows rval length] in *; cbn zeta; [split_and!; [done|done|lia]|].
  inversion H1; subst.
  destruct (mul_row_spec d1 ds2 res (ri - 1) 0) as (L & F & J & V); try done; try lia.
  { apply H0. lia. }
  destruct (IH (mul_row d1 ds2 res (ri - 1) 0) (ri - 1)) as (L' & F' & V'); try done; try lia.
  { intros j Hj. rewrite J by lia. apply H0. lia. }
  rewrite L in *. split_and!; [done|done|]. rewrite V', V.
  replace (Zlen res - 1 - (ri - 1)) with (Zlen res - ri) by lia.
  replace (Zlen res - (ri - 1)) with (Z.succ (Zlen res - ri)) by lia. rewrite Z.pow_succ_r by lia. lia.
Qed.

Lemma mul_digits v1 v2 : Forall digit_ok (digits v1) -> Forall digit_ok (digits v2) ->
  let n := ndigits v1 + ndigits v2 + 1 in
  let res := mul_rows (reverse (digits v1)) (reverse (digits v2)) (replicate (Z.to_nat n) 0) n in
  Zlen res = n /\ Forall digit_ok res /\ dval res = dval (digits v1) * dval (digits v2).
Proof.
  intros H1 H2 n res. assert (n = Zlen (digits v1) + Zlen (digits v2) + 1) as Hn by done.
  assert (forall m, dval (replicate m 0) = 0) as Hz by (induction m; [done|cbn [replicate dval]; lia]).
  destruct (mul_rows_spec (reverse (digits v1)) (reverse (digits v2)) (replicate (Z.to_nat n) 0) n)
    as (L & F & V); rewrite ?length_reverse, ?length_replicate; try lia; try by apply Forall_reverse.
  - apply Forall_replicate. lia.
  - intros j Hj. apply (aget_Forall (fun d => d = 0)); [done|]. by apply Forall_replicate.
  - fold res in L, F, V. rewrite length_replicate in L, V. split_and!; [lia|done|].
    rewrite V, Hz, !rval_reverse. replace (Z.of_nat (Z.to_nat n) - n) with 0 by lia. lia.
Qed.

Lemma sum_loop_above n res c : length (sum_loop n res (Z.of_nat n - 1) c) = length res
  /\ forall i, Z.of_nat n <= i -> aget 0 (sum_loop n res (Z.of_nat n - 1) c) i = aget 0 res i.
Proof.
  revert res c. induction n as [|n IH]; intros res c; [done|]. cbn [sum_loop].
  destruct (c =? 0); [done|]. replace (Z.of_nat (S n) - 1) with (Z.of_nat n) by lia. cbn zeta.
  destruct (IH (aset res (Z.of_nat n) ((c + aget 0 res (Z.of_nat n)) mod 10))
              ((c + aget 0 res (Z.of_nat n)) / 10)) as [L J].
  rewrite L, aset_length. split; [done|]. intros i Hi. rewrite J by lia. apply aget_aset_ne. lia.
Qed.

Lemma take_S_aget (l : list Z) n : (n < length l)%nat -> take (S n) l = take n l ++ [aget 0 l (Z.of_nat n)].
Proof.
  intros Hn. destruct (lookup_lt_is_Some_2 l n Hn) as [x Hx]. rewrite (take_S_r l n x Hx). unfold aget.
  destruct (Z.ltb_spec (Z.of_nat n) 0); [lia|]. by rewrite Nat2Z.id, Hx.
Qed.

(** The carry loop adds [c] to the number in the first [n] places. *)
Lemma sum_loop_digits n res c : Forall digit_ok res -> (n <= length res)%nat -> 0 <= c <= 9 ->
  take n (sum_loop n res (Z.of_nat n - 1) c) = to_digits n (dval (take n res) + c).
Proof.
  revert res c. induction n as [|n IH]; intros res c Hok Hn Hc; [done|]. cbn [sum_loop].
  destruct (Z.eqb_spec c 0) as [->|Hc0].
  { rewrite Z.add_0_r. symmetry. replace (S n) with (length (take (S n) res)) at 1 by (rewrite length_take; lia).
    by apply to_digits_dval, Forall_take. }
  replace (Z.of_nat (S n) - 1) with (Z.of_nat n) by lia. cbn zeta.
  pose proof (digit_bound res (Z.of_nat n) Hok). set (s := c + aget 0 res (Z.of_nat n)) in *.
  pose proof (Z.mod_pos_bound s 10 ltac:(lia)).
  assert (0 <= s / 10 <= 9) by (pose proof (Z.div_pos s 10); pose proof (Z.div_lt_upper_bound s 10 10); lia).
  set (res' := aset res (Z.of_nat n) (s mod 10)).
  destruct (sum_loop_above n res' (s / 10)) as [L J].
  assert (length res' = length res) as L' by apply aset_length.
  rewrite take_S_aget by lia. rewrite IH, J by (try apply aset_Forall; lia || done).
  unfold res' at 2. rewrite aget_aset_eq by lia. rewrite (take_S_aget res), dval_app by lia.
  replace (take n res') with (take n res).
  2:{ unfold res', aset. destruct (Z.ltb_spec (Z.of_nat n) 0); [lia|].
      by rewrite Nat2Z.id, take_insert_ge by lia. }
  cbn [length dval to_digits]. change (Z.of_nat 1) with 1. change (10 ^ 1) with 10. change (10 ^ Z.of_nat 0) with 1.
  replace (dval (take n res) * 10 + (aget 0 res (Z.of_nat n) * 1 + 0) + c) with (s + dval (take n res) * 10) by (unfold s; lia).
  by rewrite Z.div_add, Z_mod_plus_full, Z.add_comm by lia.
Qed.

Lemma strip_is_scaled r w ds v : Forall digit_ok ds -> Zlen ds <= r + w + 1 ->
  digits v = (strip ds w).1 -> weight v = (strip ds w).2 ->
  is_scaled r (dval ds * 10 ^ (r + w + 1 - Zlen ds)) v.
Proof.
  intros Hok Hl Hd Hw. assert (forall p, dig v p = aget 0 ds (w - p)) as Hdig.
  { intros p. unfold dig. rewrite Hd, Hw. apply strip_digits. }
  split_and!.
  - rewrite Hd. by apply strip_Forall.
  - rewrite Hd. apply strip_stripped.
  - intros p Hp. rewrite Hdig. apply aget_out. lia.
  - rewrite <- scaledl_dval by lia. apply scaledl_ext. intros p _. apply Hdig.
Qed.

(** Rounding half up, away from zero. *)
Definition half_up (x m : Z) : Z := (x / 10 ^ (m - 1) + 5) / 10.

Lemma half_up_spec x m : 0 < m ->
  half_up x m = x / 10 ^ m + (if 4 <? (x / 10 ^ (m - 1)) mod 10 then 1 else 0).
Proof.
  intros Hm. unfold half_up. replace m with (Z.succ (m - 1)) at 2 by lia.
  rewrite Z.pow_succ_r, (Z.mul_comm 10), <- Z.div_div by (try apply Z.pow_nonzero; try apply Z.pow_pos_nonneg; lia).
  set (y := x / 10 ^ (m - 1)). pose proof (Z.div_mod y 10 ltac:(lia)). pose proof (Z.mod_pos_bound y 10 ltac:(lia)).
  destruct (Z.ltb_spec 4 (y mod 10)); symmetry.
  - apply (Z.div_unique _ 10 _ (y mod 10 - 5)); lia.
  - apply (Z.div_unique _ 10 _ (y mod 10 + 5)); lia.
Qed.

Lemma half_up_bound x n i : 0 <= i < n -> 0 <= x < 10 ^ (n - 1) -> 0 <= half_up x (n - i) < 10 ^ i.
Proof.
  intros Hi Hx. unfold half_up. replace (n - i - 1) with (n - 1 - i) by lia.
  pose proof (Z.pow_pos_nonneg 10 (n - 1 - i)).
  assert (0 <= x / 10 ^ (n - 1 - i) < 10 ^ i).
  { split; [apply Z.div_pos; lia|]. apply Z.div_lt_upper_bound; [lia|]. rewrite <- Z.pow_add_r by lia.
    replace (n - 1 - i + i) with (n - 1) by lia. lia. }
  split; [apply Z.div_pos; lia|]. apply Z.div_lt_upper_bound; lia.
Qed.

(** Cutting an array after [i] digits and carrying the rounding digit. *)
Lemma round_digits ds i : Forall digit_ok ds -> 0 <= i < Zlen ds ->
  take (Z.to_nat i) (sum_loop (Z.to_nat i) ds (i - 1) (if 4 <? aget 0 ds i then 1 else 0))
  = to_digits (Z.to_nat i) (half_up (dval ds) (Zlen ds - i)).
Proof.
  intros Hok Hi. set (c := if 4 <? aget 0 ds i then 1 else 0).
  assert (0 <= c <= 1) by (unfold c; case_match; lia).
  replace (i - 1) with (Z.of_nat (Z.to_nat i) - 1) by lia. rewrite sum_loop_digits by (done || lia).
  f_equal. rewrite half_up_spec, dval_take by (done || lia). f_equal; [do 2 f_equal; lia|]. unfold c.
  rewrite dval_digit by (done || lia). by replace (Zlen ds - 1 - i) with (Zlen ds - i - 1) by lia.
Qed.

(** The product of the absolute values, rounded one place below the scale. *)
Definition product (g : Z) (v1 v2 : NumericVar) : Z :=
  let N := dval (digits v1) * dval (digits v2) in
  let n := ndigits v1 + ndigits v2 + 1 in
  let i := weight v1 + weight v2 + 2 + g + 2 in
  if i <? n then half_up N (n - i) else N * 10 ^ (i - n).

Lemma mul_var_spec g v1 v2 result : Forall digit_ok (digits v1) -> Forall digit_ok (digits v2) ->
  0 <= weight v1 + weight v2 + 2 + g + 2 ->
  let v := mul_var g v1 v2 result in
  is_scaled (g + 1) (product g v1 v2) v /\ rscale v = g /\ dscale v = dscale result
  /\ (digits v = [] /\ sign v = NUMERIC_POS
      \/ sign v = if sign v1 =? sign v2 then NUMERIC_POS else NUMERIC_NEG).
Proof.
  intros H1 H2 Hi. cbn zeta. unfold mul_var, product.
  destruct (mul_digits v1 v2 H1 H2) as (L & F & V).
  set (w := weight v1 + weight v2 + 2) in *. set (n := ndigits v1 + ndigits v2 + 1) in *.
  set (i := w + g + 2) in *. set (T := mul_rows _ _ _ _) in *. rewrite (proj2 (Z.leb_le 0 i) Hi). cbn [andb].
  assert (exists ds, Forall digit_ok ds /\ Zlen ds <= i
    /\ dval ds * 10 ^ (i - Zlen ds) = (if i <? n then half_up (dval T) (n - i) else dval T * 10 ^ (i - n))
    /\ (if i <? n then take (Z.to_nat i) (sum_loop (Z.to_nat i) T (i - 1) (if 4 <? aget 0 T i then 1 else 0)) else T) = ds)
    as (ds & Hok & Hlen & Hval & ->).
  { destruct (Z.ltb_spec i n).
    - exists (to_digits (Z.to_nat i) (half_up (dval T) (n - i))). rewrite to_digits_length.
      split_and!; [apply to_digits_ok|lia| |rewrite <- L; apply round_digits; done || lia].
      replace (i - Z.of_nat (Z.to_nat i)) with 0 by lia. rewrite Z.pow_0_r, Z.mul_1_r.
      apply dval_to_digits. rewrite Z2Nat.id by done. apply half_up_bound; [lia|].
      pose proof (dval_bound _ H1). pose proof (dval_bound _ H2). rewrite V.
      replace (n - 1) with (ndigits v1 + ndigits v2) by (unfold n; lia).
      unfold ndigits. rewrite Z.pow_add_r by lia. nia.
    - exists T. split_and!; [done|lia|by rewrite L|done]. }
  rewrite <- V, <- Hval. destruct (strip_leading ds w) as [ds' w'] eqn:Es.
  assert ((strip ds w) = (strip_trailing ds', if Zlen (strip_trailing ds') =? 0 then 0 else w')) as Est
    by (unfold strip; by rewrite Es).
  destruct (Z.eqb_spec (Zlen (strip_trailing ds')) 0) as [E0|]; (split_and!; [|done|done|]); cbn [digits sign].
  - replace i with (g + 1 + w + 1) by (unfold i; lia). apply strip_is_scaled; rewrite ?Est; try done. lia.
  - left. split; [|done]. apply nil_length_inv. lia.
  - replace i with (g + 1 + w + 1) by (unfold i; lia). apply strip_is_scaled; rewrite ?Est; try done. lia.
  - by right.
Qed.

(** The value of the digits at a scale that holds them all. *)
Lemma scaled_dval v r : Forall digit_ok (digits v) -> (forall p, p < - r -> dig v p = 0) ->
  let k := Z.max r (ndigits v - 1 - weight v) in
  dval (digits v) * 10 ^ (k + weight v + 1 - ndigits v) = scaled r v * 10 ^ (k - r).
Proof.
  intros Hok Hr k. unfold ndigits in *. rewrite <- scaled_more by (done || lia).
  replace (r + (k - r)) with k by lia. rewrite scaled_list, scaledl_dval by lia. done.
Qed.

Lemma half_up_exact x m : 0 < m -> half_up (10 * x * 10 ^ m) m = 10 * x.
Proof.
  intros Hm. unfold half_up. replace m with (1 + (m - 1)) at 1 by lia. rewrite Z.pow_add_r, Z.mul_assoc by lia.
  rewrite Z.div_mul by (apply Z.pow_nonzero; lia). change (10 ^ 1) with 10.
  symmetry. apply (Z.div_unique _ 10 _ 5); lia.
Qed.

Lemma product_exact v1 v2 : var_ok v1 -> var_ok v2 ->
  let g := rscale v1 + rscale v2 in
  product g v1 v2 = 10 * (scaled (rscale v1) v1 * scaled (rscale v2) v2).
Proof.
  intros Ok1 Ok2 g.
  pose proof (scaled_dval v1 (rscale v1) (ok_digits _ Ok1) (ok_scale _ Ok1)) as E1.
  pose proof (scaled_dval v2 (rscale v2) (ok_digits _ Ok2) (ok_scale _ Ok2)) as E2. cbn zeta in E1, E2.
  set (k1 := Z.max (rscale v1) _) in *. set (k2 := Z.max (rscale v2) _) in *.
  set (S1 := scaled (rscale v1) v1) in *. set (S2 := scaled (rscale v2) v2) in *.
  unfold product. set (N := dval (digits v1) * dval (digits v2)).
  set (n := ndigits v1 + ndigits v2 + 1). set (i := weight v1 + weight v2 + 2 + g + 2).
  set (a1 := k1 + weight v1 + 1 - ndigits v1) in *. set (a2 := k2 + weight v2 + 1 - ndigits v2) in *.
  assert (N * 10 ^ (a1 + a2) = S1 * S2 * 10 ^ (k1 + k2 - g)) as E.
  { replace (k1 + k2 - g) with (k1 - rscale v1 + (k2 - rscale v2)) by lia.
    rewrite !Z.pow_add_r by lia. unfold N. rewrite Z.mul_shuffle1, E1, E2. ring. }
  assert (forall a b e, 0 <= e -> a * 10 ^ e = b * 10 ^ e -> a = b) as Hcancel.
  { intros a b e He. apply Z.mul_reg_r, Z.pow_nonzero; lia. }
  destruct (Z.ltb_spec i n).
  - rewrite (Hcancel N (10 * (S1 * S2) * 10 ^ (n - i)) (a1 + a2)); [apply half_up_exact; lia|lia|].
    rewrite E. replace (k1 + k2 - g) with (1 + ((n - i) + (a1 + a2))) by lia.
    rewrite (Z.pow_add_r 10 1), (Z.pow_add_r 10 (n - i)) by lia. ring.
  - apply (Hcancel _ _ (k1 + k2 - g)); [lia|]. rewrite <- Z.mul_assoc, <- Z.pow_add_r by lia.
    replace (i - n + (k1 + k2 - g)) with (1 + (a1 + a2)) by lia. rewrite (Z.pow_add_r 10 1) by lia.
    transitivity (10 * (N * 10 ^ (a1 + a2))); [ring|]. rewrite E. ring.
Qed.

Lemma Qmake_mul a b r1 r2 : 0 <= r1 -> 0 <= r2 ->
  ((a # tenpow r1) * (b # tenpow r2) == (a * b) # tenpow (r1 + r2))%Q.
Proof.
  intros. unfold Qeq, Qmult. cbn [Qnum Qden]. rewrite Pos2Z.inj_mul, !tenpow_pos, Z.pow_add_r by lia. lia.
Qed.

Lemma signed_prod v1 v2 v a b : var_ok v1 -> var_ok v2 ->
  a * b = 0 \/ sign v = (if sign v1 =? sign v2 then NUMERIC_POS else NUMERIC_NEG) ->
  signed v (a * b) = signed v1 a * signed v2 b.
Proof.
  intros Ok1 Ok2 H. unfold signed.
  destruct (ok_sign _ Ok1) as [S1|S1], (ok_sign _ Ok2) as [S2|S2]; rewrite S1, S2 in *;
    (destruct H as [H| ->]; [destruct (sign v =? NUMERIC_POS)|]);
    cbn [Z.eqb NUMERIC_POS NUMERIC_NEG Pos.eqb]; lia.
Qed.

Lemma mul_var_exact v1 v2 result : var_ok v1 -> var_ok v2 ->
  - rscale v1 <= weight v1 -> - rscale v2 <= weight v2 ->
  let v := mul_var (rscale v1 + rscale v2) v1 v2 result in
  var_ok v /\ stripped (digits v) /\ rscale v = rscale v1 + rscale v2
  /\ dscale v = dscale result /\ (numval v == numval v1 * numval v2)%Q.
Proof.
  intros Ok1 Ok2 W1 W2. cbn zeta. set (g := rscale v1 + rscale v2).
  pose proof (ok_rscale _ Ok1). pose proof (ok_rscale _ Ok2).
  destruct (mul_var_spec g v1 v2 result (ok_digits _ Ok1) (ok_digits _ Ok2) ltac:(lia)) as (Hsc & Hr & Hd & Hsg).
  set (v := mul_var g v1 v2 result) in *. unfold g in Hsc. rewrite product_exact in Hsc by done. fold g in Hsc.
  destruct Hsc as (Hok & Hst & Hlow & Hval).
  assert (forall p, p < - g -> dig v p = 0) as Hg.
  { intros p Hp. destruct (decide (p = - (g + 1))) as [->|]; [|apply Hlow; lia].
    rewrite (scaled_dig (g + 1)) by (done || lia). rewrite Hval.
    replace (- (g + 1) + (g + 1)) with 0 by lia. rewrite Z.pow_0_r, Z.div_1_r, Z.mul_comm. apply Z.mod_mul. lia. }
  assert (scaled g v = scaled (rscale v1) v1 * scaled (rscale v2) v2) as Hv.
  { pose proof (scaled_more g v 1 ltac:(lia) Hg). lia. }
  split_and!; try done.
  - constructor; [done| |by rewrite Hr; lia|by rewrite Hr].
    destruct Hsg as [[_ ->]| ->]; [by left|]. case_match; auto.
  - rewrite (numval_at g v), (numval_at (rscale v1) v1), (numval_at (rscale v2) v2)
      by (try apply ok_scale; done || lia).
    rewrite Qmake_mul, Hv by done. rewrite (signed_prod v1 v2 v); [done|done|done|].
    destruct Hsg as [[Hn _]|]; [left|by right]. rewrite <- Hv, scaled_list, Hn. apply scaledl_nil.
Qed.

(** ** Signed comparison *)

Lemma stripped_pos k v : Forall digit_ok (digits v) -> stripped (digits v) -> digits v <> [] -> 0 <= k ->
  (forall p, p < - k -> dig v p = 0) -> 0 < scaled k v.
Proof.
  intros Hok Hst Hne Hk Hd. destruct Hst as [|Hst]; [done|].
  pose proof (scaled_bound k v Hok). destruct (Z.eqb_spec (scaled k v) 0) as [E|]; [|lia].
  destruct Hst. replace 0 with (weight v - weight v) at 2 by lia. change (dig v (weight v) = 0).
  destruct (decide (weight v < - k)); [by apply Hd|]. rewrite (scaled_dig k) by (done || lia).
  by rewrite E, Z.div_0_l by (apply Z.pow_nonzero; lia).
Qed.

Lemma cmp_var_spec v1 v2 : var_ok v1 -> var_ok v2 -> stripped (digits v1) -> stripped (digits v2) ->
  cmp_var v1 v2 = ordering (numval v1 ?= numval v2)%Q.
Proof.
  intros Ok1 Ok2 St1 St2. destruct (numval_common v1 v2 Ok1 Ok2) as [-> ->]. rewrite Qmake_compare.
  set (r := Z.max (rscale v1) (rscale v2)). pose proof (ok_rscale _ Ok1). pose proof (ok_rscale _ Ok2).
  assert (forall v, var_ok v -> stripped (digits v) -> rscale v <= r ->
    (forall p, p < - r -> dig v p = 0) /\
    (ndigits v = 0 /\ scaled r v = 0 \/ (ndigits v =? 0) = false /\ 0 < scaled r v)) as Hz.
  { intros v Ok St Hr. assert (forall p, p < - r -> dig v p = 0) by (intros; by apply (ok_dig_scale _ r)).
    split; [done|]. destruct (decide (digits v = [])) as [E|Hne].
    - left. unfold ndigits. rewrite scaled_list, E, scaledl_nil. done.
    - right. split; [|by apply stripped_pos; try apply ok_digits; try lia].
      apply Z.eqb_neq. unfold ndigits. intros E. apply Hne, nil_length_inv. lia. }
  destruct (Hz v1 Ok1 St1 ltac:(lia)) as [D1 C1], (Hz v2 Ok2 St2 ltac:(lia)) as [D2 C2].
  pose proof (cmp_abs_spec r v1 v2 (ok_digits _ Ok1) (ok_digits _ Ok2) D1 D2) as A12.
  pose proof (cmp_abs_spec r v2 v1 (ok_digits _ Ok2) (ok_digits _ Ok1) D2 D1) as A21.
  unfold cmp_var, signed. fold r. generalize dependent (scaled r v1). generalize dependent (scaled r v2).
  intros b C2 a C1 A12 A21. rewrite A12, A21. clear A12 A21 Hz D1 D2.
  destruct (ok_sign _ Ok1) as [-> | ->], (ok_sign _ Ok2) as [-> | ->]; cbn [Z.eqb NUMERIC_POS NUMERIC_NEG Pos.eqb];
    destruct C1 as [[-> ?]|[-> ?]], C2 as [[-> ?]|[-> ?]]; cbn [Z.eqb];
    repeat match goal with |- context [?x ?= ?y] => destruct (Z.compare_spec x y) end; cbn [ordering]; lia.
Qed.

(** ** The packed format *)

Lemma unpack_pack ds : Forall digit_ok ds ->
  Forall digit_ok (unpack_digits (pack_digits ds)) /\
  forall i, aget 0 (unpack_digits (pack_digits ds)) i = aget 0 ds i.
Proof.
  assert (forall d, 0 <= d <= 9 -> u8 (Z.shiftl d 4) = 16 * d) as Hsh.
  { intros d Hd. rewrite Z.shiftl_mul_pow2, u8_id by lia. lia. }
  assert (forall d, 0 <= d <= 9 -> Z.land (Z.shiftr (16 * d) 4) 0x0f = d /\ Z.land (16 * d) 0x0f = 0
    /\ forall e, 0 <= e <= 9 -> Z.land (Z.shiftr (Z.lor (16 * d) e) 4) 0x0f = d
                 /\ Z.land (Z.lor (16 * d) e) 0x0f = e) as Hnib.
  { intros d Hd. assert (d = 0 \/ d = 1 \/ d = 2 \/ d = 3 \/ d = 4 \/ d = 5 \/ d = 6 \/ d = 7 \/ d = 8 \/ d = 9) as Hc by lia.
    repeat destruct Hc as [->|Hc]; try subst d; (split; [done|]; split; [done|]; intros e He;
      assert (e = 0 \/ e = 1 \/ e = 2 \/ e = 3 \/ e = 4 \/ e = 5 \/ e = 6 \/ e = 7 \/ e = 8 \/ e = 9) as He' by lia;
      repeat destruct He' as [->|He']; try subst e; by split). }
  revert ds. fix IH 1. intros [|d1 [|d2 ds]] Hok; [done| |]; inversion Hok as [|?? Hd1 Hok']; subst.
  - cbn [pack_digits unpack_digits]. rewrite Hsh by done. destruct (Hnib d1 Hd1) as (-> & -> & _).
    split; [repeat constructor; lia|]. intros i. unfold aget. destruct (Z.ltb_spec i 0); [done|].
    destruct (Z.to_nat i) as [|[|m]]; done.
  - inversion Hok' as [|?? Hd2 Hok'']; subst. cbn [pack_digits unpack_digits]. rewrite Hsh by done.
    destruct (Hnib d1 Hd1) as (_ & _ & Hn). destruct (Hn d2 Hd2) as [-> ->].
    destruct (IH ds Hok'') as [F J]. split; [by constructor; [|constructor]|]. intros i.
    specialize (J (i - 2)). unfold aget in *. destruct (Z.ltb_spec i 0); [done|].
    destruct (decide (i = 0)) as [->|]; [done|]. destruct (decide (i = 1)) as [->|]; [done|].
    destruct (Z.ltb_spec (i - 2) 0); [lia|]. by replace (Z.to_nat i) with (S (S (Z.to_nat (i - 2)))) by lia.
Qed.

Lemma pack_digits_length ds : Zlen (pack_digits ds) = (Zlen ds + 1) / 2.
Proof.
  revert ds. fix IH 1. intros [|d1 [|d2 ds]]; [done|done|]. cbn [pack_digits length].
  rewrite !Nat2Z.inj_succ, IH. replace (Z.succ (Z.succ (Zlen ds)) + 1) with (Zlen ds + 1 + 1 * 2) by lia.
  rewrite Z.div_add by lia. lia.
Qed.

(** The stored form of a number: stripped digits, nothing below the scale, a
    normal zero; NaN is a sign of its own. *)
Record num_ok (n : NumericData) : Prop := {
  num_digits : exists ds, Forall digit_ok ds /\ strip_trailing ds = ds /\ stripped ds
                 /\ n_data n = pack_digits ds /\ (ds = [] -> n_weight n = 0 /\ NUMERIC_SIGN n = NUMERIC_POS);
  num_varlen : varlen n = NUMERIC_HDRSZ + Zlen (n_data n);
  num_weight : - 2 ^ 15 <= n_weight n < 2 ^ 15;
  num_rscale : 0 <= n_rscale n < 2 ^ 16;
  num_sign_dscale : 0 <= n_sign_dscale n < 2 ^ 16;
  num_sign : NUMERIC_SIGN n = NUMERIC_POS \/ NUMERIC_SIGN n = NUMERIC_NEG;
  num_scale : forall p, p < - n_rscale n -> dig (set_var_from_num n) p = 0
}.

Definition num_value (n : NumericData) : Q := numval (set_var_from_num n).

Lemma num_unpacked n : num_ok n -> var_ok (set_var_from_num n) /\ stripped (digits (set_var_from_num n))
  /\ - rscale (set_var_from_num n) <= weight (set_var_from_num n) /\ NUMERIC_IS_NAN n = false.
Proof.
  intros Hn. destruct (num_digits _ Hn) as (ds & Hok & _ & Hst & Hd & Hz).
  destruct (unpack_pack ds Hok) as [F J].
  assert (digits (set_var_from_num n) = unpack_digits (pack_digits ds)) as Hu.
  { cbn [set_var_from_num digits]. rewrite Hd, take_ge; [done|].
    rewrite (num_varlen _ Hn), Hd. lia. }
  assert (stripped (digits (set_var_from_num n))) as Hst'.
  { rewrite Hu. destruct Hst as [-> | Hst]; [by left|right]. by rewrite J. }
  split_and!; [|done| |].
  - constructor; [by rewrite Hu|apply (num_sign _ Hn)|apply (num_rscale _ Hn)|apply (num_scale _ Hn)].
  - destruct Hst' as [E|Hne].
    + destruct ds as [|d ds]; [|exfalso; rewrite Hu in E; destruct ds; discriminate E].
      destruct (Hz eq_refl) as [Hw _]. pose proof (num_rscale _ Hn). cbn [set_var_from_num weight rscale]. lia.
    + destruct (Z.lt_ge_cases (weight (set_var_from_num n)) (- rscale (set_var_from_num n))) as [L|]; [|lia].
      destruct Hne. replace 0 with (weight (set_var_from_num n) - weight (set_var_from_num n)) at 2 by lia.
      by apply (num_scale _ Hn).
  - unfold NUMERIC_IS_NAN. by destruct (num_sign _ Hn) as [-> | ->].
Qed.

Lemma sign_dscale_fields s d : s = NUMERIC_POS \/ s = NUMERIC_NEG ->
  let x := u16 (Z.lor s (Z.land (u16 d) NUMERIC_DSCALE_MASK)) in
  0 <= x < 2 ^ 16 /\ Z.land x NUMERIC_SIGN_MASK = s /\ Z.land x NUMERIC_DSCALE_MASK = d mod 2 ^ 14.
Proof.
  intros Hs x. split; [apply u16_range|].
  assert (forall i, 0 <= i -> Z.testbit x i = (i <? 16) && (Z.testbit s i || ((i <? 16) && Z.testbit d i && (i <? 14)))) as Hx.
  { intros i Hi. unfold x, u16. rewrite !testbit_mod_pow2, Z.lor_spec, Z.land_spec, testbit_mod_pow2 by lia.
    change NUMERIC_DSCALE_MASK with (Z.ones 14). by rewrite Z.testbit_ones_nonneg by lia. }
  assert (forall i, 0 <= i -> Z.testbit s i = (i =? 14) && (s =? NUMERIC_NEG)) as Hs'.
  { intros i Hi. destruct Hs as [-> | ->]; [by rewrite Z.bits_0, andb_false_r|].
    change NUMERIC_NEG with (2 ^ 14). rewrite Z.pow2_bits_eqb, Z.eqb_sym, andb_true_r by lia. done. }
  assert (forall i, 0 <= i -> Z.testbit NUMERIC_SIGN_MASK i = (14 <=? i) && (i <? 16)) as Hm.
  { intros i Hi. change NUMERIC_SIGN_MASK with (Z.shiftl (Z.ones 2) 14). rewrite Z.shiftl_spec by done.
    destruct (Z.leb_spec 14 i).
    - rewrite Z.testbit_ones_nonneg by lia. cbn [andb]. destruct (Z.ltb_spec (i - 14) 2), (Z.ltb_spec i 16); lia || done.
    - by rewrite Z.testbit_neg_r by lia. }
  split; apply Z.bits_inj'; intros i Hi; rewrite ?testbit_mod_pow2, Z.land_spec, Hx by lia.
  - rewrite Hm, Hs' by lia. destruct (Z.ltb_spec i 16), (Z.ltb_spec i 14), (Z.leb_spec 14 i), (Z.eqb_spec i 14); cbn [andb orb];
      rewrite ?andb_false_r, ?orb_false_r, ?andb_true_r; done || lia.
  - change NUMERIC_DSCALE_MASK with (Z.ones 14). rewrite Z.testbit_ones_nonneg, Hs' by lia.
    destruct (Z.ltb_spec i 16), (Z.ltb_spec i 14), (Z.eqb_spec i 14); cbn [andb orb];
      rewrite ?andb_false_r, ?orb_false_r, ?andb_true_r; done || lia.
Qed.

Lemma swrap16_id z : - 2 ^ 15 <= z < 2 ^ 15 -> swrap 16 z = z.
Proof.
  intros Hz. unfold swrap. change (16 - 1) with 15. destruct (Z.lt_ge_cases z 0).
  - rewrite <- (Z_mod_plus_full z 1), Z.mod_small by lia. destruct (Z.ltb_spec (z + 1 * 2 ^ 16) (2 ^ 15)); lia.
  - rewrite Z.mod_small by lia. destruct (Z.ltb_spec z (2 ^ 15)); lia.
Qed.

Lemma strip_trailing_idem ds : strip_trailing (strip_trailing ds) = strip_trailing ds.
Proof.
  unfold strip_trailing at 1. set (l := strip_trailing ds). destruct (length l) as [|n] eqn:E.
  { by rewrite (nil_length_inv l E). }
  assert (length l = trailing ds (length ds)) as Hl.
  { unfold l, strip_trailing. rewrite length_take. pose proof (trailing_le ds (length ds)). lia. }
  cbn [trailing]. destruct (Z.eqb_spec (aget 0 l (Z.of_nat n)) 0) as [H0|]; [|by rewrite <- E, take_ge by lia].
  exfalso. revert H0. unfold l. rewrite strip_trailing_digits.
  pose proof (trailing_last ds (length ds) ltac:(lia)) as Hne. rewrite <- Hl, E in Hne.
  by replace (Z.of_nat (S n) - 1) with (Z.of_nat n) in Hne by lia.
Qed.

(** What [make_result] stores. *)
Record result_ok (v : NumericVar) (n : NumericData) : Prop := {
  res_ok : num_ok n;
  res_digits : forall p, dig (set_var_from_num n) p = dig v p;
  res_sign : NUMERIC_SIGN n = sign v \/ (NUMERIC_SIGN n = NUMERIC_POS /\ forall p, dig v p = 0);
  res_rscale : n_rscale n = rscale v;
  res_dscale : NUMERIC_DSCALE n = dscale v mod 2 ^ 14
}.

Lemma result_value v n : result_ok v n -> (num_value n == numval v)%Q.
Proof.
  intros [Hok Hd Hs _ _]. destruct Hs as [Hs|[Hs Hz]].
  - by apply numval_ext.
  - rewrite (numval_zero v Hz). apply numval_zero. intros p. by rewrite Hd.
Qed.

(** The digits [make_result] packs, with their weight. *)
Definition kept (v : NumericVar) : list Z * Z :=
  strip (take (Z.to_nat (Z.max 0 (Z.min (ndigits v) (weight v + rscale v + 1)))) (digits v)) (weight v).

Lemma make_result_kept v : sign v <> NUMERIC_NAN ->
  let ds := (kept v).1 in
  let s := if Zlen ds =? 0 then NUMERIC_POS else sign v in
  make_result v = mkNumeric (NUMERIC_HDRSZ + Zlen (pack_digits ds)) (swrap 16 (kept v).2) (u16 (rscale v))
    (u16 (Z.lor s (Z.land (u16 (dscale v)) NUMERIC_DSCALE_MASK))) (pack_digits ds).
Proof.
  intros Hs. cbn zeta. unfold make_result. destruct (Z.eqb_spec (sign v) NUMERIC_NAN); [done|].
  unfold kept, strip. set (tk := take _ _). destruct (strip_leading tk (weight v)) as [ds w].
  cbn [fst snd]. by rewrite pack_digits_length.
Qed.

Lemma kept_spec v : var_ok v -> rscale v <= 2 ^ 15 -> (forall p, 2 ^ 15 <= p -> dig v p = 0) ->
  Forall digit_ok (kept v).1 /\ stripped (kept v).1 /\ strip_trailing (kept v).1 = (kept v).1
  /\ ((kept v).1 = [] -> (kept v).2 = 0) /\ - 2 ^ 15 <= (kept v).2 < 2 ^ 15
  /\ forall p, aget 0 (kept v).1 ((kept v).2 - p) = dig v p.
Proof.
  intros Ok Hr Hhigh. pose proof (ok_rscale _ Ok).
  assert (stripped (kept v).1) as Hst by apply strip_stripped.
  assert ((kept v).1 = [] -> (kept v).2 = 0) as Hw0 by (unfold kept, strip; cbn [fst snd]; by intros ->).
  assert (forall p, aget 0 (kept v).1 ((kept v).2 - p) = dig v p) as Hdig.
  { intros p. unfold kept. rewrite strip_digits, aget_take. set (n := Z.max 0 _).
    destruct (Z.ltb_spec (weight v - p) (Z.of_nat (Z.to_nat n))); [done|]. symmetry.
    destruct (Z.lt_ge_cases (weight v - p) (ndigits v)); [apply (ok_scale _ Ok)|apply aget_out; unfold ndigits in *]; lia. }
  split_and!; try done; try apply strip_Forall, Forall_take, (ok_digits _ Ok); try apply strip_trailing_idem.
  all: destruct Hst as [E|Hne]; [rewrite Hw0 by done; lia|].
  all: replace 0 with ((kept v).2 - (kept v).2) in Hne at 2 by lia; rewrite Hdig in Hne.
  - destruct (Z.lt_ge_cases (kept v).2 (- rscale v)); [by destruct Hne; apply (ok_scale _ Ok)|lia].
  - destruct (Z.lt_ge_cases (kept v).2 (2 ^ 15)); [lia|]. by destruct Hne; apply Hhigh.
Qed.

Lemma make_result_spec v : var_ok v -> rscale v <= 2 ^ 15 -> (forall p, 2 ^ 15 <= p -> dig v p = 0) ->
  result_ok v (make_result v).
Proof.
  intros Ok Hr Hhigh. pose proof (ok_rscale _ Ok).
  destruct (kept_spec v Ok Hr Hhigh) as (Hok & Hst & Htr & Hw0 & Hw & Hdig).
  rewrite make_result_kept by (destruct (ok_sign _ Ok) as [-> | ->]; done). cbn zeta.
  set (ds := (kept v).1) in *. set (s := if Zlen ds =? 0 then NUMERIC_POS else sign v).
  assert (s = NUMERIC_POS \/ s = NUMERIC_NEG) as Hs by (unfold s; case_match; [by left|apply (ok_sign _ Ok)]).
  destruct (sign_dscale_fields s (dscale v) Hs) as (Hsd & Hsgn & Hds).
  rewrite swrap16_id, u16_id by lia. set (m := mkNumeric _ _ _ _ _).
  assert (NUMERIC_SIGN m = s) as Hms by done.
  assert (forall p, dig (set_var_from_num m) p = dig v p) as Hd.
  { intros p. rewrite <- Hdig. destruct (unpack_pack ds Hok) as [_ J]. rewrite <- J. unfold dig.
    cbn [set_var_from_num weight digits m varlen n_data n_weight]. by rewrite take_ge by lia. }
  constructor; try done.
  - constructor; try done.
    + exists ds. split_and!; try done. intros E. split; [by apply Hw0|]. rewrite Hms. unfold s. by rewrite E.
    + cbn [m n_rscale]. lia.
    + by rewrite Hms.
    + intros p Hp. rewrite Hd. by apply (ok_scale _ Ok).
  - rewrite Hms. unfold s. destruct (Z.eqb_spec (Zlen ds) 0) as [E|]; [right|by left].
    split; [done|]. intros p. rewrite <- Hdig. apply aget_out. lia.
Qed.

(** ** The SQL functions *)

Lemma numval_int v r z : var_ok v -> rscale v <= r -> (numval v == z # tenpow r)%Q -> signed v (scaled r v) = z.
Proof.
  intros Ok Hr Hq. pose proof (ok_rscale _ Ok).
  rewrite (numval_at r v) in Hq; [|lia|intros; by apply (ok_dig_scale _ r)].
  unfold Qeq in Hq. cbn [Qnum Qden] in Hq. by apply Z.mul_reg_r in Hq.
Qed.

(** A number below [10 ^ m] has no digit from [10 ^ m] on. *)
Lemma high_digits v r z m : var_ok v -> rscale v <= r -> (numval v == z # tenpow r)%Q ->
  0 <= r + m -> Z.abs z < 10 ^ (r + m) -> forall p, m <= p -> dig v p = 0.
Proof.
  intros Ok Hr Hq Hm Hz p Hp. apply (numval_int v r z Ok Hr) in Hq.
  assert (0 <= scaled r v < 10 ^ (p + r)).
  { pose proof (scaled_bound r v (ok_digits _ Ok)).
    assert (10 ^ (r + m) <= 10 ^ (p + r)) by (apply Z.pow_le_mono_r; lia). unfold signed in Hq. case_match; lia. }
  rewrite (scaled_dig r) by (try apply ok_digits; done || lia). by rewrite Z.div_small.
Qed.

Lemma signed_abs v z : 0 <= z -> Z.abs (signed v z) = z.
Proof. unfold signed. case_match; lia. Qed.

(** A stored number leaves room for a carry in its weight field. *)
Definition roomy (n : NumericData) : Prop := n_weight n < 2 ^ 15 - 1 /\ n_rscale n <= 2 ^ 15.

Lemma scaled_roomy n r : num_ok n -> roomy n -> 0 <= r ->
  0 <= scaled r (set_var_from_num n) < 10 ^ (r + (2 ^ 15 - 1)).
Proof.
  intros Hn [Hw _] Hr. destruct (num_unpacked n Hn) as (Ok & _).
  pose proof (scaled_bound r _ (ok_digits _ Ok)) as B. change (weight (set_var_from_num n)) with (n_weight n) in B.
  assert (10 ^ Z.max 0 (r + n_weight n + 1) <= 10 ^ (r + (2 ^ 15 - 1))) by (apply Z.pow_le_mono_r; lia).
  lia.
Qed.

Lemma sum_result n1 n2 v (add : bool) : num_ok n1 -> num_ok n2 -> roomy n1 -> roomy n2 ->
  let v1 := set_var_from_num n1 in
  let v2 := set_var_from_num n2 in
  sum_ok v1 v2 v (if add then numval v1 + numval v2 else numval v1 - numval v2)%Q ->
  result_ok v (make_result v).
Proof.
  intros N1 N2 R1 R2 v1 v2 Hs. pose proof (proj2 R1). pose proof (proj2 R2).
  pose proof (num_rscale _ N1). pose proof (num_rscale _ N2).
  destruct (num_unpacked n1 N1) as (Ok1 & _). destruct (num_unpacked n2 N2) as (Ok2 & _).
  set (r := Z.max (rscale v1) (rscale v2)).
  assert (0 <= r <= 2 ^ 15) by (unfold r, v1, v2; cbn [set_var_from_num rscale]; lia).
  destruct (numval_common v1 v2 Ok1 Ok2) as [E1 E2]. fold r in E1, E2.
  pose proof (scaled_roomy n1 r N1 R1 ltac:(lia)). pose proof (scaled_roomy n2 r N2 R2 ltac:(lia)).
  fold v1 in H4. fold v2 in H5.
  apply make_result_spec; [apply Hs|rewrite (sum_rscale _ _ _ _ Hs); fold r; lia|].
  apply (high_digits v r (if add then signed v1 (scaled r v1) + signed v2 (scaled r v2)
                          else signed v1 (scaled r v1) - signed v2 (scaled r v2))).
  - apply Hs.
  - rewrite (sum_rscale _ _ _ _ Hs). done.
  - destruct add; rewrite (sum_value _ _ _ _ Hs), E1, E2; [by rewrite Qmake_add|by rewrite Qmake_sub].
  - lia.
  - replace (r + 2 ^ 15) with (Z.succ (r + (2 ^ 15 - 1))) by lia. rewrite Z.pow_succ_r by lia.
    set (B := 10 ^ (r + (2 ^ 15 - 1))) in *. unfold signed. repeat case_match; lia.
Qed.

Lemma mul_result n1 n2 : num_ok n1 -> num_ok n2 ->
  n_weight n1 + n_weight n2 + 2 <= 2 ^ 15 -> n_rscale n1 + n_rscale n2 <= 2 ^ 15 ->
  let v1 := set_var_from_num n1 in
  let v2 := set_var_from_num n2 in
  let v := set_dscale (dscale v1 + dscale v2) (mul_var (rscale v1 + rscale v2) v1 v2 init_var) in
  result_ok v (make_result v) /\ (numval v == numval v1 * numval v2)%Q.
Proof.
  intros N1 N2 Hw Hr v1 v2. destruct (num_unpacked n1 N1) as (Ok1 & _ & W1 & _).
  destruct (num_unpacked n2 N2) as (Ok2 & _ & W2 & _).
  pose proof (ok_rscale _ Ok1). pose proof (ok_rscale _ Ok2).
  destruct (mul_var_exact v1 v2 init_var Ok1 Ok2 W1 W2) as (Ok & _ & Hrs & _ & Hq).
  set (u := mul_var _ v1 v2 init_var) in *. cbn zeta. set (v := set_dscale _ u).
  assert (var_ok v) as Okv by (destruct Ok; by constructor).
  assert (numval v == numval u)%Q as Hvu by done.
  split; [|by rewrite Hvu]. apply make_result_spec; [done|cbn [v set_dscale rscale]; rewrite Hrs; done|].
  set (g := rscale v1 + rscale v2) in *. fold v1 in H. fold v2 in H0.
  apply (high_digits v g (signed v1 (scaled (rscale v1) v1) * signed v2 (scaled (rscale v2) v2))).
  - done.
  - cbn [v set_dscale rscale]. lia.
  - rewrite Hvu, Hq, (numval_at (rscale v1) v1), (numval_at (rscale v2) v2) by (try apply ok_scale; done).
    by rewrite Qmake_mul by done.
  - lia.
  - pose proof (scaled_bound (rscale v1) v1 (ok_digits _ Ok1)) as B1.
    pose proof (scaled_bound (rscale v2) v2 (ok_digits _ Ok2)) as B2.
    rewrite Z.abs_mul, !signed_abs by lia. fold v1 in W1. fold v2 in W2.
    rewrite Z.max_r in B1, B2 by lia.
    apply Z.lt_le_trans with (10 ^ ((rscale v1 + weight v1 + 1) + (rscale v2 + weight v2 + 1))).
    + rewrite Z.pow_add_r by lia. apply Z.mul_lt_mono_nonneg; lia.
    + apply Z.pow_le_mono_r; [lia|]. unfold g, v1, v2. cbn [set_var_from_num weight rscale]. lia.
Qed.

(** C23: addition, subtraction and multiplication of stored numerics are exact:
    [numeric_add], [numeric_sub] and [numeric_mul] return a well-formed stored
    number - stripped, nothing below its scale - whose value is the sum, the
    difference or the product of the values, as rationals, as long as the weight
    and the scale of the result fit their 16-bit fields; the result scale is the
    larger scale, or the sum of the scales. *)
Theorem numeric_arith_exact n1 n2 : num_ok n1 -> num_ok n2 -> roomy n1 -> roomy n2 ->
  (exists n, numeric_add (Some n1) (Some n2) = Some n /\ num_ok n
     /\ n_rscale n = Z.max (n_rscale n1) (n_rscale n2)
     /\ (num_value n == num_value n1 + num_value n2)%Q)
  /\ (exists n, numeric_sub (Some n1) (Some n2) = Some n /\ num_ok n
     /\ n_rscale n = Z.max (n_rscale n1) (n_rscale n2)
     /\ (num_value n == num_value n1 - num_value n2)%Q)
  /\ (n_weight n1 + n_weight n2 + 2 <= 2 ^ 15 -> n_rscale n1 + n_rscale n2 <= 2 ^ 15 ->
     exists n, numeric_mul (Some n1) (Some n2) = Some n /\ num_ok n
     /\ n_rscale n = n_rscale n1 + n_rscale n2
     /\ (num_value n == num_value n1 * num_value n2)%Q).
Proof.
  intros N1 N2 R1 R2. destruct (num_unpacked n1 N1) as (Ok1 & _ & W1 & Nan1).
  destruct (num_unpacked n2 N2) as (Ok2 & _ & W2 & Nan2).
  unfold numeric_add, numeric_sub, numeric_mul. cbn [mbind option_bind]. rewrite Nan1, Nan2. cbn [orb].
  pose proof (add_var_spec _ _ Ok1 Ok2) as Ha. pose proof (sub_var_spec _ _ Ok1 Ok2) as Hs.
  pose proof (sum_result n1 n2 _ true N1 N2 R1 R2 Ha) as RA.
  pose proof (sum_result n1 n2 _ false N1 N2 R1 R2 Hs) as RS.
  split_and!.
  - eexists. split; [done|]. split_and!; [apply RA| |].
    + rewrite (res_rscale _ _ RA). apply (sum_rscale _ _ _ _ Ha).
    + rewrite (result_value _ _ RA). apply (sum_value _ _ _ _ Ha).
  - eexists. split; [done|]. split_and!; [apply RS| |].
    + rewrite (res_rscale _ _ RS). apply (sum_rscale _ _ _ _ Hs).
    + rewrite (result_value _ _ RS). apply (sum_value _ _ _ _ Hs).
  - intros Hw Hr. destruct (mul_result n1 n2 N1 N2 Hw Hr) as [RM Hq].
    destruct (mul_var_exact _ _ init_var Ok1 Ok2 W1 W2) as (_ & _ & Hrs & _).
    eexists. split; [done|]. split_and!; [apply RM| |].
    + rewrite (res_rscale _ _ RM). exact Hrs.
    + rewrite (result_value _ _ RM). exact Hq.
Qed.

(** The stored form of 99.50, of -7.5 and of zero. *)
Definition n99_50 : NumericData := make_result (mkVar 1 2 2 NUMERIC_POS [9; 9; 5; 0]).
Definition n_7_5 : NumericData := make_result (mkVar 0 1 1 NUMERIC_NEG [7; 5]).

Lemma n99_50_ok : num_ok n99_50.
Proof.
  apply make_result_spec.
  - constructor; [repeat constructor; lia|by left|done|]. intros p Hp. cbn in Hp. apply aget_out. cbn. lia.
  - done.
  - intros p Hp. apply aget_out. left. cbn. lia.
Qed.
Lemma n_7_5_ok : num_ok n_7_5.
Proof.
  apply make_result_spec.
  - constructor; [repeat constructor; lia|by right|done|]. intros p Hp. cbn in Hp. apply aget_out. cbn. lia.
  - done.
  - intros p Hp. apply aget_out. left. cbn. lia.
Qed.

Lemma numeric_arith_exact_witness :
  exists n, numeric_mul (Some n99_50) (Some n_7_5) = Some n /\ (num_value n == - 74625 # 100)%Q.
Proof.
  destruct (numeric_arith_exact n99_50 n_7_5 n99_50_ok n_7_5_ok) as (_ & _ & Hm);
    [by split|by split|].
  destruct (Hm ltac:(done) ltac:(done)) as (n & E & _ & _ & Hq). exists n. split; [exact E|].
  rewrite Hq. reflexivity.
Defined.

(** Comparison of stored numerics is the order of their values, on
    every pair, whatever the scales: [numeric_cmp] gives the sign of the
    comparison and the six operators answer for it. *)
Theorem numeric_cmp_order n1 n2 : num_ok n1 -> num_ok n2 ->
  let q1 := num_value n1 in
  let q2 := num_value n2 in
  numeric_cmp (Some n1) (Some n2) = ordering (q1 ?= q2)%Q
  /\ (numeric_eq (Some n1) (Some n2) = true <-> q1 == q2)%Q
  /\ (numeric_ne (Some n1) (Some n2) = true <-> ~ q1 == q2)%Q
  /\ (numeric_lt (Some n1) (Some n2) = true <-> q1 < q2)%Q
  /\ (numeric_le (Some n1) (Some n2) = true <-> q1 <= q2)%Q
  /\ (numeric_gt (Some n1) (Some n2) = true <-> q2 < q1)%Q
  /\ (numeric_ge (Some n1) (Some n2) = true <-> q2 <= q1)%Q.
Proof.
  intros N1 N2 q1 q2. destruct (num_unpacked n1 N1) as (Ok1 & St1 & _ & Nan1).
  destruct (num_unpacked n2 N2) as (Ok2 & St2 & _ & Nan2).
  unfold numeric_cmp, numeric_eq, numeric_ne, numeric_lt, numeric_le, numeric_gt, numeric_ge, numeric_test.
  rewrite Nan1, Nan2. cbn [orb]. rewrite (cmp_var_spec _ _ Ok1 Ok2 St1 St2). fold (num_value n1) (num_value n2).
  fold q1 q2. pose proof (Qeq_alt q1 q2) as Heq. pose proof (Qlt_alt q1 q2) as Hlt. pose proof (Qgt_alt q1 q2) as Hgt.
  pose proof (Qlt_not_eq q1 q2). pose proof (Qlt_not_eq q2 q1). pose proof (Qlt_le_weak q1 q2).
  pose proof (Qlt_le_weak q2 q1). pose proof (Qlt_not_le q1 q2). pose proof (Qlt_not_le q2 q1).
  assert (forall a b, a == b -> a <= b)%Q as Hrefl by (intros a b ->; apply Qle_refl).
  destruct (q1 ?= q2)%Q eqn:E; cbn [ordering]; split_and!; try done; split; try done;
    cbn; intros; naive_solver (eauto using Qeq_sym).
Qed.

Lemma numeric_cmp_order_witness :
  numeric_cmp (Some n_7_5) (Some n99_50) = -1 /\ numeric_lt (Some n_7_5) (Some n99_50) = true.
Proof.
  destruct (numeric_cmp_order n_7_5 n99_50 n_7_5_ok n99_50_ok) as (-> & _ & _ & Hlt & _).
  split; [reflexivity|]. apply Hlt. reflexivity.
Defined.

(** [numeric_cmp] orders the keys of an index, but it calls NaN equal to every
    number, so it is no order on columns that hold NaN. *)
Theorem numeric_cmp_nan : exists nan n1 n2,
  numeric_cmp (Some n1) (Some nan) = 0 /\ numeric_cmp (Some nan) (Some n2) = 0
  /\ numeric_cmp (Some n1) (Some n2) = -1.
Proof. by exists (make_result const_nan), n_7_5, n99_50. Qed.

(** A weight above 32767 wraps around in its 16-bit field: a number of 32769
    digits is stored as one below [10 ^ (- 32767)]. *)
Theorem make_result_weight_wraps :
  n_weight (make_result (mkVar 32768 0 0 NUMERIC_POS [1])) = -32768.
Proof. reflexivity. Qed.

(** Negation, absolute value and sign work on the packed form. *)
Lemma packed_sign_spec n s : num_ok n -> n_data n <> [] -> s = NUMERIC_POS \/ s = NUMERIC_NEG ->
  let m := mkNumeric (varlen n) (n_weight n) (n_rscale n) (Z.lor s (NUMERIC_DSCALE n)) (n_data n) in
  num_ok m /\ num_value m = signed (set_sign s init_var) (scaled (places (set_var_from_num n)) (set_var_from_num n))
                           # tenpow (places (set_var_from_num n)).
Proof.
  intros Hn Hne Hs m. pose proof (num_sign_dscale _ Hn) as Hsd.
  pose proof (sign_dscale_fields s (n_sign_dscale n) Hs) as (Hr & Hsg & Hds). rewrite (u16_id (n_sign_dscale n)) in * by done.
  assert (0 <= Z.lor s (NUMERIC_DSCALE n) < 2 ^ 16) as Hb.
  { unfold NUMERIC_DSCALE. apply lor_bound; [lia|destruct Hs as [-> | ->]; done|].
    apply land_bound; [lia|done]. }
  rewrite u16_id in Hr, Hsg by exact Hb.
  assert (NUMERIC_SIGN m = s) as Hms by exact Hsg.
  split; [|unfold num_value, numval, signed; cbn [set_var_from_num sign set_sign]; by rewrite Hms].
  destruct Hn. constructor; try done; [|by rewrite Hms].
  destruct num_digits0 as (ds & ? & ? & ? & Hd & ?). exists ds. split_and!; try done.
  intros ->. by rewrite Hd in Hne.
Qed.

Theorem numeric_uminus_spec n : num_ok n ->
  exists m, numeric_uminus (Some n) = Some m /\ num_ok m /\ (num_value m == - num_value n)%Q.
Proof.
  intros Hn. destruct (num_unpacked n Hn) as (_ & _ & _ & Nan). unfold numeric_uminus. cbn [mbind option_bind].
  rewrite Nan, (num_varlen _ Hn). destruct (Z.eqb_spec (NUMERIC_HDRSZ + Zlen (n_data n)) NUMERIC_HDRSZ) as [E|E]; cbn [negb].
  - exists n. split_and!; try done. assert (forall p, dig (set_var_from_num n) p = 0) as Hz.
    { intros p. apply aget_out. cbn [set_var_from_num digits]. rewrite (nil_length_inv (n_data n)) by lia.
      rewrite take_nil. cbn. lia. }
    unfold num_value. by rewrite (numval_zero _ Hz).
  - assert (n_data n <> []) as Hne by (intros H0; rewrite H0 in E; by destruct E).
    destruct (num_sign _ Hn) as [S|S]; rewrite S; cbn [Z.eqb NUMERIC_POS NUMERIC_NEG];
      (eexists; split; [done|]).
    + destruct (packed_sign_spec n NUMERIC_NEG Hn Hne (or_intror eq_refl)) as [Hm Hv]. rewrite (num_varlen _ Hn) in *.
      split; [done|]. rewrite Hv. unfold num_value, numval, signed. cbn [set_var_from_num sign set_sign]. rewrite S.
      unfold Qeq, Qopp. cbn. lia.
    + destruct (packed_sign_spec n NUMERIC_POS Hn Hne (or_introl eq_refl)) as [Hm Hv]. rewrite (num_varlen _ Hn) in *.
      split; [done|]. rewrite Hv. unfold num_value, numval, signed. cbn [set_var_from_num sign set_sign]. rewrite S.
      unfold Qeq, Qopp. cbn. lia.
Qed.

End Numeric.
