(* ===== verification/NumericDiv.v ===== *)
(** * Division of exact decimal numbers ([utils/adt/numeric.c])

    [div_var] is a long division that guesses each digit of the quotient from
    the leading digits; [mod_var] builds on it.  The quotient is proved to be the
    rational quotient rounded half away from zero at the result scale. *)

From S2P Require Import Prelude.
From S2P Require Import Varlena.
From S2P Require Import Numeric.
From Stdlib Require Import QArith Qround Qabs.
Import Numeric.
Open Scope Z_scope.

Module NumericDiv.

(** ** [div_var] *)

(** [divisor[guess].digits]: the digits of [divisor[1]], from the last one,
    times [guess]. *)
Fixpoint times_loop (ds : list Z) (guess sum : Z) (acc : list Z) : list Z :=
  match ds with
  | d :: ds =>
    let sum := sum + d * guess in
    times_loop ds guess (sum / 10) (sum mod 10 :: acc)
  | [] => acc
  end.

(** The table of multiples of the divisor, which have one leading zero digit;
    the code fills an entry when it needs it first. *)
Definition divisor (var2 : NumericVar) (guess weight_tmp rscale_tmp : Z) : NumericVar :=
  mkVar weight_tmp rscale_tmp 0 NUMERIC_POS
    (if guess =? 1 then 0 :: digits var2 else times_loop (reverse (0 :: digits var2)) guess 0 []).

(** [while (guess > 0)]: the largest multiple that is not too large. *)
Fixpoint guess_loop (dividend var2 : NumericVar) (weight_tmp rscale_tmp : Z) (guess : nat) (stat : Z) : Z * Z :=
  match guess with
  | O => (0, stat)
  | S guess' =>
    let stat := cmp_abs dividend (divisor var2 (Z.of_nat guess) weight_tmp rscale_tmp) in
    if 0 <=? stat then (Z.of_nat guess, stat)
    else guess_loop dividend var2 weight_tmp rscale_tmp guess' stat
  end.

Record div_state := mkDiv {
  dividend : NumericVar;
  first_have : Z;
  first_nextdigit : Z;
  weight_tmp : Z;
  rscale_tmp : Z
}.

(** The loop over [ri], [n] turns left; [acc] holds [res_digits[1..ri]]. *)
Fixpoint div_loop (n : nat) (var2 : NumericVar) (first_div : Z) (st : div_state) (acc : list Z) : list Z :=
  match n with
  | O => acc
  | S n =>
    let have := first_have st * 10 + guarded (dividend st) (first_nextdigit st) in
    let next := first_nextdigit st + 1 in
    let guess := have * 10 / first_div + 1 in
    let guess := if 9 <? guess then 9 else guess in
    let '(guess, stat) := guess_loop (dividend st) var2 (weight_tmp st) (rscale_tmp st) (Z.to_nat guess) 0 in
    let acc := acc ++ [guess] in
    if stat =? 0 then acc
    else
      let w := weight_tmp st - 1 in
      let r := rscale_tmp st + 1 in
      if guess =? 0 then div_loop n var2 first_div (mkDiv (dividend st) have next w r) acc
      else
        let d := sub_abs (dividend st) (divisor var2 guess (weight_tmp st) (rscale_tmp st)) NUMERIC_POS in
        let next := weight d - w in
        div_loop n var2 first_div (mkDiv d (guarded d next) (next + 1) w r) acc
  end.

Definition first_div (var2 : NumericVar) : Z :=
  aget 0 (digits var2) 0 * 10 + (if 2 <? ndigits var2 + 1 then aget 0 (digits var2) 1 else 0).

Definition div_start (var1 var2 : NumericVar) : div_state :=
  mkDiv (mkVar 0 (ndigits var1) 0 NUMERIC_POS (digits var1)) 0 0 1 (ndigits var2).

Definition div_var (global_rscale : Z) (var1 var2 res0 : NumericVar) : result NumericVar :=
  if ndigits var2 + 1 =? 1 then Err "division by zero on numeric"
  else
    let res_sign := if sign var1 =? sign var2 then NUMERIC_POS else NUMERIC_NEG in
    let res_weight := weight var1 - weight var2 + 1 in
    let res_ndigits := global_rscale + res_weight in
    let res_ndigits := if res_ndigits <=? 0 then 1 else res_ndigits in
    if ndigits var1 =? 0 then Ok (set_rscale global_rscale (zero_var res0))
    else
      let res := 0 :: div_loop (Z.to_nat (res_ndigits + 1)) var2 (first_div var2) (div_start var1 var2) [] in
      let ri := Zlen res - 1 in
      let res :=
        if ri =? res_ndigits + 1 then
          take (Z.to_nat ri) (sum_loop (Z.to_nat ri) res (ri - 1) (if 4 <? aget 0 res ri then 1 else 0))
        else res in
      let '(res, res_weight) := strip_leading res res_weight in
      let res := strip_trailing res in
      Ok (mkVar res_weight global_rscale (dscale res0) (if Zlen res =? 0 then NUMERIC_POS else res_sign) res).

(** ** [mod_var] and the SQL functions *)

Definition mod_var (var1 var2 : NumericVar) : result NumericVar :=
  tmp ← div_var (rscale var2 + 2) var1 var2 init_var;
  let tmp := set_rscale (rscale var2) tmp in
  let tmp := set_ndigits (Z.max 0 (Z.min (ndigits tmp) (weight tmp + rscale tmp + 1))) tmp in
  let tmp := mul_var (rscale var2) var2 tmp tmp in
  Ok (sub_var var1 tmp).

Definition div_scales (arg1 arg2 : NumericVar) : Z * Z :=
  let res_dscale := Z.max (dscale arg1 + dscale arg2) NUMERIC_MIN_DISPLAY_SCALE in
  let res_dscale := Z.min res_dscale NUMERIC_MAX_DISPLAY_SCALE in
  let global_rscale := Z.max (rscale arg1 + rscale arg2) NUMERIC_MIN_RESULT_SCALE in
  let global_rscale := Z.max global_rscale (res_dscale + 4) in
  (res_dscale, Z.min global_rscale NUMERIC_MAX_RESULT_SCALE).

Definition numeric_div (num1 num2 : option NumericData) : result (option NumericData) :=
  match num1, num2 with
  | Some n1, Some n2 =>
    if NUMERIC_IS_NAN n1 || NUMERIC_IS_NAN n2 then Ok (Some (make_result const_nan))
    else
      let arg1 := set_var_from_num n1 in
      let arg2 := set_var_from_num n2 in
      let '(res_dscale, global_rscale) := div_scales arg1 arg2 in
      v ← div_var global_rscale arg1 arg2 init_var;
      Ok (Some (make_result (set_dscale res_dscale v)))
  | _, _ => Ok None
  end.

Definition numeric_mod (num1 num2 : option NumericData) : result (option NumericData) :=
  match num1, num2 with
  | Some n1, Some n2 =>
    if NUMERIC_IS_NAN n1 || NUMERIC_IS_NAN n2 then Ok (Some (make_result const_nan))
    else
      v ← mod_var (set_var_from_num n1) (set_var_from_num n2);
      Ok (Some (make_result (set_dscale (rscale v) v)))
  | _, _ => Ok None
  end.

Example div_example :
  div_var 5 (mkVar 0 0 0 NUMERIC_POS [2]) (mkVar 0 0 0 NUMERIC_NEG [3]) init_var
  = Ok (mkVar (-1) 5 0 NUMERIC_NEG [6; 6; 6; 6; 7]).
Proof. reflexivity. Qed.
Example div_exact_example :
  div_var 34 (mkVar 2 0 0 NUMERIC_POS [1; 4; 4]) (mkVar 1 0 0 NUMERIC_POS [1; 2]) init_var
  = Ok (mkVar 1 34 0 NUMERIC_POS [1; 2]).
Proof. reflexivity. Qed.
Example mod_int_example :
  mod_var (mkVar 1 0 0 NUMERIC_POS [1; 7]) (mkVar 0 0 0 NUMERIC_POS [5]) = Ok (mkVar 0 0 0 NUMERIC_POS [2]).
Proof. reflexivity. Qed.

(** [mod_var] cuts the quotient at the scale of the divisor instead of at the
    decimal point: 10.0 modulo 3.0 is 0.1, not 1.0. *)
Theorem numeric_mod_scale :
  numeric_mod (Some (make_result (mkVar 1 1 1 NUMERIC_POS [1; 0; 0]))) (Some (make_result (mkVar 0 1 1 NUMERIC_POS [3; 0])))
  = Ok (Some (make_result (mkVar (-1) 1 1 NUMERIC_POS [1]))).
Proof. reflexivity. Qed.

(** ** The multiples of the divisor *)

Notation digit_ok := (fun d : Z => 0 <= d <= 9).

Lemma times_loop_digits ds guess sum acc :
  times_loop ds guess sum acc = to_digits (length ds) (sum + guess * rval ds) ++ acc.
Proof.
  revert sum acc. induction ds as [|d ds IH]; intros sum acc; [done|]. cbn [times_loop length to_digits rval].
  rewrite IH, <- app_assoc. cbn [app].
  replace (sum + guess * (d + 10 * rval ds)) with (sum + d * guess + guess * rval ds * 10) by lia.
  by rewrite Z.div_add, Z_mod_plus_full by lia.
Qed.

Section Division.
Context (var2 : NumericVar) (Hok2 : Forall digit_ok (digits var2)) (Hne2 : aget 0 (digits var2) 0 <> 0).

(** The digits of the divisor as an integer, and their number. *)
Notation D := (dval (digits var2)).
Notation n2 := (ndigits var2).

Lemma n2_pos : 1 <= n2.
Proof.
  unfold ndigits. destruct (digits var2); [|cbn [length]; lia]. by rewrite aget_out in Hne2 by (cbn; lia).
Qed.

Lemma divisor_digits g w r : 0 <= g <= 9 -> digits (divisor var2 g w r) = to_digits (S (length (digits var2))) (g * D).
Proof.
  intros Hg. cbn [divisor digits]. destruct (Z.eqb_spec g 1) as [->|].
  - rewrite Z.mul_1_l. transitivity (to_digits (length (0 :: digits var2)) (dval (0 :: digits var2))); [|done].
    symmetry. apply to_digits_dval. by constructor; [lia|].
  - rewrite times_loop_digits, app_nil_r, length_reverse, rval_reverse. cbn [length dval]. f_equal.
Qed.

Lemma divisor_scaled K g t r : 0 <= g <= 9 -> n2 + t - 1 <= K ->
  scaled K (divisor var2 g (1 - t) r) = g * D * 10 ^ (K + 1 - n2 - t)
  /\ Forall digit_ok (digits (divisor var2 g (1 - t) r))
  /\ forall p, p < - (n2 + t) -> dig (divisor var2 g (1 - t) r) p = 0.
Proof.
  intros Hg HK. pose proof (dval_bound _ Hok2) as B. unfold ndigits in *. split_and!.
  - rewrite scaled_list. rewrite divisor_digits by done. cbn [divisor weight].
    rewrite scaledl_dval by (rewrite to_digits_length; lia).
    rewrite to_digits_length, dval_to_digits; [do 2 f_equal; lia|].
    rewrite Nat2Z.inj_succ, Z.pow_succ_r by lia. nia.
  - rewrite divisor_digits by done. apply to_digits_ok.
  - intros p Hp. unfold dig. rewrite divisor_digits by done. apply aget_out. rewrite to_digits_length.
    cbn [divisor weight]. lia.
Qed.

(** The leading digits bound the divisor from below. *)
Lemma first_div_bound : 10 <= first_div var2 /\ first_div var2 * 10 ^ n2 <= 100 * D.
Proof.
  pose proof n2_pos. pose proof (digit_bound _ 0 Hok2) as B0. unfold first_div, ndigits in *.
  destruct (digits var2) as [|d0 [|d1 ds]]; [cbn in *; lia| |].
  - change (aget 0 [d0] 0) with d0 in *. cbn [length dval]. change (2 <? Z.of_nat 1 + 1) with false. cbn iota.
    change (10 ^ Z.of_nat 1) with 10. change (10 ^ Z.of_nat 0) with 1. lia.
  - change (aget 0 (d0 :: d1 :: ds) 0) with d0 in *. change (aget 0 (d0 :: d1 :: ds) 1) with d1.
    inversion Hok2 as [|?? _ Hok2']; subst. inversion Hok2'; subst.
    pose proof (dval_bound ds ltac:(done)). cbn [length dval]. rewrite (proj2 (Z.ltb_lt _ _)) by lia.
    rewrite !Nat2Z.inj_succ, !Z.pow_succ_r by lia. lia.
Qed.

(** ** One digit of the quotient *)

(** A dividend of [R] units of [10 ^ (- K)]. *)
Record dividend_ok (K R : Z) (d : NumericVar) : Prop := {
  dd_digits : Forall digit_ok (digits d);
  dd_rscale : 0 <= rscale d <= K;
  dd_scale : forall p, p < - rscale d -> dig d p = 0;
  dd_value : scaled K d = R
}.

Lemma guess_loop_spec K R d t r (G : nat) stat0 : dividend_ok K R d -> n2 + t <= K -> 0 < R ->
  let U := D * 10 ^ (K + 1 - n2 - t) in
  0 < U -> R / U <= Z.of_nat G <= 9 -> (0 < G)%nat \/ stat0 <> 0 ->
  exists stat, guess_loop d var2 (1 - t) r G stat0 = (R / U, stat) /\ (stat = 0 <-> R = R / U * U).
Proof.
  intros Hd HK HR U HU HG Hst. pose proof (Z.div_mod R U ltac:(lia)) as Hdm. pose proof (Z.mod_pos_bound R U HU).
  revert stat0 HG Hst. induction G as [|G IH]; intros stat0 HG Hst.
  - assert (R / U = 0) as -> by (pose proof (Z.div_pos R U); lia). exists stat0. split; [done|]. lia.
  - cbn [guess_loop]. destruct (divisor_scaled K (Z.of_nat (S G)) t r ltac:(lia) ltac:(lia)) as (Hv & Hok & Hlow).
    rewrite (cmp_abs_spec K); [|apply Hd|done|intros p Hp; apply (dd_scale _ _ _ Hd); pose proof (dd_rscale _ _ _ Hd); lia|intros p Hp; apply Hlow; lia].
    rewrite Hv, (dd_value _ _ _ Hd), <- Z.mul_assoc. fold U.
    destruct (decide (R / U = Z.of_nat (S G))) as [E|].
    + rewrite <- E. destruct (Z.compare_spec R (R / U * U)) as [Ec|Ec|Ec]; cbn [ordering]; [| nia|].
      * exists 0. done.
      * exists 1. split; [done|]. lia.
    + assert (R < Z.of_nat (S G) * U) as L by nia. rewrite (proj2 (Z.compare_lt_iff _ _) L). cbn [ordering].
      change (0 <=? -1) with false. cbn iota. apply IH; [lia|by right].
Qed.

(** The guess from the leading digits is never too small. *)
Lemma guess_enough K R t : n2 + t <= K -> 0 <= t ->
  let U := D * 10 ^ (K + 1 - n2 - t) in
  0 < R < 10 * U ->
  let g := R / 10 ^ (K - t) * 10 / first_div var2 + 1 in
  R / U <= (if 9 <? g then 9 else g).
Proof.
  intros HK Ht U HR g. pose proof n2_pos. destruct first_div_bound as [F1 F2].
  assert (0 < U) by lia. pose proof (Z.div_mod R U ltac:(lia)) as Hdm. pose proof (Z.mod_pos_bound R U ltac:(lia)).
  set (q := R / U) in *. assert (q <= 9) by nia.
  pose proof (Z.pow_pos_nonneg 10 (K - t)) as HP. set (P := 10 ^ (K - t)) in *.
  set (f := R / P) in *. pose proof (Z.div_mod R P ltac:(lia)) as HdP. pose proof (Z.mod_pos_bound R P ltac:(lia)).
  fold f in HdP. assert (100 * U >= first_div var2 * (10 * P)) as HU.
  { unfold U, P. replace (10 * 10 ^ (K - t)) with (10 ^ n2 * 10 ^ (K + 1 - n2 - t)).
    - pose proof (Z.pow_pos_nonneg 10 (K + 1 - n2 - t)). nia.
    - rewrite <- Z.pow_add_r by lia. replace (n2 + (K + 1 - n2 - t)) with (Z.succ (K - t)) by lia.
      by rewrite Z.pow_succ_r by lia. }
  assert (q * first_div var2 < 10 * f + 10).
  { assert (q * (first_div var2 * (10 * P)) <= 100 * R) by nia. nia. }
  assert (q - 1 <= f * 10 / first_div var2) by (apply Z.div_le_lower_bound; nia).
  destruct (Z.ltb_spec 9 g); unfold g in *; lia.
Qed.

Definition V (K t : Z) : Z := D * 10 ^ (K + 2 - n2 - t).

Lemma D_pos : 0 < D.
Proof.
  pose proof n2_pos. destruct first_div_bound as [F1 F2]. pose proof (Z.pow_pos_nonneg 10 n2). nia.
Qed.

Lemma V_pos K t : 0 <= K + 2 - n2 - t -> 0 < V K t.
Proof. intros. unfold V. pose proof D_pos. pose proof (Z.pow_pos_nonneg 10 (K + 2 - n2 - t)). nia. Qed.

Lemma V_succ K t : n2 + t <= K + 1 -> V K t = 10 * V K (t + 1).
Proof.
  intros H. unfold V. replace (K + 2 - n2 - t) with (Z.succ (K + 2 - n2 - (t + 1))) by lia.
  rewrite Z.pow_succ_r by lia. lia.
Qed.

(** The state of the division after [t] digits with [R] left to divide. *)
Record div_inv (K t R : Z) (st : div_state) : Prop := {
  di_dividend : dividend_ok K R (dividend st);
  di_range : 0 < R < V K t;
  di_have : first_have st = R / 10 ^ (K - t + 1);
  di_next : first_nextdigit st = weight (dividend st) + t;
  di_weight : weight_tmp st = 1 - t;
  di_rscale : rscale_tmp st = n2 + t
}.

Lemma have_step K t R st : n2 + t <= K -> 0 <= t -> div_inv K t R st ->
  first_have st * 10 + guarded (dividend st) (first_nextdigit st) = R / 10 ^ (K - t).
Proof.
  intros HK Ht I. pose proof n2_pos. rewrite guarded_aget, (di_next _ _ _ _ I), (di_have _ _ _ _ I).
  replace (weight (dividend st) + t) with (weight (dividend st) - - t) by lia.
  change (aget 0 (digits (dividend st)) (weight (dividend st) - - t)) with (dig (dividend st) (- t)).
  pose proof (di_dividend _ _ _ _ I) as Hd. rewrite (scaled_dig K) by (try apply Hd; lia).
  rewrite (dd_value _ _ _ Hd). replace (- t + K) with (K - t) by lia.
  replace (K - t + 1) with (Z.succ (K - t)) by lia. rewrite Z.pow_succ_r, (Z.mul_comm 10) by lia.
  rewrite <- Z.div_div by (try apply Z.pow_nonzero; try apply Z.pow_pos_nonneg; lia).
  pose proof (Z.div_mod (R / 10 ^ (K - t)) 10 ltac:(lia)). lia.
Qed.

(** Subtracting the multiple of the divisor. *)
Lemma sub_step K t R q d r : n2 + t <= K -> 0 <= t -> 0 <= r -> r = n2 + t -> 0 <= q <= 9 ->
  dividend_ok K R d -> q * V K (t + 1) <= R ->
  dividend_ok K (R - q * V K (t + 1)) (sub_abs d (divisor var2 q (1 - t) r) NUMERIC_POS).
Proof.
  intros HK Ht Hr0 Hr Hq Hd Hle. destruct (divisor_scaled K q t r Hq ltac:(lia)) as (Hv & Hok & Hlow).
  set (dv := divisor var2 q (1 - t) r) in *. pose proof (dd_rscale _ _ _ Hd) as Hrs.
  set (rr := Z.max (rscale d) (rscale dv)). assert (rscale dv = n2 + t) as Hrd by done.
  assert (scaled K d = scaled rr d * 10 ^ (K - rr)) as E1.
  { rewrite <- scaled_more by (try (intros; apply (dd_scale _ _ _ Hd)); lia). f_equal. lia. }
  assert (scaled K dv = scaled rr dv * 10 ^ (K - rr)) as E2.
  { rewrite <- scaled_more by (try (intros; apply Hlow); lia). f_equal. lia. }
  pose proof (Z.pow_pos_nonneg 10 (K - rr)).
  assert (scaled K dv = q * V K (t + 1)) as E3.
  { rewrite Hv. unfold V. rewrite <- Z.mul_assoc. do 3 f_equal. lia. }
  rewrite (dd_value _ _ _ Hd) in E1.
  destruct (sub_abs_spec d dv NUMERIC_POS (dd_digits _ _ _ Hd) Hok) as ((F & _ & L & S) & _ & Hrs' & _).
  { fold rr. nia. }
  fold rr in L, S, Hrs'. constructor; [done|rewrite Hrs'; lia|by rewrite Hrs'|].
  replace K with (rr + (K - rr)) at 1 by lia. rewrite scaled_more by (done || lia). rewrite S. nia.
Qed.

Lemma sub_state K t R d r w : n2 + t <= K -> 0 <= t -> dividend_ok K R d -> 0 < R < V K (t + 1) ->
  w = - t -> r = n2 + t + 1 ->
  div_inv K (t + 1) R (mkDiv d (guarded d (weight d - w)) (weight d - w + 1) w r).
Proof.
  intros HK Ht Hd HR -> ->. pose proof n2_pos. constructor; cbn [dividend first_have first_nextdigit weight_tmp rscale_tmp]; try done; try lia.
  rewrite guarded_aget. change (aget 0 (digits d) (weight d - - t)) with (dig d (- t)).
  rewrite (scaled_dig K) by (try apply Hd; lia). rewrite (dd_value _ _ _ Hd).
  replace (- t + K) with (K - (t + 1) + 1) by lia. apply Z.mod_small.
  pose proof (Z.pow_pos_nonneg 10 (K - (t + 1) + 1)). split; [apply Z.div_pos; lia|].
  apply Z.div_lt_upper_bound; [lia|]. pose proof (dval_bound _ Hok2) as B.
  assert (V K (t + 1) < 10 ^ n2 * 10 ^ (K + 2 - n2 - (t + 1))).
  { unfold V. apply Z.mul_lt_mono_pos_r; [apply Z.pow_pos_nonneg; lia|apply B]. }
  rewrite <- Z.pow_add_r in H1 by lia. replace (n2 + (K + 2 - n2 - (t + 1))) with (Z.succ (K - (t + 1) + 1)) in H1 by lia.
  rewrite Z.pow_succ_r in H1 by lia. lia.
Qed.

(** What the loop has computed: the quotient of [X] by [V K t'], with no
    remainder if it stopped early. *)
Definition quotient_ok (K X : Z) (acc : list Z) (last : Z) : Prop :=
  Forall digit_ok acc /\ Zlen acc <= last /\
  exists R, X = dval acc * V K (Zlen acc) + R /\ 0 <= R < V K (Zlen acc) /\ (R = 0 \/ Zlen acc = last).

Lemma div_loop_spec K X n st acc R : n2 + Zlen acc + Z.of_nat n <= K ->
  div_inv K (Zlen acc) R st -> Forall digit_ok acc -> X = dval acc * V K (Zlen acc) + R ->
  quotient_ok K X (div_loop n var2 (first_div var2) st acc) (Zlen acc + Z.of_nat n).
Proof.
  revert st acc R. induction n as [|n IH]; intros st acc R HK I Hacc HX.
  { cbn [div_loop]. pose proof (di_range _ _ _ _ I). split_and!; [done|lia|]. exists R. split_and!; [done|lia|lia|right; lia]. }
  pose proof n2_pos. cbn [div_loop]. rewrite (have_step K (Zlen acc) R st) by (done || lia).
  set (t := Zlen acc) in *. pose proof (di_range _ _ _ _ I) as HR. pose proof (di_dividend _ _ _ _ I) as Hd.
  rewrite (V_succ K t) in HR, HX by lia. pose proof (V_pos K (t + 1) ltac:(lia)) as HV.
  assert (D * 10 ^ (K + 1 - n2 - t) = V K (t + 1)) as HUV by (unfold V; do 2 f_equal; lia).
  pose proof (guess_enough K R t ltac:(lia) ltac:(lia)) as HG. cbn zeta in HG. rewrite HUV in HG. specialize (HG ltac:(lia)).
  set (g := R / 10 ^ (K - t) * 10 / first_div var2 + 1) in *. cbn zeta.
  assert (0 < (if 9 <? g then 9 else g) <= 9) as Hg9.
  { assert (0 <= R / 10 ^ (K - t) * 10 / first_div var2).
    { apply Z.div_pos; [|destruct first_div_bound; lia]. pose proof (Z.div_pos R (10 ^ (K - t))).
      pose proof (Z.pow_pos_nonneg 10 (K - t)). lia. }
    destruct (Z.ltb_spec 9 g); unfold g in *; lia. }
  destruct (guess_loop_spec K R (dividend st) t (rscale_tmp st) (Z.to_nat (if 9 <? g then 9 else g)) 0 Hd ltac:(lia) ltac:(lia))
    as (stat & Hgl & Hstat); rewrite ?HUV in *; [lia|lia|left; lia|].
  rewrite (di_weight _ _ _ _ I), Hgl. set (q := R / V K (t + 1)) in *.
  pose proof (Z.div_mod R (V K (t + 1)) ltac:(lia)) as Hdm. fold q in Hdm. pose proof (Z.mod_pos_bound R (V K (t + 1)) HV).
  assert (0 <= q <= 9) by (split; [apply Z.div_pos; lia|lia]).
  assert (Forall digit_ok (acc ++ [q])) as Hacc' by (apply Forall_app; split; [done|by constructor]).
  assert (Zlen (acc ++ [q]) = t + 1) as Hlen by (rewrite length_app; cbn [length]; lia).
  assert (X = dval (acc ++ [q]) * V K (t + 1) + R mod V K (t + 1)) as HX'.
  { rewrite dval_app. cbn [dval length]. change (10 ^ Z.of_nat 1) with 10. change (10 ^ Z.of_nat 0) with 1. nia. }
  replace (t + Z.of_nat (S n)) with (Zlen (acc ++ [q]) + Z.of_nat n) by lia.
  destruct (Z.eqb_spec stat 0) as [E0|E0].
  { apply Hstat in E0. split_and!; [done|lia|]. exists 0. rewrite Hlen. split_and!; [nia|lia|lia|by left]. }
  assert (0 < R mod V K (t + 1)) by (destruct (Z.eqb_spec (R mod V K (t + 1)) 0); [destruct E0; apply Hstat; nia|lia]).
  destruct (Z.eqb_spec q 0) as [Eq|Eq]; apply (IH _ _ (R mod V K (t + 1))); rewrite ?Hlen; try done; try lia.
  - assert (R mod V K (t + 1) = R) as -> by nia. constructor; cbn [dividend first_have first_nextdigit weight_tmp rscale_tmp]; try done; try lia.
    + f_equal. f_equal. lia.
    + rewrite (di_next _ _ _ _ I). lia.
    + rewrite (di_rscale _ _ _ _ I). fold t. lia.
  - apply sub_state; [lia|lia| |lia|lia|rewrite (di_rscale _ _ _ _ I); fold t; lia].
    replace (R mod V K (t + 1)) with (R - q * V K (t + 1)) by lia.
    apply sub_step; try done; try lia; rewrite (di_rscale _ _ _ _ I); fold t; lia.
Qed.

(** ** The whole division *)

Lemma div_start_inv K var1 : Forall digit_ok (digits var1) -> 0 < dval (digits var1) ->
  ndigits var1 + n2 <= K ->
  div_inv K 0 (dval (digits var1) * 10 ^ (K + 1 - ndigits var1)) (div_start var1 var2).
Proof.
  intros Hok1 HN HK. pose proof (dval_bound _ Hok1) as B. fold (ndigits var1) in B. pose proof n2_pos.
  assert (0 <= ndigits var1) by (unfold ndigits; lia). pose proof (Z.pow_pos_nonneg 10 (K + 1 - ndigits var1)).
  set (N := dval (digits var1)) in *.
  assert (N * 10 ^ (K + 1 - ndigits var1) < 10 ^ (K + 1)) as HX.
  { replace (K + 1) with (ndigits var1 + (K + 1 - ndigits var1)) at 2 by lia. rewrite Z.pow_add_r by lia. nia. }
  assert (10 ^ (K + 1) <= V K 0) as HV.
  { destruct first_div_bound as [F1 F2]. pose proof (Z.pow_pos_nonneg 10 n2).
    unfold V. replace (K + 1) with (n2 + (K + 1 - n2)) by lia. rewrite Z.pow_add_r by lia.
    replace (K + 2 - n2 - 0) with (Z.succ (K + 1 - n2)) by lia. rewrite Z.pow_succ_r by lia.
    pose proof (Z.pow_pos_nonneg 10 (K + 1 - n2)). nia. }
  assert (0 < N * 10 ^ (K + 1 - ndigits var1)) by (apply Z.mul_pos_pos; lia).
  constructor; cbn [div_start dividend first_have first_nextdigit weight_tmp rscale_tmp weight]; try lia.
  - constructor; cbn [rscale digits]; [done|lia| |].
    + intros p Hp. apply aget_out. cbn [weight digits]. unfold ndigits in *. lia.
    + rewrite scaled_list. cbn [weight digits]. rewrite scaledl_dval by (unfold ndigits in *; lia).
      unfold N. do 2 f_equal. unfold ndigits. lia.
  - symmetry. apply Z.div_small. replace (K - 0 + 1) with (K + 1) by lia. lia.
Qed.

(** Stripping without the reset of the weight of a zero. *)
Lemma cut_is_scaled r w ds v : Forall digit_ok ds -> Zlen ds <= r + w + 1 ->
  digits v = strip_trailing (strip_leading ds w).1 -> weight v = (strip_leading ds w).2 ->
  is_scaled r (dval ds * 10 ^ (r + w + 1 - Zlen ds)) v.
Proof.
  intros Hok Hl Hd Hw. assert (forall p, dig v p = aget 0 ds (w - p)) as Hdig.
  { intros p. unfold dig. rewrite Hd, Hw, strip_trailing_digits. apply strip_leading_digits. }
  split_and!.
  - rewrite Hd. apply Forall_take. by apply strip_leading_Forall.
  - rewrite Hd. apply (strip_stripped ds w).
  - intros p Hp. rewrite Hdig. apply aget_out. lia.
  - rewrite <- scaledl_dval by lia. apply scaledl_ext. intros p _. apply Hdig.
Qed.

(** The digits of the quotient after rounding. *)
Lemma quotient_digits K X acc g w : quotient_ok K X acc (g + w + 1) -> 0 < g + w -> n2 + g + w + 1 <= K ->
  let res := 0 :: acc in
  let ri := Zlen res - 1 in
  exists ds, Forall digit_ok ds /\ Zlen ds <= g + w + 1
  /\ dval ds * 10 ^ (g + w + 1 - Zlen ds) = (X / V K (g + w + 1) + 5) / 10
  /\ (if ri =? g + w + 1 then
        take (Z.to_nat ri) (sum_loop (Z.to_nat ri) res (ri - 1) (if 4 <? aget 0 res ri then 1 else 0))
      else res) = ds.
Proof.
  intros (Hok & Hlen & R & HX & HR & HR0) Hgw HK res ri. assert (ri = Zlen acc) as Hri by (unfold ri; cbn [length res]; lia).
  assert (Forall digit_ok res) as Hres by (by constructor; [lia|]).
  assert (dval res = dval acc) as Hval by (unfold res; cbn [dval]; lia).
  assert (Zlen res = ri + 1) as Hrl by (unfold ri; lia). pose proof (dval_bound _ Hok) as B. rewrite <- Hri in *.
  rewrite Hri in HR, HX, Hlen, HR0, B. rewrite <- Hri in *.
  destruct (Z.eqb_spec ri (g + w + 1)) as [E|E].
  - exists (to_digits (Z.to_nat ri) (half_up (dval res) (Zlen res - ri))). rewrite to_digits_length.
    split_and!; [apply to_digits_ok|lia| |apply round_digits; [done|lia]].
    replace (g + w + 1 - Z.of_nat (Z.to_nat ri)) with 0 by lia. rewrite Z.pow_0_r, Z.mul_1_r.
    rewrite dval_to_digits.
    + unfold half_up. replace (Zlen res - ri - 1) with 0 by lia. rewrite Z.pow_0_r, Z.div_1_r, Hval.
      rewrite <- E. do 2 f_equal. apply (Z.div_unique _ _ _ R); lia.
    + rewrite Z2Nat.id by lia. apply half_up_bound; [lia|]. rewrite Hval. replace (Zlen res - 1) with ri by lia. done.
  - exists res. split_and!; [done|lia| |done]. assert (R = 0) as -> by (destruct HR0; lia).
    rewrite Hval, Hrl. assert (V K ri = 10 * 10 ^ (g + w + 1 - (ri + 1)) * V K (g + w + 1)) as EV.
    { unfold V. replace (K + 2 - n2 - ri) with (1 + (g + w + 1 - (ri + 1)) + (K + 2 - n2 - (g + w + 1))) by lia.
      rewrite !Z.pow_add_r by lia. ring. }
    rewrite HX, EV. set (P := 10 ^ (g + w + 1 - (ri + 1))).
    pose proof (V_pos K (g + w + 1) ltac:(lia)).
    replace (dval acc * (10 * P * V K (g + w + 1)) + 0) with (dval acc * (10 * P) * V K (g + w + 1)) by lia.
    rewrite Z.div_mul by lia. apply (Z.div_unique _ 10 _ 5); lia.
Qed.

End Division.

(** ** The quotient as a rational *)

(** Rounding half away from zero at [g] decimal places. *)
Definition round_at (g : Z) (q : Q) : Q :=
  let a := Qfloor (Qabs q * inject_Z (10 ^ g) + (1 # 2)) in
  Qmake (if Qle_bool 0 q then a else - a) (tenpow g).

Lemma half_div A B : 0 < B -> (10 * A / B + 5) / 10 = (2 * A + B) / (2 * B).
Proof.
  intros HB. rewrite <- Z.div_add, Z.div_div by lia.
  replace (10 * A + 5 * B) with (5 * (2 * A + B)) by lia. replace (B * 10) with (5 * (2 * B)) by lia.
  apply Z.div_mul_cancel_l; lia.
Qed.

Lemma div_cross a b c d : 0 < b -> 0 < d -> a * d = c * b -> a / b = c / d.
Proof.
  intros Hb Hd H. rewrite <- (Z.div_mul_cancel_r a b d), H, (Z.mul_comm b d) by lia.
  apply Z.div_mul_cancel_r; lia.
Qed.

Lemma Qfloor_half A B g q : 0 <= g -> 0 < B -> (Qabs q == A # Z.to_pos B)%Q ->
  Qfloor (Qabs q * inject_Z (10 ^ g) + (1 # 2)) = (10 * (A * 10 ^ g) / B + 5) / 10.
Proof.
  intros Hg HB Hq. rewrite Hq, half_div by done.
  transitivity (Qfloor ((2 * (A * 10 ^ g) + B) # (2 * Z.to_pos B))).
  - apply Qfloor_comp. unfold Qeq, Qplus, Qmult, inject_Z. cbn [Qnum Qden].
    rewrite !Pos2Z.inj_mul, Z2Pos.id by done. lia.
  - unfold Qfloor. by rewrite Pos2Z.inj_mul, Z2Pos.id by done.
Qed.

(** Rounding a quotient of two signed integers. *)
Lemma round_at_signed g A B (neg : bool) q : 0 <= g -> 0 <= A -> 0 < B ->
  (q == Qmake (if neg then - A else A)%Z (Z.to_pos B))%Q ->
  (round_at g q == Qmake (let a := (10 * (A * 10 ^ g) / B + 5) / 10 in if neg then - a else a)%Z (tenpow g))%Q.
Proof.
  intros Hg HA HB Hq. unfold round_at.
  assert (Qabs q == A # Z.to_pos B)%Q as Habs.
  { rewrite Hq. unfold Qabs. by destruct neg; rewrite ?Z.abs_opp, Z.abs_eq. }
  rewrite (Qfloor_half A B g q Hg HB Habs). cbn zeta. set (a := (_ + 5) / 10).
  destruct (Qle_bool 0 q) eqn:E; destruct neg; try done; unfold Qeq; cbn [Qnum Qden].
  - apply Qle_bool_iff in E. rewrite Hq in E. unfold Qle in E. cbn in E. assert (A = 0) by lia. subst A.
    assert (a = 0) as -> by (unfold a; rewrite Z.mul_0_l, Z.mul_0_r, Z.div_0_l by lia; done). done.
  - exfalso. assert (0 <= q)%Q as H by (rewrite Hq; unfold Qle; cbn; lia). apply Qle_bool_iff in H. congruence.
Qed.

Lemma quotient_signed v1 v2 : var_ok v1 -> var_ok v2 -> 0 < scaled (rscale v2) v2 ->
  let A := scaled (rscale v1) v1 * 10 ^ rscale v2 in
  let B := scaled (rscale v2) v2 * 10 ^ rscale v1 in
  (numval v1 / numval v2 == Qmake (if sign v1 =? sign v2 then A else - A)%Z (Z.to_pos B))%Q.
Proof.
  intros Ok1 Ok2 Hb A B. pose proof (ok_rscale _ Ok1) as R1. pose proof (ok_rscale _ Ok2) as R2.
  rewrite (numval_at (rscale v1) v1 R1 (ok_scale _ Ok1)), (numval_at (rscale v2) v2 R2 (ok_scale _ Ok2)).
  pose proof (Z.pow_pos_nonneg 10 (rscale v1) ltac:(lia) R1). pose proof (Z.pow_pos_nonneg 10 (rscale v2) ltac:(lia) R2).
  assert (0 < B) by (apply Z.mul_pos_pos; lia).
  set (a := scaled (rscale v1) v1) in *. set (b := scaled (rscale v2) v2) in *.
  set (z := Qmake _ (Z.to_pos B)).
  assert (~ Qmake (signed v2 b) (tenpow (rscale v2)) == 0)%Q as Hne.
  { unfold Qeq. cbn [Qnum Qden]. unfold signed. case_match; lia. }
  rewrite <- (Qdiv_mult_l z _ Hne). apply Qdiv_comp; [|done].
  unfold Qeq, Qmult, z. cbn [Qnum Qden]. rewrite Pos2Z.inj_mul, !tenpow_pos, Z2Pos.id by done.
  unfold A, B, signed.
  destruct (ok_sign _ Ok1) as [-> | ->], (ok_sign _ Ok2) as [-> | ->];
    cbn [Z.eqb NUMERIC_POS NUMERIC_NEG Pos.eqb]; ring.
Qed.

(** The quotient of the digit integers, at the scale of the result. *)
Lemma quotient_cross v1 v2 g K T : var_ok v1 -> var_ok v2 ->
  0 < scaled (rscale v2) v2 -> 0 < dval (digits v2) ->
  ndigits v1 <= K + 1 -> 0 <= K + 2 - ndigits v2 - T -> 0 <= g -> T = g + (weight v1 - weight v2 + 1) + 1 ->
  dval (digits v1) * 10 ^ (K + 1 - ndigits v1) / V v2 K T
  = 10 * (scaled (rscale v1) v1 * 10 ^ rscale v2 * 10 ^ g) / (scaled (rscale v2) v2 * 10 ^ rscale v1).
Proof.
  intros Ok1 Ok2 Hb HD HK1 HK2 Hg HT. pose proof (ok_rscale _ Ok1). pose proof (ok_rscale _ Ok2).
  pose proof (scaled_dval v1 (rscale v1) (ok_digits _ Ok1) (ok_scale _ Ok1)) as E1.
  pose proof (scaled_dval v2 (rscale v2) (ok_digits _ Ok2) (ok_scale _ Ok2)) as E2. cbn zeta in E1, E2.
  set (k1 := Z.max (rscale v1) _) in *. set (k2 := Z.max (rscale v2) _) in *.
  set (a := scaled (rscale v1) v1) in *. set (b := scaled (rscale v2) v2) in *.
  set (N := dval (digits v1)) in *. unfold V. set (D := dval (digits v2)) in *.
  assert (forall e, 0 <= e -> 0 < 10 ^ e) as Hp by (intros; apply Z.pow_pos_nonneg; lia).
  apply div_cross; [apply Z.mul_pos_pos; auto|apply Z.mul_pos_pos; auto with lia|].
  apply (Z.mul_reg_r _ _ (10 ^ (k1 + weight v1 + 1 - ndigits v1) * 10 ^ (k2 - rscale v2))).
  { assert (0 < 10 ^ (k1 + weight v1 + 1 - ndigits v1) * 10 ^ (k2 - rscale v2)) by (apply Z.mul_pos_pos; apply Hp; lia). lia. }
  transitivity (N * 10 ^ (k1 + weight v1 + 1 - ndigits v1) * (b * 10 ^ (k2 - rscale v2))
                * (10 ^ (K + 1 - ndigits v1) * 10 ^ rscale v1)); [ring|].
  rewrite E1, <- E2.
  transitivity (a * D * (10 ^ (k1 - rscale v1) * 10 ^ (k2 + weight v2 + 1 - ndigits v2) * (10 ^ (K + 1 - ndigits v1) * 10 ^ rscale v1))); [ring|].
  transitivity (a * D * (10 ^ 1 * 10 ^ rscale v2 * 10 ^ g * 10 ^ (K + 2 - ndigits v2 - T) * (10 ^ (k1 + weight v1 + 1 - ndigits v1) * 10 ^ (k2 - rscale v2)))).
  - f_equal. rewrite <- !Z.pow_add_r by lia. f_equal. lia.
  - change (10 ^ 1) with 10. ring.
Qed.

Record quot_ok (g : Z) (v1 v2 v : NumericVar) : Prop := {
  quot_var : var_ok v;
  quot_rscale : rscale v = g;
  quot_value : (numval v == round_at g (numval v1 / numval v2))%Q;
  quot_high : forall p, Z.max 0 (weight v1 - weight v2 + 1) < p -> dig v p = 0
}.

Lemma dval_pos v : Forall digit_ok (digits v) -> stripped (digits v) -> digits v <> [] -> 0 < dval (digits v).
Proof.
  intros Hok [|Hst] Hne; [done|]. pose proof (D_pos v Hok Hst). done.
Qed.

Lemma head_stripped ds : stripped ds -> ds <> [] -> aget 0 ds 0 <> 0.
Proof. by intros [|]. Qed.

Lemma div_nonzero g v1 v2 res0 : var_ok v1 -> var_ok v2 -> stripped (digits v1) -> stripped (digits v2) ->
  digits v1 <> [] -> digits v2 <> [] -> 0 <= g -> 0 < g + (weight v1 - weight v2 + 1) ->
  exists v, div_var g v1 v2 res0 = Ok v /\ dscale v = dscale res0
  /\ is_scaled g ((10 * (scaled (rscale v1) v1 * 10 ^ rscale v2 * 10 ^ g)
                     / (scaled (rscale v2) v2 * 10 ^ rscale v1) + 5) / 10) v
  /\ rscale v = g
  /\ (digits v = [] /\ sign v = NUMERIC_POS \/ sign v = if sign v1 =? sign v2 then NUMERIC_POS else NUMERIC_NEG)
  /\ (forall p, weight v1 - weight v2 + 1 < p -> dig v p = 0) /\ weight v <= weight v1 - weight v2 + 1.
Proof.
  intros Ok1 Ok2 St1 St2 Ne1 Ne2 Hg Hgw. set (w := weight v1 - weight v2 + 1) in *.
  pose proof (ok_digits _ Ok1) as O1. pose proof (ok_digits _ Ok2) as O2.
  pose proof (head_stripped _ St2 Ne2) as Hd2. pose proof (n2_pos v2 O2 Hd2).
  pose proof (dval_pos v1 O1 St1 Ne1). pose proof (dval_pos v2 O2 St2 Ne2).
  assert (0 < ndigits v1) by (unfold ndigits; destruct (digits v1); [done|cbn [length]; lia]).
  set (K := ndigits v1 + ndigits v2 + (g + w + 1)).
  pose proof (div_loop_spec v2 O2 Hd2 K (dval (digits v1) * 10 ^ (K + 1 - ndigits v1)) (Z.to_nat (g + w + 1)) (div_start v1 v2) []
    _ ltac:(cbn [length]; lia) (div_start_inv v2 O2 Hd2 K v1 O1 ltac:(done) ltac:(lia)) (Forall_nil_2 _)
    ltac:(cbn [dval]; lia)) as HQ.
  cbn [length] in HQ. rewrite Z2Nat.id in HQ by lia. change (Z.of_nat 0) with 0 in HQ. rewrite !Z.add_0_l in HQ.
  destruct (quotient_digits v2 O2 Hd2 K _ _ g w HQ Hgw ltac:(lia)) as (ds & Hok & Hlen & Hval & Hds).
  unfold div_var. fold w. rewrite (proj2 (Z.eqb_neq _ _)) by lia. rewrite (proj2 (Z.leb_gt _ _)) by lia.
  rewrite (proj2 (Z.eqb_neq (ndigits v1) 0)) by lia. cbn zeta in Hds |- *. rewrite Hds.
  destruct (strip_leading ds w) as [ds' w'] eqn:Es. eexists. split; [done|].
  split; [done|]. split; [|split; [done|split; [|split]]].
  - rewrite <- (quotient_cross v1 v2 g K (g + w + 1)); try done; try lia.
    + rewrite <- Hval. apply cut_is_scaled; [done|lia| |]; rewrite Es; done.
    + apply stripped_pos; try done; apply Ok2.
  - cbn [digits sign]. destruct (Z.eqb_spec (Zlen (strip_trailing ds')) 0); [left|by right].
    split; [|done]. apply nil_length_inv. lia.
  - intros p Hp. unfold dig. cbn [digits weight]. rewrite strip_trailing_digits.
    pose proof (strip_leading_digits ds w p) as Sd. rewrite Es in Sd. cbn [fst snd] in Sd. rewrite Sd.
    apply aget_out. lia.
  - cbn [weight]. pose proof (strip_leading_weight ds w) as Sw. by rewrite Es in Sw.
Qed.

Lemma div_var_spec g v1 v2 res0 : var_ok v1 -> var_ok v2 -> stripped (digits v1) -> stripped (digits v2) ->
  digits v2 <> [] -> 0 <= g -> (digits v1 <> [] -> 0 < g + (weight v1 - weight v2 + 1)) ->
  exists v, div_var g v1 v2 res0 = Ok v /\ dscale v = dscale res0 /\ quot_ok g v1 v2 v.
Proof.
  intros Ok1 Ok2 St1 St2 Ne2 Hg Hgw.
  assert (0 < scaled (rscale v2) v2) as Hb by (apply stripped_pos; try done; apply Ok2).
  pose proof (ok_rscale _ Ok1) as R1. pose proof (ok_rscale _ Ok2) as R2.
  pose proof (quotient_signed v1 v2 Ok1 Ok2 Hb) as Hq. cbn zeta in Hq.
  pose proof (scaled_bound (rscale v1) v1 (ok_digits _ Ok1)).
  assert (0 < scaled (rscale v2) v2 * 10 ^ rscale v1) as HB
    by (apply Z.mul_pos_pos; [done|apply Z.pow_pos_nonneg; lia]).
  assert (0 <= scaled (rscale v1) v1 * 10 ^ rscale v2) as HA
    by (apply Z.mul_nonneg_nonneg; [lia|apply Z.pow_nonneg; lia]).
  set (A := scaled (rscale v1) v1 * 10 ^ rscale v2) in *. set (B := scaled (rscale v2) v2 * 10 ^ rscale v1) in *.
  pose proof (round_at_signed g A B (negb (sign v1 =? sign v2)) (numval v1 / numval v2) Hg HA HB) as Hround.
  destruct (decide (digits v1 = [])) as [E1|Ne1].
  - exists (set_rscale g (zero_var res0)). unfold div_var.
    rewrite (proj2 (Z.eqb_neq _ _)) by (pose proof (n2_pos v2 (ok_digits _ Ok2) (head_stripped _ St2 Ne2)); lia).
    rewrite (proj2 (Z.eqb_eq (ndigits v1) 0)) by (unfold ndigits; by rewrite E1). split_and!; [done|done|].
    assert (forall p, dig (set_rscale g (zero_var res0)) p = 0) as Hz by (intros p; apply aget_out; cbn; lia).
    constructor; try done; [by constructor; [|left| |]|].
    rewrite (numval_zero _ Hz), Hround by (rewrite Hq; by destruct (sign v1 =? sign v2)).
    assert (A = 0) as -> by (unfold A; rewrite scaled_list, E1, scaledl_nil; done).
    rewrite Z.mul_0_l, Z.mul_0_r, Z.div_0_l by lia. by destruct (negb _).
  - destruct (div_nonzero g v1 v2 res0) as (v & Hv & Hds & Hsc & Hrs & Hsg & Hhi & _); try done; [by apply Hgw|].
    exists v. split_and!; [done|done|]. fold A B in Hsc. constructor; try done.
    + apply (is_scaled_ok g _ v (sign v) Hg Hsc eq_refl Hrs).
      destruct Hsg as [[_ ->]| ->]; [by left|]. destruct (sign v1 =? sign v2); [by left|by right].
    + rewrite Hround by (rewrite Hq; by destruct (sign v1 =? sign v2)). rewrite (is_scaled_numval g _ v Hg Hsc).
      unfold signed. destruct Hsg as [[Hn ->]| ->].
      * destruct Hsc as (_ & _ & _ & Hsc). rewrite scaled_list, Hn, scaledl_nil in Hsc. rewrite <- Hsc. by destruct (negb _).
      * by destruct (sign v1 =? sign v2).
    + intros p Hp. apply Hhi. lia.
Qed.

Lemma num_zero n : num_ok n -> (num_value n == 0)%Q <-> digits (set_var_from_num n) = [].
Proof.
  intros N. destruct (num_unpacked n N) as (Ok & St & _ & _). unfold num_value.
  set (v := set_var_from_num n) in *. pose proof (ok_rscale _ Ok). split.
  - intros Hz. destruct (decide (digits v = [])) as [|Hne]; [done|exfalso].
    pose proof (stripped_pos (rscale v) v (ok_digits _ Ok) St Hne ltac:(done) (ok_scale _ Ok)).
    assert (signed v (scaled (rscale v) v) = 0) as E by (apply (numval_int v (rscale v) 0 Ok); [done|by rewrite Hz]).
    unfold signed in E. case_match; lia.
  - intros E. apply numval_zero. intros p. apply aget_out. rewrite E. cbn. lia.
Qed.

(** *** Quotients far below the result scale *)

(** The leading digit bounds a number from below. *)
Lemma leading_bound v : var_ok v -> stripped (digits v) -> digits v <> [] ->
  0 <= rscale v + weight v /\ 10 ^ (rscale v + weight v) <= scaled (rscale v) v.
Proof.
  intros Ok St Ne. pose proof (head_stripped _ St Ne) as Hd. pose proof (ok_digits _ Ok) as O.
  assert (dig v (weight v) = aget 0 (digits v) 0) as E0 by (unfold dig; f_equal; lia).
  assert (0 <= rscale v + weight v) as Hr.
  { destruct (Z.le_gt_cases 0 (rscale v + weight v)); [done|]. destruct Hd. rewrite <- E0. apply (ok_scale _ Ok). lia. }
  split; [done|]. pose proof (dig_bound v (weight v) O) as Hb. rewrite E0 in Hb.
  assert (scaled (- weight v) v = aget 0 (digits v) 0) as E1.
  { replace (- weight v) with (- weight v - 1 + 1) by lia. rewrite scaled_list, scaledl_succ. cbn zeta.
    rewrite (scaledl_at _ _ _ 0) by lia. cbn [fsum]. replace (weight v + (- weight v - 1) + 1) with 0 by lia. lia. }
  rewrite scaled_list, (scaledl_floor _ _ _ (rscale v + weight v) O Hr) in E1.
  replace (- weight v + (rscale v + weight v)) with (rscale v) in E1 by lia. rewrite <- scaled_list in E1.
  pose proof (Z.mul_div_le (scaled (rscale v) v) (10 ^ (rscale v + weight v)) (Z.pow_pos_nonneg 10 _ ltac:(lia) Hr)) as Hle.
  rewrite E1 in Hle. pose proof (Z.pow_pos_nonneg 10 (rscale v + weight v) ltac:(lia) Hr). nia.
Qed.

Lemma round_small g v1 v2 : var_ok v1 -> var_ok v2 -> stripped (digits v2) -> digits v2 <> [] -> 0 <= g ->
  g + (weight v1 - weight v2) <= -2 -> (round_at g (numval v1 / numval v2) == 0)%Q.
Proof.
  intros Ok1 Ok2 St2 Ne2 Hg Hw. destruct (leading_bound v2 Ok2 St2 Ne2) as [Hr Hb].
  pose proof (ok_rscale _ Ok1) as R1. pose proof (ok_rscale _ Ok2) as R2.
  pose proof (scaled_bound (rscale v1) v1 (ok_digits _ Ok1)) as [Ha1 Ha2].
  pose proof (Z.pow_pos_nonneg 10 (rscale v2 + weight v2) ltac:(lia) Hr) as Hp.
  pose proof (quotient_signed v1 v2 Ok1 Ok2 ltac:(lia)) as Hq. cbn zeta in Hq.
  set (a := scaled (rscale v1) v1) in *. set (b := scaled (rscale v2) v2) in *.
  assert (0 < b * 10 ^ rscale v1) as HB by (apply Z.mul_pos_pos; [lia|apply Z.pow_pos_nonneg; lia]).
  assert (0 <= a * 10 ^ rscale v2) as HA by (apply Z.mul_nonneg_nonneg; [lia|apply Z.pow_nonneg; lia]).
  rewrite (round_at_signed g _ _ (negb (sign v1 =? sign v2)) _ Hg HA HB) by (rewrite Hq; by destruct (sign v1 =? sign v2)).
  assert (10 * (a * 10 ^ rscale v2 * 10 ^ g) < b * 10 ^ rscale v1) as Hlt.
  { apply (Z.lt_le_trans _ (10 ^ (rscale v2 + weight v2) * 10 ^ rscale v1)).
    - destruct (Z.le_gt_cases (rscale v1 + weight v1 + 1) 0) as [Hneg|Hpos].
      + rewrite Z.max_l in Ha2 by lia. change (10 ^ 0) with 1 in Ha2. assert (a = 0) as -> by lia. rewrite !Z.mul_0_l.
        apply Z.mul_pos_pos; [done|apply Z.pow_pos_nonneg; lia].
      + rewrite Z.max_r in Ha2 by lia.
        apply (Z.lt_le_trans _ (10 * (10 ^ (rscale v1 + weight v1 + 1) * 10 ^ rscale v2 * 10 ^ g))).
        * apply Z.mul_lt_mono_pos_l; [lia|]. apply Z.mul_lt_mono_pos_r; [apply Z.pow_pos_nonneg; lia|].
          apply Z.mul_lt_mono_pos_r; [apply Z.pow_pos_nonneg; lia|]. done.
        * change 10 with (10 ^ 1) at 1. rewrite <- !Z.pow_add_r by lia. apply Z.pow_le_mono_r; lia.
    - apply Z.mul_le_mono_nonneg_r; [apply Z.pow_nonneg; lia|done]. }
  rewrite (Z.div_small (10 * (a * 10 ^ rscale v2 * 10 ^ g))); [by destruct (negb _)|]. split; [|done]. apply Z.mul_nonneg_nonneg; [lia|].
  apply Z.mul_nonneg_nonneg; [done|apply Z.pow_nonneg; lia].
Qed.

(** When the quotient has no digit at the result scale, one digit is computed all the
    same, and [make_result] cuts it off. *)
Lemma div_clamped g v1 v2 res0 : g + (weight v1 - weight v2 + 1) <= 0 ->
  div_var g v1 v2 res0 = set_rscale g <$> div_var (1 - (weight v1 - weight v2 + 1)) v1 v2 res0.
Proof.
  set (w := weight v1 - weight v2 + 1). intros Hw. unfold div_var. fold w. destruct (ndigits v2 + 1 =? 1); [done|].
  destruct (Z.leb_spec (g + w) 0); [|lia]. destruct (Z.leb_spec (1 - w + w) 0); [lia|].
  replace (1 - w + w) with 1 by lia. destruct (ndigits v1 =? 0); [done|].
  set (res := if _ =? _ then _ else _). clearbody res. by destruct (strip_leading res w).
Qed.

Lemma make_result_cut v : sign v <> NUMERIC_NAN -> weight v + rscale v + 1 <= 0 ->
  make_result v = make_result (mkVar 0 (rscale v) (dscale v) NUMERIC_POS []).
Proof.
  intros Hs Hw. unfold make_result. cbn [sign weight rscale dscale digits]. destruct (Z.eqb_spec (sign v) NUMERIC_NAN); [done|].
  replace (Z.max 0 (Z.min (ndigits v) (weight v + rscale v + 1))) with 0 by (unfold ndigits; lia). change (Z.to_nat 0) with 0%nat.
  rewrite take_0, take_nil. done.
Qed.

Lemma div_far g v1 v2 res0 ds : var_ok v1 -> var_ok v2 -> stripped (digits v1) -> stripped (digits v2) ->
  digits v1 <> [] -> digits v2 <> [] -> 0 <= g <= 2 ^ 15 -> g + (weight v1 - weight v2) <= -2 ->
  exists v, div_var g v1 v2 res0 = Ok v /\ result_ok (mkVar 0 g ds NUMERIC_POS []) (make_result (set_dscale ds v)).
Proof.
  intros Ok1 Ok2 St1 St2 Ne1 Ne2 Hg Hw. rewrite div_clamped by lia. set (w := weight v1 - weight v2 + 1).
  destruct (div_nonzero (1 - w) v1 v2 res0) as (v & -> & Hds & _ & _ & Hsg & _ & Hwt); try done; [lia|lia|].
  eexists. split; [done|]. assert (sign v <> NUMERIC_NAN) as Hs.
  { destruct Hsg as [[_ ->]| ->]; [done|]. by destruct (sign v1 =? sign v2). }
  rewrite make_result_cut; [|done|cbn [set_dscale set_rscale weight rscale]; lia].
  cbn [set_dscale set_rscale rscale dscale]. apply make_result_spec; [|cbn [rscale]; lia|intros p Hp; apply aget_out; cbn; lia].
  constructor; [constructor|by left|cbn [rscale]; lia|intros p Hp; apply aget_out; cbn; lia].
Qed.

(** A quotient whose first digit is due just below the result scale is cut instead of
    rounded: 0.9 divided by 10^34 is 0 at scale 34, although 9 * 10^-35 rounds to 10^-34. *)
Definition n0_9 : NumericData := make_result (mkVar (-1) 1 1 NUMERIC_POS [9]).
Definition n1e34 : NumericData := make_result (mkVar 34 0 0 NUMERIC_POS [1]).

Theorem numeric_div_cuts_small_quotient : exists n, numeric_div (Some n0_9) (Some n1e34) = Ok (Some n) /\
  n_rscale n = 34 /\ (num_value n == 0)%Q /\
  (round_at 34 (num_value n0_9 / num_value n1e34) == 1 # 10000000000000000000000000000000000)%Q.
Proof. eexists. split; [vm_compute; reflexivity|]. by vm_compute. Qed.

(** C22: [numeric_div] divides exactly and rounds once: for stored numbers and
    a divisor that is not zero the result is a well-formed stored number whose
    value is the rational quotient rounded half away from zero at the result scale [g]
    that [numeric_div] chooses, also when the quotient is far too small for that scale,
    provided that the first digit of the quotient is not due exactly one place below the
    scale ([g] plus the weight of the dividend less the weight of the divisor is -1, for a
    dividend that is not zero), where the code cuts instead of rounding, and that the weight of the
    result fits its field; division by zero is an error. *)
Theorem numeric_div_rounds n1 n2 : num_ok n1 -> num_ok n2 ->
  let g := (div_scales (set_var_from_num n1) (set_var_from_num n2)).2 in
  ((num_value n2 == 0)%Q -> numeric_div (Some n1) (Some n2) = Err "division by zero on numeric")
  /\ (~ (num_value n2 == 0)%Q -> (num_value n1 == 0)%Q \/ g + (n_weight n1 - n_weight n2) <> -1 ->
      n_weight n1 - n_weight n2 < 2 ^ 15 - 1 ->
      exists n, numeric_div (Some n1) (Some n2) = Ok (Some n) /\ num_ok n /\ n_rscale n = g
      /\ (num_value n == round_at g (num_value n1 / num_value n2))%Q).
Proof.
  intros N1 N2 g. destruct (num_unpacked n1 N1) as (Ok1 & St1 & _ & Nan1).
  destruct (num_unpacked n2 N2) as (Ok2 & St2 & _ & Nan2). unfold numeric_div. rewrite Nan1, Nan2. cbn [orb].
  pose proof (num_zero n1 N1) as Hzero1. pose proof (num_zero n2 N2) as Hzero.
  change (n_weight n1) with (weight (set_var_from_num n1)). change (n_weight n2) with (weight (set_var_from_num n2)).
  set (v1 := set_var_from_num n1) in *. set (v2 := set_var_from_num n2) in *.
  assert (0 <= g <= NUMERIC_MAX_RESULT_SCALE) as Hg.
  { unfold g, div_scales, NUMERIC_MIN_RESULT_SCALE, NUMERIC_DEFAULT_PRECISION, NUMERIC_MAX_RESULT_SCALE, NUMERIC_MAX_PRECISION. cbn [snd]. lia. }
  unfold NUMERIC_MAX_RESULT_SCALE, NUMERIC_MAX_PRECISION in Hg.
  destruct (div_scales v1 v2) as [ds g'] eqn:Eg. cbn [snd] in g. subst g. split.
  - intros Hz. apply Hzero in Hz. unfold div_var, ndigits. by rewrite Hz.
  - intros Hne Hw Hfit. assert (digits v2 <> []) as Ne2 by (intros E; by apply Hne, Hzero).
    destruct (decide (digits v1 <> [] /\ g' + (weight v1 - weight v2) <= -2)) as [[Ne1 Hfar]|Hnear].
    { destruct (div_far g' v1 v2 init_var ds) as (v & -> & RO); try done; [lia|]. cbn [mbind result_bind]. eexists. split; [done|].
      split_and!; [apply RO|by rewrite (res_rscale _ _ RO)|]. rewrite (result_value _ _ RO).
      etransitivity; [|symmetry; apply (round_small g' v1 v2); done || lia]. apply numval_zero. intros p. apply aget_out. cbn. lia. }
    destruct (div_var_spec g' v1 v2 init_var) as (v & -> & Hd & HQ); try done; try lia.
    { intros Ne1. destruct Hw as [Hz|Hw]; [by apply Hzero1 in Hz|]. destruct (Z.le_gt_cases (g' + (weight v1 - weight v2)) (-2)); [by destruct Hnear|lia]. }
    cbn [mbind result_bind]. pose proof (quot_rscale _ _ _ _ HQ) as Hr.
    assert (result_ok (set_dscale ds v) (make_result (set_dscale ds v))) as RO.
    { apply make_result_spec.
      - destruct (quot_var _ _ _ _ HQ). by constructor.
      - cbn [set_dscale rscale]. rewrite Hr. lia.
      - intros p Hp. apply (quot_high _ _ _ _ HQ). lia. }
    eexists. split; [done|]. split_and!; [apply RO|by rewrite (res_rscale _ _ RO)|].
    rewrite (result_value _ _ RO). change (numval (set_dscale ds v)) with (numval v). apply (quot_value _ _ _ _ HQ).
Qed.

Lemma numeric_div_rounds_witness :
  exists n, numeric_div (Some n99_50) (Some n_7_5) = Ok (Some n) /\ n_rscale n = 34
  /\ (num_value n == round_at 34 (num_value n99_50 / num_value n_7_5))%Q.
Proof.
  destruct (numeric_div_rounds n99_50 n_7_5 n99_50_ok n_7_5_ok) as [_ H].
  destruct H as (n & E & _ & Hr & Hv); [intros Hz; vm_compute in Hz; discriminate Hz|right; vm_compute; congruence|vm_compute; congruence|].
  exists n. split; [exact E|]. split; [rewrite Hr; reflexivity|exact Hv].
Defined.

End NumericDiv.
