(* ===== verification/NumericIO.v ===== *)
(** * Rounding, column types and text of exact decimal numbers ([utils/adt/numeric.c])

    [numeric_round], [numeric_trunc], [numeric_ceil], [numeric_floor], the
    precision and scale of a column ([apply_typmod], [numeric]) and the text form
    ([numeric_in], [numeric_out]).  Rounding is half away from zero, a column
    rejects exactly the values its precision cannot hold, and a stored number
    survives a trip through its text.

    A C string is the list of its character codes without the terminator. *)

From S2P Require Import Prelude.
From S2P Require Import Varlena.
From S2P Require Import Numeric.
From S2P Require Import NumericDiv.
From Stdlib Require Import QArith Qround Qabs.
Import Numeric Varlena.
Open Scope Z_scope.

Module NumericIO.

(** ** Rounding *)

(** [while (carry) { carry += digits[--i]; digits[i] = carry % 10; carry /= 10; }];
    a carry out of the first digit goes to the spare digit in front of it, which
    is zero, and becomes the new first digit. *)
Fixpoint carry_loop (ds : list Z) (i : nat) (carry : Z) : list Z * bool :=
  if carry =? 0 then (ds, false)
  else
    match i with
    | S i =>
      let carry := carry + aget 0 ds (Z.of_nat i) in
      carry_loop (aset ds (Z.of_nat i) (carry mod 10)) i (carry / 10)
    | O => (carry mod 10 :: ds, true)
    end.

(** Cutting after [i] digits with a carry from the first digit cut off. *)
Definition round_up (i : Z) (v : NumericVar) : NumericVar :=
  let carry := if 4 <? aget 0 (digits v) i then 1 else 0 in
  let '(ds, over) := carry_loop (take (Z.to_nat i) (digits v)) (Z.to_nat i) carry in
  mkVar (if over then weight v + 1 else weight v) (rscale v) (dscale v) (sign v) ds.

(** The rounding step of [apply_typmod] and [get_str_from_var]. *)
Definition round_cut (i : Z) (v : NumericVar) : NumericVar :=
  if (0 <=? i) && (i <? ndigits v) then round_up i v
  else set_ndigits (Z.max 0 (Z.min i (ndigits v))) v.

Definition numeric_round (num : option NumericData) (scale : Z) : option NumericData :=
  n ← num;
  if NUMERIC_IS_NAN n then Some (make_result const_nan)
  else
    let scale := Z.min NUMERIC_MAX_RESULT_SCALE (Z.max (- NUMERIC_MAX_RESULT_SCALE) scale) in
    let arg := set_var_from_num n in
    let i := weight arg + scale + 1 in
    let arg :=
      if i <? ndigits arg then
        if i <? 0 then set_ndigits 0 arg else round_up i arg
      else arg in
    let scale := Z.min NUMERIC_MAX_DISPLAY_SCALE (Z.max 0 scale) in
    Some (make_result (set_dscale scale (set_rscale scale arg))).

Definition numeric_trunc (num : option NumericData) (scale : Z) : option NumericData :=
  n ← num;
  if NUMERIC_IS_NAN n then Some (make_result const_nan)
  else
    let scale := Z.min NUMERIC_MAX_RESULT_SCALE (Z.max (- NUMERIC_MAX_RESULT_SCALE) scale) in
    let arg := set_var_from_num n in
    let arg := set_ndigits (Z.min (ndigits arg) (Z.max 0 (weight arg + scale + 1))) arg in
    let scale := Z.min NUMERIC_MAX_DISPLAY_SCALE (Z.max 0 scale) in
    Some (make_result (set_dscale scale (set_rscale scale arg))).

Definition ceil_var (var : NumericVar) : NumericVar :=
  let tmp := set_rscale 0 var in
  let tmp := set_ndigits (Z.min (ndigits tmp) (Z.max 0 (weight tmp + 1))) tmp in
  if (sign tmp =? NUMERIC_POS) && negb (cmp_var var tmp =? 0) then add_var tmp const_one else tmp.

Definition floor_var (var : NumericVar) : NumericVar :=
  let tmp := set_rscale 0 var in
  let tmp := set_ndigits (Z.min (ndigits tmp) (Z.max 0 (weight tmp + 1))) tmp in
  if (sign tmp =? NUMERIC_NEG) && negb (cmp_var var tmp =? 0) then sub_var tmp const_one else tmp.

Definition numeric_ceil (num : option NumericData) : option NumericData :=
  n ← num;
  if NUMERIC_IS_NAN n then Some (make_result const_nan)
  else Some (make_result (set_dscale 0 (ceil_var (set_var_from_num n)))).

Definition numeric_floor (num : option NumericData) : option NumericData :=
  n ← num;
  if NUMERIC_IS_NAN n then Some (make_result const_nan)
  else Some (make_result (set_dscale 0 (floor_var (set_var_from_num n)))).

(** ** Precision and scale of a column *)

Definition typmod_precision (typmod : Z) : Z := Z.land (Z.shiftr (typmod - VARHDRSZ) 16) 0xffff.
Definition typmod_scale (typmod : Z) : Z := Z.land (typmod - VARHDRSZ) 0xffff.

(** The loop that finds the true weight: leading zeroes, and whether a digit is left. *)
Fixpoint true_weight (ds : list Z) (tweight : Z) : Z * bool :=
  match ds with
  | d :: ds => if negb (d =? 0) then (tweight, true) else true_weight ds (tweight - 1)
  | [] => (tweight, false)
  end.

Definition apply_typmod (var : NumericVar) (typmod : Z) : result NumericVar :=
  if typmod <? VARHDRSZ then Ok var
  else
    let precision := typmod_precision typmod in
    let scale := typmod_scale typmod in
    let maxweight := precision - scale in
    let var := round_cut (scale + weight var + 1) var in
    let overflow :=
      if maxweight <=? weight var then
        let '(tweight, nonzero) := true_weight (digits var) (weight var) in
        (maxweight <=? tweight) && nonzero
      else false in
    if overflow then Err "overflow on numeric"
    else Ok (set_dscale scale (set_rscale scale var)).

Definition numeric (num : option NumericData) (typmod : Z) : result (option NumericData) :=
  match num with
  | None => Ok None
  | Some n =>
    if NUMERIC_IS_NAN n then Ok (Some (make_result const_nan))
    else if typmod <? VARHDRSZ then Ok (Some n)
    else
      let precision := typmod_precision typmod in
      let scale := typmod_scale typmod in
      let maxweight := precision - scale in
      if (n_weight n <? maxweight) && (n_rscale n <=? scale) then
        Ok (Some (mkNumeric (varlen n) (n_weight n) (u16 scale)
                    (u16 (Z.lor (NUMERIC_SIGN n) (Z.land (u16 scale) NUMERIC_DSCALE_MASK))) (n_data n)))
      else
        var ← apply_typmod (set_var_from_num n) typmod;
        Ok (Some (make_result var))
  end.

(** ** Text *)

Definition isspace (c : Z) : bool := (c =? 32) || ((9 <=? c) && (c <=? 13)).
Definition isdigit (c : Z) : bool := (48 <=? c) && (c <=? 57).

Fixpoint skip_spaces (cp : list Z) : list Z :=
  match cp with
  | c :: t => if isspace c then skip_spaces t else cp
  | [] => []
  end.

(** The digit loop of [set_var_from_str]: digits, weight, display scale and
    what is left of the string; [None] for a second decimal point. *)
Fixpoint digit_loop (cp : list Z) (have_dp : bool) (ds : list Z) (weight dscale : Z)
  : option (list Z * Z * Z * list Z) :=
  match cp with
  | c :: t =>
    if isdigit c then
      if negb have_dp then digit_loop t have_dp (ds ++ [c - 48]) (weight + 1) dscale
      else digit_loop t have_dp (ds ++ [c - 48]) weight (dscale + 1)
    else if c =? 46 then
      if have_dp then None else digit_loop t true ds weight dscale
    else Some (ds, weight, dscale, cp)
  | [] => Some (ds, weight, dscale, [])
  end.

(** [strtol] with base 10, saturating at 64 bits; [None] when there is no digit. *)
Fixpoint strtol_digits (cp : list Z) (x : Z) : Z * list Z :=
  match cp with
  | c :: t => if isdigit c then strtol_digits t (x * 10 + (c - 48)) else (x, cp)
  | [] => (x, [])
  end.
Definition strtol (cp : list Z) : option (Z * list Z) :=
  let cp := skip_spaces cp in
  let '(neg, cp) :=
    match cp with c :: t => if c =? 45 then (true, t) else if c =? 43 then (false, t) else (false, cp) | [] => (false, []) end in
  match cp with
  | c :: _ =>
    if isdigit c then
      let '(x, rest) := strtol_digits cp 0 in
      Some (if neg then Z.max (- 2 ^ 63) (- x) else Z.min (2 ^ 63 - 1) x, rest)
    else None
  | [] => None
  end.

(** The exponent; [None] for a bad one. *)
Definition exponent_part (weight dscale : Z) (cp : list Z) : option (Z * Z * list Z) :=
  match cp with
  | c :: t =>
    if (c =? 101) || (c =? 69) then
      '(exponent, rest) ← strtol t;
      if (NUMERIC_MAX_PRECISION <? exponent) || (exponent <? - NUMERIC_MAX_PRECISION) then None
      else Some (weight + exponent, Z.max 0 (dscale - exponent), rest)
    else Some (weight, dscale, cp)
  | [] => Some (weight, dscale, [])
  end.

Definition set_var_from_str (str : list Z) : result NumericVar :=
  let bad := Err "Bad numeric input format" in
  let cp := skip_spaces str in
  let '(sign, cp) :=
    match cp with
    | c :: t => if c =? 43 then (NUMERIC_POS, t) else if c =? 45 then (NUMERIC_NEG, t) else (NUMERIC_POS, cp)
    | [] => (NUMERIC_POS, [])
    end in
  let '(have_dp, cp) := match cp with c :: t => if c =? 46 then (true, t) else (false, cp) | [] => (false, []) end in
  match cp with
  | c :: _ =>
    if isdigit c then
      match digit_loop cp have_dp [] (-1) 0 with
      | None => bad
      | Some (ds, w, dsc, cp) =>
        match exponent_part w dsc cp with
        | None => bad
        | Some (w, dsc, cp) =>
          match skip_spaces cp with
          | _ :: _ => bad
          | [] =>
            let '(ds, w) := strip_leading ds w in
            Ok (mkVar (if Zlen ds =? 0 then 0 else w) dsc dsc sign ds)
          end
        end
      end
    else bad
  | [] => bad
  end.

(** A loop of [get_str_from_var]: [n] digits from position [i] down. *)
Fixpoint emit (n : nat) (i weight : Z) (ds : list Z) : list Z * list Z :=
  match n with
  | O => ([], ds)
  | S n =>
    match ds with
    | d :: ds' =>
      if i <=? weight then let '(s, rest) := emit n (i - 1) weight ds' in (d + 48 :: s, rest)
      else let '(s, rest) := emit n (i - 1) weight ds in (48 :: s, rest)
    | [] => let '(s, rest) := emit n (i - 1) weight [] in (48 :: s, rest)
    end
  end.

Definition get_str_from_var (var : NumericVar) (dscale : Z) : list Z :=
  let var := round_cut (dscale + weight var + 1) var in
  let i := Z.max (weight var) 0 in
  let '(int_part, rest) := emit (Z.to_nat (i + 1)) i (weight var) (digits var) in
  (if sign var =? NUMERIC_NEG then [45] else []) ++ int_part ++
  (if 0 <? dscale then 46 :: (emit (Z.to_nat dscale) (-1) (weight var) rest).1 else []).

(** The strings "NULL" and "NaN". *)
Definition str_NULL : list Z := [78; 85; 76; 76].
Definition str_NaN : list Z := [78; 97; 78].

Definition numeric_in (str : option (list Z)) (typmod : Z) : result (option NumericData) :=
  match str with
  | None => Ok None
  | Some str =>
    if bool_decide (str = str_NULL) then Ok None
    else if bool_decide (str = str_NaN) then Ok (Some (make_result const_nan))
    else
      value ← set_var_from_str str;
      value ← apply_typmod value typmod;
      Ok (Some (make_result value))
  end.

Definition numeric_out (num : option NumericData) : list Z :=
  match num with
  | None => str_NULL
  | Some n =>
    if NUMERIC_IS_NAN n then str_NaN
    else let x := set_var_from_num n in get_str_from_var x (dscale x)
  end.

(** "-7.50" in and out; "1.5e3" has scale 0; "0.005" rounds to "0.01". *)
Example in_out_example :
  (numeric_in (Some [45; 55; 46; 53; 48]) (-1) ≫= fun n => Ok (numeric_out n)) = Ok [45; 55; 46; 53; 48].
Proof. reflexivity. Qed.
Example in_exp_example :
  (numeric_in (Some [49; 46; 53; 101; 51]) (-1) ≫= fun n => Ok (numeric_out n)) = Ok [49; 53; 48; 48].
Proof. reflexivity. Qed.
Example typmod_example :
  (numeric_in (Some [48; 46; 48; 48; 53]) (4 + 4 * 65536 + 2) ≫= fun n => Ok (numeric_out n)) = Ok [48; 46; 48; 49].
Proof. reflexivity. Qed.

(** ** The carry loop *)

Notation digit_ok := (fun d : Z => 0 <= d <= 9).

Lemma drop_aset (ds : list Z) i x : (i < length ds)%nat -> drop i (aset ds (Z.of_nat i) x) = x :: drop (S i) ds.
Proof.
  intros Hi. unfold aset. destruct (Z.ltb_spec (Z.of_nat i) 0); [lia|]. rewrite Nat2Z.id.
  rewrite drop_insert_ge, Nat.sub_diag by lia. destruct (lookup_lt_is_Some_2 ds i Hi) as [y Hy].
  by rewrite (drop_S ds y i Hy).
Qed.

Lemma take_aset (ds : list Z) i x : take i (aset ds (Z.of_nat i) x) = take i ds.
Proof.
  unfold aset. destruct (Z.ltb_spec (Z.of_nat i) 0); [lia|]. by rewrite Nat2Z.id, take_insert_ge by lia.
Qed.

Lemma carry_loop_digits ds i c : Forall digit_ok ds -> (i <= length ds)%nat -> 0 <= c <= 9 ->
  let X := dval (take i ds) + c in
  carry_loop ds i c = if X <? 10 ^ Z.of_nat i then (to_digits i X ++ drop i ds, false)
                      else (to_digits (S i) X ++ drop i ds, true).
Proof.
  revert ds c. induction i as [|i IH]; intros ds c Hok Hi Hc; cbn zeta.
  { cbn [carry_loop take dval]. rewrite Z.add_0_l. change (10 ^ Z.of_nat 0) with 1.
    destruct (Z.eqb_spec c 0) as [->|]; [done|]. rewrite (proj2 (Z.ltb_ge _ _)) by lia. done. }
  assert (Forall digit_ok (take (S i) ds)) as Hokt by by apply Forall_take.
  cbn [carry_loop]. destruct (Z.eqb_spec c 0) as [->|Hc0].
  { rewrite Z.add_0_r. pose proof (dval_bound _ Hokt) as B. rewrite length_take_le in B by lia.
    rewrite (proj2 (Z.ltb_lt _ _)) by apply B. f_equal. rewrite <- (take_drop (S i) ds) at 1. f_equal.
    rewrite <- (to_digits_dval _ Hokt) at 1. by rewrite length_take_le. }
  pose proof (digit_bound ds (Z.of_nat i) Hok). set (s := c + aget 0 ds (Z.of_nat i)).
  pose proof (Z.mod_pos_bound s 10 ltac:(lia)). pose proof (Z.div_mod s 10 ltac:(lia)).
  assert (0 <= s / 10 <= 9) by (pose proof (Z.div_pos s 10); pose proof (Z.div_lt_upper_bound s 10 10); lia).
  rewrite IH by (try apply aset_Forall; try rewrite aset_length; done || lia). cbn zeta.
  rewrite take_aset, drop_aset by lia. set (X' := dval (take i ds) + s / 10).
  assert (dval (take (S i) ds) + c = s mod 10 + X' * 10) as HX.
  { rewrite take_S_aget, dval_app by lia. cbn [length dval]. change (10 ^ Z.of_nat 1) with 10.
    change (10 ^ Z.of_nat 0) with 1. unfold X', s in *. lia. }
  rewrite HX. rewrite Nat2Z.inj_succ, Z.pow_succ_r by lia.
  assert (forall n, to_digits (S n) (s mod 10 + X' * 10) = to_digits n X' ++ [s mod 10]) as Hd.
  { intros n. cbn [to_digits]. rewrite Z.div_add, Z_mod_plus_full, Z.div_small, Z.mod_mod by lia. done. }
  rewrite !Hd, <- !app_assoc. cbn [app].
  destruct (Z.ltb_spec X' (10 ^ Z.of_nat i)), (Z.ltb_spec (s mod 10 + X' * 10) (10 * 10 ^ Z.of_nat i)); done || lia.
Qed.

(** [v'] is [v] rounded half up (in absolute value) at the scale [s]. *)
Definition rounded (s : Z) (v v' : NumericVar) : Prop :=
  Forall digit_ok (digits v') /\ sign v' = sign v /\ (forall p, p < - s -> dig v' p = 0)
  /\ scaled s v' = (scaled (s + 1) v + 5) / 10
  /\ (forall p, Z.max (weight v) (- s - 1) + 1 < p -> dig v' p = 0).

Lemma scaledl_cut k w ds : Forall digit_ok ds -> 0 <= k + w + 1 <= Zlen ds ->
  scaledl k w ds = dval ds / 10 ^ (Zlen ds - (k + w + 1)).
Proof.
  intros Hok Hk. rewrite (scaledl_floor k w ds (Zlen ds - (k + w + 1))) by (done || lia).
  f_equal. rewrite scaledl_dval by lia. replace (_ + 1 - Zlen ds) with 0 by lia. lia.
Qed.

Lemma round_up_spec s v : Forall digit_ok (digits v) -> let i := s + weight v + 1 in
  0 <= i < ndigits v -> rounded s v (round_up i v).
Proof.
  intros Hok i Hi. unfold round_up, ndigits in *. set (c := if _ <? _ then 1 else 0).
  assert (0 <= c <= 1) by (unfold c; case_match; lia).
  rewrite carry_loop_digits by (try apply Forall_take; try rewrite length_take; done || lia). cbn zeta.
  rewrite take_take, Nat.min_id, drop_ge, !app_nil_r by (rewrite length_take; lia).
  set (X := dval (take (Z.to_nat i) (digits v)) + c).
  assert (X = half_up (dval (digits v)) (Zlen (digits v) - i)) as HX.
  { unfold X. rewrite half_up_spec, dval_take by (done || lia). f_equal; [do 2 f_equal; lia|]. unfold c.
    rewrite dval_digit by (done || lia). by replace (Zlen (digits v) - 1 - i) with (Zlen (digits v) - i - 1) by lia. }
  assert (X = (scaled (s + 1) v + 5) / 10) as HX'.
  { rewrite HX. unfold half_up. do 2 f_equal. rewrite scaled_list, scaledl_cut by (done || lia). do 2 f_equal. lia. }
  assert (0 <= X <= 10 ^ i) as HXb.
  { pose proof (dval_bound _ (Forall_take _ (Z.to_nat i) _ Hok)) as B. rewrite length_take_le, Z2Nat.id in B by lia. lia. }
  rewrite Z2Nat.id by lia. destruct (Z.ltb_spec X (10 ^ i)); cbn iota; unfold rounded;
    cbn [digits sign weight]; (split_and!; [apply to_digits_ok|done| | |]).
  - intros p Hp. apply aget_out. cbn [digits weight]. rewrite to_digits_length. lia.
  - rewrite scaled_list. cbn [digits weight]. rewrite <- HX'. apply scaledl_to_digits; [lia|]. rewrite Z2Nat.id; lia.
  - intros p Hp. apply aget_out. cbn [digits weight]. lia.
  - intros p Hp. apply aget_out. cbn [digits weight]. rewrite to_digits_length. lia.
  - rewrite scaled_list. cbn [digits weight]. rewrite <- HX'. apply scaledl_to_digits; [lia|].
    rewrite Nat2Z.inj_succ, Z2Nat.id, Z.pow_succ_r by lia. lia.
  - intros p Hp. apply aget_out. cbn [digits weight]. lia.
Qed.

(** A number with no digit below the scale stays; one without a digit above it
    vanishes. *)
Lemma rounded_same s v : Forall digit_ok (digits v) -> (forall p, p < - s -> dig v p = 0) -> rounded s v v.
Proof.
  intros Hok Hlow. split_and!; try done.
  - rewrite scaled_more by (done || lia). apply (Z.div_unique _ 10 _ 5); lia.
  - intros p Hp. apply aget_out. lia.
Qed.

Lemma rounded_none s v : s + weight v + 1 < 0 -> rounded s v (set_ndigits 0 v).
Proof.
  intros Hi. unfold set_ndigits. change (Z.to_nat 0) with 0%nat. rewrite take_0. split_and!; try done; cbn [digits]; try constructor.
  - intros p Hp. apply aget_out. cbn [digits weight length]. lia.
  - rewrite scaled_list. cbn [digits]. rewrite scaledl_nil. unfold scaled.
    replace (Z.to_nat (s + 1 + weight v + 1)) with 0%nat by lia. done.
  - intros p Hp. apply aget_out. cbn [digits weight length]. lia.
Qed.

Lemma round_cut_spec s v : Forall digit_ok (digits v) -> rounded s v (round_cut (s + weight v + 1) v).
Proof.
  intros Hok. unfold round_cut. destruct (Z.leb_spec 0 (s + weight v + 1)); cbn [andb].
  - destruct (Z.ltb_spec (s + weight v + 1) (ndigits v)); [by apply round_up_spec|].
    unfold ndigits in *. replace (set_ndigits _ v) with v.
    { apply rounded_same; [done|]. intros p Hp. apply aget_out. lia. }
    unfold set_ndigits. rewrite take_ge by lia. by destruct v.
  - replace (Z.max 0 _) with 0 by (unfold ndigits; lia). by apply rounded_none.
Qed.

(** ** Rounding as an operation on rationals *)

Lemma rounded_value s v v' : var_ok v -> 0 <= s -> rounded s v v' ->
  (numval v' == NumericDiv.round_at s (numval v))%Q.
Proof.
  intros Ok Hs (Hok' & Hsg & Hlow & Hval & _). pose proof (ok_rscale _ Ok).
  set (R := Z.max (rscale v) (s + 1)).
  rewrite (NumericDiv.round_at_signed s (scaled R v) (10 ^ R) (negb (sign v =? NUMERIC_POS)));
    [|done|apply (scaled_bound R v (ok_digits _ Ok))|apply Z.pow_pos_nonneg; lia|].
  - rewrite (numval_at s v') by done. cbn zeta.
    replace (10 * (scaled R v * 10 ^ s) / 10 ^ R) with (scaled (s + 1) v).
    { rewrite <- Hval. unfold signed. rewrite Hsg. by destruct (sign v =? NUMERIC_POS). }
    change (scaled (s + 1) v) with (scaledl (s + 1) (weight v) (digits v)).
    rewrite (scaledl_floor (s + 1) _ _ (R - (s + 1))) by (apply ok_digits || lia; done).
    change (scaledl (s + 1 + (R - (s + 1))) (weight v) (digits v)) with (scaled (s + 1 + (R - (s + 1))) v).
    replace (s + 1 + (R - (s + 1))) with R by lia.
    assert (forall e, 0 <= e -> 0 < 10 ^ e) as Hp by (intros; apply Z.pow_pos_nonneg; lia).
    apply NumericDiv.div_cross; [apply Hp; lia|apply Hp; lia|].
    replace R with ((R - (s + 1)) + (1 + s)) at 2 by lia. rewrite !Z.pow_add_r by lia. ring.
  - rewrite (numval_at R v); [|lia|intros p Hp; apply (ok_scale _ Ok); lia].
    unfold signed, tenpow. by destruct (sign v =? NUMERIC_POS).
Qed.

(** Storing a rounded number at its scale. *)
Lemma rounded_stored s v v' : var_ok v -> 0 <= s <= 2 ^ 15 -> weight v < 2 ^ 15 - 1 -> rounded s v v' ->
  let u := set_dscale s (set_rscale s v') in
  result_ok u (make_result u) /\ (num_value (make_result u) == NumericDiv.round_at s (numval v))%Q.
Proof.
  intros Ok Hs Hw HR u. pose proof HR as (Hok & Hsg & Hlow & Hval & Hhi).
  assert (result_ok u (make_result u)) as RO.
  { apply make_result_spec; [|cbn [u set_dscale set_rscale rscale]; lia|intros p Hp; apply Hhi; lia].
    constructor; [done|cbn [u sign set_dscale set_rscale]; rewrite Hsg; apply (ok_sign _ Ok)|cbn [u set_dscale set_rscale rscale]; lia|apply Hlow]. }
  split; [done|]. rewrite (result_value _ _ RO). change (numval u) with (numval v'). apply rounded_value; try done. lia.
Qed.

Lemma round_stored n s : num_ok n -> roomy n -> 0 <= s <= NUMERIC_MAX_DISPLAY_SCALE ->
  exists m, numeric_round (Some n) s = Some m /\ num_ok m /\ n_rscale m = s
  /\ (num_value m == NumericDiv.round_at s (num_value n))%Q.
Proof.
  intros Hn [Hw _] Hs. destruct (num_unpacked n Hn) as (Ok & _ & _ & Nan). pose proof (ok_digits _ Ok) as Hok.
  unfold NUMERIC_MAX_DISPLAY_SCALE, NUMERIC_MAX_PRECISION in Hs.
  unfold numeric_round. cbn [mbind option_bind]. rewrite Nan.
  unfold NUMERIC_MAX_DISPLAY_SCALE, NUMERIC_MAX_RESULT_SCALE, NUMERIC_MAX_PRECISION.
  replace (Z.min (1000 * 2) (Z.max (- (1000 * 2)) s)) with s by lia. replace (Z.min 1000 (Z.max 0 s)) with s by lia.
  set (v := set_var_from_num n) in *. replace (weight v + s + 1) with (s + weight v + 1) by lia.
  set (v' := if _ <? _ then _ else v).
  assert (rounded s v v') as HR.
  { unfold v'. destruct (Z.ltb_spec (s + weight v + 1) (ndigits v)).
    - destruct (Z.ltb_spec (s + weight v + 1) 0); [by apply rounded_none|by apply round_up_spec].
    - apply rounded_same; [done|]. intros p Hp. apply aget_out. unfold ndigits in *. lia. }
  destruct (rounded_stored s v v' Ok ltac:(lia) Hw HR) as [RO Hv]. eexists. split; [done|].
  split_and!; [apply RO|apply (res_rscale _ _ RO)|exact Hv].
Qed.

(** ** Truncation, ceiling and floor *)

Definition trunc_at (s : Z) (q : Q) : Q :=
  let a := Qfloor (Qabs q * inject_Z (10 ^ s)) in
  Qmake (if Qle_bool 0 q then a else - a) (tenpow s).

(** [v'] is [v] without its digits below the scale [s]. *)
Definition truncated (s : Z) (v v' : NumericVar) : Prop :=
  weight v' = weight v /\ sign v' = sign v /\ (exists m, digits v' = take m (digits v))
  /\ forall p, dig v' p = if p <? - s then 0 else dig v p.

Lemma cut_truncated s v r : 
  truncated s v (set_ndigits (Z.min (ndigits v) (Z.max 0 (weight v + s + 1))) (set_rscale r v)).
Proof.
  split_and!; try done; [by eexists|]. intros p. unfold dig. cbn [set_ndigits set_rscale digits weight].
  rewrite aget_take. unfold ndigits. destruct (Z.ltb_spec p (- s)).
  - destruct (Z.ltb_spec (weight v - p) (Z.of_nat (Z.to_nat (Z.min (Zlen (digits v)) (Z.max 0 (weight v + s + 1)))))); [|done].
    apply aget_out. lia.
  - case_match; [done|]. bool_cases. symmetry. apply aget_out. lia.
Qed.

Lemma truncated_scaled s v v' : truncated s v v' -> scaled s v' = scaled s v /\ forall p, p < - s -> dig v' p = 0.
Proof.
  intros (_ & _ & _ & Hd). split.
  - apply scaled_ext. intros p Hp. rewrite Hd. by rewrite (proj2 (Z.ltb_ge _ _)) by lia.
  - intros p Hp. rewrite Hd. by rewrite (proj2 (Z.ltb_lt _ _)) by lia.
Qed.

Lemma truncated_ok s v v' r : var_ok v -> truncated s v v' -> 0 <= s -> s = r -> rscale v' = r -> var_ok v'.
Proof.
  intros Ok HT Hs Hr Hr'. destruct (truncated_scaled s v v' HT) as [_ Hlow].
  destruct HT as (_ & Hsg & (m & Hm) & _). constructor; [|rewrite Hsg; apply (ok_sign _ Ok)|lia|].
  - rewrite Hm. apply Forall_take, (ok_digits _ Ok).
  - intros p Hp. apply Hlow. lia.
Qed.

(** The absolute value at a scale, as a floor. *)
Lemma scaled_Qfloor v s : var_ok v -> 0 <= s ->
  Qfloor (Qabs (numval v) * inject_Z (10 ^ s)) = scaled s v.
Proof.
  intros Ok Hs. pose proof (ok_rscale _ Ok). set (R := Z.max (rscale v) s).
  pose proof (scaled_bound R v (ok_digits _ Ok)).
  transitivity (Qfloor (Qmake (scaled R v * 10 ^ s) (tenpow R))).
  - apply Qfloor_comp. rewrite (numval_at R v); [|lia|intros p Hp; apply (ok_scale _ Ok); lia].
    unfold Qabs. rewrite signed_abs by lia. unfold Qeq, Qmult, inject_Z. cbn [Qnum Qden]. rewrite Pos.mul_1_r. done.
  - unfold Qfloor. rewrite tenpow_pos by lia.
    change (scaled s v) with (scaledl s (weight v) (digits v)).
    rewrite (scaledl_floor s _ _ (R - s)) by (apply ok_digits || lia; done).
    change (scaledl (s + (R - s)) (weight v) (digits v)) with (scaled (s + (R - s)) v).
    replace (s + (R - s)) with R by lia.
    assert (forall e, 0 <= e -> 0 < 10 ^ e) as Hp by (intros; apply Z.pow_pos_nonneg; lia).
    apply NumericDiv.div_cross; [apply Hp; lia|apply Hp; lia|].
    rewrite <- Z.mul_assoc, <- Z.pow_add_r by lia. do 2 f_equal. lia.
Qed.

Lemma Qle_bool_signed v : var_ok v -> Qle_bool 0 (numval v) = (sign v =? NUMERIC_POS) || (scaled (rscale v) v =? 0).
Proof.
  intros Ok. pose proof (ok_rscale _ Ok). pose proof (scaled_bound (rscale v) v (ok_digits _ Ok)).
  pose proof (numval_at (rscale v) v ltac:(done) (ok_scale _ Ok)) as E.
  apply eq_true_iff_eq. rewrite Qle_bool_iff, E, orb_true_iff, !Z.eqb_eq. unfold Qle, signed. cbn [Qnum Qden].
  destruct (ok_sign _ Ok) as [-> | ->]; unfold NUMERIC_POS, NUMERIC_NEG; cbn [Z.eqb]; lia.
Qed.

Lemma truncated_value s v v' : var_ok v -> 0 <= s -> truncated s v v' -> (numval v' == trunc_at s (numval v))%Q.
Proof.
  intros Ok Hs HT. destruct (truncated_scaled s v v' HT) as [Hv Hlow]. rewrite (numval_at s v') by done.
  unfold trunc_at. rewrite scaled_Qfloor, Qle_bool_signed, Hv by done. unfold signed.
  destruct HT as (_ & -> & _). destruct (ok_sign _ Ok) as [-> | ->]; cbn [Z.eqb NUMERIC_POS NUMERIC_NEG orb]; [done|].
  destruct (Z.eqb_spec (scaled (rscale v) v) 0) as [E|]; [|done].
  assert (scaled s v = 0) as ->; [|done].
  rewrite <- (scaled_Qfloor v s Ok Hs). change 0 with (Qfloor 0) at 1. apply Qfloor_comp.
  assert (numval v == 0)%Q as ->; [|apply Qmult_0_l].
  rewrite (numval_at (rscale v) v (ok_rscale _ Ok) (ok_scale _ Ok)), E. unfold signed. by case_match.
Qed.

Lemma truncated_high s v v' m : truncated s v v' -> weight v < m -> forall p, m <= p -> dig v' p = 0.
Proof. intros (_ & _ & _ & Hd) Hw p Hp. rewrite Hd. case_match; [done|]. apply aget_out. lia. Qed.

Lemma trunc_stored n s : num_ok n -> 0 <= s <= NUMERIC_MAX_DISPLAY_SCALE ->
  exists m, numeric_trunc (Some n) s = Some m /\ num_ok m /\ n_rscale m = s
  /\ (num_value m == trunc_at s (num_value n))%Q.
Proof.
  intros Hn Hs. destruct (num_unpacked n Hn) as (Ok & _ & _ & Nan).
  unfold NUMERIC_MAX_DISPLAY_SCALE, NUMERIC_MAX_PRECISION in Hs.
  unfold numeric_trunc. cbn [mbind option_bind]. rewrite Nan.
  unfold NUMERIC_MAX_DISPLAY_SCALE, NUMERIC_MAX_RESULT_SCALE, NUMERIC_MAX_PRECISION.
  replace (Z.min (1000 * 2) (Z.max (- (1000 * 2)) s)) with s by lia. replace (Z.min 1000 (Z.max 0 s)) with s by lia.
  set (v := set_var_from_num n) in *. set (u := set_dscale s _).
  assert (truncated s v u) as HT by exact (cut_truncated s v s).
  assert (result_ok u (make_result u)) as RO.
  { apply make_result_spec; [apply (truncated_ok s v u s); try done; lia|cbn [u set_dscale set_rscale rscale]; lia|].
    apply (truncated_high s v u); [done|]. apply (num_weight _ Hn). }
  eexists. split; [done|]. split_and!; [apply RO|apply (res_rscale _ _ RO)|].
  rewrite (result_value _ _ RO). apply truncated_value; done || lia.
Qed.

(** Integers as rationals. *)
Lemma numval_whole v : (forall p, p < 0 -> dig v p = 0) -> (numval v == inject_Z (signed v (scaled 0 v)))%Q.
Proof. intros H. by rewrite (numval_at 0 v). Qed.

Lemma scaled_0_Qfloor v : var_ok v -> Qfloor (Qabs (numval v)) = scaled 0 v.
Proof.
  intros Ok. rewrite <- (scaled_Qfloor v 0 Ok ltac:(done)). apply Qfloor_comp. by rewrite Qmult_1_r.
Qed.

Lemma var_ok_one : var_ok const_one.
Proof.
  constructor; [repeat constructor; lia|by left|done|]. intros p Hp. cbn in Hp. apply aget_out. cbn. lia.
Qed.

Lemma numval_one : (numval const_one == 1)%Q.
Proof. reflexivity. Qed.

(** Cutting at the decimal point leaves the whole part. *)
Lemma whole_part v : var_ok v -> stripped (digits v) ->
  let tmp := set_ndigits (Z.min (ndigits v) (Z.max 0 (weight v + 1))) (set_rscale 0 v) in
  var_ok tmp /\ stripped (digits tmp) /\ truncated 0 v tmp
  /\ (numval tmp == inject_Z (signed v (Qfloor (Qabs (numval v)))))%Q.
Proof.
  intros Ok St tmp. assert (truncated 0 v tmp) as HT.
  { unfold tmp. replace (weight v + 1) with (weight v + 0 + 1) by lia. apply cut_truncated. }
  assert (var_ok tmp) as Okt by by apply (truncated_ok 0 v tmp 0).
  split_and!; try done.
  - destruct St as [E|Hne]; [left; cbn [tmp set_ndigits set_rscale digits]; by rewrite E, take_nil|].
    destruct (decide (digits tmp = [])) as [|Hnt]; [by left|right].
    cbn [tmp set_ndigits set_rscale digits] in *. rewrite aget_take. case_match; [done|]. bool_cases.
    destruct Hnt. by replace (Z.to_nat _) with 0%nat by lia.
  - rewrite numval_whole by (intros p Hp; apply (truncated_scaled 0 v tmp HT); lia).
    rewrite scaled_0_Qfloor by done. destruct (truncated_scaled 0 v tmp HT) as [-> _]. done.
Qed.

Lemma Qabs_signed v : var_ok v -> (numval v == inject_Z (signed v 1) * Qabs (numval v))%Q.
Proof.
  intros Ok. pose proof (scaled_bound (rscale v) v (ok_digits _ Ok)).
  rewrite (numval_at (rscale v) v (ok_rscale _ Ok) (ok_scale _ Ok)).
  unfold Qabs. rewrite signed_abs by lia. unfold Qeq, Qmult, inject_Z, signed. cbn [Qnum Qden]. case_match; lia.
Qed.

Lemma Qfloor_spec q z : (inject_Z z <= q)%Q -> (q < inject_Z (z + 1))%Q -> Qfloor q = z.
Proof.
  intros H1 H2. pose proof (Qfloor_resp_le _ _ H1) as L. rewrite Qfloor_Z in L.
  pose proof (Qfloor_le q). destruct (Z.le_gt_cases (Qfloor q) z); [lia|].
  assert (inject_Z (z + 1) <= inject_Z (Qfloor q))%Q by (rewrite <- Zle_Qle; lia).
  exfalso. apply (Qlt_not_le q (inject_Z (z + 1))); [done|]. by eapply Qle_trans.
Qed.

(** The floor of a number from that of its absolute value. *)
Lemma Qfloor_neg x : (~ x == inject_Z (Qfloor x))%Q -> Qfloor (- x) = - (Qfloor x + 1).
Proof.
  intros Hne. pose proof (Qfloor_le x). pose proof (Qlt_floor x). apply Qfloor_spec.
  - rewrite inject_Z_opp. apply Qopp_le_compat. by apply Qlt_le_weak.
  - replace (- (Qfloor x + 1) + 1) with (- Qfloor x) by lia. rewrite inject_Z_opp.
    apply Qopp_lt_compat. destruct (Qle_lt_or_eq _ _ H) as [|E]; [done|]. by destruct Hne.
Qed.
Lemma Qfloor_neg_int x : (x == inject_Z (Qfloor x))%Q -> Qfloor (- x) = - Qfloor x.
Proof. intros E. rewrite <- (Qfloor_Z (- Qfloor x)). apply Qfloor_comp. rewrite inject_Z_opp. by rewrite <- E. Qed.

Lemma floor_var_spec v : var_ok v -> stripped (digits v) -> weight v < 2 ^ 15 - 1 ->
  var_ok (floor_var v) /\ rscale (floor_var v) = 0 /\ (numval (floor_var v) == inject_Z (Qfloor (numval v)))%Q.
Proof.
  intros Ok St Hw. destruct (whole_part v Ok St) as (Okt & Stt & HT & Hval). unfold floor_var. cbn zeta.
  change (ndigits (set_rscale 0 v)) with (ndigits v). change (weight (set_rscale 0 v)) with (weight v).
  set (tmp := set_ndigits _ (set_rscale 0 v)) in *.
  rewrite (cmp_var_spec v tmp Ok Okt St Stt). pose proof (Qeq_alt (numval v) (numval tmp)) as Heq.
  pose proof (Qabs_signed v Ok) as Hs. set (x := Qabs (numval v)) in *. change (sign tmp) with (sign v). unfold signed in *.
  assert (forall q, (q == inject_Z (-1) * x -> q == - x)%Q) as Hm1 by (intros q ->; unfold Qeq, Qmult, Qopp; cbn; lia).
  destruct (ok_sign _ Ok) as [S|S]; rewrite S in *; cbn [Z.eqb NUMERIC_POS NUMERIC_NEG andb] in *.
  - split_and!; try done. rewrite Hval. change (inject_Z 1) with 1%Q in Hs. rewrite Qmult_1_l in Hs. by rewrite Hs.
  - apply Hm1 in Hs. destruct (numval v ?= numval tmp)%Q eqn:E; cbn [ordering negb Z.eqb].
    + split_and!; try done. rewrite Hval. assert (x == inject_Z (Qfloor x))%Q as Hx.
      { assert (numval v == numval tmp)%Q as Et by by apply Heq. rewrite Hs, Hval, inject_Z_opp in Et.
        pose proof (Qopp_comp _ _ Et) as E2. by rewrite !Qopp_involutive in E2. }
      rewrite Hs. by rewrite (Qfloor_neg_int x Hx).
    + destruct (sub_var_spec tmp const_one Okt var_ok_one) as [A1 _ A3 _ A5]. split_and!; [done|done|].
      rewrite A5, Hval, numval_one, Hs, Qfloor_neg; [rewrite !inject_Z_opp, inject_Z_plus; change (inject_Z 1) with 1%Q; ring|].
      intros Hx. assert (Lt = Eq) as Habs; [|done]. rewrite <- Heq, Hs, Hval, inject_Z_opp. by rewrite <- Hx.
    + destruct (sub_var_spec tmp const_one Okt var_ok_one) as [A1 _ A3 _ A5]. split_and!; [done|done|].
      rewrite A5, Hval, numval_one, Hs, Qfloor_neg; [rewrite !inject_Z_opp, inject_Z_plus; change (inject_Z 1) with 1%Q; ring|].
      intros Hx. assert (Gt = Eq) as Habs; [|done]. rewrite <- Heq, Hs, Hval, inject_Z_opp. by rewrite <- Hx.
Qed.

Lemma ceil_var_spec v : var_ok v -> stripped (digits v) -> weight v < 2 ^ 15 - 1 ->
  var_ok (ceil_var v) /\ rscale (ceil_var v) = 0 /\ (numval (ceil_var v) == inject_Z (Qceiling (numval v)))%Q.
Proof.
  intros Ok St Hw. destruct (whole_part v Ok St) as (Okt & Stt & HT & Hval). unfold ceil_var. cbn zeta.
  change (ndigits (set_rscale 0 v)) with (ndigits v). change (weight (set_rscale 0 v)) with (weight v).
  set (tmp := set_ndigits _ (set_rscale 0 v)) in *.
  rewrite (cmp_var_spec v tmp Ok Okt St Stt). pose proof (Qeq_alt (numval v) (numval tmp)) as Heq.
  pose proof (Qabs_signed v Ok) as Hs. set (x := Qabs (numval v)) in *. change (sign tmp) with (sign v). unfold signed, Qceiling in *.
  destruct (ok_sign _ Ok) as [S|S]; rewrite S in *; cbn [Z.eqb NUMERIC_POS NUMERIC_NEG andb] in *.
  - change (inject_Z 1) with 1%Q in Hs. rewrite Qmult_1_l in Hs.
    destruct (numval v ?= numval tmp)%Q eqn:E; cbn [ordering negb Z.eqb].
    + split_and!; try done. rewrite Hval. assert (x == inject_Z (Qfloor x))%Q as Hx by (rewrite <- Hs at 1; rewrite <- Hval; by apply Heq).
      rewrite Hs, (Qfloor_neg_int x Hx), Z.opp_involutive. done.
    + destruct (add_var_spec tmp const_one Okt var_ok_one) as [A1 _ A3 _ A5]. split_and!; [done|done|].
      rewrite A5, Hval, numval_one, Hs, Qfloor_neg, Z.opp_involutive; [by rewrite inject_Z_plus|].
      intros Hx. assert (Lt = Eq) as Habs; [|done]. by rewrite <- Heq, Hval, <- Hx.
    + destruct (add_var_spec tmp const_one Okt var_ok_one) as [A1 _ A3 _ A5]. split_and!; [done|done|].
      rewrite A5, Hval, numval_one, Hs, Qfloor_neg, Z.opp_involutive; [by rewrite inject_Z_plus|].
      intros Hx. assert (Gt = Eq) as Habs; [|done]. by rewrite <- Heq, Hval, <- Hx.
  - split_and!; try done. rewrite Hval, Hs. do 3 f_equiv. 
    unfold Qeq, Qmult, Qopp. cbn [Qnum Qden inject_Z]. destruct x. cbn. lia.
Qed.

(** Counting up by one raises the weight by one at most. *)
Lemma whole_high v u z m : var_ok v -> var_ok u -> rscale u = 0 -> (numval u == inject_Z z)%Q ->
  Z.abs z <= scaled 0 v + 1 -> 0 <= m -> weight v + 1 < m + 1 -> forall p, m + 1 <= p -> dig u p = 0.
Proof.
  intros Okv Oku Hr Hq Hz Hm Hw. apply (high_digits u 0 z (m + 1)); try done; try lia.
  pose proof (scaled_bound 0 v (ok_digits _ Okv)).
  assert (10 ^ Z.max 0 (0 + weight v + 1) <= 10 ^ m) by (apply Z.pow_le_mono_r; lia).
  rewrite Z.add_0_l. replace (m + 1) with (Z.succ m) by lia. rewrite Z.pow_succ_r by lia. lia.
Qed.

Lemma Qfloor_abs_bound v : var_ok v ->
  Z.abs (Qfloor (numval v)) <= scaled 0 v + 1 /\ Z.abs (Qceiling (numval v)) <= scaled 0 v + 1.
Proof.
  intros Ok. rewrite <- (scaled_0_Qfloor v Ok). pose proof (Qabs_signed v Ok) as Hs. unfold Qceiling.
  set (x := Qabs (numval v)) in *.
  assert (0 <= Qfloor x) by (change 0 with (Qfloor 0); apply Qfloor_resp_le, Qabs_nonneg).
  assert (Qfloor (- x) = - Qfloor x \/ Qfloor (- x) = - (Qfloor x + 1)) as Hn.
  { destruct (Qeq_dec x (inject_Z (Qfloor x))); [left; by apply Qfloor_neg_int|right; by apply Qfloor_neg]. }
  unfold signed in Hs. destruct (sign v =? NUMERIC_POS).
  - assert (numval v == x)%Q as -> by (rewrite Hs; unfold Qeq, Qmult; cbn; lia). lia.
  - assert (numval v == - x)%Q as -> by (rewrite Hs; unfold Qeq, Qmult, Qopp; cbn; lia).
    rewrite (Qfloor_comp _ _ (Qopp_involutive x)). lia.
Qed.

Lemma whole_stored n u z : num_ok n -> roomy n -> var_ok u -> rscale u = 0 -> (numval u == inject_Z z)%Q ->
  Z.abs z <= scaled 0 (set_var_from_num n) + 1 ->
  result_ok (set_dscale 0 u) (make_result (set_dscale 0 u)).
Proof.
  intros Hn [Hw _] Oku Hr Hq Hz. destruct (num_unpacked n Hn) as (Ok & _). apply make_result_spec.
  - destruct Oku. by constructor.
  - cbn [set_dscale rscale]. by rewrite Hr.
  - replace (2 ^ 15) with ((2 ^ 15 - 1) + 1) by lia.
    apply (whole_high (set_var_from_num n) (set_dscale 0 u) z); try done; [by destruct Oku|].
    cbn [set_var_from_num weight]. lia.
Qed.

(** The rounding functions of numerics: [numeric_round] rounds half away
    from zero and [numeric_trunc] cuts towards zero at a scale of up to 1000 places,
    [numeric_ceil] and [numeric_floor] give the ceiling and the floor; the results
    are well-formed stored numbers at the scale asked for. *)
Theorem numeric_rounding n s : num_ok n -> roomy n -> 0 <= s <= NUMERIC_MAX_DISPLAY_SCALE ->
  (exists m, numeric_round (Some n) s = Some m /\ num_ok m /\ n_rscale m = s
     /\ (num_value m == NumericDiv.round_at s (num_value n))%Q)
  /\ (exists m, numeric_trunc (Some n) s = Some m /\ num_ok m /\ n_rscale m = s
     /\ (num_value m == trunc_at s (num_value n))%Q)
  /\ (exists m, numeric_ceil (Some n) = Some m /\ num_ok m
     /\ (num_value m == inject_Z (Qceiling (num_value n)))%Q)
  /\ (exists m, numeric_floor (Some n) = Some m /\ num_ok m
     /\ (num_value m == inject_Z (Qfloor (num_value n)))%Q).
Proof.
  intros Hn Hr Hs. split_and!; [by apply round_stored|by apply trunc_stored| |];
    destruct (num_unpacked n Hn) as (Ok & St & _ & Nan); destruct (Qfloor_abs_bound _ Ok) as [Bf Bc];
    unfold numeric_ceil, numeric_floor; cbn [mbind option_bind]; rewrite Nan; (eexists; split; [done|]).
  - destruct (ceil_var_spec _ Ok St (proj1 Hr)) as (Oku & Hru & Hq).
    pose proof (whole_stored n _ _ Hn Hr Oku Hru Hq Bc) as RO. split; [apply RO|]. rewrite (result_value _ _ RO). exact Hq.
  - destruct (floor_var_spec _ Ok St (proj1 Hr)) as (Oku & Hru & Hq).
    pose proof (whole_stored n _ _ Hn Hr Oku Hru Hq Bf) as RO. split; [apply RO|]. rewrite (result_value _ _ RO). exact Hq.
Qed.

Lemma numeric_rounding_witness :
  (exists m, numeric_round (Some n_7_5) 0 = Some m /\ (num_value m == -8 # 1)%Q)
  /\ (exists m, numeric_ceil (Some n_7_5) = Some m /\ (num_value m == -7 # 1)%Q).
Proof.
  destruct (numeric_rounding n_7_5 0 n_7_5_ok) as ((m & E & _ & _ & Hv) & _ & (m' & E' & _ & Hv') & _);
    [by split|by split|].
  split; [exists m|exists m']; (split; [done|]); [rewrite Hv|rewrite Hv']; reflexivity.
Defined.

(** ** Precision and scale of a column *)

Lemma true_weight_spec ds w :
  (true_weight ds w).2 = true /\ aget 0 ds (w - (true_weight ds w).1) <> 0
    /\ (forall p, (true_weight ds w).1 < p -> aget 0 ds (w - p) = 0)
  \/ (true_weight ds w).2 = false /\ forall p, aget 0 ds (w - p) = 0.
Proof.
  revert w. induction ds as [|d ds IH]; intros w; cbn [true_weight].
  { right. split; [done|]. intros p. apply aget_out. cbn. lia. }
  assert (forall p, p <> w -> aget 0 (d :: ds) (w - p) = aget 0 ds (w - 1 - p)) as Hs.
  { intros p Hp. unfold aget. destruct (Z.ltb_spec (w - p) 0), (Z.ltb_spec (w - 1 - p) 0); try done; try lia.
    by replace (Z.to_nat (w - p)) with (S (Z.to_nat (w - 1 - p))) by lia. }
  destruct (Z.eqb_spec d 0) as [->|Hd]; cbn [negb].
  - assert (forall p, aget 0 (0 :: ds) (w - p) = aget 0 ds (w - 1 - p)) as Hs'.
    { intros p. destruct (decide (p = w)) as [->|]; [|by apply Hs].
      replace (w - w) with 0 by lia. by rewrite (aget_out 0 ds) by lia. }
    destruct (IH (w - 1)) as [(E & Hne & Hz)|[E Hz]]; [left|right]; rewrite E; split_and!; try done.
    + by rewrite Hs'.
    + intros p Hp. rewrite Hs'. by apply Hz.
    + intros p. by rewrite Hs'.
  - left. cbn [fst snd]. split_and!; [done|by replace (w - w) with 0 by lia|].
    intros p Hp. apply aget_out. lia.
Qed.

Lemma scaled_lt s m v : Forall digit_ok (digits v) -> 0 <= s + m ->
  (forall p, m <= p -> dig v p = 0) -> scaled s v < 10 ^ (s + m).
Proof.
  intros Hok Hm Hhi. set (n := Z.to_nat (s + m)).
  assert (scaled s v = fsum (fun j => dig v (j - s)) n) as ->.
  { destruct (Nat.le_ge_cases n (Z.to_nat (s + weight v + 1))).
    - apply fsum_stable; [|done]. intros j Hj. apply Hhi. lia.
    - symmetry. apply fsum_stable; [|done]. intros j Hj. apply aget_out. lia. }
  replace (s + m) with (Z.of_nat n) by lia. apply fsum_bound. intros j. by apply dig_bound.
Qed.

(** The overflow test of [apply_typmod]. *)
Lemma overflow_spec s m v : Forall digit_ok (digits v) -> 0 <= s -> 0 <= m ->
  (if m <=? weight v then let '(t, nz) := true_weight (digits v) (weight v) in (m <=? t) && nz else false)
  = (10 ^ (s + m) <=? scaled s v).
Proof.
  intros Hok Hs Hm. pose proof (true_weight_spec (digits v) (weight v)) as T.
  destruct (true_weight (digits v) (weight v)) as [t nz]. cbn [fst snd] in T. cbn iota.
  assert (forall b, b = true <-> 10 ^ (s + m) <= scaled s v -> b = (10 ^ (s + m) <=? scaled s v)) as Hiff.
  { intros b Hb. apply eq_true_iff_eq. by rewrite Hb, Z.leb_le. }
  apply Hiff. destruct (Z.leb_spec m (weight v)) as [Hw|Hw].
  - rewrite andb_true_iff, Z.leb_le. split.
    + intros [Ht ->]. destruct T as [(_ & Hne & _)|[? _]]; [|done]. change (dig v t <> 0) in Hne.
      destruct (Z.le_gt_cases (10 ^ (s + m)) (scaled s v)) as [|L]; [done|exfalso]. apply Hne.
      rewrite (scaled_dig s) by (done || lia). pose proof (scaled_bound s v Hok).
      assert (10 ^ (s + m) <= 10 ^ (t + s)) by (apply Z.pow_le_mono_r; lia). by rewrite Z.div_small by lia.
    + intros Hge. destruct T as [(-> & _ & Hz)|[_ Hz]].
      * split; [|done]. destruct (Z.le_gt_cases m t) as [|L]; [done|exfalso].
        pose proof (scaled_lt s m v Hok ltac:(lia)) as Hlt. specialize (Hlt ltac:(intros p Hp; apply Hz; lia)). lia.
      * exfalso. pose proof (scaled_lt s m v Hok ltac:(lia) ltac:(intros; apply Hz)). lia.
  - split; [done|]. intros Hge. exfalso.
    pose proof (scaled_lt s m v Hok ltac:(lia) ltac:(intros; apply aget_out; lia)). lia.
Qed.

(** A number below a power of ten, as a comparison of rationals. *)
Lemma precision_test s m v : Forall digit_ok (digits v) -> 0 <= s -> 0 <= m -> (forall p, p < - s -> dig v p = 0) ->
  Qle_bool (inject_Z (10 ^ m)) (Qabs (numval v)) = (10 ^ (s + m) <=? scaled s v).
Proof.
  intros Hok Hs Hm Hlow. pose proof (scaled_bound s v Hok). apply eq_true_iff_eq.
  rewrite Qle_bool_iff, Z.leb_le, (numval_at s v Hs Hlow). unfold Qabs. rewrite signed_abs by lia.
  unfold Qle, inject_Z. cbn [Qnum Qden]. rewrite tenpow_pos, Z.pow_add_r by done. lia.
Qed.

(** The fast path of [numeric]: new scales on the same digits. *)
Lemma rescaled n s : num_ok n -> n_rscale n <= s < 2 ^ 16 ->
  let m := mkNumeric (varlen n) (n_weight n) (u16 s)
             (u16 (Z.lor (NUMERIC_SIGN n) (Z.land (u16 s) NUMERIC_DSCALE_MASK))) (n_data n) in
  num_ok m /\ n_rscale m = s /\ num_value m = num_value n.
Proof.
  intros Hn Hs m. pose proof (num_rscale _ Hn).
  destruct (sign_dscale_fields (NUMERIC_SIGN n) s (num_sign _ Hn)) as (Hr & Hsg & _).
  assert (NUMERIC_SIGN m = NUMERIC_SIGN n) as Hms by exact Hsg.
  assert (n_rscale m = s) as Hmr by (apply u16_id; lia).
  split_and!; [|done|unfold num_value, numval, signed; cbn [set_var_from_num sign]; by rewrite Hms].
  destruct Hn. constructor; try done; [by rewrite Hms|lia|by rewrite Hms|].
  intros p Hp. apply num_scale0. lia.
Qed.

(** A numeric column of precision [p] and scale [s] stores the value
    rounded half away from zero at [s] places and rejects it with an error
    exactly when the rounded value has more than [p - s] digits before the point;
    [numeric] takes a fast path, without unpacking, for the values that need no
    rounding, with the same outcome. *)
Theorem numeric_typmod n typmod : num_ok n -> roomy n -> VARHDRSZ <= typmod ->
  let p := typmod_precision typmod in
  let s := typmod_scale typmod in
  s <= p -> s <= 2 ^ 15 ->
  let r := NumericDiv.round_at s (num_value n) in
  if Qle_bool (inject_Z (10 ^ (p - s))) (Qabs r) then numeric (Some n) typmod = Err "overflow on numeric"
  else exists m, numeric (Some n) typmod = Ok (Some m) /\ num_ok m /\ n_rscale m = s /\ (num_value m == r)%Q.
Proof.
  intros Hn Hr Ht p s Hsp Hs r. destruct (num_unpacked n Hn) as (Ok & St & _ & Nan).
  set (v := set_var_from_num n) in *. pose proof (ok_digits _ Ok) as Hok.
  assert (0 <= s) as Hs0 by (apply Z.land_nonneg; right; done).
  unfold numeric. rewrite Nan, (proj2 (Z.ltb_ge _ _)) by lia. fold p s.
  destruct ((n_weight n <? p - s) && (n_rscale n <=? s)) eqn:Efast.
  - bool_cases. assert (rounded s v v) as HR by (apply rounded_same; [done|intros q Hq; apply (ok_scale _ Ok); cbn in *; lia]).
    pose proof (rounded_value s v v Ok Hs0 HR) as Hv.
    destruct (rescaled n s Hn ltac:(lia)) as (Om & Orr & Ov).
    assert (Qle_bool (inject_Z (10 ^ (p - s))) (Qabs r) = false) as ->.
    { unfold r. change (num_value n) with (numval v). rewrite <- Hv. destruct HR as (_ & _ & Hlow & _).
      rewrite (precision_test s (p - s) v) by (done || lia). apply Z.leb_gt, scaled_lt; [done|lia|].
      intros q Hq. apply aget_out. cbn [v set_var_from_num weight]. lia. }
    eexists. split; [done|]. split_and!; [exact Om|exact Orr|]. rewrite Ov. exact Hv.
  - unfold apply_typmod. rewrite (proj2 (Z.ltb_ge _ _)) by lia. fold p s v. cbn zeta.
    pose proof (round_cut_spec s v Hok) as HR. set (v' := round_cut (s + weight v + 1) v) in *.
    pose proof HR as (Hok' & _ & Hlow & _). rewrite (overflow_spec s (p - s) v') by (done || lia).
    rewrite <- (precision_test s (p - s) v') by (done || lia).
    pose proof (rounded_value s v v' Ok Hs0 HR) as Hv.
    assert (Qle_bool (inject_Z (10 ^ (p - s))) (Qabs r) = Qle_bool (inject_Z (10 ^ (p - s))) (Qabs (numval v'))) as ->
      by (unfold r; change (num_value n) with (numval v); by rewrite Hv).
    case_match; [done|]. destruct (rounded_stored s v v' Ok ltac:(lia) (proj1 Hr) HR) as [RO Hst].
    cbn [mbind result_bind]. eexists. split; [done|]. split_and!; [apply RO|apply (res_rscale _ _ RO)|].
    exact Hst.
Qed.

(** 99.50 as numeric(3,1), which holds it, and as numeric(2,0), where it rounds
    up to 100 and overflows. *)
Lemma numeric_typmod_witness :
  (exists m, numeric (Some n99_50) (4 + 3 * 65536 + 1) = Ok (Some m) /\ n_rscale m = 1 /\ (num_value m == 995 # 10)%Q)
  /\ numeric (Some n99_50) (4 + 2 * 65536 + 0) = Err "overflow on numeric".
Proof.
  split.
  - pose proof (numeric_typmod n99_50 (4 + 3 * 65536 + 1) n99_50_ok ltac:(by split) ltac:(done) ltac:(done) ltac:(done)) as H.
    destruct H as (m & E & _ & Hr & Hv). exists m. split_and!; [exact E|exact Hr|]. rewrite Hv. reflexivity.
  - exact (numeric_typmod n99_50 (4 + 2 * 65536 + 0) n99_50_ok ltac:(by split) ltac:(done) ltac:(done) ltac:(done)).
Defined.

(** ** The stored form is unique *)

Lemma last_nonzero ds : strip_trailing ds = ds -> ds <> [] -> aget 0 ds (Zlen ds - 1) <> 0.
Proof.
  intros Hs Hne. assert (trailing ds (length ds) = length ds) as Ht.
  { apply (f_equal length) in Hs. unfold strip_trailing in Hs. rewrite length_take in Hs.
    pose proof (trailing_le ds (length ds)). lia. }
  pose proof (trailing_last ds (length ds)) as Hl. rewrite Ht in Hl. apply Hl. destruct ds; [done|cbn [length]; lia].
Qed.

Lemma digits_inj ds ds' : strip_trailing ds = ds -> strip_trailing ds' = ds' ->
  (forall i, aget 0 ds i = aget 0 ds' i) -> ds = ds'.
Proof.
  assert (forall l l', strip_trailing l = l -> (forall i, aget 0 l i = aget 0 l' i) -> (length l <= length l')%nat) as Hlen.
  { intros l l' Hs H. destruct (decide (l = [])) as [->|Hne]; [cbn [length]; lia|].
    destruct (le_lt_dec (length l) (length l')) as [|L]; [done|exfalso].
    apply (last_nonzero l Hs Hne). rewrite H. apply aget_out. lia. }
  intros Hs Hs' H. assert (length ds = length ds') as Hl by (apply Nat.le_antisymm; apply Hlen; auto).
  apply list_eq. intros i. specialize (H (Z.of_nat i)). unfold aget in H.
  destruct (Z.ltb_spec (Z.of_nat i) 0); [lia|]. rewrite Nat2Z.id in H.
  destruct (decide (i < length ds)%nat) as [Hi|Hi].
  - destruct (lookup_lt_is_Some_2 ds i Hi) as [x Hx], (lookup_lt_is_Some_2 ds' i ltac:(lia)) as [y Hy].
    rewrite Hx, Hy in *. cbn in H. by f_equal.
  - by rewrite !lookup_ge_None_2 by lia.
Qed.

Lemma num_ok_digits n : num_ok n -> exists ds, strip_trailing ds = ds /\ stripped ds
  /\ n_data n = pack_digits ds /\ (ds = [] -> n_weight n = 0 /\ NUMERIC_SIGN n = NUMERIC_POS)
  /\ forall p, dig (set_var_from_num n) p = aget 0 ds (n_weight n - p).
Proof.
  intros Hn. destruct (num_digits _ Hn) as (ds & Hok & Htr & Hst & Hd & Hz). exists ds. split_and!; try done.
  intros p. destruct (unpack_pack ds Hok) as [_ J]. unfold dig. cbn [set_var_from_num digits weight].
  rewrite take_ge by (rewrite (num_varlen _ Hn); lia). by rewrite Hd, J.
Qed.

Lemma sign_dscale_join x : 0 <= x < 2 ^ 16 ->
  x = Z.lor (Z.land x NUMERIC_SIGN_MASK) (Z.land x NUMERIC_DSCALE_MASK).
Proof.
  intros Hx. rewrite <- Z.land_lor_distr_r. change (Z.lor NUMERIC_SIGN_MASK NUMERIC_DSCALE_MASK) with (Z.ones 16).
  rewrite Z.land_ones by lia. by rewrite Z.mod_small.
Qed.

Lemma num_ok_inj n m : num_ok n -> num_ok m -> (forall p, dig (set_var_from_num n) p = dig (set_var_from_num m) p) ->
  n_rscale n = n_rscale m -> NUMERIC_DSCALE n = NUMERIC_DSCALE m ->
  NUMERIC_SIGN n = NUMERIC_SIGN m \/ (forall p, dig (set_var_from_num n) p = 0) -> n = m.
Proof.
  intros Hn Hm Hdig Hr Hds Hsg.
  destruct (num_ok_digits n Hn) as (ds & Htr & Hst & Hd & Hz & Hp).
  destruct (num_ok_digits m Hm) as (ds' & Htr' & Hst' & Hd' & Hz' & Hp').
  assert (forall l w, stripped l -> (forall p, aget 0 l (w - p) = 0) -> l = []) as Hnil.
  { intros l w [|Hne] Hall; [done|]. destruct Hne. specialize (Hall w). by rewrite Z.sub_diag in Hall. }
  assert (ds = ds' /\ n_weight n = n_weight m /\ NUMERIC_SIGN n = NUMERIC_SIGN m) as (-> & Hw & Hs).
  { destruct (decide (ds = [])) as [->|Hne].
    - assert (ds' = []) as ->. { apply (Hnil ds' (n_weight m)); [done|]. intros p. rewrite <- Hp', <- Hdig, Hp. apply aget_out. cbn. lia. }
      destruct (Hz eq_refl) as [-> ->], (Hz' eq_refl) as [-> ->]. done.
    - assert (ds' <> []) as Hne'.
      { intros ->. apply Hne, (Hnil ds (n_weight n)); [done|]. intros p. rewrite <- Hp, Hdig, Hp'. apply aget_out. cbn. lia. }
      destruct Hst as [|Hst]; [done|]. destruct Hst' as [|Hst']; [done|].
      assert (n_weight n = n_weight m) as Hw.
      { destruct (Z.lt_trichotomy (n_weight n) (n_weight m)) as [L|[|L]]; [exfalso|done|exfalso].
        - apply Hst'. replace 0 with (n_weight m - n_weight m) at 2 by lia. rewrite <- Hp', <- Hdig, Hp. apply aget_out. lia.
        - apply Hst. replace 0 with (n_weight n - n_weight n) at 2 by lia. rewrite <- Hp, Hdig, Hp'. apply aget_out. lia. }
      split_and!; [|done|].
      + apply digits_inj; [done|done|]. intros i. replace i with (n_weight n - (n_weight n - i)) by lia.
        rewrite <- Hp, Hdig, Hp'. f_equal. lia.
      + destruct Hsg as [|H0]; [done|]. exfalso. apply Hst. replace 0 with (n_weight n - n_weight n) at 2 by lia.
        by rewrite <- Hp, H0. }
  assert (n_sign_dscale n = n_sign_dscale m) as Hsd.
  { rewrite (sign_dscale_join _ (num_sign_dscale _ Hn)), (sign_dscale_join _ (num_sign_dscale _ Hm)).
    unfold NUMERIC_SIGN, NUMERIC_DSCALE in *. by rewrite Hs, Hds. }
  pose proof (num_varlen _ Hn). pose proof (num_varlen _ Hm). rewrite Hd in *. rewrite Hd' in *.
  destruct n, m. cbn in *. subst. done.
Qed.

(** ** Text *)

(** The digits from position [i] down. *)
Fixpoint dlist (f : Z -> Z) (i : Z) (n : nat) : list Z :=
  match n with O => [] | S n => f i :: dlist f (i - 1) n end.

Lemma emit_spec n i w ds f : (forall p, p <= i -> f p = aget 0 ds (Z.min i w - p)) ->
  (emit n i w ds).1 = map (fun d => d + 48) (dlist f i n)
  /\ forall p, p <= i - Z.of_nat n -> f p = aget 0 (emit n i w ds).2 (Z.min (i - Z.of_nat n) w - p).
Proof.
  revert i ds. induction n as [|n IH]; intros i ds H.
  { split; [done|]. intros p Hp. cbn [emit snd]. change (Z.of_nat 0) with 0 in *. rewrite Z.sub_0_r in *. by apply H. }
  cbn [emit dlist map]. assert (forall ds', (forall p, p <= i - 1 -> f p = aget 0 ds' (Z.min (i - 1) w - p)) ->
    (emit n (i - 1) w ds').1 = map (fun d => d + 48) (dlist f (i - 1) n)
    /\ forall p, p <= i - Z.of_nat (S n) -> f p = aget 0 (emit n (i - 1) w ds').2 (Z.min (i - Z.of_nat (S n)) w - p)) as IH'.
  { intros ds' H'. destruct (IH (i - 1) ds' H') as [E1 E2]. split; [done|]. intros p Hp. rewrite E2 by lia. do 3 f_equal. lia. }
  clear IH. pose proof (H i ltac:(lia)) as Hi. destruct ds as [|d ds].
  - destruct (IH' []) as [E1 E2]; [intros p Hp; rewrite H by lia; by rewrite !aget_out by (cbn [length]; lia)|].
    destruct (emit n (i - 1) w []) as [s rest]. cbn [fst snd] in *. rewrite aget_out in Hi by (cbn [length]; lia).
    rewrite Hi. split; [by f_equal|done].
  - destruct (Z.leb_spec i w).
    + destruct (IH' ds) as [E1 E2].
      { intros p Hp. rewrite H by lia. rewrite !Z.min_l by lia. unfold aget.
        destruct (Z.ltb_spec (i - p) 0), (Z.ltb_spec (i - 1 - p) 0); try lia.
        by replace (Z.to_nat (i - p)) with (S (Z.to_nat (i - 1 - p))) by lia. }
      destruct (emit n (i - 1) w ds) as [s rest]. cbn [fst snd] in *. rewrite Z.min_l, Z.sub_diag in Hi by lia.
      change (aget 0 (d :: ds) 0) with d in Hi. rewrite Hi. split; [by f_equal|done].
    + destruct (IH' (d :: ds)) as [E1 E2].
      { intros p Hp. rewrite H by lia. f_equal. lia. }
      destruct (emit n (i - 1) w (d :: ds)) as [s rest]. cbn [fst snd] in *. rewrite aget_out in Hi by lia.
      rewrite Hi. split; [by f_equal|done].
Qed.

Lemma dlist_length f i n : length (dlist f i n) = n.
Proof. revert i. induction n as [|n IH]; intros; cbn [dlist length]; auto. Qed.

Lemma dlist_app f i n m : dlist f i (n + m) = dlist f i n ++ dlist f (i - Z.of_nat n) m.
Proof.
  revert i. induction n as [|n IH]; intros i; cbn [dlist Nat.add app]; [by rewrite Z.sub_0_r|].
  rewrite IH. do 3 f_equal. lia.
Qed.

Lemma dlist_aget f i n j : 0 <= j < Z.of_nat n -> aget 0 (dlist f i n) j = f (i - j).
Proof.
  revert i j. induction n as [|n IH]; intros i j Hj; [lia|]. cbn [dlist]. destruct (decide (j = 0)) as [->|].
  - by rewrite Z.sub_0_r.
  - specialize (IH (i - 1) (j - 1) ltac:(lia)). unfold aget in *.
    destruct (Z.ltb_spec j 0), (Z.ltb_spec (j - 1) 0); try lia.
    replace (Z.to_nat j) with (S (Z.to_nat (j - 1))) by lia.
    change (default 0 (dlist f (i - 1) n !! Z.to_nat (j - 1)) = f (i - j)). rewrite IH. f_equal. lia.
Qed.

Lemma dlist_ok f i n : (forall p, 0 <= f p <= 9) -> Forall digit_ok (dlist f i n).
Proof. intros H. revert i. induction n as [|n IH]; intros; cbn [dlist]; constructor; auto. Qed.

(** The digit loop reads back a run of digits. *)
Lemma digit_loop_run l (dp : bool) ds w dsc rest : Forall digit_ok l ->
  digit_loop (map (fun d => d + 48) l ++ rest) dp ds w dsc
  = digit_loop rest dp (ds ++ l) (if dp then w else w + Zlen l) (if dp then dsc + Zlen l else dsc).
Proof.
  revert ds w dsc. induction l as [|d l IH]; intros ds w dsc Hok; cbn [map app].
  { rewrite app_nil_r. cbn [length]. change (Z.of_nat 0) with 0. rewrite !Z.add_0_r. by destruct dp. }
  inversion Hok; subst. cbn [digit_loop].
  assert (isdigit (d + 48) = true) as -> by (unfold isdigit; apply andb_true_iff; rewrite !Z.leb_le; lia).
  replace (d + 48 - 48) with d by lia. cbn [length].
  destruct dp; cbn [negb]; rewrite IH by done; rewrite <- app_assoc; cbn [app]; f_equal; lia.
Qed.

(** What [get_str_from_var] prints for a number with nothing below the display
    scale, [W + 1] digits before the point. *)
Definition text (neg : bool) (f : Z -> Z) (W s : Z) : list Z :=
  (if neg then [45] else []) ++ map (fun d => d + 48) (dlist f W (Z.to_nat (W + 1)))
  ++ (if 0 <? s then 46 :: map (fun d => d + 48) (dlist f (-1) (Z.to_nat s)) else []).

Lemma round_cut_exact s v : (forall p, p < - s -> dig v p = 0) ->
  let v' := round_cut (s + weight v + 1) v in
  weight v' = weight v /\ sign v' = sign v /\ forall p, dig v' p = dig v p.
Proof.
  intros Hlow. cbn zeta. set (i := s + weight v + 1). assert (round_cut i v = set_ndigits (Z.max 0 (Z.min i (ndigits v))) v) as ->.
  { unfold round_cut. destruct ((0 <=? i) && (i <? ndigits v)) eqn:E; [|done]. bool_cases.
    unfold round_up. assert (aget 0 (digits v) i = 0) as ->.
    { replace i with (weight v - (weight v - i)) by lia. apply Hlow. lia. }
    change (4 <? 0) with false. cbn iota. unfold set_ndigits. replace (Z.max 0 (Z.min i (ndigits v))) with i by lia.
    destruct (Z.to_nat i); done. }
  split_and!; try done. intros p. unfold dig. cbn [set_ndigits digits weight]. rewrite aget_take.
  case_match; [done|]. bool_cases. symmetry. unfold ndigits in *.
  destruct (Z.le_gt_cases (Zlen (digits v)) (weight v - p)); [apply aget_out; lia|apply Hlow; lia].
Qed.

Lemma get_str_rounded v s : let v' := round_cut (s + weight v + 1) v in
  get_str_from_var v s = text (sign v' =? NUMERIC_NEG) (dig v') (Z.max (weight v') 0) s.
Proof.
  intros v'. unfold get_str_from_var, text. fold v'. set (W := Z.max (weight v') 0).
  destruct (emit_spec (Z.to_nat (W + 1)) W (weight v') (digits v') (dig v')) as [E1 E2].
  { intros p Hp. unfold dig. f_equal. lia. }
  destruct (emit (Z.to_nat (W + 1)) W (weight v') (digits v')) as [int_part rest]. cbn [fst snd] in *. rewrite E1.
  do 2 f_equal. case_match; [|done]. do 2 f_equal. apply emit_spec. intros p Hp. rewrite E2 by lia. f_equal. lia.
Qed.

(** Parsing that text gives the digits back. *)
Lemma set_var_text neg f W s : (forall p, 0 <= f p <= 9) -> 0 <= W -> 0 <= s ->
  exists u, set_var_from_str (text neg f W s) = Ok u /\ Forall digit_ok (digits u)
  /\ sign u = (if neg then NUMERIC_NEG else NUMERIC_POS) /\ rscale u = s /\ dscale u = s
  /\ forall p, dig u p = if (- s <=? p) && (p <=? W) then f p else 0.
Proof.
  intros Hf HW Hs. set (L := dlist f W (Z.to_nat (W + 1)) ++ dlist f (-1) (Z.to_nat s)).
  assert (Forall digit_ok L) as HL by (apply Forall_app; split; by apply dlist_ok).
  assert (L = dlist f W (Z.to_nat (W + 1) + Z.to_nat s)) as HLd.
  { unfold L. rewrite dlist_app. do 2 f_equal. lia. }
  set (body := map (fun d => d + 48) (dlist f W (Z.to_nat (W + 1)))
    ++ (if 0 <? s then 46 :: map (fun d => d + 48) (dlist f (-1) (Z.to_nat s)) else [])).
  assert (digit_loop body false [] (-1) 0 = Some (L, W, s, [])) as Hloop.
  { unfold body. rewrite digit_loop_run by by apply dlist_ok. rewrite dlist_length. cbn iota. rewrite app_nil_l.
    replace (-1 + Z.of_nat (Z.to_nat (W + 1))) with W by lia. destruct (Z.ltb_spec 0 s).
    - cbn [digit_loop]. change (isdigit 46) with false. change (46 =? 46) with true. cbn iota.
      rewrite <- (app_nil_r (map _ _)), digit_loop_run by by apply dlist_ok. rewrite dlist_length. cbn [digit_loop].
      do 3 f_equal. lia.
    - assert (s = 0) as -> by lia. unfold L. cbn [digit_loop]. by rewrite app_nil_r. }
  assert (exists d t, body = d + 48 :: t /\ 0 <= d <= 9) as (d & t & Hb & Hd).
  { exists (f W). unfold body. destruct (Z.to_nat (W + 1)) as [|m] eqn:E; [lia|]. by eexists. }
  exists (let '(ds, w) := strip_leading L W in
          mkVar (if Zlen ds =? 0 then 0 else w) s s (if neg then NUMERIC_NEG else NUMERIC_POS) ds).
  pose proof (strip_leading_digits L W) as Hsd. pose proof (strip_leading_Forall digit_ok L W HL) as Hsf.
  split_and!.
  - unfold text. fold body. unfold set_var_from_str.
    assert (skip_spaces ((if neg then [45] else []) ++ body) = (if neg then [45] else []) ++ body) as ->.
    { destruct neg; [done|]. rewrite Hb. cbn [app skip_spaces]. unfold isspace.
      rewrite (proj2 (Z.eqb_neq _ _)), (proj2 (Z.leb_gt (d + 48) 13)), andb_false_r by lia. done. }
    assert (match (if neg then [45] else []) ++ body with
            | c :: t => if c =? 43 then (NUMERIC_POS, t) else if c =? 45 then (NUMERIC_NEG, t) else (NUMERIC_POS, (if neg then [45] else []) ++ body)
            | [] => (NUMERIC_POS, [])
            end = (if neg then NUMERIC_NEG else NUMERIC_POS, body)) as ->.
    { destruct neg; [done|]. rewrite Hb. cbn [app]. by rewrite !(proj2 (Z.eqb_neq _ _)) by lia. }
    rewrite Hb. rewrite (proj2 (Z.eqb_neq (d + 48) 46)) by lia.
    assert (isdigit (d + 48) = true) as -> by (unfold isdigit; apply andb_true_iff; rewrite !Z.leb_le; lia).
    rewrite <- Hb, Hloop. cbn [exponent_part skip_spaces]. by destruct (strip_leading L W).
  - by destruct (strip_leading L W).
  - by destruct (strip_leading L W).
  - by destruct (strip_leading L W).
  - by destruct (strip_leading L W).
  - intros p. specialize (Hsd p). destruct (strip_leading L W) as [ds w]. cbn [fst snd] in *. unfold dig. cbn [digits weight].
    transitivity (aget 0 L (W - p)).
    + rewrite <- Hsd. destruct (Z.eqb_spec (Zlen ds) 0); [by rewrite !aget_out by lia|done].
    + rewrite HLd. destruct (Z.leb_spec (- s) p), (Z.leb_spec p W); cbn [andb];
        try (apply aget_out; rewrite dlist_length; lia).
      rewrite dlist_aget by lia. f_equal. lia.
Qed.

Lemma numeric_in_text neg f W s : (forall p, 0 <= f p <= 9) -> 0 <= W -> 0 <= s ->
  exists u, numeric_in (Some (text neg f W s)) (-1) = Ok (Some (make_result u)) /\ Forall digit_ok (digits u)
  /\ sign u = (if neg then NUMERIC_NEG else NUMERIC_POS) /\ rscale u = s /\ dscale u = s
  /\ forall p, dig u p = if (- s <=? p) && (p <=? W) then f p else 0.
Proof.
  intros Hf HW Hs. destruct (set_var_text neg f W s Hf HW Hs) as (u & Hu & H). exists u. split; [|exact H].
  unfold numeric_in. rewrite !bool_decide_false.
  2,3: unfold text, str_NULL, str_NaN; destruct neg; [done|]; assert (exists k, Z.to_nat (W + 1) = S k) as [k Hk]
    by (exists (Z.to_nat W); lia); rewrite Hk; cbn [dlist map app]; pose proof (Hf W); intros E; injection E; lia.
  rewrite Hu. unfold apply_typmod. by change (-1 <? VARHDRSZ) with true.
Qed.

(** What is read back has the digits of the number that was printed, rounded at its
    display scale. *)
Lemma text_read n : num_ok n -> let s := NUMERIC_DSCALE n in let v := set_var_from_num n in
  let v' := round_cut (s + weight v + 1) v in
  exists u, numeric_in (Some (numeric_out (Some n))) (-1) = Ok (Some (make_result u)) /\ var_ok u
  /\ sign u = sign v /\ rscale u = s /\ dscale u = s /\ 0 <= s < 2 ^ 14 /\ rounded s v v' /\ forall p, dig u p = dig v' p.
Proof.
  intros Hn s v v'. destruct (num_unpacked n Hn) as (Ok & _ & _ & Nan). fold v in Ok.
  assert (0 <= s < 2 ^ 14) as Hs14.
  { unfold s, NUMERIC_DSCALE. change NUMERIC_DSCALE_MASK with (Z.ones 14). rewrite Z.land_ones by lia. by apply Z.mod_pos_bound. }
  pose proof (round_cut_spec s v (ok_digits _ Ok)) as HR. fold v' in HR. pose proof HR as (Hok & Hsg & Hlow & _ & _).
  unfold numeric_out. rewrite Nan. fold v. change (dscale v) with s. rewrite (get_str_rounded v s). fold v'.
  destruct (numeric_in_text (sign v' =? NUMERIC_NEG) (dig v') (Z.max (weight v') 0) s) as (u & Hu & Hok' & Hsu & Hr & Hd & Hdig);
    [intros p; by apply dig_bound|lia|lia|]. exists u.
  assert (forall p, dig u p = dig v' p) as Hsame.
  { intros p. rewrite Hdig. destruct (Z.leb_spec (- s) p), (Z.leb_spec p (Z.max (weight v') 0)); cbn [andb]; try done; symmetry;
      try (apply Hlow; lia). apply aget_out. lia. }
  assert (sign u = sign v) as Hs' by (rewrite Hsu, Hsg; by destruct (ok_sign _ Ok) as [-> | ->]).
  split_and!; try done; try lia. constructor; [done|rewrite Hs'; apply Ok|rewrite Hr; lia|]. rewrite Hr. intros p Hp. rewrite Hsame. by apply Hlow.
Qed.

(** C32: a stored number survives its text.  The string that [numeric_out] prints for it
    is read back by [numeric_in] as exactly the same stored value, when its display scale
    is its result scale, as it is for every value that was read in or stored in a
    column; any other stored number whose weight leaves room for a carry, like the result of a
    division, is read back as a well-formed number at its display scale, whose value is the
    stored one rounded half away from zero at that scale. *)
Theorem numeric_text_roundtrip n : num_ok n -> let s := NUMERIC_DSCALE n in
  (s = n_rscale n -> numeric_in (Some (numeric_out (Some n))) (-1) = Ok (Some n)) /\
  (n_weight n < 2 ^ 15 - 1 -> exists m, numeric_in (Some (numeric_out (Some n))) (-1) = Ok (Some m) /\ num_ok m /\
     n_rscale m = s /\ NUMERIC_DSCALE m = s /\ (num_value m == NumericDiv.round_at s (num_value n))%Q).
Proof.
  intros Hn s. destruct (num_unpacked n Hn) as (Ok & _). set (v := set_var_from_num n) in *.
  destruct (text_read n Hn) as (u & -> & Oku & Hsg & Hr & Hd & Hs & HR & Hdig). fold s v in HR, Hdig, Hr, Hd, Hs.
  pose proof (num_weight _ Hn) as Hw. split.
  - intros Hds. assert (forall p, p < - s -> dig v p = 0) as Hlow by (rewrite Hds; apply (ok_scale _ Ok)).
    destruct (round_cut_exact s v Hlow) as (_ & _ & He). do 2 f_equal.
    assert (result_ok u (make_result u)) as RO.
    { apply make_result_spec; [done|lia|]. intros p Hp. rewrite Hdig, He. apply aget_out. cbn [v set_var_from_num weight]. lia. }
    apply num_ok_inj; [apply RO|done|intros p; by rewrite (res_digits _ _ RO), Hdig, He| | |].
    + by rewrite (res_rscale _ _ RO), Hr.
    + rewrite (res_dscale _ _ RO), Hd. apply Z.mod_small. lia.
    + destruct (res_sign _ _ RO) as [->|[_ Hz]]; [left|right; intros p; by rewrite (res_digits _ _ RO)]. by rewrite Hsg.
  - intros Hroom. assert (result_ok u (make_result u)) as RO.
    { apply make_result_spec; [done|lia|]. intros p Hp. rewrite Hdig. apply HR. change (weight v) with (n_weight n). lia. }
    eexists. split; [done|]. split_and!; [apply RO|by rewrite (res_rscale _ _ RO)|rewrite (res_dscale _ _ RO), Hd; apply Z.mod_small; lia|].
    rewrite (result_value _ _ RO). etransitivity; [|exact (rounded_value s v _ Ok ltac:(lia) HR)]. apply numval_ext; [|apply Hdig].
    rewrite Hsg. symmetry. apply HR.
Qed.

(** 2 divided by 3, with 34 digits of which 10 are displayed. *)
Definition n2_3 : NumericData := make_result (mkVar (-1) 34 10 NUMERIC_POS (replicate 33 6 ++ [7])).

Lemma n2_3_ok : num_ok n2_3.
Proof.
  apply make_result_spec.
  - constructor; [repeat constructor; lia|by left|done|]. intros p Hp. cbn in Hp. apply aget_out. cbn. lia.
  - done.
  - intros p Hp. apply aget_out. cbn. lia.
Qed.

Lemma numeric_text_roundtrip_witness :
  (numeric_out (Some n_7_5) = [45; 55; 46; 53] /\ numeric_in (Some [45; 55; 46; 53]) (-1) = Ok (Some n_7_5)) /\
  exists m, numeric_in (Some (numeric_out (Some n2_3))) (-1) = Ok (Some m) /\ (num_value m == 6666666667 # 10000000000)%Q.
Proof.
  split; [split; [reflexivity|exact (proj1 (numeric_text_roundtrip n_7_5 n_7_5_ok) eq_refl)]|].
  destruct (numeric_text_roundtrip n2_3 n2_3_ok) as [_ H]. destruct H as (m & E & _ & _ & _ & Hv); [vm_compute; reflexivity|].
  exists m. split; [exact E|]. rewrite Hv. vm_compute. reflexivity.
Defined.

(** A negative number that rounds to zero when it is printed keeps its minus
    sign. *)
Theorem numeric_out_negative_zero :
  numeric_out (Some (make_result (mkVar (-1) 1 0 NUMERIC_NEG [4]))) = [45; 48].
Proof. reflexivity. Qed.

End NumericIO.
