(* ===== verification/Nbtcompare.v ===== *)
(** * Comparison functions of B-tree indexes ([access/nbtree/nbtcompare.c])

    Each function compares two data of a type; a B-tree relies on the sign of the
    result being a total preorder, which is the interface [OrderProc].  A datum is
    a word or the bytes it points to ([Heaptuple.Datum]). *)

From S2P Require Import Prelude.
From S2P Require Import Varlena.
From S2P Require Import Heaptuple.

Module Nbtcompare.
Import Varlena Heaptuple.

(** What [nbtree.h] requires of a support function: negative, zero or positive for
    less, equal or greater. *)
Class OrderProc {A} (f : A -> A -> Z) : Prop := {
  proc_antisym : forall a b, f a b < 0 <-> 0 < f b a;
  proc_trans : forall a b c, f a b <= 0 -> f b c <= 0 -> f a c <= 0 }.

Definition INDEX_MAX_KEYS : Z := 9.
Definition NAMEDATALEN : Z := 64.

Definition i16 (z : Z) : Z := swrap 16 z.
Definition DatumGetInt16 (d : Datum) : Z := i16 (DatumWord d).
Definition DatumGetInt32 (d : Datum) : Z := i32 (DatumWord d).
Definition DatumGetObjectId (d : Datum) : Z := u64 (DatumWord d).
Definition DatumGetUInt8 (d : Datum) : Z := u8 (DatumWord d).
(** A 64-bit integer is passed by reference. *)
Definition DatumGetInt64 (d : Datum) : Z := i64 (le_val (take 8 (DatumGetPointer d))).

(** ** The functions *)

Definition btint2cmp (a b : Datum) : Z := i32 (DatumGetInt16 a - DatumGetInt16 b).

(** The bytes in reverse order; the [or] of unsigned terms assigned to an [int]. *)
Definition flip (a : Z) : Z :=
  let a := u32 a in
  i32 (Z.lor (Z.lor (Z.lor (u32 (Z.shiftl (Z.land a 0x000000ff) 24)) (u32 (Z.shiftl (Z.land a 0x0000ff00) 8)))
               (Z.shiftr (Z.land a 0x00ff0000) 8)) (Z.shiftr (Z.land a 0xff000000) 24)).

Definition three_way (x y : Z) : Z := if x >? y then 1 else if x =? y then 0 else -1.

Definition btconnectorcmp (a b : Datum) : Z := three_way (flip (DatumGetInt32 a)) (flip (DatumGetInt32 b)).
Definition btint4cmp (a b : Datum) : Z := three_way (DatumGetInt32 a) (DatumGetInt32 b).
Definition btint8cmp (a b : Datum) : Z := three_way (DatumGetInt64 a) (DatumGetInt64 b).
Definition btoidcmp (a b : Datum) : Z := three_way (DatumGetObjectId a) (DatumGetObjectId b).

Definition btint24cmp (a b : Datum) : Z := i32 (DatumGetInt16 a - DatumGetInt32 b).
Definition btint42cmp (a b : Datum) : Z := i32 (DatumGetInt32 a - DatumGetInt16 b).

Definition btcharcmp (a b : Datum) : Z := i32 (DatumGetUInt8 a - DatumGetUInt8 b).
Definition btboolcmp (a b : Datum) : Z := i32 (DatumGetUInt8 a - DatumGetUInt8 b).

(** Element [i] of a vector of object ids, through [int4eq] and [int4gt]. *)
Definition oid_at (p : list Z) (i : Z) : Z := i32 (le_val (take 8 (drop (Z.to_nat (8 * i)) p))).
Fixpoint oidvector_loop (n : nat) (i : Z) (a b : list Z) : Z :=
  match n with
  | O => 0
  | S n => if negb (oid_at a i =? oid_at b i) then if oid_at a i >? oid_at b i then 1 else -1
           else oidvector_loop n (i + 1) a b
  end.
Definition btoidvectorcmp (a b : Datum) : Z :=
  oidvector_loop (Z.to_nat INDEX_MAX_KEYS) 0 (DatumGetPointer a) (DatumGetPointer b).

(** [strncmp]: the first difference, looked for up to a common terminator. *)
Fixpoint strncmp (n : nat) (a b : list Z) : Z :=
  match n with
  | O => 0
  | S n => let x := u8 (aget 0 a 0) in let y := u8 (aget 0 b 0) in
           if negb (x =? y) then x - y else if x =? 0 then 0 else strncmp n (drop 1 a) (drop 1 b)
  end.
Definition btnamecmp (a b : Datum) : Z :=
  strncmp (Z.to_nat NAMEDATALEN) (DatumGetPointer a) (DatumGetPointer b).

(** [do res = *ap++ - *bp++; len--; while (res == 0 && len != 0)]. *)
Fixpoint text_loop (len : nat) (ap bp : list Z) : Z :=
  match len with
  | O => 0
  | S len => let res := u8 (aget 0 ap 0) - u8 (aget 0 bp 0) in
             if negb (res =? 0) then res else text_loop len (drop 1 ap) (drop 1 bp)
  end.
Definition bttextcmp (a b : Datum) : Z :=
  let a := DatumGetPointer a in
  let b := DatumGetPointer b in
  let len := if VARSIZE a >? VARSIZE b then VARSIZE b else VARSIZE a in
  let len := len - VARHDRSZ in
  let res := if len >? 0 then text_loop (Z.to_nat len) (VARDATA a) (VARDATA b) else 0 in
  if negb (res =? 0) || (VARSIZE a =? VARSIZE b) then res
  else if VARSIZE a <? VARSIZE b then -1 else 1.

(** ** They are orders *)

Lemma swrap_range w z : 0 < w -> - 2 ^ (w - 1) <= swrap w z < 2 ^ (w - 1).
Proof.
  intros Hw. unfold swrap. pose proof (Z.mod_pos_bound z (2 ^ w)) as Hm.
  assert (2 ^ w = 2 * 2 ^ (w - 1)) as E by (rewrite <- Z.pow_succ_r by lia; f_equal; lia).
  assert (0 < 2 ^ (w - 1)) by (apply Z.pow_pos_nonneg; lia).
  case_match; bool_cases; lia.
Qed.

(** A comparison by a numeric key. *)
Lemma order_three_way {A} (k : A -> Z) : OrderProc (fun a b => three_way (k a) (k b)).
Proof.
  unfold three_way. split; intros *; repeat case_match; rewrite ?Z.gtb_lt in *; bool_cases; lia.
Qed.

Lemma order_difference {A} (k : A -> Z) : OrderProc (fun a b => k a - k b).
Proof. split; intros *; lia. Qed.

Lemma order_ext {A} (f g : A -> A -> Z) : (forall a b, f a b = g a b) -> OrderProc g -> OrderProc f.
Proof.
  intros E [H1 H2]. split; [intros a b; rewrite !E; apply H1|intros a b c; rewrite !E; apply H2].
Qed.

(** Comparing through another type. *)
Lemma order_map {A B} (h : B -> A) f : OrderProc f -> OrderProc (fun a b => f (h a) (h b)).
Proof. intros [H1 H2]. split; intros *; [apply H1|apply H2]. Qed.

(** First by one order, then, between equals, by another. *)
Definition lex {A} (f g : A -> A -> Z) (a b : A) : Z := if negb (f a b =? 0) then f a b else g a b.
Lemma order_lex {A} (f g : A -> A -> Z) : OrderProc f ->
  (forall a b, f a b = 0 -> (g a b < 0 <-> 0 < g b a)) ->
  (forall a b c, f a b = 0 -> f b c = 0 -> g a b <= 0 -> g b c <= 0 -> g a c <= 0) ->
  OrderProc (lex f g).
Proof.
  intros [H1 H2] G1 G2. assert (forall a b, f a b = 0 -> f b a = 0) as Hs.
  { intros a b E. pose proof (H1 a b). pose proof (H1 b a). lia. }
  unfold lex. split.
  - intros a b. pose proof (H1 a b). pose proof (H1 b a). pose proof (G1 a b).
    destruct (Z.eqb_spec (f a b) 0), (Z.eqb_spec (f b a) 0); simpl; lia || auto.
  - intros a b c. pose proof (H2 a b c). pose proof (H2 b c a). pose proof (H2 c a b).
    pose proof (H1 a b). pose proof (H1 b c). pose proof (H1 a c). pose proof (H1 c a). pose proof (H1 c b).
    pose proof (H1 b a).
    destruct (Z.eqb_spec (f a b) 0), (Z.eqb_spec (f b c) 0), (Z.eqb_spec (f a c) 0); simpl; try lia.
    by apply G2.
Qed.

Lemma u8_range z : 0 <= u8 z < 2 ^ 8.
Proof. by apply Z.mod_pos_bound. Qed.

#[export] Instance btint4cmp_order : OrderProc btint4cmp := order_three_way _.
#[export] Instance btint8cmp_order : OrderProc btint8cmp := order_three_way _.
#[export] Instance btoidcmp_order : OrderProc btoidcmp := order_three_way _.
#[export] Instance btconnectorcmp_order : OrderProc btconnectorcmp :=
  order_three_way (fun a => flip (DatumGetInt32 a)).
#[export] Instance btint2cmp_order : OrderProc btint2cmp.
Proof.
  apply (order_ext _ (fun a b => DatumGetInt16 a - DatumGetInt16 b)), order_difference.
  intros a b. apply i32_id. unfold DatumGetInt16, i16.
  pose proof (swrap_range 16 (DatumWord a)). pose proof (swrap_range 16 (DatumWord b)). lia.
Qed.
#[export] Instance btcharcmp_order : OrderProc btcharcmp.
Proof.
  apply (order_ext _ (fun a b => DatumGetUInt8 a - DatumGetUInt8 b)), order_difference.
  intros a b. apply i32_id. unfold DatumGetUInt8.
  pose proof (u8_range (DatumWord a)). pose proof (u8_range (DatumWord b)). lia.
Qed.
#[export] Instance btboolcmp_order : OrderProc btboolcmp := btcharcmp_order.

(** Vectors and names compare position by position. *)
Lemma oidvector_loop_order n : forall i, OrderProc (oidvector_loop n i).
Proof.
  induction n as [|n IH]; intros i; [split; simpl; lia|].
  apply (order_ext _ (lex (fun a b => three_way (oid_at a i) (oid_at b i)) (oidvector_loop n (i + 1)))).
  - intros a b. unfold lex, three_way. simpl. rewrite Z.gtb_ltb. repeat case_match; bool_cases; lia || done.
  - apply order_lex; [apply order_three_way|intros; apply IH|intros a b c _ _; apply IH].
Qed.
#[export] Instance btoidvectorcmp_order : OrderProc btoidvectorcmp.
Proof. apply (order_map DatumGetPointer), oidvector_loop_order. Qed.

Lemma strncmp_order n : OrderProc (strncmp n).
Proof.
  induction n as [|n IH]; [split; simpl; lia|].
  set (hd (a : list Z) := u8 (aget 0 a 0)).
  apply (order_ext _ (lex (fun a b => hd a - hd b)
    (fun a b => if hd a =? 0 then 0 else strncmp n (drop 1 a) (drop 1 b)))).
  - intros a b. unfold lex. simpl. fold (hd a) (hd b). repeat case_match; bool_cases; lia || done.
  - apply order_lex; [apply order_difference| |].
    + intros a b E. replace (hd b) with (hd a) by lia. case_match; [lia|]. apply IH.
    + intros a b c E E'. replace (hd b) with (hd a) by lia. case_match; [done|]. apply IH.
Qed.
#[export] Instance btnamecmp_order : OrderProc btnamecmp.
Proof. apply (order_map DatumGetPointer), strncmp_order. Qed.

(** ** Texts compare like dictionaries *)

Fixpoint dictionary (a b : list Z) : Z :=
  match a, b with
  | [], [] => 0
  | [], _ => -1
  | _, [] => 1
  | x :: a, y :: b => if negb (x =? y) then x - y else dictionary a b
  end.

Lemma dictionary_order : OrderProc dictionary.
Proof.
  split.
  - intros a. induction a as [|x a IH]; intros [|y b]; simpl; try lia. specialize (IH b).
    destruct (Z.eqb_spec x y), (Z.eqb_spec y x); simpl; lia.
  - intros a. induction a as [|x a IH]; intros [|y b] [|z c]; simpl; try lia. specialize (IH b c).
    destruct (Z.eqb_spec x y), (Z.eqb_spec y z), (Z.eqb_spec x z); simpl; lia.
Qed.

Fixpoint bytes_of (n : nat) (l : list Z) : list Z :=
  match n with O => [] | S n => u8 (aget 0 l 0) :: bytes_of n (drop 1 l) end.

(** The characters of a text. *)
Definition text_bytes (p : list Z) : list Z := bytes_of (Z.to_nat (VARSIZE p - VARHDRSZ)) (VARDATA p).

Lemma dictionary_bytes n m a b :
  dictionary (bytes_of n a) (bytes_of m b) =
  (let res := text_loop (n `min` m) a b in
   if negb (res =? 0) then res else three_way (Z.of_nat n) (Z.of_nat m)).
Proof.
  revert m a b. induction n as [|n IH]; intros [|m] a b; simpl; [done| | |].
  - unfold three_way. rewrite Z.gtb_ltb. repeat case_match; bool_cases; lia || done.
  - unfold three_way. rewrite Z.gtb_ltb. repeat case_match; bool_cases; lia || done.
  - rewrite IH. cbn zeta.
    destruct (Z.eqb_spec (u8 (aget 0 a 0)) (u8 (aget 0 b 0))) as [E|E]; simpl.
    + rewrite E, Z.sub_diag. simpl. destruct (negb _); [done|].
      unfold three_way. rewrite !Z.gtb_ltb. repeat case_match; bool_cases; lia || done.
    + destruct (Z.eqb_spec (u8 (aget 0 a 0) - u8 (aget 0 b 0)) 0); simpl; [lia|].
      by destruct (Z.eqb_spec (u8 (aget 0 a 0) - u8 (aget 0 b 0)) 0); simpl; [lia|].
Qed.

Lemma bttextcmp_lex a b : bttextcmp a b =
  lex (fun a b => dictionary (text_bytes a) (text_bytes b)) (fun a b => three_way (VARSIZE a) (VARSIZE b))
    (DatumGetPointer a) (DatumGetPointer b).
Proof.
  unfold bttextcmp, lex, text_bytes. rewrite dictionary_bytes.
  set (p := DatumGetPointer a). set (q := DatumGetPointer b).
  set (len := (if VARSIZE p >? VARSIZE q then VARSIZE q else VARSIZE p) - VARHDRSZ).
  assert ((Z.to_nat (VARSIZE p - VARHDRSZ) `min` Z.to_nat (VARSIZE q - VARHDRSZ))%nat = Z.to_nat len) as ->.
  { unfold len. rewrite Z.gtb_ltb. case_match; bool_cases; lia. }
  assert ((if len >? 0 then text_loop (Z.to_nat len) (VARDATA p) (VARDATA q) else 0) =
    text_loop (Z.to_nat len) (VARDATA p) (VARDATA q)) as ->.
  { rewrite Z.gtb_ltb. case_match; bool_cases; [done|]. by replace (Z.to_nat len) with 0%nat by lia. }
  set (res := text_loop _ _ _). cbn zeta. unfold three_way. rewrite !Z.gtb_ltb.
  destruct (Z.eqb_spec res 0) as [E|E]; simpl; [|by destruct (Z.eqb_spec res 0)].
  repeat case_match; bool_cases; lia || done.
Qed.

#[export] Instance bttextcmp_order : OrderProc bttextcmp.
Proof.
  eapply order_ext; [exact bttextcmp_lex|]. apply (order_map DatumGetPointer), order_lex.
  - apply (order_map text_bytes), dictionary_order.
  - intros a b _. apply (order_three_way VARSIZE).
  - intros a b c _ _. apply (order_three_way VARSIZE).
Qed.

(** ** Properties *)

(** The support functions of the index are total preorders, texts in
    dictionary order of their bytes.  The mixed integer comparisons are not:
    their 32-bit difference overflows. *)
Theorem bttextcmp_dictionary a b : VARHDRSZ <= VARSIZE a -> VARHDRSZ <= VARSIZE b ->
  bttextcmp (Ptr a) (Ptr b) = dictionary (text_bytes a) (text_bytes b).
Proof.
  intros Ha Hb. rewrite bttextcmp_lex. unfold lex. simpl.
  destruct (Z.eqb_spec (dictionary (text_bytes a) (text_bytes b)) 0) as [E|]; [|done]. simpl. rewrite E.
  unfold text_bytes in E. rewrite dictionary_bytes in E. cbn zeta in E. unfold three_way in *.
  rewrite !Z.gtb_ltb in *. repeat case_match; bool_cases; lia || done.
Qed.

Theorem btint24cmp_overflows :
  let two := Val 2 in let low := Val (- 2 ^ 31) in
  DatumGetInt32 low < DatumGetInt16 two /\ btint24cmp two low < 0 /\ btint42cmp low two > 0.
Proof. vm_compute. split_and!; done. Qed.

End Nbtcompare.
