(* ===== verification/Nbtree.v ===== *)
(** * B-tree pages ([access/nbtree], [include/access/nbtree.h])

    One page of a B-tree: its opaque data, its items, the comparison of a scan
    key with an item, the binary search, adding an item, choosing a split point
    and splitting.  [NbtTree] links pages into a tree.

    A page is the list of its line pointers, all in use: the length kept in the
    line pointer and the item.  Section [Layout] relates such a page to the
    bytes of [Bufpage].  An item is an index tuple: where it points to, its
    [t_info] and the attributes of its key.  The support functions that compare
    two data are fields of the scan key ([Nbtcompare]). *)

From S2P Require Import Prelude.
From S2P Require Import Bufpage.
From S2P Require Import Heaptuple.
From S2P Require Import Nbtcompare.
From Stdlib Require Import Sorting.Sorted.

Module Nbtree.
Import Heaptuple Nbtcompare.

(** ** Data *)

Definition InvalidBlockNumber : Z := 0x0000FFFFFFFFFFFF.
Definition P_NONE : Z := 0.
Definition BTREE_METAPAGE : Z := 0.

Record BTPageOpaqueData := mkOpaque {
  btpo_prev : Z;
  btpo_next : Z;
  btpo_parent : Z;
  btpo_flags : Z }.

Definition BTP_LEAF : Z := 1.
Definition BTP_ROOT : Z := 2.
Definition BTP_FREE : Z := 4.
Definition BTP_META : Z := 8.
Definition BTP_REORDER : Z := 16.
Definition BTP_SPLIT : Z := 32.
Definition BTP_REAPED : Z := 64.

Definition P_LEFTMOST (op : BTPageOpaqueData) : bool := btpo_prev op =? P_NONE.
Definition P_RIGHTMOST (op : BTPageOpaqueData) : bool := btpo_next op =? P_NONE.
Definition P_ISLEAF (op : BTPageOpaqueData) : bool := btpo_flags op .& BTP_LEAF.
Definition P_ISROOT (op : BTPageOpaqueData) : bool := btpo_flags op .& BTP_ROOT.
Definition P_ISREAPED (op : BTPageOpaqueData) : bool := btpo_flags op .& BTP_REAPED.
Definition P_ISFREE (op : BTPageOpaqueData) : bool := btpo_flags op .& BTP_FREE.
Definition BTreeInvalidParent (op : BTPageOpaqueData) : bool :=
  (btpo_parent op =? InvalidBlockNumber) || (btpo_parent op =? BTREE_METAPAGE).

Definition P_HIKEY : Z := 1.
Definition P_FIRSTKEY : Z := 2.
Definition P_FIRSTDATAKEY (op : BTPageOpaqueData) : Z := if P_RIGHTMOST op then P_HIKEY else P_FIRSTKEY.

(** [sizeof] of the structs: three 8-byte block numbers and 2 bytes of flags; an
    8-byte pointer and 2 bytes of [t_info]; the header with one line pointer. *)
Definition sizeof_BTPageOpaqueData : Z := 32.
Definition sizeof_BTItemData : Z := 16.
Definition sizeof_PageHeaderData : Z := linp_offset + sizeof_ItemIdData.

Record BTItem := mkBTItem {
  t_blkno : Z;
  t_posid : Z;
  t_info : Z;
  t_key : list (option Datum) }.

Definition IndexTupleDSize (it : BTItem) : Z := Z.land (t_info it) 0x1FFF.

(** [index_getattr]: the datum and whether it is null. *)
Definition index_getattr (it : BTItem) (attno : Z) : Datum * bool :=
  match aget None (t_key it) (attno - 1) with Some d => (d, false) | None => (Val 0, true) end.

Definition ItemPointerSet (it : BTItem) (blk off : Z) : BTItem := mkBTItem blk off (t_info it) (t_key it).

Definition BTItemSame (i1 i2 : BTItem) : bool := (t_blkno i1 =? t_blkno i2) && (t_posid i1 =? t_posid i2).

(** A page: the length in each line pointer and the item it points to. *)
Record BTPage := mkBTPage {
  opaque : BTPageOpaqueData;
  lines : list (Z * BTItem) }.

Definition set_opaque (p : BTPage) (op : BTPageOpaqueData) : BTPage := mkBTPage op (lines p).
Definition set_lines (p : BTPage) (l : list (Z * BTItem)) : BTPage := mkBTPage (opaque p) l.

Definition null_item : BTItem := mkBTItem 0 0 0 [].

(** [PageGetItem(page, PageGetItemId(page, offnum))] and [ItemIdGetLength]. *)
Definition PageGetItem (p : BTPage) (offnum : Z) : BTItem := (aget (0, null_item) (lines p) (offnum - 1)).2.
Definition ItemIdGetLength (p : BTPage) (offnum : Z) : Z := (aget (0, null_item) (lines p) (offnum - 1)).1.
Definition PageGetMaxOffsetNumber (p : BTPage) : Z := Zlen (lines p).

(** The space a line takes with its line pointer, and what is left of the page. *)
Definition line_space (l : Z * BTItem) : Z := MAXALIGN l.1 + sizeof_ItemIdData.
Fixpoint lines_space (l : list (Z * BTItem)) : Z :=
  match l with [] => 0 | x :: l => line_space x + lines_space l end.
Definition page_room : Z := BLCKSZ - linp_offset - MAXALIGN sizeof_BTPageOpaqueData.
Definition page_free (p : BTPage) : Z := page_room - lines_space (lines p).

Definition PageGetFreeSpace (p : BTPage) : Z :=
  if page_free p <? sizeof_ItemIdData then 0 else page_free p - sizeof_ItemIdData.

(** [PageAddItem] at an offset between 1 and one past the last, in shuffle mode. *)
Definition PageAddItem (p : BTPage) (it : BTItem) (size offnum : Z) : option BTPage :=
  if line_space (size, it) <=? page_free p
  then Some (set_lines p (take (Z.to_nat (offnum - 1)) (lines p) ++ (size, it) :: drop (Z.to_nat (offnum - 1)) (lines p)))
  else None.

Definition BTMaxItemSize : Z :=
  (BLCKSZ - sizeof_PageHeaderData - MAXALIGN sizeof_BTPageOpaqueData) / 3 - sizeof_ItemIdData.

(** [_bt_pageinit] *)
Definition _bt_pageinit : BTPage := mkBTPage (mkOpaque 0 0 InvalidBlockNumber 0) [].

Definition _bt_empty (p : BTPage) : bool := P_FIRSTDATAKEY (opaque p) >? PageGetMaxOffsetNumber p.

(** ** Scan keys *)

Definition SK_ISNULL : Z := 1.

Record ScanKeyData := mkScanKey {
  sk_flags : Z;
  sk_attno : Z;
  sk_func : Datum -> Datum -> Z;
  sk_argument : Datum }.

(** The loop of [_bt_mkscankey]: [procs] are the support functions of the index
    from attribute [i + 1] on. *)
Fixpoint mkscankey_loop (i : Z) (procs : list (Datum -> Datum -> Z)) (itup : BTItem) : list ScanKeyData :=
  match procs with
  | [] => []
  | proc :: procs =>
      let '(arg, null) := index_getattr itup (i + 1) in
      mkScanKey (if null : bool then SK_ISNULL else 0) (i + 1) proc arg :: mkscankey_loop (i + 1) procs itup
  end.

Definition _bt_mkscankey (procs : list (Datum -> Datum -> Z)) (itup : BTItem) : list ScanKeyData :=
  mkscankey_loop 0 procs itup.

(** One round of the loop of [_bt_compare]. *)
Definition compare_attr (entry : ScanKeyData) (itup : BTItem) : Z :=
  let '(datum, isNull) := index_getattr itup (sk_attno entry) in
  if sk_flags entry .& SK_ISNULL then if isNull : bool then 0 else 1
  else if isNull : bool then -1
  else sk_func entry (sk_argument entry) datum.

Fixpoint compare_loop (scankey : list ScanKeyData) (itup : BTItem) : Z :=
  match scankey with
  | [] => 0
  | entry :: rest =>
      let result := compare_attr entry itup in
      if negb (result =? 0) then result else compare_loop rest itup
  end.

Definition _bt_compare (keysz : Z) (scankey : list ScanKeyData) (p : BTPage) (offnum : Z) : Z :=
  if negb (P_ISLEAF (opaque p)) && (offnum =? P_FIRSTDATAKEY (opaque p)) then 1
  else compare_loop (take (Z.to_nat keysz) scankey) (PageGetItem p offnum).

(** [_bt_isequal]: as [_bt_compare], but nulls are equal to nothing. *)
Fixpoint isequal_loop (scankey : list ScanKeyData) (itup : BTItem) : bool :=
  match scankey with
  | [] => true
  | entry :: rest =>
      let '(datum, isNull) := index_getattr itup (sk_attno entry) in
      if (sk_flags entry .& SK_ISNULL) || isNull then false
      else if negb (sk_func entry (sk_argument entry) datum =? 0) then false
      else isequal_loop rest itup
  end.

Definition _bt_isequal (p : BTPage) (offnum keysz : Z) (scankey : list ScanKeyData) : bool :=
  isequal_loop (take (Z.to_nat keysz) scankey) (PageGetItem p offnum).

(** ** Binary search *)

(** [while (high > low)]; every round at least halves [high - low]. *)
Fixpoint binsrch_loop (fuel : nat) (cmp : Z -> Z) (low high : Z) : Z :=
  match fuel with
  | O => low
  | S fuel =>
      if high >? low then
        let mid := u16 (low + (high - low) / 2) in
        if cmp mid >? 0 then binsrch_loop fuel cmp (u16 (mid + 1)) high
        else binsrch_loop fuel cmp low mid
      else low
  end.

Definition OffsetNumberPrev (o : Z) : Z := u16 (-1 + o).

(** The fuel is the number of slots: one round looks at one slot and drops it. *)
Definition _bt_binsrch (p : BTPage) (keysz : Z) (scankey : list ScanKeyData) : Z :=
  let low := P_FIRSTDATAKEY (opaque p) in
  let high := PageGetMaxOffsetNumber p in
  if high <? low then low
  else
    let low := binsrch_loop (S (Z.to_nat high)) (_bt_compare keysz scankey p) low (u16 (high + 1)) in
    if P_ISLEAF (opaque p) then low else OffsetNumberPrev low.

(** [_bt_getoff]: the first item of the page that points to a block. *)
Fixpoint getoff_loop (n : nat) (offnum : Z) (p : BTPage) (blkno : Z) : Z :=
  match n with
  | O => InvalidOffsetNumber
  | S n => if t_blkno (PageGetItem p offnum) =? blkno then offnum else getoff_loop n (offnum + 1) p blkno
  end.

Definition _bt_getoff (p : BTPage) (blkno : Z) : Z :=
  let first := P_FIRSTDATAKEY (opaque p) in
  getoff_loop (Z.to_nat (PageGetMaxOffsetNumber p - first + 1)) first p blkno.

(** ** Adding an item *)

(** The first data item of an inner page is stripped down to its header. *)
Definition strip_item (it : BTItem) : BTItem := mkBTItem (t_blkno it) (t_posid it) sizeof_BTItemData [].

Definition _bt_pgaddtup (p : BTPage) (itemsize : Z) (btitem : BTItem) (itup_off : Z) : result BTPage :=
  let '(itemsize, btitem) :=
    if negb (P_ISLEAF (opaque p)) && (itup_off =? P_FIRSTDATAKEY (opaque p))
    then (sizeof_BTItemData, strip_item btitem) else (itemsize, btitem) in
  match PageAddItem p btitem itemsize itup_off with
  | Some p => Ok p
  | None => Err "btree: failed to add item"
  end.

(** ** The split point *)

Record FindSplitData := mkFindSplit {
  fs_newitemsz : Z;
  is_leaf : bool;
  is_rightmost : bool;
  have_split : bool;
  newitemonleft : bool;
  firstright : Z;
  best_delta : Z }.

Definition _bt_checksplitloc (st : FindSplitData) (fr leftfree rightfree : Z) (onleft : bool)
    (firstrightitemsz : Z) : FindSplitData :=
  let leftfree := if onleft then leftfree - fs_newitemsz st else leftfree in
  let rightfree := if onleft then rightfree else rightfree - fs_newitemsz st in
  let rightfree :=
    if negb (is_leaf st)
    then rightfree + (firstrightitemsz - (MAXALIGN sizeof_BTItemData + sizeof_ItemIdData))
    else rightfree in
  if (leftfree >=? 0) && (rightfree >=? 0) then
    let delta := if is_rightmost st then 2 * leftfree - rightfree else leftfree - rightfree in
    let delta := if delta <? 0 then - delta else delta in
    if negb (have_split st) || (delta <? best_delta st)
    then mkFindSplit (fs_newitemsz st) (is_leaf st) (is_rightmost st) true onleft fr delta
    else st
  else st.

(** The space of a page after fixed overhead, as [_bt_findsplitloc] counts it. *)
Definition split_space : Z := BLCKSZ - sizeof_PageHeaderData - MAXALIGN sizeof_BTPageOpaqueData.

(** The scan over the data items; [todo] are the lines from [offnum] on. *)
Fixpoint findsplit_loop (todo : list (Z * BTItem)) (offnum dataitemstoleft newitemoff rightspace
    dataitemtotal : Z) (st : FindSplitData) : FindSplitData :=
  match todo with
  | [] => st
  | l :: todo =>
      let itemsz := line_space l in
      let leftfree := split_space - dataitemstoleft - itemsz in
      let rightfree := rightspace - (dataitemtotal - dataitemstoleft) in
      let st :=
        if offnum >? newitemoff then _bt_checksplitloc st offnum leftfree rightfree true itemsz
        else if offnum <? newitemoff then _bt_checksplitloc st offnum leftfree rightfree false itemsz
        else
          let st := _bt_checksplitloc st offnum leftfree rightfree true itemsz in
          _bt_checksplitloc st offnum leftfree rightfree false (fs_newitemsz st) in
      if have_split st && (best_delta st <=? split_space / 16) then st
      else findsplit_loop todo (offnum + 1) (dataitemstoleft + itemsz) newitemoff rightspace dataitemtotal st
  end.

(** The first item of the right page and whether the new item goes to the left. *)
Definition _bt_findsplitloc (p : BTPage) (newitemoff newitemsz : Z) : result (Z * bool) :=
  let op := opaque p in
  let newitemsz := newitemsz + sizeof_ItemIdData in
  let st := mkFindSplit newitemsz (P_ISLEAF op) (P_RIGHTMOST op) false false 0 0 in
  let rightspace :=
    if negb (P_RIGHTMOST op)
    then split_space - (MAXALIGN (ItemIdGetLength p P_HIKEY) + sizeof_ItemIdData) else split_space in
  let dataitemtotal := rightspace - PageGetFreeSpace p in
  let first := P_FIRSTDATAKEY op in
  let st := findsplit_loop (drop (Z.to_nat (first - 1)) (lines p)) first 0 newitemoff rightspace dataitemtotal st in
  if negb (have_split st) then Err "_bt_findsplitloc: can't find a feasible split point"
  else Ok (firstright st, newitemonleft st).

(** ** Splitting *)

(** The two pages being filled, the next offset of each, and where the new item
    went: its block and offset. *)
Record SplitState := mkSplit {
  leftpage : BTPage;
  rightpage : BTPage;
  leftoff : Z;
  rightoff : Z;
  itup_loc : option (Z * Z) }.

Definition add_left (st : SplitState) (sz : Z) (it : BTItem) : result SplitState :=
  q ← _bt_pgaddtup (leftpage st) sz it (leftoff st);
  Ok (mkSplit q (rightpage st) (OffsetNumberNext (leftoff st)) (rightoff st) (itup_loc st)).
Definition add_right (st : SplitState) (sz : Z) (it : BTItem) : result SplitState :=
  q ← _bt_pgaddtup (rightpage st) sz it (rightoff st);
  Ok (mkSplit (leftpage st) q (leftoff st) (OffsetNumberNext (rightoff st)) (itup_loc st)).
Definition set_itup (st : SplitState) (loc : Z * Z) : SplitState :=
  mkSplit (leftpage st) (rightpage st) (leftoff st) (rightoff st) (Some loc).

(** The new item goes to the page it was assigned to. *)
Definition add_new (buf rbuf : Z) (onleft : bool) (newitemsz : Z) (newitem : BTItem) (st : SplitState)
    : result SplitState :=
  if onleft then add_left (set_itup st (buf, leftoff st)) newitemsz newitem
  else add_right (set_itup st (rbuf, rightoff st)) newitemsz newitem.

(** The transfer of the items, [i] the offset of the first of [todo]; at the end,
    the case of a new item behind the last. *)
Fixpoint split_loop (buf rbuf : Z) (todo : list (Z * BTItem)) (i fr newitemoff : Z) (onleft : bool)
    (newitemsz : Z) (newitem : BTItem) (st : SplitState) : result SplitState :=
  match todo with
  | [] => if i <=? newitemoff then add_new buf rbuf onleft newitemsz newitem st else Ok st
  | (itemsz, item) :: todo =>
      st ← (if i =? newitemoff then add_new buf rbuf onleft newitemsz newitem st else Ok st);
      st ← (if i <? fr then add_left st itemsz item else add_right st itemsz item);
      split_loop buf rbuf todo (i + 1) fr newitemoff onleft newitemsz newitem st
  end.

Definition add_hikey (p : BTPage) (sz : Z) (it : BTItem) (where_ : string) : result BTPage :=
  match PageAddItem p it sz P_HIKEY with Some p => Ok p | None => Err where_ end.

(** [_bt_split] on the page of block [buf], the new page being block [rbuf]: the
    two halves and the location of the new item.  (The previous pointer of the
    right neighbour is [NbtTree]'s.)  What other threads could meet meanwhile, the page
    marked [BTP_SPLIT] with an invalid parent and its lock released, is left out: one
    thread at a time works on the index. *)
Definition _bt_split (p : BTPage) (buf rbuf fr newitemoff newitemsz : Z) (newitem : BTItem)
    (onleft : bool) : result (BTPage * BTPage * option (Z * Z)) :=
  let oop := opaque p in
  let flags := Z.land (btpo_flags oop) (Z.lnot BTP_ROOT) in
  let lpage := set_opaque _bt_pageinit (mkOpaque (btpo_prev oop) rbuf (btpo_parent oop) flags) in
  let rpage := set_opaque _bt_pageinit (mkOpaque buf (btpo_next oop) (btpo_parent oop) flags) in
  r ← (if negb (P_RIGHTMOST oop) then
         q ← add_hikey rpage (ItemIdGetLength p P_HIKEY) (PageGetItem p P_HIKEY)
               "btree: failed to add hikey to the right sibling";
         Ok (q, OffsetNumberNext P_HIKEY)
       else Ok (rpage, P_HIKEY));
  let '(rpage, rightoff) := r in
  let '(itemsz, item) :=
    if negb onleft && (newitemoff =? fr) then (newitemsz, newitem)
    else (ItemIdGetLength p fr, PageGetItem p fr) in
  lpage ← add_hikey lpage itemsz item "btree: failed to add hikey to the left sibling";
  let first := P_FIRSTDATAKEY oop in
  st ← split_loop buf rbuf (drop (Z.to_nat (first - 1)) (lines p)) first fr newitemoff onleft newitemsz newitem
         (mkSplit lpage rpage (OffsetNumberNext P_HIKEY) rightoff None);
  Ok (leftpage st, rightpage st, itup_loc st).

(** ** The order of keys *)

(** Two attributes: a null is above every value and equal to a null. *)
Definition attr_cmp (f : Datum -> Datum -> Z) (x y : option Datum) : Z :=
  match x, y with
  | None, None => 0
  | None, Some _ => 1
  | Some _, None => -1
  | Some a, Some b => f a b
  end.

(** Two keys, attribute by attribute from [i] on. *)
Fixpoint key_cmp (i : Z) (procs : list (Datum -> Datum -> Z)) (k1 k2 : list (option Datum)) : Z :=
  match procs with
  | [] => 0
  | f :: procs => lex (fun x y => attr_cmp f (aget None x i) (aget None y i)) (key_cmp (i + 1) procs) k1 k2
  end.

Lemma attr_cmp_order f : OrderProc f -> OrderProc (attr_cmp f).
Proof.
  intros [H1 H2]. split.
  - intros [a|] [b|]; simpl; try lia. apply H1.
  - intros [a|] [b|] [c|]; simpl; try lia. apply H2.
Qed.

Lemma key_cmp_order procs : Forall OrderProc procs -> forall i, OrderProc (key_cmp i procs).
Proof.
  induction 1 as [|f procs Hf _ IH]; intros i; [split; simpl; lia|].
  apply order_lex.
  - apply (order_map (fun k => aget None k i)). by apply attr_cmp_order.
  - intros a b _. apply IH.
  - intros a b c _ _. apply IH.
Qed.

(** Comparing an item's scan key with an item compares their keys. *)
Lemma compare_attr_key f i it it' :
  compare_attr (let '(arg, null) := index_getattr it (i + 1) in
                mkScanKey (if null : bool then SK_ISNULL else 0) (i + 1) f arg) it' =
  attr_cmp f (aget None (t_key it) i) (aget None (t_key it') i).
Proof.
  unfold compare_attr, index_getattr. rewrite Z.add_simpl_r.
  destruct (aget None (t_key it) i); simpl; rewrite Z.add_simpl_r; by destruct (aget None (t_key it') i).
Qed.

Lemma compare_loop_key procs : forall i it it',
  compare_loop (mkscankey_loop i procs it) it' = key_cmp i procs (t_key it) (t_key it').
Proof.
  induction procs as [|f procs IH]; intros i it it'; [done|]. simpl. unfold lex.
  pose proof (compare_attr_key f i it it') as E. destruct (index_getattr it (i + 1)) as [arg null].
  simpl. rewrite E, IH. done.
Qed.

(** ** Binary search *)

Lemma binsrch_loop_spec cmp fuel : forall low high,
  0 <= low <= high -> high < 2 ^ 16 -> high - low < Z.of_nat fuel ->
  (forall i j, low <= i <= j -> j < high -> 0 < cmp j -> 0 < cmp i) ->
  let r := binsrch_loop fuel cmp low high in
  low <= r <= high /\ (forall i, low <= i < r -> 0 < cmp i) /\ (forall i, r <= i < high -> cmp i <= 0).
Proof.
  induction fuel as [|fuel IH]; intros low high Hl Hh Hf Hm; [lia|].
  cbn [binsrch_loop]. cbn zeta. rewrite Z.gtb_ltb.
  destruct (Z.ltb_spec low high); [|split_and!; intros; lia].
  set (m := low + (high - low) / 2).
  assert (low <= m < high) as Hmid by (unfold m; pose proof (Z.div_lt (high - low) 2);
    pose proof (Z.div_pos (high - low) 2); lia).
  rewrite (u16_id m) by lia. rewrite Z.gtb_ltb. destruct (Z.ltb_spec 0 (cmp m)).
  - rewrite u16_id by lia. destruct (IH (m + 1) high) as (R1 & R2 & R3); [lia|lia|lia| |].
    { intros i j Hi Hj. apply Hm; lia. }
    split_and!; [lia|lia| |done]. intros i Hi. destruct (Z.le_gt_cases i m); [by apply (Hm i m); lia|].
    apply R2. lia.
  - destruct (IH low m) as (R1 & R2 & R3); [lia|lia|lia| |].
    { intros i j Hi Hj. apply Hm; lia. }
    split_and!; [lia|lia|done|]. intros i Hi. destruct (Z.lt_ge_cases i m); [apply R3; lia|].
    destruct (Z.lt_ge_cases 0 (cmp i)); [|done]. assert (0 < cmp m); [|lia]. by apply (Hm m i); lia.
Qed.

(** The data items of the page are in order, as far as this scan key can tell. *)
Definition sorted_for (p : BTPage) (keysz : Z) (sk : list ScanKeyData) : Prop :=
  forall i j, P_FIRSTDATAKEY (opaque p) <= i <= j -> j <= PageGetMaxOffsetNumber p ->
    0 < _bt_compare keysz sk p j -> 0 < _bt_compare keysz sk p i.

Lemma first_data_cases op : P_FIRSTDATAKEY op = 1 \/ P_FIRSTDATAKEY op = 2.
Proof. unfold P_FIRSTDATAKEY. case_match; auto. Qed.

Lemma binsrch_split p keysz sk : PageGetMaxOffsetNumber p < 2 ^ 16 - 1 -> sorted_for p keysz sk ->
  P_FIRSTDATAKEY (opaque p) <= PageGetMaxOffsetNumber p ->
  exists r, _bt_binsrch p keysz sk = (if P_ISLEAF (opaque p) then r else r - 1) /\
  P_FIRSTDATAKEY (opaque p) <= r <= PageGetMaxOffsetNumber p + 1 /\
  (forall i, P_FIRSTDATAKEY (opaque p) <= i < r -> 0 < _bt_compare keysz sk p i) /\
  (forall i, r <= i <= PageGetMaxOffsetNumber p -> _bt_compare keysz sk p i <= 0).
Proof.
  intros Hmax Hs Hne. unfold _bt_binsrch. pose proof (first_data_cases (opaque p)) as Hf.
  destruct (Z.ltb_spec (PageGetMaxOffsetNumber p) (P_FIRSTDATAKEY (opaque p))); [lia|].
  rewrite u16_id by lia.
  destruct (binsrch_loop_spec (_bt_compare keysz sk p) (S (Z.to_nat (PageGetMaxOffsetNumber p)))
    (P_FIRSTDATAKEY (opaque p)) (PageGetMaxOffsetNumber p + 1)) as (R1 & R2 & R3); [lia|lia|lia| |].
  { intros i j Hi Hj. apply Hs; lia. }
  eexists. split; [|split_and!; [| |exact R2|]].
  - destruct (P_ISLEAF (opaque p)); [done|]. unfold OffsetNumberPrev. rewrite u16_id by lia. lia.
  - apply R1.
  - apply R1.
  - intros i Hi. apply R3. lia.
Qed.

(** ** The split point *)

(** What [_bt_insertonpg] admits: an aligned length, a header at least, a third of
    a page at most. *)
Definition line_ok (l : Z * BTItem) : Prop := (8 | l.1) /\ sizeof_BTItemData <= l.1 <= BTMaxItemSize.

Lemma line_space_ok l : line_ok l -> line_space l = l.1 + 8 /\ 24 <= line_space l <= 2704.
Proof.
  intros [[k Hk] H]. change (16 <= l.1 <= 2701) in H. unfold line_space, sizeof_ItemIdData.
  rewrite MAXALIGN_aligned; [|lia|by exists k]. lia.
Qed.

Lemma lines_space_app a b : lines_space (a ++ b) = lines_space a + lines_space b.
Proof. induction a as [|x a IH]; [done|]. simpl. lia. Qed.

Lemma lines_space_pos l : Forall line_ok l -> 24 * Zlen l <= lines_space l.
Proof.
  induction 1 as [|x l Hx _ IH]; [done|]. pose proof (line_space_ok x Hx). cbn [lines_space length]. lia.
Qed.

Lemma lines_space_split k l : lines_space l = lines_space (take k l) + lines_space (drop k l).
Proof. by rewrite <- lines_space_app, take_drop. Qed.

Lemma lines_space_take_S k l x : l !! k = Some x ->
  lines_space (take (S k) l) = lines_space (take k l) + line_space x.
Proof. intros H. rewrite (take_S_r _ _ x H), lines_space_app. simpl. lia. Qed.

(** The first prefix that holds at least [n]. *)
Lemma lines_space_reach l n : Forall line_ok l -> 0 <= n <= lines_space l ->
  exists k, (k <= length l)%nat /\ n <= lines_space (take k l) < n + 2704.
Proof.
  intros Hl. revert n. induction Hl as [|x l Hx _ IH]; intros n Hn; simpl in Hn.
  - exists 0%nat. simpl. lia.
  - pose proof (line_space_ok x Hx). destruct (decide (n <= line_space x)) as [H0|H0].
    + destruct (decide (n = 0)) as [->|]; [exists 0%nat|exists 1%nat]; simpl; rewrite ?take_0; simpl; lia.
    + destruct (IH (n - line_space x)) as (k & Hk & Hs); [lia|]. exists (S k). simpl. lia.
Qed.

Section FindSplit.
Context (leaf rightmost : bool) (first newoff new rs T : Z) (data : list (Z * BTItem)).

(** The free space [_bt_checksplitloc] arrives at. *)
Definition left_ok (lf : Z) (onleft : bool) : bool := lf - (if onleft then new else 0) >=? 0.
Definition right_ok (rf : Z) (onleft : bool) (frsz : Z) : bool :=
  rf - (if onleft then 0 else new) + (if leaf then 0 else frsz - 24) >=? 0.

Record chosen (good : Z -> bool -> Prop) (st : FindSplitData) : Prop := {
  ch_new : fs_newitemsz st = new;
  ch_leaf : is_leaf st = leaf;
  ch_good : have_split st = true -> good (firstright st) (newitemonleft st) }.

Lemma checksplitloc_spec good st fr lf rf onleft frsz : chosen good st ->
  (left_ok lf onleft && right_ok rf onleft frsz = true -> good fr onleft) ->
  let st' := _bt_checksplitloc st fr lf rf onleft frsz in
  chosen good st' /\ have_split st' = have_split st || (left_ok lf onleft && right_ok rf onleft frsz).
Proof.
  intros [H1 H2 H3] Hg. unfold _bt_checksplitloc. rewrite H1, H2. cbn zeta.
  change (MAXALIGN sizeof_BTItemData + sizeof_ItemIdData) with 24.
  assert ((if onleft then lf - new else lf) = lf - (if onleft then new else 0)) as -> by (destruct onleft; lia).
  assert ((if negb leaf then (if onleft then rf else rf - new) + (frsz - 24) else
             (if onleft then rf else rf - new)) =
          rf - (if onleft then 0 else new) + (if leaf then 0 else frsz - 24)) as ->
    by (destruct onleft, leaf; simpl; lia).
  fold (left_ok lf onleft). fold (right_ok rf onleft frsz).
  destruct (left_ok lf onleft && right_ok rf onleft frsz); [|by rewrite orb_false_r].
  rewrite orb_true_r. destruct (negb (have_split st) || _) eqn:E.
  - split; [|done]. split; [done|done|]. intros _. by apply Hg.
  - split; [done|]. by destruct (have_split st).
Qed.

(** A split before data item [k] is feasible. *)
Definition split_at (k : nat) (onleft : bool) : Prop := exists x, data !! k = Some x /\
  (if onleft then newoff <= first + Z.of_nat k else first + Z.of_nat k <= newoff) /\
  left_ok (split_space - lines_space (take k data) - line_space x) onleft = true /\
  right_ok (rs - (T - lines_space (take k data))) onleft
    (if negb onleft && (newoff =? first + Z.of_nat k) then new else line_space x) = true.

Definition good_split (fr : Z) (onleft : bool) : Prop :=
  exists k, fr = first + Z.of_nat k /\ split_at k onleft.

Lemma findsplit_loop_spec todo : forall k st, drop k data = todo -> chosen good_split st ->
  let st' := findsplit_loop todo (first + Z.of_nat k) (lines_space (take k data)) newoff rs T st in
  chosen good_split st' /\
  (have_split st = true \/ (exists j onleft, (k <= j)%nat /\ split_at j onleft) -> have_split st' = true).
Proof.
  induction todo as [|l todo IH]; intros k st Hd Hst.
  - simpl. split; [done|]. intros [H|(j & onleft & Hj & x & Hx & _)]; [done|].
    apply lookup_lt_Some in Hx. assert (length (drop k data) = 0%nat) as H0 by by rewrite Hd.
    rewrite length_drop in H0. lia.
  - assert (data !! k = Some l) as Hl.
    { rewrite <- (Nat.add_0_r k), <- lookup_drop, Hd. done. }
    cbn [findsplit_loop]. cbn zeta. set (lf := split_space - _ - _). set (rf := rs - (T - _)).
    set (st1 := if _ >? newoff then _ else _).
    assert (chosen good_split st1 /\
      (have_split st = true \/ (exists onleft, split_at k onleft) -> have_split st1 = true)) as [Hc Hh].
    { assert (forall onleft, good_split (first + Z.of_nat k) onleft <-> split_at k onleft) as Hgs.
      { intros onleft. split; [|by exists k]. intros (k' & E & H). by replace k with k' by lia. }
      assert (forall onleft, split_at k onleft <->
        (if onleft then newoff <= first + Z.of_nat k else first + Z.of_nat k <= newoff) /\
        left_ok lf onleft && right_ok rf onleft
         (if negb onleft && (newoff =? first + Z.of_nat k) then new else line_space l) = true) as Hsa.
      { intros onleft. rewrite andb_true_iff. unfold split_at. rewrite Hl. fold lf rf. naive_solver. }
      unfold st1. rewrite Z.gtb_ltb.
      destruct (Z.ltb_spec newoff (first + Z.of_nat k)), (Z.ltb_spec (first + Z.of_nat k) newoff); try lia.
      - destruct (checksplitloc_spec good_split st (first + Z.of_nat k) lf rf true (line_space l)) as [C1 C2]; [done| |].
        { intros E. apply Hgs, Hsa. simpl. split; [lia|done]. }
        split; [done|]. rewrite C2. intros [->|[[] Hs]]; [done| |]; apply Hsa in Hs as [Ho Hs]; [|lia].
        simpl in Hs. by rewrite Hs, orb_true_r.
      - destruct (checksplitloc_spec good_split st (first + Z.of_nat k) lf rf false (line_space l)) as [C1 C2]; [done| |].
        { intros E. apply Hgs, Hsa. simpl. split; [lia|]. by destruct (Z.eqb_spec newoff (first + Z.of_nat k)); [lia|]. }
        split; [done|]. rewrite C2. intros [->|[[] Hs]]; [done| |]; apply Hsa in Hs as [Ho Hs]; [lia|].
        simpl in Hs. destruct (Z.eqb_spec newoff (first + Z.of_nat k)); [lia|]. by rewrite Hs, orb_true_r.
      - assert (newoff = first + Z.of_nat k) as En by lia.
        destruct (checksplitloc_spec good_split st (first + Z.of_nat k) lf rf true (line_space l)) as [C1 C2]; [done| |].
        { intros E. apply Hgs, Hsa. simpl. split; [lia|done]. }
        set (st2 := _bt_checksplitloc st _ _ _ true _) in *. rewrite (ch_new _ _ C1).
        destruct (checksplitloc_spec good_split st2 (first + Z.of_nat k) lf rf false new) as [D1 D2]; [done| |].
        { intros E. apply Hgs, Hsa. simpl. split; [lia|]. by destruct (Z.eqb_spec newoff (first + Z.of_nat k)); [|lia]. }
        split; [done|]. rewrite D2, C2. intros [->|[[] Hs]]; [done| |]; apply Hsa in Hs as [Ho Hs]; simpl in Hs.
        + by rewrite Hs, orb_true_r.
        + destruct (Z.eqb_spec newoff (first + Z.of_nat k)); [|lia]. by rewrite Hs, orb_true_r. }
    clearbody st1. destruct (have_split st1 && _) eqn:E.
    + apply andb_true_iff in E as [E _]. done.
    + replace (first + Z.of_nat k + 1) with (first + Z.of_nat (S k)) by lia.
      unfold lf. rewrite <- (lines_space_take_S k data l Hl).
      destruct (IH (S k) st1) as [I1 I2]; [|done|].
      { rewrite <- (Nat.add_1_r k), <- drop_drop, Hd. done. }
      split; [done|]. intros Hex. apply I2. destruct Hex as [H|(j & onleft & Hj & Hs)]; [left; auto|].
      destruct (decide (j = k)) as [->|]; [left; eauto|]. right. exists j, onleft. split; [lia|done].
Qed.
End FindSplit.
(** The data items of a page and the high key in front of them. *)
Definition data_lines (p : BTPage) : list (Z * BTItem) := drop (Z.to_nat (P_FIRSTDATAKEY (opaque p) - 1)) (lines p).
Definition hikey_lines (p : BTPage) : list (Z * BTItem) := take (Z.to_nat (P_FIRSTDATAKEY (opaque p) - 1)) (lines p).

(** A page that insertion keeps: admissible lines within the page, and a high key
    unless the page is rightmost. *)
Record page_ok (p : BTPage) : Prop := {
  po_lines : Forall line_ok (lines p);
  po_free : 0 <= page_free p;
  po_hikey : P_RIGHTMOST (opaque p) = false -> lines p <> [] }.

Lemma lines_hikey_data p : lines p = hikey_lines p ++ data_lines p.
Proof. symmetry. apply take_drop. Qed.

Lemma hikey_space p : page_ok p -> lines_space (hikey_lines p) =
  (if negb (P_RIGHTMOST (opaque p)) then MAXALIGN (ItemIdGetLength p P_HIKEY) + sizeof_ItemIdData else 0).
Proof.
  intros [_ _ Hh]. unfold hikey_lines, P_FIRSTDATAKEY. destruct (P_RIGHTMOST (opaque p)); [done|].
  unfold ItemIdGetLength, aget. simpl. destruct (lines p) as [|x l]; [by destruct (Hh eq_refl)|].
  simpl. unfold line_space. lia.
Qed.

Lemma data_lines_length p : page_ok p ->
  P_FIRSTDATAKEY (opaque p) - 1 + Zlen (data_lines p) = PageGetMaxOffsetNumber p.
Proof.
  intros Hp. pose proof (po_hikey p Hp) as H. unfold data_lines, PageGetMaxOffsetNumber, P_FIRSTDATAKEY.
  rewrite length_drop. destruct (P_RIGHTMOST (opaque p)); unfold P_HIKEY, P_FIRSTKEY; [lia|].
  specialize (H eq_refl). destruct (lines p); [done|]. cbn [length]. lia.
Qed.

Lemma page_ok_data p : page_ok p -> Forall line_ok (data_lines p) /\ Forall line_ok (hikey_lines p).
Proof. intros [H _ _]. split; [by apply Forall_drop|by apply Forall_take]. Qed.

Lemma hikey_lines_space p : page_ok p -> 0 <= lines_space (hikey_lines p) <= 2704.
Proof.
  intros Hp. destruct (page_ok_data p Hp) as [_ Hh]. unfold hikey_lines in *.
  assert (length (take (Z.to_nat (P_FIRSTDATAKEY (opaque p) - 1)) (lines p)) <= 1)%nat as Hl.
  { rewrite length_take. destruct (first_data_cases (opaque p)) as [-> | ->]; lia. }
  destruct Hh as [|x l Hx Hl']; [simpl; lia|]. pose proof (line_space_ok x Hx).
  destruct l; [simpl; lia|simpl in Hl; lia].
Qed.

Lemma lines_space_mod8 l : Forall line_ok l -> (8 | lines_space l).
Proof.
  induction 1 as [|x l Hx _ IH]; [by exists 0|]. simpl. apply Z.divide_add_r; [|done].
  rewrite (proj1 (line_space_ok x Hx)). destruct Hx as [Hx _]. apply Z.divide_add_r; [done|by exists 1].
Qed.

(** The space in use as [_bt_findsplitloc] reckons it: never more than there is
    room for, and exact unless not even a line pointer is left. *)
Lemma split_accounting p : page_ok p ->
  let h := lines_space (hikey_lines p) in let d := lines_space (data_lines p) in
  let t := split_space - h - PageGetFreeSpace p in
  h + d <= 8136 /\ (t = d \/ (t = d - 8 /\ h + d = 8136)) /\ t <= split_space - h.
Proof.
  intros Hp. pose proof (po_free p Hp) as H0. pose proof (lines_space_mod8 _ (po_lines p Hp)) as [m Hm].
  unfold PageGetFreeSpace, page_free in *. change page_room with 8136 in *. change split_space with 8128.
  change sizeof_ItemIdData with 8. rewrite (lines_hikey_data p), lines_space_app in *.
  case_match; bool_cases; lia.
Qed.

(** There is always a feasible split. *)
Lemma split_exists p newoff new :
  let leaf := P_ISLEAF (opaque p) in let first := P_FIRSTDATAKEY (opaque p) in
  let rs := split_space - lines_space (hikey_lines p) in
  page_ok p -> 24 <= new <= 2704 -> PageGetFreeSpace p < new - 8 ->
  first <= newoff <= PageGetMaxOffsetNumber p + 1 ->
  exists k onleft, split_at leaf first newoff new rs (rs - PageGetFreeSpace p) (data_lines p) k onleft.
Proof.
  intros leaf first rs Hp Hnew Hfree Hoff. pose proof (split_accounting p Hp) as (A1 & A2 & A3).
  destruct (page_ok_data p Hp) as [Hd _]. pose proof (hikey_lines_space p Hp) as Hh.
  pose proof (data_lines_length p Hp) as Hlen. fold first in Hlen.
  change split_space with 8128 in *. set (data := data_lines p) in *. set (h := lines_space (hikey_lines p)) in *.
  set (T := rs - PageGetFreeSpace p). fold rs in A2, A3. fold T in A2, A3.
  assert (rs = 8128 - h) as Ers by (subst rs; change split_space with 8128; lia).
  assert (forall k x, data !! k = Some x -> 24 <= line_space x <= 2704 /\ 0 <= lines_space (take k data) /\
    lines_space (take k data) + line_space x <= lines_space data) as Hx.
  { intros k x Hk. pose proof (line_space_ok x (Forall_lookup_1 _ _ _ _ Hd Hk)).
    pose proof (lines_space_pos _ (Forall_take _ k _ Hd)). pose proof (lines_space_split (S k) data) as Hs.
    rewrite (lines_space_take_S _ _ _ Hk) in Hs. pose proof (lines_space_pos _ (Forall_drop _ (S k) _ Hd)). lia. }
  assert (forall k x onleft, data !! k = Some x ->
    (if onleft : bool then newoff <= first + Z.of_nat k else first + Z.of_nat k <= newoff) ->
    lines_space (take k data) + line_space x + (if onleft : bool then new else 0) <= 8128 ->
    T - lines_space (take k data) + (if onleft : bool then 0 else new) <= rs ->
    split_at leaf first newoff new rs T data k onleft) as Hmk.
  { intros k x onleft Hk Ho Hl Hr. destruct (Hx k x Hk) as [Hsx _]. exists x. split; [done|]. split; [done|].
    unfold left_ok, right_ok. change split_space with 8128. rewrite !Z.geb_leb, !Z.leb_le.
    split; [destruct onleft; lia|]. destruct leaf, onleft; simpl; repeat case_match; lia. }
  set (q := Z.to_nat (newoff - first)). assert (newoff = first + Z.of_nat q) as Eq by lia.
  assert ((exists x, data !! q = Some x /\ lines_space (take q data) + line_space x + new <= 8128) \/
    new <= lines_space (take q data)) as [(x & Hk & Hl)|Hq].
  { destruct (data !! q) as [x|] eqn:Hk.
    - destruct (decide (lines_space (take q data) + line_space x + new <= 8128)); [left; eauto|].
      right. destruct (Hx q x Hk). lia.
    - right. apply lookup_ge_None_1 in Hk. rewrite take_ge by done. lia. }
  { exists q, true. destruct (Hx q x Hk). apply (Hmk q x); [done|lia|lia|lia]. }
  destruct (lines_space_reach (take q data) new) as (k & Hk & Hs); [by apply Forall_take|lia|].
  rewrite take_take in Hs. rewrite length_take in Hk. replace (k `min` q)%nat with k in Hs by lia.
  destruct (data !! k) as [x|] eqn:Ex.
  - exists k, false. destruct (Hx k x Ex). apply (Hmk k x); [done|lia|lia|lia].
  - apply lookup_ge_None_1 in Ex. rewrite take_ge in Hs by done.
    destruct (data !! (k - 1)%nat) as [x|] eqn:Ey.
    2:{ apply lookup_ge_None_1 in Ey. destruct data; simpl in *; lia. }
    exists (k - 1)%nat, false. destruct (Hx _ x Ey) as (X1 & X2 & X3).
    assert (lines_space (take (k - 1) data) + line_space x = lines_space data) as E.
    { rewrite <- (lines_space_take_S _ _ _ Ey). rewrite take_ge by lia. done. }
    apply (Hmk _ x); [done|lia|lia|lia].
Qed.

(** What the chosen split point promises. *)
Lemma findsplitloc_ok p newoff newitemsz :
  page_ok p -> (8 | newitemsz) -> sizeof_BTItemData <= newitemsz <= BTMaxItemSize ->
  PageGetFreeSpace p < newitemsz ->
  P_FIRSTDATAKEY (opaque p) <= newoff <= PageGetMaxOffsetNumber p + 1 ->
  let rs := split_space - lines_space (hikey_lines p) in
  exists k onleft, _bt_findsplitloc p newoff newitemsz = Ok (P_FIRSTDATAKEY (opaque p) + Z.of_nat k, onleft) /\
    split_at (P_ISLEAF (opaque p)) (P_FIRSTDATAKEY (opaque p)) newoff (newitemsz + 8) rs
      (rs - PageGetFreeSpace p) (data_lines p) k onleft.
Proof.
  intros Hp H8 Hsz Hfree Hoff rs. unfold _bt_findsplitloc.
  pose proof (hikey_space p Hp) as Hh. change sizeof_ItemIdData with 8 in *.
  assert ((if negb (P_RIGHTMOST (opaque p)) then split_space - (MAXALIGN (ItemIdGetLength p P_HIKEY) + 8)
           else split_space) = rs) as -> by (unfold rs; rewrite Hh; destruct (P_RIGHTMOST (opaque p)); simpl; lia).
  cbn zeta. fold (data_lines p).
  destruct (line_space_ok (newitemsz, null_item) (conj H8 Hsz)) as [E Hb]. rewrite E in Hb. cbn [fst] in Hb.
  set (st0 := mkFindSplit _ _ _ _ _ _ _).
  destruct (findsplit_loop_spec (P_ISLEAF (opaque p)) (P_FIRSTDATAKEY (opaque p)) newoff (newitemsz + 8) rs
    (rs - PageGetFreeSpace p) (data_lines p) (data_lines p) 0 st0) as [C1 C2]; [done|by split|].
  rewrite Z.add_0_r, take_0 in C1, C2. cbn [lines_space] in C1, C2. set (st := findsplit_loop _ _ _ _ _ _ _) in *.
  destruct (split_exists p newoff (newitemsz + 8)) as (k0 & on0 & Hs); [done|lia|lia|lia|].
  assert (have_split st = true) as Hst by (apply C2; right; eexists _, _; split; [|exact Hs]; lia).
  rewrite Hst. destruct (ch_good _ _ _ _ C1 Hst) as (k & Ek & Hk). exists k, (newitemonleft st).
  by rewrite Ek.
Qed.
(** ** Splitting *)

(** The line as it is stored at the end of a page that holds [n] lines. *)
Definition stored (op : BTPageOpaqueData) (n : nat) (x : Z * BTItem) : Z * BTItem :=
  if negb (P_ISLEAF op) && (Z.of_nat n + 1 =? P_FIRSTDATAKEY op) then (sizeof_BTItemData, strip_item x.2) else x.
Fixpoint stored_all (op : BTPageOpaqueData) (n : nat) (l : list (Z * BTItem)) : list (Z * BTItem) :=
  match l with [] => [] | x :: l => stored op n x :: stored_all op (S n) l end.

Lemma stored_all_app op l l' : forall n,
  stored_all op n (l ++ l') = stored_all op n l ++ stored_all op (n + length l) l'.
Proof.
  induction l as [|x l IH]; intros n; simpl; [by rewrite Nat.add_0_r|]. rewrite IH. do 3 f_equal. lia.
Qed.

Lemma stored_all_length op l : forall n, length (stored_all op n l) = length l.
Proof. induction l as [|x l IH]; intros n; simpl; auto. Qed.

Lemma stored_ok op n x : line_ok x -> line_ok (stored op n x) /\ line_space (stored op n x) <= line_space x.
Proof.
  intros Hx. unfold stored. destruct (negb _ && _); [|done].
  destruct (line_space_ok x Hx) as [_ Hb]. assert (line_ok (sizeof_BTItemData, strip_item x.2)) as H.
  { split; [by exists 2|]. change (16 <= 16 <= 2701). lia. }
  split; [done|]. destruct (line_space_ok _ H) as [-> _]. change (16 + 8 <= line_space x). lia.
Qed.

Lemma stored_all_ok op l : Forall line_ok l -> forall n,
  Forall line_ok (stored_all op n l) /\ lines_space (stored_all op n l) <= lines_space l.
Proof.
  induction 1 as [|x l Hx _ IH]; intros n; simpl; [done|].
  destruct (stored_ok op n x Hx), (IH (S n)). split; [by constructor|lia].
Qed.

(** Only the first data item of an inner page changes. *)
Lemma stored_all_id op l : forall n, P_ISLEAF op = true \/ P_FIRSTDATAKEY op <= Z.of_nat n ->
  stored_all op n l = l.
Proof.
  induction l as [|x l IH]; intros n H; [done|]. simpl. rewrite IH by (destruct H; [by left|right; lia]).
  f_equal. unfold stored. destruct H as [->|H]; [done|].
  destruct (Z.eqb_spec (Z.of_nat n + 1) (P_FIRSTDATAKEY op)); [lia|]. by rewrite andb_false_r.
Qed.

Lemma page_free_app p l : page_free (set_lines p (lines p ++ l)) = page_free p - lines_space l.
Proof. unfold page_free. simpl. rewrite lines_space_app. lia. Qed.

Lemma pgaddtup_append p sz it : line_space (stored (opaque p) (length (lines p)) (sz, it)) <= page_free p ->
  _bt_pgaddtup p sz it (Zlen (lines p) + 1) =
  Ok (set_lines p (lines p ++ [stored (opaque p) (length (lines p)) (sz, it)])).
Proof.
  unfold _bt_pgaddtup, stored. intros Hs. simpl in *.
  set (y := if negb _ && _ then (sizeof_BTItemData, strip_item it) else (sz, it)) in *.
  destruct y as [ysz yit] eqn:Ey. unfold PageAddItem.
  destruct (Z.leb_spec (line_space (ysz, yit)) (page_free p)); [|lia].
  replace (Z.to_nat (Zlen (lines p) + 1 - 1)) with (length (lines p)) by lia.
  by rewrite take_ge, drop_ge by lia.
Qed.

(** The additions [_bt_split] makes, in order: to which page, whether it is the new
    item, and the line. *)
Section Split.
Context (buf rbuf fr newoff : Z) (onleft : bool) (newsz : Z) (newitem : BTItem).

Notation act := (bool * bool * (Z * BTItem))%type.

Definition do_act (a : act) (st : SplitState) : result SplitState :=
  let '(l, isnew, (sz, it)) := a in
  if isnew : bool then add_new buf rbuf l sz it st else if l : bool then add_left st sz it else add_right st sz it.
Fixpoint run_acts (acts : list act) (st : SplitState) : result SplitState :=
  match acts with [] => Ok st | a :: acts => st ← do_act a st; run_acts acts st end.

Definition new_act : act := (onleft, true, (newsz, newitem)).
Fixpoint old_acts (todo : list (Z * BTItem)) (i : Z) : list act :=
  match todo with [] => [] | x :: todo => (i <? fr, false, x) :: old_acts todo (i + 1) end.

Lemma run_acts_app a b st : run_acts (a ++ b) st = (st ← run_acts a st; run_acts b st).
Proof. revert st. induction a as [|x a IH]; intros st; [done|]. simpl. by destruct (do_act x st); simpl. Qed.

Lemma split_loop_old todo : forall i st, newoff < i ->
  split_loop buf rbuf todo i fr newoff onleft newsz newitem st = run_acts (old_acts todo i) st.
Proof.
  induction todo as [|[sz it] todo IH]; intros i st Hi; simpl.
  - by destruct (Z.leb_spec i newoff); [lia|].
  - destruct (Z.eqb_spec i newoff); [lia|]. simpl. destruct (i <? fr); simpl.
    + destruct (add_left st sz it); simpl; [|done]. apply IH. lia.
    + destruct (add_right st sz it); simpl; [|done]. apply IH. lia.
Qed.

Lemma split_loop_acts todo : forall i st, i <= newoff <= i + Zlen todo ->
  split_loop buf rbuf todo i fr newoff onleft newsz newitem st =
  run_acts (old_acts (take (Z.to_nat (newoff - i)) todo) i ++ new_act ::
            old_acts (drop (Z.to_nat (newoff - i)) todo) newoff) st.
Proof.
  induction todo as [|[sz it] todo IH]; intros i st Hi.
  - simpl in Hi. replace (newoff - i) with 0 by lia. simpl. destruct (Z.leb_spec i newoff); [|lia].
    by destruct (add_new _ _ _ _ _ st).
  - cbn [length] in Hi. cbn [split_loop]. destruct (Z.eqb_spec i newoff) as [->|Hne].
    + rewrite Z.sub_diag. change (Z.to_nat 0) with 0%nat. rewrite take_0, drop_0. cbn [old_acts app run_acts].
      change (do_act new_act st) with (add_new buf rbuf onleft newsz newitem st).
      destruct (add_new buf rbuf onleft newsz newitem st) as [st1|]; simpl; [|done].
      destruct (newoff <? fr).
      * destruct (add_left st1 sz it); simpl; [|done]. apply split_loop_old. lia.
      * destruct (add_right st1 sz it); simpl; [|done]. apply split_loop_old. lia.
    + replace (Z.to_nat (newoff - i)) with (S (Z.to_nat (newoff - (i + 1)))) by lia. simpl.
      destruct (i <? fr).
      * destruct (add_left st sz it); simpl; [|done]. apply IH. lia.
      * destruct (add_right st sz it); simpl; [|done]. apply IH. lia.
Qed.

Lemma old_acts_sides todo : forall i, old_acts todo i =
  map (fun x => (true, false, x)) (take (Z.to_nat (fr - i)) todo) ++
  map (fun x => (false, false, x)) (drop (Z.to_nat (fr - i)) todo).
Proof.
  induction todo as [|x todo IH]; intros i; [by rewrite take_nil, drop_nil|]. simpl. rewrite IH.
  destruct (Z.ltb_spec i fr).
  - by replace (Z.to_nat (fr - i)) with (S (Z.to_nat (fr - (i + 1)))) by lia.
  - by replace (Z.to_nat (fr - (i + 1))) with 0%nat by lia; replace (Z.to_nat (fr - i)) with 0%nat by lia.
Qed.

(** Each page is filled from the front. *)
Definition in_step (st : SplitState) : Prop :=
  leftoff st = Zlen (lines (leftpage st)) + 1 /\ rightoff st = Zlen (lines (rightpage st)) + 1.

Definition put (p : BTPage) (l : list (Z * BTItem)) : BTPage :=
  set_lines p (lines p ++ stored_all (opaque p) (length (lines p)) l).

Lemma put_app p a b : put (put p a) b = put p (a ++ b).
Proof.
  unfold put. simpl. rewrite stored_all_app, length_app, stored_all_length, (assoc_L (++)). done.
Qed.

Lemma page_free_put p l : page_free (put p l) = page_free p - lines_space (stored_all (opaque p) (length (lines p)) l).
Proof. apply page_free_app. Qed.

Lemma put_length p l : Zlen (lines (put p l)) = Zlen (lines p) + Zlen l.
Proof. unfold put. simpl. rewrite length_app, stored_all_length. lia. Qed.

(** A page cannot hold 2^16 lines, so offsets do not wrap. *)
Definition fits (p : BTPage) (l : list (Z * BTItem)) : Prop :=
  Forall line_ok (lines p) /\ Forall line_ok l /\
  lines_space (stored_all (opaque p) (length (lines p)) l) <= page_free p.

Lemma fits_small p l : fits p l -> Zlen (lines p) + Zlen l < 1000.
Proof.
  intros (H1 & H2 & H3). pose proof (lines_space_pos _ H1).
  pose proof (lines_space_pos _ (proj1 (stored_all_ok (opaque p) l H2 (length (lines p))))) as H4.
  rewrite stored_all_length in H4. unfold page_free in H3. change page_room with 8136 in H3. lia.
Qed.

Lemma fits_app p a b : fits p (a ++ b) -> fits p a /\ fits (put p a) b.
Proof.
  intros (H1 & H2 & H3). apply Forall_app in H2 as [Ha Hb]. rewrite stored_all_app, lines_space_app in H3.
  destruct (stored_all_ok (opaque p) a Ha (length (lines p))) as [Sa _].
  destruct (stored_all_ok (opaque p) b Hb (length (lines p) + length a)) as [Sb _].
  pose proof (lines_space_pos _ Sa). pose proof (lines_space_pos _ Sb).
  split; [split_and!; [done|done|lia]|]. split_and!; [|done|].
  - apply Forall_app. done.
  - rewrite page_free_put. unfold put. simpl. rewrite length_app, stored_all_length. lia.
Qed.

Lemma put_one p x : put p [x] = set_lines p (lines p ++ [stored (opaque p) (length (lines p)) x]).
Proof. done. Qed.

Lemma pgaddtup_put p sz it o : fits p [(sz, it)] -> o = Zlen (lines p) + 1 ->
  _bt_pgaddtup p sz it o = Ok (put p [(sz, it)]) /\ OffsetNumberNext o = Zlen (lines (put p [(sz, it)])) + 1.
Proof.
  intros Hf ->. pose proof (fits_small _ _ Hf). destruct Hf as (_ & _ & Hs). simpl in Hs. split.
  - apply pgaddtup_append. lia.
  - rewrite put_length. unfold OffsetNumberNext. rewrite u16_id; simpl in *; lia.
Qed.

Lemma run_left l : forall st, in_step st -> fits (leftpage st) l -> exists o,
  run_acts (map (fun x => (true, false, x)) l) st = Ok (mkSplit (put (leftpage st) l) (rightpage st) o (rightoff st) (itup_loc st)) /\
  o = Zlen (lines (leftpage st)) + Zlen l + 1.
Proof.
  induction l as [|[sz it] l IH]; intros [lp rp lo ro loc] [Hl Hr] Hf; simpl in *.
  - exists lo. split; [|lia]. do 2 f_equal. destruct lp. unfold put. simpl. by rewrite app_nil_r.
  - destruct (fits_app lp [(sz, it)] l Hf) as [H1 H2].
    destruct (pgaddtup_put lp sz it lo H1 Hl) as [E Eo]. unfold add_left. simpl. rewrite E. simpl. rewrite Eo.
    destruct (IH (mkSplit (put lp [(sz, it)]) rp (Zlen (lines (put lp [(sz, it)])) + 1) ro loc)) as (o & -> & Ho);
      [by split|done|]. cbn [leftpage rightpage leftoff rightoff itup_loc] in *.
    exists o. rewrite put_app. split; [done|]. rewrite put_length in Ho. cbn [length] in *. lia.
Qed.

Lemma run_right l : forall st, in_step st -> fits (rightpage st) l -> exists o,
  run_acts (map (fun x => (false, false, x)) l) st = Ok (mkSplit (leftpage st) (put (rightpage st) l) (leftoff st) o (itup_loc st)) /\
  o = Zlen (lines (rightpage st)) + Zlen l + 1.
Proof.
  induction l as [|[sz it] l IH]; intros [lp rp lo ro loc] [Hl Hr] Hf; simpl in *.
  - exists ro. split; [|lia]. do 2 f_equal. destruct rp. unfold put. simpl. by rewrite app_nil_r.
  - destruct (fits_app rp [(sz, it)] l Hf) as [H1 H2].
    destruct (pgaddtup_put rp sz it ro H1 Hr) as [E Eo]. unfold add_right. simpl. rewrite E. simpl. rewrite Eo.
    destruct (IH (mkSplit lp (put rp [(sz, it)]) lo (Zlen (lines (put rp [(sz, it)])) + 1) loc)) as (o & -> & Ho);
      [by split|done|]. cbn [leftpage rightpage leftoff rightoff itup_loc] in *.
    exists o. rewrite put_app. split; [done|]. rewrite put_length in Ho. cbn [length] in *. lia.
Qed.

Lemma run_new st : in_step st ->
  fits (if onleft then leftpage st else rightpage st) [(newsz, newitem)] -> exists lo ro,
  run_acts [new_act] st =
    Ok (if onleft then mkSplit (put (leftpage st) [(newsz, newitem)]) (rightpage st) lo ro (Some (buf, leftoff st))
        else mkSplit (leftpage st) (put (rightpage st) [(newsz, newitem)]) lo ro (Some (rbuf, rightoff st))) /\
  lo = Zlen (lines (leftpage st)) + (if onleft then 2 else 1) /\
  ro = Zlen (lines (rightpage st)) + (if onleft then 1 else 2).
Proof.
  destruct st as [lp rp lo ro loc]. intros [Hl Hr] Hf. cbn [leftpage rightpage leftoff rightoff] in *.
  unfold new_act. destruct onleft; cbn [run_acts do_act add_new set_itup leftpage rightpage leftoff rightoff itup_loc].
  - destruct (pgaddtup_put lp newsz newitem lo Hf Hl) as [E Eo]. unfold add_left. simpl. rewrite E. simpl.
    eexists _, _. split; [done|]. rewrite Eo, put_length. simpl. lia.
  - destruct (pgaddtup_put rp newsz newitem ro Hf Hr) as [E Eo]. unfold add_right. simpl. rewrite E. simpl.
    eexists _, _. split; [done|]. rewrite Eo, put_length. simpl. lia.
Qed.

Notation st0 lp rp := (mkSplit lp rp (Zlen (lines lp) + 1) (Zlen (lines rp) + 1) None).

Lemma in_step_put lp rp a b lo ro loc :
  lo = Zlen (lines lp) + Zlen a + 1 -> ro = Zlen (lines rp) + Zlen b + 1 ->
  in_step (mkSplit (put lp a) (put rp b) lo ro loc).
Proof. intros -> ->. split; cbn [leftpage rightpage leftoff rightoff]; rewrite put_length; lia. Qed.

Lemma put_nil p : put p [] = p.
Proof. destruct p. unfold put. simpl. by rewrite app_nil_r. Qed.

Lemma run_new_left a b c lp rp : onleft = true -> fits lp (a ++ [(newsz, newitem)] ++ b) -> fits rp c ->
  exists lo ro, run_acts (map (fun x => (true, false, x)) a ++ [new_act] ++
      map (fun x => (true, false, x)) b ++ map (fun x => (false, false, x)) c) (st0 lp rp) =
    Ok (mkSplit (put lp (a ++ [(newsz, newitem)] ++ b)) (put rp c) lo ro (Some (buf, Zlen (lines lp) + Zlen a + 1))).
Proof.
  intros Eon Fl Fr. destruct (fits_app _ _ _ Fl) as [F1 F2]. destruct (fits_app _ _ _ F2) as [F3 F4].
  rewrite run_acts_app. destruct (run_left a (st0 lp rp)) as (o & -> & ->); [done|done|].
  cbn [leftpage rightpage leftoff rightoff itup_loc mbind result_bind]. rewrite run_acts_app.
  set (st1 := mkSplit _ _ _ _ _). destruct (run_new st1) as (lo & ro & E & -> & ->); [|by rewrite Eon|].
  { unfold st1. rewrite <- (put_nil rp) at 1. apply in_step_put; simpl; lia. }
  rewrite E, Eon. cbn [st1 leftpage rightpage leftoff rightoff itup_loc mbind result_bind]. rewrite run_acts_app, put_app.
  rewrite put_app in F4. set (st2 := mkSplit _ _ _ _ _). destruct (run_left b st2) as (o & -> & ->); [|done|].
  { unfold st2. rewrite <- (put_nil rp) at 1. apply in_step_put; rewrite ?put_length, ?length_app; simpl; lia. }
  cbn [st2 leftpage rightpage leftoff rightoff itup_loc mbind result_bind]. rewrite put_app.
  rewrite <- (assoc_L (++)). set (st3 := mkSplit _ _ _ _ _).
  destruct (run_right c st3) as (o & -> & ->); [|done|].
  { unfold st3. rewrite <- (put_nil rp) at 1. apply in_step_put; rewrite ?put_length, ?length_app; simpl; lia. }
  by eexists _, _.
Qed.

Lemma run_new_right a b c lp rp : onleft = false -> fits lp a -> fits rp (b ++ [(newsz, newitem)] ++ c) ->
  exists lo ro, run_acts (map (fun x => (true, false, x)) a ++ map (fun x => (false, false, x)) b ++ [new_act] ++
      map (fun x => (false, false, x)) c) (st0 lp rp) =
    Ok (mkSplit (put lp a) (put rp (b ++ [(newsz, newitem)] ++ c)) lo ro (Some (rbuf, Zlen (lines rp) + Zlen b + 1))).
Proof.
  intros Eon Fl Fr. destruct (fits_app _ _ _ Fr) as [F1 F2]. destruct (fits_app _ _ _ F2) as [F3 F4].
  rewrite run_acts_app. destruct (run_left a (st0 lp rp)) as (o & -> & ->); [done|done|].
  cbn [leftpage rightpage leftoff rightoff itup_loc mbind result_bind]. rewrite run_acts_app.
  set (st1 := mkSplit _ _ _ _ _). destruct (run_right b st1) as (o & -> & ->); [|done|].
  { unfold st1. rewrite <- (put_nil rp) at 1. apply in_step_put; simpl; lia. }
  cbn [st1 leftpage rightpage leftoff rightoff itup_loc mbind result_bind]. rewrite run_acts_app.
  set (st2 := mkSplit _ _ _ _ _). destruct (run_new st2) as (lo & ro & E & -> & ->); [|by rewrite Eon|].
  { apply in_step_put; simpl; lia. }
  rewrite E, Eon. cbn [st2 leftpage rightpage leftoff rightoff itup_loc mbind result_bind]. rewrite put_app.
  rewrite put_app in F4. set (st3 := mkSplit _ _ _ _ _).
  destruct (run_right c st3) as (o & -> & ->); [|done|].
  { apply in_step_put; rewrite ?put_length, ?length_app; simpl; lia. }
  cbn [st3 leftpage rightpage leftoff rightoff itup_loc]. rewrite put_app, <- (assoc_L (++)). by eexists _, _.
Qed.

(** The data with the new item in its place. *)
Definition new_data (q : nat) (data : list (Z * BTItem)) : list (Z * BTItem) :=
  take q data ++ (newsz, newitem) :: drop q data.

(** All additions: the first [m] lines of the new data go to the left page and the
    others to the right page. *)
Lemma split_loop_run data first q k lp rp :
  newoff = first + Z.of_nat q -> (q <= length data)%nat -> fr = first + Z.of_nat k -> (k <= length data)%nat ->
  (if onleft then (q <= k)%nat else (k <= q)%nat) ->
  let m := if onleft then S k else k in
  fits lp (take m (new_data q data)) -> fits rp (drop m (new_data q data)) ->
  exists lo ro, split_loop buf rbuf data first fr newoff onleft newsz newitem (st0 lp rp) =
    Ok (mkSplit (put lp (take m (new_data q data))) (put rp (drop m (new_data q data))) lo ro
         (Some (if onleft then (buf, Zlen (lines lp) + Z.of_nat q + 1)
                else (rbuf, Zlen (lines rp) + Z.of_nat (q - k) + 1)))).
Proof.
  intros Eo Hq Ef Hk Hside m Fl Fr. rewrite split_loop_acts by lia.
  replace (Z.to_nat (newoff - first)) with q by lia. rewrite !old_acts_sides.
  replace (Z.to_nat (fr - first)) with k by lia. replace (Z.to_nat (fr - newoff)) with (k - q)%nat by lia.
  unfold new_data in *. unfold m in *. clear m. rewrite (cons_middle new_act). destruct (sumbool_of_bool onleft) as [Eon|Eon]; rewrite Eon in *.
  - rewrite (take_ge (take q data)), (drop_ge (take q data)) by (rewrite length_take; lia). cbn [map]. rewrite app_nil_r.
    replace (take (S k) _) with (take q data ++ [(newsz, newitem)] ++ take (k - q) (drop q data)) in *.
    2:{ rewrite take_app, length_take, Nat.min_l, (take_ge (take q data)) by (rewrite ?length_take; lia).
        by replace (S k - q)%nat with (S (k - q)) by lia. }
    replace (drop (S k) (take q data ++ _)) with (drop (k - q) (drop q data)) in *.
    2:{ rewrite drop_app, length_take, Nat.min_l, (drop_ge (take q data)) by (rewrite ?length_take; lia).
        by replace (S k - q)%nat with (S (k - q)) by lia. }
    destruct (run_new_left _ _ _ _ _ Eon Fl Fr) as (lo & ro & ->). eexists _, _. do 4 f_equal. rewrite length_take. lia.
  - rewrite take_take, (Nat.min_l k q) by lia. replace (k - q)%nat with 0%nat by lia. rewrite take_0, drop_0.
    rewrite <- (assoc_L (++)). cbn [map]. change ([] ++ ?x) with x.
    replace (take k (take q data ++ _)) with (take k data) in *.
    2:{ rewrite take_app, length_take, take_take, Nat.min_l by lia.
        replace (k - q `min` length data)%nat with 0%nat by lia. by rewrite take_0, app_nil_r. }
    replace (drop k (take q data ++ _)) with (drop k (take q data) ++ [(newsz, newitem)] ++ drop q data) in *.
    2:{ rewrite drop_app, length_take. by replace (k - q `min` length data)%nat with 0%nat by lia. }
    destruct (run_new_right _ _ _ _ _ Eon Fl Fr) as (lo & ro & E).
    change ([] ++ map (fun x : Z * BTItem => (false, false, x)) (drop q data)) with
      (map (fun x : Z * BTItem => (false, false, x)) (drop q data)).
    rewrite E. eexists _, _. do 4 f_equal. rewrite length_drop, length_take. lia.
Qed.

End Split.
(** The opaque data of the two halves. *)
Definition left_opaque (p : BTPage) (rbuf : Z) : BTPageOpaqueData :=
  mkOpaque (btpo_prev (opaque p)) rbuf (btpo_parent (opaque p)) (Z.land (btpo_flags (opaque p)) (Z.lnot BTP_ROOT)).
Definition right_opaque (p : BTPage) (buf : Z) : BTPageOpaqueData :=
  mkOpaque buf (btpo_next (opaque p)) (btpo_parent (opaque p)) (Z.land (btpo_flags (opaque p)) (Z.lnot BTP_ROOT)).

(** The two halves of the new data [nd] cut at [m], with the high key [hk] of the left one. *)
Definition left_half (p : BTPage) (rbuf : Z) (hk : Z * BTItem) (m : nat) (nd : list (Z * BTItem)) : BTPage :=
  put (mkBTPage (left_opaque p rbuf) [hk]) (take m nd).
Definition right_half (p : BTPage) (buf : Z) (m : nat) (nd : list (Z * BTItem)) : BTPage :=
  put (mkBTPage (right_opaque p buf) (hikey_lines p)) (drop m nd).

Lemma isleaf_noroot flags : (Z.land flags (Z.lnot BTP_ROOT) .& BTP_LEAF) = (flags .& BTP_LEAF).
Proof. rewrite flag_clear by done. change (BTP_ROOT .& BTP_LEAF) with false. by rewrite andb_true_r. Qed.

Lemma hikey_lines_length p : page_ok p -> Zlen (hikey_lines p) = P_FIRSTDATAKEY (opaque p) - 1.
Proof.
  intros Hp. pose proof (po_hikey p Hp) as H. unfold hikey_lines. rewrite length_take.
  unfold P_FIRSTDATAKEY. destruct (P_RIGHTMOST (opaque p)); unfold P_HIKEY, P_FIRSTKEY; [lia|].
  specialize (H eq_refl). destruct (lines p); [done|]. cbn [length]. lia.
Qed.

Lemma put_ok p l : page_ok p -> fits p l -> page_ok (put p l).
Proof.
  intros [H1 H2 H3] (F1 & F2 & F3). destruct (stored_all_ok (opaque p) l F2 (length (lines p))) as [S1 S2].
  split.
  - by apply Forall_app.
  - rewrite page_free_put. lia.
  - intros E Hn. apply H3; [done|]. by apply app_eq_nil in Hn as [-> _].
Qed.

Lemma new_data_length newsz newitem q data : length (new_data newsz newitem q data) = S (length data).
Proof. unfold new_data. rewrite length_app, length_take. cbn [length]. rewrite length_drop. lia. Qed.

Lemma new_data_ok newsz newitem q data : line_ok (newsz, newitem) -> Forall line_ok data ->
  Forall line_ok (new_data newsz newitem q data).
Proof. intros. apply Forall_app. split; [by apply Forall_take|]. constructor; [done|by apply Forall_drop]. Qed.

Lemma new_data_space newsz newitem q data :
  lines_space (new_data newsz newitem q data) = lines_space data + line_space (newsz, newitem).
Proof. unfold new_data. rewrite lines_space_app, (lines_space_split q data). cbn [lines_space]. lia. Qed.

(** The line where the new data is cut, and what is in front of it. *)
Lemma new_data_cut newsz newitem q k onleft data x : data !! k = Some x -> (q <= length data)%nat ->
  (if onleft : bool then (q <= k)%nat else (k <= q)%nat) ->
  let m := if onleft then S k else k in let nd := new_data newsz newitem q data in
  nd !! m = Some (if negb onleft && (q =? k)%nat then (newsz, newitem) else x) /\
  lines_space (take m nd) = lines_space (take k data) + (if onleft then line_space (newsz, newitem) else 0).
Proof.
  intros Hx Hq Hside. pose proof (lookup_lt_Some _ _ _ Hx) as Hk. unfold new_data. destruct onleft; simpl.
  - rewrite lookup_app_r, take_app, length_take, Nat.min_l, (take_ge (take q data)) by (rewrite ?length_take; lia).
    replace (S k - q)%nat with (S (k - q)) by lia. cbn [take]. rewrite lookup_cons_ne_0 by lia. simpl.
    rewrite lookup_drop. replace (q + (k - q))%nat with k by lia. split; [done|]. rewrite lines_space_app. cbn [lines_space].
    replace (take k data) with (take q data ++ take (k - q) (drop q data)); [rewrite lines_space_app; lia|].
    rewrite take_take_drop. f_equal. lia.
  - assert (take k (take q data ++ (newsz, newitem) :: drop q data) = take k data) as ->.
    { rewrite take_app, length_take, take_take, Nat.min_l by lia.
      replace (k - q `min` length data)%nat with 0%nat by lia. by rewrite take_0, app_nil_r. }
    split; [|lia]. destruct (Nat.eqb_spec q k) as [->|].
    + rewrite lookup_app_r by (rewrite length_take; lia). rewrite length_take, Nat.min_l, Nat.sub_diag by lia. done.
    + rewrite lookup_app_l by (rewrite length_take; lia). by rewrite lookup_take_lt by lia.
Qed.

(** A feasible split succeeds, unless the new item becomes the high key of the left
    page and is larger than the item the left page was reckoned with. *)
Section SplitOk.
Context (p : BTPage) (buf rbuf newoff newsz : Z) (newitem : BTItem) (k : nat) (onleft : bool).
Let first := P_FIRSTDATAKEY (opaque p).
Let rs := split_space - lines_space (hikey_lines p).
Let q := Z.to_nat (newoff - first).
Let m := if onleft then S k else k.
Let nd := new_data newsz newitem q (data_lines p).

Hypothesis Hp : page_ok p.
Hypothesis Hnew : line_ok (newsz, newitem).
Hypothesis Hoff : first <= newoff <= PageGetMaxOffsetNumber p + 1.
Hypothesis Hsplit : split_at (P_ISLEAF (opaque p)) first newoff (newsz + 8) rs (rs - PageGetFreeSpace p)
  (data_lines p) k onleft.
Hypothesis Hhikey : forall x, data_lines p !! k = Some x -> onleft = false -> newoff = first + Z.of_nat k ->
  newsz + 8 <= line_space x.

Lemma split_halves_fit : exists hk, nd !! m = Some hk /\ line_ok hk /\
  hk = (if negb onleft && (newoff =? first + Z.of_nat k) then (newsz, newitem)
        else aget (0, null_item) (lines p) (first + Z.of_nat k - 1)) /\
  (q <= length (data_lines p))%nat /\ (k <= length (data_lines p))%nat /\
  (if onleft then (q <= k)%nat else (k <= q)%nat) /\
  fits (mkBTPage (left_opaque p rbuf) [hk]) (take m nd) /\
  fits (mkBTPage (right_opaque p buf) (hikey_lines p)) (drop m nd).
Proof.
  destruct Hsplit as (x & Hx & Ho & Hl & Hr). pose proof (lookup_lt_Some _ _ _ Hx) as Hk.
  pose proof (data_lines_length p Hp) as Hlen. fold first in Hlen.
  destruct (page_ok_data p Hp) as [Hd Hh]. pose proof (split_accounting p Hp) as (A1 & A2 & A3).
  assert (newoff = first + Z.of_nat q) as Eq by (unfold q; lia).
  assert (if onleft then (q <= k)%nat else (k <= q)%nat) as Hside by (destruct onleft; lia).
  assert ((newoff =? first + Z.of_nat k) = (q =? k)%nat) as Ebool
    by (destruct (Z.eqb_spec newoff (first + Z.of_nat k)), (Nat.eqb_spec q k); lia).
  destruct (new_data_cut newsz newitem q k onleft (data_lines p) x Hx ltac:(lia) Hside) as [Hhk Hsp].
  fold nd in Hhk, Hsp. fold m in Hhk, Hsp. rewrite Ebool in *.
  set (hk := if negb onleft && _ then (newsz, newitem) else x) in *.
  pose proof (Forall_lookup_1 _ _ _ _ Hd Hx) as Hxok.
  assert (line_ok hk) as Hhkok by (unfold hk; destruct (negb onleft && _); done).
  assert (aget (0, null_item) (lines p) (first + Z.of_nat k - 1) = x) as Eagx.
  { unfold data_lines in Hx. rewrite lookup_drop in Hx. fold first in Hx.
    assert (1 <= first) by (destruct (first_data_cases (opaque p)) as [E|E]; fold first in E; lia).
    unfold aget. destruct (Z.ltb_spec (first + Z.of_nat k - 1) 0); [lia|].
    replace (Z.to_nat (first + Z.of_nat k - 1)) with (Z.to_nat (first - 1) + k)%nat by lia. by rewrite Hx. }
  exists hk. split; [done|]. split; [done|]. split; [by rewrite Eagx|].
  split; [lia|]. split; [lia|]. split; [done|].
  destruct (line_space_ok _ Hnew) as [En Hnb]. cbn [fst] in En. destruct (line_space_ok x Hxok) as [Ex Hxb].
  destruct (line_space_ok hk Hhkok) as [Eh Hhb].
  assert (line_space hk <= line_space x) as Hhkx.
  { unfold hk. destruct onleft; simpl; [done|]. destruct (Nat.eqb_spec q k); [|done].
    specialize (Hhikey x Hx eq_refl). lia. }
  pose proof (new_data_ok newsz newitem q _ Hnew Hd) as Hnd. fold nd in Hnd.
  pose proof (new_data_space newsz newitem q (data_lines p)) as Hns. fold nd in Hns.
  pose proof (lines_space_split m nd) as Hcut. unfold left_ok, right_ok in Hl, Hr.
  rewrite Z.geb_leb, Z.leb_le in Hl, Hr. change split_space with 8128 in *. unfold rs in *.
  change split_space with 8128 in *. split.
  - split_and!; [by constructor|by apply Forall_take|]. unfold page_free. change page_room with 8136. cbn [lines lines_space].
    destruct (stored_all_ok (left_opaque p rbuf) _ (Forall_take _ m _ Hnd) 1) as [_ Hle].
    cbn [opaque lines length]. destruct onleft; lia.
  - split_and!; [done|by apply Forall_drop|]. unfold page_free. change page_room with 8136. cbn [lines opaque].
    rewrite (drop_S nd hk m Hhk) in *. cbn [lines_space] in Hcut.
    pose proof (Forall_drop _ (S m) _ Hnd) as Hrest.
    destruct (stored_all_ok (right_opaque p buf) _ Hrest (S (length (hikey_lines p)))) as [_ Hle].
    cbn [stored_all lines_space]. unfold stored at 1. change (P_ISLEAF (right_opaque p buf)) with
      (Z.land (btpo_flags (opaque p)) (Z.lnot BTP_ROOT) .& BTP_LEAF). rewrite isleaf_noroot.
    fold (P_ISLEAF (opaque p)). change (P_FIRSTDATAKEY (right_opaque p buf)) with first.
    rewrite hikey_lines_length, Z.sub_add by done. fold first. rewrite Z.eqb_refl, andb_true_r.
    destruct (P_ISLEAF (opaque p)); simpl.
    + destruct onleft; lia.
    + change (line_space (sizeof_BTItemData, strip_item hk.2)) with 24. unfold hk in *.
      destruct onleft; simpl in *; [lia|]. destruct (q =? k)%nat; lia.
Qed.

Lemma bt_split_ok : exists hk, nd !! m = Some hk /\
  _bt_split p buf rbuf (first + Z.of_nat k) newoff newsz newitem onleft =
    Ok (left_half p rbuf hk m nd, right_half p buf m nd,
        Some (if onleft then (buf, 2 + Z.of_nat q) else (rbuf, first + Z.of_nat (q - k)))) /\
  page_ok (left_half p rbuf hk m nd) /\ page_ok (right_half p buf m nd).
Proof.
  destruct split_halves_fit as (hk & Hhk & Hok & Ehk & Hq & Hk & Hside & Fl & Fr).
  exists hk. split; [done|]. destruct (page_ok_data p Hp) as [_ Hh].
  assert (page_ok (mkBTPage (right_opaque p buf) (hikey_lines p))) as Hr0.
  { split; [done| |].
    - destruct (hikey_lines_space p Hp). unfold page_free. change page_room with 8136. cbn [lines]. lia.
    - cbn [opaque lines]. intros E Hn. pose proof (hikey_lines_length p Hp) as Hl. rewrite Hn in Hl.
      unfold P_FIRSTDATAKEY in Hl. change (P_RIGHTMOST (opaque p) = false) in E. rewrite E in Hl. done. }
  assert (page_ok (mkBTPage (left_opaque p rbuf) [hk])) as Hl0.
  { split; [by constructor| |done]. destruct (line_space_ok hk Hok). unfold page_free.
    change page_room with 8136. cbn [lines lines_space]. lia. }
  split; [|by split; apply put_ok].
  unfold _bt_split. cbn zeta. fold (left_opaque p rbuf) (right_opaque p buf).
  change (set_opaque _bt_pageinit (left_opaque p rbuf)) with (mkBTPage (left_opaque p rbuf) []).
  change (set_opaque _bt_pageinit (right_opaque p buf)) with (mkBTPage (right_opaque p buf) []).
  assert (forall op x, line_ok x -> forall s, add_hikey (mkBTPage op []) x.1 x.2 s = Ok (mkBTPage op [x])) as Hadd.
  { intros op [sz it] Hx s. destruct (line_space_ok _ Hx). unfold add_hikey, PageAddItem. cbn [fst snd].
    unfold page_free. change page_room with 8136. cbn [lines lines_space].
    by destruct (Z.leb_spec (line_space (sz, it)) (8136 - 0)); [|lia]. }
  assert ((if negb (P_RIGHTMOST (opaque p)) then
             q0 ← add_hikey (mkBTPage (right_opaque p buf) []) (ItemIdGetLength p P_HIKEY) (PageGetItem p P_HIKEY)
                    "btree: failed to add hikey to the right sibling";
             Ok (q0, OffsetNumberNext P_HIKEY)
           else Ok (mkBTPage (right_opaque p buf) [], P_HIKEY)) =
          Ok (mkBTPage (right_opaque p buf) (hikey_lines p), Zlen (hikey_lines p) + 1)) as ->.
  { pose proof (hikey_lines_length p Hp) as Hl. unfold hikey_lines, P_FIRSTDATAKEY in *.
    destruct (P_RIGHTMOST (opaque p)) eqn:E; [done|]. cbn [negb]. unfold ItemIdGetLength, PageGetItem, aget. simpl in *.
    destruct (lines p) as [|x l]; [done|]. simpl in *. rewrite Hadd by (by inversion Hh). done. }
  cbn [mbind result_bind].
  assert ((if negb onleft && (newoff =? first + Z.of_nat k) then (newsz, newitem)
           else (ItemIdGetLength p (first + Z.of_nat k), PageGetItem p (first + Z.of_nat k))) = (hk.1, hk.2)) as ->.
  { rewrite Ehk. unfold ItemIdGetLength, PageGetItem. by destruct (negb onleft && _). }
  rewrite Hadd by done. cbn [mbind result_bind]. change (OffsetNumberNext P_HIKEY) with (Zlen [hk] + 1).
  fold (data_lines p). fold first.
  destruct (split_loop_run buf rbuf (first + Z.of_nat k) newoff onleft newsz newitem (data_lines p) first q k
    (mkBTPage (left_opaque p rbuf) [hk]) (mkBTPage (right_opaque p buf) (hikey_lines p))) as (lo & ro & E);
    [unfold q; lia|done|done|done|done|done|done|].
  cbn [lines] in E. rewrite E. cbn [mbind result_bind leftpage rightpage itup_loc].
  do 4 f_equal. rewrite hikey_lines_length by done. fold first. destruct onleft; f_equal; simpl; lia.
Qed.
End SplitOk.
(** ** Order on a page *)

Definition key_le (procs : list (Datum -> Datum -> Z)) (a b : Z * BTItem) : Prop :=
  key_cmp 0 procs (t_key a.2) (t_key b.2) <= 0.

(** The data items whose key counts: on an inner page the first is minus infinity. *)
Definition keyed_lines (p : BTPage) : list (Z * BTItem) :=
  if P_ISLEAF (opaque p) then data_lines p else drop 1 (data_lines p).

Definition page_sorted (procs : list (Datum -> Datum -> Z)) (p : BTPage) : Prop :=
  StronglySorted (key_le procs) (keyed_lines p).

Lemma key_cmp_prefix procs a b n : forall i, key_cmp i procs a b <= 0 -> key_cmp i (take n procs) a b <= 0.
Proof.
  revert n. induction procs as [|f procs IH]; intros [|n] i; simpl; try done.
  unfold lex. case_match; [done|]. apply IH.
Qed.

Lemma mkscankey_take n procs it : forall i,
  take n (mkscankey_loop i procs it) = mkscankey_loop i (take n procs) it.
Proof.
  revert n. induction procs as [|f procs IH]; intros [|n] i; simpl; try done.
  destruct (index_getattr it (i + 1)). simpl. by rewrite IH.
Qed.

(** [_bt_compare] on a real key. *)
Lemma bt_compare_key procs p keysz it o :
  P_ISLEAF (opaque p) = true \/ o <> P_FIRSTDATAKEY (opaque p) ->
  _bt_compare keysz (_bt_mkscankey procs it) p o =
  key_cmp 0 (take (Z.to_nat keysz) procs) (t_key it) (t_key (PageGetItem p o)).
Proof.
  intros H. unfold _bt_compare, _bt_mkscankey. rewrite mkscankey_take, compare_loop_key.
  destruct H as [->|H]; [done|]. destruct (Z.eqb_spec o (P_FIRSTDATAKEY (opaque p))); [done|].
  by rewrite andb_false_r.
Qed.

Lemma StronglySorted_lookup {A} (R : A -> A -> Prop) l i j x y :
  StronglySorted R l -> (i < j)%nat -> l !! i = Some x -> l !! j = Some y -> R x y.
Proof.
  intros Hs. revert i j. induction Hs as [|a l _ IH Ha]; intros i j Hij Hi Hj; [done|].
  destruct i as [|i]; destruct j as [|j]; try lia; simpl in *.
  - simplify_eq. exact (Forall_lookup_1 _ _ _ _ Ha Hj).
  - apply (IH i j); [lia|done|done].
Qed.

(** The item at an offset, as a line of the data. *)
Lemma data_line p o : P_FIRSTDATAKEY (opaque p) <= o <= PageGetMaxOffsetNumber p ->
  exists x, data_lines p !! Z.to_nat (o - P_FIRSTDATAKEY (opaque p)) = Some x /\ PageGetItem p o = x.2.
Proof.
  intros Ho. pose proof (first_data_cases (opaque p)) as Hf. unfold data_lines, PageGetMaxOffsetNumber in *.
  setoid_rewrite lookup_drop.
  replace (Z.to_nat (P_FIRSTDATAKEY (opaque p) - 1) + Z.to_nat (o - P_FIRSTDATAKEY (opaque p)))%nat
    with (Z.to_nat (o - 1)) by lia.
  destruct (lookup_lt_is_Some_2 (lines p) (Z.to_nat (o - 1))) as [x Hx]; [lia|]. exists x. split; [done|].
  unfold PageGetItem, aget. destruct (Z.ltb_spec (o - 1) 0); [lia|]. by rewrite Hx.
Qed.

Lemma page_sorted_for procs p keysz it : Forall OrderProc procs -> page_sorted procs p ->
  sorted_for p keysz (_bt_mkscankey procs it).
Proof.
  intros Hpr Hs i j Hij Hj Hpos. set (first := P_FIRSTDATAKEY (opaque p)) in *.
  destruct (decide (i = j)) as [->|Hne]; [done|].
  destruct (decide (P_ISLEAF (opaque p) = true \/ i <> first)) as [Hi|Hi].
  2:{ unfold _bt_compare. destruct (P_ISLEAF (opaque p)); [destruct Hi; by left|].
      destruct (Z.eqb_spec i first) as [->|]; [|destruct Hi; by right]. fold first. by rewrite Z.eqb_refl. }
  assert (P_ISLEAF (opaque p) = true \/ j <> first) as Hj' by (destruct Hi; [by left|right; lia]).
  rewrite bt_compare_key in * by done. fold first in Hj'.
  destruct (data_line p i) as (x & Hx & ->); [fold first; lia|].
  destruct (data_line p j) as (y & Hy & E); [fold first; lia|]. rewrite E in Hpos. fold first in Hx, Hy.
  assert (key_le procs x y) as Hle.
  { unfold page_sorted, keyed_lines in Hs. destruct (P_ISLEAF (opaque p)).
    - eapply StronglySorted_lookup; [exact Hs| |exact Hx|exact Hy]. lia.
    - destruct Hi as [|Hi]; [done|].
      apply (StronglySorted_lookup _ _ (Z.to_nat (i - first) - 1) (Z.to_nat (j - first) - 1) x y Hs); [lia| |];
        rewrite lookup_drop, <- ?Hx, <- ?Hy; f_equal; lia. }
  apply (key_cmp_prefix procs _ _ (Z.to_nat keysz)) in Hle.
  assert (Forall OrderProc (take (Z.to_nat keysz) procs)) as Hpr' by by apply Forall_take.
  destruct (key_cmp_order _ Hpr' 0) as [Ha Ht].
  destruct (Z.lt_ge_cases 0 (key_cmp 0 (take (Z.to_nat keysz) procs) (t_key it) (t_key x.2))) as [|Hge]; [done|].
  pose proof (Ht _ _ _ Hge Hle). lia.
Qed.

(** ** The halves *)

Lemma put_data p l : Zlen (lines p) = P_FIRSTDATAKEY (opaque p) - 1 ->
  data_lines (put p l) = stored_all (opaque p) (length (lines p)) l /\ hikey_lines (put p l) = lines p.
Proof.
  intros E. unfold data_lines, hikey_lines, put. cbn [opaque lines set_lines]. rewrite <- E, Nat2Z.id.
  split; [apply drop_app_length|apply take_app_length].
Qed.

Lemma left_half_first p rbuf hk : rbuf <> P_NONE ->
  Zlen (lines (mkBTPage (left_opaque p rbuf) [hk])) = P_FIRSTDATAKEY (left_opaque p rbuf) - 1.
Proof.
  intros H. unfold P_FIRSTDATAKEY, P_RIGHTMOST. simpl. by destruct (Z.eqb_spec rbuf P_NONE).
Qed.

Lemma left_half_data p rbuf hk m nd : rbuf <> P_NONE ->
  data_lines (left_half p rbuf hk m nd) = stored_all (left_opaque p rbuf) 1 (take m nd) /\
  hikey_lines (left_half p rbuf hk m nd) = [hk].
Proof. intros H. by apply put_data, left_half_first. Qed.

Lemma right_half_data p buf m nd : page_ok p ->
  data_lines (right_half p buf m nd) = stored_all (right_opaque p buf) (length (hikey_lines p)) (drop m nd) /\
  hikey_lines (right_half p buf m nd) = hikey_lines p.
Proof. intros H. apply put_data. cbn [lines opaque]. by rewrite hikey_lines_length. Qed.
(** Where an item points to. *)
Definition link (x : Z * BTItem) : Z * Z := (t_blkno x.2, t_posid x.2).

Lemma stored_all_link op l : forall n, map link (stored_all op n l) = map link l.
Proof.
  induction l as [|x l IH]; intros n; [done|]. simpl. rewrite IH. f_equal. unfold stored. by case_match.
Qed.

Lemma page_ok_small p : page_ok p -> PageGetMaxOffsetNumber p < 1000.
Proof.
  intros Hp. assert (fits p []) as Hf by (split_and!; [apply Hp|done|simpl; apply Hp]).
  pose proof (fits_small _ _ Hf). simpl in *. unfold PageGetMaxOffsetNumber. lia.
Qed.

Lemma page_ok_first p : page_ok p -> P_FIRSTDATAKEY (opaque p) <= PageGetMaxOffsetNumber p + 1.
Proof. intros Hp. pose proof (data_lines_length p Hp). lia. Qed.

(** ** A page of the tree as a page of bytes *)

Section Layout.
Context (enc : BTItem -> Z -> Z).

Definition line_bytes (x : Z * BTItem) : list Z := map (enc x.2) (seqZ 0 x.1).

(** The page holds the lines, packed against the special space. *)
Record layout (q : Page) (p : BTPage) : Prop := {
  lay_wf : page_wf q;
  lay_special : pd_special q = BLCKSZ - MAXALIGN sizeof_BTPageOpaqueData;
  lay_upper : pd_upper q = pd_special q - (lines_space (lines p) - 8 * Zlen (lines p));
  lay_items : items q = map (fun x => Some (line_bytes x)) (lines p) }.

Lemma layout_nlines q p : layout q p -> nlines q = Zlen (lines p).
Proof.
  intros H. rewrite <- items_length by apply (pw_count q (lay_wf q p H)). by rewrite (lay_items q p H), length_map.
Qed.

Lemma layout_free q p : layout q p -> pd_upper q - pd_lower q = page_free p.
Proof.
  intros H. rewrite (pw_lower q (lay_wf q p H)), (lay_upper q p H), (lay_special q p H), (layout_nlines q p H).
  unfold page_free, page_room, sizeof_ItemIdData. lia.
Qed.
End Layout.

(** ** Properties *)

(** The binary search is a search: on a page in key order and for a scan key on
    any leading attributes, a leaf yields the first item not below the key,
    which may be one past the last, and an inner page the last item below the
    key, the first item counting as below everything. *)
Theorem bt_binsrch_correct procs p keysz it :
  Forall OrderProc procs -> page_ok p -> page_sorted procs p ->
  let sk := _bt_mkscankey procs it in
  let first := P_FIRSTDATAKEY (opaque p) in
  let max := PageGetMaxOffsetNumber p in
  let r := _bt_binsrch p keysz sk in
  if P_ISLEAF (opaque p) then
    first <= r <= max + 1 /\ (forall i, first <= i < r -> 0 < _bt_compare keysz sk p i) /\
    (forall i, r <= i <= max -> _bt_compare keysz sk p i <= 0)
  else first <= max ->
    first <= r <= max /\ (forall i, first <= i <= r -> 0 < _bt_compare keysz sk p i) /\
    (forall i, r < i <= max -> _bt_compare keysz sk p i <= 0).
Proof.
  intros Hpr Hp Hs sk first max r. pose proof (page_ok_small p Hp) as Hsm. pose proof (page_ok_first p Hp) as Hfm.
  fold first max in Hfm. fold max in Hsm. pose proof (page_sorted_for procs p keysz it Hpr Hs) as Hsf. fold sk in Hsf.
  destruct (Z.lt_ge_cases max first) as [He|Hne].
  - destruct (P_ISLEAF (opaque p)); [|lia]. assert (r = first) as ->.
    { unfold r, _bt_binsrch. fold first max. by destruct (Z.ltb_spec max first); [|lia]. }
    split_and!; intros; lia.
  - destruct (binsrch_split p keysz sk) as (r' & E & R1 & R2 & R3); [fold max; lia|done|done|].
    fold first max r in E, R1, R2, R3. destruct (P_ISLEAF (opaque p)) eqn:El; [by subst r'|].
    intros _. assert (first < r').
    { destruct (Z.lt_ge_cases first r'); [done|]. specialize (R3 first ltac:(lia)).
      unfold _bt_compare in R3. fold first in R3. rewrite El, Z.eqb_refl in R3. done. }
    split_and!; [lia|lia| |]; intros i Hi; [apply R2|apply R3]; lia.
Qed.

(** C17 A page that is full can be split: for items of at most a third of a page, a
    feasible split point is found for every position of the new item (the
    [elog(FATAL)] for the case that there is none is dead code), and the split at
    that point succeeds unless the new item is to be the first one of the right
    page and is larger than the item it displaces.  The two halves are pages
    again; they hold the old items and the new one in order, the left one's high
    key is the right one's first item, and the right one inherits the old high
    key. *)
Theorem bt_split_correct p buf rbuf newoff newsz newitem :
  page_ok p -> line_ok (newsz, newitem) -> PageGetFreeSpace p < newsz -> rbuf <> P_NONE ->
  P_FIRSTDATAKEY (opaque p) <= newoff <= PageGetMaxOffsetNumber p + 1 ->
  let nd := new_data newsz newitem (Z.to_nat (newoff - P_FIRSTDATAKEY (opaque p))) (data_lines p) in
  exists fr onleft, _bt_findsplitloc p newoff newsz = Ok (fr, onleft) /\
  P_FIRSTDATAKEY (opaque p) <= fr <= PageGetMaxOffsetNumber p /\
  ((onleft = false -> newoff = fr -> newsz <= ItemIdGetLength p fr) ->
   exists l r loc, _bt_split p buf rbuf fr newoff newsz newitem onleft = Ok (l, r, loc) /\
     page_ok l /\ page_ok r /\ opaque l = left_opaque p rbuf /\ opaque r = right_opaque p buf /\
     map link (data_lines l ++ data_lines r) = map link nd /\
     (P_ISLEAF (opaque p) = true -> data_lines l ++ data_lines r = nd) /\
     (exists hk, hikey_lines l = [hk] /\ nd !! length (data_lines l) = Some hk) /\
     hikey_lines r = hikey_lines p).
Proof.
  intros Hp Hnew Hfree Hrb Hoff nd. pose proof Hnew as [H8 Hsz]. cbn [fst] in *.
  destruct (findsplitloc_ok p newoff newsz Hp H8 Hsz Hfree Hoff) as (k & onleft & E & Hs).
  eexists _, onleft. split; [exact E|]. pose proof (data_lines_length p Hp) as Hlen.
  pose proof Hs as (x & Hx & _). pose proof (lookup_lt_Some _ _ _ Hx) as Hk.
  split; [lia|]. intros Hhk.
  assert (line_ok x) as Hxok by exact (Forall_lookup_1 _ _ _ _ (proj1 (page_ok_data p Hp)) Hx).
  assert (ItemIdGetLength p (P_FIRSTDATAKEY (opaque p) + Z.of_nat k) = x.1) as El.
  { destruct (first_data_cases (opaque p)) as [Ef|Ef]; unfold data_lines in Hx; rewrite lookup_drop in Hx;
      unfold ItemIdGetLength, aget; rewrite Ef in *.
    - destruct (Z.ltb_spec (1 + Z.of_nat k - 1) 0); [lia|].
      by replace (Z.to_nat (1 + Z.of_nat k - 1)) with (Z.to_nat (1 - 1) + k)%nat by lia; rewrite Hx.
    - destruct (Z.ltb_spec (2 + Z.of_nat k - 1) 0); [lia|].
      by replace (Z.to_nat (2 + Z.of_nat k - 1)) with (Z.to_nat (2 - 1) + k)%nat by lia; rewrite Hx. }
  destruct (bt_split_ok p buf rbuf newoff newsz newitem k onleft Hp Hnew Hoff) as (hk & Hcut & Es & Pl & Pr).
  { exact Hs. }
  { intros y Hy Ho En. rewrite Hx in Hy. injection Hy as <-. specialize (Hhk Ho En).
    rewrite (proj1 (line_space_ok x Hxok)). lia. }
  fold nd in Hcut, Es, Pl, Pr. set (m := if onleft then S k else k) in *.
  destruct (left_half_data p rbuf hk m nd Hrb) as [L1 L2]. destruct (right_half_data p buf m nd Hp) as [R1 R2].
  eexists _, _, _. split; [exact Es|]. split_and!; [done|done|done|done| | | |done].
  - rewrite L1, R1, map_app, !stored_all_link, <- map_app, take_drop. done.
  - intros Hleaf. rewrite L1, R1, !stored_all_id, take_drop; [done|left|left]; unfold P_ISLEAF; simpl;
      by rewrite isleaf_noroot.
  - exists hk. split; [done|]. rewrite L1, stored_all_length, length_take.
    apply lookup_lt_Some in Hcut as Hm. by replace (m `min` length nd)%nat with m by lia.
Qed.

(** The one case the split point does not account for happens: [_bt_findsplitloc]
    counts the item at the split point as the left page's high key also when the
    new item will be it.  Here a page of four items takes a new one, of an
    admissible size, before the last; the split point found is feasible by its
    own reckoning, and the split fails, which is [elog(FATAL)]. *)
Theorem bt_split_hikey_overflow :
  let it k := mkBTItem 1 k 0 [Some (Val k)] in
  let p := mkBTPage (mkOpaque 0 0 0 (BTP_LEAF + BTP_ROOT)) [(184, it 1); (2696, it 2); (2696, it 3); (16, it 5)] in
  page_ok p /\ line_ok (2696, it 4) /\ page_sorted [btint4cmp] p /\ PageGetFreeSpace p < 2696 /\
  _bt_binsrch p 1 (_bt_mkscankey [btint4cmp] (it 4)) = 4 /\ _bt_findsplitloc p 4 2696 = Ok (4, false) /\
  _bt_split p 1 2 4 4 2696 (it 4) false = Err "btree: failed to add item".
Proof.
  intros it p. assert (forall sz i, In (sz, i) (lines p ++ [(2696, it 4)]) -> line_ok (sz, i)) as Hok.
  { intros sz i Hin. assert (sz = 184 \/ sz = 2696 \/ sz = 16) as Hsz by (simpl in Hin; naive_solver).
    split; simpl; [|change (16 <= sz <= 2701); lia].
    destruct Hsz as [-> | [-> | ->]]; [by exists 23|by exists 337|by exists 2]. }
  split; [split|split_and!].
  - rewrite Forall_forall. intros [sz i] Hin%list_elem_of_In. apply Hok, in_or_app. by left.
  - vm_compute. done.
  - done.
  - apply (Hok 2696 (it 4)). simpl. auto 10.
  - repeat constructor; vm_compute; done.
  - vm_compute. done.
  - vm_compute. done.
  - vm_compute. done.
  - vm_compute. done.
Qed.

(** C18 The list of lines is what the bytes of the page hold.  On a page laid out in
    [Bufpage], the number of items and the free space are those of the list, and
    adding an item succeeds on the bytes exactly when it does on the list and
    leaves the layout of the new list. *)
Theorem bt_page_layout enc q p it size o :
  layout enc q p -> 0 <= size < 2 ^ 16 -> 1 <= o <= PageGetMaxOffsetNumber p + 1 ->
  Bufpage.PageGetMaxOffsetNumber q = PageGetMaxOffsetNumber p /\
  Bufpage.PageGetFreeSpace q = PageGetFreeSpace p /\
  exists o' q', Bufpage.PageAddItem true q (enc it) size o LP_USED = Ok (o', q') /\
    match PageAddItem p it size o with
    | Some p' => o' = o /\ layout enc q' p'
    | None => o' = InvalidOffsetNumber
    end.
Proof.
  intros Hl Hsize Ho. pose proof (lay_wf enc q p Hl) as Hwf. pose proof (layout_nlines enc q p Hl) as Hn.
  pose proof (layout_free enc q p Hl) as Hfree. pose proof (pw_free q Hwf) as Hpf.
  destruct (max_offset_nlines q Hwf) as [Hmo _]. unfold PageGetMaxOffsetNumber in *.
  split; [by rewrite Hmo|]. split.
  { unfold Bufpage.PageGetFreeSpace, PageGetFreeSpace. rewrite <- Hfree.
    destruct (Z.ltb_spec (pd_upper q) (pd_lower q)); [lia|]. done. }
  assert (item_fits q o size = (line_space (size, it) <=? page_free p)) as Hfits.
  { unfold item_fits, lines_after, line_space, InvalidOffsetNumber. destruct (Z.eqb_spec o 0); [lia|].
    rewrite <- Hfree. pose proof (pw_lower q Hwf). cbn [fst]. unfold sizeof_ItemIdData in *.
    apply eq_true_iff_eq. rewrite !Z.leb_le. lia. }
  destruct (PageAddItem_refines true q (enc it) size o LP_USED) as (o' & q' & E & Hr & _); [done|done|done| |].
  { right. split; [done|lia]. }
  exists o', q'. split; [done|]. unfold PageAddItem. rewrite Hfits in Hr.
  destruct (line_space (size, it) <=? page_free p) eqn:Ef; [|done].
  destruct Hr as [Hwf' Hr]. unfold InvalidOffsetNumber in Hr. destruct (Z.eqb_spec o 0); [lia|].
  destruct Hr as [-> Hit]. split; [done|].
  rewrite PageAddItem_shuffle, Hfits in E by (done || lia). injection E as <-.
  split; [done|apply Hl| |].
  - cbn [place pd_upper pd_special set_lines lines]. rewrite (lay_upper enc q p Hl), length_app, length_take, lines_space_app.
    cbn [lines_space length]. rewrite length_drop, (lines_space_split (Z.to_nat (o - 1)) (lines p)).
    unfold line_space. cbn [fst]. unfold sizeof_ItemIdData. lia.
  - rewrite Hit, (lay_items enc q p Hl). unfold insert_at. cbn [set_lines lines].
    rewrite map_app, map_cons, firstn_map, skipn_map. done.
Qed.
(** ** Witnesses *)

Definition demo_item (k : Z) : BTItem := mkBTItem 1 k 0 [Some (Val k)].
Definition demo_bt : BTPage :=
  mkBTPage (mkOpaque 0 0 0 (BTP_LEAF + BTP_ROOT))
    [(2000, demo_item 1); (2000, demo_item 2); (2000, demo_item 4); (2000, demo_item 5)].

Lemma demo_line_ok k : line_ok (2000, demo_item k).
Proof. split; [by exists 250|]. change (16 <= 2000 <= 2701). lia. Qed.

Lemma demo_bt_ok : page_ok demo_bt.
Proof. split; [repeat constructor; apply demo_line_ok|vm_compute; done|done]. Qed.

Lemma demo_bt_sorted : page_sorted [btint4cmp] demo_bt.
Proof. repeat constructor; vm_compute; done. Qed.

Lemma bt_binsrch_correct_witness :
  _bt_binsrch demo_bt 1 (_bt_mkscankey [btint4cmp] (demo_item 3)) = 3 /\
  (forall i, 1 <= i < 3 -> 0 < _bt_compare 1 (_bt_mkscankey [btint4cmp] (demo_item 3)) demo_bt i).
Proof.
  split; [reflexivity|].
  assert (Forall OrderProc [btint4cmp]) as Hpr by (constructor; [apply _|by constructor]).
  exact (proj1 (proj2 (bt_binsrch_correct [btint4cmp] demo_bt 1 (demo_item 3) Hpr demo_bt_ok demo_bt_sorted))).
Defined.

Lemma bt_split_correct_witness : exists fr onleft l r loc,
  _bt_split demo_bt 1 2 fr 3 2000 (demo_item 3) onleft = Ok (l, r, loc) /\
  data_lines l ++ data_lines r = map (fun k => (2000, demo_item k)) [1; 2; 3; 4; 5].
Proof.
  assert (PageGetFreeSpace demo_bt < 2000) as Hfree by (vm_compute; done).
  assert (P_FIRSTDATAKEY (opaque demo_bt) <= 3 <= PageGetMaxOffsetNumber demo_bt + 1) as Hoff
    by (vm_compute; split; discriminate).
  destruct (bt_split_correct demo_bt 1 2 3 2000 (demo_item 3) demo_bt_ok (demo_line_ok 3) Hfree ltac:(done) Hoff)
    as (fr & onleft & E & _ & H). destruct H as (l & r & loc & Es & _ & _ & _ & _ & _ & Hd & _).
  { intros _ <-. vm_compute. done. }
  exists fr, onleft, l, r, loc. split; [exact Es|]. exact (Hd eq_refl).
Defined.

Definition demo_bytes : Page := PageInit BLCKSZ sizeof_BTPageOpaqueData (mkPage 0 0 0 0 0 (fun _ => no_item) (fun _ => 0)).

Lemma demo_layout : layout (fun it i => u8 (t_posid it + i)) demo_bytes _bt_pageinit.
Proof.
  split; [|reflexivity|reflexivity|reflexivity].
  split; [done|done|done|by exists 1020|vm_compute; split; discriminate|by exists 1020|].
  change (nlines _) with 0. split; unfold below; intros; lia.
Qed.

Lemma bt_page_layout_witness : exists o' q',
  Bufpage.PageAddItem true demo_bytes (fun i => u8 (7 + i)) 24 1 LP_USED = Ok (o', q') /\ o' = 1.
Proof.
  destruct (bt_page_layout _ _ _ (demo_item 7) 24 1 demo_layout ltac:(lia) ltac:(vm_compute; split; discriminate))
    as (_ & _ & o' & q' & E & H).
  exists o', q'. split; [exact E|]. vm_compute in H. exact (proj1 H).
Defined.

End Nbtree.
