(* ===== verification/NbtTree.v ===== *)
(** * B-trees: searching and inserting ([access/nbtree/nbtsearch.c], [nbtinsert.c], [nbtpage.c])

    The pages of an index form a tree of doubly linked levels.  Searching descends
    from the root and moves right where a page has been split; inserting splits
    full pages and inserts the new page's downlink one level up.

    The state is the file: its pages by block number and the two fields of the
    meta page.  One thread runs at a time, so locks and pins have no effect and
    are left out.  Three things come from outside: [alloc] is the block
    [AllocateMoreSpace] hands out, [tired] the outcomes of the random choice in
    [_bt_insertonpg], and the support functions of the index.

    The invariant [tree_ok] describes the file by its levels, leaves first. *)

From S2P Require Import Prelude.
From S2P Require Import Bufpage.
From S2P Require Import Heaptuple.
From S2P Require Import Nbtcompare.
From S2P Require Import Nbtree.
From Stdlib Require Import Sorting.Sorted.

Module NbtTree.
Import Heaptuple Nbtcompare Nbtree.

(** ** State *)

Record Index := mkIndex {
  pages : gmap Z BTPage;
  btm_root : Z;
  btm_level : Z }.

Definition set_page (idx : Index) (blk : Z) (p : BTPage) : Index :=
  mkIndex (<[blk := p]> (pages idx)) (btm_root idx) (btm_level idx).
Definition set_root (idx : Index) (root level : Z) : Index := mkIndex (pages idx) root level.

(** [_bt_getbuf] of an existing block. *)
Definition getpage (idx : Index) (blk : Z) : result BTPage :=
  match pages idx !! blk with Some p => Ok p | None => Err "error reading index page" end.

Record BTStackData := mkStack {
  bts_blkno : Z;
  bts_offset : Z;
  bts_btitem : BTItem }.

Definition set_prev (p : BTPage) (prev : Z) : BTPage :=
  set_opaque p (mkOpaque prev (btpo_next (opaque p)) (btpo_parent (opaque p)) (btpo_flags (opaque p))).
Definition set_parent (p : BTPage) (parent : Z) : BTPage :=
  set_opaque p (mkOpaque (btpo_prev (opaque p)) (btpo_next (opaque p)) parent (btpo_flags (opaque p))).

(** ** Searching *)

(** The test of the [while] loop of [_bt_moveright]. *)
Definition must_move (p : BTPage) (keysz : Z) (sk : list ScanKeyData) : bool :=
  negb (P_RIGHTMOST (opaque p)) &&
  ((btpo_parent (opaque p) =? InvalidBlockNumber) ||
   (negb (P_ISLEAF (opaque p)) && _bt_empty p) || (_bt_compare keysz sk p P_HIKEY >? 0)).

(** [fuel] bounds the number of pages visited. *)
Fixpoint _bt_moveright (fuel : nat) (idx : Index) (buf keysz : Z) (sk : list ScanKeyData) : result Z :=
  match fuel with
  | O => Err "fuel"
  | S fuel =>
      p ← getpage idx buf;
      if must_move p keysz sk then _bt_moveright fuel idx (btpo_next (opaque p)) keysz sk else Ok buf
  end.

(** The loop of [_bt_search]: once per level. *)
Fixpoint search_loop (fuel : nat) (idx : Index) (current keysz : Z) (sk : list ScanKeyData)
    (stack_in : list BTStackData) : result (list BTStackData * Z) :=
  match fuel with
  | O => Err "fuel"
  | S fuel =>
      current ← _bt_moveright (S (size (pages idx))) idx current keysz sk;
      p ← getpage idx current;
      if P_ISLEAF (opaque p) then Ok (stack_in, current)
      else
        let offnum := _bt_binsrch p keysz sk in
        let btitem := PageGetItem p offnum in
        search_loop fuel idx (t_blkno btitem) keysz sk
          (mkStack current offnum (mkBTItem (t_blkno btitem) (t_posid btitem) (t_info btitem) []) :: stack_in)
  end.

Section Tree.
Context (alloc : gmap Z BTPage -> Z).

(** [_bt_tryroot]: the root, created on demand. *)
Definition _bt_tryroot (idx : Index) (create : bool) : result (option Z * Index) :=
  let root := btm_root idx in
  if root =? P_NONE then
    if negb create then Ok (None, idx)
    else
      let root := alloc (pages idx) in
      let op := opaque _bt_pageinit in
      let rootpage := set_opaque _bt_pageinit
        (mkOpaque (btpo_prev op) (btpo_next op) BTREE_METAPAGE (Z.lor (btpo_flags op) (Z.lor BTP_LEAF BTP_ROOT))) in
      Ok (Some root, set_root (set_page idx root rootpage) root 1)
  else _ ← getpage idx root; Ok (Some root, idx).

(** [_bt_getroot]: from a page that is no longer the root, up through the parents. *)
Fixpoint getroot_loop (fuel : nat) (idx : Index) (root : Z) : result Z :=
  match fuel with
  | O => Err "fuel"
  | S fuel =>
      p ← getpage idx root;
      if P_ISROOT (opaque p) then Ok root else getroot_loop fuel idx (btpo_parent (opaque p))
  end.

Definition _bt_getroot (idx : Index) (create : bool) : result (option Z * Index) :=
  r ← _bt_tryroot idx create;
  match r with
  | (None, idx) => Ok (None, idx)
  | (Some root, idx) => root ← getroot_loop (S (size (pages idx))) idx root; Ok (Some root, idx)
  end.

(** [_bt_search]: the stack of parents and the leaf, or nothing for an empty index
    that is only read. *)
Definition _bt_search (idx : Index) (keysz : Z) (sk : list ScanKeyData) (create : bool) :
    result (option (list BTStackData * Z) * Index) :=
  r ← _bt_getroot idx create;
  match r with
  | (None, idx) => Ok (None, idx)
  | (Some root, idx) => s ← search_loop (S (size (pages idx))) idx root keysz sk []; Ok (Some s, idx)
  end.

(** ** Inserting *)

(** [for (offnum = start; offnum <= maxoff; ...)] of [_bt_getstackbuf]: [n] offsets are left. *)
Fixpoint find_item (n : nat) (offnum : Z) (p : BTPage) (it : BTItem) : option Z :=
  match n with
  | O => None
  | S n => if BTItemSame (PageGetItem p offnum) it then Some offnum else find_item n (offnum + 1) p it
  end.

Fixpoint getstack_loop (fuel : nat) (idx : Index) (blkno start : Z) (it : BTItem) : result (option (Z * Z)) :=
  match fuel with
  | O => Err "fuel"
  | S fuel =>
      p ← getpage idx blkno;
      let start := if start <? P_FIRSTDATAKEY (opaque p) then P_FIRSTDATAKEY (opaque p) else start in
      match find_item (Z.to_nat (PageGetMaxOffsetNumber p - start + 1)) start p it with
      | Some offnum => Ok (Some (blkno, offnum))
      | None => if P_RIGHTMOST (opaque p) then Ok None
                else getstack_loop fuel idx (btpo_next (opaque p)) InvalidOffsetNumber it
      end
  end.

(** The page and offset of the item the stack entry names, at or right of the entry. *)
Definition _bt_getstackbuf (idx : Index) (st : BTStackData) : result (option (Z * Z)) :=
  getstack_loop (S (size (pages idx))) idx (bts_blkno st) (bts_offset st) (bts_btitem st).

(** [_bt_newroot]: a root above the halves of the old one. *)
Definition _bt_newroot (idx : Index) (lbkno rbkno : Z) : result Index :=
  let rootblknum := alloc (pages idx) in
  let op := opaque _bt_pageinit in
  let rootpage := set_opaque _bt_pageinit (mkOpaque P_NONE P_NONE BTREE_METAPAGE (Z.lor (btpo_flags op) BTP_ROOT)) in
  lpage ← getpage idx lbkno;
  rpage ← getpage idx rbkno;
  let idx := set_page (set_page idx lbkno (set_parent lpage rootblknum)) rbkno (set_parent rpage rootblknum) in
  match PageAddItem rootpage (mkBTItem lbkno P_HIKEY sizeof_BTItemData []) sizeof_BTItemData P_HIKEY with
  | None => Err "btree: failed to add leftkey to new root page"
  | Some rootpage =>
      match PageAddItem rootpage (ItemPointerSet (PageGetItem lpage P_HIKEY) rbkno P_HIKEY)
              (ItemIdGetLength lpage P_HIKEY) P_FIRSTKEY with
      | None => Err "btree: failed to add rightkey to new root page"
      | Some rootpage => Ok (set_root (set_page idx rootblknum rootpage) rootblknum (btm_level idx + 1))
      end
  end.

(** The walk right over pages that end in the new key, while they have no room and
    the random choice allows it. *)
Fixpoint dup_right (fuel : nat) (tired : nat -> bool) (idx : Index) (buf keysz : Z) (sk : list ScanKeyData)
    (itemsz : Z) (movedright : bool) : result (Z * bool) :=
  match fuel with
  | O => Err "fuel"
  | S fuel =>
      p ← getpage idx buf;
      if ((btpo_parent (opaque p) =? InvalidBlockNumber) || (PageGetFreeSpace p <? itemsz)) &&
         negb (P_RIGHTMOST (opaque p)) && (_bt_compare keysz sk p P_HIKEY =? 0) && negb (tired fuel)
      then dup_right fuel tired idx (btpo_next (opaque p)) keysz sk itemsz true
      else Ok (buf, movedright)
  end.

(** The effects of [_bt_split] on the file: both halves and the right neighbour. *)
Definition write_split (idx : Index) (buf rbuf : Z) (lpage rpage : BTPage) : result Index :=
  idx' ← (if P_RIGHTMOST (opaque rpage) then Ok idx
          else s ← getpage idx (btpo_next (opaque rpage));
               Ok (set_page idx (btpo_next (opaque rpage)) (set_prev s rbuf)));
  Ok (set_page (set_page idx' buf lpage) rbuf rpage).

(** [_bt_insertonpg] once the page and the offset are known: the file afterwards and
    the place of the new item.  [insert_parent] is the recursive call. *)
Definition insert_here
    (insert_parent : Index -> Z -> list BTStackData -> BTItem -> Z -> result (Index * option (Z * Z)))
    (idx : Index) (buf : Z) (stack : list BTStackData) (btitem : BTItem) (itemsz newitemoff : Z) :
    result (Index * option (Z * Z)) :=
  p ← getpage idx buf;
  if PageGetFreeSpace p <? itemsz then
    let is_root := P_ISROOT (opaque p) in
    split ← _bt_findsplitloc p newitemoff itemsz;
    let '(fr, onleft) := split in
    let rbuf := alloc (pages idx) in
    halves ← _bt_split p buf rbuf fr newitemoff itemsz btitem onleft;
    let '(lpage, rpage, loc) := halves in
    idx ← write_split idx buf rbuf lpage rpage;
    if is_root then
      match stack with
      | [] => idx ← _bt_newroot idx buf rbuf; Ok (idx, loc)
      | _ :: _ => Err "Assert(stack == NULL)"
      end
    else
      parent ← (match stack with
                | [] => if BTreeInvalidParent (opaque lpage) then Err "bt_insertonpg: no root page found"
                        else Ok (mkStack (btpo_parent (opaque lpage)) InvalidOffsetNumber null_item, [])
                | e :: stack => Ok (e, stack)
                end);
      let '(e, stack) := parent in
      let new_item := ItemPointerSet (PageGetItem lpage P_HIKEY) rbuf P_HIKEY in
      let e := mkStack (bts_blkno e) (bts_offset e) (ItemPointerSet (bts_btitem e) buf P_HIKEY) in
      pbuf ← _bt_getstackbuf idx e;
      match pbuf with
      | None => Err "_bt_getstackbuf: my bits moved right off the end of the world!"
      | Some (pbuf, off) => r ← insert_parent idx pbuf stack new_item off; Ok (r.1, loc)
      end
  else
    p ← _bt_pgaddtup p itemsz btitem newitemoff;
    Ok (set_page idx buf p, Some (buf, newitemoff)).

(** [fuel] bounds the levels. *)
Fixpoint _bt_insertonpg (fuel : nat) (tired : nat -> bool) (idx : Index) (buf : Z) (stack : list BTStackData)
    (keysz : Z) (sk : list ScanKeyData) (btitem : BTItem) (afteritem : Z) : result (Index * option (Z * Z)) :=
  match fuel with
  | O => Err "fuel"
  | S fuel =>
      let itemsz := MAXALIGN (IndexTupleDSize btitem) in
      if itemsz >? BTMaxItemSize then Err "btree: index item size exceeds maximum"
      else
        place ← (if afteritem >? 0 then Ok (buf, afteritem + 1)
                 else
                   r ← dup_right (S (size (pages idx))) tired idx buf keysz sk itemsz false;
                   p ← getpage idx r.1;
                   Ok (r.1, if r.2 : bool then P_FIRSTDATAKEY (opaque p) else _bt_binsrch p keysz sk));
        let '(buf, newitemoff) := place in
        insert_here (fun idx pbuf stack new_item off => _bt_insertonpg fuel tired idx pbuf stack 0 [] new_item off)
          idx buf stack btitem itemsz newitemoff
  end.

(** [_bt_doinsert] of an index that is not unique: the uniqueness check, its wait for
    another transaction and the retry are left out. *)
Definition _bt_doinsert (procs : list (Datum -> Datum -> Z)) (tired : nat -> bool) (idx : Index) (btitem : BTItem) :
    result (Index * option (Z * Z)) :=
  let natts := Zlen procs in
  let sk := _bt_mkscankey procs btitem in
  r ← _bt_search idx natts sk true;
  match r with
  | (None, _) => Err "no root page"
  | (Some (stack, buf), idx) =>
      buf ← _bt_moveright (S (size (pages idx))) idx buf natts sk;
      _bt_insertonpg (S (S (length stack))) tired idx buf stack natts sk btitem 0
  end.

End Tree.
(** ** The tree *)

(** A level: its pages with their blocks, from left to right. *)
Notation level := (list (Z * BTPage)).
Notation procs_t := (list (Datum -> Datum -> Z)).

(** The key of the high key. *)
Definition hikey (p : BTPage) : option (list (option Datum)) :=
  match hikey_lines p with x :: _ => Some (t_key x.2) | [] => None end.

(** The sibling pointers of a level. *)
Fixpoint linked (prev : Z) (lv : level) : Prop :=
  match lv with
  | [] => True
  | (b, p) :: rest =>
      btpo_prev (opaque p) = prev /\
      btpo_next (opaque p) = match rest with [] => P_NONE | (b', _) :: _ => b' end /\ linked b rest
  end.

(** Every page but the last has a high key, and the high keys ascend. *)
Definition hk_le (procs : procs_t) (x y : Z * BTPage) : Prop :=
  exists a, hikey x.2 = Some a /\ forall b, hikey y.2 = Some b -> key_cmp 0 procs a b <= 0.
Notation hk_sorted procs := (StronglySorted (hk_le procs)).

(** The data of an inner page, ending in the high key [h], and the children it
    points to: the key of an item is the high key of the child before it, and the
    page ends where its last child does. *)
Record vseg (cs : level) (data : list (Z * BTItem)) (h : option (list (option Datum))) : Prop := {
  sg_ne : cs <> [];
  sg_links : map link data = map (fun c => (c.1, P_HIKEY)) cs;
  sg_keys : forall i x c, data !! S i = Some x -> cs !! i = Some c -> hikey c.2 = Some (t_key x.2);
  sg_last : forall c, last cs = Some c -> hikey c.2 = h }.
Definition seg (cs : level) (p : BTPage) : Prop := vseg cs (data_lines p) (hikey p).

(** A level of inner pages points to every page of the level below, in order. *)
Inductive covers : level -> level -> Prop :=
| cov_nil : covers [] []
| cov_cons cs C b p P : seg cs p -> covers C P -> covers (cs ++ C) ((b, p) :: P).

Lemma covers_app C P P' : covers C (P ++ P') -> exists C1 C2, C = C1 ++ C2 /\ covers C1 P /\ covers C2 P'.
Proof.
  revert C. induction P as [|[b p] P IH]; intros C H; simpl in H.
  - exists [], C. split_and!; [done|constructor|done].
  - inversion H as [|cs C' ? ? ? Hs Hc]; subst. destruct (IH _ Hc) as (C1 & C2 & -> & H1 & H2).
    exists (cs ++ C1), C2. rewrite (assoc_L (++)). split_and!; [done|by constructor|done].
Qed.

Lemma covers_join C1 P1 C2 P2 : covers C1 P1 -> covers C2 P2 -> covers (C1 ++ C2) (P1 ++ P2).
Proof.
  induction 1 as [|cs C b p P Hs Hc IH]; intros H2; [done|]. rewrite <- (assoc_L (++)). simpl.
  constructor; auto.
Qed.

Lemma covers_one C b p : covers C [(b, p)] -> seg C p.
Proof.
  intros H. inversion H as [|cs C' ? ? ? Hs Hc]; subst. inversion Hc; subst. by rewrite app_nil_r.
Qed.

Lemma covers_nil_l C : covers C [] -> C = [].
Proof. by inversion 1. Qed.

(** The last pages end together. *)
Lemma covers_last C P x : covers C P -> last P = Some x -> exists c, last C = Some c /\ hikey c.2 = hikey x.2.
Proof.
  intros H. revert x. induction H as [|cs C b p P Hs Hc IH]; intros x Hl; [done|].
  destruct P as [|y P].
  - apply covers_nil_l in Hc as ->. rewrite app_nil_r. simpl in Hl. injection Hl as <-.
    destruct (last cs) as [c|] eqn:E; [|by apply last_None in E; destruct (sg_ne _ _ _ Hs)].
    exists c. split; [done|]. by apply (sg_last _ _ _ Hs).
  - destruct (IH x Hl) as (c & Hc' & E). exists c. split; [|done]. by rewrite last_app, Hc'.
Qed.

Lemma StronglySorted_app_iff {A} (R : A -> A -> Prop) l1 l2 :
  StronglySorted R (l1 ++ l2) <->
  StronglySorted R l1 /\ StronglySorted R l2 /\ forall x y, x ∈ l1 -> y ∈ l2 -> R x y.
Proof.
  induction l1 as [|a l1 IH]; simpl.
  - split; [intros H|by intros (_ & H & _)]. split_and!; [constructor|done|]. intros x y Hx. by apply elem_of_nil in Hx.
  - split.
    + intros H. apply StronglySorted_inv in H as [H Ha]. apply IH in H as (H1 & H2 & H3).
      apply Forall_app in Ha as [Ha1 Ha2]. split_and!; [by constructor|done|].
      intros x y [->|Hx]%elem_of_cons Hy; [|by apply H3]. by eapply Forall_forall in Ha2.
    + intros (H1 & H2 & H3). apply StronglySorted_inv in H1 as [H1 Ha]. constructor.
      * apply IH. split_and!; [done|done|]. intros x y Hx. apply H3. by apply elem_of_cons; right.
      * apply Forall_app. split; [done|]. apply Forall_forall. intros y Hy. apply H3; [by apply elem_of_cons; left|done].
Qed.

Section Search.
Context (procs : procs_t) (n : Z) (it : BTItem).
Context (Hprocs : Forall OrderProc procs).

Let cp := take (Z.to_nat n) procs.
Let sk := _bt_mkscankey procs it.

Lemma cp_order : OrderProc (key_cmp 0 cp).
Proof. apply key_cmp_order. by apply Forall_take. Qed.

(** The key lies beyond the page. *)
Definition past (p : BTPage) : Prop := exists h, hikey p = Some h /\ 0 < key_cmp 0 cp (t_key it) h.

(** The page the key belongs to: the first one that does not end before it. *)
Definition target (l1 : level) (x : Z * BTPage) : Prop := Forall (fun y => past y.2) l1 /\ ~ past x.2.

Lemma past_mono x y : hk_le procs x y -> past y.2 -> past x.2.
Proof.
  intros (a & Ha & Hle) (b & Hb & Hk). exists a. split; [done|]. specialize (Hle b Hb).
  apply (key_cmp_prefix procs _ _ (Z.to_nat n)) in Hle. fold cp in Hle. destruct cp_order as [_ Ht].
  destruct (Z.lt_ge_cases 0 (key_cmp 0 cp (t_key it) a)) as [|Hge]; [done|].
  pose proof (Ht _ _ _ Hge Hle). lia.
Qed.

Lemma past_all lv x : hk_sorted procs lv -> last lv = Some x -> past x.2 -> Forall (fun y => past y.2) lv.
Proof.
  intros Hs Hl Hp. apply last_Some in Hl as [l' ->]. apply StronglySorted_app_iff in Hs as (_ & _ & H).
  apply Forall_app. split; [|by constructor]. apply Forall_forall. intros y Hy.
  eapply past_mono; [|exact Hp]. apply H; [done|]. by apply list_elem_of_singleton.
Qed.

(** High keys of inner levels ascend because those of the level below do. *)
Lemma covers_sorted C P : covers C P -> hk_sorted procs C -> hk_sorted procs P.
Proof.
  induction 1 as [|cs C b p P Hs Hc IH]; intros HC; [constructor|].
  apply StronglySorted_app_iff in HC as (H1 & H2 & H3). constructor; [by apply IH|].
  apply Forall_forall. intros y Hy. destruct (last cs) as [c|] eqn:El.
  2:{ by apply last_None in El; destruct (sg_ne _ _ _ Hs). }
  apply list_elem_of_split in Hy as (P1 & P2 & ->). rewrite cons_middle, (assoc_L (++)) in Hc.
  destruct (covers_app _ _ _ Hc) as (C1 & C2 & -> & Hc1 & _).
  destruct (covers_last C1 (P1 ++ [y]) y Hc1 (last_snoc _ _)) as (d & Hd & Ed).
  destruct (H3 c d) as (a & Ha & Hle).
  - apply last_Some in El as [? ->]. apply elem_of_app; right. by apply list_elem_of_singleton.
  - apply elem_of_app; left. apply last_Some in Hd as [? ->]. apply elem_of_app; right. by apply list_elem_of_singleton.
  - exists a. rewrite (sg_last _ _ _ Hs c El) in Ha. split; [done|]. by rewrite <- Ed.
Qed.
(** A page of the tree. *)
Record in_tree (leaf : bool) (p : BTPage) : Prop := {
  it_ok : page_ok p;
  it_leaf : P_ISLEAF (opaque p) = leaf;
  it_parent : btpo_parent (opaque p) <> InvalidBlockNumber;
  it_data : leaf = false -> data_lines p <> [] }.

Lemma hikey_rightmost p : page_ok p -> P_RIGHTMOST (opaque p) = true -> hikey p = None.
Proof.
  intros Hp Hr. unfold hikey. pose proof (hikey_lines_length p Hp) as Hl. unfold P_FIRSTDATAKEY in Hl. rewrite Hr in Hl.
  destruct (hikey_lines p); [done|]. simpl in Hl. unfold P_HIKEY in Hl. lia.
Qed.

Lemma hikey_item p : page_ok p -> P_RIGHTMOST (opaque p) = false ->
  exists x, hikey_lines p = [x] /\ lines p !! 0%nat = Some x /\ PageGetItem p P_HIKEY = x.2 /\ ItemIdGetLength p P_HIKEY = x.1.
Proof.
  intros Hp Hr. pose proof (hikey_lines_length p Hp) as Hl. unfold P_FIRSTDATAKEY in Hl. rewrite Hr in Hl.
  unfold hikey_lines, P_FIRSTDATAKEY in *. rewrite Hr in *. change (Z.to_nat (P_FIRSTKEY - 1)) with 1%nat in *.
  destruct (lines p) as [|x l] eqn:E; [done|]. simpl. rewrite take_0. exists x. split_and!; [done|done| |];
    unfold PageGetItem, ItemIdGetLength; by rewrite E.
Qed.

Lemma must_move_past leaf p : in_tree leaf p -> must_move p n sk = true <-> past p.
Proof.
  intros [Hp Hl Hpar Hd]. unfold must_move. destruct (P_RIGHTMOST (opaque p)) eqn:Hr.
  - split; [done|]. intros (h & Hh & _). rewrite (hikey_rightmost p Hp Hr) in Hh. done.
  - destruct (Z.eqb_spec (btpo_parent (opaque p)) InvalidBlockNumber); [done|].
    assert (negb (P_ISLEAF (opaque p)) && _bt_empty p = false) as ->.
    { rewrite Hl. destruct leaf; [done|]. specialize (Hd eq_refl). simpl. unfold _bt_empty.
      pose proof (data_lines_length p Hp). rewrite Z.gtb_ltb. destruct (data_lines p); [done|]. simpl in *.
      apply Z.ltb_ge. lia. }
    destruct (hikey_item p Hp Hr) as (x & Hx & _ & Hg & _). simpl. rewrite Z.gtb_ltb, Z.ltb_lt.
    unfold sk. rewrite bt_compare_key, Hg. 2:{ right. unfold P_FIRSTDATAKEY. by rewrite Hr. }
    unfold past, hikey. rewrite Hx. split; [eauto|]. by intros (h & [= <-] & ?).
Qed.

Lemma linked_app prev l1 l2 : linked prev (l1 ++ l2) -> exists prev', linked prev' l2.
Proof.
  revert prev. induction l1 as [|[b p] l1 IH]; intros prev H; [by exists prev|].
  destruct H as (_ & _ & H). by apply (IH b).
Qed.

Definition level_in_tree (leaf : bool) (lv : level) : Prop := Forall (fun x => in_tree leaf x.2) lv.

Section InIndex.
Context (idx : Index).

Definition level_in (leaf : bool) (lv : level) : Prop :=
  Forall (fun x => pages idx !! x.1 = Some x.2 /\ in_tree leaf x.2) lv.

(** From any page at or left of the target. *)
Lemma moveright_spec leaf l1 x l2 : forall prev fuel, level_in leaf (l1 ++ x :: l2) -> linked prev (l1 ++ x :: l2) ->
  target l1 x -> (length l1 < fuel)%nat -> forall b, head (map fst (l1 ++ [x])) = Some b ->
  _bt_moveright fuel idx b n sk = Ok x.1.
Proof.
  induction l1 as [|[b1 p1] l1 IH]; intros prev fuel Hin Hlk [Hpast Hx] Hf b Hb;
    (destruct fuel as [|fuel]; [lia|]); simpl in *; injection Hb as <-.
  - apply Forall_cons in Hin as [[Hpg Ht] _]. unfold getpage. rewrite Hpg. simpl.
    destruct (must_move x.2 n sk) eqn:E; [|done]. by apply (must_move_past leaf _ Ht) in E.
  - apply Forall_cons in Hin as [[Hpg Ht] Hin]. apply Forall_cons in Hpast as [Hp1 Hpast]. simpl in *.
    unfold getpage. rewrite Hpg. simpl. rewrite (proj2 (must_move_past leaf _ Ht) Hp1).
    destruct Hlk as (_ & Hnext & Hlk). apply (IH b1 fuel Hin Hlk); [done|lia|].
    rewrite Hnext. by destruct l1 as [|[b2 p2] l1]; [destruct x|].
Qed.
End InIndex.

Lemma seg_length cs p : seg cs p -> length (data_lines p) = length cs.
Proof. intros [_ H _ _]. apply (f_equal length) in H. by rewrite !length_map in H. Qed.

Lemma covers_count C P : covers C P -> length C = length (concat (map (fun y => data_lines y.2) P)).
Proof.
  induction 1 as [|cs C b p P Hs Hc IH]; [done|]. simpl. rewrite !length_app, IH. by rewrite (seg_length cs p).
Qed.

Lemma seg_link cs p i x : seg cs p -> data_lines p !! i = Some x ->
  exists c, cs !! i = Some c /\ t_blkno x.2 = c.1 /\ t_posid x.2 = P_HIKEY.
Proof.
  intros [_ H _ _] Hx. assert (map link (data_lines p) !! i = Some (link x)) as Hl by (by rewrite list_lookup_fmap, Hx).
  rewrite H, list_lookup_fmap in Hl. destruct (cs !! i) as [c|]; [|done]. simpl in Hl. exists c.
  unfold link in Hl. by simplify_eq.
Qed.

Lemma StronglySorted_intro {A} (R : A -> A -> Prop) l :
  (forall i j x y, (i < j)%nat -> l !! i = Some x -> l !! j = Some y -> R x y) -> StronglySorted R l.
Proof.
  induction l as [|a l IH]; intros H; constructor.
  - apply IH. intros i j x y Hij Hi Hj. apply (H (S i) (S j)); [lia|done|done].
  - apply Forall_lookup. intros j y Hj. apply (H 0%nat (S j)); [lia|done|done].
Qed.

(** An inner page is in order. *)
Lemma seg_sorted cs p : in_tree false p -> seg cs p -> hk_sorted procs cs -> page_sorted procs p.
Proof.
  intros [Hp Hl _ _] Hs Hc. unfold page_sorted, keyed_lines. rewrite Hl. apply StronglySorted_intro.
  intros i j x y Hij Hx Hy. rewrite lookup_drop in Hx, Hy. simpl in Hx, Hy.
  pose proof (seg_length _ _ Hs) as Hlen. pose proof (lookup_lt_Some _ _ _ Hx). pose proof (lookup_lt_Some _ _ _ Hy).
  destruct (lookup_lt_is_Some_2 cs i) as [c Hc1]; [lia|]. destruct (lookup_lt_is_Some_2 cs j) as [d Hd1]; [lia|].
  pose proof (sg_keys _ _ _ Hs i x c Hx Hc1) as E1. pose proof (sg_keys _ _ _ Hs j y d Hy Hd1) as E2.
  destruct (StronglySorted_lookup _ _ _ _ _ _ Hc Hij Hc1 Hd1) as (a & Ha & Hle).
  rewrite E1 in Ha. injection Ha as <-. by apply Hle.
Qed.

(** The descent from a page to the child the key belongs to. *)
Lemma descend_page cs p : in_tree false p -> seg cs p -> hk_sorted procs cs -> ~ past p ->
  let r := _bt_binsrch p n sk in
  exists d1 c d2, cs = d1 ++ c :: d2 /\ target d1 c /\ t_blkno (PageGetItem p r) = c.1 /\
    r = P_FIRSTDATAKEY (opaque p) + Zlen d1 /\ t_posid (PageGetItem p r) = P_HIKEY.
Proof.
  intros Ht Hs Hc Hnp r. pose proof Ht as [Hp Hl _ Hd]. pose proof (seg_length _ _ Hs) as Hlen.
  pose proof (data_lines_length p Hp) as Hmax. pose proof (page_ok_small p Hp) as Hsm.
  pose proof (seg_sorted cs p Ht Hs Hc) as Hps. set (first := P_FIRSTDATAKEY (opaque p)) in *.
  assert (length cs <> 0%nat) as Hne by (intros E; apply (sg_ne _ _ _ Hs); by destruct cs).
  destruct (binsrch_split p n sk) as (r' & E & R1 & R2 & R3);
    [lia|by apply page_sorted_for|fold first; lia|]. fold r in E. rewrite Hl in E. fold first in R1, R2.
  assert (first < r') as Hr'.
  { destruct (Z.lt_ge_cases first r'); [done|]. specialize (R3 first ltac:(lia)).
    unfold _bt_compare in R3. fold first in R3. rewrite Hl, Z.eqb_refl in R3. done. }
  set (k := Z.to_nat (r - first)). assert (Z.of_nat k = r - first) as Ek by lia.
  destruct (data_line p r) as (x & Hx & Hg); [fold first; lia|]. fold first in Hx. fold k in Hx.
  destruct (seg_link cs p k x Hs Hx) as (c & Hcl & Hb & Hps').
  assert (forall i d, cs !! i = Some d -> (S i < length cs)%nat ->
    hikey d.2 = Some (t_key (PageGetItem p (first + Z.of_nat (S i))))) as Hkey.
  { intros i d Hd' Hi. destruct (data_line p (first + Z.of_nat (S i))) as (y & Hy & ->); [fold first; lia|].
    fold first in Hy. replace (Z.to_nat _) with (S i) in Hy by lia. by apply (sg_keys _ _ _ Hs i y d). }
  assert (forall o, first < o -> _bt_compare n sk p o = key_cmp 0 cp (t_key it) (t_key (PageGetItem p o))) as Hcmp.
  { intros o Ho. apply bt_compare_key. right. fold first. lia. }
  exists (take k cs), c, (drop (S k) cs). pose proof (lookup_lt_Some _ _ _ Hcl) as Hk.
  split; [by rewrite take_drop_middle|]. rewrite Hg, length_take. split_and!; [|done|lia|done].
  split.
  - apply Forall_lookup. intros i d Hd'. apply lookup_take_Some in Hd' as [Hd' Hi].
    exists (t_key (PageGetItem p (first + Z.of_nat (S i)))).
    split; [apply Hkey; [done|lia]|]. rewrite <- Hcmp by lia. apply R2. lia.
  - intros (h & Hh & Hpos). destruct (decide (S k < length cs)%nat) as [Hlt|Hge].
    + rewrite (Hkey k c Hcl Hlt) in Hh. injection Hh as <-. rewrite <- Hcmp in Hpos by lia.
      specialize (R3 (first + Z.of_nat (S k)) ltac:(lia)). lia.
    + apply Hnp. exists h. split; [|done]. rewrite <- (sg_last _ _ _ Hs c); [done|].
      rewrite last_lookup. by replace (pred (length cs)) with k by lia.
Qed.

Lemma descend_level C P l1 x l2 : covers C P -> P = l1 ++ x :: l2 -> level_in_tree false P -> hk_sorted procs C ->
  target l1 x -> let r := _bt_binsrch x.2 n sk in
  exists d1 c d2, C = d1 ++ c :: d2 /\ target d1 c /\ t_blkno (PageGetItem x.2 r) = c.1 /\
    Zlen d1 = Zlen (concat (map (fun y => data_lines y.2) l1)) + (r - P_FIRSTDATAKEY (opaque x.2)) /\
    P_FIRSTDATAKEY (opaque x.2) <= r /\ t_posid (PageGetItem x.2 r) = P_HIKEY.
Proof.
  intros Hcov -> Hin HC [Hpast Hnp] r. destruct (covers_app _ _ _ Hcov) as (C1 & C2 & -> & H1 & H2).
  destruct x as [b p]. inversion H2 as [|cs C' ? ? ? Hs Hc]; subst. simpl in *.
  apply StronglySorted_app_iff in HC as (S1 & S2 & _). apply StronglySorted_app_iff in S2 as (S2 & _ & _).
  assert (in_tree false p) as Ht by (apply Forall_app in Hin as [_ Hin]; by apply Forall_cons in Hin as [? _]).
  destruct (descend_page cs p Ht Hs S2 Hnp) as (d1 & c & d2 & -> & [T1 T2] & Hb & Hr & Hpo). fold r in Hb, Hr, Hpo.
  exists (C1 ++ d1), c, (d2 ++ C'). split; [by rewrite <- !(assoc_L (++))|]. split_and!; [|done| |lia|done].
  - split; [|done]. apply Forall_app. split; [|done]. destruct (last l1) as [y|] eqn:El.
    + destruct (covers_last C1 l1 y H1 El) as (d & Hd & Ed). apply (past_all C1 d S1 Hd).
      unfold past. rewrite Ed. apply last_Some in El as [l' ->]. apply Forall_app in Hpast as [_ Hpast].
      by apply Forall_cons in Hpast as [? _].
    + apply last_None in El as ->. apply covers_nil_l in H1 as ->. constructor.
  - rewrite length_app. rewrite (covers_count _ _ H1). lia.
Qed.
End Search.
(** ** The invariant *)

(** The data items of a level in order, and each page's high key behind its data. *)
Definition level_data (lv : level) : list (Z * BTItem) := concat (map (fun x => data_lines x.2) lv).
Definition spine (lv : level) : list (Z * BTItem) := concat (map (fun x => data_lines x.2 ++ hikey_lines x.2) lv).

Lemma level_data_app a b : level_data (a ++ b) = level_data a ++ level_data b.
Proof. unfold level_data. by rewrite map_app, concat_app. Qed.
Lemma spine_app a b : spine (a ++ b) = spine a ++ spine b.
Proof. unfold spine. by rewrite map_app, concat_app. Qed.

Lemma spine_elem lv y z : y ∈ lv -> z ∈ data_lines y.2 ++ hikey_lines y.2 -> z ∈ spine lv.
Proof.
  intros Hy Hz. apply list_elem_of_In, in_concat. exists (data_lines y.2 ++ hikey_lines y.2).
  split; [|by apply list_elem_of_In]. apply (in_map (fun x => data_lines x.2 ++ hikey_lines x.2)). by apply list_elem_of_In.
Qed.

(** The levels of the file, leaves first: where the pages are and their pointers ... *)
Record levels_in (idx : Index) (L : list level) : Prop := {
  lo_in : forall l C, L !! l = Some C -> level_in idx (bool_decide (l = 0%nat)) C;
  lo_ne : Forall (fun C => C <> []) L;
  lo_linked : forall l C, L !! l = Some C -> linked P_NONE C;
  lo_nodup : NoDup (map fst (concat L));
  lo_none : P_NONE ∉ map fst (concat L) }.

(** ... and the root and its flag. *)
Record levels_ok (idx : Index) (L : list level) : Prop := {
  lo_levels :> levels_in idx L;
  lo_root : exists p, last L = Some [(btm_root idx, p)];
  lo_flags : forall l C x, L !! l = Some C -> x ∈ C -> P_ISROOT (opaque x.2) = bool_decide (S l = length L) }.

Definition covers_from (l0 : nat) (L : list level) : Prop :=
  forall l C P, (l0 <= l)%nat -> L !! l = Some C -> L !! S l = Some P -> covers C P.

(** The leaves are in order, high keys included. *)
Record tree_ok (procs : procs_t) (idx : Index) (L : list level) : Prop := {
  t_levels : levels_ok idx L;
  t_covers : covers_from 0 L;
  t_leaves : forall C, L !! 0%nat = Some C -> StronglySorted (key_le procs) (spine C) }.

Lemma level_in_concat {A} (L : list (list A)) l C x : L !! l = Some C -> x ∈ C -> x ∈ concat L.
Proof.
  intros HL Hx. apply list_elem_of_In, in_concat. exists C.
  split; apply list_elem_of_In; [by eapply list_elem_of_lookup_2|done].
Qed.

Lemma level_none idx L l C x : levels_in idx L -> L !! l = Some C -> x ∈ C -> x.1 <> P_NONE.
Proof.
  intros H HL Hx E. apply (lo_none _ _ H). rewrite <- E. apply list_elem_of_fmap_2.
  by eapply level_in_concat.
Qed.

(** No more pages than the file has. *)
Lemma levels_size idx L : levels_in idx L -> (length (concat L) <= size (pages idx))%nat.
Proof.
  intros H. rewrite <- (length_map fst), <- (size_list_to_set (C := gset Z) (map fst (concat L))) by apply H.
  rewrite <- size_dom. apply subseteq_size. intros b Hb. apply elem_of_list_to_set in Hb.
  apply list_elem_of_fmap in Hb as (x & -> & Hx). apply list_elem_of_In, in_concat in Hx as (C & HC & Hx).
  apply list_elem_of_In, list_elem_of_lookup in HC as [l HC].
  pose proof (lo_in _ _ H l C HC) as Hin. apply list_elem_of_In in Hx. eapply Forall_forall in Hin; [|exact Hx].
  apply elem_of_dom. rewrite (proj1 Hin). done.
Qed.

Lemma level_length_concat {A} (L : list (list A)) l C : L !! l = Some C -> (length C <= length (concat L))%nat.
Proof.
  revert l. induction L as [|D L IH]; intros [|l] H; [done|done| |]; simpl in *; rewrite length_app.
  - injection H as ->. lia.
  - specialize (IH l H). lia.
Qed.

Lemma levels_length {A} (L : list (list A)) : Forall (fun C => C <> []) L -> (length L <= length (concat L))%nat.
Proof.
  induction 1 as [|C L HC _ IH]; [done|]. simpl. rewrite length_app. destruct C; [done|]. simpl. lia.
Qed.

Lemma leaf_hk_sorted procs leaf lv : level_in_tree leaf lv -> Forall (fun x => x.1 <> P_NONE) lv ->
  StronglySorted (key_le procs) (spine lv) -> forall prev, linked prev lv -> hk_sorted procs lv.
Proof.
  induction lv as [|[b p] lv IH]; intros Hin Hn Hs prev Hl; [constructor|].
  apply Forall_cons in Hin as [Hp Hin]. apply Forall_cons in Hn as [_ Hn].
  change (spine ((b, p) :: lv)) with ((data_lines p ++ hikey_lines p) ++ spine lv) in Hs. destruct Hl as (_ & Hnext & Hl).
  apply StronglySorted_app_iff in Hs as (_ & Hs & Hle). constructor; [by apply (IH Hin Hn Hs b)|].
  apply Forall_forall. intros y Hy. destruct lv as [|[b' p'] lv]; [by apply elem_of_nil in Hy|].
  apply Forall_cons in Hn as [Hb' _]. destruct (hikey_item p) as (x & Hx & _); [apply Hp| |].
  { unfold P_RIGHTMOST. rewrite Hnext. by apply Z.eqb_neq. }
  exists (t_key x.2). unfold hikey at 1. simpl. rewrite Hx. split; [done|]. intros h Hh. unfold hikey in Hh.
  destruct (hikey_lines y.2) as [|z zs] eqn:Ez; [done|]. injection Hh as <-.
  apply (Hle x z).
  - rewrite Hx. apply elem_of_app. right. by left.
  - apply (spine_elem _ y); [done|]. apply elem_of_app. right. rewrite Ez. by left.
Qed.

Lemma level_in_pages idx leaf lv : level_in idx leaf lv -> level_in_tree leaf lv.
Proof. intros H. eapply Forall_impl; [exact H|]. by intros x [_ Hx]. Qed.

(** On every level the high keys ascend. *)
Lemma tree_hk_sorted procs idx L l C : Forall OrderProc procs -> tree_ok procs idx L -> L !! l = Some C ->
  hk_sorted procs C.
Proof.
  intros Hpr Ht. revert C. induction l as [|l IH]; intros C HC.
  - apply (leaf_hk_sorted procs true C) with (prev := P_NONE).
    + apply level_in_pages with idx. by apply (lo_in _ _ (t_levels _ _ _ Ht) 0%nat).
    + apply Forall_forall. intros x Hx. by eapply level_none; [apply Ht|exact HC|].
    + by apply (t_leaves _ _ _ Ht).
    + by eapply lo_linked; [apply Ht|].
  - destruct (lookup_lt_is_Some_2 L l) as [D HD]; [apply lookup_lt_Some in HC; lia|].
    apply (covers_sorted procs D); [|by apply IH]. by apply (t_covers _ _ _ Ht l); [lia|..].
Qed.

(** ** Searching *)

(** The stack: an entry per level above, each naming a page and an offset at or left
    of the link to child number [i]. *)
Fixpoint stack_ok (i : nat) (st : list BTStackData) (ups : list level) : Prop :=
  match st, ups with
  | [], [] => True
  | e :: st, P :: ups => exists j p, P !! j = Some (bts_blkno e, p) /\
      P_FIRSTDATAKEY (opaque p) <= bts_offset e /\
      Zlen (level_data (take j P)) + (bts_offset e - P_FIRSTDATAKEY (opaque p)) <= Z.of_nat i /\
      stack_ok j st ups
  | _, _ => False
  end.

Lemma stack_ok_mono i i' st ups : (i <= i')%nat -> stack_ok i st ups -> stack_ok i' st ups.
Proof.
  intros Hi. destruct st as [|e st], ups as [|P ups]; simpl; try done.
  intros (j & p & H1 & H2 & H3 & H4). exists j, p. split_and!; [done|done|lia|done].
Qed.

Lemma stack_ok_top i st l L : S l = length L -> stack_ok i st (drop (S l) L) -> st = [].
Proof. intros -> H. rewrite drop_all in H. by destruct st. Qed.

Section SearchTree.
Context (procs : procs_t) (n : Z) (it : BTItem) (idx : Index) (L : list level).
Context (Hprocs : Forall OrderProc procs) (Ht : tree_ok procs idx L).
Let sk := _bt_mkscankey procs it.

Lemma level_fuel l C : L !! l = Some C -> (length C < S (size (pages idx)))%nat.
Proof.
  intros H. pose proof (level_length_concat _ _ _ H). pose proof (levels_size _ _ (t_levels _ _ _ Ht)). lia.
Qed.

(** The search from level [l] down, starting on a page at or left of the target. *)
Lemma search_loop_spec l : forall C l1 x l2 l0 st fuel b, L !! l = Some C -> C = l0 ++ l1 ++ x :: l2 ->
  target procs n it (l0 ++ l1) x -> head (map fst (l1 ++ [x])) = Some b ->
  stack_ok (length (l0 ++ l1)) st (drop (S l) L) -> (l < fuel)%nat ->
  exists D d1 y d2 st', search_loop fuel idx b n sk st = Ok (st', y.1) /\
    L !! 0%nat = Some D /\ D = d1 ++ y :: d2 /\ target procs n it d1 y /\ stack_ok (length d1) st' (drop 1 L).
Proof.
  induction l as [|l IH]; intros C l1 x l2 l0 st fuel b HC -> [Tp Tn] Hb Hst Hf;
    (destruct fuel as [|fuel]; [lia|]); cbn [search_loop];
    pose proof (lo_in _ _ (t_levels _ _ _ Ht) _ _ HC) as Hin;
    pose proof (lo_linked _ _ (t_levels _ _ _ Ht) _ _ HC) as Hlk;
    pose proof (level_fuel _ _ HC) as Hfuel; rewrite !length_app in Hfuel;
    apply Forall_app in Tp as [Tp0 Tp1]; apply linked_app in Hlk as [prev Hlk];
    pose proof (proj2 (proj1 (Forall_app _ _ _) Hin)) as Hin1;
    (rewrite (moveright_spec procs n it idx _ l1 x l2 prev _ Hin1 Hlk (conj Tp1 Tn)) with (b := b) by (done || lia));
    simpl; pose proof (proj2 (proj1 (Forall_app _ _ _) Hin1)) as Hin2; apply Forall_cons in Hin2 as [[Hpg Hx] _];
    unfold getpage; rewrite Hpg; simpl; rewrite (it_leaf _ _ Hx).
  - rewrite bool_decide_true by done. eexists _, (l0 ++ l1), x, l2, st. split_and!; [done|exact HC|by rewrite (assoc_L (++))| |done].
    split; [by apply Forall_app|done].
  - rewrite bool_decide_false by lia.
    destruct (lookup_lt_is_Some_2 L l) as [D HD]; [apply lookup_lt_Some in HC; lia|].
    pose proof (t_covers _ _ _ Ht l D _ ltac:(lia) HD HC) as Hcov.
    destruct (descend_level procs n it Hprocs D _ (l0 ++ l1) x l2 Hcov) as (d1 & c & d2 & ED & TD & Hblk & Hpos & Hfirst & Hpo).
    { by rewrite (assoc_L (++)). }
    { apply level_in_pages with idx. done. }
    { by eapply tree_hk_sorted. }
    { split; [by apply Forall_app|done]. }
    fold sk in Hblk, Hpos, Hfirst, Hpo. set (r := _bt_binsrch x.2 n sk) in *.
    set (e := mkStack x.1 r _). rewrite Hblk.
    apply (IH D [] c d2 d1 (e :: st) fuel c.1 HD ED); [by rewrite app_nil_r|done| |lia].
    rewrite app_nil_r. rewrite (drop_S L _ (S l) HC). simpl. exists (length (l0 ++ l1)), x.2. split_and!; [| | |done].
    + rewrite (assoc_L (++)), lookup_app_r, Nat.sub_diag by done. by destruct x.
    + exact Hfirst.
    + rewrite (assoc_L (++)), take_app_length. fold (level_data (l0 ++ l1)) in Hpos. lia.
Qed.

Lemma root_level : exists l p, L !! l = Some [(btm_root idx, p)] /\ S l = length L /\
  pages idx !! btm_root idx = Some p /\ P_ISROOT (opaque p) = true /\ hikey p = None /\ btm_root idx <> P_NONE.
Proof.
  destruct Ht as [Hl _ _]. destruct (lo_root _ _ Hl) as [p Hp]. rewrite last_lookup in Hp.
  pose proof (lookup_lt_Some _ _ _ Hp) as Hlt. exists (pred (length L)), p.
  pose proof (lo_in _ _ Hl _ _ Hp) as Hin. apply Forall_cons in Hin as [[Hpg Hit] _].
  split_and!; [done|lia|done| | |].
  - pose proof (lo_flags _ _ Hl _ _ (btm_root idx, p) Hp ltac:(by left)) as E. simpl in E. rewrite E.
    apply bool_decide_true. lia.
  - apply hikey_rightmost; [apply Hit|]. destruct (lo_linked _ _ Hl _ _ Hp) as (_ & Hn & _). simpl in Hn.
    unfold P_RIGHTMOST. by rewrite Hn.
  - apply (level_none _ _ _ _ (btm_root idx, p) Hl Hp). by left.
Qed.

Lemma getroot_spec alloc create : _bt_getroot alloc idx create = Ok (Some (btm_root idx), idx).
Proof.
  destruct root_level as (l & p & _ & _ & Hpg & Hroot & _ & Hnz). unfold _bt_getroot, _bt_tryroot.
  destruct (Z.eqb_spec (btm_root idx) P_NONE); [done|]. unfold getpage. rewrite Hpg. cbn [mbind result_bind].
  cbn [getroot_loop]. unfold getpage. rewrite Hpg. cbn [mbind result_bind]. by rewrite Hroot.
Qed.

Lemma tree_search_spec alloc create : exists D d1 y d2 st, _bt_search alloc idx n sk create = Ok (Some (st, y.1), idx) /\
    L !! 0%nat = Some D /\ D = d1 ++ y :: d2 /\ target procs n it d1 y /\ stack_ok (length d1) st (drop 1 L).
Proof.
  destruct root_level as (l & p & HC & Hlen & Hpg & Hroot & Hhk & Hnz).
  destruct (search_loop_spec l _ [] (btm_root idx, p) [] [] [] (S (size (pages idx))) (btm_root idx) HC)
    as (D & d1 & y & d2 & st & E & H); try done.
  - split; [constructor|]. intros (h & Hh & _). simpl in Hh. by rewrite Hhk in Hh.
  - by rewrite drop_ge by lia.
  - pose proof (levels_size _ _ (t_levels _ _ _ Ht)). pose proof (levels_length L (lo_ne _ _ (t_levels _ _ _ Ht))). lia.
  - exists D, d1, y, d2, st. split; [|done]. unfold _bt_search. rewrite getroot_spec. cbn [mbind result_bind]. by rewrite E.
Qed.
End SearchTree.

(** What it means for a leaf to be the target: the items on the leaves to its left
    are below the key, those on the leaves to its right are not. *)
Lemma target_meaning procs n it C d1 x d2 : Forall OrderProc procs -> level_in_tree true C ->
  StronglySorted (key_le procs) (spine C) -> hk_sorted procs C -> C = d1 ++ x :: d2 -> target procs n it d1 x ->
  let cmp z := key_cmp 0 (take (Z.to_nat n) procs) (t_key it) (t_key z.2) in
  (forall z, z ∈ level_data d1 -> 0 < cmp z) /\ (forall z, z ∈ level_data d2 -> cmp z <= 0).
Proof.
  intros Hpr Hin Hs Hhk -> [Tp Tn] cmp. assert (OrderProc (key_cmp 0 (take (Z.to_nat n) procs))) as [Ha Htr] by by apply cp_order.
  assert (forall lv z, z ∈ level_data lv -> exists y, y ∈ lv /\ z ∈ data_lines y.2) as Hel.
  { intros lv z Hz. apply list_elem_of_In, in_concat in Hz as (l & Hl & Hz).
    apply in_map_iff in Hl as (y & <- & Hy). exists y. split; by apply list_elem_of_In. }
  rewrite spine_app in Hs. apply StronglySorted_app_iff in Hs as (H1 & H2 & _). split.
  - intros z Hz. destruct (Hel _ _ Hz) as (y & Hy & Hzy). eapply Forall_forall in Tp as (h & Hh & Hk); [|exact Hy].
    unfold hikey in Hh. destruct (hikey_lines y.2) as [|w ws] eqn:Ew; [done|]. injection Hh as <-.
    apply list_elem_of_split in Hy as (e1 & e2 & ->). rewrite spine_app in H1.
    apply StronglySorted_app_iff in H1 as (_ & H1 & _).
    change (spine (y :: e2)) with ((data_lines y.2 ++ hikey_lines y.2) ++ spine e2) in H1.
    apply StronglySorted_app_iff in H1 as (H1 & _ & _). apply StronglySorted_app_iff in H1 as (_ & _ & H1).
    assert (key_le procs z w) as Hle by (apply H1; [done|rewrite Ew; by left]).
    apply (key_cmp_prefix procs _ _ (Z.to_nat n)) in Hle. unfold cmp.
    destruct (Z.lt_ge_cases 0 (key_cmp 0 (take (Z.to_nat n) procs) (t_key it) (t_key z.2))) as [|Hge]; [done|].
    pose proof (Htr _ _ _ Hge Hle). lia.
  - intros z Hz. destruct (Hel _ _ Hz) as (y & Hy & Hzy). apply StronglySorted_app_iff in Hhk as (_ & Hhk & _).
    apply StronglySorted_inv in Hhk as [_ Hhk]. eapply Forall_forall in Hhk as (h & Hh & _); [|exact Hy].
    pose proof Hh as Hh'. unfold hikey in Hh. destruct (hikey_lines x.2) as [|w ws] eqn:Ew; [done|]. injection Hh as <-.
    change (spine (x :: d2)) with ((data_lines x.2 ++ hikey_lines x.2) ++ spine d2) in H2.
    apply StronglySorted_app_iff in H2 as (_ & _ & H2).
    assert (key_le procs w z) as Hle.
    { apply H2; [rewrite Ew; apply elem_of_app; right; by left|]. apply (spine_elem _ y); [done|]. apply elem_of_app. by left. }
    apply (key_cmp_prefix procs _ _ (Z.to_nat n)) in Hle. unfold cmp. apply (Htr _ (t_key w.2)); [|done].
    destruct (Z.lt_ge_cases 0 (key_cmp 0 (take (Z.to_nat n) procs) (t_key it) (t_key w.2))) as [Hgt|]; [|lia].
    destruct Tn. by exists (t_key w.2).
Qed.
(** ** Changing the tree *)

(** What the level above can see of a page, and what the level below can. *)
Definition cview (x : Z * BTPage) : Z * option (list (option Datum)) := (x.1, hikey x.2).
Definition view (x : Z * BTPage) : Z * list (Z * BTItem) * list (Z * BTItem) := (x.1, hikey_lines x.2, data_lines x.2).

Lemma view_cview C C' : map view C = map view C' -> map cview C = map cview C'.
Proof.
  intros E. set (g (v : Z * list (Z * BTItem) * list (Z * BTItem)) :=
    (v.1.1, match v.1.2 with x :: _ => Some (t_key x.2) | [] => None end)).
  change (map (fun x => g (view x)) C = map (fun x => g (view x)) C'). by rewrite <- !(map_map view g), E.
Qed.

Lemma vseg_view cs cs' data h : map cview cs = map cview cs' -> vseg cs data h -> vseg cs' data h.
Proof.
  intros E [H1 H2 H3 H4].
  assert (forall i c', cs' !! i = Some c' -> exists c, cs !! i = Some c /\ hikey c.2 = hikey c'.2) as Hi.
  { intros i c' Hc'. assert (map cview cs' !! i = Some (cview c')) as Hl by by rewrite list_lookup_fmap, Hc'.
    rewrite <- E, list_lookup_fmap in Hl. destruct (cs !! i) as [c|] eqn:Hc; [|done]. exists c. split; [done|].
    simpl in Hl. unfold cview in Hl. by injection Hl. }
  assert (length cs = length cs') as Hlen by (apply (f_equal length) in E; by rewrite !length_map in E).
  split.
  - intros ->. by destruct cs.
  - rewrite H2. change (map (fun c => ((cview c).1, P_HIKEY)) cs = map (fun c => ((cview c).1, P_HIKEY)) cs').
    by rewrite <- !(map_map cview (fun v => (v.1, P_HIKEY))), E.
  - intros i x c' Hx Hc'. destruct (Hi i c' Hc') as (c & Hc & <-). by eapply H3.
  - intros c' Hc'. rewrite last_lookup in Hc'. destruct (Hi _ c' Hc') as (c & Hc & <-). apply H4. by rewrite last_lookup, Hlen.
Qed.

Lemma covers_view C P : covers C P -> forall C' P', map cview C = map cview C' -> map view P = map view P' -> covers C' P'.
Proof.
  induction 1 as [|cs C b p P Hs Hc IH]; intros C' P' EC EP.
  - destruct C'; [|done]. destruct P'; [constructor|done].
  - rewrite map_app in EC. symmetry in EC. apply map_eq_app in EC as (cs' & C1 & -> & E1 & E2).
    destruct P' as [|[b' p'] P']; [done|]. simpl in EP. injection EP as <- Ev1 Ev2 EP.
    constructor; [|by apply IH].
    assert (hikey p = hikey p' /\ data_lines p = data_lines p') as [Eh Ed].
    { unfold hikey. by rewrite Ev1, Ev2. }
    unfold seg. rewrite <- Eh, <- Ed. by apply (vseg_view cs).
Qed.
(** Two lists of data that differ in the first item's key at most. *)
Definition sim (d d' : list (Z * BTItem)) : Prop := map link d = map link d' /\ drop 1 d = drop 1 d'.

Lemma vseg_sim cs d d' h : sim d d' -> vseg cs d h -> vseg cs d' h.
Proof.
  intros [E1 E2] [H1 H2 H3 H4]. split; [done|by rewrite <- E1| |done].
  intros i x c Hx. apply H3. change (d !! (1 + i)%nat = Some x). rewrite <- lookup_drop, E2, lookup_drop. done.
Qed.

Lemma stored_all_sim op n l : P_ISLEAF op = true \/ Z.of_nat n + 1 = P_FIRSTDATAKEY op -> sim l (stored_all op n l).
Proof.
  intros H. split; [by rewrite stored_all_link|]. destruct l as [|x l]; [done|]. simpl. rewrite stored_all_id; [done|].
  destruct H; [by left|right; lia].
Qed.

Lemma vseg_cut cs d h m hk : vseg cs d h -> (0 < m)%nat -> d !! m = Some hk ->
  vseg (take m cs) (take m d) (Some (t_key hk.2)) /\ vseg (drop m cs) (drop m d) h.
Proof.
  intros [H1 H2 H3 H4] Hm Hk. assert (length d = length cs) as Hlen by (apply (f_equal length) in H2; by rewrite !length_map in H2).
  pose proof (lookup_lt_Some _ _ _ Hk) as Hlt. split.
  - split.
    + intros E. apply (f_equal length) in E. rewrite length_take in E. simpl in E. lia.
    + rewrite <- !firstn_map. by rewrite H2.
    + intros i x c Hx Hc. apply lookup_take_Some in Hx as [Hx ?]. apply lookup_take_Some in Hc as [Hc ?]. by eapply H3.
    + intros c Hc. rewrite last_lookup, length_take, Nat.min_l in Hc by lia. apply lookup_take_Some in Hc as [Hc _].
      apply (H3 (pred m)); [|done]. by replace (S (pred m)) with m by lia.
  - split.
    + intros E. apply (f_equal length) in E. rewrite length_drop in E. simpl in E. lia.
    + rewrite <- !skipn_map. by rewrite H2.
    + intros i x c Hx Hc. rewrite lookup_drop in Hx. rewrite lookup_drop in Hc. apply (H3 (m + i)%nat); [|done]. by rewrite <- Nat.add_succ_r.
    + intros c Hc. apply H4. rewrite last_lookup in Hc |- *. rewrite length_drop, lookup_drop in Hc.
      by replace (pred (length cs)) with (m + pred (length cs - m))%nat by lia.
Qed.

(** A child has become two; their downlink is inserted behind the old one's. *)
Lemma vseg_insert f1 c f2 d h c' r new : vseg (f1 ++ c :: f2) d h -> c'.1 = c.1 -> hikey c'.2 = Some (t_key new.2) ->
  hikey r.2 = hikey c.2 -> link new = (r.1, P_HIKEY) ->
  vseg (f1 ++ c' :: r :: f2) (take (S (length f1)) d ++ new :: drop (S (length f1)) d) h.
Proof.
  intros [H1 H2 H3 H4] Eb Ehk Er El.
  assert (length d = length f1 + S (length f2))%nat as Hlen
    by (apply (f_equal length) in H2; by rewrite !length_map, length_app in H2).
  split.
  - by destruct f1.
  - rewrite map_app, map_cons, <- firstn_map, <- skipn_map, H2, !map_app. cbn [map].
    rewrite firstn_app, skipn_app, !length_map. rewrite El, Eb.
    rewrite (firstn_all2 (n := S (length f1))), (skipn_all2 (n := S (length f1))) by (rewrite length_map; lia).
    replace (S (length f1) - length f1)%nat with 1%nat by lia. simpl. by rewrite <- (assoc_L (++)).
  - intros i x c0 Hx Hc0. destruct (decide (S i < S (length f1))%nat) as [Hi|Hi].
    + rewrite lookup_app_l in Hx by (rewrite length_take; lia). rewrite lookup_take_lt in Hx by lia.
      rewrite lookup_app_l in Hc0 by lia. apply (H3 i); [done|]. by rewrite lookup_app_l by lia.
    + rewrite lookup_app_r in Hx by (rewrite length_take; lia). rewrite length_take, Nat.min_l in Hx by lia.
      rewrite lookup_app_r in Hc0 by lia. destruct (i - length f1)%nat as [|k] eqn:Ek.
      * replace (S i - S (length f1))%nat with 0%nat in Hx by lia. simpl in *. by simplify_eq.
      * replace (S i - S (length f1))%nat with (S k) in Hx by lia. simpl in Hx, Hc0. rewrite lookup_drop in Hx.
        assert (S (length f1) + k = S (length f1 + k))%nat as Es by lia. rewrite Es in Hx.
        destruct k as [|k]; simpl in Hc0.
        -- injection Hc0 as <-. rewrite Er. apply (H3 _ _ c Hx). rewrite lookup_app_r by lia.
           by replace (length f1 + 0 - length f1)%nat with 0%nat by lia.
        -- apply (H3 _ _ c0 Hx). rewrite lookup_app_r by lia. by replace (length f1 + S k - length f1)%nat with (S k) by lia.
  - intros c0 Hc0. destruct f2 as [|y f2].
    + replace (f1 ++ [c'; r]) with ((f1 ++ [c']) ++ [r]) in Hc0 by by rewrite <- (assoc_L (++)).
      rewrite last_snoc in Hc0. injection Hc0 as <-. rewrite Er. apply H4. apply last_snoc.
    + apply H4. rewrite last_app in *. simpl in *. done.
Qed.

(** What an insertion makes of page [p] at block [b], [nd] being its data with the new
    item: the page, or two pages. *)
Inductive replaced (b : Z) (p : BTPage) (nd : list (Z * BTItem)) : level -> Prop :=
| rp_one q : hikey_lines q = hikey_lines p -> data_lines q = nd -> replaced b p nd [(b, q)]
| rp_two q1 r q2 m hk : (0 < m)%nat -> nd !! m = Some hk -> hikey_lines q1 = [hk] -> hikey_lines q2 = hikey_lines p ->
    sim (take m nd) (data_lines q1) -> sim (drop m nd) (data_lines q2) ->
    (P_ISLEAF (opaque p) = true -> data_lines q1 = take m nd /\ data_lines q2 = drop m nd) ->
    replaced b p nd [(b, q1); (r, q2)].

Lemma covers_replaced cs1 l1 cs b p nd repl cs2 l2 : covers cs1 l1 -> covers cs2 l2 -> vseg cs nd (hikey p) ->
  replaced b p nd repl -> covers (cs1 ++ cs ++ cs2) (l1 ++ repl ++ l2).
Proof.
  intros H1 H2 Hs Hr. apply covers_join; [done|].
  destruct Hr as [q Eh Ed|q1 r q2 m hk Hm Hhk Eh1 Eh2 Es1 Es2 _].
  - constructor; [|done]. unfold seg, hikey. rewrite Ed, Eh. exact Hs.
  - destruct (vseg_cut cs nd (hikey p) m hk Hs Hm Hhk) as [V1 V2]. rewrite <- (take_drop m cs), <- (assoc_L (++)).
    constructor; [|constructor; [|done]]; unfold seg.
    + apply (vseg_sim _ _ _ _ Es1). unfold hikey. by rewrite Eh1.
    + apply (vseg_sim _ _ _ _ Es2). unfold hikey. rewrite Eh2. exact V2.
Qed.
(** ** Inserting into a page *)

Section Width.
Context (W : Z) (HW8 : (8 | W)) (HW : sizeof_BTItemData <= W <= BTMaxItemSize).

(** Keys of one width: every item takes [W] bytes, but for the first one of an inner page. *)
Definition wide (x : Z * BTItem) : Prop := x.1 = W /\ MAXALIGN (IndexTupleDSize x.2) = W.
Record page_wide (p : BTPage) : Prop := {
  wd_keyed : Forall wide (keyed_lines p);
  wd_hikey : Forall wide (hikey_lines p);
  wd_first : P_ISLEAF (opaque p) = false -> forall x, data_lines p !! 0%nat = Some x -> x.1 = sizeof_BTItemData }.

Lemma wide_ok it : line_ok (W, it).
Proof. done. Qed.

Lemma new_data_cut0 it q data : (0 < q)%nat -> data <> [] -> drop 1 (new_data W it q data) = new_data W it (pred q) (drop 1 data).
Proof.
  intros Hq Hd. unfold new_data. destruct q as [|q]; [lia|]. destruct data as [|x data]; [done|]. simpl.
  by rewrite drop_0.
Qed.

Lemma new_data_wide it q data : wide (W, it) -> Forall wide data -> Forall wide (new_data W it q data).
Proof. intros. apply Forall_app. split; [by apply Forall_take|]. constructor; [done|by apply Forall_drop]. Qed.

(** The keyed part of the data with the new item. *)
Definition keyed (leaf : bool) (d : list (Z * BTItem)) : list (Z * BTItem) := if leaf then d else drop 1 d.

Lemma new_keyed_wide leaf p it q : page_wide p -> P_ISLEAF (opaque p) = leaf -> wide (W, it) ->
  (leaf = false -> (0 < q)%nat /\ data_lines p <> []) -> Forall wide (keyed leaf (new_data W it q (data_lines p))).
Proof.
  intros [Hk _ _] Hl Hit Hq. unfold keyed_lines in Hk. rewrite Hl in Hk. destruct leaf; simpl.
  - by apply new_data_wide.
  - destruct (Hq eq_refl). rewrite new_data_cut0 by done. by apply new_data_wide.
Qed.

Section InsertPage.
Context (leaf : bool) (p : BTPage) (it : BTItem) (newoff : Z).
Let first := P_FIRSTDATAKEY (opaque p).
Let q := Z.to_nat (newoff - first).
Let nd := new_data W it q (data_lines p).
Context (Hp : in_tree leaf p) (Hw : page_wide p) (Hit : wide (W, it)).
Context (Hoff : first + (if leaf then 0 else 1) <= newoff <= PageGetMaxOffsetNumber p + 1).

Lemma insert_q : (leaf = false -> (0 < q)%nat) /\ (q <= length (data_lines p))%nat.
Proof.
  pose proof (data_lines_length p (it_ok _ _ Hp)) as Hl. fold first in Hl. unfold q. split; [intros El; rewrite El in Hoff|destruct leaf]; lia.
Qed.

Lemma nd_first : leaf = false -> nd !! 0%nat = data_lines p !! 0%nat.
Proof.
  intros Hl. destruct insert_q as [Hq _]. specialize (Hq Hl). unfold nd, new_data.
  pose proof (it_data _ _ Hp Hl). destruct (data_lines p) as [|x d]; [done|]. by destruct q; [lia|].
Qed.

Lemma insert_nosplit : W <= PageGetFreeSpace p -> exists p',
  _bt_pgaddtup p W it newoff = Ok p' /\ opaque p' = opaque p /\ in_tree leaf p' /\ page_wide p' /\
  hikey_lines p' = hikey_lines p /\ data_lines p' = nd.
Proof.
  intros Hfree. pose proof Hp as [Hok Hl Hpar Hd]. destruct insert_q as [Hq1 Hq2].
  pose proof (data_lines_length p Hok) as Hlen. fold first in Hlen. pose proof (first_data_cases (opaque p)) as Hfc. fold first in Hfc.
  assert (first <= newoff) as Hfn by (destruct leaf; lia).
  assert (0 < W) as HWp by (destruct HW as [HW0 _]; change sizeof_BTItemData with 16 in HW0; lia).
  assert (line_space (W, it) <= page_free p) as Hroom.
  { destruct (line_space_ok _ (wide_ok it)) as [-> _]. unfold PageGetFreeSpace in Hfree. change sizeof_ItemIdData with 8 in Hfree.
    cbn [fst]. case_match; bool_cases; lia. }
  set (p' := set_lines p (hikey_lines p ++ nd)).
  assert (_bt_pgaddtup p W it newoff = Ok p') as Eadd.
  { unfold _bt_pgaddtup. rewrite Hl. fold first.
    assert (negb leaf && (newoff =? first) = false) as -> by (destruct leaf; [done|]; simpl; apply Z.eqb_neq; lia).
    unfold PageAddItem. destruct (Z.leb_spec (line_space (W, it)) (page_free p)); [|lia]. unfold p'. do 2 f_equal.
    rewrite (lines_hikey_data p). unfold nd, new_data. rewrite take_app, drop_app, (assoc_L (++)).
    assert (length (hikey_lines p) = Z.to_nat (first - 1)) as Eh by (pose proof (hikey_lines_length p Hok) as E0; fold first in E0; lia).
    rewrite (take_ge (hikey_lines p)), (drop_ge (hikey_lines p)) by lia. rewrite Eh.
    replace (Z.to_nat (newoff - 1) - Z.to_nat (first - 1))%nat with q by lia. done. }
  assert (hikey_lines p' = hikey_lines p /\ data_lines p' = nd) as [Eh Ed].
  { pose proof (hikey_lines_length p Hok) as E. unfold hikey_lines at 1, data_lines at 1.
    change (opaque p') with (opaque p). change (lines p') with (hikey_lines p ++ nd). rewrite <- E, Nat2Z.id.
    by rewrite take_app_length, drop_app_length. }
  exists p'. split_and!; [done|done| | |done|done].
  - split; [|done|done|].
    + destruct (page_ok_data p Hok) as [Hdok Hhok]. split.
      * change (lines p') with (hikey_lines p ++ nd). apply Forall_app. split; [done|]. apply new_data_ok; [apply wide_ok|done].
      * unfold page_free. change (lines p') with (hikey_lines p ++ nd). rewrite lines_space_app.
        unfold nd. rewrite new_data_space. unfold page_free in Hroom. rewrite (lines_hikey_data p), lines_space_app in Hroom. lia.
      * intros Hr Hn. apply app_eq_nil in Hn as [_ Hn]. pose proof (new_data_length W it q (data_lines p)) as Hn'.
        fold nd in Hn'. by rewrite Hn in Hn'.
    + intros _. rewrite Ed. intros E. pose proof (new_data_length W it q (data_lines p)) as Hn'. fold nd in Hn'. by rewrite E in Hn'.
  - split.
    + unfold keyed_lines. change (opaque p') with (opaque p). rewrite Hl, Ed. apply (new_keyed_wide leaf); auto.
    + rewrite Eh. apply Hw.
    + change (opaque p') with (opaque p). rewrite Hl, Ed. intros Hf x Hx. rewrite (nd_first Hf) in Hx.
      apply (wd_first _ Hw); [by rewrite Hl|done].
Qed.

(** Where the new data is cut, there is something on both sides, and an item of full width. *)
Lemma split_cut k onleft : PageGetFreeSpace p < W ->
  let rs := split_space - lines_space (hikey_lines p) in
  split_at (P_ISLEAF (opaque p)) first newoff (W + 8) rs (rs - PageGetFreeSpace p) (data_lines p) k onleft ->
  (0 < (if onleft then S k else k))%nat /\
  (forall x, data_lines p !! k = Some x -> onleft = false -> newoff = first + Z.of_nat k -> W + 8 <= line_space x).
Proof.
  intros Hfree rs (x & Hx & Ho & _ & Hr). destruct insert_q as [Hq _].
  assert (leaf = true \/ (0 < k)%nat -> x.1 = W) as Hxw.
  { intros Hk. pose proof (wd_keyed _ Hw) as Hkw. unfold keyed_lines in Hkw. rewrite (it_leaf _ _ Hp) in Hkw.
    destruct leaf; [exact (proj1 (Forall_lookup_1 _ _ _ _ Hkw Hx))|]. destruct Hk as [|Hk]; [done|].
    refine (proj1 (Forall_lookup_1 _ _ (pred k) _ Hkw _)). rewrite lookup_drop. by replace (1 + pred k)%nat with k by lia. }
  assert (line_ok x) as Hxok by exact (Forall_lookup_1 _ _ _ _ (proj1 (page_ok_data p (it_ok _ _ Hp))) Hx).
  pose proof (line_space_ok x Hxok) as [Ex _]. split.
  - destruct onleft; [lia|]. destruct k as [|k]; [|lia]. exfalso. unfold right_ok in Hr. rewrite Z.geb_leb, Z.leb_le in Hr.
    rewrite take_0 in Hr. cbn [lines_space] in Hr. rewrite (it_leaf _ _ Hp) in Hr. destruct leaf eqn:El; [lia|].
    specialize (Hq eq_refl). destruct (Z.eqb_spec newoff (first + Z.of_nat 0)) as [E|E]; [unfold q in Hq; lia|].
    cbn [negb andb] in Hr. rewrite Ex, (wd_first _ Hw) in Hr; [|apply (it_leaf _ _ Hp)|done].
    change sizeof_BTItemData with 16 in Hr. lia.
  - intros y Hy Hon En. rewrite Hx in Hy. injection Hy as <-. rewrite Ex, Hxw; [lia|]. destruct leaf eqn:El; [by left|].
    right. specialize (Hq eq_refl). unfold q in Hq. lia.
Qed.

Lemma insert_split b r : PageGetFreeSpace p < W -> r <> P_NONE -> exists fr onleft p1 p2 loc hk,
  _bt_findsplitloc p newoff W = Ok (fr, onleft) /\ _bt_split p b r fr newoff W it onleft = Ok (p1, p2, loc) /\
  opaque p1 = left_opaque p r /\ opaque p2 = right_opaque p b /\ in_tree leaf p1 /\ in_tree leaf p2 /\
  page_wide p1 /\ page_wide p2 /\ replaced b p nd [(b, p1); (r, p2)] /\
  hikey_lines p1 = [hk] /\ wide hk.
Proof.
  intros Hfree Hr. pose proof Hp as [Hok Hl Hpar Hd]. destruct insert_q as [Hq1 Hq2].
  destruct (findsplitloc_ok p newoff W) as (k & onleft & Efs & Hs); [done|done|done|done|fold first; destruct leaf; lia|].
  destruct (split_cut k onleft Hfree Hs) as [Hm Hhk].
  destruct (bt_split_ok p b r newoff W it k onleft) as (hk & Hcut & Esp & Pl & Pr);
    [done|apply wide_ok|fold first; destruct leaf; lia|exact Hs|exact Hhk|].
  fold first in Hcut, Esp, Pl, Pr. fold q in Hcut, Esp, Pl, Pr. fold nd in Hcut, Esp, Pl, Pr.
  set (m := if onleft then S k else k) in *.
  destruct (left_half_data p r hk m nd Hr) as [L1 L2]. destruct (right_half_data p b m nd Hok) as [R1 R2].
  set (p1 := left_half p r hk m nd) in *. set (p2 := right_half p b m nd) in *.
  pose proof (lookup_lt_Some _ _ _ Hcut) as Hmlt.
  assert (P_ISLEAF (left_opaque p r) = leaf /\ P_ISLEAF (right_opaque p b) = leaf) as [Ll Lr].
  { unfold P_ISLEAF. simpl. rewrite isleaf_noroot. by split. }
  assert (P_FIRSTDATAKEY (left_opaque p r) = 2) as Fl.
  { unfold P_FIRSTDATAKEY, P_RIGHTMOST. simpl. by destruct (Z.eqb_spec r P_NONE). }
  assert (sim (take m nd) (data_lines p1)) as S1 by (rewrite L1; apply stored_all_sim; right; rewrite Fl; done).
  assert (sim (drop m nd) (data_lines p2)) as S2.
  { rewrite R1. apply stored_all_sim. right. rewrite hikey_lines_length by done.
    change (P_FIRSTDATAKEY (right_opaque p b)) with (P_FIRSTDATAKEY (opaque p)). lia. }
  pose proof (new_keyed_wide leaf p it q Hw Hl Hit ltac:(auto)) as Hkw. fold nd in Hkw.
  assert (wide hk) as Hhkw.
  { destruct leaf; [exact (Forall_lookup_1 _ _ _ _ Hkw Hcut)|].
    refine (Forall_lookup_1 _ _ (pred m) _ Hkw _). simpl. rewrite lookup_drop. by replace (1 + pred m)%nat with m by lia. }
  exists (first + Z.of_nat k), onleft, p1, p2. eexists _, hk. split; [done|]. split; [exact Esp|].
  split; [done|]. split; [done|]. split_and!; [| | | | |done|done].
  - split; [done|done|done|]. intros _ E. destruct S1 as [S1 _]. rewrite E in S1. apply (f_equal length) in S1.
    rewrite !length_map, length_take in S1. simpl in S1. lia.
  - split; [done|done|done|]. intros _ E. destruct S2 as [S2 _]. rewrite E in S2. apply (f_equal length) in S2.
    rewrite !length_map, length_drop in S2. simpl in S2. lia.
  - split; [|rewrite L2; by constructor|].
    + unfold keyed_lines. change (P_ISLEAF (opaque p1)) with (P_ISLEAF (left_opaque p r)). rewrite Ll. destruct leaf.
      * rewrite L1, stored_all_id by by left. by apply Forall_take.
      * destruct S1 as [_ <-]. simpl in Hkw. rewrite skipn_firstn_comm. by apply Forall_take.
    + change (P_ISLEAF (opaque p1)) with (P_ISLEAF (left_opaque p r)). rewrite Ll. intros Hf x Hx. rewrite L1 in Hx.
      destruct (take m nd) as [|y l]; [done|]. simpl in Hx. injection Hx as <-. unfold stored. rewrite Ll, Fl, Hf. done.
  - split; [|rewrite R2; apply Hw|].
    + unfold keyed_lines. change (P_ISLEAF (opaque p2)) with (P_ISLEAF (right_opaque p b)). rewrite Lr. destruct leaf.
      * rewrite R1, stored_all_id by by left. by apply Forall_drop.
      * destruct S2 as [_ <-]. simpl in Hkw. rewrite drop_drop, Nat.add_comm, <- drop_drop. by apply Forall_drop.
    + change (P_ISLEAF (opaque p2)) with (P_ISLEAF (right_opaque p b)). rewrite Lr. intros Hf x Hx. rewrite R1 in Hx.
      destruct (drop m nd) as [|y l]; [done|]. simpl in Hx. injection Hx as <-. unfold stored. rewrite Lr, Hf.
      change (P_FIRSTDATAKEY (right_opaque p b)) with (P_FIRSTDATAKEY (opaque p)).
      rewrite hikey_lines_length, Z.sub_add, Z.eqb_refl by done. done.
  - apply (rp_two b p nd p1 r p2 m hk); try done. rewrite Hl. intros El. rewrite El in Ll, Lr.
    rewrite L1, R1, !stored_all_id by by left. done.
Qed.
End InsertPage.
End Width.
(** ** Changing a level *)

Lemma concat_split {A} (L : list (list A)) l C : L !! l = Some C ->
  concat L = concat (take l L) ++ C ++ concat (drop (S l) L).
Proof.
  intros H. rewrite <- (take_drop_middle L l C H) at 1. by rewrite concat_app.
Qed.

Lemma concat_insert {A} (L : list (list A)) l C C' : L !! l = Some C ->
  concat (<[l:=C']> L) = concat (take l L) ++ C' ++ concat (drop (S l) L).
Proof.
  intros H. pose proof (lookup_lt_Some _ _ _ H) as Hl.
  rewrite (concat_split (<[l:=C']> L) l C') by by apply list_lookup_insert_eq.
  by rewrite take_insert_ge, drop_insert_lt by lia.
Qed.

Lemma elem_blocks (lv : level) b : b ∈ map fst lv <-> exists p, (b, p) ∈ lv.
Proof.
  rewrite list_elem_of_fmap. split; [|by intros [p H]; exists (b, p)]. intros ([b' p] & -> & H). by exists p.
Qed.

Lemma levels_dom idx L b : levels_in idx L -> b ∈ map fst (concat L) -> exists p, pages idx !! b = Some p.
Proof.
  intros H Hb. apply elem_blocks in Hb as [p Hb]. apply list_elem_of_In, in_concat in Hb as (C & HC & Hx).
  apply list_elem_of_In, list_elem_of_lookup in HC as [l HC]. pose proof (lo_in _ _ H l C HC) as Hin.
  apply list_elem_of_In in Hx. eapply Forall_forall in Hin; [|exact Hx]. exists p. apply Hin.
Qed.

Lemma levels_in_update idx idx' L l C C' : levels_in idx L -> L !! l = Some C ->
  level_in idx' (bool_decide (l = 0%nat)) C' -> C' <> [] -> linked P_NONE C' -> NoDup (map fst C') ->
  (forall b, b ∈ map fst C' -> b ∈ map fst C \/ (pages idx !! b = None /\ b <> P_NONE)) ->
  (forall b, b ∉ map fst C' -> pages idx' !! b = pages idx !! b) ->
  levels_in idx' (<[l:=C']> L).
Proof.
  intros H HC Hin Hne Hlk Hnd Hb Hpg. pose proof (lookup_lt_Some _ _ _ HC) as Hl.
  pose proof (lo_nodup _ _ H) as Hnd0. rewrite (concat_split _ _ _ HC), !map_app in Hnd0.
  apply NoDup_app in Hnd0 as (N1 & N2 & N3). apply NoDup_app in N3 as (N3 & N4 & N5).
  assert (forall b, b ∈ map fst (concat (take l L)) \/ b ∈ map fst (concat (drop (S l) L)) -> b ∉ map fst C') as Hout.
  { intros b Hbo Hb'. assert (b ∈ map fst (concat L)) as Hin0.
    { rewrite (concat_split _ _ _ HC), !map_app, !elem_of_app. destruct Hbo; auto. }
    destruct (Hb b Hb') as [Hc|[Hn _]].
    - destruct Hbo as [Ho|Ho]; [apply (N2 b Ho); apply elem_of_app; by left|by apply (N4 b Hc)].
    - destruct (levels_dom idx L b H Hin0) as [p Hp]. congruence. }
  split.
  - intros l' D HD. destruct (decide (l' = l)) as [->|Hne'].
    + rewrite list_lookup_insert_eq in HD by done. by injection HD as <-.
    + rewrite list_lookup_insert_ne in HD by done. pose proof (lo_in _ _ H l' D HD) as HinD.
      apply Forall_forall. intros x Hx. eapply Forall_forall in HinD as [Hp Ht]; [|exact Hx]. split; [|done].
      rewrite Hpg; [done|]. apply Hout. destruct (Nat.lt_ge_cases l' l).
      * left. apply list_elem_of_fmap_2. apply (level_in_concat _ l' D); [|done]. by rewrite lookup_take_lt.
      * right. apply list_elem_of_fmap_2. apply (level_in_concat _ (l' - S l) D); [|done].
        rewrite lookup_drop. by replace (S l + (l' - S l))%nat with l' by lia.
  - apply Forall_insert; [apply H|done].
  - intros l' D HD. destruct (decide (l' = l)) as [->|Hne'].
    + rewrite list_lookup_insert_eq in HD by done. by injection HD as <-.
    + rewrite list_lookup_insert_ne in HD by done. by apply (lo_linked _ _ H l').
  - rewrite (concat_insert _ _ C) by done. rewrite !map_app. apply NoDup_app. split_and!; [done| |].
    + intros b Hb1 Hb2. apply elem_of_app in Hb2 as [Hb2|Hb2]; [by apply (Hout b); [left|]|].
      apply (N2 b Hb1). apply elem_of_app. by right.
    + apply NoDup_app. split_and!; [done| |done]. intros b Hb1 Hb2. by apply (Hout b); [right|].
  - rewrite (concat_insert _ _ C) by done. rewrite !map_app, !elem_of_app. pose proof (lo_none _ _ H) as Hn.
    rewrite (concat_split _ _ _ HC), !map_app, !elem_of_app in Hn. intros [Ho|[Ho|Ho]]; [tauto| |tauto].
    destruct (Hb _ Ho) as [?|[_ ?]]; [tauto|done].
Qed.

Lemma levels_in_snoc idx idx' L b p : levels_in idx L -> L <> [] -> pages idx !! b = None -> b <> P_NONE ->
  in_tree false p -> btpo_prev (opaque p) = P_NONE -> btpo_next (opaque p) = P_NONE ->
  pages idx' = <[b := p]> (pages idx) -> levels_in idx' (L ++ [[(b, p)]]).
Proof.
  intros H HL Hb Hb0 Hp Hpr Hnx E.
  assert (forall x, x ∈ map fst (concat L) -> x <> b) as Hfresh.
  { intros x Hx ->. destruct (levels_dom idx L b H Hx) as [p' Hp']. congruence. }
  split.
  - intros l D HD. apply lookup_app_Some in HD as [HD|[Hge HD]].
    + pose proof (lo_in _ _ H l D HD) as Hin. apply Forall_forall. intros x Hx.
      eapply Forall_forall in Hin as [Hpg Ht]; [|exact Hx]. split; [|done]. rewrite E, lookup_insert_ne; [done|].
      apply not_eq_sym, Hfresh. apply list_elem_of_fmap_2. by apply (level_in_concat _ l D).
    + apply list_lookup_singleton_Some in HD as [Hl <-]. constructor; [|constructor]. simpl. rewrite E, lookup_insert_eq.
      split; [done|]. rewrite bool_decide_false; [done|]. destruct L; [done|]. simpl in *. lia.
  - apply Forall_app. split; [apply H|]. by constructor.
  - intros l D HD. apply lookup_app_Some in HD as [HD|[_ HD]]; [by apply (lo_linked _ _ H l)|].
    apply list_lookup_singleton_Some in HD as [_ <-]. by split_and!.
  - rewrite concat_app, map_app. simpl. apply NoDup_app. split_and!; [apply H| |apply NoDup_singleton].
    intros x Hx Hx2. apply list_elem_of_singleton in Hx2 as ->. by apply (Hfresh b).
  - rewrite concat_app, map_app, elem_of_app. simpl. rewrite list_elem_of_singleton. intros [Hx|Hx]; [by apply (lo_none _ _ H)|done].
Qed.
(** ** Finding the parent *)

Lemma find_item_none p it : forall n off, (forall o, off <= o < off + Z.of_nat n -> BTItemSame (PageGetItem p o) it = false) ->
  find_item n off p it = None.
Proof.
  induction n as [|n IH]; intros off H; [done|]. simpl. rewrite H by lia. apply IH. intros o Ho. apply H. lia.
Qed.

Lemma find_item_some p it t : BTItemSame (PageGetItem p t) it = true -> forall n off,
  off <= t < off + Z.of_nat n -> (forall o, off <= o < t -> BTItemSame (PageGetItem p o) it = false) ->
  find_item n off p it = Some t.
Proof.
  intros Ht. induction n as [|n IH]; intros off Hr H; [lia|]. simpl. destruct (decide (off = t)) as [->|Hne].
  - by rewrite Ht.
  - rewrite H by lia. apply IH; [lia|]. intros o Ho. apply H. lia.
Qed.

Lemma same_link a b : BTItemSame a b = true <-> (t_blkno a, t_posid a) = (t_blkno b, t_posid b).
Proof.
  unfold BTItemSame. rewrite andb_true_iff, !Z.eqb_eq. split; [by intros [-> ->]|by intros [= -> ->]].
Qed.

Section Parent.
Context (idx : Index) (b : Z) (it : BTItem) (Hit : (t_blkno it, t_posid it) = (b, P_HIKEY)).

(** No item of the page from [start] on is the one looked for. *)
Lemma find_absent p n start : in_tree false p -> P_FIRSTDATAKEY (opaque p) <= start ->
  start + Z.of_nat n <= PageGetMaxOffsetNumber p + 1 -> (b, P_HIKEY) ∉ map link (data_lines p) ->
  find_item n start p it = None.
Proof.
  intros Hp Hs Hn Hno. apply find_item_none. intros o Ho. apply not_true_iff_false. rewrite same_link, Hit. intros E.
  destruct (data_line p o) as (x & Hx & Hg); [lia|]. apply Hno. rewrite <- E, Hg.
  apply (list_elem_of_fmap_2 link _ x). by eapply list_elem_of_lookup_2.
Qed.

Lemma find_present p start d1 x d2 : in_tree false p -> data_lines p = d1 ++ x :: d2 -> link x = (b, P_HIKEY) ->
  (b, P_HIKEY) ∉ map link d1 -> P_FIRSTDATAKEY (opaque p) <= start <= P_FIRSTDATAKEY (opaque p) + Zlen d1 ->
  find_item (Z.to_nat (PageGetMaxOffsetNumber p - start + 1)) start p it = Some (P_FIRSTDATAKEY (opaque p) + Zlen d1).
Proof.
  intros Hp Hd Hx Hno Hs. pose proof (data_lines_length p (it_ok _ _ Hp)) as Hlen. rewrite Hd, length_app in Hlen.
  cbn [length] in Hlen. set (first := P_FIRSTDATAKEY (opaque p)) in *. apply find_item_some.
  - destruct (data_line p (first + Zlen d1)) as (y & Hy & Hg); [fold first; lia|]. fold first in Hy.
    replace (Z.to_nat (first + Zlen d1 - first)) with (length d1) in Hy by lia.
    rewrite Hd, list_lookup_middle in Hy by done. injection Hy as <-. apply same_link. by rewrite Hg, Hit.
  - lia.
  - intros o Ho. apply not_true_iff_false. rewrite same_link, Hit. intros E.
    destruct (data_line p o) as (y & Hy & Hg); [fold first; lia|]. fold first in Hy. rewrite Hd, lookup_app_l in Hy by lia.
    apply Hno. rewrite <- E, Hg. apply (list_elem_of_fmap_2 link _ y). by eapply list_elem_of_lookup_2.
Qed.

Lemma getstack_spec pb pp m2 d1 x d2 : data_lines pp = d1 ++ x :: d2 -> link x = (b, P_HIKEY) ->
  (b, P_HIKEY) ∉ map link d1 -> forall m1 prev fuel blk start,
  level_in idx false (m1 ++ (pb, pp) :: m2) -> linked prev (m1 ++ (pb, pp) :: m2) ->
  Forall (fun y => y.1 <> P_NONE) (m1 ++ (pb, pp) :: m2) ->
  head (map fst (m1 ++ [(pb, pp)])) = Some blk -> (b, P_HIKEY) ∉ map link (level_data m1) ->
  (m1 = [] -> start <= P_FIRSTDATAKEY (opaque pp) + Zlen d1) -> (length m1 < fuel)%nat ->
  getstack_loop fuel idx blk start it = Ok (Some (pb, P_FIRSTDATAKEY (opaque pp) + Zlen d1)).
Proof.
  intros Hd Hx Hno. induction m1 as [|[b1 p1] m1 IH]; intros prev fuel blk start Hin Hlk Hn Hb Habs Hst Hf;
    (destruct fuel as [|fuel]; [lia|]); simpl in Hb; injection Hb as <-; cbn [getstack_loop]; unfold getpage;
    apply Forall_cons in Hin as [[Hpg Hp] Hin]; simpl in Hpg, Hp; rewrite Hpg; cbn [mbind result_bind];
    apply Forall_cons in Hn as [_ Hn].
  - specialize (Hst eq_refl). destruct (Z.ltb_spec start (P_FIRSTDATAKEY (opaque pp))) as [Hlt|Hge].
    + rewrite (find_present pp _ d1 x d2) by (done || lia). done.
    + rewrite (find_present pp _ d1 x d2) by (done || lia). done.
  - destruct Hlk as (_ & Hnext & Hlk). change (level_data ((b1, p1) :: m1)) with (data_lines p1 ++ level_data m1) in Habs.
    rewrite map_app, elem_of_app in Habs. set (s := if start <? _ then _ else start).
    assert (P_FIRSTDATAKEY (opaque p1) <= s) as Hs by (unfold s; destruct (Z.ltb_spec start (P_FIRSTDATAKEY (opaque p1))); lia).
    assert (find_item (Z.to_nat (PageGetMaxOffsetNumber p1 - s + 1)) s p1 it = None) as ->.
    { destruct (Z.le_gt_cases s (PageGetMaxOffsetNumber p1)).
      - apply find_absent; [done|done|lia|tauto].
      - by replace (Z.to_nat (PageGetMaxOffsetNumber p1 - s + 1)) with 0%nat by lia. }
    assert (P_RIGHTMOST (opaque p1) = false) as ->.
    { unfold P_RIGHTMOST. rewrite Hnext. apply Z.eqb_neq. destruct m1 as [|[b2 p2] m1]; by apply Forall_cons in Hn as [? _]. }
    cbn [length] in Hf. apply (IH b1); [done|done|done| |tauto| |lia].
    + rewrite Hnext. by destruct m1 as [|[b2 p2] m1].
    + intros _. pose proof (first_data_cases (opaque pp)). change InvalidOffsetNumber with 0. lia.
Qed.
End Parent.

(** The parent of child number [i]. *)
Lemma covers_find C P i c : covers C P -> C !! i = Some c -> exists m1 pb pp m2 e1 f1 f2 e2,
  P = m1 ++ (pb, pp) :: m2 /\ C = e1 ++ (f1 ++ c :: f2) ++ e2 /\ covers e1 m1 /\ seg (f1 ++ c :: f2) pp /\ covers e2 m2 /\
  i = (length e1 + length f1)%nat.
Proof.
  intros H. revert i. induction H as [|cs C pb pp P Hs Hc IH]; intros i Hi; [done|].
  apply lookup_app_Some in Hi as [Hi|[Hge Hi]].
  - exists [], pb, pp, P, [], (take i cs), (drop (S i) cs), C. rewrite take_drop_middle by done.
    apply lookup_lt_Some in Hi. rewrite length_take. split_and!; try done; [constructor|simpl; lia].
  - destruct (IH _ Hi) as (m1 & pb' & pp' & m2 & e1 & f1 & f2 & e2 & -> & EC & H1 & H2 & H3 & Ei).
    exists ((pb, pp) :: m1), pb', pp', m2, (cs ++ e1), f1, f2, e2. rewrite EC. split_and!; try done.
    + by rewrite <- !(assoc_L (++)).
    + by constructor.
    + rewrite length_app. lia.
Qed.

Lemma covers_links C P : covers C P -> map link (level_data P) = map (fun c => (c.1, P_HIKEY)) C.
Proof.
  induction 1 as [|cs C b p P Hs Hc IH]; [done|].
  change (level_data ((b, p) :: P)) with (data_lines p ++ level_data P). rewrite !map_app, IH. f_equal. apply Hs.
Qed.
(** ** Inserting into the tree *)

Lemma set_prev_view b p prev : view (b, set_prev p prev) = view (b, p).
Proof. done. Qed.

(** The right neighbour of a split page. *)
Definition fix_prev (r : Z) (l2 : level) : level :=
  match l2 with [] => [] | (b2, p2) :: l2 => (b2, set_prev p2 r) :: l2 end.

Lemma fix_prev_view r l2 : map view (fix_prev r l2) = map view l2.
Proof. by destruct l2 as [|[b2 p2] l2]. Qed.

Lemma fix_prev_blocks r l2 : map fst (fix_prev r l2) = map fst l2.
Proof. by destruct l2 as [|[b2 p2] l2]. Qed.

Lemma in_tree_opaque leaf p op : in_tree leaf p -> btpo_next op = btpo_next (opaque p) -> btpo_flags op = btpo_flags (opaque p) ->
  btpo_parent op <> InvalidBlockNumber -> in_tree leaf (set_opaque p op).
Proof.
  intros [[H1 H2 H3] Hl Hp Hd] En Ef Epar.
  assert (P_RIGHTMOST op = P_RIGHTMOST (opaque p)) as Er by (unfold P_RIGHTMOST; by rewrite En).
  assert (data_lines (set_opaque p op) = data_lines p) as Ed by (unfold data_lines, P_FIRSTDATAKEY; simpl; by rewrite Er).
  split; [|unfold P_ISLEAF in *; simpl; by rewrite Ef|done|by rewrite Ed].
  split; [done|done|]. simpl. by rewrite Er.
Qed.

Lemma set_opaque_views p op : btpo_next op = btpo_next (opaque p) ->
  data_lines (set_opaque p op) = data_lines p /\ hikey_lines (set_opaque p op) = hikey_lines p.
Proof. intros En. unfold data_lines, hikey_lines, P_FIRSTDATAKEY, P_RIGHTMOST. simpl. by rewrite En. Qed.

Lemma linked_replace prev l1 b p l2 p' : linked prev (l1 ++ (b, p) :: l2) -> opaque p' = opaque p ->
  linked prev (l1 ++ (b, p') :: l2).
Proof.
  intros H E. revert prev H. induction l1 as [|[b1 p1] l1 IH]; intros prev; simpl.
  - by rewrite E.
  - intros (H1 & H2 & H3). split_and!; [done| |by apply IH]. rewrite H2. by destruct l1 as [|[]].
Qed.

Lemma linked_split prev l1 b p l2 p1 r p2 : linked prev (l1 ++ (b, p) :: l2) ->
  opaque p1 = left_opaque p r -> opaque p2 = right_opaque p b ->
  linked prev (l1 ++ (b, p1) :: (r, p2) :: fix_prev r l2).
Proof.
  intros H E1 E2. revert prev H. induction l1 as [|[b1 p1'] l1 IH]; intros prev; simpl.
  - rewrite E1, E2. simpl. intros (H1 & H2 & H3). split_and!; try done.
    + destruct l2 as [|[b2 q2] l2]; done.
    + destruct l2 as [|[b2 q2] l2]; [done|]. simpl in *. tauto.
  - intros (H1 & H2 & H3). split_and!; [done| |by apply IH]. rewrite H2. by destruct l1 as [|[]].
Qed.

Section InsertTree.
Context (alloc : gmap Z BTPage -> Z) (tired : nat -> bool) (W : Z).
Context (HW8 : (8 | W)) (HW : sizeof_BTItemData <= W <= BTMaxItemSize).

(** [AllocateMoreSpace]: a block that is not in use, not the meta page and a valid number. *)
Context (Halloc : forall m, m !! alloc m = None /\ alloc m <> P_NONE /\ alloc m <> InvalidBlockNumber).

Definition level_wide (C : level) : Prop := Forall (fun x => page_wide W x.2) C.
Definition tree_wide (L : list level) : Prop := Forall level_wide L.

(** The file after the halves were written. *)
Lemma write_split_spec leaf idx l1 b p l2 p1 p2 :
  let r := alloc (pages idx) in let C := l1 ++ (b, p) :: l2 in
  level_in idx leaf C -> linked P_NONE C -> NoDup (map fst C) -> Forall (fun x => x.1 <> P_NONE) C ->
  opaque p1 = left_opaque p r -> opaque p2 = right_opaque p b -> in_tree leaf p1 -> in_tree leaf p2 ->
  exists idx', write_split idx b r p1 p2 = Ok idx' /\ btm_root idx' = btm_root idx /\ btm_level idx' = btm_level idx /\
    let C' := l1 ++ (b, p1) :: (r, p2) :: fix_prev r l2 in
    level_in idx' leaf C' /\ linked P_NONE C' /\ NoDup (map fst C') /\
    (forall x, x ∈ map fst C' -> x ∈ map fst C \/ (pages idx !! x = None /\ x <> P_NONE)) /\
    (forall x, x ∉ map fst C' -> pages idx' !! x = pages idx !! x).
Proof.
  intros r C Hin Hlk Hnd Hn E1 E2 T1 T2. destruct (Halloc (pages idx)) as (Hr & Hr0 & _). fold r in Hr, Hr0.
  assert (r ∉ map fst C) as Hrn.
  { intros Hx. apply elem_blocks in Hx as [q Hx]. eapply Forall_forall in Hin as [Hp _]; [|exact Hx]. simpl in Hp. congruence. }
  assert (map fst (l1 ++ (b, p1) :: (r, p2) :: fix_prev r l2) = map fst l1 ++ b :: r :: map fst l2) as Eb
    by (rewrite map_app; simpl; by rewrite fix_prev_blocks).
  assert (linked P_NONE (l1 ++ (b, p1) :: (r, p2) :: fix_prev r l2)) as Hlk' by by apply (linked_split _ _ _ p).
  assert (map fst C = map fst l1 ++ b :: map fst l2) as EC by (unfold C; by rewrite map_app).
  rewrite EC in Hnd, Hrn. rewrite elem_of_app, elem_of_cons in Hrn.
  pose proof Hnd as Hnd0. apply NoDup_app in Hnd as (N1 & N2 & N3). apply NoDup_cons in N3 as [N3 N4].
  pose proof (linked_app _ _ _ Hlk) as [prev (_ & Hnext & _)].
  assert (exists idx0, (if P_RIGHTMOST (opaque p2) then Ok idx
     else s ← getpage idx (btpo_next (opaque p2)); Ok (set_page idx (btpo_next (opaque p2)) (set_prev s r))) = Ok idx0 /\
     btm_root idx0 = btm_root idx /\ btm_level idx0 = btm_level idx /\
     (forall x, x ∉ map fst l2 -> pages idx0 !! x = pages idx !! x) /\
     Forall (fun x => pages idx0 !! x.1 = Some x.2 /\ in_tree leaf x.2) (fix_prev r l2)) as (idx0 & Ew & R0 & R0' & P0 & F0).
  { assert (btpo_next (opaque p2) = btpo_next (opaque p)) as En by by rewrite E2.
    unfold P_RIGHTMOST. rewrite En. rewrite Hnext. unfold C in Hin, Hn. apply Forall_app in Hin as [_ Hin].
    apply Forall_cons in Hin as [_ Hin]. apply Forall_app in Hn as [_ Hn]. apply Forall_cons in Hn as [_ Hn].
    destruct l2 as [|[b2 q2] l2]; [exists idx; by split_and!|]. apply Forall_cons in Hn as [Hb2 _]. simpl in Hb2.
    apply Forall_cons in Hin as [[Hp2 Hq2] Hin]. simpl in Hp2, Hq2.
    destruct (Z.eqb_spec b2 P_NONE); [done|]. unfold getpage. rewrite Hp2. simpl. eexists. split; [done|]. split; [done|]. split; [done|]. split.
    - intros x Hx. apply lookup_insert_ne. intros ->. apply Hx. by left.
    - simpl. constructor; simpl.
      + split; [by rewrite lookup_insert_eq|]. by apply in_tree_opaque; [..|apply Hq2].
      + apply Forall_forall. intros y Hy. eapply Forall_forall in Hin as [Hy1 Hy2]; [|exact Hy]. split; [|done].
        rewrite lookup_insert_ne; [done|]. intros E. simpl in N4. apply NoDup_cons in N4 as [N4 _]. apply N4. rewrite E.
        by apply list_elem_of_fmap_2. }
  exists (set_page (set_page idx0 b p1) r p2). split; [unfold write_split; rewrite Ew; done|]. split; [done|]. split; [done|].
  cbn zeta. split; [|split; [done|rewrite Eb; split_and!]].
  - assert (forall x, x <> b -> x <> r -> pages (set_page (set_page idx0 b p1) r p2) !! x = pages idx0 !! x) as Hpg.
    { intros x H1 H2. simpl. by rewrite !lookup_insert_ne by done. }
    apply Forall_app. split; [|constructor; [|constructor]].
    + unfold C in Hin. apply Forall_app in Hin as [Hin _]. apply Forall_forall. intros y Hy.
      eapply Forall_forall in Hin as [Hy1 Hy2]; [|exact Hy]. split; [|done].
      assert (y.1 ∈ map fst l1) as Hyb by by apply list_elem_of_fmap_2.
      rewrite Hpg, P0; [done| | |].
      * intros Hx. apply (N2 y.1 Hyb). by right.
      * intros E. apply (N2 y.1 Hyb). rewrite E. by left.
      * intros E. apply Hrn. left. by rewrite <- E.
    + simpl. rewrite lookup_insert_ne, lookup_insert_eq; [done|]. intros E. apply Hrn. right. left. done.
    + simpl. by rewrite lookup_insert_eq.
    + apply Forall_forall. intros y Hy. eapply Forall_forall in F0 as [Hy1 Hy2]; [|exact Hy]. split; [|done].
      assert (y.1 ∈ map fst l2) as Hyb by (rewrite <- (fix_prev_blocks r l2); by apply list_elem_of_fmap_2).
      rewrite Hpg; [done| |].
      * intros E. apply N3. by rewrite <- E.
      * intros E. apply Hrn. right. right. by rewrite <- E.
  - apply NoDup_app. split_and!; [done| |].
    + intros x Hx Hx2. apply elem_of_cons in Hx2 as [->|Hx2]; [apply (N2 b Hx); by left|].
      apply elem_of_cons in Hx2 as [->|Hx2]; [tauto|]. apply (N2 x Hx). by right.
    + apply NoDup_cons. split; [|apply NoDup_cons; tauto]. rewrite elem_of_cons. intros [E|?]; [|done]. apply Hrn. right. by left.
  - intros x Hx. rewrite EC, elem_of_app, elem_of_cons. rewrite elem_of_app, !elem_of_cons in Hx.
    destruct Hx as [?|[?|[->|?]]]; tauto.
  - intros x Hx. rewrite elem_of_app, !elem_of_cons in Hx. simpl. rewrite !lookup_insert_ne by (intros ->; tauto). apply P0. tauto.
Qed.
Lemma hikey_lines_item p hk : page_ok p -> hikey_lines p = [hk] ->
  PageGetItem p P_HIKEY = hk.2 /\ ItemIdGetLength p P_HIKEY = hk.1 /\ P_RIGHTMOST (opaque p) = false.
Proof.
  intros Hp E. destruct (P_RIGHTMOST (opaque p)) eqn:Hr.
  - apply (hikey_rightmost p Hp) in Hr. unfold hikey in Hr. by rewrite E in Hr.
  - destruct (hikey_item p Hp Hr) as (x & Hx & _ & H1 & H2). rewrite E in Hx. by injection Hx as <-.
Qed.

Lemma newroot_spec leaf idx b r p1 p2 hk : pages idx !! b = Some p1 -> pages idx !! r = Some p2 ->
  in_tree leaf p1 -> hikey_lines p1 = [hk] -> wide W hk ->
  let root := alloc (pages idx) in exists rp,
  _bt_newroot alloc idx b r = Ok (mkIndex (<[root := rp]> (<[r := set_parent p2 root]> (<[b := set_parent p1 root]> (pages idx))))
    root (btm_level idx + 1)) /\
  in_tree false rp /\ P_ISROOT (opaque rp) = true /\ btpo_prev (opaque rp) = P_NONE /\ btpo_next (opaque rp) = P_NONE /\
  page_wide W rp /\ hikey_lines rp = [] /\
  data_lines rp = [(sizeof_BTItemData, mkBTItem b P_HIKEY sizeof_BTItemData []); (W, ItemPointerSet hk.2 r P_HIKEY)].
Proof.
  intros Hb Hr Hp1 Hhk [Hw1 Hw2] root. destruct (hikey_lines_item p1 hk (it_ok _ _ Hp1) Hhk) as (Eg & El & _).
  set (rp := mkBTPage (mkOpaque P_NONE P_NONE BTREE_METAPAGE BTP_ROOT)
    [(sizeof_BTItemData, mkBTItem b P_HIKEY sizeof_BTItemData []); (W, ItemPointerSet hk.2 r P_HIKEY)]).
  assert (line_space (W, ItemPointerSet hk.2 r P_HIKEY) = W + 8 /\ 24 <= line_space (W, ItemPointerSet hk.2 r P_HIKEY) <= 2704) as [Es Hb2]
    by exact (line_space_ok _ (wide_ok W HW8 HW _)).
  exists rp. split; [|split_and!; try done].
  - unfold _bt_newroot. fold root. unfold getpage. rewrite Hb, Hr. cbn [mbind result_bind]. rewrite Eg, El, Hw1.
    unfold PageAddItem at 1. change (line_space _ <=? page_free _) with true. cbn [set_lines lines].
    change (take (Z.to_nat (P_HIKEY - 1)) []) with (@nil (Z * BTItem)). change (drop (Z.to_nat (P_HIKEY - 1)) []) with (@nil (Z * BTItem)).
    unfold PageAddItem. set (q := set_lines _ _). change (page_free q) with 8112.
    by destruct (Z.leb_spec (line_space (W, ItemPointerSet hk.2 r P_HIKEY)) 8112); [|lia].
  - split; try done. split; [|unfold page_free; change page_room with 8136; change (lines rp) with
      [(sizeof_BTItemData, mkBTItem b P_HIKEY sizeof_BTItemData []); (W, ItemPointerSet hk.2 r P_HIKEY)];
      cbn [lines_space]; change (line_space (sizeof_BTItemData, _)) with 24; lia|done].
    constructor; [|constructor; [by apply wide_ok|constructor]]. split; [by exists 2|]. change (16 <= 16 <= 2701). lia.
  - split; [|constructor|].
    + constructor; [|constructor]. by split.
    + intros _ x [= <-]. done.
Qed.

Lemma level_pages idx L l C : levels_in idx L -> L !! l = Some C ->
  NoDup (map fst C) /\ Forall (fun x => x.1 <> P_NONE) C.
Proof.
  intros H HC. split.
  - pose proof (lo_nodup _ _ H) as Hnd. rewrite (concat_split _ _ _ HC), !map_app in Hnd.
    apply NoDup_app in Hnd as (_ & _ & Hnd). by apply NoDup_app in Hnd as (Hnd & _).
  - apply Forall_forall. intros x Hx. by eapply level_none.
Qed.

Lemma tree_wide_insert L l C : tree_wide L -> level_wide C -> tree_wide (<[l:=C]> L).
Proof. intros H HC. by apply Forall_insert. Qed.

(** The levels above [l] keep covering each other. *)
Lemma covers_from_insert L l C' : covers_from (S l) L -> (forall P, L !! S l = Some P -> covers C' P) ->
  covers_from l (<[l:=C']> L).
Proof.
  intros H HP k C P Hk HC HP'. rewrite list_lookup_insert_ne in HP' by lia.
  destruct (decide (k = l)) as [->|Hne].
  - apply list_lookup_insert_Some in HC as [(_ & E & _)|[? _]]; [subst C; by apply HP|done].
  - rewrite list_lookup_insert_ne in HC by lia. by apply (H k); [lia|..].
Qed.

Lemma fix_prev_wide r l2 : level_wide l2 -> level_wide (fix_prev r l2).
Proof.
  destruct l2 as [|[b2 p2] l2]; [done|]. intros H. apply Forall_cons in H as [[H1 H2 H3] H]. constructor; [|done].
  by split.
Qed.

Lemma fix_prev_flags r l2 x : x ∈ fix_prev r l2 -> exists y, y ∈ l2 /\ btpo_flags (opaque x.2) = btpo_flags (opaque y.2).
Proof.
  destruct l2 as [|[b2 p2] l2]; [by intros ?%elem_of_nil|]. simpl. intros [->|Hx]%elem_of_cons.
  - exists (b2, p2). split; [by left|done].
  - exists x. split; [by right|done].
Qed.
(** What an insertion into page [p] of level [l] leaves: [nd] is the data of the page with
    the new item; lower levels are as before, the levels from [l] on fit again. *)
Definition inserted (l : nat) (L : list level) (l1 : level) (b : Z) (p : BTPage) (l2 : level) (nd : list (Z * BTItem))
    (res : result (Index * option (Z * Z))) : Prop :=
  exists idx' L' loc C' repl, res = Ok (idx', loc) /\ levels_ok idx' L' /\ covers_from l L' /\ tree_wide L' /\
    take l L' = take l L /\ L' !! l = Some C' /\ map view C' = map view (l1 ++ repl ++ l2) /\ replaced b p nd repl.

Section OnLevel.
Context (l : nat) (idx : Index) (L : list level) (l1 : level) (b : Z) (p : BTPage) (l2 : level).
Context (it : BTItem) (newoff : Z).
Let leaf := bool_decide (l = 0%nat).
Let C := l1 ++ (b, p) :: l2.
Let first := P_FIRSTDATAKEY (opaque p).
Let nd := new_data W it (Z.to_nat (newoff - first)) (data_lines p).
Context (HL : levels_ok idx L) (Hcov : covers_from l L) (Hwide : tree_wide L) (HC : L !! l = Some C).
Context (Hit : wide W (W, it)).
Context (Hoff : first + (if leaf then 0 else 1) <= newoff <= PageGetMaxOffsetNumber p + 1).

Lemma page_here : pages idx !! b = Some p /\ in_tree leaf p /\ page_wide W p /\ (l < length L)%nat /\ (b, p) ∈ C.
Proof.
  assert ((b, p) ∈ C) as Hel by (unfold C; apply elem_of_app; right; by left).
  pose proof (lo_in _ _ HL l C HC) as Hin. eapply Forall_forall in Hin as [Hp Ht]; [|exact Hel]. simpl in Hp, Ht.
  pose proof (Forall_lookup_1 _ _ _ _ Hwide HC) as Hw. eapply Forall_forall in Hw; [|exact Hel].
  split_and!; try done. by eapply lookup_lt_Some.
Qed.

(** The root and its flag, after a level has been replaced. *)
Lemma levels_ok_update idx' C' : levels_in idx' (<[l:=C']> L) -> btm_root idx' = btm_root idx ->
  (forall x, x ∈ C' -> P_ISROOT (opaque x.2) = bool_decide (S l = length L)) ->
  (S l = length L -> exists p', C' = [(btm_root idx, p')]) ->
  levels_ok idx' (<[l:=C']> L).
Proof using HL HC.
  intros Hin Hroot Hfl Hlast. pose proof (lookup_lt_Some _ _ _ HC) as Hl. split; [done| |].
  - destruct (lo_root _ _ HL) as [q Hq]. rewrite last_lookup in Hq |- *. rewrite length_insert, Hroot.
    destruct (decide (S l = length L)) as [E|E].
    + replace (pred (length L)) with l by lia. rewrite list_lookup_insert_eq by done.
      destruct (Hlast E) as [p' ->]. by exists p'.
    + rewrite list_lookup_insert_ne by lia. by exists q.
  - intros k D x HD Hx. rewrite length_insert. apply list_lookup_insert_Some in HD as [(<- & <- & _)|[Hne HD]].
    + by apply Hfl.
    + by apply (lo_flags _ _ HL k D).
Qed.

Lemma last_level : S l = length L -> l1 = [] /\ l2 = [] /\ b = btm_root idx.
Proof using HL HC.
  clear nd Hoff Hit. intros E. destruct (lo_root _ _ HL) as [q Hq]. rewrite last_lookup, <- E in Hq. simpl in Hq. rewrite HC in Hq.
  unfold C in Hq. destruct l1 as [|? [|]]; simplify_eq/=; [|by destruct l2..]. done.
Qed.

(** A page of the level changes some of its data items. *)
Lemma replace_tree p' : in_tree leaf p' -> opaque p' = opaque p -> hikey_lines p' = hikey_lines p ->
  let C' := l1 ++ (b, p') :: l2 in let L' := <[l:=C']> L in
  levels_ok (set_page idx b p') L' /\ covers_from l L'.
Proof using HL Hcov HC.
  clear nd Hoff Hit. intros Ht' Eop Eh C' L'.
  pose proof (lookup_lt_Some _ _ _ HC) as Hl. assert ((b, p) ∈ C) as Hel by (unfold C; apply elem_of_app; right; by left).
  destruct (level_pages idx L l C HL HC) as [Hnd Hnn].
  assert (map fst C' = map fst C) as Eb by (unfold C, C'; by rewrite !map_app).
  assert (levels_in (set_page idx b p') L') as Hlin.
  { apply (levels_in_update idx _ L l C C' HL HC).
    - pose proof (lo_in _ _ HL l C HC) as Hin. fold leaf in Hin |- *. unfold C, C' in *. rewrite map_app in Hnd.
      apply NoDup_app in Hnd as (_ & N2 & N3). apply NoDup_cons in N3 as [N3 _].
      apply Forall_app in Hin as [Hin1 Hin2]. apply Forall_cons in Hin2 as [_ Hin2].
      apply Forall_app. split; [|constructor; [simpl; by rewrite lookup_insert_eq|]].
      + apply Forall_forall. intros y Hy. eapply Forall_forall in Hin1 as [H1 H2]; [|exact Hy]. split; [|done]. simpl.
        rewrite lookup_insert_ne; [done|]. intros E. apply (N2 y.1); [by apply list_elem_of_fmap_2|rewrite <- E; by left].
      + apply Forall_forall. intros y Hy. eapply Forall_forall in Hin2 as [H1 H2]; [|exact Hy]. split; [|done]. simpl.
        rewrite lookup_insert_ne; [done|]. intros E. apply N3. simpl. rewrite E. exact (list_elem_of_fmap_2 fst _ y Hy).
    - unfold C'. by destruct l1.
    - apply (linked_replace _ _ _ p); [by apply (lo_linked _ _ HL l)|done].
    - by rewrite Eb.
    - intros x Hx. left. by rewrite <- Eb.
    - intros x Hx. simpl. apply lookup_insert_ne. intros <-. apply Hx. rewrite Eb. apply elem_blocks. by exists p. }
  split.
  - apply levels_ok_update; [done|done| |].
    + intros x Hx. unfold C' in Hx. apply elem_of_app in Hx as [Hx|[->|Hx]%elem_of_cons].
      * apply (lo_flags _ _ HL l C x HC). unfold C. apply elem_of_app. by left.
      * simpl. unfold P_ISROOT. rewrite Eop. by apply (lo_flags _ _ HL l C (b, p) HC).
      * apply (lo_flags _ _ HL l C x HC). unfold C. apply elem_of_app. right. by right.
    + intros E. destruct (last_level E) as (-> & -> & Eb'). exists p'. unfold C'. simpl. by rewrite Eb'.
  - apply covers_from_insert; [intros k D P Hk; apply Hcov; lia|]. intros P HP.
    apply (covers_view C P); [by apply (Hcov l)| |done]. unfold C, C'. rewrite !map_app, !map_cons.
    assert (cview (b, p') = cview (b, p)) as -> by (unfold cview, hikey; simpl; by rewrite Eh). done.
Qed.

Lemma replace_page p' : in_tree leaf p' -> page_wide W p' -> opaque p' = opaque p -> hikey_lines p' = hikey_lines p ->
  let C' := l1 ++ (b, p') :: l2 in let L' := <[l:=C']> L in
  levels_ok (set_page idx b p') L' /\ covers_from l L' /\ tree_wide L'.
Proof using HL Hcov Hwide HC.
  clear nd Hoff Hit. intros Ht' Hw' Eop Eh C' L'. destruct (replace_tree p' Ht' Eop Eh) as [R1 R2]. split_and!; [exact R1|exact R2|].
  apply tree_wide_insert; [done|]. pose proof (Forall_lookup_1 _ _ _ _ Hwide HC) as HwC. unfold C, C' in *.
  apply Forall_app in HwC as [Hw1 Hw2]. apply Forall_cons in Hw2 as [_ Hw2]. apply Forall_app. split; [done|by constructor].
Qed.

Lemma insert_fits rec st : W <= PageGetFreeSpace p -> inserted l L l1 b p l2 nd (insert_here alloc rec idx b st it W newoff).
Proof.
  intros Hfree. destruct page_here as (Hpg & Ht & Hw & Hl & Hel).
  destruct (insert_nosplit W HW8 HW leaf p it newoff Ht Hw Hit Hoff Hfree) as (p' & Eadd & Eop & Ht' & Hw' & Eh & Ed).
  unfold insert_here, getpage. rewrite Hpg. cbn [mbind result_bind].
  destruct (Z.ltb_spec (PageGetFreeSpace p) W); [lia|]. rewrite Eadd. cbn [mbind result_bind].
  set (C' := l1 ++ (b, p') :: l2). destruct (replace_page p' Ht' Hw' Eop Eh) as (R1 & R2 & R3).
  eexists _, (<[l:=C']> L), _, C', [(b, p')]. split; [done|]. split_and!; [done|done|done| | |done|by apply rp_one].
  - by rewrite take_insert_ge by lia.
  - by rewrite list_lookup_insert_eq.
Qed.
(** The file after a split, before the parent is told. *)
Let r := alloc (pages idx).
Record split_done (idx1 : Index) (p1 p2 : BTPage) (hk : Z * BTItem) (C1 : level) : Prop := {
  sd_level : C1 = l1 ++ (b, p1) :: (r, p2) :: fix_prev r l2;
  sd_in : levels_in idx1 (<[l:=C1]> L);
  sd_root : btm_root idx1 = btm_root idx;
  sd_op1 : opaque p1 = left_opaque p r;
  sd_op2 : opaque p2 = right_opaque p b;
  sd_tree1 : in_tree leaf p1;
  sd_tree2 : in_tree leaf p2;
  sd_wide : level_wide C1;
  sd_repl : replaced b p nd [(b, p1); (r, p2)];
  sd_hikey : hikey_lines p1 = [hk];
  sd_hk : wide W hk;
  sd_pages : pages idx1 !! b = Some p1 /\ pages idx1 !! r = Some p2 /\ b <> r }.

Lemma split_views C1 idx1 p1 p2 hk : split_done idx1 p1 p2 hk C1 -> map view C1 = map view (l1 ++ [(b, p1); (r, p2)] ++ l2).
Proof. intros H. rewrite (sd_level _ _ _ _ _ H). rewrite !map_app. simpl. by rewrite fix_prev_view. Qed.

Lemma page_split_step : PageGetFreeSpace p < W -> exists fr onleft p1 p2 loc hk idx1 C1,
  _bt_findsplitloc p newoff W = Ok (fr, onleft) /\ _bt_split p b r fr newoff W it onleft = Ok (p1, p2, loc) /\
  write_split idx b r p1 p2 = Ok idx1 /\ split_done idx1 p1 p2 hk C1.
Proof.
  intros Hfree. destruct page_here as (Hpg & Ht & Hw & Hl & Hel). destruct (Halloc (pages idx)) as (Hr & Hr0 & _).
  fold r in Hr, Hr0. destruct (insert_split W HW8 HW leaf p it newoff Ht Hw Hit Hoff b r Hfree Hr0)
    as (fr & onleft & p1 & p2 & loc & hk & Efs & Esp & Eo1 & Eo2 & T1 & T2 & W1 & W2 & Hrp & Hhk & Hhkw).
  destruct (level_pages idx L l C HL HC) as [Hnd Hnn].
  destruct (write_split_spec leaf idx l1 b p l2 p1 p2) as (idx1 & Ew & Er & _ & Hin & Hlk & Hnd' & Hbl & Hpg1); try done.
  { by apply (lo_in _ _ HL l). }
  { by apply (lo_linked _ _ HL l). }
  fold r in Ew, Hin, Hlk, Hnd', Hbl, Hpg1. set (C1 := l1 ++ (b, p1) :: (r, p2) :: fix_prev r l2) in *.
  exists fr, onleft, p1, p2, loc, hk, idx1, C1. split; [done|]. split; [done|]. split; [done|].
  assert (b <> r) as Hbr by (intros E; rewrite <- E in Hr; congruence).
  split; try done.
  - apply (levels_in_update idx _ L l C); try done; [apply HL|]. unfold C1. by destruct l1.
  - pose proof (Forall_lookup_1 _ _ _ _ Hwide HC) as HwC. unfold C in HwC.
    apply Forall_app in HwC as [Hw1 Hw2]. apply Forall_cons in Hw2 as [_ Hw2]. unfold C1. apply Forall_app. split; [done|].
    constructor; [done|]. constructor; [done|]. by apply fix_prev_wide.
  - unfold C1 in Hin. apply Forall_app in Hin as [_ Hin]. apply Forall_cons in Hin as [[P1 _] Hin].
    apply Forall_cons in Hin as [[P2 _] _]. by split_and!.
Qed.

Lemma isroot_clear flags : (Z.land flags (Z.lnot BTP_ROOT) .& BTP_ROOT) = false.
Proof. rewrite flag_clear by done. change (BTP_ROOT .& BTP_ROOT) with true. by rewrite andb_false_r. Qed.

Lemma split_flags idx1 p1 p2 hk C1 x : split_done idx1 p1 p2 hk C1 -> S l <> length L -> x ∈ C1 -> P_ISROOT (opaque x.2) = false.
Proof.
  intros H Hl Hx. rewrite (sd_level _ _ _ _ _ H) in Hx.
  assert (forall y, y ∈ C -> P_ISROOT (opaque y.2) = false) as Hold.
  { intros y Hy. rewrite (lo_flags _ _ HL l C y HC Hy). by apply bool_decide_false. }
  apply elem_of_app in Hx as [Hx|[->|[->|Hx]%elem_of_cons]%elem_of_cons].
  - apply Hold. unfold C. apply elem_of_app. by left.
  - unfold P_ISROOT. simpl. rewrite (sd_op1 _ _ _ _ _ H). apply isroot_clear.
  - unfold P_ISROOT. simpl. rewrite (sd_op2 _ _ _ _ _ H). apply isroot_clear.
  - destruct (fix_prev_flags r l2 x Hx) as (y & Hy & E). unfold P_ISROOT. rewrite E. apply Hold. unfold C.
    apply elem_of_app. right. by right.
Qed.

(** The root splits: a new level. *)
Lemma insert_root rec : PageGetFreeSpace p < W -> S l = length L ->
  inserted l L l1 b p l2 nd (insert_here alloc rec idx b [] it W newoff).
Proof.
  intros Hfree Hlast. destruct page_here as (Hpg & Ht & Hw & Hl & Hel).
  destruct page_split_step as (fr & onleft & p1 & p2 & loc & hk & idx1 & C1 & Efs & Esp & Ew & Hd); [done|].
  unfold insert_here, getpage. rewrite Hpg. cbn [mbind result_bind].
  destruct (Z.ltb_spec (PageGetFreeSpace p) W); [|lia]. rewrite Efs. cbn [mbind result_bind].
  fold r. rewrite Esp. cbn [mbind result_bind]. rewrite Ew. cbn [mbind result_bind].
  assert (P_ISROOT (opaque p) = true) as ->.
  { pose proof (lo_flags _ _ HL l C (b, p) HC Hel) as E. simpl in E. rewrite E. by apply bool_decide_true. }
  destruct (sd_pages _ _ _ _ _ Hd) as (P1 & P2 & Hbr).
  destruct (newroot_spec leaf idx1 b r p1 p2 hk P1 P2 (sd_tree1 _ _ _ _ _ Hd) (sd_hikey _ _ _ _ _ Hd) (sd_hk _ _ _ _ _ Hd))
    as (rp & -> & Trp & Frp & Prp & Nrp & Wrp & Hrp & Drp). cbn [mbind result_bind].
  set (root := alloc (pages idx1)) in *. destruct (Halloc (pages idx1)) as (Hr1 & Hr2 & Hr3). fold root in Hr1, Hr2, Hr3.
  destruct (last_level Hlast) as (El1 & El2 & Eb).
  set (C2 := [(b, set_parent p1 root); (r, set_parent p2 root)]).
  set (idx2 := mkIndex (<[r := set_parent p2 root]> (<[b := set_parent p1 root]> (pages idx1))) root (btm_level idx1 + 1)).
  assert (root <> b /\ root <> r) as [Hrb Hrr] by (split; intros E; rewrite E in Hr1; congruence).
  assert (C1 = [(b, p1); (r, p2)]) as EC1 by (rewrite (sd_level _ _ _ _ _ Hd), El1, El2; done).
  pose proof (sd_in _ _ _ _ _ Hd) as Hin1. pose proof (lookup_lt_Some _ _ _ HC) as Hlt.
  assert (<[l:=C1]> L !! l = Some C1) as HC1 by by apply list_lookup_insert_eq.
  destruct (level_pages _ _ _ _ Hin1 HC1) as [Hnd1 _]. rewrite EC1 in Hnd1.
  assert (levels_in idx2 (<[l:=C2]> L)) as Hin2.
  { rewrite <- (list_insert_insert_eq L l C2 C1).
    apply (levels_in_update idx1 _ _ l C1); [done|done| |done| |done| |].
    - constructor; [|constructor; [|constructor]].
      + simpl. rewrite lookup_insert_ne, lookup_insert_eq by done. split; [done|].
        by apply in_tree_opaque; [apply (sd_tree1 _ _ _ _ _ Hd)|..].
      + simpl. rewrite lookup_insert_eq. split; [done|]. by apply in_tree_opaque; [apply (sd_tree2 _ _ _ _ _ Hd)|..].
    - pose proof (lo_linked _ _ Hin1 l C1 HC1) as Hlk. rewrite EC1 in Hlk. simpl in Hlk. simpl. tauto.
    - intros x Hx. left. by rewrite EC1.
    - intros x Hx. simpl in *. rewrite !elem_of_cons in Hx. rewrite !lookup_insert_ne by (intros <-; tauto). done. }
  assert (pages idx2 !! root = None) as Hroot2 by (simpl; by rewrite !lookup_insert_ne by done).
  set (L' := <[l:=C2]> L ++ [[(root, rp)]]).
  assert (L' !! l = Some C2) as HL'l.
  { unfold L'. rewrite lookup_app_l by (rewrite length_insert; lia). by apply list_lookup_insert_eq. }
  eexists _, L', _, C2, [(b, p1); (r, p2)]. split; [done|]. split_and!.
  - split.
    + apply (levels_in_snoc idx2); try done. intros E. apply (f_equal length) in E. rewrite length_insert in E. simpl in E. lia.
    + exists rp. unfold L'. by rewrite last_snoc.
    + intros k D x HD Hx. unfold L' in *. rewrite length_app, length_insert. simpl.
      apply lookup_app_Some in HD as [HD|[Hge HD]].
      * rewrite bool_decide_false by (apply lookup_lt_Some in HD; rewrite length_insert in HD; lia).
        apply list_lookup_insert_Some in HD as [(<- & <- & _)|[Hne HD]].
        -- apply elem_of_cons in Hx as [->|Hx]; [|apply list_elem_of_singleton in Hx as ->]; unfold P_ISROOT; simpl;
             rewrite ?(sd_op1 _ _ _ _ _ Hd), ?(sd_op2 _ _ _ _ _ Hd); apply isroot_clear.
        -- rewrite (lo_flags _ _ HL k D x HD Hx). apply bool_decide_false. apply lookup_lt_Some in HD. lia.
      * apply list_lookup_singleton_Some in HD as [Hk <-]. rewrite length_insert in *.
        apply list_elem_of_singleton in Hx as ->. simpl. rewrite Frp. symmetry. apply bool_decide_true. lia.
  - intros k D P Hk HD HP. assert (k = l) as ->.
    { apply lookup_lt_Some in HP. unfold L' in HP. rewrite length_app, length_insert in HP. simpl in HP. lia. }
    rewrite HL'l in HD. injection HD as <-. unfold L' in HP.
    rewrite lookup_app_r in HP by (rewrite length_insert; lia).
    apply list_lookup_singleton_Some in HP as [_ <-]. unfold C2. rewrite <- (app_nil_r [_; _]). constructor; [|constructor].
    unfold seg, hikey. rewrite Drp, Hrp. split; [done|done| |].
    + intros [|[|i]] x c Hx Hc; simpl in *; simplify_eq. simpl. unfold hikey.
      change (hikey_lines (set_parent p1 root)) with (hikey_lines p1). by rewrite (sd_hikey _ _ _ _ _ Hd).
    + intros c Hc. simpl in Hc. injection Hc as <-. simpl. unfold hikey.
      change (hikey_lines (set_parent p2 root)) with (hikey_lines p2).
      pose proof (lo_linked _ _ HL l C HC) as Hlk. unfold C in Hlk. rewrite El1, El2 in Hlk. destruct Hlk as (_ & Hn & _).
      pose proof (hikey_rightmost p2 (it_ok _ _ (sd_tree2 _ _ _ _ _ Hd))) as Hh. unfold hikey in Hh. apply Hh.
      unfold P_RIGHTMOST. rewrite (sd_op2 _ _ _ _ _ Hd). simpl. by rewrite Hn.
  - unfold L'. apply Forall_app. split; [|constructor; [|constructor]; by constructor].
    apply tree_wide_insert; [done|]. pose proof (sd_wide _ _ _ _ _ Hd) as Hwd. rewrite EC1 in Hwd.
    apply Forall_cons in Hwd as [[A1 A2 A3] Hwd]. apply Forall_cons in Hwd as [[B1 B2 B3] _].
    constructor; [by split|]. constructor; [by split|constructor].
  - unfold L'. rewrite take_app_le by (rewrite length_insert; lia). by rewrite take_insert_ge by lia.
  - done.
  - rewrite El1, El2. done.
  - apply (sd_repl _ _ _ _ _ Hd).
Qed.
End OnLevel.

Lemma app_middle_inv {A} (a1 a2 b1 b2 : list A) x : a1 ++ x :: a2 = b1 ++ x :: b2 -> length a1 = length b1 -> a1 = b1 /\ a2 = b2.
Proof. intros E Hl. apply app_inj_1 in E as [-> E]; [|done]. by injection E as ->. Qed.

(** A position at or left of a child of the page after [m1] is on that page or left of it. *)
Lemma entry_left e1 m1 cs pb pp m2 j k : covers e1 m1 -> seg cs pp -> (k < length cs)%nat ->
  Zlen (level_data (take j (m1 ++ (pb, pp) :: m2))) <= Z.of_nat (length e1 + k) -> (j <= length m1)%nat.
Proof.
  intros H1 H2 Hk Hpos. destruct (Nat.le_gt_cases j (length m1)) as [|Hgt]; [done|]. exfalso.
  assert (take j (m1 ++ (pb, pp) :: m2) = m1 ++ [(pb, pp)] ++ take (j - S (length m1)) m2) as Etk.
  { rewrite take_app, take_ge by lia. f_equal. by replace (j - length m1)%nat with (S (j - S (length m1))) by lia. }
  rewrite Etk, !level_data_app, !length_app in Hpos. change (level_data [(pb, pp)]) with (data_lines pp ++ []) in Hpos.
  rewrite app_nil_r in Hpos. pose proof (covers_count _ _ H1) as Hc. fold (level_data m1) in Hc.
  pose proof (seg_length _ _ H2). lia.
Qed.

(** The search for the parent finds the link to the page that was split. *)
Lemma getstackbuf_spec idx L l C l1 b p l2 e st P idx1 C1 :
  levels_ok idx L -> covers_from l L -> L !! l = Some C -> C = l1 ++ (b, p) :: l2 -> L !! S l = Some P ->
  stack_ok (length l1) (e :: st) (drop (S l) L) -> levels_in idx1 (<[l:=C1]> L) ->
  (t_blkno (bts_btitem e), t_posid (bts_btitem e)) = (b, P_HIKEY) ->
  exists m1 pb pp m2 e1 f1 f2 e2, P = m1 ++ (pb, pp) :: m2 /\ l1 = e1 ++ f1 /\ l2 = f2 ++ e2 /\
    covers e1 m1 /\ seg (f1 ++ (b, p) :: f2) pp /\ covers e2 m2 /\
    _bt_getstackbuf idx1 e = Ok (Some (pb, P_FIRSTDATAKEY (opaque pp) + Zlen f1)) /\
    stack_ok (length m1) st (drop (S (S l)) L).
Proof.
  intros HL Hcov HC EC HP Hst Hin1 Hlink. pose proof (Hcov l C P ltac:(done) HC HP) as Hc.
  destruct (covers_find C P (length l1) (b, p) Hc) as (m1 & pb & pp & m2 & e1 & f1 & f2 & e2 & EP & EC2 & H1 & H2 & H3 & Ei).
  { rewrite EC. by apply list_lookup_middle. }
  assert (l1 = e1 ++ f1 /\ l2 = f2 ++ e2) as [E1 E2].
  { apply (app_middle_inv _ _ _ _ (b, p)); [|rewrite length_app; lia]. rewrite <- EC, EC2.
    rewrite <- !(assoc_L (++)). simpl. done. }
  rewrite (drop_S L P (S l) HP) in Hst. destruct Hst as (j & q & Hj & Hfirst & Hpos & Hst).
  assert (j <= length m1)%nat as Hjm.
  { apply (entry_left e1 m1 (f1 ++ (b, p) :: f2) pb pp m2 j (length f1)); [done|done| |].
    - rewrite length_app. simpl. lia.
    - rewrite <- EP. lia. }
  exists m1, pb, pp, m2, e1, f1, f2, e2. split_and!; try done.
  - destruct (level_pages idx L l C HL HC) as [Hnd _].
    rewrite EC, map_app in Hnd. apply NoDup_app in Hnd as (_ & Hnd & _).
    assert (b ∉ map fst l1) as Hbn by (intros Hb; apply (Hnd b Hb); by left). rewrite E1, map_app, elem_of_app in Hbn.
    assert (forall cs, b ∉ map fst cs -> (b, P_HIKEY) ∉ map (fun c : Z * BTPage => (c.1, P_HIKEY)) cs) as Hnl.
    { intros cs Hb Hx. apply Hb. apply list_elem_of_fmap in Hx as (c & E & Hx). injection E as ->. by apply list_elem_of_fmap_2. }
    assert (data_lines pp = take (length f1) (data_lines pp) ++ drop (length f1) (data_lines pp)) as Edd by by rewrite take_drop.
    pose proof (seg_length _ _ H2) as Hsl. rewrite length_app in Hsl. cbn [length] in Hsl.
    destruct (lookup_lt_is_Some_2 (data_lines pp) (length f1)) as [x Hx]; [lia|].
    destruct (seg_link _ _ _ _ H2 Hx) as (c & Hcx & Hb & Hpx). rewrite list_lookup_middle in Hcx by done. injection Hcx as <-.
    rewrite (drop_S _ _ _ Hx) in Edd.
    assert (map link (take (length f1) (data_lines pp)) = map (fun c => (c.1, P_HIKEY)) f1) as Elf1.
    { rewrite <- firstn_map, (sg_links _ _ _ H2), map_app, take_app_length'; [done|by rewrite length_map]. }
    assert (L !! S l = Some P /\ <[l:=C1]> L !! S l = Some P) as [_ HP1] by (split; [done|]; by rewrite list_lookup_insert_ne by lia).
    pose proof (lo_in _ _ Hin1 (S l) P HP1) as HinP. rewrite bool_decide_false in HinP by lia.
    pose proof (lo_linked _ _ Hin1 (S l) P HP1) as HlkP. destruct (level_pages _ _ _ _ Hin1 HP1) as [_ HnP].
    pose proof (take_drop j P) as Etd.
    assert (drop j P = drop j m1 ++ (pb, pp) :: m2) as Ed.
    { rewrite EP, drop_app. f_equal. by replace (j - length m1)%nat with 0%nat by lia. }
    rewrite <- Etd in HlkP, HinP, HnP. apply linked_app in HlkP as [prev HlkP].
    apply Forall_app in HinP as [_ HinP]. apply Forall_app in HnP as [_ HnP]. rewrite Ed in HlkP, HinP, HnP.
    unfold _bt_getstackbuf.
    replace (Zlen f1) with (Zlen (take (length f1) (data_lines pp))) by (rewrite length_take; lia).
    apply (getstack_spec idx1 b (bts_btitem e) Hlink pb pp m2 _ x _ Edd) with (m1 := drop j m1) (prev := prev); try done.
    + unfold link. by rewrite Hb, Hpx.
    + rewrite Elf1. apply Hnl. tauto.
    + apply (f_equal (fun z => head (map fst z))) in Ed. assert (head (map fst (drop j P)) = Some (bts_blkno e)) as Hh.
      { rewrite (drop_S _ _ _ Hj). done. }
      rewrite Hh in Ed. rewrite Ed. by destruct (drop j m1).
    + intros Hx2. apply (Hnl e1); [tauto|]. rewrite <- (covers_links _ _ H1), <- (take_drop j m1), level_data_app, map_app, elem_of_app.
      by right.
    + intros Edr. assert (j = length m1) as ->.
      { apply (f_equal length) in Edr. rewrite length_drop in Edr. simpl in Edr. lia. }
      rewrite EP, list_lookup_middle in Hj by done. injection Hj as _ <-. rewrite EP, take_app_length in Hpos.
      pose proof (covers_count _ _ H1) as Ec. fold (level_data m1) in Ec. rewrite length_take. lia.
    + rewrite length_drop. pose proof (level_length_concat _ _ _ HP1) as Hc1. pose proof (levels_size _ _ Hin1).
      rewrite EP, length_app in Hc1. lia.
  - by apply (stack_ok_mono j).
Qed.
Notation insert_up fuel := (fun idx pbuf stack new_item off => _bt_insertonpg alloc fuel tired idx pbuf stack 0 [] new_item off).

Lemma insertonpg_after fuel idx pbuf stack it off : 0 < off -> wide W (W, it) ->
  _bt_insertonpg alloc (S fuel) tired idx pbuf stack 0 [] it off =
  insert_here alloc (insert_up fuel) idx pbuf stack it W (off + 1).
Proof.
  intros Hoff [_ Hw]. simpl in Hw. cbn [_bt_insertonpg]. rewrite Hw, !Z.gtb_ltb.
  destruct (Z.ltb_spec BTMaxItemSize W); [lia|]. by destruct (Z.ltb_spec 0 off); [|lia].
Qed.

(** Inserting at a known place, by induction on the number of levels above. *)
Lemma insert_level fuel : forall l idx L l1 b p l2 st it newoff,
  levels_ok idx L -> covers_from l L -> tree_wide L -> L !! l = Some (l1 ++ (b, p) :: l2) ->
  stack_ok (length l1) st (drop (S l) L) -> wide W (W, it) ->
  P_FIRSTDATAKEY (opaque p) + (if bool_decide (l = 0%nat) then 0 else 1) <= newoff <= PageGetMaxOffsetNumber p + 1 ->
  (length (drop (S l) L) <= fuel)%nat ->
  inserted l L l1 b p l2 (new_data W it (Z.to_nat (newoff - P_FIRSTDATAKEY (opaque p))) (data_lines p))
    (insert_here alloc (insert_up fuel) idx b st it W newoff).
Proof.
  induction fuel as [|fuel IH]; intros l idx L l1 b p l2 st it newoff HL Hcov Hwide HC Hst Hit Hoff Hf;
    (destruct (Z.le_gt_cases W (PageGetFreeSpace p)) as [Hfree|Hfree]; [by apply (insert_fits l idx L l1 b p l2 it newoff)|]);
    (destruct (decide (S l = length L)) as [Hlast|Hlast]; [rewrite (stack_ok_top _ st l L Hlast Hst); apply (insert_root l idx L l1 b p l2 it newoff); done || lia|]);
    pose proof (lookup_lt_Some _ _ _ HC) as Hl; rewrite length_drop in Hf; [lia|].
  destruct (page_here l idx L l1 b p l2 HL Hwide HC) as (Hpg & Ht & Hw & _ & Hel).
  destruct (page_split_step l idx L l1 b p l2 it newoff HL Hwide HC Hit Hoff) as (fr & onleft & p1 & p2 & loc & hk & idx1 & C1 & Efs & Esp & Ew & Hd); [lia|].
  destruct (lookup_lt_is_Some_2 L (S l)) as [P HP]; [lia|].
  destruct st as [|e st]; [by rewrite (drop_S L P (S l) HP) in Hst|].
  set (r := alloc (pages idx)) in *. pose proof (sd_in _ _ _ _ _ _ _ _ _ _ _ _ _ _ Hd) as Hin1.
  set (e' := mkStack (bts_blkno e) (bts_offset e) (ItemPointerSet (bts_btitem e) b P_HIKEY)).
  destruct (getstackbuf_spec idx L l _ l1 b p l2 e' st P idx1 C1 HL Hcov HC eq_refl HP)
    as (m1 & pb & pp & m2 & e1 & f1 & f2 & e2 & EP & El1 & El2 & Hc1 & Hseg & Hc2 & Egs & Hst'); [exact Hst|done|done|].
  set (L1 := <[l:=C1]> L) in *.
  assert (levels_ok idx1 L1) as HL1.
  { apply (levels_ok_update l idx L l1 b p l2 HL HC); [done|apply (sd_root _ _ _ _ _ _ _ _ _ _ _ _ _ _ Hd)| |done].
    intros x Hx. rewrite bool_decide_false by done. by apply (split_flags l idx L l1 b p l2 it newoff HL HC idx1 p1 p2 hk C1). }
  assert (L1 !! S l = Some P) as HP1 by (unfold L1; by rewrite list_lookup_insert_ne by lia).
  pose proof (sd_hikey _ _ _ _ _ _ _ _ _ _ _ _ _ _ Hd) as Hhk. pose proof (sd_hk _ _ _ _ _ _ _ _ _ _ _ _ _ _ Hd) as Hhkw.
  pose proof (sd_tree1 _ _ _ _ _ _ _ _ _ _ _ _ _ _ Hd) as T1.
  destruct (hikey_lines_item p1 hk (it_ok _ _ T1) Hhk) as (Eg & _ & _).
  set (new_item := ItemPointerSet hk.2 r P_HIKEY). assert (wide W (W, new_item)) as Hni by (split; [done|apply Hhkw]).
  pose proof (seg_length _ _ Hseg) as Hsl. rewrite length_app in Hsl. cbn [length] in Hsl.
  pose proof (lo_in _ _ HL1 (S l) P HP1) as HinP. rewrite bool_decide_false, EP in HinP by lia.
  apply Forall_app in HinP as [_ HinP]. apply Forall_cons in HinP as [[_ Tpp] _]. simpl in Tpp.
  pose proof (data_lines_length pp (it_ok _ _ Tpp)) as Hdl. pose proof (first_data_cases (opaque pp)) as Hfc.
  destruct (IH (S l) idx1 L1 m1 pb pp m2 st new_item (P_FIRSTDATAKEY (opaque pp) + Zlen f1 + 1))
    as (idx' & L' & loc' & CP & repl & Eres & HL' & Hcov' & Hwide' & Etake & HCP & Eview & Hrepl).
  { done. }
  { unfold L1. intros k D Q Hk HD HQ. rewrite list_lookup_insert_ne in HD by lia. rewrite list_lookup_insert_ne in HQ by lia.
    apply (Hcov k); [lia|done|done]. }
  { apply tree_wide_insert; [done|apply (sd_wide _ _ _ _ _ _ _ _ _ _ _ _ _ _ Hd)]. }
  { by rewrite HP1, EP. }
  { unfold L1. rewrite drop_insert_lt by lia. done. }
  { done. }
  { rewrite bool_decide_false by lia. lia. }
  { unfold L1. rewrite length_drop, length_insert. lia. }
  exists idx', L', loc, C1, [(b, p1); (r, p2)].
  assert (L' !! l = Some C1) as HC1'.
  { rewrite <- (lookup_take_lt L' (S l) l), Etake, lookup_take_lt by lia. unfold L1. by apply list_lookup_insert_eq. }
  split_and!; [|done| |done| |done| |apply (sd_repl _ _ _ _ _ _ _ _ _ _ _ _ _ _ Hd)].
  - unfold insert_here, getpage. rewrite Hpg. cbn [mbind result_bind].
    destruct (Z.ltb_spec (PageGetFreeSpace p) W); [|lia]. rewrite Efs. cbn [mbind result_bind].
    fold r. rewrite Esp. cbn [mbind result_bind]. rewrite Ew. cbn [mbind result_bind].
    assert (P_ISROOT (opaque p) = false) as ->.
    { pose proof (lo_flags _ _ HL l _ (b, p) HC Hel) as E. simpl in E. rewrite E. by apply bool_decide_false. }
    fold e'. rewrite Egs. cbn [mbind result_bind]. rewrite Eg. fold new_item.
    rewrite insertonpg_after by (done || lia). rewrite Eres. done.
  - intros k D Q Hk HD HQ. destruct (decide (k = l)) as [->|Hne]; [|by apply (Hcov' k); [lia|..]].
    rewrite HC1' in HD. injection HD as <-. rewrite HCP in HQ. injection HQ as <-.
    assert (vseg (f1 ++ (b, p1) :: (r, p2) :: f2)
      (new_data W new_item (Z.to_nat (P_FIRSTDATAKEY (opaque pp) + Zlen f1 + 1 - P_FIRSTDATAKEY (opaque pp))) (data_lines pp))
      (hikey pp)) as Hv.
    { replace (Z.to_nat _) with (S (length f1)) by lia. apply (vseg_insert f1 (b, p) f2); try done.
      - simpl. unfold hikey. by rewrite Hhk.
      - simpl. unfold hikey. pose proof (sd_repl _ _ _ _ _ _ _ _ _ _ _ _ _ _ Hd) as Hrp. inversion Hrp as [|? ? ? ? ? ? ? ? Eh2]; subst. by rewrite Eh2. }
    pose proof (covers_replaced e1 m1 _ pb pp _ repl e2 m2 Hc1 Hc2 Hv Hrepl) as Hfin.
    apply (covers_view _ _ Hfin); [|done]. apply view_cview.
    rewrite (split_views l idx L l1 b p l2 it newoff C1 idx1 p1 p2 hk Hd), El1, El2. rewrite <- !(assoc_L (++)). done.
  - apply (f_equal (take l)) in Etake. rewrite !take_take, Nat.min_l in Etake by lia. rewrite Etake.
    unfold L1. by rewrite take_insert_ge by lia.
  - apply (split_views l idx L l1 b p l2 it newoff C1 idx1 p1 p2 hk Hd).
Qed.
End InsertTree.
(** ** The place of a new item on the leaves *)

Lemma StronglySorted_insert {A} (R : A -> A -> Prop) a x b :
  StronglySorted R (a ++ b) -> (forall y, y ∈ a -> R y x) -> (forall y, y ∈ b -> R x y) -> StronglySorted R (a ++ x :: b).
Proof.
  intros (H1 & H2 & H3)%StronglySorted_app_iff Ha Hb. apply StronglySorted_app_iff. split_and!; [done| |].
  - constructor; [done|]. by apply Forall_forall.
  - intros y z Hy [->|Hz]%elem_of_cons; auto.
Qed.

Lemma StronglySorted_dup {A} (R : A -> A -> Prop) a x b : R x x ->
  StronglySorted R (a ++ x :: b) -> StronglySorted R (a ++ x :: x :: b).
Proof.
  intros Hr Hs. apply StronglySorted_insert; [done| |]; apply StronglySorted_app_iff in Hs as (_ & Hs & H).
  - intros y Hy. apply H; [done|by left].
  - apply StronglySorted_inv in Hs as [_ Hs]. intros y [->|Hy]%elem_of_cons; [done|]. by eapply Forall_forall in Hs.
Qed.

Section Leaves.
Context (procs : procs_t) (it : BTItem) (Hprocs : Forall OrderProc procs).
Let n := Zlen procs.
Let sk := _bt_mkscankey procs it.
Notation cmp z := (key_cmp 0 procs (t_key it) (t_key z.2)).

Lemma cp_all : take (Z.to_nat n) procs = procs.
Proof. apply take_ge. unfold n. lia. Qed.

Lemma cmp_flip (z : Z * BTItem) w : key_le procs z (w, it) <-> 0 <= cmp z.
Proof.
  destruct (key_cmp_order procs Hprocs 0) as [Ha _]. unfold key_le. simpl.
  pose proof (Ha (t_key z.2) (t_key it)). pose proof (Ha (t_key it) (t_key z.2)). lia.
Qed.

Lemma key_le_refl z : key_le procs z z.
Proof. destruct (key_cmp_order procs Hprocs 0) as [Ha _]. unfold key_le. pose proof (Ha (t_key z.2) (t_key z.2)). lia. Qed.

Lemma key_le_trans x y z : key_le procs x y -> key_le procs y z -> key_le procs x z.
Proof. destruct (key_cmp_order procs Hprocs 0) as [_ Ht]. apply Ht. Qed.

(** Position [q] of the page after [l1]: what is left of it is not above the new key,
    what is right of it is not below. *)
Definition place (l1 : level) (p : BTPage) (l2 : level) (q : nat) : Prop :=
  (forall z, z ∈ spine l1 ++ take q (data_lines p) -> 0 <= cmp z) /\
  (forall z, z ∈ drop q (data_lines p) ++ hikey_lines p ++ spine l2 -> cmp z <= 0).

(** Beyond a page that ends in the new key. *)
Lemma place_after d1 y h l2 p rest : l2 = p :: rest -> StronglySorted (key_le procs) (spine (d1 ++ y :: l2)) ->
  hikey_lines y.2 = [h] -> cmp h = 0 -> place (d1 ++ [y]) p.2 rest 0.
Proof.
  intros -> Hs Hh H0. rewrite cons_middle, (assoc_L (++)), spine_app in Hs.
  assert (spine (d1 ++ [y]) = (spine d1 ++ data_lines y.2) ++ [h]) as E.
  { rewrite spine_app. change (spine [y]) with ((data_lines y.2 ++ hikey_lines y.2) ++ []).
    by rewrite app_nil_r, Hh, (assoc_L (++)). }
  rewrite E in Hs. apply StronglySorted_app_iff in Hs as (H1 & H2 & H3).
  apply StronglySorted_app_iff in H1 as (_ & _ & H1). unfold place. rewrite E. cbn [take drop]. rewrite app_nil_r.
  assert (key_le procs h (0, it) /\ key_le procs (0, it) h) as [Hle Hge] by (split; [apply cmp_flip; lia|unfold key_le; simpl; lia]).
  split; intros z Hz.
  - apply (cmp_flip z 0). apply elem_of_app in Hz as [Hz|Hz].
    + apply (key_le_trans z h); [|done]. apply H1; [done|by left].
    + apply list_elem_of_singleton in Hz as ->. done.
  - change (key_le procs (0, it) z). apply (key_le_trans _ h); [done|]. apply H3.
    + apply elem_of_app. right. by left.
    + change (spine (p :: rest)) with ((data_lines p.2 ++ hikey_lines p.2) ++ spine rest). by rewrite <- (assoc_L (++)).
Qed.

(** What the walk over equal pages finds: the page itself, or one right behind a page
    that ends in the new key. *)
Lemma dup_right_spec idx tired itemsz d2 : forall d1 y prev fuel moved,
  level_in idx true (y :: d2) -> linked prev (y :: d2) -> Forall (fun x => x.1 <> P_NONE) d2 -> (length d2 < fuel)%nat ->
  exists e1 x e2 moved', d1 ++ y :: d2 = e1 ++ x :: e2 /\ (length d1 <= length e1)%nat /\
    dup_right fuel tired idx y.1 n sk itemsz moved = Ok (x.1, moved') /\
    ((e1 = d1 /\ x = y /\ moved' = moved) \/
     (moved' = true /\ exists f z h, e1 = f ++ [z] /\ hikey_lines z.2 = [h] /\ cmp h = 0)).
Proof.
  induction d2 as [|y2 d2 IH]; intros d1 [b p] prev fuel moved Hin Hl Hn Hf; (destruct fuel as [|fuel]; [simpl in Hf; lia|]);
    apply Forall_cons in Hin as [[Hpg Ht] Hin]; cbn [dup_right]; unfold getpage; cbn [fst snd] in *;
    rewrite Hpg; cbn [mbind result_bind]; destruct Hl as (_ & Hnext & Hl).
  - assert (P_RIGHTMOST (opaque p) = true) as -> by (unfold P_RIGHTMOST; by rewrite Hnext).
    rewrite andb_false_r. simpl. eexists d1, (b, p), [], moved. split_and!; [done|done|done|by left].
  - set (test := _ && _ && _ && _). destruct test eqn:E.
    + unfold test in E. rewrite !andb_true_iff, negb_true_iff in E. destruct E as [[[_ Hr] Hc] _].
      destruct (hikey_item p (it_ok _ _ Ht) Hr) as (h & Hh & _ & Hg & _). apply Z.eqb_eq in Hc. unfold sk in Hc.
      rewrite bt_compare_key, cp_all, Hg in Hc by (left; apply (it_leaf _ _ Ht)).
      assert (btpo_next (opaque p) = y2.1) as -> by (by destruct y2). apply Forall_cons in Hn as [_ Hn].
      destruct (IH (d1 ++ [(b, p)]) y2 b fuel true) as (e1 & x & e2 & m' & E1 & El & E2 & E3); [done|done|done|simpl in Hf; lia|].
      exists e1, x, e2, m'. split; [by rewrite <- E1, <- (assoc_L (++))|]. split; [rewrite length_app in El; lia|].
      split; [done|]. right.
      destruct E3 as [(-> & -> & ->)|E3]; [|exact E3]. split; [done|]. by exists d1, (b, p), h.
    + eexists d1, (b, p), (y2 :: d2), moved. split_and!; [done|done|done|by left].
Qed.

(** What lies left of the page the key belongs to, and from its high key on. *)
Lemma target_left d1 y d2 : level_in_tree true d1 -> StronglySorted (key_le procs) (spine (d1 ++ y :: d2)) ->
  target procs n it d1 y -> forall z, z ∈ spine d1 -> 0 <= cmp z.
Proof.
  intros Hin Hs [Tp _] z Hz. apply list_elem_of_In, in_concat in Hz as (l & Hl & Hz).
  apply in_map_iff in Hl as (x & <- & Hx). apply list_elem_of_In in Hx, Hz.
  eapply Forall_forall in Tp as (h & Hh & Hpos); [|exact Hx]. rewrite cp_all in Hpos.
  eapply Forall_forall in Hin; [|exact Hx]. pose proof (hikey_lines_length _ (it_ok _ _ Hin)) as Hl.
  unfold hikey in Hh. destruct (hikey_lines x.2) as [|w ws] eqn:Ew; [done|]. injection Hh as <-.
  assert (ws = []) as -> by (pose proof (first_data_cases (opaque x.2)); destruct ws; [done|]; simpl in Hl; lia).
  apply list_elem_of_split in Hx as (f1 & f2 & ->). rewrite !spine_app in Hs.
  apply StronglySorted_app_iff in Hs as (Hs & _ & _). apply StronglySorted_app_iff in Hs as (_ & Hs & _).
  change (spine (x :: f2)) with ((data_lines x.2 ++ hikey_lines x.2) ++ spine f2) in Hs.
  apply StronglySorted_app_iff in Hs as (Hs & _ & _). rewrite Ew in Hs.
  apply (cmp_flip z 0). apply (key_le_trans z w); [|apply cmp_flip; lia].
  apply elem_of_app in Hz as [Hz|Hz]; [|apply list_elem_of_singleton in Hz as ->; apply key_le_refl].
  apply StronglySorted_app_iff in Hs as (_ & _ & Hs). apply Hs; [done|by left].
Qed.

Lemma target_right d1 y d2 : in_tree true y.2 -> hk_sorted procs (d1 ++ y :: d2) ->
  StronglySorted (key_le procs) (spine (d1 ++ y :: d2)) -> target procs n it d1 y ->
  forall z, z ∈ hikey_lines y.2 ++ spine d2 -> cmp z <= 0.
Proof.
  intros Hy Hhk Hs [_ Tn] z Hz. pose proof (hikey_lines_length _ (it_ok _ _ Hy)) as Hl.
  pose proof (first_data_cases (opaque y.2)) as Hf. unfold past, hikey in Tn. rewrite cp_all in Tn.
  destruct (hikey_lines y.2) as [|w ws] eqn:Ew.
  - destruct d2 as [|x d2]; [by apply elem_of_nil in Hz|]. apply StronglySorted_app_iff in Hhk as (_ & Hhk & _).
    apply StronglySorted_inv in Hhk as [_ Hhk]. apply Forall_cons in Hhk as [(a & Ha & _) _]. unfold hikey in Ha. by rewrite Ew in Ha.
  - assert (ws = []) as -> by (destruct ws; [done|]; simpl in Hl; lia).
    assert (cmp w <= 0) as Hw by (destruct (Z.lt_ge_cases 0 (cmp w)); [destruct Tn; by exists (t_key w.2)|lia]).
    apply elem_of_app in Hz as [Hz|Hz]; [by apply list_elem_of_singleton in Hz as ->|].
    change (key_le procs (0, it) z). apply (key_le_trans _ w); [done|].
    rewrite spine_app in Hs. apply StronglySorted_app_iff in Hs as (_ & Hs & _).
    change (spine (y :: d2)) with ((data_lines y.2 ++ hikey_lines y.2) ++ spine d2) in Hs.
    apply StronglySorted_app_iff in Hs as (_ & _ & Hs). apply Hs; [|done]. apply elem_of_app. right. rewrite Ew. by left.
Qed.

(** The place a binary search finds on the page the key belongs to. *)
(** Binary search on a leaf finds the first item not below the key. *)
Lemma leaf_binsrch y : in_tree true y -> StronglySorted (key_le procs) (data_lines y) ->
  let o := _bt_binsrch y n sk in let first := P_FIRSTDATAKEY (opaque y) in
  first <= o <= PageGetMaxOffsetNumber y + 1 /\
  (forall i z, data_lines y !! i = Some z -> (first + Z.of_nat i < o -> 0 < cmp z) /\ (o <= first + Z.of_nat i -> cmp z <= 0)).
Proof.
  intros [Hp Hleaf _ _] Hs o first. pose proof (data_lines_length _ Hp) as Hlen. pose proof (page_ok_small _ Hp) as Hsm. fold first in Hlen.
  assert (first <= o <= PageGetMaxOffsetNumber y + 1 /\
    (forall i, first <= i < o -> 0 < _bt_compare n sk y i) /\
    (forall i, o <= i <= PageGetMaxOffsetNumber y -> _bt_compare n sk y i <= 0)) as (R1 & R2 & R3).
  { destruct (decide (first <= PageGetMaxOffsetNumber y)) as [Hne|He].
    - destruct (binsrch_split y n sk) as (r & E & R); [lia| |done|].
      { apply page_sorted_for; [done|]. unfold page_sorted, keyed_lines. by rewrite Hleaf. }
      rewrite Hleaf in E. fold o in E. by rewrite E.
    - unfold o, _bt_binsrch. fold first.
      destruct (Z.ltb_spec (PageGetMaxOffsetNumber y) first); [|lia]. split; [lia|]. split; intros; lia. }
  split; [done|]. intros i z Hz. pose proof (lookup_lt_Some _ _ _ Hz).
  assert (_bt_compare n sk y (first + Z.of_nat i) = cmp z) as Hcmp.
  { unfold sk. rewrite bt_compare_key, cp_all by by left.
    destruct (data_line y (first + Z.of_nat i)) as (x & Hx & ->); [fold first; lia|].
    fold first in Hx. replace (Z.to_nat _) with i in Hx by lia. by simplify_eq. }
  rewrite <- Hcmp. split; intros; [apply R2|apply R3]; lia.
Qed.

Lemma place_binsrch d1 y d2 : level_in_tree true (d1 ++ y :: d2) -> hk_sorted procs (d1 ++ y :: d2) ->
  StronglySorted (key_le procs) (spine (d1 ++ y :: d2)) -> target procs n it d1 y ->
  let o := _bt_binsrch y.2 n sk in let first := P_FIRSTDATAKEY (opaque y.2) in
  first <= o <= PageGetMaxOffsetNumber y.2 + 1 /\ place d1 y.2 d2 (Z.to_nat (o - first)).
Proof.
  intros Hin Hhk Hs Htg o first. apply Forall_app in Hin as [Hin1 Hin]. apply Forall_cons in Hin as [Ht _].
  pose proof (target_right d1 y d2 Ht Hhk Hs Htg) as Hright. pose proof (target_left d1 y d2 Hin1 Hs Htg) as Hleft.
  destruct (leaf_binsrch y.2 Ht) as [R1 R2].
  { rewrite spine_app in Hs. apply StronglySorted_app_iff in Hs as (_ & Hs & _).
    change (spine (y :: d2)) with ((data_lines y.2 ++ hikey_lines y.2) ++ spine d2) in Hs.
    apply StronglySorted_app_iff in Hs as (Hs & _ & _). by apply StronglySorted_app_iff in Hs as (Hs & _ & _). }
  fold o first in R1, R2. split; [done|].
  split; intros z Hz; apply elem_of_app in Hz as [Hz|Hz]; auto; apply list_elem_of_lookup in Hz as [i Hz].
  - apply lookup_take_Some in Hz as [Hz Hi]. destruct (R2 i z Hz) as [R3 _]. lia.
  - rewrite lookup_drop in Hz. destruct (R2 _ z Hz) as [_ R3]. apply R3. lia.
Qed.

(** The leaves after the insertion at a proper place are in order. *)
Lemma place_sorted l1 b p l2 q w repl C' : StronglySorted (key_le procs) (spine (l1 ++ (b, p) :: l2)) ->
  place l1 p l2 q -> P_ISLEAF (opaque p) = true -> replaced b p (new_data w it q (data_lines p)) repl ->
  map view C' = map view (l1 ++ repl ++ l2) ->
  StronglySorted (key_le procs) (spine C') /\
  level_data C' = (level_data l1 ++ take q (data_lines p)) ++ (w, it) :: drop q (data_lines p) ++ level_data l2.
Proof.
  intros Hs [Hl Hr] Hleaf Hrep Ev.
  assert (spine C' = spine (l1 ++ repl ++ l2) /\ level_data C' = level_data (l1 ++ repl ++ l2)) as [-> ->].
  { split; unfold spine, level_data; f_equal.
    - change (map (fun x => (view x).2 ++ (view x).1.2) C' = map (fun x => (view x).2 ++ (view x).1.2) (l1 ++ repl ++ l2)).
      by rewrite <- !(map_map view (fun v => v.2 ++ v.1.2)), Ev.
    - change (map (fun x => (view x).2) C' = map (fun x => (view x).2) (l1 ++ repl ++ l2)).
      by rewrite <- !(map_map view snd), Ev. }
  rewrite !spine_app, !level_data_app.
  assert (StronglySorted (key_le procs)
    ((spine l1 ++ take q (data_lines p)) ++ (w, it) :: drop q (data_lines p) ++ hikey_lines p ++ spine l2)) as Hnew.
  { apply StronglySorted_insert.
    - rewrite spine_app in Hs. change (spine ((b, p) :: l2)) with ((data_lines p ++ hikey_lines p) ++ spine l2) in Hs.
      rewrite <- (take_drop q (data_lines p)) in Hs. rewrite <- !(assoc_L (++)) in Hs. rewrite <- !(assoc_L (++)). exact Hs.
    - intros z Hz. apply cmp_flip. by apply Hl.
    - intros z Hz. by apply Hr. }
  set (nd := new_data w it q (data_lines p)) in *.
  assert (StronglySorted (key_le procs) (spine l1 ++ nd ++ hikey_lines p ++ spine l2)) as Hnd.
  { unfold nd, new_data. rewrite <- !(assoc_L (++)) in Hnew. rewrite <- !(assoc_L (++)). exact Hnew. }
  inversion Hrep as [q0 Eh Ed|q1 r q2 m hk Hm Hk Eh1 Eh2 _ _ Ed]; subst.
  - change (spine [(b, q0)]) with ((data_lines q0 ++ hikey_lines q0) ++ []). rewrite app_nil_r, Ed, Eh.
    change (level_data [(b, q0)]) with (data_lines q0 ++ []). rewrite app_nil_r, Ed. split; [by rewrite <- !(assoc_L (++))|].
    unfold nd, new_data. by rewrite <- !(assoc_L (++)).
  - destruct (Ed Hleaf) as [E1 E2].
    change (spine [(b, q1); (r, q2)]) with ((data_lines q1 ++ hikey_lines q1) ++ (data_lines q2 ++ hikey_lines q2) ++ []).
    change (level_data [(b, q1); (r, q2)]) with (data_lines q1 ++ data_lines q2 ++ []).
    rewrite !app_nil_r, E1, E2, Eh1, Eh2, take_drop. split; [|unfold nd, new_data; by rewrite <- !(assoc_L (++))].
    rewrite (drop_S _ _ _ Hk). rewrite <- (take_drop m nd), (drop_S _ _ _ Hk) in Hnd.
    rewrite <- !(assoc_L (++)) in Hnd. rewrite <- !(assoc_L (++)). simpl in Hnd |- *. rewrite (assoc_L (++)) in Hnd. rewrite (assoc_L (++)).
    apply StronglySorted_dup; [apply key_le_refl|done].
Qed.
End Leaves.
(** ** Inserting into the index *)

(** The index as the sorted list of its items: there is no root yet, or the tree's leaves
    hold them.  [Q] is what else is known of the tree. *)
Definition index_rep (Q : list level -> Prop) (procs : procs_t) (idx : Index) (data : list (Z * BTItem)) : Prop :=
  (btm_root idx = P_NONE /\ data = []) \/
  (exists L C, tree_ok procs idx L /\ Q L /\ L !! 0%nat = Some C /\ data = level_data C).

Lemma spine_sublist lv : sublist (level_data lv) (spine lv).
Proof.
  induction lv as [|x lv IH]; [done|].
  change (level_data (x :: lv)) with (data_lines x.2 ++ level_data lv).
  change (spine (x :: lv)) with ((data_lines x.2 ++ hikey_lines x.2) ++ spine lv).
  apply sublist_app; [|done]. by apply sublist_inserts_r.
Qed.

Lemma StronglySorted_sublist {A} (R : A -> A -> Prop) l l' : sublist l l' -> StronglySorted R l' -> StronglySorted R l.
Proof.
  induction 1 as [|x l l' Hs IH|x l l' Hs IH]; intros H; [done| |]; apply StronglySorted_inv in H as [H Hx]; auto.
  constructor; [auto|]. apply Forall_forall. intros y Hy. eapply Forall_forall in Hx; [done|].
  by eapply elem_of_sublist.
Qed.

(** The items are in order. *)
Lemma index_rep_sorted Q procs idx data : index_rep Q procs idx data -> StronglySorted (key_le procs) data.
Proof.
  intros [[_ ->]|(L & C & Ht & _ & HC & ->)]; [constructor|].
  apply (StronglySorted_sublist _ _ (spine C)); [apply spine_sublist|]. by apply (t_leaves _ _ _ Ht).
Qed.

Lemma stack_ok_length st : forall i ups, stack_ok i st ups -> length st = length ups.
Proof.
  induction st as [|e st IH]; intros i [|P ups]; simpl; try done. intros (j & p & _ & _ & _ & H). f_equal. by eapply IH.
Qed.

Section Insert.
Context (alloc : gmap Z BTPage -> Z) (tired : nat -> bool) (W : Z) (procs : procs_t).
Context (HW8 : (8 | W)) (HW : sizeof_BTItemData <= W <= BTMaxItemSize) (Hprocs : Forall OrderProc procs).
Context (Halloc : forall m, m !! alloc m = None /\ alloc m <> P_NONE /\ alloc m <> InvalidBlockNumber).

(** The first root: an empty leaf. *)
Lemma tryroot_new idx : btm_root idx = P_NONE -> exists idx' r p,
  (forall n sk, _bt_search alloc idx n sk true = _bt_search alloc idx' n sk true) /\
  tree_ok procs idx' [[(r, p)]] /\ tree_wide W [[(r, p)]] /\ data_lines p = [].
Proof.
  intros E0. set (r := alloc (pages idx)). destruct (Halloc (pages idx)) as (Hr & Hr0 & _). fold r in Hr, Hr0.
  set (p := mkBTPage (mkOpaque 0 0 BTREE_METAPAGE (Z.lor BTP_LEAF BTP_ROOT)) []).
  set (idx' := set_root (set_page idx r p) r 1). exists idx', r, p. split_and!.
  - intros n sk. unfold _bt_search, _bt_getroot. f_equal. unfold _bt_tryroot at 1. rewrite E0. cbn [negb]. fold r.
    unfold _bt_tryroot. change (btm_root idx') with r. destruct (Z.eqb_spec r P_NONE); [done|].
    unfold getpage. cbn [idx' set_root set_page pages]. rewrite lookup_insert_eq. done.
  - split.
    + split; [split| |].
      * intros [|l] C HC; [|done]. injection HC as <-. constructor; [|constructor]. simpl. rewrite lookup_insert_eq.
        split; [done|]. split; [|done|done|done]. split; [constructor|vm_compute; done|done].
      * by constructor.
      * intros [|l] C HC; [|done]. by injection HC as <-.
      * apply NoDup_singleton.
      * intros H. by apply list_elem_of_singleton in H.
      * by exists p.
      * intros [|l] C x HC Hx; [|done]. injection HC as <-. by apply list_elem_of_singleton in Hx as ->.
    + intros l C P _ HC HP. apply lookup_lt_Some in HP. simpl in HP. lia.
    + intros C [= <-]. constructor.
  - constructor; [|constructor]. constructor; [|constructor]. by split.
  - done.
Qed.

(** The place [_bt_insertonpg] chooses on the leaves. *)
Lemma choose_place idx L C d1 y d2 it itemsz : tree_ok procs idx L -> L !! 0%nat = Some C -> C = d1 ++ y :: d2 ->
  target procs (Zlen procs) it d1 y -> let sk := _bt_mkscankey procs it in
  exists e1 x e2 moved, C = e1 ++ x :: e2 /\ (length d1 <= length e1)%nat /\ pages idx !! x.1 = Some x.2 /\
    dup_right (S (size (pages idx))) tired idx y.1 (Zlen procs) sk itemsz false = Ok (x.1, moved) /\
    let first := P_FIRSTDATAKEY (opaque x.2) in
    let o := if moved : bool then first else _bt_binsrch x.2 (Zlen procs) sk in
    first <= o <= PageGetMaxOffsetNumber x.2 + 1 /\ place procs it e1 x.2 e2 (Z.to_nat (o - first)).
Proof.
  intros Ht HC EC Htg sk. pose proof (lo_in _ _ (t_levels _ _ _ Ht) 0%nat C HC) as Hin. rewrite bool_decide_true in Hin by done.
  pose proof (lo_linked _ _ (t_levels _ _ _ Ht) 0%nat C HC) as Hlk. pose proof (tree_hk_sorted procs idx L 0 C Hprocs Ht HC) as Hhk.
  pose proof (t_leaves _ _ _ Ht C HC) as Hs. destruct (level_pages idx L 0 C (t_levels _ _ _ Ht) HC) as [_ Hn].
  pose proof (level_fuel procs idx L Ht 0 C HC) as Hfuel. pose proof Hin as Hin0. pose proof Hlk as Hlk0.
  rewrite EC in Hin0, Hlk0, Hn, Hfuel. rewrite length_app in Hfuel. apply linked_app in Hlk0 as [prev Hlk0].
  apply Forall_app in Hin0 as [_ Hin0]. apply Forall_app in Hn as [_ Hn]. apply Forall_cons in Hn as [_ Hn].
  destruct (dup_right_spec procs it idx tired itemsz d2 d1 y prev (S (size (pages idx))) false Hin0 Hlk0 Hn)
    as (e1 & x & e2 & moved & E & Hlen & Ed & Hcase); [simpl in Hfuel; lia|]. rewrite <- EC in E.
  pose proof (level_in_pages _ _ _ Hin) as HinT. exists e1, x, e2, moved. assert (x ∈ C) as Hx by (rewrite E; apply elem_of_app; right; by left).
  eapply Forall_forall in Hin as [Hpg Hxt] ; [|exact Hx].
  destruct Hcase as [(-> & -> & ->)|(-> & f & z & h & Ee1 & Hh & H0)].
  - destruct (place_binsrch procs it Hprocs d1 y e2) as [R1 R2]; [by rewrite <- E|by rewrite <- E|by rewrite <- E|done|]. by split_and!.
  - split_and!; try done. cbn zeta. rewrite Z.sub_diag. pose proof (page_ok_first _ (it_ok _ _ Hxt)). split; [lia|].
    rewrite Ee1. apply (place_after procs it Hprocs f z h (x :: e2) x e2); try done.
    rewrite E, Ee1, <- (assoc_L (++)) in Hs. done.
Qed.

Lemma insertonpg_place fuel idx buf st n sk it blk p moved : wide W (W, it) ->
  dup_right (S (size (pages idx))) tired idx buf n sk W false = Ok (blk, moved) -> pages idx !! blk = Some p ->
  _bt_insertonpg alloc (S fuel) tired idx buf st n sk it 0 =
  insert_here alloc (fun idx pbuf stack new_item off => _bt_insertonpg alloc fuel tired idx pbuf stack 0 [] new_item off)
    idx blk st it W (if moved then P_FIRSTDATAKEY (opaque p) else _bt_binsrch p n sk).
Proof.
  intros [_ Hsz] Ed Hp. simpl in Hsz. cbn [_bt_insertonpg]. rewrite Hsz, Z.gtb_ltb.
  destruct (Z.ltb_spec BTMaxItemSize W); [lia|]. change (0 >? 0) with false. cbn iota. rewrite Ed.
  cbn [mbind result_bind fst snd]. unfold getpage. by rewrite Hp.
Qed.

(** An insertion into a tree. *)
Lemma insert_tree idx L C it : tree_ok procs idx L -> tree_wide W L -> L !! 0%nat = Some C -> wide W (W, it) ->
  exists idx' loc a b, _bt_doinsert alloc procs tired idx it = Ok (idx', loc) /\ level_data C = a ++ b /\
    index_rep (tree_wide W) procs idx' (a ++ (W, it) :: b).
Proof.
  intros Ht Hw HC Hit. unfold _bt_doinsert. cbv zeta. set (n := Zlen procs). set (sk := _bt_mkscankey procs it).
  destruct (tree_search_spec procs n it idx L Hprocs Ht alloc true) as (D & d1 & y & d2 & st & Es & HD & ED & Htg & Hst).
  fold sk in Es. rewrite Es. cbn [mbind result_bind]. rewrite HC in HD. injection HD as <-.
  pose proof (lo_in _ _ (t_levels _ _ _ Ht) 0%nat C HC) as Hin. rewrite bool_decide_true in Hin by done.
  pose proof (lo_linked _ _ (t_levels _ _ _ Ht) 0%nat C HC) as Hlk.
  assert (_bt_moveright (S (size (pages idx))) idx y.1 n sk = Ok y.1) as ->.
  { pose proof Hin as Hin0. rewrite ED in Hin0, Hlk. apply linked_app in Hlk as [prev Hlk]. apply Forall_app in Hin0 as [_ Hin0].
    apply (moveright_spec procs n it idx true [] y d2 prev); try done; [|simpl; lia]. split; [constructor|apply Htg]. }
  cbn [mbind result_bind].
  destruct (choose_place idx L C d1 y d2 it W Ht HC ED Htg) as (e1 & [b p] & e2 & moved & EC & Hlen & Hpg & Edup & Hoff & Hpl).
  fold n sk in Edup, Hoff, Hpl. cbn [fst snd] in *. rewrite (insertonpg_place _ _ _ _ _ _ _ b p moved Hit Edup Hpg).
  set (o := if moved then _ else _) in *.
  destruct (insert_level alloc tired W HW8 HW Halloc (S (length st)) 0 idx L e1 b p e2 st it o)
    as (idx' & L' & loc & C' & repl & Eres & HL' & Hcov & Hw' & _ & HC' & Ev & Hrep).
  { apply Ht. }
  { apply Ht. }
  { done. }
  { by rewrite HC, EC. }
  { by apply (stack_ok_mono (length d1)). }
  { done. }
  { rewrite bool_decide_true by done. lia. }
  { rewrite <- (stack_ok_length _ _ _ Hst). lia. }
  assert (P_ISLEAF (opaque p) = true) as Hleaf.
  { rewrite EC in Hin. apply Forall_app in Hin as [_ Hin]. apply Forall_cons in Hin as [[_ Hp] _]. apply (it_leaf _ _ Hp). }
  pose proof (t_leaves _ _ _ Ht C HC) as Hs. rewrite EC in Hs.
  destruct (place_sorted procs it Hprocs e1 b p e2 _ W repl C' Hs Hpl Hleaf Hrep Ev) as [Hs' Hd'].
  set (q := Z.to_nat (o - P_FIRSTDATAKEY (opaque p))) in *.
  exists idx', loc, (level_data e1 ++ take q (data_lines p)), (drop q (data_lines p) ++ level_data e2). split; [exact Eres|]. split.
  - rewrite EC, level_data_app. change (level_data ((b, p) :: e2)) with (data_lines p ++ level_data e2).
    rewrite <- (take_drop q (data_lines p)) at 1. by rewrite <- !(assoc_L (++)).
  - right. exists L', C'. split_and!; [|done|done|done]. split; [done|done|]. intros C'' HC''. by simplify_eq.
Qed.

(** An insertion into any index. *)
Lemma insert_index idx data it : index_rep (tree_wide W) procs idx data -> wide W (W, it) ->
  exists idx' loc a b, _bt_doinsert alloc procs tired idx it = Ok (idx', loc) /\ data = a ++ b /\
    index_rep (tree_wide W) procs idx' (a ++ (W, it) :: b).
Proof.
  intros [[E0 ->]|(L & C & Ht & Hw & HC & ->)] Hit; [|by apply (insert_tree idx L C)].
  destruct (tryroot_new idx E0) as (idx1 & r & p & Es & Ht & Hw & Hd).
  destruct (insert_tree idx1 _ [(r, p)] it Ht Hw eq_refl Hit) as (idx' & loc & a & b & E & Eab & Hrep).
  change (level_data [(r, p)]) with (data_lines p ++ []) in Eab. rewrite Hd in Eab.
  exists idx', loc, a, b. split; [|done]. unfold _bt_doinsert in *. by rewrite Es.
Qed.
End Insert.

(** [btinsert] of the items one after the other. *)
Fixpoint insert_all (alloc : gmap Z BTPage -> Z) (tired : nat -> bool) (procs : procs_t) (idx : Index) (its : list BTItem) :
    result Index :=
  match its with
  | [] => Ok idx
  | it :: its => r ← _bt_doinsert alloc procs tired idx it; insert_all alloc tired procs r.1 its
  end.

Lemma insert_all_ok alloc tired W procs its :
  (8 | W) -> sizeof_BTItemData <= W <= BTMaxItemSize -> Forall OrderProc procs ->
  (forall m, m !! alloc m = None /\ alloc m <> P_NONE /\ alloc m <> InvalidBlockNumber) ->
  Forall (fun it => MAXALIGN (IndexTupleDSize it) = W) its -> forall idx data, index_rep (tree_wide W) procs idx data ->
  exists idx' data', insert_all alloc tired procs idx its = Ok idx' /\ index_rep (tree_wide W) procs idx' data' /\
    data' ≡ₚ map (fun it => (W, it)) its ++ data.
Proof.
  intros HW8 HW Hpr Halloc Hits. induction Hits as [|it its Hit Hits IH]; intros idx data Hrep; [by exists idx, data|].
  cbn [insert_all].
  destruct (insert_index alloc tired W procs HW8 HW Hpr Halloc idx data it Hrep) as (idx1 & loc & a & b & -> & -> & Hrep1); [done|].
  destruct (IH _ _ Hrep1) as (idx' & data' & E & Hrep' & Hp). exists idx', data'. split_and!; [done|done|].
  rewrite Hp. simpl. rewrite <- Permutation_middle. by rewrite <- Permutation_middle.
Qed.

(** ** Theorems *)

(** A search of an index that is in order returns, without changing the index, nothing if
    the index is empty, and otherwise a leaf such that every item on the leaves to its
    left is below the key and no item on the leaves to its right is: the first item that
    is not below the key is on this leaf or the first one behind it. *)
Theorem bt_search_correct alloc procs n it idx data Q : Forall OrderProc procs -> index_rep Q procs idx data ->
  let cmp z := key_cmp 0 (take (Z.to_nat n) procs) (t_key it) (t_key z.2) in
  let res := _bt_search alloc idx n (_bt_mkscankey procs it) false in
  (res = Ok (None, idx) /\ data = []) \/
  (exists st blk p a b, res = Ok (Some (st, blk), idx) /\ pages idx !! blk = Some p /\ P_ISLEAF (opaque p) = true /\
     data = a ++ data_lines p ++ b /\ (forall z, z ∈ a -> 0 < cmp z) /\ (forall z, z ∈ b -> cmp z <= 0)).
Proof.
  intros Hpr [[E0 ->]|(L & C & Ht & _ & HC & ->)] cmp res.
  - left. split; [|done]. unfold res, _bt_search, _bt_getroot, _bt_tryroot. by rewrite E0.
  - right. destruct (tree_search_spec procs n it idx L Hpr Ht alloc false) as (D & d1 & y & d2 & st & E & HD & ED & Htg & _).
    rewrite HC in HD. injection HD as <-. pose proof (lo_in _ _ (t_levels _ _ _ Ht) 0%nat C HC) as Hin.
    rewrite bool_decide_true in Hin by done. pose proof (level_in_pages _ _ _ Hin) as HinT.
    destruct (target_meaning procs n it C d1 y d2 Hpr HinT (t_leaves _ _ _ Ht C HC) (tree_hk_sorted _ _ _ _ _ Hpr Ht HC) ED Htg) as [Hl Hr].
    rewrite ED in Hin. apply Forall_app in Hin as [_ Hin]. apply Forall_cons in Hin as [[Hpg Hy] _].
    exists st, y.1, y.2, (level_data d1), (level_data d2). split_and!; try done; [apply Hy|].
    by rewrite ED, level_data_app.
Qed.

(** C7: insertion refines insertion into a sorted list.  For keys of one width and a file that
    hands out unused blocks, inserting an item never fails, whatever splits it needs
    and however the random choice falls: the new item is put in order among the
    others, and the result is again an index in order, with all levels linked and every
    page reachable from its parent. *)
Theorem bt_doinsert_correct alloc tired W procs idx data it :
  (8 | W) -> sizeof_BTItemData <= W <= BTMaxItemSize -> Forall OrderProc procs ->
  (forall m, m !! alloc m = None /\ alloc m <> P_NONE /\ alloc m <> InvalidBlockNumber) ->
  index_rep (tree_wide W) procs idx data -> MAXALIGN (IndexTupleDSize it) = W ->
  exists idx' loc a b, _bt_doinsert alloc procs tired idx it = Ok (idx', loc) /\ data = a ++ b /\
    index_rep (tree_wide W) procs idx' (a ++ (W, it) :: b) /\
    StronglySorted (key_le procs) (a ++ (W, it) :: b).
Proof.
  intros HW8 HW Hpr Halloc Hrep Hit.
  destruct (insert_index alloc tired W procs HW8 HW Hpr Halloc idx data it Hrep) as (idx' & loc & a & b & E & Ed & Hrep'); [done|].
  exists idx', loc, a, b. split_and!; [done|done|done|]. by apply index_rep_sorted in Hrep'.
Qed.

(** An index built from nothing by any sequence of insertions holds exactly the inserted
    items, in order. *)
Theorem bt_build_sorted alloc tired W procs its :
  (8 | W) -> sizeof_BTItemData <= W <= BTMaxItemSize -> Forall OrderProc procs ->
  (forall m, m !! alloc m = None /\ alloc m <> P_NONE /\ alloc m <> InvalidBlockNumber) ->
  Forall (fun it => MAXALIGN (IndexTupleDSize it) = W) its ->
  exists idx data, insert_all alloc tired procs (mkIndex ∅ P_NONE 0) its = Ok idx /\
    index_rep (tree_wide W) procs idx data /\ data ≡ₚ map (fun it => (W, it)) its.
Proof.
  intros HW8 HW Hpr Halloc Hits.
  destruct (insert_all_ok alloc tired W procs its HW8 HW Hpr Halloc Hits (mkIndex ∅ P_NONE 0) []) as (idx & data & E & Hrep & Hp); [by left|].
  exists idx, data. by rewrite app_nil_r in Hp.
Qed.

(** ** Witnesses *)

(** The block after the last one in use. *)
Definition demo_alloc (m : gmap Z BTPage) : Z :=
  let c := 1 + map_fold (fun k _ z => Z.max k z) 0 m in if c =? InvalidBlockNumber then c + 1 else c.

Lemma demo_alloc_ok m : m !! demo_alloc m = None /\ demo_alloc m <> P_NONE /\ demo_alloc m <> InvalidBlockNumber.
Proof.
  assert (0 <= map_fold (fun k (_ : BTPage) z => Z.max k z) 0 m /\
    forall k p, m !! k = Some p -> k <= map_fold (fun k (_ : BTPage) z => Z.max k z) 0 m) as [H0 Hk].
  { apply (map_fold_weak_ind (fun z m => 0 <= z /\ forall k (p : BTPage), m !! k = Some p -> k <= z)).
    - split; [done|]. intros k p H. by rewrite lookup_empty in H.
    - intros i x m' z Hi [H0 Hz]. split; [lia|]. intros k p [[<- _]|[_ H]]%lookup_insert_Some; [lia|]. specialize (Hz k p H). lia. }
  unfold demo_alloc, P_NONE. set (c := 1 + _). split_and!; [|case_match; unfold c; lia|destruct (Z.eqb_spec c InvalidBlockNumber); lia].
  destruct (m !! _) as [p|] eqn:E; [|done]. apply Hk in E. exfalso. case_match; unfold c in *; lia.
Qed.

Definition wide_item (k : Z) : BTItem := mkBTItem 1 k 2000 [Some (Val k)].
Definition build (its : list BTItem) : result Index :=
  insert_all demo_alloc (fun _ => false) [btint4cmp] (mkIndex ∅ P_NONE 0) its.

Lemma demo_procs_ok : Forall OrderProc [btint4cmp].
Proof. constructor; [apply _|by constructor]. Qed.

Lemma demo_width : (8 | 2000) /\ sizeof_BTItemData <= 2000 <= BTMaxItemSize.
Proof. split; [by exists 250|]. vm_compute. split; discriminate. Qed.

(** Twelve items: five leaves under a root. *)
Definition demo_keys : list BTItem := map wide_item [5; 3; 8; 1; 9; 4; 7; 2; 6; 5; 5; 5].

Lemma demo_index : exists idx data, build demo_keys = Ok idx /\ index_rep (tree_wide 2000) [btint4cmp] idx data /\
  data ≡ₚ map (fun it => (2000, it)) demo_keys.
Proof.
  destruct (insert_all_ok demo_alloc (fun _ => false) 2000 [btint4cmp] demo_keys (proj1 demo_width) (proj2 demo_width)
    demo_procs_ok demo_alloc_ok) with (idx := mkIndex ∅ P_NONE 0) (data := @nil (Z * BTItem)) as (idx & data & E & H & Hp).
  - unfold demo_keys. repeat constructor.
  - left. split; reflexivity.
  - rewrite app_nil_r in Hp. exact (ex_intro _ idx (ex_intro _ data (conj E (conj H Hp)))).
Qed.

Lemma bt_search_correct_witness : exists idx st blk p,
  build demo_keys = Ok idx /\
  _bt_search demo_alloc idx 1 (_bt_mkscankey [btint4cmp] (wide_item 6)) false = Ok (Some (st, blk), idx) /\
  pages idx !! blk = Some p /\ P_ISLEAF (opaque p) = true.
Proof.
  destruct demo_index as (idx & data & E & H & Hp).
  destruct (bt_search_correct demo_alloc [btint4cmp] 1 (wide_item 6) idx data _ demo_procs_ok H)
    as [(_ & ->)|(st & blk & p & a & b & Es & Hpg & Hl & _)].
  - apply Permutation_nil_l in Hp. discriminate Hp.
  - exists idx, st, blk, p. exact (conj E (conj Es (conj Hpg Hl))).
Defined.

Lemma bt_doinsert_correct_witness : exists idx idx' loc,
  build demo_keys = Ok idx /\ _bt_doinsert demo_alloc [btint4cmp] (fun _ => true) idx (wide_item 5) = Ok (idx', loc).
Proof.
  destruct demo_index as (idx & data & E & H & Hp).
  destruct (bt_doinsert_correct demo_alloc (fun _ => true) 2000 [btint4cmp] idx data (wide_item 5) (proj1 demo_width)
    (proj2 demo_width) demo_procs_ok demo_alloc_ok H eq_refl) as (idx' & loc & a & b & Ei & _).
  exists idx, idx', loc. exact (conj E Ei).
Defined.

Lemma bt_build_sorted_witness : exists idx data, build demo_keys = Ok idx /\
  index_rep (tree_wide 2000) [btint4cmp] idx data /\ length data = 12%nat.
Proof.
  destruct (bt_build_sorted demo_alloc (fun _ => false) 2000 [btint4cmp] demo_keys (proj1 demo_width) (proj2 demo_width)
    demo_procs_ok demo_alloc_ok) as (idx & data & E & H & Hp).
  - repeat constructor.
  - exists idx, data. split; [exact E|]. split; [exact H|]. rewrite Hp. reflexivity.
Defined.

End NbtTree.
