(* ===== verification/NbtQual.v ===== *)
(** * B-trees: the qualification of a scan ([access/nbtree/nbtutils.c], [nbtstrat.c])

    A scan has a list of keys, each an operator on an attribute and a constant,
    ordered by attribute.  [_bt_orderkeys] reduces them to at most one equality or
    two bounds per attribute and counts the keys whose failure ends the scan;
    [_bt_checkkeys] tests an item.

    The functions called through the function manager are a parameter, [fmgr], as
    are the operators of the index, [strategy_map]; the class [StrategyOps] says what
    the catalogs promise: the five operators of an attribute compare as its support
    function does. *)

From S2P Require Import Prelude.
From S2P Require Import Bufpage.
From S2P Require Import Heaptuple.
From S2P Require Import Nbtcompare.
From S2P Require Import Nbtree.

Module NbtQual.
Import Heaptuple Nbtcompare Nbtree.

Definition BTLessStrategyNumber : Z := 1.
Definition BTLessEqualStrategyNumber : Z := 2.
Definition BTEqualStrategyNumber : Z := 3.
Definition BTGreaterEqualStrategyNumber : Z := 4.
Definition BTGreaterStrategyNumber : Z := 5.
Definition BTMaxStrategyNumber : Z := 5.

Definition SK_NEGATE : Z := 4.
Definition SK_COMMUTE : Z := 8.

(** A scan key of a query, with the oid of its operator's function. *)
Record QualKey := mkQual {
  q_flags : Z;
  q_attno : Z;
  q_procedure : Z;
  q_argument : Datum }.
Definition set_argument (q : QualKey) (d : Datum) : QualKey := mkQual (q_flags q) (q_attno q) (q_procedure q) d.

(** The two directions in which a scan moves. *)
Inductive ScanDirection := ForwardScanDirection | BackwardScanDirection.
Definition ScanDirectionIsForward (d : ScanDirection) : bool :=
  match d with ForwardScanDirection => true | BackwardScanDirection => false end.
Definition ScanDirectionIsBackward (d : ScanDirection) : bool := negb (ScanDirectionIsForward d).

Section Qual.
Context (fmgr : Z -> Datum -> Datum -> bool) (strategy_map : Z -> list Z).

(** [for (j = BTMaxStrategyNumber; --j >= 0;)]. *)
Fixpoint getstrategy_loop (j : nat) (procedure : Z) (map : list Z) : option nat :=
  match j with
  | O => None
  | S j => if procedure =? aget 0 map (Z.of_nat j) then Some j else getstrategy_loop j procedure map
  end.
Definition _bt_getstrategynumber (procedure : Z) (map : list Z) : result nat :=
  match getstrategy_loop (Z.to_nat BTMaxStrategyNumber) procedure map with
  | Some j => Ok j
  | None => Err "_bt_getstrategynumber: unable to identify operator"
  end.

(** [RelationGetStrategy]: the strategies are numbered from 1, and 0 is
    [InvalidStrategy].  The switch over the flags of the entry is left out:
    [OperatorRelationFillScanKeyEntry], the only writer of strategy maps, gives every
    entry the flags 0. *)
Fixpoint strategy_loop (n : nat) (index : Z) (procedure : Z) (map : list Z) : Z :=
  match n with
  | O => 0
  | S n => if aget 0 map index =? procedure then 1 + index else strategy_loop n (index + 1) procedure map
  end.
Definition _bt_getstrat (attno procedure : Z) : result Z :=
  let strat := strategy_loop (Z.to_nat BTMaxStrategyNumber) 0 procedure (strategy_map attno) in
  if strat =? 0 then Err "Assert(StrategyNumberIsValid(strat))" else Ok strat.

(** ** Ordering the keys *)

(** [xform] and [init]: the key kept for each strategy. *)
Notation slots := (list (option QualKey)).
Definition no_slots : slots := replicate (Z.to_nat BTMaxStrategyNumber) None.
Definition slot (x : slots) (j : nat) : option QualKey := default None (x !! j).

(** What [_bt_orderkeys] leaves in the scan. *)
Record Ordered := mkOrdered {
  qual_ok : bool;
  numberOfRequiredKeys : Z;
  keyData : list QualKey;
  allEqualSoFar : bool }.
Definition qual_fails (o : Ordered) : Ordered := mkOrdered false (numberOfRequiredKeys o) (keyData o) (allEqualSoFar o).

(** The checks of the other keys of an attribute that has an equality. *)
Fixpoint eq_checks (j : nat) (eq : QualKey) (x : slots) : bool :=
  match j with
  | O => true
  | S j =>
      (match slot x j with
       | Some chk => if Nat.eqb j (Z.to_nat (BTEqualStrategyNumber - 1)) then true
                     else fmgr (q_procedure chk) (q_argument eq) (q_argument chk)
       | None => true
       end) && eq_checks j eq x
  end.

(** Of two bounds in the same direction, with and without equality, one is kept. *)
Definition keep_one (strict weak : nat) (x : slots) : slots :=
  match slot x strict, slot x weak with
  | Some s, Some w => if fmgr (q_procedure w) (q_argument s) (q_argument w) then <[weak := None]> x else <[strict := None]> x
  | _, _ => x
  end.

Fixpoint emit_keys (j : nat) (x : slots) : list QualKey :=
  match j with
  | O => []
  | S j => match slot x j with Some q => q :: emit_keys j x | None => emit_keys j x end
  end.

(** The end of the keys of an attribute. *)
Definition finish_attr (x : slots) (o : Ordered) : Ordered :=
  let '(x, ok, alleq) :=
    match slot x 2 with
    | Some eq => ([None; None; Some eq; None; None], qual_ok o && eq_checks (Z.to_nat BTMaxStrategyNumber) eq x, allEqualSoFar o)
    | None => (x, qual_ok o, false)
    end in
  let x := keep_one 0 1 x in
  let x := keep_one 4 3 x in
  let keys := keyData o ++ emit_keys (Z.to_nat BTMaxStrategyNumber) x in
  mkOrdered ok (if allEqualSoFar o then Zlen keys else numberOfRequiredKeys o) keys alleq.

(** A key joins the others of its attribute: the more restrictive argument is kept. *)
Definition add_key (j : nat) (cur : QualKey) (x : slots) (o : Ordered) : slots * Ordered :=
  match slot x j with
  | Some k =>
      if fmgr (q_procedure cur) (q_argument cur) (q_argument k)
      then (<[j := Some (set_argument k (q_argument cur))]> x, o)
      else (x, if Nat.eqb j (Z.to_nat (BTEqualStrategyNumber - 1)) then qual_fails o else o)
  | None => (<[j := Some cur]> x, o)
  end.

(** The main loop: [todo] are the keys from [cur] on. *)
Fixpoint orderkeys_loop (todo : list QualKey) (attno : Z) (x : slots) (o : Ordered) : result Ordered :=
  match todo with
  | [] => Ok (finish_attr x o)
  | cur :: todo =>
      if q_flags cur .& SK_ISNULL then Ok (qual_fails o)
      else
        st ← (if q_attno cur =? attno then Ok (attno, x, o)
              else if q_attno cur =? attno + 1 then Ok (q_attno cur, no_slots, finish_attr x o)
              else Err "_bt_orderkeys: key(s) for attribute missed");
        let '(attno, x, o) := st in
        j ← _bt_getstrategynumber (q_procedure cur) (strategy_map attno);
        let '(x, o) := add_key j cur x o in
        orderkeys_loop todo attno x o
  end.

Definition _bt_orderkeys (keys : list QualKey) : result Ordered :=
  match keys with
  | [] => Ok (mkOrdered true 0 [] true)
  | cur :: _ =>
      if negb (q_attno cur =? 1) then Err "_bt_orderkeys: key(s) for attribute 1 missed"
      else orderkeys_loop keys 1 no_slots (mkOrdered true 0 [] true)
  end.

(** ** Testing an item *)

(** Whether the item passes and whether the scan goes on; [keysok] keys have been passed. *)
Fixpoint checkkeys_loop (keys : list QualKey) (keysok required : Z) (tuple : BTItem) (dir : ScanDirection) : bool * bool :=
  match keys with
  | [] => (true, true)
  | key :: keys =>
      let '(datum, isNull) := index_getattr tuple (q_attno key) in
      if q_flags key .& SK_ISNULL then (false, false)
      else if isNull then (false, negb ((keysok <? required) && ScanDirectionIsForward dir))
      else
        let test := if q_flags key .& SK_COMMUTE then fmgr (q_procedure key) (q_argument key) datum
                    else fmgr (q_procedure key) datum (q_argument key) in
        if Bool.eqb test (q_flags key .& SK_NEGATE) then (false, negb (keysok <? required))
        else checkkeys_loop keys (keysok + 1) required tuple dir
  end.

Definition _bt_checkkeys (o : Ordered) (tuple : BTItem) (dir : ScanDirection) : bool * bool :=
  checkkeys_loop (keyData o) 0 (numberOfRequiredKeys o) tuple dir.

End Qual.

(** ** What the operators mean *)

(** The test of strategy [j + 1] on the outcome of a comparison. *)
Definition strat_test (j : nat) (c : Z) : bool :=
  match j with O => c <? 0 | 1%nat => c <=? 0 | 2%nat => c =? 0 | 3%nat => c >=? 0 | _ => c >? 0 end.

(** The catalogs: the operators of an attribute agree with its support function. *)
Class StrategyOps (fmgr : Z -> Datum -> Datum -> bool) (strategy_map : Z -> list Z) (procs : list (Datum -> Datum -> Z)) : Prop := {
  ops_distinct : forall a, 1 <= a <= Zlen procs -> NoDup (strategy_map a) /\ length (strategy_map a) = 5%nat;
  ops_test : forall a f j x y, procs !! Z.to_nat (a - 1) = Some f -> 1 <= a -> (j < 5)%nat ->
    fmgr (aget 0 (strategy_map a) (Z.of_nat j)) x y = strat_test j (f x y) }.

(** All order facts about three values. *)
Ltac order_facts H x y z :=
  let Ha := fresh in let Ht := fresh in
  pose proof (proc_antisym (OrderProc := H)) as Ha; pose proof (proc_trans (OrderProc := H)) as Ht;
  pose proof (Ha x y); pose proof (Ha y x); pose proof (Ha x z); pose proof (Ha z x); pose proof (Ha y z); pose proof (Ha z y);
  pose proof (Ht x y z); pose proof (Ht x z y); pose proof (Ht y x z); pose proof (Ht y z x); pose proof (Ht z x y); pose proof (Ht z y x);
  pose proof (Ha x x); pose proof (Ha y y); pose proof (Ha z z); clear Ha Ht.
Ltac strat_bool := unfold strat_test; rewrite ?Z.geb_leb, ?Z.gtb_ltb; apply eq_true_iff_eq;
  rewrite ?andb_true_iff, ?Z.ltb_lt, ?Z.leb_le, ?Z.eqb_eq in *.

Section Meaning.
Context (fmgr : Z -> Datum -> Datum -> bool) (strategy_map : Z -> list Z) (procs : list (Datum -> Datum -> Z)).
Context `{Hops : !StrategyOps fmgr strategy_map procs} (Hprocs : Forall OrderProc procs).

(** A key of strategy [j + 1] on attribute [a]. *)
Record of_strategy (a : Z) (j : nat) (q : QualKey) : Prop := {
  st_flags : q_flags q = 0;
  st_attno : q_attno q = a;
  st_j : (j < 5)%nat;
  st_proc : q_procedure q = aget 0 (strategy_map a) (Z.of_nat j) }.

(** What a scan may be given: keys on attributes of the index, in any order and with any
    operator, with no flag but the one of a null constant. *)
Definition key_ok (q : QualKey) : Prop :=
  1 <= q_attno q <= Zlen procs /\ (q_flags q = SK_ISNULL \/ q_flags q = 0).

(** A key holds of an attribute value, and of an item. *)
Definition holds_att (v : option Datum) (q : QualKey) : bool :=
  negb (q_flags q .& SK_ISNULL) && match v with Some d => fmgr (q_procedure q) d (q_argument q) | None => false end.
Definition holds (it : BTItem) (q : QualKey) : bool := holds_att (aget None (t_key it) (q_attno q - 1)) q.
Definition matches (keys : list QualKey) (it : BTItem) : bool := forallb (holds it) keys.

Lemma aget_nodup (l : list Z) i j : NoDup l -> (i < length l)%nat -> (j < length l)%nat ->
  aget 0 l (Z.of_nat i) = aget 0 l (Z.of_nat j) -> i = j.
Proof.
  intros Hn Hi Hj E. unfold aget in E. destruct (Z.ltb_spec (Z.of_nat i) 0), (Z.ltb_spec (Z.of_nat j) 0); try lia.
  rewrite !Nat2Z.id in E. destruct (lookup_lt_is_Some_2 l i Hi) as [x Hx], (lookup_lt_is_Some_2 l j Hj) as [y Hy].
  rewrite Hx, Hy in E. simpl in E. subst y. by eapply NoDup_lookup.
Qed.

Lemma getstrategy_loop_spec a j q i : 1 <= a <= Zlen procs -> of_strategy a j q -> (i <= 5)%nat ->
  getstrategy_loop i (q_procedure q) (strategy_map a) = if (j <? i)%nat then Some j else None.
Proof.
  intros Ha [_ _ Hj Hp]. destruct (ops_distinct a Ha) as [Hn Hl]. induction i as [|i IH]; intros Hi; [done|]. simpl.
  destruct (Z.eqb_spec (q_procedure q) (aget 0 (strategy_map a) (Z.of_nat i))) as [E|Hne].
  - assert (j = i) as -> by (apply (aget_nodup (strategy_map a)); [done|lia|lia|congruence]).
    by destruct (Nat.ltb_spec i (S i)); [|lia].
  - rewrite IH by lia. assert (j <> i) by (intros ->; congruence).
    destruct (Nat.ltb_spec j i), (Nat.ltb_spec j (S i)); lia || done.
Qed.

Lemma getstrategynumber_ok a j q : 1 <= a <= Zlen procs -> of_strategy a j q ->
  _bt_getstrategynumber (q_procedure q) (strategy_map a) = Ok j.
Proof.
  intros Ha Hq. unfold _bt_getstrategynumber. rewrite (getstrategy_loop_spec a j q) by done.
  change (Z.to_nat BTMaxStrategyNumber) with 5%nat. pose proof (st_j _ _ _ Hq). by destruct (Nat.ltb_spec j 5); [|lia].
Qed.

Lemma strategy_loop_spec a j q n : forall i, 1 <= a <= Zlen procs -> of_strategy a j q -> 0 <= i <= Z.of_nat j ->
  Z.of_nat j < i + Z.of_nat n -> i + Z.of_nat n <= 5 -> strategy_loop n i (q_procedure q) (strategy_map a) = 1 + Z.of_nat j.
Proof.
  induction n as [|n IH]; intros i Ha Hq Hi Hj Hn; [lia|]. simpl. destruct Hq as [? ? ? Hp].
  destruct (ops_distinct a Ha) as [Hnd Hl]. destruct (Z.eqb_spec (aget 0 (strategy_map a) i) (q_procedure q)) as [E|Hne].
  - assert (j = Z.to_nat i) as ->; [|lia]. apply (aget_nodup (strategy_map a)); [done|lia|lia|].
    rewrite Z2Nat.id by lia. congruence.
  - apply IH; try done; [|lia|lia]. split; [lia|]. assert (i <> Z.of_nat j); [|lia]. intros ->. by rewrite Hp in Hne.
Qed.

Lemma getstrat_ok a j q : 1 <= a <= Zlen procs -> of_strategy a j q ->
  _bt_getstrat strategy_map a (q_procedure q) = Ok (1 + Z.of_nat j).
Proof.
  intros Ha Hq. pose proof (st_j _ _ _ Hq). unfold _bt_getstrat.
  rewrite (strategy_loop_spec a j q) by (done || change (Z.of_nat (Z.to_nat BTMaxStrategyNumber)) with 5; lia).
  by destruct (Z.eqb_spec (1 + Z.of_nat j) 0); [lia|].
Qed.

(** ** Reducing the keys of an attribute *)

(** What is left of the keys of an attribute: an equality, or a lower and an upper bound. *)
Inductive group :=
| GEq (q : QualKey)
| GRange (lo hi : option (nat * QualKey)).
Definition flat (g : group) : list QualKey :=
  match g with
  | GEq q => [q]
  | GRange lo hi => (match lo with Some x => [x.2] | None => [] end) ++ (match hi with Some x => [x.2] | None => [] end)
  end.
Definition group_ok (a : Z) (g : group) : Prop :=
  match g with
  | GEq q => of_strategy a 2 q
  | GRange lo hi =>
      (forall x, lo = Some x -> (3 <= x.1)%nat /\ of_strategy a x.1 x.2) /\
      (forall x, hi = Some x -> (x.1 <= 1)%nat /\ of_strategy a x.1 x.2)
  end.
Definition is_eq (g : group) : bool := match g with GEq _ => true | GRange _ _ => false end.

Section Attr.
Context (a : Z) (f : Datum -> Datum -> Z) (Hf : procs !! Z.to_nat (a - 1) = Some f) (Ha : 1 <= a).

Lemma f_order : OrderProc f.
Proof. exact (Forall_lookup_1 _ _ _ _ Hprocs Hf). Qed.

Lemma sat_test j q x y : of_strategy a j q -> fmgr (q_procedure q) x y = strat_test j (f x y).
Proof. intros [_ _ Hj ->]. by apply (ops_test a). Qed.

(** Strategy [j + 1] with the argument of [q] on an attribute value. *)
Definition test_att (j : nat) (v : option Datum) (q : QualKey) : bool :=
  match v with Some d => strat_test j (f d (q_argument q)) | None => false end.

Lemma holds_test j q v : of_strategy a j q -> holds_att v q = test_att j v q.
Proof. intros Hq. unfold holds_att. rewrite (st_flags _ _ _ Hq). simpl. destruct v; [by apply sat_test|done]. Qed.

Definition slot_holds (j : nat) (s : option QualKey) (v : option Datum) : bool :=
  match s with Some q => test_att j v q | None => true end.
Definition slots_hold (x : list (option QualKey)) (v : option Datum) : bool :=
  forallb (fun j => slot_holds j (slot x j) v) [0; 1; 2; 3; 4]%nat.
Record slots_ok (x : list (option QualKey)) : Prop := {
  sl_length : length x = 5%nat;
  sl_keys : forall j q, slot x j = Some q -> of_strategy a j q }.

Lemma slot_insert x i j v : length x = 5%nat -> (j < 5)%nat -> slot (<[j := v]> x) i = if decide (i = j) then v else slot x i.
Proof.
  intros Hl Hj. unfold slot. destruct (decide (i = j)) as [->|Hne]; [by rewrite list_lookup_insert_eq by lia|].
  by rewrite list_lookup_insert_ne.
Qed.

Lemma slots_ok_insert x j s : slots_ok x -> (j < 5)%nat -> (forall q, s = Some q -> of_strategy a j q) -> slots_ok (<[j := s]> x).
Proof.
  intros Hx Hj Hs. split; [rewrite length_insert; apply Hx|]. intros i q. rewrite slot_insert by (done || apply Hx).
  destruct (decide (i = j)) as [->|]; [apply Hs|]. apply (sl_keys _ Hx).
Qed.

(** One slot changes. *)
Lemma slots_hold_insert x j s v : length x = 5%nat -> (j < 5)%nat ->
  slots_hold x v && slot_holds j s v = slots_hold (<[j := s]> x) v && slot_holds j (slot x j) v.
Proof.
  intros Hl Hj. unfold slots_hold. simpl. rewrite !slot_insert by done.
  destruct j as [|[|[|[|[|]]]]]; [..|lia]; simpl;
    repeat match goal with |- context [slot_holds ?i ?t v] => generalize (slot_holds i t v); intros [] end; done.
Qed.

Lemma slots_hold_slot x j v : (j < 5)%nat -> slots_hold x v = true -> slot_holds j (slot x j) v = true.
Proof.
  intros Hj H. unfold slots_hold in H. rewrite forallb_forall in H. apply (H j).
  destruct j as [|[|[|[|[|]]]]]; simpl; auto 10; lia.
Qed.

(** A slot whose test follows from the others can change. *)
Lemma slots_hold_implied x j s v : length x = 5%nat -> (j < 5)%nat ->
  (slots_hold (<[j := s]> x) v = true -> slot_holds j (slot x j) v = true) ->
  slots_hold (<[j := s]> x) v = slots_hold x v && slot_holds j s v.
Proof.
  intros Hl Hj Himp. rewrite slots_hold_insert by done. destruct (slots_hold (<[j:=s]> x) v); [|done]. by rewrite Himp.
Qed.

(** The tighter of two arguments of the same operator decides. *)
Lemma tighter j k q v : strat_test j (f (q_argument k) (q_argument q)) = true -> test_att j v k = true -> test_att j v q = true.
Proof.
  destruct v as [d|]; [|done]. simpl. pose proof f_order as Ho. order_facts Ho d (q_argument k) (q_argument q).
  destruct j as [|[|[|[|j]]]]; unfold strat_test; rewrite ?Z.geb_leb, ?Z.gtb_ltb, ?Z.ltb_lt, ?Z.leb_le, ?Z.eqb_eq; lia.
Qed.
Lemma looser j k q v : j <> 2%nat -> strat_test j (f (q_argument k) (q_argument q)) = false -> test_att j v q = true -> test_att j v k = true.
Proof.
  destruct v as [d|]; [|done]. simpl. pose proof f_order as Ho. order_facts Ho d (q_argument k) (q_argument q). intros Hj.
  destruct j as [|[|[|[|j]]]]; try done; unfold strat_test; rewrite ?Z.geb_leb, ?Z.gtb_ltb, ?Z.ltb_lt, ?Z.ltb_ge, ?Z.leb_le, ?Z.leb_gt; lia.
Qed.
Lemma unequal k q v : strat_test 2 (f (q_argument k) (q_argument q)) = false -> test_att 2 v q = true -> test_att 2 v k = false.
Proof.
  destruct v as [d|]; [|done]. simpl. pose proof f_order as Ho. order_facts Ho d (q_argument k) (q_argument q).
  rewrite !Z.eqb_neq, Z.eqb_eq. lia.
Qed.
(** Equal values pass the same tests. *)
Lemma test_equal j e q d : f d e = 0 -> strat_test j (f e q) = strat_test j (f d q).
Proof.
  intros E. pose proof f_order as Ho. order_facts Ho d e q.
  destruct j as [|[|[|[|j]]]]; unfold strat_test; rewrite ?Z.geb_leb, ?Z.gtb_ltb; apply eq_true_iff_eq; rewrite ?Z.ltb_lt, ?Z.leb_le, ?Z.eqb_eq; lia.
Qed.

Lemma add_key_spec j cur x o : slots_ok x -> of_strategy a j cur ->
  let r := add_key fmgr j cur x o in
  slots_ok r.1 /\ keyData r.2 = keyData o /\ numberOfRequiredKeys r.2 = numberOfRequiredKeys o /\ allEqualSoFar r.2 = allEqualSoFar o /\
  (qual_ok r.2 = true -> qual_ok o = true /\ forall v, slots_hold r.1 v = slots_hold x v && holds_att v cur) /\
  (qual_ok r.2 = false -> qual_ok o = false \/ forall v, slots_hold x v && holds_att v cur = false).
Proof.
  intros Hx Hcur r. pose proof (sl_length _ Hx) as Hl. pose proof (st_j _ _ _ Hcur) as Hj. unfold r, add_key.
  destruct (slot x j) as [k|] eqn:Ek.
  - pose proof (sl_keys _ Hx j k Ek) as Hk. rewrite (sat_test j cur) by done.
    destruct (strat_test j (f (q_argument cur) (q_argument k))) eqn:Et; cbn [fst snd].
    + split; [apply slots_ok_insert; [done|done|]; intros q [= <-]; destruct Hk; by split|]. split_and!; try done; [|by left].
      intros Hq. split; [done|]. intros v. rewrite (holds_test j) by done.
      change (test_att j v cur) with (slot_holds j (Some (set_argument k (q_argument cur))) v). apply slots_hold_implied; [done|done|].
      intros Hh. apply (slots_hold_slot _ j) in Hh; [|done]. rewrite slot_insert, decide_True in Hh by done. rewrite Ek. simpl in Hh |- *.
      by apply (tighter j cur k).
    + split; [done|]. destruct (Nat.eqb_spec j (Z.to_nat (BTEqualStrategyNumber - 1))) as [E2|E2].
      * change (Z.to_nat (BTEqualStrategyNumber - 1)) with 2%nat in E2. subst j. split_and!; try done. intros _. right. intros v.
        rewrite (holds_test 2) by done. destruct (slots_hold x v) eqn:Hh; [|done]. apply (slots_hold_slot _ 2) in Hh; [|done].
        rewrite Ek in Hh. by apply (unequal cur k).
      * split_and!; try done; [|by left]. intros Hq. split; [done|]. intros v. rewrite (holds_test j) by done.
        destruct (slots_hold x v) eqn:Es; [|done]. symmetry. apply (slots_hold_slot _ j) in Es; [|done]. rewrite Ek in Es.
        by apply (looser j cur k).
  - cbn [fst snd]. split; [apply slots_ok_insert; [done|done|]; by intros q [= <-]|]. split_and!; try done; [|by left].
    intros Hq. split; [done|]. intros v. rewrite (holds_test j) by done.
    change (test_att j v cur) with (slot_holds j (Some cur) v). apply slots_hold_implied; [done|done|]. by rewrite Ek.
Qed.

Lemma slots_hold_none v : slots_hold no_slots v = true.
Proof. done. Qed.

Lemma no_slots_ok : slots_ok no_slots.
Proof. split; [done|]. intros j q. unfold slot, no_slots. by destruct j as [|[|[|[|[|[|]]]]]]. Qed.

(** A strict and a weak bound in the same direction: the one that is dropped follows. *)
Lemma keep_one_spec x strict weak : slots_ok x -> (strict = 0 /\ weak = 1)%nat \/ (strict = 4 /\ weak = 3)%nat ->
  let x' := keep_one fmgr strict weak x in
  slots_ok x' /\ (forall v, slots_hold x' v = slots_hold x v) /\ (slot x' strict = None \/ slot x' weak = None) /\
  (forall j, j <> strict -> j <> weak -> slot x' j = slot x j).
Proof.
  intros Hx Hsw x'. pose proof (sl_length _ Hx) as Hl. assert (strict < 5 /\ weak < 5 /\ strict <> weak)%nat as (H1 & H2 & Hne) by lia.
  unfold x', keep_one. destruct (slot x strict) as [s|] eqn:Es; [destruct (slot x weak) as [w|] eqn:Ew|]; [|by split_and!; auto..].
  pose proof (sl_keys _ Hx _ _ Ew) as Hw. rewrite (sat_test weak w) by done.
  assert (forall j i, (j < 5)%nat -> (i < 5)%nat -> i <> j ->
    (forall v, slot_holds i (slot x i) v = true -> slot_holds j (slot x j) v = true) ->
    slots_ok (<[j := None]> x) /\ (forall v, slots_hold (<[j := None]> x) v = slots_hold x v) /\ slot (<[j := None]> x) j = None /\
    (forall k, k <> j -> slot (<[j := None]> x) k = slot x k)) as Hdrop.
  { intros j i Hj Hi Hij Himp. split_and!.
    - by apply slots_ok_insert.
    - intros v. rewrite slots_hold_implied; [apply andb_true_r|done|done|]. intros Hh. apply Himp.
      apply (slots_hold_slot _ i) in Hh; [|done]. by rewrite slot_insert, decide_False in Hh.
    - by rewrite slot_insert, decide_True.
    - intros k Hk. by rewrite slot_insert, decide_False. }
  destruct (strat_test weak (f (q_argument s) (q_argument w))) eqn:Et.
  - destruct (Hdrop weak strict) as (D1 & D2 & D3 & D4); [done..| |split_and!; auto].
    rewrite Es, Ew. intros [d|]; [|done]. simpl. revert Et. pose proof f_order as Ho. order_facts Ho d (q_argument s) (q_argument w).
    destruct Hsw as [[-> ->]|[-> ->]]; unfold strat_test; rewrite ?Z.geb_leb, ?Z.gtb_ltb, ?Z.ltb_lt, ?Z.leb_le; lia.
  - destruct (Hdrop strict weak) as (D1 & D2 & D3 & D4); [done..| |split_and!; auto].
    rewrite Es, Ew. intros [d|]; [|done]. simpl. revert Et. pose proof f_order as Ho. order_facts Ho d (q_argument s) (q_argument w).
    destruct Hsw as [[-> ->]|[-> ->]]; unfold strat_test; rewrite ?Z.geb_leb, ?Z.gtb_ltb, ?Z.ltb_lt, ?Z.leb_le, ?Z.leb_gt; lia.
Qed.

(** The keys that are emitted say what the slots say. *)
Lemma emit_range x : slots_ok x -> slot x 2 = None -> slot x 0 = None \/ slot x 1 = None -> slot x 4 = None \/ slot x 3 = None ->
  exists lo hi, emit_keys 5 x = flat (GRange lo hi) /\ group_ok a (GRange lo hi) /\
    forall v, forallb (holds_att v) (flat (GRange lo hi)) = slots_hold x v.
Proof.
  intros Hx E2 E01 E34.
  exists (match slot x 4 with Some q => Some (4%nat, q) | None => match slot x 3 with Some q => Some (3%nat, q) | None => None end end),
    (match slot x 1 with Some q => Some (1%nat, q) | None => match slot x 0 with Some q => Some (0%nat, q) | None => None end end).
  pose proof (sl_keys _ Hx) as Hk. unfold slots_hold, emit_keys. simpl. rewrite E2.
  assert (forall j q v, slot x j = Some q -> holds_att v q = test_att j v q) as Hs by (intros j q v Hq; by apply holds_test; auto).
  destruct (slot x 0) as [q0|] eqn:K0, (slot x 1) as [q1|] eqn:K1, (slot x 3) as [q3|] eqn:K3, (slot x 4) as [q4|] eqn:K4;
    try (by destruct E01); try (by destruct E34);
    (split; [done|]); (split; [split; intros ? [= <-]; simpl; (split; [lia|]); by apply Hk|]); intros v; simpl;
    rewrite ?(Hs 0%nat q0 v K0), ?(Hs 1%nat q1 v K1), ?(Hs 3%nat q3 v K3), ?(Hs 4%nat q4 v K4), ?andb_true_r; try done;
    apply andb_comm.
Qed.

(** The checks against an equality. *)
Lemma eq_checks_spec x e d n : slots_ok x -> slot x 2 = Some e -> f d (q_argument e) = 0 -> (n <= 5)%nat ->
  eq_checks fmgr n e x = forallb (fun j => slot_holds j (slot x j) (Some d)) (seq 0 n).
Proof.
  intros Hx He Ed. induction n as [|n IH]; intros Hn; [done|]. rewrite seq_S, forallb_app. cbn [eq_checks forallb plus]. rewrite IH by lia.
  rewrite andb_true_r, andb_comm. f_equal. destruct (slot x n) as [q|] eqn:En; [|done]. cbn [slot_holds test_att].
  change (Z.to_nat (BTEqualStrategyNumber - 1)) with 2%nat. destruct (Nat.eqb_spec n 2) as [->|].
  - rewrite He in En. injection En as <-. rewrite Ed. done.
  - rewrite (sat_test n q) by by apply (sl_keys _ Hx). by apply test_equal.
Qed.

(** The end of an attribute. *)
Lemma finish_attr_spec x o : slots_ok x -> exists g, let o' := finish_attr fmgr x o in
  keyData o' = keyData o ++ flat g /\ group_ok a g /\ allEqualSoFar o' = allEqualSoFar o && is_eq g /\
  numberOfRequiredKeys o' = (if allEqualSoFar o then Zlen (keyData o') else numberOfRequiredKeys o) /\
  (qual_ok o' = true -> qual_ok o = true /\ forall v, forallb (holds_att v) (flat g) = slots_hold x v) /\
  (qual_ok o' = false -> qual_ok o = false \/ forall v, slots_hold x v = false).
Proof.
  intros Hx. unfold finish_attr. destruct (slot x 2) as [e|] eqn:He.
  - pose proof (sl_keys _ Hx 2%nat e He) as Heq. exists (GEq e). cbn [keyData allEqualSoFar numberOfRequiredKeys qual_ok flat is_eq].
    change (emit_keys (Z.to_nat BTMaxStrategyNumber) _) with [e]. split_and!; [done|done|by rewrite andb_true_r|done| |].
    + intros [Hq Hc]%andb_true_iff. split; [done|]. intros v. simpl. rewrite (holds_test 2), andb_true_r by done.
      destruct (slots_hold x v) eqn:Hh; [apply (slots_hold_slot _ 2) in Hh; [by rewrite He in Hh|lia]|].
      destruct v as [d|]; [|done]. simpl. destruct (Z.eqb_spec (f d (q_argument e)) 0) as [Ed|]; [|done].
      rewrite (eq_checks_spec x e d) in Hc by done. unfold slots_hold in Hh. simpl in Hc, Hh. congruence.
    + intros [Hq|Hc]%andb_false_iff; [by left|]. right. intros v. apply not_true_is_false. intros Hh.
      pose proof (slots_hold_slot x 2 v ltac:(lia) Hh) as H2. rewrite He in H2. destruct v as [d|]; [|done]. simpl in H2. apply Z.eqb_eq in H2.
      rewrite (eq_checks_spec x e d) in Hc by done. unfold slots_hold in Hh. simpl in Hc, Hh. congruence.
  - destruct (keep_one_spec x 0 1 Hx) as (X1 & V1 & S1 & O1); [lia|]. set (x1 := keep_one fmgr 0 1 x) in *.
    destruct (keep_one_spec x1 4 3 X1) as (X2 & V2 & S2 & O2); [lia|]. set (x2 := keep_one fmgr 4 3 x1) in *.
    destruct (emit_range x2) as (lo & hi & Ee & Hg & Hv); [done|by rewrite O2, O1| |done|].
    { rewrite !O2 by lia. done. }
    exists (GRange lo hi). cbn [keyData allEqualSoFar numberOfRequiredKeys qual_ok is_eq].
    change (Z.to_nat BTMaxStrategyNumber) with 5%nat. rewrite Ee. split_and!; [done|done|by rewrite andb_false_r|done| |by left].
    intros Hq. split; [done|]. intros v. by rewrite Hv, V2, V1.
Qed.
End Attr.

(** ** All attributes *)

Fixpoint groups_ok (a : Z) (gs : list group) : Prop :=
  match gs with [] => True | g :: gs => group_ok a g /\ groups_ok (a + 1) gs end.
Definition flatten (gs : list group) : list QualKey := concat (map flat gs).

(** The keys whose failure ends the scan: the equalities of the leading attributes and the
    keys of the first attribute without one. *)
Fixpoint required (gs : list group) : Z :=
  match gs with [] => 0 | g :: gs => Zlen (flat g) + (if is_eq g then required gs else 0) end.

Lemma groups_ok_snoc gs g : forall a, groups_ok a (gs ++ [g]) <-> groups_ok a gs /\ group_ok (a + Zlen gs) g.
Proof.
  induction gs as [|g' gs IH]; intros a; cbn [app groups_ok length].
  - rewrite Z.add_0_r. tauto.
  - rewrite IH. replace (a + 1 + Zlen gs) with (a + Z.of_nat (S (length gs))) by lia. tauto.
Qed.

Lemma flatten_snoc gs g : flatten (gs ++ [g]) = flatten gs ++ flat g.
Proof. unfold flatten. rewrite map_app, concat_app. simpl. by rewrite app_nil_r. Qed.

Lemma required_snoc gs g : required (gs ++ [g]) = if forallb is_eq gs then Zlen (flatten (gs ++ [g])) else required gs.
Proof.
  induction gs as [|g' gs IH]; cbn [app required forallb].
  - unfold flatten. simpl. rewrite app_nil_r. case_match; lia.
  - change (flatten (g' :: gs ++ [g])) with (flat g' ++ flatten (gs ++ [g])). rewrite length_app, IH.
    destruct (is_eq g'); simpl; [|done]. destruct (forallb is_eq gs); lia.
Qed.

(** The keys that [_bt_orderkeys] refuses: up to the first null constant, the attributes
    start at 1 and leave none out, and the operators are those of the attribute. *)
Fixpoint key_gap (attno : Z) (keys : list QualKey) : option string :=
  match keys with
  | [] => None
  | q :: keys =>
      if q_flags q .& SK_ISNULL then None
      else if negb ((q_attno q =? attno) || (q_attno q =? attno + 1)) then Some "_bt_orderkeys: key(s) for attribute missed"
      else if negb (bool_decide (q_procedure q ∈ strategy_map (q_attno q))) then Some "_bt_getstrategynumber: unable to identify operator"
      else key_gap (q_attno q) keys
  end.
Definition key_error (keys : list QualKey) : option string :=
  match keys with
  | [] => None
  | q :: _ => if negb (q_attno q =? 1) then Some "_bt_orderkeys: key(s) for attribute 1 missed" else key_gap 1 keys
  end.

(** An operator of the attribute has a strategy; any other is not identified. *)
Lemma operator_strategy q : key_ok q -> q_flags q = 0 -> q_procedure q ∈ strategy_map (q_attno q) ->
  exists j, of_strategy (q_attno q) j q.
Proof.
  intros [Ha _] Hf (j & Hj)%list_elem_of_lookup. destruct (ops_distinct (q_attno q) Ha) as [_ Hl].
  pose proof (lookup_lt_Some _ _ _ Hj). exists j. split; try done; [lia|]. unfold aget.
  destruct (Z.ltb_spec (Z.of_nat j) 0); [lia|]. by rewrite Nat2Z.id, Hj.
Qed.

Lemma operator_unknown a p : 1 <= a <= Zlen procs -> p ∉ strategy_map a ->
  _bt_getstrategynumber p (strategy_map a) = Err "_bt_getstrategynumber: unable to identify operator".
Proof.
  intros Ha Hp. destruct (ops_distinct a Ha) as [_ Hl]. unfold _bt_getstrategynumber.
  assert (forall i, (i <= 5)%nat -> getstrategy_loop i p (strategy_map a) = None) as E; [|by rewrite E].
  induction i as [|i IH]; intros Hi; [done|]. cbn [getstrategy_loop].
  destruct (Z.eqb_spec p (aget 0 (strategy_map a) (Z.of_nat i))) as [E|]; [|apply IH; lia].
  destruct Hp. rewrite E. unfold aget. destruct (Z.ltb_spec (Z.of_nat i) 0); [lia|]. rewrite Nat2Z.id.
  destruct (lookup_lt_is_Some_2 (strategy_map a) i ltac:(lia)) as [x Hx]. rewrite Hx. by eapply list_elem_of_lookup_2.
Qed.

Definition att (it : BTItem) (a : Z) : option Datum := aget None (t_key it) (a - 1).
Definition proc (a : Z) : Datum -> Datum -> Z := default (fun _ _ => 0) (procs !! Z.to_nat (a - 1)).

Lemma proc_at a : 1 <= a <= Zlen procs -> procs !! Z.to_nat (a - 1) = Some (proc a).
Proof. intros Ha. unfold proc. by destruct (lookup_lt_is_Some_2 procs (Z.to_nat (a - 1))) as [f ->]; [lia|]. Qed.

Lemma group_attno a g q : group_ok a g -> q ∈ flat g -> q_attno q = a.
Proof.
  destruct g as [e|lo hi]; simpl; [intros Hg ->%list_elem_of_singleton; apply (st_attno _ _ _ Hg)|]. intros [Hl Hh].
  rewrite elem_of_app. destruct lo as [x|], hi as [y|];
    intros [Hq|Hq]; first [by apply elem_of_nil in Hq|apply list_elem_of_singleton in Hq as ->];
    first [apply (st_attno _ _ _ (proj2 (Hl x eq_refl)))|apply (st_attno _ _ _ (proj2 (Hh y eq_refl)))].
Qed.

Lemma group_holds a g it : group_ok a g -> matches (flat g) it = forallb (holds_att (att it a)) (flat g).
Proof.
  intros Hg. assert (Forall (fun q => holds it q = holds_att (att it a) q) (flat g)) as H.
  { apply Forall_forall. intros q Hq. unfold holds. by rewrite (group_attno a g q Hg Hq). }
  unfold matches. induction H as [|q l Hq _ IH]; [done|]. simpl. by rewrite Hq, IH.
Qed.

(** Where the loop stands: [dn] are the keys behind it. *)
Record ordering (dn : list QualKey) (a : Z) (x : list (option QualKey)) (o : Ordered) (gs : list group) : Prop := {
  or_attno : 1 <= a <= Zlen procs;
  or_groups : groups_ok 1 gs;
  or_count : Zlen gs = a - 1;
  or_keys : keyData o = flatten gs;
  or_equal : allEqualSoFar o = forallb is_eq gs;
  or_required : numberOfRequiredKeys o = required gs;
  or_slots : slots_ok a x;
  or_true : qual_ok o = true -> forall it, matches dn it = matches (keyData o) it && slots_hold (proc a) x (att it a);
  or_false : qual_ok o = false -> forall it, matches dn it = false }.

(** What the routine leaves. *)
Definition ordered (keys : list QualKey) (o : Ordered) : Prop :=
  (qual_ok o = false -> forall it, matches keys it = false) /\
  (qual_ok o = true -> exists gs, groups_ok 1 gs /\ keyData o = flatten gs /\ numberOfRequiredKeys o = required gs /\
    Zlen gs <= Zlen procs /\ forall it, matches keys it = matches (keyData o) it).

Lemma matches_app k1 k2 it : matches (k1 ++ k2) it = matches k1 it && matches k2 it.
Proof. apply forallb_app. Qed.

Lemma ordering_finish dn a x o gs : ordering dn a x o gs -> let o' := finish_attr fmgr x o in
  exists g, groups_ok 1 (gs ++ [g]) /\ keyData o' = flatten (gs ++ [g]) /\ allEqualSoFar o' = forallb is_eq (gs ++ [g]) /\
    numberOfRequiredKeys o' = required (gs ++ [g]) /\
    (qual_ok o' = true -> forall it, matches dn it = matches (keyData o') it) /\
    (qual_ok o' = false -> forall it, matches dn it = false).
Proof.
  intros H o'. destruct (finish_attr_spec a (proc a) (proc_at a (or_attno _ _ _ _ _ H)) ltac:(apply H) x o (or_slots _ _ _ _ _ H))
    as (g & Ek & Hg & Ea & Er & Ht & Hf). fold o' in Ek, Ea, Er, Ht, Hf. exists g. split_and!.
  - apply groups_ok_snoc. split; [apply H|]. by replace (1 + Zlen gs) with a by (rewrite (or_count _ _ _ _ _ H); lia).
  - by rewrite Ek, (or_keys _ _ _ _ _ H), flatten_snoc.
  - rewrite Ea, (or_equal _ _ _ _ _ H), forallb_app. simpl. by rewrite andb_true_r.
  - rewrite Er, required_snoc, (or_equal _ _ _ _ _ H). destruct (forallb is_eq gs); [|apply H].
    by rewrite Ek, (or_keys _ _ _ _ _ H), flatten_snoc.
  - intros Hq it. destruct (Ht Hq) as [Hq' Hv]. rewrite (or_true _ _ _ _ _ H Hq'), Ek, matches_app. f_equal.
    by rewrite (group_holds a g it Hg), Hv.
  - intros Hq it. destruct (Hf Hq) as [Hq'|Hv]; [by apply (or_false _ _ _ _ _ H)|]. destruct (qual_ok o) eqn:Eq.
    + by rewrite (or_true _ _ _ _ _ H Eq), Hv, andb_false_r.
    + by apply (or_false _ _ _ _ _ H).
Qed.

Lemma ordering_add dn a x o gs j cur : ordering dn a x o gs -> of_strategy a j cur ->
  let r := add_key fmgr j cur x o in ordering (dn ++ [cur]) a r.1 r.2 gs.
Proof.
  intros H Hc r. destruct (add_key_spec a (proc a) (proc_at a (or_attno _ _ _ _ _ H)) ltac:(apply H) j cur x o (or_slots _ _ _ _ _ H) Hc)
    as (Hs & Ek & Er & Ea & Ht & Hf). fold r in Hs, Ek, Er, Ea, Ht, Hf.
  assert (forall it, matches [cur] it = holds_att (att it a) cur) as Hm.
  { intros it. unfold matches, holds, att. simpl. by rewrite (st_attno _ _ _ Hc), andb_true_r. }
  split; [apply H|apply H|apply H|by rewrite Ek; apply H|by rewrite Ea; apply H|by rewrite Er; apply H|done| |].
  - intros Hq it. destruct (Ht Hq) as [Hq' Hv]. by rewrite matches_app, Hm, (or_true _ _ _ _ _ H Hq'), Ek, Hv, andb_assoc.
  - intros Hq it. rewrite matches_app, Hm. destruct (Hf Hq) as [Hq'|Hv]; [by rewrite (or_false _ _ _ _ _ H Hq')|].
    destruct (qual_ok o) eqn:Eq; [|by rewrite (or_false _ _ _ _ _ H Eq)].
    rewrite (or_true _ _ _ _ _ H Eq), <- andb_assoc, Hv. apply andb_false_r.
Qed.

Lemma ordering_next dn a x o gs : ordering dn a x o gs -> a < Zlen procs ->
  exists g, ordering dn (a + 1) no_slots (finish_attr fmgr x o) (gs ++ [g]).
Proof.
  intros H Ha. destruct (ordering_finish dn a x o gs H) as (g & H1 & H2 & H3 & H4 & H5 & H6). exists g.
  pose proof (or_attno _ _ _ _ _ H). pose proof (or_count _ _ _ _ _ H).
  split; try done; [lia|rewrite length_app; simpl; lia|apply no_slots_ok|].
  intros Hq it. by rewrite H5, slots_hold_none, andb_true_r.
Qed.

Lemma orderkeys_loop_spec todo : forall dn a x o gs, ordering dn a x o gs -> Forall key_ok todo ->
  match key_gap a todo with
  | Some e => orderkeys_loop fmgr strategy_map todo a x o = Err e
  | None => exists o', orderkeys_loop fmgr strategy_map todo a x o = Ok o' /\ ordered (dn ++ todo) o'
  end.
Proof.
  induction todo as [|cur todo IH]; intros dn a x o gs H Hk; cbn [orderkeys_loop key_gap].
  - destruct (ordering_finish dn a x o gs H) as (g & H1 & H2 & H3 & H4 & H5 & H6). eexists. split; [done|]. rewrite app_nil_r.
    split; [done|]. intros Hq. exists (gs ++ [g]). split_and!; try done; [|by apply H5].
    rewrite length_app. simpl. pose proof (or_attno _ _ _ _ _ H). pose proof (or_count _ _ _ _ _ H). lia.
  - apply Forall_cons in Hk as [Hcur Hk]. destruct (q_flags cur .& SK_ISNULL) eqn:En.
    { eexists. split; [done|]. split; [|done]. intros _ it. rewrite matches_app. simpl. unfold holds, holds_att. rewrite En. simpl.
      apply andb_false_r. }
    assert (q_flags cur = 0) as Hf by (destruct Hcur as [_ [E|E]]; [by rewrite E in En|done]).
    set (st := if q_attno cur =? a then _ else _).
    assert (if negb ((q_attno cur =? a) || (q_attno cur =? a + 1)) then st = Err "_bt_orderkeys: key(s) for attribute missed"
      else exists x1 o1 gs1, st = Ok (q_attno cur, x1, o1) /\ ordering dn (q_attno cur) x1 o1 gs1) as Hst.
    { unfold st. destruct (Z.eqb_spec (q_attno cur) a) as [->|Hne]; [by eexists _, _, gs|].
      destruct (Z.eqb_spec (q_attno cur) (a + 1)) as [E|]; [|done]. cbn [orb negb].
      destruct (ordering_next dn a x o gs H) as [g Hg]; [pose proof (proj1 Hcur); lia|]. eexists _, _, _. rewrite E. split; [done|exact Hg]. }
    clearbody st. destruct (negb ((q_attno cur =? a) || (q_attno cur =? a + 1))); [by rewrite Hst|].
    destruct Hst as (x1 & o1 & gs1 & -> & H1). cbn [mbind result_bind].
    destruct (bool_decide_reflect (q_procedure cur ∈ strategy_map (q_attno cur))) as [Hin|Hin]; cbn [negb].
    + destruct (operator_strategy cur Hcur Hf Hin) as [j Hj].
      rewrite (getstrategynumber_ok (q_attno cur) j cur) by (apply Hcur || done). cbn [mbind result_bind].
      pose proof (ordering_add dn _ x1 o1 gs1 j cur H1 Hj) as H2. destruct (add_key fmgr j cur x1 o1) as [x2 o2].
      specialize (IH _ _ _ _ _ H2 Hk). by rewrite <- (assoc_L (++)) in IH.
    + by rewrite operator_unknown by (apply Hcur || done).
Qed.

Definition keys_ok (keys : list QualKey) : Prop := Forall key_ok keys.

Lemma orderkeys_spec keys : keys_ok keys ->
  match key_error keys with
  | Some e => _bt_orderkeys fmgr strategy_map keys = Err e
  | None => exists o, _bt_orderkeys fmgr strategy_map keys = Ok o /\ ordered keys o
  end.
Proof.
  intros Hk. destruct keys as [|cur keys].
  - eexists. split; [done|]. split; [done|]. intros _. exists []. split_and!; try done. simpl. lia.
  - unfold _bt_orderkeys, key_error. destruct (Z.eqb_spec (q_attno cur) 1) as [E1|]; [|done]. cbn [negb].
    apply (orderkeys_loop_spec (cur :: keys) [] 1 no_slots (mkOrdered true 0 [] true) []); [|done].
    apply Forall_cons in Hk as [[Hka _] _]. rewrite E1 in Hka. split; try done; [apply no_slots_ok].
Qed.

(** ** Testing an item *)

(** An item passes when it matches; the scan ends only because a required key fails, and on
    a null only in forward direction. *)
Lemma checkkeys_loop_spec keys it dir : Forall (fun q => exists j, of_strategy (q_attno q) j q) keys -> forall ok req,
  let r := checkkeys_loop fmgr keys ok req it dir in
  r.1 = matches keys it /\
  (r.2 = false -> exists pre q post, keys = pre ++ q :: post /\ matches pre it = true /\ holds it q = false /\
    ok + Zlen pre < req /\ (att it (q_attno q) = None -> dir = ForwardScanDirection)).
Proof.
  induction 1 as [|q keys [j Hq] _ IH]; intros ok req; [done|]. cbn [checkkeys_loop]. unfold index_getattr.
  rewrite (st_flags _ _ _ Hq). change (0 .& SK_ISNULL) with false. change (0 .& SK_COMMUTE) with false. change (0 .& SK_NEGATE) with false.
  assert (holds it q = match att it (q_attno q) with Some d => fmgr (q_procedure q) d (q_argument q) | None => false end) as Hh.
  { unfold holds, holds_att. by rewrite (st_flags _ _ _ Hq). }
  fold (att it (q_attno q)). destruct (att it (q_attno q)) as [d|] eqn:Ed; cbn [fst snd].
  - destruct (fmgr (q_procedure q) d (q_argument q)) eqn:Et; cbn [Bool.eqb].
    + destruct (IH (ok + 1) req) as [E1 E2]. split; [simpl; by rewrite E1, Hh|]. intros Hr.
      destruct (E2 Hr) as (pre & q' & post & -> & H1 & H2 & H3 & H4). exists (q :: pre), q', post. split_and!; try done.
      * simpl. by rewrite Hh.
      * cbn [length]. lia.
    + split; [simpl; by rewrite Hh|]. intros Hr. exists [], q, keys. apply negb_false_iff, Z.ltb_lt in Hr.
      split_and!; try done; [cbn [length]; lia|by rewrite Ed].
  - split; [simpl; by rewrite Hh|]. intros Hr. exists [], q, keys. apply negb_false_iff, andb_true_iff in Hr as [Hr Hd].
    apply Z.ltb_lt in Hr. split_and!; try done; [cbn [length]; lia|]. by destruct dir.
Qed.
End Meaning.

(** ** The operators of [int4_ops] *)

Definition int4eq (arg1 arg2 : Z) : bool := arg1 =? arg2.
Definition int4lt (arg1 arg2 : Z) : bool := arg1 <? arg2.
Definition int4le (arg1 arg2 : Z) : bool := arg1 <=? arg2.
Definition int4gt (arg1 arg2 : Z) : bool := arg1 >? arg2.
Definition int4ge (arg1 arg2 : Z) : bool := arg1 >=? arg2.

(** Their object ids, in the order of the strategies, and the calls by object id. *)
Definition int4_strategy_map (attno : Z) : list Z := [66; 149; 65; 150; 147].
Definition int4_fmgr (procedure : Z) (a b : Datum) : bool :=
  let f := if procedure =? 66 then int4lt else if procedure =? 149 then int4le else if procedure =? 65 then int4eq
           else if procedure =? 150 then int4ge else int4gt in
  f (DatumGetInt32 a) (DatumGetInt32 b).

#[export] Instance int4_ops : StrategyOps int4_fmgr int4_strategy_map [btint4cmp].
Proof.
  split.
  - intros a _. split; [|done]. repeat constructor; set_solver.
  - intros a f j x y Hf Ha Hj. assert (f = btint4cmp) as ->.
    { destruct (Z.to_nat (a - 1)) as [|k]; [by injection Hf|]. by destruct k. }
    unfold btint4cmp. set (u := DatumGetInt32 x). set (v := DatumGetInt32 y).
    assert (int4_fmgr (aget 0 (int4_strategy_map a) (Z.of_nat j)) x y =
      match j with O => int4lt u v | 1 => int4le u v | 2 => int4eq u v | 3 => int4ge u v | _ => int4gt u v end%nat) as ->.
    { destruct j as [|[|[|[|[|j]]]]]; [reflexivity..|lia]. }
    unfold strat_test, int4lt, int4le, int4eq, int4ge, int4gt, three_way. rewrite !Z.geb_leb, !Z.gtb_ltb.
    destruct j as [|[|[|[|[|j]]]]]; [..|lia];
      destruct (Z.ltb_spec v u), (Z.eqb_spec u v), (Z.ltb_spec u v), (Z.leb_spec u v), (Z.leb_spec v u); lia || done.
Qed.
End NbtQual.
