(* ===== verification/NbtScan.v ===== *)
(** * B-trees: scans ([access/nbtree/nbtsearch.c], [nbtree.c])

    A scan is positioned on the first item its keys allow and steps from item to item
    along the leaves, forward or backward.  The scan's state is the block of its buffer and
    the offset of the current item; one thread runs at a time, as in [NbtTree]. *)

From S2P Require Import Prelude.
From S2P Require Import Bufpage.
From S2P Require Import Heaptuple.
From S2P Require Import Nbtcompare.
From S2P Require Import Nbtree.
From S2P Require Import NbtTree.
From S2P Require Import NbtQual.
From Stdlib Require Import Sorting.Sorted.

Module NbtScan.
Import Heaptuple Nbtcompare Nbtree NbtTree NbtQual.

(** ** Stepping *)

Definition PageIsEmpty (p : BTPage) : bool := PageGetMaxOffsetNumber p <=? 0.

(** [so->btso_curbuf] and [scan->currentItemData]. *)
Notation position := (Z * Z)%type.

(** Right to the next page with data. *)
Fixpoint step_right (fuel : nat) (idx : Index) (op : BTPageOpaqueData) : result (option position) :=
  match fuel with
  | O => Err "fuel"
  | S fuel =>
      if P_RIGHTMOST op then Ok None
      else
        let blkno := btpo_next op in
        p ← getpage idx blkno;
        let offnum := P_FIRSTDATAKEY (opaque p) in
        if negb (PageIsEmpty p) && (offnum <=? PageGetMaxOffsetNumber p) then Ok (Some (blkno, offnum))
        else step_right fuel idx (opaque p)
  end.

(** From the page that was to the left, right to the one that is now adjacent. *)
Fixpoint adjacent (fuel : nat) (idx : Index) (blkno obknum : Z) : result Z :=
  match fuel with
  | O => Err "fuel"
  | S fuel =>
      p ← getpage idx blkno;
      if btpo_next (opaque p) =? obknum then Ok blkno else adjacent fuel idx (btpo_next (opaque p)) obknum
  end.

(** Left to the next page with data. *)
Fixpoint step_left (fuel : nat) (idx : Index) (obknum : Z) (op : BTPageOpaqueData) : result (option position) :=
  match fuel with
  | O => Err "fuel"
  | S fuel =>
      if P_LEFTMOST op then Ok None
      else
        blkno ← adjacent (S (size (pages idx))) idx (btpo_prev op) obknum;
        p ← getpage idx blkno;
        let maxoff := PageGetMaxOffsetNumber p in
        if negb (PageIsEmpty p) && (maxoff >=? P_FIRSTDATAKEY (opaque p)) then Ok (Some (blkno, maxoff))
        else step_left fuel idx blkno (opaque p)
  end.

(** [_bt_step]: the adjacent item, or nothing at the end of the index. *)
Definition _bt_step (idx : Index) (cur : position) (dir : ScanDirection) : result (option position) :=
  let '(buf, offnum) := cur in
  p ← getpage idx buf;
  let maxoff := PageGetMaxOffsetNumber p in
  if ScanDirectionIsForward dir then
    if negb (PageIsEmpty p) && (offnum <? maxoff) then Ok (Some (buf, offnum + 1))
    else step_right (S (size (pages idx))) idx (opaque p)
  else
    if offnum >? P_FIRSTDATAKEY (opaque p) then Ok (Some (buf, OffsetNumberPrev offnum))
    else step_left (S (size (pages idx))) idx buf (opaque p).

(** More than the items of the leaves. *)
Definition scan_fuel (idx : Index) : nat := Z.to_nat (1000 * Z.of_nat (size (pages idx)) + 1).

Section Scan.
Context (fmgr : Z -> Datum -> Datum -> bool) (strategy_map : Z -> list Z) (procs : list (Datum -> Datum -> Z)).
Context (alloc : gmap Z BTPage -> Z).

(** [_bt_next]. *)
Fixpoint next_loop (fuel : nat) (idx : Index) (o : Ordered) (cur : position) (dir : ScanDirection) : result (option position) :=
  match fuel with
  | O => Err "fuel"
  | S fuel =>
      r ← _bt_step idx cur dir;
      match r with
      | None => Ok None
      | Some cur =>
          p ← getpage idx cur.1;
          let '(passes, continuescan) := _bt_checkkeys fmgr o (PageGetItem p cur.2) dir in
          if passes : bool then Ok (Some cur) else if continuescan : bool then next_loop fuel idx o cur dir else Ok None
      end
  end.
Definition _bt_next (idx : Index) (o : Ordered) (cur : position) (dir : ScanDirection) : result (option position) :=
  next_loop (scan_fuel idx) idx o cur dir.

(** The end of [_bt_first] and [_bt_endpoint]: is the first item acceptable? *)
Definition first_item (idx : Index) (o : Ordered) (cur : position) (dir : ScanDirection) : result (option position) :=
  p ← getpage idx cur.1;
  let '(passes, continuescan) := _bt_checkkeys fmgr o (PageGetItem p cur.2) dir in
  if passes : bool then Ok (Some cur) else if continuescan : bool then _bt_next idx o cur dir else Ok None.

Fixpoint rightmost_loop (fuel : nat) (idx : Index) (blkno : Z) : result Z :=
  match fuel with
  | O => Err "fuel"
  | S fuel => p ← getpage idx blkno; if P_RIGHTMOST (opaque p) then Ok blkno else rightmost_loop fuel idx (btpo_next (opaque p))
  end.

(** Down to the first or last leaf. *)
Fixpoint endpoint_loop (fuel : nat) (idx : Index) (blkno : Z) (dir : ScanDirection) : result Z :=
  match fuel with
  | O => Err "fuel"
  | S fuel =>
      p ← getpage idx blkno;
      if P_ISLEAF (opaque p) then Ok blkno
      else
        let offnum := if ScanDirectionIsForward dir then P_FIRSTDATAKEY (opaque p) else PageGetMaxOffsetNumber p in
        let blkno := t_blkno (PageGetItem p offnum) in
        blkno ← (if ScanDirectionIsBackward dir then rightmost_loop (S (size (pages idx))) idx blkno else Ok blkno);
        endpoint_loop fuel idx blkno dir
  end.

Definition _bt_endpoint (idx : Index) (o : Ordered) (dir : ScanDirection) : result (option position) :=
  r ← _bt_getroot alloc idx false;
  match r.1 with
  | None => Ok None
  | Some root =>
      buf ← endpoint_loop (S (size (pages idx))) idx root dir;
      p ← getpage idx buf;
      let maxoff := PageGetMaxOffsetNumber p in
      let start := if ScanDirectionIsForward dir then P_FIRSTDATAKEY (opaque p)
                   else if maxoff <? P_FIRSTDATAKEY (opaque p) then P_FIRSTDATAKEY (opaque p) else maxoff in
      if start >? maxoff then
        s ← _bt_step idx (buf, start) dir;
        match s with None => Ok None | Some cur => first_item idx o cur dir end
      else first_item idx o (buf, start) dir
  end.

(** ** The start of a scan *)

(** Which keys bound the start, and the strategy they make up; [keys] are those still to
    be looked at, [bs] those chosen. *)
Fixpoint boundary_keys (keys : list QualKey) (dir : ScanDirection) (bs : list QualKey) (strat_total : Z) :
    result (list QualKey * Z) :=
  match keys with
  | [] => Ok (bs, strat_total)
  | key :: keys =>
      let attno := q_attno key in
      if attno <=? Zlen bs then boundary_keys keys dir bs strat_total
      else if attno >? Zlen bs + 1 then Ok (bs, strat_total)
      else
        strat ← _bt_getstrat strategy_map attno (q_procedure key);
        if (strat =? strat_total) || (strat =? BTEqualStrategyNumber) then boundary_keys keys dir (bs ++ [key]) strat_total
        else if ScanDirectionIsBackward dir && ((strat =? BTLessStrategyNumber) || (strat =? BTLessEqualStrategyNumber)) then
          if strat =? BTLessStrategyNumber then Ok (bs ++ [key], strat) else boundary_keys keys dir (bs ++ [key]) strat
        else if ScanDirectionIsForward dir && ((strat =? BTGreaterStrategyNumber) || (strat =? BTGreaterEqualStrategyNumber)) then
          if strat =? BTGreaterStrategyNumber then Ok (bs ++ [key], strat) else boundary_keys keys dir (bs ++ [key]) strat
        else boundary_keys keys dir bs strat_total
  end.

(** The search key: the support functions and the arguments of the boundary. *)
Fixpoint first_scankeys (i : Z) (bs : list QualKey) (procs : list (Datum -> Datum -> Z)) : result (list ScanKeyData) :=
  match bs, procs with
  | [], _ => Ok []
  | q :: bs, proc :: procs =>
      if q_flags q .& SK_ISNULL then Err "_bt_first: btree doesn't support is(not)null, yet"
      else rest ← first_scankeys (i + 1) bs procs; Ok (mkScanKey (q_flags q) (i + 1) proc (q_argument q) :: rest)
  | _ :: _, [] => Err "no support function"
  end.

Inductive start := StartAt (cur : position) | StartEndpoint | StartNowhere.

(** Forward over the items whose comparison with the key passes [test]. *)
Fixpoint skip_while (fuel : nat) (test : Z -> bool) (idx : Index) (sk : list ScanKeyData) (cur : position) : result (option position) :=
  match fuel with
  | O => Err "fuel"
  | S fuel =>
      p ← getpage idx cur.1;
      if test (_bt_compare (Zlen sk) sk p cur.2) then
        r ← _bt_step idx cur ForwardScanDirection;
        match r with None => Ok None | Some cur => skip_while fuel test idx sk cur end
      else Ok (Some cur)
  end.

(** The item at [cur], or the next one if that is the end of a page. *)
Definition on_item (idx : Index) (cur : position) : result (option position) :=
  p ← getpage idx cur.1;
  if cur.2 >? PageGetMaxOffsetNumber p then _bt_step idx cur ForwardScanDirection else Ok (Some cur).

(** The switch over the strategy. *)
Definition start_position (idx : Index) (sk : list ScanKeyData) (strat_total : Z) (dir : ScanDirection) (cur : position) : result start :=
  if strat_total =? BTLessStrategyNumber then
    r ← _bt_step idx cur BackwardScanDirection;
    Ok (match r with Some cur => StartAt cur | None => StartNowhere end)
  else if strat_total =? BTLessEqualStrategyNumber then
    r ← on_item idx cur;
    r ← (match r with Some cur => skip_while (scan_fuel idx) (fun result => negb (result <? 0)) idx sk cur | None => Ok None end);
    match r with
    | None => Ok StartEndpoint
    | Some cur => r ← _bt_step idx cur BackwardScanDirection;
                  Ok (match r with Some cur => StartAt cur | None => StartNowhere end)
    end
  else if strat_total =? BTEqualStrategyNumber then
    r ← on_item idx cur;
    match r with
    | None => Ok StartNowhere
    | Some cur =>
        p ← getpage idx cur.1;
        if negb (_bt_compare (Zlen sk) sk p cur.2 =? 0) then Ok StartNowhere
        else if ScanDirectionIsBackward dir then
          r ← skip_while (scan_fuel idx) (fun result => result =? 0) idx sk cur;
          match r with
          | None => Ok StartEndpoint
          | Some cur => r ← _bt_step idx cur BackwardScanDirection;
                        match r with Some cur => Ok (StartAt cur) | None => Err "_bt_first: equal items disappeared?" end
          end
        else Ok (StartAt cur)
    end
  else if strat_total =? BTGreaterEqualStrategyNumber then
    r ← on_item idx cur;
    Ok (match r with Some cur => StartAt cur | None => StartNowhere end)
  else if strat_total =? BTGreaterStrategyNumber then
    r ← on_item idx cur;
    r ← (match r with Some cur => skip_while (scan_fuel idx) (fun result => result =? 0) idx sk cur | None => Ok None end);
    Ok (match r with Some cur => StartAt cur | None => StartNowhere end)
  else Ok (StartAt cur).

(** [_bt_first]: the keys as the scan will use them, and the first item. *)
Definition _bt_first (idx : Index) (keys : list QualKey) (dir : ScanDirection) : result (option (Ordered * position)) :=
  o ← _bt_orderkeys fmgr strategy_map keys;
  if negb (qual_ok o) then Ok None
  else
    b ← boundary_keys (keyData o) dir [] BTEqualStrategyNumber;
    let '(bs, strat_total) := b in
    r ← (if Zlen bs =? 0 then _bt_endpoint idx o dir
         else
           sk ← first_scankeys 0 bs procs;
           s ← _bt_search alloc idx (Zlen bs) sk false;
           match s.1 with
           | None => Ok None
           | Some (_, buf) =>
               p ← getpage idx buf;
               st ← start_position idx sk strat_total dir (buf, _bt_binsrch p (Zlen bs) sk);
               match st with
               | StartAt cur => first_item idx o cur dir
               | StartEndpoint => _bt_endpoint idx o dir
               | StartNowhere => Ok None
               end
           end);
    Ok (match r with Some cur => Some (o, cur) | None => None end).

(** ** A scan *)

(** [_bt_restscan]: the item the scan stopped on, found again by its heap pointer. *)
Fixpoint restscan_loop (fuel : nat) (idx : Index) (buf offnum : Z) (target : BTItem) : result position :=
  match fuel with
  | O => Err "fuel"
  | S fuel =>
      p ← getpage idx buf;
      match find_item (Z.to_nat (PageGetMaxOffsetNumber p - offnum + 1)) offnum p target with
      | Some offnum => Ok (buf, offnum)
      | None =>
          if P_RIGHTMOST (opaque p) then Err "_bt_restscan: my bits moved right off the end of the world!"
          else
            q ← getpage idx (btpo_next (opaque p));
            restscan_loop fuel idx (btpo_next (opaque p)) (P_FIRSTDATAKEY (opaque q)) target
      end
  end.
Definition _bt_restscan (idx : Index) (cur : position) (target : BTItem) : result position :=
  p ← getpage idx cur.1;
  if t_posid target =? InvalidOffsetNumber then Ok (cur.1, OffsetNumberPrev (P_FIRSTDATAKEY (opaque p)))
  else restscan_loop (S (size (pages idx))) idx cur.1 cur.2 target.

(** The state of a scan between two calls. *)
Record BTScan := mkScan {
  so_keys : Ordered;
  currentItemData : position;
  curHeapIptr : BTItem }.

Definition btgettuple (idx : Index) (keys : list QualKey) (scan : option BTScan) (dir : ScanDirection) : result (option BTScan) :=
  r ← (match scan with
       | Some s =>
           cur ← _bt_restscan idx (currentItemData s) (curHeapIptr s);
           r ← _bt_next idx (so_keys s) cur dir;
           Ok (match r with Some cur => Some (so_keys s, cur) | None => None end)
       | None => _bt_first idx keys dir
       end);
  match r with
  | None => Ok None
  | Some (o, cur) => p ← getpage idx cur.1; Ok (Some (mkScan o cur (PageGetItem p cur.2)))
  end.

(** All calls of a scan, and the items they returned. *)
Fixpoint scan_loop (fuel : nat) (idx : Index) (keys : list QualKey) (scan : option BTScan) (dir : ScanDirection) : result (list BTItem) :=
  match fuel with
  | O => Err "fuel"
  | S fuel =>
      r ← btgettuple idx keys scan dir;
      match r with
      | None => Ok []
      | Some s => rest ← scan_loop fuel idx keys (Some s) dir; Ok (curHeapIptr s :: rest)
      end
  end.
Definition index_scan (idx : Index) (keys : list QualKey) (dir : ScanDirection) : result (list BTItem) :=
  scan_loop (S (scan_fuel idx)) idx keys None dir.

End Scan.
(** ** Positions *)

(** The leaves of an index. *)
Record leaves (idx : Index) (C : level) : Prop := {
  lv_in : level_in idx true C;
  lv_linked : linked P_NONE C;
  lv_blocks : Forall (fun x => x.1 <> P_NONE) C;
  lv_fuel : (length C <= size (pages idx))%nat }.

Lemma data_split C d1 x d2 : C = d1 ++ x :: d2 -> level_data C = level_data d1 ++ data_lines x.2 ++ level_data d2.
Proof. intros ->. by rewrite level_data_app. Qed.

Section Positions.
Context (idx : Index) (C : level) (HL : leaves idx C).
Let Hin := lv_in _ _ HL.
Let Hlk := lv_linked _ _ HL.
Let Hnn := lv_blocks _ _ HL.
Let Hfuel := lv_fuel _ _ HL.

Local Notation data := (level_data C).
Local Notation first p := (P_FIRSTDATAKEY (opaque p)).

(** The position of item number [k]. *)
Definition at_pos (k : nat) (c : position) : Prop :=
  exists d1 x d2, C = d1 ++ x :: d2 /\ c.1 = x.1 /\ first x.2 <= c.2 <= PageGetMaxOffsetNumber x.2 /\
    Z.of_nat k = Zlen (level_data d1) + (c.2 - first x.2).

Lemma leaf_page d1 x d2 : C = d1 ++ x :: d2 -> pages idx !! x.1 = Some x.2 /\ in_tree true x.2 /\ x.1 <> P_NONE.
Proof.
  intros E. assert (x ∈ C) as Hx by (rewrite E; apply elem_of_app; right; by left).
  destruct (proj1 (Forall_forall _ _) Hin x Hx) as [H1 H2]. pose proof (proj1 (Forall_forall _ _) Hnn x Hx). done.
Qed.

Lemma page_data d1 x d2 : C = d1 ++ x :: d2 -> Zlen (data_lines x.2) = PageGetMaxOffsetNumber x.2 - first x.2 + 1 /\
  1 <= first x.2 <= 2 /\ PageGetMaxOffsetNumber x.2 < 1000.
Proof.
  intros E. destruct (leaf_page _ _ _ E) as (_ & [Hp _ _ _] & _). pose proof (data_lines_length _ Hp).
  pose proof (first_data_cases (opaque x.2)). pose proof (page_ok_small _ Hp). lia.
Qed.

(** What is at a position. *)
Lemma at_pos_item k c : at_pos k c -> exists p z, pages idx !! c.1 = Some p /\ PageGetItem p c.2 = z.2 /\ data !! k = Some z /\
  P_ISLEAF (opaque p) = true /\ first p <= c.2 <= PageGetMaxOffsetNumber p.
Proof.
  intros (d1 & x & d2 & E & Eb & Ho & Hk). destruct (leaf_page _ _ _ E) as (Hpg & Ht & _).
  destruct (data_line x.2 c.2 Ho) as (z & Hz & Hg). exists x.2, z. rewrite Eb. split_and!; try done; [|apply Ht|lia|lia].
  rewrite (data_split C _ _ _ E), lookup_app_r by lia. rewrite lookup_app_l by (apply lookup_lt_Some in Hz; lia).
  by replace (k - length (level_data d1))%nat with (Z.to_nat (c.2 - first x.2)) by lia.
Qed.

Lemma at_pos_lt k c : at_pos k c -> (k < length data)%nat.
Proof. intros H. destruct (at_pos_item k c H) as (p & z & _ & _ & Hz & _). by eapply lookup_lt_Some. Qed.

Lemma linked_step prev l1 y x l2 : linked prev (l1 ++ y :: x :: l2) -> btpo_next (opaque y.2) = x.1 /\ btpo_prev (opaque x.2) = y.1.
Proof.
  revert prev. induction l1 as [|[b p] l1 IH]; intros prev.
  - destruct y as [by' py], x as [bx px]. intros (_ & H1 & H2 & _). done.
  - intros (_ & _ & H). by apply (IH b).
Qed.

Lemma next_page d1 x y d2 : C = d1 ++ x :: y :: d2 -> P_RIGHTMOST (opaque x.2) = false /\ btpo_next (opaque x.2) = y.1 /\
  P_LEFTMOST (opaque y.2) = false /\ btpo_prev (opaque y.2) = x.1.
Proof.
  intros E. pose proof Hlk as Hl. rewrite E in Hl. destruct (linked_step _ _ _ _ _ Hl) as [E1 E2].
  destruct (leaf_page (d1 ++ [x]) y d2) as (_ & _ & Hy); [by rewrite E, <- (assoc_L (++))|].
  destruct (leaf_page d1 x (y :: d2) E) as (_ & _ & Hx). unfold P_RIGHTMOST, P_LEFTMOST. rewrite E1, E2.
  split_and!; [by apply Z.eqb_neq|done|by apply Z.eqb_neq|done].
Qed.

Lemma last_page d1 x : C = d1 ++ [x] -> P_RIGHTMOST (opaque x.2) = true.
Proof.
  intros E. pose proof Hlk as Hl. rewrite E in Hl. apply linked_app in Hl as [prev H]. destruct x as [b p]. destruct H as (_ & H & _).
  unfold P_RIGHTMOST. simpl. by rewrite H.
Qed.

Lemma first_page x d2 : C = x :: d2 -> P_LEFTMOST (opaque x.2) = true.
Proof. intros E. pose proof Hlk as Hl. rewrite E in Hl. destruct x as [b p]. destruct Hl as (H & _). unfold P_LEFTMOST. simpl. by rewrite H. Qed.

Lemma step_right_spec d2 : forall d1 x fuel, C = d1 ++ x :: d2 -> (length d2 < fuel)%nat ->
  if decide (level_data d2 = []) then step_right fuel idx (opaque x.2) = Ok None
  else exists c, step_right fuel idx (opaque x.2) = Ok (Some c) /\ at_pos (length (level_data (d1 ++ [x]))) c.
Proof.
  induction d2 as [|y d2 IH]; intros d1 x fuel E Hf; (destruct fuel as [|fuel]; [lia|]); cbn [step_right].
  - rewrite decide_True by done. by rewrite (last_page _ _ E).
  - destruct (next_page _ _ _ _ E) as (-> & -> & _ & _).
    assert (C = (d1 ++ [x]) ++ y :: d2) as E2 by by rewrite E, <- (assoc_L (++)).
    destruct (leaf_page _ _ _ E2) as (Hpg & _ & _). unfold getpage. rewrite Hpg. cbn [mbind result_bind].
    destruct (page_data _ _ _ E2) as (Hl & Hf1 & _). change (level_data (y :: d2)) with (data_lines y.2 ++ level_data d2).
    unfold PageIsEmpty. destruct (Z.leb_spec (first y.2) (PageGetMaxOffsetNumber y.2)) as [Hle|Hgt].
    + rewrite decide_False by (intros E0; apply app_nil in E0 as [E0 _]; rewrite E0 in Hl; simpl in Hl; lia).
      destruct (Z.leb_spec (PageGetMaxOffsetNumber y.2) 0); [lia|]. cbn [negb andb]. eexists. split; [done|].
      exists (d1 ++ [x]), y, d2. cbn [fst snd]. split_and!; [done|done|lia|lia|lia].
    + rewrite andb_false_r. assert (data_lines y.2 = []) as E0 by (destruct (data_lines y.2); [done|simpl in Hl; lia]). rewrite E0.
      specialize (IH (d1 ++ [x]) y fuel E2 ltac:(simpl in Hf; lia)). cbn [app]. destruct (decide (level_data d2 = [])); [done|].
      destruct IH as (c & Es & Hc). exists c. split; [done|]. rewrite level_data_app in Hc. change (level_data [y]) with (data_lines y.2 ++ []) in Hc.
      by rewrite E0, app_nil_r in Hc.
Qed.

Lemma adjacent_spec d1 y x d2 fuel : C = d1 ++ y :: x :: d2 -> adjacent (S fuel) idx y.1 x.1 = Ok y.1.
Proof.
  intros E. destruct (leaf_page _ _ _ E) as (Hpg & _ & _). destruct (next_page _ _ _ _ E) as (_ & En & _).
  cbn [adjacent]. unfold getpage. rewrite Hpg. cbn [mbind result_bind]. by rewrite En, Z.eqb_refl.
Qed.

Lemma step_left_spec d1 : forall x d2 fuel, C = d1 ++ x :: d2 -> (length d1 < fuel)%nat ->
  if decide (level_data d1 = []) then step_left fuel idx x.1 (opaque x.2) = Ok None
  else exists c, step_left fuel idx x.1 (opaque x.2) = Ok (Some c) /\ at_pos (pred (length (level_data d1))) c.
Proof.
  induction d1 as [|y d1 IH] using rev_ind; intros x d2 fuel E Hf; (destruct fuel as [|fuel]; [lia|]); cbn [step_left].
  - rewrite decide_True by done. by rewrite (first_page _ _ E).
  - assert (C = d1 ++ y :: x :: d2) as E2 by by rewrite E, <- (assoc_L (++)).
    destruct (next_page _ _ _ _ E2) as (_ & _ & -> & ->). rewrite (adjacent_spec _ _ _ _ _ E2). cbn [mbind result_bind].
    destruct (leaf_page _ _ _ E2) as (Hpg & _ & _). unfold getpage. rewrite Hpg. cbn [mbind result_bind].
    destruct (page_data _ _ _ E2) as (Hl & Hf1 & _). rewrite level_data_app. change (level_data [y]) with (data_lines y.2 ++ []).
    rewrite app_nil_r, Z.geb_leb. unfold PageIsEmpty. destruct (Z.leb_spec (first y.2) (PageGetMaxOffsetNumber y.2)) as [Hle|Hgt].
    + rewrite decide_False by (intros E0; apply app_nil in E0 as [_ E0]; rewrite E0 in Hl; simpl in Hl; lia).
      destruct (Z.leb_spec (PageGetMaxOffsetNumber y.2) 0); [lia|]. cbn [negb andb]. eexists. split; [done|].
      exists d1, y, (x :: d2). cbn [fst snd]. rewrite length_app. split_and!; [done|done|lia|lia|lia].
    + rewrite andb_false_r. assert (data_lines y.2 = []) as E0 by (destruct (data_lines y.2); [done|simpl in Hl; lia]). rewrite E0, app_nil_r.
      apply (IH y (x :: d2) fuel E2). rewrite length_app in Hf. simpl in Hf. lia.
Qed.

(** A step from any offset of a page. *)
Lemma step_forward d1 x d2 off : C = d1 ++ x :: d2 -> first x.2 - 1 <= off ->
  let k := (length (level_data d1) + Nat.min (Z.to_nat (off - first x.2 + 1)) (length (data_lines x.2)))%nat in
  if decide (k < length data)%nat
  then exists c, _bt_step idx (x.1, off) ForwardScanDirection = Ok (Some c) /\ at_pos k c
  else _bt_step idx (x.1, off) ForwardScanDirection = Ok None.
Proof.
  intros E Hoff k. destruct (leaf_page _ _ _ E) as (Hpg & _ & _). destruct (page_data _ _ _ E) as (Hl & Hf1 & _).
  unfold _bt_step, getpage. rewrite Hpg. cbn [mbind result_bind ScanDirectionIsForward]. rewrite (data_split C _ _ _ E), !length_app.
  unfold PageIsEmpty. destruct (Z.ltb_spec off (PageGetMaxOffsetNumber x.2)) as [Hlt|Hge].
  - destruct (Z.leb_spec (PageGetMaxOffsetNumber x.2) 0); [lia|]. cbn [negb andb]. rewrite decide_True by lia. eexists. split; [done|].
    exists d1, x, d2. cbn [fst snd]. split_and!; [done|done|lia|lia|lia].
  - rewrite andb_false_r. assert (length d2 < S (size (pages idx)))%nat as Hf by (pose proof Hfuel as Hfl; rewrite E, length_app in Hfl; simpl in Hfl; lia).
    pose proof (step_right_spec d2 d1 x _ E Hf) as Hs.
    assert (k = length (level_data (d1 ++ [x]))) as Ek.
    { rewrite level_data_app, length_app. change (level_data [x]) with (data_lines x.2 ++ []). rewrite app_nil_r. lia. }
    rewrite <- Ek in Hs. destruct (decide (level_data d2 = [])) as [E0|Hne].
    + rewrite decide_False; [done|]. rewrite E0. simpl. lia.
    + rewrite decide_True; [done|]. destruct (level_data d2); [done|]. simpl. lia.
Qed.

Lemma step_backward d1 x d2 off : C = d1 ++ x :: d2 -> 0 <= off <= PageGetMaxOffsetNumber x.2 + 1 ->
  let k := (length (level_data d1) + Z.to_nat (off - first x.2))%nat in
  if decide (k = 0)%nat then _bt_step idx (x.1, off) BackwardScanDirection = Ok None
  else exists c, _bt_step idx (x.1, off) BackwardScanDirection = Ok (Some c) /\ at_pos (pred k) c.
Proof.
  intros E Hoff k. destruct (leaf_page _ _ _ E) as (Hpg & _ & _). destruct (page_data _ _ _ E) as (Hl & Hf1 & Hm).
  unfold _bt_step, getpage. rewrite Hpg. cbn [mbind result_bind ScanDirectionIsForward]. rewrite Z.gtb_ltb.
  destruct (Z.ltb_spec (first x.2) off) as [Hlt|Hge].
  - rewrite decide_False by lia. eexists. split; [done|]. unfold OffsetNumberPrev. rewrite u16_id by lia.
    exists d1, x, d2. cbn [fst snd]. split_and!; [done|done|lia|lia|lia].
  - assert (k = length (level_data d1)) as -> by lia.
    assert (length d1 < S (size (pages idx)))%nat as Hf by (pose proof Hfuel as Hfl; rewrite E, length_app in Hfl; simpl in Hfl; lia).
    pose proof (step_left_spec d1 x d2 _ E Hf) as Hs. destruct (decide (level_data d1 = [])) as [E0|Hne].
    + by rewrite decide_True by (by rewrite E0).
    + rewrite decide_False; [done|]. by destruct (level_data d1).
Qed.

(** *** Along the scan direction *)

Definition dl (dir : ScanDirection) : list (Z * BTItem) :=
  match dir with ForwardScanDirection => data | BackwardScanDirection => reverse data end.
Definition dpos (dir : ScanDirection) (m : nat) (c : position) : Prop :=
  (m < length data)%nat /\
  at_pos (match dir with ForwardScanDirection => m | BackwardScanDirection => length data - 1 - m end) c.

Lemma dl_length dir : length (dl dir) = length data.
Proof. destruct dir; [done|]. apply length_reverse. Qed.

Lemma dpos_item dir m c : dpos dir m c -> exists p z, pages idx !! c.1 = Some p /\ PageGetItem p c.2 = z.2 /\ dl dir !! m = Some z /\
  P_ISLEAF (opaque p) = true /\ first p <= c.2 <= PageGetMaxOffsetNumber p.
Proof.
  intros [Hm Hp]. destruct (at_pos_item _ _ Hp) as (p & z & H1 & H2 & H3 & H4). exists p, z. split_and!; [done|done| |apply H4|apply H4|apply H4].
  destruct dir; [done|]. simpl. rewrite reverse_lookup by done. by replace (length data - S m)%nat with (length data - 1 - m)%nat by lia.
Qed.

Lemma dstep dir m c : dpos dir m c ->
  if decide (S m < length data)%nat then exists c', _bt_step idx c dir = Ok (Some c') /\ dpos dir (S m) c'
  else _bt_step idx c dir = Ok None.
Proof.
  intros [Hm (d1 & x & d2 & E & Eb & Ho & Hk)]. destruct c as [b off]. cbn [fst snd] in *. subst b.
  destruct (page_data _ _ _ E) as (Hl & Hf1 & _). unfold dpos. destruct dir.
  - pose proof (step_forward d1 x d2 off E ltac:(lia)) as Hs. cbn zeta in Hs.
    replace (length (level_data d1) + _)%nat with (S m) in Hs by lia. destruct (decide (S m < length data)%nat); [|done].
    destruct Hs as (c & Hs & Hc). exists c. done.
  - pose proof (step_backward d1 x d2 off E ltac:(lia)) as Hs. cbn zeta in Hs.
    replace (length (level_data d1) + _)%nat with (length data - 1 - m)%nat in Hs by lia.
    destruct (decide (length data - 1 - m = 0)%nat).
    + by rewrite decide_False by lia.
    + rewrite decide_True by lia. destruct Hs as (c & Hs & Hc). exists c. split_and!; [done|lia|].
      by replace (length data - 1 - S m)%nat with (pred (length data - 1 - m)) by lia.
Qed.

Lemma data_bound : (length data < scan_fuel idx)%nat.
Proof.
  assert (forall l, (forall x, x ∈ l -> x ∈ C) -> Zlen (level_data l) <= 1000 * Zlen l) as H.
  { induction l as [|x l IH]; intros Hl; [done|]. change (level_data (x :: l)) with (data_lines x.2 ++ level_data l).
    rewrite length_app. cbn [length]. specialize (IH ltac:(intros y Hy; apply Hl; by right)).
    destruct (list_elem_of_split C x) as (d1 & d2 & E); [apply Hl; by left|]. destruct (page_data _ _ _ E) as (Hp & Hf1 & Hm). lia. }
  specialize (H C ltac:(done)). unfold scan_fuel. lia.
Qed.

(** *** What a scan collects *)

Section Collect.
Context (chk : BTItem -> bool * bool).

(** The first item that passes before one that ends the scan, and all of them. *)
Fixpoint find_next (l : list (Z * BTItem)) : option nat :=
  match l with
  | [] => None
  | z :: l => if (chk z.2).1 then Some 0%nat else if (chk z.2).2 then S <$> find_next l else None
  end.
Fixpoint collect (l : list (Z * BTItem)) : list BTItem :=
  match l with
  | [] => []
  | z :: l => if (chk z.2).1 then z.2 :: collect l else if (chk z.2).2 then collect l else []
  end.

Lemma collect_next l : match find_next l with
  | Some i => exists z, l !! i = Some z /\ collect l = z.2 :: collect (drop (S i) l)
  | None => collect l = [] end.
Proof.
  induction l as [|z l IH]; [done|]. simpl. destruct (chk z.2).1; [by exists z|]. destruct (chk z.2).2; [|done].
  destruct (find_next l) as [i|]; simpl; [|done]. destruct IH as (w & H1 & H2). by exists w.
Qed.

Lemma find_next_lt l i : find_next l = Some i -> (i < length l)%nat.
Proof. intros H. pose proof (collect_next l) as Hc. rewrite H in Hc. destruct Hc as (z & Hz & _). by eapply lookup_lt_Some. Qed.
End Collect.

Section WithKeys.
Context (fmgr : Z -> Datum -> Datum -> bool) (o : Ordered) (dir : ScanDirection).
Local Notation chk := (fun it => _bt_checkkeys fmgr o it dir).

(** The outcome of looking for the next item from number [m] on. *)
Definition found (m : nat) (r : result (option position)) : Prop :=
  match find_next chk (drop m (dl dir)) with
  | Some i => exists c, r = Ok (Some c) /\ dpos dir (m + i) c
  | None => r = Ok None
  end.

Lemma next_loop_spec fuel : forall m c, dpos dir m c -> (length data - m <= fuel)%nat -> found (S m) (next_loop fmgr fuel idx o c dir).
Proof.
  induction fuel as [|fuel IH]; intros m c Hc Hf; [destruct Hc; lia|]. cbn [next_loop]. pose proof (dstep dir m c Hc) as Hs.
  unfold found. destruct (decide (S m < length data)%nat) as [Hlt|Hge].
  - destruct Hs as (c' & -> & Hc'). cbn [mbind result_bind]. destruct (dpos_item _ _ _ Hc') as (p & z & Hpg & Hg & Hz & _).
    unfold getpage. rewrite Hpg. cbn [mbind result_bind]. rewrite Hg, (drop_S _ _ _ Hz). cbn [find_next].
    destruct (_bt_checkkeys fmgr o z.2 dir) as [passes cont]; cbn [fst snd]. destruct passes.
    { exists c'. split; [done|]. by rewrite Nat.add_0_r. }
    destruct cont; [|done]. specialize (IH (S m) c' Hc' ltac:(lia)). unfold found in IH.
    destruct (find_next chk (drop (S (S m)) (dl dir))) as [i|]; simpl; [|done]. destruct IH as (c'' & E & H). exists c''.
    split; [done|]. by replace (S (m + S i)) with (S (S (m + i))) by lia.
  - rewrite Hs. rewrite drop_ge by (rewrite dl_length; lia). done.
Qed.

Lemma first_item_spec m c : dpos dir m c -> found m (first_item fmgr idx o c dir).
Proof.
  intros Hc. unfold found, first_item. destruct (dpos_item _ _ _ Hc) as (p & z & Hpg & Hg & Hz & _).
  unfold getpage. rewrite Hpg. cbn [mbind result_bind]. rewrite Hg, (drop_S _ _ _ Hz). cbn [find_next].
  destruct (_bt_checkkeys fmgr o z.2 dir) as [passes cont]; cbn [fst snd]. destruct passes.
  { exists c. split; [done|]. by rewrite Nat.add_0_r. }
  destruct cont; [|done]. pose proof data_bound as Hb.
  pose proof (next_loop_spec (scan_fuel idx) m c Hc ltac:(lia)) as H. unfold found in H. unfold _bt_next.
  destruct (find_next chk (drop (S m) (dl dir))) as [i|]; simpl; [|done]. destruct H as (c'' & E & H). exists c''.
  split; [done|]. by replace (m + S i)%nat with (S (m + i)) by lia.
Qed.

Context (strategy_map : Z -> list Z) (procs : list (Datum -> Datum -> Z)) (alloc : gmap Z BTPage -> Z) (keys : list QualKey).
Context (Htid : forall z, z ∈ data -> t_posid z.2 <> InvalidOffsetNumber).

Lemma dl_elem z m : dl dir !! m = Some z -> z ∈ data.
Proof. intros H. apply list_elem_of_lookup_2 in H. destruct dir; simpl in H; [done|]. by rewrite elem_of_reverse in H. Qed.

Lemma restscan_here m c z : dpos dir m c -> dl dir !! m = Some z -> _bt_restscan idx c z.2 = Ok c.
Proof.
  intros Hc Hz. destruct (dpos_item _ _ _ Hc) as (p & z' & Hpg & Hg & Hz' & _ & Ho). simplify_eq.
  unfold _bt_restscan, getpage. rewrite Hpg. cbn [mbind result_bind].
  destruct (Z.eqb_spec (t_posid z.2) InvalidOffsetNumber) as [E|_]; [by destruct (Htid z (dl_elem z m Hz))|].
  cbn [restscan_loop]. unfold getpage. rewrite Hpg. cbn [mbind result_bind].
  destruct (Z.to_nat (PageGetMaxOffsetNumber p - c.2 + 1)) as [|k] eqn:Ek; [lia|]. cbn [find_item]. rewrite Hg.
  assert (BTItemSame z.2 z.2 = true) as -> by by apply same_link. by destruct c.
Qed.

(** The rest of a scan that stands on item number [m]. *)
Lemma scan_rest fuel : forall m c z, dpos dir m c -> dl dir !! m = Some z -> (length data - m <= fuel)%nat ->
  scan_loop fmgr strategy_map procs alloc fuel idx keys (Some (mkScan o c z.2)) dir = Ok (collect chk (drop (S m) (dl dir))).
Proof.
  induction fuel as [|fuel IH]; intros m c z Hc Hz Hf; [destruct Hc; lia|]. cbn [scan_loop]. unfold btgettuple.
  cbn [currentItemData curHeapIptr so_keys]. rewrite (restscan_here m c z Hc Hz). cbn [mbind result_bind]. unfold _bt_next.
  pose proof data_bound as Hb. pose proof (next_loop_spec (scan_fuel idx) m c Hc ltac:(lia)) as H. unfold found in H.
  pose proof (collect_next chk (drop (S m) (dl dir))) as Hcol. pose proof (find_next_lt chk (drop (S m) (dl dir))) as Hlt.
  destruct (find_next chk (drop (S m) (dl dir))) as [i|].
  - destruct H as (c' & -> & Hc'). destruct Hcol as (w & Hw & ->). cbn [mbind result_bind].
    destruct (dpos_item _ _ _ Hc') as (p & w' & Hpg & Hg & Hw' & _). rewrite lookup_drop in Hw. simplify_eq.
    unfold getpage. rewrite Hpg. cbn [mbind result_bind]. rewrite Hg. specialize (Hlt i eq_refl). rewrite length_drop, dl_length in Hlt.
    rewrite (IH (S m + i)%nat c' w Hc' Hw) by lia. cbn [mbind result_bind curHeapIptr]. rewrite drop_drop.
    do 4 f_equal. lia.
  - rewrite H. cbn [mbind result_bind]. by rewrite Hcol.
Qed.
End WithKeys.

(** A scan whose first call looked from item number [m] on. *)
Lemma scan_whole fmgr strategy_map procs alloc keys o dir m r :
  (forall z, z ∈ data -> t_posid z.2 <> InvalidOffsetNumber) ->
  _bt_first fmgr strategy_map procs alloc idx keys dir = Ok (match r with Some cur => Some (o, cur) | None => None end) ->
  found fmgr o dir m (Ok r) ->
  index_scan fmgr strategy_map procs alloc idx keys dir = Ok (collect (fun it => _bt_checkkeys fmgr o it dir) (drop m (dl dir))).
Proof.
  intros Htid Ef Hr. unfold index_scan. cbn [scan_loop]. unfold btgettuple. rewrite Ef. cbn [mbind result_bind].
  unfold found in Hr. pose proof (collect_next (fun it => _bt_checkkeys fmgr o it dir) (drop m (dl dir))) as Hcol.
  destruct (find_next _ (drop m (dl dir))) as [i|].
  - destruct Hr as (c & [= ->] & Hc). destruct Hcol as (w & Hw & ->). cbn [mbind result_bind].
    destruct (dpos_item _ _ _ Hc) as (p & w' & Hpg & Hg & Hw' & _). rewrite lookup_drop in Hw. simplify_eq.
    unfold getpage. rewrite Hpg. cbn [mbind result_bind]. rewrite Hg. pose proof data_bound as Hb.
    rewrite (scan_rest fmgr o dir strategy_map procs alloc keys Htid _ (m + i) c w Hc Hw) by lia. cbn [mbind result_bind curHeapIptr].
    rewrite drop_drop. do 4 f_equal. lia.
  - injection Hr as ->. by rewrite Hcol.
Qed.
End Positions.

(** Where ending the scan loses nothing, it collects all that match. *)
Lemma collect_filter chk (sel : BTItem -> bool) l : (forall z, z ∈ l -> (chk z.2).1 = sel z.2) ->
  (forall i j z w, l !! i = Some z -> (i < j)%nat -> l !! j = Some w -> (chk z.2).2 = false -> sel z.2 = false -> sel w.2 = false) ->
  collect chk l = List.filter sel (map snd l).
Proof.
  induction l as [|z l IH]; intros Hs Hstop; [done|]. simpl. rewrite (Hs z) by by left.
  assert (collect chk l = List.filter sel (map snd l)) as E.
  { apply IH; [intros w Hw; apply Hs; by right|]. intros i j w w' Hi Hij Hj. apply (Hstop (S i) (S j)); [done|lia|done]. }
  destruct (sel z.2) eqn:Ez; [by rewrite E|]. destruct (chk z.2).2 eqn:Ec; [done|]. symmetry.
  assert (Forall (fun w => sel w.2 = false) l) as Hf.
  { apply Forall_lookup. intros j w Hj. apply (Hstop 0%nat (S j) z w); [done|lia|done|done|done]. }
  clear -Hf. induction Hf as [|w l Hw _ IH]; [done|]. simpl. by rewrite Hw.
Qed.

(** ** The ends of the index *)

Section Endpoint.
Context (procs : procs_t) (idx : Index) (L : list level) (Ht : tree_ok procs idx L).

Lemma seg_first cs p : in_tree false p -> seg cs p -> exists c cs', cs = c :: cs' /\ t_blkno (PageGetItem p (P_FIRSTDATAKEY (opaque p))) = c.1.
Proof.
  intros [Hp _ _ Hd] Hs. specialize (Hd eq_refl). pose proof (data_lines_length p Hp) as Hl.
  destruct (data_line p (P_FIRSTDATAKEY (opaque p))) as (x & Hx & ->); [destruct (data_lines p); [done|simpl in Hl; lia]|].
  rewrite Z.sub_diag in Hx. destruct (seg_link cs p 0 x Hs Hx) as (c & Hc & Hb & _). destruct cs as [|c' cs]; [done|].
  injection Hc as ->. by exists c, cs.
Qed.

Lemma seg_last_link cs p : in_tree false p -> seg cs p -> exists cs' c, cs = cs' ++ [c] /\ t_blkno (PageGetItem p (PageGetMaxOffsetNumber p)) = c.1.
Proof.
  intros [Hp _ _ Hd] Hs. specialize (Hd eq_refl). pose proof (data_lines_length p Hp) as Hl. pose proof (seg_length _ _ Hs) as Hcs.
  destruct (data_line p (PageGetMaxOffsetNumber p)) as (x & Hx & ->); [destruct (data_lines p); [done|simpl in Hl; lia]|].
  destruct (seg_link cs p _ x Hs Hx) as (c & Hc & Hb & _).
  assert (last cs = Some c) as Hlast by (rewrite last_lookup, <- Hc; f_equal; lia).
  apply last_Some in Hlast as [cs' ->]. by exists cs', c.
Qed.

Definition end_page (dir : ScanDirection) (C : level) (x : Z * BTPage) : Prop :=
  match dir with ForwardScanDirection => head C = Some x | BackwardScanDirection => last C = Some x end.

Lemma rightmost_last l C x fuel : L !! l = Some C -> last C = Some x -> rightmost_loop (S fuel) idx x.1 = Ok x.1.
Proof.
  intros HC Hx. pose proof (lo_in _ _ (t_levels _ _ _ Ht) l C HC) as Hin. pose proof (lo_linked _ _ (t_levels _ _ _ Ht) l C HC) as Hlk.
  apply last_Some in Hx as [C' ->]. apply linked_app in Hlk as [prev Hlk]. destruct x as [b p]. destruct Hlk as (_ & Hn & _).
  apply Forall_app in Hin as [_ Hin]. apply Forall_cons in Hin as [[Hpg _] _]. cbn [rightmost_loop]. unfold getpage. simpl in Hpg |- *.
  rewrite Hpg. cbn [mbind result_bind]. unfold P_RIGHTMOST. by rewrite Hn.
Qed.

Lemma endpoint_loop_spec dir l : forall C x fuel, L !! l = Some C -> end_page dir C x -> (l < fuel)%nat ->
  exists D y, L !! 0%nat = Some D /\ end_page dir D y /\ endpoint_loop fuel idx x.1 dir = Ok y.1.
Proof.
  induction l as [|l IH]; intros C x fuel HC Hx Hf; (destruct fuel as [|fuel]; [lia|]); cbn [endpoint_loop];
    pose proof (lo_in _ _ (t_levels _ _ _ Ht) _ C HC) as Hin;
    (assert (x ∈ C) as Hel by (destruct dir; [by apply head_Some_elem_of|by apply last_Some_elem_of]));
    (eapply Forall_forall in Hin as [Hpg Hit]; [|exact Hel]); unfold getpage; rewrite Hpg; cbn [mbind result_bind]; rewrite (it_leaf _ _ Hit).
  - rewrite bool_decide_true by done. by exists C, x.
  - rewrite bool_decide_false in Hit |- * by lia. destruct (lookup_lt_is_Some_2 L l) as [D HD]; [apply lookup_lt_Some in HC; lia|].
    pose proof (t_covers _ _ _ Ht l D C ltac:(lia) HD HC) as Hcov. destruct dir; cbn [ScanDirectionIsForward ScanDirectionIsBackward negb].
    + destruct C as [|[b p] C]; [done|]. simpl in Hx. injection Hx as <-. inversion Hcov as [|cs D' ? ? ? Hs Hc]; subst. simpl in Hit.
      destruct (seg_first cs p Hit Hs) as (c & cs' & -> & Hb). simpl. rewrite Hb. by apply (IH (c :: cs' ++ D') c fuel HD); [|lia].
    + apply last_Some in Hx as [C' ->]. destruct (covers_app _ _ _ Hcov) as (C1 & C2 & -> & H1 & H2). destruct x as [b p].
      apply covers_one in H2. simpl in Hit. destruct (seg_last_link C2 p Hit H2) as (cs' & c & -> & Hb). cbn [snd]. rewrite Hb.
      assert (last (C1 ++ cs' ++ [c]) = Some c) as Hlast by by rewrite (assoc_L (++)), last_snoc.
      rewrite (rightmost_last l _ c _ HD Hlast). cbn [mbind result_bind]. by apply (IH _ c fuel HD); [|lia].
Qed.

Context (C : level) (HC : L !! 0%nat = Some C).
Local Notation data := (level_data C).

Lemma tree_leaves : leaves idx C.
Proof.
  split; [by apply (lo_in _ _ (t_levels _ _ _ Ht) 0%nat)|by eapply lo_linked; [apply Ht|]| |].
  - by destruct (level_pages idx L 0 C (t_levels _ _ _ Ht) HC).
  - pose proof (level_fuel procs idx L Ht 0 C HC). lia.
Qed.

(** Looking from item number [m] on, once a step or a search has found it. *)
Lemma found_from fmgr o dir m s : (if decide (m < length data)%nat then exists c, s = Ok (Some c) /\ dpos C dir m c else s = Ok None) ->
  found C fmgr o dir m (s' ← s; match s' with None => Ok None | Some cur => first_item fmgr idx o cur dir end).
Proof.
  pose proof tree_leaves as Hlv. destruct (decide (m < length data)%nat) as [Hlt|Hge].
  - intros (c & -> & Hc). cbn [mbind result_bind]. by apply (first_item_spec idx C Hlv).
  - intros ->. cbn [mbind result_bind]. unfold found. by rewrite drop_ge by (rewrite dl_length; lia).
Qed.

Lemma endpoint_spec fmgr alloc o dir : found C fmgr o dir 0 (_bt_endpoint fmgr alloc idx o dir).
Proof.
  pose proof tree_leaves as Hlv. unfold _bt_endpoint. rewrite (getroot_spec procs idx L Ht). cbn [mbind result_bind fst].
  destruct (root_level procs idx L Ht) as (l & p & Hl & Hlen & _).
  destruct (endpoint_loop_spec dir l _ (btm_root idx, p) (S (size (pages idx))) Hl) as (D & y & HD & Hy & Ee); [by destruct dir| |].
  { pose proof (levels_size _ _ (t_levels _ _ _ Ht)). pose proof (levels_length L (lo_ne _ _ (t_levels _ _ _ Ht))). lia. }
  cbn [fst] in Ee. rewrite Ee. rewrite HC in HD. injection HD as <-. cbn [mbind result_bind].
  assert (exists d1 d2, C = d1 ++ y :: d2 /\ match dir with ForwardScanDirection => d1 = [] | BackwardScanDirection => d2 = [] end)
    as (d1 & d2 & E & Hd).
  { destruct dir; [destruct C as [|y' C']; [done|]; simpl in Hy; injection Hy as ->; by exists [], C'|].
    apply last_Some in Hy as [d1 ->]. by exists d1, []. }
  destruct (leaf_page idx C Hlv _ _ _ E) as (Hpg & _ & _). destruct (page_data idx C Hlv _ _ _ E) as (Hdl & Hf1 & Hmax).
  unfold getpage. rewrite Hpg. cbn [mbind result_bind]. pose proof (data_split C _ _ _ E) as Edata. apply (f_equal length) in Edata.
  rewrite !length_app in Edata. set (first := P_FIRSTDATAKEY (opaque y.2)) in *. set (maxoff := PageGetMaxOffsetNumber y.2) in *.
  set (s := if ScanDirectionIsForward dir then first else _). rewrite Z.gtb_ltb.
  destruct (Z.lt_ge_cases maxoff first) as [He|Hne].
  - assert (s = first) as -> by (unfold s; destruct dir; [done|]; simpl; by destruct (Z.ltb_spec maxoff first); [|lia]).
    destruct (Z.ltb_spec maxoff first); [|lia]. apply found_from. destruct dir; [subst d1|subst d2].
    + pose proof (step_forward idx C Hlv [] y d2 first E ltac:(fold first; lia)) as Hs. cbn zeta in Hs.
      replace (length (level_data []) + _)%nat with 0%nat in Hs by (simpl; lia). unfold dpos. case_decide; [|done].
      destruct Hs as (c & Hs & Hc). by exists c.
    + pose proof (step_backward idx C Hlv d1 y [] first E ltac:(fold first maxoff; lia)) as Hs. cbn zeta in Hs.
      fold first in Hs. rewrite Z.sub_diag, Nat.add_0_r in Hs. simpl in Edata. unfold dpos.
      destruct (decide (length (level_data d1) = 0)%nat).
      * by rewrite decide_False by lia.
      * rewrite decide_True by lia. destruct Hs as (c & Hs & Hc). exists c. split_and!; [done|lia|].
        by replace (length data - 1 - 0)%nat with (pred (length (level_data d1))) by lia.
  - destruct (Z.ltb_spec maxoff s) as [Hlt|Hge].
    { exfalso. unfold s in Hlt. destruct dir; simpl in Hlt; [lia|]. destruct (Z.ltb_spec maxoff first); lia. }
    apply (first_item_spec idx C Hlv). split; [lia|]. exists d1, y, d2. cbn [fst snd]. fold first maxoff.
    assert (match dir with ForwardScanDirection => s = first | BackwardScanDirection => s = maxoff end) as Es.
    { unfold s. destruct dir; [done|]. simpl. by destruct (Z.ltb_spec maxoff first); [lia|]. }
    destruct dir; subst d1 || subst d2; simpl in Edata; rewrite Es; split_and!; try done; simpl; lia.
Qed.
End Endpoint.

(** ** The boundary of a scan *)

Section Boundary.
Context (fmgr : Z -> Datum -> Datum -> bool) (strategy_map : Z -> list Z) (procs : procs_t).
Context `{Hops : !StrategyOps fmgr strategy_map procs} (Hprocs : Forall OrderProc procs).
Local Notation of_strategy := (of_strategy strategy_map).
Local Notation group_ok := (group_ok strategy_map).
Local Notation groups_ok := (groups_ok strategy_map).
Local Notation holds := (holds fmgr).
Local Notation matches := (matches fmgr).
Local Notation proc := (proc procs).

(** The bound of a group in the scan direction. *)
Definition near (dir : ScanDirection) (lo hi : option (nat * QualKey)) : option (nat * QualKey) :=
  match dir with ForwardScanDirection => lo | BackwardScanDirection => hi end.
Definition strict (j : nat) : bool := (Nat.eqb j 0) || (Nat.eqb j 4).

(** The boundary, group by group: equalities and weak bounds up to a strict one. *)
Fixpoint bnd (dir : ScanDirection) (st : Z) (gs : list group) : list QualKey * Z :=
  match gs with
  | [] => ([], st)
  | GEq q :: gs => let '(bs, s) := bnd dir st gs in (q :: bs, s)
  | GRange lo hi :: gs =>
      match near dir lo hi with
      | None => ([], st)
      | Some (j, q) => if strict j then ([q], 1 + Z.of_nat j) else let '(bs, s) := bnd dir (1 + Z.of_nat j) gs in (q :: bs, s)
      end
  end.

Definition total_ok (dir : ScanDirection) (st : Z) : Prop :=
  st = 3 \/ st = match dir with ForwardScanDirection => 4 | BackwardScanDirection => 2 end.

(** Keys of later attributes are not looked at. *)
Lemma boundary_gap keys dir bs st : Forall (fun q => Zlen bs + 1 < q_attno q) keys -> boundary_keys strategy_map keys dir bs st = Ok (bs, st).
Proof.
  intros H. destruct keys as [|q keys]; [done|]. apply Forall_cons in H as [Hq _]. cbn [boundary_keys].
  destruct (Z.leb_spec (q_attno q) (Zlen bs)); [lia|]. rewrite Z.gtb_ltb. by destruct (Z.ltb_spec (Zlen bs + 1) (q_attno q)); [|lia].
Qed.

Lemma flatten_attnos gs : forall a, groups_ok a gs -> Forall (fun q => a <= q_attno q < a + Zlen gs) (flatten gs).
Proof.
  induction gs as [|g gs IH]; intros a H; [constructor|]. destruct H as [Hg H].
  change (flatten (g :: gs)) with (flat g ++ flatten gs). apply Forall_app. cbn [length]. split.
  - apply Forall_forall. intros q Hq. rewrite (group_attno strategy_map a g q Hg Hq). lia.
  - eapply Forall_impl; [apply (IH _ H)|]. simpl. lia.
Qed.

(** A key of the attribute after the boundary, and one of an attribute in it. *)
Lemma boundary_cons a j q keys dir bs st : of_strategy a j q -> 1 <= a <= Zlen procs -> a = Zlen bs + 1 ->
  boundary_keys strategy_map (q :: keys) dir bs st =
    let strat := 1 + Z.of_nat j in
    if (strat =? st) || (strat =? 3) then boundary_keys strategy_map keys dir (bs ++ [q]) st
    else if ScanDirectionIsBackward dir && ((strat =? 1) || (strat =? 2)) then
      if strat =? 1 then Ok (bs ++ [q], strat) else boundary_keys strategy_map keys dir (bs ++ [q]) strat
    else if ScanDirectionIsForward dir && ((strat =? 5) || (strat =? 4)) then
      if strat =? 5 then Ok (bs ++ [q], strat) else boundary_keys strategy_map keys dir (bs ++ [q]) strat
    else boundary_keys strategy_map keys dir bs st.
Proof.
  intros Hq Ha Ea. cbn [boundary_keys]. rewrite (st_attno _ _ _ _ Hq).
  destruct (Z.leb_spec a (Zlen bs)); [lia|]. rewrite Z.gtb_ltb. destruct (Z.ltb_spec (Zlen bs + 1) a); [lia|].
  rewrite (getstrat_ok fmgr strategy_map procs a j q Ha Hq). done.
Qed.

Lemma boundary_skip a j q keys dir bs st : of_strategy a j q -> a <= Zlen bs ->
  boundary_keys strategy_map (q :: keys) dir bs st = boundary_keys strategy_map keys dir bs st.
Proof. intros Hq Ha. cbn [boundary_keys]. rewrite (st_attno _ _ _ _ Hq). by destruct (Z.leb_spec a (Zlen bs)); [|lia]. Qed.

Lemma boundary_groups dir gs : forall a bs st, groups_ok a gs -> 1 <= a -> a - 1 + Zlen gs <= Zlen procs -> a = Zlen bs + 1 -> total_ok dir st ->
  boundary_keys strategy_map (flatten gs) dir bs st = Ok (bs ++ (bnd dir st gs).1, (bnd dir st gs).2).
Proof.
  induction gs as [|g gs IH]; intros a bs st Hg Ha Hn Ea Hst; [by rewrite app_nil_r|]. destruct Hg as [Hg Hgs]. cbn [length] in Hn.
  change (flatten (g :: gs)) with (flat g ++ flatten gs).
  assert (forall q st', total_ok dir st' -> boundary_keys strategy_map (flatten gs) dir (bs ++ [q]) st' =
    Ok (bs ++ q :: (bnd dir st' gs).1, (bnd dir st' gs).2)) as Hrec.
  { intros q st' Hst'. rewrite (IH (a + 1)); try done; [by rewrite <- (assoc_L (++))|lia|lia|]. rewrite length_app. simpl. lia. }
  assert (forall st', boundary_keys strategy_map (flatten gs) dir bs st' = Ok (bs, st')) as Hgap.
  { intros st'. apply boundary_gap. eapply Forall_impl; [apply (flatten_attnos gs (a + 1) Hgs)|]. simpl. lia. }
  destruct g as [q|lo hi]; simpl flat.
  - cbn [app]. rewrite (boundary_cons a 2 q) by (done || lia). cbn zeta. change (1 + Z.of_nat 2 =? 3) with true. rewrite orb_true_r.
    rewrite Hrec by done. cbn [bnd]. by destruct (bnd dir st gs).
  - destruct Hg as [Hlo Hhi]. unfold total_ok in Hst. destruct dir; cbn [bnd near].
    + destruct lo as [[j q]|].
      * destruct (Hlo _ eq_refl) as [Hj Hq]. simpl in Hj, Hq. pose proof (st_j _ _ _ _ Hq) as Hj5.
        assert (forall st', total_ok ForwardScanDirection st' ->
          boundary_keys strategy_map ((match hi with Some x => [x.2] | None => [] end) ++ flatten gs) ForwardScanDirection (bs ++ [q]) st' =
          Ok (bs ++ q :: (bnd ForwardScanDirection st' gs).1, (bnd ForwardScanDirection st' gs).2)) as Hhi'.
        { intros st' Hst'. destruct hi as [y|]; [|by apply Hrec]. cbn [app]. destruct (Hhi y eq_refl) as [_ Hy].
          rewrite (boundary_skip a y.1) by (done || rewrite length_app; simpl; lia). by apply Hrec. }
        cbn [app snd]. rewrite (boundary_cons a j q) by (done || lia). cbn zeta. assert (j = 3 \/ j = 4)%nat as [-> | ->] by lia; cbn [strict Nat.eqb orb].
        -- change (1 + Z.of_nat 3) with 4. destruct Hst as [-> | ->]; cbn -[boundary_keys bnd app]; rewrite Hhi' by (by right);
             by destruct (bnd ForwardScanDirection 4 gs).
        -- change (1 + Z.of_nat 4) with 5. by destruct Hst as [-> | ->].
      * rewrite app_nil_r. cbn [app]. destruct hi as [[j q]|]; [|apply Hgap]. destruct (Hhi _ eq_refl) as [Hj Hq]. simpl in Hj, Hq. cbn [app snd].
        rewrite (boundary_cons a j q) by (done || lia). cbn zeta. assert (j = 0 \/ j = 1)%nat as [-> | ->] by lia; destruct Hst as [-> | ->];
          cbn -[boundary_keys app]; apply Hgap.
    + assert (forall keys, boundary_keys strategy_map ((match lo with Some x => [x.2] | None => [] end) ++ keys) BackwardScanDirection bs st =
        boundary_keys strategy_map keys BackwardScanDirection bs st) as Hlo'.
      { intros keys. destruct lo as [[j q]|]; [|done]. destruct (Hlo _ eq_refl) as [Hj Hq]. simpl in Hj, Hq. pose proof (st_j _ _ _ _ Hq) as Hj5. cbn [app snd].
        rewrite (boundary_cons a j q) by (done || lia). cbn zeta. assert (j = 3 \/ j = 4)%nat as [-> | ->] by lia; by destruct Hst as [-> | ->]. }
      rewrite <- (assoc_L (++)), Hlo'. destruct hi as [[j q]|]; [|rewrite app_nil_r; apply Hgap].
      destruct (Hhi _ eq_refl) as [Hj Hq]. simpl in Hj, Hq. cbn [app snd]. rewrite (boundary_cons a j q) by (done || lia). cbn zeta.
      assert (j = 0 \/ j = 1)%nat as [-> | ->] by lia; cbn [strict Nat.eqb orb].
      * change (1 + Z.of_nat 0) with 1. by destruct Hst as [-> | ->].
      * change (1 + Z.of_nat 1) with 2. destruct Hst as [-> | ->]; cbn -[boundary_keys bnd app]; rewrite Hrec by (by right);
          by destruct (bnd BackwardScanDirection 2 gs).
Qed.

(** How the attributes of an item from [a] on compare with the arguments of the boundary. *)
Fixpoint bcmp (a : Z) (bs : list QualKey) (it : BTItem) : Z :=
  match bs with
  | [] => 0
  | q :: bs => let c := attr_cmp (proc a) (att it a) (Some (q_argument q)) in if c =? 0 then bcmp (a + 1) bs it else c
  end.

Lemma holds_cmp a j q it : of_strategy a j q -> 1 <= a <= Zlen procs ->
  holds it q = match att it a with Some d => strat_test j (attr_cmp (proc a) (Some d) (Some (q_argument q))) | None => false end.
Proof.
  intros Hq Ha. unfold NbtQual.holds. rewrite (st_attno _ _ _ _ Hq).
  rewrite (holds_test fmgr strategy_map procs a (proc a) (proc_at procs a Ha) ltac:(lia) j q _ Hq). done.
Qed.

(** The strategy of a weak and of a strict bound. *)
Definition weak_strat (dir : ScanDirection) : Z := match dir with ForwardScanDirection => 4 | BackwardScanDirection => 2 end.
Definition strict_strat (dir : ScanDirection) : Z := match dir with ForwardScanDirection => 5 | BackwardScanDirection => 1 end.

Lemma near_strategy a dir lo hi j q : group_ok a (GRange lo hi) -> near dir lo hi = Some (j, q) ->
  of_strategy a j q /\ q ∈ flat (GRange lo hi) /\ 1 + Z.of_nat j = if strict j then strict_strat dir else weak_strat dir.
Proof.
  intros [Hlo Hhi] En. destruct dir; simpl in En; rewrite En.
  - destruct (Hlo _ En) as [Hj Hq]. simpl in Hj, Hq. pose proof (st_j _ _ _ _ Hq). split_and!; [done|by left|].
    by assert (j = 3 \/ j = 4)%nat as [-> | ->] by lia.
  - destruct (Hhi _ En) as [Hj Hq]. simpl in Hj, Hq. split_and!; [done|simpl; apply elem_of_app; right; by left|].
    by assert (j = 0 \/ j = 1)%nat as [-> | ->] by lia.
Qed.

Lemma bnd_strat dir gs : forall a st, groups_ok a gs ->
  (bnd dir st gs).2 = st \/ (bnd dir st gs).2 = weak_strat dir \/ (bnd dir st gs).2 = strict_strat dir.
Proof.
  induction gs as [|g gs IH]; intros a st Hg; [by left|]. destruct Hg as [Hg Hgs]. destruct g as [q|lo hi]; cbn [bnd].
  - specialize (IH (a + 1) st Hgs). by destruct (bnd dir st gs).
  - destruct (near dir lo hi) as [[j q]|] eqn:En; [|by left]. destruct (near_strategy a dir lo hi j q Hg En) as (_ & _ & Ej).
    destruct (strict j); [simpl; auto|]. specialize (IH (a + 1) (1 + Z.of_nat j) Hgs). destruct (bnd dir _ gs). simpl in *. rewrite Ej in IH. tauto.
Qed.

(** An item that matches is on the right side of the boundary. *)
Lemma boundary_match dir gs it : forall a st, groups_ok a gs -> 1 <= a -> a - 1 + Zlen gs <= Zlen procs -> total_ok dir st ->
  matches (flatten gs) it = true ->
  strat_test (Z.to_nat ((bnd dir st gs).2 - 1)) (bcmp a (bnd dir st gs).1 it) = true.
Proof.
  induction gs as [|g gs IH]; intros a st Hg Ha Hn Hst Hm; [destruct dir, Hst as [-> | ->]; done|]. destruct Hg as [Hg Hgs].
  cbn [length] in Hn. change (flatten (g :: gs)) with (flat g ++ flatten gs) in Hm. rewrite matches_app in Hm. apply andb_true_iff in Hm as [Hm1 Hm].
  assert (forall st', total_ok dir st' -> strat_test (Z.to_nat ((bnd dir st' gs).2 - 1)) (bcmp (a + 1) (bnd dir st' gs).1 it) = true) as Hrec.
  { intros st' Hst'. apply IH; try done; lia. }
  assert (forall j q, of_strategy a j q -> q ∈ flat g -> exists d, att it a = Some d /\ strat_test j (attr_cmp (proc a) (Some d) (Some (q_argument q))) = true) as Hh.
  { intros j q Hq Hel. unfold NbtQual.matches in Hm1. rewrite forallb_forall in Hm1. specialize (Hm1 q ltac:(by apply list_elem_of_In)).
    rewrite (holds_cmp a j q it Hq) in Hm1 by lia. destruct (att it a) as [d|]; [by exists d|done]. }
  destruct g as [q|lo hi]; cbn [bnd].
  - destruct (Hh 2%nat q Hg) as (d & Ed & Ht); [by left|]. simpl in Ht. apply Z.eqb_eq in Ht. specialize (Hrec st Hst).
    destruct (bnd dir st gs) as [bs s]. cbn [fst snd bcmp] in *. rewrite Ed. simpl. by rewrite Ht.
  - destruct (near dir lo hi) as [[j q]|] eqn:En; [|destruct dir, Hst as [-> | ->]; done].
    destruct (near_strategy a dir lo hi j q Hg En) as (Hq & Hel & Ej). destruct (Hh j q Hq Hel) as (d & Ed & Ht). destruct (strict j) eqn:Es.
    + cbn [fst snd bcmp]. rewrite Ed. replace (Z.to_nat (1 + Z.of_nat j - 1)) with j by lia.
      destruct (Z.eqb_spec (attr_cmp (proc a) (Some d) (Some (q_argument q))) 0) as [E|]; [by rewrite E in Ht|done].
    + rewrite Ej. specialize (Hrec (weak_strat dir) ltac:(by right)). pose proof (bnd_strat dir gs (a + 1) (weak_strat dir) Hgs) as Hs.
      destruct (bnd dir (weak_strat dir) gs) as [bs s]. cbn [fst snd bcmp] in *. rewrite Ed.
      destruct (Z.eqb_spec (attr_cmp (proc a) (Some d) (Some (q_argument q))) 0) as [E|Hne]; [done|].
      generalize dependent (attr_cmp (proc a) (Some d) (Some (q_argument q))). intros c Ht Hne. revert Ht.
      destruct dir; simpl in Ej, Hs; [assert (j = 3)%nat as -> by lia|assert (j = 1)%nat as -> by lia];
        destruct Hs as [-> | [-> | ->]]; simpl; rewrite ?Z.geb_leb, ?Z.gtb_ltb, ?Z.leb_le, ?Z.ltb_lt; lia.
Qed.

(** Two items in the order of the scan, from attribute [a] on. *)
Definition ordered_from (dir : ScanDirection) (a : Z) (z w : BTItem) : Prop :=
  let c := key_cmp (a - 1) (drop (Z.to_nat (a - 1)) procs) (t_key z) (t_key w) in
  match dir with ForwardScanDirection => c <= 0 | BackwardScanDirection => 0 <= c end.

Lemma ordered_head dir a z w : 1 <= a <= Zlen procs -> ordered_from dir a z w ->
  let c := attr_cmp (proc a) (att z a) (att w a) in
  match dir with ForwardScanDirection => c <= 0 | BackwardScanDirection => 0 <= c end /\ (c = 0 -> ordered_from dir (a + 1) z w).
Proof.
  intros Ha H c. unfold ordered_from in *. rewrite (drop_S _ _ _ (proc_at procs a Ha)) in H. cbn [key_cmp] in H. unfold lex in H.
  fold (att z a) in H. fold (att w a) in H. fold c in H. replace (a + 1 - 1) with (a - 1 + 1) by lia.
  replace (Z.to_nat (a - 1 + 1)) with (S (Z.to_nat (a - 1))) by lia.
  destruct dir, (Z.eqb_spec c 0) as [E|Hne]; simpl in H; (split; [lia|]); intros; done || lia.
Qed.

(** An item the scan can stand on. *)
Definition beyond (dir : ScanDirection) (s c : Z) : Prop :=
  match dir with ForwardScanDirection => 0 <= c /\ (s = 5 -> 0 < c) | BackwardScanDirection => c <= 0 /\ (s = 1 -> c < 0) end.

(** The comparison of an item with a key, as far as the start of the scan settles it. *)
Definition side (dir : ScanDirection) (j : nat) (c : Z) : Prop :=
  match dir with
  | ForwardScanDirection => ((2 <= j)%nat -> 0 <= c) /\ (j = 4%nat -> 0 < c)
  | BackwardScanDirection => ((j <= 2)%nat -> c <= 0) /\ (j = 0%nat -> c < 0)
  end.

(** A key that fails on an item of the scan fails on all that follow. *)
Lemma key_stop dir a j q z w : of_strategy a j q -> 1 <= a <= Zlen procs -> holds z q = false ->
  (att z a = None -> dir = ForwardScanDirection) -> ordered_from dir a z w ->
  side dir j (attr_cmp (proc a) (att z a) (Some (q_argument q))) -> holds w q = false.
Proof.
  intros Hq Ha Hz Hnull Ho Hs. destruct (ordered_head dir a z w Ha Ho) as [Hc _]. pose proof (st_j _ _ _ _ Hq) as Hj.
  rewrite (holds_cmp a j q z Hq Ha) in Hz. rewrite (holds_cmp a j q w Hq Ha). destruct (att w a) as [dw|]; [|done].
  assert (OrderProc (proc a)) as Hf by (eapply Forall_lookup_1; [exact Hprocs|by apply proc_at]).
  destruct (att z a) as [dz|].
  - simpl in *. order_facts Hf dz dw (q_argument q).
    destruct dir; destruct j as [|[|[|[|[|j]]]]]; try lia; simpl in *; rewrite ?Z.geb_leb, ?Z.gtb_ltb in *;
      rewrite ?Z.ltb_ge, ?Z.leb_gt, ?Z.eqb_neq in *; lia.
  - rewrite (Hnull eq_refl) in Hc. simpl in Hc. lia.
Qed.

(** What standing past the boundary says of its first key. *)
Lemma beyond_head dir s a q bs z : beyond dir s (bcmp a (q :: bs) z) ->
  let c := attr_cmp (proc a) (att z a) (Some (q_argument q)) in
  match dir with ForwardScanDirection => 0 <= c | BackwardScanDirection => c <= 0 end /\
  (c = 0 -> beyond dir s (bcmp (a + 1) bs z)) /\ (bs = [] -> s = strict_strat dir -> c <> 0).
Proof.
  intros H c. cbn [bcmp] in H. fold c in H. destruct (Z.eqb_spec c 0) as [E|Hne].
  - split_and!; [destruct dir; lia|done|]. intros -> ->. simpl in H. destruct dir; simpl in H; lia.
  - split_and!; [destruct dir; simpl in H; lia|done|done].
Qed.

Lemma near_side dir st a lo hi gs j q z : group_ok a (GRange lo hi) -> near dir lo hi = Some (j, q) ->
  beyond dir (bnd dir st (GRange lo hi :: gs)).2 (bcmp a (bnd dir st (GRange lo hi :: gs)).1 z) ->
  side dir j (attr_cmp (proc a) (att z a) (Some (q_argument q))).
Proof.
  intros Hg En. destruct (near_strategy a dir lo hi j q Hg En) as (_ & _ & Ej). cbn [bnd]. rewrite En. destruct (strict j) eqn:Es.
  - cbn [fst snd]. intros (H1 & _ & H3)%beyond_head. specialize (H3 eq_refl Ej). destruct dir; simpl in *; lia.
  - destruct (bnd dir (1 + Z.of_nat j) gs) as [bs s]. cbn [fst snd]. intros (H1 & _)%beyond_head. unfold strict in Es.
    apply orb_false_iff in Es as [E0 E4]. apply Nat.eqb_neq in E0, E4. destruct dir; simpl in *; lia.
Qed.

Lemma group_stop dir st a g gs z w q : group_ok a g -> 1 <= a <= Zlen procs -> q ∈ flat g ->
  beyond dir (bnd dir st (g :: gs)).2 (bcmp a (bnd dir st (g :: gs)).1 z) -> holds z q = false ->
  (att z a = None -> dir = ForwardScanDirection) -> ordered_from dir a z w -> holds w q = false.
Proof.
  intros Hg Ha Hq Hb Hz Hnull Ho. destruct g as [e|lo hi].
  - apply list_elem_of_singleton in Hq as ->. apply (key_stop dir a 2 e z w Hg Ha Hz Hnull Ho). cbn [bnd] in Hb.
    destruct (bnd dir st gs) as [bs s]. cbn [fst snd] in Hb. apply beyond_head in Hb as [Hc _]. destruct dir; simpl in *; lia.
  - pose proof (fun j q' => near_side dir st a lo hi gs j q' z Hg) as Hside. destruct Hg as [Hlo Hhi].
    simpl in Hq. apply elem_of_app in Hq as [Hq|Hq]; [destruct lo as [[j q']|]|destruct hi as [[j q']|]]; try (by apply elem_of_nil in Hq);
      apply list_elem_of_singleton in Hq as ->; [destruct (Hlo _ eq_refl) as [Hj Hs]|destruct (Hhi _ eq_refl) as [Hj Hs]];
      simpl in Hj, Hs, Hz |- *; apply (key_stop dir a j q' z w Hs Ha Hz Hnull Ho); (destruct dir; [|]);
      first [by apply (Hside j q' eq_refl)|simpl; lia].
Qed.

Lemma stop_sound dir gs z w : forall a st pre q post, groups_ok a gs -> 1 <= a -> a - 1 + Zlen gs <= Zlen procs ->
  flatten gs = pre ++ q :: post -> matches pre z = true -> holds z q = false -> Zlen pre < required gs ->
  (att z (q_attno q) = None -> dir = ForwardScanDirection) ->
  beyond dir (bnd dir st gs).2 (bcmp a (bnd dir st gs).1 z) -> ordered_from dir a z w -> matches (flatten gs) w = false.
Proof.
  induction gs as [|g gs IH]; intros a st pre q post Hg Ha Hn Ef Hpre Hz Hreq Hnull Hb Ho; [simpl in Hreq; lia|].
  destruct Hg as [Hg Hgs]. cbn [length] in Hn. change (flatten (g :: gs)) with (flat g ++ flatten gs) in *. rewrite matches_app.
  destruct (decide (length pre < length (flat g))%nat) as [Hin|Hout].
  - assert (q ∈ flat g) as Hq.
    { apply list_elem_of_lookup. exists (length pre). rewrite <- (lookup_app_l (flat g) (flatten gs)) by done. rewrite Ef.
      by rewrite list_lookup_middle. }
    rewrite (group_attno strategy_map a g q Hg Hq) in Hnull.
    assert (holds w q = false) as Hw by (eapply (group_stop dir st a g gs z w q); try done; lia).
    assert (matches (flat g) w = false) as ->; [|done]. apply not_true_is_false. unfold NbtQual.matches. rewrite forallb_forall. intros H.
    by rewrite (H q) in Hw by by apply list_elem_of_In.
  - cbn [required] in Hreq. destruct (is_eq g) eqn:Eg; [|lia]. destruct g as [e|]; [|done]. simpl in Ef, Hout, Hreq.
    destruct pre as [|e' pre]; [simpl in Hout; lia|]. injection Ef as <- Ef. simpl in Hpre. apply andb_true_iff in Hpre as [He Hpre].
    destruct (matches (flat (GEq e)) w) eqn:Hw; [|done]. simpl in Hw. rewrite andb_true_r in Hw. cbn [andb].
    rewrite (holds_cmp a 2 e) in He, Hw by (done || lia). cbn [bnd] in Hb. specialize (IH (a + 1) st pre q post Hgs).
    destruct (bnd dir st gs) as [bs s]. cbn [fst snd] in *. apply beyond_head in Hb as (_ & Hb & _).
    destruct (ordered_head dir a z w ltac:(lia) Ho) as [_ Ho'].
    assert (OrderProc (attr_cmp (proc a))) as Hf by (apply attr_cmp_order; eapply Forall_lookup_1; [exact Hprocs|apply proc_at; lia]).
    destruct (att z a) as [dz|]; [|done]. destruct (att w a) as [dw|]; [|done]. cbn [strat_test] in He, Hw. apply Z.eqb_eq in He, Hw.
    order_facts Hf (Some dz) (Some dw) (Some (q_argument e)).
    apply IH; try done; [lia|lia|simpl in Hreq; lia|by apply Hb|apply Ho'; lia].
Qed.
End Boundary.

(** ** The first item of a scan *)

Lemma mkscankey_length procs it : Zlen (_bt_mkscankey procs it) = Zlen procs.
Proof.
  unfold _bt_mkscankey. generalize 0. induction procs as [|f procs IH]; intros i; [done|].
  cbn [mkscankey_loop]. destruct (index_getattr it (i + 1)). cbn [length]. specialize (IH (i + 1)). lia.
Qed.

Section Start.
Context (procs : procs_t) (Hprocs : Forall OrderProc procs) (it : BTItem) (idx : Index) (L : list level).
Context (Ht : tree_ok procs idx L) (C : level) (HC : L !! 0%nat = Some C).
Let n := Zlen procs.
Let sk := _bt_mkscankey procs it.
Local Notation data := (level_data C).
Local Notation first p := (P_FIRSTDATAKEY (opaque p)).
Local Notation cmp z := (key_cmp 0 procs (t_key it) (t_key z.2)).
Let Hlv : leaves idx C := tree_leaves procs idx L Ht C HC.

(** Item number [k], or nothing behind the last one. *)
Definition on_or_end (k : nat) (r : result (option position)) : Prop :=
  if decide (k < length data)%nat then exists c, r = Ok (Some c) /\ at_pos C k c else r = Ok None.

(** The search finds the first item not below the key. *)
Lemma lower_bound alloc : exists d1 y d2 st lb, let o := _bt_binsrch y.2 n sk in
  _bt_search alloc idx n sk false = Ok (Some (st, y.1), idx) /\ C = d1 ++ y :: d2 /\
  first y.2 <= o <= PageGetMaxOffsetNumber y.2 + 1 /\ Z.of_nat lb = Zlen (level_data d1) + (o - first y.2) /\
  forall k z, data !! k = Some z -> ((k < lb)%nat -> 0 < cmp z) /\ ((lb <= k)%nat -> cmp z <= 0).
Proof.
  destruct (tree_search_spec procs n it idx L Hprocs Ht alloc false) as (D & d1 & y & d2 & st & E & HD & ED & Htg & _).
  rewrite HC in HD. injection HD as <-. destruct (leaf_page idx C Hlv d1 y d2 ED) as (_ & Hy & _).
  pose proof (level_in_pages _ _ _ (lv_in _ _ Hlv)) as Hin. pose proof (t_leaves _ _ _ Ht C HC) as Hs.
  destruct (target_meaning procs n it C d1 y d2 Hprocs Hin Hs (tree_hk_sorted _ _ _ _ _ Hprocs Ht HC) ED Htg) as [Hl Hr].
  unfold n in Hl, Hr. rewrite cp_all in Hl, Hr. destruct (leaf_binsrch procs it Hprocs y.2 Hy) as [R1 R2].
  { rewrite ED, spine_app in Hs. apply StronglySorted_app_iff in Hs as (_ & Hs & _).
    change (spine (y :: d2)) with ((data_lines y.2 ++ hikey_lines y.2) ++ spine d2) in Hs.
    apply StronglySorted_app_iff in Hs as (Hs & _ & _). by apply StronglySorted_app_iff in Hs as (Hs & _ & _). }
  fold n sk in R1, R2. exists d1, y, d2, st, (length (level_data d1) + Z.to_nat (_bt_binsrch y.2 n sk - first y.2))%nat.
  split_and!; [done|done|lia|lia|lia|]. intros k z Hz. rewrite (data_split C _ _ _ ED) in Hz.
  apply lookup_app_Some in Hz as [Hz|[Hk Hz]].
  { split; intros; [|apply lookup_lt_Some in Hz; lia]. apply Hl. by eapply list_elem_of_lookup_2. }
  destruct (page_data idx C Hlv _ _ _ ED) as (Hdl & _ & _). apply lookup_app_Some in Hz as [Hz|[Hk2 Hz]].
  - destruct (R2 _ z Hz) as [R3 R4]. split; intros; [apply R3|apply R4]; lia.
  - split; intros; [lia|]. apply Hr. by eapply list_elem_of_lookup_2.
Qed.

Lemma on_item_spec d1 y d2 o k : C = d1 ++ y :: d2 -> first y.2 <= o <= PageGetMaxOffsetNumber y.2 + 1 ->
  Z.of_nat k = Zlen (level_data d1) + (o - first y.2) -> on_or_end k (on_item idx (y.1, o)).
Proof.
  intros E Ho Hk. destruct (leaf_page idx C Hlv _ _ _ E) as (Hpg & _ & _). destruct (page_data idx C Hlv _ _ _ E) as (Hdl & Hf1 & _).
  unfold on_or_end, on_item, getpage. cbn [fst snd]. rewrite Hpg. cbn [mbind result_bind]. rewrite Z.gtb_ltb.
  destruct (Z.ltb_spec (PageGetMaxOffsetNumber y.2) o) as [Hlt|Hge].
  - pose proof (step_forward idx C Hlv d1 y d2 o E ltac:(lia)) as Hs. cbn zeta in Hs.
    by replace (length (level_data d1) + _)%nat with k in Hs by lia.
  - rewrite decide_True by (rewrite (data_split C _ _ _ E), !length_app; lia). eexists. split; [done|].
    exists d1, y, d2. cbn [fst snd]. split_and!; [done|done|lia|lia|lia].
Qed.

Lemma compare_at k c z : at_pos C k c -> data !! k = Some z -> exists p, pages idx !! c.1 = Some p /\ _bt_compare (Zlen sk) sk p c.2 = cmp z.
Proof.
  intros Hc Hz. destruct (at_pos_item idx C Hlv k c Hc) as (p & z' & Hpg & Hg & Hz' & Hleaf & _). simplify_eq.
  exists p. split; [done|]. unfold sk. rewrite mkscankey_length, bt_compare_key, cp_all by by left. by rewrite Hg.
Qed.

Lemma at_pos_forward k c : at_pos C k c -> on_or_end (S k) (_bt_step idx c ForwardScanDirection).
Proof.
  intros Hc. pose proof (at_pos_lt idx C Hlv k c Hc) as Hlt.
  pose proof (dstep idx C Hlv ForwardScanDirection k c (conj Hlt Hc)) as Hs. unfold on_or_end. destruct (decide (S k < length data)%nat); [|done].
  destruct Hs as (c' & Es & _ & Hc'). by exists c'.
Qed.

Lemma at_pos_backward k c : at_pos C k c ->
  if decide (k = 0)%nat then _bt_step idx c BackwardScanDirection = Ok None
  else exists c', _bt_step idx c BackwardScanDirection = Ok (Some c') /\ at_pos C (pred k) c'.
Proof.
  intros (d1 & x & d2 & E & Eb & Ho & Hk). destruct c as [b off]. cbn [fst snd] in *. subst b.
  destruct (page_data idx C Hlv _ _ _ E) as (_ & Hf1 & _).
  pose proof (step_backward idx C Hlv d1 x d2 off E ltac:(lia)) as Hs. cbn zeta in Hs.
  by replace (length (level_data d1) + _)%nat with k in Hs by lia.
Qed.

Lemma skip_spec test fuel : forall k c, at_pos C k c -> (length data - k <= fuel)%nat ->
  exists k', (k <= k' <= length data)%nat /\ (forall i z, (k <= i < k')%nat -> data !! i = Some z -> test (cmp z) = true) /\
    (forall z, data !! k' = Some z -> test (cmp z) = false) /\ on_or_end k' (skip_while fuel test idx sk c).
Proof.
  induction fuel as [|fuel IH]; intros k c Hc Hf; pose proof (at_pos_lt idx C Hlv k c Hc) as Hlt; [lia|]. cbn [skip_while].
  destruct (lookup_lt_is_Some_2 data k Hlt) as [z Hz]. destruct (compare_at k c z Hc Hz) as (p & Hpg & Ec).
  unfold getpage. rewrite Hpg. cbn [mbind result_bind]. rewrite Ec. destruct (test (cmp z)) eqn:Et.
  - pose proof (at_pos_forward k c Hc) as Hs. unfold on_or_end in Hs. destruct (decide (S k < length data)%nat) as [Hlt'|Hge].
    + destruct Hs as (c' & -> & Hc'). cbn [mbind result_bind]. destruct (IH (S k) c' Hc' ltac:(lia)) as (k' & Hk & H1 & H2 & H3).
      exists k'. split_and!; [lia|lia| |done|done]. intros i w Hi Hw. destruct (decide (i = k)) as [->|]; [by simplify_eq|].
      apply (H1 i w); [lia|done].
    + exists (length data). rewrite Hs. cbn [mbind result_bind]. split_and!; [lia|lia| | |].
      * intros i w Hi Hw. assert (i = k) as -> by lia. by simplify_eq.
      * intros w Hw. apply lookup_lt_Some in Hw. lia.
      * unfold on_or_end. by rewrite decide_False by lia.
  - exists k. split_and!; [lia|lia|lia|intros w Hw; by simplify_eq|]. unfold on_or_end. rewrite decide_True by done. by exists c.
Qed.

(** Between [lb] and [ub] are the items equal to the key. *)
Definition bounds (lb ub : nat) : Prop := (lb <= ub <= length data)%nat /\
  forall k z, data !! k = Some z -> ((k < lb)%nat -> 0 < cmp z) /\ ((lb <= k < ub)%nat -> cmp z = 0) /\ ((ub <= k)%nat -> cmp z < 0).

Lemma bounds_exist lb ub : (lb <= ub <= length data)%nat ->
  (forall k z, data !! k = Some z -> ((k < lb)%nat -> 0 < cmp z) /\ ((lb <= k)%nat -> cmp z <= 0)) ->
  (forall k z, (lb <= k < ub)%nat -> data !! k = Some z -> cmp z = 0) -> (forall z, data !! ub = Some z -> cmp z <> 0) -> bounds lb ub.
Proof.
  intros Hle Hlb Hmid Hub. split; [done|]. intros k z Hz. destruct (Hlb k z Hz) as [H1 H2]. split_and!; [done|intros; by eapply Hmid|].
  intros Hk. destruct (lookup_lt_is_Some_2 data ub) as [w Hw]; [apply lookup_lt_Some in Hz; lia|]. specialize (Hub w Hw).
  destruct (decide (k = ub)) as [->|Hne]; [simplify_eq; lia|]. destruct (Hlb ub w Hw) as [_ Hw2]. specialize (Hw2 ltac:(lia)).
  pose proof (StronglySorted_sublist _ _ _ (spine_sublist C) (t_leaves _ _ _ Ht C HC)) as Hs.
  assert (key_le procs w z) as Hwz by (eapply StronglySorted_lookup; [exact Hs| |exact Hw|exact Hz]; lia). unfold key_le in Hwz.
  order_facts (key_cmp_order procs Hprocs 0) (t_key it) (t_key w.2) (t_key z.2). lia.
Qed.

(** Skipping from the first of the equal items. *)
Lemma skip_equal test lb c : (forall x, x <= 0 -> test x = (x =? 0)) -> at_pos C lb c ->
  (forall k z, data !! k = Some z -> ((k < lb)%nat -> 0 < cmp z) /\ ((lb <= k)%nat -> cmp z <= 0)) ->
  exists ub, bounds lb ub /\ on_or_end ub (skip_while (scan_fuel idx) test idx sk c).
Proof.
  intros Htest Hc Hlb. pose proof (data_bound idx C Hlv) as Hb.
  destruct (skip_spec test (scan_fuel idx) lb c Hc ltac:(lia)) as (ub & Hle & H1 & H2 & H3). exists ub. split; [|done].
  apply bounds_exist; [done|done| |].
  - intros k z Hk Hz. specialize (H1 k z Hk Hz). destruct (Hlb k z Hz) as [_ H]. rewrite Htest in H1 by (apply H; lia). by apply Z.eqb_eq.
  - intros z Hz. specialize (H2 z Hz). destruct (Hlb ub z Hz) as [_ H]. rewrite Htest in H2 by (apply H; lia). by apply Z.eqb_neq.
Qed.

(** Number [t] of the data divides the items the scan may stop on from those it passes over. *)
Definition cut_ok (dir : ScanDirection) (s : Z) (t : nat) : Prop := (t <= length data)%nat /\ forall k z, data !! k = Some z ->
  let skipped := strat_test (Z.to_nat (s - 1)) (- cmp z) = false in
  match dir with
  | ForwardScanDirection => ((k < t)%nat -> skipped) /\ ((t <= k)%nat -> beyond dir s (- cmp z))
  | BackwardScanDirection => ((t <= k)%nat -> skipped) /\ ((k < t)%nat -> beyond dir s (- cmp z))
  end.

(** The same in the order of the scan. *)
Definition cut_dl (dir : ScanDirection) (t : nat) : nat :=
  match dir with ForwardScanDirection => t | BackwardScanDirection => length data - t end.

Lemma cut_ok_dl dir s t i z : cut_ok dir s t -> dl C dir !! i = Some z ->
  ((i < cut_dl dir t)%nat -> strat_test (Z.to_nat (s - 1)) (- cmp z) = false) /\ ((cut_dl dir t <= i)%nat -> beyond dir s (- cmp z)).
Proof.
  intros [Hle H] Hz. destruct dir; simpl in *; [by apply H|]. pose proof (lookup_lt_Some _ _ _ Hz) as Hi. rewrite length_reverse in Hi.
  rewrite reverse_lookup in Hz by done. destruct (H _ z Hz) as [H1 H2]. split; intros; [apply H1|apply H2]; lia.
Qed.

(** What the switch leaves. *)
Definition started (dir : ScanDirection) (s : Z) (r : result start) : Prop := exists t, cut_ok dir s t /\
  match r with
  | Ok (StartAt c) => dpos C dir (cut_dl dir t) c
  | Ok StartEndpoint => cut_dl dir t = 0%nat
  | Ok StartNowhere => cut_dl dir t = length data
  | Err _ => False
  end.

Lemma cut_lb dir s lb : (lb <= length data)%nat -> s = match dir with ForwardScanDirection => 4 | BackwardScanDirection => 1 end ->
  (forall k z, data !! k = Some z -> ((k < lb)%nat -> 0 < cmp z) /\ ((lb <= k)%nat -> cmp z <= 0)) -> cut_ok dir s lb.
Proof.
  intros Hle -> H. split; [lia|]. intros k z Hz. destruct (H k z Hz) as (H1 & H2). destruct dir; simpl; split; intros Hk;
    rewrite ?Z.geb_leb, ?Z.leb_gt, ?Z.ltb_ge; lia.
Qed.

Lemma cut_ub dir s lb ub : bounds lb ub -> s = match dir with ForwardScanDirection => 5 | BackwardScanDirection => 2 end -> cut_ok dir s ub.
Proof.
  intros [Hle H] ->. split; [lia|]. intros k z Hz. destruct (H k z Hz) as (H1 & H2 & H3). destruct dir; simpl; split; intros Hk;
    rewrite ?Z.gtb_ltb, ?Z.leb_gt, ?Z.ltb_ge; lia.
Qed.

Lemma cut_eq dir lb ub : bounds lb ub ->
  cut_ok dir 3 (match dir with ForwardScanDirection => if decide (lb = ub) then length data else lb
                             | BackwardScanDirection => if decide (lb = ub) then 0 else ub end)%nat.
Proof.
  intros [Hle H]. split; [destruct dir; case_decide; lia|]. intros k z Hz. destruct (H k z Hz) as (H1 & H2 & H3).
  pose proof (lookup_lt_Some _ _ _ Hz). destruct dir; simpl; case_decide; split; intros Hk; rewrite ?Z.eqb_neq; lia.
Qed.

Section Switch.
Context (d1 : level) (y : Z * BTPage) (d2 : level) (o : Z) (lb : nat).
Context (E : C = d1 ++ y :: d2) (Ho : first y.2 <= o <= PageGetMaxOffsetNumber y.2 + 1).
Context (Elb : Z.of_nat lb = Zlen (level_data d1) + (o - first y.2)).
Context (Hlb : forall k z, data !! k = Some z -> ((k < lb)%nat -> 0 < cmp z) /\ ((lb <= k)%nat -> cmp z <= 0)).

Lemma lb_le : (lb <= length data)%nat.
Proof. destruct (page_data idx C Hlv _ _ _ E) as (Hdl & _ & _). rewrite (data_split C _ _ _ E), !length_app. lia. Qed.

(** Everything is below the key. *)
Lemma bounds_end : ~ (lb < length data)%nat -> bounds lb lb.
Proof. intros Hge. pose proof lb_le. apply bounds_exist; [lia|done|lia|]. intros z Hz. apply lookup_lt_Some in Hz. lia. Qed.

(** One step back from item number [k], to the last item of the cut. *)
Lemma step_back_started s k c : at_pos C k c -> cut_ok BackwardScanDirection s k ->
  exists r, _bt_step idx c BackwardScanDirection = Ok r /\ (r = None -> k = 0%nat) /\
    started BackwardScanDirection s (Ok (match r with Some cur => StartAt cur | None => StartNowhere end)).
Proof.
  intros Hc Hk. pose proof (at_pos_lt idx C Hlv k c Hc) as Hlt. pose proof (at_pos_backward k c Hc) as Hs. destruct (decide (k = 0)%nat) as [E0|Hne].
  - eexists. split_and!; [exact Hs|done|]. exists k. split; [done|]. cbn [cut_dl]. lia.
  - destruct Hs as (c' & Hs & Hc'). eexists. split_and!; [exact Hs|done|]. exists k. split; [done|]. cbn [cut_dl]. split; [lia|].
    by replace (length data - 1 - (length data - k))%nat with (pred k) by lia.
Qed.

Lemma on_item_lb : on_or_end lb (on_item idx (y.1, o)).
Proof. by apply (on_item_spec d1 y d2). Qed.

Lemma start_less : started BackwardScanDirection 1 (start_position idx sk 1 BackwardScanDirection (y.1, o)).
Proof.
  unfold start_position. cbn [Z.eqb Pos.eqb BTLessStrategyNumber]. destruct (page_data idx C Hlv _ _ _ E) as (_ & Hf1 & _). pose proof lb_le as Hle.
  pose proof (step_backward idx C Hlv d1 y d2 o E ltac:(lia)) as Hs. cbn zeta in Hs.
  replace (length (level_data d1) + _)%nat with lb in Hs by lia. exists lb. split; [by apply cut_lb|].
  destruct (decide (lb = 0)%nat); [rewrite Hs; cbn [mbind result_bind cut_dl]; lia|]. destruct Hs as (c & -> & Hc). cbn [mbind result_bind cut_dl].
  split; [lia|]. by replace (length data - 1 - (length data - lb))%nat with (pred lb) by lia.
Qed.

Lemma start_less_equal : started BackwardScanDirection 2 (start_position idx sk 2 BackwardScanDirection (y.1, o)).
Proof.
  unfold start_position. cbn [Z.eqb Pos.eqb BTLessStrategyNumber BTLessEqualStrategyNumber]. pose proof on_item_lb as Hi. unfold on_or_end in Hi.
  destruct (decide (lb < length data)%nat) as [Hlt|Hge].
  - destruct Hi as (c & -> & Hc). cbn [mbind result_bind].
    destruct (skip_equal (fun result => negb (result <? 0)) lb c) as (ub & Hb & Hs); [|done|done|].
    { intros x Hx. destruct (Z.ltb_spec x 0), (Z.eqb_spec x 0); lia || done. }
    unfold on_or_end in Hs. pose proof (cut_ub BackwardScanDirection 2 lb ub Hb eq_refl) as Hcut. destruct (decide (ub < length data)%nat) as [Hlt'|Hge'].
    + destruct Hs as (c' & -> & Hc'). cbn [mbind result_bind]. destruct (step_back_started 2 ub c' Hc' Hcut) as (r & -> & _ & Hr). by destruct r.
    + rewrite Hs. cbn [mbind result_bind]. exists ub. split; [done|]. cbn [cut_dl]. lia.
  - rewrite Hi. cbn [mbind result_bind]. exists lb. pose proof lb_le. split; [|cbn [cut_dl]; lia]. by apply (cut_ub _ _ lb); [apply bounds_end|].
Qed.

Lemma start_equal dir : started dir 3 (start_position idx sk 3 dir (y.1, o)).
Proof.
  unfold start_position. cbn [Z.eqb Pos.eqb BTLessStrategyNumber BTLessEqualStrategyNumber BTEqualStrategyNumber].
  pose proof on_item_lb as Hi. pose proof lb_le as Hle. unfold on_or_end in Hi.
  assert (bounds lb lb -> started dir 3 (Ok StartNowhere)) as Hno.
  { intros Hb. pose proof (cut_eq dir lb lb Hb) as Hcut. destruct dir; rewrite decide_True in Hcut by done;
      (eexists; split; [exact Hcut|]); cbn [cut_dl]; lia. }
  destruct (decide (lb < length data)%nat) as [Hlt|Hge].
  - destruct Hi as (c & -> & Hc). cbn [mbind result_bind]. destruct (lookup_lt_is_Some_2 data lb Hlt) as [z Hz].
    destruct (compare_at lb c z Hc Hz) as (p & Hpg & Ec). unfold getpage. rewrite Hpg. cbn [mbind result_bind]. rewrite Ec.
    destruct (Z.eqb_spec (cmp z) 0) as [E0|Hne]; cbn [negb].
    2:{ apply Hno. apply bounds_exist; [lia|done|lia|]. intros w Hw. by simplify_eq. }
    destruct (skip_equal (fun result => result =? 0) lb c) as (ub & Hb & Hs); [done|done|done|].
    assert (lb < ub)%nat as Hlu. { destruct Hb as [Hb1 Hb]. destruct (Hb lb z Hz) as (_ & _ & H). destruct (decide (lb = ub)%nat); lia. }
    pose proof (cut_eq dir lb ub Hb) as Hcut. destruct dir; cbn [ScanDirectionIsBackward ScanDirectionIsForward negb]; rewrite decide_False in Hcut by lia.
    { exists lb. by split. }
    unfold on_or_end in Hs. destruct (decide (ub < length data)%nat) as [Hlt'|Hge'].
    + destruct Hs as (c' & -> & Hc'). cbn [mbind result_bind]. destruct (step_back_started 3 ub c' Hc' Hcut) as (r & -> & Hn & Hr). cbn [mbind result_bind].
      destruct r; [done|]. specialize (Hn eq_refl). lia.
    + rewrite Hs. cbn [mbind result_bind]. exists ub. split; [done|]. cbn [cut_dl]. lia.
  - rewrite Hi. cbn [mbind result_bind]. by apply Hno, bounds_end.
Qed.

Lemma start_greater_equal : started ForwardScanDirection 4 (start_position idx sk 4 ForwardScanDirection (y.1, o)).
Proof.
  unfold start_position. cbn [Z.eqb Pos.eqb BTLessStrategyNumber BTLessEqualStrategyNumber BTEqualStrategyNumber BTGreaterEqualStrategyNumber].
  pose proof on_item_lb as Hi. pose proof lb_le. exists lb. split; [by apply cut_lb|]. unfold on_or_end in Hi. destruct (decide (lb < length data)%nat).
  - destruct Hi as (c & -> & Hc). by cbn [mbind result_bind].
  - rewrite Hi. cbn [mbind result_bind cut_dl]. lia.
Qed.

Lemma start_greater : started ForwardScanDirection 5 (start_position idx sk 5 ForwardScanDirection (y.1, o)).
Proof.
  unfold start_position.
  cbn [Z.eqb Pos.eqb BTLessStrategyNumber BTLessEqualStrategyNumber BTEqualStrategyNumber BTGreaterEqualStrategyNumber BTGreaterStrategyNumber].
  pose proof on_item_lb as Hi. pose proof lb_le. unfold on_or_end in Hi. destruct (decide (lb < length data)%nat).
  - destruct Hi as (c & -> & Hc). cbn [mbind result_bind].
    destruct (skip_equal (fun result => result =? 0) lb c) as (ub & Hb & Hs); [done|done|done|].
    exists ub. split; [by apply (cut_ub _ _ lb)|]. destruct Hb as [Hb _]. unfold on_or_end in Hs. destruct (decide (ub < length data)%nat).
    + destruct Hs as (c' & -> & Hc'). by cbn [mbind result_bind].
    + rewrite Hs. cbn [mbind result_bind cut_dl]. lia.
  - rewrite Hi. cbn [mbind result_bind]. exists lb. split; [|cbn [cut_dl]; lia]. by apply (cut_ub _ _ lb); [apply bounds_end|].
Qed.
End Switch.
End Start.

(** ** The whole scan *)

(** A tree in order is in order by a prefix of the attributes. *)
Lemma tree_ok_prefix procs idx L k : tree_ok procs idx L -> tree_ok (take k procs) idx L.
Proof.
  intros [H1 H2 H3]. split; [done|done|]. intros C HC. specialize (H3 C HC). induction H3 as [|x l _ IH Hx]; [constructor|].
  constructor; [done|]. eapply Forall_impl; [exact Hx|]. intros y Hy. by apply key_cmp_prefix.
Qed.

(** The search key as the key of an item. *)
Definition boundary_item (bs : list QualKey) : BTItem := mkBTItem 0 0 0 (map (fun q => Some (q_argument q)) bs).

Lemma aget_middle {A} (d : A) pre x post : aget d (pre ++ x :: post) (Zlen pre) = x.
Proof. unfold aget. destruct (Z.ltb_spec (Zlen pre) 0); [lia|]. by rewrite Nat2Z.id, list_lookup_middle. Qed.

Lemma first_scankeys_spec bs : forall procs pre it, t_key it = pre ++ map (fun q => Some (q_argument q)) bs ->
  Forall (fun q => q_flags q = 0) bs -> (length bs <= length procs)%nat ->
  first_scankeys (Zlen pre) bs procs = Ok (mkscankey_loop (Zlen pre) (take (length bs) procs) it).
Proof.
  induction bs as [|q bs IH]; intros procs pre it Hk Hf Hl; [done|]. destruct procs as [|f procs]; [simpl in Hl; lia|].
  apply Forall_cons in Hf as [Hq Hf]. cbn [first_scankeys length take mkscankey_loop]. rewrite Hq. change (0 .& SK_ISNULL) with false. cbn iota.
  specialize (IH procs (pre ++ [Some (q_argument q)]) it). rewrite length_app in IH. cbn [length] in IH.
  replace (Z.of_nat (length pre + 1)) with (Zlen pre + 1) in IH by lia.
  rewrite IH; [|by rewrite Hk, <- (assoc_L (++))|done|simpl in Hl; lia]. cbn [mbind result_bind]. unfold index_getattr.
  rewrite Z.add_simpl_r, Hk. cbn [map]. by rewrite aget_middle.
Qed.

Lemma bcmp_key procs bs z : forall a pre, 1 <= a -> Zlen pre = a - 1 -> a - 1 + Zlen bs <= Zlen procs ->
  key_cmp (a - 1) (take (length bs) (drop (Z.to_nat (a - 1)) procs)) (t_key z) (pre ++ map (fun q => Some (q_argument q)) bs) = bcmp procs a bs z.
Proof.
  induction bs as [|q bs IH]; intros a pre Ha Hpre Hn; [done|]. cbn [length] in Hn.
  rewrite (drop_S _ _ _ (proc_at procs a ltac:(lia))). cbn [length take key_cmp bcmp map]. unfold lex. rewrite <- Hpre, aget_middle.
  rewrite Hpre. fold (att z a). destruct (attr_cmp _ _ _ =? 0); [|done]. cbn [negb].
  specialize (IH (a + 1) (pre ++ [Some (q_argument q)])). rewrite <- (assoc_L (++)) in IH. cbn [app] in IH.
  replace (S (Z.to_nat (a - 1))) with (Z.to_nat (a + 1 - 1)) by lia. replace (a - 1 + 1) with (a + 1 - 1) by lia.
  apply IH; [lia|rewrite length_app; simpl; lia|lia].
Qed.

Section Whole.
Context (fmgr : Z -> Datum -> Datum -> bool) (strategy_map : Z -> list Z) (procs : procs_t).
Context `{Hops : !StrategyOps fmgr strategy_map procs} (Hprocs : Forall OrderProc procs).
Context (alloc : gmap Z BTPage -> Z) (idx : Index).
Local Notation groups_ok := (groups_ok strategy_map).
Local Notation matches := (matches fmgr).

Lemma group_strategies a g : group_ok strategy_map a g -> Forall (fun q => exists j, of_strategy strategy_map (q_attno q) j q) (flat g).
Proof.
  intros Hg. apply Forall_forall. intros q Hq. rewrite (group_attno strategy_map a g q Hg Hq). destruct g as [e|lo hi].
  - apply list_elem_of_singleton in Hq as ->. by exists 2%nat.
  - destruct Hg as [Hlo Hhi]. simpl in Hq. apply elem_of_app in Hq as [Hq|Hq]; [destruct lo as [x|]|destruct hi as [x|]];
      try (by apply elem_of_nil in Hq); apply list_elem_of_singleton in Hq as ->; exists x.1; [by apply Hlo|by apply Hhi].
Qed.

Lemma flatten_strategies gs : forall a, groups_ok a gs -> Forall (fun q => exists j, of_strategy strategy_map (q_attno q) j q) (flatten gs).
Proof.
  induction gs as [|g gs IH]; intros a H; [constructor|]. destruct H as [Hg H]. apply Forall_app. split; [by eapply group_strategies|by eapply IH].
Qed.

(** The keys of the boundary. *)
Lemma bnd_keys dir gs : forall a st, groups_ok a gs -> (length (bnd dir st gs).1 <= length gs)%nat /\
  Forall (fun q => q_flags q = 0) (bnd dir st gs).1 /\ ((bnd dir st gs).1 = [] -> (bnd dir st gs).2 = st).
Proof.
  induction gs as [|g gs IH]; intros a st Hg; [by split_and!|]. destruct Hg as [Hg Hgs]. destruct g as [q|lo hi]; cbn [bnd].
  - destruct (IH (a + 1) st Hgs) as (H1 & H2 & _). destruct (bnd dir st gs) as [bs s]. cbn [fst snd length] in *.
    split_and!; [lia|constructor; [by apply (st_flags _ _ _ _ Hg)|done]|done].
  - destruct (near dir lo hi) as [[j q]|] eqn:En; [|cbn [fst snd length]; split_and!; [lia|constructor|done]].
    destruct (near_strategy strategy_map a dir lo hi j q Hg En) as (Hq & _ & _). pose proof (st_flags _ _ _ _ Hq) as Hf. destruct (strict j).
    + cbn [fst snd length]. split_and!; [lia|by repeat constructor|done].
    + destruct (IH (a + 1) (1 + Z.of_nat j) Hgs) as (H1 & H2 & _). destruct (bnd dir _ gs) as [bs s]. cbn [fst snd length] in *.
      split_and!; [lia|by constructor|done].
Qed.

(** Only the sign of a comparison counts. *)
Lemma strat_test_sign j c c' : (c < 0 <-> c' < 0) -> (0 < c <-> 0 < c') -> strat_test j c = strat_test j c'.
Proof. intros. destruct j as [|[|[|[|j]]]]; strat_bool; lia. Qed.
Lemma beyond_sign dir s c c' : (c < 0 <-> c' < 0) -> (0 < c <-> 0 < c') -> beyond dir s c -> beyond dir s c'.
Proof. intros. destruct dir; simpl in *; lia. Qed.

Section InTree.
Context (L : list level) (Ht : tree_ok procs idx L) (C : level) (HC : L !! 0%nat = Some C).
Local Notation data := (level_data C).
Context (dir : ScanDirection) (gs : list group) (Hgs : groups_ok 1 gs) (Hn : Zlen gs <= Zlen procs).
Let bs := (bnd dir 3 gs).1.
Let s := (bnd dir 3 gs).2.

(** Nothing before number [m] matches, and what is from there on is past the boundary. *)
Definition start_ok (m : nat) : Prop := forall i z, dl C dir !! i = Some z ->
  ((i < m)%nat -> matches (flatten gs) z.2 = false) /\ ((m <= i)%nat -> beyond dir s (bcmp procs 1 bs z.2)).

Lemma bs_length : (length bs <= length procs)%nat.
Proof. destruct (bnd_keys dir gs 1 3 Hgs) as (H & _ & _). fold bs in H. lia. Qed.

(** The comparison of the search and the boundary. *)
Lemma search_cmp z : let c := - key_cmp 0 (take (length bs) procs) (t_key (boundary_item bs)) (t_key z) in
  (c < 0 <-> bcmp procs 1 bs z < 0) /\ (0 < c <-> 0 < bcmp procs 1 bs z).
Proof.
  pose proof bs_length as Hl. pose proof (bcmp_key procs bs z 1 [] ltac:(lia) eq_refl ltac:(lia)) as E. rewrite <- E. cbn [app].
  change (Z.to_nat (1 - 1)) with 0%nat. rewrite drop_0. change (1 - 1) with 0. cbn [boundary_item t_key].
  destruct (key_cmp_order (take (length bs) procs) ltac:(by apply Forall_take) 0) as [Ha _].
  set (k := map _ bs). pose proof (Ha (t_key z) k). pose proof (Ha k (t_key z)). cbn zeta. lia.
Qed.

Lemma cut_start_ok t : cut_ok (take (length bs) procs) (boundary_item bs) C dir s t -> start_ok (cut_dl C dir t).
Proof.
  intros Hcut i z Hz. destruct (cut_ok_dl _ _ _ _ _ _ i z Hcut Hz) as [H1 H2]. destruct (search_cmp z.2) as [S1 S2]. split; intros Hi.
  - apply not_true_is_false. intros Hm. pose proof (boundary_match fmgr strategy_map procs dir gs z.2 1 3 Hgs ltac:(lia) ltac:(lia) ltac:(by left) Hm) as Hb.
    fold bs s in Hb. rewrite <- (strat_test_sign _ _ _ S1 S2), (H1 Hi) in Hb. done.
  - by apply (beyond_sign dir s _ _ S1 S2), H2.
Qed.

Lemma start_spec d1 y d2 lb : let k := boundary_item bs in let ps := take (length bs) procs in let sk := _bt_mkscankey ps k in
  let o := _bt_binsrch y.2 (Zlen ps) sk in C = d1 ++ y :: d2 ->
  P_FIRSTDATAKEY (opaque y.2) <= o <= PageGetMaxOffsetNumber y.2 + 1 -> Z.of_nat lb = Zlen (level_data d1) + (o - P_FIRSTDATAKEY (opaque y.2)) ->
  (forall i z, data !! i = Some z -> ((i < lb)%nat -> 0 < key_cmp 0 ps (t_key k) (t_key z.2)) /\ ((lb <= i)%nat -> key_cmp 0 ps (t_key k) (t_key z.2) <= 0)) ->
  started ps k C dir s (start_position idx sk s dir (y.1, o)).
Proof.
  intros k ps sk o E Ho Elb Hlb. pose proof (tree_ok_prefix _ _ _ (length bs) Ht) as Ht'. fold ps in Ht'.
  assert (Forall OrderProc ps) as Hps by by apply Forall_take.
  destruct (bnd_strat strategy_map dir gs 1 3 Hgs) as [Es | Es]; fold s in Es.
  - rewrite Es. by eapply (start_equal ps Hps k idx L Ht' C HC d1 y d2 o lb).
  - destruct dir; destruct Es as [-> | ->].
    + by eapply (start_greater_equal ps k idx L Ht' C HC d1 y d2 o lb).
    + by eapply (start_greater ps Hps k idx L Ht' C HC d1 y d2 o lb).
    + by eapply (start_less_equal ps Hps k idx L Ht' C HC d1 y d2 o lb).
    + by eapply (start_less ps k idx L Ht' C HC d1 y d2 o lb).
Qed.

(** The first call. *)
Lemma first_spec keys o : _bt_orderkeys fmgr strategy_map keys = Ok o -> qual_ok o = true -> keyData o = flatten gs ->
  exists m r, _bt_first fmgr strategy_map procs alloc idx keys dir = Ok (match r with Some cur => Some (o, cur) | None => None end) /\
    found C fmgr o dir m (Ok r) /\ start_ok m.
Proof.
  intros Eo Hq Ek. unfold _bt_first. rewrite Eo. cbn [mbind result_bind]. rewrite Hq, Ek. cbn [negb]. change BTEqualStrategyNumber with 3.
  rewrite (boundary_groups fmgr strategy_map procs dir gs 1 [] 3 Hgs ltac:(lia) ltac:(lia) eq_refl ltac:(by left)). cbn [app mbind result_bind]. fold bs s.
  assert (forall m r, found C fmgr o dir m r -> exists r', r = Ok r') as Hok.
  { intros m r H. unfold found in H. destruct (find_next _ _); [destruct H as (c & -> & _)|]; eauto. }
  set (res := if Zlen bs =? 0 then _ else _). assert (exists m, found C fmgr o dir m res /\ start_ok m) as (m & Hf & Hm).
  2:{ destruct (Hok m res Hf) as [r Er]. exists m, r. rewrite Er in Hf |- *. by split_and!. }
  unfold res. clear res. destruct (Z.eqb_spec (Zlen bs) 0) as [E0|Hne].
  - exists 0%nat. split; [by apply (endpoint_spec procs idx L Ht C HC)|]. assert (bs = []) as Eb by (destruct bs; [done|simpl in E0; lia]).
    destruct (bnd_keys dir gs 1 3 Hgs) as (_ & _ & Es). fold bs s in Es. specialize (Es Eb). intros i z _. split; [lia|]. intros _. rewrite Eb, Es.
    destruct dir; simpl; lia.
  - pose proof bs_length as Hl. destruct (bnd_keys dir gs 1 3 Hgs) as (_ & Hfl & _). fold bs in Hfl.
    pose proof (first_scankeys_spec bs procs [] (boundary_item bs) eq_refl Hfl Hl) as Esk. change (Zlen []) with 0 in Esk.
    rewrite Esk. cbn [mbind result_bind]. fold (_bt_mkscankey (take (length bs) procs) (boundary_item bs)).
    assert (Zlen bs = Zlen (take (length bs) procs)) as -> by (rewrite length_take; lia).
    destruct (lower_bound (take (length bs) procs) ltac:(by apply Forall_take) (boundary_item bs) idx L (tree_ok_prefix _ _ _ _ Ht) C HC alloc)
      as (d1 & y & d2 & st & lb & Es & E & Ho & Elb & Hlb). rewrite Es. cbn [mbind result_bind fst].
    destruct (leaf_page idx C (tree_leaves procs idx L Ht C HC) _ _ _ E) as (Hpg & _ & _). unfold getpage. rewrite Hpg. cbn [mbind result_bind].
    destruct (start_spec d1 y d2 lb E Ho Elb Hlb) as (t & Hcut & Hst). exists (cut_dl C dir t). split; [|by apply cut_start_ok].
    destruct (start_position _ _ _ _ _) as [[c| |]|e]; cbn [mbind result_bind]; [| | |done].
    + by apply (first_item_spec idx C (tree_leaves procs idx L Ht C HC)).
    + rewrite Hst. by apply (endpoint_spec procs idx L Ht C HC).
    + unfold found. by rewrite drop_ge by (rewrite dl_length; lia).
Qed.

(** Two items in the order of the scan. *)
Lemma dl_ordered i j z w : dl C dir !! i = Some z -> (i < j)%nat -> dl C dir !! j = Some w -> ordered_from procs dir 1 z.2 w.2.
Proof.
  intros Hz Hij Hw. pose proof (StronglySorted_sublist _ _ _ (spine_sublist C) (t_leaves _ _ _ Ht C HC)) as Hs.
  unfold ordered_from. change (Z.to_nat (1 - 1)) with 0%nat. rewrite drop_0. change (1 - 1) with 0. destruct dir; simpl in *.
  - exact (StronglySorted_lookup _ _ i j z w Hs Hij Hz Hw).
  - pose proof (lookup_lt_Some _ _ _ Hw) as Hj. rewrite length_reverse in Hj. rewrite reverse_lookup in Hz, Hw by lia.
    assert (key_le procs w z) as Hle by (eapply StronglySorted_lookup; [exact Hs| |exact Hw|exact Hz]; lia). unfold key_le in Hle.
    destruct (key_cmp_order procs Hprocs 0) as [Ha _]. pose proof (Ha (t_key z.2) (t_key w.2)). lia.
Qed.

Lemma filter_drop (sel : BTItem -> bool) m l : (forall i z, (i < m)%nat -> l !! i = Some z -> sel z.2 = false) ->
  List.filter sel (map snd (drop m l)) = List.filter sel (map snd (l : list (Z * BTItem))).
Proof.
  revert m. induction l as [|z l IH]; intros m H; [by rewrite drop_nil|]. destruct m as [|m]; [done|]. simpl.
  rewrite (H 0%nat z) by (done || lia). apply IH. intros i w Hi Hw. apply (H (S i)); [lia|done].
Qed.

Lemma scan_in_tree keys o : (forall z, z ∈ data -> t_posid z.2 <> InvalidOffsetNumber) ->
  _bt_orderkeys fmgr strategy_map keys = Ok o -> qual_ok o = true -> keyData o = flatten gs -> numberOfRequiredKeys o = required gs ->
  index_scan fmgr strategy_map procs alloc idx keys dir = Ok (List.filter (matches (flatten gs)) (map snd (dl C dir))).
Proof.
  intros Htid Eo Hq Ek Er. destruct (first_spec keys o Eo Hq Ek) as (m & r & Ef & Hr & Hm).
  rewrite (scan_whole idx C (tree_leaves procs idx L Ht C HC) _ _ _ _ keys o dir m r Htid Ef Hr). f_equal.
  pose proof (fun it => checkkeys_loop_spec fmgr strategy_map (flatten gs) it dir (flatten_strategies gs 1 Hgs) 0 (required gs)) as Hchk.
  rewrite (collect_filter _ (matches (flatten gs))).
  - apply filter_drop. intros i z Hi Hz. by apply (Hm i z Hz).
  - intros z _. unfold _bt_checkkeys. rewrite Ek, Er. apply Hchk.
  - intros i j z w Hz Hij Hw. unfold _bt_checkkeys. rewrite Ek, Er. intros Hc _. destruct (Hchk z.2) as [_ Hstop].
    destruct (Hstop Hc) as (pre & q & post & E & Hp & Hf & Hl & Hnull). rewrite lookup_drop in Hz, Hw.
    apply (stop_sound fmgr strategy_map procs Hprocs dir gs z.2 w.2 1 3 pre q post); try done; try lia.
    + apply (Hm (m + i)%nat z Hz). lia.
    + apply (dl_ordered (m + i) (m + j)); [done|lia|done].
Qed.
End InTree.

(** Without a root every scan is empty. *)
Lemma first_empty keys o dir : btm_root idx = P_NONE -> _bt_orderkeys fmgr strategy_map keys = Ok o ->
  (qual_ok o = true -> exists gs, groups_ok 1 gs /\ keyData o = flatten gs /\ Zlen gs <= Zlen procs) ->
  _bt_first fmgr strategy_map procs alloc idx keys dir = Ok None.
Proof.
  intros E0 Eo Ho. unfold _bt_first. rewrite Eo. cbn [mbind result_bind]. destruct (qual_ok o); [|done]. cbn [negb].
  destruct (Ho eq_refl) as (gs & Hgs & Ek & Hn). rewrite Ek. change BTEqualStrategyNumber with 3.
  rewrite (boundary_groups fmgr strategy_map procs dir gs 1 [] 3 Hgs ltac:(lia) ltac:(lia) eq_refl ltac:(by left)). cbn [app mbind result_bind].
  destruct (bnd_keys dir gs 1 3 Hgs) as (Hl & Hfl & _). set (bs := (bnd dir 3 gs).1) in *.
  unfold _bt_endpoint, _bt_search, _bt_getroot, _bt_tryroot. rewrite E0. cbn [mbind result_bind Z.eqb P_NONE fst negb].
  destruct (Z.eqb_spec (Zlen bs) 0); [done|].
  pose proof (first_scankeys_spec bs procs [] (boundary_item bs) eq_refl Hfl ltac:(lia)) as Esk. change (Zlen []) with 0 in Esk. by rewrite Esk.
Qed.
End Whole.

#[export] Instance filter_perm {A} (f : A -> bool) : Proper ((≡ₚ) ==> (≡ₚ)) (List.filter f).
Proof.
  intros l l'. induction 1 as [|x l l' _ IH|x y l|l1 l2 l3 _ IH1 _ IH2]; simpl; [done| | |by etransitivity]; repeat case_match; try done.
  - by constructor.
  - constructor.
Qed.

(** What a scan of an index that holds these items returns. *)
Definition scan_result (fmgr : Z -> Datum -> Datum -> bool) (strategy_map : Z -> list Z) (keys : list QualKey) (dir : ScanDirection)
    (data : list (Z * BTItem)) : result (list BTItem) :=
  match key_error strategy_map keys with
  | Some e => Err e
  | None => Ok (List.filter (matches fmgr keys) (map snd (match dir with ForwardScanDirection => data | BackwardScanDirection => reverse data end)))
  end.

(** A scan of an index as its list of items. *)
Lemma scan_index fmgr strategy_map procs alloc idx data Q keys dir :
  Forall OrderProc procs -> StrategyOps fmgr strategy_map procs -> keys_ok procs keys ->
  index_rep Q procs idx data -> (forall z, z ∈ data -> t_posid z.2 <> InvalidOffsetNumber) ->
  index_scan fmgr strategy_map procs alloc idx keys dir = scan_result fmgr strategy_map keys dir data.
Proof.
  intros Hpr Hops Hk Hrep Htid. pose proof (orderkeys_spec fmgr strategy_map procs Hpr keys Hk) as Hord. unfold scan_result.
  destruct (key_error strategy_map keys) as [e|].
  { unfold index_scan. cbn [scan_loop]. unfold btgettuple, _bt_first. by rewrite Hord. }
  destruct Hord as (o & Eo & Hfail & Hok).
  destruct Hrep as [[E0 ->]|(L & C & Ht & _ & HC & ->)].
  - unfold index_scan. cbn [scan_loop]. unfold btgettuple. rewrite (first_empty fmgr strategy_map procs alloc idx keys o dir E0 Eo).
    + by destruct dir.
    + intros Hq. destruct (Hok Hq) as (gs & H1 & H2 & _ & H3 & _). by exists gs.
  - destruct (qual_ok o) eqn:Hq.
    + destruct (Hok eq_refl) as (gs & Hgs & Ek & Er & Hn & Hm).
      rewrite (scan_in_tree fmgr strategy_map procs Hpr alloc idx L Ht C HC dir gs Hgs Hn keys o Htid Eo Hq Ek Er). f_equal.
      rewrite Ek in Hm. symmetry. by apply filter_ext.
    + unfold index_scan. cbn [scan_loop]. unfold btgettuple, _bt_first. rewrite Eo. cbn [mbind result_bind]. rewrite Hq. cbn [negb mbind result_bind].
      f_equal. symmetry. induction (map snd _) as [|it l IH]; [done|]. simpl. by rewrite (Hfail eq_refl).
Qed.

(** ** Theorems *)

(** C6: a scan of an index that is in order returns, forward or backward and for any list of
    keys on its attributes that carry no flag but the one of a null constant, exactly the items that all keys
    accept, in the order of the index and each as often as the index holds it.  Reducing the
    keys, starting at a boundary key and ending the scan early lose and add nothing; a null
    constant or an unsatisfiable qualification gives no items.  The scan ends in an error
    exactly when, before the first null constant, the attributes of the keys do not start at 1
    or leave one out, or an operator is not one of the attribute's. *)
Theorem bt_scan_correct fmgr strategy_map procs alloc idx data Q keys dir :
  Forall OrderProc procs -> StrategyOps fmgr strategy_map procs -> keys_ok procs keys ->
  index_rep Q procs idx data -> (forall z, z ∈ data -> t_posid z.2 <> InvalidOffsetNumber) ->
  index_scan fmgr strategy_map procs alloc idx keys dir = scan_result fmgr strategy_map keys dir data.
Proof. apply scan_index. Qed.

(** ** Witnesses *)

Definition int4_key (procedure k : Z) : QualKey := mkQual 0 1 procedure (Val k).

(** [k >= 4 and k < 7 and k >= 2]. *)
Definition demo_quals : list QualKey := [int4_key 150 4; int4_key 66 7; int4_key 150 2].

Lemma demo_quals_ok : keys_ok [btint4cmp] demo_quals.
Proof. unfold demo_quals. repeat (constructor; [split; [simpl; lia|by right]|]). constructor. Qed.

Lemma bt_scan_correct_witness : exists idx (data : list (Z * BTItem)), build demo_keys = Ok idx /\
  index_scan int4_fmgr int4_strategy_map [btint4cmp] demo_alloc idx demo_quals BackwardScanDirection =
    Ok (List.filter (matches int4_fmgr demo_quals) (map snd (reverse data))) /\
  length (List.filter (matches int4_fmgr demo_quals) (map snd data)) = 6%nat.
Proof.
  destruct demo_index as (idx & data & E & H & Hp). exists idx, data. split; [exact E|]. split.
  - apply (bt_scan_correct int4_fmgr int4_strategy_map [btint4cmp] demo_alloc idx data _ demo_quals BackwardScanDirection
      demo_procs_ok int4_ops demo_quals_ok H).
    intros z Hz. rewrite Hp in Hz. assert (Forall (fun z => t_posid z.2 <> InvalidOffsetNumber) (map (fun it => (2000, it)) demo_keys)) as Hf.
    { repeat constructor; discriminate. }
    exact (proj1 (Forall_forall _ _) Hf z Hz).
  - transitivity (length (List.filter (matches int4_fmgr demo_quals) (map snd (map (fun it => (2000, it)) demo_keys)))); [|reflexivity].
    apply Permutation_length, filter_perm. by apply Permutation_map.
Defined.

(** Twelve items on five leaves. *)
Example bt_scan_demo : (idx ← build demo_keys;
  l ← index_scan int4_fmgr int4_strategy_map [btint4cmp] demo_alloc idx demo_quals ForwardScanDirection; Ok (map t_posid l)) = Ok [4; 5; 5; 5; 5; 6].
Proof. vm_compute. reflexivity. Qed.

End NbtScan.
