(* ===== verification/NbtDelete.v ===== *)
(** * B-trees: bulk deletion ([access/nbtree/nbtree.c], [nbtpage.c])

    Vacuum hands [btbulkdelete] the heap pointers of the tuples it removes.  The routine
    sorts them, walks the leaves with [_bt_step] and deletes every item whose heap pointer
    is in the list; it stops as soon as it has deleted as many items as the list has.
    Pages are left empty, not removed.  One thread runs at a time, and the server is not
    shutting down. *)

From S2P Require Import Prelude.
From S2P Require Import Bufpage.
From S2P Require Import Heaptuple.
From S2P Require Import Nbtcompare.
From S2P Require Import Nbtree.
From S2P Require Import NbtTree.
From S2P Require Import NbtQual.
From S2P Require Import NbtScan.
From stdpp Require Import sorting.
From Stdlib Require Import Sorting.Sorted.

Local Open Scope Z_scope.

Module NbtDelete.
Import Heaptuple Nbtcompare Nbtree NbtTree NbtQual NbtScan.

(** ** The list of heap pointers *)

Notation ItemPointer := (Z * Z)%type.
Definition t_tid (it : BTItem) : ItemPointer := (t_blkno it, t_posid it).

Definition cmp_itemptr (left right : ItemPointer) : Z :=
  if left.1 <? right.1 then -1
  else if left.1 >? right.1 then 1
  else if left.2 <? right.2 then -1
  else if left.2 >? right.2 then 1
  else 0.

(** [qsort] and [bsearch] of the C library, with this comparison. *)
Definition itemptr_le (a b : ItemPointer) : Prop := cmp_itemptr a b <= 0.
#[export] Instance itemptr_le_dec a b : Decision (itemptr_le a b).
Proof. unfold itemptr_le. apply _. Defined.
Definition qsort (l : list ItemPointer) : list ItemPointer := merge_sort itemptr_le l.
Fixpoint bsearch_loop (fuel : nat) (key : ItemPointer) (base : list ItemPointer) (l u : Z) : bool :=
  match fuel with
  | O => false
  | S fuel =>
      if l <? u then
        let i := (l + u) / 2 in
        let c := cmp_itemptr key (aget (0, 0) base i) in
        if c <? 0 then bsearch_loop fuel key base l i
        else if c >? 0 then bsearch_loop fuel key base (i + 1) u
        else true
      else false
  end.
Definition bsearch (key : ItemPointer) (base : list ItemPointer) : bool :=
  bsearch_loop (S (length base)) key base 0 (Zlen base).

(** ** Deleting *)

Definition PageIndexTupleDelete (p : BTPage) (offnum : Z) : BTPage := Nbtree.set_lines p (delete (Z.to_nat (offnum - 1)) (lines p)).
Definition _bt_itemdel (p : BTPage) (offno : Z) : BTPage := PageIndexTupleDelete p offno.

(** The loop over the items; [locked]: the page of the current item is locked already.
    The error raised on leaving a page while the server shuts down is left out. *)
Fixpoint bulkdelete_loop (fuel : nat) (idx : Index) (current : Z * Z) (locked : bool) (tuple_deletes : list ItemPointer)
    (delcount tuples_removed : Z) : result (Index * Z) :=
  match fuel with
  | O => Err "fuel"
  | S fuel =>
      let buf := current.1 in
      page ← getpage idx buf;
      let current := if negb locked && (current.2 <? P_FIRSTDATAKEY (opaque page)) then (buf, P_FIRSTDATAKEY (opaque page)) else current in
      let offnum := current.2 in
      let '(idx, current, tuples_removed) :=
        if bsearch (t_tid (PageGetItem page offnum)) tuple_deletes
        then (set_page idx buf (_bt_itemdel page offnum), (buf, offnum - 1), tuples_removed + 1)
        else (idx, current, tuples_removed) in
      if tuples_removed =? delcount then Ok (idx, tuples_removed)
      else
        r ← _bt_step idx current ForwardScanDirection;
        match r with
        | None => Ok (idx, tuples_removed)
        | Some current => bulkdelete_loop fuel idx current (current.1 =? buf) tuple_deletes delcount tuples_removed
        end
  end.

Section BulkDelete.
Context (fmgr : Z -> Datum -> Datum -> bool) (strategy_map : Z -> list Z) (procs : list (Datum -> Datum -> Z)).
Context (alloc : gmap Z BTPage -> Z).

Definition btbulkdelete (idx : Index) (tuple_deletes : list ItemPointer) : result (Index * Z) :=
  let delcount := Zlen tuple_deletes in
  let tuple_deletes := qsort tuple_deletes in
  r ← _bt_first fmgr strategy_map procs alloc idx [] ForwardScanDirection;
  match r with
  | None => Ok (idx, 0)
  | Some (_, current) => bulkdelete_loop (scan_fuel idx) idx current false tuple_deletes delcount 0
  end.
End BulkDelete.

(** ** The search for a heap pointer *)

#[export] Instance cmp_itemptr_order : OrderProc cmp_itemptr.
Proof.
  split; unfold cmp_itemptr; intros; rewrite ?Z.gtb_ltb in *;
    repeat match goal with |- context [?a <? ?b] => destruct (Z.ltb_spec a b) | H : context [?a <? ?b] |- _ => destruct (Z.ltb_spec a b) end; lia.
Qed.

Lemma cmp_itemptr_eq a b : cmp_itemptr a b = 0 <-> a = b.
Proof.
  destruct a as [a1 a2], b as [b1 b2]. unfold cmp_itemptr. cbn [fst snd]. rewrite !Z.gtb_ltb. split.
  - destruct (Z.ltb_spec a1 b1), (Z.ltb_spec b1 a1), (Z.ltb_spec a2 b2), (Z.ltb_spec b2 a2); intros; try lia. f_equal; lia.
  - intros [= -> ->]. by rewrite !Z.ltb_irrefl.
Qed.

Lemma qsort_sorted l : StronglySorted itemptr_le (qsort l) /\ qsort l ≡ₚ l.
Proof.
  destruct cmp_itemptr_order as [Ha Ht]. split; [|apply merge_sort_Permutation]. apply StronglySorted_merge_sort.
  - intros a b c. apply Ht.
  - intros a b. unfold itemptr_le. pose proof (Ha a b). lia.
Qed.

Lemma bsearch_loop_spec key base : StronglySorted itemptr_le base -> forall fuel l u, 0 <= l -> u <= Zlen base -> u - l < Z.of_nat fuel ->
  bsearch_loop fuel key base l u = true <-> exists i, l <= i < u /\ aget (0, 0) base i = key.
Proof.
  intros Hs. destruct cmp_itemptr_order as [Ha Ht].
  assert (forall i j, 0 <= i -> i < j -> j < Zlen base -> cmp_itemptr (aget (0, 0) base i) (aget (0, 0) base j) <= 0) as Hle.
  { intros i j Hi Hij Hj. destruct (lookup_lt_is_Some_2 base (Z.to_nat i)) as [x Hx]; [lia|].
    destruct (lookup_lt_is_Some_2 base (Z.to_nat j)) as [y Hy]; [lia|]. unfold aget. destruct (Z.ltb_spec i 0), (Z.ltb_spec j 0); try lia.
    rewrite Hx, Hy. simpl. apply (StronglySorted_lookup _ _ (Z.to_nat i) (Z.to_nat j) x y Hs); [lia|done|done]. }
  induction fuel as [|fuel IH]; intros l u Hl Hu Hf; [split; [done|intros (i & Hi & _); lia]|]. cbn [bsearch_loop].
  destruct (Z.ltb_spec l u) as [Hlu|Hge]; [|split; [done|intros (i & Hi & _); lia]].
  set (m := (l + u) / 2). assert (l <= m < u) as Hm.
  { unfold m. pose proof (Z.div_le_lower_bound (l + u) 2 l). pose proof (Z.div_lt_upper_bound (l + u) 2 u). lia. }
  set (x := aget (0, 0) base m) in *. rewrite Z.gtb_ltb. destruct (Z.ltb_spec (cmp_itemptr key x) 0) as [Hlt|Hnl]; [|destruct (Z.ltb_spec 0 (cmp_itemptr key x)) as [Hgt|Hng]].
  - rewrite IH by lia. split; intros (i & Hi & E); exists i; (split; [|done]); [lia|]. destruct (Z.lt_ge_cases i m); [lia|]. exfalso.
    destruct (decide (i = m)) as [->|Hne]; [fold x in E; subst key; rewrite (proj2 (cmp_itemptr_eq x x) eq_refl) in Hlt; lia|].
    specialize (Hle m i ltac:(lia) ltac:(lia) ltac:(lia)). fold x in Hle. rewrite E in Hle. pose proof (Ha key x). lia.
  - rewrite IH by lia. split; intros (i & Hi & E); exists i; (split; [|done]); [lia|]. destruct (Z.lt_ge_cases m i); [lia|]. exfalso.
    destruct (decide (i = m)) as [->|Hne]; [fold x in E; subst key; rewrite (proj2 (cmp_itemptr_eq x x) eq_refl) in Hgt; lia|].
    specialize (Hle i m ltac:(lia) ltac:(lia) ltac:(lia)). fold x in Hle. rewrite E in Hle. lia.
  - split; [|done]. intros _. exists m. split; [lia|]. fold x. symmetry. apply cmp_itemptr_eq. lia.
Qed.

(** Searching the sorted list finds exactly its elements. *)
Lemma bsearch_spec key l : bsearch key (qsort l) = bool_decide (key ∈ l).
Proof.
  destruct (qsort_sorted l) as [Hs Hp]. apply eq_true_iff_eq. rewrite bool_decide_eq_true. unfold bsearch.
  rewrite (bsearch_loop_spec key (qsort l) Hs) by lia. rewrite <- Hp, list_elem_of_lookup. split.
  - intros (i & Hi & E). exists (Z.to_nat i). unfold aget in E. destruct (Z.ltb_spec i 0); [lia|].
    destruct (lookup_lt_is_Some_2 (qsort l) (Z.to_nat i)) as [x Hx]; [lia|]. rewrite Hx in E |- *. simpl in E. by subst.
  - intros [i Hi]. exists (Z.of_nat i). split; [apply lookup_lt_Some in Hi; lia|]. unfold aget. destruct (Z.ltb_spec (Z.of_nat i) 0); [lia|].
    by rewrite Nat2Z.id, Hi.
Qed.

(** ** Deleting from a page *)

Lemma delete_app_at {A} (h d : list A) i : delete (length h + i)%nat (h ++ d) = h ++ delete i d.
Proof. induction h as [|x h IH]; [done|]. simpl. by rewrite IH. Qed.

Lemma delete_split {A} (a d b : list A) i x : d !! i = Some x -> a ++ delete i d ++ b = delete (length a + i)%nat (a ++ d ++ b).
Proof.
  intros Hi. rewrite delete_app_at. f_equal. rewrite <- (take_drop_middle d i x Hi) at 2. rewrite <- (assoc_L (++)). simpl.
  pose proof (lookup_lt_Some _ _ _ Hi). replace i with (length (take i d)) at 2 by (rewrite length_take; lia).
  rewrite delete_middle, delete_take_drop. by rewrite <- (assoc_L (++)).
Qed.

Lemma lines_space_delete l i x : l !! i = Some x -> lines_space (delete i l) = lines_space l - line_space x.
Proof.
  intros H. rewrite delete_take_drop, lines_space_app. rewrite <- (take_drop_middle l i x H) at 3. rewrite lines_space_app.
  cbn [lines_space]. lia.
Qed.

Lemma itemdel_page p o : in_tree true p -> P_FIRSTDATAKEY (opaque p) <= o <= PageGetMaxOffsetNumber p ->
  let p' := _bt_itemdel p o in
  in_tree true p' /\ opaque p' = opaque p /\ hikey_lines p' = hikey_lines p /\
  data_lines p' = delete (Z.to_nat (o - P_FIRSTDATAKEY (opaque p))) (data_lines p).
Proof.
  intros Hin Ho p'. pose proof Hin as [Hp Hleaf Hpar _]. pose proof (hikey_lines_length p Hp) as Hl.
  pose proof (first_data_cases (opaque p)) as Hf. set (first := P_FIRSTDATAKEY (opaque p)) in *.
  assert (lines p' = hikey_lines p ++ delete (Z.to_nat (o - first)) (data_lines p)) as El.
  { unfold p', _bt_itemdel, PageIndexTupleDelete. cbn [Nbtree.set_lines lines]. rewrite (lines_hikey_data p) at 1.
    rewrite <- delete_app_at. f_equal. lia. }
  assert (hikey_lines p' = hikey_lines p) as Eh.
  { unfold hikey_lines at 1. change (opaque p') with (opaque p). fold first. rewrite El. apply take_app_length'. lia. }
  assert (data_lines p' = delete (Z.to_nat (o - first)) (data_lines p)) as Ed.
  { unfold data_lines at 1. change (opaque p') with (opaque p). fold first. rewrite El. apply drop_app_length'. lia. }
  split_and!; try done.
  - split; [|done|done|done]. split.
    + unfold p', _bt_itemdel, PageIndexTupleDelete. cbn [Nbtree.set_lines lines]. apply Forall_delete, Hp.
    + unfold PageGetMaxOffsetNumber in Ho. destruct (lookup_lt_is_Some_2 (lines p) (Z.to_nat (o - 1))) as [x Hx]; [lia|].
      pose proof (po_free _ Hp) as Hfr. unfold page_free, p', _bt_itemdel, PageIndexTupleDelete in *. cbn [Nbtree.set_lines lines].
      rewrite (lines_space_delete _ _ x Hx). pose proof (line_space_ok x (Forall_lookup_1 _ _ _ _ (po_lines _ Hp) Hx)). lia.
    + intros Hr E. rewrite El in E. apply app_nil in E as [E _]. rewrite E in Hl. change (opaque p') with (opaque p) in Hr.
      unfold first, P_FIRSTDATAKEY in Hl. rewrite Hr in Hl. done.
Qed.

Lemma itemdel_wide W p o : in_tree true p -> page_wide W p -> P_FIRSTDATAKEY (opaque p) <= o <= PageGetMaxOffsetNumber p ->
  page_wide W (_bt_itemdel p o).
Proof.
  intros Hin [Hk Hh Hx] Ho. destruct (itemdel_page p o Hin Ho) as (_ & Eop & Eh & Ed). pose proof (it_leaf _ _ Hin) as Hleaf.
  unfold keyed_lines in Hk. rewrite Hleaf in Hk. split.
  - unfold keyed_lines. rewrite Eop, Hleaf, Ed. by apply Forall_delete.
  - by rewrite Eh.
  - by rewrite Eop, Hleaf.
Qed.

(** ** Deleting from the tree *)

Section Tree.
Context (procs : procs_t) (Q : list level -> Prop).

(** A property of trees that the deletion of an item keeps. *)
Definition delete_closed : Prop := forall L d1 b p d2 o, Q L -> L !! 0%nat = Some (d1 ++ (b, p) :: d2) -> in_tree true p ->
  P_FIRSTDATAKEY (opaque p) <= o <= PageGetMaxOffsetNumber p -> Q (<[0%nat := d1 ++ (b, _bt_itemdel p o) :: d2]> L).
Context (HQ : delete_closed).

(** A tree with these leaves. *)
Record tree_with (idx : Index) (L : list level) (C : level) : Prop := {
  tw_tree : tree_ok procs idx L;
  tw_wide : Q L;
  tw_leaves : L !! 0%nat = Some C }.

Lemma tw_lv idx L C : tree_with idx L C -> leaves idx C.
Proof. intros [H1 _ H3]. by apply (tree_leaves procs idx L). Qed.

(** Deleting item number [k], and the step that follows. *)
Lemma delete_step idx L C k c : tree_with idx L C -> at_pos C k c -> exists p C', pages idx !! c.1 = Some p /\
  let idx' := set_page idx c.1 (_bt_itemdel p c.2) in
  tree_with idx' (<[0%nat := C']> L) C' /\ level_data C' = delete k (level_data C) /\ size (pages idx') = size (pages idx) /\
  on_or_end C' k (_bt_step idx' (c.1, c.2 - 1) ForwardScanDirection).
Proof.
  intros H Hc. pose proof (tw_lv _ _ _ H) as Hlv. destruct H as [Ht Hw HC]. pose proof Hc as (d1 & [b p] & d2 & E & Eb & Ho & Hk).
  cbn [fst snd] in *. destruct (leaf_page idx C Hlv _ _ _ E) as (Hpg & Hin & _). cbn [fst snd] in *.
  destruct (page_data idx C Hlv _ _ _ E) as (Hdl & Hf1 & _). cbn [snd] in *. rewrite E in HC.
  pose proof (HQ L d1 b p d2 c.2 Hw HC Hin Ho) as R3.
  destruct (itemdel_page p c.2 Hin Ho) as (Hin' & Eop & Eh & Ed). set (p' := _bt_itemdel p c.2) in *.
  exists p, (d1 ++ (b, p') :: d2). rewrite Eb. split; [done|]. cbn zeta. fold p'. set (idx' := set_page idx b p').
  destruct (replace_tree 0 idx L d1 b p d2 (t_levels _ _ _ Ht) (t_covers _ _ _ Ht) HC p' Hin' Eop Eh) as [R1 R2].
  set (C' := d1 ++ (b, p') :: d2) in *. pose proof (data_split C _ _ _ E) as Edata. cbn [snd] in Edata.
  destruct (lookup_lt_is_Some_2 (data_lines p) (Z.to_nat (c.2 - P_FIRSTDATAKEY (opaque p)))) as [x Hx]; [lia|].
  assert (level_data C' = delete k (level_data C)) as Ed'.
  { unfold C'. rewrite level_data_app. change (level_data ((b, p') :: d2)) with (data_lines p' ++ level_data d2).
    rewrite Ed, Edata, (delete_split _ _ _ _ x Hx). f_equal. lia. }
  assert (tree_with idx' (<[0%nat := C']> L) C') as H'.
  { pose proof (lookup_lt_Some _ _ _ HC) as HL0.
    split; [|done|by rewrite list_lookup_insert_eq]. split; [done|done|]. intros D HD. rewrite list_lookup_insert_eq in HD by done. injection HD as <-.
    apply (StronglySorted_sublist _ _ (spine C)); [|apply (t_leaves _ _ _ Ht); by rewrite E]. rewrite E. unfold C'. rewrite !spine_app.
    apply sublist_app; [done|]. change (spine ((b, p') :: d2)) with ((data_lines p' ++ hikey_lines p') ++ spine d2).
    change (spine ((b, p) :: d2)) with ((data_lines p ++ hikey_lines p) ++ spine d2). apply sublist_app; [|done].
    rewrite Eh, Ed. apply sublist_app; [|done]. apply sublist_delete. }
  split_and!; [done|done| |].
  - unfold idx', set_page. cbn [pages]. by rewrite map_size_insert_Some.
  - pose proof (step_forward idx' C' (tw_lv _ _ _ H') d1 (b, p') d2 (c.2 - 1) eq_refl) as Hs. cbn [fst snd] in Hs. rewrite Eop in Hs.
    specialize (Hs ltac:(lia)). cbn zeta in Hs. rewrite Ed, length_delete in Hs by done. unfold on_or_end.
    by replace (length (level_data d1) + _)%nat with k in Hs by lia.
Qed.
End Tree.

Lemma any_closed : delete_closed (fun _ => True).
Proof. done. Qed.

Lemma wide_closed W : delete_closed (tree_wide W).
Proof.
  intros L d1 b p d2 o Hw HC Hin Ho. apply tree_wide_insert; [done|]. pose proof (Forall_lookup_1 _ _ _ _ Hw HC) as HwC.
  apply Forall_app in HwC as [Hw1 Hw2]. apply Forall_cons in Hw2 as [Hwp Hw2]. apply Forall_app. split; [done|]. constructor; [|done].
  by apply itemdel_wide.
Qed.

(** Any index in order is one of these. *)
Lemma index_rep_any Q procs idx data : index_rep Q procs idx data -> index_rep (fun _ => True) procs idx data.
Proof. intros [H|(L & C & H1 & _ & H2 & H3)]; [by left|right]. by exists L, C. Qed.

(** ** The whole deletion *)

Section Loop.
Context (procs : procs_t) (Q : list level -> Prop) (HQ : delete_closed Q) (dels : list ItemPointer) (delcount : Z).
Definition doomed (z : Z * BTItem) : bool := bool_decide (t_tid z.2 ∈ dels).
Definition kept (z : Z * BTItem) : bool := negb (doomed z).
Local Notation count l := (Zlen (List.filter doomed l)).

Lemma kept_all l : count l = 0 -> List.filter kept l = l.
Proof.
  induction l as [|z l IH]; [done|]. simpl. unfold kept at 1. destruct (doomed z); simpl; [lia|]. intros E. by rewrite IH.
Qed.

Lemma bulkdelete_loop_spec fuel : forall idx L C k c locked removed, tree_with procs Q idx L C -> at_pos C k c ->
  (length (level_data C) - k <= fuel)%nat -> removed + count (drop k (level_data C)) <= delcount ->
  exists idx' L' C', bulkdelete_loop fuel idx c locked (qsort dels) delcount removed = Ok (idx', removed + count (drop k (level_data C))) /\
    tree_with procs Q idx' L' C' /\ level_data C' = take k (level_data C) ++ List.filter kept (drop k (level_data C)).
Proof.
  induction fuel as [|fuel IH]; intros idx L C k c locked removed H Hc Hf Hcount; pose proof (tw_lv _ _ _ _ _ H) as Hlv;
    pose proof (at_pos_lt idx C Hlv k c Hc) as Hlt; [lia|].
  cbn [bulkdelete_loop]. destruct (at_pos_item idx C Hlv k c Hc) as (p & z & Hpg & Hg & Hz & _ & Ho).
  unfold getpage. rewrite Hpg. cbn [mbind result_bind].
  assert ((if negb locked && (c.2 <? P_FIRSTDATAKEY (opaque p)) then (c.1, P_FIRSTDATAKEY (opaque p)) else c) = c) as ->.
  { destruct (Z.ltb_spec c.2 (P_FIRSTDATAKEY (opaque p))); [lia|]. by rewrite andb_false_r. }
  rewrite Hg, bsearch_spec. rewrite (drop_S _ _ _ Hz) in Hcount |- *. cbn [List.filter] in Hcount |- *. unfold kept at 1.
  fold (doomed z). destruct (doomed z); cbn [negb] in Hcount |- *.
  - destruct (delete_step procs Q HQ idx L C k c H Hc) as (p' & C' & Hpg' & H' & Ed & _ & Hs). rewrite Hpg in Hpg'. injection Hpg' as <-.
    set (idx' := set_page idx c.1 (_bt_itemdel p c.2)) in *. cbn [length] in Hcount |- *.
    assert (take k (level_data C') = take k (level_data C) /\ drop k (level_data C') = drop (S k) (level_data C)) as [Et Edr].
    { rewrite Ed, delete_take_drop. split; [apply take_app_length'|apply drop_app_length']; rewrite length_take; lia. }
    replace (removed + Z.of_nat (S (length (List.filter doomed (drop (S k) (level_data C)))))) with (removed + 1 + count (drop (S k) (level_data C))) in * by lia.
    destruct (Z.eqb_spec (removed + 1) delcount) as [Eq|Hne].
    + exists idx', (<[0%nat := C']> L), C'. assert (count (drop (S k) (level_data C)) = 0) as E0 by lia.
      rewrite E0, Z.add_0_r. split_and!; [done|done|]. rewrite (kept_all _ E0), <- Et, <- Edr. by rewrite take_drop.
    + unfold on_or_end in Hs. destruct (decide (k < length (level_data C'))%nat) as [Hlt'|Hge].
      * destruct Hs as (c' & -> & Hc'). cbn [mbind result_bind].
        destruct (IH idx' _ C' k c' (c'.1 =? c.1) (removed + 1) H' Hc') as (idx2 & L2 & C2 & E2 & H2 & Ed2).
        { rewrite Ed, length_delete by done. lia. }
        { by rewrite Edr. }
        rewrite Edr in E2. rewrite Edr, Et in Ed2. by exists idx2, L2, C2.
      * rewrite Hs. cbn [mbind result_bind]. exists idx', (<[0%nat := C']> L), C'. rewrite <- Edr, drop_ge by lia. simpl. rewrite Z.add_0_r.
        split_and!; [done|done|]. rewrite app_nil_r, <- Et. symmetry. apply take_ge. lia.
  - destruct (Z.eqb_spec removed delcount) as [Eq|Hne].
    + exists idx, L, C. assert (count (drop (S k) (level_data C)) = 0) as E0 by lia. rewrite E0, Z.add_0_r. split_and!; [done|done|].
      rewrite (kept_all _ E0). by rewrite <- (take_drop_middle _ _ _ Hz) at 1.
    + pose proof (at_pos_forward procs idx L (tw_tree _ _ _ _ _ H) C (tw_leaves _ _ _ _ _ H) k c Hc) as Hs. unfold on_or_end in Hs.
      destruct (decide (S k < length (level_data C))%nat) as [Hlt'|Hge].
      * destruct Hs as (c' & -> & Hc'). cbn [mbind result_bind].
        destruct (IH idx L C (S k) c' (c'.1 =? c.1) removed H Hc' ltac:(lia) ltac:(lia)) as (idx2 & L2 & C2 & E2 & H2 & Ed2).
        exists idx2, L2, C2. split_and!; [done|done|]. rewrite Ed2, (take_S_r _ _ _ Hz), <- (assoc_L (++)). done.
      * rewrite Hs. cbn [mbind result_bind]. exists idx, L, C. rewrite (drop_ge _ (S k)) by lia. simpl. rewrite Z.add_0_r.
        split_and!; [done|done|]. rewrite <- (take_S_r _ _ _ Hz). symmetry. apply take_ge. lia.
Qed.
End Loop.

Section Index.
Context (fmgr : Z -> Datum -> Datum -> bool) (strategy_map : Z -> list Z) (procs : procs_t) (alloc : gmap Z BTPage -> Z)
  (Q : list level -> Prop) (HQ : delete_closed Q).

(** A scan without keys starts on the first item. *)
Lemma first_all idx L C : tree_with procs Q idx L C ->
  if decide (level_data C = []) then _bt_first fmgr strategy_map procs alloc idx [] ForwardScanDirection = Ok None
  else exists o c, _bt_first fmgr strategy_map procs alloc idx [] ForwardScanDirection = Ok (Some (o, c)) /\ at_pos C 0 c.
Proof.
  intros [Ht _ HC]. unfold _bt_first. cbn [_bt_orderkeys mbind result_bind qual_ok keyData boundary_keys negb length].
  change (Z.of_nat 0 =? 0) with true. cbn iota.
  pose proof (endpoint_spec procs idx L Ht C HC fmgr alloc (mkOrdered true 0 [] true) ForwardScanDirection) as Hf. unfold found in Hf.
  cbn [dl] in Hf. rewrite drop_0 in Hf. destruct (level_data C) as [|z d]; simpl in Hf.
  - rewrite Hf. done.
  - destruct Hf as (c & -> & _ & Hc). by eexists _, c.
Qed.

Lemma doomed_count dels (data : list (Z * BTItem)) : NoDup (map (fun z => t_tid z.2) data) -> Zlen (List.filter (doomed dels) data) <= Zlen dels.
Proof.
  intros Hn. assert (NoDup (map (fun z => t_tid z.2) (List.filter (doomed dels) data)) /\
    forall t, t ∈ map (fun z => t_tid z.2) (List.filter (doomed dels) data) -> t ∈ dels /\ t ∈ map (fun z => t_tid z.2) data) as [Hf Hin].
  { induction data as [|z d IH]; [split; [constructor|by intros t ?%elem_of_nil]|]. apply NoDup_cons in Hn as [Hz Hn]. destruct (IH Hn) as [H1 H2]. simpl.
    destruct (doomed dels z) eqn:Ed; [|split; [done|]; intros t Ht; destruct (H2 t Ht); split; [done|by right]].
    apply bool_decide_eq_true in Ed. simpl. split.
    - constructor; [|done]. intros Ht. by destruct (H2 _ Ht).
    - intros t [->|Ht]%elem_of_cons; [split; [done|by left]|]. destruct (H2 t Ht). split; [done|by right]. }
  assert (map (fun z => t_tid z.2) (List.filter (doomed dels) data) ⊆+ dels) as Hs by (apply NoDup_submseteq; [done|]; intros t Ht; by apply Hin).
  apply submseteq_length in Hs. rewrite length_map in Hs. lia.
Qed.

Lemma bulkdelete_index idx data dels : index_rep Q procs idx data -> NoDup (map (fun z => t_tid z.2) data) ->
  exists idx', btbulkdelete fmgr strategy_map procs alloc idx dels = Ok (idx', Zlen (List.filter (doomed dels) data)) /\
    index_rep Q procs idx' (List.filter (kept dels) data).
Proof.
  intros [[E0 ->]|(L & C & Ht & Hw & HC & ->)] Hn; unfold btbulkdelete.
  - exists idx. split; [|by left]. unfold _bt_first. cbn [_bt_orderkeys mbind result_bind qual_ok keyData boundary_keys negb length].
    change (Z.of_nat 0 =? 0) with true. cbn iota. unfold _bt_endpoint, _bt_getroot, _bt_tryroot. by rewrite E0.
  - assert (tree_with procs Q idx L C) as H by by split. pose proof (first_all idx L C H) as Hf.
    destruct (decide (level_data C = [])) as [E|Hne].
    + rewrite Hf. cbn [mbind result_bind]. exists idx. rewrite E. split; [done|]. right. by exists L, C.
    + destruct Hf as (o & c & -> & Hc). cbn [mbind result_bind]. pose proof (data_bound idx C (tw_lv _ _ _ _ _ H)) as Hb.
      destruct (bulkdelete_loop_spec procs Q HQ dels (Zlen dels) (scan_fuel idx) idx L C 0 c false 0 H Hc) as (idx' & L' & C' & E & H' & Ed).
      { lia. }
      { rewrite drop_0. pose proof (doomed_count dels _ Hn). lia. }
      rewrite drop_0 in E, Ed. exists idx'. split; [done|]. right. exists L', C'. destruct H'. by split_and!.
Qed.
End Index.

(** ** An index in use *)

(** What a session does to an index. *)
Inductive index_op := OpInsert (it : BTItem) | OpBulkDelete (tids : list ItemPointer).

Section Session.
Context (fmgr : Z -> Datum -> Datum -> bool) (strategy_map : Z -> list Z) (procs : procs_t) (alloc : gmap Z BTPage -> Z) (tired : nat -> bool).

Fixpoint run_ops (idx : Index) (ops : list index_op) : result Index :=
  match ops with
  | [] => Ok idx
  | OpInsert it :: ops => r ← _bt_doinsert alloc procs tired idx it; run_ops r.1 ops
  | OpBulkDelete tids :: ops => r ← btbulkdelete fmgr strategy_map procs alloc idx tids; run_ops r.1 ops
  end.
End Session.

(** The same on a bag of items. *)
Fixpoint spec_ops (bag : list BTItem) (ops : list index_op) : list BTItem :=
  match ops with
  | [] => bag
  | OpInsert it :: ops => spec_ops (it :: bag) ops
  | OpBulkDelete tids :: ops => spec_ops (List.filter (fun it => negb (bool_decide (t_tid it ∈ tids))) bag) ops
  end.

(** Items of one width; a heap tuple is in the index once. *)
Fixpoint ops_ok (W : Z) (bag : list BTItem) (ops : list index_op) : Prop :=
  match ops with
  | [] => True
  | OpInsert it :: ops => MAXALIGN (IndexTupleDSize it) = W /\ t_posid it <> InvalidOffsetNumber /\ t_tid it ∉ map t_tid bag /\ ops_ok W (it :: bag) ops
  | OpBulkDelete tids :: ops => ops_ok W (List.filter (fun it => negb (bool_decide (t_tid it ∈ tids))) bag) ops
  end.

Lemma filter_map_snd (f : BTItem -> bool) (l : list (Z * BTItem)) : map snd (List.filter (fun z => f z.2) l) = List.filter f (map snd l).
Proof. induction l as [|z l IH]; [done|]. simpl. destruct (f z.2); simpl; by rewrite IH. Qed.

Lemma filter_sublist {A} (f : A -> bool) l : sublist (List.filter f l) l.
Proof. induction l as [|x l IH]; [done|]. simpl. destruct (f x); [by apply sublist_skip|by apply sublist_cons]. Qed.

(** The bag of items an index holds. *)
Record holds_bag (W : Z) (procs : procs_t) (idx : Index) (bag : list BTItem) : Prop := {
  hb_data : exists data, index_rep (tree_wide W) procs idx data /\ map snd data ≡ₚ bag;
  hb_tids : NoDup (map t_tid bag);
  hb_valid : Forall (fun it => t_posid it <> InvalidOffsetNumber) bag }.

Section Runs.
Context (fmgr : Z -> Datum -> Datum -> bool) (strategy_map : Z -> list Z) (procs : procs_t) (alloc : gmap Z BTPage -> Z) (tired : nat -> bool).
Context (W : Z) (HW8 : (8 | W)) (HW : sizeof_BTItemData <= W <= BTMaxItemSize) (Hprocs : Forall OrderProc procs).
Context (Halloc : forall m, m !! alloc m = None /\ alloc m <> P_NONE /\ alloc m <> InvalidBlockNumber).

Lemma insert_bag idx bag it : holds_bag W procs idx bag -> MAXALIGN (IndexTupleDSize it) = W -> t_posid it <> InvalidOffsetNumber ->
  t_tid it ∉ map t_tid bag -> exists idx' loc, _bt_doinsert alloc procs tired idx it = Ok (idx', loc) /\ holds_bag W procs idx' (it :: bag).
Proof.
  intros [(data & Hr & Hp) Ht Hv] Hit Hpos Hnew.
  destruct (insert_index alloc tired W procs HW8 HW Hprocs Halloc idx data it Hr) as (idx' & loc & a & b & E & -> & Hr'); [done|].
  exists idx', loc. split; [done|]. split; [|by constructor|by constructor]. exists (a ++ (W, it) :: b). split; [done|].
  rewrite map_app in Hp |- *. simpl. by rewrite <- Permutation_middle, Hp.
Qed.

Lemma delete_bag idx bag tids : holds_bag W procs idx bag ->
  exists idx', btbulkdelete fmgr strategy_map procs alloc idx tids = Ok (idx', Zlen bag - Zlen (spec_ops bag [OpBulkDelete tids])) /\
    holds_bag W procs idx' (spec_ops bag [OpBulkDelete tids]).
Proof.
  intros [(data & Hr & Hp) Ht Hv]. cbn [spec_ops]. set (f := fun it => negb (bool_decide (t_tid it ∈ tids))).
  assert (NoDup (map (fun z => t_tid z.2) data)) as Hn.
  { rewrite <- (map_map snd t_tid). by rewrite Hp. }
  destruct (bulkdelete_index fmgr strategy_map procs alloc (tree_wide W) (wide_closed W) idx data tids Hr Hn) as (idx' & E & Hr').
  assert (map snd (List.filter (kept tids) data) ≡ₚ List.filter f bag) as Hb.
  { change (kept tids) with (fun z : Z * BTItem => f z.2). by rewrite filter_map_snd, Hp. }
  exists idx'. split.
  - rewrite E. do 2 f_equal. assert (Zlen (List.filter (doomed tids) data) + Zlen (List.filter (kept tids) data) = Zlen data) as El.
    { clear. induction data as [|z d IH]; [done|]. simpl. unfold kept at 1. destruct (doomed tids z); simpl; lia. }
    apply Permutation_length in Hp, Hb. rewrite !length_map in Hp, Hb. lia.
  - split; [by exists (List.filter (kept tids) data)| |].
    + eapply sublist_NoDup; [exact Ht|]. apply (fmap_sublist t_tid), filter_sublist.
    + rewrite Forall_forall in Hv |- *. intros it Hin. apply Hv. eapply elem_of_sublist; [exact Hin|apply filter_sublist].
Qed.

Lemma run_ops_bag ops : forall idx bag, holds_bag W procs idx bag -> ops_ok W bag ops ->
  exists idx', run_ops fmgr strategy_map procs alloc tired idx ops = Ok idx' /\ holds_bag W procs idx' (spec_ops bag ops).
Proof.
  induction ops as [|[it|tids] ops IH]; intros idx bag H Hok; cbn [run_ops spec_ops]; [by exists idx| |].
  - destruct Hok as (H1 & H2 & H3 & Hok). destruct (insert_bag idx bag it H H1 H2 H3) as (idx' & loc & -> & H').
    cbn [mbind result_bind fst]. by apply IH.
  - destruct (delete_bag idx bag tids H) as (idx' & -> & H'). cbn [mbind result_bind fst]. by apply IH.
Qed.
End Runs.

(** The order in which a scan returns items. *)
Definition in_order (procs : procs_t) (dir : ScanDirection) (a b : BTItem) : Prop :=
  let c := key_cmp 0 procs (t_key a) (t_key b) in match dir with ForwardScanDirection => c <= 0 | BackwardScanDirection => 0 <= c end.

(** What a scan of the index of a bag returns. *)
Definition scans_bag fmgr strategy_map procs alloc idx bag : Prop := forall keys dir, keys_ok procs keys ->
  match key_error strategy_map keys with
  | Some e => index_scan fmgr strategy_map procs alloc idx keys dir = Err e
  | None => exists l, index_scan fmgr strategy_map procs alloc idx keys dir = Ok l /\
      l ≡ₚ List.filter (matches fmgr keys) bag /\ StronglySorted (in_order procs dir) l
  end.

Lemma scan_bag fmgr strategy_map procs alloc W idx bag : Forall OrderProc procs -> StrategyOps fmgr strategy_map procs ->
  holds_bag W procs idx bag -> scans_bag fmgr strategy_map procs alloc idx bag.
Proof.
  intros Hpr Hops [(data & Hr & Hp) _ Hv] keys dir Hk. pose proof (index_rep_sorted _ _ _ _ Hr) as Hs.
  rewrite (scan_index fmgr strategy_map procs alloc idx data _ keys dir Hpr Hops Hk Hr). unfold scan_result.
  - destruct (key_error strategy_map keys); [done|]. eexists. split; [done|]. split.
    + apply filter_perm. rewrite <- Hp. destruct dir; [done|]. by rewrite reverse_Permutation.
    + eapply StronglySorted_sublist; [apply filter_sublist|]. apply StronglySorted_intro. intros i j a b Hij Ha Hb.
      apply list_lookup_fmap_Some in Ha as (x & -> & Hx). apply list_lookup_fmap_Some in Hb as (y & -> & Hy).
      destruct dir; [exact (StronglySorted_lookup _ _ i j x y Hs Hij Hx Hy)|]. pose proof (lookup_lt_Some _ _ _ Hy) as Hj. rewrite length_reverse in Hj.
      rewrite reverse_lookup in Hx, Hy by lia. assert (key_le procs y x) as Hle by (eapply StronglySorted_lookup; [exact Hs| |exact Hy|exact Hx]; lia).
      unfold key_le in Hle. unfold in_order. destruct (key_cmp_order procs Hpr 0) as [Ha _]. pose proof (Ha (t_key x.2) (t_key y.2)). simpl. lia.
  - intros z Hz. rewrite <- Hp in Hv. rewrite Forall_forall in Hv. apply Hv. by apply list_elem_of_fmap_2.
Qed.

(** ** The bytes *)

(** The line pointers of a page that holds these lines. *)
Lemma layout_line enc q p i x : layout enc q p -> Forall line_ok (lines p) -> lines p !! i = Some x ->
  used (pd_linp q (Z.of_nat i)) = true /\ lp_len (pd_linp q (Z.of_nat i)) = x.1.
Proof.
  intros H Hok Hx. pose proof (Forall_lookup_1 _ _ _ _ Hok Hx) as [_ Hsz]. pose proof (lookup_lt_Some _ _ _ Hx) as Hlt.
  pose proof (layout_nlines enc q p H) as Hn. assert (items q !! i = Some (Some (line_bytes enc x))) as Hi.
  { rewrite (lay_items _ _ _ H). by apply (list_lookup_fmap_Some_2 (fun x => Some (line_bytes enc x))). }
  rewrite items_lookup, decide_True in Hi by lia. unfold Bufpage.slot in Hi. destruct (used (pd_linp q (Z.of_nat i))) eqn:Hu; [|done].
  split; [done|]. injection Hi as Hi. apply (f_equal length) in Hi. unfold item_bytes, line_bytes in Hi. rewrite !length_map, !length_seqZ in Hi.
  destruct (Bufpage.lo_in _ _ _ _ (pw_lines q (lay_wf _ _ _ H)) (Z.of_nat i)) as (_ & _ & H0 & _); [unfold below; lia|done|].
  unfold sizeof_BTItemData in Hsz. lia.
Qed.

(** Deleting a line from the list is what [PageIndexTupleDelete] does to the bytes. *)
Lemma layout_delete enc q p o : layout enc q p -> Forall line_ok (lines p) -> 1 <= o <= PageGetMaxOffsetNumber p ->
  layout enc (Bufpage.PageIndexTupleDelete q o) (PageIndexTupleDelete p o).
Proof.
  intros H Hok Ho. pose proof (layout_nlines enc q p H) as Hn. unfold PageGetMaxOffsetNumber in Ho. pose proof (lay_wf _ _ _ H) as Hwf.
  assert (forall i, below (nlines q) i -> exists x, lines p !! Z.to_nat i = Some x /\ used (pd_linp q i) = true /\ lp_len (pd_linp q i) = x.1) as Hline.
  { intros i [Hi1 Hi2]. destruct (lookup_lt_is_Some_2 (lines p) (Z.to_nat i)) as [x Hx]; [lia|]. exists x. split; [done|].
    pose proof (layout_line enc q p (Z.to_nat i) x H Hok Hx) as Hl. by rewrite Z2Nat.id in Hl by lia. }
  assert (forall i, below (nlines q) i -> used (pd_linp q i) = true) as Hu by (intros i Hi; by destruct (Hline i Hi) as (x & _ & Hu & _)).
  assert (forall i, below (nlines q) i -> lp_len (pd_linp q i) < 2 ^ 16) as Hlen.
  { intros i Hi. destruct (Hline i Hi) as (x & Hx & _ & ->). destruct (Forall_lookup_1 _ _ _ _ Hok Hx) as [_ Hsz]. change BTMaxItemSize with 2701 in Hsz. lia. }
  destruct (Hline (o - 1)) as (x & Hx & _ & El); [unfold below; lia|]. pose proof (Forall_lookup_1 _ _ _ _ Hok Hx) as Hxok.
  destruct (Bufpage.delete_wf q o Hwf ltac:(lia) Hu Hlen) as [Hwf' Hn'].
  destruct (PageIndexTupleDelete_eq q o Hwf ltac:(lia) Hu Hlen) as (_ & Eu & Es & _). split; [done| | |].
  - rewrite Es. apply H.
  - rewrite Eu, Es, (lay_upper _ _ _ H). cbn [PageIndexTupleDelete Nbtree.set_lines lines]. rewrite (lines_space_delete _ _ x Hx), length_delete by done.
    rewrite El. unfold line_space. unfold sizeof_ItemIdData. pose proof (lookup_lt_Some _ _ _ Hx). lia.
  - rewrite (delete_items q o Hwf ltac:(lia) Hu Hlen), (lay_items _ _ _ H). cbn [PageIndexTupleDelete Nbtree.set_lines lines].
    rewrite !delete_take_drop, map_app, firstn_map, skipn_map. done.
Qed.

(** ** Theorems *)

(** C8 Bulk deletion refines filtering the list of items.  In an index in order, with items of
    any sizes, in which no heap tuple occurs twice, it removes exactly the items whose heap pointer is in the list
    and counts them, whatever the order and the repetitions of the list, and leaves an index
    in order: stopping early, when as many items as the list has are gone, misses nothing. *)
Theorem bt_bulkdelete_correct fmgr strategy_map procs alloc idx data dels :
  index_rep (fun _ => True) procs idx data -> NoDup (map (fun z => t_tid z.2) data) ->
  exists idx', btbulkdelete fmgr strategy_map procs alloc idx dels =
      Ok (idx', Zlen (List.filter (fun z => bool_decide (t_tid z.2 ∈ dels)) data)) /\
    index_rep (fun _ => True) procs idx' (List.filter (fun z => negb (bool_decide (t_tid z.2 ∈ dels))) data).
Proof. apply bulkdelete_index, any_closed. Qed.

(** An index is a bag of items.  After any sequence of insertions and bulk deletions on an empty
    index, none of which fails, every scan, whatever its keys and its direction, returns
    exactly the matching items of the bag that the operations make, in the order of the scan. *)
Theorem bt_session_correct fmgr strategy_map procs alloc tired W ops :
  (8 | W) -> sizeof_BTItemData <= W <= BTMaxItemSize -> Forall OrderProc procs -> StrategyOps fmgr strategy_map procs ->
  (forall m, m !! alloc m = None /\ alloc m <> P_NONE /\ alloc m <> InvalidBlockNumber) -> ops_ok W [] ops ->
  exists idx, run_ops fmgr strategy_map procs alloc tired (mkIndex ∅ P_NONE 0) ops = Ok idx /\
    scans_bag fmgr strategy_map procs alloc idx (spec_ops [] ops).
Proof.
  intros HW8 HW Hpr Hops Halloc Hok.
  destruct (run_ops_bag fmgr strategy_map procs alloc tired W HW8 HW Hpr Halloc ops (mkIndex ∅ P_NONE 0) []) as (idx & E & H); [|done|].
  { split; [|constructor|constructor]. exists []. split; [by left|done]. }
  exists idx. split; [done|]. by apply (scan_bag fmgr strategy_map procs alloc W).
Qed.

(** ** Witnesses *)

Definition demo_item2 (k o : Z) : BTItem := mkBTItem 2 o 2000 [Some (Val k)].
Definition demo_ops : list index_op :=
  map OpInsert [demo_item2 5 1; demo_item2 3 2; demo_item2 8 3; demo_item2 1 4; demo_item2 9 5; demo_item2 4 6; demo_item2 5 7] ++
  [OpBulkDelete [(2, 4); (2, 1); (1, 9); (2, 3)]; OpInsert (demo_item2 6 4)].

Lemma demo_ops_ok : ops_ok 2000 [] demo_ops.
Proof.
  unfold demo_ops. cbn [map app ops_ok]. repeat first [split | exact I]; try reflexivity; try discriminate; apply (bool_decide_unpack _); vm_compute; exact I.
Qed.

Lemma bt_session_correct_witness : exists idx l,
  run_ops int4_fmgr int4_strategy_map [btint4cmp] demo_alloc (fun _ => false) (mkIndex ∅ P_NONE 0) demo_ops = Ok idx /\
  index_scan int4_fmgr int4_strategy_map [btint4cmp] demo_alloc idx demo_quals ForwardScanDirection = Ok l /\
  l ≡ₚ [demo_item2 6 4; demo_item2 5 7; demo_item2 4 6].
Proof.
  destruct (bt_session_correct int4_fmgr int4_strategy_map [btint4cmp] demo_alloc (fun _ => false) 2000 demo_ops (proj1 demo_width) (proj2 demo_width)
    demo_procs_ok int4_ops demo_alloc_ok demo_ops_ok) as (idx & E & H).
  destruct (H demo_quals ForwardScanDirection demo_quals_ok) as (l & El & Hp & _). exists idx, l. split; [exact E|]. split; [exact El|].
  rewrite Hp. reflexivity.
Defined.

Definition demo_data : list BTItem := [demo_item2 5 1; demo_item2 3 2; demo_item2 8 3; demo_item2 1 4; demo_item2 9 5].

Lemma demo_deletable : exists idx data, build demo_data = Ok idx /\ index_rep (tree_wide 2000) [btint4cmp] idx data /\
  data ≡ₚ map (fun it => (2000, it)) demo_data.
Proof.
  destruct (insert_all_ok demo_alloc (fun _ => false) 2000 [btint4cmp] demo_data (proj1 demo_width) (proj2 demo_width)
    demo_procs_ok demo_alloc_ok) with (idx := mkIndex ∅ P_NONE 0) (data := @nil (Z * BTItem)) as (idx & data & E & H & Hp).
  - unfold demo_data. repeat constructor.
  - left. split; reflexivity.
  - rewrite app_nil_r in Hp. exact (ex_intro _ idx (ex_intro _ data (conj E (conj H Hp)))).
Qed.

Lemma bt_bulkdelete_correct_witness : exists idx idx',
  build demo_data = Ok idx /\ btbulkdelete int4_fmgr int4_strategy_map [btint4cmp] demo_alloc idx [(2, 4); (2, 9); (2, 1)] = Ok (idx', 2).
Proof.
  destruct demo_deletable as (idx & data & E & H & Hp).
  destruct (bt_bulkdelete_correct int4_fmgr int4_strategy_map [btint4cmp] demo_alloc idx data [(2, 4); (2, 9); (2, 1)]) as (idx' & Ed & _).
  - exact (index_rep_any _ _ _ _ H).
  - rewrite Hp. apply (bool_decide_unpack _). vm_compute. exact I.
  - exists idx, idx'. split; [exact E|]. rewrite Ed. do 2 f_equal. rewrite (Permutation_length (filter_perm _ _ _ Hp)). reflexivity.
Defined.

(** Three of five items. *)
Example bt_bulkdelete_demo : (idx ← build demo_data; r ← btbulkdelete int4_fmgr int4_strategy_map [btint4cmp] demo_alloc idx [(2, 4); (2, 9); (2, 1)];
  l ← index_scan int4_fmgr int4_strategy_map [btint4cmp] demo_alloc r.1 [] BackwardScanDirection; Ok (r.2, map t_tid l)) = Ok (2, [(2, 5); (2, 3); (2, 2)]).
Proof. vm_compute. reflexivity. Qed.

End NbtDelete.
