(* ===== verification/NbtSort.v ===== *)
(** * Bulk loading of a B-tree ([access/nbtree/nbtsort.c])

    An index is built from items that come in order: every item is added to the page under
    construction of the lowest level; a page that is full is finished, and linked into the page
    under construction one level up, which may finish that one.  The model has a state per
    level, as the code has, and the pages in the file; the proof describes a level by the
    items of its pages, from which the pages are computed, and the levels by the equation that the items
    of a level are the links to the finished pages below. *)

From S2P Require Import Prelude.
From S2P Require Import Bufpage.
From S2P Require Import Heaptuple.
From S2P Require Import Nbtcompare.
From S2P Require Import Nbtree.
From S2P Require Import NbtTree.
From S2P Require Import NbtQual.
From S2P Require Import NbtScan.
From S2P Require Import NbtDelete.
From Stdlib Require Import Sorting.Sorted.

Local Open Scope Z_scope.

Module NbtSort.
Import Heaptuple Nbtcompare Nbtree NbtTree NbtQual NbtScan NbtDelete.

(** ** The code *)

(** The page [btps_page] is the page of [btps_buf]; [btps_next] is the next element of
    a list of states, leaves first. *)
Record BTPageState := mkState {
  btps_buf : Z;
  btps_minkey : option BTItem;
  btps_lastoff : Z;
  btps_level : Z;
  btps_full : Z }.

(** [sizeof(BTItemData)] is [sizeof(IndexTupleData)]. *)
Definition BTITEMSZ (btitem : BTItem) : Z := IndexTupleDSize btitem.

(** The line pointers from [P_FIRSTKEY] on, one slot back. *)
Fixpoint slide_loop (n : nat) (off : Z) (l : list (Z * BTItem)) : list (Z * BTItem) :=
  match n with
  | O => l
  | S n => slide_loop n (off + 1) (aset l (off - 2) (aget (0, null_item) l (off - 1)))
  end.
Definition _bt_slideleft (page : BTPage) : BTPage :=
  if PageIsEmpty page then page
  else
    let n := Z.to_nat (PageGetMaxOffsetNumber page - P_FIRSTKEY + 1) in
    Nbtree.set_lines page (take n (slide_loop n P_FIRSTKEY (lines page))).

Definition _bt_sortaddtup (page : BTPage) (itemsize : Z) (btitem : BTItem) (itup_off : Z) : result BTPage :=
  let '(itemsize, btitem) :=
    if negb (P_ISLEAF (opaque page)) && (itup_off =? P_FIRSTKEY)
    then (sizeof_BTItemData, strip_item btitem) else (itemsize, btitem) in
  match Nbtree.PageAddItem page btitem itemsize itup_off with
  | Some page => Ok page
  | None => Err "btree: failed to add item to the page in _bt_sort"
  end.

(** The last item becomes the high key: [*hii = *ii], and one line pointer less. *)
Definition to_hikey (opage : BTPage) (last_off : Z) : BTPage :=
  let ii := aget (0, null_item) (lines opage) (last_off - 1) in
  Nbtree.set_lines opage (take (length (lines opage) - 1) (aset (lines opage) (P_HIKEY - 1) ii)).

Definition set_siblings (page : BTPage) (prev next parent : Z) : BTPage :=
  set_opaque page (mkOpaque prev next parent (btpo_flags (opaque page))).

Section Build.
Context (alloc : gmap Z BTPage -> Z).

Definition _bt_blnewpage (idx : Index) (flags : Z) : Index * Z :=
  let buf := alloc (pages idx) in
  let page := set_opaque _bt_pageinit (mkOpaque P_NONE P_NONE (btpo_parent (opaque _bt_pageinit)) flags) in
  (set_page idx buf (Nbtree.set_lines page [(0, null_item)]), buf).

Definition _bt_pagestate (idx : Index) (flags level : Z) : Index * BTPageState :=
  let '(idx, buf) := _bt_blnewpage idx flags in
  (idx, mkState buf None P_HIKEY level (if level >? 0 then (BLCKSZ * 3) / 10 else BLCKSZ / 10)).

(** Adding the new item to the current page. *)
Definition add_last (idx : Index) (state : BTPageState) (parents : list BTPageState) (nbuf last_off : Z)
    (minkey : option BTItem) (btisz : Z) (bti : BTItem) : result (Index * list BTPageState) :=
  minkey ← (if last_off =? P_HIKEY
            then match minkey with None => Ok (Some bti) | Some _ => Err "Assert" end
            else Ok minkey);
  let last_off := OffsetNumberNext last_off in
  npage ← getpage idx nbuf;
  npage ← _bt_sortaddtup npage btisz bti last_off;
  Ok (set_page idx nbuf npage, mkState nbuf minkey last_off (btps_level state) (btps_full state) :: parents).

(** Finishing the page [opage] of [state]; [add] adds an item to the levels above. *)
Definition finish_page (add : Index -> list BTPageState -> BTItem -> result (Index * list BTPageState)) (idx : Index)
    (state : BTPageState) (parents : list BTPageState) (opage : BTPage) :
    result (Index * list BTPageState * Z * Z * option BTItem) :=
  let obuf := btps_buf state in
  let last_off := btps_lastoff state in
  let '(idx, nbuf) := _bt_blnewpage idx (if btps_level state >? 0 then 0 else BTP_LEAF) in
  _ ← ereport_unless (last_off >? P_FIRSTKEY) "Assert";
  let obti := PageGetItem opage last_off in
  npage ← getpage idx nbuf;
  npage ← _bt_sortaddtup npage (Nbtree.ItemIdGetLength opage last_off) obti P_FIRSTKEY;
  let idx := set_page (set_page idx nbuf npage) obuf (to_hikey opage last_off) in
  let '(idx, parents) :=
    match parents with
    | [] => let '(idx, s) := _bt_pagestate idx 0 (btps_level state + 1) in (idx, [s])
    | _ => (idx, parents)
    end in
  match btps_minkey state with
  | None => Err "Assert"
  | Some minkey =>
      r ← add idx parents (ItemPointerSet minkey obuf P_HIKEY);
      let '(idx, parents) := r in
      let parent := match parents with s :: _ => btps_buf s | [] => InvalidBlockNumber end in
      opage ← getpage idx obuf;
      npage ← getpage idx nbuf;
      let idx := set_page idx obuf (set_siblings opage (btpo_prev (opaque opage)) nbuf parent) in
      let idx := set_page idx nbuf (set_siblings npage obuf P_NONE parent) in
      Ok (idx, parents, nbuf, P_FIRSTKEY, Some obti)
  end.

(** [states] is the state of the level with those above it; every level takes one unit of
    [fuel], and one level may be new. *)
Fixpoint _bt_buildadd (fuel : nat) (idx : Index) (states : list BTPageState) (bti : BTItem) :
    result (Index * list BTPageState) :=
  match fuel, states with
  | S fuel, state :: parents =>
      npage ← getpage idx (btps_buf state);
      let pgspc := Nbtree.PageGetFreeSpace npage in
      let btisz := MAXALIGN (BTITEMSZ bti) in
      if btisz >? BTMaxItemSize then Err "btree: index item size exceeds maximum"
      else
        r ← (if (pgspc <? btisz) || (pgspc <? btps_full state)
             then finish_page (_bt_buildadd fuel) idx state parents npage
             else Ok (idx, parents, btps_buf state, btps_lastoff state, btps_minkey state));
        let '(idx, parents, nbuf, last_off, minkey) := r in
        add_last idx state parents nbuf last_off minkey btisz bti
  | _, _ => Err "fuel"
  end.

(** Every turn completes a level; adding the link of its last page can make a new one. *)
Fixpoint _bt_uppershutdown (fuel : nat) (idx : Index) (states : list BTPageState) : result Index :=
  match fuel, states with
  | S fuel, s :: next =>
      let blkno := btps_buf s in
      r ← (match next with
           | [] =>
               page ← getpage idx blkno;
               let op := opaque page in
               let page := set_opaque page (mkOpaque (btpo_prev op) (btpo_next op) BTREE_METAPAGE (Z.lor (btpo_flags op) BTP_ROOT)) in
               Ok (set_root (set_page idx blkno page) blkno (btps_level s + 1), [])
           | _ =>
               match btps_minkey s with
               | None => Err "Assert"
               | Some minkey => _bt_buildadd (2 + length next) idx next (ItemPointerSet minkey blkno P_HIKEY)
               end
           end);
      let '(idx, next) := r in
      page ← getpage idx blkno;
      let idx := set_page idx blkno (_bt_slideleft page) in
      match next with [] => Ok idx | _ => _bt_uppershutdown fuel idx next end
  | _, _ => Err "fuel"
  end.

(** [_bt_load]: [its] are the items that [tuplesort_getindextuple] returns. *)
Fixpoint load_loop (idx : Index) (state : list BTPageState) (its : list BTItem) : result (Index * list BTPageState) :=
  match its with
  | [] => Ok (idx, state)
  | it :: its =>
      let '(idx, state) :=
        match state with
        | [] => let '(idx, s) := _bt_pagestate idx BTP_LEAF 0 in (idx, [s])
        | _ => (idx, state)
        end in
      r ← _bt_buildadd (2 + length state) idx state it;
      load_loop r.1 r.2 its
  end.
Definition _bt_load (idx : Index) (its : list BTItem) : result Index :=
  r ← load_loop idx [] its;
  match r.2 with
  | [] => Ok r.1
  | _ => _bt_uppershutdown (2 + size (pages r.1)) r.1 r.2
  end.
End Build.

(** ** Levels as the items of their pages *)

Notation line := (Z * BTItem)%type.
Definition line_of (it : BTItem) : line := (MAXALIGN (IndexTupleDSize it), it).
Definition item_ok (it : BTItem) : Prop := line_ok (line_of it).

(** The lines of the data items: an inner page does not keep its first key. *)
Definition store (leaf : bool) (d : list BTItem) : list line :=
  if leaf then map line_of d else match d with [] => [] | x :: d => (sizeof_BTItemData, strip_item x) :: map line_of d end.

(** A page as its block, its parent link and its items, with all keys. *)
Record gpage := mkG { g_blk : Z; g_par : Z; g_items : list BTItem }.

(** What is to the right of a page: its right link and the line of its high key. *)
Notation edge := (Z * list line)%type.
Definition start (g : list gpage) (e : edge) : edge :=
  match g with [] => e | y :: _ => (g_blk y, map line_of (take 1 (g_items y))) end.
Definition building : edge := (P_NONE, [(0, null_item)]).
Definition done_edge : edge := (P_NONE, []).

Section Level.
Context (leaf : bool) (flags : Z).

Definition gpage_page (prev : Z) (x : gpage) (e : edge) : BTPage :=
  mkBTPage (mkOpaque prev e.1 (g_par x) flags) (e.2 ++ store leaf (g_items x)).
Fixpoint glevel (prev : Z) (g : list gpage) (e : edge) : level :=
  match g with
  | [] => []
  | x :: g => (g_blk x, gpage_page prev x (start g e)) :: glevel (g_blk x) g e
  end.

Definition lastb (prev : Z) (g : list gpage) : Z := fold_left (fun _ x => g_blk x) g prev.

Lemma start_app a b e : start (a ++ b) e = start a (start b e).
Proof. by destruct a. Qed.

Lemma glevel_app a b e : forall prev, glevel prev (a ++ b) e = glevel prev a (start b e) ++ glevel (lastb prev a) b e.
Proof. induction a as [|x a IH]; intros prev; [done|]. cbn [glevel app lastb fold_left]. rewrite start_app, IH. done. Qed.

Lemma glevel_snoc a c e prev : glevel prev (a ++ [c]) e = glevel prev a (start [c] e) ++ [(g_blk c, gpage_page (lastb prev a) c e)].
Proof. apply glevel_app. Qed.

Lemma glevel_blocks g e : forall prev, map fst (glevel prev g e) = map g_blk g.
Proof. induction g as [|x g IH]; intros prev; [done|]. simpl. by rewrite IH. Qed.
End Level.

Lemma store_snoc leaf d x : d <> [] -> store leaf (d ++ [x]) = store leaf d ++ [line_of x].
Proof. intros H. unfold store. destruct leaf; [by rewrite map_app|]. destruct d; [done|]. simpl. by rewrite map_app. Qed.

Lemma store_length leaf d : length (store leaf d) = length d.
Proof. unfold store. destruct leaf; [apply length_map|]. destruct d; [done|]. simpl. by rewrite length_map. Qed.

Lemma header_line_ok it : line_ok (sizeof_BTItemData, it).
Proof. split; [by exists 2|]. change (16 <= 16 <= 2701). lia. Qed.

Lemma items_lines d : Forall item_ok d -> Forall line_ok (map line_of d).
Proof. intros H. by apply Forall_fmap. Qed.

Lemma store_ok leaf d : Forall item_ok d -> Forall line_ok (store leaf d).
Proof.
  intros H. unfold store. destruct leaf; [by apply items_lines|]. destruct H as [|x d Hx H]; [constructor|].
  constructor; [apply header_line_ok|by apply items_lines].
Qed.

Lemma line_of_space x : item_ok x -> line_space (line_of x) = MAXALIGN (BTITEMSZ x) + 8 /\ 24 <= line_space (line_of x) <= 2704.
Proof. apply line_space_ok. Qed.

Lemma store_space_1 leaf x : item_ok x -> 24 <= lines_space (store leaf [x]) <= line_space (line_of x).
Proof.
  intros Hx. pose proof (line_space_ok _ Hx). unfold store. destruct leaf; cbn [map lines_space]; [lia|].
  pose proof (line_space_ok _ (header_line_ok (strip_item x))). unfold line_space at 2. simpl. change (MAXALIGN sizeof_BTItemData) with 16. unfold sizeof_ItemIdData. lia.
Qed.

Lemma store_space_snoc leaf d x : item_ok x ->
  lines_space (store leaf (d ++ [x])) <= lines_space (store leaf d) + line_space (line_of x).
Proof.
  intros Hx. destruct (decide (d = [])) as [->|Hd].
  - pose proof (store_space_1 leaf x Hx). assert (lines_space (store leaf []) = 0) as -> by by destruct leaf. simpl app. lia.
  - rewrite store_snoc, lines_space_app by done. cbn [lines_space]. lia.
Qed.

(** *** The operations on a page under construction *)

(** The page at the end of a level. *)
Definition cpage (leaf : bool) (flags prev : Z) (c : gpage) : BTPage := gpage_page leaf flags prev c building.

Lemma null_line_space : line_space (0, null_item) = 8.
Proof. reflexivity. Qed.

Lemma sortadd_ok leaf flags prev c bti : P_ISLEAF (mkOpaque 0 0 0 flags) = leaf -> item_ok bti ->
  line_space (line_of bti) <= page_free (cpage leaf flags prev c) ->
  _bt_sortaddtup (cpage leaf flags prev c) (MAXALIGN (BTITEMSZ bti)) bti (2 + Zlen (g_items c)) =
    Ok (cpage leaf flags prev (mkG (g_blk c) (g_par c) (g_items c ++ [bti]))).
Proof.
  intros Hl Hb Hfree. unfold _bt_sortaddtup. change (P_ISLEAF (opaque _)) with (P_ISLEAF (mkOpaque 0 0 0 flags)). rewrite Hl.
  set (page := cpage leaf flags prev c). assert (forall sz it, line_space (sz, it) <= line_space (line_of bti) ->
    Nbtree.PageAddItem page it sz (2 + Zlen (g_items c)) = Some (Nbtree.set_lines page (lines page ++ [(sz, it)]))) as Hadd.
  { intros sz it Hx. unfold Nbtree.PageAddItem. rewrite (proj2 (Z.leb_le _ _)) by (unfold page; lia).
    assert (length (lines page) = Z.to_nat (2 + Zlen (g_items c) - 1)) as E.
    { unfold page, cpage, gpage_page. cbn [lines building snd app length]. rewrite store_length. lia. }
    rewrite <- E, firstn_all, drop_all. done. }
  destruct (decide (g_items c = [])) as [E|E].
  - rewrite E in *. change (2 + Zlen []) with 2 in *. rewrite Z.eqb_refl, andb_true_r. destruct leaf; cbn [negb].
    + rewrite (Hadd (MAXALIGN (BTITEMSZ bti)) bti) by done. unfold page, cpage, gpage_page, Nbtree.set_lines. cbn [opaque lines g_par g_items app]. by rewrite E.
    + rewrite (Hadd sizeof_BTItemData (strip_item bti)).
      * unfold page, cpage, gpage_page, Nbtree.set_lines. cbn [opaque lines g_par g_items app]. by rewrite E.
      * pose proof (line_space_ok _ Hb). change (line_space (sizeof_BTItemData, strip_item bti)) with 24. lia.
  - assert ((2 + Zlen (g_items c) =? P_FIRSTKEY) = false) as ->.
    { apply Z.eqb_neq. destruct (g_items c); [done|]. simpl. unfold P_FIRSTKEY. lia. }
    rewrite andb_false_r. rewrite (Hadd (MAXALIGN (BTITEMSZ bti)) bti) by done. unfold page, cpage, gpage_page, Nbtree.set_lines.
    cbn [opaque lines g_par g_items]. by rewrite store_snoc, (assoc_L (++)).
Qed.

Lemma take_aset_0 {A} (y x : A) l : take (length (y :: l ++ [x]) - 1) (aset (y :: l ++ [x]) 0 x) = x :: l.
Proof. unfold aset. simpl. rewrite length_app. simpl. rewrite Nat.add_comm. simpl. f_equal. by rewrite take_app_length. Qed.

(** Turning the last item into the high key. *)
Lemma to_hikey_ok leaf flags prev b par d x : d <> [] ->
  to_hikey (cpage leaf flags prev (mkG b par (d ++ [x]))) (1 + Zlen (d ++ [x])) =
    gpage_page leaf flags prev (mkG b par d) (P_NONE, [line_of x]).
Proof.
  intros Hd. unfold to_hikey, cpage, gpage_page. cbn [lines g_items building fst snd opaque g_par app].
  rewrite store_snoc by done. assert (aget (0, null_item) ((0, null_item) :: store leaf d ++ [line_of x]) (1 + Zlen (d ++ [x]) - 1) = line_of x) as E.
  { replace (1 + Zlen (d ++ [x]) - 1) with (Zlen ((0, null_item) :: store leaf d)) by (rewrite length_app; cbn [length]; rewrite store_length; lia).
    change ((0, null_item) :: store leaf d ++ [line_of x]) with (((0, null_item) :: store leaf d) ++ [line_of x]).
    rewrite aget_app by lia. rewrite Z.ltb_irrefl, Z.sub_diag. done. }
  unfold Nbtree.set_lines. cbn [lines opaque]. rewrite E. change (P_HIKEY - 1) with 0. by rewrite take_aset_0.
Qed.

Lemma last_item_ok leaf flags prev b par d x : d <> [] ->
  let p := cpage leaf flags prev (mkG b par (d ++ [x])) in let o := 1 + Zlen (d ++ [x]) in
  PageGetItem p o = x /\ Nbtree.ItemIdGetLength p o = MAXALIGN (BTITEMSZ x).
Proof.
  intros Hd p o. unfold PageGetItem, Nbtree.ItemIdGetLength, p, cpage, gpage_page. cbn [lines g_items building fst snd].
  rewrite store_snoc by done. assert (aget (0, null_item) ([(0, null_item)] ++ store leaf d ++ [line_of x]) (o - 1) = line_of x) as ->; [|done].
  unfold o. replace (1 + Zlen (d ++ [x]) - 1) with (Zlen ([(0, null_item)] ++ store leaf d)) by (rewrite !length_app, store_length; simpl; lia).
  rewrite (assoc_L (++)), aget_app by lia. by rewrite Z.ltb_irrefl, Z.sub_diag.
Qed.

(** ** The levels under construction *)

Definition leaf_at (l : nat) : bool := bool_decide (l = 0%nat).
Definition flags_at (l : nat) : Z := if leaf_at l then BTP_LEAF else 0.
Definition full_at (l : nat) : Z := if leaf_at l then 819 else 2457.

Lemma flags_leaf l : P_ISLEAF (mkOpaque 0 0 0 (flags_at l)) = leaf_at l.
Proof. unfold flags_at. by destruct (leaf_at l). Qed.

Lemma level_cases {A} l (a b : A) : (if Z.of_nat l >? 0 then a else b) = if leaf_at l then b else a.
Proof. unfold leaf_at. rewrite Z.gtb_ltb. destruct (Z.ltb_spec 0 (Z.of_nat l)), (bool_decide_reflect (l = 0%nat)); done || lia. Qed.

(** The finished pages of a level and the page under construction. *)
Notation glev := (list gpage * gpage)%type.
Definition lev_pages (l : nat) (lv : glev) (e : edge) : level := glevel (leaf_at l) (flags_at l) P_NONE (lv.1 ++ [lv.2]) e.
Definition lev_items (lv : glev) : list BTItem := concat (map g_items (lv.1 ++ [lv.2])).
Definition lev_blocks (lv : glev) : list Z := map g_blk (lv.1 ++ [lv.2]).

(** The pages are in the file and not overfull. *)
Definition in_file (idx : Index) (lv : level) : Prop := Forall (fun x => pages idx !! x.1 = Some x.2 /\ 0 <= page_free x.2) lv.

(** The link to a page: its block, with the first key of the page. *)
Definition entry (x : gpage) : BTItem := ItemPointerSet (default null_item (head (g_items x))) (g_blk x) P_HIKEY.

Record level_build (l : nat) (s : BTPageState) (lv : glev) : Prop := {
  lb_buf : btps_buf s = g_blk lv.2;
  lb_min : btps_minkey s = head (g_items lv.2);
  lb_off : btps_lastoff s = 1 + Zlen (g_items lv.2);
  lb_level : btps_level s = Z.of_nat l;
  lb_full : btps_full s = full_at l;
  lb_chunks : Forall (fun x => g_items x <> []) lv.1;
  lb_cur : lv.1 <> [] -> (2 <= length (g_items lv.2))%nat;
  lb_items : Forall item_ok (lev_items lv);
  lb_par : lv.1 <> [] -> Forall (fun x => g_par x <> InvalidBlockNumber) (lv.1 ++ [lv.2]) }.

(** The levels from [l] on: the items of a level are the links to the finished pages below. *)
Fixpoint tower (l : nat) (idx : Index) (ss : list BTPageState) (G : list glev) : Prop :=
  match ss, G with
  | s :: ss, lv :: G =>
      level_build l s lv /\ in_file idx (lev_pages l lv building) /\
      match G with
      | [] => ss = [] /\ lv.1 = []
      | up :: _ => lv.1 <> [] /\ lev_items up = map entry lv.1 /\ tower (S l) idx ss G
      end
  | _, _ => False
  end.

Definition blocks (G : list glev) : list Z := concat (map lev_blocks G).

Lemma lev_pages_blocks l lv e : map fst (lev_pages l lv e) = lev_blocks lv.
Proof. apply glevel_blocks. Qed.

Lemma in_file_ext idx idx' lv : (forall b, b ∈ map fst lv -> pages idx' !! b = pages idx !! b) -> in_file idx lv -> in_file idx' lv.
Proof.
  intros H Hin. apply Forall_forall. intros x Hx. eapply Forall_forall in Hin; [|exact Hx]. rewrite H; [done|]. by apply list_elem_of_fmap_2.
Qed.

Lemma in_file_block idx lv b : in_file idx lv -> b ∈ map fst lv -> pages idx !! b <> None.
Proof. intros H (x & -> & Hx)%list_elem_of_fmap. eapply Forall_forall in H; [|exact Hx]. by rewrite (proj1 H). Qed.

(** Nothing but its own pages matters to a tower. *)
Lemma tower_ext idx idx' G : forall l ss, (forall b, b ∈ blocks G -> pages idx' !! b = pages idx !! b) ->
  tower l idx ss G -> tower l idx' ss G.
Proof.
  induction G as [|lv G IH]; intros l [|s ss] H; cbn [tower]; try done. intros (Hb & Hin & Hup).
  assert (forall b, b ∈ lev_blocks lv \/ b ∈ blocks G -> pages idx' !! b = pages idx !! b) as H'.
  { intros b Hb'. apply H. change (blocks (lv :: G)) with (lev_blocks lv ++ blocks G). by apply elem_of_app. }
  split_and!; [done| |].
  - eapply in_file_ext; [|exact Hin]. intros b Hb'. apply H'. left. by rewrite lev_pages_blocks in Hb'.
  - destruct G as [|up G]; [done|]. destruct Hup as (? & ? & Hup). split_and!; [done|done|]. apply IH; [|done]. intros b Hb'. apply H'. by right.
Qed.

Lemma tower_in_file idx G b : forall l ss, tower l idx ss G -> b ∈ blocks G -> pages idx !! b <> None.
Proof.
  induction G as [|lv G IH]; intros l [|s ss] H Hb; cbn [tower] in H; try done.
  destruct H as (_ & Hin & Hup). change (blocks (lv :: G)) with (lev_blocks lv ++ blocks G) in Hb. apply elem_of_app in Hb as [Hb|Hb].
  - eapply in_file_block; [exact Hin|]. by rewrite lev_pages_blocks.
  - destruct G as [|up G]; [by apply elem_of_nil in Hb|]. destruct Hup as (_ & _ & Hup). by eapply IH.
Qed.

(** What an operation on the levels with blocks [B] does to the rest of the file. *)
Definition valid_blk (b : Z) : Prop := b <> P_NONE /\ b <> InvalidBlockNumber.
Record framed (idx : Index) (B : list Z) (idx' : Index) (B' : list Z) : Prop := {
  fr_nodup : NoDup B';
  fr_valid : Forall valid_blk B';
  fr_other : forall b, pages idx !! b <> None -> b ∉ B -> pages idx' !! b = pages idx !! b;
  fr_new : forall b, b ∈ B' -> b ∈ B \/ pages idx !! b = None }.

(** The page under construction. *)
Lemma tower_cur l idx s ss lv G : tower l idx (s :: ss) (lv :: G) ->
  pages idx !! btps_buf s = Some (cpage (leaf_at l) (flags_at l) (lastb P_NONE lv.1) lv.2) /\
  0 <= page_free (cpage (leaf_at l) (flags_at l) (lastb P_NONE lv.1) lv.2) /\
  in_file idx (glevel (leaf_at l) (flags_at l) P_NONE lv.1 (start [lv.2] building)).
Proof.
  intros (Hb & Hin & _). rewrite (lb_buf _ _ _ Hb). unfold lev_pages in Hin. rewrite glevel_snoc in Hin.
  apply Forall_app in Hin as [H1 H2]. apply Forall_cons in H2 as [[H2 H3] _]. done.
Qed.

Lemma cpage_free leaf flags prev c : page_free (cpage leaf flags prev c) = 8128 - lines_space (store leaf (g_items c)).
Proof. unfold page_free, cpage, gpage_page. cbn [lines building snd app lines_space]. rewrite null_line_space. change page_room with 8136. lia. Qed.

Lemma cpage_space leaf flags prev c : 8 <= page_free (cpage leaf flags prev c) ->
  Nbtree.PageGetFreeSpace (cpage leaf flags prev c) = page_free (cpage leaf flags prev c) - 8.
Proof. intros H. unfold Nbtree.PageGetFreeSpace. change sizeof_ItemIdData with 8. destruct (Z.ltb_spec (page_free (cpage leaf flags prev c)) 8); [lia|done]. Qed.

(** A page with fewer than two items is not full. *)
Lemma full_two leaf flags prev c l bti : item_ok bti -> Forall item_ok (g_items c) -> 0 <= page_free (cpage leaf flags prev c) ->
  Nbtree.PageGetFreeSpace (cpage leaf flags prev c) < MAXALIGN (BTITEMSZ bti) \/
  Nbtree.PageGetFreeSpace (cpage leaf flags prev c) < full_at l -> (2 <= length (g_items c))%nat.
Proof.
  intros Hb Hc Hf H. destruct (decide (2 <= length (g_items c))%nat) as [|Hlt]; [done|exfalso].
  pose proof (line_of_space bti Hb). assert (full_at l <= 2457) by (unfold full_at; destruct (leaf_at l); lia).
  pose proof (cpage_free leaf flags prev c) as E. destruct (g_items c) as [|x [|y d]] eqn:Ec; [| |simpl in Hlt; lia].
  - assert (lines_space (store leaf []) = 0) as E0 by by destruct leaf. rewrite cpage_space in H by lia. lia.
  - apply Forall_cons in Hc as [Hx _]. pose proof (store_space_1 leaf x Hx). pose proof (line_of_space x Hx). rewrite cpage_space in H by lia. lia.
Qed.

Definition with_item (c : gpage) (it : BTItem) : gpage := mkG (g_blk c) (g_par c) (g_items c ++ [it]).

Lemma add_last_ok l idx s ss c prev last_off minkey bti :
  pages idx !! g_blk c = Some (cpage (leaf_at l) (flags_at l) prev c) -> Forall item_ok (g_items c) -> item_ok bti ->
  line_space (line_of bti) <= page_free (cpage (leaf_at l) (flags_at l) prev c) -> last_off = 1 + Zlen (g_items c) -> (g_items c = [] -> minkey = None) ->
  add_last idx s ss (g_blk c) last_off minkey (MAXALIGN (BTITEMSZ bti)) bti =
    Ok (set_page idx (g_blk c) (cpage (leaf_at l) (flags_at l) prev (with_item c bti)),
        mkState (g_blk c) (match g_items c with [] => Some bti | _ => minkey end) (1 + Zlen (g_items (with_item c bti)))
          (btps_level s) (btps_full s) :: ss) /\
  0 <= page_free (cpage (leaf_at l) (flags_at l) prev (with_item c bti)).
Proof.
  intros Hpg Hc Hb Hfree -> Hmin. pose proof (line_of_space bti Hb) as Hsp. rewrite !cpage_free in *. split.
  - unfold add_last. assert ((if 1 + Zlen (g_items c) =? P_HIKEY then match minkey with None => Ok (Some bti) | Some _ => Err "Assert" end else Ok minkey) =
      Ok (match g_items c with [] => Some bti | _ => minkey end)) as ->.
    { destruct (g_items c) as [|i d]; [by rewrite Hmin|]. unfold P_HIKEY. cbn [length]. by destruct (Z.eqb_spec (1 + Z.of_nat (S (length d))) 1); [lia|]. }
    unfold getpage. rewrite Hpg. cbn [mbind result_bind].
    pose proof (lines_space_pos _ (store_ok (leaf_at l) _ Hc)) as Hn. rewrite store_length in Hn.
    assert (OffsetNumberNext (1 + Zlen (g_items c)) = 2 + Zlen (g_items c)) as -> by (unfold OffsetNumberNext; rewrite u16_id; lia).
    rewrite sortadd_ok by (done || apply flags_leaf || rewrite cpage_free; lia). cbn [mbind result_bind]. do 4 f_equal.
    cbn [with_item g_items]. rewrite length_app. simpl. lia.
  - cbn [with_item g_items]. pose proof (store_space_snoc (leaf_at l) (g_items c) bti Hb). lia.
Qed.

(** A tower from its lowest level and the rest. *)
Lemma tower_cons l idx s ss fin c G : level_build l s (fin, c) ->
  in_file idx (glevel (leaf_at l) (flags_at l) P_NONE fin (start [c] building)) ->
  pages idx !! g_blk c = Some (cpage (leaf_at l) (flags_at l) (lastb P_NONE fin) c) ->
  0 <= page_free (cpage (leaf_at l) (flags_at l) (lastb P_NONE fin) c) ->
  match G with [] => ss = [] /\ fin = [] | up :: _ => fin <> [] /\ lev_items up = map entry fin /\ tower (S l) idx ss G end ->
  tower l idx (s :: ss) ((fin, c) :: G).
Proof.
  intros Hb Hin Hpg Hf Hup. split_and!; [done| |done]. unfold lev_pages. cbn [fst snd]. rewrite glevel_snoc. apply Forall_app. split; [done|].
  constructor; [done|constructor].
Qed.

Lemma lev_items_snoc fin c : lev_items (fin, c) = concat (map g_items fin) ++ g_items c.
Proof. unfold lev_items. cbn [fst snd]. rewrite map_app, concat_app. simpl. by rewrite app_nil_r. Qed.

Lemma lev_items_with fin c it : lev_items (fin, with_item c it) = lev_items (fin, c) ++ [it].
Proof. rewrite !lev_items_snoc. cbn [with_item g_items]. by rewrite (assoc_L (++)). Qed.

Lemma blocks_cons lv G : blocks (lv :: G) = lev_blocks lv ++ blocks G.
Proof. done. Qed.
Lemma lev_blocks_snoc fin c : lev_blocks (fin, c) = map g_blk fin ++ [g_blk c].
Proof. unfold lev_blocks. cbn [fst snd]. by rewrite map_app. Qed.

Lemma start_with c it e : g_items c <> [] -> start [with_item c it] e = start [c] e.
Proof. intros H. unfold start. cbn [with_item g_items g_blk]. by destruct (g_items c). Qed.

Lemma pages_set_ne idx b p b' : b' <> b -> pages (set_page idx b p) !! b' = pages idx !! b'.
Proof. intros H. cbn [set_page pages]. by apply lookup_insert_ne. Qed.
Lemma pages_set_eq idx b p : pages (set_page idx b p) !! b = Some p.
Proof. cbn [set_page pages]. apply lookup_insert_eq. Qed.

Lemma cur_items l s lv : level_build l s lv -> Forall item_ok (g_items lv.2).
Proof. intros H. pose proof (lb_items _ _ _ H) as Hi. destruct lv as [fin c]. rewrite lev_items_snoc in Hi. by apply Forall_app in Hi as [_ Hi]. Qed.

(** Adding an item that fits. *)
Lemma add_fits l idx s ss fin c G bti : tower l idx (s :: ss) ((fin, c) :: G) -> NoDup (blocks ((fin, c) :: G)) ->
  Forall valid_blk (blocks ((fin, c) :: G)) -> item_ok bti ->
  line_space (line_of bti) <= page_free (cpage (leaf_at l) (flags_at l) (lastb P_NONE fin) c) ->
  exists idx' s', add_last idx s ss (btps_buf s) (btps_lastoff s) (btps_minkey s) (MAXALIGN (BTITEMSZ bti)) bti = Ok (idx', s' :: ss) /\
    tower l idx' (s' :: ss) ((fin, with_item c bti) :: G) /\ framed idx (blocks ((fin, c) :: G)) idx' (blocks ((fin, with_item c bti) :: G)).
Proof.
  intros Ht Hnd Hv Hb Hfree. destruct (tower_cur _ _ _ _ _ _ Ht) as (Hpg & Hf & Hin). destruct Ht as (HL & _ & Hup). cbn [fst snd] in *.
  pose proof (cur_items _ _ _ HL) as Hc. rewrite (lb_buf _ _ _ HL) in *. cbn [snd] in *.
  destruct (add_last_ok l idx s ss c (lastb P_NONE fin) (btps_lastoff s) (btps_minkey s) bti Hpg Hc Hb Hfree (lb_off _ _ _ HL)) as [E Hf'].
  { intros E0. rewrite (lb_min _ _ _ HL). cbn [snd]. by rewrite E0. }
  eexists _, _. split; [exact E|]. assert (blocks ((fin, with_item c bti) :: G) = blocks ((fin, c) :: G)) as EB by by rewrite !blocks_cons, !lev_blocks_snoc.
  assert (forall b, b <> g_blk c -> pages (set_page idx (g_blk c) (cpage (leaf_at l) (flags_at l) (lastb P_NONE fin) (with_item c bti))) !! b = pages idx !! b) as Hne.
  { intros b Hb'. by apply pages_set_ne. }
  pose proof Hnd as Hnd0. rewrite blocks_cons, lev_blocks_snoc in Hnd. apply NoDup_app in Hnd as (Hnd1 & Hdis & _). apply NoDup_app in Hnd1 as (_ & Hdis1 & _).
  split; [apply tower_cons|].
  - destruct HL as [H1 H2 H3 H4 H5 H6 H7 H8 H9]. split; cbn [fst snd with_item g_blk g_items btps_buf btps_minkey btps_lastoff btps_level btps_full] in *; try done.
    + rewrite H2. by destruct (g_items c).
    + intros Hfin. rewrite length_app. specialize (H7 Hfin). lia.
    + change (mkG (g_blk c) (g_par c) (g_items c ++ [bti])) with (with_item c bti). rewrite lev_items_with. apply Forall_app. split; [done|by constructor].
    + intros Hfin. specialize (H9 Hfin). apply Forall_app in H9 as [? H9]. apply Forall_app. split; [done|]. apply Forall_cons in H9 as [? _]. by constructor.
  - destruct (decide (fin = [])) as [->|Hfin]; [constructor|]. rewrite start_with.
    + eapply in_file_ext; [|exact Hin]. intros b Hb'. apply Hne. rewrite glevel_blocks in Hb'. intros ->. apply (Hdis1 _ Hb'). by apply list_elem_of_singleton.
    + pose proof (lb_cur _ _ _ HL Hfin) as H2. cbn [snd] in H2. destruct (g_items c); [simpl in H2; lia|done].
  - apply pages_set_eq.
  - done.
  - destruct G as [|up G]; [done|]. destruct Hup as (? & ? & Hup). split_and!; [done|done|]. eapply tower_ext; [|exact Hup].
    intros b Hb'. apply Hne. intros ->. apply (Hdis (g_blk c)); [|done]. apply elem_of_app. right. by apply list_elem_of_singleton.
  - rewrite EB. split; [| |intros b _ Hb'|].
    + done.
    + done.
    + apply Hne. intros ->. apply Hb'. rewrite blocks_cons, lev_blocks_snoc. apply elem_of_app. left. apply elem_of_app. right. by apply list_elem_of_singleton.
    + intros b Hb'. by left.
Qed.

Lemma entry_head x i d : g_items x = i :: d -> entry x = ItemPointerSet i (g_blk x) P_HIKEY.
Proof. intros H. unfold entry. by rewrite H. Qed.

Section BuildOk.
Context (alloc : gmap Z BTPage -> Z).
Context (Halloc : forall m, m !! alloc m = None /\ alloc m <> P_NONE /\ alloc m <> InvalidBlockNumber).

Lemma alloc_valid m : valid_blk (alloc m).
Proof. apply Halloc. Qed.

Lemma blnewpage_ok l idx : let b := alloc (pages idx) in _bt_blnewpage alloc idx (flags_at l) =
  (set_page idx b (cpage (leaf_at l) (flags_at l) P_NONE (mkG b InvalidBlockNumber [])), b).
Proof. cbn zeta. unfold _bt_blnewpage. do 2 f_equal. unfold cpage, gpage_page. cbn [g_items]. by destruct (leaf_at l). Qed.

(** A new level. *)
Lemma pagestate_ok l idx : let b := alloc (pages idx) in
  exists p s, _bt_pagestate alloc idx (flags_at l) (Z.of_nat l) = (set_page idx b p, s) /\
    tower l (set_page idx b p) [s] [([], mkG b InvalidBlockNumber [])].
Proof.
  intros b. unfold _bt_pagestate. rewrite blnewpage_ok. eexists _, _. split; [reflexivity|]. apply tower_cons; cbn [fst snd].
  - split; cbn [fst snd g_blk g_items btps_buf btps_minkey btps_lastoff btps_level btps_full]; try done.
    rewrite level_cases. unfold full_at. by destruct (leaf_at l).
  - constructor.
  - apply pages_set_eq.
  - rewrite cpage_free. cbn [g_items]. by destruct (leaf_at l).
  - done.
Qed.

(** What adding to a tower does. *)
Definition adds (add : Index -> list BTPageState -> BTItem -> result (Index * list BTPageState)) (n : nat) : Prop :=
  forall l idx ss lv G bti, tower l idx ss (lv :: G) -> NoDup (blocks (lv :: G)) -> Forall valid_blk (blocks (lv :: G)) ->
  item_ok bti -> (length ss <= n)%nat ->
  exists idx' ss' lv' G', add idx ss bti = Ok (idx', ss') /\ tower l idx' ss' (lv' :: G') /\
    lev_items lv' = lev_items lv ++ [bti] /\ framed idx (blocks (lv :: G)) idx' (blocks (lv' :: G')).

(** The same for a level that was just created. *)
Definition adds_new (add : Index -> list BTPageState -> BTItem -> result (Index * list BTPageState)) : Prop :=
  forall l idx s b bti, tower l idx [s] [([], mkG b InvalidBlockNumber [])] -> valid_blk b -> item_ok bti ->
  exists idx' ss' lv' G', add idx [s] bti = Ok (idx', ss') /\ tower l idx' ss' (lv' :: G') /\
    lev_items lv' = [bti] /\ framed idx [b] idx' (blocks (lv' :: G')).

Lemma framed_new idx b p idx' B' : pages idx !! b = None -> framed (set_page idx b p) [b] idx' B' -> framed idx [] idx' B'.
Proof.
  intros Hb [H1 H2 H3 H4]. split; [done|done| |].
  - intros b' Hb' _. assert (b' <> b) by congruence. rewrite H3, pages_set_ne; [done|done|by rewrite pages_set_ne|].
    by intros ->%list_elem_of_singleton.
  - intros b' Hb'. right. destruct (H4 b' Hb') as [->%list_elem_of_singleton|Hn]; [done|].
    destruct (decide (b' = b)) as [->|]; [done|]. by rewrite pages_set_ne in Hn.
Qed.

(** Linking a finished page into the level above, which is created on demand. *)
Lemma add_parent add n l idx ss fin G c : adds add n -> adds_new add -> (length ss <= n)%nat ->
  match G with [] => ss = [] /\ fin = [] | up :: _ => fin <> [] /\ lev_items up = map entry fin /\ tower (S l) idx ss G end ->
  NoDup (blocks G) -> Forall valid_blk (blocks G) -> item_ok (entry c) ->
  let '(idx1, ss1) := match ss with [] => let '(idx1, s) := _bt_pagestate alloc idx 0 (Z.of_nat l + 1) in (idx1, [s]) | _ => (idx, ss) end in
  exists idx' s' ss' up' G', add idx1 ss1 (entry c) = Ok (idx', s' :: ss') /\ tower (S l) idx' (s' :: ss') (up' :: G') /\
    lev_items up' = map entry (fin ++ [c]) /\ framed idx (blocks G) idx' (blocks (up' :: G')).
Proof.
  intros Hadd Hn Hlen HG Hnd Hv Hc. destruct G as [|up G].
  - destruct HG as [-> ->]. destruct (pagestate_ok (S l) idx) as (p & s & E & Ht). replace (Z.of_nat l + 1) with (Z.of_nat (S l)) by lia.
    change (flags_at (S l)) with 0 in E. rewrite E.
    destruct (Hn _ _ _ _ (entry c) Ht (alloc_valid _) Hc) as (idx' & ss' & up' & G' & Ea & Ht' & Hi & Hfr).
    destruct ss' as [|s' ss']; [done|]. exists idx', s', ss', up', G'. split_and!; [done|done|by rewrite Hi|].
    eapply framed_new; [|exact Hfr]. apply Halloc.
  - destruct HG as (_ & Hi & Ht). destruct ss as [|s ss]; [done|]. destruct (Hadd _ _ _ _ _ (entry c) Ht Hnd Hv Hc Hlen) as (idx' & ss' & up' & G' & Ea & Ht' & Hi' & Hfr).
    destruct ss' as [|s' ss']; [done|]. exists idx', s', ss', up', G'. split_and!; [done|done| |done]. rewrite Hi', Hi. by rewrite map_app.
Qed.

(** Finishing a page: the level, before the new item is added. *)
Section Split.
Context (l : nat) (idx : Index) (s : BTPageState) (ss : list BTPageState) (fin : list gpage) (b par : Z) (d : list BTItem) (x : BTItem) (G : list glev).
Let leaf := leaf_at l.
Let flags := flags_at l.
Let c := mkG b par (d ++ [x]).
Context (Ht : tower l idx (s :: ss) ((fin, c) :: G)) (Hd : d <> []).
Context (Hnd : NoDup (blocks ((fin, c) :: G))) (Hv : Forall valid_blk (blocks ((fin, c) :: G))).
Let nb := alloc (pages idx).
Let prev := lastb P_NONE fin.
Let idx1 := set_page (set_page (set_page idx nb (cpage leaf flags P_NONE (mkG nb InvalidBlockNumber []))) nb
  (cpage leaf flags P_NONE (mkG nb InvalidBlockNumber [x]))) b (gpage_page leaf flags prev (mkG b par d) (P_NONE, [line_of x])).

Lemma split_nb : pages idx !! nb = None /\ valid_blk nb.
Proof. split; [apply Halloc|apply alloc_valid]. Qed.

Lemma split_b : pages idx !! b <> None.
Proof. apply (tower_in_file _ _ _ _ _ Ht). rewrite blocks_cons, lev_blocks_snoc. apply elem_of_app. left. apply elem_of_app. right. by apply list_elem_of_singleton. Qed.

Lemma split_b_nb : b <> nb.
Proof. intros E. apply split_b. rewrite E. apply split_nb. Qed.

Lemma split_pages_1 b' : pages idx1 !! b' =
  if decide (b' = b) then Some (gpage_page leaf flags prev (mkG b par d) (P_NONE, [line_of x]))
  else if decide (b' = nb) then Some (cpage leaf flags P_NONE (mkG nb InvalidBlockNumber [x])) else pages idx !! b'.
Proof.
  unfold idx1. destruct (decide (b' = b)) as [->|]; [by rewrite pages_set_eq|]. rewrite pages_set_ne by done.
  destruct (decide (b' = nb)) as [->|]; [by rewrite pages_set_eq|]. by rewrite !pages_set_ne.
Qed.

Lemma split_blocks : NoDup (map g_blk fin ++ [b]) /\ (forall b', b' ∈ map g_blk fin ++ [b] -> b' ∉ blocks G) /\ NoDup (blocks G) /\
  b ∉ map g_blk fin.
Proof.
  rewrite blocks_cons, lev_blocks_snoc in Hnd. apply NoDup_app in Hnd as (H1 & H2 & H3). split_and!; [done|done|done|].
  apply NoDup_app in H1 as (_ & H1 & _). intros Hb. apply (H1 _ Hb). by apply list_elem_of_singleton.
Qed.

Lemma split_nb_G : nb ∉ blocks G.
Proof.
  intros Hin. apply (tower_in_file _ _ nb _ _ Ht); [|apply split_nb]. rewrite blocks_cons. apply elem_of_app. by right.
Qed.

(** The levels above are as before. *)
Lemma split_up : match G with [] => ss = [] /\ fin = [] | up :: _ => fin <> [] /\ lev_items up = map entry fin /\ tower (S l) idx1 ss G end.
Proof.
  destruct Ht as (_ & _ & Hup). destruct split_blocks as (_ & Hdis & _). pose proof split_nb_G as HnG. destruct G as [|up G']; [done|]. destruct Hup as (? & ? & Hup). split_and!; [done|done|].
  eapply tower_ext; [|exact Hup]. intros b' Hb'. rewrite split_pages_1. destruct (decide (b' = b)) as [->|].
  { exfalso. apply (Hdis b); [|done]. apply elem_of_app. right. by apply list_elem_of_singleton. }
  destruct (decide (b' = nb)) as [->|]; [|done]. done.
Qed.

Lemma getpage_file i b' p : pages i !! b' = Some p -> getpage i b' = Ok p.
Proof. intros H. unfold getpage. by rewrite H. Qed.

Lemma split_new_page : item_ok x -> _bt_sortaddtup (cpage leaf flags P_NONE (mkG nb InvalidBlockNumber [])) (MAXALIGN (BTITEMSZ x)) x P_FIRSTKEY =
  Ok (cpage leaf flags P_NONE (mkG nb InvalidBlockNumber [x])).
Proof.
  intros Hx. apply (sortadd_ok leaf flags P_NONE (mkG nb InvalidBlockNumber []) x); [apply flags_leaf|done|].
  pose proof (line_of_space x Hx). rewrite cpage_free. cbn [g_items]. assert (lines_space (store leaf []) = 0) as -> by (by destruct leaf). lia.
Qed.

(** Adding to the levels above leaves the pages of this level alone. *)
Lemma split_keep0 idx3 G3 : framed idx1 (blocks G) idx3 (blocks G3) -> forall b', b' ∈ b :: nb :: map g_blk fin ->
  pages idx3 !! b' = pages idx1 !! b' /\ b' ∉ blocks G3.
Proof.
  intros Hfr b' Hb'. destruct split_blocks as (_ & Hdis & _). assert (b' ∉ blocks G) as HG.
  { apply elem_of_cons in Hb' as [->|Hb']; [apply Hdis, elem_of_app; right; by apply list_elem_of_singleton|].
    apply elem_of_cons in Hb' as [->|Hb']; [apply split_nb_G|]. apply Hdis, elem_of_app. by left. }
  assert (pages idx1 !! b' <> None) as Hp.
  { rewrite split_pages_1. destruct (decide (b' = b)); [done|]. destruct (decide (b' = nb)); [done|].
    apply elem_of_cons in Hb' as [?|Hb']; [done|]. apply elem_of_cons in Hb' as [?|Hb']; [done|].
    apply (tower_in_file _ _ _ _ _ Ht). rewrite blocks_cons, lev_blocks_snoc, <- (assoc_L (++)). apply elem_of_app. by left. }
  split; [by apply Hfr|]. intros Hin. by destruct (fr_new _ _ _ _ Hfr b' Hin).
Qed.

(** The code of [finish_page]. *)
Lemma finish_page_ok add n : adds add n -> adds_new add -> (length ss <= n)%nat ->
  exists idx3 s3 ss3 up3 G3,
    finish_page alloc add idx s ss (cpage leaf flags prev c) =
      Ok (set_page (set_page idx3 b (gpage_page leaf flags prev (mkG b (btps_buf s3) d) (nb, [line_of x]))) nb
            (cpage leaf flags b (mkG nb (btps_buf s3) [x])), s3 :: ss3, nb, P_FIRSTKEY, Some x) /\
    tower (S l) idx3 (s3 :: ss3) (up3 :: G3) /\ lev_items up3 = map entry (fin ++ [mkG b par d]) /\
    framed idx1 (blocks G) idx3 (blocks (up3 :: G3)).
Proof.
  intros Hadd Hnew Hlen. pose proof Ht as (HL & _ & _). pose proof (cur_items _ _ _ HL) as Hci. cbn [snd c g_items] in Hci.
  apply Forall_app in Hci as [Hdi Hx]. apply Forall_cons in Hx as [Hx _].
  destruct (last_item_ok leaf flags prev b par d x Hd) as [E1 E2].
  pose proof (lb_buf _ _ _ HL) as Hbuf. pose proof (lb_off _ _ _ HL) as Hoff. pose proof (lb_min _ _ _ HL) as Hmin.
  pose proof (lb_level _ _ _ HL) as Hlev. cbn [snd c g_items g_blk] in *.
  unfold finish_page. rewrite Hbuf, Hoff, Hmin, Hlev, level_cases. fold (flags_at l). rewrite blnewpage_ok. cbn zeta iota beta. fold nb leaf flags.
  assert ((1 + Zlen (d ++ [x]) >? P_FIRSTKEY) = true) as ->.
  { rewrite Z.gtb_ltb. apply Z.ltb_lt. rewrite length_app. destruct d; [done|]. simpl. unfold P_FIRSTKEY. lia. }
  cbn [ereport_unless mbind result_bind]. rewrite (getpage_file _ nb _ (pages_set_eq _ _ _)). cbn [mbind result_bind].
  unfold c. rewrite E1, E2, split_new_page by done. cbn [mbind result_bind]. rewrite to_hikey_ok by done. fold idx1.
  destruct split_blocks as (_ & _ & HndG & _). pose proof Hv as HvG. rewrite blocks_cons in HvG. apply Forall_app in HvG as [_ HvG].
  assert (exists i d', d = i :: d') as (i & d' & Ed) by (destruct d as [|i d']; [done|by exists i, d']).
  assert (item_ok i) as Hi by (rewrite Ed in Hdi; by apply Forall_cons in Hdi as [Hi _]).
  pose proof (entry_head (mkG b par d) i d' Ed) as Ee. cbn [g_blk] in Ee.
  assert (head (d ++ [x]) = Some i) as -> by (by rewrite Ed). rewrite <- Ee.
  pose proof (add_parent add n l idx1 ss fin G (mkG b par d) Hadd Hnew Hlen split_up HndG HvG) as Hpar.
  destruct (match ss with [] => _ | _ => _ end) as [idx2 ss2].
  destruct Hpar as (idx3 & s3 & ss3 & up3 & G3 & Ea & Ht3 & Hi3 & Hfr); [by rewrite Ee|].
  exists idx3, s3, ss3, up3, G3. split; [|done]. rewrite Ea. cbn [mbind result_bind].
  rewrite (getpage_file idx3 b (gpage_page leaf flags prev (mkG b par d) (P_NONE, [line_of x]))).
  2:{ rewrite (proj1 (split_keep0 idx3 (up3 :: G3) Hfr b ltac:(by left))). by rewrite split_pages_1, decide_True. }
  cbn [mbind result_bind]. rewrite (getpage_file idx3 nb (cpage leaf flags P_NONE (mkG nb InvalidBlockNumber [x]))).
  2:{ rewrite (proj1 (split_keep0 idx3 (up3 :: G3) Hfr nb ltac:(right; by left))). rewrite split_pages_1, decide_False, decide_True; [done|done|]. pose proof split_b_nb. congruence. }
  reflexivity.
Qed.

(** After the levels above have taken the link. *)
Context (idx3 : Index) (s3 : BTPageState) (ss3 : list BTPageState) (up3 : glev) (G3 : list glev).
Context (Ht3 : tower (S l) idx3 (s3 :: ss3) (up3 :: G3)) (Hi3 : lev_items up3 = map entry (fin ++ [mkG b par d])).
Context (Hfr : framed idx1 (blocks G) idx3 (blocks (up3 :: G3))).
Let parent := btps_buf s3.
Let c0 := mkG b parent d.
Let idx4 := set_page (set_page idx3 b (gpage_page leaf flags prev c0 (nb, [line_of x]))) nb (cpage leaf flags b (mkG nb parent [x])).

Lemma split_keep b' : b' ∈ b :: nb :: map g_blk fin -> pages idx3 !! b' = pages idx1 !! b' /\ b' ∉ blocks (up3 :: G3).
Proof. by apply split_keep0. Qed.

Lemma split_parent : parent <> InvalidBlockNumber.
Proof.
  pose proof (fr_valid _ _ _ _ Hfr) as Hv3. destruct Ht3 as (HL & _ & _). unfold parent. rewrite (lb_buf _ _ _ HL).
  eapply Forall_forall in Hv3; [apply Hv3|]. rewrite blocks_cons. apply elem_of_app. left. unfold lev_blocks. apply list_elem_of_fmap_2, elem_of_app. right. by apply list_elem_of_singleton.
Qed.

(** The level with the new page, and a new item on it. *)
Context (bti : BTItem) (Hb : item_ok bti).
Let c1 := mkG nb parent [x; bti].
Let idx5 := set_page idx4 nb (cpage leaf flags b c1).

Lemma split_pages_5 b' : pages idx5 !! b' = if decide (b' = nb) then Some (cpage leaf flags b c1) else
  if decide (b' = b) then Some (gpage_page leaf flags prev c0 (nb, [line_of x])) else pages idx3 !! b'.
Proof.
  unfold idx5, idx4. destruct (decide (b' = nb)) as [->|]; [by rewrite pages_set_eq|]. rewrite !pages_set_ne by done.
  destruct (decide (b' = b)) as [->|]; [by rewrite pages_set_eq|]. by rewrite pages_set_ne.
Qed.

Lemma split_fin_block b' : b' ∈ map g_blk fin -> b' <> b /\ b' <> nb.
Proof.
  intros Hb'. split; intros ->; [by apply split_blocks|]. apply (tower_in_file _ _ nb _ _ Ht); [|apply split_nb].
  rewrite blocks_cons, lev_blocks_snoc, <- (assoc_L (++)). apply elem_of_app. by left.
Qed.

Lemma split_fin_pages b' : b' ∈ map g_blk fin -> pages idx5 !! b' = pages idx !! b'.
Proof.
  intros Hb'. destruct (split_fin_block b' Hb'). rewrite split_pages_5, !decide_False by done.
  destruct (split_keep b') as [-> _]; [do 2 (apply elem_of_cons; right); done|]. by rewrite split_pages_1, !decide_False.
Qed.

Lemma split_items : lev_items (fin ++ [c0], c1) = lev_items (fin, c) ++ [bti].
Proof.
  rewrite !lev_items_snoc, map_app, concat_app. cbn [c0 c1 c g_items map concat]. rewrite app_nil_r, <- !(assoc_L (++)). done.
Qed.

Lemma split_level s5 : btps_buf s5 = nb -> btps_minkey s5 = Some x -> btps_lastoff s5 = 3 -> btps_level s5 = Z.of_nat l -> btps_full s5 = full_at l ->
  level_build l s5 (fin ++ [c0], c1).
Proof.
  intros E1 E2 E3 E4 E5. destruct Ht as (HL & _ & _). destruct HL as [H1 H2 H3 H4 H5 H6 H7 H8 H9].
  cbn [fst snd c g_items g_blk] in *. split; cbn [fst snd c1 g_blk g_items length]; try done.
  - apply Forall_app. split; [done|]. by constructor.
  - rewrite split_items. apply Forall_app. split; [done|by constructor].
  - intros _. pose proof split_parent as Hp. apply Forall_app. split; [|by constructor]. apply Forall_app. split; [|by constructor].
    destruct (decide (fin = [])) as [->|Hfin]; [constructor|]. specialize (H9 Hfin). by apply Forall_app in H9 as [H9 _].
Qed.

Lemma split_tower s5 : level_build l s5 (fin ++ [c0], c1) -> 0 <= page_free (cpage leaf flags b c1) ->
  tower l idx5 (s5 :: s3 :: ss3) ((fin ++ [c0], c1) :: up3 :: G3).
Proof.
  intros HL Hf1. destruct (tower_cur _ _ _ _ _ _ Ht) as (_ & Hf & Hin). cbn [fst snd] in *. pose proof split_b_nb as Hne. apply tower_cons.
  - done.
  - rewrite glevel_snoc. apply Forall_app. split.
    + assert (start [c0] (start [c1] building) = start [c] building) as -> by (unfold start; cbn [c0 c g_blk g_items]; by destruct d).
      eapply in_file_ext; [|exact Hin]. intros b' Hb'. rewrite glevel_blocks in Hb'. by apply split_fin_pages.
    + constructor; [|constructor]. cbn [c0 g_blk fst snd]. rewrite split_pages_5, decide_False, decide_True by done. split; [done|].
      rewrite cpage_free in Hf. cbn [c g_items] in Hf. rewrite store_snoc, lines_space_app in Hf by done. cbn [lines_space] in Hf.
      unfold page_free, gpage_page. cbn [lines c1 c0 start g_items fst snd take map app lines_space]. change page_room with 8136. unfold leaf in Hf. lia.
  - cbn [c1 g_blk]. rewrite split_pages_5, decide_True by done. do 2 f_equal. unfold lastb. by rewrite fold_left_app.
  - unfold cpage, gpage_page in *. exact Hf1.
  - split_and!; [by destruct fin|by rewrite Hi3, !map_app|]. eapply tower_ext; [|exact Ht3]. intros b' Hb'. rewrite split_pages_5, !decide_False; [done| |].
    + intros ->. destruct (split_keep b) as [_ H]; [by left|done].
    + intros ->. destruct (split_keep nb) as [_ H]; [right; by left|done].
Qed.

Lemma split_framed : framed idx (blocks ((fin, c) :: G)) idx5 (blocks ((fin ++ [c0], c1) :: up3 :: G3)).
Proof.
  pose proof split_b_nb as Hne. destruct split_blocks as (Hn1 & Hdis & _ & _). destruct Hfr as [F1 F2 F3 F4].
  pose proof Hv as Hv'. rewrite (blocks_cons (fin, c)), lev_blocks_snoc in Hv' |- *. rewrite (blocks_cons (fin ++ [c0], c1)), lev_blocks_snoc, map_app.
  cbn [map c0 c1 c g_blk] in Hv' |- *. split.
  - apply NoDup_app. split_and!; [|intros b' Hb'|done].
    + apply NoDup_app. split_and!; [done|intros b' Hb' ->%list_elem_of_singleton|apply NoDup_singleton].
      apply elem_of_app in Hb' as [Hb'|Hb']; [by destruct (split_fin_block _ Hb')|apply list_elem_of_singleton in Hb'; congruence].
    + apply split_keep. apply elem_of_app in Hb' as [Hb'|Hb']; [apply elem_of_app in Hb' as [Hb'|Hb']|].
      * right. by right.
      * apply list_elem_of_singleton in Hb' as ->. by left.
      * apply list_elem_of_singleton in Hb' as ->. right. by left.
  - apply Forall_app. split; [|done]. apply Forall_app in Hv' as [Hv' _]. apply Forall_app. split; [done|]. constructor; [apply split_nb|constructor].
  - intros b' Hp Hnin. assert (b' <> nb) by (intros ->; by destruct split_nb). assert (b' <> b) by (intros ->; apply Hnin; apply elem_of_app; left; apply elem_of_app; right; by apply list_elem_of_singleton).
    rewrite split_pages_5, !decide_False by done. rewrite F3, split_pages_1, !decide_False; try done.
    + by rewrite split_pages_1, !decide_False.
    + intros Hin. apply Hnin, elem_of_app. by right.
  - intros b' [Hb'|Hb']%elem_of_app.
    + apply elem_of_app in Hb' as [Hb'|Hb']; [left; apply elem_of_app; by left|]. apply list_elem_of_singleton in Hb' as ->. right. apply split_nb.
    + destruct (F4 b' Hb') as [Hin|Hnone]; [left; apply elem_of_app; by right|]. right. rewrite split_pages_1 in Hnone. by repeat case_decide.
Qed.
End Split.

(** *** [_bt_buildadd] *)

Lemma item_size bti : item_ok bti -> (MAXALIGN (BTITEMSZ bti) >? BTMaxItemSize) = false.
Proof. intros [_ H]. rewrite Z.gtb_ltb. apply Z.ltb_ge. apply H. Qed.

(** One level of [_bt_buildadd]. *)
Lemma buildadd_step fuel idx s ss page bti : pages idx !! btps_buf s = Some page -> item_ok bti ->
  _bt_buildadd alloc (S fuel) idx (s :: ss) bti =
    (r ← (if (Nbtree.PageGetFreeSpace page <? MAXALIGN (BTITEMSZ bti)) || (Nbtree.PageGetFreeSpace page <? btps_full s)
          then finish_page alloc (_bt_buildadd alloc fuel) idx s ss page
          else Ok (idx, ss, btps_buf s, btps_lastoff s, btps_minkey s));
     let '(idx, parents, nbuf, last_off, minkey) := r in
     add_last idx s parents nbuf last_off minkey (MAXALIGN (BTITEMSZ bti)) bti).
Proof. intros Hpg Hb. cbn [_bt_buildadd]. rewrite (getpage_file _ _ _ Hpg). cbn [mbind result_bind]. by rewrite item_size. Qed.

(** On a page that is not full. *)
Lemma buildadd_fits fuel l idx s ss fin c G bti : tower l idx (s :: ss) ((fin, c) :: G) -> NoDup (blocks ((fin, c) :: G)) ->
  Forall valid_blk (blocks ((fin, c) :: G)) -> item_ok bti ->
  let free := Nbtree.PageGetFreeSpace (cpage (leaf_at l) (flags_at l) (lastb P_NONE fin) c) in
  MAXALIGN (BTITEMSZ bti) <= free -> full_at l <= free ->
  exists idx' s', _bt_buildadd alloc (S fuel) idx (s :: ss) bti = Ok (idx', s' :: ss) /\
    tower l idx' (s' :: ss) ((fin, with_item c bti) :: G) /\ framed idx (blocks ((fin, c) :: G)) idx' (blocks ((fin, with_item c bti) :: G)).
Proof.
  intros Ht Hnd Hv Hb free H1 H2. destruct (tower_cur _ _ _ _ _ _ Ht) as (Hpg & Hf & _). cbn [fst snd] in *.
  pose proof (line_of_space bti Hb) as Hsp. destruct (add_fits l idx s ss fin c G bti Ht Hnd Hv Hb) as (idx' & s' & E & Ht' & Hfr).
  { unfold free, Nbtree.PageGetFreeSpace in H1. change sizeof_ItemIdData with 8 in H1. destruct (Z.ltb_spec (page_free (cpage (leaf_at l) (flags_at l) (lastb P_NONE fin) c)) 8); lia. }
  exists idx', s'. split; [|done]. rewrite (buildadd_step _ _ _ _ _ _ Hpg Hb).
  fold free. destruct Ht as (HL & _ & _). rewrite (lb_full _ _ _ HL). destruct (Z.ltb_spec free (MAXALIGN (BTITEMSZ bti))); [lia|].
  destruct (Z.ltb_spec free (full_at l)); [lia|]. cbn [orb mbind result_bind]. exact E.
Qed.

Lemma buildadd_new fuel : adds_new (_bt_buildadd alloc (S fuel)).
Proof.
  intros l idx s b bti Ht Hv Hb. pose proof (line_of_space bti Hb) as Hsp.
  assert (Nbtree.PageGetFreeSpace (cpage (leaf_at l) (flags_at l) (lastb P_NONE []) (mkG b InvalidBlockNumber [])) = 8120) as Hfree.
  { rewrite cpage_space; rewrite cpage_free; cbn [g_items]; by destruct (leaf_at l). }
  destruct (buildadd_fits fuel l idx s [] [] (mkG b InvalidBlockNumber []) [] bti Ht) as (idx' & s' & E & Ht' & Hfr).
  - apply NoDup_singleton.
  - by constructor.
  - done.
  - rewrite Hfree. lia.
  - rewrite Hfree. unfold full_at. destruct (leaf_at l); lia.
  - by exists idx', [s'], ([], with_item (mkG b InvalidBlockNumber []) bti), [].
Qed.

(** On any page. *)
Lemma buildadd_spec n : adds (_bt_buildadd alloc (S n)) n.
Proof.
  induction n as [|n IH]; intros l idx ss lv G bti Ht Hnd Hv Hb Hlen; (destruct ss as [|s ss]; [done|]); [simpl in Hlen; lia|].
  destruct lv as [fin c]. destruct (tower_cur _ _ _ _ _ _ Ht) as (Hpg & Hf & Hin). cbn [fst snd] in *.
  set (free := Nbtree.PageGetFreeSpace (cpage (leaf_at l) (flags_at l) (lastb P_NONE fin) c)).
  destruct (decide (MAXALIGN (BTITEMSZ bti) <= free /\ full_at l <= free)) as [[H1 H2]|Hfull].
  { destruct (buildadd_fits (S n) l idx s ss fin c G bti Ht Hnd Hv Hb H1 H2) as (idx' & s' & E & Ht' & Hfr).
    exists idx', (s' :: ss), (fin, with_item c bti), G. split_and!; [done|done|apply lev_items_with|done]. }
  pose proof Ht as (HL & _ & _). pose proof (cur_items _ _ _ HL) as Hci. cbn [snd] in Hci.
  assert (2 <= length (g_items c))%nat as H2 by (apply (full_two (leaf_at l) (flags_at l) (lastb P_NONE fin) c l bti); try done; lia).
  destruct c as [b par items]. cbn [g_items] in *. destruct items as [|x d _] using rev_ind; [simpl in H2; lia|].
  rewrite length_app in H2. cbn [length] in H2. assert (d <> []) as Hd by (destruct d; [simpl in H2; lia|done]).
  apply Forall_app in Hci as [Hdi Hx]. apply Forall_cons in Hx as [Hx _]. pose proof (line_of_space x Hx) as Hsx. pose proof (line_of_space bti Hb) as Hsb.
  destruct (finish_page_ok l idx s ss fin b par d x G Ht Hd Hnd Hv (_bt_buildadd alloc (S n)) n) as (idx3 & s3 & ss3 & up3 & G3 & E & Ht3 & Hi3 & Hfr);
    [done|apply buildadd_new|simpl in Hlen; lia|].
  set (nb := alloc (pages idx)) in *. set (c1 := mkG nb (btps_buf s3) [x]) in *.
  match type of E with _ = Ok (?i, _, _, _, _) => set (idx4 := i) in * end.
  destruct (add_last_ok l idx4 s (s3 :: ss3) c1 b P_FIRSTKEY (Some x) bti) as [El Hf5]; [apply pages_set_eq|by constructor|done| |done|done|].
  { rewrite cpage_free. cbn [c1 g_items]. pose proof (store_space_1 (leaf_at l) x Hx). lia. }
  eexists _, _, (fin ++ [mkG b (btps_buf s3) d], mkG nb (btps_buf s3) [x; bti]), (up3 :: G3). split_and!.
  - rewrite (buildadd_step _ _ _ _ _ _ Hpg Hb). fold free. rewrite (lb_full _ _ _ HL).
    assert ((free <? MAXALIGN (BTITEMSZ bti)) || (free <? full_at l) = true) as ->.
    { apply orb_true_iff. rewrite !Z.ltb_lt. lia. }
    rewrite E. cbn [mbind result_bind]. exact El.
  - apply (split_tower l idx s ss fin b par d x G Ht Hd Hnd Hv idx3 s3 ss3 up3 G3 Ht3 Hi3 Hfr bti); [|exact Hf5].
    apply (split_level l idx s ss fin b par d x G Ht Hd Hnd Hv idx3 s3 ss3 up3 G3 Ht3 Hi3 Hfr bti Hb); try done; [apply (lb_level _ _ _ HL)|apply (lb_full _ _ _ HL)].
  - apply split_items.
  - apply (split_framed l idx s ss fin b par d x G Ht Hnd Hv idx3 s3 up3 G3 Hfr bti).
Qed.

(** *** [_bt_load]: the loop *)

Lemma load_loop_ok its : forall idx ss lv G, tower 0 idx ss (lv :: G) -> NoDup (blocks (lv :: G)) -> Forall valid_blk (blocks (lv :: G)) ->
  Forall item_ok its ->
  exists idx' ss' lv' G', load_loop alloc idx ss its = Ok (idx', ss') /\ tower 0 idx' ss' (lv' :: G') /\ lev_items lv' = lev_items lv ++ its /\
    NoDup (blocks (lv' :: G')) /\ Forall valid_blk (blocks (lv' :: G')).
Proof.
  induction its as [|it its IH]; intros idx ss lv G Ht Hnd Hv Hits.
  - exists idx, ss, lv, G. by rewrite app_nil_r.
  - apply Forall_cons in Hits as [Hit Hits]. destruct ss as [|s ss]; [done|]. cbn [load_loop].
    destruct (buildadd_spec (1 + length (s :: ss)) 0%nat idx (s :: ss) lv G it Ht Hnd Hv Hit ltac:(lia)) as (idx1 & ss1 & lv1 & G1 & E & Ht1 & Hi1 & Hfr).
    change (2 + length (s :: ss))%nat with (S (1 + length (s :: ss))). rewrite E. cbn [mbind result_bind fst snd].
    destruct (IH idx1 ss1 lv1 G1 Ht1) as (idx' & ss' & lv' & G' & E' & Ht' & Hi' & H'); [apply Hfr|apply Hfr|done|].
    exists idx', ss', lv', G'. split_and!; [done|done|by rewrite Hi', Hi1, <- (assoc_L (++))|apply H'|apply H'].
Qed.

(** The first item makes the first page. *)
Lemma load_first it its idx : exists idx' s b, load_loop alloc idx [] (it :: its) = load_loop alloc idx' [s] (it :: its) /\
  tower 0 idx' [s] [([], mkG b InvalidBlockNumber [])] /\ valid_blk b.
Proof.
  destruct (pagestate_ok 0%nat idx) as (p & s & E & Ht). change (flags_at 0) with BTP_LEAF in E. change (Z.of_nat 0) with 0 in E.
  exists (set_page idx (alloc (pages idx)) p), s, (alloc (pages idx)). split_and!; [|done|apply alloc_valid]. cbn [load_loop]. by rewrite E.
Qed.

Lemma load_start it its idx : Forall item_ok (it :: its) ->
  exists idx' ss' lv' G', load_loop alloc idx [] (it :: its) = Ok (idx', ss') /\ tower 0 idx' ss' (lv' :: G') /\ lev_items lv' = it :: its /\
    NoDup (blocks (lv' :: G')) /\ Forall valid_blk (blocks (lv' :: G')).
Proof.
  intros Hits. destruct (load_first it its idx) as (idx1 & s & b & -> & Ht & Hb).
  apply (load_loop_ok (it :: its) _ _ _ _ Ht); [apply NoDup_singleton|by constructor|done].
Qed.

Lemma load_loop_app pre its : forall idx ss, load_loop alloc idx ss (pre ++ its) = r ← load_loop alloc idx ss pre; load_loop alloc r.1 r.2 its.
Proof.
  induction pre as [|i pre IH]; intros idx ss; [done|]. cbn [app load_loop]. destruct (match ss with [] => _ | _ => _ end) as [idx1 ss1].
  destruct (_bt_buildadd alloc _ idx1 ss1 i) as [r1|]; [|done]. cbn [mbind result_bind]. apply IH.
Qed.

Lemma load_too_big idx s ss it its : pages idx !! btps_buf s <> None -> BTMaxItemSize < MAXALIGN (BTITEMSZ it) ->
  load_loop alloc idx (s :: ss) (it :: its) = Err "btree: index item size exceeds maximum".
Proof.
  intros H Hit. cbn [load_loop]. change (2 + length (s :: ss))%nat with (S (S (S (length ss)))). cbn [_bt_buildadd].
  destruct (pages idx !! btps_buf s) as [p|] eqn:E; [|done]. rewrite (getpage_file _ _ _ E). cbn [mbind result_bind].
  assert ((MAXALIGN (BTITEMSZ it) >? BTMaxItemSize) = true) as -> by (rewrite Z.gtb_ltb; by apply Z.ltb_lt). done.
Qed.

(** *** [_bt_uppershutdown] *)

Lemma slide_loop_ok h t : forall pre, take (length pre + length t) (slide_loop (length t) (2 + Zlen pre) (pre ++ h :: t)) = pre ++ t.
Proof.
  revert h. induction t as [|x t IH]; intros h pre; cbn [length slide_loop].
  - by rewrite Nat.add_0_r, take_app_length, app_nil_r.
  - assert (aget (0, null_item) (pre ++ h :: x :: t) (2 + Zlen pre - 1) = x) as ->.
    { rewrite aget_app by lia. destruct (Z.ltb_spec (2 + Zlen pre - 1) (Zlen pre)); [lia|]. by replace (2 + Zlen pre - 1 - Zlen pre) with 1 by lia. }
    assert (aset (pre ++ h :: x :: t) (2 + Zlen pre - 2) x = (pre ++ [x]) ++ x :: t) as ->.
    { unfold aset. destruct (Z.ltb_spec (2 + Zlen pre - 2) 0); [lia|]. replace (Z.to_nat (2 + Zlen pre - 2)) with (length pre + 0)%nat by lia.
      rewrite insert_app_r. by rewrite <- (assoc_L (++)). }
    specialize (IH x (pre ++ [x])). rewrite length_app in IH. cbn [length] in IH.
    replace (length pre + S (length t))%nat with (length pre + 1 + length t)%nat by lia.
    replace (2 + Zlen pre + 1) with (2 + Z.of_nat (length pre + 1)) by lia. rewrite IH. by rewrite <- (assoc_L (++)).
Qed.

Lemma slideleft_ok leaf flags prev c : _bt_slideleft (cpage leaf flags prev c) = gpage_page leaf flags prev c done_edge.
Proof.
  unfold _bt_slideleft, cpage. set (p := gpage_page leaf flags prev c building).
  assert (PageGetMaxOffsetNumber p = 1 + Zlen (store leaf (g_items c))) as E by (unfold PageGetMaxOffsetNumber, p, gpage_page; cbn [lines building snd app length]; lia).
  unfold PageIsEmpty. rewrite E. destruct (Z.leb_spec (1 + Zlen (store leaf (g_items c))) 0); [lia|].
  replace (Z.to_nat (1 + Zlen (store leaf (g_items c)) - P_FIRSTKEY + 1)) with (length (store leaf (g_items c))) by (unfold P_FIRSTKEY; lia).
  pose proof (slide_loop_ok (0, null_item) (store leaf (g_items c)) []) as H0. cbn [length app Nat.add] in H0.
  unfold Nbtree.set_lines, gpage_page. f_equal. exact H0.
Qed.

(** The levels of the finished index. *)
Definition fin_pages (l : nat) (root : bool) (lv : glev) : level :=
  glevel (leaf_at l) (if root then Z.lor (flags_at l) BTP_ROOT else flags_at l) P_NONE (lv.1 ++ [lv.2]) done_edge.
Definition is_top (F : list glev) : bool := match F with [] => true | _ => false end.
Record level_done (lv : glev) : Prop := {
  ld_chunks : Forall (fun x => g_items x <> []) (lv.1 ++ [lv.2]);
  ld_items : Forall item_ok (lev_items lv);
  ld_par : Forall (fun x => g_par x <> InvalidBlockNumber) (lv.1 ++ [lv.2]) }.
Fixpoint complete (l : nat) (idx : Index) (F : list glev) : Prop :=
  match F with
  | [] => False
  | lv :: F =>
      level_done lv /\ in_file idx (fin_pages l (is_top F) lv) /\
      match F with
      | [] => lv.1 = [] /\ btm_root idx = g_blk lv.2
      | up :: _ => lev_items up = map entry (lv.1 ++ [lv.2]) /\ complete (S l) idx F
      end
  end.

Lemma fin_pages_blocks l root lv : map fst (fin_pages l root lv) = lev_blocks lv.
Proof. apply glevel_blocks. Qed.

(** The last page of a level, without the place for a high key. *)
Lemma slide_level l idx lv root par : let c := mkG (g_blk lv.2) par (g_items lv.2) in
  in_file idx (lev_pages l lv building) -> NoDup (lev_blocks lv) -> (root = true -> lv.1 = []) ->
  forall idx', (forall b, b ∈ lev_blocks lv -> b <> g_blk lv.2 -> pages idx' !! b = pages idx !! b) ->
  pages idx' !! g_blk lv.2 = Some (gpage_page (leaf_at l) (if root then Z.lor (flags_at l) BTP_ROOT else flags_at l) (lastb P_NONE lv.1) c done_edge) ->
  in_file idx' (fin_pages l root (lv.1, c)).
Proof.
  intros c Hin Hnd Hroot idx' Hother Hcur. destruct lv as [fin [b par0 d]]. cbn [fst snd g_blk g_items] in *. unfold lev_pages in Hin. unfold fin_pages.
  cbn [fst snd] in *. rewrite glevel_snoc in Hin |- *. rewrite lev_blocks_snoc in *. cbn [g_blk] in *.
  apply Forall_app in Hin as [H1 H2]. apply Forall_cons in H2 as [[_ H2] _]. cbn [snd] in H2. apply NoDup_app in Hnd as (_ & Hnd & _). apply Forall_app. split.
  - destruct root; [by rewrite Hroot|]. eapply in_file_ext; [|exact H1]. intros b' Hb'. rewrite glevel_blocks in Hb'. apply Hother.
    + apply elem_of_app. by left.
    + intros ->. apply (Hnd _ Hb'). by apply list_elem_of_singleton.
  - constructor; [|constructor]. split; [done|]. cbn [snd]. fold (cpage (leaf_at l) (flags_at l) (lastb P_NONE fin) (mkG b par0 d)) in H2.
    rewrite cpage_free in H2. cbn [g_items] in H2. unfold page_free, gpage_page. cbn [c lines done_edge snd app g_items]. change page_room with 8136. lia.
Qed.

Lemma level_build_done l s lv : level_build l s lv -> g_items lv.2 <> [] -> lv.1 <> [] -> level_done lv.
Proof.
  intros HL Hc Hf. split; [|apply HL|by apply HL]. apply Forall_app. split; [apply HL|by constructor].
Qed.

(** A level has fewer pages than items, unless it has one page. *)
Lemma pages_items l s lv : level_build l s lv -> g_items lv.2 <> [] ->
  (length lv.1 + (if decide (lv.1 = []) then 1 else 2) <= length (lev_items lv))%nat.
Proof.
  intros HL Hc. destruct lv as [fin c]. rewrite lev_items_snoc, length_app. cbn [fst snd] in *.
  assert (length fin <= length (concat (map g_items fin)))%nat as H1.
  { pose proof (lb_chunks _ _ _ HL) as Hch. cbn [fst] in Hch. clear HL. induction Hch as [|x fin Hx _ IH]; [done|]. cbn [map concat length]. rewrite length_app.
    destruct (g_items x); [done|]. cbn [length]. lia. }
  destruct (decide (fin = [])) as [->|Hf].
  - destruct (g_items c); [done|]. simpl. lia.
  - pose proof (lb_cur _ _ _ HL Hf) as H2. cbn [snd] in H2. lia.
Qed.

(** The items of a level come from the page under construction or the level has finished pages. *)
Lemma cur_nonempty l s lv : level_build l s lv -> lev_items lv <> [] -> g_items lv.2 <> [].
Proof.
  intros HL Hi. destruct lv as [fin c]. rewrite lev_items_snoc in Hi. cbn [snd]. destruct (decide (fin = [])) as [->|Hf]; [done|].
  pose proof (lb_cur _ _ _ HL Hf) as H2. cbn [snd] in H2. by destruct (g_items c); [simpl in H2; lia|].
Qed.

(** The root: the only page of the top level. *)
Lemma shutdown_root fuel l idx s c : tower l idx [s] [([], c)] -> NoDup (blocks [([], c)]) -> Forall valid_blk (blocks [([], c)]) -> g_items c <> [] ->
  exists idx', _bt_uppershutdown alloc (S fuel) idx [s] = Ok idx' /\
    complete l idx' [([], mkG (g_blk c) BTREE_METAPAGE (g_items c))] /\ framed idx (blocks [([], c)]) idx' (blocks [([], c)]).
Proof.
  intros Ht Hnd Hv Hc. destruct (tower_cur _ _ _ _ _ _ Ht) as (Hpg & _ & _). destruct Ht as (HL & Hin & _). cbn [fst snd] in *.
  rewrite (lb_buf _ _ _ HL) in Hpg. cbn [snd] in Hpg. set (b := g_blk c) in *. set (fl := Z.lor (flags_at l) BTP_ROOT). set (c' := mkG b BTREE_METAPAGE (g_items c)).
  eexists. split.
  - cbn [_bt_uppershutdown]. rewrite (lb_buf _ _ _ HL). cbn [snd]. fold b. rewrite (getpage_file _ _ _ Hpg). cbn [mbind result_bind].
    rewrite (getpage_file _ b (cpage (leaf_at l) fl P_NONE c')) by (cbn [set_root pages]; apply pages_set_eq). cbn [mbind result_bind].
    rewrite slideleft_ok. reflexivity.
  - split.
    + split_and!; [| |done|done].
      * split; [by constructor| |by constructor]. pose proof (lb_items _ _ _ HL) as Hi. rewrite lev_items_snoc in *. exact Hi.
      * apply (slide_level l idx ([], c) true BTREE_METAPAGE Hin); [apply NoDup_singleton|done| |apply pages_set_eq].
        intros b' Hb' Hne. rewrite pages_set_ne by done. cbn [set_root pages]. by apply pages_set_ne.
    + split; [done|done| |by left]. intros b' _ Hb'. assert (b' <> b) by (intros ->; apply Hb'; by apply list_elem_of_singleton).
      rewrite pages_set_ne by done. cbn [set_root pages]. by apply pages_set_ne.
Qed.

(** A level whose link went up keeps its pages while the levels above are completed. *)
Lemma shutdown_frame idx lv G idx2 B2 idx3 idx' F : (forall b, b ∈ lev_blocks lv -> pages idx !! b <> None) ->
  NoDup (blocks (lv :: G)) -> Forall valid_blk (blocks (lv :: G)) -> framed idx (blocks G) idx2 B2 ->
  (forall b, b <> g_blk lv.2 -> pages idx3 !! b = pages idx2 !! b) -> pages idx3 !! g_blk lv.2 <> None ->
  framed idx3 B2 idx' (blocks F) ->
  (forall b, b ∈ lev_blocks lv -> pages idx' !! b = pages idx3 !! b) /\ framed idx (blocks (lv :: G)) idx' (blocks (lv :: F)).
Proof.
  intros Hin Hnd Hv [F1 F2 F3 F4] Hset Hcur [K1 K2 K3 K4]. rewrite !blocks_cons in *. apply NoDup_app in Hnd as (Hnd1 & Hdis & Hnd2).
  apply Forall_app in Hv as [Hv1 Hv2]. assert (g_blk lv.2 ∈ lev_blocks lv) as Hc.
  { unfold lev_blocks. apply list_elem_of_fmap_2, elem_of_app. right. by apply list_elem_of_singleton. }
  assert (forall b, b ∈ lev_blocks lv -> b ∉ B2) as HB2 by (intros b Hb Hb2; destruct (F4 b Hb2); [by apply (Hdis b)|by apply (Hin b)]).
  assert (forall b, pages idx !! b <> None -> b ∉ blocks G -> pages idx3 !! b <> None) as Hdom.
  { intros b Hp Hb. destruct (decide (b = g_blk lv.2)) as [->|]; [done|]. rewrite Hset, F3 by done. done. }
  assert (forall b, b ∈ lev_blocks lv -> pages idx3 !! b <> None) as Hin3 by (intros b Hb; apply Hdom; [by apply Hin|by apply Hdis]).
  assert (forall b, b ∈ lev_blocks lv -> b ∉ blocks F) as HF by (intros b Hb HbF; destruct (K4 b HbF); [by apply (HB2 b)|by apply (Hin3 b)]).
  split; [intros b Hb; apply K3; [by apply Hin3|by apply HB2]|]. split.
  - apply NoDup_app. split_and!; done.
  - by apply Forall_app.
  - intros b Hp Hb. assert (b ∉ lev_blocks lv /\ b ∉ blocks G) as [Hb1 Hb2] by (split; intros Hx; apply Hb, elem_of_app; auto).
    assert (b <> g_blk lv.2) by (intros ->; done). rewrite K3, Hset, F3; try done; [by apply Hdom|]. intros Hx. by destruct (F4 b Hx).
  - intros b [Hb|Hb]%elem_of_app; [left; apply elem_of_app; by left|]. destruct (K4 b Hb) as [Hb2|Hn].
    + destruct (F4 b Hb2) as [HG|HG]; [left; apply elem_of_app; by right|by right].
    + destruct (decide (b ∈ blocks G)) as [HG|HG]; [left; apply elem_of_app; by right|]. right. destruct (pages idx !! b) eqn:E; [|done]. exfalso. by apply (Hdom b); [rewrite E|..].
Qed.

(** A level below: its last page is linked into the level above and completed. *)
Lemma shutdown_link fuel l idx s ss lv G : tower l idx (s :: ss) (lv :: G) -> G <> [] -> NoDup (blocks (lv :: G)) -> Forall valid_blk (blocks (lv :: G)) ->
  exists idx2 ss2 up2 G2, let idx3 := set_page idx2 (g_blk lv.2) (gpage_page (leaf_at l) (flags_at l) (lastb P_NONE lv.1) lv.2 done_edge) in
    _bt_uppershutdown alloc (S fuel) idx (s :: ss) = _bt_uppershutdown alloc fuel idx3 ss2 /\
    tower (S l) idx3 ss2 (up2 :: G2) /\ lev_items up2 = map entry (lv.1 ++ [lv.2]) /\ framed idx (blocks G) idx2 (blocks (up2 :: G2)).
Proof.
  intros Ht HG Hnd Hv. pose proof Ht as (HL & Hin & Hup). destruct G as [|up G]; [done|]. destruct Hup as (Hf & Hiu & Hup). destruct ss as [|s1 ss]; [done|].
  pose proof (lb_cur _ _ _ HL Hf) as H2. assert (exists i d', g_items lv.2 = i :: d') as (i & d' & Ei) by (destruct (g_items lv.2) as [|i d']; [simpl in H2; lia|by exists i, d']).
  pose proof (cur_items _ _ _ HL) as Hci. rewrite Ei in Hci. apply Forall_cons in Hci as [Hi _]. pose proof (entry_head _ _ _ Ei) as Ee.
  rewrite blocks_cons in Hnd, Hv. apply NoDup_app in Hnd as (Hnd1 & Hdis & Hnd2). apply Forall_app in Hv as [_ Hv2].
  destruct (buildadd_spec (1 + length (s1 :: ss)) (S l) idx (s1 :: ss) up G (entry lv.2) Hup Hnd2 Hv2) as (idx2 & ss2 & up2 & G2 & E & Ht2 & Hi2 & Hfr2); [by rewrite Ee|lia|].
  destruct (tower_cur _ _ _ _ _ _ Ht) as (Hpg & _ & _). rewrite (lb_buf _ _ _ HL) in Hpg.
  assert (g_blk lv.2 ∉ blocks (up :: G)) as Hcb by (apply Hdis; unfold lev_blocks; apply list_elem_of_fmap_2, elem_of_app; right; by apply list_elem_of_singleton).
  exists idx2, ss2, up2, G2. cbn zeta. split_and!; [| |by rewrite Hi2, Hiu, map_app|done].
  - cbn [_bt_uppershutdown]. rewrite (lb_buf _ _ _ HL), (lb_min _ _ _ HL), Ei. cbn [head]. rewrite <- Ee.
    change (2 + length (s1 :: ss))%nat with (S (1 + length (s1 :: ss))). rewrite E. cbn [mbind result_bind].
    rewrite (getpage_file _ _ (cpage (leaf_at l) (flags_at l) (lastb P_NONE lv.1) lv.2)).
    + cbn [mbind result_bind]. rewrite slideleft_ok. by destruct ss2.
    + rewrite (fr_other _ _ _ _ Hfr2) by (done || by rewrite Hpg). done.
  - eapply tower_ext; [|exact Ht2]. intros b Hb. apply pages_set_ne. intros ->. destruct (fr_new _ _ _ _ Hfr2 _ Hb); [done|congruence].
Qed.

Lemma shutdown_spec fuel : forall l idx ss lv G, tower l idx ss (lv :: G) -> NoDup (blocks (lv :: G)) -> Forall valid_blk (blocks (lv :: G)) ->
  lev_items lv <> [] -> (length lv.1 + 1 < fuel)%nat ->
  exists idx' lv' F, _bt_uppershutdown alloc fuel idx ss = Ok idx' /\ complete l idx' (lv' :: F) /\ lev_items lv' = lev_items lv /\
    framed idx (blocks (lv :: G)) idx' (blocks (lv' :: F)).
Proof.
  induction fuel as [|fuel IH]; intros l idx ss lv G Ht Hnd Hv Hne Hfuel; [lia|]. destruct ss as [|s ss]; [done|].
  pose proof Ht as (HL & Hin & Hup). pose proof (cur_nonempty _ _ _ HL Hne) as Hc. destruct (decide (G = [])) as [->|HG].
  { destruct Hup as [-> Hfin]. destruct lv as [fin c]. cbn [fst snd] in *. subst fin. destruct (shutdown_root fuel l idx s c Ht Hnd Hv Hc) as (idx' & E & Hco & Hfr).
    exists idx', ([], mkG (g_blk c) BTREE_METAPAGE (g_items c)), []. by rewrite !lev_items_snoc. }
  assert (lv.1 <> []) as Hf by (destruct G; [done|apply Hup]).
  destruct (shutdown_link fuel l idx s ss lv G Ht HG Hnd Hv) as (idx2 & ss2 & up2 & G2 & E & Ht3 & Hi2 & Hfr2). set (idx3 := set_page idx2 _ _) in *.
  assert (lev_items up2 <> []) as Hne2 by (rewrite Hi2; by destruct lv.1).
  destruct (IH (S l) idx3 ss2 up2 G2 Ht3) as (idx' & lv' & F & E' & Hco & Hi' & Hfr3); [apply Hfr2|apply Hfr2|done| |].
  { destruct ss2 as [|s2 ss2]; [done|]. pose proof Ht3 as (HL2 & _ & _). pose proof (pages_items _ _ _ HL2 (cur_nonempty _ _ _ HL2 Hne2)) as Hp.
    rewrite Hi2, length_map, length_app in Hp. cbn [length] in Hp. assert (1 <= length lv.1)%nat by (destruct lv.1; [done|simpl; lia]).
    destruct (decide (up2.1 = [])) as [->|]; simpl in *; lia. }
  destruct (shutdown_frame idx lv G idx2 (blocks (up2 :: G2)) idx3 idx' (lv' :: F)) as [Hkeep Hfr]; try done.
  { intros b Hb. eapply in_file_block; [exact Hin|by rewrite lev_pages_blocks]. }
  { intros b Hb. by apply pages_set_ne. }
  { unfold idx3. by rewrite pages_set_eq. }
  exists idx', lv, (lv' :: F). split_and!; [by rewrite E| |done|done]. split_and!; [by eapply level_build_done| |by rewrite Hi'|done].
  rewrite blocks_cons in Hnd. apply NoDup_app in Hnd as (Hnd1 & Hdis & _). 
  assert (lv = (lv.1, mkG (g_blk lv.2) (g_par lv.2) (g_items lv.2))) as Elv by (by destruct lv as [? []]). rewrite Elv.
  apply (slide_level l idx lv false (g_par lv.2) Hin Hnd1); [done| |].
  - intros b Hb Hbne. rewrite Hkeep by done. unfold idx3. rewrite pages_set_ne by done. apply Hfr2; [|by apply Hdis]. eapply in_file_block; [exact Hin|by rewrite lev_pages_blocks].
  - rewrite Hkeep; [|unfold lev_blocks; apply list_elem_of_fmap_2, elem_of_app; right; by apply list_elem_of_singleton]. unfold idx3. rewrite pages_set_eq. by destruct lv as [? []].
Qed.
End BuildOk.

(** ** The finished index is in order *)

(** What the pages of a finished level have in common. *)
Record gpage_ok (x : gpage) : Prop := {
  gp_items : g_items x <> [];
  gp_ok : Forall item_ok (g_items x);
  gp_par : g_par x <> InvalidBlockNumber;
  gp_blk : g_blk x <> P_NONE }.

Definition edge_ok (e : edge) : Prop := e = done_edge \/ (e.1 <> P_NONE /\ exists h, e.2 = [line_of h] /\ item_ok h).

Lemma start_ok g : Forall gpage_ok g -> edge_ok (start g done_edge).
Proof.
  intros [|y g' [H1 H2 _ H4] _]; [by left|]. right. cbn [start fst snd]. split; [done|]. destruct (g_items y) as [|h d]; [done|].
  apply Forall_cons in H2 as [H2 _]. exists h. done.
Qed.

Section Pages.
Context (leaf : bool) (flags : Z).

Lemma gpage_rightmost prev x e : P_RIGHTMOST (opaque (gpage_page leaf flags prev x e)) = bool_decide (e.1 = P_NONE).
Proof. unfold P_RIGHTMOST. cbn [gpage_page opaque btpo_next]. by destruct (Z.eqb_spec e.1 P_NONE), (bool_decide_reflect (e.1 = P_NONE)). Qed.

Lemma gpage_lines prev x e : edge_ok e ->
  data_lines (gpage_page leaf flags prev x e) = store leaf (g_items x) /\ hikey_lines (gpage_page leaf flags prev x e) = e.2.
Proof.
  intros He. unfold data_lines, hikey_lines, P_FIRSTDATAKEY. rewrite gpage_rightmost. destruct He as [->|(Hn & h & Eh & _)].
  - rewrite bool_decide_true by done. split; [done|]. apply take_0.
  - rewrite bool_decide_false by done. unfold gpage_page. cbn [lines]. rewrite Eh. split; [apply drop_0|]. change (Z.to_nat (P_FIRSTKEY - 1)) with 1%nat. simpl. by rewrite take_0.
Qed.

Lemma gpage_hikey prev x e : edge_ok e -> hikey (gpage_page leaf flags prev x e) = option_map (fun z => t_key z.2) (head e.2).
Proof. intros He. unfold hikey. destruct (gpage_lines prev x e He) as [_ ->]. by destruct e.2. Qed.

Context (Hleaf : P_ISLEAF (mkOpaque 0 0 0 flags) = leaf).

Lemma gpage_in_tree prev x e : gpage_ok x -> edge_ok e -> 0 <= page_free (gpage_page leaf flags prev x e) -> in_tree leaf (gpage_page leaf flags prev x e).
Proof.
  intros [H1 H2 H3 H4] He Hf. destruct (gpage_lines prev x e He) as [Ed _]. split.
  - split; [|done|].
    + unfold gpage_page. cbn [lines]. apply Forall_app. split; [|by apply store_ok]. destruct He as [->|(_ & h & -> & Hh)]; [constructor|by constructor].
    + intros _. unfold gpage_page. cbn [lines]. pose proof (store_length leaf (g_items x)). destruct (g_items x), (store leaf _), e.2; done.
  - exact Hleaf.
  - exact H3.
  - intros _. rewrite Ed. pose proof (store_length leaf (g_items x)). by destruct (g_items x), (store leaf _).
Qed.

Lemma glevel_level_in idx g : Forall gpage_ok g -> forall prev, in_file idx (glevel leaf flags prev g done_edge) ->
  level_in idx leaf (glevel leaf flags prev g done_edge).
Proof.
  induction 1 as [|x g Hx Hg IH]; intros prev Hin; [constructor|]. apply Forall_cons in Hin as [[H1 H2] Hin]. constructor; [|by apply IH].
  split; [done|]. apply gpage_in_tree; [done|by apply start_ok|done].
Qed.

Lemma glevel_linked g : forall prev, linked prev (glevel leaf flags prev g done_edge).
Proof. induction g as [|x g IH]; intros prev; [done|]. cbn [glevel linked]. split_and!; [done| |apply IH]. by destruct g. Qed.

Lemma glevel_lookup g e : forall prev i c, glevel leaf flags prev g e !! i = Some c ->
  exists x prev', g !! i = Some x /\ c = (g_blk x, gpage_page leaf flags prev' x (start (drop (S i) g) e)).
Proof.
  induction g as [|x g IH]; intros prev i c H; [done|]. destruct i as [|i]; cbn [glevel lookup] in H.
  - injection H as <-. by exists x, prev.
  - apply (IH (g_blk x)) in H as (y & p' & Hy & ->). by exists y, p'.
Qed.

Lemma glevel_flags g e x : forall prev, x ∈ glevel leaf flags prev g e -> btpo_flags (opaque x.2) = flags.
Proof. induction g as [|y g IH]; intros prev Hx; [by apply elem_of_nil in Hx|]. apply elem_of_cons in Hx as [->|Hx]; [done|by eapply IH]. Qed.

Lemma glevel_data g : Forall gpage_ok g -> forall prev, level_data (glevel leaf flags prev g done_edge) = concat (map (fun x => store leaf (g_items x)) g).
Proof.
  induction 1 as [|x g Hx Hg IH]; intros prev; [done|]. unfold level_data in *. cbn [glevel map concat snd]. rewrite IH. f_equal. by apply gpage_lines, start_ok.
Qed.
End Pages.

(** *** The leaves *)

Lemma glevel_spine flags x g prev : Forall gpage_ok (x :: g) ->
  spine (glevel true flags prev (x :: g) done_edge) = map line_of (g_items x) ++ (start g done_edge).2 ++ spine (glevel true flags (g_blk x) g done_edge).
Proof.
  intros H. apply Forall_cons in H as [_ H]. unfold spine. cbn [glevel map concat snd]. destruct (gpage_lines true flags prev x _ (start_ok g H)) as [-> ->].
  by rewrite <- (assoc_L (++)).
Qed.

Lemma spine_items flags g : Forall gpage_ok g -> forall prev z, z ∈ spine (glevel true flags prev g done_edge) -> z ∈ map line_of (concat (map g_items g)).
Proof.
  induction g as [|x g IH]; intros H prev z Hz; [done|]. rewrite glevel_spine in Hz by done. apply Forall_cons in H as [_ H]. cbn [map concat]. rewrite map_app.
  apply elem_of_app in Hz as [Hz|Hz]; [apply elem_of_app; by left|]. apply elem_of_app. right. apply elem_of_app in Hz as [Hz|Hz]; [|by eapply IH].
  destruct g as [|y g]; [by apply elem_of_nil in Hz|]. cbn [start snd] in Hz. cbn [map concat]. destruct (g_items y) as [|h d]; [by apply elem_of_nil in Hz|].
  apply list_elem_of_singleton in Hz as ->. by left.
Qed.

Lemma order_key_refl procs z : Forall OrderProc procs -> key_le procs z z.
Proof.
  intros H. unfold key_le. pose proof (proc_antisym (f := key_cmp 0 procs) (OrderProc := key_cmp_order procs H 0) (t_key z.2) (t_key z.2)). lia.
Qed.

Lemma spine_sorted procs flags g : Forall OrderProc procs -> Forall gpage_ok g -> StronglySorted (key_le procs) (map line_of (concat (map g_items g))) ->
  forall prev, StronglySorted (key_le procs) (spine (glevel true flags prev g done_edge)).
Proof.
  intros Hpr. induction g as [|x g IH]; intros Hg Hs prev; [constructor|]. rewrite glevel_spine by done. apply Forall_cons in Hg as [_ Hg].
  cbn [map concat] in Hs. rewrite map_app in Hs. apply StronglySorted_app_iff in Hs as (H1 & H2 & H3).
  assert (forall z, z ∈ (start g done_edge).2 ++ spine (glevel true flags (g_blk x) g done_edge) -> z ∈ map line_of (concat (map g_items g))) as Hel.
  { intros z [Hz|Hz]%elem_of_app; [|by eapply spine_items]. destruct g as [|y g]; [by apply elem_of_nil in Hz|]. cbn [start snd map concat] in *.
    destruct (g_items y) as [|h d]; [by apply elem_of_nil in Hz|]. apply list_elem_of_singleton in Hz as ->. by left. }
  apply StronglySorted_app_iff. split_and!; [done| |intros a b Ha Hb; apply H3; [done|by apply Hel]].
  apply StronglySorted_app_iff. split_and!; [|by apply IH|].
  - destruct g as [|y g]; [constructor|]. cbn [start snd]. destruct (g_items y); [constructor|]. repeat constructor.
  - intros a b Ha Hb. apply spine_items in Hb; [|done]. destruct g as [|y g]; [by apply elem_of_nil in Ha|]. cbn [start snd map concat] in *.
    destruct (g_items y) as [|h d]; [by apply elem_of_nil in Ha|]. apply list_elem_of_singleton in Ha as ->. cbn [app map] in *.
    apply elem_of_cons in Hb as [->|Hb]; [by apply order_key_refl|]. apply StronglySorted_inv in H2 as [_ H2]. by eapply Forall_forall in H2.
Qed.

(** *** Parents and children *)

Lemma store_links d : map link (store false d) = map (fun it => (t_blkno it, t_posid it)) d.
Proof. destruct d as [|x d]; [done|]. cbn [store map]. f_equal. rewrite map_map. done. Qed.

Lemma entry_links g : map (fun it => (t_blkno it, t_posid it)) (map entry g) = map (fun x => (g_blk x, P_HIKEY)) g.
Proof. by rewrite map_map. Qed.

Lemma glevel_links leaf flags g e : forall prev, map (fun c => (c.1, P_HIKEY)) (glevel leaf flags prev g e) = map (fun x => (g_blk x, P_HIKEY)) g.
Proof. induction g as [|x g IH]; intros prev; [done|]. cbn [glevel map fst]. by rewrite IH. Qed.

(** The high key of a page is the first key of the next, and so is the key of the next link. *)
Lemma start_key x g e : g_items x <> [] -> head (start (x :: g) e).2 = Some (line_of (default null_item (head (g_items x)))).
Proof. intros H. cbn [start snd]. by destruct (g_items x). Qed.

Lemma seg_glevel leaf flags flags' prev prev' x g1 g2 gu : Forall gpage_ok g1 -> Forall gpage_ok g2 -> Forall gpage_ok (x :: gu) ->
  g_items x = map entry g1 -> concat (map g_items gu) = map entry g2 ->
  seg (glevel leaf flags prev g1 (start g2 done_edge)) (gpage_page false flags' prev' x (start gu done_edge)).
Proof.
  intros H1 H2 Hu Ex Eu. apply Forall_cons in Hu as [Hx Hu]. pose proof (gp_items _ Hx) as Hne. unfold seg.
  destruct (gpage_lines false flags' prev' x _ (start_ok gu Hu)) as [-> _]. rewrite gpage_hikey by (by apply start_ok). rewrite Ex in *. split.
  - destruct g1; [done|]. done.
  - by rewrite store_links, entry_links, glevel_links.
  - intros i z c Hz Hc. apply glevel_lookup in Hc as (y & p' & Hy & ->). cbn [snd].
    assert (exists y', g1 !! S i = Some y' /\ z = line_of (entry y')) as (y' & Hy' & ->).
    { destruct g1 as [|w g1]; [done|]. change ((line_of <$> (entry <$> g1)) !! i = Some z) in Hz. change ((w :: g1) !! S i) with (g1 !! i).
      rewrite !list_lookup_fmap in Hz. destruct (g1 !! i) as [y'|] eqn:E; [|done]. injection Hz as <-. by exists y'. }
    assert (Forall gpage_ok (drop (S i) g1)) as Hd by (by apply Forall_drop). rewrite (drop_S _ _ _ Hy') in Hd |- *. apply Forall_cons in Hd as [Hgy Hd].
    pose proof (gp_items _ Hgy) as Hny. rewrite gpage_hikey.
    + by rewrite start_key.
    + right. cbn [start fst snd]. split; [apply Hgy|]. destruct (g_items y') as [|i' d'] eqn:E; [done|]. exists i'. split; [done|]. pose proof (gp_ok _ Hgy) as Ho. rewrite E in Ho. by apply Forall_cons in Ho as [Ho _].
  - intros c Hc. rewrite last_lookup in Hc. apply glevel_lookup in Hc as (y & p' & Hy & ->). cbn [snd].
    rewrite (drop_ge g1). 2:{ pose proof (f_equal length (glevel_links leaf flags g1 (start g2 done_edge) prev)) as El. rewrite !length_map in El. lia. }
    cbn [start]. rewrite gpage_hikey by (by apply start_ok). destruct gu as [|u gu].
    + destruct g2; done.
    + destruct g2 as [|w g2]; [apply Forall_cons in Hu as [Hu _]; pose proof (gp_items _ Hu); cbn [map concat] in Eu; by destruct (g_items u)|].
      apply Forall_cons in Hu as [Hu _], H2 as [Hw _]. rewrite !start_key by (apply Hu || apply Hw). cbn [option_map line_of snd]. f_equal.
      pose proof (gp_items _ Hu) as Hnu. cbn [map concat] in Eu. destruct (g_items u) as [|iu du]; [done|]. by injection Eu as -> _.
Qed.

Lemma covers_glevel leaf flags flags' gu : forall gl prev prev', Forall gpage_ok gu -> Forall gpage_ok gl -> concat (map g_items gu) = map entry gl ->
  covers (glevel leaf flags prev gl done_edge) (glevel false flags' prev' gu done_edge).
Proof.
  induction gu as [|x gu IH]; intros gl prev prev' Hu Hl E; cbn [map concat] in E.
  - destruct gl; [constructor|done].
  - symmetry in E. apply fmap_app_inv in E as (g1 & g2 & E1 & E2 & ->). apply Forall_app in Hl as [H1 H2]. rewrite glevel_app. cbn [glevel].
    constructor; [by apply seg_glevel|]. apply Forall_cons in Hu as [_ Hu]. by apply IH.
Qed.

(** *** The tree *)

Fixpoint levels_of (l : nat) (F : list glev) : list level :=
  match F with [] => [] | lv :: F => fin_pages l (is_top F) lv :: levels_of (S l) F end.

Lemma levels_of_length F : forall l, length (levels_of l F) = length F.
Proof. induction F as [|lv F IH]; intros l; [done|]. cbn [levels_of length]. by rewrite IH. Qed.

Lemma levels_of_blocks F : forall l, map fst (concat (levels_of l F)) = blocks F.
Proof. induction F as [|lv F IH]; intros l; [done|]. cbn [levels_of concat]. rewrite map_app, IH, fin_pages_blocks. done. Qed.

Lemma levels_lookup F : forall l k C, levels_of l F !! k = Some C -> exists lv F', drop k F = lv :: F' /\ C = fin_pages (l + k) (is_top F') lv.
Proof.
  induction F as [|lv F IH]; intros l k C H; [done|]. destruct k as [|k].
  - injection H as <-. exists lv, F. by rewrite Nat.add_0_r.
  - apply (IH (S l) k) in H as (lv' & F' & E & ->). exists lv', F'. by rewrite Nat.add_succ_r.
Qed.

Lemma complete_drop idx k : forall l F lv F', complete l idx F -> drop k F = lv :: F' -> complete (l + k) idx (lv :: F').
Proof.
  induction k as [|k IH]; intros l F lv F' H E.
  - change (F = lv :: F') in E. subst F. by rewrite Nat.add_0_r.
  - destruct F as [|x F]; [done|]. change (drop k F = lv :: F') in E. destruct F as [|y F]; [by rewrite drop_nil in E|].
    rewrite Nat.add_succ_r. apply (IH (S l) (y :: F)); [|done]. apply H.
Qed.

Lemma fin_flags l (root : bool) : let op := mkOpaque 0 0 0 (if root then Z.lor (flags_at l) BTP_ROOT else flags_at l) in
  P_ISLEAF op = leaf_at l /\ P_ISROOT op = root.
Proof. unfold flags_at. by destruct (leaf_at l), root. Qed.

Section Finished.
Context (procs : procs_t) (idx : Index) (F : list glev).
Context (Hc : complete 0 idx F) (Hnd : NoDup (blocks F)) (Hv : Forall valid_blk (blocks F)).

Lemma finished_level k lv F' : drop k F = lv :: F' -> Forall gpage_ok (lv.1 ++ [lv.2]) /\ complete k idx (lv :: F').
Proof.
  intros E. pose proof (complete_drop idx k 0 F lv F' Hc E) as H. split; [|done]. destruct H as ([H1 H2 H3] & _).
  assert (Forall valid_blk (lev_blocks lv)) as Hb.
  { rewrite <- (take_drop k F), E in Hv. unfold blocks in Hv. rewrite map_app, concat_app in Hv. apply Forall_app in Hv as [_ Hb]. by apply Forall_app in Hb as [Hb _]. }
  unfold lev_blocks, lev_items in *. clear E. induction (lv.1 ++ [lv.2]) as [|x g IH]; [constructor|]. cbn [map concat] in *.
  apply Forall_cons in H1 as [? H1], H3 as [? H3], Hb as [[? ?] Hb]. apply Forall_app in H2 as [? H2]. constructor; [done|by apply IH].
Qed.

Lemma finished_levels_in : levels_in idx (levels_of 0 F).
Proof.
  split.
  - intros l C H. apply levels_lookup in H as (lv & F' & E & ->). destruct (finished_level l lv F' E) as [Hg (_ & Hin & _)].
    apply glevel_level_in; [apply (fin_flags l)|done|done].
  - apply Forall_lookup. intros l C H. apply levels_lookup in H as (lv & F' & E & ->). unfold fin_pages. destruct lv as [[|x fin] c]; done.
  - intros l C H. apply levels_lookup in H as (lv & F' & E & ->). apply glevel_linked.
  - by rewrite levels_of_blocks.
  - rewrite levels_of_blocks. intros Hin. eapply Forall_forall in Hv; [|exact Hin]. by destruct Hv.
Qed.

Lemma finished_root : exists p, last (levels_of 0 F) = Some [(btm_root idx, p)].
Proof.
  clear Hnd Hv. revert Hc. generalize 0%nat. induction F as [|lv F' IH]; intros l H; [done|]. destruct H as (_ & _ & H). cbn [levels_of].
  destruct F' as [|up F'].
  - destruct H as [H1 H2]. unfold fin_pages. rewrite H1, H2. eexists. reflexivity.
  - destruct H as [_ H]. destruct (IH _ H) as [p Hp]. exists p. cbn [levels_of] in *. exact Hp.
Qed.

Lemma finished_levels : levels_ok idx (levels_of 0 F).
Proof.
  split; [apply finished_levels_in|apply finished_root|]. intros l C x H Hx. rewrite levels_of_length.
  apply levels_lookup in H as (lv & F' & E & ->). apply glevel_flags in Hx. unfold P_ISROOT. rewrite Hx.
  destruct (fin_flags l (is_top F')) as [_ Hr]. unfold P_ISROOT in Hr. cbn [btpo_flags] in Hr. cbn [Nat.add]. rewrite Hr.
  apply (f_equal length) in E as El. rewrite length_drop in El. cbn [length] in El. destruct F' as [|y F']; cbn [is_top length] in *; symmetry.
  - apply bool_decide_true. lia.
  - apply bool_decide_false. lia.
Qed.

Lemma finished_covers : covers_from 0 (levels_of 0 F).
Proof.
  intros l C P _ HC HP. apply levels_lookup in HC as (lv & F' & E & ->). apply levels_lookup in HP as (up & F'' & E' & ->).
  destruct (finished_level _ _ _ E) as [Hg (_ & _ & H)]. destruct (finished_level _ _ _ E') as [Hg' _].
  assert (F' = up :: F'') as ->.
  { replace (S l) with (l + 1)%nat in E' by lia. rewrite <- drop_drop, E in E'. exact E'. }
  destruct H as [H _]. by apply covers_glevel.
Qed.

Lemma finished_tree lv F' : Forall OrderProc procs -> F = lv :: F' -> StronglySorted (key_le procs) (map line_of (lev_items lv)) -> tree_ok procs idx (levels_of 0 F).
Proof.
  intros Hpr E Hs. split; [apply finished_levels|apply finished_covers|]. intros C HC. rewrite E in HC. injection HC as <-.
  destruct (finished_level 0 lv F') as [Hg _]; [by rewrite E|]. by apply spine_sorted.
Qed.

Lemma finished_data lv F' : F = lv :: F' -> level_data (fin_pages 0 (is_top F') lv) = map line_of (lev_items lv).
Proof.
  intros E. destruct (finished_level 0 lv F') as [Hg _]; [by rewrite E|]. unfold fin_pages. rewrite glevel_data by done. unfold lev_items.
  clear. induction (lv.1 ++ [lv.2]) as [|x g IH]; [done|]. cbn [map concat]. rewrite map_app, IH. done.
Qed.
End Finished.

(** *** Items of one width *)

Definition width (W : Z) (it : BTItem) : Prop := MAXALIGN (IndexTupleDSize it) = W.

Lemma entry_width W x : g_items x <> [] -> Forall (width W) (g_items x) -> width W (entry x).
Proof. intros Hne H. destruct (g_items x) as [|i d] eqn:E; [done|]. apply Forall_cons in H as [H _]. by rewrite (entry_head _ _ _ E). Qed.

Lemma entries_width W g : Forall (fun x => g_items x <> []) g -> Forall (width W) (concat (map g_items g)) -> Forall (width W) (map entry g).
Proof.
  induction 1 as [|x g Hx _ IH]; intros H; [constructor|]. cbn [map concat] in H. apply Forall_app in H as [H1 H2].
  constructor; [by apply entry_width|by apply IH].
Qed.

Lemma complete_width W idx k : forall l lv F lv' F', complete l idx (lv :: F) -> Forall (width W) (lev_items lv) ->
  drop k (lv :: F) = lv' :: F' -> Forall (width W) (lev_items lv').
Proof.
  induction k as [|k IH]; intros l lv F lv' F' H HW E; [by injection E as -> _|]. change (drop k F = lv' :: F') in E.
  destruct F as [|up F]; [by rewrite drop_nil in E|]. destruct H as ([Hch _ _] & _ & Hi & H). apply (IH (S l) up F lv' F' H); [|done].
  rewrite Hi. by apply entries_width.
Qed.

Lemma width_wide W d : Forall (width W) d -> Forall (wide W) (map line_of d).
Proof. intros H. apply Forall_fmap. eapply Forall_impl; [exact H|]. by intros it Hit. Qed.

Lemma gpage_wide W leaf flags prev x e : P_ISLEAF (mkOpaque 0 0 0 flags) = leaf -> edge_ok e -> Forall (width W) (g_items x) ->
  Forall (wide W) e.2 -> page_wide W (gpage_page leaf flags prev x e).
Proof.
  intros Hl He Hx Hw. destruct (gpage_lines leaf flags prev x e He) as [Ed Eh]. split; rewrite ?Ed, ?Eh; [|done|].
  - unfold keyed_lines. rewrite Ed. change (P_ISLEAF (opaque (gpage_page leaf flags prev x e))) with (P_ISLEAF (mkOpaque 0 0 0 flags)). rewrite Hl.
    apply width_wide in Hx. unfold store. destruct leaf; [done|]. destruct (g_items x) as [|i d]; [constructor|]. by apply Forall_cons in Hx as [_ Hx].
  - change (P_ISLEAF (opaque (gpage_page leaf flags prev x e))) with (P_ISLEAF (mkOpaque 0 0 0 flags)). rewrite Hl. intros -> z Hz.
    unfold store in Hz. destruct (g_items x); [done|]. by injection Hz as <-.
Qed.

Lemma glevel_wide W leaf flags g : P_ISLEAF (mkOpaque 0 0 0 flags) = leaf -> Forall gpage_ok g -> Forall (width W) (concat (map g_items g)) ->
  forall prev, level_wide W (glevel leaf flags prev g done_edge).
Proof.
  intros Hl. induction 1 as [|x g Hx Hg IH]; intros HW prev; [constructor|]. cbn [map concat] in HW. apply Forall_app in HW as [H1 H2].
  constructor; [|by apply IH]. apply gpage_wide; [done|by apply start_ok|done|]. destruct g as [|y g]; [constructor|]. cbn [start snd map concat] in *.
  destruct (g_items y) as [|h d]; [constructor|]. apply Forall_cons in H2 as [H2 _]. by constructor.
Qed.

Lemma finished_wide W idx lv F : complete 0 idx (lv :: F) -> Forall valid_blk (blocks (lv :: F)) -> Forall (width W) (lev_items lv) ->
  tree_wide W (levels_of 0 (lv :: F)).
Proof.
  intros Hc Hv HW. apply Forall_lookup. intros l C H. apply levels_lookup in H as (lv' & F' & E & ->).
  destruct (finished_level idx (lv :: F) Hc Hv l lv' F' E) as [Hg _]. apply glevel_wide; [apply (fin_flags l)|done|by eapply complete_width].
Qed.

(** *** [_bt_load] *)

Lemma tower_size l idx ss lv G : tower l idx ss (lv :: G) -> NoDup (blocks (lv :: G)) -> (length lv.1 + 1 <= size (pages idx))%nat.
Proof.
  intros Ht Hnd. rewrite blocks_cons in Hnd. apply NoDup_app in Hnd as (Hnd & _ & _).
  replace (length lv.1 + 1)%nat with (length (lev_blocks lv)) by (unfold lev_blocks; rewrite length_map, length_app; done).
  rewrite <- (size_list_to_set (C := gset Z) (lev_blocks lv)) by done. rewrite <- size_dom. apply subseteq_size. intros b Hb. apply elem_of_list_to_set in Hb.
  apply elem_of_dom. destruct (pages idx !! b) as [p|] eqn:E; [by exists p|]. exfalso. apply (tower_in_file _ _ b _ _ Ht); [|done].
  rewrite blocks_cons. apply elem_of_app. by left.
Qed.

(** What bulk loading promises of the tree. *)
Definition loaded (its : list BTItem) (L : list level) : Prop := forall W, Forall (width W) its -> tree_wide W L.

Lemma load_ok alloc procs idx its : Forall OrderProc procs ->
  (forall m, m !! alloc m = None /\ alloc m <> P_NONE /\ alloc m <> InvalidBlockNumber) -> btm_root idx = P_NONE ->
  Forall item_ok its -> StronglySorted (key_le procs) (map line_of its) ->
  exists idx', _bt_load alloc idx its = Ok idx' /\ index_rep (loaded its) procs idx' (map line_of its).
Proof.
  intros Hpr Halloc Hroot Hits Hs. destruct its as [|it its]; [exists idx; split; [done|by left]|].
  destruct (load_start alloc Halloc it its idx Hits) as (idx1 & ss & lv & G & E & Ht & Hi & Hnd & Hv). unfold _bt_load. rewrite E. cbn [mbind result_bind fst snd].
  pose proof (tower_size _ _ _ _ _ Ht Hnd) as Hsz.
  destruct (shutdown_spec alloc Halloc (2 + size (pages idx1)) 0 idx1 ss lv G Ht Hnd Hv) as (idx' & lv' & F & E' & Hco & Hi' & Hfr); [by rewrite Hi|lia|].
  destruct ss as [|s ss]; [done|]. exists idx'. split; [exact E'|]. right. rewrite Hi in Hi'.
  pose proof (fr_nodup _ _ _ _ Hfr) as Hnd'. pose proof (fr_valid _ _ _ _ Hfr) as Hv'.
  exists (levels_of 0 (lv' :: F)), (fin_pages 0 (is_top F) lv'). split_and!; [|intros W HW; by apply (finished_wide W idx'); rewrite ?Hi'|done|].
  - apply (finished_tree procs idx' (lv' :: F) Hco Hnd' Hv' lv' F Hpr eq_refl). by rewrite Hi'.
  - by rewrite (finished_data idx' (lv' :: F) Hco Hv' lv' F eq_refl), Hi'.
Qed.

Lemma size_item_ok it : sizeof_BTItemData <= MAXALIGN (IndexTupleDSize it) <= BTMaxItemSize -> item_ok it.
Proof.
  intros H. split; [|exact H]. cbn [line_of fst]. unfold IndexTupleDSize. change 0x1FFF with (Z.ones 13). rewrite Z.land_ones by lia.
  pose proof (Z.mod_pos_bound (t_info it) (2 ^ 13) ltac:(lia)). apply MAXALIGN_spec. lia.
Qed.

(** ** Theorems *)

(** C5: bulk loading builds the index of its input.  Items that come in order, of any admissible sizes, are
    loaded without an error: no assertion about the pages fails, every item fits where it is put,
    and the levels are completed.  The index holds exactly these items in this order: its
    levels are linked, every page is reachable from its parent and the keys of the
    links separate the pages; if the items have one width, so has the tree. *)
Theorem bt_load_correct alloc procs idx its : Forall OrderProc procs ->
  (forall m, m !! alloc m = None /\ alloc m <> P_NONE /\ alloc m <> InvalidBlockNumber) -> btm_root idx = P_NONE ->
  Forall (fun it => sizeof_BTItemData <= MAXALIGN (IndexTupleDSize it) <= BTMaxItemSize) its ->
  StronglySorted (key_le procs) (map line_of its) ->
  exists idx', _bt_load alloc idx its = Ok idx' /\ index_rep (loaded its) procs idx' (map line_of its).
Proof.
  intros Hpr Halloc Hroot Hits Hs. apply load_ok; try done. eapply Forall_impl; [exact Hits|]. intros it. apply size_item_ok.
Qed.

(** C4: a loaded index is an index like any other.  After loading sorted items of one width
    into a new index, no sequence of insertions of items of that width (each heap tuple once)
    and of bulk deletions fails, and every scan with keys on attributes of the index that carry
    no flag but the one of a null constant returns the matching items of the bag the operations make, in the order of the scan,
    or the error for an attribute left out or an unknown operator. *)
Theorem bt_load_session fmgr strategy_map procs alloc tired W its ops :
  (8 | W) -> sizeof_BTItemData <= W <= BTMaxItemSize -> Forall OrderProc procs -> StrategyOps fmgr strategy_map procs ->
  (forall m, m !! alloc m = None /\ alloc m <> P_NONE /\ alloc m <> InvalidBlockNumber) ->
  Forall (fun it => MAXALIGN (IndexTupleDSize it) = W /\ t_posid it <> InvalidOffsetNumber) its -> NoDup (map t_tid its) ->
  StronglySorted (key_le procs) (map line_of its) -> ops_ok W its ops ->
  exists idx0 idx, _bt_load alloc (mkIndex ∅ P_NONE 0) its = Ok idx0 /\ run_ops fmgr strategy_map procs alloc tired idx0 ops = Ok idx /\
    scans_bag fmgr strategy_map procs alloc idx (spec_ops its ops).
Proof.
  intros HW8 HW Hpr Hops Halloc Hits Htid Hs Hok. destruct (load_ok alloc procs (mkIndex ∅ P_NONE 0) its Hpr Halloc eq_refl) as (idx0 & E & Hrep); [|done|].
  { eapply Forall_impl; [exact Hits|]. intros it [Hw _]. apply size_item_ok. by rewrite Hw. }
  destruct (run_ops_bag fmgr strategy_map procs alloc tired W HW8 HW Hpr Halloc ops idx0 its) as (idx & E' & H); [|done|].
  - split; [|done|eapply Forall_impl; [exact Hits|]; by intros it [_ H]]. exists (map line_of its). split; [|by rewrite map_map, map_id].
    destruct Hrep as [Hl|(L & C & Ht & Hq & HC & Ed)]; [by left|]. right. exists L, C. split_and!; [done| |done|done]. apply Hq.
    eapply Forall_impl; [exact Hits|]. by intros it [H _].
  - exists idx0, idx. split_and!; [done|done|]. by apply (scan_bag fmgr strategy_map procs alloc W).
Qed.

(** An item that is larger than a third of a page ends the load with an error, whatever
    was loaded before it. *)
Theorem bt_load_oversize alloc idx pre it post :
  (forall m, m !! alloc m = None /\ alloc m <> P_NONE /\ alloc m <> InvalidBlockNumber) ->
  Forall (fun it => sizeof_BTItemData <= MAXALIGN (IndexTupleDSize it) <= BTMaxItemSize) pre -> BTMaxItemSize < MAXALIGN (IndexTupleDSize it) ->
  _bt_load alloc idx (pre ++ it :: post) = Err "btree: index item size exceeds maximum".
Proof.
  intros Halloc Hpre Hit. assert (Forall item_ok pre) as Hp by (eapply Forall_impl; [exact Hpre|]; intros i; apply size_item_ok).
  unfold _bt_load. destruct pre as [|i pre].
  - destruct (load_first alloc Halloc it post idx) as (idx1 & s & b & E & Ht & _). cbn [app]. rewrite E.
    rewrite load_too_big by (done || by destruct (tower_cur _ _ _ _ _ _ Ht) as (-> & _)). done.
  - destruct (load_start alloc Halloc i pre idx Hp) as (idx1 & ss & lv & G & E & Ht & _). rewrite load_loop_app, E. cbn [mbind result_bind fst snd].
    destruct ss as [|s ss]; [done|]. rewrite load_too_big by (done || by destruct (tower_cur _ _ _ _ _ _ Ht) as (-> & _)). done.
Qed.

(** ** Witnesses *)

(** Forty items of 2000 bytes and some small ones: four levels. *)
Definition load_item (k : Z) : BTItem := mkBTItem 2 k (if k <=? 40 then 2000 else 16) [Some (Val k)].
Definition load_input (n : Z) : list BTItem := map load_item (seqZ 1 n).

Lemma keys_sorted (l : list line) : forallb (fun p => key_cmp 0 [btint4cmp] (t_key p.1.2) (t_key p.2.2) <=? 0) (zip l (drop 1 l)) = true ->
  StronglySorted (key_le [btint4cmp]) l.
Proof.
  intros H. apply Sorted_StronglySorted.
  - intros a b c. unfold key_le. apply (proc_trans (OrderProc := key_cmp_order _ demo_procs_ok 0)).
  - induction l as [|x l IH]; [constructor|]. destruct l as [|y l]; [repeat constructor|]. cbn [drop zip forallb] in H.
    change (((key_cmp 0 [btint4cmp] (t_key x.2) (t_key y.2) <=? 0) && forallb (fun p => key_cmp 0 [btint4cmp] (t_key p.1.2) (t_key p.2.2) <=? 0) (zip (y :: l) (drop 1 (y :: l)))) = true) in H.
    apply andb_true_iff in H as [H1 H2]. constructor; [by apply IH|]. constructor. by apply Z.leb_le in H1.
Qed.

Lemma load_sizes n : Forall (fun it => sizeof_BTItemData <= MAXALIGN (IndexTupleDSize it) <= BTMaxItemSize) (load_input n).
Proof.
  apply Forall_fmap, Forall_forall. intros k _. unfold compose, load_item. cbn [IndexTupleDSize t_info]. unfold IndexTupleDSize. cbn [t_info].
  destruct (k <=? 40); vm_compute; split; discriminate.
Qed.

Lemma bt_load_correct_witness : exists idx, _bt_load demo_alloc (mkIndex ∅ P_NONE 0) (load_input 60) = Ok idx /\ btm_level idx = 4 /\
  index_rep (loaded (load_input 60)) [btint4cmp] idx (map line_of (load_input 60)).
Proof.
  destruct (bt_load_correct demo_alloc [btint4cmp] (mkIndex ∅ P_NONE 0) (load_input 60) demo_procs_ok demo_alloc_ok eq_refl (load_sizes 60)) as (idx & E & H).
  - apply keys_sorted. vm_compute. reflexivity.
  - exists idx. split; [exact E|]. split; [|exact H].
    assert (match _bt_load demo_alloc (mkIndex ∅ P_NONE 0) (load_input 60) with Ok i => btm_level i | Err _ => 0 end = 4) as El by (vm_compute; reflexivity).
    rewrite E in El. exact El.
Defined.

Lemma bt_load_session_witness : exists idx0 idx l,
  _bt_load demo_alloc (mkIndex ∅ P_NONE 0) (load_input 30) = Ok idx0 /\
  run_ops int4_fmgr int4_strategy_map [btint4cmp] demo_alloc (fun _ => false) idx0 [OpBulkDelete [(2, 7)]; OpInsert (demo_item2 5 50)] = Ok idx /\
  index_scan int4_fmgr int4_strategy_map [btint4cmp] demo_alloc idx demo_quals ForwardScanDirection = Ok l /\ length l <> 0%nat.
Proof.
  destruct (bt_load_session int4_fmgr int4_strategy_map [btint4cmp] demo_alloc (fun _ => false) 2000 (load_input 30)
    [OpBulkDelete [(2, 7)]; OpInsert (demo_item2 5 50)] (proj1 demo_width) (proj2 demo_width) demo_procs_ok int4_ops demo_alloc_ok) as (idx0 & idx & E0 & E & H).
  - repeat (constructor; [split; [reflexivity|discriminate]|]). constructor.
  - apply (bool_decide_unpack _). vm_compute. exact I.
  - apply keys_sorted. vm_compute. reflexivity.
  - cbn [ops_ok]. repeat first [split | exact I]; try reflexivity; try discriminate. apply (bool_decide_unpack _). vm_compute. exact I.
  - destruct (H demo_quals ForwardScanDirection demo_quals_ok) as (l & El & Hp & _). exists idx0, idx, l. split; [exact E0|]. split; [exact E|]. split; [exact El|].
    rewrite Hp. vm_compute. discriminate.
Defined.

Lemma bt_load_oversize_witness : _bt_load demo_alloc (mkIndex ∅ P_NONE 0) (load_input 5 ++ [mkBTItem 2 9 4000 [Some (Val 9)]]) =
  Err "btree: index item size exceeds maximum".
Proof. apply bt_load_oversize; [apply demo_alloc_ok|apply load_sizes|vm_compute; reflexivity]. Defined.
End NbtSort.
