(* ===== verification/Checksum.v ===== *)
(** * Page checksums ([env/pg_crc.c], [env/pg_crc.h], [storage/page/bufpage.c])

    A page is stamped with a 64-bit CRC of samples of its bytes before it is written and
    checked when it is read.  The model has the table-driven CRC, the sampling and the
    three page routines; the reference is the CRC as polynomial division, one bit at a
    time. *)

From S2P Require Import Prelude.
From S2P Require Import Bufpage.

Module Checksum.

(** ** The tables *)

Definition pg_crc64_table : list Z :=
  [0x0000000000000000; 0x42F0E1EBA9EA3693; 0x85E1C3D753D46D26; 0xC711223CFA3E5BB5;
   0x493366450E42ECDF; 0x0BC387AEA7A8DA4C; 0xCCD2A5925D9681F9; 0x8E224479F47CB76A;
   0x9266CC8A1C85D9BE; 0xD0962D61B56FEF2D; 0x17870F5D4F51B498; 0x5577EEB6E6BB820B;
   0xDB55AACF12C73561; 0x99A54B24BB2D03F2; 0x5EB4691841135847; 0x1C4488F3E8F96ED4;
   0x663D78FF90E185EF; 0x24CD9914390BB37C; 0xE3DCBB28C335E8C9; 0xA12C5AC36ADFDE5A;
   0x2F0E1EBA9EA36930; 0x6DFEFF5137495FA3; 0xAAEFDD6DCD770416; 0xE81F3C86649D3285;
   0xF45BB4758C645C51; 0xB6AB559E258E6AC2; 0x71BA77A2DFB03177; 0x334A9649765A07E4;
   0xBD68D2308226B08E; 0xFF9833DB2BCC861D; 0x388911E7D1F2DDA8; 0x7A79F00C7818EB3B;
   0xCC7AF1FF21C30BDE; 0x8E8A101488293D4D; 0x499B3228721766F8; 0x0B6BD3C3DBFD506B;
   0x854997BA2F81E701; 0xC7B97651866BD192; 0x00A8546D7C558A27; 0x4258B586D5BFBCB4;
   0x5E1C3D753D46D260; 0x1CECDC9E94ACE4F3; 0xDBFDFEA26E92BF46; 0x990D1F49C77889D5;
   0x172F5B3033043EBF; 0x55DFBADB9AEE082C; 0x92CE98E760D05399; 0xD03E790CC93A650A;
   0xAA478900B1228E31; 0xE8B768EB18C8B8A2; 0x2FA64AD7E2F6E317; 0x6D56AB3C4B1CD584;
   0xE374EF45BF6062EE; 0xA1840EAE168A547D; 0x66952C92ECB40FC8; 0x2465CD79455E395B;
   0x3821458AADA7578F; 0x7AD1A461044D611C; 0xBDC0865DFE733AA9; 0xFF3067B657990C3A;
   0x711223CFA3E5BB50; 0x33E2C2240A0F8DC3; 0xF4F3E018F031D676; 0xB60301F359DBE0E5;
   0xDA050215EA6C212F; 0x98F5E3FE438617BC; 0x5FE4C1C2B9B84C09; 0x1D14202910527A9A;
   0x93366450E42ECDF0; 0xD1C685BB4DC4FB63; 0x16D7A787B7FAA0D6; 0x5427466C1E109645;
   0x4863CE9FF6E9F891; 0x0A932F745F03CE02; 0xCD820D48A53D95B7; 0x8F72ECA30CD7A324;
   0x0150A8DAF8AB144E; 0x43A04931514122DD; 0x84B16B0DAB7F7968; 0xC6418AE602954FFB;
   0xBC387AEA7A8DA4C0; 0xFEC89B01D3679253; 0x39D9B93D2959C9E6; 0x7B2958D680B3FF75;
   0xF50B1CAF74CF481F; 0xB7FBFD44DD257E8C; 0x70EADF78271B2539; 0x321A3E938EF113AA;
   0x2E5EB66066087D7E; 0x6CAE578BCFE24BED; 0xABBF75B735DC1058; 0xE94F945C9C3626CB;
   0x676DD025684A91A1; 0x259D31CEC1A0A732; 0xE28C13F23B9EFC87; 0xA07CF2199274CA14;
   0x167FF3EACBAF2AF1; 0x548F120162451C62; 0x939E303D987B47D7; 0xD16ED1D631917144;
   0x5F4C95AFC5EDC62E; 0x1DBC74446C07F0BD; 0xDAAD56789639AB08; 0x985DB7933FD39D9B;
   0x84193F60D72AF34F; 0xC6E9DE8B7EC0C5DC; 0x01F8FCB784FE9E69; 0x43081D5C2D14A8FA;
   0xCD2A5925D9681F90; 0x8FDAB8CE70822903; 0x48CB9AF28ABC72B6; 0x0A3B7B1923564425;
   0x70428B155B4EAF1E; 0x32B26AFEF2A4998D; 0xF5A348C2089AC238; 0xB753A929A170F4AB;
   0x3971ED50550C43C1; 0x7B810CBBFCE67552; 0xBC902E8706D82EE7; 0xFE60CF6CAF321874;
   0xE224479F47CB76A0; 0xA0D4A674EE214033; 0x67C58448141F1B86; 0x253565A3BDF52D15;
   0xAB1721DA49899A7F; 0xE9E7C031E063ACEC; 0x2EF6E20D1A5DF759; 0x6C0603E6B3B7C1CA;
   0xF6FAE5C07D3274CD; 0xB40A042BD4D8425E; 0x731B26172EE619EB; 0x31EBC7FC870C2F78;
   0xBFC9838573709812; 0xFD39626EDA9AAE81; 0x3A28405220A4F534; 0x78D8A1B9894EC3A7;
   0x649C294A61B7AD73; 0x266CC8A1C85D9BE0; 0xE17DEA9D3263C055; 0xA38D0B769B89F6C6;
   0x2DAF4F0F6FF541AC; 0x6F5FAEE4C61F773F; 0xA84E8CD83C212C8A; 0xEABE6D3395CB1A19;
   0x90C79D3FEDD3F122; 0xD2377CD44439C7B1; 0x15265EE8BE079C04; 0x57D6BF0317EDAA97;
   0xD9F4FB7AE3911DFD; 0x9B041A914A7B2B6E; 0x5C1538ADB04570DB; 0x1EE5D94619AF4648;
   0x02A151B5F156289C; 0x4051B05E58BC1E0F; 0x87409262A28245BA; 0xC5B073890B687329;
   0x4B9237F0FF14C443; 0x0962D61B56FEF2D0; 0xCE73F427ACC0A965; 0x8C8315CC052A9FF6;
   0x3A80143F5CF17F13; 0x7870F5D4F51B4980; 0xBF61D7E80F251235; 0xFD913603A6CF24A6;
   0x73B3727A52B393CC; 0x31439391FB59A55F; 0xF652B1AD0167FEEA; 0xB4A25046A88DC879;
   0xA8E6D8B54074A6AD; 0xEA16395EE99E903E; 0x2D071B6213A0CB8B; 0x6FF7FA89BA4AFD18;
   0xE1D5BEF04E364A72; 0xA3255F1BE7DC7CE1; 0x64347D271DE22754; 0x26C49CCCB40811C7;
   0x5CBD6CC0CC10FAFC; 0x1E4D8D2B65FACC6F; 0xD95CAF179FC497DA; 0x9BAC4EFC362EA149;
   0x158E0A85C2521623; 0x577EEB6E6BB820B0; 0x906FC95291867B05; 0xD29F28B9386C4D96;
   0xCEDBA04AD0952342; 0x8C2B41A1797F15D1; 0x4B3A639D83414E64; 0x09CA82762AAB78F7;
   0x87E8C60FDED7CF9D; 0xC51827E4773DF90E; 0x020905D88D03A2BB; 0x40F9E43324E99428;
   0x2CFFE7D5975E55E2; 0x6E0F063E3EB46371; 0xA91E2402C48A38C4; 0xEBEEC5E96D600E57;
   0x65CC8190991CB93D; 0x273C607B30F68FAE; 0xE02D4247CAC8D41B; 0xA2DDA3AC6322E288;
   0xBE992B5F8BDB8C5C; 0xFC69CAB42231BACF; 0x3B78E888D80FE17A; 0x7988096371E5D7E9;
   0xF7AA4D1A85996083; 0xB55AACF12C735610; 0x724B8ECDD64D0DA5; 0x30BB6F267FA73B36;
   0x4AC29F2A07BFD00D; 0x08327EC1AE55E69E; 0xCF235CFD546BBD2B; 0x8DD3BD16FD818BB8;
   0x03F1F96F09FD3CD2; 0x41011884A0170A41; 0x86103AB85A2951F4; 0xC4E0DB53F3C36767;
   0xD8A453A01B3A09B3; 0x9A54B24BB2D03F20; 0x5D45907748EE6495; 0x1FB5719CE1045206;
   0x919735E51578E56C; 0xD367D40EBC92D3FF; 0x1476F63246AC884A; 0x568617D9EF46BED9;
   0xE085162AB69D5E3C; 0xA275F7C11F7768AF; 0x6564D5FDE549331A; 0x279434164CA30589;
   0xA9B6706FB8DFB2E3; 0xEB46918411358470; 0x2C57B3B8EB0BDFC5; 0x6EA7525342E1E956;
   0x72E3DAA0AA188782; 0x30133B4B03F2B111; 0xF7021977F9CCEAA4; 0xB5F2F89C5026DC37;
   0x3BD0BCE5A45A6B5D; 0x79205D0E0DB05DCE; 0xBE317F32F78E067B; 0xFCC19ED95E6430E8;
   0x86B86ED5267CDBD3; 0xC4488F3E8F96ED40; 0x0359AD0275A8B6F5; 0x41A94CE9DC428066;
   0xCF8B0890283E370C; 0x8D7BE97B81D4019F; 0x4A6ACB477BEA5A2A; 0x089A2AACD2006CB9;
   0x14DEA25F3AF9026D; 0x562E43B4931334FE; 0x913F6188692D6F4B; 0xD3CF8063C0C759D8;
   0x5DEDC41A34BBEEB2; 0x1F1D25F19D51D821; 0xD80C07CD676F8394; 0x9AFCE626CE85B507].

Definition pg_crc32_table : list Z :=
  [0x00000000; 0x77073096; 0xEE0E612C; 0x990951BA; 0x076DC419; 0x706AF48F; 0xE963A535; 0x9E6495A3;
   0x0EDB8832; 0x79DCB8A4; 0xE0D5E91E; 0x97D2D988; 0x09B64C2B; 0x7EB17CBD; 0xE7B82D07; 0x90BF1D91;
   0x1DB71064; 0x6AB020F2; 0xF3B97148; 0x84BE41DE; 0x1ADAD47D; 0x6DDDE4EB; 0xF4D4B551; 0x83D385C7;
   0x136C9856; 0x646BA8C0; 0xFD62F97A; 0x8A65C9EC; 0x14015C4F; 0x63066CD9; 0xFA0F3D63; 0x8D080DF5;
   0x3B6E20C8; 0x4C69105E; 0xD56041E4; 0xA2677172; 0x3C03E4D1; 0x4B04D447; 0xD20D85FD; 0xA50AB56B;
   0x35B5A8FA; 0x42B2986C; 0xDBBBC9D6; 0xACBCF940; 0x32D86CE3; 0x45DF5C75; 0xDCD60DCF; 0xABD13D59;
   0x26D930AC; 0x51DE003A; 0xC8D75180; 0xBFD06116; 0x21B4F4B5; 0x56B3C423; 0xCFBA9599; 0xB8BDA50F;
   0x2802B89E; 0x5F058808; 0xC60CD9B2; 0xB10BE924; 0x2F6F7C87; 0x58684C11; 0xC1611DAB; 0xB6662D3D;
   0x76DC4190; 0x01DB7106; 0x98D220BC; 0xEFD5102A; 0x71B18589; 0x06B6B51F; 0x9FBFE4A5; 0xE8B8D433;
   0x7807C9A2; 0x0F00F934; 0x9609A88E; 0xE10E9818; 0x7F6A0DBB; 0x086D3D2D; 0x91646C97; 0xE6635C01;
   0x6B6B51F4; 0x1C6C6162; 0x856530D8; 0xF262004E; 0x6C0695ED; 0x1B01A57B; 0x8208F4C1; 0xF50FC457;
   0x65B0D9C6; 0x12B7E950; 0x8BBEB8EA; 0xFCB9887C; 0x62DD1DDF; 0x15DA2D49; 0x8CD37CF3; 0xFBD44C65;
   0x4DB26158; 0x3AB551CE; 0xA3BC0074; 0xD4BB30E2; 0x4ADFA541; 0x3DD895D7; 0xA4D1C46D; 0xD3D6F4FB;
   0x4369E96A; 0x346ED9FC; 0xAD678846; 0xDA60B8D0; 0x44042D73; 0x33031DE5; 0xAA0A4C5F; 0xDD0D7CC9;
   0x5005713C; 0x270241AA; 0xBE0B1010; 0xC90C2086; 0x5768B525; 0x206F85B3; 0xB966D409; 0xCE61E49F;
   0x5EDEF90E; 0x29D9C998; 0xB0D09822; 0xC7D7A8B4; 0x59B33D17; 0x2EB40D81; 0xB7BD5C3B; 0xC0BA6CAD;
   0xEDB88320; 0x9ABFB3B6; 0x03B6E20C; 0x74B1D29A; 0xEAD54739; 0x9DD277AF; 0x04DB2615; 0x73DC1683;
   0xE3630B12; 0x94643B84; 0x0D6D6A3E; 0x7A6A5AA8; 0xE40ECF0B; 0x9309FF9D; 0x0A00AE27; 0x7D079EB1;
   0xF00F9344; 0x8708A3D2; 0x1E01F268; 0x6906C2FE; 0xF762575D; 0x806567CB; 0x196C3671; 0x6E6B06E7;
   0xFED41B76; 0x89D32BE0; 0x10DA7A5A; 0x67DD4ACC; 0xF9B9DF6F; 0x8EBEEFF9; 0x17B7BE43; 0x60B08ED5;
   0xD6D6A3E8; 0xA1D1937E; 0x38D8C2C4; 0x4FDFF252; 0xD1BB67F1; 0xA6BC5767; 0x3FB506DD; 0x48B2364B;
   0xD80D2BDA; 0xAF0A1B4C; 0x36034AF6; 0x41047A60; 0xDF60EFC3; 0xA867DF55; 0x316E8EEF; 0x4669BE79;
   0xCB61B38C; 0xBC66831A; 0x256FD2A0; 0x5268E236; 0xCC0C7795; 0xBB0B4703; 0x220216B9; 0x5505262F;
   0xC5BA3BBE; 0xB2BD0B28; 0x2BB45A92; 0x5CB36A04; 0xC2D7FFA7; 0xB5D0CF31; 0x2CD99E8B; 0x5BDEAE1D;
   0x9B64C2B0; 0xEC63F226; 0x756AA39C; 0x026D930A; 0x9C0906A9; 0xEB0E363F; 0x72076785; 0x05005713;
   0x95BF4A82; 0xE2B87A14; 0x7BB12BAE; 0x0CB61B38; 0x92D28E9B; 0xE5D5BE0D; 0x7CDCEFB7; 0x0BDBDF21;
   0x86D3D2D4; 0xF1D4E242; 0x68DDB3F8; 0x1FDA836E; 0x81BE16CD; 0xF6B9265B; 0x6FB077E1; 0x18B74777;
   0x88085AE6; 0xFF0F6A70; 0x66063BCA; 0x11010B5C; 0x8F659EFF; 0xF862AE69; 0x616BFFD3; 0x166CCF45;
   0xA00AE278; 0xD70DD2EE; 0x4E048354; 0x3903B3C2; 0xA7672661; 0xD06016F7; 0x4969474D; 0x3E6E77DB;
   0xAED16A4A; 0xD9D65ADC; 0x40DF0B66; 0x37D83BF0; 0xA9BCAE53; 0xDEBB9EC5; 0x47B2CF7F; 0x30B5FFE9;
   0xBDBDF21C; 0xCABAC28A; 0x53B39330; 0x24B4A3A6; 0xBAD03605; 0xCDD70693; 0x54DE5729; 0x23D967BF;
   0xB3667A2E; 0xC4614AB8; 0x5D681B02; 0x2A6F2B94; 0xB40BBE37; 0xC30C8EA1; 0x5A05DF1B; 0x2D02EF8D].

(** ** The CRC *)

Definition all_ones : Z := 0xffffffffffffffff.
Definition INIT_CRC64 : Z := all_ones.
Definition FINI_CRC64 (crc : Z) : Z := Z.lxor crc all_ones.

(** One turn of the loop, and the loop over the bytes. *)
Definition crc64_turn (crc byte : Z) : Z :=
  let tab_index := Z.land (Z.lxor (i32 (Z.shiftr crc 56)) byte) 0xFF in
  Z.lxor (aget 0 pg_crc64_table tab_index) (u64 (Z.shiftl crc 8)).
Fixpoint COMP_CRC64 (crc : Z) (data : list Z) : Z :=
  match data with [] => crc | byte :: data => COMP_CRC64 (crc64_turn crc byte) data end.

Definition crc32_turn (crc byte : Z) : Z :=
  let tab_index := Z.land (Z.lxor (i32 (Z.shiftr crc 24)) byte) 0xFF in
  Z.lxor (aget 0 pg_crc32_table tab_index) (u32 (Z.shiftl crc 8)).

Definition EQ_CRC64 (c1 c2 : Z) : bool := c1 =? c2.
Definition eq_crc64 (c1 c2 : Z) : bool := EQ_CRC64 c1 c2.

(** ** The checksum of a block *)

(** [while (pos <= len)]: the 64 bytes before [pos]. *)
Fixpoint checksum_loop (fuel : nat) (block : list Z) (len pos checksum : Z) : Z :=
  match fuel with
  | O => checksum
  | S fuel =>
      if pos <=? len
      then checksum_loop fuel block len (pos + 1024) (COMP_CRC64 checksum (take 64 (drop (Z.to_nat (pos - 64)) block)))
      else checksum
  end.
Definition checksum_block (block : list Z) (len : Z) : Z :=
  FINI_CRC64 (checksum_loop (S (Z.to_nat (len / 1024))) block len 1024 INIT_CRC64).

(** ** Pages *)

(** The bytes of a page: the stamp, the rest of the header, and what follows from
    [pd_linp] on. *)
Record PageImage := mkImage {
  ph_checksum : Z;
  ph_header : list Z;
  ph_block : list Z }.
Definition checked_length : Z := BLCKSZ - linp_offset.

Definition PageInsertChecksum (disable_crc : bool) (page : PageImage) : PageImage :=
  mkImage (if disable_crc then InvalidCRC64 else u64 (checksum_block (ph_block page) checked_length)) (ph_header page) (ph_block page).
Definition PageInsertInvalidChecksum (page : PageImage) : PageImage := mkImage InvalidCRC64 (ph_header page) (ph_block page).
Definition PageConfirmChecksum (disable_crc : bool) (page : PageImage) : bool :=
  if disable_crc then true
  else if (ph_checksum page =? InvalidCRC64) || (ph_checksum page =? InitCRC64) then true
  else eq_crc64 (ph_checksum page) (checksum_block (ph_block page) checked_length).
Definition PageChecksumIsInvalid (page : PageImage) : bool := ph_checksum page =? InvalidCRC64.
Definition PageChecksumIsInit (page : PageImage) : bool := ph_checksum page =? InitCRC64.

(** The new value of [disable_crc], and whether it changed. *)
Definition DisableCRC (disable_crc enable : bool) : bool * bool :=
  let prev := disable_crc in
  let disable_crc := negb enable in
  (disable_crc, negb (Bool.eqb prev disable_crc)).

(** The start of the server: [property] is the setting [disable_crc], if there is one. *)
Definition crc_setting (property : option bool) : bool :=
  let disable_crc := (DisableCRC true true).1 in
  match property with Some b => (DisableCRC disable_crc b).1 | None => disable_crc end.


(** ** The reference: division by the polynomial, bit by bit *)

(** The coefficients of [x^64 + x^62 + x^57 + ... + x + 1] below [x^64]. *)
Definition poly64 : Z := 0x42F0E1EBA9EA3693.
Definition bit_step (r : Z) : Z := let s := u64 (Z.shiftl r 1) in if Z.testbit r 63 then Z.lxor s poly64 else s.
Definition byte_step (r byte : Z) : Z := Nat.iter 8 bit_step (Z.lxor r (Z.shiftl byte 56)).
Definition crc_reference (r : Z) (data : list Z) : Z := fold_left byte_step data r.

Definition is_byte (b : Z) : Prop := 0 <= b < 256.

(** *** Bits *)

Lemma testbit_byte b i : is_byte b -> 8 <= i -> Z.testbit b i = false.
Proof. intros Hb. apply testbit_above. unfold is_byte in Hb. lia. Qed.

Lemma u64_lxor a b : u64 (Z.lxor a b) = Z.lxor (u64 a) (u64 b).
Proof. apply Z.bits_inj'. intros i Hi. rewrite Z.lxor_spec, !testbit_u64, Z.lxor_spec. by destruct (i <? 64). Qed.

Lemma u64_u64 a : u64 (u64 a) = u64 a.
Proof. apply u64_id, u64_range. Qed.

Lemma bit_step_in64 r : u64 r = r -> u64 (bit_step r) = bit_step r.
Proof. intros H. unfold bit_step. cbn zeta. destruct (Z.testbit r 63); [by rewrite u64_lxor, u64_u64|apply u64_u64]. Qed.

Lemma bit_step_lxor x y : bit_step (Z.lxor x y) = Z.lxor (bit_step x) (bit_step y).
Proof.
  unfold bit_step. cbn zeta. rewrite Z.lxor_spec, Z.shiftl_lxor, u64_lxor. destruct (Z.testbit x 63), (Z.testbit y 63); cbn [xorb].
  - rewrite (Z.lxor_assoc (u64 (Z.shiftl x 1))), (Z.lxor_comm poly64), (Z.lxor_assoc (u64 (Z.shiftl y 1))), Z.lxor_nilpotent, Z.lxor_0_r. done.
  - by rewrite !Z.lxor_assoc, (Z.lxor_comm poly64).
  - by rewrite Z.lxor_assoc.
  - done.
Qed.

Lemma iter_lxor n x y : Nat.iter n bit_step (Z.lxor x y) = Z.lxor (Nat.iter n bit_step x) (Nat.iter n bit_step y).
Proof. induction n as [|n IH]; [done|]. simpl. by rewrite IH, bit_step_lxor. Qed.

Lemma iter_in64 n r : u64 r = r -> u64 (Nat.iter n bit_step r) = Nat.iter n bit_step r.
Proof. intros H. induction n as [|n IH]; [done|]. simpl. by apply bit_step_in64. Qed.

(** As long as nothing is shifted out, a step is a shift. *)
Lemma iter_shift n : forall x, 0 <= x < 2 ^ (64 - Z.of_nat n) -> Z.of_nat n <= 64 -> Nat.iter n bit_step x = Z.shiftl x (Z.of_nat n).
Proof.
  induction n as [|n IH]; intros x Hx Hn; [by rewrite Z.shiftl_0_r|]. rewrite Nat2Z.inj_succ in *. change (Nat.iter (S n) bit_step x) with (bit_step (Nat.iter n bit_step x)).
  assert (0 <= x < 2 ^ (64 - Z.of_nat n)) as Hx'.
  { split; [lia|]. eapply Z.lt_le_trans; [apply Hx|]. apply Z.pow_le_mono_r; lia. }
  rewrite IH by lia. unfold bit_step. cbn zeta. rewrite Z.shiftl_spec by lia. rewrite (testbit_above x (64 - Z.succ (Z.of_nat n))) by lia.
  rewrite Z.shiftl_shiftl by lia. replace (Z.of_nat n + 1) with (Z.succ (Z.of_nat n)) by lia. apply u64_id. rewrite Z.shiftl_mul_pow2 by lia.
  split; [apply Z.mul_nonneg_nonneg; lia|]. replace (2 ^ 64) with (2 ^ (64 - Z.succ (Z.of_nat n)) * 2 ^ Z.succ (Z.of_nat n)).
  - apply Z.mul_lt_mono_pos_r; lia.
  - rewrite <- Z.pow_add_r by lia. f_equal. lia.
Qed.

(** *** The table *)

Lemma table_checked : forallb (fun i => aget 0 pg_crc64_table i =? Nat.iter 8 bit_step (Z.shiftl i 56)) (seqZ 0 256) = true.
Proof. vm_compute. reflexivity. Qed.

Lemma table_entry i : is_byte i -> aget 0 pg_crc64_table i = Nat.iter 8 bit_step (Z.shiftl i 56).
Proof.
  intros Hi. pose proof table_checked as H. rewrite forallb_forall in H. apply Z.eqb_eq, H. apply list_elem_of_In, elem_of_seqZ. unfold is_byte in Hi. lia.
Qed.

Lemma low_part r : 0 <= Z.land r (Z.ones 56) < 2 ^ 56.
Proof. rewrite Z.land_ones by lia. apply Z.mod_pos_bound. lia. Qed.

(** A turn of the loop is eight steps of the division. *)
Lemma turn_step r b : u64 r = r -> is_byte b -> crc64_turn r b = byte_step r b.
Proof.
  intros Hr Hb. assert (0 <= r < 2 ^ 64) as Hr' by (rewrite <- Hr; apply u64_range).
  unfold crc64_turn. cbn zeta. rewrite i32_id.
  2:{ rewrite Z.shiftr_div_pow2 by lia. pose proof (Z.div_pos r (2 ^ 56)). pose proof (Z.div_lt_upper_bound r (2 ^ 56) (2 ^ 8)). lia. }
  change 0xFF with (Z.ones 8). set (h := Z.land _ (Z.ones 8)).
  assert (is_byte h) as Hh by (unfold h; rewrite Z.land_ones by lia; apply (Z.mod_pos_bound _ (2 ^ 8)); lia).
  unfold byte_step. assert (Z.lxor r (Z.shiftl b 56) = Z.lxor (Z.shiftl h 56) (Z.land r (Z.ones 56))) as ->.
  { apply Z.bits_inj'. intros i Hi. unfold h. rewrite !Z.lxor_spec, Z.land_spec, Z.testbit_ones_nonneg, !Z.shiftl_spec by lia.
    destruct (Z.ltb_spec i 56) as [Hlt|Hge].
    - rewrite !(Z.testbit_neg_r _ (i - 56)) by lia. rewrite xorb_false_r. by rewrite andb_true_r.
    - rewrite Z.land_spec, Z.lxor_spec, Z.shiftr_spec, Z.testbit_ones_nonneg by lia. replace (i - 56 + 56) with i by lia.
      rewrite andb_false_r, xorb_false_r. destruct (Z.ltb_spec (i - 56) 8); [by rewrite andb_true_r|].
      rewrite (testbit_byte b) by (done || lia). rewrite (testbit_above r 64) by lia. done. }
  rewrite iter_lxor, (table_entry h Hh). f_equal. rewrite iter_shift by (pose proof (low_part r); simpl; lia).
  apply Z.bits_inj'. intros i Hi. rewrite testbit_u64, !Z.shiftl_spec, Z.land_spec by lia. change (Z.of_nat 8) with 8.
  destruct (Z.ltb_spec i 8); [rewrite !(Z.testbit_neg_r _ (i - 8)) by lia; by rewrite andb_false_r|].
  rewrite Z.testbit_ones_nonneg by lia. destruct (Z.ltb_spec i 64), (Z.ltb_spec (i - 8) 56); try lia; cbn [andb];
    by rewrite ?andb_true_r, ?andb_false_r.
Qed.

Lemma byte_step_in64 r b : u64 r = r -> is_byte b -> u64 (byte_step r b) = byte_step r b.
Proof.
  intros Hr Hb. apply iter_in64. rewrite u64_lxor, Hr. f_equal. apply u64_id. rewrite Z.shiftl_mul_pow2 by lia. unfold is_byte in Hb. lia.
Qed.

Lemma comp_reference data : forall r, u64 r = r -> Forall is_byte data -> COMP_CRC64 r data = crc_reference r data.
Proof.
  induction data as [|b data IH]; intros r Hr H; [done|]. apply Forall_cons in H as [Hb H]. cbn [COMP_CRC64]. rewrite turn_step by done.
  rewrite IH; [done|by apply byte_step_in64|done].
Qed.

(** *** The division loses nothing *)

Lemma bit_step_0 r : Z.testbit (bit_step r) 0 = Z.testbit r 63.
Proof.
  unfold bit_step. cbn zeta. assert (Z.testbit (u64 (Z.shiftl r 1)) 0 = false) as E by (rewrite testbit_u64, Z.shiftl_spec by lia; by rewrite Z.testbit_neg_r).
  destruct (Z.testbit r 63); [|done]. by rewrite Z.lxor_spec, E.
Qed.

Lemma bit_step_inj r r' : u64 r = r -> u64 r' = r' -> bit_step r = bit_step r' -> r = r'.
Proof.
  intros Hr Hr' E. assert (Z.testbit r 63 = Z.testbit r' 63) as E63 by by rewrite <- !bit_step_0, E.
  assert (u64 (Z.shiftl r 1) = u64 (Z.shiftl r' 1)) as E1.
  { unfold bit_step in E. cbn zeta in E. rewrite <- E63 in E. destruct (Z.testbit r 63); [|done].
    apply (f_equal (fun x => Z.lxor x poly64)) in E. by rewrite !Z.lxor_assoc, Z.lxor_nilpotent, !Z.lxor_0_r in E. }
  apply Z.bits_inj'. intros i Hi. destruct (Z.lt_ge_cases i 63) as [Hlt|Hge].
  - apply (f_equal (fun x => Z.testbit x (i + 1))) in E1. rewrite !testbit_u64, !Z.shiftl_spec in E1 by lia. rewrite Z.add_simpl_r in E1.
    by destruct (Z.ltb_spec (i + 1) 64); [|lia].
  - destruct (decide (i = 63)) as [->|]; [done|]. rewrite <- Hr, <- Hr', !testbit_u64. by destruct (Z.ltb_spec i 64); [lia|].
Qed.

Lemma iter_inj n : forall r r', u64 r = r -> u64 r' = r' -> Nat.iter n bit_step r = Nat.iter n bit_step r' -> r = r'.
Proof. induction n as [|n IH]; intros r r' Hr Hr' E; [done|]. simpl in E. apply bit_step_inj in E; [by apply IH|by apply iter_in64|by apply iter_in64]. Qed.

Lemma lxor_cancel_r a b c : Z.lxor a c = Z.lxor b c -> a = b.
Proof. intros E. apply (f_equal (fun x => Z.lxor x c)) in E. by rewrite !Z.lxor_assoc, Z.lxor_nilpotent, !Z.lxor_0_r in E. Qed.

Lemma shift_byte_in64 b : is_byte b -> u64 (Z.shiftl b 56) = Z.shiftl b 56.
Proof. intros Hb. apply u64_id. rewrite Z.shiftl_mul_pow2 by lia. unfold is_byte in Hb. lia. Qed.

Lemma reference_in64 data : forall r, u64 r = r -> Forall is_byte data -> u64 (crc_reference r data) = crc_reference r data.
Proof. induction data as [|b data IH]; intros r Hr H; [done|]. apply Forall_cons in H as [Hb H]. apply (IH (byte_step r b)); [by apply byte_step_in64|done]. Qed.

(** After equal data, different registers stay different. *)
Lemma reference_inj data : forall r r', u64 r = r -> u64 r' = r' -> Forall is_byte data ->
  crc_reference r data = crc_reference r' data -> r = r'.
Proof.
  induction data as [|b data IH]; intros r r' Hr Hr' H E; [done|]. apply Forall_cons in H as [Hb H].
  apply (IH (byte_step r b) (byte_step r' b)) in E; [|by apply byte_step_in64|by apply byte_step_in64|done].
  apply iter_inj in E; [by apply lxor_cancel_r in E| |]; rewrite u64_lxor, shift_byte_in64 by done; congruence.
Qed.

(** *** Eight bytes *)

(** The bytes at the top of a 64-bit word, the first one highest. *)
Fixpoint word_of (d : list Z) : Z := match d with [] => 0 | b :: d => Z.lxor (Z.shiftl b 56) (Z.shiftr (word_of d) 8) end.

Lemma word_bits d : Forall is_byte d -> (length d <= 8)%nat -> forall i, 0 <= i ->
  (64 <= i \/ i < 64 - 8 * Zlen d) -> Z.testbit (word_of d) i = false.
Proof.
  induction 1 as [|b d Hb _ IH]; intros Hl i Hi Hout; [apply Z.bits_0|]. cbn [word_of length] in *.
  rewrite Z.lxor_spec, Z.shiftl_spec, Z.shiftr_spec by lia. rewrite (IH ltac:(lia) (i + 8)) by lia.
  destruct Hout; [rewrite (testbit_byte b) by (done || lia)|rewrite Z.testbit_neg_r by lia]; done.
Qed.

Lemma word_in64 d : Forall is_byte d -> (length d <= 8)%nat -> u64 (word_of d) = word_of d.
Proof.
  intros H Hl. apply Z.bits_inj'. intros i Hi. rewrite testbit_u64. destruct (Z.ltb_spec i 64); [done|]. symmetry. apply word_bits; try done. lia.
Qed.

Lemma word_shift d : Forall is_byte d -> (length d <= 7)%nat -> Nat.iter 8 bit_step (Z.shiftr (word_of d) 8) = word_of d.
Proof.
  intros H Hl. pose proof (word_in64 d H ltac:(lia)) as H64. assert (0 <= word_of d < 2 ^ 64) as Hr by (rewrite <- H64; apply u64_range).
  rewrite iter_shift.
  - apply Z.bits_inj'. intros i Hi. change (Z.of_nat 8) with 8. rewrite Z.shiftl_spec by lia. destruct (Z.lt_ge_cases i 8).
    + rewrite Z.testbit_neg_r by lia. symmetry. apply word_bits; try done; lia.
    + rewrite Z.shiftr_spec by lia. f_equal. lia.
  - rewrite Z.shiftr_div_pow2 by lia. change (2 ^ (64 - Z.of_nat 8)) with (2 ^ 56). pose proof (Z.div_pos (word_of d) (2 ^ 8)).
    pose proof (Z.div_lt_upper_bound (word_of d) (2 ^ 8) (2 ^ 56)). lia.
  - simpl. lia.
Qed.

(** Up to eight bytes are read as one word. *)
Lemma reference_word d : Forall is_byte d -> (length d <= 8)%nat -> forall r,
  crc_reference r d = Nat.iter (8 * length d) bit_step (Z.lxor r (word_of d)).
Proof.
  induction 1 as [|b d Hb H IH]; intros Hl r; [by rewrite Z.lxor_0_r|]. cbn [length] in Hl.
  change (crc_reference r (b :: d)) with (crc_reference (byte_step r b) d). rewrite IH by lia. cbn [length].
  replace (8 * S (length d))%nat with (8 * length d + 8)%nat by lia. rewrite Nat.iter_add. f_equal. unfold byte_step. cbn [word_of].
  by rewrite <- Z.lxor_assoc, (iter_lxor 8 (Z.lxor r (Z.shiftl b 56)) (Z.shiftr (word_of d) 8)), word_shift by (done || lia).
Qed.

Lemma word_inj d : forall d', Forall is_byte d -> Forall is_byte d' -> length d = length d' -> (length d <= 8)%nat -> word_of d = word_of d' -> d = d'.
Proof.
  induction d as [|b d IH]; intros d' H H' Hl H8 E; [by destruct d'|]. destruct d' as [|b' d']; [done|].
  apply Forall_cons in H as [Hb H]. apply Forall_cons in H' as [Hb' H']. cbn [length word_of] in *.
  assert (forall i, 0 <= i -> xorb (Z.testbit b (i - 56)) (Z.testbit (word_of d) (i + 8)) = xorb (Z.testbit b' (i - 56)) (Z.testbit (word_of d') (i + 8))) as Hbit.
  { intros i Hi. apply (f_equal (fun x => Z.testbit x i)) in E. by rewrite !Z.lxor_spec, !Z.shiftl_spec, !Z.shiftr_spec in E by lia. }
  assert (b = b') as ->.
  { apply Z.bits_inj'. intros i Hi. specialize (Hbit (i + 56) ltac:(lia)). rewrite Z.add_simpl_r in Hbit.
    by rewrite !word_bits, !xorb_false_r in Hbit by (done || lia). }
  f_equal. apply IH; try done; [lia|lia|]. apply Z.bits_inj'. intros i Hi. destruct (Z.lt_ge_cases i 8).
  - rewrite !word_bits by (done || lia). done.
  - specialize (Hbit (i - 8) ltac:(lia)). rewrite Z.sub_add in Hbit.
    destruct (Z.testbit b' (i - 8 - 56)); by destruct (Z.testbit (word_of d) i), (Z.testbit (word_of d') i).
Qed.

(** A change of up to eight consecutive bytes changes the CRC. *)
Lemma crc_burst r pre d d' post : u64 r = r -> Forall is_byte pre -> Forall is_byte d -> Forall is_byte d' -> Forall is_byte post ->
  length d = length d' -> (length d <= 8)%nat -> COMP_CRC64 r (pre ++ d ++ post) = COMP_CRC64 r (pre ++ d' ++ post) -> d = d'.
Proof.
  intros Hr Hpre Hd Hd' Hpost Hl H8. rewrite (comp_reference (pre ++ d ++ post)), (comp_reference (pre ++ d' ++ post)); try exact Hr;
    try (apply Forall_app; split; [exact Hpre|apply Forall_app; split; assumption]).
  unfold crc_reference. rewrite !fold_left_app. fold (crc_reference r pre). set (r0 := crc_reference r pre).
  assert (u64 r0 = r0) as Hr0 by by apply reference_in64.
  intros E. apply (reference_inj post) in E; [|by apply (reference_in64 d)|by apply (reference_in64 d')|done].
  change (crc_reference r0 d = crc_reference r0 d') in E. rewrite !reference_word in E by (done || lia). rewrite <- Hl in E.
  apply iter_inj in E; [|by rewrite u64_lxor, word_in64, Hr0|rewrite u64_lxor, word_in64, Hr0 by (done || lia); done].
  rewrite !(Z.lxor_comm r0) in E. apply lxor_cancel_r in E. apply word_inj; done.
Qed.

(** ** What is sampled *)

(** The last 64 bytes of each of the first [n] kilobytes. *)
Fixpoint sample (n : nat) (block : list Z) : list Z :=
  match n with O => [] | S n => take 64 (drop 960 block) ++ sample n (drop 1024 block) end.

Lemma comp_app a b : forall r, COMP_CRC64 r (a ++ b) = COMP_CRC64 (COMP_CRC64 r a) b.
Proof. induction a as [|x a IH]; intros r; [done|]. apply IH. Qed.

Lemma checksum_loop_sample n : forall fuel block len k crc, (n < fuel)%nat -> 0 <= k -> k + Z.of_nat n = len / 1024 ->
  checksum_loop fuel block len (1024 * (k + 1)) crc = COMP_CRC64 crc (sample n (drop (Z.to_nat (1024 * k)) block)).
Proof.
  induction n as [|n IH]; intros fuel block len k crc Hf Hk Hn; (destruct fuel as [|fuel]; [lia|]); cbn [checksum_loop sample];
    pose proof (Z.div_mod len 1024 ltac:(lia)); pose proof (Z.mod_pos_bound len 1024 ltac:(lia)).
  - by destruct (Z.leb_spec (1024 * (k + 1)) len); [lia|].
  - destruct (Z.leb_spec (1024 * (k + 1)) len); [|lia]. rewrite comp_app, !drop_drop.
    replace (Z.to_nat (1024 * k) + 960)%nat with (Z.to_nat (1024 * (k + 1) - 64)) by lia.
    replace (Z.to_nat (1024 * k) + 1024)%nat with (Z.to_nat (1024 * (k + 1))) by lia.
    replace (1024 * (k + 1) + 1024) with (1024 * (k + 1 + 1)) by lia. apply IH; lia.
Qed.

Lemma checksum_sample block len : 0 <= len -> checksum_block block len = FINI_CRC64 (COMP_CRC64 INIT_CRC64 (sample (Z.to_nat (len / 1024)) block)).
Proof.
  intros Hl. unfold checksum_block. pose proof (Z.div_pos len 1024). rewrite (checksum_loop_sample (Z.to_nat (len / 1024)) _ block len 0) by lia. done.
Qed.

Lemma sample_bytes n : forall block, Forall is_byte block -> Forall is_byte (sample n block).
Proof. induction n as [|n IH]; intros block H; [constructor|]. apply Forall_app. split; [by apply Forall_take, Forall_drop|by apply IH, Forall_drop]. Qed.

(** Bytes outside of the windows do not matter. *)
Definition sampled (i : nat) : Prop := (960 <= i mod 1024)%nat.

Lemma sample_ext n : forall b b', length b = length b' ->
  (forall i, (i < 1024 * n)%nat -> sampled i -> b !! i = b' !! i) -> sample n b = sample n b'.
Proof.
  induction n as [|n IH]; intros b b' Hl H; [done|]. cbn [sample]. f_equal.
  - apply list_eq. intros i. destruct (Nat.lt_ge_cases i 64) as [Hi|Hi].
    + rewrite !lookup_take_lt, !lookup_drop by lia. apply H; [lia|]. unfold sampled. rewrite Nat.mod_small by lia. lia.
    + rewrite !lookup_ge_None_2; [done| |]; rewrite length_take; lia.
  - apply IH; [rewrite !length_drop; lia|]. intros i Hi Hs. rewrite !lookup_drop. apply H; [lia|]. unfold sampled in *.
    replace (1024 + i)%nat with (i + 1 * 1024)%nat by lia. by rewrite Nat.Div0.mod_add.
Qed.

(** A block with other bytes from [i] on. *)
Definition overwrite (i : nat) (d block : list Z) : list Z := take i block ++ d ++ drop (i + length d) block.

Lemma sample_overwrite n : forall k j m block, (k < n)%nat -> (j + m <= 64)%nat -> (1024 * n <= length block)%nat ->
  exists pre post, forall d, length d = m -> sample n (overwrite (1024 * k + 960 + j) d block) = pre ++ d ++ post.
Proof.
  induction n as [|n IH]; intros k j m block Hk Hj Hl; [lia|]. destruct k as [|k].
  - set (P := take j (drop 960 block)). set (R := drop (960 + j + m) block). exists P, (take (64 - j - m) R ++ sample n (drop (64 - j - m) R)).
    intros d Hd. unfold overwrite. cbn [sample]. replace (1024 * 0 + 960 + j)%nat with (960 + j)%nat by lia. rewrite Hd. fold R.
    assert (take (960 + j) block = take 960 block ++ P) as E1.
    { unfold P. rewrite <- (take_drop 960 (take (960 + j) block)). rewrite take_take, Nat.min_l by lia. f_equal. by rewrite <- take_drop_commute. }
    rewrite E1, <- (assoc_L (++)). assert (length (take 960 block) = 960%nat) as L1 by (rewrite length_take; lia).
    assert (length P = j) as LP by (unfold P; rewrite length_take, length_drop; lia).
    rewrite (drop_app_length' (take 960 block)) by done. replace 1024%nat with (length (take 960 block) + 64)%nat by lia.
    rewrite <- drop_drop, drop_app_length. assert (length (P ++ d) = (j + m)%nat) as LPd by (rewrite length_app; lia).
    assert (take 64 ((P ++ d) ++ R) = (P ++ d) ++ take (64 - j - m) R) as E2.
    { rewrite take_app_ge by lia. f_equal. f_equal. lia. }
    assert (drop 64 ((P ++ d) ++ R) = drop (64 - j - m) R) as E3.
    { rewrite drop_app_ge by lia. f_equal. lia. }
    rewrite (assoc_L (++) P d R), E2, E3. by rewrite <- !(assoc_L (++)).
  - destruct (IH k j m (drop 1024 block)) as (pre & post & H); [lia|lia|rewrite length_drop; lia|].
    exists (take 64 (drop 960 block) ++ pre), post. intros d Hd. specialize (H d Hd). cbn [sample].
    assert (drop 1024 (overwrite (1024 * S k + 960 + j) d block) = overwrite (1024 * k + 960 + j) d (drop 1024 block)) as ->.
    { unfold overwrite. rewrite drop_app_le by (rewrite length_take; lia). rewrite drop_drop.
      replace (1024 * S k + 960 + j)%nat with (1024 + (1024 * k + 960 + j))%nat by lia.
      rewrite <- take_drop_commute, Nat.add_assoc. done. }
    rewrite H, <- (assoc_L (++)). f_equal. unfold overwrite. rewrite drop_app_le by (rewrite length_take; lia).
    rewrite take_app_le by (rewrite length_drop, length_take; lia).
    apply list_eq. intros i. destruct (Nat.lt_ge_cases i 64) as [Hi|Hi].
    + rewrite !lookup_take_lt, !lookup_drop, lookup_take_lt by lia. done.
    + rewrite !lookup_ge_None_2; [done| |]; rewrite length_take; lia.
Qed.

(** ** Theorems *)

Lemma checked_kilobytes : checked_length / 1024 = 7.
Proof. reflexivity. Qed.

Lemma fini_inj a b : FINI_CRC64 a = FINI_CRC64 b -> a = b.
Proof. apply lxor_cancel_r. Qed.

Lemma block_sum_in64 block : Forall is_byte block -> u64 (checksum_block block checked_length) = checksum_block block checked_length.
Proof.
  intros H. rewrite checksum_sample by done. unfold FINI_CRC64. rewrite u64_lxor. f_equal. rewrite comp_reference; [|done|by apply sample_bytes].
  apply reference_in64; [done|by apply sample_bytes].
Qed.

(** C34: the CRC is what its definition says: reading the data a byte at a time through the table of
    256 words is dividing by the polynomial of ECMA-182, one bit at a time, for any
    data and any register. *)
Theorem crc64_table_driven r data : 0 <= r < 2 ^ 64 -> Forall is_byte data -> COMP_CRC64 r data = crc_reference r data.
Proof. intros Hr. apply comp_reference. by apply u64_id. Qed.

(** C33: the stamp of a page detects damage in the sampled parts.  A page that was stamped is confirmed;
    if up to eight consecutive bytes of a window that is sampled come back different, whatever
    happened to the rest of the header, it is not, unless the stamp is one of the two
    reserved values. *)
Theorem page_checksum_detects page header k j d : let stamped := PageInsertChecksum false page in
  Zlen (ph_block page) = checked_length -> Forall is_byte (ph_block page) -> Forall is_byte d ->
  (k < 7)%nat -> (j + length d <= 64)%nat -> (length d <= 8)%nat ->
  ph_checksum stamped <> InvalidCRC64 -> ph_checksum stamped <> InitCRC64 ->
  let read := mkImage (ph_checksum stamped) header (overwrite (1024 * k + 960 + j) d (ph_block page)) in
  PageConfirmChecksum false stamped = true /\ (ph_block read <> ph_block page -> PageConfirmChecksum false read = false).
Proof.
  intros stamped Hlen Hb Hd Hk Hj H8 Hc0 Hc1 read. unfold PageConfirmChecksum, eq_crc64, EQ_CRC64. cbn [ph_checksum ph_block read].
  destruct (Z.eqb_spec (ph_checksum stamped) InvalidCRC64); [done|]. destruct (Z.eqb_spec (ph_checksum stamped) InitCRC64); [done|]. cbn [orb].
  unfold stamped. cbn [PageInsertChecksum ph_checksum ph_block]. rewrite block_sum_in64 by done. split; [apply Z.eqb_refl|].
  intros Hne. apply Z.eqb_neq. intros E. apply Hne. change (Zlen (ph_block page) = 8168) in Hlen.
  rewrite !checksum_sample in E by done. apply fini_inj in E. rewrite checked_kilobytes in E. change (Z.to_nat 7) with 7%nat in E.
  set (i := (1024 * k + 960 + j)%nat) in *. set (d0 := take (length d) (drop i (ph_block page))).
  destruct (sample_overwrite 7 k j (length d) (ph_block page) Hk Hj ltac:(lia)) as (pre & post & Hs). fold i in Hs.
  assert (length d0 = length d) as Hl by (unfold d0; rewrite length_take, length_drop; unfold i; lia).
  assert (overwrite i d0 (ph_block page) = ph_block page) as E0.
  { unfold overwrite. rewrite Hl. unfold d0. rewrite <- drop_drop. by rewrite take_drop, take_drop. }
  pose proof (Hs d0 Hl) as H0. rewrite E0 in H0. pose proof (Hs d eq_refl) as H1. rewrite H0, H1 in E.
  pose proof (sample_bytes 7 _ Hb) as Hall. rewrite H0 in Hall. apply Forall_app in Hall as [Hpre Hall]. apply Forall_app in Hall as [Hd0 Hpost].
  apply crc_burst in E; try done; [|lia]. rewrite <- E. exact E0.
Qed.

(** C39: what is not sampled is not protected.  Only the last 64 bytes of each of the first seven kilobytes
    behind the header are read: damage anywhere else, the bounds in the header and the whole
    last kilobyte of the page included, is confirmed as sound. *)
Theorem page_checksum_blind page header block :
  Forall is_byte (ph_block page) -> length block = length (ph_block page) ->
  (forall i, (i < 7168)%nat -> sampled i -> block !! i = ph_block page !! i) ->
  PageConfirmChecksum false (mkImage (ph_checksum (PageInsertChecksum false page)) header block) = true.
Proof.
  intros Hb Hl H. unfold PageConfirmChecksum, eq_crc64, EQ_CRC64. cbn [ph_checksum ph_block PageInsertChecksum]. destruct (_ || _); [done|].
  rewrite block_sum_in64, !checksum_sample by done. apply Z.eqb_eq. f_equal. f_equal. symmetry. apply sample_ext; [done|]. exact H.
Qed.

(** The setting [disable_crc] does the opposite of its name, and so does the call that is
    to make no CRC the default. *)
Theorem crc_setting_inverted : crc_setting None = false /\ forall b, crc_setting (Some b) = negb b.
Proof. split; [done|]. by intros []. Qed.

(** A page whose CRC happens to be the invalid stamp is never checked. *)
Definition unlucky_block : list Z := replicate 7160 0 ++ [163; 236; 8; 141; 114; 3; 95; 105] ++ replicate 1000 0.
Theorem unlucky_page_unchecked header block : let stamped := PageInsertChecksum false (mkImage 0 [] unlucky_block) in
  ph_checksum stamped = InvalidCRC64 /\ PageConfirmChecksum false (mkImage (ph_checksum stamped) header block) = true.
Proof.
  assert (ph_checksum (PageInsertChecksum false (mkImage 0 [] unlucky_block)) = InvalidCRC64) as E by (vm_compute; reflexivity).
  cbn zeta. rewrite E. split; reflexivity.
Qed.

(** The 32-bit routine shifts to the left, as a normal CRC does, but its table is that of the
    reflected CRC, which shifts to the right. *)
Definition reflected_step (r : Z) : Z := if Z.testbit r 0 then Z.lxor (Z.shiftr r 1) 0xEDB88320 else Z.shiftr r 1.
Definition normal_step (r : Z) : Z := if Z.testbit r 31 then Z.lxor (u32 (Z.shiftl r 1)) 0x04C11DB7 else u32 (Z.shiftl r 1).
Theorem crc32_table_reflected :
  (forall i, is_byte i -> aget 0 pg_crc32_table i = Nat.iter 8 reflected_step i) /\
  crc32_turn 0 1 <> Nat.iter 8 normal_step (Z.shiftl 1 24).
Proof.
  split; [|vm_compute; discriminate]. intros i Hi.
  assert (forallb (fun i => aget 0 pg_crc32_table i =? Nat.iter 8 reflected_step i) (seqZ 0 256) = true) as H by (vm_compute; reflexivity).
  rewrite forallb_forall in H. apply Z.eqb_eq, H, list_elem_of_In, elem_of_seqZ. unfold is_byte in Hi. lia.
Qed.

(** ** Witnesses *)

Lemma crc64_table_driven_witness : COMP_CRC64 INIT_CRC64 [1; 2; 3] = crc_reference INIT_CRC64 [1; 2; 3].
Proof. apply crc64_table_driven; [vm_compute; split; [discriminate|reflexivity]|]. repeat constructor; discriminate. Defined.

Definition zero_page : PageImage := mkImage 0 [] (replicate 8168 0).
Lemma zero_bytes n : Forall is_byte (replicate n 0).
Proof. apply Forall_replicate. unfold is_byte. lia. Qed.

Lemma page_checksum_detects_witness :
  PageConfirmChecksum false (mkImage (ph_checksum (PageInsertChecksum false zero_page)) [] (overwrite 2000 [7] (ph_block zero_page))) = false.
Proof.
  apply (page_checksum_detects zero_page [] 1 16 [7]).
  - reflexivity.
  - apply zero_bytes.
  - repeat constructor; discriminate.
  - lia.
  - simpl. lia.
  - simpl. lia.
  - vm_compute. discriminate.
  - vm_compute. discriminate.
  - vm_compute. discriminate.
Defined.

Lemma page_checksum_blind_witness :
  PageConfirmChecksum false (mkImage (ph_checksum (PageInsertChecksum false zero_page)) [255; 255] (replicate 7168 0 ++ replicate 1000 7)) = true.
Proof.
  apply page_checksum_blind.
  - apply zero_bytes.
  - reflexivity.
  - intros i Hi _. rewrite lookup_app_l by (rewrite length_replicate; lia). change (ph_block zero_page) with (replicate 8168 0).
    transitivity (Some 0); [by apply lookup_replicate_2|symmetry; apply lookup_replicate_2].
    apply (Nat.lt_trans _ _ _ Hi), Nat.ltb_lt. vm_compute. reflexivity.
Defined.

End Checksum.
